(* ===== verification/_CoqProject ===== *)
-Q . S2P
Prelude.v
UString.v
Errors.v
Calendar.v
Duration.v
Zone.v
Cron.v
Kinds.v
ScheduleStore.v
Scheduler.v
Split.v
DeliveryKey.v
OutboxStore.v
Outbox.v
OutboxLive.v
SessionKey.v
Inbox.v
Principal.v
Origin.v
Router.v
OperatorKeys.v
FrontDoor.v
RouteTable.v
Reach.v
Owner.v
Serving.v
Reload.v
Lease.v
Bus.v
Streams.v
Regex.v
Policy.v
Trust.v
Json.v
Number.v
Rounding.v
JsonParse.v
Utf8.v
Tar.v
Tools.v
Phases.v
Step.v
Semver.v
Address.v
Editor.v
Coerce.v
Paths.v
Files.v
Images.v
Post.v
Sse.v
TurnStream.v
Webhook.v
WebhookQueue.v
Team.v
Scopes.v
Rooms.v
TeamRoutes.v
Hub.v
HubGuard.v
HubLive.v
Messages.v
Stages.v
Budget.v
Ladder.v
Assemble.v
Dialect.v
Nlt.v
NltWrite.v
NltStream.v
Native.v
NltRender.v
Execute.v
NltTurn.v
Silence.v
Turn.v
NativeTurn.v
