(* ===== verification/Prelude.v ===== *)
(** * Dispach: the core of the agent runtime, modelled and proved

    Dispach runs agents from manifests: a runtime loads them, takes a lease on each, feeds
    them turns from a terminal, an HTTP client, a channel or a schedule, calls a model, runs
    the tools it asks for under a policy, streams what happens to whoever is watching, and
    delivers the reply. This library is a shallow embedding of the parts of
    [packages/core/src], [packages/server/src], [packages/client/src] and [packages/cli/src] that
    decide things, with the theorems that make those decisions correct.

    ** Conventions

    A definition keeps the name of the function it translates. An exception is the [Err] of
    [result]; [undefined] is [None]; a JavaScript string is the list of its UTF-16 code
    units ([UString]) except in [Editor], where it is the list of its code points, and
    integers are [Z] with 32-bit wrap-around written out where the code asks for it
    ([Kinds.hash]). A class's fields are a record, its methods functions on that record; a
    table is a list of rows in insertion order or a [gmap], and a prepared SQL statement is
    the function it denotes. An asynchronous method is cut at its [await]s, and a step
    relation resumes the suspended pieces in any order ([Scheduler], [Outbox], [Lease]); a
    synchronous one is a single step ([Bus], [Streams]). Timestamps are integers of
    milliseconds where the code stores ISO text.

    What the platform or the operating system decides is a class whose instance is a
    parameter of the theorems: [Zone.TimeZoneDatabase] and [Kinds.Platform] ([Intl] and
    [Date.parse]), [Split.Segmenter] ([Intl.Segmenter]), [Outbox.PathModule]
    ([path.basename]), [Lease.Probe] and [Lease.Host] (processes and their executables),
    [Origin.UrlHost] ([new URL]), [OperatorKeys.Digest] (SHA-256), [Webhook.Hmac],
    [Webhook.FromBase64] and [Webhook.UrlParser], and [Images.FileSystem] (files and [realpath]).
    Elsewhere it is an argument: [Execute.World] is what handlers, approvers and the clock
    answer, [Turn.StepEnv] what a step of a turn meets, and the summariser of a compaction, the
    directory of a shell and the real path of a file are given to the definitions that ask.

    ** Layers and files

    - Language: this file (results, arrays, reachability), [UString] (strings), [Calendar]
      ([Date.UTC]), [Regex] (the backtracking matcher, with a declarative semantics that is
      proved equal to it), [Json], [Number] and [JsonParse] ([JSON.stringify], the doubles a
      number literal denotes and their shortest text, [JSON.parse]), [Rounding] (arithmetic on
      doubles), [Utf8] ([TextEncoder] and the
      streaming [TextDecoder]), [Errors] ([errors.ts]).
    - Schedules, [schedule/]: [Duration] ([duration.ts]), [Zone] ([zone.ts]), [Cron]
      ([cron.ts]), [Kinds] ([kinds.ts]), [ScheduleStore] (the [schedules] table of
      [store/sqlite/store.ts]) and [Scheduler] ([scheduler.ts]). [Scheduler] calls
      [ScheduleStore] for rows and [Kinds.decideDue] for what to do with one, which calls
      [Cron.nextCron], which calls [Zone.instantFrom].
    - Delivery, [channels/]: [Split] ([split.ts]), [DeliveryKey] (the keys of
      [outbox.ts]), [OutboxStore] (the [outbox] table) and [Outbox] (the rest of
      [outbox.ts]). [Outbox.enqueueReport] splits with [Split.splitMessage], names rows with
      [DeliveryKey] and writes them with [OutboxStore.enqueue]; a worker claims a row, sends
      it and records the outcome. [OutboxLive] follows polling to its end. [SessionKey]
      ([store/session-key.ts]) composes and reads the key a conversation lives under, and
      [Inbox] ([inbox.ts]) is the gate what comes in passes.
    - The server, [packages/server/src]: [Origin] ([origin.ts]), [Router] ([router.ts]),
      [Principal] ([principal.ts]), [OperatorKeys] ([auth/keys.ts] and the [operator_keys]
      table), [FrontDoor] ([auth.ts], [keys.ts] and the dispatcher of [handler.ts], requests in
      flight being tasks cut at their [await]s), [RouteTable] (the routes [createHandler] adds),
      [Reach] (the scope checks of the handlers, over the rows they read and write), [Images]
      ([core/src/media/image-input.ts]) and [Post] (the message route, from a body to the start of
      its turn, and the keys a request can be retried under), which calls [Images] for what is
      shown to the model, and [Tar] ([tar.ts], the backup).
    - Who serves: [Lease] ([runtime/lease.ts], the [runtime_leases] table, and the calls of
      [runtime/runtime.ts] that claim, beat and release), [Serving] (the slots, the queues of
      sessions and the held turns of [runtime/agent.ts] with the [reload], [dispose] and [adopt] of
      [runtime/runtime.ts], every call a task cut at its [await]s), [Reload] (what holds while an
      instance is replaced) and [Owner] ([runtime/owner.ts], [loop/sender.ts] and the session a
      turn runs in).
    - Watching a turn: [Bus] ([events/bus.ts]) and [Streams] ([store/buffer.ts]), a
      subscriber of the bus that buffers each turn and hands it to clients; [Sse] (the frames and
      the response of [server/src/sse.ts], and their reader [core/src/model/sse.ts]); and
      [TurnStream], the two ends of a connection: [streamTurn] and [finishedStream] of
      [handler.ts], which attach to [Streams] and write [Sse] frames, and the items and the text
      [packages/client/src/stream.ts] makes of their bytes.
    - Telling others: [Webhook] ([webhooks/webhooks.ts]: signatures, the allowlist and the check of a
      target, which asks [Address], who hears what, and the route that creates a subscription within
      [Reach.webhook_scope]) and [WebhookQueue] (its two tables in [store/sqlite/store.ts] and the
      dispatcher, an attempt being a task cut at its [await]s, in any number of processes that share
      the tables).
    - People and agents: [Team] (the tables of [store/sqlite/conversations.ts] and the names of
      [runtime/conversations.ts]), [Scopes] ([memory/scopes.ts] and the notes), [Rooms] (the calls
      that only touch the tables, and whom a message is handed to), [Hub] (the rest of
      [runtime/conversations.ts]: queues per agent and conversation, stand-ins and their timers,
      decisions; jobs and calls run between two [await]s), [HubGuard] and [HubLive] (what holds of
      it), and [TeamRoutes] (the routes of [handler.ts] over [Principal] that lead to them).
    - Tools and trust: [Policy] ([tools/policy.ts]), [Trust] ([tools/trust.ts],
      [tools/sanitise.ts]), [Tools] (what a tool declares and the lookups of
      [tools/registry.ts]), [Coerce] ([tools/coerce.ts], [nearest.ts]), [Execute]
      ([tools/execute.ts]), [Phases] ([loop/phases.ts]), and the file tools of
      [packages/tools-system/src]: [Paths] ([root.ts], [protect.ts], [resolvePath]) and
      [Files] ([files.ts]). [Execute] plans a step's calls with [Tools.resolve] and
      [Coerce.coerceArgs], asks [Policy.authorize] about each with the taint so far, and
      renders what comes back.
    - Context: [Messages] (messages, [context/tokens.ts], [ids.ts]), [Budget]
      ([context/budget.ts]), [Stages] and [Ladder] ([context/compaction/]), [Assemble]
      ([context/assemble.ts], [blocks.ts], [activate.ts]).
    - Turns: [Step] ([loop/step.ts]), [Silence] ([loop/silence.ts], [loop/turn-end.ts]),
      [Dialect] and [Native] ([tools/dialect/dialect.ts], [native.ts]), [Turn]
      ([loop/turn.ts]) and [NativeTurn], the loop composed with the native dialect; and the
      natural-language dialect of [tools/dialect/nlt.ts]: [Nlt] (the line machine that reads
      calls), [NltWrite] (the calls it reads exactly), [NltStream] (the filter that shows a
      reply while it is written, driving the same machine), [NltRender] (the catalogue, what
      [not-enabled.ts] and [prose.ts] say) and [NltTurn] (from the text to the plan). A step of
      [Turn] is a small state monad whose stages are the source's, in its order: assemble
      ([Assemble]), compact ([Ladder]), ask, read ([Dialect]), guard, run the calls, note what
      they did, observe or repair.
    - Pure gates: [Semver] ([plugins/semver.ts]), [Address] ([net/address.ts]).
    - The terminal: [Editor] ([packages/cli/src/editor.ts]).

    ** What is shown

    - Schedules. Every accepted cron expression can run ([Cron.parseCron_well_formed]);
      [nextCron] is a search of wall-clock readings in their local order, in every zone: what it
      finds is read back in the zone, a reading that occurs twice is its earlier instant, and what
      it passes over the zone does not show ([Cron.nextCron_first_occurrence]); that is the least
      instant where the clock never jumps ([Cron.nextCron_least_instant]) and, on a fall-back, not
      always a later one ([Cron.nextCron_fall_back_in_the_past]); an instant computed for a
      wall-clock reading shows that reading ([Zone.instantFrom_reads_back]); an interval schedule never drifts
      ([Kinds.every_anchors_no_drift]) and a cron schedule catches up exactly
      ([Kinds.decideDue_cron]). The due query is exact and reconciling a manifest deletes
      only its own rows ([ScheduleStore]). No schedule overlaps itself as long
      as wakes and the bookkeeping of runs do not interleave, rejected store calls included
      ([Scheduler.one_run_per_schedule]; interleaved ones do, [Scheduler.interleaved_wake_overlaps]);
      a handled row is no longer due and a stopped scheduler arms nothing ([Scheduler]).
    - Delivery. A reply is split within the cap without altering a character or leaving a
      fence open ([Split]); keys are injective ([DeliveryKey]); the queue hands out heads of
      line only ([OutboxStore]); and in every interleaving of workers, crashes and
      recoveries a chunk that is not flagged
      uncertain is taken by the provider at most once, but for sends that reported a failure the
      provider did not have ([Outbox.delivered_at_most_once],
      [Outbox.timed_out_send_repeats_unflagged]), chunks leave in order, and enqueueing twice is
      enqueueing once ([Outbox]); polling settles every delivery ([OutboxLive]). A session key leads back to where it came from
      ([SessionKey]) and the inbound gate lets in who is named, once ([Inbox]).
    - The server. Whatever interleaves, a handler runs past the origin guard and as what the
      credential makes of its caller, with the capability of the route ([FrontDoor.front_door],
      [RouteTable.api_guarded]); the boot claim mints one key; on the routes modelled, a scoped key
      changes nothing outside its reach, and cannot tell what lies there but through the agent of a
      turn and the case of a prefix ([Reach]); a request starts its turn once, within
      its caller's reach ([Post]); an image is one by its bytes, read from where images may be
      ([Images]); a backup holds what was put in it ([Tar]); the guard is exactly its two
      headers' rule ([Origin]); a path written for a route reaches it ([Router]).
    - Leases. A claim takes nothing that is not free or dead ([Lease.claim_all_outcome]); as
      long as no claim takes a lease over from a runtime that still serves, one runtime serves
      an agent, and honest probes give that ([Lease.one_runtime_serves],
      [Lease.sound_probes_are_honest]). Turns keep within the limits of their
      instance and run in line, instance by instance ([Serving.turns_in_line]); a reload that waited
      swaps the agent under no turn ([Reload.swap_is_quiet]) and a held turn always has someone to
      wait for ([Reload.held_turns_wait_for_someone]); which requests run in the owner's
      conversation, which in a person's and which where they asked is spelled out
      ([Owner.conversation_of_person]).
    - Watching. Chunks are published exactly when someone wants them and each subscriber
      hears each event once ([Bus.emit_gate_lossless]); eviction keeps its two bounds
      ([Streams.evict_policy]), the reference count is the number of holders
      ([Streams.chunk_interest_balanced]), and attaching loses and repeats nothing
      ([Streams.attach_gapless]). Frames are read as they were written however their bytes are
      cut ([Sse.stream_reads_back]), a connection gives back what it holds once
      ([Sse.teardown_once]), and so a client sees every event recorded of a turn but those it is told
      it missed ([TurnStream.turn_read_whole]).
    - Webhooks. A target passes exactly when each of its addresses may be reached
      ([Webhook.webhook_target_safe]); a subscription hears no more than its creator
      ([Webhook.webhook_hears_within_reach]); a signature is good for what was signed and nothing
      else ([Webhook.webhook_verifies]); what is posted is an event that happened and that its
      subscription hears, to a target all of whose addresses were checked just before, signed so that
      its receiver accepts it ([WebhookQueue.webhook_posts_sound]), a bounded number of times, and
      never again once an answer of success was written down, restarts apart
      ([WebhookQueue.webhook_delivered_once]).
    - People and agents. An agent answers what addresses it, agents answer each other a bounded
      number of times ([HubGuard.turns_addressed]) and one that speaks for somebody says so
      ([HubGuard.stand_in_disclosed]); what is announced is handled at most once for each agent,
      and a conversation comes to rest with everything handled but what a restart forgot
      ([Hub.announced_handled_once], [HubLive.hub_settles]). A turn reads
      the memory its place allows ([Scopes.turn_reads_within]), a scope is written by those the table
      names ([Scopes.mayWrite_spec]), and a member's key does its member's business
      ([TeamRoutes.member_key_confined]).
    - Tools. A pattern means what it says ([Policy.patternToRegex_means]), the write gate
      holds in every mode ([Policy.authorize_write_gate]), what must be refused is
      ([Policy.authorize_refusals]), and untrusted text reaches the model inside a fence it
      cannot forge ([Trust.renderTrusted_untrusted]). Coerced arguments are what the tool
      declares and a well-written call is left alone ([Coerce]); a step runs whole or not at
      all, each call is answered, and nothing that changes something runs behind the write gate
      ([Execute]); the path a write is let have lies inside the roots and outside what is
      protected, symbolic links and directories named with two dots apart ([Paths]); an
      edit changes exactly the occurrences ([Files]).
    - Context. What is learned of token costs stays bounded and converges as far as doubles let
      it ([Budget.calibration_converges], over [Rounding]); compaction keeps every request and the
      turn's own tail, reaches its target or says so, and its pointers resolve unless a digest
      swallowed what they point to ([Ladder]); the prompt keeps the end of the
      history that fits and what it can rescue of the rest ([Assemble.history_selected]), and a
      further step that changes nothing else only appends to it ([Assemble.step_only_appends]).
    - Turns. The loop ends, truthfully, within its steps; the executor is told the truth about
      taint; identical calls are bounded ([Turn]); what a native call sends comes back as it
      was, its tool included ([Native]); and what a native turn appends is a conversation an
      endpoint accepts ([NativeTurn]). A call written in text is read back as it was written but for
      an immediate repetition, which counts once, multi-line values byte for byte ([NltWrite]), and
      reaches its tool that way ([NltTurn]); what is shown of a reply while it streams is what the
      parser reads of the whole, but for the lines it takes for prose too early ([NltStream]); ordinary prose is left alone and both dialects say the same of a tool
      ([NltRender]).
    - The rest: phases never trap a session, a step reports exactly its stream, a version
      range is never guessed, addresses are classified exactly, and the input line keeps its
      invariant with [redo] inverting [undo].

    Next to them stand theorems about what the code does that its comments say it does not:
    each is a closed computation or a run of the step relation, with the reason in its own
    comment (for instance [Cron.nextCron_fall_back_in_the_past],
    [Scheduler.rejected_record_strands], [Lease.suspended_holder_served_twice],
    [Policy.floor_misses_compound]).

    ** Fuel

    - [Cron.horizon_fuel]: the day walk moves forward at least a day per round and stops at
      the horizon of 1462 days; the theorems hold with that fuel and no other assumption.
    - [Kinds.cron_due]: the code's own cap of 1000 missed fires is the fuel.
    - [Split.splitMessage]: each round consumes a code unit, so the text's length is enough;
      the theorems give a result for any fuel of at least that, and
      [Split.splitMessage_narrow_fence_diverges] shows the caps below which no fuel is.
    - [JsonParse.parse_fuel]: twice the text's length and two; [JsonParse.parse_fuel_enough]
      shows that more changes nothing. [Number]: seventeen digits always determine a double, and
      the search for the shortest text stops by then. [Files.split_by]: a round per code unit.
    - [HubLive.agent_cost_at]: the hops left below the highest ceiling; past it nobody answers.
    - [Sse.take_frames]: a separator less per round. [Tar.pax_record]: [Tar.pax_settles] shows the
      second guess of an ASCII name right; [Tar.pax_diverges], that of some other names no guess is.
    - [Turn.turn_fuel]: one more than the step limit, since every iteration that continues has
      counted a step ([Turn.turn_terminates]).
    - [Regex.replace_from]: one round per code unit. [Editor.loop_fuel]: each loop moves by
      one towards an end of the text; [Editor.back_while_stops] and
      [Editor.forward_while_stops] show it stops where the source's loop does.

    ** Not modelled

    The assembly of an agent and of the runtime around the loop ([runtime/]), the loading of a tool
    registry and the conversion of foreign schemas, the index of memory and its ranking ([memory/];
    its scopes are modelled), migrations and the tables not named above, and manifest loading are
    logic this library does not reach yet. Model providers,
    channel packages, the server's sockets, the archive's compression, the web interface and the terminal's
    components are input, output and rendering around it. In the modelled files, prose (messages, hints) is
    not kept unless a caller reads it back, and timers that only poll are represented by the
    steps they trigger. Of the turn, events, images, attachments and the catalogue's cost on the
    wire are not modelled; of the executor, events and the middleware around a call are not.
    [Ladder] compares its fractions as exact rationals where the code has doubles; its summariser is
    a function of the stage and the messages; a symbolic link is what [realpath] says of it. *)
From stdpp Require Export base tactics relations list gmap strings sets fin_maps.
From Stdlib Require Export ZArith Lia.

(** ** Errors as values

    A TypeScript function that throws is modelled as one that returns [Err]. *)
Inductive result (E A : Type) : Type :=
| Ok (a : A)
| Err (e : E).
Arguments Ok {E A} a.
Arguments Err {E A} e.

#[export] Instance result_ret {E} : MRet (result E) := fun A a => Ok a.
#[export] Instance result_bind {E} : MBind (result E) :=
  fun A B f m => match m with Ok a => f a | Err e => Err e end.
#[export] Instance result_fmap {E} : FMap (result E) :=
  fun A B f m => match m with Ok a => Ok (f a) | Err e => Err e end.

Definition is_ok {E A} (r : result E A) : bool :=
  match r with Ok _ => true | Err _ => false end.

#[export] Instance result_eq_dec {E A} `{EqDecision E, EqDecision A} :
  EqDecision (result E A).
Proof. solve_decision. Defined.

(** [xs.map(f)] where [f] may throw: the first error wins. *)
Fixpoint mapR {E A B} (f : A -> result E B) (l : list A) : result E (list B) :=
  match l with
  | [] => Ok []
  | x :: xs => y ← f x; ys ← mapR f xs; Ok (y :: ys)
  end.

Lemma bind_ok {E A B} (m : result E A) (f : A -> result E B) b :
  m ≫= f = Ok b -> exists a, m = Ok a /\ f a = Ok b.
Proof. destruct m; simpl; [eauto | discriminate]. Qed.

Lemma mapR_ok_Forall2 {E A B} (f : A -> result E B) l l' :
  mapR f l = Ok l' -> Forall2 (fun x y => f x = Ok y) l l'.
Proof.
  revert l'; induction l as [|x l IH]; intros l' H; simpl in H.
  - injection H as <-. constructor.
  - apply bind_ok in H as (y & Hy & H). apply bind_ok in H as (ys & Hys & H).
    injection H as <-. constructor; auto.
Qed.

(** ** Tactics *)

(** Split the conjunctions and existentials of the context. *)
Ltac split_all :=
  repeat match goal with
  | H : _ /\ _ |- _ => destruct H
  | H : exists _, _ |- _ => destruct H
  | H : Ok _ = Ok _ |- _ => injection H as H
  | H : Some _ = Some _ |- _ => injection H as H
  | H : Ok _ = Err _ |- _ => discriminate H
  | H : Err _ = Ok _ |- _ => discriminate H
  end.

(** Turn the boolean tests of the context into propositions. *)
Ltac bool_to_prop :=
  repeat match goal with
  | H : andb _ _ = true |- _ => apply andb_true_iff in H; destruct H
  | H : orb _ _ = false |- _ => apply orb_false_iff in H; destruct H
  | H : orb _ _ = true |- _ => apply orb_true_iff in H
  | H : andb _ _ = false |- _ => apply andb_false_iff in H
  | H : negb _ = true |- _ => apply negb_true_iff in H
  | H : negb _ = false |- _ => apply negb_false_iff in H
  | H : Z.ltb _ _ = true |- _ => apply Z.ltb_lt in H
  | H : Z.ltb _ _ = false |- _ => apply Z.ltb_ge in H
  | H : Z.leb _ _ = true |- _ => apply Z.leb_le in H
  | H : Z.leb _ _ = false |- _ => apply Z.leb_gt in H
  | H : Z.eqb _ _ = true |- _ => apply Z.eqb_eq in H
  | H : Z.eqb _ _ = false |- _ => apply Z.eqb_neq in H
  | H : Nat.ltb _ _ = true |- _ => apply Nat.ltb_lt in H
  | H : Nat.ltb _ _ = false |- _ => apply Nat.ltb_ge in H
  | H : Nat.leb _ _ = true |- _ => apply Nat.leb_le in H
  | H : Nat.leb _ _ = false |- _ => apply Nat.leb_gt in H
  | H : Nat.eqb _ _ = true |- _ => apply Nat.eqb_eq in H
  | H : Nat.eqb _ _ = false |- _ => apply Nat.eqb_neq in H
  | H : bool_decide _ = true |- _ => apply bool_decide_eq_true in H
  | H : bool_decide _ = false |- _ => apply bool_decide_eq_false in H
  end.

(** [lia] with quotients and remainders by constants. *)
Ltac div_lia := Z.to_euclidean_division_equations; lia.

(** Case on the scrutinee of a [match] or [if] of a hypothesis or the goal. *)
Ltac case_in H :=
  match type of H with
  | context [match ?x with _ => _ end] => let E := fresh "E" in destruct x eqn:E
  end.

Ltac case_goal :=
  match goal with
  | |- context [match ?x with _ => _ end] => let E := fresh "E" in destruct x eqn:E
  end.

(** ** JavaScript arrays

    [l.length] is a JavaScript number. *)
Abbreviation zlen l := (Z.of_nat (length l)).

Definition is_nil {A} (l : list A) : bool := match l with [] => true | _ => false end.

(** [l.slice(a, b)]: a negative index counts from the end, and both are clamped to the
    length. *)
Definition slice_index (len i : Z) : Z :=
  if (i <? 0)%Z then Z.max (len + i) 0 else Z.min i len.

Definition slice {A} (l : list A) (a b : Z) : list A :=
  let len := zlen l in
  let from := slice_index len a in
  let upto := slice_index len b in
  take (Z.to_nat (upto - from)) (drop (Z.to_nat from) l).

(** [l.slice(a)]. *)
Definition slice_from {A} (l : list A) (a : Z) : list A :=
  drop (Z.to_nat (slice_index (zlen l) a)) l.

(** [l[i]]: [undefined] outside the array. *)
Definition at_index {A} (l : list A) (i : Z) : option A :=
  if (i <? 0)%Z then None else l !! Z.to_nat i.

Lemma slice_0 {A} (l : list A) b :
  (0 <= b)%Z -> slice l 0 b = take (Z.to_nat b) l.
Proof.
  intros Hb. unfold slice, slice_index. simpl.
  destruct (Z.ltb_spec b 0); [lia|].
  rewrite (Z.min_l 0) by lia. simpl. rewrite Z.sub_0_r.
  destruct (Z.le_gt_cases b (zlen l)).
  - by rewrite Z.min_l by lia.
  - rewrite Z.min_r, Nat2Z.id by lia. rewrite drop_0, firstn_all, take_ge by lia. done.
Qed.

Lemma slice_from_nonneg {A} (l : list A) a :
  (0 <= a)%Z -> slice_from l a = drop (Z.to_nat a) l.
Proof.
  intros Ha. unfold slice_from, slice_index.
  destruct (Z.ltb_spec a 0); [lia|].
  destruct (Z.le_gt_cases a (zlen l)).
  - by rewrite Z.min_l by lia.
  - rewrite Z.min_r, Nat2Z.id by lia. rewrite drop_all, drop_ge by lia. done.
Qed.

Lemma slice_within {A} (l : list A) a b :
  (0 <= a <= b)%Z -> (b <= zlen l)%Z ->
  slice l a b = take (Z.to_nat (b - a)) (drop (Z.to_nat a) l).
Proof.
  intros Ha Hb. unfold slice, slice_index.
  destruct (Z.ltb_spec a 0); [lia|]. destruct (Z.ltb_spec b 0); [lia|].
  by rewrite !Z.min_l by lia.
Qed.

Lemma slice_split {A} (l : list A) a b c :
  (0 <= a <= b)%Z -> (b <= c <= zlen l)%Z -> slice l a c = slice l a b ++ slice l b c.
Proof.
  intros Hab Hbc. rewrite !slice_within by lia.
  replace (Z.to_nat (c - a)) with (Z.to_nat (b - a) + Z.to_nat (c - b))%nat by lia.
  rewrite <- (take_take_drop _ (Z.to_nat (b - a))), drop_drop. do 3 f_equal. lia.
Qed.

Lemma slice_to_end {A} (l : list A) a :
  (0 <= a <= zlen l)%Z -> slice l a (zlen l) = slice_from l a.
Proof.
  intros Ha. rewrite slice_within, slice_from_nonneg by lia.
  apply take_ge. rewrite length_drop. lia.
Qed.

Lemma slice_length {A} (l : list A) a b :
  (0 <= a <= b)%Z -> (b <= zlen l)%Z -> zlen (slice l a b) = (b - a)%Z.
Proof. intros Hab Hb. rewrite slice_within, length_take, length_drop by lia. lia. Qed.

(** [l.slice(-n)] keeps the newest [n]. *)
Lemma slice_from_neg {A} (l : list A) (n : nat) :
  (0 < n)%nat -> slice_from l (- Z.of_nat n) = drop (length l - n) l.
Proof.
  intros Hn. unfold slice_from, slice_index.
  destruct (Z.ltb_spec (- Z.of_nat n) 0); [|lia]. f_equal. lia.
Qed.

(** [l.slice(0, b)] and [l.slice(a)], read as ranges. *)
Declare Scope js_scope.
Delimit Scope js_scope with js_array.
Notation "l .[: b ]" := (slice l 0 b) (at level 1, left associativity, format "l .[: b ]") : js_scope.
Notation "l .[ a :]" := (slice_from l a) (at level 1, left associativity, format "l .[ a :]") : js_scope.

(** Lengths of what slices and concatenations are made of. *)
Create Rewrite HintDb js_length.
#[export] Hint Rewrite @length_app @length_take @length_drop @length_cons @length_nil : js_length.
Ltac length_lia := autorewrite with js_length in *; lia.

(** ** Reachability *)

(** An invariant of the initial states that every step preserves holds of every
    reachable state. *)
Lemma reachable_invariant {S} (R : S -> S -> Prop) (P : S -> Prop) s s' :
  (forall a b, R a b -> P a -> P b) -> rtc R s s' -> P s -> P s'.
Proof. intros Hstep Hr. induction Hr; eauto. Qed.
