(* ===== verification/UString.v ===== *)
(** * Strings as JavaScript has them

    A string is the list of its UTF-16 code units. The functions here are the parts of
    the language's own string library that the modelled code calls: [trim], [split],
    [toLowerCase], [includes], the digit tests of [/^\d+$/], [Number] on such text and
    [String] of a non-negative integer. Case mapping covers ASCII and Latin-1; the
    modelled comparisons are against ASCII names. *)
From S2P Require Import Prelude.
Local Open Scope Z_scope.

Abbreviation ustring := (list Z).

(** A literal of the source: its characters are all ASCII. *)
Fixpoint js (s : string) : ustring :=
  match s with
  | EmptyString => []
  | String a s' => Z.of_nat (Ascii.nat_of_ascii a) :: js s'
  end.

(** ** Characters *)

(** The white space that [trim] and [\s] recognise. *)
Definition is_space (c : Z) : bool :=
  ((9 <=? c) && (c <=? 13)) || (c =? 32) || (c =? 160) || (c =? 0x1680) ||
  ((0x2000 <=? c) && (c <=? 0x200a)) || (c =? 0x2028) || (c =? 0x2029) ||
  (c =? 0x202f) || (c =? 0x205f) || (c =? 0x3000) || (c =? 0xfeff).

Definition is_digit (c : Z) : bool := (48 <=? c) && (c <=? 57).
Definition is_upper (c : Z) : bool := (65 <=? c) && (c <=? 90).
Definition is_alpha (c : Z) : bool := is_upper c || ((97 <=? c) && (c <=? 122)).

(** [\w]: letters, digits and the underscore. *)
Definition is_word (c : Z) : bool := is_alpha c || is_digit c || (c =? 95).

Definition has_lower (c : Z) : bool :=
  is_upper c || ((0xc0 <=? c) && (c <=? 0xde) && negb (c =? 0xd7)).

Definition lower_char (c : Z) : Z := if has_lower c then c + 32 else c.

Definition lower (s : ustring) : ustring := map lower_char s.

(** ** Trimming *)

Fixpoint trim_start (s : ustring) : ustring :=
  match s with
  | c :: s' => if is_space c then trim_start s' else s
  | [] => []
  end.

Definition trim_end (s : ustring) : ustring := rev (trim_start (rev s)).
Definition trim (s : ustring) : ustring := trim_end (trim_start s).

(** [s.trim() === ""]. *)
Definition blank (s : ustring) : bool := forallb is_space s.

(** ** Splitting and joining *)

(** [s.split(sep)] for a one-character separator. *)
Fixpoint split_on (sep : Z) (s : ustring) : list ustring :=
  match s with
  | [] => [[]]
  | c :: s' =>
      if c =? sep then [] :: split_on sep s'
      else match split_on sep s' with
           | [] => [[c]]
           | w :: ws => (c :: w) :: ws
           end
  end.

Fixpoint join (sep : ustring) (l : list ustring) : ustring :=
  match l with
  | [] => []
  | [w] => w
  | w :: ws => w ++ sep ++ join sep ws
  end.

(** [s.split(/\s+/).filter((part) => part !== "")]: the maximal runs of non-space. *)
Fixpoint words_acc (acc : ustring) (s : ustring) : list ustring :=
  match s with
  | [] => match acc with [] => [] | _ => [rev acc] end
  | c :: s' =>
      if is_space c
      then match acc with [] => words_acc [] s' | _ => rev acc :: words_acc [] s' end
      else words_acc (c :: acc) s'
  end.

Definition words (s : ustring) : list ustring := words_acc [] s.

Definition includes_char (c : Z) (s : ustring) : bool := existsb (Z.eqb c) s.

Fixpoint starts_with (p s : ustring) : bool :=
  match p, s with
  | [], _ => true
  | a :: p', b :: s' => (a =? b) && starts_with p' s'
  | _ :: _, [] => false
  end.

Definition ends_with (p s : ustring) : bool := starts_with (rev p) (rev s).

(** [s.includes(p)]. *)
Fixpoint includes (p s : ustring) : bool :=
  starts_with p s || match s with [] => false | _ :: s' => includes p s' end.

(** [text.replace(/\s+/g, " ")]. *)
Fixpoint squeeze_spaces (in_run : bool) (s : ustring) : ustring :=
  match s with
  | [] => []
  | c :: rest =>
      if is_space c then (if in_run then [] else [32]) ++ squeeze_spaces true rest
      else c :: squeeze_spaces false rest
  end.

(** [[...new Set(l)]]. *)
Fixpoint distinct (seen l : list ustring) : list ustring :=
  match l with
  | [] => []
  | x :: rest => if bool_decide (x ∈ seen) then distinct seen rest else x :: distinct (x :: seen) rest
  end.

(** ** Order *)

(** The order of ids: code unit by code unit. *)
Fixpoint text_leb (a b : ustring) : bool :=
  match a, b with
  | [], _ => true
  | _ :: _, [] => false
  | x :: a', y :: b' => (x <? y) || ((x =? y) && text_leb a' b')
  end.

(** ** Numbers *)

(** [/^\d+$/.test(s)]. *)
Definition all_digits (s : ustring) : bool :=
  match s with [] => false | _ => forallb is_digit s end.

(** [Number(s)] of a string of digits. *)
Definition digits_value (s : ustring) : Z :=
  fold_left (fun n c => 10 * n + (c - 48)) s 0.

(** [String(n)] of a non-negative integer below 10^[fuel]. *)
Fixpoint decimal_aux (fuel : nat) (n : Z) (acc : ustring) : ustring :=
  match fuel with
  | O => acc
  | S fuel' =>
      if n <? 10 then (48 + n) :: acc
      else decimal_aux fuel' (n / 10) ((48 + n mod 10) :: acc)
  end.

Definition decimal (n : Z) : ustring := decimal_aux (S (Z.to_nat (Z.log2 n))) n [].

(** ** Facts *)

Lemma ustring_eqb_spec (a b : ustring) : reflect (a = b) (bool_decide (a = b)).
Proof. destruct (bool_decide_reflect (a = b)); constructor; auto. Qed.

Lemma is_digit_spec c : is_digit c = true <-> 48 <= c <= 57.
Proof. unfold is_digit. rewrite andb_true_iff, !Z.leb_le. lia. Qed.

Lemma all_digits_forall s : all_digits s = true -> Forall (fun c => 48 <= c <= 57) s.
Proof.
  destruct s as [|c s]; [discriminate|]. unfold all_digits. rewrite forallb_forall.
  intros H. apply Forall_forall. intros x Hx. apply is_digit_spec, H.
  by apply list_elem_of_In in Hx.
Qed.

Lemma digits_value_snoc s c : digits_value (s ++ [c]) = 10 * digits_value s + (c - 48).
Proof. unfold digits_value. by rewrite fold_left_app. Qed.

Lemma digits_value_app s t :
  digits_value (s ++ t) = digits_value s * 10 ^ zlen t + digits_value t.
Proof.
  induction t as [|c t IH] using rev_ind.
  - rewrite app_nil_r. simpl. unfold digits_value at 3. simpl. lia.
  - rewrite app_assoc, !digits_value_snoc, IH, length_app, Nat2Z.inj_add.
    rewrite Z.pow_add_r by lia. change (10 ^ zlen [c]) with 10. ring.
Qed.

Lemma digits_value_bounds s :
  Forall (fun c => 48 <= c <= 57) s -> 0 <= digits_value s < 10 ^ zlen s.
Proof.
  induction s as [|c s IH] using rev_ind; intros H; [unfold digits_value; simpl; lia|].
  apply Forall_app in H as [Hs Hc]. apply Forall_cons in Hc as [Hc _]. specialize (IH Hs).
  rewrite digits_value_snoc, length_app, Nat2Z.inj_add.
  rewrite Z.pow_add_r by lia. change (10 ^ zlen [c]) with 10. lia.
Qed.

Lemma decimal_aux_spec fuel n acc :
  0 <= n < 2 ^ Z.of_nat fuel ->
  exists ds, decimal_aux fuel n acc = ds ++ acc /\ (1 <= fuel -> ds <> [])%nat /\
    Forall (fun c => 48 <= c <= 57) ds /\ digits_value ds = n.
Proof.
  revert n acc. induction fuel as [|fuel IH]; intros n acc Hn.
  - exists []. simpl in *. replace n with 0 by lia.
    repeat split; [lia | constructor].
  - rewrite Nat2Z.inj_succ, Z.pow_succ_r in Hn by lia. simpl.
    destruct (Z.ltb_spec n 10).
    + exists [48 + n]. repeat split; [done | repeat constructor; lia | ].
      unfold digits_value; simpl; lia.
    + destruct (IH (n / 10) ((48 + n mod 10) :: acc)) as (ds & -> & _ & Hd & Hv).
      { split; [apply Z.div_pos; lia | apply Z.div_lt_upper_bound; lia]. }
      exists (ds ++ [48 + n mod 10]). rewrite <- app_assoc. split; [done|].
      pose proof (Z.mod_pos_bound n 10 ltac:(lia)).
      split; [intros _; by destruct ds | split].
      * apply Forall_app; split; [done | repeat constructor; lia].
      * rewrite digits_value_snoc, Hv. pose proof (Z.div_mod n 10). lia.
Qed.

Lemma decimal_spec n :
  0 <= n -> decimal n <> [] /\ Forall (fun c => 48 <= c <= 57) (decimal n) /\
            digits_value (decimal n) = n.
Proof.
  intros Hn. unfold decimal.
  destruct (decimal_aux_spec (S (Z.to_nat (Z.log2 n))) n []) as (ds & -> & Hne & Hd & Hv).
  - split; [done|]. rewrite Nat2Z.inj_succ, Z2Nat.id by apply Z.log2_nonneg.
    destruct (Z.eq_dec n 0) as [-> | ]; [done | apply Z.log2_spec; lia].
  - rewrite app_nil_r. repeat split; auto with lia.
Qed.

Lemma decimal_inj m n : 0 <= m -> 0 <= n -> decimal m = decimal n -> m = n.
Proof.
  intros Hm Hn H. destruct (decimal_spec m Hm) as (_ & _ & <-).
  destruct (decimal_spec n Hn) as (_ & _ & <-). by rewrite H.
Qed.

Lemma split_on_nonempty sep s : split_on sep s <> [].
Proof.
  destruct s as [|c s]; simpl; [done|].
  destruct (c =? sep); [done|]. by destruct (split_on sep s).
Qed.

(** Splitting loses nothing: joining on the separator gives the string back. *)
Lemma join_split_on sep s : join [sep] (split_on sep s) = s.
Proof.
  induction s as [|c s IH]; simpl; [done|].
  destruct (Z.eqb_spec c sep) as [->|].
  - destruct (split_on sep s) eqn:E; [by apply split_on_nonempty in E|].
    simpl in *. by rewrite IH.
  - destruct (split_on sep s) as [|w ws] eqn:E; [by apply split_on_nonempty in E|].
    destruct ws; simpl in *; by rewrite <- IH.
Qed.

Lemma split_on_no_sep sep s : Forall (fun w => ~ In sep w) (split_on sep s).
Proof.
  induction s as [|c s IH]; simpl; [repeat constructor; auto|].
  destruct (Z.eqb_spec c sep) as [->|Hne]; [constructor; [intros [] | done]|].
  destruct (split_on sep s) as [|w ws]; constructor; simpl.
  - intros [|[]]; congruence.
  - constructor.
  - inversion IH; subst. intros [|]; congruence.
  - by inversion IH.
Qed.

(** A separator-free prefix is exactly the first piece. *)
Lemma split_on_incl sep s w c : In w (split_on sep s) -> In c w -> In c s.
Proof.
  revert w. induction s as [|d s IH]; intros w; simpl; [by intros [<-|[]]|].
  destruct (d =? sep); simpl.
  - intros [<-|H] Hc; [done|]. right. by apply (IH w).
  - destruct (split_on sep s) as [|w' ws]; simpl in *.
    + intros [<-|[]] Hc. by destruct Hc as [->|[]]; left.
    + intros [<-|H] Hc; [destruct Hc as [->|Hc]; [by left|]|]; right; [apply (IH w')|apply (IH w)]; auto.
Qed.

Lemma split_on_app sep w s :
  ~ In sep w -> split_on sep (w ++ sep :: s) = w :: split_on sep s.
Proof.
  induction w as [|c w IH]; simpl; intros Hw; [by rewrite Z.eqb_refl|].
  destruct (Z.eqb_spec c sep) as [->|]; [tauto|].
  rewrite IH by tauto. done.
Qed.

Lemma split_on_free sep w : ~ In sep w -> split_on sep w = [w].
Proof.
  induction w as [|c w IH]; simpl; intros Hw; [done|].
  destruct (Z.eqb_spec c sep) as [->|]; [tauto|]. rewrite IH by tauto. done.
Qed.

(** [join] with a separator no piece contains determines its pieces. *)
Lemma split_on_join sep l :
  l <> [] -> Forall (fun w => ~ In sep w) l -> split_on sep (join [sep] l) = l.
Proof.
  induction l as [|w ws IH]; intros Hne H; [done|].
  inversion H as [|? ? Hw Hws]; subst. destruct ws as [|w' ws].
  - simpl. by apply split_on_free.
  - change (join [sep] (w :: w' :: ws)) with (w ++ sep :: join [sep] (w' :: ws)).
    rewrite split_on_app by done. f_equal. apply IH; done.
Qed.

Lemma trim_start_idem s : trim_start (trim_start s) = trim_start s.
Proof.
  induction s as [|c s IH]; simpl; [done|].
  destruct (is_space c) eqn:E; [done|]. simpl. by rewrite E.
Qed.

(** [trim_start] removes a prefix of white space and stops at the first other character. *)
Lemma trim_start_spec s :
  exists p, s = p ++ trim_start s /\ Forall (fun c => is_space c = true) p /\
    match trim_start s with c :: _ => is_space c = false | [] => True end.
Proof.
  induction s as [|c s (p & Hs & Hp & Hh)]; simpl.
  - by exists [].
  - destruct (is_space c) eqn:E.
    + exists (c :: p). simpl. rewrite <- Hs. auto.
    + exists []. auto.
Qed.

Lemma trim_end_spec s :
  exists q, s = trim_end s ++ q /\ Forall (fun c => is_space c = true) q /\
    match last (trim_end s) with Some c => is_space c = false | None => True end.
Proof.
  unfold trim_end. destruct (trim_start_spec (rev s)) as (p & Hs & Hp & Hh).
  exists (rev p). rewrite <- rev_app_distr, <- Hs, rev_involutive.
  split; [done|]. split.
  - rewrite Forall_forall in *. intros x Hx. apply Hp.
    rewrite list_elem_of_In in *. by apply in_rev.
  - destruct (trim_start (rev s)) as [|c t]; [done|].
    simpl. by rewrite last_snoc.
Qed.

Lemma lower_char_idem c : lower_char (lower_char c) = lower_char c.
Proof.
  change lower_char with (fun c => if has_lower c then c + 32 else c). cbv beta.
  destruct (has_lower c) eqn:E; [|by rewrite E].
  replace (has_lower (c + 32)) with false; [done|]. symmetry.
  unfold has_lower, is_upper in *.
  repeat match goal with
  | H : context [Z.leb ?a ?b] |- _ => destruct (Z.leb_spec a b)
  | |- context [Z.leb ?a ?b] => destruct (Z.leb_spec a b)
  end; simpl in *; try done; lia.
Qed.

Lemma lower_idem s : lower (lower s) = lower s.
Proof.
  unfold lower. rewrite map_map. apply map_ext. intros c. apply lower_char_idem.
Qed.

(** Text whose first and last characters are not white space is left alone by [trim]. *)
Lemma trim_start_fixed s :
  match s with c :: _ => is_space c = false | [] => True end -> trim_start s = s.
Proof. destruct s as [|c s]; simpl; [done|]. by intros ->. Qed.

Lemma trim_end_fixed s :
  match last s with Some c => is_space c = false | None => True end -> trim_end s = s.
Proof.
  intros H. unfold trim_end. rewrite trim_start_fixed; [apply rev_involutive|].
  destruct s as [|x t _] using rev_ind; [done|].
  rewrite last_snoc in H. by rewrite rev_unit.
Qed.

Lemma trim_ends s :
  match trim s with c :: _ => is_space c = false | [] => True end /\
  match last (trim s) with Some c => is_space c = false | None => True end.
Proof.
  unfold trim. destruct (trim_end_spec (trim_start s)) as (q & Hq & _ & Hl).
  split; [|done]. destruct (trim_start_spec s) as (_ & _ & _ & Hh).
  destruct (trim_end (trim_start s)) as [|c t]; [done|].
  rewrite Hq in Hh. exact Hh.
Qed.

Lemma trim_fixed s :
  match s with c :: _ => is_space c = false | [] => True end ->
  match last s with Some c => is_space c = false | None => True end -> trim s = s.
Proof.
  intros Hh Hl. unfold trim. rewrite (trim_start_fixed s) by done. by apply trim_end_fixed.
Qed.

Lemma trim_idem s : trim (trim s) = trim s.
Proof. destruct (trim_ends s). by apply trim_fixed. Qed.

Lemma digit_not_space c : 48 <= c <= 57 -> is_space c = false.
Proof.
  intros Hc. apply not_true_iff_false. unfold is_space.
  rewrite !orb_true_iff, !andb_true_iff, !Z.leb_le, !Z.eqb_eq. lia.
Qed.

Lemma all_digits_intro s :
  s <> [] -> Forall (fun c => 48 <= c <= 57) s -> all_digits s = true.
Proof.
  intros Hne H. destruct s as [|c s]; [done|]. unfold all_digits.
  apply forallb_forall. intros x Hx. apply is_digit_spec.
  rewrite Forall_forall in H. apply H. by apply list_elem_of_In.
Qed.

Lemma starts_with_spec p s : starts_with p s = true <-> exists t, s = p ++ t.
Proof.
  revert s. induction p as [|a p IH]; intros [|b s]; cbn.
  - split; [by exists []|done].
  - split; [by eexists|done].
  - split; [done|]. by intros [t Ht].
  - rewrite andb_true_iff, IH, Z.eqb_eq. split.
    + intros [-> [t ->]]. by exists t.
    + intros [t [= -> ->]]. split; [done|by exists t].
Qed.

Lemma ends_with_spec p s : ends_with p s = true <-> exists t, s = t ++ p.
Proof.
  unfold ends_with. rewrite starts_with_spec. split; intros [t Ht].
  - exists (rev t). by rewrite <- (rev_involutive s), Ht, rev_app_distr, rev_involutive.
  - exists (rev t). by rewrite Ht, rev_app_distr.
Qed.

(** [s.slice(0, -n)] takes an [n]-character ending off. *)
Lemma slice_drop_end (s p : ustring) :
  p <> [] -> slice (s ++ p) 0 (- zlen p) = s.
Proof.
  intros Hp. assert (0 < zlen p) by (destruct p; [done|cbn; lia]).
  unfold slice, slice_index. rewrite length_app. cbn [Z.ltb].
  destruct (Z.ltb_spec (- zlen p) 0); [|lia]. change (0 <? 0) with false. cbv iota.
  rewrite Z.min_l by lia. cbn [Z.to_nat drop].
  replace (Z.to_nat (Z.max (Z.of_nat (length s + length p) + - zlen p) 0 - 0)) with (length s) by lia.
  apply take_app_length.
Qed.

Lemma includes_intro p a b : includes p (a ++ p ++ b) = true.
Proof.
  assert (Hp : starts_with p (p ++ b) = true) by (apply starts_with_spec; by exists b).
  induction a as [|c a IH].
  - cbn [app]. unfold includes. destruct (p ++ b); by rewrite Hp.
  - cbn [app]. cbn [includes]. rewrite IH. apply orb_true_r.
Qed.

(** ** Occurrences *)

Lemma includes_app_l p a b : includes p b = true -> includes p (a ++ b) = true.
Proof.
  intros H. induction a as [|c a IH]; [done|]. cbn [app includes]. rewrite IH. apply orb_true_r.
Qed.

Lemma starts_with_app p a b : starts_with p a = true -> starts_with p (a ++ b) = true.
Proof.
  revert a. induction p as [|c p IH]; intros [|d a]; cbn; try done.
  intros H. apply andb_true_iff in H as [-> H]. by apply IH.
Qed.

Lemma includes_app_r p a b : includes p a = true -> includes p (a ++ b) = true.
Proof.
  induction a as [|c a IH]; cbn [app includes].
  - rewrite orb_false_r. intros H. apply (starts_with_app _ _ b) in H. cbn in H.
    destruct b; cbn [includes]; by rewrite H.
  - intros H. apply orb_true_iff in H as [H|H].
    + pose proof (starts_with_app p (c :: a) b H) as H'. cbn [app] in H'. by rewrite H'.
    + rewrite (IH H). apply orb_true_r.
Qed.

Lemma includes_join p sep a w b :
  includes p w = true -> includes p (join sep (a ++ w :: b)) = true.
Proof.
  intros H. induction a as [|x a IH].
  - cbn [app]. destruct b as [|y b]; [done|].
    change (join sep (w :: y :: b)) with (w ++ sep ++ join sep (y :: b)). by apply includes_app_r.
  - cbn [app]. destruct (a ++ w :: b) as [|y l] eqn:E; [by destruct a|].
    change (join sep (x :: y :: l)) with (x ++ sep ++ join sep (y :: l)).
    do 2 apply includes_app_l. done.
Qed.
