(* ===== verification/Errors.v ===== *)
(** * Refusals

    [errors.ts]: every refusal the modelled code throws carries a stable [code], a
    message, a hint and the manifest field it is about. The code and the field are what
    callers branch on and are kept; the prose is not. *)
From S2P Require Import Prelude UString.

Record ConfigError := { code : string; field : ustring }.

#[export] Instance ConfigError_eq_dec : EqDecision ConfigError.
Proof. solve_decision. Defined.

(** [throw new ConfigError({ code, ..., field })]. *)
Definition fail_with {A} (c : string) (f : ustring) : result ConfigError A :=
  Err {| code := c; field := f |}.

(** Every refusal of a computation carries this field. *)
Definition refuses_at {A} (f : ustring) (r : result ConfigError A) : Prop :=
  match r with Ok _ => True | Err e => field e = f end.

Lemma refuses_at_bind {A B} f (m : result ConfigError A) (k : A -> result ConfigError B) :
  refuses_at f m -> (forall a, refuses_at f (k a)) -> refuses_at f (m ≫= k).
Proof. destruct m; simpl; auto. Qed.

Lemma refuses_at_fail {A} f c : refuses_at f (@fail_with A c f).
Proof. done. Qed.

Lemma refuses_at_ok {A} f (a : A) : refuses_at f (Ok a).
Proof. done. Qed.

Lemma refuses_at_err {A} f (r : result ConfigError A) e :
  refuses_at f r -> r = Err e -> field e = f.
Proof. by intros H ->. Qed.

Create HintDb refusals.
#[export] Hint Resolve refuses_at_bind refuses_at_fail refuses_at_ok : refusals.
