(* ===== verification/Calendar.v ===== *)
(** * The civil calendar of [Date.UTC]

    JavaScript's own date arithmetic, as the schedule code uses it: [Date.UTC], and
    [getUTCFullYear]/[getUTCMonth]/[getUTCDate]/[getUTCDay] of the result. Days are
    counted from 1970-01-01 and months run from 1 to 12. The proleptic Gregorian
    calendar repeats every 400 years of 146097 days; the estimate of the year of such a
    cycle is checked by computation at the two ends of each year, and is monotone between
    them. *)
From S2P Require Import Prelude.
Local Open Scope Z_scope.

(** ** Conversions *)

Definition DAYS_PER_ERA : Z := 146097.

(** The day number of a date. The day may lie outside the month, as in [Date.UTC]. *)
Definition days_from_civil (y m d : Z) : Z :=
  let y' := if m <=? 2 then y - 1 else y in
  let era := y' / 400 in
  let yoe := y' mod 400 in
  let doy := (153 * (if 2 <? m then m - 3 else m + 9) + 2) / 5 + (d - 1) in
  let doe := yoe * 365 + yoe / 4 - yoe / 100 + doy in
  era * DAYS_PER_ERA + doe - 719468.

(** The estimate of the year of a day of a cycle. *)
Definition year_estimate (doe : Z) : Z := doe - doe / 1460 + doe / 36524 - doe / 146096.

Definition civil_of_era (era doe : Z) : Z * Z * Z :=
  let yoe := year_estimate doe / 365 in
  let doy := doe - (365 * yoe + yoe / 4 - yoe / 100) in
  let mp := (5 * doy + 2) / 153 in
  let d := doy - (153 * mp + 2) / 5 + 1 in
  let m := if mp <? 10 then mp + 3 else mp - 9 in
  (yoe + era * 400 + (if m <=? 2 then 1 else 0), m, d).

Definition civil_from_days (n : Z) : Z * Z * Z :=
  let z := n + 719468 in civil_of_era (z / DAYS_PER_ERA) (z mod DAYS_PER_ERA).

#[global] Arguments days_from_civil : simpl never.
#[global] Arguments civil_of_era : simpl never.
#[global] Arguments civil_from_days : simpl never.

Definition is_leap (y : Z) : bool :=
  (y mod 4 =? 0) && (negb (y mod 100 =? 0) || (y mod 400 =? 0)).

Definition days_in_month (y m : Z) : Z :=
  if m =? 2 then (if is_leap y then 29 else 28)
  else if (m =? 4) || (m =? 6) || (m =? 9) || (m =? 11) then 30 else 31.

Definition valid_date (y m d : Z) : Prop := 1 <= m <= 12 /\ 1 <= d <= days_in_month y m.

(** [getUTCDay]: 1970-01-01 was a Thursday, day 4. *)
Definition weekday_of_days (n : Z) : Z := (n + 4) mod 7.

(** [Date.UTC(y, m - 1, d, h, mi, s)] in milliseconds, for a four-digit year. *)
Definition date_utc (y m d h mi s : Z) : Z :=
  (days_from_civil y m d * 86400 + h * 3600 + mi * 60 + s) * 1000.

(** The month after a month, as the code steps it. *)
Definition next_month (y m : Z) : Z * Z := if m =? 12 then (y + 1, 1) else (y, m + 1).

(** ** One cycle, by computation *)

Fixpoint forall_range (f : Z -> bool) (from : Z) (n : nat) : bool :=
  match n with
  | O => true
  | S n' => f from && forall_range f (from + 1) n'
  end.

Lemma forall_range_spec f from n :
  forall_range f from n = true -> forall x, from <= x < from + Z.of_nat n -> f x = true.
Proof.
  revert from; induction n as [|n IH]; intros from H x Hx; [lia|].
  simpl in H. bool_to_prop.
  destruct (Z.eq_dec x from) as [->|]; [done|]. apply (IH (from + 1)); [done|lia].
Qed.

(** Days before the March-based year [y] of a cycle. *)
Definition year_start (y : Z) : Z := 365 * y + y / 4 - y / 100 + y / 400.

Definition leap_day (y : Z) : Z := if is_leap y then 1 else 0.

Lemma div_succ y k :
  0 < k -> (y + 1) / k = y / k + (if (y + 1) mod k =? 0 then 1 else 0).
Proof.
  intros Hk. pose proof (Z.div_mod y k). pose proof (Z.mod_pos_bound y k Hk).
  pose proof (Z.div_mod (y + 1) k). pose proof (Z.mod_pos_bound (y + 1) k Hk).
  destruct (Z.eqb_spec ((y + 1) mod k) 0); nia.
Qed.

Lemma mod_of_multiple n k j : 0 < k -> 0 < j -> n mod (k * j) = 0 -> n mod k = 0.
Proof.
  intros Hk Hj H. apply Z.mod_divide in H as [q Hq]; [|lia].
  apply Z.mod_divide; [lia|]. exists (q * j). lia.
Qed.

Lemma year_start_succ y : year_start (y + 1) = year_start y + 365 + leap_day (y + 1).
Proof.
  unfold year_start, leap_day, is_leap. rewrite !div_succ by lia.
  pose proof (mod_of_multiple (y + 1) 100 4 ltac:(lia) ltac:(lia)).
  pose proof (mod_of_multiple (y + 1) 4 25 ltac:(lia) ltac:(lia)).
  change (100 * 4) with 400 in *. change (4 * 25) with 100 in *.
  destruct (Z.eqb_spec ((y + 1) mod 4) 0), (Z.eqb_spec ((y + 1) mod 100) 0),
    (Z.eqb_spec ((y + 1) mod 400) 0); simpl; lia.
Qed.

Lemma year_estimate_succ a :
  0 <= a -> a + 1 < DAYS_PER_ERA -> year_estimate a <= year_estimate (a + 1).
Proof.
  unfold year_estimate, DAYS_PER_ERA. intros Ha Hb. rewrite !div_succ by lia.
  destruct (Z.eqb_spec ((a + 1) mod 146096) 0) as [H|]; [|repeat case_match; lia].
  apply Z.mod_divide in H as [q Hq]; [|lia].
  assert (a = 146095) as -> by lia. vm_compute. discriminate.
Qed.

Lemma year_estimate_mono a b :
  0 <= a <= b -> b < DAYS_PER_ERA -> year_estimate a <= year_estimate b.
Proof.
  intros [Ha Hab] Hb. replace b with (a + Z.of_nat (Z.to_nat (b - a))) in * by lia.
  clear Hab. revert Hb. induction (Z.to_nat (b - a)) as [|n IH]; intros Hb.
  - by rewrite Z.add_0_r.
  - rewrite Nat2Z.inj_succ in *. etrans; [apply IH; lia|].
    replace (a + Z.succ (Z.of_nat n)) with (a + Z.of_nat n + 1) in * by lia.
    apply year_estimate_succ; lia.
Qed.

Lemma year_ends_checked :
  forall_range (fun y =>
    (0 <=? year_start y) && (year_start (y + 1) <=? DAYS_PER_ERA) &&
    (365 * y <=? year_estimate (year_start y)) &&
    (year_estimate (year_start (y + 1) - 1) <? 365 * (y + 1))) 0 400 = true.
Proof. vm_compute. reflexivity. Qed.

Lemma year_estimate_spec y doe :
  0 <= y < 400 -> year_start y <= doe < year_start (y + 1) ->
  year_estimate doe / 365 = y.
Proof.
  intros Hy Hd. pose proof (forall_range_spec _ _ _ year_ends_checked y) as H.
  specialize (H ltac:(lia)). cbv beta in H. bool_to_prop.
  pose proof (year_estimate_mono (year_start y) doe).
  pose proof (year_estimate_mono doe (year_start (y + 1) - 1)).
  symmetry. apply Z.div_unique with (year_estimate doe - 365 * y); lia.
Qed.

Lemma year_of_day doe :
  0 <= doe < DAYS_PER_ERA ->
  exists y, 0 <= y < 400 /\ year_start y <= doe < year_start (y + 1).
Proof.
  intros Hd. assert (forall n : nat, doe < year_start (Z.of_nat n) ->
    exists y, 0 <= y < Z.of_nat n /\ year_start y <= doe < year_start (y + 1)) as H.
  { induction n as [|n IH]; intros Hn; [change (year_start (Z.of_nat 0)) with 0 in Hn; lia|].
    destruct (Z.lt_ge_cases doe (year_start (Z.of_nat n))) as [Hlt|Hge].
    - destruct (IH Hlt) as (y & ? & ?). exists y. lia.
    - exists (Z.of_nat n). rewrite Nat2Z.inj_succ in *. unfold Z.succ in Hn. lia. }
  apply (H 400%nat). exact (proj2 Hd).
Qed.

Lemma leap_day_era q r : leap_day (400 * q + r) = leap_day r.
Proof.
  unfold leap_day, is_leap.
  replace (400 * q + r) with (r + (100 * q) * 4) at 1 by lia. rewrite Z.mod_add by lia.
  replace (400 * q + r) with (r + (4 * q) * 100) at 1 by lia. rewrite Z.mod_add by lia.
  replace (400 * q + r) with (r + q * 400) at 1 by lia. rewrite Z.mod_add by lia.
  done.
Qed.

Lemma year_start_era q r : 0 <= r < 400 ->
  year_start (400 * q + r) = q * DAYS_PER_ERA + year_start r.
Proof.
  intros Hr. unfold year_start, DAYS_PER_ERA.
  replace (400 * q + r) with (r + 100 * q * 4) at 2 by lia. rewrite Z.div_add by lia.
  replace (400 * q + r) with (r + 4 * q * 100) at 2 by lia. rewrite Z.div_add by lia.
  replace (400 * q + r) with (r + q * 400) at 2 by lia. rewrite Z.div_add by lia. lia.
Qed.

(** ** The March-based year *)

Definition march_year (y m : Z) : Z := if m <=? 2 then y - 1 else y.
Definition march_month (m : Z) : Z := if 2 <? m then m - 3 else m + 9.
Definition month_start (mp : Z) : Z := (153 * mp + 2) / 5.

Lemma days_from_civil_eq y m d :
  days_from_civil y m d =
  year_start (march_year y m) + month_start (march_month m) + (d - 1) - 719468.
Proof.
  unfold days_from_civil. cbv zeta.
  fold (march_year y m) (march_month m) (month_start (march_month m)).
  rewrite (Z.div_mod (march_year y m) 400) at 5 by lia.
  rewrite year_start_era by (apply Z.mod_pos_bound; lia). unfold year_start.
  rewrite (Z.div_small (march_year y m mod 400) 400) by (apply Z.mod_pos_bound; lia). lia.
Qed.

Ltac each_month Hm :=
  let H := fresh in
  match type of Hm with 1 <= ?m <= 12 =>
    assert (m = 1 \/ m = 2 \/ m = 3 \/ m = 4 \/ m = 5 \/ m = 6 \/ m = 7 \/ m = 8 \/
            m = 9 \/ m = 10 \/ m = 11 \/ m = 12) as H by lia;
    clear Hm; repeat (destruct H as [->|H]); [..|subst m]
  end.

Ltac month_constants :=
  repeat match goal with
  | |- context [month_start (march_month ?k)] =>
      let v := eval vm_compute in (month_start (march_month k)) in
      change (month_start (march_month k)) with v
  | |- context [march_month ?k] =>
      let v := eval vm_compute in (march_month k) in change (march_month k) with v
  end.

Lemma month_start_length y m :
  1 <= m <= 12 ->
  0 <= month_start (march_month m) /\
  month_start (march_month m) + days_in_month y m <= 365 + leap_day (march_year y m + 1) /\
  forall d, 1 <= d <= days_in_month y m ->
    (5 * (month_start (march_month m) + (d - 1)) + 2) / 153 = march_month m.
Proof.
  intros Hm. assert (leap_day (y - 1 + 1) = leap_day y) as Hy by (f_equal; lia).
  each_month Hm; month_constants; unfold days_in_month, march_year;
    cbn -[is_leap leap_day Z.div Z.add Z.mul Z.sub]; rewrite ?Hy; unfold leap_day;
    repeat split; intros; repeat case_match; div_lia.
Qed.

(** ** Round trips *)

(** What [civil_from_days] computes from a March-based year and a day of it. *)
Lemma civil_from_days_march q r doy :
  0 <= r < 400 -> year_start r <= year_start r + doy < year_start (r + 1) ->
  civil_from_days (q * DAYS_PER_ERA + year_start r + doy - 719468) =
  let mp := (5 * doy + 2) / 153 in
  let m := if mp <? 10 then mp + 3 else mp - 9 in
  (r + q * 400 + (if m <=? 2 then 1 else 0), m, doy - month_start mp + 1).
Proof.
  intros Hr Hd. unfold civil_from_days.
  assert (0 <= year_start r) by (unfold year_start; div_lia).
  assert (year_start (r + 1) <= DAYS_PER_ERA).
  { pose proof (forall_range_spec _ _ _ year_ends_checked r ltac:(lia)) as H'.
    cbv beta in H'. bool_to_prop. lia. }
  replace (q * DAYS_PER_ERA + year_start r + doy - 719468 + 719468)
    with ((year_start r + doy) + q * DAYS_PER_ERA) by lia.
  cbv zeta. rewrite Z.div_add, Z.mod_add by done.
  rewrite Z.div_small, Z.mod_small by lia. rewrite Z.add_0_l. unfold civil_of_era.
  rewrite (year_estimate_spec r) by lia.
  replace (year_start r + doy - (365 * r + r / 4 - r / 100)) with doy
    by (unfold year_start; rewrite (Z.div_small r 400) by lia; lia).
  cbv zeta. reflexivity.
Qed.

(** Every day number is a day of a March-based year of some cycle. *)
Lemma march_split n :
  exists q r doy, 0 <= r < 400 /\ 0 <= doy < 365 + leap_day (400 * q + (r + 1)) /\
    n = q * DAYS_PER_ERA + year_start r + doy - 719468.
Proof.
  pose proof (Z.div_mod (n + 719468) DAYS_PER_ERA ltac:(done)).
  pose proof (Z.mod_pos_bound (n + 719468) DAYS_PER_ERA ltac:(done)) as Hb.
  destruct (year_of_day _ Hb) as (r & Hr & Hd).
  exists ((n + 719468) / DAYS_PER_ERA), r, ((n + 719468) mod DAYS_PER_ERA - year_start r).
  rewrite leap_day_era. pose proof (year_start_succ r). lia.
Qed.

Lemma civil_from_days_from_civil y m d :
  valid_date y m d -> civil_from_days (days_from_civil y m d) = (y, m, d).
Proof.
  intros [Hm Hd]. rewrite days_from_civil_eq.
  destruct (month_start_length y m Hm) as (Hs & Hl & Hmp). specialize (Hmp d Hd).
  pose proof (Z.div_mod (march_year y m) 400 ltac:(lia)) as Hq.
  pose proof (Z.mod_pos_bound (march_year y m) 400 ltac:(lia)) as Hr.
  set (q := march_year y m / 400) in *. set (r := march_year y m mod 400) in *.
  replace (march_year y m + 1) with (400 * q + (r + 1)) in Hl by lia.
  rewrite leap_day_era in Hl. pose proof (year_start_succ r) as Hys.
  rewrite Hq at 1. rewrite year_start_era by done.
  replace (q * DAYS_PER_ERA + year_start r + month_start (march_month m) + (d - 1) - 719468)
    with (q * DAYS_PER_ERA + year_start r + (month_start (march_month m) + (d - 1)) - 719468)
    by lia.
  rewrite civil_from_days_march by lia. cbv zeta. rewrite Hmp.
  assert ((if march_month m <? 10 then march_month m + 3 else march_month m - 9) = m) as ->
    by (unfold march_month; each_month Hm; reflexivity).
  f_equal; [f_equal|]; [|lia].
  replace (r + q * 400) with (march_year y m) by lia. unfold march_year.
  destruct (m <=? 2); lia.
Qed.

(** Month and day of a day of a March-based year. *)
Lemma march_day_valid y doy :
  0 <= doy < 365 + leap_day (y + 1) ->
  let mp := (5 * doy + 2) / 153 in
  let m := if mp <? 10 then mp + 3 else mp - 9 in
  let y' := y + (if m <=? 2 then 1 else 0) in
  1 <= m <= 12 /\ 1 <= doy - month_start mp + 1 <= days_in_month y' m /\
  march_year y' m = y /\ march_month m = mp.
Proof.
  intros Hd mp m y'.
  assert (Hlo : 153 * mp <= 5 * doy + 2 < 153 * (mp + 1)).
  { pose proof (Z.div_mod (5 * doy + 2) 153). pose proof (Z.mod_pos_bound (5 * doy + 2) 153).
    unfold mp. lia. }
  assert (H : mp = 0 \/ mp = 1 \/ mp = 2 \/ mp = 3 \/ mp = 4 \/ mp = 5 \/ mp = 6 \/
    mp = 7 \/ mp = 8 \/ mp = 9 \/ mp = 10 \/ mp = 11)
    by (unfold leap_day in Hd; case_match; lia).
  unfold y', m, march_year, days_in_month. clear y' m. clearbody mp.
  repeat (destruct H as [->|H]); [..|subst mp];
    repeat match goal with
    | |- context [month_start ?k] =>
        let v := eval vm_compute in (month_start k) in change (month_start k) with v
    end; cbn -[is_leap Z.add Z.sub Z.mul] in *;
    unfold leap_day in *; repeat split; try reflexivity; repeat case_match; first [lia | congruence].
Qed.

Lemma civil_from_days_valid n :
  let '(y, m, d) := civil_from_days n in
  valid_date y m d /\ days_from_civil y m d = n.
Proof.
  destruct (march_split n) as (q & r & doy & Hr & Hd & ->).
  pose proof (year_start_succ r) as Hys. rewrite leap_day_era in Hd.
  rewrite civil_from_days_march by lia. cbv zeta.
  pose proof (march_day_valid (400 * q + r) doy) as H.
  rewrite <- Z.add_assoc, leap_day_era in H. specialize (H Hd). cbv zeta in H.
  set (mp := (5 * doy + 2) / 153) in *.
  set (m := if mp <? 10 then mp + 3 else mp - 9) in *.
  replace (r + q * 400) with (400 * q + r) by lia.
  set (y' := 400 * q + r + (if m <=? 2 then 1 else 0)) in *.
  destruct H as (Hm & Hday & Hmy & Hmm). split; [done|].
  rewrite days_from_civil_eq, Hmy, Hmm, year_start_era by done. lia.
Qed.

Lemma civil_from_days_spec n y m d :
  civil_from_days n = (y, m, d) -> valid_date y m d /\ days_from_civil y m d = n.
Proof. intros H. pose proof (civil_from_days_valid n) as Hv. by rewrite H in Hv. Qed.

(** The first of the next month. *)
Lemma next_month_days y m :
  1 <= m <= 12 ->
  let '(y', m') := next_month y m in
  days_from_civil y' m' 1 = days_from_civil y m 1 + days_in_month y m /\ 1 <= m' <= 12.
Proof.
  intros Hm. unfold next_month.
  pose proof (year_start_succ (y - 1)) as Hy. replace (y - 1 + 1) with y in Hy by lia.
  each_month Hm; cbn -[days_from_civil days_in_month Z.add Z.sub];
    rewrite !days_from_civil_eq; month_constants; unfold march_year, days_in_month;
    cbn -[year_start is_leap Z.add Z.sub]; rewrite ?Z.add_simpl_r;
    unfold leap_day in *; repeat case_match; first [lia | congruence].
Qed.

(** Adding to the day of the month adds to the day number. *)
Lemma days_from_civil_add y m d n : days_from_civil y m (d + n) = days_from_civil y m d + n.
Proof. unfold days_from_civil. lia. Qed.

Lemma days_in_month_pos y m : 28 <= days_in_month y m <= 31.
Proof. unfold days_in_month. repeat case_match; lia. Qed.

(** Every day from the first of a month up to the first of the next lies in that month. *)
Lemma month_of_day y m n :
  1 <= m <= 12 ->
  days_from_civil y m 1 <= n < days_from_civil y m 1 + days_in_month y m ->
  civil_from_days n = (y, m, n - days_from_civil y m 1 + 1).
Proof.
  intros Hm Hn.
  replace n with (days_from_civil y m (n - days_from_civil y m 1 + 1)) at 1.
  - apply civil_from_days_from_civil. split; lia.
  - replace (n - days_from_civil y m 1 + 1) with (1 + (n - days_from_civil y m 1)) by lia.
    rewrite days_from_civil_add. lia.
Qed.

Lemma civil_from_days_inj a b : civil_from_days a = civil_from_days b -> a = b.
Proof.
  intros H. pose proof (civil_from_days_valid a) as Ha.
  pose proof (civil_from_days_valid b) as Hb. rewrite H in Ha.
  destruct (civil_from_days b) as [[y m] d]. lia.
Qed.

Lemma weekday_of_days_bounds n : 0 <= weekday_of_days n <= 6.
Proof. unfold weekday_of_days. pose proof (Z.mod_pos_bound (n + 4) 7). lia. Qed.
