(* ===== verification/Duration.v ===== *)
(** * Durations: [schedule/duration.ts]

    [90s], [15m], [2h], [7d]: one integer and one unit. The parse keeps the author's
    text, so formatting returns it unchanged. [Number] of the digits and the product are
    exact integers here; JavaScript's doubles are exact up to the ten-year bound, and a
    value beyond it is refused either way. *)
From S2P Require Import Prelude UString Errors.
Local Open Scope Z_scope.

Definition MS_s : Z := 1000.
Definition MS_m : Z := 60000.
Definition MS_h : Z := 3600000.
Definition MS_d : Z := 86400000.

(** [MS[unit]]. *)
Definition unit_ms (c : Z) : option Z :=
  if c =? 115 then Some MS_s
  else if c =? 109 then Some MS_m
  else if c =? 104 then Some MS_h
  else if c =? 100 then Some MS_d
  else None.

Definition MIN_MS : Z := 1000.
Definition MAX_MS : Z := 10 * 365 * 86400000.

Record Duration := { ms : Z; source : ustring }.

#[export] Instance Duration_eq_dec : EqDecision Duration.
Proof. solve_decision. Defined.

(** [PATTERN.exec(text)]: digits, then one unit character at the end. *)
Definition match_pattern (text : ustring) : option (ustring * Z) :=
  match rev text with
  | c :: ds =>
      match unit_ms c with
      | Some k => if all_digits (rev ds) then Some (rev ds, k) else None
      | None => None
      end
  | [] => None
  end.

Definition parseDuration (text field : ustring) : result ConfigError Duration :=
  match match_pattern (trim text) with
  | None => fail_with "schedule_duration_malformed" field
  | Some (digits, unit) =>
      let ms := digits_value digits * unit in
      if ms <? MIN_MS then fail_with "schedule_duration_too_small" field
      else if MAX_MS <? ms then fail_with "schedule_duration_too_large" field
      else Ok {| ms := ms; source := trim text |}
  end.

Definition formatDuration (d : Duration) : ustring := source d.

(** ** Properties *)

Lemma unit_ms_not_space c k : unit_ms c = Some k -> is_space c = false /\ 0 < k.
Proof.
  unfold unit_ms. intros H.
  destruct (Z.eqb_spec c 115) as [->|]; [injection H as <-; done|].
  destruct (Z.eqb_spec c 109) as [->|]; [injection H as <-; done|].
  destruct (Z.eqb_spec c 104) as [->|]; [injection H as <-; done|].
  destruct (Z.eqb_spec c 100) as [->|]; [injection H as <-; done|]. done.
Qed.

Lemma match_pattern_app ds c k :
  unit_ms c = Some k -> ds <> [] -> Forall (fun x => 48 <= x <= 57) ds ->
  match_pattern (ds ++ [c]) = Some (ds, k).
Proof.
  intros Hk Hne Hd. unfold match_pattern. rewrite rev_unit, Hk, rev_involutive.
  by rewrite all_digits_intro.
Qed.

Lemma trim_duration ds c k :
  unit_ms c = Some k -> ds <> [] -> Forall (fun x => 48 <= x <= 57) ds ->
  trim (ds ++ [c]) = ds ++ [c].
Proof.
  intros Hk Hne Hd. apply trim_fixed.
  - destruct ds as [|d ds]; [done|]. simpl. inversion Hd. by apply digit_not_space.
  - rewrite last_snoc. by apply (unit_ms_not_space c k).
Qed.

(** A parsed duration is within its bounds and keeps the text it was written as. *)
Lemma parseDuration_ok text f d :
  parseDuration text f = Ok d ->
  MIN_MS <= ms d <= MAX_MS /\ source d = trim text.
Proof.
  unfold parseDuration, fail_with. destruct (match_pattern (trim text)) as [[ds k]|]; [|done].
  destruct (Z.ltb_spec (digits_value ds * k) MIN_MS); [done|].
  destruct (Z.ltb_spec MAX_MS (digits_value ds * k)); [done|].
  intros H'; injection H' as <-. simpl. split; [lia|done].
Qed.

(** The parse is lossless: formatting an accepted duration and parsing it again gives
    the very same duration, and the text is the author's own, trimmed. *)
Theorem duration_round_trip text f d :
  parseDuration text f = Ok d ->
  formatDuration d = trim text /\ parseDuration (formatDuration d) f = Ok d.
Proof.
  intros H. destruct (parseDuration_ok _ _ _ H) as [_ Hs]. unfold formatDuration.
  rewrite Hs. split; [done|]. unfold parseDuration in *. by rewrite trim_idem.
Qed.

Lemma duration_round_trip_witness :
  exists d, parseDuration (js " 90m ") (js "f") = Ok d /\ ms d = 5400000 /\
    formatDuration d = js "90m".
Proof.
  exists {| ms := 5400000; source := js "90m" |}.
  assert (parseDuration (js " 90m ") (js "f") = Ok {| ms := 5400000; source := js "90m" |})
    as H by (vm_compute; reflexivity).
  split; [exact H | split; [reflexivity|]].
  exact (proj1 (duration_round_trip _ _ _ H)).
Defined.

(** Exactly the durations between one second and ten years are accepted: the text
    [n] followed by a unit parses to [n] units, or is refused as too small or too large. *)
Theorem duration_accepts n c k f :
  0 <= n -> unit_ms c = Some k ->
  parseDuration (decimal n ++ [c]) f =
    if n * k <? MIN_MS then fail_with "schedule_duration_too_small" f
    else if MAX_MS <? n * k then fail_with "schedule_duration_too_large" f
    else Ok {| ms := n * k; source := decimal n ++ [c] |}.
Proof.
  intros Hn Hk. destruct (decimal_spec n Hn) as (Hne & Hd & Hv).
  unfold parseDuration. rewrite (trim_duration _ _ k), (match_pattern_app _ _ k) by done.
  by rewrite Hv.
Qed.

Lemma duration_accepts_witness :
  parseDuration (decimal 15 ++ js "m") (js "f") = Ok {| ms := 900000; source := js "15m" |}.
Proof. exact (duration_accepts 15 109 60000 (js "f") ltac:(lia) eq_refl). Defined.
