(* ===== verification/Zone.v ===== *)
(** * Wall-clock time: [schedule/zone.ts]

    The time-zone database is the platform's ([Intl]) and is a parameter: for a name it
    recognises, the zone's UTC offset in whole seconds at every instant. Everything the
    module computes from it is translated. Instants are milliseconds since 1970. *)
From S2P Require Import Prelude UString Errors Calendar.
Local Open Scope Z_scope.

(** What the platform knows: [None] is a name it refuses. *)
Class TimeZoneDatabase := zone_offsets : ustring -> option (Z -> Z).

(** A zone whose formatter was made: its name, and its offset in seconds at an instant. *)
Record Zone := { zone_name : ustring; zone_offset : Z -> Z }.

(** [ZonedFields] without the derived [weekday]. *)
Record ZonedFields := {
  year : Z; month : Z; day : Z; hour : Z; minute : Z; second : Z }.

#[export] Instance ZonedFields_eq_dec : EqDecision ZonedFields.
Proof. solve_decision. Defined.

(** [formatterFor], and [assertZone] which only calls it. *)
Definition formatterFor `{TimeZoneDatabase} (zone : ustring) : result ConfigError Zone :=
  match zone_offsets zone with
  | Some off => Ok {| zone_name := zone; zone_offset := off |}
  | None => fail_with "schedule_timezone_unknown" (js "timezone")
  end.

(** ** Local time as a count of seconds *)

(** The wall clock reading [n] local seconds after 1970-01-01 00:00:00 local. *)
Definition fields_of_local (n : Z) : ZonedFields :=
  let '(y, m, d) := civil_from_days (n / 86400) in
  let s := n mod 86400 in
  {| year := y; month := m; day := d; hour := s / 3600; minute := s mod 3600 / 60;
     second := s mod 60 |}.

(** [Date.UTC] of the fields, in seconds. *)
Definition local_of_fields (f : ZonedFields) : Z :=
  days_from_civil (year f) (month f) (day f) * 86400 + hour f * 3600 + minute f * 60 + second f.

(** The local second a zone shows at an instant. *)
Definition local_at (z : Zone) (instant : Z) : Z := instant / 1000 + zone_offset z instant.

(** [partsOf], and [fieldsAt] which only calls it. *)
Definition fieldsAt (z : Zone) (instant : Z) : ZonedFields := fields_of_local (local_at z instant).

(** The derived [weekday] of [partsOf]. *)
Definition weekday (f : ZonedFields) : Z :=
  weekday_of_days (days_from_civil (year f) (month f) (day f)).

(** [instant % 1_000] is JavaScript's remainder: it has the sign of [instant]. *)
Definition offsetAt (z : Zone) (instant : Z) : Z :=
  local_of_fields (fieldsAt z instant) * 1000 - (instant - Z.rem instant 1000).

Definition instantFrom (z : Zone) (f : ZonedFields) : option Z :=
  let asIfUtc := local_of_fields f * 1000 in
  let candidate := asIfUtc - offsetAt z asIfUtc in
  let candidate := asIfUtc - offsetAt z candidate in
  if bool_decide (fieldsAt z candidate = f) then
    let earlier := candidate - 3600000 in
    if bool_decide (fieldsAt z earlier = f) then Some earlier else Some candidate
  else None.

(** ** Fields and local seconds are in bijection *)

Definition valid_fields (f : ZonedFields) : Prop :=
  valid_date (year f) (month f) (day f) /\
  0 <= hour f <= 23 /\ 0 <= minute f <= 59 /\ 0 <= second f <= 59.

Lemma hms_split s : s / 3600 * 3600 + s mod 3600 / 60 * 60 + s mod 60 = s.
Proof.
  assert ((s mod 3600) mod 60 = s mod 60) as H.
  { rewrite (Z.div_mod s 3600) at 2 by lia.
    replace (3600 * (s / 3600) + s mod 3600) with (s mod 3600 + 60 * (s / 3600) * 60) by lia.
    by rewrite Z.mod_add by lia. }
  pose proof (Z.div_mod s 3600). pose proof (Z.div_mod (s mod 3600) 60). lia.
Qed.

Lemma hms_unique h mi s :
  0 <= h <= 23 -> 0 <= mi <= 59 -> 0 <= s <= 59 ->
  (h * 3600 + mi * 60 + s) / 3600 = h /\ (h * 3600 + mi * 60 + s) mod 3600 / 60 = mi /\
  (h * 3600 + mi * 60 + s) mod 60 = s.
Proof.
  intros Hh Hm Hs. replace (h * 3600 + mi * 60 + s) with (mi * 60 + s + h * 3600) by lia.
  rewrite Z.div_add, Z.mod_add by lia. rewrite Z.div_small, (Z.mod_small _ 3600) by lia.
  replace (mi * 60 + s + h * 3600) with (s + (mi + h * 60) * 60) by lia.
  rewrite Z.mod_add, Z.mod_small by lia.
  replace (mi * 60 + s) with (s + mi * 60) by lia. rewrite Z.div_add, Z.div_small by lia.
  lia.
Qed.

Lemma local_of_fields_of_local n : local_of_fields (fields_of_local n) = n.
Proof.
  unfold fields_of_local, local_of_fields. pose proof (civil_from_days_valid (n / 86400)) as H.
  destruct (civil_from_days (n / 86400)) as [[y m] d]. simpl. destruct H as [_ ->].
  pose proof (hms_split (n mod 86400)). pose proof (Z.div_mod n 86400). lia.
Qed.

Lemma hms_bounds s :
  0 <= s < 86400 ->
  0 <= s / 3600 <= 23 /\ 0 <= s mod 3600 / 60 <= 59 /\ 0 <= s mod 60 <= 59.
Proof.
  intros Hs. pose proof (Z.mod_pos_bound s 60 ltac:(lia)).
  pose proof (Z.mod_pos_bound s 3600 ltac:(lia)).
  pose proof (Z.div_pos s 3600). pose proof (Z.div_lt_upper_bound s 3600 24).
  pose proof (Z.div_pos (s mod 3600) 60). pose proof (Z.div_lt_upper_bound (s mod 3600) 60 60).
  lia.
Qed.

Lemma fields_of_local_valid n : valid_fields (fields_of_local n).
Proof.
  unfold fields_of_local, valid_fields. pose proof (civil_from_days_valid (n / 86400)) as H.
  destruct (civil_from_days (n / 86400)) as [[y m] d]. simpl. destruct H as [Hv _].
  split; [done|]. apply hms_bounds, Z.mod_pos_bound. lia.
Qed.

Lemma fields_of_local_of_fields f :
  valid_fields f -> fields_of_local (local_of_fields f) = f.
Proof.
  destruct f as [y m d h mi s]. intros (Hd & Hh & Hm & Hs).
  unfold fields_of_local, local_of_fields. cbn [year month day hour minute second] in *.
  set (D := days_from_civil y m d).
  replace (D * 86400 + h * 3600 + mi * 60 + s) with ((h * 3600 + mi * 60 + s) + D * 86400) by lia.
  rewrite Z.div_add, Z.mod_add by lia.
  rewrite (Z.div_small _ 86400), (Z.mod_small _ 86400) by lia. rewrite Z.add_0_l. unfold D.
  rewrite civil_from_days_from_civil by done. clear D Hd.
  destruct (hms_unique h mi s) as (-> & -> & ->); done.
Qed.

Lemma fields_of_local_inj a b : fields_of_local a = fields_of_local b -> a = b.
Proof. intros H. by rewrite <- (local_of_fields_of_local a), H, local_of_fields_of_local. Qed.

(** The offset read back by differencing is the zone's, for instants from 1970 on. *)
Lemma offsetAt_spec z t : 0 <= t -> offsetAt z t = zone_offset z t * 1000.
Proof.
  intros Ht. unfold offsetAt, fieldsAt. rewrite local_of_fields_of_local. unfold local_at.
  rewrite Z.rem_mod_nonneg by lia. pose proof (Z.div_mod t 1000). lia.
Qed.

Lemma offsetAt_spec_whole z t : offsetAt z (t * 1000) = zone_offset z (t * 1000) * 1000.
Proof.
  unfold offsetAt, fieldsAt. rewrite local_of_fields_of_local. unfold local_at.
  rewrite Z.div_mul, Z.rem_mul by lia. lia.
Qed.

(** [instantFrom] asks only about whole seconds. *)
Lemma instantFrom_whole z f t : instantFrom z f = Some t -> exists s, t = s * 1000.
Proof.
  unfold instantFrom. rewrite offsetAt_spec_whole.
  replace (local_of_fields f * 1000 - zone_offset z (local_of_fields f * 1000) * 1000)
    with ((local_of_fields f - zone_offset z (local_of_fields f * 1000)) * 1000) by lia.
  rewrite offsetAt_spec_whole.
  match goal with |- context [zone_offset z ?u * 1000] => generalize (zone_offset z u) end.
  intros o. repeat case_bool_decide; intros H'; try done; injection H' as <-.
  - exists (local_of_fields f - o - 3600). lia.
  - exists (local_of_fields f - o). lia.
Qed.

(** The verification is what makes the answer one: the wall clock reads the fields asked
    for at the instant returned. *)
Lemma instantFrom_sound z f t : instantFrom z f = Some t -> fieldsAt z t = f.
Proof.
  unfold instantFrom. repeat case_bool_decide; intros H'; try done; by injection H' as <-.
Qed.

(** ** Readings that some instant shows *)

(** Within two days of the second [u] the zone changes its offset at most once, and its offsets are
    less than a day. *)
Definition regular_around (z : Zone) (u : Z) : Prop :=
  exists T before after_, Z.abs before < 86400 /\ Z.abs after_ < 86400 /\
    forall v, Z.abs (v - u * 1000) <= 172800000 -> zone_offset z v = if v <? T then before else after_.

Lemma fieldsAt_seconds z n : fieldsAt z (n * 1000) = fields_of_local (n + zone_offset z (n * 1000)).
Proof. unfold fieldsAt, local_at. by rewrite Z.div_mul. Qed.

(** What a second shows, in such a zone, [instantFrom] finds. *)
Lemma instantFrom_complete z u : regular_around z u -> instantFrom z (fieldsAt z (u * 1000)) <> None.
Proof.
  intros (T & a & b & Ha & Hb & Hz). rewrite fieldsAt_seconds. set (L := u + zone_offset z (u * 1000)). unfold instantFrom.
  rewrite local_of_fields_of_local, offsetAt_spec_whole. set (c1 := L - zone_offset z (L * 1000)).
  replace (L * 1000 - zone_offset z (L * 1000) * 1000) with (c1 * 1000) by lia. rewrite offsetAt_spec_whole.
  set (c2 := L - zone_offset z (c1 * 1000)). replace (L * 1000 - zone_offset z (c1 * 1000) * 1000) with (c2 * 1000) by lia.
  assert (zone_offset z (c2 * 1000) = zone_offset z (c1 * 1000)) as E; [|rewrite bool_decide_eq_true_2; [by case_bool_decide|]].
  - pose proof (Hz (u * 1000) ltac:(lia)) as Hu. set (ou := zone_offset z (u * 1000)) in *.
    assert (Z.abs ou < 86400) as Hou by (rewrite Hu; case_match; lia).
    pose proof (Hz (L * 1000) ltac:(lia)) as HL. set (oL := zone_offset z (L * 1000)) in *.
    assert (Z.abs oL < 86400) as HoL by (rewrite HL; case_match; lia).
    pose proof (Hz (c1 * 1000) ltac:(lia)) as H1. set (o1 := zone_offset z (c1 * 1000)) in *.
    assert (Z.abs o1 < 86400) as Ho1 by (rewrite H1; case_match; lia).
    rewrite (Hz (c2 * 1000)) by lia. rewrite H1 in *. unfold c2, c1, L in *.
    destruct (Z.ltb_spec (u * 1000) T), (Z.ltb_spec ((u + ou) * 1000) T), (Z.ltb_spec ((u + ou - oL) * 1000) T); subst;
      match goal with |- (if ?x <? T then _ else _) = _ => destruct (Z.ltb_spec x T) end; lia.
  - rewrite fieldsAt_seconds. f_equal. lia.
Qed.

(** ** Zones without transitions *)

Definition fixed_offset (z : Zone) (o : Z) : Prop := forall t, zone_offset z t = o.

Lemma instantFrom_fixed z o f :
  fixed_offset z o -> valid_fields f ->
  instantFrom z f = Some ((local_of_fields f - o) * 1000).
Proof.
  intros Hz Hf. unfold instantFrom. rewrite offsetAt_spec_whole, Hz.
  replace (local_of_fields f * 1000 - o * 1000) with ((local_of_fields f - o) * 1000) by lia.
  rewrite offsetAt_spec_whole, Hz.
  replace (local_of_fields f * 1000 - o * 1000) with ((local_of_fields f - o) * 1000) by lia.
  assert (forall n, fieldsAt z (n * 1000) = fields_of_local (n + o)) as Hat.
  { intros n. unfold fieldsAt, local_at. by rewrite Z.div_mul, Hz by lia. }
  replace ((local_of_fields f - o) * 1000 - 3600000)
    with ((local_of_fields f - o - 3600) * 1000) by lia.
  rewrite !Hat. replace (local_of_fields f - o + o) with (local_of_fields f) by lia.
  rewrite fields_of_local_of_fields by done. rewrite bool_decide_true by done.
  rewrite bool_decide_false; [done|]. intros H.
  rewrite <- (fields_of_local_of_fields f) in H at 2 by done.
  apply fields_of_local_inj in H. lia.
Qed.

(** ** Properties *)

(** Every instant [instantFrom] returns really shows the fields asked for on the
    zone's wall clock, whatever the zone's transitions; and when an hour earlier shows the
    same reading (a fall-back), the earlier of the two is the one returned. A reading
    inside a spring-forward gap, which no instant shows, therefore has no answer. *)
Theorem instantFrom_reads_back z f :
  (forall t, instantFrom z f = Some t ->
     fieldsAt z t = f /\ (fieldsAt z (t + 3600000) = f \/ fieldsAt z (t - 3600000) <> f)) /\
  ((forall t, fieldsAt z t <> f) -> instantFrom z f = None).
Proof.
  split.
  - intros t H. split; [by apply instantFrom_sound|].
    revert H. unfold instantFrom.
    set (c := local_of_fields f * 1000 - offsetAt z _) at 1.
    repeat case_bool_decide; intros H'; try done; injection H' as <-.
    + left. by rewrite Z.sub_add.
    + by right.
  - intros Hno. destruct (instantFrom z f) as [t|] eqn:E; [|done].
    by destruct (Hno t (instantFrom_sound _ _ _ E)).
Qed.
