(* ===== verification/Cron.v ===== *)
(** * Cron expressions: [schedule/cron.ts]

    The parser of 5- and 6-field expressions, vixie's day rule, and [nextCron], the walk
    over local calendar fields that finds the next occurrence. A JavaScript [Set] of
    numbers is the list of its elements in insertion order. *)
From S2P Require Import Prelude UString Errors Calendar Zone.
From stdpp Require Import sorting.
Local Open Scope Z_scope.

Definition CRON_HORIZON_DAYS : Z := 1462.

Definition MONTH_NAMES : list ustring :=
  map js ["jan"; "feb"; "mar"; "apr"; "may"; "jun"; "jul"; "aug"; "sep"; "oct"; "nov"; "dec"].
Definition DAY_NAMES : list ustring := map js ["sun"; "mon"; "tue"; "wed"; "thu"; "fri"; "sat"].

Record CronSpec := {
  seconds : list Z; minutes : list Z; hours : list Z;
  daysOfMonth : list Z; months : list Z; daysOfWeek : list Z;
  domRestricted : bool; dowRestricted : bool; source : ustring }.

(** ** The parser *)

Record FieldRange := { fmin : Z; fmax : Z; names : option (list ustring); named_from : Z }.

(** [FIELDS]; [named_from] is the number of the first name, 1 for the months. *)
Definition FIELD_second := {| fmin := 0; fmax := 59; names := None; named_from := 0 |}.
Definition FIELD_minute := {| fmin := 0; fmax := 59; names := None; named_from := 0 |}.
Definition FIELD_hour := {| fmin := 0; fmax := 23; names := None; named_from := 0 |}.
Definition FIELD_dayOfMonth := {| fmin := 1; fmax := 31; names := None; named_from := 0 |}.
Definition FIELD_month :=
  {| fmin := 1; fmax := 12; names := Some MONTH_NAMES; named_from := 1 |}.
Definition FIELD_dayOfWeek :=
  {| fmin := 0; fmax := 7; names := Some DAY_NAMES; named_from := 0 |}.

(** [fail(expr, detail, hint, field)]. *)
Definition fail {A} (field : ustring) : result ConfigError A :=
  fail_with "schedule_cron_malformed" field.

(** [names.indexOf(token)]. *)
Fixpoint index_of (token : ustring) (l : list ustring) : option Z :=
  match l with
  | [] => None
  | w :: l' => if bool_decide (w = token) then Some 0 else Z.succ <$> index_of token l'
  end.

Definition fieldValue (token : ustring) (range : FieldRange) (field : ustring)
  : result ConfigError Z :=
  match names range ≫= index_of (lower token) with
  | Some named => Ok (named + named_from range)
  | None =>
      if negb (all_digits token) then fail field
      else
        let value := digits_value token in
        if (value <? fmin range) || (fmax range <? value) then fail field else Ok value
  end.

(** [Set.prototype.add]. *)
Definition set_add (v : Z) (s : list Z) : list Z := if bool_decide (v ∈ s) then s else s ++ [v].

(** [for (let value = from; value <= to; value += step) values.add(value)]. *)
Fixpoint fill (fuel : nat) (value upto step : Z) (values : list Z) : list Z :=
  match fuel with
  | O => values
  | S fuel' =>
      if value <=? upto then fill fuel' (value + step) upto step (set_add value values)
      else values
  end.

(** One entry of a comma list: its bounds, its step and whether it is an unrestricted [*]. *)
Definition parseEntry (part : ustring) (range : FieldRange) (field : ustring)
  : result ConfigError (Z * Z * Z * bool) :=
  let token := trim part in
  if bool_decide (token = []) then fail field else
  let pieces := split_on 47 token in
  let spec := default [] (pieces !! 0%nat) in
  let stepText := pieces !! 1%nat in
  let step := match stepText with None => 1 | Some t => digits_value t end in
  if match stepText with None => false | Some t => negb (all_digits t) || (step <? 1) end
  then fail field else
  if bool_decide (spec = js "*") then Ok (fmin range, fmax range, step, step =? 1)
  else if includes_char 45 spec then
    let bounds := split_on 45 spec in
    from ← fieldValue (default [] (bounds !! 0%nat)) range field;
    upto ← fieldValue (default [] (bounds !! 1%nat)) range field;
    if upto <? from then fail field else Ok (from, upto, step, false)
  else
    from ← fieldValue spec range field;
    Ok (from, match stepText with None => from | Some _ => fmax range end, step, false).

Fixpoint parseEntries (parts : list ustring) (range : FieldRange) (field : ustring)
    (values : list Z) (restricted : bool) : result ConfigError (list Z * bool) :=
  match parts with
  | [] => Ok (values, restricted)
  | part :: parts' =>
      e ← parseEntry part range field;
      let '(from, upto, step, star) := e in
      parseEntries parts' range field (fill (Z.to_nat (upto - from + 1)) from upto step values)
        (if star : bool then false else restricted)
  end.

Definition parseField (text : ustring) (range : FieldRange) (field : ustring)
  : result ConfigError (list Z * bool) :=
  r ← parseEntries (split_on 44 text) range field [] true;
  if bool_decide (r.1 = []) then fail field else Ok r.

(** The sixth, leading field is the seconds; five fields mean second zero. *)
Definition parseCron (expr field : ustring) : result ConfigError CronSpec :=
  let src := trim expr in
  if starts_with (js "@") src then fail field else
  match match words src with
        | [min; hour; dom; mon; dow] => Some (js "0", min, hour, dom, mon, dow)
        | [sec; min; hour; dom; mon; dow] => Some (sec, min, hour, dom, mon, dow)
        | _ => None
        end with
  | None => fail field
  | Some (sec, min, hour, dom, mon, dow) =>
      seconds ← parseField sec FIELD_second field;
      minutes ← parseField min FIELD_minute field;
      hours ← parseField hour FIELD_hour field;
      daysOfMonth ← parseField dom FIELD_dayOfMonth field;
      months ← parseField mon FIELD_month field;
      daysOfWeek ← parseField dow FIELD_dayOfWeek field;
      Ok {| seconds := seconds.1; minutes := minutes.1; hours := hours.1;
            daysOfMonth := daysOfMonth.1; months := months.1;
            daysOfWeek :=
              foldl (fun folded d => set_add (if d =? 7 then 0 else d) folded) [] daysOfWeek.1;
            domRestricted := daysOfMonth.2; dowRestricted := daysOfWeek.2; source := src |}
  end.

(** ** The walk *)

(** Vixie's day rule. *)
Definition dayMatches (spec : CronSpec) (day weekday : Z) : bool :=
  let byDate := bool_decide (day ∈ daysOfMonth spec) in
  let byWeek := bool_decide (weekday ∈ daysOfWeek spec) in
  if domRestricted spec && dowRestricted spec then byDate || byWeek
  else if domRestricted spec then byDate
  else if dowRestricted spec then byWeek
  else true.

Definition addDays (y m d count : Z) : Z * Z * Z :=
  civil_from_days (days_from_civil y m (d + count)).

Definition weekdayOf (y m d : Z) : Z := weekday_of_days (days_from_civil y m d).

(** A loop that returns at its first answer. *)
Fixpoint first_some {A B} (f : A -> option B) (l : list A) : option B :=
  match l with
  | [] => None
  | x :: l' => match f x with Some b => Some b | None => first_some f l' end
  end.

(** [[...set].sort((a, b) => a - b)]. *)
Definition sorted (l : list Z) : list Z := merge_sort Z.le l.

(** The three nested loops over one matching day: over seconds, minutes and hours. *)
Definition scan_minute (spec : CronSpec) (z : Zone) (start : ZonedFields) (first : bool)
    (y m d h mi : Z) : option Z :=
  first_some (fun s =>
    if first && (h =? hour start) && (mi =? minute start) && (s <? second start) then None
    else instantFrom z {| year := y; month := m; day := d; hour := h; minute := mi;
                          second := s |})
    (sorted (seconds spec)).

Definition scan_hour (spec : CronSpec) (z : Zone) (start : ZonedFields) (first : bool)
    (y m d h : Z) : option Z :=
  first_some (fun mi =>
    if first && (h =? hour start) && (mi <? minute start) then None
    else scan_minute spec z start first y m d h mi)
    (sorted (minutes spec)).

Definition scan_day (spec : CronSpec) (z : Zone) (start : ZonedFields) (first : bool)
    (y m d : Z) : option Z :=
  first_some (fun h =>
    if first && (h <? hour start) then None else scan_hour spec z start first y m d h)
    (sorted (hours spec)).

(** The [while] loop. Every iteration moves at least one day towards the deadline. *)
Fixpoint next_loop (fuel : nat) (spec : CronSpec) (z : Zone) (start : ZonedFields)
    (deadline : Z) (y m d : Z) (first : bool) : option Z :=
  match fuel with
  | O => None
  | S fuel' =>
      if deadline <? date_utc y m d 0 0 0 then None
      else if bool_decide (m ∉ months spec) then
        let '(y', m') := next_month y m in
        next_loop fuel' spec z start deadline y' m' 1 false
      else if negb (dayMatches spec d (weekdayOf y m d)) then
        let '(y', m', d') := addDays y m d 1 in
        next_loop fuel' spec z start deadline y' m' d' false
      else
        match scan_day spec z start first y m d with
        | Some instant => Some instant
        | None =>
            let '(y', m', d') := addDays y m d 1 in
            next_loop fuel' spec z start deadline y' m' d' false
        end
  end.

(** Enough iterations for every day up to the deadline, and one more to see it passed. *)
Definition horizon_fuel : nat := Z.to_nat (CRON_HORIZON_DAYS + 2).

Definition nextCron (spec : CronSpec) (after : Z) (z : Zone) : option Z :=
  let start := fieldsAt z (after + 1000) in
  let deadline := date_utc (year start) (month start) (day start + CRON_HORIZON_DAYS) 0 0 0 in
  next_loop horizon_fuel spec z start deadline (year start) (month start) (day start) true.

Definition cronSatisfiable (spec : CronSpec) (from : Z) (z : Zone) : bool :=
  match nextCron spec from z with Some _ => true | None => false end.

(** ** What the parser guarantees *)

Definition within (lo hi : Z) (l : list Z) : Prop := Forall (fun v => lo <= v <= hi) l.

Record wf_spec (spec : CronSpec) : Prop := {
  wf_seconds : within 0 59 (seconds spec);
  wf_minutes : within 0 59 (minutes spec);
  wf_hours : within 0 23 (hours spec);
  wf_dom : within 1 31 (daysOfMonth spec);
  wf_months : within 1 12 (months spec);
  wf_dow : within 0 6 (daysOfWeek spec) }.

Lemma set_add_within lo hi v s : lo <= v <= hi -> within lo hi s -> within lo hi (set_add v s).
Proof.
  intros Hv Hs. unfold set_add. case_bool_decide; [done|].
  apply Forall_app; split; [done|]. by constructor.
Qed.

Lemma set_add_nonempty v s : set_add v s <> [].
Proof.
  unfold set_add. case_bool_decide as H; [|by destruct s].
  intros ->. by apply not_elem_of_nil in H.
Qed.

Lemma set_add_NoDup v s : NoDup s -> NoDup (set_add v s).
Proof.
  intros Hs. unfold set_add. case_bool_decide; [done|].
  apply NoDup_app. split; [done|]. split; [|apply NoDup_singleton].
  intros x Hx Hx'. apply list_elem_of_singleton in Hx' as ->. done.
Qed.

Lemma fill_within lo hi fuel v upto step s :
  lo <= v -> upto <= hi -> 1 <= step -> within lo hi s ->
  within lo hi (fill fuel v upto step s).
Proof.
  revert v s; induction fuel as [|fuel IH]; intros v s Hv Hu Hst Hs; simpl; [done|].
  destruct (Z.leb_spec v upto); [|done]. apply IH; [lia|lia|lia|]. by apply set_add_within; [lia|].
Qed.

Lemma index_of_bounds token l i : index_of token l = Some i -> 0 <= i < zlen l.
Proof.
  revert i; induction l as [|w l IH]; intros i H; simpl in H; [done|].
  case_bool_decide; [injection H as <-; simpl; lia|].
  destruct (index_of token l) as [j|]; simpl in H; [|done].
  injection H as <-. specialize (IH j eq_refl). simpl. lia.
Qed.

(** The ranges of [FIELDS] leave room for their names. *)
Definition good_range (r : FieldRange) : Prop :=
  fmin r <= fmax r /\
  match names r with
  | Some l => fmin r <= named_from r /\ named_from r + zlen l - 1 <= fmax r
  | None => True
  end.

Lemma fieldValue_within token r f v :
  good_range r -> fieldValue token r f = Ok v -> fmin r <= v <= fmax r.
Proof.
  intros [Hr Hn] H. unfold fieldValue in H.
  destruct (names r) as [l|]; simpl in H.
  - destruct (index_of (lower token) l) as [i|] eqn:E.
    + injection H as <-. apply index_of_bounds in E. lia.
    + destruct (negb (all_digits token)); [done|].
      destruct (_ || _) eqn:E'; [done|]. injection H as <-. bool_to_prop. lia.
  - destruct (negb (all_digits token)); [done|].
    destruct (_ || _) eqn:E'; [done|]. injection H as <-. bool_to_prop. lia.
Qed.

Lemma parseEntry_within part r f from upto step star :
  good_range r -> parseEntry part r f = Ok (from, upto, step, star) ->
  fmin r <= from /\ from <= upto /\ upto <= fmax r /\ 1 <= step.
Proof.
  intros Hr H. unfold parseEntry in H. case_bool_decide; [done|].
  set (pieces := split_on 47 (trim part)) in H.
  destruct (pieces !! 1%nat) as [t|].
  - destruct (negb (all_digits t) || (digits_value t <? 1)) eqn:E; [done|]. bool_to_prop.
    case_bool_decide; [injection H as <- <- <- <-; destruct Hr; lia|].
    destruct (includes_char 45 _).
    + apply bind_ok in H as (lo & Hlo & H). apply bind_ok in H as (hi & Hhi & H).
      destruct (Z.ltb_spec hi lo); [done|]. injection H as <- <- <- <-.
      apply fieldValue_within in Hlo, Hhi; [|done..]. lia.
    + apply bind_ok in H as (lo & Hlo & H). injection H as <- <- <- <-.
      apply fieldValue_within in Hlo; [|done]. lia.
  - case_bool_decide; [injection H as <- <- <- <-; destruct Hr; lia|].
    destruct (includes_char 45 _).
    + apply bind_ok in H as (lo & Hlo & H). apply bind_ok in H as (hi & Hhi & H).
      destruct (Z.ltb_spec hi lo); [done|]. injection H as <- <- <- <-.
      apply fieldValue_within in Hlo, Hhi; [|done..]. lia.
    + apply bind_ok in H as (lo & Hlo & H). injection H as <- <- <- <-.
      apply fieldValue_within in Hlo; [|done]. lia.
Qed.

Lemma parseEntries_within parts r f vs b vs' b' :
  good_range r -> within (fmin r) (fmax r) vs ->
  parseEntries parts r f vs b = Ok (vs', b') -> within (fmin r) (fmax r) vs'.
Proof.
  intros Hr. revert vs b; induction parts as [|p parts IH]; intros vs b Hvs H; simpl in H.
  - by injection H as <- <-.
  - apply bind_ok in H as ([[[from upto] step] star] & He & H).
    apply parseEntry_within in He; [|done]. eapply IH; [|exact H].
    apply fill_within; try lia. done.
Qed.

Lemma parseField_within text r f vs b :
  good_range r -> parseField text r f = Ok (vs, b) -> within (fmin r) (fmax r) vs /\ vs <> [].
Proof.
  intros Hr H. unfold parseField in H. apply bind_ok in H as ([vs' b'] & He & H).
  case_bool_decide; [done|]. injection H as <- <-. split; [|done].
  eapply parseEntries_within; [done| |exact He]. constructor.
Qed.

Lemma fold_sunday_spec l acc :
  within 0 7 l -> within 0 6 acc ->
  within 0 6 (foldl (fun folded d => set_add (if d =? 7 then 0 else d) folded) acc l) /\
  (l <> [] \/ acc <> [] ->
   foldl (fun folded d => set_add (if d =? 7 then 0 else d) folded) acc l <> []).
Proof.
  revert acc; induction l as [|d l IH]; intros acc Hl Hacc; simpl.
  - split; [done|]. by intros [|].
  - inversion Hl; subst. destruct (IH (set_add (if d =? 7 then 0 else d) acc)) as [Hw Hne].
    + done.
    + apply set_add_within; [|done]. destruct (Z.eqb_spec d 7); lia.
    + split; [done|]. intros _. apply Hne. right. apply set_add_nonempty.
Qed.

Lemma fieldValue_refuses token range f : refuses_at f (fieldValue token range f).
Proof. unfold fieldValue, fail. repeat case_match; auto with refusals. Qed.

#[local] Hint Resolve fieldValue_refuses : refusals.

Lemma parseEntry_refuses part range f : refuses_at f (parseEntry part range f).
Proof.
  unfold parseEntry, fail. cbv zeta.
  repeat first [apply refuses_at_bind; [auto with refusals|intros ?] | case_match];
    auto with refusals.
Qed.

Lemma parseField_refuses text range f : refuses_at f (parseField text range f).
Proof.
  unfold parseField, fail. apply refuses_at_bind; [|intros ?; case_match; auto with refusals].
  generalize (split_on 44 text) as parts, (@nil Z) as acc, true as b. intros parts.
  induction parts as [|p parts IH]; intros acc b; [done|]. simpl.
  apply refuses_at_bind; [apply parseEntry_refuses|]. intros [[[? ?] ?] ?]. apply IH.
Qed.

Lemma parseCron_refuses expr f : refuses_at f (parseCron expr f).
Proof.
  unfold parseCron, fail. cbv zeta. case_match; [done|]. case_match; [|done].
  destruct p as [[[[[? ?] ?] ?] ?] ?].
  repeat (apply refuses_at_bind; [apply parseField_refuses|intros ?]). done.
Qed.

Lemma parseCron_wf expr f spec :
  parseCron expr f = Ok spec ->
  wf_spec spec /\
  seconds spec <> [] /\ minutes spec <> [] /\ hours spec <> [] /\
  daysOfMonth spec <> [] /\ months spec <> [] /\ daysOfWeek spec <> [].
Proof.
  intros H. unfold parseCron in H. destruct (starts_with _ _); [done|].
  case_match eqn:Ep; [|done]. destruct p as [[[[[sec mi] h] dom] mon] dow].
  repeat match goal with
  | H : _ ≫= _ = Ok _ |- _ =>
      let vs := fresh "vs" in let b := fresh "b" in let He := fresh "He" in
      apply bind_ok in H as ([vs b] & He & H);
      apply parseField_within in He; [destruct He | split; simpl; try done; lia]
  end.
  injection H as <-. simpl in *.
  destruct (fold_sunday_spec vs4 []) as [Hw Hne]; [done|constructor|].
  split; [by constructor|]. repeat split; try done. apply Hne. by left.
Qed.

(** Whatever [parseCron] accepts is executable: every field admits at least one value,
    and every value lies in its field's range - hours 0-23, days 1-31, and Sunday only as
    0 after 7 is folded onto it. *)
Theorem parseCron_well_formed expr f spec :
  parseCron expr f = Ok spec ->
  wf_spec spec /\
  seconds spec <> [] /\ minutes spec <> [] /\ hours spec <> [] /\
  daysOfMonth spec <> [] /\ months spec <> [] /\ daysOfWeek spec <> [].
Proof. apply parseCron_wf. Qed.

Lemma parseCron_well_formed_witness :
  exists spec, parseCron (js "*/15 9-17 1,15 jan-mar 7") (js "f") = Ok spec /\
    minutes spec = [0; 15; 30; 45] /\ daysOfWeek spec = [0] /\ wf_spec spec.
Proof.
  destruct (parseCron (js "*/15 9-17 1,15 jan-mar 7") (js "f")) as [spec|e] eqn:H.
  2: { vm_compute in H. discriminate H. }
  exists spec. split; [reflexivity|].
  pose proof (parseCron_well_formed _ _ _ H) as [Hwf _].
  vm_compute in H. injection H as <-. auto.
Defined.

(** ** What the walk finds *)

(** The vixie rule: a day field left as [*] restricts nothing, and of two that are written
    either is enough. *)
Definition day_rule (spec : CronSpec) (day weekday : Z) : Prop :=
  match domRestricted spec, dowRestricted spec with
  | true, true => day ∈ daysOfMonth spec \/ weekday ∈ daysOfWeek spec
  | true, false => day ∈ daysOfMonth spec
  | false, true => weekday ∈ daysOfWeek spec
  | false, false => True
  end.

Lemma dayMatches_spec spec day weekday : dayMatches spec day weekday = true <-> day_rule spec day weekday.
Proof.
  unfold dayMatches, day_rule. destruct (domRestricted spec), (dowRestricted spec); cbn;
    rewrite ?orb_true_iff, ?bool_decide_eq_true; tauto.
Qed.

(** A wall-clock reading the expression names. *)
Definition matches (spec : CronSpec) (f : ZonedFields) : Prop :=
  second f ∈ seconds spec /\ minute f ∈ minutes spec /\ hour f ∈ hours spec /\
  month f ∈ months spec /\ day_rule spec (day f) (weekdayOf (year f) (month f) (day f)).

(** The specification of a search from local second [lo] to the end of local day [last]:
    the first reading in wall-clock order that the expression names and that an instant
    shows, or [None] when there is none. *)
Definition first_occurrence (spec : CronSpec) (z : Zone) (lo last : Z) (r : option Z) : Prop :=
  match r with
  | Some t =>
      exists L, lo <= L /\ L / 86400 <= last /\ matches spec (fields_of_local L) /\
        instantFrom z (fields_of_local L) = Some t /\
        forall L', lo <= L' < L -> matches spec (fields_of_local L') ->
                   instantFrom z (fields_of_local L') = None
  | None =>
      forall L, lo <= L -> L / 86400 <= last -> matches spec (fields_of_local L) ->
                instantFrom z (fields_of_local L) = None
  end.

(** A stretch with no occurrence may be skipped. *)
Lemma first_occurrence_skip spec z lo lo' last r :
  lo <= lo' ->
  (forall L, lo <= L < lo' -> matches spec (fields_of_local L) ->
             instantFrom z (fields_of_local L) = None) ->
  first_occurrence spec z lo' last r -> first_occurrence spec z lo last r.
Proof.
  intros Hlo Hskip. destruct r as [t|]; simpl.
  - intros (L & HL & Hd & Hm & Ht & Hbefore). exists L.
    split; [lia|]. do 3 (split; [done|]).
    intros L' HL' Hm'. destruct (Z.lt_ge_cases L' lo'); [apply Hskip | apply Hbefore]; done || lia.
  - intros H L HL Hd Hm. destruct (Z.lt_ge_cases L lo'); [apply Hskip | apply H]; done || lia.
Qed.

(** *** Searching one sorted list *)

Lemma sorted_spec l : StronglySorted Z.le (sorted l) /\ forall x, x ∈ sorted l <-> x ∈ l.
Proof.
  split; [apply StronglySorted_merge_sort; apply _|].
  intros x. unfold sorted. by rewrite merge_sort_Permutation.
Qed.

Lemma first_some_None {A B} (f : A -> option B) l :
  first_some f l = None <-> forall x, x ∈ l -> f x = None.
Proof.
  induction l as [|x l IH]; simpl.
  - split; [intros _ x Hx; by apply not_elem_of_nil in Hx | done].
  - destruct (f x) eqn:E.
    + split; [done|]. intros H. rewrite <- E. apply H. by left.
    + rewrite IH. split; intros H y Hy; [|by apply H; right].
      apply elem_of_cons in Hy as [->|Hy]; auto.
Qed.

Lemma first_some_sorted {B} (f : Z -> option B) l t :
  StronglySorted Z.le l -> first_some f l = Some t ->
  exists x, x ∈ l /\ f x = Some t /\ forall y, y ∈ l -> y < x -> f y = None.
Proof.
  induction 1 as [|x l Hs IH Hx]; simpl; [done|]. intros H.
  destruct (f x) eqn:E.
  - exists x. injection H as ->. split; [by left|]. split; [done|].
    intros y Hy Hlt. apply elem_of_cons in Hy as [->|Hy]; [lia|].
    rewrite Forall_forall in Hx. specialize (Hx y Hy). lia.
  - destruct (IH H) as (u & Hu & Hfu & Hb). exists u. split; [by right|]. split; [done|].
    intros y Hy Hlt. apply elem_of_cons in Hy as [->|Hy]; auto.
Qed.

(** *** One day *)

Definition sod (h mi s : Z) : Z := h * 3600 + mi * 60 + s.

(** The local seconds of day [D], and the fields they read. *)
Lemma fields_of_day_second y m d h mi s :
  valid_date y m d -> 0 <= h <= 23 -> 0 <= mi <= 59 -> 0 <= s <= 59 ->
  fields_of_local (days_from_civil y m d * 86400 + sod h mi s) =
  {| year := y; month := m; day := d; hour := h; minute := mi; second := s |}.
Proof.
  intros Hd Hh Hm Hs. unfold sod.
  rewrite <- (fields_of_local_of_fields
    {| year := y; month := m; day := d; hour := h; minute := mi; second := s |}).
  - unfold local_of_fields. cbn [year month day hour minute second]. f_equal. lia.
  - done.
Qed.

Lemma date_of_local L :
  (year (fields_of_local L), month (fields_of_local L), day (fields_of_local L)) =
  civil_from_days (L / 86400).
Proof. unfold fields_of_local. by destruct (civil_from_days (L / 86400)) as [[y m] d]. Qed.

Lemma days_of_local L :
  days_from_civil (year (fields_of_local L)) (month (fields_of_local L))
    (day (fields_of_local L)) = L / 86400.
Proof. exact (proj2 (civil_from_days_spec _ _ _ _ (eq_sym (date_of_local L)))). Qed.

Lemma local_of_fields_eq f :
  local_of_fields f =
  days_from_civil (year f) (month f) (day f) * 86400 + sod (hour f) (minute f) (second f).
Proof. unfold local_of_fields, sod. lia. Qed.

Lemma second_of_local L :
  L = L / 86400 * 86400 + sod (hour (fields_of_local L)) (minute (fields_of_local L))
        (second (fields_of_local L)).
Proof.
  rewrite <- (days_of_local L), <- local_of_fields_eq. symmetry. apply local_of_fields_of_local.
Qed.

Lemma fields_eta f :
  f = {| year := year f; month := month f; day := day f; hour := hour f;
         minute := minute f; second := second f |}.
Proof. by destruct f. Qed.

(** [(h, mi, s)] is not passed over on the first day. *)
Definition not_before (start : ZonedFields) (first : bool) (h mi s : Z) : Prop :=
  first = true -> sod (hour start) (minute start) (second start) <= sod h mi s.

Section OneDay.
Context (spec : CronSpec) (z : Zone) (start : ZonedFields) (first : bool) (y m d : Z).
Context (Hspec : wf_spec spec) (Hstart : valid_fields start).

Let at_time (h mi s : Z) : option Z :=
  instantFrom z {| year := y; month := m; day := d; hour := h; minute := mi; second := s |}.

Lemma in_hours h : h ∈ hours spec -> 0 <= h <= 23.
Proof. destruct Hspec as [_ _ H _ _ _]. unfold within in H. rewrite Forall_forall in H. auto. Qed.
Lemma in_minutes mi : mi ∈ minutes spec -> 0 <= mi <= 59.
Proof. destruct Hspec as [_ H _ _ _ _]. unfold within in H. rewrite Forall_forall in H. auto. Qed.
Lemma in_seconds s : s ∈ seconds spec -> 0 <= s <= 59.
Proof. destruct Hspec as [H _ _ _ _ _]. unfold within in H. rewrite Forall_forall in H. auto. Qed.

Lemma in_sorted x l : x ∈ l -> x ∈ sorted l.
Proof. apply sorted_spec. Qed.
Lemma of_sorted x l : x ∈ sorted l -> x ∈ l.
Proof. apply sorted_spec. Qed.

Ltac ranges :=
  repeat match goal with
  | H : _ ∈ hours spec |- _ => apply in_hours in H
  | H : _ ∈ minutes spec |- _ => apply in_minutes in H
  | H : _ ∈ seconds spec |- _ => apply in_seconds in H
  end;
  destruct Hstart as (_ & ? & ? & ?); unfold not_before, sod in *.

Ltac test_false E :=
  match goal with |- context [if ?b then None else _] =>
    assert (b = false) as E by
      (destruct first; [|done];
       match goal with H : true = true -> _ |- _ => specialize (H eq_refl) end;
       repeat match goal with
       | |- context [Z.eqb ?u ?v] => destruct (Z.eqb_spec u v)
       | |- context [Z.ltb ?u ?v] => destruct (Z.ltb_spec u v)
       end; simpl; try done; lia)
  end.

Lemma scan_minute_None h mi :
  h ∈ hours spec -> mi ∈ minutes spec ->
  scan_minute spec z start first y m d h mi = None ->
  forall s, s ∈ seconds spec -> not_before start first h mi s -> at_time h mi s = None.
Proof.
  intros Hh Hm H s Hs Hnb. unfold scan_minute in H. rewrite first_some_None in H.
  specialize (H s (in_sorted _ _ Hs)). revert H. ranges. test_false E. by rewrite E.
Qed.

Lemma scan_hour_None h :
  h ∈ hours spec -> scan_hour spec z start first y m d h = None ->
  forall mi s, mi ∈ minutes spec -> s ∈ seconds spec -> not_before start first h mi s ->
               at_time h mi s = None.
Proof.
  intros Hh H mi s Hm Hs Hnb. unfold scan_hour in H. rewrite first_some_None in H.
  specialize (H mi (in_sorted _ _ Hm)). apply scan_minute_None; try done.
  revert H. clear -Hh Hm Hs Hnb Hspec Hstart. ranges. test_false E. by rewrite E.
Qed.

Lemma scan_day_None :
  scan_day spec z start first y m d = None ->
  forall h mi s, h ∈ hours spec -> mi ∈ minutes spec -> s ∈ seconds spec ->
    not_before start first h mi s -> at_time h mi s = None.
Proof.
  intros H h mi s Hh Hm Hs Hnb. unfold scan_day in H. rewrite first_some_None in H.
  specialize (H h (in_sorted _ _ Hh)). apply scan_hour_None; try done.
  revert H. clear -Hh Hm Hs Hnb Hspec Hstart. ranges. test_false E. by rewrite E.
Qed.

Lemma scan_day_Some t :
  scan_day spec z start first y m d = Some t ->
  exists h mi s, h ∈ hours spec /\ mi ∈ minutes spec /\ s ∈ seconds spec /\
    not_before start first h mi s /\ at_time h mi s = Some t /\
    forall h' mi' s', h' ∈ hours spec -> mi' ∈ minutes spec -> s' ∈ seconds spec ->
      not_before start first h' mi' s' -> sod h' mi' s' < sod h mi s ->
      at_time h' mi' s' = None.
Proof.
  intros H. unfold scan_day in H.
  apply first_some_sorted in H as (h & Hh & H & Hbh); [|apply sorted_spec].
  apply of_sorted in Hh. destruct (first && (h <? hour start)) eqn:E1; [done|].
  apply first_some_sorted in H as (mi & Hm & H & Hbm); [|apply sorted_spec].
  apply of_sorted in Hm.
  destruct (first && (h =? hour start) && (mi <? minute start)) eqn:E2; [done|].
  apply first_some_sorted in H as (s & Hs & H & Hbs); [|apply sorted_spec].
  apply of_sorted in Hs.
  destruct (first && (h =? hour start) && (mi =? minute start) && (s <? second start)) eqn:E3;
    [done|].
  exists h, mi, s. split; [done|]. split; [done|]. split; [done|]. split; [|split; [exact H|]].
  - clear -Hh Hm Hs E1 E2 E3 Hspec Hstart. ranges. intros ->. simpl in *.
    destruct (Z.eqb_spec h (hour start)), (Z.eqb_spec mi (minute start)); simpl in *;
      bool_to_prop; lia.
  - intros h' mi' s' Hh' Hm' Hs' Hnb Hlt.
    assert (h' < h \/ h' = h /\ (mi' < mi \/ mi' = mi /\ s' < s)) as Hlex.
    { clear -Hlt Hh Hm Hs Hh' Hm' Hs' Hspec Hstart. ranges. lia. }
    destruct Hlex as [Hl | [-> [Hl | [-> Hl]]]].
    + specialize (Hbh h' (in_sorted _ _ Hh') Hl). apply scan_hour_None; try done.
      revert Hbh. clear -Hh' Hm' Hs' Hnb Hspec Hstart. ranges. test_false E. by rewrite E.
    + specialize (Hbm mi' (in_sorted _ _ Hm') Hl). apply scan_minute_None; try done.
      revert Hbm. clear -Hh' Hm' Hs' Hnb Hspec Hstart. ranges. test_false E. by rewrite E.
    + specialize (Hbs s' (in_sorted _ _ Hs') Hl).
      revert Hbs. clear -Hh' Hm' Hs' Hnb Hspec Hstart. ranges. test_false E. by rewrite E.
Qed.
End OneDay.

(** *** The whole walk *)

Lemma date_utc_day y m d : date_utc y m d 0 0 0 = days_from_civil y m d * 86400000.
Proof. unfold date_utc. lia. Qed.

(** The fields are compared through this lemma: [injection] would unfold the calendar. *)
Lemma triple_eq {A B C} (a a' : A) (b b' : B) (c c' : C) :
  (a, b, c) = (a', b', c') -> a = a' /\ b = b' /\ c = c'.
Proof. by intros [= -> -> ->]. Qed.

Lemma not_in_month spec y m L D' :
  1 <= m <= 12 -> m ∉ months spec ->
  days_from_civil y m 1 <= L / 86400 -> L / 86400 < D' ->
  D' = days_from_civil y m 1 + days_in_month y m ->
  ~ matches spec (fields_of_local L).
Proof.
  intros Hm Hno Hlo Hhi -> (_ & _ & _ & Hin & _). apply Hno.
  pose proof (date_of_local L) as H. rewrite (month_of_day y m) in H by lia.
  apply triple_eq in H as (_ & <- & _). exact Hin.
Qed.

Lemma day_hours L D : L / 86400 = D <-> D * 86400 <= L < (D + 1) * 86400.
Proof.
  split.
  - intros <-. pose proof (Z.div_mod L 86400). pose proof (Z.mod_pos_bound L 86400). lia.
  - intros H. symmetry. apply Z.div_unique with (L - D * 86400); lia.
Qed.

(** Where the search of a state of the loop begins. *)
Definition search_from (start : ZonedFields) (D : Z) (first : bool) : Z :=
  if first then D * 86400 + sod (hour start) (minute start) (second start) else D * 86400.

Section Walk.
Context (spec : CronSpec) (z : Zone) (start : ZonedFields) (last : Z).
Context (Hspec : wf_spec spec) (Hstart : valid_fields start).

Lemma search_from_bounds D first : D * 86400 <= search_from start D first < (D + 1) * 86400.
Proof. destruct Hstart as (_ & ? & ? & ?). unfold search_from, sod. destruct first; lia. Qed.

Lemma on_day y m d L :
  valid_date y m d -> L / 86400 = days_from_civil y m d ->
  fields_of_local L =
    {| year := y; month := m; day := d; hour := hour (fields_of_local L);
       minute := minute (fields_of_local L); second := second (fields_of_local L) |}.
Proof.
  intros Hd HL. pose proof (date_of_local L) as H.
  rewrite HL, civil_from_days_from_civil in H by done. apply triple_eq in H as (Hy & Hm & Hdd).
  rewrite (fields_eta (fields_of_local L)) at 1. by rewrite Hy, Hm, Hdd.
Qed.

Lemma scan_day_none_on_day first y m d L :
  valid_date y m d -> L / 86400 = days_from_civil y m d ->
  search_from start (days_from_civil y m d) first <= L ->
  scan_day spec z start first y m d = None -> matches spec (fields_of_local L) ->
  instantFrom z (fields_of_local L) = None.
Proof.
  intros Hd HL Hlo Hscan (Hs & Hmi & Hh & _).
  rewrite (on_day y m d L) by done. eapply scan_day_None; try done.
  intros ->. unfold search_from in Hlo. pose proof (second_of_local L). lia.
Qed.

Lemma scan_day_some_on_day first y m d t :
  valid_date y m d -> days_from_civil y m d <= last -> m ∈ months spec ->
  dayMatches spec d (weekdayOf y m d) = true ->
  scan_day spec z start first y m d = Some t ->
  first_occurrence spec z (search_from start (days_from_civil y m d) first) last (Some t).
Proof.
  intros Hd Hlast Hm Hday Hscan. set (D := days_from_civil y m d) in *.
  destruct (scan_day_Some _ _ _ _ _ _ _ Hspec Hstart _ Hscan)
    as (h & mi & s & Hh & Hmi & Hs & Hnb & Ht & Hbefore).
  pose proof (in_hours _ Hspec _ Hh). pose proof (in_minutes _ Hspec _ Hmi).
  pose proof (in_seconds _ Hspec _ Hs).
  assert (HL : fields_of_local (D * 86400 + sod h mi s) = _)
    by (apply fields_of_day_second; done).
  exists (D * 86400 + sod h mi s). rewrite HL.
  assert ((D * 86400 + sod h mi s) / 86400 = D) as HD
    by (apply day_hours; unfold sod; lia).
  split; [|split; [lia|split; [|split; [exact Ht|]]]].
  - unfold search_from. destruct first; [specialize (Hnb eq_refl)|unfold sod]; lia.
  - unfold matches. cbn [year month day hour minute second]. rewrite <- dayMatches_spec. auto.
  - intros L' HL' Hm'. pose proof (search_from_bounds D first).
    assert (L' / 86400 = D) as HD' by (apply day_hours; unfold sod in *; lia).
    pose proof (second_of_local L') as HL2. destruct Hm' as (Hs' & Hmi' & Hh' & _).
    rewrite (on_day y m d L') by done. apply Hbefore; [done..| |lia].
    intros ->. unfold search_from in HL'. lia.
Qed.

(** The invariant of the loop: the state's date is a real one, the first iteration is on
    the start day, and the fuel covers the days that are left. *)
Lemma next_loop_spec fuel y m d first deadline :
  deadline = last * 86400000 -> valid_date y m d ->
  last - days_from_civil y m d + 1 < Z.of_nat fuel -> (0 < fuel)%nat ->
  first_occurrence spec z (search_from start (days_from_civil y m d) first) last
    (next_loop fuel spec z start deadline y m d first).
Proof.
  intros Hdl. revert y m d first. induction fuel as [|fuel IH]; intros y m d first Hd Hf Hf0;
    [lia|]. cbn [next_loop]. rewrite date_utc_day, Hdl. set (D := days_from_civil y m d) in *.
  pose proof (search_from_bounds D first) as Hsf.
  destruct (Z.ltb_spec (last * 86400000) (D * 86400000)) as [Hpast|Hin].
  { intros L HL HLd. exfalso. assert (L < (last + 1) * 86400).
    { pose proof (Z.div_mod L 86400).
      pose proof (Z.mod_pos_bound L 86400). lia. } lia. }
  assert (Hnext : forall y' m' d', valid_date y' m' d' -> D < days_from_civil y' m' d' ->
    (forall L, search_from start D first <= L < days_from_civil y' m' d' * 86400 ->
       matches spec (fields_of_local L) -> instantFrom z (fields_of_local L) = None) ->
    first_occurrence spec z (search_from start D first) last
      (next_loop fuel spec z start deadline y' m' d' false)).
  { intros y' m' d' Hd' Hlt Hskip.
    apply (first_occurrence_skip spec z _ (days_from_civil y' m' d' * 86400)); [lia|done|].
    apply (IH y' m' d' false); [done|lia|lia]. }
  rewrite <- Hdl. case_bool_decide as Hmonth.
  - pose proof (next_month_days y m (proj1 Hd)) as Hn.
    destruct (next_month y m) as [y' m']. destruct Hn as [Hn Hm'].
    pose proof (days_in_month_pos y' m'). destruct Hd as [Hm Hdm].
    assert (D = days_from_civil y m 1 + (d - 1)) as HD.
    { unfold D. rewrite <- days_from_civil_add. f_equal. lia. }
    apply Hnext; [split; lia|lia|]. intros L HL Hmt. exfalso. revert Hmt.
    apply (not_in_month spec y m L (days_from_civil y' m' 1) Hm Hmonth); [| |exact Hn].
    + apply Z.div_le_lower_bound; lia.
    + apply Z.div_lt_upper_bound; lia.
  - assert (Hadd : forall y' m' d', addDays y m d 1 = (y', m', d') ->
      valid_date y' m' d' /\ days_from_civil y' m' d' = D + 1).
    { intros y' m' d' E. apply civil_from_days_spec in E. by rewrite days_from_civil_add in E. }
    destruct (addDays y m d 1) as [[y' m'] d'] eqn:Eadd.
    destruct (Hadd _ _ _ eq_refl) as [Hd' HD'].
    destruct (dayMatches spec d (weekdayOf y m d)) eqn:Hday; cbn [negb].
    + destruct (scan_day spec z start first y m d) as [t|] eqn:Hscan.
      * apply scan_day_some_on_day; [exact Hd|fold D; lia|exact Hmonth|exact Hday|exact Hscan].
      * apply Hnext; [exact Hd'|lia|]. intros L HL Hmt.
        apply (scan_day_none_on_day first y m d L); auto; [|fold D; lia].
        fold D. apply day_hours. lia.
    + apply Hnext; [done|lia|]. intros L HL Hmt. exfalso.
      assert (HLD : L / 86400 = D) by (apply day_hours; lia).
      destruct Hmt as (_ & _ & _ & _ & Hdm). rewrite (on_day y m d L Hd HLD) in Hdm.
      apply dayMatches_spec in Hdm. cbn [year month day hour minute second] in Hdm. congruence.
Qed.
End Walk.

Lemma search_from_start L :
  search_from (fields_of_local L)
    (days_from_civil (year (fields_of_local L)) (month (fields_of_local L))
       (day (fields_of_local L))) true = L.
Proof. unfold search_from. rewrite days_of_local. symmetry. apply second_of_local. Qed.

Lemma nextCron_search spec after z :
  wf_spec spec ->
  let start := local_at z (after + 1000) in
  first_occurrence spec z start (start / 86400 + CRON_HORIZON_DAYS) (nextCron spec after z).
Proof.
  intros Hspec start. unfold nextCron, fieldsAt. fold start.
  rewrite date_utc_day, days_from_civil_add, days_of_local.
  pose proof (next_loop_spec spec z (fields_of_local start) (start / 86400 + CRON_HORIZON_DAYS)
    Hspec (fields_of_local_valid start) horizon_fuel (year (fields_of_local start))
    (month (fields_of_local start)) (day (fields_of_local start)) true _ eq_refl
    (proj1 (fields_of_local_valid start))) as H.
  rewrite search_from_start, days_of_local in H. apply H.
  - unfold horizon_fuel, CRON_HORIZON_DAYS. lia.
  - unfold horizon_fuel, CRON_HORIZON_DAYS. lia.
Qed.

(** C34. [nextCron] searches wall-clock readings in their local order, in every zone: for a spec the
    parser accepts, the answer is an instant whose reading in the zone is one the expression names,
    no earlier than the reading a second past [after] and within the 1462 days of the horizon; of two
    instants an hour apart with that reading it is the earlier; and no earlier reading of the search
    that the expression names is shown by any second of the clock (about which the zone changes its
    offset at most once in four days), so it was skipped because it falls in a gap. [undefined] means
    that no reading of the horizon qualifies. The month and day jumps skip no occurrence and the loop
    always ends. (The order is that of readings: where clocks went back, the answer can be an instant
    before [after], see [nextCron_fall_back_in_the_past].) *)
Theorem nextCron_first_occurrence spec after z :
  wf_spec spec ->
  let start := local_at z (after + 1000) in
  let last := start / 86400 + CRON_HORIZON_DAYS in
  let unseen L := forall u, regular_around z u -> fieldsAt z (u * 1000) <> fields_of_local L in
  match nextCron spec after z with
  | Some t => exists L, start <= L /\ L / 86400 <= last /\ matches spec (fields_of_local L) /\
      fieldsAt z t = fields_of_local L /\
      (fieldsAt z (t + 3600000) = fields_of_local L \/ fieldsAt z (t - 3600000) <> fields_of_local L) /\
      forall L', start <= L' < L -> matches spec (fields_of_local L') -> unseen L'
  | None => forall L, start <= L -> L / 86400 <= last -> matches spec (fields_of_local L) -> unseen L
  end.
Proof.
  intros Hspec start last unseen.
  assert (forall L, instantFrom z (fields_of_local L) = None -> unseen L) as Hun.
  { intros L Hn u Hu E. apply (instantFrom_complete z u Hu). by rewrite E. }
  pose proof (nextCron_search spec after z Hspec) as H. fold start in H. destruct (nextCron spec after z) as [t|].
  - destruct H as (L & H1 & H2 & H3 & H4 & H5). destruct (proj1 (instantFrom_reads_back z (fields_of_local L)) t H4) as [H6 H7].
    exists L. split_and!; try done. intros L' HL' Hm. by apply Hun, H5.
  - intros L H1 H2 H3. by apply Hun, H.
Qed.

(** Half past two every day, where the clocks go forward from two to three at 01:00 UTC on 1970-01-02:
    that day's is skipped. *)
Definition spring_zone : Zone := {| zone_name := js "Spring"; zone_offset := fun t => if t <? 90000000 then 3600 else 7200 |}.

Lemma nextCron_first_occurrence_witness :
  exists spec t, parseCron (js "30 2 * * *") (js "f") = Ok spec /\ nextCron spec 80000000 spring_zone = Some t /\
    matches spec (fieldsAt spring_zone t) /\ fieldsAt spring_zone t = fields_of_local 181800.
Proof.
  destruct (parseCron (js "30 2 * * *") (js "f")) as [spec|e] eqn:H.
  2: { vm_compute in H. discriminate H. }
  exists spec, 174600000. split; [reflexivity|].
  assert (wf_spec spec) as Hwf.
  { vm_compute in H. injection H as <-.
    constructor; unfold within; repeat constructor; cbn; lia. }
  assert (nextCron spec 80000000 spring_zone = Some 174600000) as E by (vm_compute in H; injection H as <-; vm_compute; reflexivity).
  pose proof (nextCron_first_occurrence spec 80000000 spring_zone Hwf) as Hs. rewrite E in Hs.
  destruct Hs as (L & _ & _ & Hm & Hf & _). split; [exact E|]. split; [by rewrite Hf|]. vm_compute. reflexivity.
Defined.

(** *** Zones whose offset never changes *)

(** Where the wall clock never jumps, [nextCron] returns the least instant strictly
    after [after], on a whole second, whose wall-clock reading the expression names, among
    the instants of the horizon; and it returns one whenever such an instant exists. *)
Theorem nextCron_least_instant spec after z o :
  wf_spec spec -> fixed_offset z o ->
  let horizon t := local_at z t / 86400 <= local_at z (after + 1000) / 86400 + CRON_HORIZON_DAYS in
  match nextCron spec after z with
  | Some t =>
      after < t /\ matches spec (fieldsAt z t) /\ horizon t /\
      forall t', after < t' * 1000 -> matches spec (fieldsAt z (t' * 1000)) -> t <= t' * 1000
  | None =>
      forall t', after < t' * 1000 -> horizon (t' * 1000) ->
                 ~ matches spec (fieldsAt z (t' * 1000))
  end.
Proof.
  intros Hspec Hz horizon. pose proof (nextCron_search spec after z Hspec) as H.
  pose proof (Z.div_mod (after + 1000) 1000). pose proof (Z.mod_pos_bound (after + 1000) 1000).
  assert (Hat : forall n, local_at z (n * 1000) = n + o)
    by (intros n; unfold local_at; by rewrite Z.div_mul, Hz by lia).
  assert (Hlater : forall t', after < t' * 1000 -> local_at z (after + 1000) <= t' + o).
  { intros t' Ht. unfold local_at. rewrite Hz. lia. }
  assert (Hfix : forall L, instantFrom z (fields_of_local L) = Some ((L - o) * 1000)).
  { intros L. rewrite (instantFrom_fixed z o _ Hz (fields_of_local_valid L)).
    by rewrite local_of_fields_of_local. }
  unfold horizon. destruct (nextCron spec after z) as [t|].
  - destruct H as (L & HL & Hday & Hm & Ht & Hb). rewrite Hfix in Ht. injection Ht as <-.
    unfold fieldsAt. rewrite Hat. replace (L - o + o) with L by lia.
    split; [unfold local_at in HL; rewrite Hz in HL; lia|].
    split; [exact Hm|]. split; [exact Hday|]. intros t' Ht' Hm'. rewrite Hat in Hm'.
    destruct (Z.lt_ge_cases (t' + o) L) as [Hlt|]; [|lia].
    specialize (Hb (t' + o) (conj (Hlater t' Ht') Hlt) Hm'). by rewrite Hfix in Hb.
  - intros t' Ht' Hday Hm'. rewrite Hat in Hday. unfold fieldsAt in Hm'. rewrite Hat in Hm'.
    specialize (H (t' + o) (Hlater t' Ht') Hday Hm'). by rewrite Hfix in H.
Qed.

Lemma nextCron_least_instant_witness :
  exists spec, parseCron (js "0 9 * * 1") (js "f") = Ok spec /\
    nextCron spec 0 {| zone_name := js "UTC"; zone_offset := fun _ => 0 |} = Some 378000000 /\
    forall t', 0 < t' * 1000 ->
      matches spec (fieldsAt {| zone_name := js "UTC"; zone_offset := fun _ => 0 |} (t' * 1000)) ->
      378000000 <= t' * 1000.
Proof.
  destruct (parseCron (js "0 9 * * 1") (js "f")) as [spec|e] eqn:H.
  2: { vm_compute in H. discriminate H. }
  exists spec. split; [reflexivity|].
  assert (wf_spec spec /\
    nextCron spec 0 {| zone_name := js "UTC"; zone_offset := fun _ => 0 |} = Some 378000000)
    as [Hwf Hn].
  { vm_compute in H. injection H as <-. split; [|vm_compute; reflexivity].
    constructor; unfold within; repeat constructor; cbn; lia. }
  split; [exact Hn|].
  pose proof (nextCron_least_instant spec 0 {| zone_name := js "UTC"; zone_offset := fun _ => 0 |}
    0 Hwf (fun _ => eq_refl)) as Hl.
  cbv zeta in Hl. rewrite Hn in Hl. exact (proj2 (proj2 (proj2 Hl))).
Defined.

(** *** The repeated hour *)

(** A zone whose clocks go back from 02:00 to 01:00 at 01:00 UTC on 1970-01-02. *)
Definition fall_back_zone : Zone :=
  {| zone_name := js "Fall/Back"; zone_offset := fun t => if t <? 90000000 then 3600 else 0 |}.

(** The documented "first instant strictly after [after]" is not what a fall-back gets:
    asked from 01:10 in the second pass of a repeated hour, [nextCron] answers with the
    01:30 of the first pass, forty minutes earlier, because [instantFrom] prefers the
    earlier of two instants that show one reading. *)
Theorem nextCron_fall_back_in_the_past :
  exists spec, parseCron (js "30 1 * * *") (js "f") = Ok spec /\
    nextCron spec 90600000 fall_back_zone = Some (90600000 - 40 * 60000).
Proof.
  destruct (parseCron (js "30 1 * * *") (js "f")) as [spec|e] eqn:H.
  - exists spec. split; [reflexivity|]. vm_compute in H. injection H as <-.
    vm_compute. reflexivity.
  - vm_compute in H. discriminate H.
Qed.
