(* ===== verification/Kinds.v ===== *)
(** * Schedule kinds and due decisions: [schedule/kinds.ts]

    The three kinds of schedule, the jitter a schedule carries, and the decision of when
    it fires next. Instants and intervals are milliseconds. What the platform decides -
    the time-zone database, the host's own zone and the formats [Date.parse] accepts -
    is the class [Platform]. *)
From Stdlib Require Import Sorted.
From S2P Require Import Prelude UString Errors Calendar Duration Zone Cron.
Local Open Scope Z_scope.

Class Platform := {
  #[global] platform_zones :: TimeZoneDatabase;
  hostZone : ustring;
  date_parse : ustring -> option Z }.

(** ** 32-bit arithmetic *)

Definition to_uint32 (x : Z) : Z := x mod 2 ^ 32.
Definition to_int32 (x : Z) : Z := (x + 2 ^ 31) mod 2 ^ 32 - 2 ^ 31.

(** [Math.imul] and the [^] operator: both read and give signed 32-bit integers. *)
Definition imul (a b : Z) : Z := to_int32 (to_int32 a * to_int32 b).
Definition bit_xor (a b : Z) : Z := Z.lxor (to_int32 a) (to_int32 b).

(** ** Schedules *)

Definition AT_HORIZON_MS : Z := 10 * 365 * 86400000.
Definition MAX_JITTER_MS : Z := 15 * 60000.
Definition MISSED_CAP : Z := 1000.

Inductive ScheduleKind := KCron | KEvery | KAt.

#[export] Instance ScheduleKind_eq_dec : EqDecision ScheduleKind.
Proof. solve_decision. Defined.

Inductive ParsedSchedule :=
| PCron (spec : CronSpec) (zone : Zone) (source : ustring)
| PEvery (every : Duration) (zone : Zone) (source : ustring)
| PAt (at_ : Z) (zone : Zone) (source : ustring).

Record ParseScheduleInput := {
  input_kind : ScheduleKind; input_expr : ustring; input_timezone : option ustring;
  input_now : Z; input_field : ustring }.

Definition parseSchedule `{Platform} (input : ParseScheduleInput)
  : result ConfigError ParsedSchedule :=
  zone ← formatterFor (default hostZone (input_timezone input));
  let source := trim (input_expr input) in
  match input_kind input with
  | KCron =>
      spec ← parseCron source (input_field input);
      match nextCron spec (input_now input) zone with
      | None => fail_with "schedule_cron_unsatisfiable" (input_field input)
      | Some _ => Ok (PCron spec zone source)
      end
  | KEvery =>
      every ← parseDuration source (input_field input);
      Ok (PEvery every zone source)
  | KAt =>
      match date_parse source with
      | None => fail_with "schedule_at_malformed" (input_field input)
      | Some at_ =>
          if input_now input + AT_HORIZON_MS <? at_
          then fail_with "schedule_at_too_far" (input_field input)
          else Ok (PAt at_ zone source)
      end
  end.

(** ** Jitter *)

Definition hash_step (value c : Z) : Z := to_uint32 (imul (bit_xor value c) 0x01000193).

(** FNV-1a over the UTF-16 code units. *)
Definition hash (text : ustring) : Z := foldl hash_step 0x811c9dc5 text.

Definition jitterFor (id : ustring) (intervalMs : option Z) : Z :=
  match intervalMs with
  | None => 0
  | Some interval =>
      if interval <=? 0 then 0
      else
        let span := Z.min (interval / 10) MAX_JITTER_MS in
        if span <=? 0 then 0 else hash id mod span
  end.

Definition intervalOf (parsed : ParsedSchedule) (from : Z) : option Z :=
  match parsed with
  | PEvery every _ _ => Some (ms every)
  | PAt _ _ _ => None
  | PCron spec zone _ =>
      first ← nextCron spec from zone;
      second ← nextCron spec first zone;
      Some (second - first)
  end.

(** ** The decision *)

Record DueDecision := {
  runAt : option Z; anchor : option Z; missed : Z; missedCapped : bool; late : bool }.

#[export] Instance DueDecision_eq_dec : EqDecision DueDecision.
Proof. solve_decision. Defined.

(** The [for (;;)] over missed occurrences. It counts up to [MISSED_CAP] and returns, so
    a fuel of [MISSED_CAP] iterations is exactly what it can use. *)
Fixpoint cron_due (fuel : nat) (spec : CronSpec) (zone : Zone) (jitter now cursor missed : Z)
  : DueDecision :=
  match nextCron spec cursor zone with
  | None => {| runAt := None; anchor := None; missed := missed; missedCapped := false;
               late := false |}
  | Some occurrence =>
      if now <? occurrence + jitter then
        {| runAt := Some (occurrence + jitter); anchor := Some occurrence; missed := missed;
           missedCapped := false; late := false |}
      else
        let missed := missed + 1 in
        let resume := nextCron spec now zone in
        let stop :=
          {| runAt := (fun r => r + jitter) <$> resume; anchor := resume; missed := missed;
             missedCapped := true; late := false |} in
        if MISSED_CAP <=? missed then stop
        else match fuel with
             | O => stop
             | S fuel' => cron_due fuel' spec zone jitter now occurrence missed
             end
  end.

Definition decideDue (parsed : ParsedSchedule) (id : ustring) (from now : Z) (consumed : bool)
  : DueDecision :=
  match parsed with
  | PAt at_ _ _ =>
      if consumed then
        {| runAt := None; anchor := None; missed := 0; missedCapped := false; late := false |}
      else if at_ <=? now then
        {| runAt := Some now; anchor := Some at_; missed := 0; missedCapped := false;
           late := true |}
      else
        {| runAt := Some at_; anchor := Some at_; missed := 0; missedCapped := false;
           late := false |}
  | PEvery every _ _ =>
      let jitter := jitterFor id (intervalOf parsed from) in
      let elapsed := now - from in
      let missedExact := if elapsed <=? 0 then 0 else elapsed / ms every in
      let missed := Z.min missedExact MISSED_CAP in
      let steps := missedExact + 1 in
      let anchor := from + steps * ms every in
      {| runAt := Some (anchor + jitter); anchor := Some anchor; missed := missed;
         missedCapped := MISSED_CAP <? missedExact; late := false |}
  | PCron spec zone _ =>
      let jitter := jitterFor id (intervalOf parsed from) in
      cron_due (Z.to_nat MISSED_CAP) spec zone jitter now from 0
  end.

(** ** Jitter *)

Lemma hash_step_bounds v c : 0 <= hash_step v c < 2 ^ 32.
Proof. unfold hash_step, to_uint32. apply Z.mod_pos_bound. lia. Qed.

Lemma hash_bounds text : 0 <= hash text < 2 ^ 32.
Proof.
  unfold hash. destruct text as [|c t _] using rev_ind; [done|].
  rewrite foldl_snoc. apply hash_step_bounds.
Qed.

Lemma jitterFor_spec id i :
  0 <= jitterFor id (Some i) < MAX_JITTER_MS /\
  (0 <= i -> 10 * jitterFor id (Some i) <= i) /\ (0 < i -> jitterFor id (Some i) < i).
Proof.
  unfold jitterFor, MAX_JITTER_MS. destruct (Z.leb_spec i 0); [lia|]. cbv zeta.
  pose proof (Z.div_mod i 10). pose proof (Z.mod_pos_bound i 10).
  destruct (Z.leb_spec (Z.min (i / 10) (15 * 60000)) 0); [lia|].
  pose proof (Z.mod_pos_bound (hash id) (Z.min (i / 10) (15 * 60000))). lia.
Qed.

(** Jitter is a fact about the schedule: it depends on the id and the interval alone,
    is never negative, displaces a fire by at most a tenth of the interval and by less
    than fifteen minutes, and is zero for a one-shot. *)
Theorem jitterFor_bounds id interval :
  0 <= jitterFor id interval < MAX_JITTER_MS /\
  match interval with
  | Some i => 10 * jitterFor id interval <= Z.max i 0
  | None => jitterFor id interval = 0
  end.
Proof.
  destruct interval as [i|]; [|done].
  destruct (jitterFor_spec id i) as (Hb & Hi & _). split; [done|].
  destruct (Z.le_gt_cases 0 i) as [H|H]; [specialize (Hi H); lia|].
  unfold jitterFor. destruct (Z.leb_spec i 0); lia.
Qed.

(** ** Intervals *)

(** The grid point [decideDue] picks: the first one after [now], at least one step on. *)
Lemma decideDue_every_spec every z src id from now c :
  0 < ms every ->
  exists k, 1 <= k /\
    decideDue (PEvery every z src) id from now c =
      {| runAt := Some (from + k * ms every + jitterFor id (Some (ms every)));
         anchor := Some (from + k * ms every); missed := Z.min (k - 1) MISSED_CAP;
         missedCapped := MISSED_CAP <? k - 1; late := false |} /\
    now < from + k * ms every /\ (k = 1 \/ from + (k - 1) * ms every <= now).
Proof.
  intros Hms. unfold decideDue, intervalOf. cbv zeta.
  exists ((if now - from <=? 0 then 0 else (now - from) / ms every) + 1).
  rewrite Z.add_simpl_r. destruct (Z.leb_spec (now - from) 0).
  - split; [lia|]. split; [done|]. lia.
  - pose proof (Z.div_mod (now - from) (ms every)).
    pose proof (Z.mod_pos_bound (now - from) (ms every) Hms).
    pose proof (Z.div_pos (now - from) (ms every)).
    split; [lia|]. split; [done|]. split; [nia|]. right. nia.
Qed.

(** An [every] schedule is anchored on its last fire plus whole intervals: the next
    anchor is the first grid point strictly after [now] (at least one interval on), the
    fire is that point plus the fixed jitter, so it lies in the future, and the missed
    count is the number of grid points passed over, reported up to the cap. *)
Theorem decideDue_every every z src id from now c :
  0 < ms every ->
  let d := decideDue (PEvery every z src) id from now c in
  exists k a, 1 <= k /\ a = from + k * ms every /\ anchor d = Some a /\ now < a /\
    (forall k', 1 <= k' -> now < from + k' * ms every -> a <= from + k' * ms every) /\
    runAt d = Some (a + jitterFor id (Some (ms every))) /\
    missed d = Z.min (k - 1) MISSED_CAP /\ missedCapped d = (MISSED_CAP <? k - 1).
Proof.
  intros Hms d. destruct (decideDue_every_spec every z src id from now c Hms)
    as (k & Hk & Hd & Hlt & Hleast). unfold d. rewrite Hd.
  exists k, (from + k * ms every). split_and!; try done. intros k' Hk' Hn.
  assert (k - 1 < k') by (destruct Hleast; nia). nia.
Qed.

Lemma decideDue_every_witness :
  let every := (Build_Duration 900000 (js "15m")) in
  exists k a, 1 <= k /\ a = 0 + k * 900000 /\ a = 3600000 /\ 2700000 < a.
Proof.
  destruct (decideDue_every (Build_Duration 900000 (js "15m"))
    {| zone_name := js "UTC"; zone_offset := fun _ => 0 |} (js "15m") (js "brief") 0 2700000 true
    ltac:(reflexivity)) as (k & a & Hk & Ha & Han & Hn & _).
  exists k, a. split; [exact Hk|]. split; [exact Ha|]. split; [|exact Hn].
  vm_compute in Han. congruence.
Defined.

(** The anchors of a schedule dispatched at a sequence of times: each decision is fed the
    anchor of the one before, as the scheduler stores it. *)
Fixpoint iterate_anchors (next : Z -> Z -> option Z) (from : Z) (nows : list Z) : list Z :=
  match nows with
  | [] => []
  | now :: rest =>
      match next from now with
      | Some a => a :: iterate_anchors next a rest
      | None => []
      end
  end.

Definition anchors (parsed : ParsedSchedule) (id : ustring) : Z -> list Z -> list Z :=
  iterate_anchors (fun from now => anchor (decideDue parsed id from now true)).

(** No drift: however late each dispatch of an [every] schedule runs, the stored
    anchors stay on the grid of its first one - whole intervals apart from the creation
    time and strictly increasing, never shifted by jitter or by lateness. *)
Theorem every_anchors_no_drift every z src id from nows :
  0 < ms every ->
  let l := anchors (PEvery every z src) id from nows in
  length l = length nows /\ StronglySorted Z.lt (from :: l) /\
  Forall (fun a => (a - from) mod ms every = 0) l /\ Forall2 Z.lt nows l.
Proof.
  intros Hms. cbv zeta. unfold anchors. revert from.
  induction nows as [|now nows IH]; intros from; cbn [iterate_anchors].
  - repeat constructor.
  - destruct (decideDue_every_spec every z src id from now true Hms)
      as (k & Hk & Hd & Hlt & _).
    rewrite Hd. cbn [anchor].
    destruct (IH (from + k * ms every)) as (Hl & Hs & Hg & Hn). cbn [length].
    split; [by rewrite Hl|]. split; [|split; [|by constructor]].
    + constructor; [done|]. constructor; [nia|].
      apply StronglySorted_inv in Hs as [_ Hs]. eapply Forall_impl; [exact Hs|]. intros x Hx. nia.
    + constructor; [rewrite Z.add_simpl_l; apply Z.mod_mul; lia|].
      eapply Forall_impl; [exact Hg|]. intros x Hx. simpl in Hx.
      replace (x - from) with (x - (from + k * ms every) + k * ms every) by lia.
      by rewrite Z.mod_add by lia.
Qed.

Lemma every_anchors_no_drift_witness :
  let l := anchors (PEvery (Build_Duration 900000 (js "15m"))
    {| zone_name := js "UTC"; zone_offset := fun _ => 0 |} (js "15m")) (js "brief") 0
    [979000; 1801000; 5400000] in
  l = [1800000; 2700000; 6300000] /\ StronglySorted Z.lt (0 :: l).
Proof.
  split; [vm_compute; reflexivity|].
  exact (proj1 (proj2 (every_anchors_no_drift (Build_Duration 900000 (js "15m"))
    {| zone_name := js "UTC"; zone_offset := fun _ => 0 |} (js "15m") (js "brief") 0
    [979000; 1801000; 5400000] ltac:(reflexivity)))).
Defined.

(** Jitter is not consulted when an [every] schedule counts what it missed: inside the
    jitter window after a grid point - the point has come, its displaced fire has not -
    the decision passes over that fire, which still lies ahead, and counts it as missed. *)
Theorem every_skips_pending_fire every z src id from now k :
  0 < ms every -> 1 <= k ->
  from + k * ms every <= now < from + k * ms every + jitterFor id (Some (ms every)) ->
  let d := decideDue (PEvery every z src) id from now false in
  now < from + k * ms every + jitterFor id (Some (ms every)) /\
  anchor d = Some (from + (k + 1) * ms every) /\ missed d = Z.min k MISSED_CAP.
Proof.
  intros Hms Hk Hnow d. destruct (decideDue_every_spec every z src id from now false Hms)
    as (k' & Hk' & Hd & Hlt & Hle). destruct (jitterFor_spec id (ms every)) as (_ & _ & Hj).
  specialize (Hj Hms). assert (k < k') by nia.
  assert (k' - 1 < k + 1) by (destruct Hle as [|Hle]; [lia|]; apply (Z.mul_lt_mono_pos_r (ms every)); lia).
  assert (k' = k + 1) as -> by lia.
  unfold d. rewrite Hd. cbn [anchor missed]. rewrite Z.add_simpl_r. split; [lia|done].
Qed.

Lemma every_skips_pending_fire_witness :
  let every := (Build_Duration 900000 (js "15m")) in
  let utc := {| zone_name := js "UTC"; zone_offset := fun _ => 0 |} in
  let d := decideDue (PEvery every utc (js "15m")) (js "brief") 0 900000 false in
  900000 < 900000 + jitterFor (js "brief") (Some 900000) /\
  anchor d = Some 1800000 /\ missed d = 1.
Proof.
  exact (every_skips_pending_fire (Build_Duration 900000 (js "15m"))
    {| zone_name := js "UTC"; zone_offset := fun _ => 0 |} (js "15m") (js "brief") 0 900000 1
    ltac:(reflexivity) ltac:(lia) ltac:(vm_compute; split; [discriminate | reflexivity])).
Defined.

(** ** Cron *)

(** The occurrences after [from], in the order the loop meets them. *)
Fixpoint occurrence (spec : CronSpec) (z : Zone) (from : Z) (n : nat) : option Z :=
  match n with
  | O => Some from
  | S n' => c ← occurrence spec z from n'; nextCron spec c z
  end.

Lemma occurrence_shift spec z from o n :
  nextCron spec from z = Some o -> occurrence spec z from (S n) = occurrence spec z o n.
Proof.
  intros Ho. induction n as [|n IH]; [exact Ho|].
  change (occurrence spec z from (S (S n)))
    with (c ← occurrence spec z from (S n); nextCron spec c z).
  by rewrite IH.
Qed.

(** What the loop has established when it returns. *)
Definition cron_decision (spec : CronSpec) (z : Zone) (j now cursor : Z) (n0 : Z) (d : DueDecision)
  : Prop :=
  exists k : nat,
    missed d = n0 + Z.of_nat k /\ n0 + Z.of_nat k <= MISSED_CAP /\ late d = false /\
    (forall i, (1 <= i <= k)%nat ->
       exists o, occurrence spec z cursor i = Some o /\ o + j <= now) /\
    runAt d = (fun a => a + j) <$> anchor d /\
    if missedCapped d then n0 + Z.of_nat k = MISSED_CAP /\ anchor d = nextCron spec now z
    else anchor d = occurrence spec z cursor (S k) /\
         (forall o, anchor d = Some o -> now < o + j).

Lemma cron_due_spec spec z j now fuel cursor n :
  MISSED_CAP <= n + Z.of_nat fuel -> n < MISSED_CAP ->
  cron_decision spec z j now cursor n (cron_due fuel spec z j now cursor n).
Proof.
  revert cursor n. induction fuel as [|fuel IH]; intros cursor n Hf Hn; [lia|].
  cbn [cron_due]. destruct (nextCron spec cursor z) as [o|] eqn:Ho.
  - destruct (Z.ltb_spec now (o + j)).
    + exists 0%nat. cbn. rewrite Ho. split_and!; try done; try lia. by intros ? [= <-].
    + destruct (Z.leb_spec MISSED_CAP (n + 1)).
      * exists 1%nat. cbn. split_and!; try done; try lia.
        intros i Hi. exists o. assert (i = 1)%nat as -> by lia. done.
      * destruct (IH o (n + 1) ltac:(lia) ltac:(lia)) as (k & Hm & Hc & Hl & Hocc & Hr & Hcap).
        exists (S k). rewrite (occurrence_shift spec z cursor o (S k)) by done.
        replace (n + Z.of_nat (S k)) with (n + 1 + Z.of_nat k) by lia. split_and!; try done.
        intros [|i] Hi; [lia|]. rewrite (occurrence_shift spec z cursor o i) by done.
        destruct i as [|i]; [by exists o|]. apply Hocc. lia.
  - exists 0%nat. cbn. rewrite Ho. split_and!; try done; lia.
Qed.

Lemma decideDue_cron_spec spec z src id from now c :
  cron_decision spec z (jitterFor id (intervalOf (PCron spec z src) from)) now from 0
    (decideDue (PCron spec z src) id from now c).
Proof.
  unfold decideDue. apply cron_due_spec; unfold MISSED_CAP; lia.
Qed.

(** The catch-up of a cron schedule: the decision counts exactly the successive
    occurrences whose fire time (jitter included) is past, and aims at the first one whose
    fire time is still ahead; at a thousand it stops counting, says so, and aims at the
    first occurrence after now instead. The loop ends in every case. *)
Theorem decideDue_cron spec z src id from now c :
  cron_decision spec z (jitterFor id (intervalOf (PCron spec z src) from)) now from 0
    (decideDue (PCron spec z src) id from now c).
Proof. apply decideDue_cron_spec. Qed.

(** A one-shot fires exactly once, whenever the runtime gets to it: never before its
    moment, at once and marked late when the moment has passed, with no jitter and nothing
    counted as missed; and once it is consumed there is no further fire. *)
Theorem decideDue_at at_ z src id from now :
  (let d := decideDue (PAt at_ z src) id from now false in
   runAt d = Some (Z.max at_ now) /\ anchor d = Some at_ /\ missed d = 0 /\
   (late d = true <-> at_ <= now)) /\
  (let d := decideDue (PAt at_ z src) id from now true in
   runAt d = None /\ anchor d = None /\ missed d = 0).
Proof.
  unfold decideDue. cbn. destruct (Z.leb_spec at_ now); cbn; split_and!; try done; try lia.
  - rewrite Z.max_r by lia. done.
  - rewrite Z.max_l by lia. done.
Qed.

(** ** What is stored can run *)

Lemma parseDuration_bounds text field d :
  parseDuration text field = Ok d -> MIN_MS <= ms d <= MAX_MS.
Proof.
  unfold parseDuration. destruct (match_pattern _) as [[ds u]|]; [|done]. cbv zeta.
  repeat case_match; intros H'; try done. injection H' as <-. bool_to_prop. cbn. lia.
Qed.

Definition is_cron (p : ParsedSchedule) : Prop :=
  match p with PCron _ _ _ => True | _ => False end.

Definition positive_interval (p : ParsedSchedule) : Prop :=
  match p with PEvery every _ _ => 0 < ms every | _ => True end.

Lemma parseSchedule_interval `{Platform} input p :
  parseSchedule input = Ok p -> positive_interval p.
Proof.
  unfold parseSchedule. intros Hp. apply bind_ok in Hp as (z & _ & Hp).
  destruct (input_kind input).
  - apply bind_ok in Hp as (spec & _ & Hp). case_match; [|done]. by injection Hp as <-.
  - apply bind_ok in Hp as (d & Hd & Hp). injection Hp as <-.
    apply parseDuration_bounds in Hd. unfold MIN_MS in Hd. simpl. lia.
  - case_match; [|done]. case_match; [done|]. by injection Hp as <-.
Qed.

Lemma parseSchedule_kind `{Platform} input p :
  parseSchedule input = Ok p -> is_cron p -> KCron = input_kind input.
Proof.
  unfold parseSchedule. intros Hp Hc. apply bind_ok in Hp as (z & _ & Hp).
  destruct (input_kind input); [done| |].
  - apply bind_ok in Hp as (d & Hd & Hp). by injection Hp as <-.
  - case_match; [|done]. case_match; [done|]. by injection Hp as <-.
Qed.

(** A consumed decision always lies in the future, short of the cron cap. *)
Lemma decideDue_future p id from now :
  positive_interval p ->
  (missedCapped (decideDue p id from now true) = true -> ~ is_cron p) ->
  forall t, runAt (decideDue p id from now true) = Some t -> now < t.
Proof.
  intros Hi Hcap t Ht. destruct p as [spec z src|every z src|a z src].
  - destruct (decideDue_cron_spec spec z src id from now true) as (k & _ & _ & _ & _ & Hr & Hc).
    revert Hr Hc Hcap Ht. generalize (decideDue (PCron spec z src) id from now true) as d.
    intros d Hr Hc Hcap Ht.
    destruct (missedCapped d); [by destruct (Hcap eq_refl)|]. destruct Hc as [_ Hc].
    rewrite Hr in Ht. apply fmap_Some in Ht as (o & Ho & ->). by apply Hc.
  - destruct (decideDue_every_spec every z src id from now true Hi) as (k & Hk & Hd & Hlt & _).
    destruct (jitterFor_spec id (ms every)) as ([Hj _] & _).
    rewrite Hd in Ht. cbn [runAt] in Ht. revert Ht Hj Hlt.
    generalize (jitterFor id (Some (ms every))), (k * ms every).
    intros j m [= <-] Hj Hlt. lia.
  - done.
Qed.

(** A schedule is refused where it is written or it can run: an accepted cron has a
    well-formed spec and an occurrence ahead, an accepted interval lies within its bounds
    (so it is positive), an accepted one-shot is at most ten years away, the zone is one
    the platform knows, and every refusal names the field it was written in. *)
Theorem parseSchedule_sound `{Platform} input :
  match parseSchedule input with
  | Ok p =>
      exists z, formatterFor (default hostZone (input_timezone input)) = Ok z /\
      match p with
      | PCron spec z' _ =>
          input_kind input = KCron /\ z' = z /\ wf_spec spec /\
          exists t, nextCron spec (input_now input) z = Some t
      | PEvery every z' _ =>
          input_kind input = KEvery /\ z' = z /\ MIN_MS <= ms every <= MAX_MS
      | PAt at_ z' _ =>
          input_kind input = KAt /\ z' = z /\ at_ <= input_now input + AT_HORIZON_MS
      end
  | Err e => field e = input_field input \/ field e = js "timezone"
  end.
Proof.
  unfold parseSchedule. destruct (formatterFor _) as [z|e] eqn:Ez.
  2: { cbn. right. unfold formatterFor in Ez. case_match; [done|]. by injection Ez as <-. }
  cbn. destruct (input_kind input) eqn:Ek.
  - destruct (parseCron _ _) as [spec|e] eqn:Ep; cbn.
    + destruct (nextCron spec (input_now input) z) eqn:En; [|by left].
      exists z. split_and!; eauto. apply (parseCron_wf _ _ _ Ep).
    + left. exact (refuses_at_err _ _ _ (parseCron_refuses _ _) Ep).
  - destruct (parseDuration _ _) as [d|e] eqn:Ep; cbn.
    + exists z. split_and!; eauto; apply (parseDuration_bounds _ _ _ Ep).
    + left. unfold parseDuration in Ep. repeat case_match; try done; by injection Ep as <-.
  - destruct (date_parse _) as [t|]; [|by left].
    destruct (Z.ltb_spec (input_now input + AT_HORIZON_MS) t); [by left|].
    exists z. split_and!; eauto.
Qed.
