(* ===== verification/ScheduleStore.v ===== *)
(** * The schedule table: [ScheduleStore] in [store/store.ts], its SQL in [store/sqlite/store.ts]

    One row per agent and schedule id. Timestamps are ISO strings in the table and
    milliseconds here; four-digit ISO instants order as their milliseconds do. *)
From stdpp Require Import sorting.
From S2P Require Import Prelude UString Kinds.
Local Open Scope Z_scope.

Inductive ScheduleOrigin := OriginManifest | OriginApi.
Inductive ScheduleRunStatus := RunOk | RunError | RunSkipped.

#[export] Instance ScheduleOrigin_eq_dec : EqDecision ScheduleOrigin.
Proof. solve_decision. Defined.
#[export] Instance ScheduleRunStatus_eq_dec : EqDecision ScheduleRunStatus.
Proof. solve_decision. Defined.

(** What a run does: the columns the scheduler hands on without reading. *)
Record ScheduleJob := {
  task : ustring; deliverChannel : option ustring; deliverTo : option ustring;
  sessionMode : ustring; role : option ustring; toolsAllow : option (list ustring);
  timeoutMs : option Z; maxSteps : option Z }.

Record ScheduleRecord := {
  agentId : ustring; id : ustring; kind : ScheduleKind; expr : ustring;
  timezone : option ustring; job : ScheduleJob; enabled : bool; origin : ScheduleOrigin;
  anchorAt : Z; nextRunAt : option Z;
  lastFiredAt : option Z; lastStatus : option ScheduleRunStatus; lastError : option ustring;
  lastRunId : option Z; runs : Z; sourcePath : ustring; createdAt : Z; updatedAt : Z }.

Abbreviation Key := (ustring * ustring)%type.
Abbreviation Table := (gmap (ustring * ustring) ScheduleRecord).

Record UpsertSchedule := {
  u_agentId : ustring; u_id : ustring; u_kind : ScheduleKind; u_expr : ustring;
  u_timezone : option ustring; u_job : ScheduleJob; u_enabled : bool;
  u_origin : ScheduleOrigin; u_anchorAt : Z; u_nextRunAt : option Z;
  u_sourcePath : ustring; u_now : Z }.

(** ** Operations *)

Definition get (db : Table) (agent sid : ustring) : option ScheduleRecord := db !! (agent, sid).

(** [INSERT ... ON CONFLICT (agent_id, id) DO UPDATE]: a replaced row keeps its history. *)
Definition upsert (u : UpsertSchedule) (db : Table) : Table :=
  let k := (u_agentId u, u_id u) in
  let old := db !! k in
  <[k := {|
    agentId := u_agentId u; id := u_id u; kind := u_kind u; expr := u_expr u;
    timezone := u_timezone u; job := u_job u; enabled := u_enabled u; origin := u_origin u;
    anchorAt := u_anchorAt u; nextRunAt := u_nextRunAt u;
    lastFiredAt := old ≫= lastFiredAt; lastStatus := old ≫= lastStatus;
    lastError := old ≫= lastError; lastRunId := old ≫= lastRunId;
    runs := from_option runs 0 old; sourcePath := u_sourcePath u;
    createdAt := from_option createdAt (u_now u) old; updatedAt := u_now u |}]> db.

(** [UPDATE ... SET anchor_at, next_run_at, updated_at WHERE agent_id = ? AND id = ?]. *)
Definition reschedule (agent sid : ustring) (anchor : Z) (next : option Z) (now : Z) (db : Table)
  : Table :=
  alter (fun r => {|
    agentId := agentId r; id := id r; kind := kind r; expr := expr r; timezone := timezone r;
    job := job r; enabled := enabled r; origin := origin r; anchorAt := anchor;
    nextRunAt := next; lastFiredAt := lastFiredAt r; lastStatus := lastStatus r;
    lastError := lastError r; lastRunId := lastRunId r; runs := runs r;
    sourcePath := sourcePath r; createdAt := createdAt r; updatedAt := now |}) (agent, sid) db.

Definition markFired (agent sid : ustring) (firedAt anchor : Z) (next : option Z)
    (status : ScheduleRunStatus) (error : option ustring) (runId : option Z) (db : Table) : Table :=
  alter (fun r => {|
    agentId := agentId r; id := id r; kind := kind r; expr := expr r; timezone := timezone r;
    job := job r; enabled := enabled r; origin := origin r; anchorAt := anchor;
    nextRunAt := next; lastFiredAt := Some firedAt; lastStatus := Some status;
    lastError := error; lastRunId := runId; runs := runs r + 1;
    sourcePath := sourcePath r; createdAt := createdAt r; updatedAt := firedAt |}) (agent, sid) db.

(** [WHERE ... AND last_run_id = ?]; the result is whether a row changed. *)
Definition markDeliveryFailed (agent sid : ustring) (runId : Z) (error : ustring) (now : Z)
    (db : Table) : bool * Table :=
  match db !! (agent, sid) with
  | Some r =>
      if bool_decide (lastRunId r = Some runId) then
        (true, <[(agent, sid) := {|
          agentId := agentId r; id := id r; kind := kind r; expr := expr r;
          timezone := timezone r; job := job r; enabled := enabled r; origin := origin r;
          anchorAt := anchorAt r; nextRunAt := nextRunAt r; lastFiredAt := lastFiredAt r;
          lastStatus := Some RunError; lastError := Some error; lastRunId := lastRunId r;
          runs := runs r; sourcePath := sourcePath r; createdAt := createdAt r;
          updatedAt := now |}]> db)
      else (false, db)
  | None => (false, db)
  end.

Definition setEnabled (agent sid : ustring) (on : bool) (now : Z) (db : Table) : Table :=
  alter (fun r => {|
    agentId := agentId r; id := id r; kind := kind r; expr := expr r; timezone := timezone r;
    job := job r; enabled := on; origin := origin r; anchorAt := anchorAt r;
    nextRunAt := nextRunAt r; lastFiredAt := lastFiredAt r; lastStatus := lastStatus r;
    lastError := lastError r; lastRunId := lastRunId r; runs := runs r;
    sourcePath := sourcePath r; createdAt := createdAt r; updatedAt := now |}) (agent, sid) db.

Definition remove (agent sid : ustring) (db : Table) : bool * Table :=
  match db !! (agent, sid) with
  | Some _ => (true, delete (agent, sid) db)
  | None => (false, db)
  end.

(** ** Queries *)

Definition rows (db : Table) : list ScheduleRecord := (map_to_list db).*2.

(** [ORDER BY id] and [ORDER BY next_run_at ASC]. *)
Definition by_id (a b : ScheduleRecord) : Prop := text_leb (id a) (id b) = true.
#[export] Instance by_id_dec : RelDecision by_id.
Proof. unfold by_id. solve_decision. Defined.

Definition run_at (r : ScheduleRecord) : Z := default 0 (nextRunAt r).
Definition by_run_at (a b : ScheduleRecord) : Prop := run_at a <= run_at b.
#[export] Instance by_run_at_dec : RelDecision by_run_at.
Proof. unfold by_run_at. solve_decision. Defined.

(** [SELECT * FROM schedules WHERE agent_id = ? ORDER BY id]. *)
Definition list_schedules (db : Table) (agent : ustring) : list ScheduleRecord :=
  merge_sort by_id
    (filter (fun r => agentId r = agent) (rows db)).

(** [due_by now r]: [next_run_at IS NOT NULL AND next_run_at <= now]. *)
Definition due_by (now : Z) (r : ScheduleRecord) : bool :=
  match nextRunAt r with Some t => t <=? now | None => false end.

Definition due (db : Table) (agents : list ustring) (now : Z) (limit : nat)
  : list ScheduleRecord :=
  take limit (merge_sort by_run_at
    (filter (fun r => enabled r = true /\ due_by now r = true /\ agentId r ∈ agents) (rows db))).

(** [MIN(next_run_at)]. *)
Definition min_opt (m : option Z) (t : Z) : option Z :=
  match m with None => Some t | Some u => Some (Z.min u t) end.

Definition nextDue (db : Table) (agents : list ustring) : option Z :=
  foldl min_opt None
    (omap nextRunAt (filter (fun r => enabled r = true /\ agentId r ∈ agents) (rows db))).

(** [manifestIds] filtered by what is kept, then one delete each. *)
Definition stale (db : Table) (agent : ustring) (keep : list ustring) (path : ustring)
  : list ustring :=
  map id (filter (fun r => agentId r = agent /\ origin r = OriginManifest /\
                           (sourcePath r = path \/ sourcePath r = []) /\ id r ∉ keep) (rows db)).

Definition removeManifestExcept (agent : ustring) (keep : list ustring) (path : ustring)
    (db : Table) : list ustring * Table :=
  let ids := stale db agent keep path in
  (ids, foldr (fun sid => delete (agent, sid)) db ids).

(** ** The table's invariant: a row is stored under its own key *)

Definition keyed (db : Table) : Prop :=
  forall k r, db !! k = Some r -> k = (agentId r, id r).

Lemma keyed_insert db k r : keyed db -> k = (agentId r, id r) -> keyed (<[k := r]> db).
Proof.
  intros Hdb Hk k' r'. rewrite lookup_insert_Some. intros [[<- <-]|[_ H]]; [done|].
  by apply Hdb.
Qed.

Lemma keyed_alter db f k :
  keyed db -> (forall r, agentId (f r) = agentId r /\ id (f r) = id r) -> keyed (alter f k db).
Proof.
  intros Hdb Hf k' r'. rewrite lookup_alter_Some.
  intros [(<- & r & Hr & ->)|[_ H]]; [|by apply Hdb].
  destruct (Hf r) as [-> ->]. by apply Hdb.
Qed.

Lemma keyed_delete db k : keyed db -> keyed (delete k db).
Proof. intros Hdb k' r'. rewrite lookup_delete_Some. intros [_ H]. by apply Hdb. Qed.

Lemma reschedule_keyed a s x n t db : keyed db -> keyed (reschedule a s x n t db).
Proof. intros H. by apply keyed_alter. Qed.
Lemma markFired_keyed a s f x n st e r db : keyed db -> keyed (markFired a s f x n st e r db).
Proof. intros H. by apply keyed_alter. Qed.
Lemma setEnabled_keyed a s b t db : keyed db -> keyed (setEnabled a s b t db).
Proof. intros H. by apply keyed_alter. Qed.
Lemma upsert_keyed u db : keyed db -> keyed (upsert u db).
Proof. intros H. by apply keyed_insert. Qed.

Create HintDb schedule_store.
#[export] Hint Resolve reschedule_keyed markFired_keyed setEnabled_keyed upsert_keyed
  keyed_delete : schedule_store.

Lemma elem_of_rows db r : keyed db -> r ∈ rows db <-> db !! (agentId r, id r) = Some r.
Proof.
  intros Hk. unfold rows. rewrite list_elem_of_fmap. split.
  - intros ([k r'] & -> & H). apply elem_of_map_to_list in H. simpl.
    by rewrite <- (Hk _ _ H).
  - intros H. exists ((agentId r, id r), r). split; [done|]. by apply elem_of_map_to_list.
Qed.

(** ** Properties *)

Lemma due_spec db agents now limit r :
  keyed db -> r ∈ due db agents now limit ->
  get db (agentId r) (id r) = Some r /\ enabled r = true /\ agentId r ∈ agents /\
  exists t, nextRunAt r = Some t /\ t <= now.
Proof.
  intros Hk H. unfold due in H. apply elem_of_take in H as (i & H & _).
  apply list_elem_of_lookup_2 in H. rewrite merge_sort_Permutation in H.
  apply list_elem_of_filter in H as [(He & Hd & Ha) H]. apply elem_of_rows in H; [|done].
  split; [done|]. split; [done|]. split; [done|]. unfold due_by in Hd.
  destruct (nextRunAt r) as [t|]; [|done]. exists t. apply Z.leb_le in Hd. done.
Qed.


Lemma foldl_min_spec l m :
  match foldl min_opt m l with
  | None => m = None /\ l = []
  | Some t => (m = Some t \/ t ∈ l) /\ (forall u, m = Some u -> t <= u) /\
              (forall u, u ∈ l -> t <= u)
  end.
Proof.
  revert m. induction l as [|x l IH]; intros m; simpl.
  - destruct m as [u|]; [|done]. split; [by left|]. split; [intros ? [= ->]; lia|].
    intros ? H. by apply not_elem_of_nil in H.
  - specialize (IH (min_opt m x)). destruct (foldl min_opt (min_opt m x) l) as [t|].
    + destruct IH as (Hin & Hm & Hl). destruct m as [u|]; simpl in *.
      * specialize (Hm _ eq_refl). split; [|split].
        -- destruct Hin as [[= <-]|Hin]; [|right; by right].
           destruct (Z.min_spec u x) as [[_ ->]|[_ ->]]; [by left|right; by left].
        -- intros ? [= <-]. lia.
        -- intros y Hy. apply elem_of_cons in Hy as [->|Hy]; [lia|auto].
      * specialize (Hm _ eq_refl). split; [|split; [done|]].
        -- destruct Hin as [[= ->]|Hin]; right; [by left|by right].
        -- intros y Hy. apply elem_of_cons in Hy as [->|Hy]; [lia|auto].
    + destruct IH as [H _]. by destruct m.
Qed.

(** The rows a due query selects. *)
Definition is_due (db : Table) (agents : list ustring) (now : Z) (r : ScheduleRecord) : Prop :=
  get db (agentId r) (id r) = Some r /\ enabled r = true /\ agentId r ∈ agents /\
  exists t, nextRunAt r = Some t /\ t <= now.

#[export] Instance by_run_at_trans : Transitive by_run_at.
Proof. intros a b c. unfold by_run_at. lia. Qed.
#[export] Instance by_run_at_total : Total by_run_at.
Proof. intros a b. unfold by_run_at. lia. Qed.

Lemma due_candidates db agents now r :
  keyed db ->
  r ∈ merge_sort by_run_at
    (filter (fun r => enabled r = true /\ due_by now r = true /\ agentId r ∈ agents) (rows db))
  <-> is_due db agents now r.
Proof.
  intros Hk. rewrite merge_sort_Permutation, list_elem_of_filter, elem_of_rows by done.
  unfold is_due, due_by, get. split.
  - intros [(He & Hd & Ha) Hr]. destruct (nextRunAt r) as [t|]; [|done].
    apply Z.leb_le in Hd. eauto 6.
  - intros (Hr & He & Ha & t & -> & Ht). apply Z.leb_le in Ht. done.
Qed.

Lemma StronglySorted_take {A} (R : A -> A -> Prop) l n :
  StronglySorted R l ->
  StronglySorted R (take n l) /\ forall x y, x ∈ take n l -> y ∈ drop n l -> R x y.
Proof.
  intros H. revert n. induction H as [|a l Hs IH Ha]; intros n.
  - rewrite take_nil, drop_nil. split; [constructor|]. intros ? ? Hx. by apply not_elem_of_nil in Hx.
  - destruct n as [|n]; simpl; [split; [constructor|]; intros ? ? Hx; by apply not_elem_of_nil in Hx|].
    destruct (IH n) as [Hst Hxy]. rewrite Forall_forall in Ha. split.
    + constructor; [done|]. apply Forall_forall. intros x Hx. apply Ha.
      rewrite <- (take_drop n l). apply elem_of_app. by left.
    + intros x y Hx Hy. apply elem_of_cons in Hx as [->|Hx]; [|by apply Hxy].
      apply Ha. rewrite <- (take_drop n l). apply elem_of_app. by right.
Qed.

(** The due query answers with due rows only - stored, enabled, of the agents asked
    for, at or before [now] - soonest first and at most [limit] of them; and a due row is
    left out only when the limit is reached, by rows none of which is due later. *)
Theorem due_exact db agents now limit :
  keyed db ->
  let l := due db agents now limit in
  Forall (is_due db agents now) l /\ StronglySorted by_run_at l /\ (length l <= limit)%nat /\
  forall r, is_due db agents now r -> r ∉ l ->
    length l = limit /\ Forall (fun x => by_run_at x r) l.
Proof.
  intros Hk l. unfold l, due.
  set (all := merge_sort by_run_at _). assert (forall r, r ∈ all <-> is_due db agents now r) as Hall
    by (intros r; by apply due_candidates).
  destruct (StronglySorted_take by_run_at all limit) as [Hs Hlt];
    [apply StronglySorted_merge_sort; apply _|].
  split_and!.
  - apply Forall_forall. intros r Hr. apply Hall. rewrite <- (take_drop limit all).
    apply elem_of_app. by left.
  - done.
  - rewrite length_take. lia.
  - intros r Hr Hno. apply Hall in Hr. rewrite <- (take_drop limit all) in Hr.
    apply elem_of_app in Hr as [Hr|Hr]; [done|]. split; [|apply Forall_forall; auto].
    destruct (drop limit all) as [|x d] eqn:E; [by apply not_elem_of_nil in Hr|].
    assert (length (drop limit all) <> 0)%nat by (by rewrite E).
    rewrite length_drop in *. rewrite length_take. lia.
Qed.

Lemma nextDue_spec db agents :
  keyed db ->
  match nextDue db agents with
  | None => forall r, get db (agentId r) (id r) = Some r -> enabled r = true ->
              agentId r ∈ agents -> nextRunAt r = None
  | Some t =>
      (exists r, get db (agentId r) (id r) = Some r /\ enabled r = true /\
                 agentId r ∈ agents /\ nextRunAt r = Some t) /\
      forall r u, get db (agentId r) (id r) = Some r -> enabled r = true ->
                  agentId r ∈ agents -> nextRunAt r = Some u -> t <= u
  end.
Proof.
  intros Hk. unfold nextDue.
  set (l := filter _ (rows db)). pose proof (foldl_min_spec (omap nextRunAt l) None) as H.
  assert (forall r, r ∈ l <-> get db (agentId r) (id r) = Some r /\ enabled r = true /\
                              agentId r ∈ agents) as Hl.
  { intros r. unfold l, get. rewrite list_elem_of_filter, elem_of_rows by done. tauto. }
  destruct (foldl min_opt None (omap nextRunAt l)) as [t|].
  - destruct H as ([|Hin] & _ & Hmin); [done|]. apply list_elem_of_omap in Hin as (r & Hr & Ht).
    split; [exists r; apply Hl in Hr; tauto|]. intros r' u Hg He Ha Hu. apply Hmin.
    apply list_elem_of_omap. exists r'. split; [by apply Hl|done].
  - destruct H as [_ Hnil]. intros r Hg He Ha. destruct (nextRunAt r) as [u|] eqn:E; [|done].
    assert (u ∈ omap nextRunAt l) as Hu
      by (apply list_elem_of_omap; exists r; split; [by apply Hl|done]).
    rewrite Hnil in Hu. by apply not_elem_of_nil in Hu.
Qed.

(** What arms the timer and what a wake finds agree: the soonest due time is at or
    before [now] exactly when the due query (with room for a row) finds one. *)
Theorem nextDue_agrees_with_due db agents now limit :
  keyed db -> (0 < limit)%nat ->
  (exists t, nextDue db agents = Some t /\ t <= now) <-> due db agents now limit <> [].
Proof.
  intros Hk Hlim. pose proof (nextDue_spec db agents Hk) as Hn. unfold due.
  set (all := merge_sort by_run_at _). assert (forall r, r ∈ all <-> is_due db agents now r) as Hall
    by (intros r; by apply due_candidates).
  assert (take limit all <> [] <-> exists r, is_due db agents now r) as ->.
  { destruct all as [|x all']; split.
    - by rewrite take_nil.
    - intros [r Hr]. apply Hall in Hr. by apply not_elem_of_nil in Hr.
    - intros _. exists x. apply Hall. by left.
    - intros _. destruct limit; [lia|done]. }
  split.
  - intros (t & Ht & Hle). rewrite Ht in Hn. destruct Hn as [(r & Hg & He & Ha & Hr) _].
    exists r. unfold is_due. eauto 6.
  - intros (r & Hg & He & Ha & t & Ht & Hle). destruct (nextDue db agents) as [u|].
    + exists u. split; [done|]. destruct Hn as [_ Hn]. specialize (Hn r t Hg He Ha Ht). lia.
    + specialize (Hn r Hg He Ha). congruence.
Qed.

(** Reconciling a manifest deletes nothing it does not own: every row it removes is a
    manifest row of that agent, written by that manifest (or of unknown provenance) and
    no longer declared; API rows, other manifests' rows and other agents' rows stay. *)
Theorem removeManifestExcept_owns agent keep path db k r :
  keyed db -> db !! k = Some r ->
  let db' := (removeManifestExcept agent keep path db).2 in
  (db' !! k = None <->
     agentId r = agent /\ origin r = OriginManifest /\
     (sourcePath r = path \/ sourcePath r = []) /\ id r ∉ keep) /\
  (db' !! k = None \/ db' !! k = Some r).
Proof.
  intros Hk Hr. cbv zeta. unfold removeManifestExcept. cbn [snd].
  assert (Hfold : forall ids,
    foldr (fun sid => delete (agent, sid)) db ids !! k =
    if decide (k.1 = agent /\ k.2 ∈ ids) then None else Some r).
  { intros ids. induction ids as [|sid ids IH]; simpl.
    - destruct (decide _) as [[_ Hs]|]; [by apply not_elem_of_nil in Hs|done].
    - destruct k as [ka ks]. simpl in *. destruct (decide ((agent, sid) = (ka, ks))) as [E|Hne].
      + rewrite E, lookup_delete_eq. injection E as <- <-.
        rewrite decide_True; [done|]. split; [done|by left].
      + rewrite lookup_delete_ne, IH by done. apply decide_ext. split.
        * intros [-> Hin]. split; [done|by right].
        * intros [-> Hin]. split; [done|]. apply elem_of_cons in Hin as [->|Hin]; [done|done]. }
  rewrite Hfold. rewrite (Hk k r Hr). cbn [fst snd].
  assert ((agentId r = agent /\ id r ∈ stale db agent keep path) <->
    agentId r = agent /\ origin r = OriginManifest /\
    (sourcePath r = path \/ sourcePath r = []) /\ id r ∉ keep) as Hiff.
  { unfold stale. split.
    - intros [Ha Hs]. apply list_elem_of_fmap in Hs as (r' & Hid & Hr').
      apply list_elem_of_filter in Hr' as [(Ha' & Ho & Hp & Hn) Hr']. apply elem_of_rows in Hr'; [|done].
      rewrite (Hk k r Hr) in Hr. rewrite Ha', <- Hid, <- Ha, Hr in Hr'. injection Hr' as <-. done.
    - intros (Ha & Ho & Hp & Hn). split; [done|].
      apply list_elem_of_fmap. exists r. split; [done|]. apply list_elem_of_filter.
      split; [done|]. apply elem_of_rows; [done|]. by rewrite <- (Hk k r Hr). }
  destruct (decide _) as [H|H]; rewrite <- Hiff; intuition done.
Qed.

(** ** A small table *)

Definition sample (agent sid : string) (at_ : Z) (from : ScheduleOrigin) (path : string)
  : UpsertSchedule :=
  {| u_agentId := js agent; u_id := js sid; u_kind := KEvery; u_expr := js "15m";
     u_timezone := None;
     u_job := {| task := js "brief"; deliverChannel := None; deliverTo := None;
                 sessionMode := js "isolated"; role := None; toolsAllow := None;
                 timeoutMs := None; maxSteps := None |};
     u_enabled := true; u_origin := from; u_anchorAt := at_; u_nextRunAt := Some at_;
     u_sourcePath := js path; u_now := 0 |}.

Definition sample_table : Table :=
  upsert (sample "a" "one" 500 OriginManifest "m.yaml")
    (upsert (sample "a" "two" 300 OriginApi "")
       (upsert (sample "b" "three" 400 OriginManifest "n.yaml") ∅)).

Lemma sample_table_keyed : keyed sample_table.
Proof. unfold sample_table. do 3 apply upsert_keyed. by intros k r. Qed.

Lemma due_exact_witness :
  keyed sample_table /\
  map id (due sample_table [js "a"; js "b"] 450 100) = [js "two"; js "three"] /\
  Forall (is_due sample_table [js "a"; js "b"] 450) (due sample_table [js "a"; js "b"] 450 100).
Proof.
  split; [exact sample_table_keyed|]. split; [vm_compute; reflexivity|].
  exact (proj1 (due_exact sample_table [js "a"; js "b"] 450 100 sample_table_keyed)).
Defined.

Lemma nextDue_agrees_with_due_witness :
  nextDue sample_table [js "a"] = Some 300 /\ due sample_table [js "a"] 450 100 <> [].
Proof.
  split; [vm_compute; reflexivity|].
  apply (nextDue_agrees_with_due sample_table [js "a"] 450 100 sample_table_keyed); [lia|].
  exists 300. split; [vm_compute; reflexivity|lia].
Defined.

Lemma removeManifestExcept_owns_witness :
  exists r, sample_table !! (js "a", js "one") = Some r /\
    (removeManifestExcept (js "a") [js "other"] (js "m.yaml") sample_table).2
      !! (js "a", js "one") = None.
Proof.
  destruct (sample_table !! (js "a", js "one")) as [r|] eqn:E; [|vm_compute in E; discriminate].
  exists r. split; [reflexivity|].
  apply (removeManifestExcept_owns (js "a") [js "other"] (js "m.yaml") sample_table
           (js "a", js "one") r sample_table_keyed E).
  vm_compute in E. injection E as <-. cbn. split_and!; try reflexivity; [by left|].
  by apply (bool_decide_unpack _).
Defined.

(** Replacing a schedule keeps what its runs recorded - count, last fire, outcome and
    run id, and the creation time - takes everything else from the new definition, and
    touches no other row. *)
Theorem upsert_keeps_history u db :
  let k := (u_agentId u, u_id u) in
  exists r, upsert u db !! k = Some r /\
    nextRunAt r = u_nextRunAt u /\ anchorAt r = u_anchorAt u /\ expr r = u_expr u /\
    kind r = u_kind u /\ enabled r = u_enabled u /\ job r = u_job u /\
    match db !! k with
    | Some old => runs r = runs old /\ lastRunId r = lastRunId old /\
        lastFiredAt r = lastFiredAt old /\ lastStatus r = lastStatus old /\
        lastError r = lastError old /\ createdAt r = createdAt old
    | None => runs r = 0 /\ lastRunId r = None /\ createdAt r = u_now u
    end /\
    forall k', k' <> k -> upsert u db !! k' = db !! k'.
Proof.
  cbv zeta. unfold upsert. eexists. rewrite lookup_insert_eq. split; [reflexivity|]. cbn.
  do 6 (split; [done|]). split; [by destruct (db !! _)|]. intros k' Hk'.
  by rewrite lookup_insert_ne.
Qed.

(** A delivery failure lands only on the run it reports on: it is recorded exactly when
    that run is the row's last one, it changes the status and error alone - the due time,
    the anchor and the run count stay - and otherwise the table is untouched. *)
Theorem markDeliveryFailed_scoped agent sid runId error now db :
  let '(applied, db') := markDeliveryFailed agent sid runId error now db in
  (applied = true <-> exists r, db !! (agent, sid) = Some r /\ lastRunId r = Some runId) /\
  (applied = false -> db' = db) /\
  forall k r, db !! k = Some r -> exists r', db' !! k = Some r' /\
    nextRunAt r' = nextRunAt r /\ anchorAt r' = anchorAt r /\ runs r' = runs r /\
    lastRunId r' = lastRunId r /\ (lastStatus r' = lastStatus r \/ lastStatus r' = Some RunError).
Proof.
  unfold markDeliveryFailed. destruct (db !! (agent, sid)) as [r|] eqn:E.
  - case_bool_decide as Hr.
    + split; [split; [eauto|done]|]. split; [done|]. intros k r0 Hk.
      destruct (decide (k = (agent, sid))) as [->|Hne].
      * rewrite lookup_insert_eq. rewrite E in Hk. injection Hk as <-. eexists. split; [done|].
        cbn. tauto.
      * rewrite lookup_insert_ne by done. eauto 8.
    + split; [|split; [done|eauto 8]]. split; [done|]. intros (r' & [= <-] & H). done.
  - split; [|split; [done|eauto 8]]. split; [done|]. by intros (r' & ? & _).
Qed.
