(* ===== verification/Scheduler.v ===== *)
(** * The scheduler: [schedule/scheduler.ts]

    One timer for every agent. The asynchronous methods are split at their [await]s: a
    [Task] is a method suspended at one of them, and a step resumes one task, in any
    order. A call into the store takes effect before the method suspends on it, so it
    belongs to the step that makes it. Any call of the store may be rejected, having taken effect or
    not, and ends the method that awaits it. Runs are the caller's: a run may take any time and end
    either way. *)
From S2P Require Import Prelude UString Errors Kinds ScheduleStore.
Local Open Scope Z_scope.

Definition SCHEDULER_HORIZON_MS : Z := 30000.

(** [due]'s default [limit]. *)
Definition DUE_LIMIT : nat := 100.

Inductive Event :=
| Skipped (agent sid : ustring) (missed : Z) (missedAtLeast : bool)
| Deferred (agent sid : ustring)
| Fired (agent sid : ustring) (driftMs : Z) (late : bool)
| ScheduleError (agent sid : ustring) (code : string).

(** What a run threw: a harness error carries its own code. *)
Record RunFailure := { failure_code : option string; failure_message : ustring }.

(** Methods suspended at an [await]; [Settling] says whether [#record] awaits its write, or had no row
    and returned. *)
Inductive Task :=
| Recomputing (now : Z) (rows : list ScheduleRecord) (agents : list ustring)
| Arming (soonest : option Z)
| Waking (now : Z) (due : list ScheduleRecord)
| Taking (now : Z) (schedule : ScheduleRecord) (due : list ScheduleRecord)
| Running (key : Key) (schedule : ScheduleRecord) (runId : Z)
| Recording (key : Key) (now : Z) (fresh : option ScheduleRecord) (runId : Z)
    (failed : option RunFailure)
| Settling (key : Key) (wrote : bool)
| Refreshed (key : Key) (fresh : option ScheduleRecord).

Record Scheduler := {
  table : Table; events : list Event;
  inFlight : gmap (ustring * ustring) bool;   (* the value is [deferred] *)
  timers : list (Z * Z);                      (* live timers: handle and delay *)
  cancelTimer : option Z;                     (* the handle [#cancelTimer] would clear *)
  started : bool; stopped : bool;
  clock : Z; agentIds : list ustring; horizonMs : Z;
  tasks : list Task; next_id : Z }.

(** ** Field updates *)

Definition with_table (db : Table) (s : Scheduler) : Scheduler :=
  {| table := db; events := events s; inFlight := inFlight s; timers := timers s;
     cancelTimer := cancelTimer s; started := started s; stopped := stopped s;
     clock := clock s; agentIds := agentIds s; horizonMs := horizonMs s; tasks := tasks s;
     next_id := next_id s |}.
Definition emit (e : Event) (s : Scheduler) : Scheduler :=
  {| table := table s; events := events s ++ [e]; inFlight := inFlight s; timers := timers s;
     cancelTimer := cancelTimer s; started := started s; stopped := stopped s;
     clock := clock s; agentIds := agentIds s; horizonMs := horizonMs s; tasks := tasks s;
     next_id := next_id s |}.
Definition with_inFlight (m : gmap (ustring * ustring) bool) (s : Scheduler) : Scheduler :=
  {| table := table s; events := events s; inFlight := m; timers := timers s;
     cancelTimer := cancelTimer s; started := started s; stopped := stopped s;
     clock := clock s; agentIds := agentIds s; horizonMs := horizonMs s; tasks := tasks s;
     next_id := next_id s |}.
Definition with_timers (l : list (Z * Z)) (c : option Z) (s : Scheduler) : Scheduler :=
  {| table := table s; events := events s; inFlight := inFlight s; timers := l;
     cancelTimer := c; started := started s; stopped := stopped s;
     clock := clock s; agentIds := agentIds s; horizonMs := horizonMs s; tasks := tasks s;
     next_id := next_id s |}.
Definition with_flags (st sp : bool) (s : Scheduler) : Scheduler :=
  {| table := table s; events := events s; inFlight := inFlight s; timers := timers s;
     cancelTimer := cancelTimer s; started := st; stopped := sp;
     clock := clock s; agentIds := agentIds s; horizonMs := horizonMs s; tasks := tasks s;
     next_id := next_id s |}.
Definition with_clock (t : Z) (s : Scheduler) : Scheduler :=
  {| table := table s; events := events s; inFlight := inFlight s; timers := timers s;
     cancelTimer := cancelTimer s; started := started s; stopped := stopped s;
     clock := t; agentIds := agentIds s; horizonMs := horizonMs s; tasks := tasks s;
     next_id := next_id s |}.
Definition with_agents (l : list ustring) (s : Scheduler) : Scheduler :=
  {| table := table s; events := events s; inFlight := inFlight s; timers := timers s;
     cancelTimer := cancelTimer s; started := started s; stopped := stopped s;
     clock := clock s; agentIds := l; horizonMs := horizonMs s; tasks := tasks s;
     next_id := next_id s |}.
Definition with_tasks (l : list Task) (s : Scheduler) : Scheduler :=
  {| table := table s; events := events s; inFlight := inFlight s; timers := timers s;
     cancelTimer := cancelTimer s; started := started s; stopped := stopped s;
     clock := clock s; agentIds := agentIds s; horizonMs := horizonMs s; tasks := l;
     next_id := next_id s |}.
Definition fresh_id (s : Scheduler) : Scheduler :=
  {| table := table s; events := events s; inFlight := inFlight s; timers := timers s;
     cancelTimer := cancelTimer s; started := started s; stopped := stopped s;
     clock := clock s; agentIds := agentIds s; horizonMs := horizonMs s; tasks := tasks s;
     next_id := next_id s + 1 |}.

(** The method suspends (or starts a detached one). *)
Definition suspend (t : Task) (s : Scheduler) : Scheduler := with_tasks (tasks s ++ [t]) s.

Definition key_of (r : ScheduleRecord) : Key := (agentId r, id r).

Section Methods.
Context `{Platform}.

(** [#decide]: an unreadable schedule is reported, never thrown. *)
Definition decide_due (schedule : ScheduleRecord) (now : Z) (consumed : bool)
  : option DueDecision :=
  match parseSchedule
          {| input_kind := kind schedule; input_expr := expr schedule;
             input_timezone := timezone schedule; input_now := now;
             input_field := js "schedules." ++ id schedule ++ js ".expr" |} with
  | Ok parsed => Some (decideDue parsed (id schedule) (anchorAt schedule) now consumed)
  | Err _ => None
  end.

Definition report_decide (schedule : ScheduleRecord) (d : option DueDecision) (s : Scheduler)
  : Scheduler :=
  match d with
  | Some _ => s
  | None => emit (ScheduleError (agentId schedule) (id schedule) "schedule_unreadable") s
  end.

(** [#arm] up to its [await]. *)
Definition clear_timer (s : Scheduler) : Scheduler :=
  with_timers (match cancelTimer s with
               | Some h => filter (fun t => t.1 <> h) (timers s)
               | None => timers s
               end) None s.

Definition arm (s : Scheduler) : Scheduler :=
  if stopped s then s
  else suspend (Arming (nextDue (table s) (agentIds s))) (clear_timer s).

(** The delay [#arm] gives [setTimeout]. *)
Definition arm_delay (horizon now : Z) (soonest : option Z) : Z :=
  let until := match soonest with None => horizon | Some t => t - now end in
  Z.max 0 (Z.min until horizon).

(** [#moveOn]. *)
Definition moveOn (schedule : ScheduleRecord) (now : Z) (s : Scheduler) : Scheduler :=
  let decision := decide_due schedule now true in
  let s := report_decide schedule decision s in
  with_table
    (reschedule (agentId schedule) (id schedule)
       (default (anchorAt schedule) (decision ≫= anchor)) (decision ≫= runAt) now (table s)) s.

(** [#track], and [#fire] up to the run it awaits. [nextRunAt] is set on a row that was
    due; [dueAt] stands in when it is not. *)
Definition track (key : Key) (schedule : ScheduleRecord) (dueAt : Z) (s : Scheduler)
  : Scheduler :=
  let s := with_inFlight (<[key := false]> (inFlight s)) s in
  let began := clock s in
  let runId := next_id s in
  let s := emit (Fired (agentId schedule) (id schedule)
                   (began - default dueAt (nextRunAt schedule))
                   (bool_decide (kind schedule = KAt) && (anchorAt schedule <? began)))
             (fresh_id s) in
  suspend (Running key schedule runId) s.

(** One row of [#recompute]; the flag says whether it reached the store. *)
Definition recompute_row (now : Z) (schedule : ScheduleRecord) (s : Scheduler)
  : Scheduler * bool :=
  match nextRunAt schedule with
  | None => (s, false)
  | Some t =>
      if now <? t then (s, false)
      else
        let decision := decide_due schedule now false in
        let s := report_decide schedule decision s in
        match decision with
        | None => (s, false)
        | Some d =>
            let s := if enabled schedule
                     then emit (Skipped (agentId schedule) (id schedule) (missed d + 1)
                                  (missedCapped d)) s
                     else s in
            (with_table (reschedule (agentId schedule) (id schedule)
                           (default (anchorAt schedule) (anchor d)) (runAt d) now (table s)) s,
             true)
        end
  end.

(** The agents' loop of [#recompute]; when it ends, [start] arms. *)
Definition recompute_agents (now : Z) (agents : list ustring) (s : Scheduler) : Scheduler :=
  match agents with
  | [] => arm s
  | a :: rest => suspend (Recomputing now (list_schedules (table s) a) rest) s
  end.

(** The rows' loop: rows that are skipped do not suspend it. *)
Fixpoint recompute_rows (now : Z) (rows : list ScheduleRecord) (agents : list ustring)
    (s : Scheduler) : Scheduler :=
  match rows with
  | [] => recompute_agents now agents s
  | r :: rs =>
      let '(s', stored) := recompute_row now r s in
      if stored then suspend (Recomputing now rs agents) s'
      else recompute_rows now rs agents s'
  end.

(** [#wake] up to its first [await], and its loop over the due rows. *)
Definition wake (s : Scheduler) : Scheduler :=
  if stopped s then s
  else suspend (Waking (clock s) (due (table s) (agentIds s) (clock s) DUE_LIMIT)) s.

Definition wake_rows (now : Z) (due : list ScheduleRecord) (s : Scheduler) : Scheduler :=
  match due with
  | [] => arm s
  | r :: rest =>
      match inFlight s !! key_of r with
      | Some deferred =>
          let s := if deferred : bool then s
                   else emit (Deferred (agentId r) (id r))
                          (with_inFlight (<[key_of r := true]> (inFlight s)) s) in
          suspend (Waking now rest) (moveOn r now s)
      | None => suspend (Taking now r rest) (moveOn r now s)
      end
  end.

(** Resume a task. [failed] is how a run ended; other tasks ignore it. *)
Definition advance (t : Task) (failed : option RunFailure) (s : Scheduler) : Scheduler :=
  match t with
  | Recomputing now rows agents => recompute_rows now rows agents s
  | Arming soonest =>
      if stopped s then s
      else
        let h := next_id s in
        let delay := arm_delay (horizonMs s) (clock s) soonest in
        with_timers (timers s ++ [(h, delay)]) (Some h) (fresh_id s)
  | Waking now due => wake_rows now due s
  | Taking now r due => wake_rows now due (track (key_of r) r now s)
  | Running key r runId =>
      let s := match failed with
               | None => s
               | Some f =>
                   emit (ScheduleError (agentId r) (id r)
                           (default "schedule_run_failed"%string (failure_code f))) s
               end in
      suspend (Recording key (clock s) (get (table s) key.1 key.2) runId failed) s
  | Recording key _ None _ _ => suspend (Settling key false) s
  | Recording key now (Some fresh) runId failed =>
      suspend (Settling key true)
        (with_table
           (markFired key.1 key.2 now (anchorAt fresh) (nextRunAt fresh)
              (match failed with None => RunOk | Some _ => RunError end)
              (failure_message <$> failed) (Some runId)
              (table s)) s)
  | Settling key _ =>
      let entry := inFlight s !! key in
      let s := with_inFlight (delete key (inFlight s)) s in
      if bool_decide (entry = Some true) && negb (stopped s)
      then suspend (Refreshed key (get (table s) key.1 key.2)) s
      else s
  | Refreshed key fresh =>
      match fresh with
      | Some r => if enabled r then track key r (clock s) s else s
      | None => s
      end
  end.

(** ** Public methods and the world *)

Definition start (s : Scheduler) : Scheduler :=
  if started s || stopped s then s
  else
    let s := with_flags true (stopped s) s in
    recompute_agents (clock s) (agentIds s) s.

(** [stop], up to the wait for the runs in flight. *)
Definition stop (s : Scheduler) : Scheduler :=
  if stopped s then s else clear_timer (with_flags (started s) true s).

Definition changed (s : Scheduler) : Scheduler :=
  if negb (started s) || stopped s then s else arm s.

(** A timer fires: it is gone, and [#wake] begins. *)
Definition timer_fires (h : Z) (s : Scheduler) : Scheduler :=
  wake (with_timers (filter (fun t => t.1 <> h) (timers s)) (cancelTimer s) s).

(** What others do to the table: the API, and manifest reconciliation. *)
Inductive table_write : Table -> Table -> Prop :=
| w_upsert u db : table_write db (upsert u db)
| w_enable a i b t db : table_write db (setEnabled a i b t db)
| w_remove a i db : table_write db (remove a i db).2
| w_reconcile a keep p db : table_write db (removeManifestExcept a keep p db).2
| w_failed a i r e t db : table_write db (markDeliveryFailed a i r e t db).2.

Inductive call : Scheduler -> Scheduler -> Prop :=
| c_start s : call s (start s)
| c_stop s : call s (stop s)
| c_changed s : call s (changed s)
| c_clock t s : call s (with_clock t s)
| c_agents l s : call s (with_agents l s)
| c_write db' s : table_write (table s) db' -> call s (with_table db' s).

(** Tasks that await a call of the store, and those whose call may be a write. *)
Definition awaits_store (t : Task) : bool :=
  match t with Running _ _ _ => false | Settling _ wrote => wrote | _ => true end.
Definition awaits_write (t : Task) : bool :=
  match t with Recomputing _ _ _ | Waking _ _ | Taking _ _ _ => true | Settling _ wrote => wrote | _ => false end.

(** A rejected call ends its method where it stands: nothing after the [await] happens. The call had
    taken effect, or was a read ([s_rejected]); or it had none, and then the table is as it was before
    the step that made it ([s_refused]: [t] goes on and suspends on a write [k] that is refused). *)
Inductive step : Scheduler -> Scheduler -> Prop :=
| s_call s s' : call s s' -> step s s'
| s_timer h d s : (h, d) ∈ timers s -> step s (timer_fires h s)
| s_task l1 t l2 failed s :
    tasks s = l1 ++ t :: l2 -> step s (advance t failed (with_tasks (l1 ++ l2) s))
| s_rejected l1 t l2 s :
    tasks s = l1 ++ t :: l2 -> awaits_store t = true -> step s (with_tasks (l1 ++ l2) s)
| s_refused l1 t l2 failed s l k :
    tasks s = l1 ++ t :: l2 -> tasks (advance t failed (with_tasks (l1 ++ l2) s)) = (l1 ++ l2) ++ l ++ [k] ->
    awaits_write k = true ->
    step s (with_tasks ((l1 ++ l2) ++ l) (with_table (table s) (advance t failed (with_tasks (l1 ++ l2) s)))).
End Methods.

Definition initial (db : Table) (now : Z) (agents : list ustring) (horizon : Z) : Scheduler :=
  {| table := db; events := []; inFlight := ∅; timers := []; cancelTimer := None;
     started := false; stopped := false; clock := now; agentIds := agents;
     horizonMs := horizon; tasks := []; next_id := 0 |}.

(** ** The timer *)

Section Timers.
Context `{Platform}.

Definition timers_clamped (s : Scheduler) : Prop :=
  0 <= horizonMs s /\ Forall (fun t => 0 <= t.2 <= horizonMs s) (timers s).

(** What every method keeps: flags, horizon and timers, but for arming and clearing. *)
Record frame (s s' : Scheduler) : Prop := {
  frame_stopped : stopped s' = stopped s;
  frame_horizon : horizonMs s' = horizonMs s;
  frame_timers : timers s' ⊆ timers s }.

Lemma frame_refl s : frame s s.
Proof. by constructor. Qed.
Lemma frame_trans s1 s2 s3 : frame s1 s2 -> frame s2 s3 -> frame s1 s3.
Proof. intros [] []. constructor; [congruence..|]. by etrans. Qed.

Lemma frame_arm s : frame s (arm s).
Proof.
  unfold arm. destruct (stopped s) eqn:E; [apply frame_refl|].
  constructor; [done..|]. cbn. destruct (cancelTimer s); [|done].
  intros t Ht. by apply list_elem_of_filter in Ht as [_ Ht].
Qed.

Lemma frame_moveOn r now s : frame s (moveOn r now s).
Proof. unfold moveOn, report_decide. case_match; by constructor. Qed.

Lemma frame_track k r t s : frame s (track k r t s).
Proof. by constructor. Qed.

Lemma frame_wake_rows now due s : frame s (wake_rows now due s).
Proof.
  destruct due as [|r rest]; cbn [wake_rows]; [apply frame_arm|].
  destruct (inFlight s !! key_of r) as [[]|].
  - destruct (frame_moveOn r now s). by constructor.
  - eapply frame_trans; [|destruct (frame_moveOn r now
      (emit (Deferred (agentId r) (id r)) (with_inFlight (<[key_of r:=true]> (inFlight s)) s)));
      by constructor]. by constructor.
  - destruct (frame_moveOn r now s). by constructor.
Qed.

Lemma frame_recompute_agents now agents s : frame s (recompute_agents now agents s).
Proof. destruct agents; [apply frame_arm|by constructor]. Qed.

Lemma frame_recompute_row now r s : frame s (recompute_row now r s).1.
Proof. unfold recompute_row, report_decide. repeat case_match; by constructor. Qed.

Lemma frame_recompute_rows now rows agents s : frame s (recompute_rows now rows agents s).
Proof.
  revert s. induction rows as [|r rows IH]; intros s; cbn [recompute_rows];
    [apply frame_recompute_agents|].
  pose proof (frame_recompute_row now r s) as Hr.
  destruct (recompute_row now r s) as [s' []]; cbn [fst] in Hr.
  - destruct Hr. by constructor.
  - eapply frame_trans; [exact Hr|apply IH].
Qed.

(** Only the continuation of [#arm] adds a timer, and only while running. *)
Lemma advance_frame t failed s :
  frame s (advance t failed s) \/
  (stopped s = false /\ exists soonest h,
     timers (advance t failed s) =
       timers s ++ [(h, arm_delay (horizonMs s) (clock s) soonest)] /\
     horizonMs (advance t failed s) = horizonMs s /\ stopped (advance t failed s) = false).
Proof.
  destruct t; cbn [advance].
  - left. apply frame_recompute_rows.
  - destruct (stopped s) eqn:E; [left; apply frame_refl|]. right. cbn. eauto 8.
  - left. apply frame_wake_rows.
  - left. eapply frame_trans; [apply frame_track|apply frame_wake_rows].
  - left. destruct failed; by constructor.
  - left. destruct fresh; by constructor.
  - left. case_match; by constructor.
  - left. destruct fresh as [r|]; [|apply frame_refl].
    destruct (enabled r); [apply frame_track|apply frame_refl].
Qed.

Lemma call_timers s s' :
  call s s' ->
  horizonMs s' = horizonMs s /\ timers s' ⊆ timers s /\ (stopped s = true -> stopped s' = true).
Proof.
  intros Hc. destruct Hc; try done.
  - unfold start. destruct (started s || stopped s) eqn:E; [done|].
    destruct (frame_recompute_agents (clock s) (agentIds s) (with_flags true (stopped s) s))
      as [Hs Hh Ht]. cbn in *. split; [done|]. split; [done|]. congruence.
  - unfold stop. destruct (stopped s) eqn:E; [done|]. split; [done|]. split; [|done].
    cbn. destruct (cancelTimer s); [|done].
    intros t Ht. by apply list_elem_of_filter in Ht as [_ Ht].
  - unfold changed. case_match; [done|]. destruct (frame_arm s) as [Hs Hh Ht].
    split; [done|]. split; [done|congruence].
Qed.

Lemma arm_delay_clamped horizon now soonest :
  0 <= horizon -> 0 <= arm_delay horizon now soonest <= horizon.
Proof. unfold arm_delay. lia. Qed.

Lemma timer_fires_frame h s :
  horizonMs (timer_fires h s) = horizonMs s /\ timers (timer_fires h s) ⊆ timers s /\
  stopped (timer_fires h s) = stopped s.
Proof.
  unfold timer_fires, wake. cbn. destruct (stopped s) eqn:E; cbn; split_and!; try done;
    intros t Ht; by apply list_elem_of_filter in Ht as [_ Ht].
Qed.

Lemma timers_clamped_step s s' : step s s' -> timers_clamped s -> timers_clamped s'.
Proof.
  assert (Hsub : forall s s', horizonMs s' = horizonMs s -> timers s' ⊆ timers s ->
            timers_clamped s -> timers_clamped s').
  { intros a b Hh Ht [H0 Hf]. split; [by rewrite Hh|]. rewrite Hh.
    rewrite Forall_forall in *. intros t Hin. apply Hf, Ht, Hin. }
  intros Hs Hc. destruct Hs as [s s' Hcall|h d s Hin|l1 t l2 failed s Htasks|l1 t l2 s Htasks _|l1 t l2 failed s l k Htasks _ _].
  - destruct (call_timers s s' Hcall) as (Hh & Ht & _). by apply (Hsub s).
  - destruct (timer_fires_frame h s) as (Hh & Ht & _). by apply (Hsub s).
  - destruct (advance_frame t failed (with_tasks (l1 ++ l2) s))
      as [[_ Hh Ht]|(_ & soonest & h & Ht & Hh & _)].
    + by apply (Hsub s).
    + destruct Hc as [H0 Hf]. split; [rewrite Hh; done|]. rewrite Ht, Hh. cbn.
      apply Forall_app. split; [done|]. apply Forall_cons. split; [|done].
      by apply arm_delay_clamped.
  - exact Hc.
  - change (timers_clamped (advance t failed (with_tasks (l1 ++ l2) s))).
    destruct (advance_frame t failed (with_tasks (l1 ++ l2) s))
      as [[_ Hh Ht]|(_ & soonest & h & Ht & Hh & _)].
    + by apply (Hsub s).
    + destruct Hc as [H0 Hf]. split; [rewrite Hh; done|]. rewrite Ht, Hh. cbn.
      apply Forall_app. split; [done|]. apply Forall_cons. split; [|done].
      by apply arm_delay_clamped.
Qed.
End Timers.

(** Whatever the schedules say - including a one-shot ten years out, or a row long
    overdue - and in every interleaving of the scheduler's methods, every live timer was
    armed with a delay between zero and the horizon. *)
Theorem timer_delay_clamped `{Platform} db now agents horizon s :
  0 <= horizon -> rtc step (initial db now agents horizon) s ->
  Forall (fun t => 0 <= t.2 <= horizonMs s) (timers s).
Proof.
  intros Hh Hr. assert (timers_clamped s) as [_ Hf]; [|done].
  eapply (reachable_invariant step timers_clamped); [apply timers_clamped_step|exact Hr|by split].
Qed.

(** Once stopped, a scheduler stays stopped and arms nothing: no later step of any
    suspended method, and no later call, adds a timer. *)
Theorem stopped_arms_nothing `{Platform} s s' :
  stopped s = true -> rtc step s s' -> stopped s' = true /\ timers s' ⊆ timers s.
Proof.
  intros Hst Hr. induction Hr as [s|s1 s2 s3 Hs Hr IH]; [done|].
  assert (stopped s2 = true /\ timers s2 ⊆ timers s1) as [Hst2 Ht2].
  { destruct Hs as [s s' Hcall|h d s Hin|l1 t l2 failed s Htasks|l1 t l2 s Htasks _|l1 t l2 failed s l k Htasks _ _].
    - destruct (call_timers s s' Hcall) as (_ & Ht & Hp). auto.
    - destruct (timer_fires_frame h s) as (_ & Ht & ->). done.
    - destruct (advance_frame t failed (with_tasks (l1 ++ l2) s)) as [[Hp _ Ht]|(Hp & _)].
      + rewrite Hp. done.
      + cbn in Hp. congruence.
    - done.
    - cbn [stopped timers with_tasks with_table].
      destruct (advance_frame t failed (with_tasks (l1 ++ l2) s)) as [[Hp _ Ht]|(Hp & _)].
      + rewrite Hp. done.
      + cbn in Hp. congruence. }
  destruct (IH Hst2) as [? ?]. split; [done|]. by etrans.
Qed.

(** ** One run per schedule at a time *)

Definition run_key (t : Task) : option Key :=
  match t with
  | Running k _ _ | Recording k _ _ _ _ | Settling k _ => Some k
  | _ => None
  end.

(** The tasks between whose steps no other run may begin or end. *)
Definition critical (t : Task) : bool :=
  match t with
  | Waking _ _ | Taking _ _ _ | Recording _ _ _ _ _ | Settling _ _ | Refreshed _ _ => true
  | _ => false
  end.

(** The key a task is about to start a run for. *)
Definition claim (t : Task) : option Key :=
  match t with
  | Taking _ r _ => Some (key_of r)
  | Refreshed k _ => Some k
  | _ => None
  end.

Definition criticals (l : list Task) : list Task := filter (fun t => critical t = true) l.

(** Steps in which a wake, or the bookkeeping at the end of a run, finishes (or is cut off by a
    rejected call, if [rejections] happen) before another wake or bookkeeping begins: what a store that
    answers without leaving the event loop's current turn gives. Timers fire, and runs end, between
    them. *)
Inductive serial_step `{Platform} (rejections : bool) : Scheduler -> Scheduler -> Prop :=
| ss_call s s' : call s s' -> serial_step rejections s s'
| ss_timer h d s :
    (h, d) ∈ timers s -> criticals (tasks s) = [] -> serial_step rejections s (timer_fires h s)
| ss_task l1 t l2 failed s :
    tasks s = l1 ++ t :: l2 ->
    (run_key t <> None -> critical t = false -> criticals (tasks s) = []) ->
    serial_step rejections s (advance t failed (with_tasks (l1 ++ l2) s))
| ss_rejected l1 t l2 s :
    rejections = true -> tasks s = l1 ++ t :: l2 -> awaits_store t = true ->
    serial_step rejections s (with_tasks (l1 ++ l2) s)
| ss_refused l1 t l2 failed s l k :
    rejections = true -> tasks s = l1 ++ t :: l2 ->
    (run_key t <> None -> critical t = false -> criticals (tasks s) = []) ->
    tasks (advance t failed (with_tasks (l1 ++ l2) s)) = (l1 ++ l2) ++ l ++ [k] -> awaits_write k = true ->
    serial_step rejections s (with_tasks ((l1 ++ l2) ++ l) (with_table (table s) (advance t failed (with_tasks (l1 ++ l2) s)))).

Lemma serial_step_step `{Platform} b s s' : serial_step b s s' -> step s s'.
Proof. intros []; [by apply s_call|by eapply s_timer|by apply s_task|by eapply s_rejected|by eapply s_refused]. Qed.

Section Excl.
(** Whether calls are rejected: then the map may hold a schedule of which nothing is in progress. *)
Context (b : bool).

Record excl (l : list Task) (m : gmap (ustring * ustring) bool) : Prop := {
  excl_runs : NoDup (omap run_key l);
  excl_flight : forall k, (k ∈ omap run_key l -> is_Some (m !! k)) /\ (b = false -> is_Some (m !! k) -> k ∈ omap run_key l);
  excl_critical : (length (criticals l) <= 1)%nat;
  excl_claim : forall t k, t ∈ l -> claim t = Some k -> m !! k = None }.

#[export] Instance excl_perm : Proper (Permutation ==> eq ==> iff) excl.
Proof.
  assert (forall l l' m, l ≡ₚ l' -> excl l m -> excl l' m) as H.
  { intros l l' m Hl [H1 H2 H3 H4]. constructor.
    - by rewrite <- Hl.
    - intros k. specialize (H2 k). by rewrite Hl in H2.
    - unfold criticals in *. by rewrite <- Hl.
    - intros t k Ht. apply H4. by rewrite Hl. }
  intros l l' Hl m ? <-. split; apply H; [done|by symmetry].
Qed.

Lemma claim_critical t k : claim t = Some k -> critical t = true.
Proof. by destruct t. Qed.

(** Where no other critical task exists, the invariant speaks of the rest and one task. *)
Lemma excl_cons t l m :
  criticals l = [] ->
  (forall k, claim t = Some k -> m !! k = None) ->
  NoDup (omap run_key (t :: l)) ->
  (forall k, (k ∈ omap run_key (t :: l) -> is_Some (m !! k)) /\ (b = false -> is_Some (m !! k) -> k ∈ omap run_key (t :: l))) ->
  excl (t :: l) m.
Proof.
  intros Hc Ht Hn Hf. constructor; [done|done| |].
  - unfold criticals in *. rewrite filter_cons. destruct (decide _); rewrite Hc; simpl; lia.
  - intros u k Hu Hk. apply elem_of_cons in Hu as [->|Hu]; [by apply Ht|].
    assert (u ∈ criticals l) as Hin
      by (apply list_elem_of_filter; split; [by apply claim_critical in Hk|done]).
    rewrite Hc in Hin. by apply not_elem_of_nil in Hin.
Qed.

Lemma excl_drop t l m : excl (t :: l) m -> run_key t = None -> excl l m.
Proof.
  intros [H1 H2 H3 H4] Ht. simpl in H1, H2. rewrite Ht in H1, H2. constructor; auto.
  - unfold criticals in *. rewrite filter_cons in H3. destruct (decide _); simpl in H3; lia.
  - intros u k Hu. apply H4. by right.
Qed.

Lemma excl_neutral t l m :
  excl l m -> run_key t = None -> critical t = false -> excl (t :: l) m.
Proof.
  intros [H1 H2 H3 H4] Hr Hc. constructor.
  - simpl. by rewrite Hr.
  - intros k. simpl. rewrite Hr. apply H2.
  - unfold criticals. rewrite filter_cons_False by congruence. exact H3.
  - intros u k Hu Hk. apply elem_of_cons in Hu as [->|Hu]; [|by eapply H4].
    apply claim_critical in Hk. congruence.
Qed.

(** A critical task is the only one. *)
Lemma excl_alone t l m : excl (t :: l) m -> critical t = true -> criticals l = [].
Proof.
  intros [_ _ H _] Hc. unfold criticals in *. rewrite filter_cons_True in H by done.
  simpl in H. destruct (filter _ l); [done|simpl in H; lia].
Qed.

End Excl.

(** A task whose call was rejected is gone; its key stays. *)
Lemma excl_lose t l m : excl true (t :: l) m -> excl true l m.
Proof.
  intros [H1 H2 H3 H4]. constructor; [|intros k; split; [|done]| |].
  - simpl in H1. destruct (run_key t); [by apply NoDup_cons in H1 as [_ ?]|done].
  - intros Hk. apply H2. simpl. destruct (run_key t); [by right|done].
  - unfold criticals in *. rewrite filter_cons in H3. destruct (decide _); simpl in H3; lia.
  - intros u k Hu. apply H4. by right.
Qed.

Section Exclusion.
Context `{Platform} (b : bool).

Definition exclusive (s : Scheduler) : Prop := excl b (tasks s) (inFlight s).

(** The state holds the tasks [l] and the one a method suspended on. *)
Lemma excl_snoc t l m : excl b (l ++ [t]) m <-> excl b (t :: l) m.
Proof. by rewrite Permutation_app_comm. Qed.

Lemma exclusive_arm s : exclusive s -> exclusive (arm s).
Proof.
  unfold exclusive, arm. intros He. destruct (stopped s); [done|]. cbn.
  apply excl_snoc. by apply excl_neutral.
Qed.

Lemma moveOn_same r now s :
  tasks (moveOn r now s) = tasks s /\ inFlight (moveOn r now s) = inFlight s.
Proof. unfold moveOn, report_decide. by case_match. Qed.

Lemma exclusive_wake_rows now due s :
  exclusive s -> criticals (tasks s) = [] -> exclusive (wake_rows now due s).
Proof.
  intros He Hc. destruct due as [|r rest]; cbn [wake_rows]; [by apply exclusive_arm|].
  pose proof He as [H1 H2 H3 H4]. unfold exclusive.
  destruct (inFlight s !! key_of r) as [deferred|] eqn:Ek.
  - set (s1 := if deferred then s else _).
    assert (tasks s1 = tasks s /\ forall k, is_Some (inFlight s1 !! k) <-> is_Some (inFlight s !! k))
      as [Ht Hi].
    { destruct deferred; cbn; [done|]. split; [done|]. intros k.
      destruct (decide (k = key_of r)) as [->|]; [rewrite lookup_insert_eq, Ek|
        by rewrite lookup_insert_ne]. split; eauto. }
    clearbody s1. destruct (moveOn_same r now s1) as [Hmt Hmi]. unfold suspend, with_tasks.
    cbn [tasks inFlight]. rewrite Hmt, Hmi, Ht. apply excl_snoc, excl_cons; try done.
    intros k. rewrite Hi. apply H2.
  - destruct (moveOn_same r now s) as [Hmt Hmi]. unfold suspend, with_tasks.
    cbn [tasks inFlight]. rewrite Hmt, Hmi. apply excl_snoc, excl_cons; try done.
    intros k [= <-]. done.
Qed.

Lemma exclusive_track k r t s :
  excl b (tasks s) (inFlight s) -> criticals (tasks s) = [] -> inFlight s !! k = None ->
  exclusive (track k r t s) /\ criticals (tasks (track k r t s)) = [].
Proof.
  intros [H1 H2 H3 H4] Hc Hk. unfold exclusive. cbn. split.
  - apply excl_snoc, excl_cons; [done|done| |].
    + simpl. constructor; [|done]. intros [? ?]%H2. congruence.
    + intros k'. simpl. rewrite elem_of_cons. destruct (H2 k') as [Hf Hb].
      destruct (decide (k' = k)) as [->|Hne].
      * rewrite lookup_insert_eq. split; [eauto|by left].
      * rewrite lookup_insert_ne by done. split; [intros [?|?]; [done|auto]|intros; right; auto].
  - unfold criticals in *. by rewrite filter_app, Hc.
Qed.

Lemma recompute_row_same now r s :
  tasks (recompute_row now r s).1 = tasks s /\ inFlight (recompute_row now r s).1 = inFlight s.
Proof. unfold recompute_row, report_decide. repeat case_match; done. Qed.

Lemma exclusive_recompute_agents now agents s :
  exclusive s -> exclusive (recompute_agents now agents s).
Proof.
  intros He. destruct agents; cbn [recompute_agents]; [by apply exclusive_arm|].
  unfold exclusive, suspend, with_tasks. cbn [tasks inFlight].
  apply excl_snoc. by apply excl_neutral.
Qed.

Lemma exclusive_recompute_rows now rows agents s :
  exclusive s -> exclusive (recompute_rows now rows agents s).
Proof.
  revert s. induction rows as [|r rows IH]; intros s He; cbn [recompute_rows];
    [by apply exclusive_recompute_agents|].
  destruct (recompute_row_same now r s) as [Ht Hi].
  destruct (recompute_row now r s) as [s' []]; cbn [fst] in Ht, Hi.
  - unfold exclusive, suspend, with_tasks. cbn [tasks inFlight]. rewrite Ht, Hi.
    apply excl_snoc. by apply excl_neutral.
  - apply IH. unfold exclusive. by rewrite Ht, Hi.
Qed.

(** A task that hands its key on. *)
Lemma excl_same_key t t' l m :
  excl b (t :: l) m -> criticals l = [] -> run_key t' = run_key t -> claim t' = None ->
  excl b (t' :: l) m.
Proof.
  intros [H1 H2 H3 H4] Hc Hr Hcl. simpl in H1, H2. apply excl_cons; [done| | |].
  - by rewrite Hcl.
  - simpl. by rewrite Hr.
  - simpl. by rewrite Hr.
Qed.

(** The end of a run frees its key. *)
Lemma excl_release t k l m :
  excl b (t :: l) m -> run_key t = Some k -> criticals l = [] -> excl b l (delete k m).
Proof.
  intros [H1 H2 H3 H4] Hr Hc. simpl in H1, H2. rewrite Hr in H1, H2.
  apply NoDup_cons in H1 as [Hk H1]. constructor; [done| |by rewrite Hc; simpl; lia|].
  - intros k'. destruct (H2 k') as [Hf Hb]. rewrite lookup_delete_is_Some. split.
    + intros Hin. split; [intros ->; done|]. apply Hf. by right.
    + intros E [Hne Hs]. specialize (Hb E Hs). apply elem_of_cons in Hb as [->|]; done.
  - intros u k' Hu Hk'. apply lookup_delete_None. right. apply (H4 u); [by right|done].
Qed.

Lemma exclusive_advance t l failed s :
  tasks s = l -> excl b (t :: l) (inFlight s) ->
  (run_key t <> None -> critical t = false -> criticals l = []) ->
  exclusive (advance t failed s).
Proof.
  intros Hl He Hq. unfold exclusive. destruct t; cbn [advance].
  - apply exclusive_recompute_rows. unfold exclusive. rewrite Hl. by eapply excl_drop.
  - apply excl_drop in He; [|done]. rewrite <- Hl in He. by destruct (stopped s).
  - pose proof (excl_alone _ _ _ _ He eq_refl) as Hc. apply excl_drop in He; [|done].
    apply exclusive_wake_rows; unfold exclusive; by rewrite Hl.
  - pose proof (excl_alone _ _ _ _ He eq_refl) as Hc.
    pose proof (excl_claim _ _ _ He _ _ (list_elem_of_here _ _) eq_refl) as Hfree.
    apply excl_drop in He; [|done]. rewrite <- Hl in He, Hc.
    destruct (exclusive_track (key_of schedule) schedule now s He Hc Hfree).
    by apply exclusive_wake_rows.
  - specialize (Hq ltac:(done) eq_refl).
    assert (excl b (Recording key (clock s) (get (table s) key.1 key.2) runId failed :: l)
              (inFlight s)) as H' by (by eapply excl_same_key).
    apply excl_snoc in H'. rewrite <- Hl in H'. by destruct failed.
  - pose proof (excl_alone _ _ _ _ He eq_refl) as Hc.
    destruct fresh as [r|]; [assert (excl b (Settling key true :: l) (inFlight s)) as H' by (by eapply excl_same_key)|
      assert (excl b (Settling key false :: l) (inFlight s)) as H' by (by eapply excl_same_key)];
      apply excl_snoc in H'; by rewrite <- Hl in H'.
  - pose proof (excl_alone _ _ _ _ He eq_refl) as Hc.
    pose proof (excl_release _ _ _ _ He eq_refl Hc) as H'. rewrite <- Hl in *.
    case_match; [|done]. cbn. apply excl_snoc, excl_cons; [done| |apply H'|].
    + intros k [= <-]. apply lookup_delete_eq.
    + apply (excl_flight _ _ _ H').
  - pose proof (excl_alone _ _ _ _ He eq_refl) as Hc.
    pose proof (excl_claim _ _ _ He _ _ (list_elem_of_here _ _) eq_refl) as Hfree.
    apply excl_drop in He; [|done]. rewrite <- Hl in He, Hc.
    destruct fresh as [r|]; [|done]. destruct (enabled r); [|done].
    by apply exclusive_track.
Qed.

Lemma exclusive_call s s' : call s s' -> exclusive s -> exclusive s'.
Proof.
  intros Hc He. destruct Hc; try done.
  - unfold start. case_match; [done|]. by apply exclusive_recompute_agents.
  - unfold stop. by case_match.
  - unfold changed. case_match; [done|]. by apply exclusive_arm.
Qed.

Lemma exclusive_resumed l1 t l2 failed s : exclusive s -> tasks s = l1 ++ t :: l2 ->
  (run_key t <> None -> critical t = false -> criticals (tasks s) = []) ->
  exclusive (advance t failed (with_tasks (l1 ++ l2) s)).
Proof.
  unfold exclusive. intros He Ht Hq. rewrite Ht in He.
  assert (l1 ++ t :: l2 ≡ₚ t :: l1 ++ l2) as Hp by (by rewrite Permutation_middle).
  rewrite Hp in He. apply (exclusive_advance t (l1 ++ l2)); [done|exact He|].
  intros Hr Hcr. specialize (Hq Hr Hcr). rewrite Ht in Hq. unfold criticals in *.
  rewrite filter_app, filter_cons_False in Hq by congruence. by rewrite filter_app.
Qed.
End Exclusion.

Lemma exclusive_serial_step `{Platform} b s s' : serial_step b s s' -> exclusive b s -> exclusive b s'.
Proof.
  intros Hs He. destruct Hs as [s s' Hc|h d s Hin Hq|l1 t l2 failed s Ht Hq|l1 t l2 s -> Ht _|l1 t l2 failed s l k -> Ht Hq Hk _].
  - by eapply exclusive_call.
  - unfold exclusive, timer_fires, wake. cbn. destruct (stopped s); [done|]. cbn.
    destruct He as [H1 H2 H3 H4]. by apply excl_snoc, excl_cons.
  - by apply exclusive_resumed.
  - unfold exclusive in *. cbn. apply (excl_lose t). rewrite Ht in He. by rewrite Permutation_middle.
  - pose proof (exclusive_resumed true l1 t l2 failed s He Ht Hq) as He'. unfold exclusive in *.
    cbn [tasks inFlight with_tasks with_table]. rewrite Hk in He'. rewrite (app_assoc (l1 ++ l2)) in He'. apply excl_snoc in He'.
    by apply excl_lose in He'.
Qed.

(** C35. No schedule overlaps itself, as long as a wake, or the bookkeeping that ends a run, finishes
    (or is cut off by a rejected call of the store) before another wake or bookkeeping begins: then,
    whatever timers fire, runs take, calls arrive or rows change, and whichever calls of the store are
    rejected, no two runs of one schedule are ever in progress together, and every schedule whose run
    or bookkeeping is in progress is in the in-flight map. Where no call is rejected, the map holds
    those alone. (Wakes that interleave do start two runs, see [interleaved_wake_overlaps]; a rejected
    call in the bookkeeping leaves its schedule in the map, see [rejected_record_strands].) *)
Theorem one_run_per_schedule `{Platform} db now agents horizon rejections s :
  rtc (serial_step rejections) (initial db now agents horizon) s ->
  NoDup (omap run_key (tasks s)) /\
  (forall k, k ∈ omap run_key (tasks s) -> is_Some (inFlight s !! k)) /\
  (rejections = false -> forall k, is_Some (inFlight s !! k) -> k ∈ omap run_key (tasks s)).
Proof.
  intros Hr. assert (exclusive rejections s) as [H1 H2 _ _]; [|split_and!; [done|apply H2|intros E k; by apply H2]].
  eapply (reachable_invariant (serial_step rejections) (exclusive rejections)); [apply exclusive_serial_step|exact Hr|].
  constructor; cbn; [constructor| |lia|].
  - intros k. rewrite lookup_empty. split; [intros Hk; by apply not_elem_of_nil in Hk|].
    by intros _ [? ?].
  - intros t k Ht. by apply not_elem_of_nil in Ht.
Qed.

(** ** Moving the row on *)

(** The row is advanced before its run starts: once [#moveOn] has handled a due
    schedule, that row is no longer due at the wake's own time, so neither the next arming
    nor the next wake takes the same occurrence again. (A cron schedule with more than a
    thousand missed occurrences is left to the cap's own rule.) *)
Theorem moveOn_not_due `{Platform} r now s agents :
  keyed (table s) -> get (table s) (agentId r) (id r) = Some r ->
  (forall d, decide_due r now true = Some d -> missedCapped d = true -> kind r <> KCron) ->
  forall r', get (table (moveOn r now s)) (agentId r) (id r) = Some r' ->
    ~ is_due (table (moveOn r now s)) agents now r'.
Proof.
  intros Hk Hr Hcap r' Hr'. unfold moveOn in *. cbn in Hr'. unfold get, reschedule in Hr'.
  assert (table (report_decide r (decide_due r now true) s) = table s) as Ht
    by (unfold report_decide; by case_match).
  rewrite Ht in Hr'. apply lookup_alter_Some in Hr' as [(_ & r0 & Hr0 & ->)|[? _]]; [|done].
  intros (_ & _ & _ & t & Hn & Hle). cbn in Hn.
  unfold decide_due in *.
  destruct (parseSchedule _) as [p|e] eqn:Ep; [|done]. cbn in Hn, Hcap.
  pose proof (decideDue_future p (id r) (anchorAt r) now) as Hf.
  assert (missedCapped (decideDue p (id r) (anchorAt r) now true) = true -> ~ is_cron p) as Hc.
  { intros Hc Hp. apply (Hcap _ eq_refl Hc). by pose proof (parseSchedule_kind _ _ Ep Hp). }
  specialize (Hf ltac:(by eapply parseSchedule_interval) Hc t Hn). lia.
Qed.

(** ** Executions *)

Inductive action :=
| AStart | AStop | AChanged
| AClock (t : Z)
| ATimer (h : Z)
| AResume (i : nat) (failed : option RunFailure)
| AReject (i : nat).

Section Executions.
Context `{Platform}.

Definition perform (a : action) (s : Scheduler) : option Scheduler :=
  match a with
  | AStart => Some (start s)
  | AStop => Some (stop s)
  | AChanged => Some (changed s)
  | AClock t => Some (with_clock t s)
  | ATimer h => if existsb (fun t => t.1 =? h) (timers s) then Some (timer_fires h s) else None
  | AResume i failed =>
      t ← tasks s !! i;
      Some (advance t failed (with_tasks (take i (tasks s) ++ drop (S i) (tasks s)) s))
  | AReject i =>
      t ← tasks s !! i;
      if awaits_store t then Some (with_tasks (take i (tasks s) ++ drop (S i) (tasks s)) s) else None
  end.

(** The same, refused where it would interleave with a wake or a run's bookkeeping. *)
Definition serial_ok (a : action) (s : Scheduler) : bool :=
  match a with
  | ATimer _ => bool_decide (length (criticals (tasks s)) = 0%nat)
  | AResume i _ =>
      match tasks s !! i with
      | Some t => critical t || match run_key t with None => true | Some _ => false end ||
                  bool_decide (length (criticals (tasks s)) = 0%nat)
      | None => false
      end
  | _ => true
  end.

Fixpoint execute (serial : bool) (l : list action) (s : Scheduler) : option Scheduler :=
  match l with
  | [] => Some s
  | a :: l' =>
      if serial && negb (serial_ok a s) then None else s' ← perform a s; execute serial l' s'
  end.

Lemma perform_serial a s s' :
  perform a s = Some s' -> serial_ok a s = true -> serial_step true s s'.
Proof.
  intros Hp Hok. destruct a; cbn in Hp, Hok;
    try (injection Hp as <-; apply ss_call; by constructor).
  - case_match eqn:E; [|done]. injection Hp as <-. apply existsb_exists in E as ([h' d] & Hin & Hh).
    apply Z.eqb_eq in Hh. cbn in Hh. subst. apply (ss_timer true h d); [by apply list_elem_of_In|].
    apply bool_decide_eq_true in Hok. by apply nil_length_inv.
  - destruct (tasks s !! i) as [t|] eqn:E; [|done]. injection Hp as <-.
    apply ss_task; [by rewrite take_drop_middle|]. intros Hr Hc. rewrite Hc in Hok.
    destruct (run_key t); [|done]. apply bool_decide_eq_true in Hok. by apply nil_length_inv.
  - destruct (tasks s !! i) as [t|] eqn:E; [|done]. cbn in Hp. destruct (awaits_store t) eqn:Ea; [|done]. injection Hp as <-.
    apply (ss_rejected true _ t); [done|by rewrite take_drop_middle|done].
Qed.

Lemma perform_step a s s' : perform a s = Some s' -> step s s'.
Proof.
  intros Hp. destruct a; cbn in Hp; try (injection Hp as <-; apply s_call; by constructor).
  - case_match eqn:E; [|done]. injection Hp as <-. apply existsb_exists in E as ([h' d] & Hin & Hh).
    apply Z.eqb_eq in Hh. cbn in Hh. subst. apply (s_timer h d). by apply list_elem_of_In.
  - destruct (tasks s !! i) as [t|] eqn:E; [|done]. injection Hp as <-.
    apply s_task. by rewrite take_drop_middle.
  - destruct (tasks s !! i) as [t|] eqn:E; [|done]. cbn in Hp. destruct (awaits_store t) eqn:Ea; [|done]. injection Hp as <-.
    apply (s_rejected _ t); [by rewrite take_drop_middle|done].
Qed.

Lemma execute_serial l s s' : execute true l s = Some s' -> rtc (serial_step true) s s'.
Proof.
  revert s. induction l as [|a l IH]; intros s Hx; cbn in Hx; [by injection Hx as <-|].
  destruct (serial_ok a s) eqn:E; [|done]. cbn in Hx.
  destruct (perform a s) as [s1|] eqn:E1; [|done].
  eapply rtc_l; [by eapply perform_serial|by apply IH].
Qed.

Lemma execute_steps b l s s' : execute b l s = Some s' -> rtc step s s'.
Proof.
  revert s. induction l as [|a l IH]; intros s Hx; cbn in Hx; [by injection Hx as <-|].
  case_match; [done|]. destruct (perform a s) as [s1|] eqn:E1; [|done].
  eapply rtc_l; [by eapply perform_step|by apply IH].
Qed.
End Executions.

(** A platform that knows every name as UTC. *)
Definition utc_platform : Platform :=
  {| platform_zones := fun _ => Some (fun _ => 0); hostZone := js "UTC";
     date_parse := fun _ => None |}.

Definition sample_scheduler : Scheduler :=
  initial (upsert (sample "a" "one" 500 OriginManifest "m.yaml") ∅) 0 [js "a"]
    SCHEDULER_HORIZON_MS.

(** Start, arm for the row due at 500, wake at 600 and start its run; wake again at
    10,000,000, when the row is due again, and defer; let the run end and take the
    deferred fire. *)
Definition sample_actions : list action :=
  [AStart; AResume 0 None; AResume 0 None; AClock 600; ATimer 0; AResume 0 None;
   AResume 0 None; AResume 1 None; AClock 10000000; ATimer 2; AResume 1 None;
   AResume 1 None; AResume 0 None; AResume 1 None; AResume 1 None; AResume 1 None].

(** [at_end b l P]: the actions [l] can be performed from the sample and end where [P]. *)
Definition at_end (serial : bool) (l : list action) (P : Scheduler -> Prop) : Prop :=
  match @execute utc_platform serial l sample_scheduler with
  | Some s => P s
  | None => False
  end.

Lemma at_end_reached l P :
  at_end false l P -> exists s, rtc (@step utc_platform) sample_scheduler s /\ P s.
Proof.
  unfold at_end. destruct (execute _ _ _) as [s|] eqn:E; [|done]. intros HP.
  exists s. split; [|done]. by eapply (@execute_steps utc_platform).
Qed.

Lemma one_run_per_schedule_witness :
  at_end true sample_actions
    (fun s => length (events s) = 3%nat /\ NoDup (omap run_key (tasks s))).
Proof.
  unfold at_end. destruct (execute _ _ _) as [s|] eqn:E; [|vm_compute in E; discriminate].
  split; [|exact (proj1 (@one_run_per_schedule utc_platform _ _ _ _ true s
                    (@execute_serial utc_platform _ _ _ E)))].
  vm_compute in E. injection E as <-. reflexivity.
Defined.

Lemma timer_delay_clamped_witness :
  at_end false (take 9 sample_actions)
    (fun s => map snd (timers s) = [30000] /\
              Forall (fun t => 0 <= t.2 <= horizonMs s) (timers s)).
Proof.
  unfold at_end. destruct (execute _ _ _) as [s|] eqn:E; [|vm_compute in E; discriminate].
  split; [|exact (@timer_delay_clamped utc_platform _ _ _ SCHEDULER_HORIZON_MS s ltac:(done)
                    (@execute_steps utc_platform _ _ _ _ E))].
  vm_compute in E. injection E as <-. reflexivity.
Defined.

Lemma stopped_arms_nothing_witness :
  at_end false (take 7 sample_actions) (fun s =>
    forall s', rtc (@step utc_platform) (stop s) s' -> stopped s' = true /\ timers s' ⊆ []).
Proof.
  unfold at_end. destruct (execute _ _ _) as [s|] eqn:E; [|vm_compute in E; discriminate].
  intros s' Hs'.
  assert (stopped (stop s) = true /\ timers (stop s) = []) as [Hst Ht]
    by (vm_compute in E; injection E as <-; split; reflexivity).
  rewrite <- Ht. exact (@stopped_arms_nothing utc_platform (stop s) s' Hst Hs').
Defined.

Lemma moveOn_not_due_witness :
  match get (table sample_scheduler) (js "a") (js "one") with
  | Some r => forall r',
      get (table (@moveOn utc_platform r 600 sample_scheduler)) (js "a") (js "one") = Some r' ->
      ~ is_due (table (@moveOn utc_platform r 600 sample_scheduler)) [js "a"] 600 r'
  | None => False
  end.
Proof.
  destruct (get _ _ _) as [r|] eqn:E; [|vm_compute in E; discriminate].
  assert (agentId r = js "a" /\ id r = js "one" /\ kind r <> KCron) as (Ha & Hi & Hkind)
    by (vm_compute in E; injection E as <-; done).
  pose proof (@moveOn_not_due utc_platform r 600 sample_scheduler [js "a"]) as Hn.
  rewrite Ha, Hi in Hn. apply Hn; [apply upsert_keyed; by intros k x|exact E|].
  intros d _ _. exact Hkind.
Defined.

(** *** What the guards do not cover *)

(** [#arm] clears the timer before it asks the store and sets one after: two calls of
    [changed] (or one while [start] is arming) that overlap set two timers, [#cancelTimer]
    remembers the second, and [stop] clears only that one - a live timer outlasts it. *)
Theorem stop_leaves_a_timer :
  exists s, rtc (@step utc_platform) sample_scheduler s /\ stopped s = true /\ timers s <> [].
Proof.
  apply (at_end_reached
    [AStart; AResume 0 None; AChanged; AResume 0 None; AResume 0 None; AStop]).
  vm_compute. split; [reflexivity|discriminate].
Qed.

(** The in-flight check and the mark it makes are separated by awaits: when a deferred
    fire is being taken at the end of a run while a wake is between its two, both start
    one, and two runs of the same schedule are in progress. *)
Theorem interleaved_wake_overlaps :
  exists s, rtc (@step utc_platform) sample_scheduler s /\ ~ NoDup (omap run_key (tasks s)).
Proof.
  apply (at_end_reached
    (take 12 sample_actions ++
     [AResume 1 None; AClock 20000000; ATimer 3; AResume 0 None;
      AResume 1 None; AResume 1 None; AResume 0 None; AResume 0 None; AResume 0 None])).
  unfold at_end. destruct (execute _ _ _) as [s|] eqn:E; [|vm_compute in E; discriminate].
  vm_compute in E. injection E as <-. cbn.
  intros Hn. apply NoDup_cons in Hn as [Hn _]. apply Hn. by left.
Qed.

(** [stop] collects the runs in flight once. A wake that was already past its own check
    for [stopped] goes on to start a run, which nothing waits for. *)
Theorem run_begins_after_stop :
  exists s s', rtc (@step utc_platform) sample_scheduler s /\ stopped s = true /\
    inFlight s = ∅ /\ rtc (@step utc_platform) s s' /\ inFlight s' <> ∅.
Proof.
  destruct (@execute utc_platform false (take 6 sample_actions ++ [AStop]) sample_scheduler)
    as [s|] eqn:E; [|vm_compute in E; discriminate].
  destruct (@execute utc_platform false [AResume 0 None; AResume 0 None] s) as [s'|] eqn:E'.
  - exists s, s'. split; [by eapply (@execute_steps utc_platform)|].
    vm_compute in E. injection E as <-. split; [reflexivity|]. split; [reflexivity|].
    split; [by eapply (@execute_steps utc_platform)|].
    vm_compute in E'. injection E' as <-. discriminate.
  - vm_compute in E. injection E as <-. vm_compute in E'. discriminate.
Qed.

(** A call of the store that is rejected while a run is being recorded ends [#fire] before it takes the
    schedule out of the in-flight map: the schedule counts as running though nothing runs, and when it
    is due again it is deferred to the end of a run that has ended. *)
Theorem rejected_record_strands :
  exists s, rtc (@step utc_platform) sample_scheduler s /\ Forall (fun t => run_key t = None) (tasks s) /\
    inFlight s !! (js "a", js "one") = Some true.
Proof.
  apply (at_end_reached
    (take 8 sample_actions ++ [AResume 0 None; AReject 0; AClock 10000000; ATimer 2; AResume 0 None])).
  vm_compute. split; [repeat constructor|reflexivity].
Qed.

(** And one that is rejected in a wake ends it before it arms: the scheduler is started, no timer is
    set and nothing is under way that would set one. *)
Theorem rejected_wake_disarms :
  exists s, rtc (@step utc_platform) sample_scheduler s /\ started s = true /\ stopped s = false /\ timers s = [] /\ tasks s = [].
Proof.
  apply (at_end_reached (take 5 sample_actions ++ [AReject 0])). vm_compute. by split_and!.
Qed.
