(* ===== verification/Split.v ===== *)
(** * Splitting a reply into chunks: [channels/split.ts]

    The grapheme segmenter is the platform's ([Intl.Segmenter]) and is a parameter: the
    offsets at which the segments of a string begin, or nothing where there is none.
    Nothing is assumed about those offsets. *)
From S2P Require Import Prelude UString.
Local Open Scope Z_scope.

Class Segmenter := graphemeSegmenter : option (ustring -> list Z).

Definition GRAPHEME_WINDOW : Z := 32.
Definition FENCE_RESERVE : Z := 8.

(** [Math.floor(n * MIN_FILL)]; the product of an integer in range and the double 0.6 is
    rounded to the integer itself when 5 divides it. *)
Definition min_fill (n : Z) : Z := n * 3 / 5.

Definition isBreakable (c : Z) : bool :=
  (c =? 0x20) || (c =? 0x09) || (c =? 0x0a) || (c =? 0x0d) || (c =? 0xa0).

(** [FENCE_LINE.test(line)]: up to three spaces, then three backticks or tildes. *)
Fixpoint skip_spaces (n : nat) (s : ustring) : ustring :=
  match n, s with
  | S n', c :: s' => if c =? 32 then skip_spaces n' s' else s
  | _, _ => s
  end.

Definition FENCE_LINE (line : ustring) : bool :=
  let s := skip_spaces 3 line in starts_with (js "```") s || starts_with (js "~~~") s.

Definition togglesFence (body : ustring) (wasOpen : bool) : bool :=
  foldl (fun (open : bool) line => if FENCE_LINE line then negb open else open)
    wasOpen (split_on 10 body).

Definition closeFence (piece : ustring) : ustring :=
  if ends_with [10] piece then piece ++ js "```" else piece ++ [10] ++ js "```".

(** [text.lastIndexOf(p, from)]; a negative [from] counts as 0, and -1 is no match. *)
Fixpoint last_index_from (p text : ustring) (from : nat) : Z :=
  if starts_with p (drop from text) then Z.of_nat from
  else match from with O => -1 | S n => last_index_from p text n end.

Definition lastIndexOf (p text : ustring) (from : Z) : Z :=
  last_index_from p text (Z.to_nat from).

Definition char_at (text : ustring) (i : Z) : Z := default (-1) (at_index text i).

Section Split.
Context `{Segmenter}.

(** The [for] over the segments: the last offset at or below [limit]. *)
Fixpoint best_segment (windowStart limit best : Z) (starts : list Z) : Z :=
  match starts with
  | [] => best
  | i :: rest =>
      if limit <? windowStart + i then best
      else best_segment windowStart limit (windowStart + i) rest
  end.

Definition graphemeFloor (text : ustring) (start limit : Z) : Z :=
  let windowStart := Z.max start (limit - GRAPHEME_WINDOW) in
  match graphemeSegmenter with
  | None =>
      let previous := char_at text (limit - 1) in
      let next := char_at text limit in
      let splitsPair := (0xd800 <=? previous) && (previous <=? 0xdbff) &&
                        (0xdc00 <=? next) && (next <=? 0xdfff) in
      if splitsPair then limit - 1 else limit
  | Some segment =>
      let best := best_segment windowStart limit windowStart
                    (segment (slice text windowStart (limit + GRAPHEME_WINDOW))) in
      if best <=? windowStart then limit else best
  end.

(** [for (let i = limit - 1; i >= floor; i -= 1)]. *)
Fixpoint last_breakable (text : ustring) (i floor : Z) (n : nat) : option Z :=
  match n with
  | O => None
  | S n' =>
      if i <? floor then None
      else if isBreakable (char_at text i) then Some i
      else last_breakable text (i - 1) floor n'
  end.

Definition breakPoint (text : ustring) (start limit : Z) : Z :=
  let floor := start + min_fill (limit - start) in
  let paragraph := lastIndexOf [10; 10] text (limit - 1) in
  if floor <=? paragraph then paragraph
  else
    let line := lastIndexOf [10] text (limit - 1) in
    if floor <=? line then line
    else
      match last_breakable text (limit - 1) floor (Z.to_nat (limit - floor)) with
      | Some i => i
      | None => graphemeFloor text start limit
      end.

(** The [while] that skips break characters at the head of the next chunk. *)
Fixpoint skip_breaks (n : nat) (text : ustring) (cursor : Z) : Z :=
  match n with
  | O => cursor
  | S n' =>
      if (cursor <? zlen text) && isBreakable (char_at text cursor)
      then skip_breaks n' text (cursor + 1)
      else cursor
  end.

Definition FENCE_OPEN : ustring := js "```" ++ [10].

(** The main loop. [None] is a loop that has not ended within the fuel. *)
Fixpoint split_loop (fuel : nat) (text : ustring) (budget : Z) (fenceAware : bool)
    (cursor : Z) (openFence : bool) : option (list ustring) :=
  if negb (cursor <? zlen text) then Some []
  else
    let prefix := if openFence then FENCE_OPEN else [] in
    let room := budget - zlen prefix in
    let remaining := zlen text - cursor in
    if remaining <=? room then
      let rest := slice_from text cursor in
      let stillOpen := fenceAware && togglesFence rest openFence in
      let tail := prefix ++ rest in
      Some [if stillOpen then closeFence tail else tail]
    else
      let cut := breakPoint text cursor (cursor + room) in
      let body := slice text cursor cut in
      let nowOpen := if fenceAware then togglesFence body openFence else false in
      let piece := prefix ++ body in
      let chunk := if nowOpen then closeFence piece else piece in
      match fuel with
      | O => None
      | S fuel' =>
          rest ← split_loop fuel' text budget fenceAware (skip_breaks (length text) text cut)
                   nowOpen;
          Some (chunk :: rest)
      end.

(** [maxChars] is an integer here; the code floors it first. *)
Definition splitMessage (fuel : nat) (text : ustring) (maxChars : Z) (fenceAware : bool)
  : option (list ustring) :=
  let max := Z.max 1 maxChars in
  if zlen text <=? max then Some [text]
  else
    let budget := if fenceAware then Z.max 1 (max - FENCE_RESERVE) else max in
    split_loop fuel text budget fenceAware 0 false.
End Split.

(** ** Fences *)

Lemma split_on_cut sep a b :
  split_on sep (a ++ sep :: b) = split_on sep a ++ split_on sep b.
Proof.
  induction a as [|c a IH]; simpl; [by rewrite Z.eqb_refl|].
  destruct (Z.eqb_spec c sep); rewrite IH; [done|].
  destruct (split_on sep a) as [|w ws] eqn:E; [by apply split_on_nonempty in E|done].
Qed.

Lemma togglesFence_cut a b open :
  togglesFence (a ++ 10 :: b) open = togglesFence b (togglesFence a open).
Proof. unfold togglesFence. by rewrite split_on_cut, foldl_app. Qed.

Lemma starts_with_cons c s : starts_with [c] s = true -> exists s', s = c :: s'.
Proof.
  destruct s as [|x s]; simpl; [done|]. rewrite andb_true_r. intros ->%Z.eqb_eq. by exists s.
Qed.

Lemma ends_with_newline piece : ends_with [10] piece = true -> exists p, piece = p ++ [10].
Proof.
  unfold ends_with. simpl rev. intros H. apply starts_with_cons in H as [s Hs].
  exists (rev s). rewrite <- (rev_involutive piece), Hs. done.
Qed.

(** Closing a piece that leaves a fence open balances it. *)
Lemma closeFence_toggles piece open :
  togglesFence (closeFence piece) open = negb (togglesFence piece open).
Proof.
  unfold closeFence. destruct (ends_with [10] piece) eqn:E.
  - apply ends_with_newline in E as [p ->]. rewrite <- app_assoc.
    change ([10] ++ js "```") with (10 :: js "```"). rewrite !togglesFence_cut. done.
  - change ([10] ++ js "```") with (10 :: js "```"). by rewrite togglesFence_cut.
Qed.

Lemma closeFence_length piece : zlen (closeFence piece) <= zlen piece + 4.
Proof. unfold closeFence. case_match; rewrite !length_app; simpl; lia. Qed.

(** The delimiters put around the authored pieces, and nothing else. *)
Definition fence_prefix (open : bool) : ustring := if open then FENCE_OPEN else [].

Fixpoint decorate (fenceAware open : bool) (bodies : list ustring) : list ustring :=
  match bodies with
  | [] => []
  | body :: rest =>
      let nowOpen := fenceAware && togglesFence body open in
      (if nowOpen then closeFence (fence_prefix open ++ body) else fence_prefix open ++ body)
        :: decorate fenceAware nowOpen rest
  end.

Lemma prefix_toggles open body :
  togglesFence (fence_prefix open ++ body) false = togglesFence body open.
Proof.
  destruct open; [|done]. unfold fence_prefix, FENCE_OPEN. rewrite <- app_assoc.
  change ([10] ++ body) with (10 :: body). by rewrite togglesFence_cut.
Qed.

Lemma decorate_balanced open bodies :
  Forall (fun c => togglesFence c false = false) (decorate true open bodies).
Proof.
  revert open. induction bodies as [|b bodies IH]; intros open; simpl; constructor; [|apply IH].
  destruct (togglesFence b open) eqn:E.
  - by rewrite closeFence_toggles, prefix_toggles, E.
  - by rewrite prefix_toggles.
Qed.

(** ** Cuts *)

Lemma char_at_lookup text i : 0 <= i -> char_at text i = default (-1) (text !! Z.to_nat i).
Proof. intros Hi. unfold char_at, at_index. destruct (Z.ltb_spec i 0); [lia|done]. Qed.

Lemma last_index_from_spec p text n :
  last_index_from p text n = -1 \/
  (0 <= last_index_from p text n <= Z.of_nat n /\
   starts_with p (drop (Z.to_nat (last_index_from p text n)) text) = true).
Proof.
  induction n as [|n IH]; cbn [last_index_from].
  - destruct (starts_with p (drop 0 text)) eqn:E; [right|by left]. split; [lia|done].
  - destruct (starts_with p (drop (S n) text)) eqn:E.
    + right. split; [lia|]. by rewrite Nat2Z.id.
    + destruct IH as [IH|[IH1 IH2]]; [by left|right]. split; [lia|done].
Qed.

Lemma starts_with_char c p text i :
  0 <= i -> starts_with (c :: p) (drop (Z.to_nat i) text) = true -> char_at text i = c.
Proof.
  intros Hi H. rewrite char_at_lookup by done.
  destruct (drop (Z.to_nat i) text) as [|x rest] eqn:E; [done|].
  apply andb_true_iff in H as [->%Z.eqb_eq _].
  assert (drop (Z.to_nat i) text !! 0%nat = Some x) as Hx by (by rewrite E).
  rewrite lookup_drop, Nat.add_0_r in Hx. by rewrite Hx.
Qed.

Section Cuts.
Context `{Segmenter}.

Lemma last_breakable_spec text i floor n j :
  last_breakable text i floor n = Some j -> floor <= j <= i /\ isBreakable (char_at text j) = true.
Proof.
  revert i. induction n as [|n IH]; intros i Hj; simpl in Hj; [done|].
  destruct (Z.ltb_spec i floor); [done|].
  destruct (isBreakable (char_at text i)) eqn:E.
  - injection Hj as <-. split; [lia|done].
  - apply IH in Hj. intuition lia.
Qed.

Lemma best_segment_bounds windowStart limit best starts :
  best <= limit -> best_segment windowStart limit best starts <= limit.
Proof.
  revert best. induction starts as [|i starts IH]; intros best Hb; simpl; [done|].
  destruct (Z.ltb_spec limit (windowStart + i)); [done|]. apply IH. lia.
Qed.

(** One more unit of room is needed where there is no segmenter, to step back off a
    surrogate pair. *)
Definition spare : Z := match graphemeSegmenter with Some _ => 0 | None => 1 end.

Lemma spare_nonneg : 0 <= spare.
Proof. unfold spare. destruct graphemeSegmenter; lia. Qed.

Lemma graphemeFloor_bounds text start limit :
  start + spare < limit -> start < graphemeFloor text start limit <= limit.
Proof.
  unfold graphemeFloor, spare. destruct graphemeSegmenter as [segment|]; intros Hl.
  - cbv zeta. set (ws := Z.max start (limit - GRAPHEME_WINDOW)).
    assert (start <= ws <= limit) by (unfold ws, GRAPHEME_WINDOW; lia).
    pose proof (best_segment_bounds ws limit ws (segment (slice text ws (limit + GRAPHEME_WINDOW)))
      ltac:(lia)).
    destruct (Z.leb_spec (best_segment ws limit ws
      (segment (slice text ws (limit + GRAPHEME_WINDOW)))) ws); lia.
  - case_match; lia.
Qed.

Lemma min_fill_bounds n : 0 < n -> 0 <= min_fill n < n.
Proof.
  intros Hn. unfold min_fill. split; [apply Z.div_pos; lia|].
  apply Z.div_lt_upper_bound; lia.
Qed.

Lemma breakPoint_spec text start limit :
  0 <= start -> start + spare < limit ->
  start <= breakPoint text start limit <= limit /\
  (breakPoint text start limit = start -> isBreakable (char_at text start) = true).
Proof.
  intros Hs Hl. assert (0 <= spare) by (apply spare_nonneg).
  pose proof (min_fill_bounds (limit - start) ltac:(lia)) as Hm. unfold breakPoint. cbv zeta.
  set (floor := start + min_fill (limit - start)) in *.
  destruct (Z.leb_spec floor (lastIndexOf [10; 10] text (limit - 1))) as [Hp|Hp].
  { unfold lastIndexOf in *.
    destruct (last_index_from_spec [10; 10] text (Z.to_nat (limit - 1))) as [E|[E1 E2]]; [lia|].
    split; [lia|]. intros Heq. apply starts_with_char in E2; [|lia]. rewrite Heq in E2.
    by rewrite E2. }
  destruct (Z.leb_spec floor (lastIndexOf [10] text (limit - 1))) as [Hq|Hq].
  { unfold lastIndexOf in *.
    destruct (last_index_from_spec [10] text (Z.to_nat (limit - 1))) as [E|[E1 E2]]; [lia|].
    split; [lia|]. intros Heq. apply starts_with_char in E2; [|lia]. rewrite Heq in E2.
    by rewrite E2. }
  destruct (last_breakable _ _ _ _) as [i|] eqn:E.
  - apply last_breakable_spec in E as [Hi Hb]. split; [lia|]. by intros ->.
  - pose proof (graphemeFloor_bounds text start limit Hl). lia.
Qed.

Lemma skip_breaks_spec n text cursor :
  0 <= cursor <= zlen text -> zlen text - cursor <= Z.of_nat n ->
  let c := skip_breaks n text cursor in
  cursor <= c <= zlen text /\
  Forall (fun x => isBreakable x = true) (slice text cursor c) /\
  (cursor < zlen text -> isBreakable (char_at text cursor) = true -> cursor < c).
Proof.
  revert cursor. induction n as [|n IH]; intros cursor Hc Hn; cbn [skip_breaks]; cbv zeta.
  - split; [lia|]. split; [|lia]. rewrite slice_within, Z.sub_diag by lia. constructor.
  - destruct ((cursor <? zlen text) && isBreakable (char_at text cursor)) eqn:E.
    + apply andb_true_iff in E as [Hlt%Z.ltb_lt Hb].
      destruct (IH (cursor + 1) ltac:(lia) ltac:(lia)) as (Hr & Hall & _). cbv zeta in Hr, Hall.
      split; [lia|]. split; [|lia].
      assert (slice text cursor (skip_breaks n text (cursor + 1)) =
        char_at text cursor :: slice text (cursor + 1) (skip_breaks n text (cursor + 1))) as ->.
      { set (c := skip_breaks n text (cursor + 1)) in *.
        rewrite !slice_within, char_at_lookup by lia.
        destruct (text !! Z.to_nat cursor) as [x|] eqn:Ex; [|apply lookup_ge_None in Ex; lia].
        rewrite (drop_S text x _ Ex). replace (Z.to_nat (c - cursor))
          with (S (Z.to_nat (c - (cursor + 1)))) by lia. simpl. do 3 f_equal. lia. }
      by constructor.
    + split; [lia|]. split; [unfold slice; rewrite Z.sub_diag; constructor|].
      intros Hlt Hb. rewrite Hb, andb_true_r in E. apply Z.ltb_ge in E. lia.
Qed.
End Cuts.

(** ** The loop *)

Definition pieces_of (text : ustring) (pieces : list (ustring * ustring)) : Prop :=
  text = concat (map (fun p => p.1 ++ p.2) pieces) /\
  Forall (fun p => Forall (fun c => isBreakable c = true) p.2) pieces.

(** What closing a fence may add. *)
Definition close_cost (fenceAware : bool) : Z := if fenceAware then 4 else 0.

Section Loop.
Context `{Segmenter}.

(** What the loop produces from a cursor: the rest of the text cut into bodies, with only
    break characters between them, each decorated and within the cap. *)
Definition loop_result (text : ustring) (budget : Z) (fenceAware : bool) (cursor : Z)
    (openFence : bool) (chunks : list ustring) : Prop :=
  exists pieces, pieces_of (slice_from text cursor) pieces /\
    chunks = decorate fenceAware openFence (map fst pieces) /\
    Forall (fun c => zlen c <= budget + close_cost fenceAware) chunks.

Lemma decorated_length fenceAware (open now : bool) body budget :
  (fenceAware = false -> open = false /\ now = false) ->
  zlen body <= budget - zlen (fence_prefix open) ->
  zlen (if now then closeFence (fence_prefix open ++ body) else fence_prefix open ++ body)
    <= budget + close_cost fenceAware.
Proof.
  intros Hf Hb. pose proof (closeFence_length (fence_prefix open ++ body)) as Hc.
  rewrite length_app in Hc. unfold close_cost. destruct now; [|rewrite length_app; destruct fenceAware; lia].
  destruct fenceAware; [lia|]. by destruct Hf.
Qed.

Lemma split_loop_spec fuel text budget (fenceAware : bool) cursor (openFence : bool) :
  spare < budget - close_cost fenceAware ->
  (fenceAware = false -> openFence = false) ->
  0 <= cursor <= zlen text -> zlen text - cursor <= Z.of_nat fuel ->
  exists chunks, split_loop fuel text budget fenceAware cursor openFence = Some chunks /\
    loop_result text budget fenceAware cursor openFence chunks.
Proof.
  intros Hbud. revert cursor openFence. induction fuel as [|fuel IH];
    intros cursor openFence Hopen Hcur Hfuel; cbn [split_loop];
    fold (fence_prefix openFence).
  { destruct (Z.ltb_spec cursor (zlen text)); [lia|]. cbn [negb]. exists []. split; [done|].
    exists []. split; [|done]. split; [|done].
    rewrite slice_from_nonneg by lia. apply drop_ge. lia. }
  assert (0 <= spare) by (apply spare_nonneg).
  assert (zlen (fence_prefix openFence) <= close_cost fenceAware) as Hpre.
  { destruct openFence; [|destruct fenceAware; simpl; lia].
    destruct fenceAware; [simpl; lia|]. discriminate (Hopen eq_refl). }
  destruct (Z.ltb_spec cursor (zlen text)) as [Hin|Hout]; cbn [negb].
  2: { exists []. split; [done|]. exists []. split; [|done]. split; [|done].
       rewrite slice_from_nonneg by lia. apply drop_ge. lia. }
  assert (fenceAware = false -> openFence = false /\
    fenceAware && togglesFence (slice_from text cursor) openFence = false) as Hlast.
  { intros ->. split; [by apply Hopen|done]. }
  destruct (Z.leb_spec (zlen text - cursor) (budget - zlen (fence_prefix openFence))) as [Hfit|Hfit].
  - eexists. split; [done|]. exists [(slice_from text cursor, [])].
    split; [split; [simpl; by rewrite !app_nil_r|repeat constructor]|]. split; [done|].
    constructor; [|done]. apply decorated_length; [done|].
    rewrite <- slice_to_end, slice_length by lia. lia.
  - set (limit := cursor + (budget - zlen (fence_prefix openFence))) in *.
    assert (cursor + spare < limit <= zlen text) as Hlimit by (unfold limit; lia).
    destruct (breakPoint_spec text cursor limit) as [Hcut Hstuck]; [lia|lia|].
    set (cut := breakPoint text cursor limit) in *.
    destruct (skip_breaks_spec (length text) text cut ltac:(lia) ltac:(lia))
      as (Hskip & Hgap & Hmove). cbv zeta in Hskip, Hgap.
    set (next := skip_breaks (length text) text cut) in *.
    assert (cursor < next) as Hprog.
    { destruct (Z.eq_dec cut cursor) as [Heq|]; [|lia]. rewrite Heq in *.
      apply Hmove; [lia|]. by apply Hstuck. }
    set (body := slice text cursor cut).
    assert ((if fenceAware then togglesFence body openFence else false) =
      fenceAware && togglesFence body openFence) as -> by (by destruct fenceAware).
    destruct (IH next (fenceAware && togglesFence body openFence)) as (chunks & Hrun & Hres);
      [by intros ->|lia|lia|].
    rewrite Hrun. eexists. split; [done|].
    destruct Hres as (pieces & [Htext Hgaps] & Hdec & Hlen).
    exists ((body, slice text cut next) :: pieces). split; [split|split].
    + cbn [map concat fst snd]. rewrite <- Htext.
      rewrite <- !slice_to_end by lia. unfold body. rewrite <- app_assoc.
      rewrite <- (slice_split text cut next) by lia. apply slice_split; lia.
    + by constructor.
    + cbn [map decorate fst]. by rewrite Hdec.
    + constructor; [|done]. apply decorated_length.
      * intros Hf. split; [by apply Hopen|by rewrite Hf].
      * unfold body. rewrite slice_length by lia. lia.
Qed.
End Loop.

(** The narrowest cap the loop can work with: a fenced chunk spends eight units on the
    reserve and four on the reopened fence. *)
Definition narrowest `{Segmenter} (fenceAware : bool) : Z :=
  (if fenceAware then 13 else 1) + spare.

Lemma splitMessage_long `{Segmenter} fuel text maxChars (fenceAware : bool) :
  narrowest fenceAware <= Z.max 1 maxChars -> Z.max 1 maxChars < zlen text ->
  (length text <= fuel)%nat ->
  exists chunks pieces, splitMessage fuel text maxChars fenceAware = Some chunks /\
    pieces_of text pieces /\ chunks = decorate fenceAware false (map fst pieces) /\
    Forall (fun c => zlen c <= Z.max 1 maxChars) chunks.
Proof.
  intros Hn Hlen Hfuel. pose proof spare_nonneg.
  unfold splitMessage, narrowest, FENCE_RESERVE in *. cbv zeta.
  destruct (Z.leb_spec (zlen text) (Z.max 1 maxChars)); [lia|].
  set (budget := if fenceAware then Z.max 1 (Z.max 1 maxChars - 8) else Z.max 1 maxChars).
  assert (spare < budget - close_cost fenceAware /\
          budget + close_cost fenceAware <= Z.max 1 maxChars) as [Hb1 Hb2]
    by (unfold budget, close_cost; destruct fenceAware; lia).
  destruct (split_loop_spec fuel text budget fenceAware 0 false Hb1 ltac:(done)
    ltac:(lia) ltac:(lia)) as (chunks & Hrun & pieces & Hp & Hdec & Hl).
  exists chunks, pieces. split; [done|]. rewrite slice_from_nonneg, drop_0 in Hp by lia.
  split; [done|]. split; [done|]. eapply Forall_impl; [exact Hl|]. simpl. lia.
Qed.

(** A reply of any length is split: within the cap the channel declared, in chunks that
    each fit it, whatever the segmenter answers; a reply that already fits is one chunk.
    The loop ends after at most as many rounds as the text has code units. *)
Theorem splitMessage_chunks_fit `{Segmenter} text maxChars fenceAware :
  narrowest fenceAware <= Z.max 1 maxChars ->
  exists chunks, splitMessage (length text) text maxChars fenceAware = Some chunks /\
    chunks <> [] /\ Forall (fun c => zlen c <= Z.max 1 maxChars) chunks.
Proof.
  intros Hn. destruct (Z.le_gt_cases (zlen text) (Z.max 1 maxChars)) as [Hs|Hl].
  - exists [text]. unfold splitMessage. cbv zeta. apply Z.leb_le in Hs as Hs'. rewrite Hs'.
    split; [done|]. split; [done|]. by constructor.
  - destruct (splitMessage_long (length text) text maxChars fenceAware Hn Hl ltac:(lia))
      as (chunks & pieces & Hrun & [Ht _] & Hd & Hlen).
    exists chunks. split; [done|]. split; [|done]. intros ->. destruct pieces; [|done].
    rewrite Ht in Hl. simpl in Hl. lia.
Qed.

(** Not one authored character is altered, added or reordered: the text is the chunk
    bodies in order with only break characters between them, and a chunk is its body, or
    its body inside the fence delimiters that were reopened before it or closed after it. *)
Theorem splitMessage_preserves_text `{Segmenter} fuel text maxChars fenceAware :
  narrowest fenceAware <= Z.max 1 maxChars -> (length text <= fuel)%nat ->
  exists chunks, splitMessage fuel text maxChars fenceAware = Some chunks /\
    (chunks = [text] \/
     exists pieces, text = concat (map (fun p => p.1 ++ p.2) pieces) /\
       Forall (fun p => Forall (fun c => isBreakable c = true) p.2) pieces /\
       chunks = decorate fenceAware false (map fst pieces)).
Proof.
  intros Hn Hf. destruct (Z.le_gt_cases (zlen text) (Z.max 1 maxChars)) as [Hs|Hl].
  - exists [text]. unfold splitMessage. cbv zeta. apply Z.leb_le in Hs. rewrite Hs. auto.
  - destruct (splitMessage_long fuel text maxChars fenceAware Hn Hl Hf)
      as (chunks & pieces & Hrun & [Ht Hg] & Hd & Hlen).
    exists chunks. split; [done|]. right. eauto.
Qed.

(** No chunk of a split reply leaves a code fence open: in every chunk of a fence-aware
    split the fence lines balance, so neither it nor the next renders as the other. *)
Theorem splitMessage_fences_balanced `{Segmenter} fuel text maxChars :
  narrowest true <= Z.max 1 maxChars -> Z.max 1 maxChars < zlen text ->
  (length text <= fuel)%nat ->
  exists chunks, splitMessage fuel text maxChars true = Some chunks /\
    Forall (fun c => togglesFence c false = false) chunks.
Proof.
  intros Hn Hl Hf. destruct (splitMessage_long fuel text maxChars true Hn Hl Hf)
    as (chunks & pieces & Hrun & _ & -> & _).
  eexists. split; [exact Hrun|]. apply decorate_balanced.
Qed.

(** ** Concrete replies *)

(** Every code unit a segment of its own. *)
#[local] Instance unit_segmenter : Segmenter :=
  Some (fun s => map Z.of_nat (seq 0 (length s))).

Definition fenced_reply : ustring :=
  js "Look:" ++ [10] ++ js "```ts" ++ [10] ++ js "const a = 1" ++ [10] ++ js "const b = 2" ++ [10]
    ++ js "```" ++ [10] ++ js "done".

Lemma splitMessage_chunks_fit_witness :
  exists chunks, splitMessage (length fenced_reply) fenced_reply 24 true = Some chunks /\
    (length chunks = 4)%nat /\ Forall (fun c => zlen c <= 24) chunks.
Proof.
  destruct (@splitMessage_chunks_fit unit_segmenter fenced_reply 24 true
    ltac:(vm_compute; discriminate)) as (chunks & Hrun & _ & Hl).
  exists chunks. split; [exact Hrun|]. split; [|exact Hl].
  vm_compute in Hrun. injection Hrun as <-. reflexivity.
Defined.

Lemma splitMessage_preserves_text_witness :
  exists chunks, splitMessage 100 (js "one two three") 8 false = Some chunks /\
    chunks = [js "one two"; js "three"] /\
    (chunks = [js "one two three"] \/
     exists pieces, js "one two three" = concat (map (fun p => p.1 ++ p.2) pieces) /\
       Forall (fun p => Forall (fun c => isBreakable c = true) p.2) pieces /\
       chunks = decorate false false (map fst pieces)).
Proof.
  destruct (@splitMessage_preserves_text unit_segmenter 100 (js "one two three") 8 false
    ltac:(vm_compute; discriminate) ltac:(simpl; lia)) as (chunks & Hrun & Hp).
  exists chunks. split; [exact Hrun|]. split; [|exact Hp].
  vm_compute in Hrun. injection Hrun as <-. reflexivity.
Defined.

Lemma splitMessage_fences_balanced_witness :
  exists chunks, splitMessage 100 fenced_reply 24 true = Some chunks /\
    Forall (fun c => togglesFence c false = false) chunks.
Proof.
  exact (@splitMessage_fences_balanced unit_segmenter 100 fenced_reply 24
    ltac:(vm_compute; discriminate) ltac:(reflexivity) ltac:(simpl; lia)).
Defined.

(** *** A cap too narrow for a fence *)

Definition narrow_reply : ustring := js "```" ++ [10] ++ js "abcdefghijkl".

(** Below thirteen units a fence-aware split need not end: with the fence reopened
    there is no room left for text, the cut makes no progress, and the loop is still
    running after any number of rounds. *)
Theorem splitMessage_narrow_fence_diverges fuel :
  splitMessage fuel narrow_reply 12 true = None.
Proof.
  assert (forall f, split_loop f narrow_reply 4 true 4 true = None) as Hstuck.
  { induction f as [|f IH]; [reflexivity|].
    assert (split_loop (S f) narrow_reply 4 true 4 true =
      (rest ← split_loop f narrow_reply 4 true 4 true; Some ((FENCE_OPEN ++ js "```") :: rest)))
      as -> by reflexivity.
    by rewrite IH. }
  unfold splitMessage. change (zlen narrow_reply <=? Z.max 1 12) with false. cbv iota zeta.
  change (Z.max 1 (Z.max 1 12 - FENCE_RESERVE)) with 4. destruct fuel as [|f]; [reflexivity|].
  assert (exists c, split_loop (S f) narrow_reply 4 true 0 false =
    (rest ← split_loop f narrow_reply 4 true 4 true; Some (c :: rest))) as [c ->]
    by (eexists; reflexivity).
  by rewrite Hstuck.
Qed.
