(* ===== verification/DeliveryKey.v ===== *)
(** * Delivery keys: [deliveryGroup] and [deliveryKey] of [channels/outbox.ts]

    [encodeURIComponent] is the language's: it keeps the unreserved characters, writes
    every other code point as its percent-encoded UTF-8 bytes, and throws on a lone
    surrogate, which is [None] here. *)
From S2P Require Import Prelude UString.
Local Open Scope Z_scope.

(** ** encodeURIComponent *)

Definition unreserved (c : Z) : bool :=
  is_alpha c || is_digit c || (c =? 45) || (c =? 95) || (c =? 46) || (c =? 33) ||
  (c =? 126) || (c =? 42) || (c =? 39) || (c =? 40) || (c =? 41).

Definition is_high (c : Z) : bool := (0xd800 <=? c) && (c <=? 0xdbff).
Definition is_low (c : Z) : bool := (0xdc00 <=? c) && (c <=? 0xdfff).

Definition hex_digit (n : Z) : Z := if n <? 10 then 48 + n else 55 + n.
Definition percent (b : Z) : ustring := [37; hex_digit (b / 16); hex_digit (b mod 16)].

Definition utf8 (cp : Z) : list Z :=
  if cp <? 0x80 then [cp]
  else if cp <? 0x800 then [0xc0 + cp / 64; 0x80 + cp mod 64]
  else if cp <? 0x10000 then [0xe0 + cp / 4096; 0x80 + cp / 64 mod 64; 0x80 + cp mod 64]
  else [0xf0 + cp / 262144; 0x80 + cp / 4096 mod 64; 0x80 + cp / 64 mod 64; 0x80 + cp mod 64].

Definition encode_point (cp : Z) : ustring :=
  if unreserved cp then [cp] else concat (map percent (utf8 cp)).

Fixpoint encodeURIComponent (s : ustring) : option ustring :=
  match s with
  | [] => Some []
  | c :: rest =>
      if is_low c then None
      else if is_high c then
        match rest with
        | d :: rest' =>
            if is_low d then
              e ← encodeURIComponent rest';
              Some (encode_point (0x10000 + (c - 0xd800) * 1024 + (d - 0xdc00)) ++ e)
            else None
        | [] => None
        end
      else e ← encodeURIComponent rest; Some (encode_point c ++ e)
  end.

(** ** Keys *)

(** What tells one reply in a session from another: a turn, or an explicit key. *)
Inductive Discriminator :=
| ByTurn (turnId : ustring)
| ByKey (key : ustring).

Record DeliveryGroupParts := {
  sessionKey : ustring; channelId : ustring; recipient : ustring;
  discriminator : Discriminator }.

Definition SEP : Z := 124.

Definition part (value : ustring) : option ustring := encodeURIComponent value.

Definition discriminator_part (d : Discriminator) : option ustring :=
  match d with
  | ByTurn t => (fun e => js "t:" ++ e) <$> part t
  | ByKey k => (fun e => js "k:" ++ e) <$> part k
  end.

Definition deliveryGroup (p : DeliveryGroupParts) : option ustring :=
  s ← part (sessionKey p);
  c ← part (channelId p);
  r ← part (recipient p);
  d ← discriminator_part (discriminator p);
  Some (join [SEP] [s; c; r; d]).

Definition deliveryKey (groupKey : ustring) (chunkIndex : Z) : ustring :=
  groupKey ++ [SEP] ++ decimal chunkIndex.

(** ** Encoding is injective *)

(** Code units of a JavaScript string. *)
Definition is_text (s : ustring) : Prop := Forall (fun c => 0 <= c < 65536) s.

Lemma unreserved_percent c : unreserved c = true -> c <> 37 /\ c <> SEP /\ c < 128 /\ 0 <= c.
Proof.
  unfold unreserved, is_alpha, is_upper, is_digit, SEP.
  rewrite !orb_true_iff, !andb_true_iff, !Z.leb_le, !Z.eqb_eq. lia.
Qed.

Lemma hex_digit_inj a b : 0 <= a < 16 -> 0 <= b < 16 -> hex_digit a = hex_digit b -> a = b.
Proof. unfold hex_digit. intros Ha Hb. repeat case_match; bool_to_prop; lia. Qed.

Lemma percent_inj a b s t :
  0 <= a < 256 -> 0 <= b < 256 -> percent a ++ s = percent b ++ t -> a = b /\ s = t.
Proof.
  unfold percent. simpl. intros Ha Hb [= H1 H2 H3].
  pose proof (Z.mod_pos_bound a 16). pose proof (Z.mod_pos_bound b 16).
  pose proof (Z.div_mod a 16). pose proof (Z.div_mod b 16).
  apply hex_digit_inj in H1; [|lia|lia]. apply hex_digit_inj in H2; [|lia|lia]. split; [lia|done].
Qed.

Definition is_byte (b : Z) : Prop := 0 <= b < 256.

Lemma utf8_bytes cp : 0 <= cp < 0x110000 -> Forall is_byte (utf8 cp).
Proof.
  intros Hcp. unfold utf8, is_byte.
  pose proof (Z.mod_pos_bound cp 64 ltac:(lia)).
  pose proof (Z.mod_pos_bound (cp / 64) 64 ltac:(lia)).
  pose proof (Z.mod_pos_bound (cp / 4096) 64 ltac:(lia)).
  destruct (Z.ltb_spec cp 0x80); [repeat constructor; lia|].
  destruct (Z.ltb_spec cp 0x800).
  { assert (cp / 64 < 32) by (apply Z.div_lt_upper_bound; lia).
    pose proof (Z.div_pos cp 64). repeat constructor; lia. }
  destruct (Z.ltb_spec cp 0x10000).
  { assert (cp / 4096 < 16) by (apply Z.div_lt_upper_bound; lia).
    pose proof (Z.div_pos cp 4096). repeat constructor; lia. }
  assert (cp / 262144 < 5) by (apply Z.div_lt_upper_bound; lia).
  pose proof (Z.div_pos cp 262144). repeat constructor; lia.
Qed.

(** The bytes of a code point determine it, and where they end. *)
Lemma utf8_prefix_free a b s t :
  0 <= a < 0x110000 -> 0 <= b < 0x110000 -> utf8 a ++ s = utf8 b ++ t -> a = b /\ s = t.
Proof.
  intros Ha Hb H.
  assert (forall x, x = x / 64 * 64 + x mod 64 /\ x / 64 = x / 4096 * 64 + x / 64 mod 64 /\
    x / 4096 = x / 262144 * 64 + x / 4096 mod 64) as Hsplit.
  { intros x. replace 4096 with (64 * 64) by lia. replace 262144 with (64 * 64 * 64) by lia.
    rewrite <- !Z.div_div by lia.
    pose proof (Z.div_mod x 64). pose proof (Z.div_mod (x / 64) 64).
    pose proof (Z.div_mod (x / 64 / 64) 64). lia. }
  pose proof (Hsplit a) as (? & ? & ?). pose proof (Hsplit b) as (? & ? & ?).
  assert (forall x, 0 <= x -> 0 <= x / 64 /\ 0 <= x / 4096 /\ 0 <= x / 262144) as Hpos
    by (intros x Hx; split_and!; apply Z.div_pos; lia).
  pose proof (Hpos a ltac:(lia)). pose proof (Hpos b ltac:(lia)).
  assert (forall x k, 0 < k -> 0 <= x mod k < k) as Hmod by (intros; apply Z.mod_pos_bound; lia).
  pose proof (Hmod a 64). pose proof (Hmod (a / 64) 64). pose proof (Hmod (a / 4096) 64).
  pose proof (Hmod b 64). pose proof (Hmod (b / 64) 64). pose proof (Hmod (b / 4096) 64).
  unfold utf8 in H.
  destruct (Z.ltb_spec a 0x80), (Z.ltb_spec b 0x80), (Z.ltb_spec a 0x800), (Z.ltb_spec b 0x800),
    (Z.ltb_spec a 0x10000), (Z.ltb_spec b 0x10000); try lia; simpl in H;
    inversion H; (split; [lia|done]) || lia.
Qed.

Lemma percents_prefix bs bs' s t :
  Forall is_byte bs -> Forall is_byte bs' ->
  concat (map percent bs) ++ s = concat (map percent bs') ++ t ->
  exists k, bs' = bs ++ k \/ bs = bs' ++ k.
Proof.
  intros H. revert bs'. induction H as [|b bs Hb H IH]; intros bs' H' E; [by exists bs'; left|].
  destruct H' as [|b' bs' Hb' H']; [by exists (b :: bs); right|].
  cbn [map concat] in E. rewrite <- !app_assoc in E.
  apply percent_inj in E as [-> E]; [|done|done].
  destruct (IH bs' H' E) as [k [-> | ->]]; exists k; auto.
Qed.

Lemma utf8_nonempty cp : utf8 cp <> [].
Proof. unfold utf8. repeat case_match; done. Qed.

Lemma percents_head bs s :
  bs <> [] -> exists r, concat (map percent bs) ++ s = 37 :: r.
Proof. destruct bs as [|b bs]; [done|]. intros _. by eexists. Qed.

Lemma encode_point_inj a b s t :
  0 <= a < 0x110000 -> 0 <= b < 0x110000 ->
  encode_point a ++ s = encode_point b ++ t -> a = b /\ s = t.
Proof.
  intros Ha Hb E. unfold encode_point in E.
  destruct (unreserved a) eqn:Ua, (unreserved b) eqn:Ub.
  - by injection E as -> ->.
  - destruct (percents_head (utf8 b) t (utf8_nonempty b)) as [r Hr]. rewrite Hr in E.
    injection E as Ea _. apply unreserved_percent in Ua. lia.
  - destruct (percents_head (utf8 a) s (utf8_nonempty a)) as [r Hr]. rewrite Hr in E.
    injection E as Eb _. apply unreserved_percent in Ub. lia.
  - assert (a = b) as ->; [|by apply app_inv_head in E].
    destruct (percents_prefix _ _ _ _ (utf8_bytes a Ha) (utf8_bytes b Hb) E) as [k [Hk|Hk]].
    + destruct (utf8_prefix_free b a [] k Hb Ha) as [-> _]; [by rewrite app_nil_r|done].
    + destruct (utf8_prefix_free a b [] k Ha Hb) as [-> _]; [by rewrite app_nil_r|done].
Qed.

(** The code points of a string without lone surrogates. *)
Fixpoint points (s : ustring) : option (list Z) :=
  match s with
  | [] => Some []
  | c :: rest =>
      if is_low c then None
      else if is_high c then
        match rest with
        | d :: rest' =>
            if is_low d
            then ps ← points rest'; Some (0x10000 + (c - 0xd800) * 1024 + (d - 0xdc00) :: ps)
            else None
        | [] => None
        end
      else ps ← points rest; Some (c :: ps)
  end.

Lemma is_low_spec c : is_low c = true <-> 0xdc00 <= c <= 0xdfff.
Proof. unfold is_low. rewrite andb_true_iff, !Z.leb_le. lia. Qed.
Lemma is_high_spec c : is_high c = true <-> 0xd800 <= c <= 0xdbff.
Proof. unfold is_high. rewrite andb_true_iff, !Z.leb_le. lia. Qed.

Lemma encode_points s :
  encodeURIComponent s = (fun ps => concat (map encode_point ps)) <$> points s.
Proof.
  remember (length s) as n eqn:Hn. revert s Hn.
  induction n as [n IH] using (well_founded_induction Nat.lt_wf_0). intros s ->.
  destruct s as [|c rest]; [done|]. cbn [encodeURIComponent points].
  destruct (is_low c); [done|]. destruct (is_high c).
  - destruct rest as [|d rest']; [done|]. destruct (is_low d); [|done].
    rewrite (IH (length rest')) by (simpl; lia || done). by destruct (points rest').
  - rewrite (IH (length rest)) by (simpl; lia || done). by destruct (points rest).
Qed.

Lemma points_bounds s ps :
  is_text s -> points s = Some ps -> Forall (fun p => 0 <= p < 0x110000) ps.
Proof.
  remember (length s) as n eqn:Hn. revert s ps Hn.
  induction n as [n IH] using (well_founded_induction Nat.lt_wf_0). intros s ps -> Ht Hp.
  destruct s as [|c rest]; [by injection Hp as <-|]. cbn [points] in Hp.
  apply Forall_cons in Ht as [Hc Ht]. destruct (is_low c) eqn:El; [done|].
  destruct (is_high c) eqn:Eh.
  - destruct rest as [|d rest']; [done|]. destruct (is_low d) eqn:Ed; [|done].
    destruct (points rest') as [ps'|] eqn:E; [|done]. injection Hp as <-.
    apply Forall_cons in Ht as [Hd Ht]. apply is_high_spec in Eh. apply is_low_spec in Ed.
    constructor; [lia|]. apply (IH (length rest')) with rest'; [simpl; lia|done..].
  - destruct (points rest) as [ps'|] eqn:E; [|done]. injection Hp as <-.
    constructor; [lia|]. apply (IH (length rest)) with rest; [simpl; lia|done..].
Qed.

Lemma points_inj s t ps :
  is_text s -> is_text t -> points s = Some ps -> points t = Some ps -> s = t.
Proof.
  revert s t. induction ps as [|p ps IH]; intros s t Hs Ht Es Et.
  - assert (forall u, points u = Some [] -> u = []) as Hnil.
    { intros [|c u] E; [done|]. cbn [points] in E. repeat case_match; try done;
        match type of E with ?m ≫= _ = _ => by destruct m end. }
    by rewrite (Hnil s Es), (Hnil t Et).
  - assert (Hcases : forall u, is_text u -> points u = Some (p :: ps) ->
      (exists r, u = p :: r /\ p < 65536 /\ is_text r /\ points r = Some ps) \/
      (exists c d r, u = c :: d :: r /\ is_high c = true /\ is_low d = true /\ is_text r /\
         p = 0x10000 + (c - 0xd800) * 1024 + (d - 0xdc00) /\ points r = Some ps)).
    { intros [|c u] Hu E; [done|]. cbn [points] in E. apply Forall_cons in Hu as [Hc Hu].
      destruct (is_low c); [done|]. destruct (is_high c) eqn:Eh.
      - destruct u as [|d u]; [done|]. destruct (is_low d) eqn:Ed; [|done].
        destruct (points u) as [ps'|] eqn:Ep; [|done]. injection E as <- <-.
        apply Forall_cons in Hu as [Hd Hu]. right. exists c, d, u. auto 10.
      - destruct (points u) as [ps'|] eqn:Ep; [|done]. injection E as <- <-. left.
        exists u. split; [done|]. split; [lia|]. done. }
    destruct (Hcases s Hs Es) as [(r & -> & Hp & Hr & Er)|(c & d & r & -> & Hc & Hd & Hr & Hp & Er)],
      (Hcases t Ht Et) as [(r' & -> & Hp' & Hr' & Er')|(c' & d' & r' & -> & Hc' & Hd' & Hr' & Hp' & Er')];
      try apply is_high_spec in Hc; try apply is_high_spec in Hc';
      try apply is_low_spec in Hd; try apply is_low_spec in Hd'; try lia.
    + f_equal. by apply IH.
    + assert (c = c' /\ d = d') as [-> ->] by lia. do 2 f_equal. by apply IH.
Qed.

Lemma concat_encode_inj ps qs :
  Forall (fun p => 0 <= p < 0x110000) ps -> Forall (fun p => 0 <= p < 0x110000) qs ->
  concat (map encode_point ps) = concat (map encode_point qs) -> ps = qs.
Proof.
  assert (forall p r, encode_point p ++ r <> []) as Hne.
  { intros p r. unfold encode_point. destruct (unreserved p); [done|].
    destruct (percents_head (utf8 p) r (utf8_nonempty p)) as [x ->]. done. }
  intros Hp. revert qs. induction Hp as [|p ps Hp Hps IH]; intros qs Hq E; destruct Hq as [|q qs Hq Hqs].
  - done.
  - cbn [map concat] in E. by destruct (Hne q (concat (map encode_point qs))).
  - cbn [map concat] in E. by destruct (Hne p (concat (map encode_point ps))).
  - cbn [map concat] in E. apply encode_point_inj in E as [-> E]; [|done|done]. f_equal. by apply IH.
Qed.

Lemma encode_inj s t e :
  is_text s -> is_text t ->
  encodeURIComponent s = Some e -> encodeURIComponent t = Some e -> s = t.
Proof.
  intros Hs Ht Es Et. rewrite encode_points in Es, Et.
  destruct (points s) as [ps|] eqn:Ps; [|done]. destruct (points t) as [qs|] eqn:Pt; [|done].
  cbn in Es, Et. injection Es as <-. injection Et as Eq. apply (points_inj s t ps Hs Ht Ps).
  rewrite Pt. f_equal. apply concat_encode_inj; [exact (points_bounds t qs Ht Pt)|exact (points_bounds s ps Hs Ps)|done].
Qed.

(** The encoding never contains the separator. *)
Lemma hex_not_sep n : 0 <= n < 16 -> hex_digit n <> SEP.
Proof. unfold hex_digit, SEP. case_match; lia. Qed.

Lemma encode_point_no_sep cp : 0 <= cp < 0x110000 -> ~ In SEP (encode_point cp).
Proof.
  intros Hcp. unfold encode_point. destruct (unreserved cp) eqn:U.
  - apply unreserved_percent in U. intros [|[]]. lia.
  - intros Hin. apply in_concat in Hin as (w & Hw & Hin). apply in_map_iff in Hw as (b & <- & Hb).
    pose proof (utf8_bytes cp Hcp) as Hall. rewrite Forall_forall in Hall.
    apply list_elem_of_In in Hb. apply Hall in Hb. unfold is_byte in Hb.
    assert (0 <= b / 16 < 16) by (split; [apply Z.div_pos; lia|apply Z.div_lt_upper_bound; lia]).
    pose proof (Z.mod_pos_bound b 16 ltac:(lia)).
    unfold percent in Hin. simpl in Hin. destruct Hin as [H1|[H1|[H1|[]]]]; [done|..];
      by apply hex_not_sep in H1.
Qed.

Lemma encode_no_sep s e : is_text s -> encodeURIComponent s = Some e -> ~ In SEP e.
Proof.
  intros Hs E. rewrite encode_points in E. destruct (points s) as [ps|] eqn:Ep; [|done].
  injection E as <-. pose proof (points_bounds s ps Hs Ep) as Hb. intros Hin.
  apply in_concat in Hin as (w & Hw & Hin). apply in_map_iff in Hw as (p & <- & Hp).
  rewrite Forall_forall in Hb. apply list_elem_of_In in Hp. apply Hb in Hp.
  by apply encode_point_no_sep in Hin.
Qed.

(** ** Properties *)

Definition text_parts (p : DeliveryGroupParts) : Prop :=
  is_text (sessionKey p) /\ is_text (channelId p) /\ is_text (recipient p) /\
  match discriminator p with ByTurn t => is_text t | ByKey k => is_text k end.

Lemma discriminator_part_spec d e :
  match d with ByTurn t => is_text t | ByKey k => is_text k end ->
  discriminator_part d = Some e ->
  ~ In SEP e /\
  exists tag v, e = [tag; 58] ++ v /\
    match d with
    | ByTurn t => tag = 116 /\ encodeURIComponent t = Some v
    | ByKey k => tag = 107 /\ encodeURIComponent k = Some v
    end.
Proof.
  intros Ht E. destruct d as [t|k]; cbn [discriminator_part] in E; unfold part in E.
  - destruct (encodeURIComponent t) as [v|] eqn:Ev; [|done]. injection E as <-. split.
    + intros [|[|Hin]]; [done|done|]. by apply (encode_no_sep t v).
    + by exists 116, v.
  - destruct (encodeURIComponent k) as [v|] eqn:Ev; [|done]. injection E as <-. split.
    + intros [|[|Hin]]; [done|done|]. by apply (encode_no_sep k v).
    + by exists 107, v.
Qed.

Lemma deliveryGroup_parts p g :
  text_parts p -> deliveryGroup p = Some g ->
  exists s c r d, encodeURIComponent (sessionKey p) = Some s /\
    encodeURIComponent (channelId p) = Some c /\ encodeURIComponent (recipient p) = Some r /\
    discriminator_part (discriminator p) = Some d /\ split_on SEP g = [s; c; r; d].
Proof.
  intros (Hs & Hc & Hr & Hd) E. unfold deliveryGroup, part in E.
  destruct (encodeURIComponent (sessionKey p)) as [s|] eqn:Es; [|done].
  destruct (encodeURIComponent (channelId p)) as [c|] eqn:Ec; [|done].
  destruct (encodeURIComponent (recipient p)) as [r|] eqn:Er; [|done].
  destruct (discriminator_part (discriminator p)) as [d|] eqn:Ed; [|done].
  apply (inj Some) in E as <-.
  exists s, c, r, d. do 4 (split; [done|]). apply split_on_join; [done|].
  repeat constructor; [exact (encode_no_sep _ _ Hs Es)|exact (encode_no_sep _ _ Hc Ec)|
    exact (encode_no_sep _ _ Hr Er)|exact (proj1 (discriminator_part_spec _ _ Hd Ed))].
Qed.

(** Two replies share a delivery group only if they are the same reply: equal group
    keys have equal session, channel and recipient and the same turn or the same explicit
    key - whatever separators, colons or non-ASCII text the components contain - so a
    second reply is never dropped as a replay of a first. *)
Theorem deliveryGroup_injective p q g :
  text_parts p -> text_parts q ->
  deliveryGroup p = Some g -> deliveryGroup q = Some g -> p = q.
Proof.
  intros Hp Hq Ep Eq.
  destruct (deliveryGroup_parts p g Hp Ep) as (s & c & r & d & Es & Ec & Er & Ed & Hg).
  destruct (deliveryGroup_parts q g Hq Eq) as (s' & c' & r' & d' & Es' & Ec' & Er' & Ed' & Hg').
  rewrite Hg in Hg'. injection Hg' as <- <- <- <-.
  destruct Hp as (Ps & Pc & Pr & Pd), Hq as (Qs & Qc & Qr & Qd).
  destruct p as [ps pc pr pd], q as [qs qc qr qd]. cbn in *.
  f_equal; [by eapply encode_inj..|].
  destruct (discriminator_part_spec _ _ Pd Ed) as (_ & t1 & v1 & -> & H1).
  destruct (discriminator_part_spec _ _ Qd Ed') as (_ & t2 & v2 & E2 & H2).
  injection E2 as <- <-.
  destruct pd, qd; destruct H1 as [-> H1], H2 as [E2 H2]; try done; f_equal;
    by eapply encode_inj.
Qed.

Definition tg_parts : DeliveryGroupParts :=
  {| sessionKey := js "agent:main|x"; channelId := js "tg"; recipient := js "a|b:1";
     discriminator := ByTurn (js "t1") |}.

Lemma deliveryGroup_injective_witness :
  exists g, deliveryGroup tg_parts = Some g /\ g = js "agent%3Amain%7Cx|tg|a%7Cb%3A1|t:t1" /\
    forall q, text_parts q -> deliveryGroup q = Some g -> tg_parts = q.
Proof.
  exists (js "agent%3Amain%7Cx|tg|a%7Cb%3A1|t:t1"). split; [vm_compute; reflexivity|].
  split; [reflexivity|]. intros q Hq Eq.
  refine (deliveryGroup_injective tg_parts q _ _ Hq _ Eq); [|vm_compute; reflexivity].
  unfold text_parts, is_text. cbn. split_and!; repeat constructor; lia.
Defined.

Lemma digits_no_sep n : 0 <= n -> ~ In SEP (decimal n).
Proof.
  intros Hn. destruct (decimal_spec n Hn) as (_ & H & _). rewrite Forall_forall in H.
  intros Hin. apply list_elem_of_In in Hin. apply H in Hin. unfold SEP in Hin. lia.
Qed.

(** The last separator of a key ends its group. *)
Lemma cut_at_last_sep (g g' d d' : ustring) :
  ~ In SEP d -> ~ In SEP d' -> g ++ SEP :: d = g' ++ SEP :: d' -> g = g' /\ d = d'.
Proof.
  intros Hd Hd' E. assert (rev d ++ SEP :: rev g = rev d' ++ SEP :: rev g') as E'.
  { apply (f_equal (@rev Z)) in E. rewrite !rev_app_distr in E. simpl in E.
    by rewrite <- !app_assoc in E. }
  assert (Hr : ~ In SEP (rev d)) by (by rewrite <- in_rev).
  assert (Hr' : ~ In SEP (rev d')) by (by rewrite <- in_rev).
  revert E'. generalize dependent (rev d). intros a Ha. generalize dependent (rev d'). intros b Hb E'.
  assert (a = b /\ rev g = rev g') as [_ Hg].
  { revert b Hb E'. induction a as [|x a IH]; intros [|y b] Hb E'; simpl in *.
    - by injection E' as ->.
    - injection E' as <- _. by destruct Hb; left.
    - injection E' as -> _. by destruct Ha; left.
    - injection E' as -> E'. destruct (IH ltac:(tauto) b ltac:(tauto) E') as [-> ->]. done. }
  assert (g = g') as -> by (by rewrite <- (rev_involutive g), Hg, rev_involutive).
  split; [done|]. apply app_inv_head in E. by injection E.
Qed.

Lemma deliveryKey_inj g g' i j :
  0 <= i -> 0 <= j -> deliveryKey g i = deliveryKey g' j -> g = g' /\ i = j.
Proof.
  intros Hi Hj E. unfold deliveryKey in E.
  apply cut_at_last_sep in E as [-> Hd]; [|by apply digits_no_sep..].
  split; [done|]. by apply decimal_inj.
Qed.

(** A dedupe key identifies one chunk of one reply: two replies that produce the same key
    have the same session, channel and recipient, the same turn or the same explicit key, and
    the chunk has the same index - whatever separators, colons or non-ASCII text they hold. So
    no second reply, and no other chunk, is ever dropped as a replay. *)
Theorem dedupeKey_identifies p q g g' i j :
  text_parts p -> text_parts q -> 0 <= i -> 0 <= j ->
  deliveryGroup p = Some g -> deliveryGroup q = Some g' ->
  deliveryKey g i = deliveryKey g' j -> p = q /\ i = j.
Proof.
  intros Hp Hq Hi Hj Ep Eq E. destruct (deliveryKey_inj g g' i j Hi Hj E) as [<- ->].
  split; [|done]. by apply (deliveryGroup_injective p q g).
Qed.

Lemma dedupeKey_identifies_witness :
  let g := js "agent%3Amain%7Cx|tg|a%7Cb%3A1|t:t1" in
  deliveryGroup tg_parts = Some g /\ deliveryKey g 12 = g ++ js "|12" /\
  forall q g' j, text_parts q -> 0 <= j -> deliveryGroup q = Some g' ->
    deliveryKey g 12 = deliveryKey g' j -> tg_parts = q /\ 12 = j.
Proof.
  cbv zeta. split; [by vm_compute|]. split; [by vm_compute|]. intros q g' j Hq Hj Eq E.
  assert (Hp : text_parts tg_parts)
    by (unfold text_parts, is_text; cbn; split_and!; repeat constructor; lia).
  assert (Hg : deliveryGroup tg_parts = Some (js "agent%3Amain%7Cx|tg|a%7Cb%3A1|t:t1"))
    by (by vm_compute).
  exact (dedupeKey_identifies tg_parts q _ g' 12 j Hp Hq ltac:(lia) Hj Hg Eq E).
Defined.
