(* ===== verification/OutboxStore.v ===== *)
(** * The outbox table: [OutboxStore] in [store/store.ts], its SQL in [store/sqlite/store.ts]

    Rows in the order of their ids. Timestamps are milliseconds; [ts] is the store's own
    clock, which only stamps [created_at] and [updated_at]. *)
From S2P Require Import Prelude UString.
Local Open Scope Z_scope.

Inductive DeliveryStatus := Pending | Inflight | Sent | Failed.

#[export] Instance DeliveryStatus_eq_dec : EqDecision DeliveryStatus.
Proof. solve_decision. Defined.

Record DeliveryAttachment := { path : ustring; mimeType : ustring }.

#[export] Instance DeliveryAttachment_eq_dec : EqDecision DeliveryAttachment.
Proof. solve_decision. Defined.

(** What the caller supplies, and no update changes. *)
Record EnqueueDelivery := {
  agentId : ustring; dedupeKey : ustring; groupKey : ustring; sessionKey : ustring;
  turnId : option ustring; channelId : ustring; recipient : ustring;
  thread : option ustring; chunkIndex : Z; chunkTotal : Z; body : ustring;
  attachment : option DeliveryAttachment; enqueuedFor : option Z }.

#[export] Instance EnqueueDelivery_eq_dec : EqDecision EnqueueDelivery.
Proof. solve_decision. Defined.

Record ErrorDetail := { error_code : string; error_message : ustring }.

#[export] Instance ErrorDetail_eq_dec : EqDecision ErrorDetail.
Proof. solve_decision. Defined.

Record DeliveryRecord := {
  id : Z; delivery : EnqueueDelivery; status : DeliveryStatus; attempts : Z;
  nextAttemptAt : Z; uncertain : bool; providerMessageId : option ustring;
  error : option ErrorDetail; createdAt : Z; updatedAt : Z }.

#[export] Instance DeliveryRecord_eq_dec : EqDecision DeliveryRecord.
Proof. solve_decision. Defined.

Record Outbox := { rows : list DeliveryRecord; next_id : Z }.

(** ** Statements *)

Definition same_key (agent key : ustring) (r : DeliveryRecord) : bool :=
  bool_decide (agentId (delivery r) = agent) && bool_decide (dedupeKey (delivery r) = key).

Definition byDedupeKey (agent key : ustring) (db : Outbox) : option DeliveryRecord :=
  List.find (same_key agent key) (rows db).

Definition new_row (ts : Z) (i : Z) (d : EnqueueDelivery) : DeliveryRecord :=
  {| id := i; delivery := d; status := Pending; attempts := 0;
     nextAttemptAt := default ts (enqueuedFor d); uncertain := false;
     providerMessageId := None; error := None; createdAt := ts; updatedAt := ts |}.

(** [INSERT ... ON CONFLICT (agent_id, dedupe_key) DO NOTHING], and the row read back. *)
Definition enqueue_one (ts : Z) (d : EnqueueDelivery) (db : Outbox)
  : (DeliveryRecord * bool) * Outbox :=
  match byDedupeKey (agentId d) (dedupeKey d) db with
  | Some r => ((r, false), db)
  | None =>
      let r := new_row ts (next_id db) d in
      ((r, true), {| rows := rows db ++ [r]; next_id := next_id db + 1 |})
  end.

(** One transaction: the rows all exist afterwards or none do. *)
Fixpoint enqueue (ts : Z) (ds : list EnqueueDelivery) (db : Outbox)
  : list (DeliveryRecord * bool) * Outbox :=
  match ds with
  | [] => ([], db)
  | d :: ds' =>
      let '(res, db1) := enqueue_one ts d db in
      let '(results, db2) := enqueue ts ds' db1 in
      (res :: results, db2)
  end.

Definition same_group (agent group : ustring) (r : DeliveryRecord) : bool :=
  bool_decide (agentId (delivery r) = agent) && bool_decide (groupKey (delivery r) = group).

(** [EXISTS (SELECT 1 FROM outbox e ... e.status <> 'sent')]: an earlier chunk holds this
    one back. *)
Definition held_by (r e : DeliveryRecord) : bool :=
  same_group (agentId (delivery r)) (groupKey (delivery r)) e &&
  (chunkIndex (delivery e) <? chunkIndex (delivery r)) && negb (bool_decide (status e = Sent)).

Definition ready (agent : ustring) (now : Z) (all : list DeliveryRecord) (r : DeliveryRecord)
  : bool :=
  bool_decide (agentId (delivery r) = agent) && bool_decide (status r = Pending) &&
  (nextAttemptAt r <=? now) && negb (existsb (held_by r) all).

Definition due (agent : ustring) (now : Z) (limit : nat) (db : Outbox) : list DeliveryRecord :=
  take limit (List.filter (ready agent now (rows db)) (rows db)).

(** [UPDATE outbox SET ... WHERE ...]. *)
Definition update (which : DeliveryRecord -> bool) (f : DeliveryRecord -> DeliveryRecord)
    (db : Outbox) : Outbox :=
  {| rows := map (fun r => if which r then f r else r) (rows db); next_id := next_id db |}.

Definition by_id (i : Z) (r : DeliveryRecord) : bool := id r =? i.

Definition get (i : Z) (db : Outbox) : option DeliveryRecord := List.find (by_id i) (rows db).

Definition with_status (s : DeliveryStatus) (ts : Z) (r : DeliveryRecord) : DeliveryRecord :=
  {| id := id r; delivery := delivery r; status := s; attempts := attempts r;
     nextAttemptAt := nextAttemptAt r; uncertain := uncertain r;
     providerMessageId := providerMessageId r; error := error r; createdAt := createdAt r;
     updatedAt := ts |}.

(** [WHERE id = ? AND status = 'pending'], and the row read back. *)
Definition claim (ts : Z) (i : Z) (db : Outbox) : option DeliveryRecord * Outbox :=
  let which r := by_id i r && bool_decide (status r = Pending) in
  if existsb which (rows db) then
    let db' := update which (with_status Inflight ts) db in (get i db', db')
  else (None, db).

Definition markSent (ts : Z) (i : Z) (provider : option ustring) (db : Outbox) : Outbox :=
  update (by_id i) (fun r =>
    {| id := id r; delivery := delivery r; status := Sent; attempts := attempts r + 1;
       nextAttemptAt := nextAttemptAt r; uncertain := uncertain r;
       providerMessageId := provider; error := None; createdAt := createdAt r;
       updatedAt := ts |}) db.

Definition markRetry (ts : Z) (i : Z) (next : Z) (e : ErrorDetail) (db : Outbox) : Outbox :=
  update (by_id i) (fun r =>
    {| id := id r; delivery := delivery r; status := Pending; attempts := attempts r + 1;
       nextAttemptAt := next; uncertain := uncertain r;
       providerMessageId := providerMessageId r; error := Some e; createdAt := createdAt r;
       updatedAt := ts |}) db.

Definition markFailed (ts : Z) (i : Z) (e : ErrorDetail) (db : Outbox) : Outbox :=
  update (by_id i) (fun r =>
    {| id := id r; delivery := delivery r; status := Failed; attempts := attempts r + 1;
       nextAttemptAt := nextAttemptAt r; uncertain := uncertain r;
       providerMessageId := providerMessageId r; error := Some e; createdAt := createdAt r;
       updatedAt := ts |}) db.

Definition open_status (s : DeliveryStatus) : bool :=
  match s with Pending | Inflight => true | _ => false end.

Definition abandoned_by (agent group : ustring) (chunk : Z) (r : DeliveryRecord) : bool :=
  same_group agent group r && (chunk <? chunkIndex (delivery r)) && open_status (status r).

(** The ids are collected before the update. (They are reported in chunk order; here in the
    order of the rows.) *)
Definition abandonGroupAfter (ts : Z) (agent group : ustring) (chunk : Z) (e : ErrorDetail)
    (db : Outbox) : list Z * Outbox :=
  (map id (List.filter (abandoned_by agent group chunk) (rows db)),
   update (abandoned_by agent group chunk) (fun r =>
     {| id := id r; delivery := delivery r; status := Failed; attempts := attempts r;
        nextAttemptAt := nextAttemptAt r; uncertain := uncertain r;
        providerMessageId := providerMessageId r; error := Some e; createdAt := createdAt r;
        updatedAt := ts |}) db).

Definition inflight_of (agents : list ustring) (r : DeliveryRecord) : bool :=
  bool_decide (status r = Inflight) && bool_decide (agentId (delivery r) ∈ agents).

Definition recovered (ts now : Z) (r : DeliveryRecord) : DeliveryRecord :=
  {| id := id r; delivery := delivery r; status := Pending; attempts := attempts r;
     nextAttemptAt := now; uncertain := true; providerMessageId := providerMessageId r;
     error := error r; createdAt := createdAt r; updatedAt := ts |}.

(** Agent by agent in the code; the rows of different agents are disjoint. *)
Definition recoverInflight (ts : Z) (agents : list ustring) (now : Z) (db : Outbox)
  : list DeliveryRecord * Outbox :=
  (map (recovered ts now) (List.filter (inflight_of agents) (rows db)),
   update (inflight_of agents) (recovered ts now) db).

(** [DELETE ... WHERE status IN ('sent', 'failed') AND updated_at < ?]. *)
Definition prune (before : Z) (db : Outbox) : Outbox :=
  {| rows := List.filter (fun r => open_status (status r) || (before <=? updatedAt r)) (rows db);
     next_id := next_id db |}.

Record DeliveryBacklog := { pending : Z; inflight : Z; soonest : option Z }.

Definition min_opt (m : option Z) (t : Z) : option Z :=
  match m with None => Some t | Some u => Some (Z.min u t) end.

Definition backlog (agents : list ustring) (db : Outbox) : DeliveryBacklog :=
  let select s := List.filter (fun r =>
    bool_decide (status r = s) && bool_decide (agentId (delivery r) ∈ agents)) (rows db) in
  {| pending := zlen (select Pending); inflight := zlen (select Inflight);
     soonest := foldl min_opt None (map nextAttemptAt (select Pending)) |}.

(** ** The head of the line *)

Lemma find_some_iff {A} (f : A -> bool) l : List.find f l = None <-> forall x, x ∈ l -> f x = false.
Proof.
  split.
  - intros H x Hx. apply list_elem_of_In in Hx. by apply (find_none f l H).
  - intros H. destruct (List.find f l) eqn:E; [|done]. apply find_some in E as [Hin Hf].
    apply list_elem_of_In in Hin. by rewrite (H _ Hin) in Hf.
Qed.

Lemma held_by_spec r e :
  held_by r e = true <->
  agentId (delivery e) = agentId (delivery r) /\ groupKey (delivery e) = groupKey (delivery r) /\
  chunkIndex (delivery e) < chunkIndex (delivery r) /\ status e <> Sent.
Proof.
  unfold held_by, same_group.
  rewrite !andb_true_iff, negb_true_iff, !bool_decide_eq_true, bool_decide_eq_false, Z.ltb_lt. tauto.
Qed.

Lemma ready_spec agent now all r :
  ready agent now all r = true <->
  agentId (delivery r) = agent /\ status r = Pending /\ nextAttemptAt r <= now /\
  forall e, e ∈ all -> agentId (delivery e) = agentId (delivery r) ->
    groupKey (delivery e) = groupKey (delivery r) ->
    chunkIndex (delivery e) < chunkIndex (delivery r) -> status e = Sent.
Proof.
  unfold ready. rewrite !andb_true_iff, negb_true_iff, !bool_decide_eq_true, Z.leb_le.
  rewrite <- not_true_iff_false, existsb_exists. split.
  - intros [[[Ha Hs] Hn] Hno]. split_and!; try done. intros e He E1 E2 E3.
    destruct (decide (status e = Sent)) as [|Hst]; [done|]. exfalso. apply Hno. exists e.
    split; [by apply list_elem_of_In|]. by apply held_by_spec.
  - intros (Ha & Hs & Hn & Hall). split_and!; try done. intros (e & He & Hh).
    apply held_by_spec in Hh as (E1 & E2 & E3 & Hst). apply Hst, Hall; [by apply list_elem_of_In|done..].
Qed.

(** The rows a query for due deliveries may return: pending, visible, and with every
    earlier chunk of their message sent. *)
Definition head_of_line (agent : ustring) (now : Z) (db : Outbox) (r : DeliveryRecord) : Prop :=
  r ∈ rows db /\ agentId (delivery r) = agent /\ status r = Pending /\ nextAttemptAt r <= now /\
  forall e, e ∈ rows db -> agentId (delivery e) = agentId (delivery r) ->
    groupKey (delivery e) = groupKey (delivery r) ->
    chunkIndex (delivery e) < chunkIndex (delivery r) -> status e = Sent.

Lemma due_sound agent now limit db r :
  r ∈ due agent now limit db -> head_of_line agent now db r.
Proof.
  intros H. unfold due in H. apply elem_of_take in H as (i & H & _).
  apply list_elem_of_lookup_2, list_elem_of_In, filter_In in H as [Hin Hr].
  apply list_elem_of_In in Hin. apply ready_spec in Hr. by split.
Qed.


(** Delivery order is enforced by the query: it returns exactly the due heads of line,
    oldest first - a chunk is withheld while any earlier chunk of its message is not sent,
    one that failed included - and leaves one out only when the limit is reached. *)
Theorem due_head_of_line agent now limit db :
  let l := due agent now limit db in
  (forall r, r ∈ l -> head_of_line agent now db r) /\
  (length l <= limit)%nat /\ l `sublist_of` rows db /\
  ((length l < limit)%nat -> forall r, head_of_line agent now db r -> r ∈ l).
Proof.
  cbv zeta. split; [intros r; apply due_sound|]. unfold due.
  set (all := List.filter _ _). split; [rewrite length_take; lia|]. split.
  - etrans; [apply sublist_take|]. unfold all. clear. generalize (ready agent now (rows db)) as f.
    intros f. induction (rows db) as [|r l IH]; simpl; [done|].
    destruct (f r); [by apply sublist_skip|by apply sublist_cons].
  - intros Hlt r (Hin & Ha & Hs & Hn & Hall). rewrite length_take in Hlt.
    rewrite take_ge by lia. unfold all. apply list_elem_of_In, filter_In.
    split; [by apply list_elem_of_In|]. by apply ready_spec.
Qed.

(** When a chunk fails for good, abandoning its group closes every later chunk that was
    still open, reports exactly those, and touches no other row: afterwards nothing of the
    message behind the failure can be sent. *)
Theorem abandon_closes_rest ts agent group chunk e db :
  let '(ids, db') := abandonGroupAfter ts agent group chunk e db in
  (forall r, r ∈ rows db' -> same_group agent group r = true ->
     chunk < chunkIndex (delivery r) -> status r = Sent \/ status r = Failed) /\
  (forall r, r ∈ rows db -> abandoned_by agent group chunk r = false -> r ∈ rows db') /\
  (forall i, i ∈ ids <-> exists r, r ∈ rows db /\ id r = i /\ same_group agent group r = true /\
     chunk < chunkIndex (delivery r) /\ open_status (status r) = true).
Proof.
  unfold abandonGroupAfter. split_and!.
  - intros r' Hr Hg Hc. apply list_elem_of_fmap in Hr as (r & -> & Hr).
    destruct (abandoned_by agent group chunk r) eqn:E; [by right|].
    unfold abandoned_by in E. rewrite Hg in E. apply Z.ltb_lt in Hc. rewrite Hc in E. cbn in E.
    destruct (status r); try done; [by left|by right].
  - intros r Hr E. apply list_elem_of_fmap. exists r. by rewrite E.
  - intros i. split.
    + intros Hi. apply list_elem_of_fmap in Hi as (r & -> & Hr).
      apply list_elem_of_In, filter_In in Hr as [Hr E]. apply list_elem_of_In in Hr.
      apply andb_true_iff in E as [E Ho]. apply andb_true_iff in E as [Hg Hc].
      apply Z.ltb_lt in Hc. by exists r.
    + intros (r & Hr & <- & Hg & Hc & Ho). apply list_elem_of_fmap. exists r. split; [done|].
      apply list_elem_of_In, filter_In. split; [by apply list_elem_of_In|].
      unfold abandoned_by. apply Z.ltb_lt in Hc. by rewrite Hg, Hc, Ho.
Qed.
