(* ===== verification/Outbox.v ===== *)
(** * Idempotent delivery: [channels/outbox.ts]

    [enqueueReport] is a function of the reply and the table. A send is split at its
    [await]s into a [Worker], and a step of the queue resumes one worker, in any order;
    what the provider does - whether it took a message, and what it answered - is chosen
    by the step. A crash drops the workers and keeps the table. *)
From S2P Require Import Prelude UString Split DeliveryKey OutboxStore.
Local Open Scope Z_scope.

Definition DEFAULT_BACKOFF_MS : list Z := [1000; 5000; 25000; 120000; 600000].
Definition DEFAULT_CONCURRENCY : nat := 4.
Definition MAX_PASSES : nat := 64.

Record ChannelLimits := {
  maxMessageChars : Z; idempotentSend : bool; minSendIntervalMs : option Z;
  carries_attachments : bool }.

(** [node:path]'s [basename]. *)
Class PathModule := basename : ustring -> ustring.

Record Options := {
  channels : gmap (list Z) ChannelLimits; maxAttempts : Z; backoffMs : list Z;
  concurrency : nat }.

(** The constructor's defaults. *)
Definition options_of (channels : gmap (list Z) ChannelLimits) (maxAttempts : option Z)
    (backoffMs : option (list Z)) (concurrency : option Z) : Options :=
  let backoff := default DEFAULT_BACKOFF_MS backoffMs in
  {| channels := channels; maxAttempts := default (zlen backoff + 1) maxAttempts;
     backoffMs := backoff;
     concurrency := Z.to_nat (Z.max 1 (default (Z.of_nat DEFAULT_CONCURRENCY) concurrency)) |}.

(** ** Enqueueing *)

Record EnqueueReply := {
  e_agentId : ustring; e_sessionKey : ustring; e_channelId : ustring; e_recipient : ustring;
  e_turnId : option ustring; e_key : option ustring; e_thread : option ustring;
  e_text : ustring; e_attachments : list DeliveryAttachment }.

Inductive EnqueueError := NoChannel | NoKey | MalformedURI.

Section Enqueue.
Context `{Segmenter} `{PathModule}.

Definition discriminator_of (reply : EnqueueReply) : result EnqueueError Discriminator :=
  match e_turnId reply, e_key reply with
  | Some t, _ => Ok (ByTurn t)
  | None, Some k => Ok (ByKey k)
  | None, None => Err NoKey
  end.

Definition named_file (file : DeliveryAttachment) : ustring :=
  [10; 10] ++ js "(" ++ basename (path file) ++
  js " is in my workspace; this channel cannot carry files.)".

Definition reply_text (limits : ChannelLimits) (reply : EnqueueReply) : ustring :=
  let named :=
    if carries_attachments limits || bool_decide (e_attachments reply = []) then []
    else concat (map named_file (e_attachments reply)) in
  trim (e_text reply ++ named).

(** The bodies and attachments of the chunks, in order. [None]: the split does not end. *)
Definition chunks_of (limits : ChannelLimits) (reply : EnqueueReply)
  : option (list (ustring * option DeliveryAttachment)) :=
  let carried := if carries_attachments limits then e_attachments reply else [] in
  let text := reply_text limits reply in
  parts ← (if bool_decide (text = []) then Some []
           else splitMessage (length text) text (maxMessageChars limits) true);
  Some (map (fun b => (b, None)) parts ++ map (fun a => ([], Some a)) carried).

Definition chunk_delivery (reply : EnqueueReply) (group : ustring) (total now : Z) (i : Z)
    (c : ustring * option DeliveryAttachment) : EnqueueDelivery :=
  {| agentId := e_agentId reply; dedupeKey := deliveryKey group i; groupKey := group;
     OutboxStore.sessionKey := e_sessionKey reply; turnId := e_turnId reply;
     OutboxStore.channelId := e_channelId reply; OutboxStore.recipient := e_recipient reply;
     thread := e_thread reply; chunkIndex := i; chunkTotal := total; body := c.1;
     attachment := c.2; enqueuedFor := Some now |}.

(** [chunks.map((chunk, index) => ...)]. *)
Definition deliveries_of (reply : EnqueueReply) (group : ustring) (now : Z)
    (chunks : list (ustring * option DeliveryAttachment)) : list EnqueueDelivery :=
  imap (fun i c => chunk_delivery reply group (zlen chunks) now (Z.of_nat i) c) chunks.

Definition reply_group (reply : EnqueueReply) : result EnqueueError ustring :=
  d ← discriminator_of reply;
  match deliveryGroup (Build_DeliveryGroupParts (e_sessionKey reply) (e_channelId reply)
                         (e_recipient reply) d) with
  | Some g => Ok g
  | None => Err MalformedURI
  end.

(** The records, whether any was new, and the table. *)
Definition enqueueReport (o : Options) (ts now : Z) (reply : EnqueueReply) (db : Outbox)
  : option (result EnqueueError (list DeliveryRecord * bool * Outbox)) :=
  match channels o !! e_channelId reply with
  | None => Some (Err NoChannel)
  | Some limits =>
      match reply_group reply with
      | Err e => Some (Err e)
      | Ok group =>
          chunks ← chunks_of limits reply;
          let '(results, db') := enqueue ts (deliveries_of reply group now chunks) db in
          Some (Ok (map fst results, existsb snd results, db'))
      end
  end.
End Enqueue.

(** ** Sending *)

Inductive SendResult :=
| SendOk (providerMessageId : option ustring)
| SendFail (retryable : bool) (e : ErrorDetail) (retryAfterMs : option Z).

Inductive Event :=
| DeliverySent (row : Z) (attempts : Z) (uncertain : bool)
| DeliveryRetry (row : Z) (attempts delayMs : Z)
| DeliveryFailed (row : Z) (attempts : Z) (exhausted : bool) (abandoned : Z)
| DeliveryUncertain (row : Z) (attempts : Z) (idempotent : bool).

(** [#attempt] suspended: just picked by a drain, claimed and waiting for the provider,
    holding the provider's answer, or between failing a row and abandoning its group. *)
Inductive Worker :=
| Picked (row : DeliveryRecord)
| Claimed (row : DeliveryRecord)
| Answered (row : DeliveryRecord) (answer : SendResult)
| Failing (row : DeliveryRecord) (exhausted : bool).

Record Queue := {
  db : Outbox; workers : list Worker; clock : Z; nextSendAt : gmap (list Z) Z;
  events : list Event;
  taken : list Z;  (* rows whose message the provider took and nobody denied: it said so, or
                      the process died waiting for it to say *)
  denied : list Z  (* rows whose message the provider took although [send] threw, was aborted
                      or reported a failure *) }.

(** What the provider has: one entry for each time it took the row's message. *)
Definition received (q : Queue) : list Z := taken q ++ denied q.

Definition delayFor (backoff : list Z) (attempt : Z) : Z :=
  default 0 (at_index backoff (Z.max 0 (Z.min (attempt - 1) (zlen backoff - 1)))).

Section Engine.
Context (o : Options).

(** [minSendIntervalMs ?? 0]. *)
Definition send_interval (channel : ustring) : Z :=
  match channels o !! channel with
  | Some limits => default 0 (minSendIntervalMs limits)
  | None => 0
  end.

Definition channel_of (row : DeliveryRecord) : ustring :=
  OutboxStore.channelId (delivery row).

Definition unknown_channel : ErrorDetail :=
  {| error_code := "delivery_channel_unknown"; error_message := [] |}.
Definition chunk_abandoned : ErrorDetail :=
  {| error_code := "delivery_chunk_abandoned"; error_message := [] |}.

Definition put (db' : Outbox) (ws : list Worker) (es : list Event) (q : Queue) : Queue :=
  {| db := db'; workers := workers q ++ ws; clock := clock q; nextSendAt := nextSendAt q;
     events := events q ++ es; taken := taken q; denied := denied q |}.

(** Resume a worker that has left [workers q]. [ts] is the store's clock. *)
Definition resume (ts : Z) (w : Worker) (q : Queue) : Queue :=
  match w with
  | Picked row =>
      match channels o !! channel_of row with
      | None => put (markFailed ts (id row) unknown_channel (db q)) [Failing row false] [] q
      | Some _ =>
          if 0 <? default 0 (nextSendAt q !! channel_of row) - clock q then q
          else
            match claim ts (id row) (db q) with
            | (None, db') => put db' [] [] q
            | (Some _, db') => put db' [Claimed row] [] q
            end
      end
  | Claimed row => put (db q) [Claimed row] [] q
  | Answered row (SendOk provider) =>
      put (markSent ts (id row) provider (db q)) []
        [DeliverySent (id row) (attempts row + 1) (uncertain row)] q
  | Answered row (SendFail retryable e retryAfter) =>
      let attempts := attempts row + 1 in
      let exhausted := maxAttempts o <=? attempts in
      if negb retryable || exhausted then
        put (markFailed ts (id row) e (db q)) [Failing row (exhausted && retryable)] [] q
      else
        let delay := default (delayFor (backoffMs o) attempts) retryAfter in
        put (markRetry ts (id row) (clock q + delay) e (db q)) []
          [DeliveryRetry (id row) attempts delay] q
  | Failing row exhausted =>
      let '(abandoned, db') :=
        abandonGroupAfter ts (agentId (delivery row)) (groupKey (delivery row))
          (chunkIndex (delivery row)) chunk_abandoned (db q) in
      put db' [] [DeliveryFailed (id row) (attempts row + 1) exhausted (zlen abandoned)] q
  end.

(** [transport.send] settles, or throws, which is a failure to be retried; what follows it up to
    the next [await] is pacing. [took]: whether the provider has the message all the same when it is
    reported as failed - a response that was lost, an abort that came too late. *)
Definition answer (row : DeliveryRecord) (r : SendResult) (took : bool) (q : Queue) : Queue :=
  let interval := send_interval (channel_of row) in
  {| db := db q; workers := workers q ++ [Answered row r]; clock := clock q;
     nextSendAt := if 0 <? interval
                   then <[channel_of row := clock q + interval]> (nextSendAt q)
                   else nextSendAt q;
     events := events q;
     taken := match r with
                 | SendOk _ => taken q ++ [id row]
                 | SendFail _ _ _ => taken q
                 end;
     denied := match r with
                  | SendFail _ _ _ => if took then denied q ++ [id row] else denied q
                  | SendOk _ => denied q
                  end |}.

(** One pass of [drain] asks for due rows and starts an attempt for each. *)
Definition drain_pass (agent : ustring) (q : Queue) : Queue :=
  put (db q) (map Picked (due agent (clock q) (concurrency o) (db q))) [] q.

Definition recover (ts : Z) (agents : list ustring) (q : Queue) : Queue :=
  let '(rs, db') := recoverInflight ts agents (clock q) (db q) in
  put db' [] (map (fun r =>
    DeliveryUncertain (id r) (attempts r)
      (match channels o !! channel_of r with Some l => idempotentSend l | None => false end)) rs) q.

(** The process dies: what was in memory is gone. Of the messages it was waiting to hear
    about, the provider took those of [lost]. *)
Definition crash (lost : list Z) (q : Queue) : Queue :=
  {| db := db q; workers := []; clock := clock q; nextSendAt := ∅; events := events q;
     taken := taken q ++ lost; denied := denied q |}.

Definition claimed_id (w : Worker) : option Z :=
  match w with Claimed row => Some (id row) | _ => None end.

Definition with_workers (ws : list Worker) (q : Queue) : Queue :=
  {| db := db q; workers := ws; clock := clock q; nextSendAt := nextSendAt q;
     events := events q; taken := taken q; denied := denied q |}.
Definition with_clock (t : Z) (q : Queue) : Queue :=
  {| db := db q; workers := workers q; clock := t; nextSendAt := nextSendAt q;
     events := events q; taken := taken q; denied := denied q |}.
Definition with_db (d : Outbox) (q : Queue) : Queue :=
  {| db := d; workers := workers q; clock := clock q; nextSendAt := nextSendAt q;
     events := events q; taken := taken q; denied := denied q |}.

Context `{Segmenter} `{PathModule}.

Inductive step : Queue -> Queue -> Prop :=
| s_enqueue ts now reply records inserted db' q :
    enqueueReport o ts now reply (db q) = Some (Ok (records, inserted, db')) ->
    step q (with_db db' q)
| s_drain agent q : step q (drain_pass agent q)
| s_resume ts l1 w l2 q :
    workers q = l1 ++ w :: l2 -> step q (resume ts w (with_workers (l1 ++ l2) q))
| s_answer l1 row l2 r took q :
    workers q = l1 ++ Claimed row :: l2 -> step q (answer row r took (with_workers (l1 ++ l2) q))
| s_rejected l1 w l2 q :
    workers q = l1 ++ w :: l2 -> claimed_id w = None -> step q (with_workers (l1 ++ l2) q)
| s_crash lost q : lost `sublist_of` omap claimed_id (workers q) -> step q (crash lost q)
| s_recover ts agents q : workers q = [] -> step q (recover ts agents q)
| s_clock t q : step q (with_clock t q).

Definition initial (t : Z) : Queue :=
  {| db := {| rows := []; next_id := 1 |}; workers := []; clock := t; nextSendAt := ∅;
     events := []; taken := []; denied := [] |}.
End Engine.

(** ** The invariant *)

Definition earlier_sent (rs : list DeliveryRecord) (d : EnqueueDelivery) : Prop :=
  forall e, e ∈ rs -> agentId (delivery e) = agentId d -> groupKey (delivery e) = groupKey d ->
            chunkIndex (delivery e) < chunkIndex d -> status e = Sent.

(** Under way or done. *)
Definition begun (s : DeliveryStatus) : Prop := s = Inflight \/ s = Sent.

(** The table on its own. *)
Record wf_rows (o : Options) (rs : list DeliveryRecord) (next : Z) : Prop := {
  wf_ids : NoDup (map id rs);
  wf_next : forall r, r ∈ rs -> id r < next;
  wf_keys : forall r, r ∈ rs ->
    0 <= chunkIndex (delivery r) /\
    dedupeKey (delivery r) = deliveryKey (groupKey (delivery r)) (chunkIndex (delivery r));
  wf_contiguous : forall r j, r ∈ rs -> 0 <= j < chunkIndex (delivery r) ->
    exists e, e ∈ rs /\ agentId (delivery e) = agentId (delivery r) /\
      groupKey (delivery e) = groupKey (delivery r) /\ chunkIndex (delivery e) = j;
  wf_order : forall r, r ∈ rs -> begun (status r) -> earlier_sent rs (delivery r);
  wf_channel : forall r, r ∈ rs -> begun (status r) -> is_Some (channels o !! channel_of r) }.

Definition worker_row (w : Worker) : DeliveryRecord :=
  match w with Picked r | Claimed r | Answered r _ | Failing r _ => r end.

(** The row a worker is between claiming and recording. *)
Definition busy (w : Worker) : option Z :=
  match w with Claimed r | Answered r _ => Some (id r) | _ => None end.

(** A worker's snapshot agrees with its row on everything the sender relies on. *)
Record wf_worker (o : Options) (rs : list DeliveryRecord) (w : Worker) : Prop := {
  ww_row : exists c, c ∈ rs /\ id c = id (worker_row w) /\
    delivery c = delivery (worker_row w) /\ uncertain c = uncertain (worker_row w) /\
    (busy w <> None -> status c = Inflight \/ status c = Failed);
  ww_earlier : earlier_sent rs (delivery (worker_row w));
  ww_channel : busy w <> None -> is_Some (channels o !! channel_of (worker_row w)) }.

Definition times (i : Z) (l : list Z) : nat := length (filter (fun j => j = i) l).

Definition wf_taken_worker (tk : list Z) (w : Worker) : Prop :=
  match w with
  | Claimed r => uncertain r = false -> times (id r) tk = 0%nat
  | Answered r (SendOk _) => uncertain r = false -> times (id r) tk = 1%nat
  | Answered r (SendFail _ _ _) => uncertain r = false -> times (id r) tk = 0%nat
  | _ => True
  end.

Definition wf_taken_row (tk : list Z) (r : DeliveryRecord) : Prop :=
  uncertain r = false ->
  (times (id r) tk <= 1)%nat /\ (status r = Pending -> times (id r) tk = 0%nat) /\
  (status r = Sent -> times (id r) tk = 1%nat).

Record inv (o : Options) (q : Queue) : Prop := {
  inv_rows : wf_rows o (rows (db q)) (next_id (db q));
  inv_workers : Forall (wf_worker o (rows (db q))) (workers q);
  inv_busy : NoDup (omap busy (workers q));
  inv_taken_workers : Forall (wf_taken_worker (taken q)) (workers q);
  inv_taken_rows : forall r, r ∈ rows (db q) -> wf_taken_row (taken q) r;
  inv_taken_ids : forall i, i ∈ taken q -> i < next_id (db q) }.

(** *** Updates keep the shape of the table *)

(** An update by a function that keeps ids, deliveries and sent rows. *)
Record benign (rs : list DeliveryRecord) (g : DeliveryRecord -> DeliveryRecord) : Prop := {
  b_id : forall r, r ∈ rs -> id (g r) = id r;
  b_delivery : forall r, r ∈ rs -> delivery (g r) = delivery r;
  b_sent : forall r, r ∈ rs -> status r = Sent -> status (g r) = Sent }.

Lemma earlier_sent_map rs g d :
  benign rs g -> earlier_sent rs d -> earlier_sent (map g rs) d.
Proof.
  intros [Hi Hd Hs] He e Hin. apply list_elem_of_fmap in Hin as (r & -> & Hr).
  rewrite Hd by done. intros. by apply Hs; [|apply He].
Qed.

Lemma wf_rows_map o rs next g :
  wf_rows o rs next -> benign rs g ->
  (forall r, r ∈ rs -> begun (status (g r)) -> ~ begun (status r) ->
     earlier_sent rs (delivery r) /\ is_Some (channels o !! channel_of r)) ->
  wf_rows o (map g rs) next.
Proof.
  intros [H1 H2 H3 H4 H5 H6] Hg Hnew. pose proof Hg as [Hi Hd Hs].
  assert (forall r, r ∈ rs -> begun (status (g r)) ->
    earlier_sent rs (delivery r) /\ is_Some (channels o !! channel_of r)) as Hb.
  { intros r Hr Hst. destruct (decide (status r = Inflight)) as [E|N1];
      [split; [apply H5|apply H6]; try done; by left|].
    destruct (decide (status r = Sent)) as [E|N2];
      [split; [apply H5|apply H6]; try done; by right|].
    apply Hnew; try done. intros [?|?]; done. }
  constructor.
  - assert (map id (map g rs) = map id rs) as ->; [|done].
    rewrite map_map. apply map_ext_in. intros r Hr. apply Hi. by apply list_elem_of_In.
  - intros r' Hr. apply list_elem_of_fmap in Hr as (r & -> & Hr). rewrite Hi by done. auto.
  - intros r' Hr. apply list_elem_of_fmap in Hr as (r & -> & Hr). rewrite Hd by done. auto.
  - intros r' j Hr. apply list_elem_of_fmap in Hr as (r & -> & Hr). rewrite Hd by done. intros Hj.
    destruct (H4 r j Hr Hj) as (e & He & Ha & Hg' & Hx). exists (g e).
    rewrite Hd by done. split; [by apply list_elem_of_fmap_2|done].
  - intros r' Hr Hst. apply list_elem_of_fmap in Hr as (r & -> & Hr). rewrite Hd by done.
    apply earlier_sent_map; [done|]. by apply Hb.
  - intros r' Hr Hst. apply list_elem_of_fmap in Hr as (r & -> & Hr). unfold channel_of.
    rewrite Hd by done. by apply Hb.
Qed.

(** Workers survive an update that keeps their rows' marks. *)
Lemma wf_worker_map o rs g w :
  benign rs g -> wf_worker o rs w ->
  (forall c, c ∈ rs -> id c = id (worker_row w) ->
     uncertain (g c) = uncertain c /\
     (busy w <> None -> status c = Inflight \/ status c = Failed ->
      status (g c) = Inflight \/ status (g c) = Failed)) ->
  wf_worker o (map g rs) w.
Proof.
  intros Hg [(c & Hc & Hid & Hd & Hu & Hst) He Hch] Hk. destruct (Hk c Hc Hid) as [Hu' Hst'].
  constructor; [|by apply earlier_sent_map|done]. exists (g c). destruct Hg as [Gi Gd _].
  rewrite Gi, Gd, Hu' by done. split; [by apply list_elem_of_fmap_2|].
  split_and!; auto.
Qed.

Lemma row_by_id rs r r' :
  NoDup (map id rs) -> r ∈ rs -> r' ∈ rs -> id r = id r' -> r = r'.
Proof.
  intros Hn Hr Hr' Hid. apply list_elem_of_lookup in Hr as [i Hi].
  apply list_elem_of_lookup in Hr' as [j Hj].
  assert (i = j) as ->; [|congruence]. apply (NoDup_lookup _ _ _ (id r) Hn).
  - change (map id rs) with (id <$> rs). by rewrite list_lookup_fmap, Hi.
  - change (map id rs) with (id <$> rs). by rewrite list_lookup_fmap, Hj, Hid.
Qed.

(** The update of one row. *)
Definition at_id (i : Z) (f : DeliveryRecord -> DeliveryRecord) (r : DeliveryRecord)
  : DeliveryRecord := if by_id i r then f r else r.

Lemma at_id_eq i f r : id r = i -> at_id i f r = f r.
Proof. unfold at_id, by_id. intros <-. by rewrite Z.eqb_refl. Qed.
Lemma at_id_ne i f r : id r <> i -> at_id i f r = r.
Proof. unfold at_id, by_id. intros H. by rewrite (proj2 (Z.eqb_neq _ _) H). Qed.

Lemma benign_at_id rs i f :
  (forall r, id (f r) = id r /\ delivery (f r) = delivery r) ->
  (forall r, r ∈ rs -> id r = i -> status r = Sent -> status (f r) = Sent) ->
  benign rs (at_id i f).
Proof.
  intros Hf Hs. constructor; intros r Hr; destruct (Z.eq_dec (id r) i) as [E|E];
    rewrite ?at_id_eq, ?at_id_ne by done; auto; by destruct (Hf r).
Qed.

Lemma times_app i l1 l2 : times i (l1 ++ l2) = (times i l1 + times i l2)%nat.
Proof. unfold times. by rewrite filter_app, length_app. Qed.

Lemma times_not_in i l : i ∉ l -> times i l = 0%nat.
Proof.
  unfold times. induction l as [|j l IH]; [done|]. intros Hn. apply not_elem_of_cons in Hn as [? ?].
  rewrite filter_cons_False by congruence. auto.
Qed.

Lemma times_NoDup i l : NoDup l -> (times i l <= 1)%nat.
Proof.
  induction 1 as [|j l Hj Hl IH]; [unfold times; simpl; lia|]. unfold times in *.
  rewrite filter_cons. destruct (decide (j = i)) as [->|]; [|done].
  pose proof (times_not_in i l Hj) as H0. unfold times in H0. simpl. lia.
Qed.

(** *** One row at a time *)

(** The general shape of a worker's step: it leaves, one row is updated, and at most one
    worker for that row comes back. *)
Section OneRow.
Context (o : Options) (q : Queue) (w : Worker) (rest : list Worker).
Context (Hinv : inv o (with_workers (w :: rest) q)).

Lemma rest_not_busy i : busy w = Some i -> forall w', w' ∈ rest -> busy w' <> Some i.
Proof.
  intros Hw w' Hw' Hb. destruct Hinv as [_ _ Hbusy _ _ _]. cbn in Hbusy. rewrite Hw in Hbusy.
  apply NoDup_cons in Hbusy as [Hno _]. apply Hno, list_elem_of_omap. by exists w'.
Qed.

(** Dropping the worker and updating its row. *)
Lemma inv_update f es :
  (forall r, id (f r) = id r /\ delivery (f r) = delivery r /\ uncertain (f r) = uncertain r) ->
  (forall r, r ∈ rows (db q) -> id r = id (worker_row w) ->
     (status r = Sent -> status (f r) = Sent) /\
     (begun (status (f r)) -> begun (status r) \/
        earlier_sent (rows (db q)) (delivery r) /\ is_Some (channels o !! channel_of r)) /\
     wf_taken_row (taken q) (f r)) ->
  (forall w', w' ∈ rest -> busy w' <> None -> id (worker_row w') = id (worker_row w) ->
     forall r, r ∈ rows (db q) -> id r = id (worker_row w) ->
       status r = Inflight \/ status r = Failed ->
       status (f r) = Inflight \/ status (f r) = Failed) ->
  inv o (put (update (by_id (id (worker_row w))) f (db q)) [] es (with_workers rest q)).
Proof.
  intros Hf Hrow Hothers. destruct Hinv as [H1 H2 H3 H4 H5 H6]. cbn in *.
  set (i := id (worker_row w)) in *.
  assert (benign (rows (db q)) (at_id i f)) as Hb.
  { apply benign_at_id; [intros r; split; apply (Hf r)|]. intros r Hr Hi. by apply Hrow. }
  constructor; cbn.
  - apply (wf_rows_map o (rows (db q)) (next_id (db q)) (at_id i f)); [done|done|].
    intros r Hr Hst Hno. destruct (Z.eq_dec (id r) i) as [E|E].
    + rewrite at_id_eq in Hst by done. destruct (Hrow r Hr E) as (_ & Hn & _). by destruct (Hn Hst).
    + by rewrite at_id_ne in Hst.
  - rewrite app_nil_r. apply Forall_cons in H2 as [_ H2]. rewrite Forall_forall in *.
    intros w' Hw'. apply (wf_worker_map o (rows (db q)) (at_id i f)); [done|by apply H2|].
    intros c Hc Hid. destruct (Z.eq_dec (id c) i) as [E|E].
    + rewrite at_id_eq by done. destruct (Hf c) as (_ & _ & ->). split; [done|].
      intros Hbz. apply (Hothers w'); try done. congruence.
    + rewrite at_id_ne by done. auto.
  - rewrite app_nil_r. destruct (busy w); [by apply NoDup_cons in H3 as [_ ?]|done].
  - rewrite app_nil_r. by apply Forall_cons in H4 as [_ ?].
  - intros r' Hr. apply list_elem_of_fmap in Hr as (r & -> & Hr).
    fold (at_id i f r). destruct (Z.eq_dec (id r) i) as [E|E].
    + rewrite at_id_eq by done. by apply Hrow.
    + rewrite at_id_ne by done. auto.
  - done.
Qed.
End OneRow.

(** A worker added for a row that agrees with it. *)
Lemma inv_add_worker o q w :
  inv o q -> wf_worker o (rows (db q)) w -> wf_taken_worker (taken q) w ->
  (forall i, busy w = Some i -> i ∉ omap busy (workers q)) ->
  inv o (with_workers (workers q ++ [w]) q).
Proof.
  intros [H1 H2 H3 H4 H5 H6] Hw Ht Hb. constructor; cbn; try done.
  - apply Forall_app. split; [done|]. by constructor.
  - rewrite omap_app. apply NoDup_app. split; [done|]. cbn. destruct (busy w) as [i|].
    + split; [|repeat constructor; apply not_elem_of_nil].
      intros x Hx Hin. apply list_elem_of_singleton in Hin as ->. by apply (Hb i).
    + split; [|constructor]. intros x _ Hin. by apply not_elem_of_nil in Hin.
  - apply Forall_app. split; [done|]. by constructor.
Qed.

Lemma inv_put_worker o d es q w :
  inv o (put d [] es q) -> wf_worker o (rows d) w -> wf_taken_worker (taken q) w ->
  (forall i, busy w = Some i -> i ∉ omap busy (workers q)) -> inv o (put d [w] es q).
Proof.
  intros Hi Hw Ht Hb. unfold put in *. rewrite app_nil_r in Hi.
  by apply (inv_add_worker o _ w) in Hi.
Qed.

Lemma inv_drop_worker o q l1 w l2 :
  workers q = l1 ++ w :: l2 -> inv o q -> inv o (with_workers (w :: l1 ++ l2) q).
Proof.
  intros Hl [H1 H2 H3 H4 H5 H6]. rewrite Hl in *.
  assert (l1 ++ w :: l2 ≡ₚ w :: l1 ++ l2) as Hp by (by rewrite Permutation_middle).
  constructor; cbn [db workers taken with_workers]; try done.
  - by rewrite <- Hp.
  - by rewrite <- Hp.
  - by rewrite <- Hp.
Qed.

Lemma inv_forget_worker o q w rest :
  inv o (with_workers (w :: rest) q) -> inv o (with_workers rest q).
Proof.
  intros [H1 H2 H3 H4 H5 H6]. cbn in *. constructor; cbn; try done.
  - by apply Forall_cons in H2 as [_ ?].
  - destruct (busy w); [by apply NoDup_cons in H3 as [_ ?]|done].
  - by apply Forall_cons in H4 as [_ ?].
Qed.

(** Events are not part of the invariant. *)
Lemma inv_events o q d ws es : inv o (put d ws [] q) -> inv o (put d ws es q).
Proof. intros [H1 H2 H3 H4 H5 H6]. by constructor. Qed.

(** *** The steps of a worker *)

Section Steps.
Context (o : Options) (q : Queue) (w : Worker) (rest : list Worker).
Context (Hinv : inv o (with_workers (w :: rest) q)).

Lemma current : wf_worker o (rows (db q)) w.
Proof. destruct Hinv as [_ H _ _ _ _]. by apply Forall_cons in H as [? _]. Qed.

Lemma current_taken : wf_taken_worker (taken q) w.
Proof. destruct Hinv as [_ _ _ H _ _]. by apply Forall_cons in H as [? _]. Qed.

(** The row of the table the worker is for. *)
Lemma current_row r :
  r ∈ rows (db q) -> id r = id (worker_row w) ->
  delivery r = delivery (worker_row w) /\ uncertain r = uncertain (worker_row w) /\
  (busy w <> None -> status r = Inflight \/ status r = Failed).
Proof.
  intros Hr Hid. destruct current as [(c & Hc & Hcid & Hd & Hu & Hst) _ _].
  assert (r = c) as -> by (apply (row_by_id (rows (db q))); [apply Hinv|done|done|congruence]).
  auto.
Qed.

Lemma current_rows_taken r : r ∈ rows (db q) -> wf_taken_row (taken q) r.
Proof. apply Hinv. Qed.

Lemma no_other_busy :
  busy w = Some (id (worker_row w)) ->
  forall w', w' ∈ rest -> busy w' <> None -> id (worker_row w') <> id (worker_row w).
Proof.
  intros Hb w' Hw' Hb' E. apply (rest_not_busy o q w rest Hinv _ Hb w' Hw').
  destruct w'; cbn in *; congruence.
Qed.

(** A worker that goes on to [Failing] keeps its place. *)
Lemma failing_after f x :
  (forall r, id (f r) = id r /\ delivery (f r) = delivery r /\ uncertain (f r) = uncertain r) ->
  (forall r, r ∈ rows (db q) -> id r = id (worker_row w) -> status r = Sent ->
     status (f r) = Sent) ->
  wf_worker o (rows (update (by_id (id (worker_row w))) f (db q))) (Failing (worker_row w) x).
Proof.
  intros Hf Hs. cbn. fold (at_id (id (worker_row w)) f).
  destruct current as [Hrow He _].
  apply (wf_worker_map o (rows (db q))).
  - apply benign_at_id; [intros r; split; apply (Hf r)|done].
  - constructor; [|done|done]. destruct Hrow as (c & Hc & Hid & Hd & Hu & _).
    exists c. by split_and!.
  - intros c Hc Hid. split; [|done]. rewrite at_id_eq by done. by destruct (Hf c) as (_ & _ & ->).
Qed.
End Steps.

Lemma inv_resume_unknown o ts row rest q :
  inv o (with_workers (Picked row :: rest) q) -> channels o !! channel_of row = None ->
  inv o (put (markFailed ts (id row) unknown_channel (db q)) [Failing row false] []
           (with_workers rest q)).
Proof.
  intros Hinv Hch.
  assert (Hnever : forall r, r ∈ rows (db q) -> id r = id row -> ~ begun (status r)).
  { intros r Hr Hid Hst. destruct (current_row o q (Picked row) rest Hinv r Hr Hid) as (Hd & _).
    destruct (wf_channel _ _ _ (inv_rows _ _ Hinv) r Hr Hst) as [l Hl].
    unfold channel_of in *. cbn in Hd. rewrite Hd in Hl. congruence. }
  apply inv_put_worker; [| |done|done].
  - apply (inv_update o q (Picked row) rest Hinv); [done| |].
    + intros r Hr Hid. split_and!.
      * intros E. exfalso. apply (Hnever r Hr Hid). by right.
      * by intros [?|?].
      * intros Hu. destruct (current_rows_taken o q (Picked row) rest Hinv r Hr Hu) as (? & _).
        done.
    + intros. by right.
  - apply (failing_after o q (Picked row) rest Hinv); [done|].
    intros r Hr Hid E. exfalso. apply (Hnever r Hr Hid). by right.
Qed.

Lemma claim_spec ts i d r d' :
  NoDup (map id (rows d)) -> claim ts i d = (r, d') ->
  (r = None /\ d' = d) \/
  (exists c c', r = Some c' /\ c ∈ rows d /\ id c = i /\ status c = Pending /\
     d' = update (by_id i) (with_status Inflight ts) d).
Proof.
  intros Hn. unfold claim. set (which := fun r => by_id i r && bool_decide (status r = Pending)).
  destruct (existsb which (rows d)) eqn:E; [|intros [= <- <-]; by left].
  apply existsb_exists in E as (c & Hc & Hw). apply list_elem_of_In in Hc.
  apply andb_true_iff in Hw as [Hid Hp]. apply bool_decide_eq_true in Hp. apply Z.eqb_eq in Hid.
  assert (update which (with_status Inflight ts) d = update (by_id i) (with_status Inflight ts) d)
    as ->.
  { unfold update. f_equal. apply map_ext_in. intros x Hx. apply list_elem_of_In in Hx.
    unfold which. destruct (by_id i x) eqn:Ex; [|done]. apply Z.eqb_eq in Ex.
    rewrite (row_by_id (rows d) x c Hn Hx Hc) by congruence. by rewrite bool_decide_true. }
  intros [= <- <-]. right. exists c. unfold get.
  destruct (List.find _ _) as [c'|] eqn:Ef; [by exists c'|].
  rewrite find_some_iff in Ef. specialize (Ef (with_status Inflight ts c)).
  assert (by_id i (with_status Inflight ts c) = true) as Hb
    by (unfold by_id; cbn; rewrite Hid; apply Z.eqb_refl).
  assert (with_status Inflight ts c ∈ rows (update (by_id i) (with_status Inflight ts) d)) as Hin.
  { apply list_elem_of_fmap. exists c. unfold by_id. by rewrite Hid, Z.eqb_refl. }
  specialize (Ef Hin). congruence.
Qed.

Lemma inv_resume_picked o ts row rest q :
  inv o (with_workers (Picked row :: rest) q) ->
  inv o (resume o ts (Picked row) (with_workers rest q)).
Proof.
  intros Hinv. cbn [resume]. destruct (channels o !! channel_of row) as [l|] eqn:Hch;
    [|exact (inv_resume_unknown o ts row rest q Hinv Hch)].
  cbn [nextSendAt clock with_workers].
  destruct (0 <? _); [by eapply inv_forget_worker|].
  destruct (claim ts (id row) (db (with_workers rest q))) as [r d'] eqn:Hcl.
  apply claim_spec in Hcl; [|apply Hinv].
  destruct Hcl as [[-> ->]|(c & c' & -> & Hc & Hid & Hp & ->)].
  { apply inv_forget_worker in Hinv. destruct Hinv as [H1 H2 H3 H4 H5 H6]. cbn in *.
    constructor; cbn; by rewrite ?app_nil_r. }
  cbn [db with_workers] in *.
  destruct (current_row o q (Picked row) rest Hinv c Hc Hid) as (Hd & Hu & _).
  cbn [worker_row] in Hd, Hu.
  destruct (current o q (Picked row) rest Hinv) as [_ He _].
  assert (Hone : forall r, r ∈ rows (db q) -> id r = id row -> r = c).
  { intros r Hr E. apply (row_by_id (rows (db q))); [apply Hinv|done|done|congruence]. }
  apply inv_put_worker.
  - apply (inv_update o q (Picked row) rest Hinv); [done| |].
    + intros r Hr E. rewrite (Hone r Hr E). split; [congruence|]. split.
      * intros _. right. unfold channel_of. rewrite Hd. split; [exact He|].
        unfold channel_of in Hch. by exists l.
      * intros Hux. destruct (current_rows_taken o q _ rest Hinv c Hc Hux) as (Hle & _ & _).
        split; [done|]. by split.
    + intros w' _ _ _ r Hr E _. by left.
  - constructor.
    + exists (with_status Inflight ts c). cbn. split; [|by split_and!; auto].
      apply list_elem_of_fmap. exists c. unfold by_id. by rewrite Hid, Z.eqb_refl.
    + cbn. fold (at_id (id row) (with_status Inflight ts)). apply earlier_sent_map; [|exact He].
      apply benign_at_id; [done|]. intros r Hr E Hs. rewrite (Hone r Hr E) in Hs. congruence.
    + intros _. by exists l.
  - intros Hux. rewrite <- Hid.
    destruct (current_rows_taken o q _ rest Hinv c Hc ltac:(congruence)) as (_ & H0 & _).
    by apply H0.
  - intros i [= <-] Hin. apply list_elem_of_omap in Hin as (w' & Hw' & Hb).
    pose proof (inv_workers _ _ Hinv) as Hws. cbn in Hws. apply Forall_cons in Hws as [_ Hws].
    rewrite Forall_forall in Hws. destruct (Hws w' Hw') as [(c2 & Hc2 & Hid2 & _ & _ & Hst) _ _].
    assert (id (worker_row w') = id row) as Eid by (destruct w'; cbn in *; congruence).
    rewrite (Hone c2 Hc2) in Hst by congruence. rewrite Hp in Hst.
    destruct Hst as [|]; [by rewrite Hb|done|done].
Qed.

Lemma inv_resume_sent o ts row p rest q :
  inv o (with_workers (Answered row (SendOk p) :: rest) q) ->
  inv o (resume o ts (Answered row (SendOk p)) (with_workers rest q)).
Proof.
  intros Hinv. cbn [resume]. apply (inv_update o q _ rest Hinv); [done| |].
  - intros r Hr Hid.
    destruct (current_row o q _ rest Hinv r Hr Hid) as (Hd & Hu & _). cbn [worker_row] in *.
    destruct (current o q _ rest Hinv) as [_ He Hch]. split; [done|]. split.
    + intros _. right. rewrite Hd. split; [exact He|]. unfold channel_of. rewrite Hd.
      by apply Hch.
    + intros Hux. cbn in *. pose proof (current_taken o q _ rest Hinv) as Ht. cbn in Ht.
      rewrite Hid. rewrite Ht by congruence. split; [lia|]. split; [done|lia].
  - intros w' Hw' Hb E. exfalso. by apply (no_other_busy o q _ rest Hinv eq_refl w' Hw').
Qed.

Lemma inv_resume_retry o ts row b e ra next es rest q :
  inv o (with_workers (Answered row (SendFail b e ra) :: rest) q) ->
  inv o (put (markRetry ts (id row) next e (db q)) [] es (with_workers rest q)).
Proof.
  intros Hinv. apply (inv_update o q _ rest Hinv); [done| |].
  - intros r Hr Hid.
    destruct (current_row o q _ rest Hinv r Hr Hid) as (_ & Hu & Hst). cbn [worker_row] in *.
    destruct Hst as [Hst|Hst]; [done| |]; (split; [congruence|]; split; [by intros [?|?]|]);
      intros Hux; cbn in *; pose proof (current_taken o q _ rest Hinv) as Ht; cbn in Ht;
      rewrite Hid, Ht by congruence; (split; [lia|]; by split).
  - intros w' Hw' Hb E. exfalso. by apply (no_other_busy o q _ rest Hinv eq_refl w' Hw').
Qed.

Lemma inv_resume_failed o ts row b e ra x rest q :
  inv o (with_workers (Answered row (SendFail b e ra) :: rest) q) ->
  inv o (put (markFailed ts (id row) e (db q)) [Failing row x] [] (with_workers rest q)).
Proof.
  intros Hinv.
  assert (Hns : forall r, r ∈ rows (db q) -> id r = id row -> status r <> Sent).
  { intros r Hr Hid E. destruct (current_row o q _ rest Hinv r Hr Hid) as (_ & _ & Hst).
    destruct Hst; [done|congruence..]. }
  apply inv_put_worker; [| |done|done].
  - apply (inv_update o q _ rest Hinv); [done| |].
    + intros r Hr Hid. split; [intros E; by destruct (Hns r Hr Hid)|].
      split; [by intros [?|?]|]. intros Hux.
      destruct (current_rows_taken o q _ rest Hinv r Hr Hux) as (? & _). done.
    + intros. by right.
  - apply (failing_after o q (Answered row (SendFail b e ra)) rest Hinv); [done|].
    intros r Hr Hid E. by destruct (Hns r Hr Hid).
Qed.

(** An update of many rows that only closes or re-opens rows not yet sent. *)
Lemma inv_update_many o q which f ws es :
  inv o (with_workers ws q) ->
  (forall r, id (f r) = id r /\ delivery (f r) = delivery r) ->
  (forall r, which r = true -> status r <> Sent /\ ~ begun (status (f r)) /\
     (forall tk, wf_taken_row tk r -> wf_taken_row tk (f r))) ->
  (forall r w, r ∈ rows (db q) -> w ∈ ws -> which r = true -> id r = id (worker_row w) ->
     uncertain (f r) = uncertain r /\
     (busy w <> None -> status (f r) = Inflight \/ status (f r) = Failed)) ->
  inv o (put (update which f (db q)) [] es (with_workers ws q)).
Proof.
  intros [H1 H2 H3 H4 H5 H6] Hf Hw Hws. cbn in *. set (g := fun r => if which r then f r else r).
  assert (benign (rows (db q)) g) as Hb.
  { constructor; intros r Hr; unfold g; destruct (which r) eqn:E; try done; try apply Hf.
    intros Hs. by destruct (Hw r E). }
  constructor; cbn; rewrite ?app_nil_r; try done.
  - apply (wf_rows_map o (rows (db q)) (next_id (db q)) g); [done|done|].
    intros r Hr Hst Hno. unfold g in Hst. destruct (which r) eqn:E; [|done].
    by destruct (Hw r E) as (_ & Hn & _).
  - rewrite Forall_forall in *. intros w Hin. apply (wf_worker_map o (rows (db q)) g); auto.
    intros c Hc Hid. unfold g. destruct (which c) eqn:E; [|auto].
    destruct (Hws c w Hc Hin E Hid) as [Hu Hst]. split; [done|]. auto.
  - intros r' Hr. apply list_elem_of_fmap in Hr as (r & -> & Hr). destruct (which r) eqn:E; auto.
    by apply (Hw r E), H5.
Qed.

Lemma inv_resume_failing o ts row x rest q :
  inv o (with_workers (Failing row x :: rest) q) ->
  inv o (resume o ts (Failing row x) (with_workers rest q)).
Proof.
  intros Hinv. apply inv_forget_worker in Hinv. cbn [resume].
  unfold abandonGroupAfter. cbn [db with_workers].
  apply (inv_update_many o q _ _ rest); [done|done| |].
  - intros r Hr. apply andb_true_iff in Hr as [_ Hr]. split; [by intros E; rewrite E in Hr|].
    split; [by intros [?|?]|]. intros tk H Hu. destruct (H Hu) as (? & _). by split.
  - intros r w Hr Hw Hab Hid. split; [done|]. by right.
Qed.

Lemma inv_answer o row r took rest q :
  inv o (with_workers (Claimed row :: rest) q) -> inv o (answer o row r took (with_workers rest q)).
Proof.
  intros Hinv. pose proof (current o q _ rest Hinv) as [(c & Hc & Hid & Hd & Hu & Hst) He Hch].
  pose proof (current_taken o q _ rest Hinv) as Ht. cbn in *.
  specialize (Hst ltac:(done)).
  assert (Hone : forall r', r' ∈ rows (db q) -> id r' = id row -> r' = c).
  { intros r' Hr' E. apply (row_by_id (rows (db q))); [apply Hinv|done|done|congruence]. }
  pose proof (no_other_busy o q _ rest Hinv eq_refl) as Hother. cbn in Hother.
  destruct Hinv as [H1 H2 H3 H4 H5 H6]. cbn in *.
  apply Forall_cons in H2 as [_ H2]. apply NoDup_cons in H3 as [H3n H3].
  apply Forall_cons in H4 as [_ H4].
  assert (Htimes : forall i, i <> id row ->
    times i match r with SendOk _ => taken q ++ [id row] | _ => taken q end = times i (taken q)).
  { intros i Hi. destruct r; [|done]. rewrite times_app, (times_not_in i [id row]); [lia|].
    by intros ->%list_elem_of_singleton. }
  constructor; cbn; [done| | | | |].
  - apply Forall_app. split; [done|]. constructor; [|done]. constructor; [|done|done].
    exists c. cbn. by split_and!.
  - rewrite omap_app. apply NoDup_app. split; [done|]. split.
    + intros i Hi Hin. apply list_elem_of_singleton in Hin as ->. done.
    + cbn. repeat constructor. apply not_elem_of_nil.
  - apply Forall_app. split.
    + rewrite Forall_forall in *. intros w' Hw'. specialize (H4 w' Hw'). specialize (Hother w' Hw').
      destruct w' as [r'|r'|r' [p|b e ra]|r' x']; cbn in *; try done; intros Hux;
        rewrite Htimes by (apply Hother; done); by apply H4.
    + constructor; [|done]. cbn. destruct r; cbn; [|done]. intros Hux.
      rewrite times_app, Ht by done. unfold times. cbn. rewrite decide_True by done. done.
  - intros r' Hr' Hux. destruct (Z.eq_dec (id r') (id row)) as [E|E].
    + assert (r' = c) as -> by (by apply Hone). rewrite E. specialize (Ht ltac:(congruence)). destruct r.
      * rewrite times_app, Ht. unfold times. cbn. rewrite decide_True by done. cbn.
        split; [lia|]. split; intros E'; rewrite E' in Hst; by destruct Hst.
      * rewrite Ht. split; [lia|]. split; [done|]. intros E'. rewrite E' in Hst. by destruct Hst.
    + rewrite Htimes by done. by apply H5.
  - intros i Hi. destruct r; [|auto]. apply elem_of_app in Hi as [Hi|Hi]; [auto|].
    apply list_elem_of_singleton in Hi as ->. rewrite <- Hid. by apply (wf_next _ _ _ H1).
Qed.

Lemma inv_drain_pass o agent q : inv o q -> inv o (drain_pass o agent q).
Proof.
  intros [H1 H2 H3 H4 H5 H6]. unfold drain_pass. set (l := due _ _ _ _).
  assert (omap busy (map Picked l) = []) as Hb by (clear; by induction l).
  constructor; cbn; try done.
  - apply Forall_app. split; [done|]. apply Forall_forall. intros w Hw.
    apply list_elem_of_fmap in Hw as (r & -> & Hr). apply due_sound in Hr as (Hin & _ & _ & _ & He).
    constructor; [|done|done]. exists r. by split_and!.
  - by rewrite omap_app, Hb, app_nil_r.
  - apply Forall_app. split; [done|]. apply Forall_forall. intros w Hw.
    by apply list_elem_of_fmap in Hw as (r & -> & _).
Qed.

Lemma inv_crash o lost q :
  inv o q -> lost `sublist_of` omap claimed_id (workers q) -> inv o (crash lost q).
Proof.
  intros [H1 H2 H3 H4 H5 H6] Hlost.
  assert (omap claimed_id (workers q) `sublist_of` omap busy (workers q)) as Hsub.
  { clear. induction (workers q) as [|w ws IH]; [done|]. destruct w; cbn; try done.
    - by apply sublist_skip.
    - by apply sublist_cons. }
  assert (NoDup lost) as Hn by (eapply sublist_NoDup; [exact H3|]; by etrans).
  assert (Hin : forall i, i ∈ lost -> exists r, Claimed r ∈ workers q /\ id r = i).
  { intros i Hi. assert (i ∈ omap claimed_id (workers q)) as Hi'
      by (by eapply elem_of_sublist).
    apply list_elem_of_omap in Hi' as (w & Hw & E). destruct w; try done. injection E as <-.
    by exists row. }
  rewrite Forall_forall in H2, H4.
  assert (Hst : forall r, r ∈ rows (db q) -> id r ∈ lost ->
    (status r = Inflight \/ status r = Failed) /\ (uncertain r = false -> times (id r) (taken q) = 0%nat)).
  { intros r Hr Hi. destruct (Hin _ Hi) as (r' & Hw & E).
    destruct (H2 _ Hw) as [(c & Hc & Hid & _ & Hu & Hs) _ _]. cbn in *.
    assert (r = c) as -> by (apply (row_by_id (rows (db q))); [apply H1|done|done|congruence]).
    split; [by apply Hs|]. intros Hux. rewrite Hid. apply (H4 _ Hw). congruence. }
  constructor; cbn; [done|done|constructor|done| |].
  - intros r Hr Hux. rewrite times_app. destruct (decide (id r ∈ lost)) as [Hi|Hi].
    + destruct (Hst r Hr Hi) as [Hs H0]. rewrite H0 by done.
      pose proof (times_NoDup (id r) lost Hn). split; [lia|].
      split; intros E; rewrite E in Hs; by destruct Hs.
    + rewrite (times_not_in _ lost Hi). rewrite Nat.add_0_r. by apply H5.
  - intros i Hi. apply elem_of_app in Hi as [Hi|Hi]; [auto|]. destruct (Hin _ Hi) as (r' & Hw & <-).
    destruct (H2 _ Hw) as [(c & Hc & Hid & _) _ _]. cbn in Hid. rewrite <- Hid.
    by apply (wf_next _ _ _ H1).
Qed.

Lemma inv_recover o ts agents q : inv o q -> workers q = [] -> inv o (recover o ts agents q).
Proof.
  intros Hinv Hw. unfold recover, recoverInflight.
  assert (inv o (with_workers [] q)) as Hinv' by (destruct q; cbn in *; by subst).
  apply inv_events.
  pose proof (inv_update_many o q (inflight_of agents) (recovered ts (clock q)) [] []) as H.
  unfold put in *. cbn in H. rewrite Hw. apply H; [done|done| |].
  - intros r Hr. apply andb_true_iff in Hr as [Hr _]. apply bool_decide_eq_true in Hr.
    split; [congruence|]. split; [by intros [?|?]|]. by intros tk _ Hu.
  - intros r w _ Hin. by apply not_elem_of_nil in Hin.
Qed.

(** *** Enqueueing *)

Fixpoint consecutive (agent group : ustring) (k : Z) (ds : list EnqueueDelivery) : Prop :=
  match ds with
  | [] => True
  | d :: ds' =>
      agentId d = agent /\ groupKey d = group /\ chunkIndex d = k /\
      dedupeKey d = deliveryKey group k /\ consecutive agent group (k + 1) ds'
  end.

Definition has_chunk (rs : list DeliveryRecord) (agent group : ustring) (j : Z) : Prop :=
  exists e, e ∈ rs /\ agentId (delivery e) = agent /\ groupKey (delivery e) = group /\
            chunkIndex (delivery e) = j.

Lemma byDedupeKey_spec agent key d r :
  byDedupeKey agent key d = Some r ->
  r ∈ rows d /\ agentId (delivery r) = agent /\ dedupeKey (delivery r) = key.
Proof.
  unfold byDedupeKey. intros H. apply find_some in H as [Hin Hk]. apply list_elem_of_In in Hin.
  apply andb_true_iff in Hk as [Ha Hk]. by apply bool_decide_eq_true in Ha, Hk.
Qed.

Lemma byDedupeKey_None agent key d :
  byDedupeKey agent key d = None ->
  forall r, r ∈ rows d -> agentId (delivery r) = agent -> dedupeKey (delivery r) <> key.
Proof.
  unfold byDedupeKey. rewrite find_some_iff. intros H r Hr Ha Hk. specialize (H r Hr).
  unfold same_key in H. by rewrite !bool_decide_true in H.
Qed.

(** A new row is the last of its message: nothing already there comes after it. *)
Lemma enqueue_new_last o d q :
  inv o q -> 0 <= chunkIndex d -> dedupeKey d = deliveryKey (groupKey d) (chunkIndex d) ->
  byDedupeKey (agentId d) (dedupeKey d) (db q) = None ->
  forall r, r ∈ rows (db q) -> agentId (delivery r) = agentId d ->
    groupKey (delivery r) = groupKey d -> chunkIndex (delivery r) < chunkIndex d.
Proof.
  intros [[_ _ H3 H4 _ _] _ _ _ _ _] Hj Hkey Hnone r Hr Ha Hg.
  destruct (Z.lt_ge_cases (chunkIndex (delivery r)) (chunkIndex d)) as [|Hge]; [done|]. exfalso.
  assert (has_chunk (rows (db q)) (agentId d) (groupKey d) (chunkIndex d)) as (e & He & E1 & E2 & E3).
  { destruct (Z.eq_dec (chunkIndex (delivery r)) (chunkIndex d)) as [E|E]; [by exists r|].
    destruct (H4 r (chunkIndex d) Hr ltac:(lia)) as (e & He & E1 & E2 & E3).
    exists e. split_and!; congruence || done. }
  apply (byDedupeKey_None _ _ _ Hnone e He E1). destruct (H3 e He) as [_ ->]. congruence.
Qed.

Lemma inv_enqueue_one o ts d q :
  inv o q -> 0 <= chunkIndex d -> dedupeKey d = deliveryKey (groupKey d) (chunkIndex d) ->
  (forall j, 0 <= j < chunkIndex d -> has_chunk (rows (db q)) (agentId d) (groupKey d) j) ->
  inv o (with_db (enqueue_one ts d (db q)).2 q).
Proof.
  intros Hinv Hj Hkey Hprev. unfold enqueue_one.
  destruct (byDedupeKey _ _ _) as [r|] eqn:Ef; [by destruct q|]. cbn [snd].
  pose proof (enqueue_new_last o d q Hinv Hj Hkey Ef) as Hlast.
  assert (Hold : forall r d', r ∈ rows (db q) -> d' = delivery r ->
    earlier_sent (rows (db q)) d' -> earlier_sent (rows (db q) ++ [new_row ts (next_id (db q)) d]) d').
  { intros r d' Hr -> He e Hin Ea Eg Ec. apply elem_of_app in Hin as [Hin|Hin]; [by apply He|].
    apply list_elem_of_singleton in Hin as ->. cbn in *.
    specialize (Hlast r Hr (eq_sym Ea) (eq_sym Eg)). lia. }
  destruct Hinv as [[W1 W2 W3 W4 W5 W6] H2 H3 H4 H5 H6].
  constructor; cbn; try done.
  - constructor.
    + rewrite map_app. apply NoDup_app. split; [done|]. split; [|repeat constructor; apply not_elem_of_nil].
      intros i Hi Hin. apply list_elem_of_singleton in Hin as ->. cbn in Hi.
      apply list_elem_of_fmap in Hi as (r & Hid & Hr). specialize (W2 r Hr). lia.
    + intros r Hr. apply elem_of_app in Hr as [Hr|Hr]; [specialize (W2 r Hr); lia|].
      apply list_elem_of_singleton in Hr as ->. cbn. lia.
    + intros r Hr. apply elem_of_app in Hr as [Hr|Hr]; [by apply W3|].
      by apply list_elem_of_singleton in Hr as ->.
    + intros r j Hr Hlt. apply elem_of_app in Hr as [Hr|Hr].
      * destruct (W4 r j Hr Hlt) as (e & He & ?). exists e. split; [|done].
        apply elem_of_app. by left.
      * apply list_elem_of_singleton in Hr as ->. cbn in *.
        destruct (Hprev j Hlt) as (e & He & ?). exists e. split; [|done]. apply elem_of_app. by left.
    + intros r Hr Hst. apply elem_of_app in Hr as [Hr|Hr].
      * apply (Hold r); [done|done|]. by apply W5.
      * apply list_elem_of_singleton in Hr as ->. by destruct Hst.
    + intros r Hr Hst. apply elem_of_app in Hr as [Hr|Hr]; [by apply W6|].
      apply list_elem_of_singleton in Hr as ->. by destruct Hst.
  - rewrite Forall_forall in *. intros w Hw.
    destruct (H2 w Hw) as [(c & Hc & Hid & Hd & Hu & Hst) He Hch]. constructor; [|by apply (Hold c)|done].
    exists c. split; [apply elem_of_app; by left|done].
  - intros r Hr. apply elem_of_app in Hr as [Hr|Hr]; [by apply H5|].
    apply list_elem_of_singleton in Hr as ->. intros _. cbn.
    rewrite (times_not_in (next_id (db q))); [split; [lia|]; by split|].
    intros Hin. specialize (H6 _ Hin). lia.
  - intros i Hi. specialize (H6 i Hi). lia.
Qed.

Lemma enqueue_one_has ts d o q :
  inv o q -> 0 <= chunkIndex d -> dedupeKey d = deliveryKey (groupKey d) (chunkIndex d) ->
  has_chunk (rows (enqueue_one ts d (db q)).2) (agentId d) (groupKey d) (chunkIndex d) /\
  forall r, r ∈ rows (db q) -> r ∈ rows (enqueue_one ts d (db q)).2.
Proof.
  intros [[_ _ W3 _ _ _] _ _ _ _ _] Hj Hkey. unfold enqueue_one.
  destruct (byDedupeKey _ _ _) as [r|] eqn:Ef; cbn.
  - apply byDedupeKey_spec in Ef as (Hr & Ha & Hk). split; [|done].
    destruct (W3 r Hr) as [Hc Hdk]. rewrite Hkey, Hdk in Hk.
    apply deliveryKey_inj in Hk as [Hg Hi]; [|done|done]. by exists r.
  - split; [|intros r Hr; apply elem_of_app; by left].
    exists (new_row ts (next_id (db q)) d). split; [apply elem_of_app; right; by left|done].
Qed.

Lemma inv_enqueue o ts agent group ds k q :
  inv o q -> 0 <= k -> consecutive agent group k ds ->
  (forall j, 0 <= j < k -> has_chunk (rows (db q)) agent group j) ->
  inv o (with_db (enqueue ts ds (db q)).2 q).
Proof.
  revert k q. induction ds as [|d ds IH]; intros k q Hinv Hk Hc Hprev; cbn [enqueue].
  - by destruct q.
  - cbn in Hc. destruct Hc as (Ha & Hg & Hi & Hdk & Hc).
    rewrite <- Hg, <- Hi in Hdk.
    assert (0 <= chunkIndex d) as Hd0 by lia.
    pose proof (inv_enqueue_one o ts d q Hinv Hd0 Hdk) as H1.
    destruct (enqueue_one_has ts d o q Hinv Hd0 Hdk) as [Hhas Hmono].
    destruct (enqueue_one ts d (db q)) as [res d1] eqn:E1. cbn [snd] in *.
    specialize (IH (k + 1) (with_db d1 q)).
    destruct (enqueue ts ds d1) as [results d2] eqn:E2. cbn [snd db with_db] in *.
    rewrite E2 in IH. cbn in IH. apply IH; [|lia|done|].
    + apply H1. intros j Hj. rewrite Ha, Hg. apply Hprev. lia.
    + intros j Hj. destruct (Z.eq_dec j k) as [->|].
      * by rewrite Ha, Hg, Hi in Hhas.
      * destruct (Hprev j ltac:(lia)) as (e & He & ?). exists e. split; [by apply Hmono|done].
Qed.

Lemma deliveries_consecutive reply group now chunks total k :
  consecutive (e_agentId reply) group (Z.of_nat k)
    (imap (fun i c => chunk_delivery reply group total now (Z.of_nat (k + i)) c) chunks).
Proof.
  revert k. induction chunks as [|c chunks IH]; intros k; cbn; [done|].
  rewrite Nat.add_0_r. do 4 (split; [done|]). replace (Z.of_nat k + 1) with (Z.of_nat (S k)) by lia.
  specialize (IH (S k)). erewrite imap_ext; [exact IH|]. intros i x Hx. cbn. do 2 f_equal. lia.
Qed.

Lemma inv_enqueueReport `{Segmenter} `{PathModule} o ts now reply records inserted db' q :
  inv o q -> enqueueReport o ts now reply (db q) = Some (Ok (records, inserted, db')) ->
  inv o (with_db db' q).
Proof.
  intros Hinv He. unfold enqueueReport in He.
  destruct (channels o !! _) as [limits|]; [|done].
  destruct (reply_group reply) as [group|]; [|done].
  destruct (chunks_of limits reply) as [chunks|]; [|done]. cbn in He.
  destruct (enqueue ts (deliveries_of reply group now chunks) (db q)) as [results d2] eqn:E.
  injection He as _ _ <-.
  pose proof (inv_enqueue o ts (e_agentId reply) group (deliveries_of reply group now chunks) 0 q
    Hinv ltac:(lia)) as Hi. rewrite E in Hi. apply Hi; [|intros j Hj; lia].
  apply (deliveries_consecutive reply group now chunks (zlen chunks) 0).
Qed.

Lemma inv_step `{Segmenter} `{PathModule} o q q' : step o q q' -> inv o q -> inv o q'.
Proof.
  intros Hs Hinv. destruct Hs as [ts now reply recs ins db' q He|agent q|ts l1 w l2 q Hw
    |l1 row l2 r took q Hw|l1 w l2 q Hw _|lost q Hl|ts agents q Hw|t q].
  - by eapply inv_enqueueReport.
  - by apply inv_drain_pass.
  - apply (inv_drop_worker _ _ _ _ _ Hw) in Hinv. destruct w as [row|row|row [p|b e ra]|row x].
    + by apply inv_resume_picked.
    + cbn [resume]. apply inv_put_worker.
      * apply inv_forget_worker in Hinv. destruct Hinv. constructor; cbn; by rewrite ?app_nil_r.
      * by apply current in Hinv.
      * by apply current_taken in Hinv.
      * intros i Hi Hin. destruct Hinv as [_ _ Hb _ _ _]. cbn in Hb, Hi, Hin.
        apply NoDup_cons in Hb as [Hb _]. congruence.
    + by apply inv_resume_sent.
    + cbn [resume]. case_match.
      * exact (inv_resume_failed o ts row b e ra _ (l1 ++ l2) q Hinv).
      * exact (inv_resume_retry o ts row b e ra _ _ (l1 ++ l2) q Hinv).
    + by apply inv_resume_failing.
  - apply (inv_drop_worker _ _ _ _ _ Hw) in Hinv. by apply inv_answer.
  - apply (inv_drop_worker _ _ _ _ _ Hw) in Hinv. by apply inv_forget_worker in Hinv.
  - by apply inv_crash.
  - by apply inv_recover.
  - destruct Hinv. by constructor.
Qed.

Lemma inv_initial o t : inv o (initial t).
Proof.
  assert (forall (r : DeliveryRecord), r ∈ [] -> False) as Hno
    by (intros r Hr; by apply not_elem_of_nil in Hr).
  constructor; cbn; [|constructor|constructor|constructor| |].
  - constructor; cbn; [constructor|..]; intros r; intros; exfalso; by apply (Hno r).
  - intros r Hr. by apply Hno in Hr.
  - intros i Hi. by apply not_elem_of_nil in Hi.
Qed.

(** ** Properties *)

(** C1. A copy too many is one somebody denied. In every interleaving of enqueues, drains, sends,
    store calls that fail, crashes and recoveries, and whichever messages the provider took although
    their [send] threw, timed out or reported a failure: a delivery that is not flagged uncertain (no
    recovery gave it back after a crash) reached the provider once for each time that was denied, and
    at most once more - exactly once more when it is marked sent, not once more while it waits. So it
    reached the provider at most once if no failure it was answered was wrong. *)
Theorem delivered_at_most_once `{Segmenter} `{PathModule} o t q r :
  rtc (step o) (initial t) q -> r ∈ rows (db q) -> uncertain r = false ->
  (times (id r) (denied q) <= times (id r) (received q) <= S (times (id r) (denied q)))%nat /\
  (status r = Pending -> times (id r) (received q) = times (id r) (denied q)) /\
  (status r = Sent -> times (id r) (received q) = S (times (id r) (denied q))) /\
  (id r ∉ denied q -> (times (id r) (received q) <= 1)%nat).
Proof.
  intros Hr Hin Hu.
  assert (inv o q) as Hinv
    by (eapply (reachable_invariant (step o) (inv o)); [apply inv_step|exact Hr|apply inv_initial]).
  destruct (inv_taken_rows _ _ Hinv r Hin Hu) as (H1 & H2 & H3). unfold received. rewrite times_app.
  split_and!; [lia|lia|..].
  - intros Hs. by rewrite H2.
  - intros Hs. by rewrite H3.
  - intros Hn. by rewrite (times_not_in _ (denied q)), Nat.add_0_r.
Qed.

(** Chunks go out in order, in every interleaving: a chunk that has been sent, or is
    being sent, has every earlier chunk of its message sent. *)
Theorem chunks_in_order `{Segmenter} `{PathModule} o t q r e :
  rtc (step o) (initial t) q -> r ∈ rows (db q) -> e ∈ rows (db q) ->
  status r = Inflight \/ status r = Sent ->
  agentId (delivery e) = agentId (delivery r) -> groupKey (delivery e) = groupKey (delivery r) ->
  chunkIndex (delivery e) < chunkIndex (delivery r) -> status e = Sent.
Proof.
  intros Hr Hin He Hst.
  assert (inv o q) as Hinv
    by (eapply (reachable_invariant (step o) (inv o)); [apply inv_step|exact Hr|apply inv_initial]).
  by apply (wf_order _ _ _ (inv_rows _ _ Hinv) r Hin Hst).
Qed.

(** *** Enqueueing twice *)

Lemma find_app {A} (f : A -> bool) l1 l2 :
  List.find f (l1 ++ l2) = match List.find f l1 with Some x => Some x | None => List.find f l2 end.
Proof. induction l1 as [|x l1 IH]; simpl; [done|]. by destruct (f x). Qed.

Definition known (d : EnqueueDelivery) (db : Outbox) : option DeliveryRecord :=
  byDedupeKey (agentId d) (dedupeKey d) db.

Lemma enqueue_one_known ts d db res db' :
  enqueue_one ts d db = (res, db') ->
  known d db' = Some res.1 /\ forall d' r, known d' db = Some r -> known d' db' = Some r.
Proof.
  unfold enqueue_one, known. destruct (byDedupeKey (agentId d) (dedupeKey d) db) as [r|] eqn:E;
    intros [= <- <-]; cbn; [done|]. unfold byDedupeKey in *. cbn. split.
  - rewrite find_app, E. cbn. unfold same_key. cbn. by rewrite !bool_decide_true.
  - intros d' r H. by rewrite find_app, H.
Qed.

Lemma enqueue_known ts ds db results db' :
  enqueue ts ds db = (results, db') ->
  Forall2 (fun d res => known d db' = Some res.1) ds results /\
  forall d' r, known d' db = Some r -> known d' db' = Some r.
Proof.
  revert db results db'. induction ds as [|d ds IH]; intros db results db' E; cbn in E.
  - injection E as <- <-. by split.
  - destruct (enqueue_one ts d db) as [res d1] eqn:E1.
    destruct (enqueue ts ds d1) as [rs d2] eqn:E2. injection E as <- <-.
    destruct (enqueue_one_known _ _ _ _ _ E1) as [Hk Hm]. destruct (IH _ _ _ E2) as [Hall Hm2].
    split; [constructor; auto|auto].
Qed.

Lemma enqueue_again ts ds ds' db (results : list (DeliveryRecord * bool)) :
  Forall2 (fun d res => known d db = Some res.1) ds results ->
  Forall2 (fun d d' => agentId d = agentId d' /\ dedupeKey d = dedupeKey d') ds ds' ->
  enqueue ts ds' db = (map (fun res => (res.1, false)) results, db).
Proof.
  intros H. revert ds'. induction H as [|d res ds results Hk H IH]; intros ds' H'; inversion H'; subst;
    cbn; [done|]. unfold enqueue_one, known in *. destruct H2 as [<- <-]. rewrite Hk.
  by rewrite (IH _ H4).
Qed.

(** Enqueueing is idempotent: a replay of the same reply - however much later, and
    whatever has happened to its rows in the table it finds - returns the same records in
    the same order, reports nothing new and leaves the table as it was. *)
Theorem enqueueReport_idempotent `{Segmenter} `{PathModule} o ts now ts' now' reply db
    records inserted db' :
  enqueueReport o ts now reply db = Some (Ok (records, inserted, db')) ->
  enqueueReport o ts' now' reply db' = Some (Ok (records, false, db')).
Proof.
  unfold enqueueReport. destruct (channels o !! _) as [limits|]; [|done].
  destruct (reply_group reply) as [group|]; [|done].
  destruct (chunks_of limits reply) as [chunks|]; [|done]. cbn.
  destruct (enqueue ts (deliveries_of reply group now chunks) db) as [results d2] eqn:E.
  intros [= <- <- <-]. destruct (enqueue_known _ _ _ _ _ E) as [Hk _].
  rewrite (enqueue_again ts' _ (deliveries_of reply group now' chunks) d2 results Hk).
  - rewrite map_map. assert (existsb snd (map (fun res => (res.1, false)) results) = false) as ->
      by (clear; by induction results). done.
  - unfold deliveries_of. apply Forall2_same_length_lookup_2; [by rewrite !length_imap|].
    intros i d d'. rewrite !list_lookup_imap. destruct (chunks !! i) as [c|]; [|done].
    by intros [= <-] [= <-].
Qed.

(** *** A failed chunk ends its message *)

(** ** Executions *)

Inductive action :=
| QEnqueue (reply : EnqueueReply)
| QDrain (agent : ustring)
| QResume (i : nat)
| QAnswer (i : nat) (r : SendResult) (took : bool)
| QCrash
| QRecover (agents : list ustring)
| QClock (t : Z).

Section Executions.
Context `{Segmenter} `{PathModule} (o : Options).

Definition perform (a : action) (q : Queue) : option Queue :=
  match a with
  | QEnqueue reply =>
      match enqueueReport o (clock q) (clock q) reply (db q) with
      | Some (Ok (_, _, db')) => Some (with_db db' q)
      | _ => None
      end
  | QDrain agent => Some (drain_pass o agent q)
  | QResume i =>
      w ← workers q !! i;
      Some (resume o (clock q) w
              (with_workers (take i (workers q) ++ drop (S i) (workers q)) q))
  | QAnswer i r took =>
      match workers q !! i with
      | Some (Claimed row) =>
          Some (answer o row r took (with_workers (take i (workers q) ++ drop (S i) (workers q)) q))
      | _ => None
      end
  | QCrash => Some (crash [] q)
  | QRecover agents =>
      match workers q with [] => Some (recover o (clock q) agents q) | _ => None end
  | QClock t => Some (with_clock t q)
  end.

Fixpoint execute (l : list action) (q : Queue) : option Queue :=
  match l with
  | [] => Some q
  | a :: l' => q' ← perform a q; execute l' q'
  end.

Lemma perform_queue_step a q q' : perform a q = Some q' -> step o q q'.
Proof.
  intros Hp. destruct a; cbn in Hp.
  - destruct (enqueueReport _ _ _ _ _) as [[[[rs b] d]|]|] eqn:E; [|done|done].
    injection Hp as <-. by eapply s_enqueue.
  - injection Hp as <-. apply s_drain.
  - destruct (workers q !! i) as [w|] eqn:E; [|done]. injection Hp as <-.
    apply s_resume. by rewrite take_drop_middle.
  - destruct (workers q !! i) as [[|row| |]|] eqn:E; try done. injection Hp as <-.
    apply s_answer. by rewrite take_drop_middle.
  - injection Hp as <-. apply s_crash. apply sublist_nil_l.
  - destruct (workers q) eqn:E; [|done]. injection Hp as <-. by apply s_recover.
  - injection Hp as <-. apply s_clock.
Qed.

Lemma execute_queue_steps l q q' : execute l q = Some q' -> rtc (step o) q q'.
Proof.
  revert q. induction l as [|a l IH]; intros q Hx; cbn in Hx; [by injection Hx as <-|].
  destruct (perform a q) as [q1|] eqn:E; [|done].
  eapply rtc_l; [by eapply perform_queue_step|by apply IH].
Qed.
End Executions.

#[local] Instance plain_segmenter : Segmenter :=
  Some (fun s => map Z.of_nat (seq 0 (length s))).
#[local] Instance plain_path : PathModule := fun p => default [] (last (split_on 47 p)).

Definition sample_options : Options :=
  options_of {[ js "tg" := {| maxMessageChars := 20; idempotentSend := false;
                              minSendIntervalMs := Some 1000; carries_attachments := false |} ]}
    None None None.

Definition sample_reply (to turn text : string) : EnqueueReply :=
  {| e_agentId := js "a"; e_sessionKey := js "s"; e_channelId := js "tg"; e_recipient := js to;
     e_turnId := Some (js turn); e_key := None; e_thread := None; e_text := js text;
     e_attachments := [] |}.

Definition reached (l : list action) (P : Queue -> Prop) : Prop :=
  match execute sample_options l (initial 0) with Some q => P q | None => False end.

Lemma reached_steps l P :
  reached l P -> exists q, rtc (step sample_options) (initial 0) q /\ P q.
Proof.
  unfold reached. destruct (execute _ _ _) as [q|] eqn:E; [|done]. intros HP. exists q.
  split; [by eapply execute_queue_steps|done].
Qed.

(** One two-chunk reply, its first chunk sent. *)
Definition two_chunks : list action :=
  [QEnqueue (sample_reply "bob" "t1" "hello there and goodbye"); QDrain (js "a"); QResume 0;
   QAnswer 0 (SendOk None) true; QResume 0; QDrain (js "a"); QResume 0].

Lemma delivered_at_most_once_witness :
  reached two_chunks (fun q => exists r, List.find (by_id 1) (rows (db q)) = Some r /\
    status r = Sent /\ times 1 (received q) = S (times 1 (denied q))).
Proof.
  unfold reached. destruct (execute _ _ _) as [q|] eqn:E; [|vm_compute in E; discriminate].
  pose proof (delivered_at_most_once sample_options 0 q) as H.
  specialize (fun r => H r (execute_queue_steps _ _ _ _ E)).
  destruct (List.find (by_id 1) (rows (db q))) as [r|] eqn:Ef;
    [|vm_compute in E; injection E as <-; vm_compute in Ef; discriminate].
  exists r. split; [reflexivity|].
  pose proof Ef as Hin. apply find_some in Hin as [Hin Hid]. apply list_elem_of_In in Hin.
  apply Z.eqb_eq in Hid.
  assert (status r = Sent /\ uncertain r = false) as [Hs Hu]
    by (vm_compute in E; injection E as <-; vm_compute in Ef; injection Ef as <-; split; reflexivity).
  split; [exact Hs|]. rewrite <- Hid. exact (proj1 (proj2 (proj2 (H r Hin Hu))) Hs).
Defined.

Lemma chunks_in_order_witness :
  reached two_chunks (fun q => forall r e, r ∈ rows (db q) -> e ∈ rows (db q) ->
    status r = Inflight \/ status r = Sent ->
    agentId (delivery e) = agentId (delivery r) -> groupKey (delivery e) = groupKey (delivery r) ->
    chunkIndex (delivery e) < chunkIndex (delivery r) -> status e = Sent).
Proof.
  unfold reached. destruct (execute _ _ _) as [q|] eqn:E; [|vm_compute in E; discriminate].
  intros r e. exact (chunks_in_order sample_options 0 q r e (execute_queue_steps _ _ _ _ E)).
Defined.

Lemma enqueueReport_idempotent_witness :
  exists records db', enqueueReport sample_options 5 5 (sample_reply "bob" "t1" "hello")
      {| rows := []; next_id := 1 |} = Some (Ok (records, true, db')) /\
    enqueueReport sample_options 9 9 (sample_reply "bob" "t1" "hello") db' =
      Some (Ok (records, false, db')).
Proof.
  destruct (enqueueReport sample_options 5 5 (sample_reply "bob" "t1" "hello")
    {| rows := []; next_id := 1 |}) as [[[[records b] db']|]|] eqn:E;
    [|vm_compute in E; discriminate..].
  assert (b = true) as -> by (vm_compute in E; injection E; congruence).
  exists records, db'. split; [reflexivity|].
  exact (enqueueReport_idempotent sample_options 5 5 9 9 _ _ records true db' E).
Defined.

(** *** What the keys and the pacing do not cover *)

(** A send that times out or throws after the provider took the message is sent again like one that
    failed, and neither copy is flagged: the window between the bytes leaving and the answer coming
    back is open without any crash. *)
Theorem timed_out_send_repeats_unflagged :
  exists q r, rtc (step sample_options) (initial 0) q /\ r ∈ rows (db q) /\ uncertain r = false /\
    status r = Sent /\ times (id r) (received q) = 2%nat.
Proof.
  destruct (reached_steps [QEnqueue (sample_reply "bob" "t1" "yes"); QDrain (js "a"); QResume 0;
      QAnswer 0 (SendFail true unknown_channel None) true; QResume 0; QClock 5000; QDrain (js "a"); QResume 0;
      QAnswer 0 (SendOk None) true; QResume 0]
    (fun q => exists r, rows (db q) = [r] /\ uncertain r = false /\ status r = Sent /\ times (id r) (received q) = 2%nat))
    as (q & Hq & r & Hr & H).
  - vm_compute. eexists. split_and!; reflexivity.
  - exists q, r. rewrite Hr. split; [done|]. split; [by left|done].
Qed.

(** Idempotence is per chunk, not per reply: replaying a turn whose text came out longer
    finds the first chunk there and queues the rest, so the recipient gets the beginning of
    one reply followed by the end of another. *)
Theorem replay_mixes_two_replies :
  exists q, rtc (step sample_options) (initial 0) q /\
    map (fun r => body (delivery r)) (rows (db q)) = [js "yes"; js "is no after"; js "all"] /\
    List.NoDup (map id (rows (db q))) /\
    length (remove_dups (map (fun r => groupKey (delivery r)) (rows (db q)))) = 1%nat.
Proof.
  apply (reached_steps [QEnqueue (sample_reply "bob" "t1" "yes");
                        QEnqueue (sample_reply "bob" "t1" "the answer is no after all")]).
  vm_compute. split; [reflexivity|]. split; [|reflexivity].
  repeat constructor; cbn; intuition discriminate.
Qed.

(** The minimum gap between two sends on a channel is checked before a row is claimed
    and set after its send returns, so the rows of one drain pass do not pace each other:
    two sends on a channel that asks for a gap are under way at the same moment. *)
Theorem one_pass_ignores_pacing :
  exists q r1 r2, rtc (step sample_options) (initial 0) q /\
    workers q = [Claimed r1; Claimed r2] /\ channel_of r1 = channel_of r2 /\
    0 < send_interval sample_options (channel_of r1).
Proof.
  destruct (reached_steps [QEnqueue (sample_reply "bob" "t1" "yes");
                 QEnqueue (sample_reply "eve" "t2" "no"); QDrain (js "a"); QResume 0; QResume 0]
    (fun q => exists r1 r2, workers q = [Claimed r1; Claimed r2] /\
       channel_of r1 = channel_of r2 /\ 0 < send_interval sample_options (channel_of r1)))
    as (q & Hq & r1 & r2 & H).
  - vm_compute. eexists _, _. split; [reflexivity|]. split; reflexivity.
  - by exists q, r1, r2.
Qed.
