(* ===== verification/OutboxLive.v ===== *)
(** * Every delivery settles: the queue of [channels/outbox.ts] makes progress

    [Outbox.v] shows what no interleaving can do; this file shows what polling does. A round is a
    pass of [drain] carried to its end, its attempts interleaved in any way; while anything is
    pending a round takes something off a bounded amount of work left, whatever the provider
    answers. *)
From S2P Require Import Prelude UString Split DeliveryKey OutboxStore Outbox.
Local Open Scope Z_scope.

Section Live.
Context (o : Options) (agent : ustring).

(** What the provider may answer to a message. *)
Context (answers : DeliveryRecord -> SendResult -> Prop).

Definition mine (r : DeliveryRecord) : Prop := agentId (delivery r) = agent.

(** ** The attempts of a pass *)

(** A worker goes on, the provider answers, or time passes. *)
Definition can_resume (w : Worker) : bool := match w with Claimed _ => false | _ => true end.

Inductive work : Queue -> Queue -> Prop :=
| k_resume ts l1 w l2 q : workers q = l1 ++ w :: l2 -> can_resume w = true ->
    work q (resume o ts w (with_workers (l1 ++ l2) q))
| k_answer l1 row l2 r took q : workers q = l1 ++ Claimed row :: l2 -> answers row r ->
    work q (answer o row r took (with_workers (l1 ++ l2) q))
| k_clock t q : clock q <= t -> work q (with_clock t q).

(** When nothing of the table and no channel's pace is still ahead. *)
Definition all_due (t : Z) (q : Queue) : Prop :=
  0 <= t /\ (forall r, r ∈ rows (db q) -> nextAttemptAt r <= t) /\
  (forall c u, nextSendAt q !! c = Some u -> u <= t).

(** A pass at such a moment, carried to its end. *)
Inductive round : Queue -> Queue -> Prop :=
| a_round t q q' : workers q = [] -> all_due t q ->
    rtc work (drain_pass o agent (with_clock t q)) q' -> workers q' = [] -> round q q'.

(** ** The work left *)

Definition weight (r : DeliveryRecord) : nat :=
  if bool_decide (mine r) && open_status (status r) then S (Z.to_nat (maxAttempts o - attempts r)) else O.
Definition left_to_do (rs : list DeliveryRecord) : nat := sum_list_with weight rs.

Lemma left_map rs g : (forall r, r ∈ rs -> (weight (g r) <= weight r)%nat) ->
  (left_to_do (map g rs) <= left_to_do rs)%nat.
Proof.
  unfold left_to_do. induction rs as [|r rs IH]; intros H; [done|]. cbn.
  pose proof (H r ltac:(by left)). specialize (IH (fun x Hx => H x ltac:(by right))). lia.
Qed.

Lemma left_map_lt rs g c : (forall r, r ∈ rs -> (weight (g r) <= weight r)%nat) -> c ∈ rs ->
  (weight (g c) < weight c)%nat -> (left_to_do (map g rs) < left_to_do rs)%nat.
Proof.
  intros H Hc Hlt. induction Hc as [c rs|c r rs Hc IH].
  - pose proof (left_map rs g (fun x Hx => H x ltac:(by right))). unfold left_to_do in *. cbn. lia.
  - pose proof (H r ltac:(by left)). specialize (IH (fun x Hx => H x ltac:(by right)) Hlt).
    unfold left_to_do in *. cbn. lia.
Qed.

Lemma left_zero rs r : left_to_do rs = O -> r ∈ rs -> mine r -> open_status (status r) = false.
Proof.
  intros H Hr Hm. induction Hr as [r rs|r x rs Hr IH]; unfold left_to_do in *; cbn in H.
  - destruct (open_status (status r)) eqn:E; [|done]. unfold weight in H.
    rewrite bool_decide_true, E in H by done. cbn in H. lia.
  - apply IH; [lia|done].
Qed.

Lemma left_some rs : left_to_do rs <> O -> exists r, r ∈ rs /\ mine r /\ open_status (status r) = true.
Proof.
  induction rs as [|r rs IH]; [done|]. intros Hn.
  destruct (decide (mine r /\ open_status (status r) = true)) as [[Hm Ho]|Hno].
  - exists r. split_and!; [by left|done..].
  - destruct IH as (x & Hx & ?); [|exists x; split; [by right|done]].
    unfold left_to_do in *. cbn in Hn. replace (weight r) with O in Hn; [done|]. unfold weight.
    destruct (bool_decide (mine r)) eqn:Em; [|done]. apply bool_decide_eq_true in Em. cbn.
    destruct (open_status _) eqn:Eo; [|done]. by destruct Hno.
Qed.

(** ** What holds while a pass runs *)

Definition same_message (a b : DeliveryRecord) : Prop :=
  agentId (delivery a) = agentId (delivery b) /\ groupKey (delivery a) = groupKey (delivery b).

(** A worker's snapshot and its row. *)
Definition tracks (w : Worker) (c : DeliveryRecord) : Prop :=
  id c = id (worker_row w) /\ delivery c = delivery (worker_row w) /\
  match w with
  | Picked p => c = p /\ status p = Pending
  | Claimed p | Answered p _ => status c = Inflight /\ attempts c = attempts p
  | Failing _ _ => status c = Failed
  end.

Definition failing_before (r : DeliveryRecord) (w : Worker) : Prop :=
  match w with
  | Failing p _ => same_message p r /\ chunkIndex (delivery p) < chunkIndex (delivery r)
  | _ => False
  end.

Record live (q : Queue) : Prop := {
  l_ids : NoDup (map (fun w => id (worker_row w)) (workers q));
  l_tracks : forall w, w ∈ workers q -> mine (worker_row w) /\ exists c, c ∈ rows (db q) /\ tracks w c;
  l_inflight : forall r, r ∈ rows (db q) -> mine r -> status r = Inflight ->
    exists w, w ∈ workers q /\ busy w = Some (id r);
  l_open : forall r e, r ∈ rows (db q) -> e ∈ rows (db q) -> mine r -> same_message e r ->
    chunkIndex (delivery e) < chunkIndex (delivery r) -> open_status (status r) = true ->
    status e = Failed -> exists w, w ∈ workers q /\ failing_before r w }.

Lemma rows_same_id q r c : inv o q -> r ∈ rows (db q) -> c ∈ rows (db q) -> id r = id c -> r = c.
Proof. intros Hi. apply row_by_id, Hi. Qed.

Lemma mid_elem {A} (x w : A) l1 l2 : x ∈ l1 ++ w :: l2 <-> x = w \/ x ∈ l1 ++ l2.
Proof. rewrite !elem_of_app, elem_of_cons. tauto. Qed.

Lemma failing_same r r' w : delivery r' = delivery r -> failing_before r w -> failing_before r' w.
Proof. unfold failing_before, same_message. by intros ->. Qed.

(** One worker leaves, the rows of the others are left alone, and it may come back. *)
Lemma live_update q q' l1 w l2 ws g : inv o q -> live q ->
  workers q = l1 ++ w :: l2 -> workers q' = (l1 ++ l2) ++ ws -> rows (db q') = map g (rows (db q)) ->
  (forall r, id (g r) = id r /\ delivery (g r) = delivery r) ->
  (forall w' c, w' ∈ l1 ++ l2 -> c ∈ rows (db q) -> id c = id (worker_row w') -> g c = c) ->
  (ws = [] \/ exists w1 c, ws = [w1] /\ worker_row w1 = worker_row w /\ c ∈ rows (db q) /\ tracks w1 (g c)) ->
  (forall r, r ∈ rows (db q) -> status (g r) = Inflight ->
     (status r = Inflight /\ busy w <> Some (id r)) \/ exists w1, w1 ∈ ws /\ busy w1 = Some (id r)) ->
  (forall r e, r ∈ rows (db q) -> e ∈ rows (db q) -> same_message e r ->
     chunkIndex (delivery e) < chunkIndex (delivery r) -> open_status (status (g r)) = true ->
     status (g e) = Failed ->
     (open_status (status r) = true /\ status e = Failed /\ ~ failing_before r w) \/
     exists w1, w1 ∈ ws /\ failing_before r w1) ->
  live q'.
Proof.
  intros Hinv [L1 L2 L3 L4] Hw Hw' Hr Hg Hother Hws Hinfl Hopen.
  rewrite Hw in L1, L2. rewrite map_app in L1. cbn in L1.
  assert (NoDup (id (worker_row w) :: map (fun w => id (worker_row w)) (l1 ++ l2))) as Hn.
  { rewrite map_app. by rewrite <- Permutation_middle in L1. }
  apply NoDup_cons in Hn as [Hn1 Hn2].
  assert (forall r, mine (g r) <-> mine r) as Hmine by (intros r; unfold mine; by destruct (Hg r) as [_ ->]).
  constructor; rewrite ?Hw', ?Hr.
  - rewrite map_app. destruct Hws as [->|(w1 & c & -> & E & _)]; [by rewrite app_nil_r|].
    cbn. rewrite E, <- Permutation_cons_append. by constructor.
  - intros w' [Hin|Hin]%elem_of_app.
    + destruct (L2 w') as [Hm (c & Hc & Ht)]; [apply mid_elem; by right|]. split; [done|]. exists c.
      split; [|done]. apply list_elem_of_fmap. exists c. split; [|done]. symmetry.
      apply (Hother w'); [done..|]. by destruct Ht.
    + destruct Hws as [->|(w1 & c & -> & E & Hc & Ht)]; [by apply elem_of_nil in Hin|].
      apply list_elem_of_singleton in Hin as ->.
      split; [rewrite E; apply L2, mid_elem; by left|].
      exists (g c). split; [by apply list_elem_of_fmap_2|done].
  - intros r' Hr' Hm Hs. apply list_elem_of_fmap in Hr' as (r & -> & Hin). rewrite Hmine in Hm.
    destruct (Hg r) as [-> _]. destruct (Hinfl r Hin Hs) as [[Hs' Hb]|(w1 & Hw1 & Hb)].
    + destruct (L3 r Hin Hm Hs') as (w' & Hin' & Hb'). rewrite Hw in Hin'. exists w'. split; [|done].
      apply mid_elem in Hin' as [->|?]; [done|]. apply elem_of_app. by left.
    + exists w1. split; [apply elem_of_app; by right|done].
  - intros r' e' Hr' He' Hm Hsame Hlt Ho Hf.
    apply list_elem_of_fmap in Hr' as (r & -> & Hin). apply list_elem_of_fmap in He' as (e & -> & Hine).
    rewrite Hmine in Hm. unfold same_message in Hsame.
    destruct (Hg r) as [_ Dr], (Hg e) as [_ De]. rewrite Dr, De in *.
    destruct (Hopen r e Hin Hine Hsame Hlt Ho Hf) as [(Ho' & Hf' & Hno)|(w1 & Hw1 & Hb)].
    + destruct (L4 r e Hin Hine Hm Hsame Hlt Ho' Hf') as (w' & Hin' & Hb'). rewrite Hw in Hin'. exists w'.
      split; [|by apply (failing_same r)].
      apply mid_elem in Hin' as [->|?]; [done|]. apply elem_of_app. by left.
    + exists w1. split; [apply elem_of_app; by right|by apply (failing_same r)].
Qed.

(** A worker leaves and nothing else changes. *)
Lemma live_forget q q' l1 w l2 : inv o q -> live q -> workers q = l1 ++ w :: l2 -> workers q' = l1 ++ l2 ->
  db q' = db q -> busy w = None -> (forall r, ~ failing_before r w) -> live q'.
Proof.
  intros Hi Hl Hw Hw' Hd Hb Hf. apply (live_update q q' l1 w l2 [] (fun r => r)); try done.
  - by rewrite app_nil_r.
  - by rewrite Hd, map_id.
  - by left.
  - intros r _ Hs. left. by rewrite Hb.
  - intros r e _ _ _ _ Ho He. left. split_and!; auto.
Qed.

Definition is_failing (w : Worker) : bool := match w with Failing _ _ => true | _ => false end.

(** A worker updates its own row. *)
Lemma live_at q q' l1 w l2 ws c f : inv o q -> live q -> workers q = l1 ++ w :: l2 ->
  workers q' = (l1 ++ l2) ++ ws -> is_failing w = false ->
  rows (db q') = map (at_id (id (worker_row w)) f) (rows (db q)) ->
  (forall r, id (f r) = id r /\ delivery (f r) = delivery r) ->
  c ∈ rows (db q) -> tracks w c ->
  (ws = [] \/ exists w1, ws = [w1] /\ worker_row w1 = worker_row w /\ tracks w1 (f c)) ->
  (status (f c) = Inflight -> exists w1, w1 ∈ ws /\ busy w1 = Some (id c)) ->
  (status (f c) = Failed -> exists x, Failing (worker_row w) x ∈ ws) ->
  open_status (status c) = true -> (weight (f c) <= weight c)%nat ->
  live q' /\ ((weight (f c) < weight c)%nat -> (left_to_do (rows (db q')) < left_to_do (rows (db q)))%nat) /\
  (left_to_do (rows (db q')) <= left_to_do (rows (db q)))%nat.
Proof.
  intros Hi Hl Hw Hw' Hnf Hr Hf Hc Ht Hws Hin Hfa Hop Hwt. set (i := id (worker_row w)) in *.
  assert (id c = i /\ delivery c = delivery (worker_row w)) as [Hid Hd] by (by destruct Ht as (? & ? & _)).
  assert (forall r, r ∈ rows (db q) -> (r = c /\ at_id i f r = f c) \/ (id r <> i /\ at_id i f r = r)) as Hcase.
  { intros r Hr'. destruct (Z.eq_dec (id r) i) as [E|E]; [left|right; by rewrite at_id_ne].
    rewrite at_id_eq by done. rewrite (rows_same_id q r c) by (done || congruence). done. }
  assert (forall r, r ∈ rows (db q) -> (weight (at_id i f r) <= weight r)%nat) as Hle.
  { intros r Hr'. destruct (Hcase r Hr') as [[-> ->]|[_ ->]]; [done|lia]. }
  split; [|rewrite Hr; split; [|by apply left_map]].
  - apply (live_update q q' l1 w l2 ws (at_id i f)); try done.
    + intros r. unfold at_id. destruct (by_id i r); [apply Hf|done].
    + intros w' x Hx Hxr E. apply at_id_ne. intros Ei. destruct Hl as [L1 _ _ _].
      rewrite Hw, map_app in L1. cbn in L1. rewrite <- Permutation_middle, <- map_app in L1.
      apply NoDup_cons in L1 as [L1 _]. apply L1. fold i. rewrite <- Ei, E.
      by apply (list_elem_of_fmap_2 (fun w => id (worker_row w))).
    + destruct Hws as [->|(w1 & -> & E & Ht1)]; [by left|right]. exists w1, c.
      by rewrite at_id_eq by done.
    + intros r Hr' Hs. destruct (Hcase r Hr') as [[-> E]|[Hne E]]; rewrite E in Hs; [right; auto|left].
      split; [done|]. intros Hb. apply Hne. destruct w; cbn in Hb; try done; by injection Hb as <-.
    + intros r e Hr' He Hsame Hlt Ho Hfe.
      destruct (Hcase e He) as [[-> E]|[Hne E]]; rewrite E in Hfe.
      * right. destruct (Hfa Hfe) as [x Hx]. eexists. split; [exact Hx|]. cbn.
        unfold same_message. rewrite <- Hd. by split.
      * left. split; [|split; [done|by intros H; destruct w]].
        destruct (Hcase r Hr') as [[-> _]|[_ E']]; [done|by rewrite E' in Ho].
  - intros Hlt. apply (left_map_lt _ _ c); [done..|]. by rewrite at_id_eq.
Qed.

(** ** Every piece of work makes progress *)

Definition paced_by_now (q : Queue) : Prop := 0 <= clock q /\ forall c u, nextSendAt q !! c = Some u -> u <= clock q.

(** Something is under way that will take work off. *)
Definition under_way (q : Queue) : Prop :=
  (exists w, w ∈ workers q /\ busy w <> None) \/
  (paced_by_now q /\ exists p, Picked p ∈ workers q).

Definition advances (q q' : Queue) : Prop :=
  live q' /\ ((left_to_do (rows (db q')) < left_to_do (rows (db q)))%nat \/
    (left_to_do (rows (db q')) <= left_to_do (rows (db q)))%nat /\ (under_way q -> under_way q')).

Lemma claim_pending ts p d : NoDup (map id (rows d)) -> p ∈ rows d -> status p = Pending ->
  exists c, claim ts (id p) d = (Some c, update (by_id (id p)) (with_status Inflight ts) d).
Proof.
  intros Hn Hp Hs. destruct (claim ts (id p) d) as [r d'] eqn:E.
  assert (existsb (fun r => by_id (id p) r && bool_decide (status r = Pending)) (rows d) = true) as Hex.
  { apply existsb_exists. exists p. split; [by apply list_elem_of_In|]. unfold by_id.
    by rewrite Z.eqb_refl, bool_decide_eq_true_2. }
  destruct (claim_spec ts (id p) d r d' Hn E) as [[-> ->]|(c & c' & -> & _ & _ & _ & ->)]; [|by exists c'].
  unfold claim in E. rewrite Hex in E. injection E as E _. unfold get in E.
  rewrite find_some_iff in E. exfalso. specialize (E (with_status Inflight ts p)).
  unfold by_id in E at 2. cbn in E. rewrite Z.eqb_refl in E. discriminate E.
  apply list_elem_of_fmap. exists p. split; [|done]. unfold by_id.
  by rewrite Z.eqb_refl, bool_decide_eq_true_2.
Qed.

Lemma weight_open r : mine r -> open_status (status r) = true ->
  weight r = S (Z.to_nat (maxAttempts o - attempts r)).
Proof. intros Hm Ho. unfold weight. by rewrite bool_decide_true, Ho by done. Qed.

Lemma weight_closed r : open_status (status r) = false -> weight r = O.
Proof. intros Ho. unfold weight. by rewrite Ho, andb_false_r. Qed.

(** A worker that stays on and changes nothing that counts. *)
Lemma stays_under_way q q' l1 w l2 w1 : workers q = l1 ++ w :: l2 -> workers q' = (l1 ++ l2) ++ [w1] ->
  busy w1 <> None -> under_way q'.
Proof. intros _ H Hb. left. exists w1. rewrite H. split; [|done]. apply elem_of_app. right. by left. Qed.

Lemma tracked q l1 w l2 : live q -> workers q = l1 ++ w :: l2 ->
  mine (worker_row w) /\ exists c, c ∈ rows (db q) /\ tracks w c /\ mine c.
Proof.
  intros [_ H _ _] Hw. destruct (H w) as [Hm (c & Hc & Ht)]; [rewrite Hw; apply mid_elem; by left|].
  split; [done|]. exists c. split_and!; [done..|]. unfold mine in *. by destruct Ht as (_ & -> & _).
Qed.

Lemma picked_advances ts q l1 p l2 : inv o q -> live q -> workers q = l1 ++ Picked p :: l2 ->
  advances q (resume o ts (Picked p) (with_workers (l1 ++ l2) q)).
Proof.
  intros Hi Hl Hw. destruct (tracked _ _ _ _ Hl Hw) as (Hm & c & Hc & Ht & Hmc).
  destruct Ht as (Hid & Hd & -> & Hs). cbn [worker_row] in *.
  assert (open_status (status p) = true) as Ho by (by rewrite Hs).
  cbn [resume]. destruct (channels o !! channel_of p) as [lim|].
  - cbn [nextSendAt clock with_workers]. destruct (Z.ltb_spec 0 (default 0 (nextSendAt q !! channel_of p) - clock q)) as [Hp|Hp].
    + split; [by apply (live_forget q _ l1 (Picked p) l2); try done; intros r []|]. right. split; [done|]. intros [(w & Hin & Hb)|[Hpace _]].
      * left. exists w. split; [|done]. rewrite Hw in Hin. apply mid_elem in Hin as [->|?]; [by cbn in Hb|done].
      * exfalso. destruct Hpace as [H0 Hpace].
        destruct (nextSendAt q !! channel_of p) as [u|] eqn:Eu; cbn in Hp; [pose proof (Hpace _ _ Eu)|]; lia.
    + destruct (claim_pending ts p (db q) (wf_ids _ _ _ (inv_rows _ _ Hi)) Hc Hs) as [c' E].
      cbn [db with_workers]. rewrite E.
      destruct (live_at q (put (update (by_id (id p)) (with_status Inflight ts) (db q)) [Claimed p] []
        (with_workers (l1 ++ l2) q)) l1 (Picked p) l2 [Claimed p] p (with_status Inflight ts)) as (H1 & _ & H2); try done.
      * right. by exists (Claimed p).
      * intros _. exists (Claimed p). split; [by left|done].
      * by rewrite !weight_open.
      * split; [done|]. right. split; [done|]. intros _. by apply (stays_under_way q _ l1 (Picked p) l2 (Claimed p)).
  - destruct (live_at q (put (markFailed ts (id p) unknown_channel (db q)) [Failing p false] []
      (with_workers (l1 ++ l2) q)) l1 (Picked p) l2 [Failing p false] p _ Hi Hl Hw eq_refl eq_refl eq_refl)
      as (H1 & H2 & _); try done.
    + right. by exists (Failing p false).
    + intros _. exists false. by left.
    + rewrite weight_closed by done. lia.
    + split; [done|left]. apply H2. rewrite weight_closed, (weight_open p) by done. lia.
Qed.

Lemma answered_advances ts q l1 p r l2 : inv o q -> live q -> workers q = l1 ++ Answered p r :: l2 ->
  advances q (resume o ts (Answered p r) (with_workers (l1 ++ l2) q)).
Proof.
  intros Hi Hl Hw. destruct (tracked _ _ _ _ Hl Hw) as (Hm & c & Hc & Ht & Hmc).
  pose proof Ht as (Hid & Hd & Hs & Ha). cbn [worker_row] in *.
  assert (open_status (status c) = true) as Ho by (by rewrite Hs).
  assert (forall ws f db' es, let q' := put db' ws es (with_workers (l1 ++ l2) q) in
    rows db' = map (at_id (id p) f) (rows (db q)) -> (forall x, id (f x) = id x /\ delivery (f x) = delivery x) ->
    (ws = [] \/ exists w1, ws = [w1] /\ worker_row w1 = p /\ tracks w1 (f c)) -> status (f c) <> Inflight ->
    (status (f c) = Failed -> exists x, Failing p x ∈ ws) -> (weight (f c) < weight c)%nat -> advances q q') as Hadv.
  { intros ws f db' es q' Hr Hf Hws Hni Hfa Hlt.
    destruct (live_at q q' l1 (Answered p r) l2 ws c f Hi Hl Hw) as (H1 & H2 & _); try done; [lia|].
    split; [done|left]. by apply H2. }
  cbn [resume]. destruct r as [provider|retryable e ra].
  - eapply Hadv; [done|done|by left|done|done|]. rewrite weight_closed, (weight_open c) by done. lia.
  - destruct (negb retryable || _) eqn:E.
    + eapply Hadv; [done|done|right; by eexists|done|intros _; eexists; by left|].
      rewrite weight_closed, (weight_open c) by done. lia.
    + apply orb_false_iff in E as [_ E]. apply Z.leb_gt in E.
      eapply Hadv; [done|done|by left|done|done|]. rewrite !weight_open by done. cbn. lia.
Qed.

Lemma failing_advances ts q l1 p x l2 : inv o q -> live q -> workers q = l1 ++ Failing p x :: l2 ->
  advances q (resume o ts (Failing p x) (with_workers (l1 ++ l2) q)).
Proof.
  intros Hi Hl Hw. destruct (tracked _ _ _ _ Hl Hw) as (Hm & c & Hc & Ht & Hmc).
  pose proof Ht as (Hid & Hd & Hs). cbn [worker_row] in *. cbn [resume].
  unfold abandonGroupAfter. cbn [db with_workers].
  set (ab := abandoned_by _ _ _). set (f := fun r => if ab r then
    {| id := id r; delivery := delivery r; status := Failed; attempts := attempts r;
       nextAttemptAt := nextAttemptAt r; uncertain := uncertain r; providerMessageId := providerMessageId r;
       error := Some chunk_abandoned; createdAt := createdAt r; updatedAt := ts |} else r).
  set (q' := put _ _ _ _).
  assert (forall r, ab r = true <-> same_message r p /\ chunkIndex (delivery p) < chunkIndex (delivery r) /\
    open_status (status r) = true) as Hab.
  { intros r. unfold ab, abandoned_by, same_group, same_message.
    rewrite !andb_true_iff, !bool_decide_eq_true, Z.ltb_lt. tauto. }
  assert (forall r, ab r = true -> status (f r) = Failed) as Hcl by (intros r E; unfold f; by rewrite E).
  assert (forall r, ab r = false -> f r = r) as Hkeep by (intros r E; unfold f; by rewrite E).
  split.
  - apply (live_update q q' l1 (Failing p x) l2 [] f Hi Hl Hw); try done.
    + intros r. unfold f. by destruct (ab r).
    + intros w' y Hw' Hy E. apply Hkeep. destruct (ab y) eqn:Ey; [|done]. exfalso.
      apply Hab in Ey as ((E1 & E2) & E3 & _).
      pose proof (inv_workers _ _ Hi) as Hws. rewrite Forall_forall in Hws.
      assert (w' ∈ workers q) as Hin by (rewrite Hw; apply mid_elem; by right).
      destruct (Hws w' Hin) as [_ Hearly _]. destruct Hl as [_ L2 _ _].
      destruct (L2 w' Hin) as [_ (y' & Hy' & Eid & Ed & _)].
      rewrite (rows_same_id q y y') in * by (done || congruence).
      specialize (Hearly c Hc). rewrite Hs in Hearly. rewrite Hd, <- Ed in Hearly. by specialize (Hearly (eq_sym E1) (eq_sym E2) E3).
    + by left.
    + intros r Hr Hsr. left. destruct (ab r) eqn:E; [by rewrite Hcl in Hsr|]. by rewrite Hkeep in Hsr.
    + intros r e Hr He Hsame Hlt Ho Hfe. left.
      destruct (ab r) eqn:E; [by rewrite (Hcl r) in Ho|]. rewrite Hkeep in Ho by done. split; [done|].
      assert (~ (same_message p r /\ chunkIndex (delivery p) < chunkIndex (delivery r))) as Hno.
      { intros [[E1 E2] E3]. assert (ab r = true) by (apply Hab; by split). congruence. }
      split; [|exact Hno]. destruct (ab e) eqn:Ee; [|by rewrite Hkeep in Hfe]. exfalso. apply Hno.
      apply Hab in Ee as ((E1 & E2) & E3 & _). destruct Hsame as [E4 E5].
      split; [split; congruence|lia].
  - right. split.
    + apply left_map. intros r _. change (weight (f r) <= weight r)%nat.
      destruct (ab r) eqn:E; [|by rewrite Hkeep]. rewrite weight_closed; [lia|]. by rewrite Hcl.
    + assert (workers q' = l1 ++ l2) as Hq' by (by apply app_nil_r).
      intros [(w & Hin & Hb)|[Hp (y & Hin)]]; rewrite Hw in Hin; apply mid_elem in Hin as [E|Hin];
        try (subst; done); [left; exists w; by rewrite Hq'|right; split; [done|exists y; by rewrite Hq']].
Qed.

Lemma work_advances q q' : inv o q -> live q -> work q q' -> advances q q'.
Proof.
  intros Hi Hl Hwk. destruct Hwk as [ts l1 w l2 q Hw Hc|l1 p l2 r took q Hw Ha|t q Ht].
  - destruct w as [p|p|p r|p x]; [by apply picked_advances|done|by apply answered_advances|by apply failing_advances].
  - destruct (tracked _ _ _ _ Hl Hw) as (Hm & c & Hc & Ht & Hmc).
    split; [|right; split; [done|]].
    + apply (live_update q _ l1 (Claimed p) l2 [Answered p r] (fun r => r) Hi Hl Hw); try done.
      * cbn. by rewrite map_id.
      * right. by exists (Answered p r), c.
      * intros x Hx Hs. cbn. destruct (Z.eq_dec (id p) (id x)) as [E|E].
        -- right. eexists. split; [by left|]. cbn. congruence.
        -- left. split; [done|]. congruence.
      * intros x e _ _ _ _ Ho He. left. split_and!; [done..|]. by intros [].
    + intros _. by apply (stays_under_way q _ l1 (Claimed p) l2 (Answered p r)).
  - split; [by destruct Hl|]. right. split; [done|]. intros [H|[[H0 Hp] H]]; [by left|right].
    split; [|done]. split; cbn; [lia|]. intros c u E. pose proof (Hp c u E). lia.
Qed.

(** ** Rounds *)

Context `{Seg : Segmenter} `{Path : PathModule}.

Lemma work_step q q' : work q q' -> step o q q'.
Proof.
  intros [ts l1 w l2 q1 Hw _|l1 p l2 r took q1 Hw _|t q1 _]; [by apply s_resume|by apply s_answer|apply s_clock].
Qed.

Lemma works_advance q q' : rtc work q q' -> inv o q -> live q -> inv o q' /\ advances q q'.
Proof.
  induction 1 as [q|q q1 q' Hw Hr IH]; intros Hi Hl; [split; [done|]; by split; [|right]|].
  destruct (work_advances _ _ Hi Hl Hw) as [Hl1 Hd1].
  destruct (IH (inv_step o _ _ (work_step _ _ Hw) Hi) Hl1) as [Hi' [Hl' Hd]]. split; [done|]. split; [done|].
  destruct Hd1 as [?|[? Hu1]], Hd as [?|[? Hu]]; [left; lia..|right]. split; [lia|auto].
Qed.

(** Between passes. *)
Record idle (q : Queue) : Prop := {
  i_inv : inv o q; i_workers : workers q = [];
  i_inflight : forall r, r ∈ rows (db q) -> mine r -> status r <> Inflight;
  i_open : forall r e, r ∈ rows (db q) -> e ∈ rows (db q) -> mine r -> same_message e r ->
    chunkIndex (delivery e) < chunkIndex (delivery r) -> status r = Pending -> status e <> Failed }.

Lemma idle_live q : idle q <-> inv o q /\ workers q = [] /\ live q.
Proof.
  split.
  - intros [H1 H2 H3 H4]. split_and!; [done..|]. constructor; rewrite ?H2; [constructor|..].
    + intros w Hw. by apply elem_of_nil in Hw.
    + intros r Hr Hm Hs. by destruct (H3 r Hr Hm).
    + intros r e Hr He Hm Hsm Hlt Ho Hf. exfalso. destruct (status r) eqn:Es; try done.
      * by apply (H4 r e).
      * by destruct (H3 r Hr Hm).
  - intros (H1 & H2 & [_ _ H3 H4]). constructor; [done..| |].
    + intros r Hr Hm Hs. destruct (H3 r Hr Hm Hs) as (w & Hw & _). rewrite H2 in Hw. by apply elem_of_nil in Hw.
    + intros r e Hr He Hm Hsm Hlt Hs Hf. destruct (H4 r e) as (w & Hw & _); try done; [by rewrite Hs|].
      rewrite H2 in Hw. by apply elem_of_nil in Hw.
Qed.

(** The first pending chunk of a message is its head of line. *)
Lemma head_exists q t r : idle q -> all_due t q -> r ∈ rows (db q) -> mine r -> status r = Pending ->
  exists h, head_of_line agent t (db q) h.
Proof.
  intros [Hi Hw Hnf Hop] (H0 & Hdue & _) Hr Hm Hs.
  remember (Z.to_nat (chunkIndex (delivery r))) as n eqn:En. revert r Hr Hm Hs En.
  induction (lt_wf n) as [n _ IH]. intros r Hr Hm Hs En.
  set (earlier := fun e => bool_decide (same_message e r /\ chunkIndex (delivery e) < chunkIndex (delivery r) /\ status e <> Sent)).
  destruct (List.find earlier (rows (db q))) as [e|] eqn:Ef.
  - apply find_some in Ef as [He Hb]. apply list_elem_of_In in He. apply bool_decide_eq_true in Hb as ([E1 E2] & Hlt & Hns).
    pose proof (wf_keys _ _ _ (inv_rows _ _ Hi)) as Hk. destruct (Hk e He) as [He0 _].
    assert (mine e) as Hme by (unfold mine in *; congruence).
    apply (IH (Z.to_nat (chunkIndex (delivery e))) ltac:(lia) e He Hme); [|done].
    destruct (status e) eqn:Es; [done|by destruct (Hnf e He Hme)|done|by destruct (Hop r e)].
  - rewrite find_some_iff in Ef. exists r. split_and!; [done..|by apply Hdue|]. intros e He E1 E2 Hlt.
    specialize (Ef e He). apply bool_decide_eq_false in Ef.
    destruct (decide (status e = Sent)) as [|Hns]; [done|]. exfalso. by apply Ef.
Qed.

Lemma pass_live q t : idle q -> all_due t q -> (1 <= concurrency o)%nat ->
  let q1 := drain_pass o agent (with_clock t q) in
  inv o q1 /\ live q1 /\ rows (db q1) = rows (db q) /\
  ((exists r, r ∈ rows (db q) /\ mine r /\ status r = Pending) -> under_way q1).
Proof.
  intros Hid Hdue Hc. pose proof Hid as [Hi Hw Hnf Hop]. cbn zeta.
  assert (inv o (with_clock t q)) as Hi1 by (by destruct Hi). set (q1 := drain_pass _ _ _).
  assert (workers q1 = map Picked (due agent t (concurrency o) (db q))) as Hw1 by (cbn; by rewrite Hw).
  split; [by apply inv_drain_pass|]. split; [|split; [done|]].
  - constructor; rewrite ?Hw1.
    + rewrite map_map. cbn. destruct (due_head_of_line agent t (concurrency o) (db q)) as (_ & _ & Hsub & _).
      eapply sublist_NoDup; [apply (wf_ids _ _ _ (inv_rows _ _ Hi))|]. clear -Hsub. induction Hsub; cbn; by constructor.
    + intros w Hin. apply list_elem_of_fmap in Hin as (p & -> & Hp). apply due_sound in Hp as (Hp & Hm & Hs & _).
      split; [done|]. by exists p.
    + intros r Hr Hm Hs. by destruct (Hnf r Hr Hm).
    + intros r e Hr He Hm Hsm Hlt Ho Hf. exfalso. destruct (status r) eqn:Es; try done.
      * by apply (Hop r e).
      * by destruct (Hnf r Hr Hm).
  - intros (r & Hr & Hm & Hs). right. destruct Hdue as (H0 & Hd & Hp). split; [by split|].
    destruct (head_exists q t r Hid ltac:(by split_and!) Hr Hm Hs) as [h Hh].
    destruct (due_head_of_line agent t (concurrency o) (db q)) as (_ & _ & _ & Hall).
    rewrite Hw1. destruct (due agent t (concurrency o) (db q)) as [|p l]; [|exists p; by left].
    exfalso. specialize (Hall ltac:(cbn; lia) h Hh). by apply elem_of_nil in Hall.
Qed.

Lemma round_settles q q' : idle q -> (1 <= concurrency o)%nat -> round q q' ->
  idle q' /\ (left_to_do (rows (db q')) <= pred (left_to_do (rows (db q))))%nat.
Proof.
  intros Hid Hc Hrd. revert Hid. destruct Hrd as [t q1 q2 Hw Hdue Hr Hw2]. intros Hid.
  destruct (pass_live q1 t Hid Hdue Hc) as (Hi & Hl & Er & Hun).
  destruct (works_advance _ _ Hr Hi Hl) as [Hi2 [Hl2 Hd]]. rewrite Er in Hd.
  split; [by apply idle_live|].
  destruct (left_to_do (rows (db q1))) as [|n] eqn:En; [cbn; destruct Hd as [?|[? _]]; lia|].
  destruct Hd as [?|[_ Hu]]; [cbn; lia|]. exfalso.
  assert (exists r, r ∈ rows (db q1) /\ mine r /\ status r = Pending) as Hp.
  { destruct (left_some (rows (db q1))) as (r & Hr' & Hm & Ho); [lia|]. exists r. split_and!; [done..|].
    destruct (status r) eqn:Es; try done. by destruct (i_inflight _ Hid r Hr' Hm). }
  destruct (Hu (Hun Hp)) as [(w & Hin & _)|(_ & p & Hin)]; rewrite Hw2 in Hin; by apply elem_of_nil in Hin.
Qed.

(** ** A pass can always be carried to its end *)

Context (Hanswers : forall row, exists r, answers row r).

Definition phase (w : Worker) : nat :=
  match w with Picked _ => 4 | Claimed _ => 3 | Answered _ _ => 2 | Failing _ _ => 1 end.

Lemma resume_shrinks ts w q : can_resume w = true -> exists ws, workers (resume o ts w q) = workers q ++ ws /\
  (sum_list_with phase ws < phase w)%nat.
Proof.
  intros Hc. destruct w as [p|p|p [pr|b e ra]|p x]; [|done|..]; cbn [resume].
  - destruct (channels o !! channel_of p); [|by exists [Failing p false]; split; [|cbn; lia]].
    destruct (0 <? _); [exists []; rewrite app_nil_r; by split; [|cbn; lia]|].
    destruct (claim _ _ _) as [[?|] d]; [exists [Claimed p]|exists []]; (split; [done|cbn; lia]).
  - exists []. (split; [done|cbn; lia]).
  - destruct (_ || _); [eexists [Failing p _]|exists []]; (split; [done|cbn; lia]).
  - destruct (abandonGroupAfter _ _ _ _ _ _). exists []. (split; [done|cbn; lia]).
Qed.

Lemma pass_ends q : exists q', rtc work q q' /\ workers q' = [].
Proof.
  remember (sum_list_with phase (workers q)) as n eqn:En. revert q En.
  induction (lt_wf n) as [n _ IH]. intros q En. destruct (workers q) as [|w ws] eqn:Hw; [by exists q|].
  assert (exists q1, work q q1 /\ (sum_list_with phase (workers q1) < n)%nat) as (q1 & Hk & Hlt).
  { destruct (can_resume w) eqn:Ec.
    - destruct (resume_shrinks 0 w (with_workers ws q) Ec) as (ws' & E & Hlt).
      exists (resume o 0 w (with_workers ws q)). split; [by apply (k_resume 0 [] w ws)|].
      rewrite E. cbn. rewrite sum_list_with_app, En. cbn. lia.
    - destruct w as [| p | |]; try done. destruct (Hanswers p) as [r Hr].
      exists (answer o p r false (with_workers ws q)). split; [by apply (k_answer [] p ws)|].
      cbn. rewrite sum_list_with_app, En. cbn. lia. }
  destruct (IH _ Hlt q1 eq_refl) as (q' & Hr & He). exists q'. split; [by eapply rtc_l|done].
Qed.

Lemma due_sometime q : exists t, all_due t q.
Proof.
  assert (exists a, forall r, r ∈ rows (db q) -> nextAttemptAt r <= a) as [a Ha].
  { induction (rows (db q)) as [|x l [a Ha]]; [exists 0; intros r Hr; by apply elem_of_nil in Hr|].
    exists (Z.max (nextAttemptAt x) a). intros r [->|Hr]%elem_of_cons; [lia|]. specialize (Ha r Hr). lia. }
  assert (exists b, forall c u, nextSendAt q !! c = Some u -> u <= b) as [b Hb].
  { induction (nextSendAt q) as [|c u m Hm [b Hb]] using map_ind; [by exists 0; intros c u; rewrite lookup_empty|].
    exists (Z.max u b). intros d v [[-> ->]|[_ E]]%lookup_insert_Some; [lia|]. specialize (Hb d v E). lia. }
  exists (Z.max 0 (Z.max a b)). split; [lia|]. split; [intros r Hr; specialize (Ha r Hr); lia|].
  intros c u E. specialize (Hb c u E). lia.
Qed.

Lemma round_exists q : workers q = [] -> exists q', round q q'.
Proof.
  intros Hw. destruct (due_sometime q) as [t Ht].
  destruct (pass_ends (drain_pass o agent (with_clock t q))) as (q' & Hr & He). exists q'. by econstructor.
Qed.

Lemma rounds_settle n q q' : (1 <= concurrency o)%nat -> nsteps round n q q' -> idle q ->
  idle q' /\ (left_to_do (rows (db q')) <= left_to_do (rows (db q)) - n)%nat.
Proof.
  intros Hc. induction 1 as [q|n q q1 q' Hr Hn IH]; intros Hid; [split; [done|lia]|].
  destruct (round_settles q q1 Hid Hc Hr) as [Hid1 H1]. destruct (IH Hid1) as [Hid2 H2]. split; [done|lia].
Qed.

(** C33. Every delivery settles. From any reachable state between two passes in which nothing of the
    agent is in flight and no chunk waits behind a failed one, polling is enough: whatever the
    provider answers and however the attempts of a pass interleave, each pass that finds everything
    due takes work off, a pass can always be carried to its end, and after as many passes as there
    are attempts left every delivery of the agent is sent or failed. *)
Theorem deliveries_settle (t : Z) (q : Queue) (Hq : rtc (step o) (initial t) q) (Hw : workers q = [])
  (Hc : (1 <= concurrency o)%nat)
  (Hnf : forall r, r ∈ rows (db q) -> mine r -> status r <> Inflight)
  (Hfree : forall r e, r ∈ rows (db q) -> e ∈ rows (db q) -> mine r -> same_message e r ->
    chunkIndex (delivery e) < chunkIndex (delivery r) -> status r = Pending -> status e <> Failed) :
  (forall q', rtc round q q' -> exists q'', round q' q'') /\
  (forall n q', (left_to_do (rows (db q)) <= n)%nat -> nsteps round n q q' ->
     forall r, r ∈ rows (db q') -> mine r -> status r = Sent \/ status r = Failed).
Proof.
  assert (idle q) as Hid.
  { split; [|done..]. eapply (reachable_invariant (step o) (inv o)); [apply inv_step|exact Hq|apply inv_initial]. }
  split.
  - intros q' Hr. apply round_exists. apply rtc_inv_r in Hr as [->|(y & _ & Hr)]; [done|by destruct Hr].
  - intros n q' Hn Hr r Hin Hm. destruct (rounds_settle n q q' Hc Hr Hid) as [_ Hle].
    pose proof (left_zero (rows (db q')) r ltac:(lia) Hin Hm) as Ho. destruct (status r); try done; auto.
Qed.
End Live.

(** ** At a concrete queue *)

#[local] Instance live_segmenter : Segmenter := plain_segmenter.
#[local] Instance live_path : PathModule := plain_path.

(** The provider may answer anything. *)
Definition any_answer (_ : DeliveryRecord) (_ : SendResult) : Prop := True.

Lemma deliveries_settle_witness :
  reached [QEnqueue (sample_reply "bob" "t1" "hello there and goodbye")] (fun q =>
    length (rows (db q)) = 2%nat /\ forall q', nsteps (round sample_options (js "a") any_answer) 14 q q' ->
    forall r, r ∈ rows (db q') -> mine (js "a") r -> status r = Sent \/ status r = Failed).
Proof.
  unfold reached. destruct (execute _ _ _) as [q|] eqn:E; [|vm_compute in E; discriminate].
  pose proof (execute_queue_steps _ _ _ _ E) as Hq.
  assert (forallb (fun r => bool_decide (status r = Pending)) (rows (db q)) = true) as Hp
    by (vm_compute in E; injection E as <-; vm_compute; reflexivity).
  assert (forall r, r ∈ rows (db q) -> status r = Pending) as Hall.
  { intros r Hr. rewrite forallb_forall in Hp. apply list_elem_of_In in Hr. apply Hp in Hr.
    by apply bool_decide_eq_true in Hr. }
  split; [vm_compute in E; injection E as <-; reflexivity|].
  intros q' Hr. destruct (deliveries_settle sample_options (js "a") any_answer
    (fun row => ex_intro _ (SendOk None) I) 0 q Hq) as [_ H].
  - vm_compute in E. injection E as <-. reflexivity.
  - apply (bool_decide_unpack _). vm_compute. exact I.
  - intros r Hin _. rewrite (Hall r Hin). discriminate.
  - intros r e _ Hin _ _ _ _. rewrite (Hall e Hin). discriminate.
  - apply (H 14%nat); [|exact Hr]. vm_compute in E. injection E as <-.
    apply (bool_decide_unpack _). vm_compute. exact I.
Defined.

(** A permanent failure is recorded in two steps. When the process dies between them the later
    chunks stay pending behind the failed one: no recovery and no pass ever takes them up. *)
Lemma crash_strands_chunk :
  exists q r, rtc (step sample_options) (initial 0) q /\ workers q = [] /\ r ∈ rows (db q) /\
    status r = Pending /\ forall t limit, due (js "a") t limit (db q) = [].
Proof.
  destruct (reached_steps [QEnqueue (sample_reply "bob" "t1" "hello there and goodbye"); QDrain (js "a");
      QResume 0; QAnswer 0 (SendFail false unknown_channel None) false; QResume 0; QCrash; QRecover [js "a"]]
    (fun q => exists r, workers q = [] /\ List.find (by_id 2) (rows (db q)) = Some r /\ status r = Pending /\
      forall t limit, due (js "a") t limit (db q) = [])) as (q & Hq & r & H1 & H2 & H3 & H4).
  - unfold reached. destruct (execute _ _ _) as [q|] eqn:E; [|vm_compute in E; discriminate].
    vm_compute in E. injection E as <-. eexists. split; [reflexivity|]. split; [vm_compute; reflexivity|].
    split; [reflexivity|]. intros t limit. unfold due, ready. cbn [db rows List.filter].
    rewrite !(andb_comm _ (negb _)). vm_compute (negb _). cbn. apply take_nil.
  - exists q, r. apply find_some in H2 as [H2 _]. apply list_elem_of_In in H2. done.
Qed.
