(* ===== verification/SessionKey.v ===== *)
(** * Session keys: [store/session-key.ts]

    A key names a channel, who is on the other end of it, and perhaps a thread: the outbox reads
    the recipient back out of it. A rotation is a key with a suffix of six symbols. *)
From S2P Require Import Prelude UString.
Local Open Scope Z_scope.

Record SessionParts := { channel : ustring; peerId : ustring; thread : option ustring }.

Inductive SessionKeyError := NoChannelSegment | BadChannelSegment | EmptyPeerSegment.

Definition is_lower_letter (c : Z) : bool := (97 <=? c) && (c <=? 122).

(** [CHANNEL_PATTERN.test]. *)
Definition channel_ok (s : ustring) : bool :=
  match s with
  | c :: rest => is_lower_letter c && forallb (fun c => is_lower_letter c || is_digit c || (c =? 95) || (c =? 45)) rest
  | [] => false
  end.

(** [s.indexOf(":")] and the two slices beside it. *)
Fixpoint cut_colon (s : ustring) : option (ustring * ustring) :=
  match s with
  | [] => None
  | c :: rest =>
      if c =? 58 then Some ([], rest)
      else match cut_colon rest with Some (a, b) => Some (c :: a, b) | None => None end
  end.

Definition formatSessionKey (p : SessionParts) : ustring :=
  let base := channel p ++ [58] ++ peerId p in
  match thread p with None | Some [] => base | Some t => base ++ [58] ++ t end.

Definition parseSessionKey (key : ustring) : result SessionKeyError SessionParts :=
  match cut_colon key with
  | None => Err NoChannelSegment
  | Some (ch, rest) =>
      if channel_ok ch then
        match cut_colon rest with
        | None =>
            match rest with
            | [] => Err EmptyPeerSegment
            | _ => Ok {| channel := ch; peerId := rest; thread := None |}
            end
        | Some (peer, t) =>
            match peer, t with
            | [], _ => Err EmptyPeerSegment
            | _, [] => Ok {| channel := ch; peerId := peer; thread := None |}
            | _, _ => Ok {| channel := ch; peerId := peer; thread := Some t |}
            end
        end
      else Err BadChannelSegment
  end.

Definition isSessionKey (key : ustring) : bool :=
  match parseSessionKey key with Ok _ => true | Err _ => false end.

(** ** Rotations *)

Definition KEY_SYMBOLS : ustring := js "0123456789abcdefghjkmnpqrstvwxyz".

(** [bytes] are the random bytes; one that is missing counts as zero. *)
Definition keySymbols (bytes : list Z) (n : nat) : ustring :=
  map (fun at_ => nth (Z.to_nat (Z.land (nth at_ bytes 0) 0x1f)) KEY_SYMBOLS 48) (seq 0 n).

(** [[0-9a-hjkmnp-tv-z]]. *)
Definition rotation_symbol (c : Z) : bool :=
  is_digit c || ((97 <=? c) && (c <=? 104)) || (c =? 106) || (c =? 107) || (c =? 109) || (c =? 110) ||
  ((112 <=? c) && (c <=? 116)) || ((118 <=? c) && (c <=? 122)).
Definition is_rotation (s : ustring) : bool := (length s =? 6)%nat && forallb rotation_symbol s.

Definition isConversationOf (key base : ustring) : bool :=
  bool_decide (key = base) ||
  (starts_with (base ++ [126]) key && is_rotation (drop (S (length base)) key)).

(** [ROTATED.test]: the key ends in a tilde and six symbols. *)
Definition is_rotated (key : ustring) : bool :=
  match drop (length key - 7) key with
  | c :: s => (c =? 126) && is_rotation s
  | [] => false
  end.

(** [heads], a map from a base to the key that is its conversation now. *)
Definition isHead (sessionKey : ustring) (heads : gmap (list Z) (list Z)) : bool :=
  match heads !! sessionKey with
  | Some head => bool_decide (head = sessionKey)
  | None =>
      if is_rotated sessionKey then existsb (fun p => bool_decide (p.2 = sessionKey)) (map_to_list heads)
      else true
  end.

(** ** Routing *)

Lemma cut_colon_app a b : ~ In 58 a -> cut_colon (a ++ 58 :: b) = Some (a, b).
Proof.
  induction a as [|c a IH]; intros H; [done|]. cbn. destruct (Z.eqb_spec c 58) as [->|Hne].
  - exfalso. apply H. by left.
  - rewrite IH; [done|]. intros Hin. apply H. by right.
Qed.

Lemma cut_colon_none s : cut_colon s = None <-> ~ In 58 s.
Proof.
  induction s as [|c s IH]; [by split; [intros _ []|]|]. cbn. destruct (Z.eqb_spec c 58) as [->|Hne].
  - split; [done|]. intros H. exfalso. apply H. by left.
  - destruct (cut_colon s) as [[a b]|]; split; intros H; try done.
    + exfalso. assert (~ In 58 s) as Hn by (intros Hin; apply H; by right). by apply IH in Hn.
    + intros [->|Hin]; [done|]. by apply (proj1 IH eq_refl).
Qed.

Lemma cut_colon_some s a b : cut_colon s = Some (a, b) -> s = a ++ 58 :: b /\ ~ In 58 a.
Proof.
  revert a. induction s as [|c s IH]; intros a H; [done|]. cbn in H. destruct (Z.eqb_spec c 58) as [->|Hne].
  - injection H as <- <-. split; [done|]. by intros [].
  - destruct (cut_colon s) as [[a' b']|]; [|done]. injection H as <- <-.
    destruct (IH a' eq_refl) as [-> Hn]. split; [done|]. intros [->|Hin]; [done|by apply Hn].
Qed.

Lemma channel_no_colon ch : channel_ok ch = true -> ~ In 58 ch.
Proof.
  destruct ch as [|c ch]; [done|]. cbn. intros [Hc Hr]%andb_true_iff [->|Hin]; [done|].
  rewrite forallb_forall in Hr. by specialize (Hr 58 Hin).
Qed.

(** A thread that is the empty string is no thread. *)
Definition plain_thread (t : option ustring) : option ustring := match t with Some [] => None | _ => t end.

(** A session key leads back to where it came from: the key composed of a channel, a peer and a
    thread is read as exactly those, colons inside the thread included, as long as the channel is a
    slug and the peer is not empty and has no colon; and every key that is read at all is the key
    its parts compose, but for a trailing colon. *)
Theorem session_key_routes (p : SessionParts) (key : ustring) :
  (channel_ok (channel p) = true -> peerId p <> [] -> ~ In 58 (peerId p) ->
   parseSessionKey (formatSessionKey p) =
     Ok {| channel := channel p; peerId := peerId p; thread := plain_thread (thread p) |}) /\
  (parseSessionKey key = Ok p ->
   channel_ok (channel p) = true /\ peerId p <> [] /\ ~ In 58 (peerId p) /\
   (key = formatSessionKey p \/ (thread p = None /\ key = formatSessionKey p ++ [58]))).
Proof.
  destruct p as [ch peer t]. cbn [channel peerId thread]. split.
  - intros Hch Hp Hn. unfold formatSessionKey, parseSessionKey. cbn [channel peerId thread].
    pose proof (channel_no_colon ch Hch) as Hc. destruct t as [[|c t]|]; cbn [plain_thread app].
    + rewrite cut_colon_app, Hch, (proj2 (cut_colon_none peer)) by done. by destruct peer.
    + rewrite <- app_assoc. cbn [app]. rewrite cut_colon_app, Hch by done.
      rewrite cut_colon_app by done. by destruct peer.
    + rewrite cut_colon_app, Hch, (proj2 (cut_colon_none peer)) by done. by destruct peer.
  - unfold parseSessionKey. destruct (cut_colon key) as [[ch' rest]|] eqn:E1; [|done].
    apply cut_colon_some in E1 as [-> Hn1]. destruct (channel_ok ch') eqn:Ec; [|done].
    destruct (cut_colon rest) as [[peer' t']|] eqn:E2.
    + apply cut_colon_some in E2 as [-> Hn2]. destruct peer' as [|x peer']; [done|].
      destruct t' as [|y t']; intros [= <- <- <-]; (split_and!; [done..|]); unfold formatSessionKey; cbn [channel peerId thread].
      * right. split; [done|]. by rewrite <- app_assoc.
      * left. by rewrite <- app_assoc.
    + destruct rest as [|x rest]; [done|]. intros [= <- <- <-]. apply cut_colon_none in E2. split_and!; [done..|].
      by left.
Qed.

Lemma session_key_routes_witness :
  parseSessionKey (js "telegram:-100:7:b") = Ok {| channel := js "telegram"; peerId := js "-100"; thread := Some (js "7:b") |}.
Proof.
  destruct (session_key_routes {| channel := js "telegram"; peerId := js "-100"; thread := Some (js "7:b") |} []) as [H _].
  apply H; [reflexivity|discriminate|vm_compute; lia].
Defined.

(** A peer id with a colon (an address of Matrix or IPv6, say) is composed into a key that routes
    elsewhere. *)
Lemma colon_peer_misroutes :
  parseSessionKey (formatSessionKey {| channel := js "matrix"; peerId := js "@bob:example.org"; thread := None |}) =
  Ok {| channel := js "matrix"; peerId := js "@bob"; thread := Some (js "example.org") |}.
Proof. by vm_compute. Qed.

(** ** A rotation belongs to its base *)

Lemma symbol_in_class b : rotation_symbol (nth (Z.to_nat (Z.land b 0x1f)) KEY_SYMBOLS 48) = true.
Proof.
  change 0x1f with (Z.ones 5). rewrite Z.land_ones by lia.
  assert (0 <= b mod 2 ^ 5 < 32) as H by (apply Z.mod_pos_bound; lia).
  assert (forallb (fun k => rotation_symbol (nth k KEY_SYMBOLS 48)) (seq 0 32) = true) as Hall by (by vm_compute).
  rewrite forallb_forall in Hall. apply Hall, in_seq. lia.
Qed.

Lemma keySymbols_rotation bytes : is_rotation (keySymbols bytes 6) = true.
Proof.
  unfold is_rotation, keySymbols. rewrite length_map, length_seq. cbn [Nat.eqb andb].
  apply forallb_forall. intros c Hc. apply in_map_iff in Hc as (k & <- & _). apply symbol_in_class.
Qed.

Lemma conversation_cases key base : isConversationOf key base = true <->
  key = base \/ exists s, key = base ++ [126] ++ s /\ is_rotation s = true.
Proof.
  unfold isConversationOf. rewrite orb_true_iff, andb_true_iff, bool_decide_eq_true, starts_with_spec. split.
  - intros [->|[[s ->] Hr]]; [by left|right]. exists s. split; [by rewrite <- app_assoc|].
    rewrite <- app_assoc in Hr. replace (drop (S (length base)) (base ++ [126] ++ s)) with s in Hr; [done|].
    rewrite app_assoc. replace (S (length base)) with (length (base ++ [126])) by (rewrite length_app; cbn; lia).
    by rewrite drop_app_length.
  - intros [->|(s & -> & Hr)]; [by left|right]. split; [exists s; by rewrite <- app_assoc|].
    rewrite app_assoc. replace (S (length base)) with (length (base ++ [126])) by (rewrite length_app; cbn; lia).
    by rewrite drop_app_length.
Qed.

(** What a rotation is given is recognised as one of its base, and is a head exactly when the table
    of heads says so. *)
Lemma rotation_recognised base bytes : isConversationOf (base ++ [126] ++ keySymbols bytes 6) base = true.
Proof.
  apply conversation_cases. right. eexists. split; [done|]. apply keySymbols_rotation.
Qed.

Lemma rotation_rotated base s : is_rotation s = true -> is_rotated (base ++ [126] ++ s) = true.
Proof.
  intros Hs. pose proof Hs as H. unfold is_rotation in H. apply andb_true_iff in H as [Hl _].
  apply Nat.eqb_eq in Hl. unfold is_rotated. rewrite !length_app. cbn [length].
  replace (length base + (1 + length s) - 7)%nat with (length base) by lia.
  by rewrite drop_app_length.
Qed.

(** The symbols are the ones of the two patterns. *)
Lemma rotation_symbols c : rotation_symbol c = true <-> In c KEY_SYMBOLS.
Proof.
  split.
  - intros H. assert (0 <= c < 128) as Hc.
    { unfold rotation_symbol, is_digit in H. rewrite ?orb_true_iff, ?andb_true_iff in H. lia. }
    assert (forallb (fun k => negb (rotation_symbol (Z.of_nat k)) || existsb (Z.eqb (Z.of_nat k)) KEY_SYMBOLS) (seq 0 128) = true)
      as Hall by (by vm_compute).
    rewrite forallb_forall in Hall. specialize (Hall (Z.to_nat c)). rewrite Z2Nat.id, H in Hall by lia.
    cbn [negb orb] in Hall. apply existsb_exists in Hall as (x & Hx & ->%Z.eqb_eq); [done|]. apply in_seq. lia.
  - assert (forallb rotation_symbol KEY_SYMBOLS = true) as Hall by (by vm_compute). rewrite forallb_forall in Hall. apply Hall.
Qed.

(** Participant ids are opaque, and one may itself end in a tilde and six symbols: its conversation
    then counts as a rotation of somebody else's. *)
Lemma participant_taken_for_rotation :
  isConversationOf (js "api:bob~000000") (js "api:bob") = true.
Proof. by vm_compute. Qed.
