(* ===== verification/Inbox.v ===== *)
(** * The inbound gate of a channel: [channels/inbox.ts]

    Redeliveries are dropped, senders are checked against [allowFrom], and what is let in is given
    its session key. *)
From S2P Require Import Prelude UString SessionKey.
Local Open Scope Z_scope.

(** ** Who may write *)

Definition plus_sign (c : Z) : bool := c =? 43.
(** [[0-9 .()-]]. *)
Definition phone_char (c : Z) : bool :=
  is_digit c || (c =? 32) || (c =? 46) || (c =? 40) || (c =? 41) || (c =? 45).
Definition phone_like (s : ustring) : bool :=
  match match s with c :: rest => if plus_sign c then rest else s | [] => [] end with
  | d :: rest => is_digit d && forallb phone_char rest
  | [] => false
  end.

Definition normaliseSender (value : ustring) : ustring :=
  let trimmed := trim value in
  let bare := lower (match trimmed with c :: rest => if c =? 64 then rest else trimmed | [] => [] end) in
  if phone_like bare then List.filter is_digit bare else bare.

Section Gate.
(** What a message carries that the gate does not look at. *)
Context {Payload : Type}.

Record RawInbound := {
  providerMessageId : option ustring; r_peerId : ustring; senderHandle : option ustring;
  r_thread : option ustring; payload : Payload }.

Record InboundMessage := { raw : RawInbound; m_channelId : ustring; m_channelType : ustring; m_sessionKey : ustring }.

Inductive InboundDecision :=
| Accept (m : InboundMessage)
| Duplicate (id : ustring)
| Denied (sender : ustring) (unconfigured : bool).

Definition sender_candidates (r : RawInbound) : list ustring :=
  normaliseSender (r_peerId r) ::
  match senderHandle r with None | Some [] => [] | Some h => [normaliseSender h] end.

Definition isAllowed (r : RawInbound) (allowFrom : list ustring) : bool :=
  existsb (fun entry => bool_decide (entry = [42]) || bool_decide (normaliseSender entry ∈ sender_candidates r)) allowFrom.

(** ** The gate *)

(** [allowFrom] absent is the empty list, which the code treats alike. [seen] in insertion order. *)
Record Inbox := {
  channelId : ustring; channelType : ustring; allowFrom : list ustring; seen : list ustring; window : nat }.

Definition DEFAULT_DEDUPE_WINDOW : nat := 512.
Definition new_inbox (id type : ustring) (allow : list ustring) (w : option nat) : Inbox :=
  {| channelId := id; channelType := type; allowFrom := allow; seen := []; window := default DEFAULT_DEDUPE_WINDOW w |}.

Definition normalise (i : Inbox) (r : RawInbound) : InboundMessage :=
  {| raw := r; m_channelId := channelId i; m_channelType := channelType i;
     m_sessionKey := formatSessionKey {| channel := channelId i; peerId := r_peerId r; thread := r_thread r |} |}.

(** The oldest go until the window is kept. *)
Definition remember (id : ustring) (i : Inbox) : Inbox :=
  let s := seen i ++ [id] in
  {| channelId := channelId i; channelType := channelType i; allowFrom := allowFrom i;
     seen := drop (length s - window i) s; window := window i |}.

Definition message_id (r : RawInbound) : option ustring :=
  match providerMessageId r with None | Some [] => None | Some id => Some id end.

Definition admit_sender (i : Inbox) (r : RawInbound) : InboundDecision :=
  if isAllowed r (allowFrom i) then Accept (normalise i r)
  else Denied (default (r_peerId r) (senderHandle r)) (match allowFrom i with [] => true | _ => false end).

Definition accept (r : RawInbound) (i : Inbox) : InboundDecision * Inbox :=
  match message_id r with
  | None => (admit_sender i r, i)
  | Some id =>
      if bool_decide (id ∈ seen i) then (Duplicate id, i)
      else let i' := remember id i in (admit_sender i' r, i')
  end.

Fixpoint accept_all (l : list RawInbound) (i : Inbox) : list InboundDecision * Inbox :=
  match l with
  | [] => ([], i)
  | r :: rest =>
      let '(d, i1) := accept r i in
      let '(ds, i2) := accept_all rest i1 in
      (d :: ds, i2)
  end.

(** ** What is let in *)

Lemma isAllowed_spec r allow : isAllowed r allow = true <->
  exists entry, entry ∈ allow /\ (entry = [42] \/ normaliseSender entry = normaliseSender (r_peerId r) \/
    exists h, senderHandle r = Some h /\ h <> [] /\ normaliseSender entry = normaliseSender h).
Proof.
  unfold isAllowed, sender_candidates. rewrite existsb_exists. split.
  - intros (e & He & H). apply list_elem_of_In in He. exists e. split; [done|].
    apply orb_true_iff in H as [H|H]; apply bool_decide_eq_true in H; [by left|right].
    apply elem_of_cons in H as [H|H]; [by left|right].
    destruct (senderHandle r) as [[|c h]|]; [by apply elem_of_nil in H| |by apply elem_of_nil in H].
    apply list_elem_of_singleton in H. by eexists.
  - intros (e & He & H). exists e. split; [by apply list_elem_of_In|]. apply orb_true_iff.
    destruct H as [->|[H|(h & E & Hne & H)]]; [by left|right..]; apply bool_decide_eq_true, elem_of_cons.
    + by left.
    + right. rewrite E. destruct h; [done|]. by apply list_elem_of_singleton.
Qed.

Lemma accept_window r i : (length (seen i) <= window i)%nat ->
  (length (seen (accept r i).2) <= window (accept r i).2)%nat /\ window (accept r i).2 = window i.
Proof.
  intros H. unfold accept. destruct (message_id r) as [id|]; [|done].
  destruct (bool_decide _); [done|]. cbn. split; [|done]. rewrite length_drop. lia.
Qed.

(** An id among the newest [k] of the window. *)
Definition fresh_within (k : nat) (id : ustring) (i : Inbox) : Prop :=
  exists a b, seen i = a ++ id :: b /\ (length b < k)%nat.

Definition id_count (l : list RawInbound) : nat := length (omap message_id l).

Lemma fresh_accept k id r i : fresh_within k id i -> (length (seen i) <= window i)%nat ->
  (k + id_count [r] <= window i)%nat -> fresh_within (k + id_count [r]) id (accept r i).2.
Proof.
  intros (a & b & E & Hb) Hlen. unfold accept, id_count. cbn.
  destruct (message_id r) as [x|]; cbn; intros Hk; [|exists a, b; split; [done|lia]].
  destruct (bool_decide _); [exists a, b; split; [done|lia]|]. cbn [snd]. unfold remember, fresh_within. cbn [seen].
  rewrite E, <- app_assoc. cbn [app]. rewrite length_app. cbn [length]. rewrite length_app. cbn [length].
  exists (drop (length a + S (length b + 1) - window i) a), (b ++ [x]). split.
  - rewrite skipn_app. replace (length a + S (length b + 1) - window i - length a)%nat with O by lia. done.
  - rewrite length_app. cbn. lia.
Qed.

Lemma id_count_cons r l : id_count (r :: l) = (id_count [r] + id_count l)%nat.
Proof. unfold id_count. cbn. by destruct (message_id r). Qed.

Lemma accept_all_window l : forall i, (length (seen i) <= window i)%nat ->
  (length (seen (accept_all l i).2) <= window (accept_all l i).2)%nat /\ window (accept_all l i).2 = window i.
Proof.
  induction l as [|r l IH]; intros i H; [done|]. cbn. pose proof (accept_window r i H) as [H1 H2].
  destruct (accept r i) as [d i1]. cbn [snd] in *. destruct (IH i1 H1) as [H3 H4].
  destruct (accept_all l i1) as [ds i2]. cbn [snd] in *. split; [done|congruence].
Qed.

Lemma fresh_accept_all l : forall k id i, fresh_within k id i -> (length (seen i) <= window i)%nat ->
  (k + id_count l <= window i)%nat -> fresh_within (k + id_count l) id (accept_all l i).2.
Proof.
  induction l as [|r l IH]; intros k id i Hf Hl Hk; [by rewrite Nat.add_0_r|].
  rewrite id_count_cons in *. cbn [accept_all].
  pose proof (fresh_accept k id r i Hf Hl ltac:(lia)) as H1. pose proof (accept_window r i Hl) as [H2 H3].
  destruct (accept r i) as [d i1]. cbn [snd] in *.
  specialize (IH _ id i1 H1 H2 ltac:(lia)). destruct (accept_all l i1). cbn [snd] in *. by rewrite Nat.add_assoc.
Qed.

(** What the window holds came in. *)
Lemma seen_came l : forall i id, id ∈ seen (accept_all l i).2 ->
  id ∈ seen i \/ exists r, r ∈ l /\ message_id r = Some id.
Proof.
  induction l as [|r l IH]; intros i id H; [by left|]. cbn in H.
  destruct (accept r i) as [d i1] eqn:Ea. destruct (accept_all l i1) as [ds i2] eqn:El. cbn [snd] in H.
  specialize (IH i1 id). rewrite El in IH. destruct (IH H) as [Hin|(x & Hx & E)]; [|right; exists x; split; [by right|done]].
  unfold accept in Ea. destruct (message_id r) as [y|] eqn:Er; [|injection Ea as _ <-; by left].
  destruct (bool_decide _); injection Ea as _ <-; [by left|]. cbn in Hin. apply subseteq_drop in Hin.
  apply elem_of_app in Hin as [?|Hin]; [by left|]. apply list_elem_of_singleton in Hin as ->.
  right. exists r. split; [by left|done].
Qed.

Lemma accept_keeps_rules r i : allowFrom (accept r i).2 = allowFrom i /\ channelId (accept r i).2 = channelId i /\
  channelType (accept r i).2 = channelType i.
Proof. unfold accept. destruct (message_id r); [|done]. by destruct (bool_decide _). Qed.

Lemma accept_all_rules l : forall i, allowFrom (accept_all l i).2 = allowFrom i /\
  channelId (accept_all l i).2 = channelId i /\ channelType (accept_all l i).2 = channelType i.
Proof.
  induction l as [|r l IH]; intros i; [done|]. cbn. pose proof (accept_keeps_rules r i) as (H1 & H2 & H3).
  destruct (accept r i) as [d i1]. cbn [snd] in *. pose proof (IH i1) as (H4 & H5 & H6).
  destruct (accept_all l i1). cbn [snd] in *. split_and!; congruence.
Qed.

(** Whatever has come in before: a message is let in only from a sender the channel's list names
    (or a star in it) and under the key of its own channel, peer and thread; it is dropped as a
    repetition only if a message with its id came before; and one whose id was let through is dropped
    when it comes again with fewer identified messages in between than the window holds. *)
Theorem inbox_gate (id type : ustring) (allow : list ustring) (w : option nat) (before : list RawInbound)
  (r : RawInbound) :
  let i := (accept_all before (new_inbox id type allow w)).2 in
  match (accept r i).1 with
  | Accept m => raw m = r /\ isAllowed r allow = true /\
      m_sessionKey m = formatSessionKey {| channel := id; peerId := r_peerId r; thread := r_thread r |}
  | Denied _ _ => isAllowed r allow = false
  | Duplicate x => message_id r = Some x /\ exists r0, r0 ∈ before /\ message_id r0 = Some x
  end /\
  forall x between, message_id r = Some x -> (forall y, (accept r i).1 <> Duplicate y) ->
    (id_count between < window i)%nat ->
    forall r', message_id r' = Some x ->
    (accept r' (accept_all between (accept r i).2).2).1 = Duplicate x.
Proof.
  cbn zeta. set (i := (accept_all before (new_inbox id type allow w)).2).
  destruct (accept_all_rules before (new_inbox id type allow w)) as (Ha & Hi & Ht). fold i in Ha, Hi, Ht.
  assert ((length (seen i) <= window i)%nat) as Hlen by (apply accept_all_window; cbn; lia).
  assert (forall i', allowFrom i' = allow -> channelId i' = id -> match admit_sender i' r with
    | Accept m => raw m = r /\ isAllowed r allow = true /\
        m_sessionKey m = formatSessionKey {| channel := id; peerId := r_peerId r; thread := r_thread r |}
    | Denied _ _ => isAllowed r allow = false | Duplicate x => False end) as Hadmit.
  { intros i' E1 E2. unfold admit_sender. rewrite E1. destruct (isAllowed r allow) eqn:E; [|done].
    split_and!; [done..|]. cbn. by rewrite E2. }
  split.
  - unfold accept. destruct (message_id r) as [x|] eqn:Er.
    + destruct (bool_decide _) eqn:Ed; cbn [fst].
      * split; [done|]. apply bool_decide_eq_true in Ed. apply seen_came in Ed as [Ed|Ed]; [|done].
        by apply elem_of_nil in Ed.
      * specialize (Hadmit (remember x i) Ha Hi). by destruct (admit_sender (remember x i) r).
    + specialize (Hadmit i Ha Hi). cbn [fst]. by destruct (admit_sender i r).
  - intros x between Er Hnd Hw r' Er'.
    assert (fresh_within 1 x (accept r i).2 /\ (length (seen (accept r i).2) <= window (accept r i).2)%nat /\
      window (accept r i).2 = window i) as (Hf & Hl2 & Hw2).
    { destruct (accept_window r i Hlen) as [? ?]. split; [|done]. unfold accept in *. rewrite Er in *.
      destruct (bool_decide _); [by destruct (Hnd x)|]. unfold fresh_within, remember. cbn.
      exists (drop (length (seen i ++ [x]) - window i) (seen i)), []. split; [|cbn; lia].
      rewrite skipn_app, !length_app. cbn. by replace (length (seen i) + 1 - window i - length (seen i))%nat with O by lia. }
    destruct (fresh_accept_all between 1 x _ Hf Hl2 ltac:(lia)) as (a & b & E & _).
    unfold accept at 1. rewrite Er', bool_decide_eq_true_2; [done|]. rewrite E. apply elem_of_app. right. by left.
Qed.
End Gate.

Arguments RawInbound : clear implicits.

Definition note_from (id peer : string) : RawInbound unit :=
  {| providerMessageId := Some (js id); r_peerId := js peer; senderHandle := None; r_thread := None; payload := tt |}.

Lemma inbox_gate_witness :
  (accept (note_from "m1" "7") (accept_all [note_from "m2" "8"]
    (accept (note_from "m1" "7") (new_inbox (js "tg") (js "telegram") [js "7"] (Some 2%nat))).2).2).1 = Duplicate (js "m1").
Proof.
  destruct (inbox_gate (js "tg") (js "telegram") [js "7"] (Some 2%nat) [] (note_from "m1" "7")) as [_ H].
  apply (H (js "m1") [note_from "m2" "8"]); [reflexivity|discriminate|vm_compute; lia|reflexivity].
Defined.

(** A phone number is its digits, a handle loses one at-sign and its case. *)
Example normalised : map (fun s => normaliseSender (js s)) [" +880 (1711) 22.33-44 "; "@Moeen"; "abc-def"; "+"]%string =
  map js ["8801711223344"; "moeen"; "abc-def"; "+"]%string.
Proof. by vm_compute. Qed.

(** Messages that are refused take up the window too: as many of them as it holds, and a message that
    was let in is let in again when it is redelivered. *)
Lemma strangers_evict :
  let i := new_inbox (js "tg") (js "telegram") [js "7"] (Some 2%nat) in
  map (fun d => match d with Accept _ => 0 | Duplicate _ => 1 | Denied _ _ => 2 end)
    (accept_all [note_from "m1" "7"; note_from "x1" "9"; note_from "x2" "9"; note_from "m1" "7"] i).1 = [0; 2; 2; 0].
Proof. by vm_compute. Qed.
