(* ===== verification/Principal.v ===== *)
(** * Who is calling: [packages/server/src/principal.ts]

    A principal is what the front door ([FrontDoor]) makes of a credential; a scope narrows what it
    reaches. Every route asks the predicates of this file. *)
From S2P Require Import Prelude UString SessionKey.
Local Open Scope Z_scope.

(** ** Scopes and principals *)

(** [store/store.ts]. *)
Inductive Capability := CapRead | CapChat | CapWrite | CapAdmin | CapPeer.
#[export] Instance Capability_eq_dec : EqDecision Capability.
Proof. solve_decision. Defined.

Definition CAPABILITIES : list (ustring * Capability) :=
  [(js "read", CapRead); (js "chat", CapChat); (js "write", CapWrite); (js "admin", CapAdmin); (js "peer", CapPeer)].

Record KeyScope := {
  s_agents : option (list ustring); s_sessions : option ustring; s_can : option (list Capability);
  s_participant : option ustring }.
#[export] Instance KeyScope_eq_dec : EqDecision KeyScope.
Proof. solve_decision. Defined.

(** [label] is the empty string where the code leaves it out. *)
Inductive Principal :=
| POpen
| PToken
| PKey (keyId label : ustring) (scope : option KeyScope)
| PClaim.
#[export] Instance Principal_eq_dec : EqDecision Principal.
Proof. solve_decision. Defined.

Definition UNSCOPED : Principal := POpen.

(** [principal.kind !== "key"] is answered by [principal.kind !== "claim"]; a key by its scope. *)
Definition by_scope (p : Principal) (ask : KeyScope -> bool) : bool :=
  match p with
  | PClaim => false
  | POpen | PToken => true
  | PKey _ _ None => true
  | PKey _ _ (Some s) => ask s
  end.

Definition can (p : Principal) (c : Capability) : bool :=
  by_scope p (fun s => match s_can s with None => true | Some l => bool_decide (c ∈ l) end).

Definition reachesAgent (p : Principal) (agentId : ustring) : bool :=
  by_scope p (fun s => match s_agents s with None => true | Some l => bool_decide (agentId ∈ l) end).

(** [prefix.endsWith("*") ? prefix.slice(0, -1) : prefix]. *)
Definition plain_prefix (prefix : ustring) : ustring :=
  if ends_with [42] prefix then slice prefix 0 (-1) else prefix.

Definition own_conversation (sessionKey bound : ustring) : bool :=
  isConversationOf sessionKey (js "owner:" ++ bound) || isConversationOf sessionKey (js "peer:" ++ bound).

Definition reachesSession (p : Principal) (sessionKey : ustring) : bool :=
  by_scope p (fun s =>
    match s_sessions s with
    | None => true
    | Some prefix =>
        starts_with (plain_prefix prefix) sessionKey ||
        match s_participant s with Some bound => own_conversation sessionKey bound | None => false end
    end).

(** The event's [sessionKey] and [parentSessionKey]. *)
Definition reachesEventSession (p : Principal) (sessionKey parent : option ustring) : bool :=
  match sessionKey with
  | None => true
  | Some k => reachesSession p k || match parent with Some q => reachesSession p q | None => false end
  end.

Record ScopeFilter := { agentIds : option (list ustring); sessionPrefix : option ustring }.

Definition scopeFilter (p : Principal) : ScopeFilter :=
  match p with
  | PClaim => {| agentIds := Some []; sessionPrefix := None |}
  | POpen | PToken | PKey _ _ None => {| agentIds := None; sessionPrefix := None |}
  | PKey _ _ (Some s) => {| agentIds := s_agents s; sessionPrefix := plain_prefix <$> s_sessions s |}
  end.

Definition isScoped (p : Principal) : bool :=
  match p with
  | PKey _ _ (Some s) => bool_decide (is_Some (s_agents s)) || bool_decide (is_Some (s_sessions s)) ||
      bool_decide (is_Some (s_can s))
  | _ => false
  end.

Definition capabilityOf (value : ustring) : option Capability :=
  snd <$> List.find (fun p => bool_decide (p.1 = value)) CAPABILITIES.

(** ** Who a turn is from *)

Inductive SenderKind := UserKind | AgentKind.
#[export] Instance SenderKind_eq_dec : EqDecision SenderKind.
Proof. solve_decision. Defined.
Record TurnSender := { sender_id : ustring; sender_kind : SenderKind; sender_name : option ustring }.
#[export] Instance TurnSender_eq_dec : EqDecision TurnSender.
Proof. solve_decision. Defined.

Definition boundParticipant (p : Principal) : option ustring :=
  match p with PKey _ _ (Some s) => s_participant s | _ => None end.

(** [Err] is [sender_not_bound_participant]. *)
Definition senderFor (p : Principal) (claimed : option TurnSender) : result unit (option TurnSender) :=
  match boundParticipant p with
  | None => Ok claimed
  | Some bound =>
      match claimed with
      | None => Ok (Some {| sender_id := bound; sender_kind := UserKind; sender_name := None |})
      | Some c =>
          if bool_decide (sender_id c = bound) && bool_decide (sender_kind c = UserKind) then Ok (Some c)
          else Err tt
      end
  end.

(** [resolved] is what [agent.resolveSessionKey] answered. *)
Definition sessionFor (p : Principal) (requested resolved : ustring) : ustring :=
  if reachesSession p resolved then resolved else requested.

(** ** Rows a query aggregates *)

(** What the store's statements do with a filter: the agent is listed, the session starts so. *)
Definition in_filter (f : ScopeFilter) (agent session : ustring) : bool :=
  match agentIds f with None => true | Some l => bool_decide (agent ∈ l) end &&
  match sessionPrefix f with None => true | Some q => starts_with q session end.

(** ** What a scope gives *)

Lemma plain_prefix_star q : plain_prefix (q ++ [42]) = q.
Proof.
  unfold plain_prefix. destruct (ends_with [42] (q ++ [42])) eqn:E.
  - change (-1) with (- Z.of_nat (length [42])). by apply slice_drop_end.
  - exfalso. apply not_true_iff_false in E. apply E, ends_with_spec. by exists q.
Qed.

(** A key shows in an aggregate only what it reaches row by row. *)
Lemma scopeFilter_reaches p agent session :
  in_filter (scopeFilter p) agent session = true -> reachesAgent p agent = true /\ reachesSession p session = true.
Proof.
  unfold in_filter, reachesAgent, reachesSession. destruct p as [| |i l [s|]|]; cbn; try done.
  intros [Ha Hs]%andb_true_iff. split; [done|]. destruct (s_sessions s); [|done]. cbn in Hs. by rewrite Hs.
Qed.

(** Without a bound participant it shows all of it; with one, its own conversation is left out. *)
Lemma scopeFilter_exact p agent session : boundParticipant p = None ->
  in_filter (scopeFilter p) agent session = reachesAgent p agent && reachesSession p session.
Proof.
  unfold in_filter, reachesAgent, reachesSession. destruct p as [| |i l [s|]|]; cbn; try done.
  intros E. rewrite E. destruct (s_sessions s); cbn; by rewrite ?orb_false_r.
Qed.

(** A key without a scope, or one whose scope says nothing, is every capability and all agents. *)
Lemma unscoped_reaches p : isScoped p = false -> p <> PClaim ->
  (forall c, can p c = true) /\ (forall a, reachesAgent p a = true) /\ (forall k, reachesSession p k = true).
Proof.
  unfold isScoped, can, reachesAgent, reachesSession. destruct p as [| |i l [s|]|]; cbn; try done.
  intros H _. apply orb_false_iff in H as [[Ha Hs]%orb_false_iff Hc].
  destruct (s_agents s); [done|]. destruct (s_sessions s); [done|]. by destruct (s_can s).
Qed.

(** What a key bound to a participant starts is that participant's: every turn it is let start is
    from them, as a user, and runs in a session the key can read back whenever the one it asked for
    is; and with no sender named, or that very one, it is never refused. *)
Theorem bound_key_speaks_for_one (p : Principal) (bound : ustring) (claimed : option TurnSender)
  (requested resolved : ustring) (Hb : boundParticipant p = Some bound) :
  match senderFor p claimed with
  | Ok from => exists s, from = Some s /\ sender_id s = bound /\ sender_kind s = UserKind
  | Err _ => exists c, claimed = Some c /\ (sender_id c <> bound \/ sender_kind c = AgentKind)
  end /\
  (reachesSession p requested = true -> reachesSession p (sessionFor p requested resolved) = true) /\
  (forall s, isConversationOf s (js "owner:" ++ bound) = true -> reachesSession p s = true).
Proof.
  split_and!.
  - unfold senderFor. rewrite Hb. destruct claimed as [c|]; [|by eexists].
    destruct (_ && _) eqn:E.
    + apply andb_true_iff in E as [E1%bool_decide_eq_true E2%bool_decide_eq_true]. by exists c.
    + exists c. split; [done|]. apply andb_false_iff in E as [E%bool_decide_eq_false|E%bool_decide_eq_false]; [by left|right].
      by destruct (sender_kind c).
  - unfold sessionFor. by destruct (reachesSession p resolved) eqn:E.
  - intros s Hs. destruct p as [| |i l [sc|]|]; try done. cbn in Hb. unfold reachesSession, by_scope.
    destruct (s_sessions sc); [|done]. rewrite Hb. unfold own_conversation. by rewrite Hs, orb_true_r.
Qed.

Lemma bound_key_speaks_for_one_witness :
  let p := PKey (js "k") (js "bob's") (Some {| s_agents := None; s_sessions := Some (js "team_42:"); s_can := None; s_participant := Some (js "bob") |}) in
  senderFor p None = Ok (Some {| sender_id := js "bob"; sender_kind := UserKind; sender_name := None |}) /\
  reachesSession p (sessionFor p (js "team_42:x") (js "owner:bob~abcdef")) = true.
Proof.
  intros p. split; [reflexivity|].
  destruct (bound_key_speaks_for_one p (js "bob") None (js "team_42:x") (js "owner:bob~abcdef") eq_refl) as (_ & H & _).
  apply H. reflexivity.
Defined.

(** Usage and webhooks leave out a bound participant's own conversation, which the key reaches. *)
Lemma filter_leaves_out_own :
  let p := PKey (js "k") (js "bob's") (Some {| s_agents := None; s_sessions := Some (js "team_42:"); s_can := None; s_participant := Some (js "bob") |}) in
  reachesSession p (js "owner:bob") = true /\ in_filter (scopeFilter p) (js "a") (js "owner:bob") = false.
Proof. by vm_compute. Qed.
