(* ===== verification/Origin.v ===== *)
(** * Cross-origin requests: [packages/server/src/origin.ts]

    Which [Host] and which [Origin] a request may carry, given the address the server was bound to.
    Reading the host out of a URL is the platform's. *)
From S2P Require Import Prelude UString.
Local Open Scope Z_scope.

(** [new URL(x).hostname]; [None] where the constructor throws. *)
Class UrlHost := url_hostname : ustring -> option ustring.

Definition LOOPBACK : list ustring := map js ["127.0.0.1"; "::1"; "localhost"; "[::1]"]%string.
Definition isLoopback (host : ustring) : bool := bool_decide (lower host ∈ LOOPBACK).

Record OriginPolicy := { bind_host : ustring; allowedOrigins : list ustring; allowedHosts : list ustring }.

(** The headers this file reads. *)
Record OriginHeaders := { h_host : option ustring; h_origin : option ustring }.

(** [.replace(/^\[|\]$/g, "")]. *)
Definition strip_brackets (s : ustring) : ustring :=
  let s := match s with c :: rest => if c =? 91 then rest else s | [] => [] end in
  if ends_with [93] s then slice s 0 (-1) else s.

Section Guard.
Context `{url : UrlHost}.

Definition hostOf (value : ustring) : option ustring :=
  let trimmed := trim value in
  if bool_decide (trimmed = []) || bool_decide (lower trimmed = js "null") then None
  else
    name ← url_hostname (if includes (js "://") trimmed then trimmed else js "http://" ++ trimmed);
    Some (strip_brackets (lower name)).

(** [\d{1,3}] and what is left; greedy, and what follows it is never a digit. *)
Definition octet (s : ustring) : bool := (1 <=? zlen s) && (zlen s <=? 3) && forallb is_digit s.

(** [/^127\.\d{1,3}\.\d{1,3}\.\d{1,3}$/.test]. *)
Definition loopback_block (host : ustring) : bool :=
  match split_on 46 host with
  | [n; a; b; c] => bool_decide (n = js "127") && octet a && octet b && octet c
  | _ => false
  end.

Definition loopbackName (host : ustring) : bool := isLoopback host || loopback_block host.

Definition names (entries : list ustring) (host : ustring) : bool :=
  existsb (fun entry => bool_decide (hostOf entry = Some host)) entries.

Inductive OriginProblem := HostNotAllowed | OriginNotAllowed.

Definition hostOk (r : OriginHeaders) (policy : OriginPolicy) : bool :=
  match h_host r ≫= hostOf with
  | Some host => loopbackName host || names (allowedHosts policy) host
  | None => false
  end.

(** [None] lets the request through. *)
Definition originProblem (r : OriginHeaders) (policy : OriginPolicy) : option OriginProblem :=
  let strict := isLoopback (bind_host policy) in
  if strict && negb (hostOk r policy) then Some HostNotAllowed
  else
    match h_origin r with
    | None => None
    | Some rawOrigin =>
        match hostOf rawOrigin with
        | None => Some OriginNotAllowed
        | Some origin =>
            if loopbackName origin then None
            else if names (allowedOrigins policy) origin then None
            else if negb strict && bool_decide (h_host r ≫= hostOf = Some origin) then None
            else Some OriginNotAllowed
        end
    end.

(** [Access-Control-Allow-Origin], echoed with [Vary: Origin]. *)
Definition corsHeaders (r : OriginHeaders) (policy : OriginPolicy) : list (ustring * ustring) :=
  match h_origin r with
  | None => []
  | Some rawOrigin =>
      match originProblem r policy with
      | Some _ => []
      | None => [(js "access-control-allow-origin", rawOrigin); (js "vary", js "Origin")]
      end
  end.

Definition preflightHeaders (asked : option ustring) (allow : list ustring) : list (ustring * ustring) :=
  [(js "access-control-allow-methods", join (js ", ") allow);
   (js "access-control-allow-headers", default (js "authorization, content-type") asked);
   (js "access-control-max-age", js "600")].

(** ** What the guard means *)

(** A name of this machine that no resolver is asked for. *)
Definition this_machine (host : ustring) : Prop :=
  lower host ∈ LOOPBACK \/
  exists a b c, host = join [46] [js "127"; a; b; c] /\
    Forall (fun o => (1 <= length o <= 3)%nat /\ Forall (fun d => 48 <= d <= 57) o) [a; b; c].

Lemma octet_spec s : octet s = true <-> (1 <= length s <= 3)%nat /\ Forall (fun d => 48 <= d <= 57) s.
Proof.
  unfold octet. rewrite !andb_true_iff, forallb_forall, List.Forall_forall. split.
  - intros [H Hd]. split; [lia|]. intros x Hx. by apply is_digit_spec, Hd.
  - intros [H Hd]. split; [lia|]. intros x Hx. by apply is_digit_spec, Hd.
Qed.

Lemma digits_no_dot s : Forall (fun d => 48 <= d <= 57) s -> ~ In 46 s.
Proof. rewrite List.Forall_forall. intros H Hin. specialize (H 46 Hin). lia. Qed.

Lemma loopback_block_spec host : loopback_block host = true <->
  exists a b c, host = join [46] [js "127"; a; b; c] /\
    Forall (fun o => (1 <= length o <= 3)%nat /\ Forall (fun d => 48 <= d <= 57) o) [a; b; c].
Proof.
  unfold loopback_block. split.
  - destruct (split_on 46 host) as [|n [|a [|b [|c [|]]]]] eqn:E; try done.
    rewrite !andb_true_iff, bool_decide_eq_true. intros [[[-> Ha] Hb] Hc]. exists a, b, c.
    split; [rewrite <- E; symmetry; apply join_split_on|].
    by do 3 (constructor; [by apply octet_spec|]).
  - intros (a & b & c & -> & Hf). inversion_clear Hf as [|? ? Ha Hf']. inversion_clear Hf' as [|? ? Hb Hf''].
    inversion_clear Hf'' as [|? ? Hc _]. rewrite split_on_join; [|done|].
    + rewrite bool_decide_true, !(proj2 (octet_spec _)) by done. done.
    + do 4 (constructor; [apply digits_no_dot; first [by destruct Ha|by destruct Hb|by destruct Hc|by repeat constructor]|]). done.
Qed.

Lemma loopbackName_spec host : loopbackName host = true <-> this_machine host.
Proof.
  unfold loopbackName, this_machine, isLoopback. by rewrite orb_true_iff, bool_decide_eq_true, loopback_block_spec.
Qed.

Lemma names_spec entries host : names entries host = true <-> exists e, e ∈ entries /\ hostOf e = Some host.
Proof.
  unfold names. rewrite existsb_exists. split; intros (e & He & E); exists e; (split; [by apply list_elem_of_In|]).
  - by apply bool_decide_eq_true in E.
  - by apply bool_decide_eq_true.
Qed.

Lemma hostOk_spec r policy : hostOk r policy = true <-> exists raw host, h_host r = Some raw /\
  hostOf raw = Some host /\ (this_machine host \/ exists e, e ∈ allowedHosts policy /\ hostOf e = Some host).
Proof.
  unfold hostOk. destruct (h_host r) as [raw|]; cbn; [|split; [done|by intros (? & ? & ? & _)]].
  destruct (hostOf raw) as [host|] eqn:E; cbn.
  - rewrite orb_true_iff, loopbackName_spec, names_spec. split; [intros Ho; by exists raw, host|].
    intros (? & ? & [= <-] & E' & Ho). rewrite E in E'. by injection E' as <-.
  - split; [done|]. intros (? & ? & [= <-] & E' & _). by rewrite E in E'.
Qed.

(** The guard lets a request through exactly when both headers allow it. On a loopback bind the
    name it was addressed to can be read and is this machine's, or named in the configuration: a
    page whose own name was made to resolve here is refused whatever it sends. And the page a
    request comes from, when there is one, is on this machine, or named in the configuration, or,
    on a public bind only, served from the very host the request was addressed to; an opaque or
    unreadable origin is refused. *)
Theorem origin_guard (r : OriginHeaders) (policy : OriginPolicy) :
  originProblem r policy = None <->
  (isLoopback (bind_host policy) = true -> exists raw host, h_host r = Some raw /\ hostOf raw = Some host /\
     (this_machine host \/ exists e, e ∈ allowedHosts policy /\ hostOf e = Some host)) /\
  (forall raw, h_origin r = Some raw -> exists origin, hostOf raw = Some origin /\
     (this_machine origin \/ (exists e, e ∈ allowedOrigins policy /\ hostOf e = Some origin) \/
      (isLoopback (bind_host policy) = false /\ exists rawHost, h_host r = Some rawHost /\ hostOf rawHost = Some origin))).
Proof.
  unfold originProblem. set (strict := isLoopback (bind_host policy)).
  pose proof (hostOk_spec r policy) as Hhost.
  destruct (strict && negb (hostOk r policy)) eqn:Es.
  { apply andb_true_iff in Es as [Es Eh]. split; [done|]. intros [H1 _]. apply negb_true_iff in Eh.
    rewrite (proj2 Hhost (H1 Es)) in Eh. done. }
  assert (strict = true -> hostOk r policy = true) as Hok.
  { intros E. rewrite E in Es. by apply negb_false_iff in Es. }
  destruct (h_origin r) as [raw|].
  2: { split; [|done]. intros _. split; [intros E; by apply Hhost, Hok|done]. }
  transitivity (forall raw0, Some raw = Some raw0 -> exists origin, hostOf raw0 = Some origin /\
     (this_machine origin \/ (exists e, e ∈ allowedOrigins policy /\ hostOf e = Some origin) \/
      (strict = false /\ exists rawHost, h_host r = Some rawHost /\ hostOf rawHost = Some origin))).
  2: { split; [|by intros [_ ?]]. intros Ho. split; [intros E; by apply Hhost, Hok|done]. }
  destruct (hostOf raw) as [origin|] eqn:Eo.
  2: { split; [done|]. intros Ho. destruct (Ho raw eq_refl) as (? & E & _). by rewrite Eo in E. }
  transitivity (this_machine origin \/ (exists e, e ∈ allowedOrigins policy /\ hostOf e = Some origin) \/
      (strict = false /\ exists rawHost, h_host r = Some rawHost /\ hostOf rawHost = Some origin)).
  2: { split.
       - intros Ho raw0 [= <-]. by exists origin.
       - intros Ho. destruct (Ho raw eq_refl) as (o & E & Hc). rewrite Eo in E. by injection E as <-. }
  rewrite <- loopbackName_spec, <- names_spec.
  destruct (loopbackName origin); [by split; [left|]|]. destruct (names (allowedOrigins policy) origin); [by split; [right; left|]|].
  destruct strict; cbn; [split; [done|by intros [?|[?|[? _]]]]|].
  case_bool_decide as Eb.
  - split; [|done]. intros _. right. right. split; [done|]. by apply bind_Some in Eb.
  - split; [done|]. intros [?|[?|[_ Hx]]]; [done..|]. by apply bind_Some in Hx.
Qed.

(** The header that lets a page read a response is sent only to pages the guard lets through. *)
Lemma cors_only_allowed r policy : corsHeaders r policy <> [] ->
  originProblem r policy = None /\ exists raw, h_origin r = Some raw /\
  corsHeaders r policy = [(js "access-control-allow-origin", raw); (js "vary", js "Origin")].
Proof.
  unfold corsHeaders. destruct (h_origin r) as [raw|]; [|done]. destruct (originProblem r policy); [done|]. by eauto.
Qed.
End Guard.

(** ** At concrete requests *)

(** [new URL] on the plain names below: what follows the scheme, up to the port. *)
Definition plain_url (s : ustring) : option ustring :=
  let rest := if starts_with (js "http://") s then drop 7 s else if starts_with (js "https://") s then drop 8 s else s in
  hd_error (split_on 58 rest).

#[local] Instance plain_host : UrlHost := plain_url.

Definition local_policy : OriginPolicy :=
  {| bind_host := js "127.0.0.1"; allowedOrigins := [js "https://app.example"]; allowedHosts := [] |}.

(** A page at [evil.example] that resolves to this machine; a developer's page; no page at all. *)
Example rebinding :
  map (fun '(h, o) => originProblem {| h_host := Some (js h); h_origin := js <$> o |} local_policy)
    [("evil.example:7420"%string, None); ("localhost:8080"%string, Some "http://localhost:5173"%string);
     ("127.0.0.1:7420"%string, Some "http://evil.example"%string); ("127.0.0.1:7420"%string, None);
     ("127.9.9.9"%string, Some "null"%string)] =
  [Some HostNotAllowed; None; Some OriginNotAllowed; None; Some OriginNotAllowed].
Proof. by vm_compute. Qed.

(** Only the host of an entry counts: another scheme and another port are allowed along with it. *)
Lemma allowed_origin_any_scheme :
  originProblem {| h_host := Some (js "127.0.0.1"); h_origin := Some (js "http://app.example:8080") |} local_policy = None.
Proof. by vm_compute. Qed.
