(* ===== verification/Router.v ===== *)
(** * Routes: [packages/server/src/router.ts]

    Matching a path against the table of routes, with [decodeURIComponent] for the segments a
    pattern names. *)
From S2P Require Import Prelude UString DeliveryKey Principal.
Local Open Scope Z_scope.

(** ** decodeURIComponent *)

Definition hex_value (c : Z) : option Z :=
  if is_digit c then Some (c - 48)
  else if (65 <=? c) && (c <=? 70) then Some (c - 55)
  else if (97 <=? c) && (c <=? 102) then Some (c - 87)
  else None.

(** [%XX] at the head of a string. *)
Definition percent_octet (s : ustring) : option (Z * ustring) :=
  match s with
  | p :: h :: l :: rest =>
      if p =? 37 then a ← hex_value h; b ← hex_value l; Some (16 * a + b, rest) else None
  | _ => None
  end.

Fixpoint octets (n : nat) (s : ustring) : option (list Z * ustring) :=
  match n with
  | O => Some ([], s)
  | S n => '(b, s1) ← percent_octet s; '(bs, s2) ← octets n s1; Some (b :: bs, s2)
  end.

(** How many octets a leading octet announces. *)
Definition announced (b : Z) : option nat :=
  if b <? 0x80 then Some 1%nat
  else if b <? 0xc0 then None
  else if b <? 0xe0 then Some 2%nat
  else if b <? 0xf0 then Some 3%nat
  else if b <? 0xf8 then Some 4%nat
  else None.

Definition continues (b : Z) : bool := (0x80 <=? b) && (b <? 0xc0).

(** The code point of a well-formed sequence: shortest form, no surrogate, no more than U+10FFFF. *)
Definition utf8_point (bs : list Z) : option Z :=
  match bs with
  | [a] => if a <? 0x80 then Some a else None
  | [a; b] =>
      let cp := (a - 0xc0) * 64 + (b - 0x80) in
      if continues b && (0x80 <=? cp) then Some cp else None
  | [a; b; c] =>
      let cp := (a - 0xe0) * 4096 + (b - 0x80) * 64 + (c - 0x80) in
      if continues b && continues c && (0x800 <=? cp) && negb ((0xd800 <=? cp) && (cp <=? 0xdfff)) then Some cp else None
  | [a; b; c; d] =>
      let cp := (a - 0xf0) * 262144 + (b - 0x80) * 4096 + (c - 0x80) * 64 + (d - 0x80) in
      if continues b && continues c && continues d && (0x10000 <=? cp) && (cp <=? 0x10ffff) then Some cp else None
  | _ => None
  end.

Definition units (cp : Z) : ustring :=
  if cp <? 0x10000 then [cp] else [0xd800 + (cp - 0x10000) / 1024; 0xdc00 + (cp - 0x10000) mod 1024].

Fixpoint decode_loop (fuel : nat) (s : ustring) : option ustring :=
  match fuel, s with
  | _, [] => Some []
  | O, _ => None
  | S fuel, c :: rest =>
      if c =? 37 then
        '(b, s1) ← percent_octet s;
        n ← announced b;
        '(bs, s2) ← octets (n - 1) s1;
        cp ← utf8_point (b :: bs);
        t ← decode_loop fuel s2;
        Some (units cp ++ t)
      else t ← decode_loop fuel rest; Some (c :: t)
  end.

(** Each round takes at least a code unit. *)
Definition decodeURIComponent (s : ustring) : option ustring := decode_loop (length s) s.

(** ** The router *)

(** [split("/")] without the empty segments. *)
Definition split (path : ustring) : list ustring := List.filter (fun s => negb (is_nil s)) (split_on 47 path).

Definition Params := gmap (list Z) (list Z).

(** A pattern segment that names a parameter. *)
Definition param_name (segment : ustring) : option ustring :=
  match segment with c :: name => if c =? 58 then Some name else None | [] => None end.

Fixpoint matchSegments (pattern parts : list ustring) (params : Params) : option Params :=
  match pattern, parts with
  | [], [] => Some params
  | expected :: pattern, actual :: parts =>
      match param_name expected with
      | Some name =>
          match decodeURIComponent actual with
          | Some value => matchSegments pattern parts (<[name := value]> params)
          | None => None
          end
      | None => if bool_decide (expected = actual) then matchSegments pattern parts params else None
      end
  | _, _ => None
  end.

(** A method's letters are ASCII. *)
Definition upper_char (c : Z) : Z := if (97 <=? c) && (c <=? 122) then c - 32 else c.
Definition upper (s : ustring) : ustring := map upper_char s.

Section Router.
Context {Handler : Type}.

(** [capability] is [None] for ["open"]. *)
Record Route := {
  method : ustring; pattern : ustring; handler : Handler; capability : option Capability; streaming : bool;
  segments : list ustring }.

Definition add (m p : ustring) (h : Handler) (c : option Capability) (s : bool) (routes : list Route) : list Route :=
  routes ++ [{| method := upper m; pattern := p; handler := h; capability := c; streaming := s; segments := split p |}].

Inductive Match :=
| Found (r : Route) (params : Params)
| MethodNot (allowed : list ustring)
| NoMatch.

Definition path_match (parts : list ustring) (r : Route) : option Params := matchSegments (segments r) parts ∅.

(** The loop of [match]: the first route of the method wins, the others are remembered. *)
Fixpoint match_from (m : ustring) (parts : list ustring) (routes : list Route) (pathMatches : list Route) : Match :=
  match routes with
  | [] =>
      match pathMatches with
      | [] => NoMatch
      | _ => MethodNot (distinct [] (map method pathMatches))
      end
  | r :: rest =>
      match path_match parts r with
      | None => match_from m parts rest pathMatches
      | Some params =>
          if bool_decide (method r = upper m) then Found r params
          else match_from m parts rest (pathMatches ++ [r])
      end
  end.

Definition match_ (m pathname : ustring) (routes : list Route) : Match := match_from m (split pathname) routes [].

(** ** What a match is *)

Lemma match_from_found m parts routes acc r ps : match_from m parts routes acc = Found r ps ->
  r ∈ routes /\ method r = upper m /\ path_match parts r = Some ps.
Proof.
  revert acc. induction routes as [|x routes IH]; intros acc H; cbn in H; [by destruct acc|].
  destruct (path_match parts x) as [qs|] eqn:E.
  - case_bool_decide as Em.
    + injection H as <- <-. split_and!; [by left|done..].
    + destruct (IH _ H) as (? & ? & ?). split_and!; [by right|done..].
  - destruct (IH _ H) as (? & ? & ?). split_and!; [by right|done..].
Qed.

Lemma match_from_complete m parts routes acc r ps : r ∈ routes -> method r = upper m ->
  path_match parts r = Some ps -> exists r' ps', match_from m parts routes acc = Found r' ps'.
Proof.
  intros Hr. revert acc. induction Hr as [r routes|r x routes Hr IH]; intros acc Hm Hp; cbn.
  - rewrite Hp, bool_decide_true by done. by eauto.
  - destruct (path_match parts x); [case_bool_decide|]; eauto.
Qed.

Lemma match_from_method m parts routes acc l : match_from m parts routes acc = MethodNot l ->
  l = distinct [] (map method (acc ++ List.filter (fun r => bool_decide (is_Some (path_match parts r))) routes)) /\
  forall r, r ∈ routes -> is_Some (path_match parts r) -> method r <> upper m.
Proof.
  revert acc. induction routes as [|x routes IH]; intros acc H; cbn in H.
  - rewrite app_nil_r. split; [|by intros r Hr; apply elem_of_nil in Hr]. destruct acc; [done|]. by injection H as <-.
  - cbn [List.filter]. destruct (path_match parts x) as [ps|] eqn:E.
    + case_bool_decide as Em; [done|]. destruct (IH _ H) as [-> Hno]. split.
      * rewrite bool_decide_true by done. by rewrite <- app_assoc.
      * intros r [->|Hr]%elem_of_cons; [done|by apply Hno].
    + destruct (IH _ H) as [-> Hno]. split; [done|]. intros r [->|Hr]%elem_of_cons; [|by apply Hno].
      rewrite E. by intros [? ?].
Qed.
End Router.
Arguments Route : clear implicits.
Arguments Match : clear implicits.

(** ** Encoded segments come back *)

Lemma hex_value_digit n : 0 <= n < 16 -> hex_value (hex_digit n) = Some n.
Proof.
  intros H. assert (exists k, (k < 16)%nat /\ n = Z.of_nat k) as (k & Hk & ->) by (exists (Z.to_nat n); lia).
  do 16 (destruct k as [|k]; [done|]). lia.
Qed.

Lemma percent_octet_percent b s : is_byte b -> percent_octet (percent b ++ s) = Some (b, s).
Proof.
  intros Hb. unfold is_byte in Hb. unfold percent, percent_octet. cbn [app]. change (37 =? 37) with true. cbv iota.
  rewrite !hex_value_digit by first [apply Z.mod_pos_bound; lia|split; [apply Z.div_pos; lia|apply Z.div_lt_upper_bound; lia]].
  cbn. rewrite <- Z.div_mod by lia. done.
Qed.

Lemma octets_percents bs s : Forall is_byte bs -> octets (length bs) (concat (map percent bs) ++ s) = Some (bs, s).
Proof.
  induction 1 as [|b bs Hb _ IH]; [done|]. cbn [length octets map concat]. rewrite <- app_assoc, percent_octet_percent by done.
  cbn. by rewrite IH.
Qed.

(** A Unicode scalar value. *)
Definition scalar (p : Z) : Prop := 0 <= p < 0xd800 \/ 0xe000 <= p < 0x110000.

Lemma continues_low n : 0 <= n < 64 -> continues (0x80 + n) = true.
Proof. unfold continues. rewrite andb_true_iff. lia. Qed.

Lemma utf8_point_utf8 cp : scalar cp ->
  exists b bs, utf8 cp = b :: bs /\ announced b = Some (S (length bs)) /\ utf8_point (b :: bs) = Some cp.
Proof.
  intros H. unfold utf8, scalar in *.
  pose proof (Z.mod_pos_bound cp 64 ltac:(lia)). pose proof (Z.mod_pos_bound (cp / 64) 64 ltac:(lia)).
  pose proof (Z.mod_pos_bound (cp / 4096) 64 ltac:(lia)).
  assert (cp = 64 * (cp / 64) + cp mod 64) as E0 by (apply Z.div_mod; lia).
  assert (cp / 64 = 64 * (cp / 4096) + cp / 64 mod 64) as E1.
  { change 4096 with (64 * 64). rewrite <- Z.div_div by lia. apply Z.div_mod. lia. }
  assert (cp / 4096 = 64 * (cp / 262144) + cp / 4096 mod 64) as E2.
  { change 262144 with (4096 * 64). rewrite <- Z.div_div by lia. apply Z.div_mod. lia. }
  destruct (Z.ltb_spec cp 0x80).
  { exists cp, []. unfold announced, utf8_point. rewrite (proj2 (Z.ltb_lt cp 0x80)) by lia. done. }
  destruct (Z.ltb_spec cp 0x800); [|destruct (Z.ltb_spec cp 0x10000)].
  - do 2 eexists. split; [done|]. unfold announced, utf8_point. rewrite continues_low by lia.
    split; [by rewrite !(proj2 (Z.ltb_ge _ _)), (proj2 (Z.ltb_lt _ _)) by lia|].
    replace ((0xc0 + cp / 64 - 0xc0) * 64 + (0x80 + cp mod 64 - 0x80)) with cp by lia.
    rewrite (proj2 (Z.leb_le 0x80 cp)) by lia. done.
  - do 2 eexists. split; [done|]. unfold announced, utf8_point. rewrite !continues_low by lia.
    split; [by rewrite !(proj2 (Z.ltb_ge _ _)), (proj2 (Z.ltb_lt _ _)) by lia|].
    replace ((0xe0 + cp / 4096 - 0xe0) * 4096 + (0x80 + cp / 64 mod 64 - 0x80) * 64 + (0x80 + cp mod 64 - 0x80)) with cp by lia.
    rewrite (proj2 (Z.leb_le 0x800 cp)) by lia.
    replace ((0xd800 <=? cp) && (cp <=? 0xdfff)) with false; [done|]. symmetry. apply andb_false_iff. lia.
  - do 2 eexists. split; [done|]. unfold announced, utf8_point. rewrite !continues_low by lia.
    split; [by rewrite !(proj2 (Z.ltb_ge _ _)), (proj2 (Z.ltb_lt _ _)) by lia|].
    replace ((0xf0 + cp / 262144 - 0xf0) * 262144 + (0x80 + cp / 4096 mod 64 - 0x80) * 4096 +
      (0x80 + cp / 64 mod 64 - 0x80) * 64 + (0x80 + cp mod 64 - 0x80)) with cp by lia.
    rewrite (proj2 (Z.leb_le 0x10000 cp)), (proj2 (Z.leb_le cp 0x10ffff)) by lia. done.
Qed.

Lemma decode_point fuel cp s : scalar cp ->
  decode_loop (S fuel) (encode_point cp ++ s) = (t ← decode_loop fuel s; Some (units cp ++ t)).
Proof.
  intros H. unfold encode_point. destruct (unreserved cp) eqn:Eu.
  - apply unreserved_percent in Eu as (H37 & _ & H128 & _). cbn [app decode_loop].
    destruct (Z.eqb_spec cp 37); [done|]. unfold units. rewrite (proj2 (Z.ltb_lt cp 0x10000)) by lia. done.
  - destruct (utf8_point_utf8 cp H) as (b & bs & Eb & Ea & Ep).
    assert (Forall is_byte (b :: bs)) as Hb by (rewrite <- Eb; apply utf8_bytes; unfold scalar in H; lia).
    inversion_clear Hb as [|? ? Hb1 Hbs]. rewrite Eb. cbn [map concat]. rewrite <- app_assoc.
    assert (percent b = 37 :: tl (percent b)) as -> by done. cbn [app decode_loop]. change (37 =? 37) with true. cbv iota.
    change (37 :: tl (percent b) ++ concat (map percent bs) ++ s) with (percent b ++ concat (map percent bs) ++ s).
    rewrite percent_octet_percent by done. cbn [mbind option_bind]. rewrite Ea. cbn [mbind option_bind Nat.sub].
    rewrite Nat.sub_0_r, octets_percents by done. cbn [mbind option_bind]. by rewrite Ep.
Qed.

Lemma decode_points ps : forall fuel, (length ps <= fuel)%nat -> Forall scalar ps ->
  decode_loop fuel (concat (map encode_point ps)) = Some (concat (map units ps)).
Proof.
  induction ps as [|p ps IH]; intros fuel Hf Hp; [by destruct fuel|]. inversion_clear Hp as [|? ? H1 H2].
  destruct fuel as [|fuel]; [cbn in Hf; lia|]. cbn [map concat]. rewrite decode_point by done.
  rewrite IH; [done|cbn in Hf; lia|done].
Qed.

Lemma points_scalar s : is_text s -> forall ps, points s = Some ps -> Forall scalar ps /\ concat (map units ps) = s.
Proof.
  remember (length s) as n eqn:Hn. revert s Hn.
  induction n as [n IH] using (well_founded_induction Nat.lt_wf_0). intros s -> Ht ps Hp.
  destruct s as [|c rest]; [by injection Hp as <-|]. cbn [points] in Hp.
  apply Forall_cons in Ht as [Hc Ht]. destruct (is_low c) eqn:El; [done|]. apply not_true_iff_false in El. rewrite is_low_spec in El.
  destruct (is_high c) eqn:Eh.
  - destruct rest as [|d rest]; [done|]. destruct (is_low d) eqn:Ed; [|done]. apply is_high_spec in Eh. apply is_low_spec in Ed.
    destruct (points rest) as [qs|] eqn:E; [|done]. injection Hp as <-. apply Forall_cons in Ht as [Hd Ht].
    destruct (IH (length rest) ltac:(cbn; lia) rest eq_refl Ht qs E) as [H1 H2].
    split; [constructor; [right; lia|done]|]. cbn [map concat]. rewrite H2. unfold units.
    rewrite (proj2 (Z.ltb_ge _ _)) by lia.
    replace (0x10000 + (c - 0xd800) * 1024 + (d - 0xdc00) - 0x10000) with ((c - 0xd800) * 1024 + (d - 0xdc00)) by lia.
    rewrite Z.div_add_l, (Z.div_small (d - 0xdc00)), (Z.add_comm _ (d - 0xdc00)), Z.mod_add, Z.mod_small by lia.
    cbn [app]. f_equal; [lia|f_equal; lia].
  - apply not_true_iff_false in Eh. rewrite is_high_spec in Eh.
    destruct (points rest) as [qs|] eqn:E; [|done]. injection Hp as <-.
    destruct (IH (length rest) ltac:(cbn; lia) rest eq_refl Ht qs E) as [H1 H2].
    split; [constructor; [unfold scalar; lia|done]|]. cbn [map concat]. rewrite H2. unfold units.
    by rewrite (proj2 (Z.ltb_lt c 0x10000)) by lia.
Qed.

Lemma encode_point_nonempty p : encode_point p <> [].
Proof.
  unfold encode_point. destruct (unreserved p); [done|].
  destruct (percents_head (utf8 p) [] (utf8_nonempty p)) as [x E]. rewrite app_nil_r in E. by rewrite E.
Qed.

Lemma decode_encode s e : is_text s -> encodeURIComponent s = Some e -> decodeURIComponent e = Some s.
Proof.
  intros Ht He. rewrite encode_points in He. destruct (points s) as [ps|] eqn:E; [|done]. injection He as <-.
  destruct (points_scalar s Ht ps E) as [Hp <-]. apply decode_points; [|done].
  clear. induction ps as [|p ps IH]; [done|]. cbn [map concat]. rewrite length_app. cbn [length].
  pose proof (encode_point_nonempty p). destruct (encode_point p); [done|]. cbn. lia.
Qed.

(** ** A path written for a route is matched by it *)

Definition param_names (pattern : list ustring) : list ustring := omap param_name pattern.

(** What a client does: each parameter is replaced by an encoded value. *)
Fixpoint fill (pattern values : list ustring) : option (list ustring) :=
  match pattern with
  | [] => match values with [] => Some [] | _ => None end
  | seg :: pattern =>
      match param_name seg with
      | Some _ =>
          match values with
          | v :: values => e ← encodeURIComponent v; parts ← fill pattern values; Some (e :: parts)
          | [] => None
          end
      | None => parts ← fill pattern values; Some (seg :: parts)
      end
  end.

Definition write_path (parts : list ustring) : ustring := 47 :: join [47] parts.

Definition plain_segment (s : ustring) : Prop := s <> [] /\ ~ In 47 s.

Lemma split_write parts : Forall plain_segment parts -> split (write_path parts) = parts.
Proof.
  intros H. unfold split, write_path. cbn [split_on]. change (47 =? 47) with true. cbn [List.filter is_nil negb].
  destruct parts as [|p parts]; [done|]. rewrite split_on_join; [|done|by eapply Forall_impl; [exact H|intros ? []]].
  induction H as [|x l [Hx _] _ IH]; [done|]. cbn. destruct x; [done|]. cbn. by rewrite IH.
Qed.

Lemma split_plain p : Forall plain_segment (split p).
Proof.
  pose proof (split_on_no_sep 47 p) as H. unfold split. rewrite List.Forall_forall in *. intros s Hs.
  apply filter_In in Hs as [Hs Hn]. split; [by destruct s|by apply H].
Qed.

Lemma hex_not_slash n : 0 <= n < 16 -> hex_digit n <> 47.
Proof. unfold hex_digit. intros H. case_match; bool_to_prop; lia. Qed.

Lemma encode_point_no_slash p : 0 <= p < 0x110000 -> ~ In 47 (encode_point p).
Proof.
  intros Hp. unfold encode_point. destruct (unreserved p) eqn:E.
  - intros [->|[]]. done.
  - pose proof (utf8_bytes p Hp) as Hb. induction Hb as [|b bs Hb _ IH]; [by intros []|]. cbn [map concat].
    rewrite in_app_iff. intros [Hin|Hin]; [|done]. unfold is_byte in Hb. unfold percent in Hin. cbn in Hin.
    destruct Hin as [Hin|[Hin|[Hin|[]]]]; [done|..]; symmetry in Hin; revert Hin; apply not_eq_sym, hex_not_slash.
    + split; [apply Z.div_pos; lia|apply Z.div_lt_upper_bound; lia].
    + apply Z.mod_pos_bound. lia.
Qed.

Lemma encoded_plain v e : v <> [] -> is_text v -> encodeURIComponent v = Some e -> plain_segment e.
Proof.
  intros Hv Ht He. rewrite encode_points in He. destruct (points v) as [ps|] eqn:E; [|done]. injection He as <-.
  destruct (points_scalar v Ht ps E) as [Hp Hu]. pose proof (points_bounds v ps Ht E) as Hb. split.
  - destruct ps as [|p ps]; [by subst v|]. cbn [map concat]. pose proof (encode_point_nonempty p).
    by destruct (encode_point p).
  - clear -Hb. induction Hb as [|p ps Hp _ IH]; [by intros []|]. cbn [map concat]. rewrite in_app_iff.
    intros [H|H]; [by apply (encode_point_no_slash p Hp)|done].
Qed.

Lemma fill_plain pattern : forall values parts, Forall plain_segment pattern ->
  Forall (fun v => v <> [] /\ is_text v) values -> fill pattern values = Some parts -> Forall plain_segment parts.
Proof.
  induction pattern as [|seg pattern IH]; intros values parts Hs Hv H; cbn in H.
  - destruct values; [|done]. by injection H as <-.
  - inversion_clear Hs as [|? ? Hseg Hs']. destruct (param_name seg).
    + destruct values as [|v values]; [done|]. inversion_clear Hv as [|? ? [Hv1 Hv2] Hv'].
      destruct (encodeURIComponent v) as [e|] eqn:Ee; [|done]. cbn in H. destruct (fill pattern values) eqn:Ef; [|done].
      injection H as <-. constructor; [by eapply encoded_plain|by eapply IH].
    + destruct (fill pattern values) eqn:Ef; [|done]. injection H as <-. constructor; [done|by eapply IH].
Qed.

Lemma match_keeps pattern : forall parts params q name, matchSegments pattern parts params = Some q ->
  name ∉ param_names pattern -> q !! name = params !! name.
Proof.
  unfold param_names. induction pattern as [|seg pattern IH]; intros parts params q name H Hn; destruct parts as [|a parts]; cbn in *; try done.
  - by injection H as <-.
  - destruct (param_name seg) as [n|].
    + destruct (decodeURIComponent a); [|done]. apply not_elem_of_cons in Hn as [Hne Hn].
      rewrite (IH _ _ _ name H Hn). by apply lookup_insert_ne.
    + case_bool_decide; [|done]. by eapply IH.
Qed.

Lemma fill_matches pattern : forall values parts params, Forall is_text values -> fill pattern values = Some parts ->
  NoDup (param_names pattern) ->
  exists q, matchSegments pattern parts params = Some q /\
    forall i name v, param_names pattern !! i = Some name -> values !! i = Some v -> q !! name = Some v.
Proof.
  unfold param_names. induction pattern as [|seg pattern IH]; intros values parts params Hv H Hnd; cbn in H, Hnd |- *.
  - destruct values; [|done]. injection H as <-. exists params. split; [done|]. by intros i name v E.
  - destruct (param_name seg) as [n|] eqn:En.
    + destruct values as [|v values]; [done|]. inversion_clear Hv as [|? ? Hv1 Hv'].
      destruct (encodeURIComponent v) as [e|] eqn:Ee; [|done]. cbn in H. destruct (fill pattern values) as [ps|] eqn:Ef; [|done].
      injection H as <-. apply NoDup_cons in Hnd as [Hn Hnd]. cbn. rewrite (decode_encode v e Hv1 Ee).
      destruct (IH values ps (<[n := v]> params) Hv' Ef Hnd) as (q & Hq & Hl). exists q. split; [done|].
      intros [|i] name w E1 E2; cbn in E1, E2; [|by eapply Hl]. injection E1 as <-. injection E2 as <-.
      rewrite (match_keeps pattern ps _ q n Hq Hn). apply lookup_insert_eq.
    + destruct (fill pattern values) as [ps|] eqn:Ef; [|done]. injection H as <-. cbn. rewrite bool_decide_true by done.
      by apply IH.
Qed.

Lemma match_from_first {H} m parts (before : list (Route H)) r after : forall acc ps,
  (forall x, x ∈ before -> method x = upper m -> path_match parts x = None) -> method r = upper m ->
  path_match parts r = Some ps -> match_from m parts (before ++ r :: after) acc = Found r ps.
Proof.
  induction before as [|x before IH]; intros acc ps Hb Hm Hp; cbn.
  - by rewrite Hp, bool_decide_true.
  - destruct (path_match parts x) as [qs|] eqn:E.
    + rewrite bool_decide_false; [by apply IH; [intros y Hy; apply Hb; by right|..]|].
      intros Em. by rewrite (Hb x ltac:(by left) Em) in E.
    + apply IH; [intros y Hy; apply Hb; by right|done..].
Qed.

(** A path written for a route reaches it with the values it was written with: whatever the ids
    contain, slashes, colons, percent signs and characters outside ASCII included, encoding each into
    its segment and matching the path gives the route, and under every parameter's name the value
    that was put there, unless an earlier route of the same method takes the path. *)
Theorem route_reached {H} (m : ustring) (r : Route H) (before after : list (Route H)) (values parts : list ustring)
  (Hseg : segments r = split (pattern r)) (Hm : method r = upper m) (Hnd : NoDup (param_names (segments r)))
  (Hv : Forall (fun v => v <> [] /\ is_text v) values) (Hf : fill (segments r) values = Some parts)
  (Hb : forall x, x ∈ before -> method x = upper m -> path_match parts x = None) :
  exists params, match_ m (write_path parts) (before ++ r :: after) = Found r params /\
    forall i name v, param_names (segments r) !! i = Some name -> values !! i = Some v -> params !! name = Some v.
Proof.
  assert (Forall is_text values) as Ht by (eapply Forall_impl; [exact Hv|by intros ? []]).
  destruct (fill_matches (segments r) values parts ∅ Ht Hf Hnd) as (q & Hq & Hl). exists q. split; [|done].
  unfold match_. rewrite split_write; [by apply match_from_first|].
  eapply fill_plain; [|exact Hv|exact Hf]. rewrite Hseg. apply split_plain.
Qed.

Definition sample_routes : list (Route unit) :=
  add (js "get") (js "/v1/agents/:id/sessions/:key") tt (Some CapRead) false
    (add (js "GET") (js "/v1/agents/:id") tt (Some CapRead) false []).

Lemma route_reached_witness :
  exists r params, match_ (js "GET") (js "/v1/agents/m%2Fe/sessions/tg%3A-100%2525") sample_routes = Found r params /\
    params !! js "key" = Some (js "tg:-100%25").
Proof.
  destruct (route_reached (js "GET") (nth 1 sample_routes (nth 0 sample_routes
    {| method := []; pattern := []; handler := tt; capability := None; streaming := false; segments := [] |}))
    (take 1 sample_routes) [] [js "m/e"; js "tg:-100%25"] (map js ["v1"; "agents"; "m%2Fe"; "sessions"; "tg%3A-100%2525"]%string))
    as (params & E & Hl).
  - reflexivity.
  - reflexivity.
  - apply (bool_decide_unpack _). vm_compute. exact I.
  - repeat constructor; try discriminate; vm_compute; intros; discriminate.
  - reflexivity.
  - intros x Hx _. apply list_elem_of_singleton in Hx as ->. reflexivity.
  - eexists _, params. split; [exact E|]. apply (Hl 1%nat); reflexivity.
Defined.

(** A path that cannot be decoded matches no parameter; what it names is not guessed. *)
Lemma malformed_matches_nothing pattern parts params i name actual :
  pattern !! i = Some (58 :: name) -> parts !! i = Some actual -> decodeURIComponent actual = None ->
  matchSegments pattern parts params = None.
Proof.
  revert pattern parts params. induction i as [|i IH]; intros [|seg pattern] [|a parts] params H1 H2 H3; try done; cbn in *.
  - injection H1 as ->. injection H2 as ->. cbn. by rewrite H3.
  - destruct (param_name seg); [destruct (decodeURIComponent a); [by eapply IH|done]|]. case_bool_decide; [by eapply IH|done].
Qed.
