(* ===== verification/OperatorKeys.v ===== *)
(** * Operator keys: [auth/keys.ts] and the [operator_keys] table of [store/sqlite/store.ts]

    A row per key, never deleted: revoking stamps it. The platform's SHA-256 is a parameter. *)
From S2P Require Import Prelude UString Principal.
From stdpp Require Import sorting.
Local Open Scope Z_scope.

(** ** Secrets and labels *)

Definition OPERATOR_KEY_PREFIX : ustring := js "dispach_".
Definition SECRET_ALPHABET : ustring := js "0123456789abcdefghjkmnpqrstvwxyz".
Definition SECRET_SYMBOLS : nat := 32.

(** From [SECRET_SYMBOLS] random bytes. *)
Definition newKeySecret (bytes : list Z) : ustring :=
  OPERATOR_KEY_PREFIX ++ map (fun byte => nth (Z.to_nat (Z.land byte 0x1f)) SECRET_ALPHABET 48) bytes.

(** [crypto.subtle.digest("SHA-256", …)] of a text's UTF-8: its bytes. *)
Class Digest := sha256 : ustring -> list Z.

Definition hex_lower (n : Z) : Z := if n <? 10 then 48 + n else 87 + n.
Definition hex_byte (b : Z) : ustring := [hex_lower (b / 16); hex_lower (b mod 16)].
Definition keyFingerprint `{Digest} (secret : ustring) : ustring := concat (map hex_byte (sha256 secret)).

Definition MAX_KEY_LABEL : Z := 64.
Definition is_control (c : Z) : bool := ((0 <=? c) && (c <=? 0x1f)) || (c =? 0x7f).
Inductive LabelProblem := LabelEmpty | LabelTooLong | LabelControl.

Definition keyLabelProblem (label : ustring) : option LabelProblem :=
  if bool_decide (trim label = []) then Some LabelEmpty
  else if MAX_KEY_LABEL <? zlen label then Some LabelTooLong
  else if existsb is_control label then Some LabelControl
  else None.

(** ** The table *)

Record KeyRow := {
  keyId : ustring; label : ustring; fingerprint : ustring; createdAt : Z; lastUsedAt : option Z;
  revokedAt : option Z; scope : option KeyScope; expiresAt : option Z }.

(** Rows in [rowid] order. *)
Definition Keys := list KeyRow.

(** [key_id] is the primary key and [fingerprint] unique: [None] is the driver's exception. *)
Definition issue (id lab fp : ustring) (created : Z) (sc : option KeyScope) (expires : option Z) (db : Keys) : option Keys :=
  if existsb (fun r => bool_decide (keyId r = id) || bool_decide (fingerprint r = fp)) db then None
  else Some (db ++ [{| keyId := id; label := lab; fingerprint := fp; createdAt := created; lastUsedAt := None;
                       revokedAt := None; scope := sc; expiresAt := expires |}]).

Definition is_live (at_ : Z) (r : KeyRow) : bool :=
  bool_decide (revokedAt r = None) && match expiresAt r with None => true | Some e => at_ <? e end.

Definition findLive (fp : ustring) (at_ : Z) (db : Keys) : option KeyRow :=
  List.find (fun r => bool_decide (fingerprint r = fp) && is_live at_ r) db.

Definition DEFAULT_KEY_TOUCH_MS : Z := 60000.

Definition touch_row (at_ : Z) (r : KeyRow) : KeyRow :=
  {| keyId := keyId r; label := label r; fingerprint := fingerprint r; createdAt := createdAt r;
     lastUsedAt := Some at_; revokedAt := revokedAt r; scope := scope r; expiresAt := expiresAt r |}.
Definition touch (id : ustring) (at_ : Z) (db : Keys) : Keys :=
  map (fun r => if bool_decide (keyId r = id) &&
                   match lastUsedAt r with None => true | Some u => u <? at_ - DEFAULT_KEY_TOUCH_MS end
                then touch_row at_ r else r) db.

Definition revoke_row (at_ : Z) (r : KeyRow) : KeyRow :=
  {| keyId := keyId r; label := label r; fingerprint := fingerprint r; createdAt := createdAt r;
     lastUsedAt := lastUsedAt r; revokedAt := Some at_; scope := scope r; expiresAt := expiresAt r |}.

(** The update, and the row read back. *)
Definition revoke (id : ustring) (at_ : Z) (db : Keys) : option KeyRow * Keys :=
  let db' := map (fun r => if bool_decide (keyId r = id) && bool_decide (revokedAt r = None)
                           then revoke_row at_ r else r) db in
  (List.find (fun r => bool_decide (keyId r = id)) db', db').

(** [created_at DESC, rowid DESC]. *)
Fixpoint list_insert (r : KeyRow) (l : Keys) : Keys :=
  match l with
  | [] => [r]
  | x :: rest => if createdAt x <=? createdAt r then r :: l else x :: list_insert r rest
  end.
Definition list_keys (db : Keys) : Keys := fold_left (fun l r => list_insert r l) db [].

Definition liveCount (db : Keys) : Z := zlen (List.filter (fun r => bool_decide (revokedAt r = None)) db).

(** ** The table never forgets and never revives *)

(** What an update leaves alone: the identity, the reach and a revocation once made. *)
Definition aged (a b : KeyRow) : Prop :=
  keyId b = keyId a /\ label b = label a /\ fingerprint b = fingerprint a /\ createdAt b = createdAt a /\
  scope b = scope a /\ expiresAt b = expiresAt a /\ (is_Some (revokedAt a) -> revokedAt b = revokedAt a).

#[export] Instance aged_preorder : PreOrder aged.
Proof.
  split; [by intros r|]. intros a b c (A1&A2&A3&A4&A5&A6&Ha) (B1&B2&B3&B4&B5&B6&Hb). unfold aged. split_and!; try congruence.
  intros H. pose proof (Ha H) as E. rewrite <- E in H |- *. by apply Hb.
Qed.

(** The table later: its rows aged, in order, and rows issued since behind them. *)
Definition later (db db' : Keys) : Prop := exists old new, db' = old ++ new /\ Forall2 aged db old.

#[export] Instance later_preorder : PreOrder later.
Proof.
  split.
  - intros db. exists db, []. rewrite app_nil_r. split; [done|]. induction db; by constructor.
  - intros a b c (b1 & b2 & -> & H1) (c1 & c2 & -> & H2). apply Forall2_app_inv_l in H2 as (d1 & d2 & Hd1 & Hd2 & ->).
    exists d1, (d2 ++ c2). split; [by rewrite app_assoc|]. clear -H1 Hd1. revert d1 Hd1.
    induction H1 as [|x y l l' Hxy _ IH]; intros d1 Hd1; inversion Hd1 as [|? z ? d' Hyz Hd']; subst; constructor; [by etrans|by apply IH].
Qed.

Lemma later_map g db : (forall r, aged r (g r)) -> later db (map g db).
Proof. intros H. exists (map g db), []. rewrite app_nil_r. split; [done|]. by induction db; constructor. Qed.

Lemma issue_later id lab fp c sc e db db' : issue id lab fp c sc e db = Some db' -> later db db'.
Proof.
  unfold issue. destruct (existsb _ _); [done|]. intros [= <-]. eexists db, _. split; [done|]. by induction db; constructor.
Qed.
Lemma touch_later id t db : later db (touch id t db).
Proof. apply later_map. intros r. by destruct (_ && _). Qed.
Lemma revoke_later id t db : later db (revoke id t db).2.
Proof.
  apply later_map. intros r. destruct (_ && _) eqn:E; [|done]. apply andb_true_iff in E as [_ E%bool_decide_eq_true].
  unfold aged. cbn. rewrite E. split_and!; try done; by intros [].
Qed.

Lemma later_row db db' r : later db db' -> r ∈ db -> exists r', r' ∈ db' /\ aged r r'.
Proof.
  intros (old & new & -> & H) Hr. apply list_elem_of_lookup in Hr as [i Hi].
  destruct (Forall2_lookup_l _ _ _ i r H Hi) as (r' & Hr' & Ha). exists r'. split; [|done].
  apply elem_of_app. left. by eapply list_elem_of_lookup_2.
Qed.

Lemma findLive_spec fp t db r : findLive fp t db = Some r ->
  r ∈ db /\ fingerprint r = fp /\ revokedAt r = None /\ (forall e, expiresAt r = Some e -> t < e).
Proof.
  intros H. apply find_some in H as [Hr H]. apply list_elem_of_In in Hr.
  apply andb_true_iff in H as [Hf [Hl He]%andb_true_iff]. apply bool_decide_eq_true in Hf. apply bool_decide_eq_true in Hl.
  split_and!; [done..|]. intros e E. rewrite E in He. lia.
Qed.

(** The fingerprint of a revoked row, or of none at all, opens nothing from then on, unless it is
    issued anew, which the unique column refuses. *)
Definition unique_keys (db : Keys) : Prop := NoDup (map fingerprint db) /\ NoDup (map keyId db).

Lemma issue_unique id lab fp c sc e db db' : unique_keys db -> issue id lab fp c sc e db = Some db' -> unique_keys db'.
Proof.
  unfold issue, unique_keys. destruct (existsb _ _) eqn:E; [done|]. intros [H1 H2] [= <-]. rewrite !map_app. cbn.
  assert (forall r, r ∈ db -> keyId r <> id /\ fingerprint r <> fp) as Hno.
  { intros r Hr. apply list_elem_of_In in Hr. apply not_true_iff_false in E. split; intros Er; apply E, existsb_exists; exists r;
      (split; [done|]); apply orb_true_iff; [left|right]; by apply bool_decide_eq_true. }
  split; apply NoDup_app; (split_and!; [done| |by apply NoDup_singleton]);
    intros x Hx ->%list_elem_of_singleton; apply list_elem_of_fmap in Hx as (r & -> & Hr); by destruct (Hno r Hr).
Qed.

Lemma later_labels db db' : Forall2 aged db db' -> map fingerprint db' = map fingerprint db /\ map keyId db' = map keyId db.
Proof. induction 1 as [|x y l l' (Hi & _ & Hf & _) _ [IH1 IH2]]; [done|]. cbn. by rewrite Hi, Hf, IH1, IH2. Qed.

Lemma revoked_stays_dead db db' t r : unique_keys db' -> later db db' -> r ∈ db -> is_Some (revokedAt r) ->
  findLive (fingerprint r) t db' = None.
Proof.
  intros [Hu _] Hl Hr Hrev. destruct (findLive _ _ _) as [x|] eqn:E; [|done]. apply findLive_spec in E as (Hx & Hf & Hn & _).
  destruct (later_row db db' r Hl Hr) as (r' & Hr' & (_ & _ & Hf' & _ & _ & _ & Hrv)).
  assert (x = r') as ->; [|by rewrite (Hrv Hrev), Hn in *; destruct Hrev].
  apply list_elem_of_lookup in Hx as [i Hi]. apply list_elem_of_lookup in Hr' as [j Hj].
  assert (i = j) as ->; [|congruence]. eapply NoDup_lookup; [exact Hu|..]; rewrite list_lookup_fmap; [by rewrite Hi|].
  rewrite Hj. cbn. by rewrite Hf, Hf'.
Qed.

(** ** The listing *)

Lemma list_insert_perm r l : Permutation (list_insert r l) (r :: l).
Proof.
  induction l as [|x l IH]; [done|]. cbn. destruct (_ <=? _); [done|]. rewrite IH. apply perm_swap.
Qed.

Lemma list_insert_head r l x : hd_error (list_insert r l) = Some x -> x = r \/ hd_error l = Some x.
Proof. destruct l as [|y l]; cbn; [intros [= <-]; by left|]. destruct (_ <=? _); intros [= <-]; [by left|by right]. Qed.

Definition newest_first (l : Keys) : Prop := Sorted (fun a b => createdAt b <= createdAt a) l.

Lemma list_insert_sorted r l : newest_first l -> newest_first (list_insert r l).
Proof.
  unfold newest_first. induction 1 as [|x l Hs IH Hd]; [by repeat constructor|]. cbn.
  destruct (Z.leb_spec (createdAt x) (createdAt r)).
  - constructor; [by constructor|]. by constructor.
  - constructor; [done|]. inversion Hd as [|y ? Hy]; subst; cbn; [constructor; lia|].
    destruct (_ <=? _); constructor; lia.
Qed.

(** Every key is listed, revoked ones included, newest first. *)
Lemma list_keys_spec db : Permutation (list_keys db) db /\ newest_first (list_keys db).
Proof.
  unfold list_keys. assert (forall l, newest_first l -> let m := fold_left (fun l r => list_insert r l) db l in
    Permutation m (db ++ l) /\ newest_first m) as H.
  { induction db as [|r db IH]; intros l Hl; [done|]. cbn. destruct (IH _ (list_insert_sorted r l Hl)) as [H1 H2].
    split; [|done]. rewrite H1, list_insert_perm. by rewrite Permutation_middle. }
  destruct (H [] ltac:(constructor)) as [H1 H2]. by rewrite app_nil_r in H1.
Qed.

(** [liveCount] says how many keys are not revoked, expired ones among them: where every key has
    expired none can authenticate, and the count is not zero. *)
Lemma liveCount_counts_expired :
  exists db, unique_keys db /\ liveCount db = 1 /\ forall fp t, 1000 <= t -> findLive fp t db = None.
Proof.
  exists [{| keyId := js "k"; label := js "old"; fingerprint := js "f"; createdAt := 0; lastUsedAt := None; revokedAt := None;
             scope := None; expiresAt := Some 1000 |}].
  split_and!; [split; apply NoDup_singleton|reflexivity|].
  intros fp t Ht. unfold findLive. cbn. unfold is_live. cbn. rewrite (proj2 (Z.ltb_ge _ _)) by lia. by rewrite andb_false_r.
Qed.
