(* ===== verification/FrontDoor.v ===== *)
(** * The front door: [packages/server/src/auth.ts], [keys.ts] and the dispatcher of [handler.ts]

    Every request passes here before a handler sees it: the origin guard, the latch that says whether
    a credential is asked for, the three credentials, the capability of the route. The requests in
    flight are tasks, cut at the [await]s, which other requests interleave with; a handler that is
    reached is an entry of the log. The handlers of [/v1/keys] are modelled, since they mint what the
    door accepts; another process may write to the same table. *)
From S2P Require Import Prelude UString SessionKey DeliveryKey Principal Origin Router OperatorKeys.
Local Open Scope Z_scope.

(** ** Requests and credentials *)

(** [rq_pathname] is [None] where [new URL] throws; [rq_method] as the request carries it. *)
Record Request := {
  rq_method : ustring; rq_pathname : option ustring; rq_headers : OriginHeaders;
  rq_authorization : option ustring }.

Definition BEARER : ustring := js "Bearer ".

Definition presentedToken (rq : Request) : ustring :=
  let header := default [] (rq_authorization rq) in
  if starts_with BEARER header then drop 7 header else [].

Definition presentedClaim (rq : Request) : option ustring :=
  let header := default [] (rq_authorization rq) in
  if starts_with BEARER header then match drop 7 header with [] => None | value => Some value end else None.

Fixpoint diff_bits (diff : Z) (a b : ustring) : Z :=
  match a, b with
  | c :: a, d :: b => diff_bits (Z.lor diff (Z.lxor c d)) a b
  | _, _ => diff
  end.

(** Every unit is looked at before the answer. *)
Definition timingSafe (a b : ustring) : bool := (length a =? length b)%nat && (diff_bits 0 a b =? 0).

Definition PROTOCOL : ustring := js "dispach.bearer".

Definition bearerFromProtocols (header : option ustring) : option ustring :=
  match header with
  | None => None
  | Some raw =>
      let offered := map trim (split_on 44 raw) in
      match list_find (fun e => e = PROTOCOL) offered with
      | None => None
      | Some (at_, _) => Some (default [] (offered !! S at_))
      end
  end.

Definition withBearerHeader (rq : Request) (bearer : ustring) : Request :=
  {| rq_method := rq_method rq; rq_pathname := rq_pathname rq; rq_headers := rq_headers rq;
     rq_authorization := Some (BEARER ++ bearer) |}.

(** [browsableHost] of [keys.ts]. *)
Definition browsableHost (host : ustring) : ustring :=
  let bare := if starts_with [91] host && ends_with [93] host then slice host 1 (-1) else host in
  let shown := if bool_decide (bare = js "0.0.0.0") || bool_decide (bare = js "::") || bool_decide (bare = [])
               then js "127.0.0.1" else bare in
  if includes_char 58 shown then [91] ++ shown ++ [93] else shown.

(** ** What plugins mount *)

Record PluginRoute := {
  pr_plugin : ustring; pr_method : ustring; pr_path : ustring; pr_root : option ustring;
  pr_capability : option Capability }.
Record Hosted := { agent_id : ustring; pluginRoutes : list PluginRoute }.

(** The pattern of [pluginRouteFor]: two whole segments around [plugins], and what follows them,
    a slash where nothing does. *)
Definition plugin_mount (pathname : ustring) : option (ustring * ustring * ustring) :=
  match split_on 47 pathname with
  | root :: v :: ags :: agent :: plugins :: plugin :: rest =>
      if bool_decide (root = [] /\ v = js "v1" /\ ags = js "agents" /\ plugins = js "plugins") &&
         negb (is_nil agent) && negb (is_nil plugin)
      then Some (agent, plugin, match rest with [] => [47] | _ => 47 :: join [47] rest end)
      else None
  | _ => None
  end.

(** [Err] where [decodeURIComponent] throws, which it does only with an agent to compare against. *)
Definition pluginRouteFor (hosted : list Hosted) (m pathname : ustring) : result unit (option (Hosted * PluginRoute)) :=
  match plugin_mount pathname with
  | Some (agent, plugin, path) =>
      match hosted, decodeURIComponent agent with
      | [], _ => Ok None
      | _, None => Err tt
      | _, Some id =>
          Ok (a ← List.find (fun a => bool_decide (agent_id a = id)) hosted;
              r ← List.find (fun r => bool_decide (pr_plugin r = plugin) && bool_decide (pr_method r = m) &&
                                      bool_decide (pr_path r = path)) (pluginRoutes a);
              Some (a, r))
      end
  | None =>
      let claims := concat (map (fun a => map (pair a) (List.filter (fun r =>
        bool_decide (pr_root r = Some pathname) && bool_decide (pr_method r = m)) (pluginRoutes a))) hosted) in
      Ok (match claims with [c] => Some c | _ => None end)
  end.

Section FrontDoor.
Context {Handler : Type} `{url : UrlHost} `{digest : Digest}.

(** ** Dispatch, up to the credential *)

Record Options := {
  token : option ustring; claim : option ustring; origin : option OriginPolicy; WEB_PATHS : list ustring;
  routes : list (Route Handler) }.
Context (o : Options).

(** What a request asks to be run: a route (with [HEAD]'s flag) or a plugin's. *)
Inductive Call :=
| CallRoute (r : Route Handler) (params : Params) (head : bool)
| CallPlugin (agent : Hosted) (route : PluginRoute).

Inductive Answer :=
| BadUrl
| Threw
| Preflight (allow : list ustring)
| MethodNotAllowed (allowed : list ustring)
| NoRoute
| OriginRefused (p : OriginProblem)
| Unauthorized
| ClaimSpent
| Forbidden (c : Capability)
| Ran (c : Call) (who : Principal).

Definition refuseOrigin (rq : Request) : option OriginProblem :=
  policy ← origin o; originProblem (rq_headers rq) policy.

Definition guarded (rq : Request) (c : Call) : result Answer Call :=
  match refuseOrigin rq with Some p => Err (OriginRefused p) | None => Ok c end.

Definition streamingAt (path : ustring) : bool :=
  match match_ (js "GET") path (routes o) with Found r _ => streaming r | _ => false end.

Definition answer_options (path : ustring) : option Answer :=
  match match_ (js "OPTIONS") path (routes o) with
  | MethodNot allowed =>
      let streams := match match_ (js "HEAD") path (routes o) with MethodNot _ => streamingAt path | _ => false end in
      Some (Preflight (allowed ++ (if bool_decide (js "GET" ∈ allowed) && negb streams then [js "HEAD"] else []) ++
                       [js "OPTIONS"]))
  | _ => None
  end.

Definition answer_head (rq : Request) (path : ustring) : option (result Answer Call) :=
  match match_ (js "GET") path (routes o) with
  | Found r params =>
      Some (if streaming r then Err (MethodNotAllowed [js "GET"; js "OPTIONS"]) else guarded rq (CallRoute r params true))
  | _ => None
  end.

Definition answer_method (rq : Request) (hosted : list Hosted) (m path : ustring) : result Answer Call :=
  match pluginRouteFor hosted m path with
  | Err _ => Err Threw
  | Ok (Some (agent, route)) => guarded rq (CallPlugin agent route)
  | Ok None =>
      match match_ m path (routes o) with
      | MethodNot allowed => Err (MethodNotAllowed allowed)
      | NoMatch => Err NoRoute
      | Found r params => guarded rq (CallRoute r params false)
      end
  end.

Definition dispatch (rq : Request) (hosted : list Hosted) : result Answer Call :=
  match rq_pathname rq with
  | None => Err BadUrl
  | Some path =>
      let m := upper (rq_method rq) in
      match (if bool_decide (m = js "OPTIONS") then answer_options path else None) with
      | Some a => Err a
      | None =>
          match (if bool_decide (m = js "HEAD") then answer_head rq path else None) with
          | Some r => r
          | None => answer_method rq hosted m path
          end
      end
  end.

(** ** The credential *)

Definition isOpenPath (pathname : ustring) : bool :=
  bool_decide (pathname = js "/v1/health") || bool_decide (pathname = js "/v1/ready") ||
  starts_with (js "/v1/channels/") pathname || bool_decide (pathname ∈ WEB_PATHS o) ||
  bool_decide (pathname = js "/docs") || bool_decide (pathname = js "/v1/openapi.json").

Definition call_capability (c : Call) : option Capability :=
  match c with CallRoute r _ _ => capability r | CallPlugin _ r => pr_capability r end.

(** After the gate: a plugin's route answers a claim and an agent out of reach like no route. *)
Definition deliver (c : Call) (who : Principal) : Answer :=
  match c with
  | CallRoute _ _ _ => Ran c who
  | CallPlugin agent _ =>
      if bool_decide (who = PClaim) || negb (reachesAgent who (agent_id agent)) then NoRoute else Ran c who
  end.

Definition let_in (c : Call) (who : Principal) : Answer :=
  match who with
  | PClaim => deliver c who
  | _ =>
      match call_capability c with
      | Some cap => if can who cap then deliver c who else Forbidden cap
      | None => deliver c who
      end
  end.

(** No credential is asked for. *)
Definition needs_none (c : Call) (path : ustring) : bool :=
  match c with CallPlugin _ r => bool_decide (pr_capability r = None) | _ => false end || isOpenPath path.

(** The synchronous start of [authorise]: the token, or a fingerprint to compute. *)
Definition token_matches (rq : Request) : bool :=
  match token o with Some expected => timingSafe (presentedToken rq) expected | None => false end.

(** What [findLive] found, or the claim; [spent] is the ticket as it is now. *)
Definition decide_key (rq : Request) (c : Call) (found : option KeyRow) (spent : bool) : Answer :=
  match found with
  | Some r => let_in c (PKey (keyId r) (label r) (scope r))
  | None =>
      match claim o with
      | Some ticket =>
          if timingSafe (presentedToken rq) ticket then
            if negb (bool_decide (rq_method rq = js "POST")) || negb (bool_decide (rq_pathname rq = Some (js "/v1/keys")))
            then Unauthorized
            else if spent then ClaimSpent
            else let_in c PClaim
          else Unauthorized
      | None => Unauthorized
      end
  end.

(** ** Minting a key: [POST /v1/keys] *)

Record KeyBody := { kb_label : ustring; kb_scope : option KeyScope; kb_expiresIn : option Z }.

(** The fields of a scope that are there; [expiresIn] is not stored. *)
Definition stored_scope (b : KeyBody) : option KeyScope :=
  match kb_scope b with
  | Some {| s_agents := None; s_sessions := None; s_can := None; s_participant := None |} | None => None
  | Some s => Some s
  end.

Definition used_claim (rq : Request) : bool :=
  bool_decide (is_Some (claim o)) && bool_decide (presentedClaim rq = claim o).

Definition unknown_agents (known : list ustring) (b : KeyBody) : list ustring :=
  match kb_scope b ≫= s_agents with
  | Some l => List.filter (fun id => negb (bool_decide (id ∈ known))) l
  | None => []
  end.

Definition is_mint (c : Call) : bool :=
  match c with
  | CallRoute r _ head => bool_decide (method r = js "POST") && bool_decide (pattern r = js "/v1/keys") && negb head
  | CallPlugin _ _ => false
  end.

Inductive Task :=
| Counting (rq : Request) (c : Call) (n : Z)
| Hashing (rq : Request) (c : Call) (at_ : Z)
| Finding (rq : Request) (c : Call) (at_ : Z) (found : option KeyRow)
| ReadingBody (rq : Request) (who : Principal)
| CheckingAgents (b : KeyBody) (byClaim : bool)
| Issuing (b : KeyBody) (expires : option Z) (byClaim : bool).

(** [minted] and [log] are for the reader. *)
Record Server := {
  keys : Keys; closed : bool; spent : bool; clock : Z; hosted : list Hosted; tasks : list Task;
  minted : list (ustring * bool); log : list (Request * Answer) }.

Definition boot (db : Keys) (t : Z) (hs : list Hosted) : Server :=
  {| keys := db; closed := false; spent := false; clock := t; hosted := hs; tasks := []; minted := []; log := [] |}.

Definition with_tasks (ts : list Task) (s : Server) : Server :=
  {| keys := keys s; closed := closed s; spent := spent s; clock := clock s; hosted := hosted s; tasks := ts;
     minted := minted s; log := log s |}.
Definition with_keys (db : Keys) (s : Server) : Server :=
  {| keys := db; closed := closed s; spent := spent s; clock := clock s; hosted := hosted s; tasks := tasks s;
     minted := minted s; log := log s |}.
Definition with_closed (b : bool) (s : Server) : Server :=
  {| keys := keys s; closed := b; spent := spent s; clock := clock s; hosted := hosted s; tasks := tasks s;
     minted := minted s; log := log s |}.
Definition with_spent (b : bool) (s : Server) : Server :=
  {| keys := keys s; closed := closed s; spent := b; clock := clock s; hosted := hosted s; tasks := tasks s;
     minted := minted s; log := log s |}.
Definition at_clock (t : Z) (hs : list Hosted) (s : Server) : Server :=
  {| keys := keys s; closed := closed s; spent := spent s; clock := t; hosted := hs; tasks := tasks s;
     minted := minted s; log := log s |}.
Definition with_minted (id : ustring) (byClaim : bool) (s : Server) : Server :=
  {| keys := keys s; closed := closed s; spent := spent s; clock := clock s; hosted := hosted s; tasks := tasks s;
     minted := minted s ++ [(id, byClaim)]; log := log s |}.
Definition spawn (t : Task) (s : Server) : Server := with_tasks (tasks s ++ [t]) s.

(** The answer is sent, or the handler of [POST /v1/keys] starts. *)
Definition respond (rq : Request) (a : Answer) (s : Server) : Server :=
  let s' := {| keys := keys s; closed := closed s; spent := spent s; clock := clock s; hosted := hosted s;
               tasks := tasks s; minted := minted s; log := log s ++ [(rq, a)] |} in
  match a with
  | Ran c who => if is_mint c then spawn (ReadingBody rq who) s' else s'
  | _ => s'
  end.

Definition authorise (rq : Request) (c : Call) (s : Server) : Server :=
  if token_matches rq then respond rq (let_in c PToken) s
  else match presentedToken rq with
       | [] => respond rq Unauthorized s
       | _ => spawn (Hashing rq c (clock s)) s
       end.

(** [resolve] up to its first [await] that reads the table. *)
Definition arrive (rq : Request) (s : Server) : Server :=
  match dispatch rq (hosted s) with
  | Err a => respond rq a s
  | Ok c =>
      if needs_none c (default [] (rq_pathname rq)) then respond rq (let_in c POpen) s
      else if bool_decide (is_Some (token o)) || closed s then authorise rq c s
      else spawn (Counting rq c (liveCount (keys s))) s
  end.

(** ** Tasks go on *)

(** What the world supplies to a task that goes on: a parsed body, the ids of the agents that are
    stopped, a fresh id and a secret's random bytes. *)
Record Supply := { body : option KeyBody; stopped : list ustring; fresh_id : ustring; random : list Z }.

(** [POST /v1/keys] once its body is read: the label, the ticket, the scope's agents. *)
Definition mint_body (rq : Request) (b : KeyBody) (s : Server) : Server :=
  match keyLabelProblem (kb_label b) with
  | Some _ => s
  | None =>
      if used_claim rq && spent s then s
      else
        let s := if used_claim rq then with_spent true s else s in
        spawn (CheckingAgents b (used_claim rq)) s
  end.

Definition mint_check (b : KeyBody) (byClaim : bool) (x : Supply) (s : Server) : Server :=
  match unknown_agents (map agent_id (hosted s) ++ stopped x) b with
  | [] => spawn (Issuing b ((fun n => clock s + n * 1000) <$> kb_expiresIn b) byClaim) s
  | _ => s
  end.

Definition mint_issue (b : KeyBody) (expires : option Z) (byClaim : bool) (x : Supply) (s : Server) : Server :=
  match issue (fresh_id x) (trim (kb_label b)) (keyFingerprint (newKeySecret (random x))) (clock s) (stored_scope b)
          expires (keys s) with
  | Some db => with_minted (fresh_id x) byClaim (with_keys db s)
  | None => s
  end.

Definition resume (t : Task) (x : Supply) (s : Server) : Server :=
  match t with
  | Counting rq c n =>
      let s := with_closed (0 <? n) s in
      if 0 <? n then authorise rq c s else respond rq (let_in c POpen) s
  | Hashing rq c at_ => spawn (Finding rq c at_ (findLive (keyFingerprint (presentedToken rq)) at_ (keys s))) s
  | Finding rq c at_ found =>
      respond rq (decide_key rq c found (spent s))
        (match found with Some r => with_keys (touch (keyId r) at_ (keys s)) s | None => s end)
  | ReadingBody rq who => match body x with Some b => mint_body rq b s | None => s end
  | CheckingAgents b byClaim => mint_check b byClaim x s
  | Issuing b expires byClaim => mint_issue b expires byClaim x s
  end.

(** A request arrives, a task goes on, a handler revokes, time passes and agents come and go, and
    another process writes to the table, within its constraints. *)
Inductive Act :=
| Arrive (rq : Request)
| Resume (n : nat) (x : Supply)
| Revoke (id : ustring)
| Pass (t : Z) (hs : list Hosted)
| Elsewhere (db : Keys).

Definition perform (a : Act) (s : Server) : option Server :=
  match a with
  | Arrive rq => Some (arrive rq s)
  | Resume n x => t ← tasks s !! n; Some (resume t x (with_tasks (delete n (tasks s)) s))
  | Revoke id => Some (with_keys (revoke id (clock s) (keys s)).2 s)
  | Pass t hs => if clock s <=? t then Some (at_clock t hs s) else None
  | Elsewhere db => Some (with_keys db s)
  end.

Definition step (s s' : Server) : Prop :=
  exists a, perform a s = Some s' /\ match a with Elsewhere db => later (keys s) db /\ unique_keys db | _ => True end.

(** ** Who gets through *)

Lemma diff_bits_zero a : forall b d, length a = length b -> diff_bits d a b = 0 <-> d = 0 /\ a = b.
Proof.
  induction a as [|x a IH]; intros [|y b] d Hl; cbn in *; try lia; [tauto|].
  rewrite IH by lia. rewrite Z.lor_eq_0_iff, Z.lxor_eq_0_iff. split; [intros [[? ->] ->]|intros [? [= -> ->]]]; done.
Qed.

Lemma timingSafe_spec a b : timingSafe a b = true <-> a = b.
Proof.
  unfold timingSafe. rewrite andb_true_iff, Nat.eqb_eq, Z.eqb_eq. split.
  - intros [Hl Hd]. apply (diff_bits_zero a b 0 Hl) in Hd. by destruct Hd.
  - intros ->. split; [done|]. by apply (diff_bits_zero b b 0).
Qed.

Lemma liveCount_nonneg db : 0 <= liveCount db.
Proof. unfold liveCount. lia. Qed.

Section Run.
Context (s0 : Server).

(** At some moment of the run that led here. *)
Definition past (P : Server -> Prop) (s : Server) : Prop := exists s1, rtc step s0 s1 /\ rtc step s1 s /\ P s1.

Lemma past_mono P s s' : past P s -> rtc step s s' -> past P s'.
Proof. intros (s1 & H0 & H1 & HP) H. exists s1. split_and!; [done|by etrans|done]. Qed.

Lemma past_now (P : Server -> Prop) s : rtc step s0 s -> P s -> past P s.
Proof. intros Hr HP. by exists s. Qed.

Definition dispatched (rq : Request) (c : Call) : Prop := exists hs, dispatch rq hs = Ok c.

(** A row of the presented key that was live at a moment not before the request's question. *)
Definition key_was_live (rq : Request) (at_ : Z) (r : KeyRow) (s : Server) : Prop :=
  past (fun s1 => findLive (keyFingerprint (presentedToken rq)) at_ (keys s1) = Some r /\
                  past (fun s2 => clock s2 = at_) s1) s.

Definition credential (s : Server) (rq : Request) (c : Call) (who : Principal) : Prop :=
  match who with
  | POpen => needs_none c (default [] (rq_pathname rq)) = true \/
             (token o = None /\ past (fun s1 => liveCount (keys s1) = 0) s)
  | PToken => token o = Some (presentedToken rq)
  | PKey id lab sc => exists at_ r, key_was_live rq at_ r s /\ keyId r = id /\ label r = lab /\ scope r = sc
  | PClaim => rq_method rq = js "POST" /\ rq_pathname rq = Some (js "/v1/keys") /\
              claim o = Some (presentedToken rq) /\ past (fun s1 => spent s1 = false) s
  end.

Definition within_scope (c : Call) (who : Principal) : Prop :=
  (forall cap, call_capability c = Some cap -> who = PClaim \/ can who cap = true) /\
  (forall agent r, c = CallPlugin agent r -> who <> PClaim /\ reachesAgent who (agent_id agent) = true).

Definition good_task (s : Server) (t : Task) : Prop :=
  match t with
  | Counting rq c n => dispatched rq c /\ token o = None /\ past (fun s1 => liveCount (keys s1) = n) s
  | Hashing rq c at_ => dispatched rq c /\ past (fun s1 => clock s1 = at_) s
  | Finding rq c at_ found => dispatched rq c /\ forall r, found = Some r -> key_was_live rq at_ r s
  | _ => True
  end.

Definition good_entry (s : Server) (e : Request * Answer) : Prop :=
  match e.2 with Ran c who => dispatched e.1 c /\ credential s e.1 c who /\ within_scope c who | _ => True end.

(** Everything in [s] is justified by the run that leads to [s']. *)
Definition justified (s' s : Server) : Prop := Forall (good_task s') (tasks s) /\ Forall (good_entry s') (log s).

Lemma good_task_mono s s' t : good_task s t -> rtc step s s' -> good_task s' t.
Proof.
  destruct t; cbn; try done.
  - intros (? & ? & H) Hr. split_and!; [done..|by eapply past_mono].
  - intros (? & H) Hr. split; [done|by eapply past_mono].
  - intros (? & H) Hr. split; [done|]. intros r E. specialize (H r E). by eapply past_mono.
Qed.

Lemma good_entry_mono s s' e : good_entry s e -> rtc step s s' -> good_entry s' e.
Proof.
  unfold good_entry. destruct e.2 as [| | | | | | | | |c who]; try done. intros (Hd & Hc & Hw) Hr. split_and!; try done.
  destruct who; cbn in *; try done.
  - destruct Hc as [?|[? H]]; [by left|right]. split; [done|by eapply past_mono].
  - destruct Hc as (at_ & r & H & ?). exists at_, r. split; [by eapply past_mono|done].
  - destruct Hc as (? & ? & ? & H). split_and!; [done..|by eapply past_mono].
Qed.

Lemma justified_mono s s' s1 : justified s s1 -> rtc step s s' -> justified s' s1.
Proof.
  intros [Ht Hl] Hr. split; (eapply Forall_impl; [eassumption|]); intros x Hx;
    [by eapply good_task_mono|by eapply good_entry_mono].
Qed.

Lemma justified_spawn s' s t : justified s' s -> good_task s' t -> justified s' (spawn t s).
Proof. intros [Ht Hl] H. split; [|done]. cbn. apply Forall_app. by split; [|constructor]. Qed.

Lemma justified_respond s' s rq a : justified s' s -> good_entry s' (rq, a) -> justified s' (respond rq a s).
Proof.
  intros [Ht Hl] H. assert (Forall (good_entry s') (log s ++ [(rq, a)])) as Hl' by (apply Forall_app; by split; [|constructor]).
  unfold respond. destruct a; try by split. destruct (is_mint _); [|by split].
  by apply justified_spawn.
Qed.

(** Admitting a caller whose credential is good. *)
Lemma admit_good s rq c who : dispatched rq c -> credential s rq c who -> good_entry s (rq, let_in c who).
Proof.
  intros Hd Hc. assert (forall a, a = deliver c who ->
    (forall cap, call_capability c = Some cap -> who = PClaim \/ can who cap = true) -> good_entry s (rq, a)) as Hdel.
  { intros a -> Hcap. unfold deliver. destruct c as [r ps h|ag r].
    - split_and!; [done..|]. by split.
    - destruct (_ || _) eqn:E; [done|]. apply orb_false_iff in E as [E1 E2]. apply bool_decide_eq_false in E1.
      apply negb_false_iff in E2. split_and!; [done..|]. split; [done|]. by intros ? ? [= <- <-]. }
  unfold let_in. destruct who.
  4: { apply Hdel; [done|]. by left. }
  all: destruct (call_capability c) as [cap|] eqn:Ecap; [|by apply Hdel].
  all: destruct (can _ cap) eqn:Ecan; [|done]; apply Hdel; [done|]; intros ? [= <-]; by right.
Qed.

Lemma justified_authorise s' s rq c : justified s' s -> dispatched rq c -> past (fun s1 => clock s1 = clock s) s' ->
  justified s' (authorise rq c s).
Proof.
  intros Hj Hd Hp. unfold authorise, token_matches. destruct (token o) as [expected|] eqn:Et.
  - destruct (timingSafe _ _) eqn:E.
    + apply justified_respond; [done|]. apply admit_good; [done|]. apply timingSafe_spec in E. cbn. by rewrite E.
    + destruct (presentedToken rq); [by apply justified_respond|by apply justified_spawn].
  - destruct (presentedToken rq); [by apply justified_respond|by apply justified_spawn].
Qed.

Lemma decide_good s' rq c at_ found (sp : bool) : dispatched rq c -> (forall r, found = Some r -> key_was_live rq at_ r s') ->
  (sp = false -> past (fun s1 => spent s1 = false) s') -> good_entry s' (rq, decide_key rq c found sp).
Proof.
  intros Hd Hf Hsp. unfold decide_key. destruct found as [r|].
  - apply admit_good; [done|]. exists at_, r. by split; [apply Hf|].
  - destruct (claim o) as [ticket|] eqn:Ec; [|done]. destruct (timingSafe _ _) eqn:E; [|done].
    apply timingSafe_spec in E. destruct (_ || _) eqn:E2; [done|]. apply orb_false_iff in E2 as [E2 E3].
    apply negb_false_iff, bool_decide_eq_true in E2, E3. destruct sp; [done|]. apply admit_good; [done|]. cbn.
    split_and!; [done..|by rewrite E|by apply Hsp].
Qed.
End Run.

Lemma resume_justified s0 s s' t x n : rtc step s0 s -> rtc step s s' -> tasks s !! n = Some t -> justified s0 s s ->
  justified s0 s' (resume t x (with_tasks (delete n (tasks s)) s)).
Proof.
  intros Hr Hss Hn Hj. destruct (justified_mono s0 s s' s Hj Hss) as [Ht Hl].
  assert (good_task s0 s' t) as Hgt by (eapply Forall_lookup_1; eauto).
  assert (justified s0 s' (with_tasks (delete n (tasks s)) s)) as Hj1 by (split; [by apply Forall_delete|done]).
  assert (forall P : Server -> Prop, P s -> past s0 P s') as Hnow by (intros P HP; by exists s).
  destruct t as [rq c k|rq c at_|rq c at_ found|rq who|b by_|b e by_]; cbn [resume] in *.
  - destruct Hgt as (Hd & Hto & Hp). destruct (Z.ltb_spec 0 k).
    + apply justified_authorise; [done..|]. by apply Hnow.
    + apply justified_respond; [done|]. apply admit_good; [done|]. right. split; [done|].
      destruct Hp as (s1 & ? & ? & E). exists s1. split_and!; [done..|]. pose proof (liveCount_nonneg (keys s1)). lia.
  - destruct Hgt as [Hd Hp]. apply justified_spawn; [done|]. split; [done|]. intros r E. exists s.
    split_and!; [done..|]. cbn. destruct Hj as [Hj _]. pose proof (Forall_lookup_1 _ _ _ _ Hj Hn) as [_ Hpast]. done.
  - destruct Hgt as [Hd Hf]. apply justified_respond; [by destruct found|]. eapply decide_good; [done|exact Hf|].
    intros E. by apply Hnow.
  - destruct (body x) as [b|]; [|done]. unfold mint_body. destruct (keyLabelProblem _); [done|].
    destruct (_ && _); [done|]. destruct (used_claim rq); by apply justified_spawn.
  - unfold mint_check. destruct (unknown_agents _ _); [|done]. by apply justified_spawn.
  - unfold mint_issue. by destruct (issue _ _ _ _ _ _ _).
Qed.

Lemma arrive_justified s0 s s' rq : rtc step s0 s -> rtc step s s' -> justified s0 s s -> justified s0 s' (arrive rq s).
Proof.
  intros Hr Hss Hj. pose proof (justified_mono s0 s s' s Hj Hss) as Hj1.
  assert (forall P : Server -> Prop, P s -> past s0 P s') as Hnow by (intros P HP; by exists s).
  unfold arrive. destruct (dispatch rq (hosted s)) as [c|a] eqn:Ed.
  - assert (dispatched rq c) as Hd by by exists (hosted s). destruct (needs_none _ _) eqn:En.
    + apply justified_respond; [done|]. apply admit_good; [done|]. by left.
    + destruct (bool_decide (is_Some (token o))) eqn:Et; cbn [orb].
      * apply justified_authorise; [done..|]. by apply Hnow.
      * destruct (closed s); [apply justified_authorise; [done..|]; by apply Hnow|].
        apply justified_spawn; [done|]. split_and!; [done| |by apply Hnow].
        apply bool_decide_eq_false in Et. destruct (token o); [|done]. by destruct Et.
  - apply justified_respond; [done|]. unfold good_entry. cbn. destruct a as [| | | | | | | | |c who]; try done.
    exfalso. revert Ed. clear. unfold dispatch, guarded, answer_method, answer_options, answer_head, guarded.
    repeat case_match; congruence.
Qed.

Lemma step_justified s0 s s' : rtc step s0 s -> step s s' -> justified s0 s s -> justified s0 s' s'.
Proof.
  intros Hr Hs Hj. assert (rtc step s s') as Hss by by apply rtc_once. destruct Hs as (a & Hp & _).
  destruct a as [rq|n x|id|t hs|db]; cbn in Hp.
  - injection Hp as <-. by apply arrive_justified.
  - destruct (tasks s !! n) as [t|] eqn:E; [|done]. cbn in Hp. injection Hp as <-. by eapply resume_justified.
  - injection Hp as <-. by eapply justified_mono.
  - destruct (_ <=? _); [|done]. injection Hp as <-. by eapply justified_mono.
  - injection Hp as <-. by eapply justified_mono.
Qed.

Lemma run_justified db t hs s : rtc step (boot db t hs) s -> justified (boot db t hs) s s.
Proof.
  intros H. revert s H. apply rtc_ind_r; [by split; constructor|]. intros y z Hr Hs IH. by eapply step_justified.
Qed.

(** ** The table over a run *)

Lemma respond_keys rq a s : keys (respond rq a s) = keys s.
Proof. unfold respond. destruct a; try done. by destruct (is_mint _). Qed.

Lemma authorise_keys rq c s : keys (authorise rq c s) = keys s.
Proof. unfold authorise. destruct (token_matches rq); [apply respond_keys|]. destruct (presentedToken rq); [apply respond_keys|done]. Qed.

Lemma map_unique g db : (forall r, keyId (g r) = keyId r /\ fingerprint (g r) = fingerprint r) -> unique_keys db ->
  unique_keys (map g db).
Proof.
  intros Hg [H1 H2]. unfold unique_keys. rewrite !map_map.
  rewrite (map_ext (fun x => fingerprint (g x)) fingerprint), (map_ext (fun x => keyId (g x)) keyId) by (intros r; apply Hg).
  done.
Qed.

Lemma touch_unique id t db : unique_keys db -> unique_keys (touch id t db).
Proof. apply map_unique. intros r. by destruct (_ && _). Qed.
Lemma revoke_unique id t db : unique_keys db -> unique_keys (revoke id t db).2.
Proof. apply map_unique. intros r. by destruct (_ && _). Qed.

Lemma resume_keys t x s : unique_keys (keys s) -> later (keys s) (keys (resume t x s)) /\ unique_keys (keys (resume t x s)).
Proof.
  intros Hu. assert (later (keys s) (keys s)) as Hl by done. destruct t as [rq c k|rq c at_|rq c at_ found|rq who|b by_|b e by_]; cbn [resume].
  - destruct (0 <? k); [by rewrite authorise_keys|by rewrite respond_keys].
  - done.
  - rewrite respond_keys. destruct found as [r|]; [|done]. split; [apply touch_later|by apply touch_unique].
  - destruct (body x); [|done]. unfold mint_body. destruct (keyLabelProblem _); [done|]. destruct (_ && _); [done|].
    by destruct (used_claim rq).
  - unfold mint_check. by destruct (unknown_agents _ _).
  - unfold mint_issue. destruct (issue _ _ _ _ _ _ _) as [db|] eqn:E; [|done]. cbn.
    split; [by eapply issue_later|by eapply issue_unique].
Qed.

Lemma step_keys s s' : step s s' -> unique_keys (keys s) -> later (keys s) (keys s') /\ unique_keys (keys s').
Proof.
  intros (a & Hp & Ha) Hu. destruct a as [rq|n x|id|t hs|db]; cbn in Hp.
  - injection Hp as <-. unfold arrive. destruct (dispatch rq (hosted s)); [|by rewrite respond_keys].
    destruct (needs_none _ _); [by rewrite respond_keys|]. destruct (_ || _); [by rewrite authorise_keys|done].
  - destruct (tasks s !! n) as [t|]; [|done]. cbn in Hp. injection Hp as <-. by apply (resume_keys t x (with_tasks _ s)).
  - injection Hp as <-. split; [apply revoke_later|by apply revoke_unique].
  - destruct (_ <=? _); [|done]. by injection Hp as <-.
  - by injection Hp as <-.
Qed.

Lemma run_keys s s' : rtc step s s' -> unique_keys (keys s) -> later (keys s) (keys s') /\ unique_keys (keys s').
Proof.
  induction 1 as [|s s1 s' Hs _ IH]; [done|]. intros Hu. destruct (step_keys s s1 Hs Hu) as [H1 H2].
  destruct (IH H2) as [H3 H4]. split; [by etrans|done].
Qed.

(** What passes the dispatcher passed the guard and matched the table. *)
Lemma dispatch_spec rq hs c : dispatch rq hs = Ok c ->
  refuseOrigin rq = None /\ exists path, rq_pathname rq = Some path /\
  forall r ps head, c = CallRoute r ps head ->
    r ∈ routes o /\ path_match (split path) r = Some ps /\ method r = (if head then js "GET" else upper (rq_method rq)) /\
    (head = true -> upper (rq_method rq) = js "HEAD").
Proof.
  unfold dispatch. destruct (rq_pathname rq) as [path|]; [|done].
  assert (forall c', guarded rq c' = Ok c -> refuseOrigin rq = None /\ c = c') as Hg.
  { unfold guarded. intros c'. destruct (refuseOrigin rq); [done|]. by intros [= <-]. }
  assert (upper (upper (rq_method rq)) = upper (rq_method rq)) as Hup.
  { unfold upper. rewrite map_map. apply map_ext. intros x. unfold upper_char.
    destruct ((97 <=? x) && (x <=? 122)) eqn:E; [|by rewrite E]. apply andb_true_iff in E as [? ?].
    replace ((97 <=? x - 32) && (x - 32 <=? 122)) with false; [done|]. symmetry. apply andb_false_iff. lia. }
  destruct (if bool_decide (upper (rq_method rq) = js "OPTIONS") then _ else _); [done|].
  destruct (if bool_decide (upper (rq_method rq) = js "HEAD") then answer_head rq path else None) as [res|] eqn:Eh.
  - case_bool_decide; [|done]. unfold answer_head in Eh.
    destruct (match_ (js "GET") path (routes o)) as [r ps| |] eqn:Em; try done. injection Eh as <-.
    destruct (streaming r); [done|]. intros [Ho ->]%Hg. split; [done|]. exists path. split; [done|].
    intros ? ? ? [= <- <- <-]. by apply match_from_found in Em as (? & ? & ?).
  - unfold answer_method. destruct (pluginRouteFor _ _ _) as [[[ag r]|]|]; [| |done].
    + intros [Ho ->]%Hg. split; [done|]. by exists path.
    + destruct (match_ _ path (routes o)) as [r ps| |] eqn:Em; try done. intros [Ho ->]%Hg. split; [done|].
      exists path. split; [done|]. intros ? ? ? [= <- <- <-]. apply match_from_found in Em as (? & ? & ?).
      by rewrite Hup in *.
Qed.

(** C7. Nobody gets past the door without the credential the server asks for, however requests,
    mints, revocations, other processes and the clock interleave. A handler runs for a request only if
    the origin guard lets it through, and then as: nobody in particular, where the path is open or the
    plugin's route is, or where no token is configured and no unrevoked key was in the table when it
    was counted; the holder of the configured token, who sent exactly it; the holder of a key whose
    row was live when it was looked up, not expired when the request was read, and never one that was
    revoked before the run; or the holder of the one-time claim, unspent then, on [POST /v1/keys] only.
    The caller has the capability of the route, unless it is the claim, and reaches the agent of a
    plugin's route. *)
Theorem front_door (db : Keys) (t : Z) (hs : list Hosted) (s : Server) (rq : Request) (c : Call) (who : Principal)
  (Hu : unique_keys db) (Hr : rtc step (boot db t hs) s) (He : (rq, Ran c who) ∈ log s) :
  (forall policy, origin o = Some policy -> originProblem (rq_headers rq) policy = None) /\
  match who with
  | POpen => needs_none c (default [] (rq_pathname rq)) = true \/
      (token o = None /\ past (boot db t hs) (fun s1 => liveCount (keys s1) = 0) s)
  | PToken => token o = Some (presentedToken rq)
  | PKey id lab sc => exists at_ r, keyId r = id /\ label r = lab /\ scope r = sc /\
      past (boot db t hs) (fun s1 => findLive (keyFingerprint (presentedToken rq)) at_ (keys s1) = Some r /\
        past (boot db t hs) (fun s2 => clock s2 = at_) s1) s /\
      (forall r0, r0 ∈ db -> fingerprint r0 = keyFingerprint (presentedToken rq) -> revokedAt r0 = None)
  | PClaim => rq_method rq = js "POST" /\ rq_pathname rq = Some (js "/v1/keys") /\
      claim o = Some (presentedToken rq) /\ past (boot db t hs) (fun s1 => spent s1 = false) s
  end /\
  (forall cap, call_capability c = Some cap -> who = PClaim \/ can who cap = true) /\
  (forall agent r, c = CallPlugin agent r -> who <> PClaim /\ reachesAgent who (agent_id agent) = true).
Proof.
  destruct (run_justified db t hs s Hr) as [_ Hl]. rewrite Forall_forall in Hl. specialize (Hl _ He) as (Hd & Hc & Hcap & Hpl).
  cbn [fst] in Hd, Hc. destruct Hd as [hs' Hd]. apply dispatch_spec in Hd as [Ho _]. split_and!; [|destruct who|done..].
  - intros policy E. unfold refuseOrigin in Ho. rewrite E in Ho. done.
  - done.
  - done.
  - destruct Hc as (at_ & r & Hlive & E1 & E2 & E3). exists at_, r. split_and!; [done..|].
    intros r0 Hr0 Ef. destruct Hlive as (s1 & H0 & _ & Hf & _).
    destruct (run_keys _ _ H0 Hu) as [Hlat Hu1]. destruct (revokedAt r0) as [u|] eqn:Erv; [|done]. exfalso.
    rewrite <- Ef in Hf. rewrite (revoked_stays_dead db (keys s1) at_ r0 Hu1 Hlat Hr0) in Hf; [done|by eexists].
  - done.
Qed.

(** ** The claim *)

Definition by_claim (t : Task) : nat :=
  match t with CheckingAgents _ b | Issuing _ _ b => if b then 1%nat else O | _ => O end.
Definition claims_held (s : Server) : nat :=
  (sum_list_with by_claim (tasks s) + length (List.filter snd (minted s)))%nat.
Definition claim_budget (s : Server) : nat := if spent s then 1%nat else O.

Lemma respond_claims rq a s : claims_held (respond rq a s) = claims_held s /\ spent (respond rq a s) = spent s.
Proof.
  unfold respond. destruct a; try done. destruct (is_mint _); [|done]. unfold claims_held. cbn.
  rewrite sum_list_with_app. cbn. split; [lia|done].
Qed.

Lemma spawn_claims t s : claims_held (spawn t s) = (by_claim t + claims_held s)%nat.
Proof. unfold claims_held. cbn. rewrite sum_list_with_app. cbn. lia. Qed.

Lemma authorise_claims rq c s : claims_held (authorise rq c s) = claims_held s /\ spent (authorise rq c s) = spent s.
Proof.
  unfold authorise. destruct (token_matches rq); [apply respond_claims|]. destruct (presentedToken rq); [apply respond_claims|].
  rewrite spawn_claims. done.
Qed.

Lemma resume_claims t x s : (by_claim t + claims_held s <= claim_budget s)%nat ->
  (claims_held (resume t x s) <= claim_budget (resume t x s))%nat.
Proof.
  unfold claim_budget. destruct t as [rq c k|rq c at_|rq c at_ found|rq who|b by_|b e by_]; cbn [resume by_claim]; intros H.
  - destruct (0 <? k).
    + destruct (authorise_claims rq c (with_closed true s)) as [-> ->]. done.
    + destruct (respond_claims rq (let_in c POpen) (with_closed false s)) as [-> ->]. done.
  - rewrite spawn_claims. done.
  - edestruct respond_claims as [-> ->]. by destruct found.
  - destruct (body x) as [b|]; [|lia]. unfold mint_body. destruct (keyLabelProblem _); [lia|].
    destruct (used_claim rq) eqn:Eu; cbn [andb].
    + destruct (spent s) eqn:Es; [rewrite Es; lia|]. rewrite spawn_claims. unfold claims_held in *. cbn. lia.
    + rewrite spawn_claims. cbn. lia.
  - unfold mint_check. destruct (unknown_agents _ _); [|lia]. rewrite spawn_claims. cbn. lia.
  - unfold mint_issue. destruct (issue _ _ _ _ _ _ _); [|lia]. unfold claims_held in *. cbn.
    rewrite List.filter_app, length_app. cbn. destruct by_; cbn in *; lia.
Qed.

Lemma step_claims s s' : step s s' -> (claims_held s <= claim_budget s)%nat -> (claims_held s' <= claim_budget s')%nat.
Proof.
  intros (a & Hp & _) H. unfold claim_budget in *. destruct a as [rq|n x|id|t hs|db]; cbn in Hp.
  - injection Hp as <-. unfold arrive. destruct (dispatch rq (hosted s)) as [c|a]; [|by destruct (respond_claims rq a s) as [-> ->]].
    destruct (needs_none _ _); [by edestruct respond_claims as [-> ->]|].
    destruct (_ || _); [by edestruct authorise_claims as [-> ->]|]. rewrite spawn_claims. done.
  - destruct (tasks s !! n) as [t|] eqn:E; [|done]. cbn in Hp. injection Hp as <-. apply resume_claims. unfold claim_budget. cbn.
    assert (claims_held (with_tasks (delete n (tasks s)) s) + by_claim t = claims_held s)%nat; [|cbn in *; lia].
    unfold claims_held. cbn. rewrite delete_take_drop. rewrite <- (take_drop_middle (tasks s) n t E) at 3.
    rewrite !sum_list_with_app. cbn. lia.
  - by injection Hp as <-.
  - destruct (_ <=? _); [|done]. by injection Hp as <-.
  - by injection Hp as <-.
Qed.

(** The boot claim is good for one key: however many requests present it at once, and whatever
    happens between reading a body, checking it and writing the row, at most one key is ever minted
    with it, and none before it is spent. *)
Theorem claim_mints_once (db : Keys) (t : Z) (hs : list Hosted) (s : Server) (Hr : rtc step (boot db t hs) s) :
  (length (List.filter snd (minted s)) <= 1)%nat /\ (spent s = false -> List.filter snd (minted s) = []).
Proof.
  assert (claims_held s <= claim_budget s)%nat as H.
  { eapply (reachable_invariant step (fun s => (claims_held s <= claim_budget s)%nat)); [apply step_claims|exact Hr|done]. }
  unfold claims_held, claim_budget in H. destruct (spent s); (split; [lia|intros E; try done]).
  destruct (List.filter snd (minted s)); [done|]. cbn in H. lia.
Qed.
End FrontDoor.
Arguments Options : clear implicits.
Arguments Server : clear implicits.
Arguments Call : clear implicits.
Arguments Answer : clear implicits.
Arguments Task : clear implicits.

(** ** At a concrete server *)

Section Play.
Context {Handler : Type} `{url : UrlHost} `{digest : Digest} (o : Options Handler).

Fixpoint play (acts : list Act) (s : Server Handler) : option (Server Handler) :=
  match acts with [] => Some s | a :: rest => s' ← perform o a s; play rest s' end.

Definition here (a : Act) : bool := match a with Elsewhere _ => false | _ => true end.

Lemma play_steps acts : forall s s', forallb here acts = true -> play acts s = Some s' -> rtc (step o) s s'.
Proof.
  induction acts as [|a acts IH]; intros s s' Hh Hp; cbn in *; [by injection Hp as <-|].
  apply andb_true_iff in Hh as [Ha Hh]. destruct (perform o a s) as [s1|] eqn:E; [|done]. cbn in Hp.
  eapply rtc_l; [|by eapply IH]. exists a. split; [done|]. by destruct a.
Qed.
End Play.

#[local] Instance plain_host : UrlHost := plain_url.
(** Any injective function will do for these runs. *)
#[local] Instance plain_digest : Digest := fun s => s.

Definition door_routes : list (Route string) :=
  add (js "POST") (js "/v1/keys") "mint"%string (Some CapAdmin) false
  (add (js "GET") (js "/v1/agents") "agents"%string (Some CapRead) false
  (add (js "GET") (js "/v1/health") "health"%string None false [])).

Definition door (tok cl : option string) : Options string :=
  {| token := js <$> tok; claim := js <$> cl; origin := Some local_policy; WEB_PATHS := [js "/"]; routes := door_routes |}.

Definition ask (m path bearer : string) : Request :=
  {| rq_method := js m; rq_pathname := Some (js path); rq_headers := {| h_host := Some (js "localhost"); h_origin := None |};
     rq_authorization := Some (js "Bearer " ++ js bearer) |}.

Definition agent_key : KeyRow :=
  {| keyId := js "k1"; label := js "milo's"; fingerprint := keyFingerprint (js "K"); createdAt := 0; lastUsedAt := None; revokedAt := None;
     scope := Some {| s_agents := Some [js "milo"]; s_sessions := None; s_can := None; s_participant := None |};
     expiresAt := None |}.

Definition supply (b : option KeyBody) (bytes : list Z) : Supply :=
  {| body := b; stopped := []; fresh_id := js "k2"; random := bytes |}.
Definition nothing : Supply := supply None [].
Definition plain_body : KeyBody := {| kb_label := js "mine"; kb_scope := None; kb_expiresIn := None |}.

Lemma front_door_witness :
  match play (door (Some "tok"%string) None) [Arrive (ask "GET" "/v1/agents" "K"); Resume 0 nothing; Resume 0 nothing]
    (boot [agent_key] 5 []) with
  | Some s => exists rq c lab sc, (rq, Ran c (PKey (js "k1") lab sc)) ∈ log s /\
      exists at_ r, keyId r = js "k1" /\ past (door (Some "tok"%string) None) (boot [agent_key] 5 [])
        (fun s1 => findLive (keyFingerprint (js "K")) at_ (keys s1) = Some r /\
           past (door (Some "tok"%string) None) (boot [agent_key] 5 []) (fun s2 => clock s2 = at_) s1) s
  | None => False
  end.
Proof.
  destruct (play _ _ _) as [s|] eqn:E; [|vm_compute in E; discriminate].
  assert (rtc (step (door (Some "tok"%string) None)) (boot [agent_key] 5 []) s) as Hr
    by (eapply play_steps; [|exact E]; reflexivity).
  assert (exists c lab sc, (ask "GET" "/v1/agents" "K", Ran c (PKey (js "k1") lab sc)) ∈ log s) as (c & lab & sc & Hin).
  { vm_compute in E. injection E as <-. eexists _, _, _. cbn [log]. by left. }
  exists (ask "GET" "/v1/agents" "K"), c, lab, sc. split; [exact Hin|].
  assert (unique_keys [agent_key]) as Hu by (split; apply NoDup_singleton).
  destruct (front_door (door (Some "tok"%string) None) [agent_key] 5 [] s _ c _ Hu Hr Hin) as (_ & (at_ & r & E1 & _ & _ & Hp & _) & _).
  exists at_, r. split; [exact E1|exact Hp].
Defined.

(** Two requests hold the ticket while it is live; the second is refused after the first spent it. *)
Lemma claim_mints_once_witness :
  match play (door (Some "tok"%string) (Some "T"%string))
    [Arrive (ask "POST" "/v1/keys" "T"); Arrive (ask "POST" "/v1/keys" "T"); Resume 0 nothing; Resume 0 nothing;
     Resume 0 nothing; Resume 0 nothing; Resume 0 (supply (Some plain_body) []); Resume 0 (supply (Some plain_body) []);
     Resume 0 nothing; Resume 0 (supply None [1; 2])] (boot [] 5 []) with
  | Some s => length (log s) = 2%nat /\ spent s = true /\ length (minted s) = 1%nat /\ (length (List.filter snd (minted s)) <= 1)%nat
  | None => False
  end.
Proof.
  destruct (play _ _ _) as [s|] eqn:E; [|vm_compute in E; discriminate].
  assert (rtc (step (door (Some "tok"%string) (Some "T"%string))) (boot [] 5 []) s) as Hr
    by (eapply play_steps; [|exact E]; reflexivity).
  split; [vm_compute in E; injection E as <-; reflexivity|]. split; [vm_compute in E; injection E as <-; reflexivity|].
  split; [vm_compute in E; injection E as <-; reflexivity|].
  apply (claim_mints_once (door (Some "tok"%string) (Some "T"%string)) [] 5 [] s Hr).
Defined.

(** ** What the door does that its comments say it does not *)

(** A key narrowed to one agent, with the capability of a mint, mints a key with no scope at all. *)
Lemma scoped_key_mints_unscoped :
  option_map (fun s => map scope (keys s)) (play (door (Some "tok"%string) None)
    [Arrive (ask "POST" "/v1/keys" "K"); Resume 0 nothing; Resume 0 nothing; Resume 0 (supply (Some plain_body) []);
     Resume 0 nothing; Resume 0 (supply None [1; 2])] (boot [agent_key] 5 [])) =
  Some [scope agent_key; None].
Proof. by vm_compute. Qed.

(** The ticket is spent before the scope's agents are looked up: a typo in one of them burns it. *)
Lemma claim_burned_by_typo :
  option_map (fun s => (spent s, length (minted s), length (tasks s))) (play (door (Some "tok"%string) (Some "T"%string))
    [Arrive (ask "POST" "/v1/keys" "T"); Resume 0 nothing; Resume 0 nothing;
     Resume 0 (supply (Some {| kb_label := js "mine"; kb_expiresIn := None; kb_scope :=
       Some {| s_agents := Some [js "mylo"]; s_sessions := None; s_can := None; s_participant := None |} |}) []);
     Resume 0 nothing] (boot [] 5 [{| agent_id := js "milo"; pluginRoutes := [] |}])) = Some (true, O, O).
Proof. by vm_compute. Qed.

(** The latch is written with what was read before the [await]: a request that counted no keys takes
    it off again, and once the last key is revoked the server is open. *)
Lemma latch_comes_off :
  option_map (fun s => (closed s, map (fun e => match e.2 with Ran _ who => Some who | _ => None end) (log s)))
    (play (door None None)
      [Arrive (ask "POST" "/v1/keys" ""); Resume 0 nothing; Arrive (ask "GET" "/v1/agents" "");
       Resume 0 (supply (Some plain_body) []); Resume 1 nothing; Resume 1 (supply None [1; 2]);
       Arrive (ask "GET" "/v1/agents" ""); Resume 1 nothing; Resume 0 nothing;
       Revoke (js "k2"); Arrive (ask "GET" "/v1/agents" ""); Resume 0 nothing] (boot [] 5 [])) =
  Some (false, [Some POpen; None; Some POpen; Some POpen]).
Proof. by vm_compute. Qed.

(** A plugin's root route under an open path needs no credential, whatever capability it declares. *)
Lemma plugin_root_on_open_path :
  let hooked := {| agent_id := js "milo"; pluginRoutes := [{| pr_plugin := js "p"; pr_method := js "POST"; pr_path := js "/x";
    pr_root := Some (js "/v1/channels/x"); pr_capability := Some CapAdmin |}] |} in
  option_map (fun s => map (fun e => match e.2 with Ran _ who => Some who | _ => None end) (log s))
    (play (door (Some "tok"%string) None) [Arrive (ask "POST" "/v1/channels/x" "")] (boot [] 5 [hooked])) = Some [Some POpen].
Proof. by vm_compute. Qed.

(** A plugin path whose agent cannot be decoded throws out of the dispatcher, before the origin and
    the credential are looked at. *)
Lemma malformed_plugin_path_throws :
  dispatch (door (Some "tok"%string) None) {| rq_method := js "GET"; rq_pathname := Some (js "/v1/agents/%zz/plugins/p/x");
    rq_headers := {| h_host := Some (js "evil.example"); h_origin := None |}; rq_authorization := None |}
    [{| agent_id := js "milo"; pluginRoutes := [] |}] = Err Threw.
Proof. by vm_compute. Qed.
