(* ===== verification/RouteTable.v ===== *)
(** * The table of routes: [createHandler] of [packages/server/src/handler.ts]

    The ninety routes of the API, in the order they are added, with the capability each declares, and
    what the door ([FrontDoor]) makes of them. A handler is named by its method and pattern. *)
From S2P Require Import Prelude UString SessionKey DeliveryKey Principal Origin Router OperatorKeys FrontDoor.
Local Open Scope Z_scope.

(** The keys of [WEB_ASSETS] ([web.ts]). *)
Definition web_paths : list ustring := map js ["/"; "/assets/app.js"; "/assets/app.css"]%string.

(** Method, pattern, capability and whether the answer streams. *)
Definition api_table : list (string * string * option Capability * bool) :=
  [
   ("GET", "/v1/health", None, false);
   ("GET", "/v1/ready", None, false);
   ("GET", "/v1/activity", (Some CapAdmin), false);
   ("GET", "/v1/agents", (Some CapRead), false);
   ("GET", "/v1/agents/:id", (Some CapRead), false);
   ("GET", "/v1/backup", (Some CapAdmin), false);
   ("GET", "/v1/agents/:id/export", (Some CapAdmin), false);
   ("POST", "/v1/agents/:id/import", (Some CapAdmin), false);
   ("GET", "/v1/agents/:id/vars", (Some CapAdmin), false);
   ("PATCH", "/v1/agents/:id/vars", (Some CapAdmin), false);
   ("GET", "/v1/agents/:id/workspace", (Some CapAdmin), false);
   ("GET", "/v1/agents/:id/workspace/:file", (Some CapAdmin), false);
   ("PUT", "/v1/agents/:id/workspace/:file", (Some CapAdmin), false);
   ("POST", "/v1/agents/:id/tools/refresh", (Some CapAdmin), false);
   ("POST", "/v1/agents/:id/reload", (Some CapAdmin), false);
   ("GET", "/v1/openapi.json", None, false);
   ("GET", "/docs", None, false);
   ("GET", "/v1/provision", (Some CapRead), false);
   ("POST", "/v1/agents", (Some CapAdmin), false);
   ("GET", "/v1/templates", (Some CapRead), false);
   ("GET", "/v1/agents/:id/secrets", (Some CapAdmin), false);
   ("PUT", "/v1/agents/:id/secrets", (Some CapAdmin), false);
   ("POST", "/v1/agents/:id/stop", (Some CapAdmin), false);
   ("POST", "/v1/agents/:id/start", (Some CapAdmin), false);
   ("DELETE", "/v1/agents/:id", (Some CapAdmin), false);
   ("POST", "/v1/agents/:id/deliveries", (Some CapAdmin), false);
   ("POST", "/v1/agents/:id/messages", (Some CapChat), false);
   ("GET", "/v1/agents/:id/turns/:turnId/stream", (Some CapRead), true);
   ("POST", "/v1/agents/:id/turns/:turnId/stop", (Some CapChat), false);
   ("GET", "/v1/agents/:id/approvals", (Some CapRead), false);
   ("POST", "/v1/agents/:id/approvals/:approvalId", (Some CapChat), false);
   ("GET", "/", None, false);
   ("GET", "/assets/app.js", None, false);
   ("GET", "/assets/app.css", None, false);
   ("POST", "/v1/keys", (Some CapAdmin), false);
   ("GET", "/v1/keys", (Some CapAdmin), false);
   ("DELETE", "/v1/keys/:keyId", (Some CapAdmin), false);
   ("POST", "/v1/webhooks", (Some CapAdmin), false);
   ("GET", "/v1/webhooks", (Some CapAdmin), false);
   ("DELETE", "/v1/webhooks/:webhookId", (Some CapAdmin), false);
   ("POST", "/v1/participants", (Some CapAdmin), false);
   ("GET", "/v1/participants", (Some CapRead), false);
   ("DELETE", "/v1/participants/:participantId", (Some CapAdmin), false);
   ("POST", "/v1/conversations", (Some CapAdmin), false);
   ("GET", "/v1/conversations", (Some CapRead), false);
   ("GET", "/v1/conversations/:conversationId", (Some CapRead), false);
   ("PATCH", "/v1/conversations/:conversationId/members", (Some CapAdmin), false);
   ("POST", "/v1/conversations/:conversationId/messages", (Some CapChat), false);
   ("GET", "/v1/conversations/:conversationId/messages", (Some CapRead), false);
   ("PUT", "/v1/participants/:participantId/presence", (Some CapChat), false);
   ("GET", "/v1/actions", (Some CapRead), false);
   ("POST", "/v1/actions/:actionId", (Some CapChat), false);
   ("PUT", "/v1/agents/:id/assignee", (Some CapAdmin), false);
   ("GET", "/v1/agents/:id/assignee", (Some CapRead), false);
   ("DELETE", "/v1/agents/:id/assignee", (Some CapAdmin), false);
   ("POST", "/v1/memory/notes", (Some CapChat), false);
   ("GET", "/v1/memory/notes", (Some CapRead), false);
   ("DELETE", "/v1/memory/notes/:noteId", (Some CapChat), false);
   ("GET", "/v1/participants/:participantId/memory/reads", (Some CapRead), false);
   ("GET", "/v1/projects", (Some CapRead), false);
   ("PUT", "/v1/projects/:projectId", (Some CapAdmin), false);
   ("DELETE", "/v1/projects/:projectId", (Some CapAdmin), false);
   ("PUT", "/v1/memory/space/writer", (Some CapAdmin), false);
   ("GET", "/v1/usage", (Some CapRead), false);
   ("GET", "/v1/agents/:id/usage", (Some CapRead), false);
   ("GET", "/v1/agents/:id/turns", (Some CapRead), false);
   ("GET", "/v1/agents/:id/turns/:turnId", (Some CapRead), false);
   ("GET", "/v1/agents/:id/sessions", (Some CapRead), false);
   ("POST", "/v1/agents/:id/sessions/rotate", (Some CapChat), false);
   ("GET", "/v1/agents/:id/sessions/:key", (Some CapRead), false);
   ("GET", "/v1/agents/:id/sessions/:key/messages", (Some CapRead), false);
   ("DELETE", "/v1/agents/:id/sessions/:key", (Some CapWrite), false);
   ("POST", "/v1/agents/:id/sessions/:key/phase", (Some CapWrite), false);
   ("POST", "/v1/agents/:id/sessions/:key/recall", (Some CapWrite), false);
   ("GET", "/v1/agents/:id/schedules", (Some CapRead), false);
   ("POST", "/v1/agents/:id/schedules", (Some CapWrite), false);
   ("GET", "/v1/agents/:id/schedules/preview", (Some CapRead), false);
   ("GET", "/v1/agents/:id/schedules/:sid", (Some CapRead), false);
   ("PATCH", "/v1/agents/:id/schedules/:sid", (Some CapWrite), false);
   ("DELETE", "/v1/agents/:id/schedules/:sid", (Some CapWrite), false);
   ("POST", "/v1/agents/:id/schedules/:sid/run", (Some CapWrite), false);
   ("GET", "/v1/agents/:id/config", (Some CapAdmin), false);
   ("PATCH", "/v1/agents/:id/config", (Some CapAdmin), false);
   ("PATCH", "/v1/agents/:id/channels/:channelId", (Some CapAdmin), false);
   ("POST", "/v1/agents/:id/channels/:channelId/unpair", (Some CapAdmin), false);
   ("GET", "/v1/agents/:id/tools", (Some CapRead), false);
   ("GET", "/v1/agents/:id/skills", (Some CapRead), false);
   ("GET", "/v1/agents/:id/context", (Some CapRead), false);
   ("POST", "/v1/channels/:channelId/webhook/:agentId", None, false);
   ("GET", "/v1/events", (Some CapRead), true)
  ]%string.

Definition api_routes : list (Route string) :=
  fold_left (fun routes '(m, p, c, s) => add (js m) (js p) (m ++ " " ++ p)%string c s routes) api_table [].

(** ** Open paths and open routes *)

Definition open_to (parts : list ustring) (r : Route string) : bool :=
  match path_match parts r with Some _ => bool_decide (capability r = None) | None => true end.

Definition fixed_open_paths : list ustring :=
  map js ["/v1/health"; "/v1/ready"; "/docs"; "/v1/openapi.json"]%string ++ web_paths.

Lemma fixed_paths_open : forallb (fun p => forallb (open_to (split p)) api_routes) fixed_open_paths = true.
Proof. by vm_compute. Qed.

(** A route that some path below [/v1/channels] could match. *)
Definition under_channels (r : Route string) : bool :=
  match segments r with
  | a :: b :: _ => (bool_decide (a = js "v1") || bool_decide (is_Some (param_name a))) &&
                   (bool_decide (b = js "channels") || bool_decide (is_Some (param_name b)))
  | _ => false
  end.

Lemma channels_open : forallb (fun r => negb (under_channels r) || bool_decide (capability r = None)) api_routes = true.
Proof. by vm_compute. Qed.

Lemma matchSegments_head seg pattern a parts params : is_Some (matchSegments (seg :: pattern) (a :: parts) params) ->
  (seg = a \/ is_Some (param_name seg)) /\ exists params', is_Some (matchSegments pattern parts params').
Proof.
  cbn. destruct (param_name seg); [destruct (decodeURIComponent a)|case_bool_decide]; intros Hm; try by destruct Hm.
  - split; [right; by eexists|by eexists].
  - split; [by left|by eexists].
Qed.

Lemma under_channels_spec rest r : is_Some (path_match (js "v1" :: js "channels" :: rest) r) -> under_channels r = true.
Proof.
  unfold path_match, under_channels. destruct (segments r) as [|a [|b segs]]; [by intros [? ?]| |].
  - intros H. apply matchSegments_head in H as (_ & ? & [? ?]). done.
  - intros H. apply matchSegments_head in H as (Ha & ps & H). apply matchSegments_head in H as (Hb & _).
    apply andb_true_iff. split; apply orb_true_iff; rewrite !bool_decide_eq_true; tauto.
Qed.

Lemma split_channels x : split (js "/v1/channels/" ++ x) = js "v1" :: js "channels" :: split x.
Proof.
  unfold split. change (js "/v1/channels/" ++ x) with (47 :: (js "v1" ++ 47 :: (js "channels" ++ 47 :: x))).
  assert (forall s, split_on 47 (47 :: s) = [] :: split_on 47 s) as -> by done.
  rewrite !split_on_app by (vm_compute; intuition discriminate). done.
Qed.

(** A path that asks for no credential reaches only routes that declare none. *)
Lemma open_path_open_route {o : Options string} path r : WEB_PATHS o = web_paths -> isOpenPath o path = true ->
  r ∈ api_routes -> is_Some (path_match (split path) r) -> capability r = None.
Proof.
  intros Hw Hp Hr Hm. apply list_elem_of_In in Hr.
  assert (path ∈ fixed_open_paths \/ starts_with (js "/v1/channels/") path = true) as [Hfix|Hch].
  { unfold isOpenPath in Hp. rewrite Hw, !orb_true_iff, !bool_decide_eq_true in Hp. unfold fixed_open_paths.
    rewrite elem_of_app. cbn [map]. rewrite !elem_of_cons. tauto. }
  - pose proof fixed_paths_open as H. rewrite forallb_forall in H. apply list_elem_of_In in Hfix. specialize (H path Hfix).
    rewrite forallb_forall in H. specialize (H r Hr). unfold open_to in H. destruct Hm as [ps Hm]. rewrite Hm in H.
    by apply bool_decide_eq_true in H.
  - apply starts_with_spec in Hch as [x ->]. rewrite split_channels in Hm. apply under_channels_spec in Hm.
    pose proof channels_open as H. rewrite forallb_forall in H. specialize (H r Hr). rewrite Hm in H.
    by apply bool_decide_eq_true in H.
Qed.

(** And every route that declares none is on such a path. *)
Lemma open_route_open_path {o : Options string} r values parts : WEB_PATHS o = web_paths -> r ∈ api_routes ->
  capability r = None -> fill (segments r) values = Some parts -> isOpenPath o (write_path parts) = true.
Proof.
  intros Hw Hr Hc Hf. assert (r ∈ List.filter (fun r => bool_decide (capability r = None)) api_routes) as Hin.
  { apply list_elem_of_In, filter_In. split; [by apply list_elem_of_In|by apply bool_decide_eq_true]. }
  assert (In (segments r) (map segments (List.filter (fun r => bool_decide (capability r = None)) api_routes))) as Hseg.
  { apply in_map. by apply list_elem_of_In. }
  assert (forall l, fill l values = Some parts -> param_names l = [] -> values = [] /\ parts = l) as Hplain.
  { clear. intros l. revert parts. induction l as [|seg l IH]; intros parts H Hn; cbn in *.
    - destruct values; [|done]. by injection H as <-.
    - unfold param_names in Hn. cbn in Hn. destruct (param_name seg); [done|]. destruct (fill l values) as [ps|] eqn:E; [|done].
      injection H as <-. destruct (IH ps eq_refl Hn) as [-> ->]. done. }
  unfold isOpenPath. rewrite Hw. generalize dependent (segments r). intros segs Hf Hseg. vm_compute in Hseg.
  repeat match type of Hseg with _ \/ _ => destruct Hseg as [Hseg|Hseg] end; try done; rewrite <- Hseg in Hf;
    try (apply Hplain in Hf as [_ ->]; [|reflexivity]; reflexivity).
  cbn in Hf. destruct values as [|v1 values]; [done|]. destruct (encodeURIComponent v1) as [e1|]; [|done]. cbn in Hf.
  destruct values as [|v2 values]; [done|]. destruct (encodeURIComponent v2) as [e2|]; [|done]. cbn in Hf.
  destruct values; [|done]. injection Hf as <-.
  apply orb_true_iff; left. apply orb_true_iff; left. apply orb_true_iff; left. apply orb_true_iff. right. reflexivity.
Qed.

(** What a claim opens. *)
Lemma claim_route r : r ∈ api_routes -> method r = js "POST" -> is_Some (path_match (split (js "/v1/keys")) r) ->
  pattern r = js "/v1/keys".
Proof.
  intros Hr Hm Hp. apply list_elem_of_In in Hr.
  assert (forallb (fun r => negb (bool_decide (method r = js "POST")) || negb (bool_decide (is_Some (path_match (split (js "/v1/keys")) r))) ||
    bool_decide (pattern r = js "/v1/keys")) api_routes = true) as H by (by vm_compute).
  rewrite forallb_forall in H. specialize (H r Hr). rewrite !bool_decide_true in H by done. by apply bool_decide_eq_true in H.
Qed.

Section Guarded.
Context `{url : UrlHost} `{digest : Digest} (o : Options string).

(** C14. Every route of the API that declares a capability is behind it. However a server with this
    table of routes is reached, the handler of such a route runs only for the configured token or a
    key that has the capability; for the boot claim when the route is the minting of a key; or for
    nobody in particular on a server that has no token, which had no unrevoked key when it counted
    them. And no path that asks for no credential leads to a route that declares a capability. *)
Theorem api_guarded (db : Keys) (t : Z) (hs : list Hosted) (s : Server string) (rq : Request) (r : Route string)
  (ps : Params) (head : bool) (who : Principal) (cap : Capability)
  (Hroutes : routes o = api_routes) (Hweb : WEB_PATHS o = web_paths) (Hr : rtc (step o) (boot db t hs) s)
  (He : (rq, Ran (CallRoute r ps head) who) ∈ log s) (Hcap : capability r = Some cap) :
  match who with
  | POpen => token o = None /\ past o (boot db t hs) (fun s1 => liveCount (keys s1) = 0) s
  | PClaim => method r = js "POST" /\ pattern r = js "/v1/keys"
  | _ => can who cap = true
  end /\
  forall path r', isOpenPath o path = true -> r' ∈ api_routes -> is_Some (path_match (split path) r') -> capability r' = None.
Proof.
  split; [|intros path r'; by apply open_path_open_route].
  destruct (run_justified o db t hs s Hr) as [_ Hl]. rewrite Forall_forall in Hl.
  specialize (Hl _ He) as ((hs' & Hd) & Hc & Hw & _). cbn [fst] in *.
  apply dispatch_spec in Hd as (_ & path & Hpath & Hd). destruct (Hd r ps head eq_refl) as (Hin & Hm & Hmeth & Hhead).
  rewrite Hroutes in Hin. specialize (Hw cap Hcap). destruct who as [| |id lab sc|]; cbn in Hc.
  - destruct Hc as [Hn|Hn]; [|done]. exfalso. rewrite Hpath in Hn. cbn in Hn.
    rewrite (open_path_open_route path r Hweb Hn Hin) in Hcap; [done|by eexists].
  - by destruct Hw.
  - by destruct Hw.
  - destruct Hc as (Hpost & Hkeys & _). rewrite Hpath in Hkeys. injection Hkeys as ->. rewrite Hpost in Hmeth.
    assert (method r = js "POST") as Hmp.
    { destruct head; [|done]. specialize (Hhead eq_refl). rewrite Hpost in Hhead. vm_compute in Hhead. discriminate. }
    split; [done|]. apply claim_route; [done..|by eexists].
Qed.
End Guarded.

(** ** The table at work *)

#[local] Instance table_host : UrlHost := plain_url.
#[local] Instance table_digest : Digest := fun s => s.

Definition api_door : Options string :=
  {| token := Some (js "tok"); claim := None; origin := Some local_policy; WEB_PATHS := web_paths; routes := api_routes |}.

Definition stop_turn : Request := ask "POST" "/v1/agents/milo/turns/t1/stop" "K".
Definition chat_key : KeyRow :=
  {| keyId := js "k1"; label := js "milo's"; fingerprint := keyFingerprint (js "K"); createdAt := 0; lastUsedAt := None; revokedAt := None;
     scope := Some {| s_agents := None; s_sessions := None; s_can := Some [CapChat]; s_participant := None |};
     expiresAt := None |}.

Lemma api_guarded_witness :
  match play api_door [Arrive stop_turn; Resume 0 nothing; Resume 0 nothing] (boot [chat_key] 5 []) with
  | Some s => exists r ps who, (stop_turn, Ran (CallRoute r ps false) who) ∈ log s /\ who <> POpen /\ can who CapChat = true
  | None => False
  end.
Proof.
  destruct (play _ _ _) as [s|] eqn:E; [|vm_compute in E; discriminate].
  assert (rtc (step api_door) (boot [chat_key] 5 []) s) as Hr by (eapply play_steps; [|exact E]; reflexivity).
  assert (exists r ps lab sc, (stop_turn, Ran (CallRoute r ps false) (PKey (js "k1") lab sc)) ∈ log s /\ capability r = Some CapChat)
    as (r & ps & lab & sc & Hin & Hcap).
  { vm_compute in E. injection E as <-. eexists _, _, _, _. split; [cbn [log]; by left|reflexivity]. }
  exists r, ps, (PKey (js "k1") lab sc). split; [exact Hin|]. split; [discriminate|].
  exact (proj1 (api_guarded api_door [chat_key] 5 [] s stop_turn r ps false (PKey (js "k1") lab sc) CapChat eq_refl eq_refl Hr Hin Hcap)).
Defined.

(** No route is hidden behind an earlier one, and the streams are the two that say so. *)
Definition plain_path (r : Route string) : ustring :=
  write_path (map (fun s => match param_name s with Some _ => js "x" | None => s end) (segments r)).

Lemma every_route_reachable : forallb (fun r =>
  match match_ (method r) (plain_path r) api_routes with
  | Found r' _ => bool_decide (pattern r' = pattern r) && bool_decide (method r' = method r)
  | _ => false
  end) api_routes = true.
Proof. by vm_compute. Qed.

(** The mint and the revocation of a key ask for [admin]; what is open is what has to be. *)
Example admin_and_open :
  map handler (List.filter (fun r => bool_decide (capability r = None)) api_routes) =
  ["GET /v1/health"; "GET /v1/ready"; "GET /v1/openapi.json"; "GET /docs"; "GET /"; "GET /assets/app.js"; "GET /assets/app.css";
   "POST /v1/channels/:channelId/webhook/:agentId"]%string.
Proof. by vm_compute. Qed.
