(* ===== verification/Reach.v ===== *)
(** * How far a caller reaches: the handlers' scope checks in [packages/server/src/handler.ts]

    The routes that read and write an agent's sessions, turns, approvals and webhooks, with the two
    statements of [store/sqlite/store.ts] that apply a scope in SQL. What a row carries besides its
    agent and session is opaque, and the order of a listing, which is by a row's own columns, is the
    order of insertion. *)
From S2P Require Import Prelude UString SessionKey Principal.
Local Open Scope Z_scope.

(** ** A prefix in SQL *)

(** Items of a [LIKE] pattern once [ESCAPE '\'] is applied; the pattern of a lone escape matches
    nothing. *)
Inductive LikeItem := LikeAny | LikeOne | LikeChar (c : Z).

Fixpoint like_items (p : ustring) : option (list LikeItem) :=
  match p with
  | [] => Some []
  | c :: rest =>
      if c =? 92 then
        match rest with
        | d :: rest => l ← like_items rest; Some (LikeChar d :: l)
        | [] => None
        end
      else l ← like_items rest; Some ((if c =? 37 then LikeAny else if c =? 95 then LikeOne else LikeChar c) :: l)
  end.

(** SQLite's [LIKE] does not tell the case of ASCII letters. *)
Definition ascii_lower (c : Z) : Z := if is_upper c then c + 32 else c.

Fixpoint like_run (p : list LikeItem) (s : ustring) : bool :=
  match p with
  | [] => is_nil s
  | LikeChar c :: p => match s with d :: s => (ascii_lower c =? ascii_lower d) && like_run p s | [] => false end
  | LikeOne :: p => match s with _ :: s => like_run p s | [] => false end
  | LikeAny :: p => (fix any (s : ustring) := like_run p s || match s with _ :: s => any s | [] => false end) s
  end.

Definition like (pattern s : ustring) : bool :=
  match like_items pattern with Some l => like_run l s | None => false end.

Definition likePrefix (prefix : ustring) : ustring :=
  concat (map (fun c => if (c =? 92) || (c =? 37) || (c =? 95) then [92; c] else [c]) prefix).

(** [session_key LIKE ? ESCAPE '\'] with [`${likePrefix(prefix)}%`]. *)
Definition in_prefix (prefix s : ustring) : bool := like (likePrefix prefix ++ [37]) s.

Section Reach.
(** What rows and agents carry that no check looks at. *)
Context {Shown Stopped Session Message Turn Question Disk : Type}.

(** ** What the server holds *)

Record AgentRow := { a_id : ustring; shown : Shown }.
Record StateRow := { st_agent : ustring; st_enabled : bool; st_info : Stopped }.
Record SessionRow := { se_agent : ustring; se_key : ustring; se_info : Session }.
Record MessageRow := { me_agent : ustring; me_session : ustring; me_info : Message }.
(** [t_row] is the store's row key. *)
Record TurnRow := { t_id : ustring; t_row : Z; t_agent : ustring; t_session : ustring; t_running : bool; t_info : Turn }.
Record Pending := { ap_id : ustring; ap_agent : ustring; ap_session : ustring; ap_info : Question }.

(** [hosted] is [runtime.list()], [on_disk] what [resolveAgent] and [diagnose] say of an id, [passages] what memory indexed of sessions, [buffers] the turns with a stream buffer in this process, [running]
    those with a cancel handle, [heads] by agent and base. *)
Record World := {
  hosted : list AgentRow; states : list StateRow; sessions : list SessionRow; messages : list MessageRow;
  turns : list TurnRow; passages : list MessageRow; approvals : list Pending; buffers : list ustring;
  running : list ustring; heads : ustring -> gmap (list Z) (list Z); on_disk : ustring -> option Disk }.

(** ** The checks *)

Definition visibleAgents {T} (p : Principal) (id : T -> ustring) (l : list T) : list T :=
  if isScoped p then List.filter (fun a => reachesAgent p (id a)) l else l.

Definition visibleSessions {T} (p : Principal) (key : T -> ustring) (l : list T) : list T :=
  if isScoped p then List.filter (fun s => reachesSession p (key s)) l else l.

Definition outsideTurn (p : Principal) (record : option TurnRow) : bool :=
  match record with None => isScoped p | Some r => negb (reachesSession p (t_session r)) end.

(** ** The routes *)

Inductive ReadRoute :=
| ListAgents
| GetAgent (id : ustring)
| ListSessions (id : ustring)
| GetSession (id key : ustring)
| PageMessages (id key : ustring)
| ListApprovals (id : ustring)
| GetTurn (id turn : ustring)
| StreamTurn (id turn : ustring)
| PageTurns (id : ustring) (limit before : option Z).

Inductive Reply :=
| AgentNotFound (id : ustring)
| SessionNotFound (key : ustring)
| TurnNotFound (turn : ustring)
| AgentsReply (rows : list (AgentRow + StateRow))
| AgentReply (row : AgentRow)
| StoppedReply (row : StateRow)
| DiskReply (id : ustring) (diagnosis : Disk)
| SessionsReply (rows : list (SessionRow * bool))
| SessionReply (row : SessionRow)
| MessagesReply (rows : list MessageRow)
| ApprovalsReply (rows : list Pending)
| TurnReply (row : TurnRow)
| StreamReply (turn : ustring)
| EndedReply (row : TurnRow)
| TurnsReply (rows : list TurnRow) (nextBefore : option Z).

(** A hosted agent within reach, or the one 404. *)
Definition withAgent (p : Principal) (id : ustring) (w : World) (work : AgentRow -> Reply) : Reply :=
  match List.find (fun a => bool_decide (a_id a = id)) (hosted w) with
  | None => AgentNotFound id
  | Some a => if reachesAgent p id then work a else AgentNotFound id
  end.

Definition stopped_rows (w : World) : list StateRow :=
  List.filter (fun st => negb (st_enabled st) && negb (existsb (fun a => bool_decide (a_id a = st_agent st)) (hosted w))) (states w).

Definition listed_id (x : AgentRow + StateRow) : ustring := match x with inl a => a_id a | inr st => st_agent st end.

Definition find_state (id : ustring) (w : World) : option StateRow :=
  List.find (fun st => bool_decide (st_agent st = id)) (states w).
Definition find_session (id key : ustring) (w : World) : option SessionRow :=
  List.find (fun s => bool_decide (se_agent s = id) && bool_decide (se_key s = key)) (sessions w).
(** [turnGet]: by the turn's id alone. *)
Definition find_turn (turn : ustring) (w : World) : option TurnRow :=
  List.find (fun t => bool_decide (t_id t = turn)) (turns w).
Definition pending (id : ustring) (w : World) : list Pending :=
  List.filter (fun a => bool_decide (ap_agent a = id)) (approvals w).

(** [turnListForAgent], newest first, one more than the page. *)
Definition listForAgent (id : ustring) (limit : Z) (before : option Z) (prefix : ustring) (w : World) :
  list TurnRow * option Z :=
  let rows := take (Z.to_nat (limit + 1)) (rev (List.filter (fun t => bool_decide (t_agent t = id) &&
    match before with Some b => t_row t <? b | None => true end && in_prefix prefix (t_session t)) (turns w))) in
  let page := take (Z.to_nat limit) rows in
  (page, if limit <? zlen rows then t_row <$> last page else None).

Definition read (r : ReadRoute) (p : Principal) (w : World) : Reply :=
  match r with
  | ListAgents => AgentsReply (visibleAgents p listed_id (map inl (hosted w) ++ map inr (stopped_rows w)))
  | GetAgent id =>
      if negb (existsb (fun a => bool_decide (a_id a = id)) (hosted w)) && reachesAgent p id then
        let disk := match on_disk w id with Some d => DiskReply id d | None => AgentNotFound id end in
        match find_state id w with
        | Some st => if st_enabled st then disk else StoppedReply st
        | None => disk
        end
      else withAgent p id w AgentReply
  | ListSessions id => withAgent p id w (fun _ => SessionsReply (visibleSessions p (fun x => se_key x.1)
      (map (fun s => (s, isHead (se_key s) (heads w id))) (List.filter (fun s => bool_decide (se_agent s = id)) (sessions w)))))
  | GetSession id key => withAgent p id w (fun _ =>
      if reachesSession p key then
        match find_session id key w with Some s => SessionReply s | None => SessionNotFound key end
      else SessionNotFound key)
  | PageMessages id key => withAgent p id w (fun _ =>
      if reachesSession p key then MessagesReply (List.filter (fun m => bool_decide (me_agent m = id) && bool_decide (me_session m = key)) (messages w))
      else SessionNotFound key)
  | ListApprovals id => withAgent p id w (fun _ => ApprovalsReply (visibleSessions p ap_session (pending id w)))
  | GetTurn id turn => withAgent p id w (fun _ =>
      match find_turn turn w with
      | Some t => if reachesSession p (t_session t) then TurnReply t else TurnNotFound turn
      | None => TurnNotFound turn
      end)
  | StreamTurn id turn => withAgent p id w (fun _ =>
      let record := find_turn turn w in
      if outsideTurn p record then TurnNotFound turn
      else if bool_decide (turn ∈ buffers w) then StreamReply turn
      else match record with Some t => EndedReply t | None => TurnNotFound turn end)
  | PageTurns id limit before => withAgent p id w (fun _ =>
      let '(rows, next) := listForAgent id (Z.min (default 50 limit) 200) before (default [] (sessionPrefix (scopeFilter p))) w in
      TurnsReply rows next)
  end.

(** ** Webhooks *)

Record Subscription := { w_agents : option (list ustring); w_prefix : option ustring }.

Definition webhookVisible (p : Principal) (sub : Subscription) : bool :=
  let reach := scopeFilter p in
  match agentIds reach with
  | None => true
  | Some ids => match w_agents sub with None => false | Some l => forallb (fun id => bool_decide (id ∈ ids)) l end
  end &&
  match sessionPrefix reach with
  | None => true
  | Some q => match w_prefix sub with None => false | Some x => starts_with q x end
  end.

(** [POST /v1/webhooks]: the agents asked for, and the scope of what is created; [None] is the
    refusal. *)
Definition webhook_scope (p : Principal) (asked : option (list ustring)) (known : list ustring) : option Subscription :=
  let reach := scopeFilter p in
  match asked with
  | Some l => if forallb (fun id => reachesAgent p id && bool_decide (id ∈ known)) l
              then Some {| w_agents := Some l; w_prefix := sessionPrefix reach |} else None
  | None => Some {| w_agents := agentIds reach; w_prefix := sessionPrefix reach |}
  end.

(** ** Writes within a session *)

(** With what a statement does to the session's row: its stamp, its flag, its phase. *)
Inductive WriteRoute :=
| ClearSession (id key : ustring) (change : Session -> Session)
| SetRecall (id key : ustring) (recall : bool) (change : Session -> Session)
| SetPhase (id key : ustring) (fresh : Session) (change : Session -> Session)
| StopTurn (id turn : ustring)
| Answer (id approval : ustring).

Definition with_rows (ss : list SessionRow) (ms : list MessageRow) (ts : list TurnRow) (ps : list MessageRow) (w : World) : World :=
  {| hosted := hosted w; states := states w; sessions := ss; messages := ms; turns := ts; passages := ps;
     approvals := approvals w; buffers := buffers w; running := running w; heads := heads w; on_disk := on_disk w |}.
Definition with_running (l : list ustring) (w : World) : World :=
  {| hosted := hosted w; states := states w; sessions := sessions w; messages := messages w; turns := turns w;
     passages := passages w; approvals := approvals w; buffers := buffers w; running := l; heads := heads w; on_disk := on_disk w |}.
Definition with_approvals (l : list Pending) (w : World) : World :=
  {| hosted := hosted w; states := states w; sessions := sessions w; messages := messages w; turns := turns w;
     passages := passages w; approvals := l; buffers := buffers w; running := running w; heads := heads w; on_disk := on_disk w |}.

Definition of_session (id key : ustring) (agent session : ustring) : bool :=
  bool_decide (agent = id) && bool_decide (session = key).

(** The statements of [clear], [setRecall] and [setPhase], each on the rows of one session. *)
Definition update_session (id key : ustring) (change : Session -> Session) (l : list SessionRow) : list SessionRow :=
  map (fun s => if of_session id key (se_agent s) (se_key s)
                then {| se_agent := se_agent s; se_key := se_key s; se_info := change (se_info s) |} else s) l.
(** [None] where [parseSessionKey] throws. *)
Definition ensureSession (id key : ustring) (fresh : Session) (l : list SessionRow) : option (list SessionRow) :=
  if existsb (fun s => of_session id key (se_agent s) (se_key s)) l then Some l
  else if isSessionKey key then Some (l ++ [{| se_agent := id; se_key := key; se_info := fresh |}])
  else None.
Definition drop_messages (id key : ustring) (l : list MessageRow) : list MessageRow :=
  List.filter (fun m => negb (of_session id key (me_agent m) (me_session m))) l.
Definition drop_turns (id key : ustring) (l : list TurnRow) : list TurnRow :=
  List.filter (fun t => negb (of_session id key (t_agent t) (t_session t))) l.

(** [withAgent] of a route that writes. *)
Definition within (p : Principal) (id : ustring) (w w' : World) : World :=
  if existsb (fun a => bool_decide (a_id a = id)) (hosted w) && reachesAgent p id then w' else w.

Definition write (r : WriteRoute) (p : Principal) (w : World) : World :=
  match r with
  | ClearSession id key change => within p id w (if reachesSession p key then
      with_rows (update_session id key change (sessions w)) (drop_messages id key (messages w))
        (drop_turns id key (turns w)) (drop_messages id key (passages w)) w else w)
  | SetRecall id key recall change => within p id w (if reachesSession p key then
      match find_session id key w with
      | Some _ => with_rows (update_session id key change (sessions w)) (messages w) (turns w)
                    (if recall then passages w else drop_messages id key (passages w)) w
      | None => w
      end else w)
  | SetPhase id key fresh change => within p id w (if reachesSession p key then
      match ensureSession id key fresh (sessions w) with
      | Some l => with_rows (update_session id key change l) (messages w) (turns w) (passages w) w
      | None => w
      end else w)
  | StopTurn id turn => within p id w (if outsideTurn p (find_turn turn w) then w
      else with_running (List.filter (fun t => negb (bool_decide (t = turn))) (running w)) w)
  | Answer id approval => within p id w
      (if existsb (fun a => bool_decide (ap_id a = approval)) (visibleSessions p ap_session (pending id w))
       then with_approvals (List.filter (fun a => negb (bool_decide (ap_id a = approval))) (approvals w)) w else w)
  end.

(** ** What two servers look like to a caller *)

Definition in_reach (p : Principal) (agent session : ustring) : bool := reachesAgent p agent && reachesSession p session.

(** The turns a route goes by. One turn is looked up by its id alone, so the agent it is of does not
    matter there; a page is filtered in SQL, where the case of ASCII letters does not. *)
Definition turn_seen (r : ReadRoute) (p : Principal) (t : TurnRow) : bool :=
  match r with
  | GetTurn _ _ | StreamTurn _ _ => reachesSession p (t_session t)
  | PageTurns id _ _ => bool_decide (t_agent t = id) && reachesAgent p id &&
                        in_prefix (default [] (sessionPrefix (scopeFilter p))) (t_session t)
  | _ => false
  end.

Record same_view (r : ReadRoute) (p : Principal) (w1 w2 : World) : Prop := {
  v_hosted : List.filter (fun a => reachesAgent p (a_id a)) (hosted w1) = List.filter (fun a => reachesAgent p (a_id a)) (hosted w2);
  v_states : List.filter (fun s => reachesAgent p (st_agent s)) (states w1) = List.filter (fun s => reachesAgent p (st_agent s)) (states w2);
  v_sessions : List.filter (fun s => in_reach p (se_agent s) (se_key s)) (sessions w1) =
               List.filter (fun s => in_reach p (se_agent s) (se_key s)) (sessions w2);
  v_messages : List.filter (fun m => in_reach p (me_agent m) (me_session m)) (messages w1) =
               List.filter (fun m => in_reach p (me_agent m) (me_session m)) (messages w2);
  v_turns : List.filter (turn_seen r p) (turns w1) = List.filter (turn_seen r p) (turns w2);
  v_approvals : List.filter (fun a => in_reach p (ap_agent a) (ap_session a)) (approvals w1) =
                List.filter (fun a => in_reach p (ap_agent a) (ap_session a)) (approvals w2);
  v_disk : forall id, reachesAgent p id = true -> on_disk w1 id = on_disk w2 id;
  v_heads : forall a k, in_reach p a k = true -> isHead k (heads w1 a) = isHead k (heads w2 a);
  v_buffers : forall id, isScoped p = false \/ (exists t, t ∈ turns w1 /\ turn_seen r p t = true /\ t_id t = id) ->
              (id ∈ buffers w1 <-> id ∈ buffers w2) }.

Lemma filter_within {A} (P R : A -> bool) l : (forall x, x ∈ l -> P x = true -> R x = true) ->
  List.filter P l = List.filter P (List.filter R l).
Proof.
  induction l as [|x l IH]; intros H; [done|]. cbn. specialize (IH (fun y Hy => H y ltac:(by right))).
  specialize (H x ltac:(by left)). destruct (P x) eqn:EP.
  - rewrite (H eq_refl). cbn. by rewrite EP, IH.
  - destruct (R x); cbn; [by rewrite EP|done].
Qed.

Lemma filter_narrow {A} (P R : A -> bool) l1 l2 : List.filter R l1 = List.filter R l2 ->
  (forall x, x ∈ l1 \/ x ∈ l2 -> P x = true -> R x = true) -> List.filter P l1 = List.filter P l2.
Proof.
  intros E H. rewrite (filter_within P R l1), (filter_within P R l2), E; [done|..]; intros x Hx; apply H; auto.
Qed.

Lemma find_filter {A} (P : A -> bool) l : List.find P l = hd_error (List.filter P l).
Proof. induction l as [|x l IH]; [done|]. cbn. destruct (P x); [done|exact IH]. Qed.

Lemma existsb_filter {A} (P : A -> bool) l : existsb P l = negb (is_nil (List.filter P l)).
Proof. induction l as [|x l IH]; [done|]. cbn. by destruct (P x). Qed.

Lemma visibleAgents_filter {T} p (id : T -> ustring) l : p <> PClaim ->
  visibleAgents p id l = List.filter (fun a => reachesAgent p (id a)) l.
Proof.
  intros Hp. unfold visibleAgents. destruct (isScoped p) eqn:E; [done|]. destruct (unscoped_reaches p E Hp) as (_ & Ha & _).
  induction l as [|x l IH]; [done|]. cbn. by rewrite Ha, <- IH.
Qed.

Lemma visibleSessions_filter {T} p (key : T -> ustring) l : p <> PClaim ->
  visibleSessions p key l = List.filter (fun a => reachesSession p (key a)) l.
Proof.
  intros Hp. unfold visibleSessions. destruct (isScoped p) eqn:E; [done|]. destruct (unscoped_reaches p E Hp) as (_ & _ & Hs).
  induction l as [|x l IH]; [done|]. cbn. by rewrite Hs, <- IH.
Qed.

Lemma filter_map_swap {A B} (f : A -> B) (P : B -> bool) l : List.filter P (map f l) = map f (List.filter (fun x => P (f x)) l).
Proof. induction l as [|x l IH]; [done|]. cbn. rewrite IH. by destruct (P (f x)). Qed.

Lemma filter_and {A} (P R : A -> bool) l : List.filter P (List.filter R l) = List.filter (fun x => R x && P x) l.
Proof. induction l as [|x l IH]; [done|]. cbn. destruct (R x); cbn; [destruct (P x)|]; by rewrite IH. Qed.

Lemma withAgent_view r p id w1 w2 work1 work2 : same_view r p w1 w2 ->
  (reachesAgent p id = true -> forall a, work1 a = work2 a) -> withAgent p id w1 work1 = withAgent p id w2 work2.
Proof.
  intros Hv Hw. unfold withAgent. destruct (reachesAgent p id) eqn:E.
  - rewrite !find_filter. rewrite (filter_narrow (fun a => bool_decide (a_id a = id)) (fun a => reachesAgent p (a_id a)) _ (hosted w2) (v_hosted _ _ _ _ Hv)).
    + destruct (hd_error _); [by apply Hw|done].
    + intros a _ Ha. apply bool_decide_eq_true in Ha. by rewrite Ha.
  - by destruct (List.find _ (hosted w1)), (List.find _ (hosted w2)).
Qed.

Lemma hosted_view r p id w1 w2 : same_view r p w1 w2 -> reachesAgent p id = true ->
  existsb (fun a => bool_decide (a_id a = id)) (hosted w1) = existsb (fun a => bool_decide (a_id a = id)) (hosted w2).
Proof.
  intros Hv E. rewrite !existsb_filter. do 2 f_equal.
  apply (filter_narrow _ (fun a => reachesAgent p (a_id a)) _ _ (v_hosted _ _ _ _ Hv)).
  intros a _ Ha. apply bool_decide_eq_true in Ha. by rewrite Ha.
Qed.

Lemma stopped_view r p w1 w2 : same_view r p w1 w2 ->
  List.filter (fun s => reachesAgent p (st_agent s)) (stopped_rows w1) =
  List.filter (fun s => reachesAgent p (st_agent s)) (stopped_rows w2).
Proof.
  intros Hv. unfold stopped_rows. rewrite !filter_and.
  rewrite (filter_within _ (fun s => reachesAgent p (st_agent s)) (states w1)), (filter_within _ (fun s => reachesAgent p (st_agent s)) (states w2)), (v_states _ _ _ _ Hv);
    try (by intros x _ [_ ?]%andb_true_iff).
  apply List.filter_ext_in. intros x Hx. apply filter_In in Hx as [_ Hx]. by rewrite (hosted_view r p _ w1 w2 Hv Hx).
Qed.

(** Worlds that agree on the turns of the sessions within reach. *)
Lemma turn_view p turn w1 w2 :
  List.filter (fun t => reachesSession p (t_session t)) (turns w1) = List.filter (fun t => reachesSession p (t_session t)) (turns w2) ->
  NoDup (map t_id (turns w1)) -> NoDup (map t_id (turns w2)) ->
  match find_turn turn w1, find_turn turn w2 with
  | Some a, Some b => a = b \/ (reachesSession p (t_session a) = false /\ reachesSession p (t_session b) = false)
  | Some a, None | None, Some a => reachesSession p (t_session a) = false
  | None, None => True
  end.
Proof.
  intros Hv H1 H2.
  assert (forall w w', List.filter (fun t => reachesSession p (t_session t)) (turns w) =
      List.filter (fun t => reachesSession p (t_session t)) (turns w') -> NoDup (map t_id (turns w')) ->
    forall a, find_turn turn w = Some a -> reachesSession p (t_session a) = true -> find_turn turn w' = Some a) as Hfind.
  { intros w w' E Hn a Ha Hr. apply find_some in Ha as [Ha Hid].
    assert (In a (List.filter (fun t => reachesSession p (t_session t)) (turns w))) as Hin by by apply filter_In.
    rewrite E in Hin. apply filter_In in Hin as [Hin _]. unfold find_turn.
    destruct (List.find _ (turns w')) as [b|] eqn:Eb; [|by rewrite (find_none _ _ Eb a Hin) in Hid].
    apply find_some in Eb as [Hb Hidb]. apply bool_decide_eq_true in Hid, Hidb. f_equal.
    apply list_elem_of_In, list_elem_of_lookup in Hb as [i Hi]. apply list_elem_of_In, list_elem_of_lookup in Hin as [j Hj].
    assert (i = j) as ->; [|congruence]. eapply NoDup_lookup; [exact Hn|..]; rewrite list_lookup_fmap; [by rewrite Hi|].
    rewrite Hj. cbn. congruence. }
  pose proof (Hfind w1 w2 Hv H2) as F12. pose proof (Hfind w2 w1 (eq_sym Hv) H1) as F21.
  destruct (find_turn turn w1) as [a|], (find_turn turn w2) as [b|]; [| | |done].
  - destruct (reachesSession p (t_session a)) eqn:Ra; [specialize (F12 a eq_refl Ra); left; congruence|].
    destruct (reachesSession p (t_session b)) eqn:Rb; [specialize (F21 b eq_refl Rb); left; congruence|]. by right.
  - destruct (reachesSession p (t_session a)) eqn:Ra; [by specialize (F12 a eq_refl Ra)|done].
  - destruct (reachesSession p (t_session b)) eqn:Rb; [by specialize (F21 b eq_refl Rb)|done].
Qed.

Lemma session_in_reach p a k : reachesAgent p a = true -> reachesSession p k = true -> in_reach p a k = true.
Proof. unfold in_reach. by intros -> ->. Qed.

Lemma page_view p id limit page before w1 w2 : same_view (PageTurns id page before) p w1 w2 -> reachesAgent p id = true ->
  listForAgent id limit before (default [] (sessionPrefix (scopeFilter p))) w1 =
  listForAgent id limit before (default [] (sessionPrefix (scopeFilter p))) w2.
Proof.
  intros Hv Hid. unfold listForAgent.
  rewrite (filter_narrow _ (turn_seen (PageTurns id page before) p) _ (turns w2) (v_turns _ _ _ _ Hv)); [done|].
  intros t _ [[Ha _]%andb_true_iff Hp]%andb_true_iff. cbn [turn_seen]. by rewrite Ha, Hid, Hp.
Qed.

Lemma stream_view p id turn w1 w2 : same_view (StreamTurn id turn) p w1 w2 -> p <> PClaim ->
  NoDup (map t_id (turns w1)) -> NoDup (map t_id (turns w2)) ->
  (outsideTurn p (find_turn turn w1) = true /\ outsideTurn p (find_turn turn w2) = true) \/
  (find_turn turn w1 = find_turn turn w2 /\ bool_decide (turn ∈ buffers w1) = bool_decide (turn ∈ buffers w2)).
Proof.
  intros Hv Hp N1 N2. pose proof (turn_view p turn w1 w2 (v_turns _ _ _ _ Hv) N1 N2) as Ht. unfold outsideTurn.
  assert (isScoped p = false -> forall k, reachesSession p k = true) as Hun by (intros E; by apply unscoped_reaches).
  destruct (find_turn turn w1) as [a|] eqn:Ea, (find_turn turn w2) as [b|] eqn:Eb.
  - destruct Ht as [->|[-> ->]]; [|by left]. destruct (reachesSession p (t_session b)) eqn:Rb; [|by left]. right. split; [done|].
    apply bool_decide_ext, (v_buffers _ _ _ _ Hv). right. unfold find_turn in Ea. apply find_some in Ea as [Ea Hid]. exists b.
    apply bool_decide_eq_true in Hid. split_and!; [by apply list_elem_of_In|exact Rb|done].
  - rewrite Ht. left. split; [done|]. destruct (isScoped p); [done|]. by rewrite Hun in Ht.
  - rewrite Ht. left. split; [|done]. destruct (isScoped p); [done|]. by rewrite Hun in Ht.
  - destruct (isScoped p) eqn:Es; [by left|]. right. split; [done|]. apply bool_decide_ext, (v_buffers _ _ _ _ Hv). by left.
Qed.

(** C8. A key cannot tell what lies outside its reach. Take a caller other than the boot claim, any of
    these routes, and two servers whose turns have one id each. If they agree on the agents and
    sessions it reaches - their rows, messages, questions, heads and what the disk says of such an
    agent - and on the turns the route goes by ([turn_seen]), they answer it alike, whatever else they
    hold: what is out of reach answers exactly as what does not exist, and is missing from every
    listing. The turns are where the routes go by less than the reach: one turn is found by its id and
    its session, so a turn of another agent counts where the session is within reach
    ([turn_of_another_agent]), and a page of an agent's turns is filtered in SQL, so a session whose
    key begins as it should but for the case of ASCII letters counts ([case_of_a_prefix]). *)
Theorem scope_noninterference (p : Principal) (r : ReadRoute) (w1 w2 : World) (Hp : p <> PClaim) (Hv : same_view r p w1 w2)
  (H1 : NoDup (map t_id (turns w1))) (H2 : NoDup (map t_id (turns w2))) : read r p w1 = read r p w2.
Proof.
  destruct r as [|id|id|id key|id key|id|id turn|id turn|id limit before]; cbn [read].
  - f_equal. rewrite !visibleAgents_filter, !List.filter_app, !filter_map_swap by done. cbn [listed_id].
    by rewrite (v_hosted _ _ _ _ Hv), (stopped_view _ p w1 w2 Hv).
  - destruct (reachesAgent p id) eqn:Er; [|rewrite !andb_false_r; eapply withAgent_view; [done|by rewrite Er]].
    rewrite (hosted_view _ p id w1 w2 Hv Er). destruct (_ && _); [|by eapply withAgent_view].
    rewrite <- (v_disk _ _ _ _ Hv id Er). unfold find_state. rewrite !find_filter. rewrite (filter_narrow _ (fun s => reachesAgent p (st_agent s)) _ (states w2) (v_states _ _ _ _ Hv)); [done|].
    intros s _ Hs. apply bool_decide_eq_true in Hs. by rewrite Hs.
  - eapply withAgent_view; [exact Hv|]. intros Er _. f_equal. rewrite !visibleSessions_filter by done.
    rewrite !filter_map_swap. cbn [fst]. rewrite !filter_and.
    rewrite (filter_narrow _ (fun s => in_reach p (se_agent s) (se_key s)) _ (sessions w2) (v_sessions _ _ _ _ Hv)).
    + apply map_ext_in. intros s Hs. apply filter_In in Hs as [_ Hs]. apply andb_true_iff in Hs as [_ Hs].
      rewrite (v_heads _ _ _ _ Hv id (se_key s)); [done|]. by apply session_in_reach.
    + intros s _ [Ha Hs]%andb_true_iff. apply bool_decide_eq_true in Ha. apply session_in_reach; [by rewrite Ha|done].
  - eapply withAgent_view; [exact Hv|]. intros Er _. destruct (reachesSession p key) eqn:Es; [|done].
    unfold find_session. rewrite !find_filter. rewrite (filter_narrow _ (fun s => in_reach p (se_agent s) (se_key s)) _ (sessions w2) (v_sessions _ _ _ _ Hv)); [done|].
    intros s _ [Ha Hk]%andb_true_iff. apply bool_decide_eq_true in Ha, Hk. rewrite Ha, Hk. by apply session_in_reach.
  - eapply withAgent_view; [exact Hv|]. intros Er _. destruct (reachesSession p key) eqn:Es; [|done]. f_equal.
    apply (filter_narrow _ (fun m => in_reach p (me_agent m) (me_session m)) _ _ (v_messages _ _ _ _ Hv)).
    intros s _ [Ha Hk]%andb_true_iff. apply bool_decide_eq_true in Ha, Hk. rewrite Ha, Hk. by apply session_in_reach.
  - eapply withAgent_view; [exact Hv|]. intros Er _. f_equal. rewrite !visibleSessions_filter by done. unfold pending. rewrite !filter_and.
    apply (filter_narrow _ (fun a => in_reach p (ap_agent a) (ap_session a)) _ _ (v_approvals _ _ _ _ Hv)).
    intros s _ [Ha Hk]%andb_true_iff. apply bool_decide_eq_true in Ha. apply session_in_reach; [by rewrite Ha|done].
  - eapply withAgent_view; [exact Hv|]. intros _ _. pose proof (turn_view p turn w1 w2 (v_turns _ _ _ _ Hv) H1 H2) as Ht.
    destruct (find_turn turn w1) as [a|], (find_turn turn w2) as [b|]; [|by rewrite Ht..|done].
    destruct Ht as [->|[-> ->]]; done.
  - eapply withAgent_view; [exact Hv|]. intros _ _.
    destruct (stream_view p id turn w1 w2 Hv Hp H1 H2) as [[-> ->]|[-> ->]]; done.
  - eapply withAgent_view; [exact Hv|]. intros Er _. by rewrite (page_view p id _ limit before w1 w2 Hv Er).
Qed.

(** ** What a write leaves alone *)

Lemma filter_drop {A} (P Q : A -> bool) l : (forall x, x ∈ l -> P x = true -> Q x = true) -> List.filter P (List.filter Q l) = List.filter P l.
Proof. intros H. by rewrite <- (filter_within P Q l H). Qed.

Lemma filter_update {A} (P : A -> bool) (g : A -> A) l : (forall x, x ∈ l -> P (g x) = P x) ->
  (forall x, x ∈ l -> P x = true -> g x = x) -> List.filter P (map g l) = List.filter P l.
Proof.
  induction l as [|x l IH]; intros H1 H2; [done|]. cbn. rewrite H1 by (by left). specialize (IH (fun y Hy => H1 y ltac:(by right)) (fun y Hy => H2 y ltac:(by right))).
  destruct (P x) eqn:E; [|done]. by rewrite (H2 x ltac:(by left) E), IH.
Qed.

Lemma of_session_reach p id key a k : in_reach p id key = true -> negb (in_reach p a k) = true -> of_session id key a k = false.
Proof.
  unfold of_session. intros H Hn. apply negb_true_iff in Hn. apply andb_false_iff. rewrite !bool_decide_eq_false.
  destruct (decide (a = id)) as [->|]; [right|by left]. intros ->. congruence.
Qed.

Definition beyond (p : Principal) (w : World) : list SessionRow * list MessageRow * list TurnRow * list MessageRow * list Pending :=
  (List.filter (fun s => negb (in_reach p (se_agent s) (se_key s))) (sessions w),
   List.filter (fun m => negb (in_reach p (me_agent m) (me_session m))) (messages w),
   List.filter (fun t => negb (in_reach p (t_agent t) (t_session t))) (turns w),
   List.filter (fun m => negb (in_reach p (me_agent m) (me_session m))) (passages w),
   List.filter (fun a => negb (in_reach p (ap_agent a) (ap_session a))) (approvals w)).

Lemma update_beyond p id key change l : in_reach p id key = true ->
  List.filter (fun s => negb (in_reach p (se_agent s) (se_key s))) (update_session id key change l) =
  List.filter (fun s => negb (in_reach p (se_agent s) (se_key s))) l.
Proof.
  intros H. apply filter_update; intros s _; [by destruct (of_session _ _ _ _)|].
  intros Hn. by rewrite (of_session_reach p id key).
Qed.

Lemma messages_beyond p id key l : in_reach p id key = true ->
  List.filter (fun m => negb (in_reach p (me_agent m) (me_session m))) (drop_messages id key l) =
  List.filter (fun m => negb (in_reach p (me_agent m) (me_session m))) l.
Proof. intros H. apply filter_drop. intros m _ Hn. by rewrite (of_session_reach p id key). Qed.

Lemma turns_beyond p id key l : in_reach p id key = true ->
  List.filter (fun t => negb (in_reach p (t_agent t) (t_session t))) (drop_turns id key l) =
  List.filter (fun t => negb (in_reach p (t_agent t) (t_session t))) l.
Proof. intros H. apply filter_drop. intros m _ Hn. by rewrite (of_session_reach p id key). Qed.

Lemma ensure_beyond p id key fresh l l' : in_reach p id key = true -> ensureSession id key fresh l = Some l' ->
  List.filter (fun s => negb (in_reach p (se_agent s) (se_key s))) l' =
  List.filter (fun s => negb (in_reach p (se_agent s) (se_key s))) l.
Proof.
  intros H. unfold ensureSession. destruct (existsb _ _); [by intros [= <-]|]. destruct (isSessionKey key); [|done].
  intros [= <-]. rewrite List.filter_app. cbn. rewrite H. cbn. by rewrite app_nil_r.
Qed.

Lemma within_cases p id w w' : within p id w w' = w \/ (within p id w w' = w' /\ reachesAgent p id = true).
Proof. unfold within. destruct (existsb _ _); [|by left]. destruct (reachesAgent p id); [by right|by left]. Qed.

(** C9. A key changes nothing outside its reach by the routes that write within a session: clearing
    one, setting whether it is recalled, setting its phase, stopping a turn and answering a question.
    For a caller other than the boot claim, and pending questions with one id each: after any of the
    five, every session, message, turn, memory passage and pending question of an agent or a session
    it does not reach is as it was, and no turn is stopped whose session is out of its reach. (A turn
    of an agent out of reach can be stopped where its session is within: [turn_of_another_agent].) *)
Theorem scope_confines_writes (p : Principal) (r : WriteRoute) (w : World) (Hp : p <> PClaim)
  (Hid : NoDup (map ap_id (approvals w))) :
  beyond p (write r p w) = beyond p w /\
  forall t, find_turn (t_id t) w = Some t -> reachesSession p (t_session t) = false ->
    (t_id t ∈ running (write r p w) <-> t_id t ∈ running w).
Proof.
  destruct r as [id key change|id key recall change|id key fresh change|id turn|id approval]; cbn [write];
    match goal with |- beyond p (within p id w ?x) = _ /\ _ => destruct (within_cases p id w x) as [->|[-> Er]]; [done|] end.
  - destruct (reachesSession p key) eqn:Es; [|done]. assert (in_reach p id key = true) as H by by apply session_in_reach.
    unfold beyond. cbn. by rewrite update_beyond, !messages_beyond, turns_beyond.
  - destruct (reachesSession p key) eqn:Es; [|done]. assert (in_reach p id key = true) as H by by apply session_in_reach.
    destruct (find_session id key w); [|done]. unfold beyond. cbn. rewrite update_beyond by done.
    destruct recall; [done|]. by rewrite messages_beyond.
  - destruct (reachesSession p key) eqn:Es; [|done]. assert (in_reach p id key = true) as H by by apply session_in_reach.
    destruct (ensureSession id key fresh (sessions w)) as [l|] eqn:E; [|done]. unfold beyond. cbn.
    by rewrite update_beyond, (ensure_beyond p id key fresh (sessions w) l).
  - destruct (outsideTurn p (find_turn turn w)) eqn:Eo; [done|]. split; [done|]. intros t Ht Hr. cbn.
    rewrite !list_elem_of_In, filter_In. split; [by intros [? _]|]. intros Hin. split; [done|].
    apply negb_true_iff, bool_decide_eq_false. intros <-. unfold outsideTurn in Eo. rewrite Ht, Hr in Eo. done.
  - destruct (existsb _ _) eqn:Ee; [|done]. split; [|done].
    apply existsb_exists in Ee as (a & Ha & Eid). apply bool_decide_eq_true in Eid.
    rewrite visibleSessions_filter in Ha by done. apply filter_In in Ha as [Ha Hs]. apply filter_In in Ha as [Ha Hag].
    apply bool_decide_eq_true in Hag. unfold beyond. cbn. rewrite filter_drop; [done|].
    intros b Hb Hn. apply negb_true_iff, bool_decide_eq_false. intros Eb.
    assert (b = a) as ->.
    { apply list_elem_of_lookup in Hb as [i Hi]. apply list_elem_of_In, list_elem_of_lookup in Ha as [j Hj].
      assert (i = j) as ->; [|congruence]. eapply NoDup_lookup; [exact Hid|..]; rewrite list_lookup_fmap; [by rewrite Hi|].
      rewrite Hj. cbn. congruence. }
    rewrite (session_in_reach p (ap_agent a) (ap_session a)) in Hn; [done|by rewrite Hag|done].
Qed.

(** ** Webhooks within reach *)

(** A subscription a caller sees, and so may delete, hears nothing the caller does not reach. *)
Lemma webhookVisible_within p sub agent session : webhookVisible p sub = true ->
  in_filter {| agentIds := w_agents sub; sessionPrefix := w_prefix sub |} agent session = true ->
  reachesAgent p agent = true /\ reachesSession p session = true.
Proof.
  intros Hv Hf. apply scopeFilter_reaches. unfold in_filter, webhookVisible in *. cbn in Hf.
  apply andb_true_iff in Hv as [Hv1 Hv2]. apply andb_true_iff in Hf as [Hf1 Hf2]. apply andb_true_iff. split.
  - destruct (agentIds (scopeFilter p)) as [ids|]; [|done]. destruct (w_agents sub) as [l|]; [|done].
    rewrite forallb_forall in Hv1. apply bool_decide_eq_true in Hf1. apply Hv1. by apply list_elem_of_In.
  - destruct (sessionPrefix (scopeFilter p)) as [q|]; [|done]. destruct (w_prefix sub) as [x|]; [|done].
    apply starts_with_spec in Hv2 as [y ->]. apply starts_with_spec in Hf2 as [z ->]. apply starts_with_spec.
    exists (y ++ z). by rewrite app_assoc.
Qed.

(** And what a caller creates it sees. *)
Lemma webhook_scope_visible p asked known sub : webhook_scope p asked known = Some sub -> webhookVisible p sub = true.
Proof.
  unfold webhook_scope, webhookVisible. intros H. apply andb_true_iff. destruct asked as [l|].
  - destruct (forallb _ l) eqn:E; [|done]. injection H as <-. cbn. split.
    + rewrite forallb_forall in E. destruct (agentIds (scopeFilter p)) as [ids|] eqn:Ei; [|done]. apply forallb_forall.
      intros x Hx. specialize (E x Hx). apply andb_true_iff in E as [E _].
      destruct p as [| |i lab [s|]|]; try done. unfold reachesAgent, by_scope in E. cbn in Ei. by rewrite Ei in E.
    + destruct (sessionPrefix (scopeFilter p)); [|done]. apply starts_with_spec. exists []. by rewrite app_nil_r.
  - injection H as <-. cbn. split.
    + destruct (agentIds (scopeFilter p)); [|done]. apply forallb_forall. intros x Hx. apply bool_decide_eq_true. by apply list_elem_of_In.
    + destruct (sessionPrefix (scopeFilter p)); [|done]. apply starts_with_spec. exists []. by rewrite app_nil_r.
Qed.
End Reach.
Arguments World : clear implicits.
Arguments Reply : clear implicits.
Arguments WriteRoute : clear implicits.

(** ** A prefix in SQL is a prefix but for case *)

Lemma like_items_app p q l : like_items p = Some l -> like_items (p ++ q) = (app l <$> like_items q).
Proof.
  remember (length p) as n eqn:Hn. revert p l Hn. induction n as [n IH] using (well_founded_induction Nat.lt_wf_0).
  intros p l -> H. destruct p as [|c p]; cbn in *; [injection H as <-; by destruct (like_items q)|]. destruct (c =? 92).
  - destruct p as [|d p]; [done|]. cbn in *. destruct (like_items p) as [l'|] eqn:E; [|done]. injection H as <-.
    rewrite (IH (length p) ltac:(cbn; lia) p l' eq_refl E). by destruct (like_items q).
  - destruct (like_items p) as [l'|] eqn:E; [|done]. injection H as <-.
    rewrite (IH (length p) ltac:(cbn; lia) p l' eq_refl E). by destruct (like_items q).
Qed.

Lemma likePrefix_items p : like_items (likePrefix p) = Some (map LikeChar p).
Proof.
  unfold likePrefix. induction p as [|c p IH]; [done|]. cbn [map concat].
  destruct (Z.eqb_spec c 92) as [->|H1]; [by cbn; rewrite IH|].
  destruct (Z.eqb_spec c 37) as [->|H2]; [by cbn; rewrite IH|].
  destruct (Z.eqb_spec c 95) as [->|H3]; [by cbn; rewrite IH|]. cbn.
  rewrite (proj2 (Z.eqb_neq c 92)), (proj2 (Z.eqb_neq c 37)), (proj2 (Z.eqb_neq c 95)) by done. by rewrite IH.
Qed.

Lemma like_run_any s : like_run [LikeAny] s = true.
Proof. induction s as [|c s IH]; [done|]. cbn in *. by rewrite IH. Qed.

(** The metacharacters of the prefix stand for themselves; only the case of ASCII letters is lost. *)
Lemma in_prefix_spec p s : in_prefix p s = starts_with (map ascii_lower p) (map ascii_lower s).
Proof.
  unfold in_prefix, like. rewrite (like_items_app _ [37] _ (likePrefix_items p)). cbn [like_items Z.eqb fmap option_fmap option_map mbind option_bind].
  change (like_run (map LikeChar p ++ [LikeAny]) s = starts_with (map ascii_lower p) (map ascii_lower s)).
  revert s. induction p as [|c p IH]; intros s; [by rewrite like_run_any|]. cbn. destruct s as [|d s]; [done|]. cbn. by rewrite IH.
Qed.

Lemma in_prefix_starts p s : starts_with p s = true -> in_prefix p s = true.
Proof.
  rewrite in_prefix_spec, !starts_with_spec. intros [t ->]. exists (map ascii_lower t). apply map_app.
Qed.

(** ** Two servers, one view *)

(** Two agents; [other] decides what the second one holds. *)
Definition sample_world (other : bool) : World unit unit Z unit unit unit unit :=
  {| hosted := {| a_id := js "ada"; shown := () |} :: (if other then [{| a_id := js "bob"; shown := () |}] else []);
     states := [];
     sessions := {| se_agent := js "ada"; se_key := js "api:user:1"; se_info := 5 |} ::
       (if other then [{| se_agent := js "ada"; se_key := js "slack:room:9"; se_info := 7 |}] else []);
     messages := {| me_agent := js "ada"; me_session := js "api:user:1"; me_info := () |} ::
       (if other then [{| me_agent := js "ada"; me_session := js "slack:room:9"; me_info := () |}] else []);
     turns := {| t_id := js "t1"; t_row := 1; t_agent := js "ada"; t_session := js "api:user:1"; t_running := true; t_info := () |} ::
       (if other then [{| t_id := js "t2"; t_row := 2; t_agent := js "bob"; t_session := js "api:User:1"; t_running := true; t_info := () |}] else []);
     passages := [];
     approvals := if other then [{| ap_id := js "q1"; ap_agent := js "ada"; ap_session := js "slack:room:9"; ap_info := () |}] else [];
     buffers := [js "t1"]; running := [js "t1"; js "t2"]; heads := fun _ => ∅; on_disk := fun _ => None |}.

(** A key of the sessions that begin with [api:user:], of some agents or of all. *)
Definition narrow (agents : option (list ustring)) : Principal :=
  PKey (js "k1") (js "shop")
    (Some {| s_agents := agents; s_sessions := Some (js "api:user:*"); s_can := None; s_participant := None |}).

Lemma scope_noninterference_witness :
  (narrow (Some [js "ada"]) <> PClaim /\
   same_view (GetTurn (js "ada") (js "t2")) (narrow (Some [js "ada"])) (sample_world true) (sample_world false)) /\
  read (GetTurn (js "ada") (js "t2")) (narrow (Some [js "ada"])) (sample_world true) =
  read (GetTurn (js "ada") (js "t2")) (narrow (Some [js "ada"])) (sample_world false).
Proof.
  assert (narrow (Some [js "ada"]) <> PClaim) as Hp by done.
  assert (same_view (GetTurn (js "ada") (js "t2")) (narrow (Some [js "ada"])) (sample_world true) (sample_world false)) as Hv.
  { split; [vm_compute; reflexivity..| |]; by intros. }
  assert (NoDup (map t_id (turns (sample_world true))) /\ NoDup (map t_id (turns (sample_world false)))) as [H1 H2].
  { split; apply (bool_decide_eq_true_1 (NoDup _)); by vm_compute. }
  split; [by split|].
  exact (scope_noninterference (narrow (Some [js "ada"])) (GetTurn (js "ada") (js "t2")) (sample_world true) (sample_world false) Hp Hv H1 H2).
Defined.

Lemma scope_confines_writes_witness :
  NoDup (map ap_id (approvals (sample_world true))) /\
  beyond (narrow None) (write (ClearSession (js "ada") (js "api:user:1") (fun x => x + 1)) (narrow None) (sample_world true)) =
  beyond (narrow None) (sample_world true).
Proof.
  assert (NoDup (map ap_id (approvals (sample_world true)))) as Hn by (cbn; apply NoDup_singleton).
  split; [exact Hn|].
  exact (proj1 (scope_confines_writes (narrow None) (ClearSession (js "ada") (js "api:user:1") (fun x => x + 1)) (sample_world true)
    ltac:(discriminate) Hn)).
Defined.

(** The write did something within reach. *)
Example cleared : messages (write (ClearSession (js "ada") (js "api:user:1") (fun x => x + 1)) (narrow None) (sample_world true)) =
  [{| me_agent := js "ada"; me_session := js "slack:room:9"; me_info := () |}].
Proof. reflexivity. Qed.

(** ** What the checks let through *)

(** A key narrowed to one agent, through that agent's path, reads, follows and stops a turn of another
    agent whose session it names. *)
Definition agent_key : Principal :=
  PKey (js "k2") (js "ada only") (Some {| s_agents := Some [js "ada"]; s_sessions := None; s_can := None; s_participant := None |}).

Lemma turn_of_another_agent :
  reachesAgent agent_key (js "bob") = false /\
  read (GetTurn (js "ada") (js "t2")) agent_key (sample_world true) =
    TurnReply {| t_id := js "t2"; t_row := 2; t_agent := js "bob"; t_session := js "api:User:1"; t_running := true; t_info := () |} /\
  read (GetTurn (js "ada") (js "t2")) agent_key (sample_world false) = TurnNotFound (js "t2") /\
  running (write (StopTurn (js "ada") (js "t2")) agent_key (sample_world true)) = [js "t1"].
Proof. by vm_compute. Qed.

(** A page of turns shows a session the key does not reach when only the case of its letters differs. *)
Lemma case_of_a_prefix :
  let p := PKey (js "k3") (js "") (Some {| s_agents := None; s_sessions := Some (js "api:user:"); s_can := None; s_participant := None |}) in
  reachesSession p (js "api:User:1") = false /\
  read (PageTurns (js "bob") None None) p (sample_world true) =
    TurnsReply [{| t_id := js "t2"; t_row := 2; t_agent := js "bob"; t_session := js "api:User:1"; t_running := true; t_info := () |}] None /\
  read (GetTurn (js "bob") (js "t2")) p (sample_world true) = TurnNotFound (js "t2").
Proof. by vm_compute. Qed.
