(* ===== verification/Owner.v ===== *)
(** * Whose conversation a turn runs in: [loop/sender.ts], [runtime/owner.ts] and the session resolution of [runtime/agent.ts]

    A turn names a session; [sessions.scope] may move a person's turns, from every surface, into one
    conversation. Who that person is, is decided by id and by the channel identities an embedder wrote
    down. The rows of [session_heads] are a map from a base to the key that is its conversation now. *)
From S2P Require Import Prelude UString SessionKey Inbox.
Local Open Scope Z_scope.

(** ** Senders *)

Inductive SenderKind := UserKind | AgentKind.
#[export] Instance SenderKind_eq_dec : EqDecision SenderKind.
Proof. solve_decision. Defined.

Record TurnSender := { s_id : ustring; s_name : option ustring; s_kind : SenderKind; s_room : option ustring }.

(** [true] is ["untrusted"]. *)
Definition trustOfSender (from : option TurnSender) : bool :=
  match from with
  | None => false
  | Some s => bool_decide (s_kind s = AgentKind) || bool_decide (is_Some (s_room s))
  end.

Record ActingParticipant := { p_id : ustring; via_channel : bool; handles : list ustring; onBehalfOf : option ustring }.

Definition participantOf (from : option TurnSender) : option ActingParticipant :=
  match from with
  | Some s =>
      if bool_decide (s_kind s = UserKind) then
        Some {| p_id := s_id s; via_channel := false; handles := []; onBehalfOf := None |}
      else None
  | None => None
  end.

(** ** Who a sender is *)

(** Absent [channelIds] are none. *)
Record Person := { person_id : ustring; channelIds : list ustring }.

Definition entry_matches (type : ustring) (seen : list ustring) (entry : ustring) : bool :=
  match cut_colon entry with
  | None => false
  | Some (t, value) =>
      bool_decide (t = type) && negb (bool_decide (value = [42])) && bool_decide (normaliseSender value ∈ seen)
  end.

Definition matchesChannelIds (ids : list ustring) (p : ActingParticipant) : bool :=
  if is_nil ids then false
  else if bool_decide (p_id p ∈ ids) then true
  else if negb (via_channel p) then false
  else
    match cut_colon (p_id p) with
    | None => false
    | Some (type, rest) => existsb (entry_matches type (map normaliseSender (rest :: handles p))) ids
    end.

Definition isOwner (assignment : Person) (p : ActingParticipant) : bool :=
  match onBehalfOf p with
  | Some _ => false
  | None => bool_decide (p_id p = person_id assignment) || matchesChannelIds (channelIds assignment) p
  end.

Definition resolveParticipant (participants : list Person) (p : ActingParticipant) : option ustring :=
  match onBehalfOf p with
  | Some _ => None
  | None =>
      if existsb (fun known => bool_decide (person_id known = p_id p)) participants then Some (p_id p)
      else person_id <$> List.find (fun known => matchesChannelIds (channelIds known) p) participants
  end.

(** ** The session of a turn *)

Inductive SessionScope := ChannelPeer | OwnerScope | PeerScope.
#[export] Instance SessionScope_eq_dec : EqDecision SessionScope.
Proof. solve_decision. Defined.

(** What [resolveSessionKey] reads off a turn. *)
Record SessionTurn := {
  t_from : option TurnSender; t_participant : option ActingParticipant; t_source : option ustring; t_peerAsk : bool }.

(** What the store holds of an agent. *)
Record People := { assignment : option Person; participants : list Person; heads : gmap (list Z) (list Z) }.

Definition KEPT_CHANNELS : list ustring := map js ["room"; "subagent"; "handoff"; "schedule"; "ask"]%string.

Definition owner_base (id : ustring) : ustring := js "owner:" ++ id.
Definition peer_base (id : ustring) : ustring := js "peer:" ++ id.

(** [turn.participant ?? participantOf(turn.from)]. *)
Definition acting (turn : SessionTurn) : option ActingParticipant :=
  match t_participant turn with Some p => Some p | None => participantOf (t_from turn) end.

Definition personBase (turn : SessionTurn) (scope : SessionScope) (w : People) : option ustring :=
  match assignment w with
  | None => None
  | Some a =>
      match acting turn with
      | None => Some (owner_base (person_id a))
      | Some p =>
          if isOwner a p then Some (owner_base (person_id a))
          else if bool_decide (scope = PeerScope) then peer_base <$> resolveParticipant (participants w) p
          else None
      end
  end.

(** [requested.slice(0, Math.max(requested.indexOf(":"), 0))]. *)
Definition channel_of (key : ustring) : ustring := match cut_colon key with Some (c, _) => c | None => [] end.

Definition is_agent (from : option TurnSender) : bool :=
  match from with Some s => bool_decide (s_kind s = AgentKind) | None => false end.

Definition from_schedule (source : option ustring) : bool :=
  match source with Some s => starts_with (js "schedule:") s | None => false end.

(** [sessions.head]. *)
Definition head (base : ustring) (w : People) : ustring := default base (heads w !! base).

Definition resolveSessionKey (scope : SessionScope) (requested : ustring) (turn : SessionTurn) (w : People) : ustring :=
  if bool_decide (scope = ChannelPeer) then requested
  else if t_peerAsk turn || is_agent (t_from turn) then requested
  else if from_schedule (t_source turn) then requested
  else if bool_decide (channel_of requested ∈ KEPT_CHANNELS) then requested
  else
    match personBase turn scope w with
    | None => requested
    | Some base =>
        if (bool_decide (channel_of requested = js "owner") || bool_decide (channel_of requested = js "peer")) &&
           negb (bool_decide (requested = base))
        then requested
        else head base w
    end.

Definition with_heads (m : gmap (list Z) (list Z)) (w : People) : People :=
  {| assignment := assignment w; participants := participants w; heads := m |}.

(** [sessions.rotate]; the result is the new key and the one it replaces. *)
Definition rotate (base key : ustring) (w : People) : ustring * People := (head base w, with_heads (<[base:=key]> (heads w)) w).

Definition rotateSession (scope : SessionScope) (turn : SessionTurn) (bytes : list Z) (w : People) : option (ustring * ustring) * People :=
  if bool_decide (scope = ChannelPeer) || is_agent (t_from turn) then (None, w)
  else
    match personBase turn scope w with
    | None => (None, w)
    | Some base =>
        let sessionKey := base ++ [126] ++ keySymbols bytes 6 in
        let '(previous, w) := rotate base sessionKey w in
        (Some (sessionKey, previous), w)
    end.

(** Written by rotations alone, the heads are rotations of their bases, which are a person's. *)
Definition heads_ok (w : People) : Prop :=
  forall base key, heads w !! base = Some key -> isConversationOf key base = true /\ key <> base.

Lemma rotate_heads_ok scope turn bytes w : heads_ok w -> heads_ok (rotateSession scope turn bytes w).2.
Proof.
  intros H. unfold rotateSession. destruct (_ || _); [done|]. destruct (personBase turn scope w) as [b|]; [|done].
  intros base key Hk. cbn in Hk. destruct (decide (base = b)) as [->|]; [|rewrite lookup_insert_ne in Hk by done; by apply H].
  rewrite lookup_insert_eq in Hk. injection Hk as <-. split; [apply rotation_recognised|].
  intros E. apply (f_equal length) in E. rewrite length_app in E. cbn in E. lia.
Qed.

Lemma head_conversation base w : heads_ok w -> isConversationOf (head base w) base = true.
Proof.
  intros H. unfold head. destruct (heads w !! base) as [k|] eqn:E; [by apply (H base k)|]. apply conversation_cases. by left.
Qed.

Lemma channel_of_app a b : ~ In 58 a -> channel_of (a ++ 58 :: b) = a.
Proof. intros H. unfold channel_of. by rewrite cut_colon_app. Qed.

Lemma personBase_shape turn scope w base : personBase turn scope w = Some base ->
  (exists a, assignment w = Some a /\ base = owner_base (person_id a)) \/ (scope = PeerScope /\ exists q, base = peer_base q).
Proof.
  unfold personBase. destruct (assignment w) as [a|]; [|done]. destruct (acting turn) as [p|]; [|intros [= <-]; left; by exists a].
  destruct (isOwner a p); [intros [= <-]; left; by exists a|]. case_bool_decide; [|done].
  destruct (resolveParticipant _ p) as [q|]; [|done]. intros [= <-]. right. split; [done|]. by exists q.
Qed.

Lemma conversation_channel key base c rest : base = c ++ 58 :: rest -> ~ In 58 c -> isConversationOf key base = true -> channel_of key = c.
Proof.
  intros -> Hc H. apply conversation_cases in H as [->|(s & -> & _)]; [by apply channel_of_app|].
  rewrite <- app_assoc. by apply channel_of_app.
Qed.

Lemma base_channel turn scope w base key : personBase turn scope w = Some base -> isConversationOf key base = true ->
  channel_of key = js "owner" \/ channel_of key = js "peer".
Proof.
  intros Hb Hk. apply personBase_shape in Hb as [(a & _ & ->)|(_ & q & ->)]; [left|right];
    (eapply conversation_channel; [reflexivity| |exact Hk]); vm_compute; lia.
Qed.

(** The owner's conversation is nobody else's. *)
Lemma bases_apart key p q : isConversationOf key (owner_base p) = true -> isConversationOf key (peer_base q) = true -> False.
Proof.
  intros H1 H2. assert (channel_of key = js "owner") as E1 by (eapply conversation_channel; [reflexivity|vm_compute; lia|exact H1]).
  assert (channel_of key = js "peer") as E2 by (eapply conversation_channel; [reflexivity|vm_compute; lia|exact H2]).
  rewrite E1 in E2. vm_compute in E2. discriminate.
Qed.

(** The four ways a request is kept before anyone is looked up. *)
Ltac kept_cases :=
  destruct (bool_decide (_ = ChannelPeer)); [done|]; destruct (t_peerAsk _ || _); [done|]; destruct (from_schedule _); [done|];
  destruct (bool_decide (_ ∈ KEPT_CHANNELS)); [done|].

(** A request that keeps its session whoever makes it: a peer's ask, an agent's turn, a schedule's, a
    session of one of the kept channels, or a person's session that is not the base itself. *)
Definition stays (turn : SessionTurn) (requested base : ustring) : Prop :=
  t_peerAsk turn = true \/ is_agent (t_from turn) = true \/ from_schedule (t_source turn) = true \/
  channel_of requested ∈ KEPT_CHANNELS \/
  ((channel_of requested = js "owner" \/ channel_of requested = js "peer") /\ requested <> base).

Lemma resolve_base scope requested turn w base : scope <> ChannelPeer -> personBase turn scope w = Some base ->
  (stays turn requested base -> resolveSessionKey scope requested turn w = requested) /\
  (~ stays turn requested base -> resolveSessionKey scope requested turn w = head base w).
Proof.
  intros Hs Hb. unfold resolveSessionKey, stays. rewrite (bool_decide_eq_false_2 (scope = ChannelPeer)) by done. rewrite Hb.
  destruct (t_peerAsk turn); [split; [done|tauto]|]. destruct (is_agent (t_from turn)); [split; [done|tauto]|]. cbn [orb].
  destruct (from_schedule (t_source turn)); [split; [done|tauto]|].
  case_bool_decide as Hk; [split; [done|tauto]|].
  repeat case_bool_decide; cbn; (split; [try done; intros [?|[?|[?|[?|[[?|?] ?]]]]]; done|tauto]).
Qed.

(** C22. One conversation per person, and the owner's is the owner's. Under a scope that moves turns, a
    turn of the agent's owner, or of nobody in particular, runs in the owner's present conversation,
    whatever key it asked for, unless the request stays where it is: a peer's ask, another agent's
    turn, a schedule's, a room's, a subagent's, a handoff's, a schedule's or an ask's session, and an
    "owner" or "peer" session other than the owner's base. Where turns of other people move as well
    (scope "peer"), one of a registered person runs in theirs with the same exceptions. A turn of
    anybody else runs in a conversation of the owner only if it asked for that very key; and a session
    that was resolved resolves to itself. *)
Theorem conversation_of_person (scope : SessionScope) (requested : ustring) (turn : SessionTurn) (w : People) (a : Person)
  (Hs : scope <> ChannelPeer) (Ha : assignment w = Some a) (Hh : heads_ok w) :
  let key := resolveSessionKey scope requested turn w in
  let own := match acting turn with None => true | Some p => isOwner a p end in
  (own = true -> (stays turn requested (owner_base (person_id a)) -> key = requested) /\
     (~ stays turn requested (owner_base (person_id a)) -> key = head (owner_base (person_id a)) w)) /\
  (forall p q, acting turn = Some p -> own = false -> scope = PeerScope -> resolveParticipant (participants w) p = Some q ->
     (stays turn requested (peer_base q) -> key = requested) /\ (~ stays turn requested (peer_base q) -> key = head (peer_base q) w)) /\
  (own = false -> isConversationOf key (owner_base (person_id a)) = true -> key = requested) /\
  resolveSessionKey scope key turn w = key.
Proof.
  cbn. set (key := resolveSessionKey scope requested turn w).
  assert (forall base, personBase turn scope w = Some base -> resolveSessionKey scope (head base w) turn w = head base w) as Hidem.
  { intros base Hb. unfold resolveSessionKey. rewrite Hb. pose proof (head_conversation base w Hh) as Hc.
    kept_cases. destruct (base_channel _ _ _ _ _ Hb Hc) as [E|E]; rewrite E.
    all: rewrite ?(bool_decide_eq_true_2 (js "owner" = js "owner")), ?(bool_decide_eq_true_2 (js "peer" = js "peer")), ?orb_true_r by done; cbn [orb andb].
    all: unfold head; destruct (heads w !! base) as [k|] eqn:Ek; cbn; [|by case_bool_decide].
    all: case_bool_decide as Ekb; [by destruct (Hh base k Ek)|done]. }
  split_and!.
  - intros Hown. apply resolve_base; [done|]. unfold personBase. rewrite Ha. destruct (acting turn); [by rewrite Hown|done].
  - intros p q Hp Hown -> Hq. apply resolve_base; [done|]. unfold personBase. rewrite Ha, Hp in *. by rewrite Hown, bool_decide_eq_true_2, Hq.
  - intros Hown Hc. revert Hc. unfold key, resolveSessionKey. kept_cases.
    destruct (personBase turn scope w) as [base|] eqn:Hb; [|done]. destruct (_ && _); [done|]. intros Hc.
    assert (exists q, base = peer_base q) as [q ->].
    { unfold personBase in Hb. rewrite Ha in Hb. destruct (acting turn) as [p|]; [|done]. rewrite Hown in Hb. case_bool_decide; [|done].
      destruct (resolveParticipant _ p) as [q|]; [|done]. injection Hb as <-. by exists q. }
    exfalso. eapply bases_apart; [exact Hc|]. by apply head_conversation.
  - destruct (decide (key = requested)) as [E|Hne]; [by rewrite E at 1|].
    assert (exists base, personBase turn scope w = Some base /\ key = head base w) as (base & Hb & ->); [|by apply Hidem].
    revert Hne. unfold key, resolveSessionKey. kept_cases.
    destruct (personBase turn scope w) as [base|]; [|done]. destruct (_ && _); [done|]. intros _. by exists base.
Qed.

(** ** In use *)

Definition ada : Person := {| person_id := js "user:ada"; channelIds := [js "telegram:@Ada_L"] |}.
Definition household : People :=
  {| assignment := Some ada; participants := [ada; {| person_id := js "user:bob"; channelIds := [js "whatsapp:+880 1"] |}];
     heads := {[js "owner:user:ada" := js "owner:user:ada~000001"]} |}.
Definition telegram (id : string) (hs : list string) : SessionTurn :=
  {| t_from := None; t_participant := Some {| p_id := js id; via_channel := true; handles := map js hs; onBehalfOf := None |};
     t_source := None; t_peerAsk := false |}.

Lemma conversation_of_person_witness :
  heads_ok household /\
  resolveSessionKey OwnerScope (js "telegram:42") (telegram "telegram:42" ["@ada_l"%string]) household = js "owner:user:ada~000001".
Proof.
  assert (heads_ok household) as H.
  { intros base key Hk. unfold household in Hk. cbn [heads] in Hk. apply lookup_singleton_Some in Hk as [<- <-]. by split; vm_compute. }
  split; [exact H|].
  refine (proj2 (proj1 (conversation_of_person OwnerScope (js "telegram:42") (telegram "telegram:42" ["@ada_l"%string]) household ada
    ltac:(discriminate) eq_refl H) eq_refl) _).
  assert (bool_decide (channel_of (js "telegram:42") ∈ KEPT_CHANNELS) = false /\ channel_of (js "telegram:42") = js "telegram") as [Hk Hc]
    by (by split; vm_compute).
  apply bool_decide_eq_false in Hk. unfold stays. rewrite Hc in *. intros [?|[?|[?|[?|[[?|?] _]]]]]; done.
Defined.

(** A stranger stays where they are; another person of the household has a conversation of their own
    under [peer]. *)
Example others :
  resolveSessionKey PeerScope (js "telegram:7") (telegram "telegram:7" []) household = js "telegram:7" /\
  resolveSessionKey PeerScope (js "whatsapp:8801") (telegram "whatsapp:8801" []) household = js "peer:user:bob" /\
  (rotateSession PeerScope (telegram "whatsapp:8801" []) [1; 2; 3; 4; 5; 6] household).1 =
    Some (js "peer:user:bob~123456", js "peer:user:bob").
Proof. by vm_compute. Qed.
