(* ===== verification/Serving.v ===== *)
(** * Turns in flight: the slots and queues of [runtime/agent.ts], the reload of [runtime/runtime.ts]

    A turn asks the governor of an agent for a slot, waits behind the turns of its session, and gives
    the slot back. A reload replaces the instance that serves an agent, at once when it is idle, else
    once its turns are over, with new turns held for the replacement. The asynchronous methods are cut
    at their [await]s: [turns] are the calls of [admit] and [send], [ops] the calls of [reload],
    [dispose] and [adopt], each named by its position, and a step resumes one of them in any order.
    One agent without a team; what a turn does, and what loading a manifest does, is left out. *)
From S2P Require Import Prelude UString.
Local Open Scope Z_scope.

(** ** Data *)

(** [reloadHoldMs] defaults to 30000 where it is read. *)
Record Limits := { maxConcurrentTurns : option Z; tokens : bool; reloadHoldMs : option Z }.

(** [successor] and [onIdle] name the reload whose promise and callback they are. *)
Record Instance := {
  limits : Limits; inFlight : Z; successor : option nat; onIdle : option nat; holding : bool; heldTurns : Z;
  sessionChains : gmap (list Z) nat }.

Definition create (l : Limits) : Instance :=
  {| limits := l; inFlight := 0; successor := None; onIdle := None; holding := false; heldTurns := 0;
     sessionChains := ∅ |}.

(** What [send] was asked: the session, and whether it is final ([sessionResolved]). *)
Record Going := { requested : ustring; sessionResolved : bool }.

Inductive Outcome := Ran | AtCapacity | BudgetExhausted | Released | Failed.

(** A turn: the meter is read for it; it holds a ticket, in its caller's hands ([None]) or in those of
    [send]; the ticket is for the successor, or [send] awaits it; its session is resolved; it waits
    behind [prev]; it runs; it is over and its slot is still taken; done; or the meter could not be
    read, and its slot is never given back. *)
Inductive Turn :=
| Metering (i : nat) (go : option Going)
| Slotted (i : nat) (go : option Going)
| Deferred (o : nat) (go : option Going)
| Awaiting (o : nat) (go : Going)
| Resolving (i : nat) (go : Going)
| Chained (i : nat) (s : ustring) (prev : option nat)
| Running (i : nat) (s : ustring)
| Ended (i : nat) (s : ustring)
| Done (out : Outcome)
| Lost (i : nat).

(** The three [await]s of [replace]. *)
Inductive Stage := STrial | SDispose | SAdopt.

(** A reload tries the manifest, is pending on the turns of [i] (with its timer armed or not) and
    swaps [i]; the other calls replace an idle agent, dispose one or adopt one. *)
Inductive Op :=
| Trying (i : nat)
| Pending (i : nat) (armed : bool)
| Swapping (i : nat) (st : Stage)
| Replacing (st : Stage)
| Disposing
| Adopting
| Finished.

Record Lined := { l_instance : nat; l_session : ustring; l_turn : nat }.

(** [settled] holds the promises of reloads that are settled: with an instance, or rejected. [lined]
    and [begun] are for the reader. *)
Record Runtime := {
  instances : list Instance; turns : list Turn; ops : list Op; hosted : option nat; reloads : option nat;
  settled : gmap nat (option nat); lined : list Lined; begun : list Lined }.

(** ** Field updates *)

Definition with_instances (l : list Instance) (r : Runtime) : Runtime :=
  {| instances := l; turns := turns r; ops := ops r; hosted := hosted r; reloads := reloads r; settled := settled r;
     lined := lined r; begun := begun r |}.
Definition with_turns (l : list Turn) (r : Runtime) : Runtime :=
  {| instances := instances r; turns := l; ops := ops r; hosted := hosted r; reloads := reloads r; settled := settled r;
     lined := lined r; begun := begun r |}.
Definition with_ops (l : list Op) (r : Runtime) : Runtime :=
  {| instances := instances r; turns := turns r; ops := l; hosted := hosted r; reloads := reloads r; settled := settled r;
     lined := lined r; begun := begun r |}.
Definition with_hosted (h : option nat) (r : Runtime) : Runtime :=
  {| instances := instances r; turns := turns r; ops := ops r; hosted := h; reloads := reloads r; settled := settled r;
     lined := lined r; begun := begun r |}.
Definition with_reloads (o : option nat) (r : Runtime) : Runtime :=
  {| instances := instances r; turns := turns r; ops := ops r; hosted := hosted r; reloads := o; settled := settled r;
     lined := lined r; begun := begun r |}.
Definition with_settled (m : gmap nat (option nat)) (r : Runtime) : Runtime :=
  {| instances := instances r; turns := turns r; ops := ops r; hosted := hosted r; reloads := reloads r; settled := m;
     lined := lined r; begun := begun r |}.
Definition note_lined (x : Lined) (r : Runtime) : Runtime :=
  {| instances := instances r; turns := turns r; ops := ops r; hosted := hosted r; reloads := reloads r; settled := settled r;
     lined := lined r ++ [x]; begun := begun r |}.
Definition note_begun (x : Lined) (r : Runtime) : Runtime :=
  {| instances := instances r; turns := turns r; ops := ops r; hosted := hosted r; reloads := reloads r; settled := settled r;
     lined := lined r; begun := begun r ++ [x] |}.

Definition on_instance (i : nat) (f : Instance -> Instance) (r : Runtime) : Runtime := with_instances (alter f i (instances r)) r.
Definition set_turn (n : nat) (t : Turn) (r : Runtime) : Runtime := with_turns (<[n:=t]> (turns r)) r.
Definition set_op (o : nat) (x : Op) (r : Runtime) : Runtime := with_ops (<[o:=x]> (ops r)) r.
Definition settle_promise (o : nat) (j : option nat) (r : Runtime) : Runtime := with_settled (<[o:=j]> (settled r)) r.

Definition with_inFlight (f : Z -> Z) (a : Instance) : Instance :=
  {| limits := limits a; inFlight := f (inFlight a); successor := successor a; onIdle := onIdle a; holding := holding a;
     heldTurns := heldTurns a; sessionChains := sessionChains a |}.
Definition with_chains (f : gmap (list Z) nat -> gmap (list Z) nat) (a : Instance) : Instance :=
  {| limits := limits a; inFlight := inFlight a; successor := successor a; onIdle := onIdle a; holding := holding a;
     heldTurns := heldTurns a; sessionChains := f (sessionChains a) |}.
Definition one_held (a : Instance) : Instance :=
  {| limits := limits a; inFlight := inFlight a; successor := successor a; onIdle := onIdle a; holding := holding a;
     heldTurns := heldTurns a + 1; sessionChains := sessionChains a |}.

(** ** Retiring an instance *)

Definition retireInto (o : nat) (a : Instance) : Instance :=
  {| limits := limits a; inFlight := inFlight a; successor := Some o; onIdle := Some o; holding := holding a;
     heldTurns := heldTurns a; sessionChains := sessionChains a |}.

Definition holdNewTurns (a : Instance) : Instance :=
  {| limits := limits a; inFlight := inFlight a; successor := successor a; onIdle := onIdle a;
     holding := match successor a with Some _ => true | None => holding a end;
     heldTurns := heldTurns a; sessionChains := sessionChains a |}.

Definition cancelRetire (a : Instance) : Instance :=
  {| limits := limits a; inFlight := inFlight a; successor := None; onIdle := None; holding := false;
     heldTurns := heldTurns a; sessionChains := sessionChains a |}.

(** [reload]'s [complete], up to the trial of [replace]. *)
Definition complete (o : nat) (r : Runtime) : Runtime :=
  match ops r !! o with
  | Some (Pending i _) =>
      if bool_decide (reloads r = Some o) then
        set_op o (Swapping i STrial) (on_instance i holdNewTurns (with_reloads None r))
      else r
  | _ => r
  end.

(** [#settle]: the callback asks whether the agents of its reload are idle. *)
Definition settle (i : nat) (r : Runtime) : Runtime :=
  let r := on_instance i (with_inFlight (fun n => n - 1)) r in
  match instances r !! i with
  | Some a =>
      if inFlight a =? 0 then
        match onIdle a with Some o => complete o r | None => r end
      else r
  | None => r
  end.

(** ** The governor *)

(** [#deferred]. *)
Definition deferred (a : Instance) : option nat := if holding a then successor a else None.

Definition at_capacity (a : Instance) : bool :=
  match maxConcurrentTurns (limits a) with Some cap => cap <=? inFlight a | None => false end.

(** [admit], for the turn [n]: held, without a slot, or with one, while the meter is read where there
    is a budget. *)
Definition ask_slot (i : nat) (n : nat) (go : option Going) (r : Runtime) : Runtime :=
  match instances r !! i with
  | None => set_turn n (Done Failed) r
  | Some a =>
      match deferred a with
      | Some o => set_turn n (Deferred o go) (on_instance i one_held r)
      | None =>
          if at_capacity a then set_turn n (Done AtCapacity) r
          else set_turn n (if tokens (limits a) then Metering i go else Slotted i go)
                 (on_instance i (with_inFlight (fun n => n + 1)) r)
      end
  end.

(** ** The queue of a session *)

(** [#serialised] up to the work. *)
Definition enqueue (i : nat) (n : nat) (s : ustring) (r : Runtime) : Runtime :=
  match instances r !! i with
  | None => set_turn n (Done Failed) r
  | Some a =>
      note_lined {| l_instance := i; l_session := s; l_turn := n |}
        (set_turn n (Chained i s (sessionChains a !! s)) (on_instance i (with_chains (fun m => <[s:=n]> m)) r))
  end.

(** [send] with a ticket for a slot: consumed, then the session is resolved unless it is final. *)
Definition go_on (i : nat) (n : nat) (g : Going) (r : Runtime) : Runtime :=
  if sessionResolved g then enqueue i n (requested g) r else set_turn n (Resolving i g) r.

Definition over (t : option Turn) : bool :=
  match t with Some (Ended _ _) | Some (Done Ran) => true | _ => false end.

(** ** Calls *)

(** What the store answers a turn that goes on: whether the budget is used up, and the session the
    request resolves to; or it throws. *)
Record Reply := { exhausted : bool; resolved : ustring; throws : bool }.

Definition resume_turn (n : nat) (x : Reply) (r : Runtime) : option Runtime :=
  match turns r !! n with
  | Some (Metering i go) =>
      Some (if throws x then set_turn n (Lost i) r
            else if exhausted x then settle i (set_turn n (Done BudgetExhausted) r)
            else set_turn n (Slotted i go) r)
  | Some (Slotted i (Some g)) => Some (go_on i n g r)
  | Some (Deferred o (Some g)) => Some (set_turn n (Awaiting o g) r)
  | Some (Awaiting o g) =>
      match settled r !! o with
      | Some (Some j) => Some (ask_slot j n (Some g) r)
      | Some None => Some (set_turn n (Done Failed) r)
      | None => None
      end
  | Some (Resolving i g) =>
      Some (if throws x then settle i (set_turn n (Done Failed) r) else enqueue i n (resolved x) r)
  | Some (Chained i s prev) =>
      if match prev with None => true | Some m => over (turns r !! m) end
      then Some (note_begun {| l_instance := i; l_session := s; l_turn := n |} (set_turn n (Running i s) r)) else None
  | Some (Running i s) => Some (set_turn n (Ended i s) r)
  | Some (Ended i s) =>
      Some (settle i (set_turn n (Done Ran)
        (on_instance i (with_chains (fun m => if bool_decide (m !! s = Some n) then delete s m else m)) r)))
  | _ => None
  end.

(** The caller of [admit] uses its ticket, or gives it back; either does nothing the second time. *)
Definition send (n : nat) (g : Going) (r : Runtime) : Runtime :=
  match turns r !! n with
  | Some (Slotted i None) => go_on i n g r
  | Some (Deferred o None) => set_turn n (Awaiting o g) r
  | _ => r
  end.

Definition release (n : nat) (r : Runtime) : Runtime :=
  match turns r !! n with
  | Some (Slotted i None) => settle i (set_turn n (Done Released) r)
  | Some (Deferred o None) => set_turn n (Done Released) r
  | _ => r
  end.

(** A surface asks for a slot on an instance it holds, hosted still or not. *)
Definition ask (i : nat) (go : option Going) (r : Runtime) : Runtime :=
  ask_slot i (length (turns r)) go (with_turns (turns r ++ [Done Failed]) r).

(** ** Reload, dispose, adopt *)

Definition running (i : nat) (r : Runtime) : Z := match instances r !! i with Some a => inFlight a | None => 0 end.

(** [reload] up to its first [await]; without a source [replace] throws. *)
Definition reload (r : Runtime) : Runtime :=
  match reloads r with
  | Some _ => r
  | None =>
      match hosted r with
      | None => r
      | Some i => with_ops (ops r ++ [if running i r =? 0 then Replacing STrial else Trying i]) r
      end
  end.

(** After the trial: the instance is retired, and the timer armed. *)
Definition register (o : nat) (i : nat) (r : Runtime) : Runtime :=
  let ms := default 30000 (a ← (h ← hosted r; instances r !! h); reloadHoldMs (limits a)) in
  let r := on_instance i (retireInto o) r in
  let r := if ms =? 0 then on_instance i holdNewTurns r else r in
  with_reloads (Some o) (set_op o (Pending i (negb (ms =? 0))) r).

(** [pending.abandon]. *)
Definition abandon (r : Runtime) : Runtime :=
  match reloads r with
  | Some o => settle_promise o None (set_op o Finished (with_reloads None r))
  | None => r
  end.

(** [dispose] up to its first [await]: nothing to do, a refusal, or under way. *)
Definition dispose (r : Runtime) : Runtime * option bool :=
  match hosted r with
  | None => (r, Some false)
  | Some i => let r := abandon r in (r, if 0 <? running i r then None else Some true)
  end.

(** [adopt], once it is loaded: two instances of one id are refused. *)
Definition adopt (l : Limits) (r : Runtime) : option Runtime :=
  match hosted r with
  | Some _ => None
  | None => Some (with_hosted (Some (length (instances r))) (with_instances (instances r ++ [create l]) r))
  end.

(** [complete] once [replace] threw: an instance that is still hosted goes on. *)
Definition fail_swap (o i : nat) (r : Runtime) : Runtime :=
  set_op o Finished
    (if bool_decide (hosted r = Some i) then settle_promise o (Some i) (on_instance i cancelRetire r)
     else settle_promise o None r).

(** An [await] of a call is over; [ok] where what was loaded loads. *)
Definition resume_op (o : nat) (ok : bool) (l : Limits) (r : Runtime) : option Runtime :=
  match ops r !! o with
  | Some (Trying i) => Some (if ok then register o i r else set_op o Finished r)
  | Some (Swapping i STrial) =>
      Some (if ok then
              match dispose r with
              | (r, None) => fail_swap o i r
              | (r, Some true) => set_op o (Swapping i SDispose) r
              | (r, Some false) => set_op o (Swapping i SAdopt) r
              end
            else fail_swap o i r)
  | Some (Swapping i SDispose) => Some (set_op o (Swapping i SAdopt) (with_hosted None r))
  | Some (Swapping i SAdopt) =>
      Some (match (if ok then adopt l r else None) with
            | Some r => set_op o Finished (settle_promise o (hosted r) r)
            | None => fail_swap o i r
            end)
  | Some (Replacing STrial) =>
      Some (if ok then
              match dispose r with
              | (r, None) => set_op o Finished r
              | (r, Some true) => set_op o (Replacing SDispose) r
              | (r, Some false) => set_op o (Replacing SAdopt) r
              end
            else set_op o Finished r)
  | Some (Replacing SDispose) => Some (set_op o (Replacing SAdopt) (with_hosted None r))
  | Some (Replacing SAdopt) => Some (set_op o Finished (default r (if ok then adopt l r else None)))
  | Some Disposing => Some (set_op o Finished (with_hosted None r))
  | Some Adopting => Some (set_op o Finished (default r (if ok then adopt l r else None)))
  | _ => None
  end.

(** The timer of a pending reload. *)
Definition fire (o : nat) (r : Runtime) : option Runtime :=
  match ops r !! o with
  | Some (Pending i true) => Some (set_op o (Pending i false) (on_instance i holdNewTurns r))
  | _ => None
  end.

Inductive Act :=
| Ask (i : nat) (go : option Going)
| Send (n : nat) (g : Going)
| Release (n : nat)
| Go (n : nat) (x : Reply)
| Reload
| Fire (o : nat)
| Dispose
| Adopt
| OpGo (o : nat) (ok : bool) (l : Limits).

Definition perform (a : Act) (r : Runtime) : option Runtime :=
  match a with
  | Ask i go => Some (ask i go r)
  | Send n g => Some (send n g r)
  | Release n => Some (release n r)
  | Go n x => resume_turn n x r
  | Reload => Some (reload r)
  | Fire o => fire o r
  | Dispose => Some (let '(r, under_way) := dispose r in
                     if bool_decide (under_way = Some true) then with_ops (ops r ++ [Disposing]) r else r)
  | Adopt => Some (match hosted r with None => with_ops (ops r ++ [Adopting]) r | Some _ => r end)
  | OpGo o ok l => resume_op o ok l r
  end.

Definition step (r r' : Runtime) : Prop := exists a, perform a r = Some r'.

Definition boot (l : Limits) : Runtime :=
  {| instances := [create l]; turns := []; ops := []; hosted := Some 0%nat; reloads := None; settled := ∅; lined := [];
     begun := [] |}.

(** ** Slots *)

(** The instance whose slot a turn holds: it has a ticket, or goes on. *)
Definition slot_of (t : Turn) : option nat :=
  match t with
  | Metering i _ | Slotted i _ | Resolving i _ | Chained i _ _ | Running i _ | Ended i _ => Some i
  | Deferred _ _ | Awaiting _ _ | Done _ | Lost _ => None
  end.

(** The instance that counts a turn: its holder's, and that of a turn which is over and left its slot
    behind, as [Lost] is. *)
Definition counted (t : Turn) : option nat := match t with Lost i => Some i | _ => slot_of t end.

Definition takes (i : nat) (t : Turn) : Z := if bool_decide (counted t = Some i) then 1 else 0.

(** The turns that an instance counts. *)
Fixpoint slots (i : nat) (l : list Turn) : Z := match l with [] => 0 | t :: l => takes i t + slots i l end.

Lemma takes_bounds i t : 0 <= takes i t <= 1.
Proof. unfold takes. case_bool_decide; lia. Qed.

Lemma takes_none i t : counted t = None -> takes i t = 0.
Proof. unfold takes. by intros ->. Qed.

Lemma takes_some i k t : counted t = Some k -> takes i t = if decide (i = k) then 1 else 0.
Proof.
  unfold takes. intros ->. destruct (decide (i = k)) as [->|]; [by rewrite bool_decide_eq_true_2|].
  rewrite bool_decide_eq_false_2; [done|congruence].
Qed.

(** Those that hold a slot of it, and those that leaked one. *)
Definition holders (i : nat) (l : list Turn) : Z := zlen (List.filter (fun t => bool_decide (slot_of t = Some i)) l).
Definition leaked (i : nat) (l : list Turn) : Z := zlen (List.filter (fun t => match t with Lost k => bool_decide (k = i) | _ => false end) l).

Lemma slots_split i l : slots i l = holders i l + leaked i l.
Proof.
  unfold holders, leaked. induction l as [|t l IH]; [done|]. cbn [slots List.filter]. rewrite IH. unfold takes.
  destruct t as [k|k|k|k|k|k|k|k|k|k]; cbn [counted slot_of]; repeat case_bool_decide; simplify_eq; cbn [length]; lia.
Qed.

Lemma slots_nonneg i l : 0 <= slots i l.
Proof. induction l as [|t l IH]; cbn; [done|]. pose proof (takes_bounds i t). lia. Qed.

Lemma slots_app i l l' : slots i (l ++ l') = slots i l + slots i l'.
Proof. induction l as [|t l IH]; cbn; [done|]. rewrite IH. lia. Qed.

Lemma slots_insert i n t t0 l : l !! n = Some t0 -> slots i (<[n:=t]> l) = slots i l - takes i t0 + takes i t.
Proof.
  revert n. induction l as [|x l IH]; intros [|n] H; try done; simpl in *; [injection H as <-; lia|]. rewrite (IH n H). lia.
Qed.

Lemma slots_taken i n t l : l !! n = Some t -> takes i t <= slots i l.
Proof.
  revert n. induction l as [|x l IH]; intros [|n] H; try done; cbn in *; [injection H as ->; pose proof (slots_nonneg i l); lia|].
  specialize (IH n H). pose proof (takes_bounds i x). lia.
Qed.

(** What the governor and the queues depend on. *)
Definition gauge (a : Instance) : Limits * Z * gmap (list Z) nat := (limits a, inFlight a, sessionChains a).

Definition calm (r r' : Runtime) : Prop :=
  turns r' = turns r /\ map gauge (instances r') = map gauge (instances r) /\ lined r' = lined r /\ begun r' = begun r.

#[export] Instance calm_preorder : PreOrder calm.
Proof. split; [done|]. intros x y z (? & ? & ? & ?) (? & ? & ? & ?). split_and!; by etrans. Qed.

Lemma calm_instance i f r : (forall a, gauge (f a) = gauge a) -> calm r (on_instance i f r).
Proof.
  intros H. split_and!; try done. cbn. apply list_eq. intros k. rewrite !list_lookup_fmap.
  destruct (decide (k = i)) as [->|]; [rewrite list_lookup_alter_eq|by rewrite list_lookup_alter_ne].
  destruct (instances r !! i); [|done]. apply (f_equal Some), H.
Qed.

Lemma calm_complete o r : calm r (complete o r).
Proof.
  unfold complete. destruct (ops r !! o) as [[]|]; try done. case_bool_decide; [|done].
  trans (on_instance i holdNewTurns (with_reloads None r)); [|done]. trans (with_reloads None r); [done|].
  by apply calm_instance.
Qed.

Lemma calm_abandon r : calm r (abandon r).
Proof. unfold abandon. by destruct (reloads r). Qed.

Lemma calm_fail o i r : calm r (fail_swap o i r).
Proof.
  unfold fail_swap. case_bool_decide; [|done]. trans (on_instance i cancelRetire r); [by apply calm_instance|done].
Qed.

Lemma calm_register o i r : calm r (register o i r).
Proof.
  unfold register. set (ms := default 30000 _).
  assert (calm r (on_instance i (retireInto o) r)) as H by by apply calm_instance.
  destruct (ms =? 0); [|by trans (on_instance i (retireInto o) r)].
  trans (on_instance i (retireInto o) r); [done|]. trans (on_instance i holdNewTurns (on_instance i (retireInto o) r)); [|done].
  by apply calm_instance.
Qed.

(** Every slot that is taken is held by a turn, within the cap, by instances that exist. *)
Definition slots_ok (r : Runtime) : Prop :=
  (forall i a, instances r !! i = Some a -> inFlight a = slots i (turns r) /\
     forall cap, maxConcurrentTurns (limits a) = Some cap -> inFlight a <= Z.max 0 cap) /\
  (forall n t i, turns r !! n = Some t -> counted t = Some i -> (i < length (instances r))%nat).

Lemma calm_lookup r r' i a : calm r r' -> instances r' !! i = Some a ->
  exists a0, instances r !! i = Some a0 /\ gauge a0 = gauge a.
Proof.
  intros (_ & E & _) H. apply (f_equal (fun l => l !! i)) in E. rewrite !list_lookup_fmap, H in E. cbn in E.
  destruct (instances r !! i) as [a0|]; [|discriminate]. exists a0. split; [done|]. apply Some_inj in E. done.
Qed.

Lemma calm_length r r' : calm r r' -> length (instances r') = length (instances r).
Proof. intros (_ & E & _). apply (f_equal length) in E. by rewrite !length_map in E. Qed.

Lemma calm_slots r r' : calm r r' -> slots_ok r -> slots_ok r'.
Proof.
  intros Hc [H1 H2]. split.
  - intros i a Ha. destruct (calm_lookup _ _ _ _ Hc Ha) as (a0 & Ha0 & E). injection E as El Ei _.
    rewrite <- El, <- Ei. destruct Hc as (-> & _). by apply H1.
  - intros n t i Ht Hs. rewrite (calm_length _ _ Hc). destruct Hc as (Et & _). rewrite Et in Ht. by eapply H2.
Qed.

(** A turn changes state where it is, and so do the slots. *)
Lemma slots_move n t0 t (g : nat -> Instance -> Instance) r r' :
  turns r !! n = Some t0 -> turns r' = <[n:=t]> (turns r) -> instances r' = imap g (instances r) ->
  (forall i a, limits (g i a) = limits a /\ inFlight (g i a) = inFlight a - takes i t0 + takes i t) ->
  (forall i a, counted t = Some i -> counted t0 <> Some i -> instances r !! i = Some a -> at_capacity a = false) ->
  (forall i, counted t = Some i -> (i < length (instances r))%nat) ->
  slots_ok r -> slots_ok r'.
Proof.
  intros Ht0 Et Ei Hg Hcap Hlen [H1 H2]. split.
  - intros i a Ha. rewrite Ei, list_lookup_imap in Ha. destruct (instances r !! i) as [a0|] eqn:Ha0; cbn in Ha; [|done].
    injection Ha as <-. destruct (Hg i a0) as [El Ef], (H1 i a0 Ha0) as [Hs Hc]. rewrite El, Ef, Et.
    rewrite (slots_insert i n t t0) by done. split; [lia|]. intros cap Ecap. specialize (Hc cap Ecap).
    pose proof (takes_bounds i t0). pose proof (slots_taken i n t0 _ Ht0). unfold takes in *.
    destruct (decide (counted t = Some i)) as [E|]; [|rewrite (bool_decide_eq_false_2 (counted t = Some i)) by done; lia].
    destruct (decide (counted t0 = Some i)) as [E0|E0]; [rewrite !bool_decide_eq_true_2 by done; lia|].
    specialize (Hcap i a0 E E0 Ha0). unfold at_capacity in Hcap. rewrite Ecap in Hcap. apply Z.leb_gt in Hcap.
    rewrite (bool_decide_eq_true_2 (counted t = Some i)), (bool_decide_eq_false_2 (counted t0 = Some i)) by done. lia.
  - intros m x i Hx Hs. rewrite Ei, length_imap. rewrite Et in Hx. destruct (decide (m = n)) as [->|].
    + rewrite list_lookup_insert_eq in Hx by (by eapply lookup_lt_Some). injection Hx as <-. by apply Hlen.
    + rewrite list_lookup_insert_ne in Hx by done. by eapply H2.
Qed.

Lemma alter_imap {A} (f : A -> A) (i : nat) (l : list A) : alter f i l = imap (fun k a => if decide (k = i) then f a else a) l.
Proof.
  apply list_eq. intros k. rewrite list_lookup_imap. destruct (decide (k = i)) as [->|Hne].
  - rewrite list_lookup_alter_eq. by destruct (l !! i).
  - rewrite list_lookup_alter_ne by done. by destruct (l !! k).
Qed.

Lemma alter_alter {A} (f g : A -> A) (i : nat) (l : list A) : alter g i (alter f i l) = alter (fun a => g (f a)) i l.
Proof.
  apply list_eq. intros k. destruct (decide (k = i)) as [->|]; [|by rewrite !list_lookup_alter_ne].
  rewrite !list_lookup_alter_eq. by destruct (l !! i).
Qed.

Lemma imap_same {A} (l : list A) : l = imap (fun _ a => a) l.
Proof. apply list_eq. intros k. rewrite list_lookup_imap. by destruct (l !! k). Qed.

Lemma settle_calm i r : calm (on_instance i (with_inFlight (fun n => n - 1)) r) (settle i r).
Proof.
  unfold settle. destruct (_ !! i) as [a|]; [|done]. destruct (inFlight a =? 0); [|done].
  destruct (onIdle a); [apply calm_complete|done].
Qed.

Lemma set_turn_slots n t t0 r : turns r !! n = Some t0 -> counted t = counted t0 -> slots_ok r -> slots_ok (set_turn n t r).
Proof.
  intros H E Hr. eapply (slots_move n t0 t (fun _ a => a)); [done|done|apply imap_same| | | |done].
  - intros i a. split; [done|]. unfold takes. rewrite E. lia.
  - intros i a Hs Hn. by rewrite E in Hs.
  - intros i Hs. rewrite E in Hs. destruct Hr as [_ Hr]. by eapply Hr.
Qed.

(** A turn that gives its slot back. *)
Lemma settle_slots i n t t0 (f : Instance -> Instance) r r1 : turns r !! n = Some t0 -> counted t0 = Some i -> counted t = None ->
  turns r1 = <[n:=t]> (turns r) -> instances r1 = alter f i (instances r) -> (forall a, limits (f a) = limits a /\ inFlight (f a) = inFlight a) ->
  slots_ok r -> slots_ok (settle i r1).
Proof.
  intros H H0 H1 Et Ei Hf Hr. eapply calm_slots; [apply settle_calm|].
  eapply (slots_move n t0 t (fun k a => if decide (k = i) then with_inFlight (fun n => n - 1) (f a) else a)); [done|done| | | | |done].
  - cbn. rewrite Ei, alter_alter. apply alter_imap.
  - intros k a. rewrite (takes_some k i t0), (takes_none k t) by done. destruct (decide (k = i)) as [->|Hne]; cbn; [|split; [done|lia]].
    destruct (Hf a) as [-> ->]. split; [done|lia].
  - intros k a Hk. by rewrite H1 in Hk.
  - intros k Hk. by rewrite H1 in Hk.
Qed.

Lemma ask_slot_slots i n go r t0 : turns r !! n = Some t0 -> counted t0 = None -> slots_ok r -> slots_ok (ask_slot i n go r).
Proof.
  intros H H0 Hr. unfold ask_slot. destruct (instances r !! i) as [a|] eqn:Ea; [|by apply (set_turn_slots n _ t0)].
  destruct (deferred a).
  - apply (set_turn_slots n _ t0); [done|by rewrite H0|]. eapply calm_slots; [|exact Hr]. by apply calm_instance.
  - destruct (at_capacity a) eqn:Ec; [by apply (set_turn_slots n _ t0)|].
    set (t := if tokens (limits a) then Metering i go else Slotted i go).
    assert (counted t = Some i) as Hs by (unfold t; by destruct (tokens _)).
    eapply (slots_move n t0 t (fun k a => if decide (k = i) then with_inFlight (fun n => n + 1) a else a)); [done|done|apply alter_imap| | | |done].
    + intros k a'. rewrite (takes_some k i t), (takes_none k t0) by done.
      destruct (decide (k = i)) as [->|Hne]; cbn; (split; [done|lia]).
    + intros k a' Hk _ Ha'. rewrite Hs in Hk. injection Hk as <-. congruence.
    + intros k Hk. rewrite Hs in Hk. injection Hk as <-. by eapply lookup_lt_Some.
Qed.

Lemma enqueue_slots i n s r t0 : turns r !! n = Some t0 -> counted t0 = Some i -> slots_ok r -> slots_ok (enqueue i n s r).
Proof.
  intros H H0 Hr. unfold enqueue. destruct (instances r !! i) as [a|] eqn:Ea.
  2:{ destruct Hr as [_ Hr]. specialize (Hr n t0 i H H0). apply lookup_ge_None in Ea. lia. }
  eapply (slots_move n t0 (Chained i s _) (fun k a => if decide (k = i) then with_chains (fun m => <[s:=n]> m) a else a));
    [done|reflexivity|apply alter_imap| | | |done].
  - intros k a'. rewrite (takes_some k i t0), (takes_some k i (Chained _ _ _)) by done.
    destruct (decide (k = i)) as [->|]; cbn; (split; [done|lia]).
  - intros k a' Hk Hn. by rewrite H0 in Hn.
  - intros k [= <-]. by eapply lookup_lt_Some.
Qed.

Lemma go_on_slots i n g r t0 : turns r !! n = Some t0 -> counted t0 = Some i -> slots_ok r -> slots_ok (go_on i n g r).
Proof.
  intros H H0 Hr. unfold go_on. destruct (sessionResolved g); [by eapply enqueue_slots|].
  apply (set_turn_slots n _ t0); [done|by rewrite H0|done].
Qed.

Lemma settle_done i n out r t0 : turns r !! n = Some t0 -> counted t0 = Some i -> slots_ok r -> slots_ok (settle i (set_turn n (Done out) r)).
Proof.
  intros H H0 Hr. eapply (settle_slots i n (Done out) t0 (fun a => a) r); [done..| | |done]; [|done].
  cbn. rewrite alter_imap. etrans; [apply imap_same|]. apply imap_ext. intros k x _. by destruct (decide (k = i)).
Qed.

Lemma resume_turn_slots n x r r' : resume_turn n x r = Some r' -> slots_ok r -> slots_ok r'.
Proof.
  unfold resume_turn. intros H Hr. destruct (turns r !! n) as [t|] eqn:Et; [|done].
  destruct t as [i go|i [g|]|o [g|]|o g|i g|i s prev|i s|i s|out|i]; try done.
  - injection H as <-. destruct (throws x); [by eapply set_turn_slots|]. destruct (exhausted x); [by eapply settle_done|by eapply set_turn_slots].
  - injection H as <-. by eapply go_on_slots.
  - injection H as <-. by eapply set_turn_slots.
  - destruct (settled r !! o) as [[j|]|]; [|by injection H as <-; eapply set_turn_slots|done]. injection H as <-. by eapply ask_slot_slots.
  - injection H as <-. destruct (throws x); [by eapply settle_done|by eapply enqueue_slots].
  - destruct (match prev with None => true | Some m => over (turns r !! m) end); [|done]. injection H as <-.
    change (slots_ok (set_turn n (Running i s) r)). by eapply set_turn_slots.
  - injection H as <-. by eapply set_turn_slots.
  - injection H as <-. eapply (settle_slots i n (Done Ran) _ (with_chains _) r); [exact Et|reflexivity..| |exact Hr]. done.
Qed.

Lemma slots_none i l : (forall n t, l !! n = Some t -> counted t <> Some i) -> slots i l = 0.
Proof.
  induction l as [|t l IH]; intros H; [done|]. cbn. rewrite IH by (intros n; exact (H (S n))).
  specialize (H O t eq_refl). unfold takes. by rewrite bool_decide_eq_false_2.
Qed.

Lemma adopt_slots l r r' : adopt l r = Some r' -> slots_ok r -> slots_ok r'.
Proof.
  unfold adopt. destruct (hosted r); [done|]. intros [= <-] [H1 H2]. split; cbn.
  - intros i a Ha. apply lookup_app_Some in Ha as [Ha|[Hlen Ha]]; [by apply H1|]. apply list_lookup_singleton_Some in Ha as [Hi <-].
    cbn. rewrite slots_none; [split; [done|lia]|]. intros n t Ht Hs. specialize (H2 n t i Ht Hs). lia.
  - intros n t i Ht Hs. rewrite length_app. specialize (H2 n t i Ht Hs). cbn. lia.
Qed.

Lemma calm_dispose r : calm r (dispose r).1.
Proof. unfold dispose. destruct (hosted r); [|done]. apply calm_abandon. Qed.

(** The calls that are not turns: nothing a turn depends on changes, or a fresh instance is there. *)
Lemma resume_op_cases o ok l r r' : resume_op o ok l r = Some r' ->
  calm r r' \/ exists r1, adopt l r = Some r1 /\ calm r1 r'.
Proof.
  unfold resume_op. intros H. destruct (ops r !! o) as [[i|i armed|i st|st| | |]|]; try done.
  - injection H as <-. left. destruct ok; [apply calm_register|done].
  - destruct st; injection H as <-.
    + left. destruct ok; [|apply calm_fail]. pose proof (calm_dispose r) as Hc. destruct (dispose r) as [r1 [[]|]]; cbn in Hc; [done..|].
      trans r1; [done|apply calm_fail].
    + by left.
    + destruct ok; [|left; apply calm_fail]. destruct (adopt l r) as [r1|] eqn:E; [right; by exists r1|left; apply calm_fail].
  - destruct st; injection H as <-.
    + left. destruct ok; [|done]. pose proof (calm_dispose r) as Hc. by destruct (dispose r) as [r1 [[]|]].
    + by left.
    + destruct ok; [|by left]. destruct (adopt l r) as [r1|] eqn:E; [right; by exists r1|by left].
  - injection H as <-. by left.
  - injection H as <-. destruct ok; [|by left]. destruct (adopt l r) as [r1|] eqn:E; [right; by exists r1|by left].
Qed.

Lemma calm_others a r r' : perform a r = Some r' ->
  match a with Ask _ _ | Send _ _ | Release _ | Go _ _ | OpGo _ _ _ => True | _ => calm r r' end.
Proof.
  destruct a as [| | | | |o| | |]; cbn; intros H; try done.
  - injection H as <-. unfold reload. destruct (reloads r); [done|]. by destruct (hosted r).
  - unfold fire in H. destruct (ops r !! o) as [[|i []| | | | |]|]; try done. injection H as <-.
    trans (on_instance i holdNewTurns r); [|done]. by apply calm_instance.
  - pose proof (calm_dispose r) as Hc. destruct (dispose r) as [r1 u]. injection H as <-. by case_bool_decide.
  - injection H as <-. by destruct (hosted r).
Qed.

Lemma step_slots r r' : step r r' -> slots_ok r -> slots_ok r'.
Proof.
  intros [a Ha] Hr. pose proof (calm_others a r r' Ha) as Hc. destruct a as [i go|n g|n|n x| | | | |o ok l];
    try (by eapply calm_slots); cbn in Ha.
  - injection Ha as <-. eapply ask_slot_slots; [apply list_lookup_middle; done|done|]. destruct Hr as [H1 H2]. split; cbn.
    + intros j a Ha. rewrite slots_app. cbn. rewrite takes_none by done. rewrite !Z.add_0_r. by apply H1.
    + intros m t j Ht Hs. apply lookup_app_Some in Ht as [Ht|[_ Ht]]; [by eapply H2|]. by apply list_lookup_singleton_Some in Ht as [_ <-].
  - injection Ha as <-. unfold send. destruct (turns r !! n) as [[| | | | | | | | |]|] eqn:Et; try done.
    + destruct go; [done|]. by eapply go_on_slots.
    + destruct go; [done|]. by eapply set_turn_slots.
  - injection Ha as <-. unfold release. destruct (turns r !! n) as [[| | | | | | | | |]|] eqn:Et; try done.
    + destruct go; [done|]. by eapply settle_done.
    + destruct go; [done|]. by eapply set_turn_slots.
  - by eapply resume_turn_slots.
  - destruct (resume_op_cases _ _ _ _ _ Ha) as [H|(r1 & H1 & H2)]; [by eapply calm_slots|].
    eapply calm_slots; [exact H2|]. by eapply adopt_slots.
Qed.

Lemma boot_slots l : slots_ok (boot l).
Proof.
  split; [|by intros []]. intros [|i] a Ha; [|by destruct i]. injection Ha as <-. cbn. split; [done|lia].
Qed.

Lemma run_slots l r : rtc step (boot l) r -> slots_ok r.
Proof. intros H. eapply (reachable_invariant step slots_ok); [apply step_slots|exact H|apply boot_slots]. Qed.

(** ** Queues *)

Definition queue (i : nat) (s : ustring) (l : list Lined) : list nat :=
  omap (fun x => if bool_decide (l_instance x = i /\ l_session x = s) then Some (l_turn x) else None) l.

Definition seat (t : Turn) : option (nat * ustring) :=
  match t with Chained i s _ | Running i s | Ended i s => Some (i, s) | _ => None end.

Definition chain (i : nat) (s : ustring) (r : Runtime) : option nat := a ← instances r !! i; sessionChains a !! s.

Definition all_over (ts : list Turn) (l : list nat) : Prop := Forall (fun n => over (ts !! n) = true) l.

(** The line of a session: those that began, all over but the last, then those that wait, each behind
    the one before it. *)
Record line_ok (ts : list Turn) (c : option nat) (l b : list nat) (i : nat) (s : ustring) : Prop := {
  lo_split : exists w, l = b ++ w /\ forall k n, w !! k = Some n ->
    exists prev, ts !! n = Some (Chained i s prev) /\ (prev = last (b ++ take k w) \/ (prev = None /\ k = 0%nat /\ all_over ts b));
  lo_nodup : NoDup l;
  lo_begun : forall k n, b !! k = Some n ->
    ts !! n = Some (Ended i s) \/ ts !! n = Some (Done Ran) \/ (ts !! n = Some (Running i s) /\ S k = length b);
  lo_seat : forall n t, ts !! n = Some t -> seat t = Some (i, s) -> n ∈ l;
  lo_chain : match last l with None => c = None | Some m => c = Some m \/ (c = None /\ all_over ts l) end }.

Definition queues_ok (r : Runtime) : Prop :=
  forall i s, line_ok (turns r) (chain i s r) (queue i s (lined r)) (queue i s (begun r)) i s.

Section Line.
Context {ts : list Turn} {c : option nat} {l b : list nat} {i : nat} {s : ustring} (H : line_ok ts c l b i s).

Lemma line_class n : n ∈ l -> ts !! n = Some (Done Ran) \/ exists t, ts !! n = Some t /\ seat t = Some (i, s).
Proof.
  destruct (lo_split _ _ _ _ _ _ H) as (w & -> & Hw). intros [Hn|Hn]%elem_of_app; apply list_elem_of_lookup in Hn as [k Hk].
  - destruct (lo_begun _ _ _ _ _ _ H k n Hk) as [E|[E|[E _]]]; rewrite E; [right; by eexists|by left|right; by eexists].
  - destruct (Hw k n Hk) as (prev & E & _). rewrite E. right. by eexists.
Qed.

Lemma over_insert n t m : over (Some t) = true \/ ~ over (ts !! n) = true -> over (ts !! m) = true -> over (<[n:=t]> ts !! m) = true.
Proof.
  intros Hor Hm. destruct (decide (m = n)) as [->|]; [|by rewrite list_lookup_insert_ne].
  destruct Hor as [Ht|]; [|done]. destruct (decide (n < length ts)%nat).
  - by rewrite list_lookup_insert_eq.
  - rewrite list_insert_ge by lia. done.
Qed.

(** Another turn changes, off this line. *)
Lemma line_frame n t0 t : ts !! n = Some t0 -> t0 <> Done Ran -> seat t0 <> Some (i, s) -> seat t <> Some (i, s) ->
  line_ok (<[n:=t]> ts) c l b i s.
Proof.
  intros Hn Hr0 Hs0 Hs. assert (n ∉ l) as Hnl.
  { intros [E|(x & E & Ex)]%line_class; rewrite Hn in E; injection E as ->; done. }
  assert (forall m, m ∈ l -> <[n:=t]> ts !! m = ts !! m) as Hsame by (intros m Hm; rewrite list_lookup_insert_ne; [done|by intros ->]).
  assert (forall l', (forall m, m ∈ l' -> m ∈ l) -> all_over ts l' -> all_over (<[n:=t]> ts) l') as Hall.
  { intros l' Hl'. unfold all_over. rewrite !Forall_forall. intros Ha m Hm. rewrite Hsame by auto. by apply Ha. }
  destruct H as [(w & El & Hw) Hnd Hb Hse Hc]. split.
  - exists w. split; [done|]. intros k m Hk. destruct (Hw k m Hk) as (prev & E & Hp). exists prev.
    rewrite Hsame by (rewrite El; apply elem_of_app; right; by eapply list_elem_of_lookup_2). split; [done|].
    destruct Hp as [|(? & ? & ?)]; [by left|right]. split_and!; [done..|]. apply Hall; [|done]. intros x. rewrite El. set_solver.
  - done.
  - intros k m Hk. rewrite Hsame by (rewrite El; apply elem_of_app; left; by eapply list_elem_of_lookup_2). by apply Hb.
  - intros m x Hx Hseat. destruct (decide (m = n)) as [->|]; [|rewrite list_lookup_insert_ne in Hx by done; by eapply Hse].
    rewrite list_lookup_insert_eq in Hx by (by eapply lookup_lt_Some). congruence.
  - destruct (last l); [|done]. destruct Hc as [|[? ?]]; [by left|right]. split; [done|]. by apply Hall.
Qed.

(** [n] joins the line, behind whoever the map names. *)
Lemma line_join n t0 : ts !! n = Some t0 -> t0 <> Done Ran -> seat t0 <> Some (i, s) ->
  line_ok (<[n:=Chained i s c]> ts) (Some n) (l ++ [n]) b i s.
Proof.
  intros Hn Hr0 Hs0. assert (n ∉ l) as Hnl.
  { intros [E|(x & E & Ex)]%line_class; rewrite Hn in E; injection E as ->; done. }
  assert (forall m, m ∈ l -> <[n:=Chained i s c]> ts !! m = ts !! m) as Hsame.
  { intros m Hm. rewrite list_lookup_insert_ne; [done|by intros ->]. }
  destruct H as [(w & El & Hw) Hnd Hb Hse Hc]. assert (all_over ts b -> all_over (<[n:=Chained i s c]> ts) b) as Hall.
  { unfold all_over. rewrite !Forall_forall. intros Ha m Hm. rewrite Hsame; [by apply Ha|]. rewrite El. apply elem_of_app. by left. }
  split.
  - exists (w ++ [n]). split; [by rewrite El, app_assoc|]. intros k m Hk.
    apply lookup_app_Some in Hk as [Hk|[Hlen Hk]].
    + destruct (Hw k m Hk) as (prev & E & Hp). exists prev.
      rewrite Hsame by (rewrite El; apply elem_of_app; right; by eapply list_elem_of_lookup_2). split; [done|].
      rewrite take_app_le by (apply lookup_lt_Some in Hk; lia). destruct Hp as [|(? & ? & ?)]; [by left|right]. auto.
    + apply list_lookup_singleton_Some in Hk as [Hk <-]. assert (k = length w) as -> by lia. exists c.
      rewrite list_lookup_insert_eq by (by eapply lookup_lt_Some). split; [done|]. rewrite take_app_length, <- El.
      destruct (last l) as [m|] eqn:El'; [|by left]. destruct Hc as [|[-> Hov]]; [by left|]. right.
      assert (w = []) as ->.
      { destruct w as [|x w]; [done|]. exfalso. destruct (Hw 0%nat x eq_refl) as (prev & E & _). rewrite El in Hov.
        apply Forall_app in Hov as [_ Hov]. apply Forall_cons in Hov as [Hov _]. by rewrite E in Hov. }
      split_and!; [done..|]. apply Hall. rewrite El, app_nil_r in Hov. done.
  - apply NoDup_app. split_and!; [done| |apply NoDup_singleton]. intros m Hm ->%list_elem_of_singleton. done.
  - intros k m Hk. rewrite Hsame by (rewrite El; apply elem_of_app; left; by eapply list_elem_of_lookup_2). by apply Hb.
  - intros m x Hx Hseat. destruct (decide (m = n)) as [->|]; [apply elem_of_app; right; by left|].
    rewrite list_lookup_insert_ne in Hx by done. apply elem_of_app. left. by eapply Hse.
  - rewrite last_snoc. by left.
Qed.

Lemma begun_over : all_over ts (removelast b).
Proof.
  apply Forall_forall. intros n Hn. apply list_elem_of_lookup in Hn as [k Hk].
  assert (b !! k = Some n /\ (S k < length b)%nat) as [Hb Hlen].
  { destruct (exists_last (l:=b)) as (b' & x & E); [by intros ->|]. rewrite E in *. rewrite removelast_last in Hk.
    split; [by apply lookup_app_l_Some|]. apply lookup_lt_Some in Hk. rewrite length_app. cbn. lia. }
  destruct (lo_begun _ _ _ _ _ _ H k n Hb) as [E|[E|[_ E]]]; [by rewrite E..|lia].
Qed.

Lemma last_over_all m : last b = Some m -> over (ts !! m) = true -> all_over ts b.
Proof.
  intros Hl Ho. destruct (exists_last (l:=b)) as (b' & x & E); [by intros ->|]. pose proof begun_over as Hall.
  rewrite E in *. rewrite removelast_last in Hall. rewrite last_snoc in Hl. injection Hl as ->.
  apply Forall_app. split; [done|]. by apply Forall_singleton.
Qed.

(** One that waits begins: it was the first that waits, and all before it are over. *)
Lemma line_begin n prev : ts !! n = Some (Chained i s prev) ->
  match prev with None => true | Some m => over (ts !! m) end = true ->
  line_ok (<[n:=Running i s]> ts) c l (b ++ [n]) i s.
Proof.
  intros Hn Hgo. assert (n ∈ l) as Hin by (by eapply (lo_seat _ _ _ _ _ _ H)).
  destruct (lo_split _ _ _ _ _ _ H) as (w & El & Hw).
  assert (exists k, w !! k = Some n) as [k Hk].
  { rewrite El in Hin. apply elem_of_app in Hin as [Hin|Hin]; apply list_elem_of_lookup in Hin as [k Hk]; [|by exists k].
    destruct (lo_begun _ _ _ _ _ _ H k n Hk) as [E|[E|[E _]]]; congruence. }
  assert (forall j m, w !! j = Some m -> over (ts !! m) = false) as Hwait.
  { intros j m Hj. destruct (Hw j m Hj) as (p' & E & _). by rewrite E. }
  destruct (Hw k n Hk) as (prev' & E & Hp). rewrite Hn in E. injection E as <-.
  assert (k = 0%nat /\ all_over ts b) as [-> Hall].
  { destruct Hp as [->|(-> & -> & ?)]; [|done]. destruct k as [|k].
    - split; [done|]. cbn in Hgo. rewrite take_0, app_nil_r in Hgo. destruct (last b) as [m|] eqn:Eb; [by eapply last_over_all|].
      apply last_None in Eb as ->. constructor.
    - exfalso. assert (exists x, w !! k = Some x) as [x Hx].
      { apply lookup_lt_is_Some. apply lookup_lt_Some in Hk. lia. }
      rewrite (take_S_r w k x Hx), app_assoc, last_snoc in Hgo. by rewrite (Hwait k x Hx) in Hgo. }
  destruct w as [|x w]; [done|]. injection Hk as ->.
  pose proof (lo_nodup _ _ _ _ _ _ H) as Hnd. rewrite El in Hnd. apply NoDup_app in Hnd as (Hnb & Hdis & Hnw).
  apply NoDup_cons in Hnw as [Hnw _].
  assert (n ∉ b) as Hnb' by (intros Hb; apply (Hdis n Hb); by left).
  assert (forall m, m <> n -> <[n:=Running i s]> ts !! m = ts !! m) as Hsame by (intros m Hm; by rewrite list_lookup_insert_ne).
  assert (<[n:=Running i s]> ts !! n = Some (Running i s)) as Hnew by (rewrite list_lookup_insert_eq; [done|by eapply lookup_lt_Some]).
  split.
  - exists w. split; [by rewrite El, <- app_assoc|]. intros j m Hj. destruct (Hw (S j) m Hj) as (p' & E & Hp').
    exists p'. rewrite Hsame by (intros ->; apply Hnw; by eapply list_elem_of_lookup_2). split; [done|]. left.
    destruct Hp' as [->|(_ & ? & _)]; [|done]. cbn. by rewrite <- app_assoc.
  - apply (lo_nodup _ _ _ _ _ _ H).
  - intros j m Hj. apply lookup_app_Some in Hj as [Hj|[Hlen Hj]].
    + assert (m ∈ b) as Hm by (by eapply list_elem_of_lookup_2). rewrite Hsame by (by intros ->).
      unfold all_over in Hall. rewrite Forall_forall in Hall. specialize (Hall m Hm). destruct (lo_begun _ _ _ _ _ _ H j m Hj) as [E|[E|[E _]]]; [by left|by right; left|].
      by rewrite E in Hall.
    + apply list_lookup_singleton_Some in Hj as [Hj <-]. right. right. split; [done|]. rewrite length_app. cbn. lia.
  - intros m t Ht Hs. destruct (decide (m = n)) as [->|]; [done|]. rewrite Hsame in Ht by done. by eapply (lo_seat _ _ _ _ _ _ H).
  - pose proof (lo_chain _ _ _ _ _ _ H) as Hc. destruct (last l); [|done]. destruct Hc as [|[_ Hov]]; [by left|]. exfalso.
    unfold all_over in Hov. rewrite Forall_forall in Hov. specialize (Hov n Hin). by rewrite Hn in Hov.
Qed.

(** One that runs is over, or one that is over is done and leaves the map if it is the last. *)
Lemma line_over n t0 t c' : ts !! n = Some t0 -> seat t0 = Some (i, s) -> t = Ended i s \/ t = Done Ran -> 
  (over (Some t0) = true \/ t0 = Running i s) ->
  c' = c \/ (over (Some t0) = true /\ c = Some n /\ c' = None) ->
  line_ok (<[n:=t]> ts) c' l b i s.
Proof.
  intros Hn Hs0 Ht Hrun Hc'. pose proof last_over_all as Hlast. assert (over (Some t) = true) as Hot by (by destruct Ht as [->| ->]).
  assert (forall m, m <> n -> <[n:=t]> ts !! m = ts !! m) as Hsame by (intros m Hm; by rewrite list_lookup_insert_ne).
  assert (<[n:=t]> ts !! n = Some t) as Hnew by (rewrite list_lookup_insert_eq; [done|by eapply lookup_lt_Some]).
  assert (forall l', all_over ts l' -> all_over (<[n:=t]> ts) l') as Hall.
  { intros l'. unfold all_over. rewrite !Forall_forall. intros Ha m Hm. apply over_insert; [by left|by apply Ha]. }
  assert (n ∈ l) as Hin by (by eapply (lo_seat _ _ _ _ _ _ H)).
  destruct (lo_split _ _ _ _ _ _ H) as (w & El & Hw). split.
  - exists w. split; [done|]. intros k m Hk. destruct (Hw k m Hk) as (prev & E & Hp). exists prev.
    rewrite Hsame; [split; [done|]|]. { destruct Hp as [|(? & ? & ?)]; [by left|right]. auto. }
    intros ->. rewrite Hn in E. injection E as ->. by destruct Hrun.
  - apply (lo_nodup _ _ _ _ _ _ H).
  - intros k m Hk. destruct (decide (m = n)) as [->|].
    + rewrite Hnew. destruct Ht as [->| ->]; [by left|by right; left].
    + rewrite Hsame by done. by apply (lo_begun _ _ _ _ _ _ H).
  - intros m x Hx Hs. destruct (decide (m = n)) as [->|]; [done|]. rewrite Hsame in Hx by done. by eapply (lo_seat _ _ _ _ _ _ H).
  - pose proof (lo_chain _ _ _ _ _ _ H) as Hc. destruct (last l) as [m|] eqn:Em.
    + destruct Hc' as [->|(Hov & -> & ->)]; [destruct Hc as [|[? ?]]; [by left|right; auto]|]. right. split; [done|].
      destruct Hc as [E|[? _]]; [|done]. injection E as ->. rewrite El in Em. destruct w as [|x w _] using rev_ind.
      * rewrite app_nil_r in Em, El. rewrite El. apply Hall, (Hlast m); [done|]. by rewrite Hn.
      * exfalso. rewrite app_assoc, last_snoc in Em. injection Em as ->.
        destruct (Hw (length w) m) as (p & E & _); [by rewrite lookup_app_r, Nat.sub_diag by done|]. rewrite Hn in E. by injection E as ->.
    + apply last_None in Em. rewrite Em in Hin. by apply not_elem_of_nil in Hin.
Qed.
End Line.

(** A turn changes state and no queue does. *)
Definition moves (n : nat) (t : Turn) (r r' : Runtime) : Prop :=
  turns r' = <[n:=t]> (turns r) /\ lined r' = lined r /\ begun r' = begun r /\ forall i s, chain i s r' = chain i s r.

Definition quiet (r r' : Runtime) : Prop :=
  turns r' = turns r /\ lined r' = lined r /\ begun r' = begun r /\ forall i s, chain i s r' = chain i s r.

#[export] Instance quiet_preorder : PreOrder quiet.
Proof. split; [done|]. intros x y z (? & ? & ? & F1) (? & ? & ? & F2). split_and!; [by etrans..|]. intros i s. by rewrite F2, F1. Qed.

Lemma quiet_instance i f r : (forall a, sessionChains (f a) = sessionChains a) -> quiet r (on_instance i f r).
Proof.
  intros Hf. split_and!; [done..|]. intros k s. unfold chain. cbn. destruct (decide (k = i)) as [->|]; [|by rewrite list_lookup_alter_ne].
  rewrite list_lookup_alter_eq. destruct (instances r !! i); [cbn; by rewrite Hf|done].
Qed.

Lemma calm_quiet r r' : calm r r' -> quiet r r'.
Proof.
  intros Hc. pose proof Hc as (Et & Ei & El & Eb). split_and!; [done..|]. intros i s. unfold chain.
  destruct (instances r' !! i) as [a|] eqn:Ha.
  - destruct (calm_lookup _ _ _ _ Hc Ha) as (a0 & -> & E). injection E as _ _ E. cbn. by rewrite E.
  - apply lookup_ge_None in Ha. rewrite (calm_length _ _ Hc) in Ha. apply lookup_ge_None in Ha. by rewrite Ha.
Qed.

Lemma settle_quiet i r : quiet r (settle i r).
Proof. trans (on_instance i (with_inFlight (fun n => n - 1)) r); [by apply quiet_instance|]. apply calm_quiet, settle_calm. Qed.

Lemma quiet_moves n t r r1 r' : moves n t r r1 -> quiet r1 r' -> moves n t r r'.
Proof. intros (? & ? & ? & F1) (? & ? & ? & F2). split_and!; [by etrans..|]. intros i s. by rewrite F2, F1. Qed.

Lemma moves_quiet n t r r1 r' : quiet r r1 -> moves n t r1 r' -> moves n t r r'.
Proof.
  intros (E1 & ? & ? & F1) (E2 & ? & ? & F2). split_and!; [by rewrite E2, E1|by etrans..|]. intros i s. by rewrite F2, F1.
Qed.

Lemma set_turn_moves n t r : moves n t r (set_turn n t r).
Proof. done. Qed.

Lemma quiet_queues r r' : quiet r r' -> queues_ok r -> queues_ok r'.
Proof. intros (E1 & E2 & E3 & E4) H i s. rewrite E1, E2, E3, E4. apply H. Qed.

Lemma moves_queues n t0 t r r' : turns r !! n = Some t0 -> t0 <> Done Ran -> seat t0 = None -> seat t = None ->
  moves n t r r' -> queues_ok r -> queues_ok r'.
Proof.
  intros Hn H0 Hs0 Hs (E1 & E2 & E3 & E4) H i s. rewrite E1, E2, E3, E4.
  eapply line_frame; [apply H|exact Hn|done|by rewrite Hs0|by rewrite Hs].
Qed.

Lemma ask_slot_queues i n go r t0 : turns r !! n = Some t0 -> t0 <> Done Ran -> seat t0 = None -> queues_ok r ->
  queues_ok (ask_slot i n go r).
Proof.
  intros Hn H0 Hs H. unfold ask_slot. destruct (instances r !! i) as [a|]; [|by eapply moves_queues; [..|apply set_turn_moves|exact H]].
  destruct (deferred a).
  - eapply moves_queues; [exact Hn|done|done| |eapply moves_quiet; [|apply set_turn_moves]; by apply quiet_instance|exact H]. done.
  - destruct (at_capacity a); [by eapply moves_queues; [..|apply set_turn_moves|exact H]|].
    eapply moves_queues; [exact Hn|done|done| |eapply moves_quiet; [|apply set_turn_moves]; by apply quiet_instance|exact H].
    by destruct (tokens _).
Qed.

Lemma queue_snoc i s l x : queue i s (l ++ [x]) =
  queue i s l ++ (if bool_decide (l_instance x = i /\ l_session x = s) then [l_turn x] else []).
Proof. unfold queue. rewrite omap_app. cbn. by destruct (bool_decide _). Qed.

Lemma enqueue_queues i n s r t0 : turns r !! n = Some t0 -> t0 <> Done Ran -> seat t0 = None -> queues_ok r ->
  queues_ok (enqueue i n s r).
Proof.
  intros Hn H0 Hs0 H. unfold enqueue. destruct (instances r !! i) as [a|] eqn:Ea; [|by eapply moves_queues; [..|apply set_turn_moves|exact H]].
  assert (chain i s r = sessionChains a !! s) as Ec by (unfold chain; by rewrite Ea).
  intros k s'. set (r' := note_lined _ _).
  assert (chain k s' r' = if bool_decide (i = k /\ s = s') then Some n else chain k s' r) as Ec'.
  { unfold chain, r'. cbn. destruct (decide (k = i)) as [->|]; [|rewrite list_lookup_alter_ne by done; by rewrite bool_decide_eq_false_2 by (intros [? ?]; congruence)].
    rewrite list_lookup_alter_eq, Ea. cbn. destruct (decide (s = s')) as [->|Hne]; [by rewrite lookup_insert_eq, bool_decide_eq_true_2|].
    rewrite lookup_insert_ne by done. by rewrite bool_decide_eq_false_2 by (intros [_ ?]; congruence). }
  rewrite Ec'. unfold r'. cbn [turns lined begun note_lined set_turn with_turns on_instance with_instances]. rewrite queue_snoc. cbn [l_instance l_session l_turn].
  case_bool_decide as E.
  - destruct E as [<- <-]. rewrite <- Ec. eapply line_join; [apply H|exact Hn|done|by rewrite Hs0].
  - rewrite app_nil_r. eapply line_frame; [apply H|exact Hn|done|by rewrite Hs0|]. cbn. intros [= -> ->]. by apply E.
Qed.

Lemma go_on_queues i n g r t0 : turns r !! n = Some t0 -> t0 <> Done Ran -> seat t0 = None -> queues_ok r ->
  queues_ok (go_on i n g r).
Proof.
  intros Hn H0 Hs H. unfold go_on. destruct (sessionResolved g); [by eapply enqueue_queues|].
  by eapply moves_queues; [..|apply set_turn_moves|exact H].
Qed.

Lemma settle_queues i n out r t0 : turns r !! n = Some t0 -> t0 <> Done Ran -> seat t0 = None -> queues_ok r ->
  queues_ok (settle i (set_turn n (Done out) r)).
Proof.
  intros Hn H0 Hs H. by eapply moves_queues; [exact Hn|..|eapply quiet_moves; [apply set_turn_moves|apply settle_quiet]|exact H].
Qed.

Lemma resume_turn_queues n x r r' : resume_turn n x r = Some r' -> queues_ok r -> queues_ok r'.
Proof.
  unfold resume_turn. intros H Hr. destruct (turns r !! n) as [t|] eqn:Et; [|done].
  destruct t as [i go|i [g|]|o [g|]|o g|i g|i s prev|i s|i s|out|i]; try done.
  - injection H as <-. destruct (throws x); [by eapply moves_queues; [..|apply set_turn_moves|exact Hr]|].
    destruct (exhausted x); [by eapply settle_queues|by eapply moves_queues; [..|apply set_turn_moves|exact Hr]].
  - injection H as <-. by eapply go_on_queues.
  - injection H as <-. by eapply moves_queues; [..|apply set_turn_moves|exact Hr].
  - destruct (settled r !! o) as [[j|]|]; [injection H as <-; by eapply ask_slot_queues| |done].
    injection H as <-. by eapply moves_queues; [..|apply set_turn_moves|exact Hr].
  - injection H as <-. destruct (throws x); [by eapply settle_queues|by eapply enqueue_queues].
  - destruct (match prev with None => true | Some m => over (turns r !! m) end) eqn:Eg; [|done]. injection H as <-.
    intros k s'. change (chain k s' (note_begun _ _)) with (chain k s' r).
    cbn [turns lined begun note_begun set_turn with_turns]. rewrite queue_snoc. cbn [l_instance l_session l_turn].
    case_bool_decide as E.
    + destruct E as [<- <-]. eapply line_begin; [apply Hr|exact Et|done].
    + rewrite app_nil_r. eapply line_frame; [apply Hr|exact Et|done|cbn; intros [= -> ->]; by apply E..].
  - injection H as <-. intros k s'. change (chain k s' (set_turn _ _ r)) with (chain k s' r).
    cbn [turns lined begun set_turn with_turns]. destruct (decide (i = k /\ s = s')) as [[<- <-]|E].
    + eapply line_over; [apply Hr|exact Et|done|by left|by right|by left].
    + eapply line_frame; [apply Hr|exact Et|done|cbn; intros [= -> ->]; by apply E..].
  - injection H as <-. eapply quiet_queues; [apply settle_quiet|]. intros k s'.
    set (r' := set_turn _ _ _).
    assert (chain k s' r' = if bool_decide (i = k /\ s = s' /\ chain k s' r = Some n) then None else chain k s' r) as Ec.
    { unfold chain, r'. cbn. destruct (decide (k = i)) as [->|]; [|rewrite list_lookup_alter_ne by done; by rewrite bool_decide_eq_false_2 by (intros [? _]; congruence)].
      rewrite list_lookup_alter_eq. destruct (instances r !! i) as [a|]; cbn; [|by case_bool_decide].
      destruct (decide (s = s')) as [->|Hne].
      - case_bool_decide as E1; case_bool_decide as E2; [by rewrite lookup_delete_eq|by destruct E2|by destruct E2 as (_ & _ & ?)|done].
      - rewrite (bool_decide_eq_false_2 (i = i /\ _)) by (intros (_ & ? & _); congruence).
        case_bool_decide; [by rewrite lookup_delete_ne|done]. }
    rewrite Ec. unfold r'. cbn [turns lined begun set_turn with_turns on_instance with_instances].
    destruct (decide (i = k /\ s = s')) as [[<- <-]|E].
    + eapply line_over; [apply Hr|exact Et|done|by right|by left|]. case_bool_decide as E; [right|by left]. by destruct E as (_ & _ & ?).
    + rewrite bool_decide_eq_false_2 by (intros (? & ? & _); by apply E).
      eapply line_frame; [apply Hr|exact Et|done|cbn; intros [= -> ->]; by apply E|done].
Qed.

Lemma adopt_queues l r r' : adopt l r = Some r' -> queues_ok r -> queues_ok r'.
Proof.
  unfold adopt. destruct (hosted r); [done|]. intros [= <-]. apply quiet_queues. split_and!; [done..|]. intros i s. unfold chain. cbn.
  destruct (decide (i < length (instances r))%nat) as [Hi|Hi]; [by rewrite lookup_app_l|].
  rewrite (lookup_ge_None_2 (instances r)), lookup_app_r by lia. by destruct (i - _)%nat as [|[]].
Qed.

Lemma step_queues r r' : step r r' -> queues_ok r -> queues_ok r'.
Proof.
  intros [a Ha] Hr. pose proof (calm_others a r r' Ha) as Hc. destruct a as [i go|n g|n|n x| | | | |o ok l];
    try (by eapply quiet_queues; [apply calm_quiet|]); cbn in Ha.
  - injection Ha as <-. eapply ask_slot_queues; [apply list_lookup_middle; done|done|done|]. intros k s. cbn.
    change (chain k s (with_turns _ r)) with (chain k s r). specialize (Hr k s).
    assert (forall m t, turns r !! m = Some t -> (turns r ++ [Done Failed]) !! m = Some t) as Hle by (intros; by apply lookup_app_l_Some).
    assert (forall m, over (turns r !! m) = true -> over ((turns r ++ [Done Failed]) !! m) = true) as Hov.
    { intros m Hm. destruct (turns r !! m) as [t|] eqn:E; [|done]. by rewrite (Hle m t E). }
    assert (forall l, all_over (turns r) l -> all_over (turns r ++ [Done Failed]) l) as Hall.
    { intros l Hl. eapply Forall_impl; [exact Hl|exact Hov]. }
    destruct Hr as [(w & El & Hw) Hnd Hb Hse Hch]. split; [|done| | |].
    + exists w. split; [done|]. intros j m Hj. destruct (Hw j m Hj) as (prev & E & Hp). exists prev. split; [by apply Hle|].
      destruct Hp as [|(? & ? & ?)]; [by left|right; auto].
    + intros j m Hj. destruct (Hb j m Hj) as [E|[E|[E ?]]]; [left|right; left|right; right]; auto.
    + intros m t Ht Hs. apply lookup_app_Some in Ht as [Ht|[_ Ht]]; [by eapply Hse|]. by apply list_lookup_singleton_Some in Ht as [_ <-].
    + destruct (last _); [|done]. destruct Hch as [|[? ?]]; [by left|right; auto].
  - injection Ha as <-. unfold send. destruct (turns r !! n) as [[| | | | | | | | |]|] eqn:Et; try done.
    + destruct go; [done|]. by eapply go_on_queues.
    + destruct go; [done|]. by eapply moves_queues; [..|apply set_turn_moves|exact Hr].
  - injection Ha as <-. unfold release. destruct (turns r !! n) as [[| | | | | | | | |]|] eqn:Et; try done.
    + destruct go; [done|]. by eapply settle_queues.
    + destruct go; [done|]. by eapply moves_queues; [..|apply set_turn_moves|exact Hr].
  - by eapply resume_turn_queues.
  - destruct (resume_op_cases _ _ _ _ _ Ha) as [Hq|(r1 & H1 & H2)]; [by eapply quiet_queues; [apply calm_quiet|]|].
    eapply quiet_queues; [apply calm_quiet; exact H2|]. by eapply adopt_queues.
Qed.

Lemma run_queues l r : rtc step (boot l) r -> queues_ok r.
Proof.
  intros H. eapply (reachable_invariant step queues_ok); [apply step_queues|exact H|]. intros i s.
  assert (chain i s (boot l) = None) as -> by (unfold chain; destruct i as [|[]]; done).
  split; [by exists []|constructor|done|by intros []|done].
Qed.

(** C20. Turns are served within their limits and in line, by each instance of an agent on its own.
    However surfaces ask for slots, use them or give them back, and reloads replace the instance under
    them: an instance never has more turns in flight than its cap; what it counts is the turns that
    hold a slot of it and the slots it leaked, one for each turn whose meter could not be read; on one
    instance the turns of a session run one at a time, in the order they joined it, each after all
    before it are over; and whenever one waits, one runs or the first that waits can begin. *)
Theorem turns_in_line (l : Limits) (r : Runtime) (Hr : rtc step (boot l) r) :
  (forall i a, instances r !! i = Some a -> inFlight a = holders i (turns r) + leaked i (turns r) /\
     forall cap, maxConcurrentTurns (limits a) = Some cap -> inFlight a <= Z.max 0 cap) /\
  forall i s, exists w, queue i s (lined r) = queue i s (begun r) ++ w /\
    all_over (turns r) (removelast (queue i s (begun r))) /\
    (forall n, turns r !! n = Some (Running i s) -> last (queue i s (begun r)) = Some n) /\
    (forall n w', w = n :: w' -> (exists m, turns r !! m = Some (Running i s)) \/ forall x, is_Some (resume_turn n x r)).
Proof.
  split.
  { intros i a Ha. destruct (run_slots l r Hr) as [H _]. destruct (H i a Ha) as [E Hcap]. rewrite slots_split in E. by split. }
  intros i s. pose proof (run_queues l r Hr i s) as Hq.
  destruct (lo_split _ _ _ _ _ _ Hq) as (w & El & Hw). exists w. split_and!; [done|by eapply begun_over| |].
  - intros n Hn. assert (n ∈ queue i s (lined r)) as Hin by (by eapply (lo_seat _ _ _ _ _ _ Hq)).
    rewrite El in Hin. apply elem_of_app in Hin as [Hin|Hin]; apply list_elem_of_lookup in Hin as [k Hk].
    + destruct (lo_begun _ _ _ _ _ _ Hq k n Hk) as [E|[E|[_ E]]]; [congruence..|]. rewrite last_lookup, <- E. done.
    + destruct (Hw k n Hk) as (? & E & _). congruence.
  - intros n w' ->. destruct (Hw 0%nat n eq_refl) as (prev & En & Hp). unfold resume_turn. rewrite En.
    assert (prev = None \/ exists m, prev = Some m /\ m ∈ queue i s (begun r)) as Hprev.
    { destruct Hp as [->|(-> & _)]; [|by left]. rewrite take_0, app_nil_r. destruct (last (queue i s (begun r))) as [m|] eqn:E; [right|by left].
      exists m. split; [done|]. by apply last_Some_elem_of. }
    destruct Hprev as [->|(m & -> & Hm)]; [right; by eexists|]. apply list_elem_of_lookup in Hm as [k Hk].
    destruct (lo_begun _ _ _ _ _ _ Hq k m Hk) as [E|[E|[E _]]]; [right; rewrite E; by eexists..|left; by exists m].
Qed.

(** ** Runs *)

Fixpoint play (acts : list Act) (r : Runtime) : option Runtime :=
  match acts with [] => Some r | a :: acts => r' ← perform a r; play acts r' end.

Lemma play_run acts : forall r r', play acts r = Some r' -> rtc step r r'.
Proof.
  induction acts as [|a acts IH]; intros r r' H; [by injection H as ->|]. cbn in H. destruct (perform a r) as [r1|] eqn:E; [|done].
  eapply rtc_l; [by exists a|]. by apply IH.
Qed.

Definition plain : Limits := {| maxConcurrentTurns := Some 2; tokens := false; reloadHoldMs := None |}.
Definition metered : Limits := {| maxConcurrentTurns := None; tokens := true; reloadHoldMs := None |}.
Definition chat : Going := {| requested := js "api:a"; sessionResolved := true |}.
Definition fine : Reply := {| exhausted := false; resolved := []; throws := false |}.
Definition broken : Reply := {| exhausted := false; resolved := []; throws := true |}.

(** Two turns of one session, the first running; a reload that waits, and a third turn held for it. *)
Definition busy_run : list Act :=
  [Ask 0 (Some chat); Go 0 fine; Go 0 fine; Ask 0 (Some chat); Go 1 fine; Ask 0 None; Reload; OpGo 0 true plain; Fire 0;
   Ask 0 (Some chat); Go 3 fine].

Lemma turns_in_line_witness :
  exists r, play busy_run (boot plain) = Some r /\
    turns r = [Running 0 (js "api:a"); Chained 0 (js "api:a") (Some 0%nat); Done AtCapacity; Awaiting 0 chat] /\
    forall a, instances r !! 0%nat = Some a -> inFlight a <= 2.
Proof.
  destruct (play busy_run (boot plain)) as [r|] eqn:E; [|by vm_compute in E]. exists r. split; [done|].
  pose proof (turns_in_line plain r (play_run _ _ _ E)) as [H _]. vm_compute in E. injection E as <-. split; [reflexivity|].
  intros a Ha. apply (proj2 (H _ _ Ha) 2). injection Ha as <-. reflexivity.
Defined.

(** A meter that cannot be read keeps the slot: the agent is never idle again. *)
Lemma unread_meter_keeps_slot :
  exists r, play [Ask 0 None; Go 0 broken] (boot metered) = Some r /\ running 0 r = 1 /\
    forall n x, resume_turn n x r = None.
Proof. eexists. split; [vm_compute; reflexivity|]. split; [reflexivity|]. intros n x. by destruct n as [|[]]. Qed.
