(* ===== verification/Reload.v ===== *)
(** * Replacing an agent under its turns: [reload] of [runtime/runtime.ts]

    Over the model of [Serving]: a reload that waited swaps an instance nobody uses, and a turn held
    for a reload has someone to wait for; and the interleavings in which it has not. *)
From S2P Require Import Prelude UString Serving.
Local Open Scope Z_scope.

(** ** Reloads *)

Definition duty (a : Instance) : option nat * option nat * bool := (successor a, onIdle a, holding a).

(** The reload a turn waits for. *)
Definition waits (t : Turn) : option nat := match t with Deferred o _ | Awaiting o _ => Some o | _ => None end.

(** What a call of a turn does to everything else. *)
Record turned (r r1 : Runtime) : Prop := {
  tn_ops : ops r1 = ops r; tn_reloads : reloads r1 = reloads r; tn_hosted : hosted r1 = hosted r; tn_settled : settled r1 = settled r;
  tn_length : length (instances r1) = length (instances r);
  tn_inst : forall j a, instances r !! j = Some a -> exists a1, instances r1 !! j = Some a1 /\ duty a1 = duty a /\
    (inFlight a1 = inFlight a \/ (inFlight a1 = inFlight a + 1 /\ deferred a = None) \/
     (inFlight a1 = inFlight a - 1 /\ 0 < slots j (turns r)));
  tn_turns : forall m t p, turns r1 !! m = Some t -> waits t = Some p ->
    (exists m' t', turns r !! m' = Some t' /\ waits t' = Some p) \/ exists j a, instances r !! j = Some a /\ successor a = Some p }.

(** And then an instance without turns may call back. *)
Inductive ends (r r1 : Runtime) : Runtime -> Prop :=
| ends_there : (forall j a a1, instances r !! j = Some a -> instances r1 !! j = Some a1 -> inFlight a1 = inFlight a - 1 ->
    inFlight a1 <> 0 \/ onIdle a1 = None) -> ends r r1 r1
| ends_idle j a1 o : instances r1 !! j = Some a1 -> inFlight a1 = 0 -> onIdle a1 = Some o -> 0 < slots j (turns r) ->
    (forall k a a1, instances r !! k = Some a -> instances r1 !! k = Some a1 -> inFlight a1 = inFlight a - 1 -> k = j) ->
    ends r r1 (complete o r1).

Definition turn_effect (r r' : Runtime) : Prop := exists r1, turned r r1 /\ ends r r1 r'.

Lemma turned_of n t t0 i f r r1 : turns r !! n = Some t0 -> turns r1 = <[n:=t]> (turns r) -> instances r1 = alter f i (instances r) ->
  ops r1 = ops r -> reloads r1 = reloads r -> hosted r1 = hosted r -> settled r1 = settled r ->
  (forall a, duty (f a) = duty a) ->
  (forall a, instances r !! i = Some a -> inFlight (f a) = inFlight a \/ (inFlight (f a) = inFlight a + 1 /\ deferred a = None) \/
     (inFlight (f a) = inFlight a - 1 /\ 0 < slots i (turns r))) ->
  (waits t = None \/ waits t = waits t0 \/ exists a, instances r !! i = Some a /\ waits t = successor a) ->
  turned r r1.
Proof.
  intros Hn Et Ei ? ? ? ? Hd Hf Hw. split; try done.
  - by rewrite Ei, length_alter.
  - intros j a Ha. rewrite Ei. destruct (decide (j = i)) as [->|].
    + rewrite list_lookup_alter_eq, Ha. exists (f a). split; [done|]. split; [done|by apply Hf].
    + rewrite list_lookup_alter_ne by done. exists a. auto.
  - intros m x p Hx Hp. rewrite Et in Hx. destruct (decide (m = n)) as [->|].
    + rewrite list_lookup_insert_eq in Hx by (by eapply lookup_lt_Some). injection Hx as <-.
      destruct Hw as [E|[E|(a & Ha & E)]]; rewrite E in Hp; [done|left; by exists n, t0|right; by exists i, a].
    + rewrite list_lookup_insert_ne in Hx by done. left. by exists m, x.
Qed.

Lemma turned_set n t t0 r : turns r !! n = Some t0 -> waits t = None \/ waits t = waits t0 -> turned r (set_turn n t r).
Proof.
  intros Hn Hw. apply (turned_of n t t0 0 (fun a => a) r); auto; [|tauto]. cbn. apply list_eq. intros k.
  destruct (decide (k = 0%nat)) as [->|]; [|by rewrite list_lookup_alter_ne]. rewrite list_lookup_alter_eq. by destruct (instances r !! 0%nat).
Qed.

Lemma ends_steady r r1 : (forall j a a1, instances r !! j = Some a -> instances r1 !! j = Some a1 -> inFlight a <= inFlight a1) -> ends r r1 r1.
Proof. intros H. apply ends_there. intros j a a1 Ha Ha1. specialize (H j a a1 Ha Ha1). lia. Qed.

Lemma effect_refl r : turn_effect r r.
Proof.
  exists r. split; [|apply ends_steady; intros; simplify_eq; lia].
  split; try done; [intros j b Hb; exists b; auto|intros m x p Hx Hp; left; by exists m, x].
Qed.

Lemma effect_set n t t0 r : turns r !! n = Some t0 -> waits t = None \/ waits t = waits t0 -> turn_effect r (set_turn n t r).
Proof.
  intros. exists (set_turn n t r). split; [by eapply turned_set|]. apply ends_steady. intros j a a1 E1 E2. cbn in E2.
  rewrite E1 in E2. injection E2 as ->. lia.
Qed.

Lemma effect_alter n t t0 i f r r1 : turns r !! n = Some t0 -> turns r1 = <[n:=t]> (turns r) -> instances r1 = alter f i (instances r) ->
  ops r1 = ops r -> reloads r1 = reloads r -> hosted r1 = hosted r -> settled r1 = settled r ->
  (forall a, duty (f a) = duty a) ->
  (forall a, instances r !! i = Some a -> inFlight (f a) = inFlight a \/ (inFlight (f a) = inFlight a + 1 /\ deferred a = None)) ->
  (waits t = None \/ waits t = waits t0 \/ exists a, instances r !! i = Some a /\ waits t = successor a) ->
  turn_effect r r1.
Proof.
  intros Hn Et Ei ? ? ? ? Hd Hf Hw. exists r1. split.
  - eapply (turned_of n t t0 i f r); try done. intros a Ha. destruct (Hf a Ha); auto.
  - apply ends_steady. intros j a a1 Ha Ha1. rewrite Ei in Ha1. destruct (decide (j = i)) as [->|].
    + rewrite list_lookup_alter_eq, Ha in Ha1. injection Ha1 as <-. destruct (Hf a Ha); lia.
    + rewrite list_lookup_alter_ne, Ha in Ha1 by done. injection Ha1 as <-. lia.
Qed.

(** A slot comes back, with the callback where it was the last. *)
Lemma effect_settle n t t0 i (f : Instance -> Instance) r r1 : slots_ok r -> turns r !! n = Some t0 -> counted t0 = Some i ->
  turns r1 = <[n:=t]> (turns r) -> instances r1 = alter f i (instances r) ->
  ops r1 = ops r -> reloads r1 = reloads r -> hosted r1 = hosted r -> settled r1 = settled r ->
  (forall a, duty (f a) = duty a /\ inFlight (f a) = inFlight a) -> waits t = None -> turn_effect r (settle i r1).
Proof.
  intros Hs Hn H0 Et Ei E1 E2 E3 E4 Hf Hw.
  assert (0 < slots i (turns r)) as Hpos. { pose proof (slots_taken i n t0 _ Hn) as Hle. rewrite (takes_some i i t0 H0), decide_True in Hle; [lia|done]. }
  set (g := fun a => with_inFlight (fun n => n - 1) (f a)).
  set (r2 := on_instance i (with_inFlight (fun n => n - 1)) r1).
  assert (instances r2 = alter g i (instances r)) as Ei2 by (unfold r2; cbn; by rewrite Ei, alter_alter).
  exists r2. split.
  - eapply (turned_of n t t0 i g r); try done; [intros a; apply (Hf a)| |by left].
    intros a _. right. right. unfold g. cbn. rewrite (proj2 (Hf a)). lia.
  - unfold settle. fold r2. destruct Hs as [_ Hs]. specialize (Hs n t0 i Hn H0). apply lookup_lt_is_Some in Hs as [a Ha].
    rewrite Ei2, list_lookup_alter_eq, Ha. cbn [fmap option_fmap option_map].
    assert (forall j b b1, instances r !! j = Some b -> instances r2 !! j = Some b1 -> inFlight b1 = inFlight b - 1 -> j = i /\ b1 = g a) as Honly.
    { intros j b b1 Hb Hb1 E. rewrite Ei2 in Hb1. destruct (decide (j = i)) as [->|].
      - rewrite list_lookup_alter_eq, Ha in Hb1. injection Hb1 as <-. done.
      - rewrite list_lookup_alter_ne, Hb in Hb1 by done. injection Hb1 as <-. lia. }
    destruct (inFlight (g a) =? 0) eqn:Ez.
    + apply Z.eqb_eq in Ez. destruct (onIdle (g a)) as [o|] eqn:Eo.
      * eapply (ends_idle r r2 i (g a) o); [|done|done|done|]; [by rewrite Ei2, list_lookup_alter_eq, Ha|].
        intros k b b1 Hb Hb1 E. by destruct (Honly k b b1 Hb Hb1 E) as [-> _].
      * apply ends_there. intros j b b1 Hb Hb1 E. destruct (Honly j b b1 Hb Hb1 E) as [-> ->]. by right.
    + apply Z.eqb_neq in Ez. apply ends_there. intros j b b1 Hb Hb1 E. destruct (Honly j b b1 Hb Hb1 E) as [-> ->]. by left.
Qed.

Lemma effect_ask_slot i n go t0 r : turns r !! n = Some t0 -> turn_effect r (ask_slot i n go r).
Proof.
  intros Hn. unfold ask_slot. destruct (instances r !! i) as [a|] eqn:Ea; [|by eapply effect_set; [|left]].
  destruct (deferred a) as [o|] eqn:Ed.
  - eapply (effect_alter n (Deferred o go) t0 i one_held r); try done; [by left|]. right. right. exists a. split; [done|].
    unfold deferred in Ed. by destruct (holding a).
  - destruct (at_capacity a); [by eapply effect_set; [|left]|].
    eapply (effect_alter n _ t0 i (with_inFlight (fun n => n + 1)) r); try done; [|left; by destruct (tokens _)].
    intros a' Ha'. right. split; [done|congruence].
Qed.

Lemma effect_enqueue i n s t0 r : turns r !! n = Some t0 -> turn_effect r (enqueue i n s r).
Proof.
  intros Hn. unfold enqueue. destruct (instances r !! i) as [a|]; [|by eapply effect_set; [|left]].
  eapply (effect_alter n _ t0 i (with_chains (fun m => <[s:=n]> m)) r); try done; by left.
Qed.

Lemma effect_go_on i n g t0 r : turns r !! n = Some t0 -> turn_effect r (go_on i n g r).
Proof. intros Hn. unfold go_on. destruct (sessionResolved g); [by eapply effect_enqueue|by eapply effect_set; [|left]]. Qed.

Lemma effect_done i n out t0 r : slots_ok r -> turns r !! n = Some t0 -> counted t0 = Some i -> turn_effect r (settle i (set_turn n (Done out) r)).
Proof.
  intros Hs Hn H0. eapply (effect_settle n (Done out) t0 i (fun a => a) r); try done. cbn. apply list_eq. intros k.
  destruct (decide (k = i)) as [->|]; [|by rewrite list_lookup_alter_ne]. rewrite list_lookup_alter_eq. by destruct (instances r !! i).
Qed.

Lemma effect_turn n x r r' : slots_ok r -> resume_turn n x r = Some r' -> turn_effect r r'.
Proof.
  intros Hs. unfold resume_turn. intros H. destruct (turns r !! n) as [t|] eqn:Et; [|done].
  destruct t as [i go|i [g|]|o [g|]|o g|i g|i s prev|i s|i s|out|i]; try done.
  - injection H as <-. destruct (throws x); [by eapply effect_set; [|left]|].
    destruct (exhausted x); [by eapply effect_done|by eapply effect_set; [|left]].
  - injection H as <-. by eapply effect_go_on.
  - injection H as <-. by eapply effect_set; [|right].
  - destruct (settled r !! o) as [[j|]|]; [|by injection H as <-; eapply effect_set; [|left]|done].
    injection H as <-. by eapply effect_ask_slot.
  - injection H as <-. destruct (throws x); [by eapply effect_done|by eapply effect_enqueue].
  - destruct (match prev with None => true | Some m => over (turns r !! m) end); [|done]. injection H as <-.
    eapply (effect_alter n (Running i s) _ i (fun a => a) r); try done; [|by left..|by left].
    cbn. apply list_eq. intros k. destruct (decide (k = i)) as [->|]; [|by rewrite list_lookup_alter_ne].
    rewrite list_lookup_alter_eq. by destruct (instances r !! i).
  - injection H as <-. by eapply effect_set; [|left].
  - injection H as <-. by eapply (effect_settle n (Done Ran) _ i (with_chains _) r).
Qed.

Lemma effect_step a r r' : slots_ok r -> perform a r = Some r' ->
  match a with Ask _ _ | Send _ _ | Release _ | Go _ _ => turn_effect r r' | _ => True end.
Proof.
  intros Hs Ha. destruct a as [i go|n g|n|n x| | | | |]; try done; cbn in Ha.
  - injection Ha as <-. unfold ask. set (r0 := with_turns (turns r ++ [Done Failed]) r).
    assert (turns r0 !! length (turns r) = Some (Done Failed)) as Hn by (by apply list_lookup_middle).
    destruct (effect_ask_slot i _ go _ r0 Hn) as (r1 & Ht & He). exists r1.
    assert (forall j, slots j (turns r0) = slots j (turns r)) as Es by (intros j; unfold r0; cbn; rewrite slots_app; cbn; rewrite takes_none by done; lia).
    split.
    + destruct Ht as [? ? ? ? ? H6 H7]. split; try done.
      * intros j a Ha. destruct (H6 j a Ha) as (a1 & ? & ? & Hor). exists a1. split_and!; [done..|]. by rewrite Es in Hor.
      * intros m t p Hm Hp. destruct (H7 m t p Hm Hp) as [(m' & t' & Hm' & Hp')|?]; [left|by right].
        apply lookup_app_Some in Hm' as [Hm'|[_ Hm']]; [by exists m', t'|]. by apply list_lookup_singleton_Some in Hm' as [_ <-].
    + destruct He as [He|j a1 o ? ? ? He ?]; [by apply ends_there|]. eapply ends_idle; [done..| |done]. by rewrite <- Es.
  - injection Ha as <-. unfold send. destruct (turns r !! n) as [t|] eqn:Et; [|apply effect_refl].
    destruct t as [|i [|]|o [|]| | | | | | |]; try apply effect_refl; [by eapply effect_go_on|by eapply effect_set; [|right]].
  - injection Ha as <-. unfold release. destruct (turns r !! n) as [t|] eqn:Et; [|apply effect_refl].
    destruct t as [|i [|]|o [|]| | | | | | |]; try apply effect_refl; [by eapply effect_done|by eapply effect_set; [|left]].
  - by eapply effect_turn.
Qed.

Lemma turned_back r r1 j a1 : turned r r1 -> instances r1 !! j = Some a1 -> exists a, instances r !! j = Some a /\ duty a1 = duty a /\
  (inFlight a1 = inFlight a \/ (inFlight a1 = inFlight a + 1 /\ deferred a = None) \/ (inFlight a1 = inFlight a - 1 /\ 0 < slots j (turns r))).
Proof.
  intros Ht Ha1. assert (is_Some (instances r !! j)) as [a Ha].
  { apply lookup_lt_is_Some. rewrite <- (tn_length _ _ Ht). by eapply lookup_lt_Some. }
  destruct (tn_inst _ _ Ht j a Ha) as (a' & Ha' & ? & ?). rewrite Ha1 in Ha'. injection Ha' as <-. by exists a.
Qed.

(** An instance that is swapped holds new turns and has none in flight, one reload swaps it, and an
    instance calls back a reload of its own. *)
Record retire_ok (r : Runtime) : Prop := {
  ro_quiet : forall o i st, ops r !! o = Some (Swapping i st) ->
    exists a, instances r !! i = Some a /\ holding a = true /\ is_Some (successor a) /\ inFlight a = 0;
  ro_once : forall o o' i st st', ops r !! o = Some (Swapping i st) -> ops r !! o' = Some (Swapping i st') -> o' = o;
  ro_own : forall j a o, instances r !! j = Some a -> onIdle a = Some o -> is_Some (successor a) /\
    exists x, ops r !! o = Some x /\ (forall i, x <> Trying i) /\ (forall i b, x = Pending i b -> i = j) }.

Lemma retire_same r r' : instances r' = instances r -> ops r' = ops r -> retire_ok r -> retire_ok r'.
Proof. intros Ei Eo [H1 H2 H3]. split; rewrite ?Ei, ?Eo; done. Qed.

Lemma set_op_lookup o x r o' y : ops (set_op o x r) !! o' = Some y -> (o' = o /\ y = x /\ is_Some (ops r !! o)) \/ (o' <> o /\ ops r !! o' = Some y).
Proof.
  cbn. intros H. destruct (decide (o' = o)) as [->|]; [left|right; by rewrite list_lookup_insert_ne in H].
  assert (o < length (ops r))%nat as Hl by (apply lookup_lt_Some in H; by rewrite length_insert in H).
  rewrite list_lookup_insert_eq in H by done. injection H as <-. split_and!; [done..|]. by apply lookup_lt_is_Some.
Qed.

Lemma on_instance_lookup i f r j a : instances (on_instance i f r) !! j = Some a ->
  exists a0, instances r !! j = Some a0 /\ a = (if decide (j = i) then f a0 else a0).
Proof.
  cbn. destruct (decide (j = i)) as [->|]; [|rewrite list_lookup_alter_ne by done; by exists a].
  rewrite list_lookup_alter_eq. destruct (instances r !! i) as [a0|]; [|done]. intros [= <-]. by exists a0.
Qed.

(** A call becomes another that is neither pending nor about to be, and swaps nothing it did not. *)
Lemma retire_set_op o x x0 r : ops r !! o = Some x0 -> (forall i, x <> Trying i) -> (forall i b, x <> Pending i b) ->
  (forall i st, x = Swapping i st -> exists st0, x0 = Swapping i st0) -> retire_ok r -> retire_ok (set_op o x r).
Proof.
  intros Ho Ht Hp Hs H.
  assert (forall o' i st, ops (set_op o x r) !! o' = Some (Swapping i st) -> exists st0, ops r !! o' = Some (Swapping i st0)) as Hback.
  { intros o' i st [(-> & E & _)|[_ ?]]%set_op_lookup; [|by eexists]. symmetry in E. destruct (Hs i st E) as [st0 ->]. by eexists. }
  split.
  - intros o' i st (st0 & E)%Hback. by eapply (ro_quiet r).
  - intros o1 o2 i st st' (st1 & E1)%Hback (st2 & E2)%Hback. by eapply (ro_once r).
  - intros j a o' Ha Hi. destruct (ro_own r H j a o' Ha Hi) as (? & y & Hy & ? & ?). split; [done|]. cbn.
    destruct (decide (o' = o)) as [->|]; [|rewrite list_lookup_insert_ne by done; by exists y].
    exists x. rewrite list_lookup_insert_eq by (by eapply lookup_lt_Some). split_and!; [done..|]. intros i b ->. by destruct (Hp i b).
Qed.

Lemma retire_push x r : match x with Replacing _ | Trying _ | Disposing | Adopting => True | _ => False end -> retire_ok r ->
  retire_ok (with_ops (ops r ++ [x]) r).
Proof.
  intros Hx H. assert (forall o i st, (ops r ++ [x]) !! o = Some (Swapping i st) -> ops r !! o = Some (Swapping i st)) as Hback.
  { intros o i st [E|[_ E]]%lookup_app_Some; [done|]. apply list_lookup_singleton_Some in E as [_ ->]. done. }
  split; cbn.
  - intros o i st E%Hback. by eapply (ro_quiet r).
  - intros o1 o2 i st st' E1%Hback E2%Hback. by eapply (ro_once r).
  - intros j a o Ha Hi. destruct (ro_own r H j a o Ha Hi) as (? & y & Hy & ?). split; [done|]. exists y.
    split; [by apply lookup_app_l_Some|done].
Qed.

Lemma retire_abandon r : retire_ok r -> retire_ok (abandon r).
Proof.
  intros H. unfold abandon. destruct (reloads r) as [o|]; [|done].
  apply (retire_same (set_op o Finished r)); [done..|]. destruct (ops r !! o) as [x|] eqn:Eo; [by apply (retire_set_op o Finished x)|].
  apply (retire_same r); [done| |done]. cbn. by rewrite list_insert_ge by (by apply lookup_ge_None).
Qed.

Lemma retire_turned r r1 : slots_ok r -> turned r r1 -> retire_ok r -> retire_ok r1.
Proof.
  intros Hs Ht H. split.
  - intros o i st E. rewrite (tn_ops _ _ Ht) in E. destruct (ro_quiet r H o i st E) as (a & Ha & Hh & Hsu & Hz).
    destruct (tn_inst _ _ Ht i a Ha) as (a1 & Ha1 & Hd & Hf). exists a1. injection Hd as E1 E2 E3. rewrite E1, E3. split_and!; [done..|].
    destruct Hf as [->|[[_ Hd]|[_ Hd]]]; [done| |].
    + unfold deferred in Hd. rewrite Hh in Hd. rewrite Hd in Hsu. by destruct Hsu.
    + destruct Hs as [Hs _]. destruct (Hs i a Ha) as [Hs1 _]. lia.
  - intros o o' i st st'. rewrite (tn_ops _ _ Ht). apply (ro_once r H).
  - intros j a1 o Ha1 Hi. destruct (turned_back _ _ _ _ Ht Ha1) as (a & Ha & Hd & _). injection Hd as E1 E2 E3.
    rewrite E2 in Hi. rewrite E1, (tn_ops _ _ Ht). by apply (ro_own r H j a).
Qed.

Lemma retire_complete r r1 j a1 o : slots_ok r -> turned r r1 -> retire_ok r -> instances r1 !! j = Some a1 -> inFlight a1 = 0 ->
  onIdle a1 = Some o -> 0 < slots j (turns r) -> retire_ok (complete o r1).
Proof.
  intros Hs Ht H Ha1 Hz Hi Hpos. pose proof (retire_turned r r1 Hs Ht H) as H1. unfold complete.
  destruct (ops r1 !! o) as [x|] eqn:Eo; [|done]. destruct x as [|i b| | | | |]; try done. case_bool_decide; [|done].
  destruct (ro_own r1 H1 j a1 o Ha1 Hi) as (Hsu & x & Hx & _ & Hown). rewrite Eo in Hx. injection Hx as <-.
  specialize (Hown i b eq_refl) as ->.
  assert (forall o' st, ops r1 !! o' = Some (Swapping j st) -> False) as Hno.
  { intros o' st E. rewrite (tn_ops _ _ Ht) in E. destruct (ro_quiet r H o' j st E) as (a & Ha & _ & _ & Hz').
    destruct Hs as [Hs _]. destruct (Hs j a Ha) as [Hs1 _]. lia. }
  split.
  - intros o' i st [(-> & E & _)|[Hne E]]%set_op_lookup.
    + injection E as -> ->. exists (holdNewTurns a1). cbn. rewrite list_lookup_alter_eq, Ha1. split; [done|].
      split_and!; [|done..]. unfold holdNewTurns. cbn. by destruct Hsu as [? ->].
    + cbn in E. destruct (ro_quiet r1 H1 o' i st E) as (a & Ha & ?). exists a. cbn. rewrite list_lookup_alter_ne; [done|].
      intros ->. by eapply Hno.
  - intros o1 o2 i st st' [(-> & E1 & _)|[Hn1 E1]]%set_op_lookup [(-> & E2 & _)|[Hn2 E2]]%set_op_lookup; cbn in *; try done.
    + injection E1 as -> ->. by destruct (Hno o2 st').
    + injection E2 as -> ->. by destruct (Hno o1 st).
    + by eapply (ro_once r1 H1).
  - intros k a o' Ha Hk. apply on_instance_lookup in Ha as (a0 & Ha0 & ->). cbn in Ha0.
    assert (onIdle a0 = Some o' /\ is_Some (successor a0) -> is_Some (successor (if decide (k = j) then holdNewTurns a0 else a0))) as Hsu' by (by destruct (decide _); intros [_ ?]).
    assert (onIdle a0 = Some o') as Hk' by (by destruct (decide (k = j))).
    destruct (ro_own r1 H1 k a0 o' Ha0 Hk') as (? & y & Hy & ? & ?). split; [by apply Hsu'|]. cbn.
    destruct (decide (o' = o)) as [->|]; [|rewrite list_lookup_insert_ne by done; by exists y].
    eexists. rewrite list_lookup_insert_eq by (by eapply lookup_lt_Some). by split_and!.
Qed.

(** An instance that still holds new turns, or whose reload is over, may change otherwise. *)
Lemma retire_instance i f r : (forall a, inFlight (f a) = inFlight a) ->
  (forall a, instances r !! i = Some a -> (holding a = true /\ is_Some (successor a) -> holding (f a) = true /\ is_Some (successor (f a))) \/
     forall o st, ops r !! o <> Some (Swapping i st)) ->
  (forall a o, instances r !! i = Some a -> onIdle (f a) = Some o -> is_Some (successor (f a)) /\
     exists x, ops r !! o = Some x /\ (forall i, x <> Trying i) /\ (forall i' b, x = Pending i' b -> i' = i)) ->
  retire_ok r -> retire_ok (on_instance i f r).
Proof.
  intros Hf Hh Ho H. split.
  - intros o k st E. cbn in E. destruct (ro_quiet r H o k st E) as (a & Ha & Hha & Hsa & Hz). destruct (decide (k = i)) as [->|].
    + exists (f a). cbn. rewrite list_lookup_alter_eq, Ha. destruct (Hh a Ha) as [Hk|Hk]; [|by destruct (Hk o st)].
      destruct Hk as [? ?]; [done|]. rewrite Hf. by split_and!.
    + exists a. cbn. by rewrite list_lookup_alter_ne.
  - exact (ro_once r H).
  - intros j a o Ha Hi. apply on_instance_lookup in Ha as (a0 & Ha0 & ->). destruct (decide (j = i)) as [->|]; [by apply Ho|by apply (ro_own r H j a0)].
Qed.

Lemma retire_hold i r : retire_ok r -> retire_ok (on_instance i holdNewTurns r).
Proof.
  intros H. apply retire_instance; [done| | |done].
  - intros a _. left. intros [_ [o Eo]]. cbn. rewrite Eo. by split; [|eexists].
  - intros a o Ha Hi. by apply (ro_own r H i a).
Qed.

Lemma retire_register o i r : ops r !! o = Some (Trying i) -> retire_ok r -> retire_ok (register o i r).
Proof.
  intros Ho H. unfold register. set (ms := default 30000 _). set (b := negb (ms =? 0)).
  assert (retire_ok (set_op o (Pending i b) (on_instance i (retireInto o) r))) as H1.
  { assert (o < length (ops r))%nat as Hlen by (by eapply lookup_lt_Some). split.
    - intros o' k st [(_ & ? & _)|[_ E]]%set_op_lookup; [done|]. cbn in E. destruct (ro_quiet r H o' k st E) as (a & Ha & Hh & Hsu & Hz).
      cbn. destruct (decide (k = i)) as [->|]; [|exists a; by rewrite list_lookup_alter_ne].
      exists (retireInto o a). rewrite list_lookup_alter_eq, Ha. by split_and!; [..|eexists|].
    - intros o1 o2 k st st' [(_ & ? & _)|[_ E1]]%set_op_lookup [(_ & ? & _)|[_ E2]]%set_op_lookup; try done. by eapply (ro_once r H).
    - intros j a o' Ha Hi. cbn in Ha. apply on_instance_lookup in Ha as (a0 & Ha0 & ->). cbn. destruct (decide (j = i)) as [->|Hne].
      + injection Hi as <-. split; [by eexists|]. exists (Pending i b). rewrite list_lookup_insert_eq by done. split_and!; [done..|].
        by intros i' b' [= -> _].
      + destruct (ro_own r H j a0 o' Ha0 Hi) as (? & y & Hy & Hty & ?). split; [done|]. exists y.
        rewrite list_lookup_insert_ne; [done|]. intros ->. rewrite Ho in Hy. injection Hy as <-. by destruct (Hty i). }
  destruct (ms =? 0); [|by apply (retire_same (set_op o (Pending i b) (on_instance i (retireInto o) r)))].
  apply (retire_same (on_instance i holdNewTurns (set_op o (Pending i b) (on_instance i (retireInto o) r)))); [done..|]. by apply retire_hold.
Qed.

Lemma retire_fail o i st r : ops r !! o = Some (Swapping i st) -> retire_ok r -> retire_ok (fail_swap o i r).
Proof.
  intros Ho H. unfold fail_swap. assert (retire_ok (set_op o Finished r)) as H1 by (by apply (retire_set_op o Finished (Swapping i st))).
  case_bool_decide; [|by apply (retire_same (set_op o Finished r))].
  apply (retire_same (on_instance i cancelRetire (set_op o Finished r))); [done..|]. apply retire_instance; [done| |done|done].
  intros a _. right. intros o' st' [(_ & ? & _)|[Hne E]]%set_op_lookup; [done|]. by destruct Hne, (ro_once r H o o' i st st').
Qed.

Lemma retire_adopt l r r' : adopt l r = Some r' -> retire_ok r -> retire_ok r'.
Proof.
  unfold adopt. destruct (hosted r); [done|]. intros [= <-] H. split; cbn.
  - intros o i st E. destruct (ro_quiet r H o i st E) as (a & Ha & ?). exists a. split; [by apply lookup_app_l_Some|done].
  - exact (ro_once r H).
  - intros j a o [Ha|[_ Ha]]%lookup_app_Some Hi; [by apply (ro_own r H j a)|]. apply list_lookup_singleton_Some in Ha as [_ <-]. done.
Qed.

Lemma dispose_cases r r1 u : dispose r = (r1, u) ->
  (hosted r = None /\ r1 = r /\ u = Some false) \/
  (exists i, hosted r = Some i /\ r1 = abandon r /\ u = if 0 <? running i r1 then None else Some true).
Proof. unfold dispose. destruct (hosted r) as [i|]; intros [= <- <-]; [right; by exists i|by left]. Qed.

Lemma abandon_ops r o : ops (abandon r) !! o = ops r !! o \/ (reloads r = Some o /\ ops (abandon r) !! o = Some Finished).
Proof.
  unfold abandon. destruct (reloads r) as [o'|]; [|by left]. cbn. destruct (decide (o' = o)) as [->|]; [|left; by rewrite list_lookup_insert_ne].
  destruct (decide (o < length (ops r))%nat); [right; by rewrite list_lookup_insert_eq|left; by rewrite list_insert_ge by lia].
Qed.

(** The reload that [#reloads] names is pending. *)
Definition named_ok (r : Runtime) : Prop := forall o, reloads r = Some o -> exists i b, ops r !! o = Some (Pending i b).

Lemma named_set_op o x x0 r : ops r !! o = Some x0 -> (forall i b, x0 <> Pending i b) -> named_ok r -> named_ok (set_op o x r).
Proof.
  intros Ho Hx H o' Hr. destruct (H o' Hr) as (i & b & E). exists i, b. cbn. rewrite list_lookup_insert_ne; [done|].
  intros ->. rewrite Ho in E. injection E as ->. by destruct (Hx i b).
Qed.

Lemma named_none r : reloads r = None -> named_ok r.
Proof. intros E o Ho. congruence. Qed.

Lemma abandon_none r : reloads (abandon r) = None.
Proof. unfold abandon. by destruct (reloads r) eqn:E. Qed.

Lemma named_complete o r : named_ok r -> named_ok (complete o r).
Proof.
  intros H. unfold complete. destruct (ops r !! o) as [[]|]; try done. case_bool_decide; [|done]. by apply named_none.
Qed.

Lemma named_dispose r r1 u : dispose r = (r1, u) -> named_ok r -> named_ok r1.
Proof. intros [(_ & -> & _)|(i & _ & -> & _)]%dispose_cases H; [done|]. apply named_none, abandon_none. Qed.

Lemma named_fail o i st r : ops r !! o = Some (Swapping i st) -> named_ok r -> named_ok (fail_swap o i r).
Proof.
  intros Ho H. unfold fail_swap. case_bool_decide; by eapply named_set_op.
Qed.

Lemma dispose_op r r1 u o x : named_ok r -> dispose r = (r1, u) -> ops r !! o = Some x -> (forall i b, x <> Pending i b) ->
  ops r1 !! o = Some x.
Proof.
  intros H [(_ & -> & _)|(i & _ & -> & _)]%dispose_cases Ho Hx; [done|]. destruct (abandon_ops r o) as [->|[E _]]; [done|].
  destruct (H o E) as (k & b & E'). rewrite Ho in E'. injection E' as ->. by destruct (Hx k b).
Qed.

Lemma named_step r r' : slots_ok r -> step r r' -> named_ok r -> named_ok r'.
Proof.
  intros Hs [a Ha] H. pose proof (effect_step a r r' Hs Ha) as He.
  assert (turn_effect r r' -> named_ok r') as Hturn.
  { intros (r1 & Ht & Hends). assert (named_ok r1) as H1 by (intros o; rewrite (tn_reloads _ _ Ht), (tn_ops _ _ Ht); apply H).
    destruct Hends; [done|by apply named_complete]. }
  destruct a as [i go|n g|n|n x| |o| | |o ok l]; try (by apply Hturn); cbn in Ha.
  - injection Ha as <-. unfold reload. destruct (reloads r) eqn:E; [done|]. destruct (hosted r); [by apply named_none|done].
  - unfold fire in Ha. destruct (ops r !! o) as [[|i []| | | | |]|] eqn:Eo; try done. injection Ha as <-.
    intros o' Hr. cbn in *. destruct (H o' Hr) as (k & b & E). destruct (decide (o' = o)) as [->|]; [|rewrite list_lookup_insert_ne by done; eauto].
    exists i, false. rewrite list_lookup_insert_eq; [done|by eapply lookup_lt_Some].
  - destruct (dispose r) as [r1 u] eqn:Ed. injection Ha as <-. pose proof (named_dispose _ _ _ Ed H) as H1.
    case_bool_decide; [|done]. intros o Ho. cbn in *. destruct (H1 o Ho) as (k & b & E). exists k, b. by apply lookup_app_l_Some.
  - injection Ha as <-. destruct (hosted r); [done|]. intros o Ho. cbn in *. destruct (H o Ho) as (k & b & E). exists k, b. by apply lookup_app_l_Some.
  - unfold resume_op in Ha. destruct (ops r !! o) as [x|] eqn:Eo; [|done].
    assert (forall y r1, named_ok r1 -> ops r1 !! o = Some x -> (forall i b, x <> Pending i b) -> named_ok (set_op o y r1)) as Hset by (intros; by eapply named_set_op).
    assert (forall r1, adopt l r = Some r1 -> named_ok r1 /\ ops r1 = ops r) as Hadopt.
    { unfold adopt. intros r1. destruct (hosted r); [done|]. by intros [= <-]. }
    destruct x as [i| |i st|st| | |]; try done.
    + injection Ha as <-. destruct ok; [|by apply Hset]. intros o' [= <-]. cbn.
      exists i. eexists. rewrite list_lookup_insert_eq; [done|]. apply lookup_lt_Some in Eo. by destruct (_ =? 0).
    + destruct st; injection Ha as <-.
      * destruct ok; [|by eapply named_fail]. destruct (dispose r) as [r1 u] eqn:Ed. pose proof (named_dispose _ _ _ Ed H) as H1.
        pose proof (dispose_op r r1 u o (Swapping i STrial) H Ed Eo ltac:(done)) as E1. destruct u as [[]|]; [by apply Hset..|by eapply named_fail].
      * by apply (Hset _ (with_hosted None r)).
      * destruct ok; [|by eapply named_fail]. destruct (adopt l r) as [r1|] eqn:Ea; [|by eapply named_fail].
        destruct (Hadopt r1 eq_refl) as [H1 E1]. apply (Hset _ (settle_promise o (hosted r1) r1)); [done|cbn; congruence|done].
    + destruct st; injection Ha as <-.
      * destruct ok; [|by apply Hset]. destruct (dispose r) as [r1 u] eqn:Ed. pose proof (named_dispose _ _ _ Ed H) as H1.
        pose proof (dispose_op r r1 u o (Replacing STrial) H Ed Eo ltac:(done)) as E1. destruct u as [[]|]; by apply Hset.
      * by apply (Hset _ (with_hosted None r)).
      * destruct ok; [|by apply Hset]. destruct (adopt l r) as [r1|] eqn:Ea; [|by apply Hset].
        destruct (Hadopt r1 eq_refl) as [H1 E1]. apply Hset; [done|cbn; congruence|done].
    + injection Ha as <-. by apply (Hset _ (with_hosted None r)).
    + injection Ha as <-. destruct ok; [|by apply Hset]. destruct (adopt l r) as [r1|] eqn:Ea; [|by apply Hset].
      destruct (Hadopt r1 eq_refl) as [H1 E1]. apply Hset; [done|cbn; congruence|done].
Qed.

Lemma retire_step r r' : slots_ok r -> named_ok r -> step r r' -> retire_ok r -> retire_ok r'.
Proof.
  intros Hs Hn [a Ha] H. pose proof (effect_step a r r' Hs Ha) as He.
  assert (turn_effect r r' -> retire_ok r') as Hturn.
  { intros (r1 & Ht & Hends). destruct Hends; [by eapply retire_turned|by eapply retire_complete]. }
  destruct a as [i go|n g|n|n x| |o| | |o ok l]; try (by apply Hturn); cbn in Ha.
  - injection Ha as <-. unfold reload. destruct (reloads r); [done|]. destruct (hosted r); [|done]. apply retire_push; [|done].
    by destruct (_ =? 0).
  - unfold fire in Ha. destruct (ops r !! o) as [[|i []| | | | |]|] eqn:Eo; try done. injection Ha as <-.
    pose proof (retire_hold i r H) as H1. set (r1 := on_instance i holdNewTurns r) in *. split.
    + intros o' k st [(_ & ? & _)|[_ E]]%set_op_lookup; [done|]. by apply (ro_quiet r1 H1 o' k st).
    + intros o1 o2 k st st' [(_ & ? & _)|[_ E1]]%set_op_lookup [(_ & ? & _)|[_ E2]]%set_op_lookup; try done. by eapply (ro_once r1 H1).
    + intros j b o' Hb Hi. destruct (ro_own r1 H1 j b o' Hb Hi) as (? & y & Hy & ? & Hown). split; [done|]. cbn.
      destruct (decide (o' = o)) as [->|]; [|rewrite list_lookup_insert_ne by done; by exists y].
      exists (Pending i false). rewrite list_lookup_insert_eq by (by eapply lookup_lt_Some). split_and!; [done..|].
      intros i' b' [= <- _]. cbn in Hy. rewrite Eo in Hy. injection Hy as <-. by eapply Hown.
  - destruct (dispose r) as [r1 u] eqn:Ed. injection Ha as <-.
    assert (retire_ok r1) as H1 by (apply dispose_cases in Ed as [(_ & -> & _)|(i & _ & -> & _)]; [done|by apply retire_abandon]).
    case_bool_decide; [|done]. by apply retire_push.
  - injection Ha as <-. destruct (hosted r); [done|]. by apply retire_push.
  - unfold resume_op in Ha. destruct (ops r !! o) as [x|] eqn:Eo; [|done].
    assert (forall r1 u, dispose r = (r1, u) -> retire_ok r1) as Hdis.
    { intros r1 u [(_ & -> & _)|(i & _ & -> & _)]%dispose_cases; [done|by apply retire_abandon]. }
    assert (forall r1, adopt l r = Some r1 -> retire_ok r1 /\ ops r1 = ops r) as Hadopt.
    { intros r1 E. split; [by eapply retire_adopt|]. unfold adopt in E. destruct (hosted r); [done|]. by injection E as <-. }
    destruct x as [i| |i st|st| | |]; try done.
    + injection Ha as <-. destruct ok; [by apply retire_register|by apply (retire_set_op o Finished (Trying i))].
    + destruct st; injection Ha as <-.
      * destruct ok; [|by eapply retire_fail]. destruct (dispose r) as [r1 u] eqn:Ed. pose proof (Hdis r1 u eq_refl) as H1.
        pose proof (dispose_op r r1 u o (Swapping i STrial) Hn Ed Eo ltac:(done)) as E1.
        destruct u as [[]|]; [apply (retire_set_op o _ (Swapping i STrial)); try done; intros i' st [= <- <-]; by eexists..|by eapply retire_fail].
      * apply (retire_same (set_op o (Swapping i SAdopt) r)); [done..|]. apply (retire_set_op o _ (Swapping i SDispose)); try done.
        intros i' st [= <- <-]. by eexists.
      * destruct ok; [|by eapply retire_fail]. destruct (adopt l r) as [r1|] eqn:Ea; [|by eapply retire_fail].
        destruct (Hadopt r1 eq_refl) as [H1 E1]. apply (retire_same (set_op o Finished r1)); [done..|].
        apply (retire_set_op o _ (Swapping i SAdopt)); [by cbn; rewrite E1|done..].
    + destruct st; injection Ha as <-.
      * destruct ok; [|by apply (retire_set_op o _ (Replacing STrial))]. destruct (dispose r) as [r1 u] eqn:Ed. pose proof (Hdis r1 u eq_refl) as H1.
        pose proof (dispose_op r r1 u o (Replacing STrial) Hn Ed Eo ltac:(done)) as E1.
        destruct u as [[]|]; by apply (retire_set_op o _ (Replacing STrial)).
      * apply (retire_same (set_op o (Replacing SAdopt) r)); [done..|]. by apply (retire_set_op o _ (Replacing SDispose)).
      * destruct ok; [|by apply (retire_set_op o _ (Replacing SAdopt))]. destruct (adopt l r) as [r1|] eqn:Ea; [|by apply (retire_set_op o _ (Replacing SAdopt))].
        destruct (Hadopt r1 eq_refl) as [H1 E1]. apply (retire_set_op o _ (Replacing SAdopt)); [by cbn; rewrite E1|done..].
    + injection Ha as <-. apply (retire_same (set_op o Finished r)); [done..|]. by apply (retire_set_op o _ Disposing).
    + injection Ha as <-. destruct ok; [|by apply (retire_set_op o _ Adopting)]. destruct (adopt l r) as [r1|] eqn:Ea; [|by apply (retire_set_op o _ Adopting)].
      destruct (Hadopt r1 eq_refl) as [H1 E1]. apply (retire_set_op o _ Adopting); [by cbn; rewrite E1|done..].
Qed.

Lemma run_retire l r : rtc step (boot l) r -> slots_ok r /\ named_ok r /\ retire_ok r.
Proof.
  intros H. eapply (reachable_invariant step (fun r => slots_ok r /\ named_ok r /\ retire_ok r)); [|exact H|].
  - intros a b Hab (H1 & H2 & H3). split_and!; [by eapply step_slots|by eapply named_step|by eapply retire_step].
  - split_and!; [apply boot_slots|done|]. split; [done..|]. intros [|[]] a o Ha Hi; [by injection Ha as <-|done..].
Qed.

(** No turn holds a slot of an instance nor left one behind, and none will be given one. *)
Definition vacated (i : nat) (r : Runtime) : Prop :=
  (exists a p, instances r !! i = Some a /\ inFlight a = 0 /\ deferred a = Some p) /\
  (forall n t, turns r !! n = Some t -> counted t <> Some i).

(** ** Runs in which no call is under way when another begins *)

Definition resting (x : Op) : bool := match x with Finished | Pending _ _ => true | _ => false end.

(** A reload is asked for when no call is under way, an agent is disposed of or adopted when none is
    pending either, and a reload that waits finds a turn in flight when its trial is over. *)
Definition tidy (a : Act) (r : Runtime) : bool :=
  match a with
  | Reload => forallb resting (ops r)
  | Dispose | Adopt => forallb (fun x => match x with Finished => true | _ => false end) (ops r)
  | OpGo o true _ => match ops r !! o with Some (Trying i) => 0 <? running i r | _ => true end
  | _ => true
  end.

Definition tidy_step (r r' : Runtime) : Prop := exists a, tidy a r = true /\ perform a r = Some r'.

Lemma tidy_spec a r : tidy a r = true ->
  match a with
  | Reload => forall o x, ops r !! o = Some x -> resting x = true
  | Dispose | Adopt => forall o x, ops r !! o = Some x -> x = Finished
  | OpGo o true _ => forall i, ops r !! o = Some (Trying i) -> 0 < running i r
  | _ => True
  end.
Proof.
  assert (forall P o x, forallb P (ops r) = true -> ops r !! o = Some x -> P x = true) as Hall.
  { intros P o x H Hx. rewrite forallb_forall in H. apply H, list_elem_of_In. by eapply list_elem_of_lookup_2. }
  destruct a as [| | | | | | | |o [] l]; try done; cbn [tidy]; intros H.
  - intros o x. by apply Hall.
  - intros o x Hx. specialize (Hall _ o x H Hx). by destruct x.
  - intros o x Hx. specialize (Hall _ o x H Hx). by destruct x.
  - intros i E. rewrite E in H. by apply Z.ltb_lt.
Qed.

Definition live (p : nat) (r : Runtime) : Prop :=
  is_Some (settled r !! p) \/ exists i, (exists b, ops r !! p = Some (Pending i b)) \/ exists st, ops r !! p = Some (Swapping i st).

Record tidy_ok (r : Runtime) : Prop := {
  to_one : forall o o' x x', ops r !! o = Some x -> ops r !! o' = Some x' -> x <> Finished -> x' <> Finished -> o = o';
  to_named : forall o i b, ops r !! o = Some (Pending i b) -> reloads r = Some o;
  to_busy : forall o i b, ops r !! o = Some (Pending i b) ->
    exists a, instances r !! i = Some a /\ onIdle a = Some o /\ 0 < inFlight a;
  to_live : forall j a p, instances r !! j = Some a -> successor a = Some p -> live p r;
  to_waits : forall m t p, turns r !! m = Some t -> waits t = Some p -> live p r }.

Lemma live_same p r r' : ops r' = ops r -> settled r' = settled r -> live p r -> live p r'.
Proof. unfold live. by intros -> ->. Qed.

Lemma tidy_turned r r1 : turned r r1 -> tidy_ok r ->
  (forall k a a1, instances r !! k = Some a -> instances r1 !! k = Some a1 -> inFlight a1 = inFlight a - 1 ->
     inFlight a1 <> 0 \/ forall o i b, onIdle a1 = Some o -> ops r !! o <> Some (Pending i b)) -> tidy_ok r1.
Proof.
  intros Ht H Hk. assert (forall p, live p r -> live p r1) as Hl by (intros p; apply live_same; apply Ht). split.
  - rewrite (tn_ops _ _ Ht). apply (to_one r H).
  - rewrite (tn_ops _ _ Ht), (tn_reloads _ _ Ht). apply (to_named r H).
  - intros o i b E. rewrite (tn_ops _ _ Ht) in E. destruct (to_busy r H o i b E) as (a & Ha & Hi & Hpos).
    destruct (tn_inst _ _ Ht i a Ha) as (a1 & Ha1 & Hd & Hf). injection Hd as E1 E2 E3. exists a1. split_and!; [done|congruence|].
    destruct Hf as [->|[[-> _]|[Hm _]]]; [lia..|]. destruct (Hk i a a1 Ha Ha1 Hm) as [?|Hno]; [lia|]. destruct (Hno o i b); [congruence|done].
  - intros j a1 p Ha1 Hp. destruct (turned_back _ _ _ _ Ht Ha1) as (a & Ha & Hd & _). injection Hd as E1 _ _. apply Hl.
    rewrite E1 in Hp. by eapply (to_live r H).
  - intros m t p Hm Hp. apply Hl. destruct (tn_turns _ _ Ht m t p Hm Hp) as [(m' & t' & ? & ?)|(j & a & ? & ?)];
      [by eapply (to_waits r H)|by eapply (to_live r H)].
Qed.

(** The call that is under way goes on. *)
Lemma tidy_set_op o x x0 r r' : ops r !! o = Some x0 -> resting x0 = false -> (forall i b, x <> Pending i b) ->
  (forall i st, x0 = Swapping i st -> (exists st', x = Swapping i st') \/ is_Some (settled r' !! o)) ->
  ops r' = <[o:=x]> (ops r) -> turns r' = turns r -> (forall p, is_Some (settled r !! p) -> is_Some (settled r' !! p)) ->
  (forall j a p, instances r' !! j = Some a -> successor a = Some p -> exists j0 a0, instances r !! j0 = Some a0 /\ successor a0 = Some p) ->
  tidy_ok r -> tidy_ok r'.
Proof.
  intros Ho Hr Hx Hs Eo Et Hset Hinst H.
  assert (forall o' y, ops r !! o' = Some y -> y <> Finished -> o' = o) as Hone.
  { intros o' y Hy Hf. symmetry. eapply (to_one r H); [exact Ho|exact Hy|by intros ->|done]. }
  assert (forall o' i b, ops r' !! o' = Some (Pending i b) -> False) as Hno.
  { intros o' i b E. rewrite Eo in E. destruct (decide (o' = o)) as [->|Hne].
    - rewrite list_lookup_insert_eq in E by (by eapply lookup_lt_Some). injection E as E. by destruct (Hx i b).
    - rewrite list_lookup_insert_ne in E by done. by destruct Hne, (Hone o' _ E). }
  assert (forall p, live p r -> live p r') as Hl.
  { intros p [?|(i & [(b & E)|(st & E)])]; [by left; apply Hset|..].
    - assert (p = o) as -> by (by eapply Hone). rewrite Ho in E. injection E as ->. done.
    - assert (p = o) as -> by (by eapply Hone). rewrite Ho in E. injection E as ->.
      destruct (Hs i st eq_refl) as [[st' ->]|?]; [|by left]. right. exists i. right. exists st'. rewrite Eo.
      rewrite list_lookup_insert_eq; [done|by eapply lookup_lt_Some]. }
  split.
  - intros o1 o2 x1 x2 H1 H2 Hf1 Hf2. rewrite Eo in H1, H2. assert (forall o' y, <[o:=x]> (ops r) !! o' = Some y -> y <> Finished -> o' = o) as Hone'.
    { intros o' y Hy Hf. destruct (decide (o' = o)); [done|]. rewrite list_lookup_insert_ne in Hy by done. by eapply Hone. }
    rewrite (Hone' o1 x1 H1 Hf1). symmetry. by eapply Hone'.
  - intros o' i b E. by destruct (Hno o' i b E).
  - intros o' i b E. by destruct (Hno o' i b E).
  - intros j a p Ha Hp. destruct (Hinst j a p Ha Hp) as (j0 & a0 & ? & ?). apply Hl. by eapply (to_live r H).
  - intros m t p Hm Hp. rewrite Et in Hm. apply Hl. by eapply (to_waits r H).
Qed.

Lemma tidy_push x r : (forall o y, ops r !! o = Some y -> y = Finished) -> resting x = false -> tidy_ok r -> tidy_ok (with_ops (ops r ++ [x]) r).
Proof.
  intros Hf Hx H. assert (forall o y, (ops r ++ [x]) !! o = Some y -> y <> Finished -> o = length (ops r) /\ y = x) as Hone.
  { intros o y [E|[Hlen E]]%lookup_app_Some Hy; [by destruct Hy, (Hf o y E)|]. apply list_lookup_singleton_Some in E as [? <-]. split; [lia|done]. }
  assert (forall p, live p r -> live p (with_ops (ops r ++ [x]) r)) as Hl.
  { intros p [?|(i & [(b & E)|(st & E)])]; [by left|by apply Hf in E..]. }
  split; cbn.
  - intros o1 o2 x1 x2 H1 H2 ? ?. destruct (Hone o1 x1 H1) as [-> _]; [done|]. by destruct (Hone o2 x2 H2) as [-> _].
  - intros o i b E. destruct (Hone o _ E) as [_ <-]; done.
  - intros o i b E. destruct (Hone o _ E) as [_ <-]; done.
  - intros j a p Ha Hp. apply Hl. by eapply (to_live r H).
  - intros m t p Hm Hp. apply Hl. by eapply (to_waits r H).
Qed.

Lemma tidy_complete r r1 j a1 o : retire_ok r -> turned r r1 -> tidy_ok r -> instances r1 !! j = Some a1 -> inFlight a1 = 0 ->
  onIdle a1 = Some o ->
  (forall k a a1, instances r !! k = Some a -> instances r1 !! k = Some a1 -> inFlight a1 = inFlight a - 1 -> k = j) ->
  tidy_ok (complete o r1).
Proof.
  intros Hret Ht H Ha1 Hz Hi Hk. destruct (turned_back _ _ _ _ Ht Ha1) as (a & Ha & Hd & _). injection Hd as _ Ed2 _.
  rewrite Hi in Ed2. symmetry in Ed2. destruct (ro_own r Hret j a o Ha Ed2) as (_ & x & Hx & _ & Hown).
  assert ((forall i b, x <> Pending i b) -> tidy_ok r1) as Hquiet.
  { intros Hnp. apply (tidy_turned r r1 Ht H). intros k b b1 Hb Hb1 E. right. intros o' i c Ho'.
    pose proof (Hk k b b1 Hb Hb1 E) as ->. rewrite Ha1 in Hb1. injection Hb1 as <-. rewrite Hi in Ho'. injection Ho' as <-.
    rewrite Hx. intros [= ->]. by destruct (Hnp i c). }
  unfold complete. rewrite (tn_ops _ _ Ht), Hx. destruct x as [|i b| | | | |]; try by apply Hquiet.
  specialize (Hown i b eq_refl) as ->. rewrite (tn_reloads _ _ Ht), (to_named r H o j b Hx), bool_decide_eq_true_2 by done.
  set (r' := set_op o _ _). assert (ops r' = <[o:=Swapping j STrial]> (ops r)) as Eo by (unfold r'; cbn; by rewrite (tn_ops _ _ Ht)).
  assert (forall o' y, ops r' !! o' = Some y -> y <> Finished -> o' = o /\ y = Swapping j STrial) as Hone.
  { intros o' y Hy Hf. rewrite Eo in Hy. destruct (decide (o' = o)) as [->|Hne].
    - rewrite list_lookup_insert_eq in Hy by (by eapply lookup_lt_Some). by injection Hy as <-.
    - rewrite list_lookup_insert_ne in Hy by done. destruct Hne. symmetry. by eapply (to_one r H o o' _ _ Hx Hy). }
  assert (forall p, live p r -> live p r') as Hl.
  { intros p [?|(i & Hp)]; [left; unfold r'; cbn; by rewrite (tn_settled _ _ Ht)|]. right. exists j. right. exists STrial. rewrite Eo.
    assert (p = o) as ->; [|rewrite list_lookup_insert_eq; [done|by eapply lookup_lt_Some]].
    symmetry. destruct Hp as [[c Hp]|[st Hp]]; by eapply (to_one r H o p _ _ Hx Hp). }
  split.
  - intros o1 o2 x1 x2 H1 H2 Hf1 Hf2. destruct (Hone o1 x1 H1 Hf1) as [-> _]. by destruct (Hone o2 x2 H2 Hf2) as [-> _].
  - intros o' i c E. by destruct (Hone o' _ E).
  - intros o' i c E. by destruct (Hone o' _ E).
  - intros k b' p Hb' Hp. unfold r' in Hb'. change (instances (set_op _ _ ?x)) with (instances x) in Hb'.
    apply on_instance_lookup in Hb' as (b0 & Hb0 & ->). cbn in Hb0.
    assert (successor b0 = Some p) as Hp' by (by destruct (decide (k = j))).
    destruct (turned_back _ _ _ _ Ht Hb0) as (b1 & Hb1 & Hd & _). injection Hd as E1 _ _. rewrite E1 in Hp'. apply Hl. by eapply (to_live r H).
  - intros m t p Hm Hp. apply Hl. destruct (tn_turns _ _ Ht m t p Hm Hp) as [(m' & t' & ? & ?)|(k & b' & ? & ?)];
      [by eapply (to_waits r H)|by eapply (to_live r H)].
Qed.

Lemma tidy_register o i r : ops r !! o = Some (Trying i) -> 0 < running i r -> tidy_ok r -> tidy_ok (register o i r).
Proof.
  intros Ho Hpos H. unfold running in Hpos. destruct (instances r !! i) as [a|] eqn:Ha; [|done].
  assert (o < length (ops r))%nat as Hlen by (by eapply lookup_lt_Some).
  unfold register. set (ms := default 30000 _). set (b := negb (ms =? 0)).
  set (f := fun a => if ms =? 0 then holdNewTurns (retireInto o a) else retireInto o a).
  set (r' := with_reloads (Some o) _).
  assert (instances r' = alter f i (instances r)) as Ei by (unfold r', f; destruct (ms =? 0); cbn; [apply alter_alter|done]).
  assert (ops r' = <[o:=Pending i b]> (ops r)) as Eo by (unfold r'; by destruct (ms =? 0)).
  assert (turns r' = turns r /\ settled r' = settled r) as [Et Es] by (unfold r'; by destruct (ms =? 0)).
  assert (forall a, successor (f a) = Some o /\ onIdle (f a) = Some o /\ inFlight (f a) = inFlight a) as Hf by (intros x; unfold f; by destruct (ms =? 0)).
  assert (forall o' y, ops r' !! o' = Some y -> y <> Finished -> o' = o /\ y = Pending i b) as Hone.
  { intros o' y Hy Hf'. rewrite Eo in Hy. destruct (decide (o' = o)) as [->|Hne].
    - rewrite list_lookup_insert_eq in Hy by done. by injection Hy as <-.
    - rewrite list_lookup_insert_ne in Hy by done. destruct Hne. symmetry. by eapply (to_one r H o o' _ _ Ho Hy). }
  assert (live o r') as Hlo by (right; exists i; left; exists b; rewrite Eo; by rewrite list_lookup_insert_eq).
  assert (forall p, live p r -> live p r') as Hl.
  { intros p [?|(k & Hp)]; [left; by rewrite Es|]. exfalso.
    destruct Hp as [[c Hp]|[st Hp]]; assert (o = p) as <- by (by eapply (to_one r H o p _ _ Ho Hp)); congruence. }
  split.
  - intros o1 o2 x1 x2 H1 H2 Hf1 Hf2. destruct (Hone o1 x1 H1 Hf1) as [-> _]. by destruct (Hone o2 x2 H2 Hf2) as [-> _].
  - intros o' k c E. by destruct (Hone o' _ E) as [-> _].
  - intros o' k c E. destruct (Hone o' _ E) as [-> Ek]; [done|]. injection Ek as -> _. exists (f a).
    rewrite Ei, list_lookup_alter_eq, Ha. destruct (Hf a) as (_ & ? & ->). done.
  - intros k x p Hx Hp. rewrite Ei in Hx. destruct (decide (k = i)) as [->|].
    + rewrite list_lookup_alter_eq, Ha in Hx. injection Hx as <-. destruct (Hf a) as (E & _). rewrite E in Hp. by injection Hp as <-.
    + rewrite list_lookup_alter_ne in Hx by done. apply Hl. by eapply (to_live r H).
  - intros m t p Hm Hp. rewrite Et in Hm. apply Hl. by eapply (to_waits r H).
Qed.

Lemma tidy_reloads r : named_ok r -> tidy_ok r -> (forall o i b, ops r !! o <> Some (Pending i b)) -> reloads r = None.
Proof. intros Hn _ H. destruct (reloads r) as [o|] eqn:E; [|done]. destruct (Hn o E) as (i & b & Ho). by destruct (H o i b). Qed.

Lemma tidy_dispose r r1 u : reloads r = None -> dispose r = (r1, u) -> r1 = r.
Proof. intros E [(_ & -> & _)|(i & _ & -> & _)]%dispose_cases; [done|]. unfold abandon. by rewrite E. Qed.

Lemma tidy_fail o i st r : ops r !! o = Some (Swapping i st) -> tidy_ok r -> tidy_ok (fail_swap o i r).
Proof.
  intros Ho H. unfold fail_swap. eapply (tidy_set_op o Finished (Swapping i st) r); try done.
  - intros i' st' _. right. case_bool_decide; cbn; rewrite lookup_insert_eq; by eexists.
  - by case_bool_decide.
  - by case_bool_decide.
  - intros p Hp. case_bool_decide; cbn; destruct (decide (p = o)) as [->|]; rewrite ?lookup_insert_eq, ?lookup_insert_ne by done; try done; by eexists.
  - intros j a p Ha Hp. case_bool_decide; [|by exists j, a]. change (instances (set_op _ _ ?x)) with (instances x) in Ha.
    change (instances (settle_promise _ _ ?x)) with (instances x) in Ha. apply on_instance_lookup in Ha as (a0 & Ha0 & ->).
    destruct (decide (j = i)); [done|]. by exists j, a0.
Qed.

Lemma tidy_under_way o x r : ops r !! o = Some x -> resting x = false -> named_ok r -> tidy_ok r -> reloads r = None.
Proof.
  intros Ho Hx Hn H. apply tidy_reloads; [done..|]. intros o' i b E.
  assert (o = o') as <- by (eapply (to_one r H); [exact Ho|exact E|by intros ->|done]). by rewrite Ho in E; injection E as ->.
Qed.

Lemma step_tidy r r' : slots_ok r -> named_ok r -> retire_ok r -> tidy_step r r' -> tidy_ok r -> tidy_ok r'.
Proof.
  intros Hs Hn Hret (a & Hty%tidy_spec & Ha) H. pose proof (effect_step a r r' Hs Ha) as He.
  assert (turn_effect r r' -> tidy_ok r') as Hturn.
  { intros (r1 & Ht & Hends). destruct Hends as [Hk|]; [|by eapply tidy_complete]. apply (tidy_turned r r1 Ht H).
    intros k b b1 Hb Hb1 E. destruct (Hk k b b1 Hb Hb1 E) as [?|E']; [by left|right]. intros o i c. by rewrite E'. }
  destruct a as [i go|n g|n|n x| |o| | |o ok l]; try (by apply Hturn); cbn in Ha.
  - injection Ha as <-. unfold reload. destruct (reloads r) as [o|] eqn:Er; [done|]. destruct (hosted r); [|done].
    apply tidy_push; [|by destruct (_ =? 0)|done]. intros o y Hy. specialize (Hty o y Hy). destruct y as [|i b| | | | |]; try done.
    by rewrite (to_named r H o i b Hy) in Er.
  - unfold fire in Ha. destruct (ops r !! o) as [[|i []| | | | |]|] eqn:Eo; try done. injection Ha as <-.
    assert (o < length (ops r))%nat as Hlen by (by eapply lookup_lt_Some).
    assert (forall o' y, ops r !! o' = Some y -> y <> Finished -> o' = o) as Hone.
    { intros o' y Hy Hf. symmetry. by eapply (to_one r H o o' _ _ Eo Hy). }
    set (r' := set_op o (Pending i false) (on_instance i holdNewTurns r)).
    assert (forall o' y, ops r' !! o' = Some y -> y <> Finished -> o' = o /\ y = Pending i false) as Hone'.
    { intros o' y [(-> & -> & _)|[Hne E]]%set_op_lookup Hf; [done|]. by destruct Hne, (Hone o' y E Hf). }
    assert (forall p, live p r -> live p r') as Hl.
    { intros p [?|(k & Hp)]; [by left|]. right. exists i. left. exists false.
      assert (p = o) as -> by (destruct Hp as [[c Hp]|[st Hp]]; by eapply Hone). cbn. by rewrite list_lookup_insert_eq. }
    split.
    + intros o1 o2 x1 x2 H1 H2 Hf1 Hf2. destruct (Hone' o1 x1 H1 Hf1) as [-> _]. by destruct (Hone' o2 x2 H2 Hf2) as [-> _].
    + intros o' k c E. destruct (Hone' o' _ E) as [-> _]; [done|]. by apply (to_named r H o i true).
    + intros o' k c E. destruct (Hone' o' _ E) as [-> Ek]; [done|]. injection Ek as -> _.
      destruct (to_busy r H o i true Eo) as (a & Ha & ? & ?). exists (holdNewTurns a). cbn. by rewrite list_lookup_alter_eq, Ha.
    + intros k a p Ha Hp. change (instances r') with (instances (on_instance i holdNewTurns r)) in Ha.
      apply on_instance_lookup in Ha as (a0 & Ha0 & ->). apply Hl. eapply (to_live r H k a0); [done|]. by destruct (decide (k = i)).
    + intros m t p Hm Hp. apply Hl. by eapply (to_waits r H).
  - assert (reloads r = None) as Er by (apply tidy_reloads; [done..|]; intros o i b E; by specialize (Hty o _ E)).
    destruct (dispose r) as [r1 u] eqn:Ed. injection Ha as <-. rewrite (tidy_dispose _ _ _ Er Ed). case_bool_decide; [|done]. by apply tidy_push.
  - injection Ha as <-. destruct (hosted r); [done|]. by apply tidy_push.
  - unfold resume_op in Ha. destruct (ops r !! o) as [x|] eqn:Eo; [|done].
    assert (resting x = false -> forall r1 u, dispose r = (r1, u) -> r1 = r) as Hdis.
    { intros Hx r1 u. apply tidy_dispose. by eapply tidy_under_way. }
    assert (forall r1, adopt l r = Some r1 -> r1 = with_hosted (Some (length (instances r))) (with_instances (instances r ++ [create l]) r)) as Hadopt.
    { unfold adopt. intros r1. destruct (hosted r); [done|]. by intros [= <-]. }
    assert (forall y r1, resting x = false -> resting y = false \/ y = Finished -> (forall i st, x = Swapping i st -> exists st', y = Swapping i st') ->
      ops r1 = ops r -> turns r1 = turns r -> settled r1 = settled r -> instances r1 = instances r \/ instances r1 = instances r ++ [create l] ->
      tidy_ok (set_op o y r1)) as Hset.
    { intros y r1 Hx Hy Hsw E1 E2 E3 E4. eapply (tidy_set_op o y x r); try done.
      - intros i b ->. by destruct Hy.
      - intros i st ->. left. by apply Hsw with st.
      - cbn. by rewrite E1.
      - intros p. cbn. by rewrite E3.
      - intros j a p Hj Hp. cbn in Hj. destruct E4 as [E4|E4]; rewrite E4 in Hj; [by exists j, a|].
        apply lookup_app_Some in Hj as [Hj|[_ Hj]]; [by exists j, a|]. by apply list_lookup_singleton_Some in Hj as [_ <-]. }
    destruct x as [i| |i st|st| | |]; try done.
    + injection Ha as <-. destruct ok; [apply tidy_register; [done|by apply Hty|done]|]. by apply Hset; auto.
    + destruct st; injection Ha as <-.
      * destruct ok; [|by eapply tidy_fail]. destruct (dispose r) as [r1 u] eqn:Ed. rewrite (Hdis eq_refl r1 u eq_refl) in *.
        destruct u as [[]|]; [..|by eapply tidy_fail]; (apply Hset; auto; intros k st [= <- <-]; by eexists).
      * apply (Hset _ (with_hosted None r)); auto. intros k st [= <- <-]. by eexists.
      * destruct ok; [|by eapply tidy_fail]. destruct (adopt l r) as [r1|] eqn:Ea; [|by eapply tidy_fail].
        rewrite (Hadopt r1 eq_refl). eapply (tidy_set_op o Finished (Swapping i SAdopt) r); try done.
        -- intros k st _. right. cbn. rewrite lookup_insert_eq. by eexists.
        -- intros p Hp. cbn. destruct (decide (p = o)) as [->|]; [rewrite lookup_insert_eq; by eexists|by rewrite lookup_insert_ne].
        -- intros j a p Hj Hp. cbn in Hj. apply lookup_app_Some in Hj as [Hj|[_ Hj]]; [by exists j, a|].
           by apply list_lookup_singleton_Some in Hj as [_ <-].
    + destruct st; injection Ha as <-.
      * destruct ok; [|by apply Hset; auto]. destruct (dispose r) as [r1 u] eqn:Ed. rewrite (Hdis eq_refl r1 u eq_refl) in *.
        destruct u as [[]|]; by apply Hset; auto.
      * by apply (Hset _ (with_hosted None r)); auto.
      * destruct ok; [|by apply Hset; auto]. destruct (adopt l r) as [r1|] eqn:Ea; [|by apply Hset; auto].
        rewrite (Hadopt r1 eq_refl). by apply Hset; auto.
    + injection Ha as <-. by apply (Hset _ (with_hosted None r)); auto.
    + injection Ha as <-. destruct ok; [|by apply Hset; auto]. destruct (adopt l r) as [r1|] eqn:Ea; [|by apply Hset; auto].
      rewrite (Hadopt r1 eq_refl). by apply Hset; auto.
Qed.

Lemma run_tidy l r : rtc tidy_step (boot l) r -> slots_ok r /\ tidy_ok r.
Proof.
  intros H. assert ((slots_ok r /\ named_ok r /\ retire_ok r) /\ tidy_ok r) as [(? & _) ?]; [|done].
  eapply (reachable_invariant tidy_step (fun r => (slots_ok r /\ named_ok r /\ retire_ok r) /\ tidy_ok r)); [|exact H|].
  - intros a b Hab [(H1 & H2 & H3) H4]. assert (step a b) as Hst by (destruct Hab as (x & _ & Hx); by exists x).
    split; [|by eapply step_tidy]. split_and!; [by eapply step_slots|by eapply named_step|by eapply retire_step].
  - split; [apply (run_retire l (boot l)); constructor|]. split; try (by intros ? []); try done. intros [|[]] a p Ha Hp; [by injection Ha as <-|done..].
Qed.

(** *** The heir of an instance that a reload is pending on, or swaps, is that reload *)

Definition concerns (i : nat) (x : Op) : Prop := (exists b, x = Pending i b) \/ exists st, x = Swapping i st.
Definition heir_ok (r : Runtime) : Prop := forall o i x, ops r !! o = Some x -> concerns i x ->
  exists a, instances r !! i = Some a /\ successor a = Some o.
Definition keeps_heirs (r r' : Runtime) : Prop := forall i a, instances r !! i = Some a ->
  exists a', instances r' !! i = Some a' /\ successor a' = successor a.

Lemma heir_same r r' : (forall o i x, ops r' !! o = Some x -> concerns i x -> exists x0, ops r !! o = Some x0 /\ concerns i x0) ->
  keeps_heirs r r' -> heir_ok r -> heir_ok r'.
Proof.
  intros Hk Hi H o i x Ho Hx. destruct (Hk o i x Ho Hx) as (x0 & Ho0 & Hx0). destruct (H o i x0 Ho0 Hx0) as (a & Ea & Es).
  destruct (Hi i a Ea) as (a' & Ea' & E). exists a'. split; [done|congruence].
Qed.

Lemma keeps_alter i f r r' : instances r' = alter f i (instances r) -> (forall a, successor (f a) = successor a) -> keeps_heirs r r'.
Proof.
  intros Ei Hf j a Ha. rewrite Ei. destruct (decide (j = i)) as [->|]; [rewrite list_lookup_alter_eq|rewrite list_lookup_alter_ne by done];
    rewrite Ha; cbn; eauto.
Qed.
Lemma keeps_same r r' : instances r' = instances r -> keeps_heirs r r'.
Proof. intros Ei i a. rewrite Ei. eauto. Qed.

Lemma heir_set_op o x x0 r1 r : ops r !! o = Some x0 -> ops r1 = ops r -> (forall i, concerns i x -> concerns i x0) -> keeps_heirs r r1 ->
  heir_ok r -> heir_ok (set_op o x r1).
Proof.
  intros Ho Eo Hc Hi. apply heir_same; [|done]. intros o' i y [(-> & -> & _)|[_ Hy]]%set_op_lookup Hy'; [by exists x0; auto|].
  rewrite Eo in Hy. by exists y.
Qed.

Lemma heir_turned r r1 : turned r r1 -> heir_ok r -> heir_ok r1.
Proof.
  intros Ht. apply heir_same; [rewrite (tn_ops _ _ Ht); eauto|]. intros i a Ha. destruct (tn_inst _ _ Ht i a Ha) as (a1 & Ha1 & Hd & _).
  exists a1. split; [done|]. by injection Hd.
Qed.

Lemma heir_complete o r : heir_ok r -> heir_ok (complete o r).
Proof.
  unfold complete. destruct (ops r !! o) as [[|i b| | | | |]|] eqn:Eo; try done. case_bool_decide; [|done].
  apply (heir_set_op o _ (Pending i b)); [done|done| |by apply (keeps_alter i holdNewTurns)].
  intros k [[? [=]]|[? [= <- _]]]. left. by eexists.
Qed.

Lemma heir_push x r : (forall i, ~ concerns i x) -> heir_ok r -> heir_ok (with_ops (ops r ++ [x]) r).
Proof.
  intros Hx. apply heir_same; [|by apply keeps_same]. intros o i y [Hy|[_ Hy]]%lookup_app_Some Hc; [eauto|].
  apply list_lookup_singleton_Some in Hy as [_ <-]. by destruct (Hx i).
Qed.

(** A swap that fails leaves nothing pending. *)
Lemma heir_fail o i st r : tidy_ok r -> ops r !! o = Some (Swapping i st) -> heir_ok (fail_swap o i r).
Proof.
  intros H Ho o' k x Hx Hc. exfalso. assert (ops (fail_swap o i r) = <[o:=Finished]> (ops r)) as E by (unfold fail_swap; by case_bool_decide).
  rewrite E in Hx. destruct (decide (o' = o)) as [->|Hne].
  - rewrite list_lookup_insert_eq in Hx by (by eapply lookup_lt_Some). injection Hx as <-. by destruct Hc as [[? [=]]|[? [=]]].
  - rewrite list_lookup_insert_ne in Hx by done. apply Hne. eapply (to_one r H o' o); [exact Hx|exact Ho|intros ->|done].
    by destruct Hc as [[? [=]]|[? [=]]].
Qed.

Lemma heir_register o i r : tidy_ok r -> ops r !! o = Some (Trying i) -> 0 < running i r -> heir_ok (register o i r).
Proof.
  intros H Ho Hpos o' k x Hx Hc. unfold running in Hpos. destruct (instances r !! i) as [a|] eqn:Ha; [|done].
  unfold register in *. set (ms := default 30000 _) in *.
  assert (o' = o /\ k = i) as [-> ->].
  { assert (<[o:=Pending i (negb (ms =? 0))]> (ops r) !! o' = Some x) as Hx' by (by destruct (ms =? 0)). destruct (decide (o' = o)) as [->|Hne].
    - rewrite list_lookup_insert_eq in Hx' by (by eapply lookup_lt_Some). injection Hx' as <-. split; [done|]. by destruct Hc as [[? [= ->]]|[? [=]]].
    - rewrite list_lookup_insert_ne in Hx' by done. destruct Hne. eapply (to_one r H o' o); [exact Hx'|exact Ho|intros ->|done].
      by destruct Hc as [[? [=]]|[? [=]]]. }
  destruct (ms =? 0); cbn; rewrite !list_lookup_alter_eq, Ha; cbn; eauto.
Qed.

Lemma heir_step r r' : slots_ok r -> named_ok r -> tidy_ok r -> tidy_step r r' -> heir_ok r -> heir_ok r'.
Proof.
  intros Hs Hn H (a & Hty%tidy_spec & Ha) Hh. pose proof (effect_step a r r' Hs Ha) as He.
  assert (turn_effect r r' -> heir_ok r') as Hturn.
  { intros (r1 & Ht & Hends). apply heir_turned in Ht; [|done]. destruct Hends; [done|by apply heir_complete]. }
  destruct a as [i go|n g|n|n x| |o| | |o ok l]; try (by apply Hturn); cbn in Ha.
  - injection Ha as <-. unfold reload. destruct (reloads r); [done|]. destruct (hosted r); [|done].
    apply heir_push; [|done]. destruct (_ =? 0); by intros k [[? [=]]|[? [=]]].
  - unfold fire in Ha. destruct (ops r !! o) as [[|i []| | | | |]|] eqn:Eo; try done. injection Ha as <-.
    apply (heir_set_op o _ (Pending i true) _ r); [done|done| |by apply (keeps_alter i holdNewTurns)|done].
    intros k [[? [= <- _]]|[? [=]]]. left. by eexists.
  - assert (reloads r = None) as Er by (apply tidy_reloads; [done..|]; intros o i b E; by specialize (Hty o _ E)).
    destruct (dispose r) as [r1 u] eqn:Ed. injection Ha as <-. rewrite (tidy_dispose _ _ _ Er Ed). case_bool_decide; [|done].
    apply heir_push; [|done]. by intros k [[? [=]]|[? [=]]].
  - injection Ha as <-. destruct (hosted r); [done|]. apply heir_push; [|done]. by intros k [[? [=]]|[? [=]]].
  - unfold resume_op in Ha. destruct (ops r !! o) as [x|] eqn:Eo; [|done].
    assert (resting x = false -> forall r1 u, dispose r = (r1, u) -> r1 = r) as Hdis.
    { intros Hx r1 u. apply tidy_dispose. by eapply tidy_under_way. }
    assert (forall r1, adopt l r = Some r1 -> ops r1 = ops r /\ keeps_heirs r r1) as Hadopt.
    { unfold adopt. intros r1. destruct (hosted r); [done|]. intros [= <-]. split; [done|]. intros k b Hk. exists b. split; [|done].
      cbn. by apply lookup_app_l_Some. }
    assert (forall y r1, ops r1 = ops r -> keeps_heirs r r1 -> (forall i, concerns i y -> concerns i x) -> heir_ok (set_op o y r1)) as Hset
      by (intros y r1 ? ? ?; by eapply heir_set_op).
    assert (forall i, ~ concerns i Finished) as Hfin by (by intros k [[? [=]]|[? [=]]]).
    destruct x as [i| |i st|st| | |]; try done.
    + injection Ha as <-. destruct ok; [apply heir_register; [done..|by apply Hty]|]. apply Hset; [done|by apply keeps_same|by intros k Hk%Hfin].
    + assert (forall k st', concerns k (Swapping i st') -> concerns k (Swapping i st)) as Hgo
        by (intros k st' [[? [=]]|[? [= <- _]]]; right; by eexists).
      destruct st; injection Ha as <-.
      * destruct ok; [|by eapply heir_fail]. destruct (dispose r) as [r1 u] eqn:Ed. rewrite (Hdis eq_refl r1 u eq_refl) in *.
        destruct u as [[]|]; [..|by eapply heir_fail]; (apply Hset; [done|by apply keeps_same|intros k; apply Hgo]).
      * apply (Hset _ (with_hosted None r)); [done|by apply keeps_same|intros k; apply Hgo].
      * destruct ok; [|by eapply heir_fail]. destruct (adopt l r) as [r1|] eqn:Ea; [|by eapply heir_fail].
        destruct (Hadopt r1 eq_refl) as [E1 E2]. apply (Hset _ (settle_promise o (hosted r1) r1)); [done|done|by intros k Hk%Hfin].
    + assert (forall k st', ~ concerns k (Replacing st')) as Hno by (by intros k st' [[? [=]]|[? [=]]]).
      destruct st; injection Ha as <-.
      * destruct ok; [|by apply Hset; [done|apply keeps_same|intros k Hk%Hfin]]. destruct (dispose r) as [r1 u] eqn:Ed.
        rewrite (Hdis eq_refl r1 u eq_refl) in *. destruct u as [[]|]; (apply Hset; [done|by apply keeps_same|]); by intros k ?%Hno || intros k ?%Hfin.
      * apply (Hset _ (with_hosted None r)); [done|by apply keeps_same|by intros k ?%Hno].
      * destruct ok; [|by apply Hset; [done|apply keeps_same|intros k Hk%Hfin]]. destruct (adopt l r) as [r1|] eqn:Ea;
          [destruct (Hadopt r1 eq_refl) as [E1 E2]; apply Hset; [done|done|by intros k ?%Hfin]|by apply Hset; [done|apply keeps_same|intros k Hk%Hfin]].
    + injection Ha as <-. apply (Hset _ (with_hosted None r)); [done|by apply keeps_same|by intros k ?%Hfin].
    + injection Ha as <-. destruct ok; [|by apply Hset; [done|apply keeps_same|intros k Hk%Hfin]]. destruct (adopt l r) as [r1|] eqn:Ea;
        [destruct (Hadopt r1 eq_refl) as [E1 E2]; apply Hset; [done|done|by intros k ?%Hfin]|by apply Hset; [done|apply keeps_same|intros k Hk%Hfin]].
Qed.

Lemma run_heir l r : rtc tidy_step (boot l) r -> heir_ok r.
Proof.
  intros H. assert ((slots_ok r /\ named_ok r /\ retire_ok r) /\ tidy_ok r /\ heir_ok r) as (_ & _ & ?); [|done].
  eapply (reachable_invariant tidy_step (fun r => (slots_ok r /\ named_ok r /\ retire_ok r) /\ tidy_ok r /\ heir_ok r)); [|exact H|].
  - intros a b Hab [(H1 & H2 & H3) [H4 H5]]. assert (step a b) as Hst by (destruct Hab as (x & _ & Hx); by exists x).
    split_and!; [by eapply step_slots|by eapply named_step|by eapply retire_step|by eapply step_tidy|by eapply heir_step].
  - split; [apply (run_retire l (boot l)); constructor|]. split; [|by intros o]. apply (run_tidy l (boot l)). constructor.
Qed.

(** *** How a swap ends *)

(** It goes on; or the instance hosted then, new or old, is what its promise is settled with; or there
    is none, and the promise is rejected. *)
Definition swap_outcome (o i : nat) (r' : Runtime) : Prop :=
  (exists st, ops r' !! o = Some (Swapping i st)) \/
  (ops r' !! o = Some Finished /\
   ((exists j, hosted r' = Some j /\ settled r' !! o = Some (Some j)) \/ (hosted r' <> Some i /\ settled r' !! o = Some None))).

Lemma fail_swap_outcome o i r x : ops r !! o = Some x -> swap_outcome o i (fail_swap o i r).
Proof.
  intros Ho%lookup_lt_Some. unfold fail_swap. case_bool_decide as E; right; (split; [cbn; by rewrite list_lookup_insert_eq|]); cbn;
    rewrite lookup_insert_eq; [left|right]; eauto.
Qed.

Lemma resume_swap o i st ok l r r' : named_ok r -> ops r !! o = Some (Swapping i st) -> resume_op o ok l r = Some r' -> swap_outcome o i r'.
Proof.
  intros Hn Ho. unfold resume_op. rewrite Ho. assert (o < length (ops r))%nat as Hlen by (by eapply lookup_lt_Some). destruct st; intros [= <-].
  - destruct ok; [|by eapply fail_swap_outcome]. destruct (dispose r) as [r1 u] eqn:Ed.
    pose proof (dispose_op r r1 u o (Swapping i STrial) Hn Ed Ho ltac:(done)) as E1. pose proof (lookup_lt_Some _ _ _ E1).
    destruct u as [[]|]; [left; cbn; rewrite list_lookup_insert_eq by done; by eexists..|by eapply fail_swap_outcome].
  - left. cbn. rewrite list_lookup_insert_eq by done. by eexists.
  - destruct ok; [|by eapply fail_swap_outcome]. unfold adopt. destruct (hosted r); [by eapply fail_swap_outcome|]. right. cbn.
    rewrite list_lookup_insert_eq by done. split; [done|]. left. rewrite lookup_insert_eq. by eexists.
Qed.

(** C21. A reload that waited swaps the agent only once its turns are over. However turns, reloads,
    disposals and adoptions interleave, from the moment the swap begins until it ends no turn holds a
    slot of the instance that is replaced, whoever asks it for one is held for a reload's promise
    instead, and no other reload that waited swaps it; the swap ends with its own promise settled,
    with the replacement or with the old instance where that is still hosted, or rejected where the
    old one is gone. In runs where no call of the runtime begins while another is under way, and a
    reload that waits finds a turn in flight once its trial is over, those held then wait for this
    very reload, and no other call replaces, disposes of or adopts the agent meanwhile. (Calls that
    overlap can: a reload that found the agent idle may replace it during the swap.) *)
Theorem swap_is_quiet (l : Limits) (r : Runtime) (o i : nat) (st : Stage) (Hr : rtc step (boot l) r)
  (Ho : ops r !! o = Some (Swapping i st)) :
  vacated i r /\
  (forall o' st', ops r !! o' = Some (Swapping i st') -> o' = o) /\
  (forall ok l' r', resume_op o ok l' r = Some r' -> swap_outcome o i r') /\
  (rtc tidy_step (boot l) r ->
   (exists a, instances r !! i = Some a /\ deferred a = Some o) /\ forall o' x, ops r !! o' = Some x -> x <> Finished -> o' = o).
Proof.
  destruct (run_retire l r Hr) as (Hs & Hn & H). destruct (ro_quiet r H o i st Ho) as (a & Ha & Hh & [p Hp] & Hz). unfold vacated. split_and!.
  - exists a, p. unfold deferred. by rewrite Hh.
  - intros n t Ht Hsl. destruct Hs as [Hs _]. destruct (Hs i a Ha) as [E _]. pose proof (slots_taken i n t _ Ht) as Hle.
    rewrite (takes_some i i t Hsl), decide_True in Hle by done. lia.
  - intros o' st' Ho'. by eapply (ro_once r H).
  - intros ok l' r'. by apply resume_swap with st.
  - intros Htidy. destruct (run_tidy l r Htidy) as [_ Ht]. split.
    + destruct (run_heir l r Htidy o i _ Ho) as (a' & Ha' & E); [right; by eexists|]. exists a'. split; [done|]. unfold deferred. simplify_eq. by rewrite Hh.
    + intros o' x Hx Hf. by eapply (to_one r Ht o' o).
Qed.

(** No turn waits for nothing. When no call of the runtime begins while another is under way, and
    a reload that waits finds a turn in flight once its trial is over, then whatever else interleaves,
    a turn that was held for a reload can go on at once, or the swap it waits for is under way, or
    that reload is pending on an instance which calls it back and still has a turn in flight. *)
Theorem held_turns_wait_for_someone (l : Limits) (r : Runtime) (n o : nat) (t : Turn) (Hr : rtc tidy_step (boot l) r)
  (Ht : turns r !! n = Some t) (Hw : waits t = Some o) :
  is_Some (settled r !! o) \/
  (exists i st, ops r !! o = Some (Swapping i st) /\ forall ok l, is_Some (resume_op o ok l r)) \/
  exists i b a, ops r !! o = Some (Pending i b) /\ reloads r = Some o /\ instances r !! i = Some a /\ onIdle a = Some o /\
    exists m t', turns r !! m = Some t' /\ counted t' = Some i.
Proof.
  destruct (run_tidy l r Hr) as [Hs H]. destruct (to_waits r H n t o Ht Hw) as [?|(i & [(b & E)|(st & E)])]; [by left|..].
  - right. right. destruct (to_busy r H o i b E) as (a & Ha & Hi & Hpos). exists i, b, a. split_and!; [done|by apply (to_named r H o i b)|done..|].
    destruct Hs as [Hs _]. destruct (Hs i a Ha) as [Hsl _]. rewrite Hsl in Hpos. clear -Hpos.
    induction (turns r) as [|x ts IH]; [done|]. cbn in Hpos. destruct (decide (counted x = Some i)) as [Ex|Ex]; [by exists 0%nat, x|].
    destruct IH as (m & t' & ? & ?); [|by exists (S m), t']. unfold takes in Hpos. rewrite bool_decide_eq_false_2 in Hpos by done. lia.
  - right. left. exists i, st. split; [done|]. intros ok l'. unfold resume_op. rewrite E. by destruct st.
Qed.

(** ** Runs *)

Fixpoint all_tidy (acts : list Act) (r : Runtime) : bool :=
  match acts with [] => true | a :: acts => tidy a r && match perform a r with Some r' => all_tidy acts r' | None => true end end.

Lemma play_tidy acts : forall r r', all_tidy acts r = true -> play acts r = Some r' -> rtc tidy_step r r'.
Proof.
  induction acts as [|a acts IH]; intros r r' Ht H; [by injection H as ->|]. cbn in Ht, H. apply andb_true_iff in Ht as [Ht1 Ht2].
  destruct (perform a r) as [r1|] eqn:E; [|done]. eapply rtc_l; [by exists a|]. by apply IH.
Qed.

Lemma held_turns_wait_for_someone_witness :
  exists r, play busy_run (boot plain) = Some r /\ settled r !! 0%nat = None /\
    exists i b a, ops r !! 0%nat = Some (Pending i b) /\ reloads r = Some 0%nat /\ instances r !! i = Some a /\ onIdle a = Some 0%nat /\
      exists m t', turns r !! m = Some t' /\ counted t' = Some i.
Proof.
  destruct (play busy_run (boot plain)) as [r|] eqn:E; [|by vm_compute in E]. exists r. split; [done|].
  pose proof (play_tidy busy_run (boot plain) r ltac:(vm_compute; reflexivity) E) as Hr.
  pose proof (held_turns_wait_for_someone plain r 3 0 (Awaiting 0 chat) Hr) as H. vm_compute in E. injection E as <-.
  split; [reflexivity|]. destruct (H eq_refl eq_refl) as [H1|[H1|H1]]; [by destruct H1|by destruct H1 as (i & st & H1 & _)|exact H1].
Defined.

(** The turns end, the swap begins. *)
Lemma swap_is_quiet_witness :
  exists r, play (busy_run ++ [Go 0 fine; Go 0 fine; Go 1 fine; Go 1 fine; Go 1 fine]) (boot plain) = Some r /\
    ops r = [Swapping 0 STrial] /\ vacated 0 r.
Proof.
  destruct (play (busy_run ++ [Go 0 fine; Go 0 fine; Go 1 fine; Go 1 fine; Go 1 fine]) (boot plain)) as [r|] eqn:E; [|by vm_compute in E].
  exists r. split; [done|]. pose proof (swap_is_quiet plain r 0 0 STrial (play_run _ _ _ E)) as H.
  vm_compute in E. injection E as <-. split; [reflexivity|]. exact (proj1 (H eq_refl)).
Defined.

(** And the held turn runs on the replacement. *)
Example swapped : (fun r => (hosted r, turns r)) <$>
  play (busy_run ++ [Go 0 fine; Go 0 fine; Go 1 fine; Go 1 fine; Go 1 fine; OpGo 0 true plain; OpGo 0 true plain; OpGo 0 true plain;
    Go 3 fine; Go 3 fine; Go 3 fine]) (boot plain) =
  Some (Some 1%nat, [Done Ran; Done Ran; Done AtCapacity; Running 1 (js "api:a")]).
Proof. by vm_compute. Qed.

(** ** What goes wrong *)

(** The only turn ends while the reload tries the manifest: nobody calls back, and from the time the
    timer holds new turns on, every turn waits for a swap that does not come. *)
Lemma turn_ends_during_trial :
  exists r, play [Ask 0 (Some chat); Go 0 fine; Go 0 fine; Reload; Go 0 fine; Go 0 fine; OpGo 0 true plain; Fire 0;
      Ask 0 (Some chat); Go 1 fine] (boot plain) = Some r /\
    turns r = [Done Ran; Awaiting 0 chat] /\ ops r = [Pending 0 false] /\ running 0 r = 0 /\
    (forall a, perform a r <> None -> match a with Go _ _ | Fire _ | OpGo _ _ _ => False | _ => True end) /\ perform Reload r = Some r.
Proof.
  eexists. split; [vm_compute; reflexivity|]. split_and!; [reflexivity..| |reflexivity].
  intros [| | |n x| |o| | |o ok l] H; try done; apply H; vm_compute.
  - by destruct n as [|[|[]]].
  - by destruct o as [|[]].
  - by destruct o as [|[]].
Qed.

(** A disposal that is refused because a turn runs abandons the pending reload all the same: its
    promise is rejected, the instance goes on holding, and every later turn fails. *)
Lemma refused_disposal_strands :
  exists r, play [Ask 0 (Some chat); Go 0 fine; Go 0 fine; Reload; OpGo 0 true plain; Fire 0; Dispose; Go 0 fine; Go 0 fine;
      Ask 0 (Some chat); Go 1 fine; Go 1 fine] (boot plain) = Some r /\
    hosted r = Some 0%nat /\ turns r = [Done Ran; Done Failed] /\ deferred <$> instances r !! 0%nat = Some (Some 0%nat).
Proof. eexists. split; [vm_compute; reflexivity|]. by split_and!. Qed.

(** Replaced when idle, an instance is not retired: a surface that found it before the swap runs its
    turn on it after, next to one of the same session on the new instance. *)
Lemma stale_instance_serves :
  exists r, play [Reload; OpGo 0 true plain; OpGo 0 true plain; OpGo 0 true plain; Ask 0 (Some chat); Go 0 fine; Go 0 fine;
      Ask 1 (Some chat); Go 1 fine; Go 1 fine] (boot plain) = Some r /\
    hosted r = Some 1%nat /\ turns r = [Running 0 (js "api:a"); Running 1 (js "api:a")].
Proof. eexists. split; [vm_compute; reflexivity|]. by split_and!. Qed.

