(* ===== verification/Lease.v ===== *)
(** * Who serves an agent: [runtime/lease.ts] and the lease table

    The store grants or refuses; [live] decides, from what the operating system answers,
    whether a holder is dead. What the system answers is a [Probe], chosen per claim. The
    second half is the protocol between processes: probing and claiming are separate
    steps, and processes are born and die between them. *)
From S2P Require Import Prelude UString.
Local Open Scope Z_scope.

Definition LEASE_STALE_MS : Z := 90000.
Definition LEASE_BEAT_MS : Z := 30000.
Definition LEASE_REUSE_FACTOR : Z := 30.

Inductive RuntimeMode := Daemon | Terminal | Embedded.

#[export] Instance RuntimeMode_eq_dec : EqDecision RuntimeMode.
Proof. solve_decision. Defined.

(** Timestamps in milliseconds; a heartbeat that does not parse is [None]. *)
Record LeaseRecord := {
  agentId : ustring; runtimeId : ustring; pid : Z; mode : RuntimeMode;
  startedAt : Z; heartbeatAt : option Z; baseUrl : option ustring }.

#[export] Instance LeaseRecord_eq_dec : EqDecision LeaseRecord.
Proof. solve_decision. Defined.

Abbreviation Leases := (gmap (list Z) LeaseRecord).

(** ** The table *)

Inductive LeaseClaim :=
| Granted (lease : LeaseRecord) (tookOver : option LeaseRecord)
| Refused (held : LeaseRecord).

Record ClaimInput := {
  c_agentId : ustring; c_runtimeId : ustring; c_pid : Z; c_mode : RuntimeMode; c_now : Z;
  c_stealFrom : option ustring }.

Definition lease_of (i : ClaimInput) : LeaseRecord :=
  {| agentId := c_agentId i; runtimeId := c_runtimeId i; pid := c_pid i; mode := c_mode i;
     startedAt := c_now i; heartbeatAt := Some (c_now i); baseUrl := None |}.

(** One transaction. *)
Definition claim (i : ClaimInput) (db : Leases) : LeaseClaim * Leases :=
  match db !! c_agentId i with
  | Some held =>
      if bool_decide (runtimeId held = c_runtimeId i) then
        (Granted (lease_of i) None, <[c_agentId i := lease_of i]> db)
      else if bool_decide (c_stealFrom i = Some (runtimeId held)) then
        (Granted (lease_of i) (Some held), <[c_agentId i := lease_of i]> db)
      else (Refused held, db)
  | None => (Granted (lease_of i) None, <[c_agentId i := lease_of i]> db)
  end.

Definition with_heartbeat (t : Z) (l : LeaseRecord) : LeaseRecord :=
  {| agentId := agentId l; runtimeId := runtimeId l; pid := pid l; mode := mode l;
     startedAt := startedAt l; heartbeatAt := Some t; baseUrl := baseUrl l |}.
Definition with_url (u : ustring) (l : LeaseRecord) : LeaseRecord :=
  {| agentId := agentId l; runtimeId := runtimeId l; pid := pid l; mode := mode l;
     startedAt := startedAt l; heartbeatAt := heartbeatAt l; baseUrl := Some u |}.

(** [WHERE agent_id = ? AND runtime_id = ?]. *)
Definition held_by (agent rid : ustring) (db : Leases) : option LeaseRecord :=
  match db !! agent with
  | Some l => if bool_decide (runtimeId l = rid) then Some l else None
  | None => None
  end.

Definition beat (agent rid : ustring) (now : Z) (db : Leases) : bool * Leases :=
  match held_by agent rid db with
  | Some l => (true, <[agent := with_heartbeat now l]> db)
  | None => (false, db)
  end.

Definition publish (rid url : ustring) (db : Leases) : Leases :=
  (fun l => if bool_decide (runtimeId l = rid) then with_url url l else l) <$> db.

Definition release (agent rid : ustring) (db : Leases) : Leases :=
  match held_by agent rid db with
  | Some _ => delete agent db
  | None => db
  end.

(** ** Liveness *)

(** What a claimant sees: which pids exist, the executable behind pid 1, and the runtimes
    alive in its own process. *)
Record Probe := {
  alive : Z -> bool; executableOf : Z -> option ustring; LIVE_RUNTIMES : list ustring }.

(** What may follow the name: dotted digits, or nothing. *)
Definition version_suffix (s : ustring) : bool :=
  match s with [] => true | _ => forallb all_digits (split_on 46 s) end.

(** [RUNTIME_EXECUTABLES.test]. *)
Definition is_runtime_executable (s : ustring) : bool :=
  existsb (fun name => starts_with name s && version_suffix (drop (length name) s))
    [js "node"; js "nodejs"; js "bun"].

Definition live (p : Probe) (own_pid now : Z) (lease : LeaseRecord) : bool :=
  if negb (alive p (pid lease)) then false
  else if (pid lease =? own_pid) && negb (bool_decide (runtimeId lease ∈ LIVE_RUNTIMES p))
  then false
  else if (pid lease =? 1) &&
          match executableOf p 1 with
          | Some executable => negb (is_runtime_executable executable)
          | None => false
          end
  then false
  else
    match heartbeatAt lease with
    | None => true
    | Some beat => now - beat <? LEASE_STALE_MS * LEASE_REUSE_FACTOR
    end.

(** ** Claiming at boot *)

Record ClaimOptions := {
  agentIds : list ustring; o_runtimeId : ustring; o_mode : RuntimeMode; now : Z; o_pid : Z;
  exclusive : bool; probe : Probe }.

Record LeaseOutcome := {
  owned : list ustring; tookOver : list LeaseRecord; declined : list LeaseRecord }.

(** The [stealFrom] of a claim: the holder the probe calls dead. *)
Definition verdict (o : ClaimOptions) (held : option LeaseRecord) : option ustring :=
  match held with
  | Some l =>
      if negb (bool_decide (runtimeId l = o_runtimeId o)) &&
         negb (live (probe o) (o_pid o) (now o) l)
      then Some (runtimeId l) else None
  | None => None
  end.

Definition claim_input (o : ClaimOptions) (agent : ustring) (steal : option ustring)
  : ClaimInput :=
  {| c_agentId := agent; c_runtimeId := o_runtimeId o; c_pid := o_pid o; c_mode := o_mode o;
     c_now := now o; c_stealFrom := steal |}.

(** The loop, where no other process acts between a probe and its claim. *)
Fixpoint claim_all (o : ClaimOptions) (agents : list ustring) (db : Leases)
  : LeaseOutcome * Leases :=
  match agents with
  | [] => ({| owned := []; tookOver := []; declined := [] |}, db)
  | a :: rest =>
      let '(c, db1) := claim (claim_input o a (verdict o (db !! a))) db in
      let '(out, db2) := claim_all o rest db1 in
      (match c with
       | Granted _ t =>
           {| owned := a :: owned out; tookOver := option_list t ++ tookOver out;
              declined := declined out |}
       | Refused held =>
           {| owned := owned out; tookOver := tookOver out; declined := held :: declined out |}
       end, db2)
  end.

(** [Err] is [agent_already_serving], naming the first holder. *)
Definition claimLeases (o : ClaimOptions) (db : Leases)
  : result LeaseRecord LeaseOutcome * Leases :=
  let '(out, db') := claim_all o (agentIds o) db in
  match exclusive o, owned out, declined out with
  | true, [], first :: _ => (Err first, db')
  | _, _, _ => (Ok out, db')
  end.

(** ** Properties of one claim *)

Lemma lease_claim_spec i db :
  match claim i db with
  | (Granted l t, db') =>
      l = lease_of i /\ db' = <[c_agentId i := l]> db /\
      match t with
      | Some h => db !! c_agentId i = Some h /\ runtimeId h <> c_runtimeId i /\
                  c_stealFrom i = Some (runtimeId h)
      | None => forall h, db !! c_agentId i = Some h -> runtimeId h = c_runtimeId i
      end
  | (Refused h, db') =>
      db' = db /\ db !! c_agentId i = Some h /\ runtimeId h <> c_runtimeId i /\
      c_stealFrom i <> Some (runtimeId h)
  end.
Proof.
  unfold claim. destruct (db !! c_agentId i) as [h|].
  - case_bool_decide as H1; [split_and!; try done; by intros ? [= <-]|].
    case_bool_decide as H2; by split_and!.
  - by split_and!.
Qed.

(** A boot claims each agent or reports who holds it: every agent asked for is owned or
    declined, in order; an owned one's lease is this runtime's; a taken-over holder was
    another runtime the probe called dead; a declined one was another runtime the probe
    called alive, and its lease is untouched. *)
Theorem claim_all_outcome o agents db :
  NoDup agents ->
  let '(out, db') := claim_all o agents db in
  (forall a, a ∈ agents ->
     (a ∈ owned out /\ exists l, db' !! a = Some l /\ runtimeId l = o_runtimeId o) \/
     ((a ∉ owned out) /\ exists h, h ∈ declined out /\ db !! a = Some h /\ db' !! a = Some h /\
        runtimeId h <> o_runtimeId o /\ live (probe o) (o_pid o) (now o) h = true)) /\
  (forall a, a ∉ agents -> db' !! a = db !! a /\ (a ∉ owned out)) /\
  (forall h, h ∈ tookOver out -> exists a, a ∈ agents /\ db !! a = Some h /\
     runtimeId h <> o_runtimeId o /\ live (probe o) (o_pid o) (now o) h = false).
Proof.
  intros Hn. revert db. induction Hn as [|a agents Ha Hn IH]; intros db; cbn [claim_all].
  { split; [|split]; [intros a Ha|intros a _|intros h Hh];
      try (by apply not_elem_of_nil in Ha); try (by apply not_elem_of_nil in Hh).
    split; [done|apply not_elem_of_nil]. }
  pose proof (lease_claim_spec (claim_input o a (verdict o (db !! a))) db) as Hc.
  destruct (claim _ _) as [[l t|h] db1].
  - destruct Hc as (-> & -> & Ht). cbn [c_agentId claim_input] in *.
    specialize (IH (<[a := lease_of (claim_input o a (verdict o (db !! a)))]> db)).
    destruct (claim_all o agents _) as [out db2]. destruct IH as (H1 & H2 & H3). cbn in *.
    destruct (H2 a Ha) as [Hsame Hno]. rewrite lookup_insert_eq in Hsame. split; [|split].
    + intros b Hb. apply elem_of_cons in Hb as [->|Hb].
      * left. split; [by left|]. by eexists.
      * assert (b <> a) by (by intros ->). destruct (H1 b Hb) as [[Ho Hl]|(Ho & h & Hh)].
        -- left. split; [by right|done].
        -- right. split; [by apply not_elem_of_cons|]. exists h.
           by rewrite lookup_insert_ne in Hh.
    + intros b Hb. apply not_elem_of_cons in Hb as [Hba Hb]. destruct (H2 b Hb) as [Hs Hb'].
      rewrite lookup_insert_ne in Hs by done. split; [done|]. by apply not_elem_of_cons.
    + intros h Hh. apply elem_of_app in Hh as [Hh|Hh].
      * destruct t as [h'|]; [|by apply not_elem_of_nil in Hh].
        apply list_elem_of_singleton in Hh as ->. destruct Ht as (Hd & Hr & Hst).
        exists a. split; [by left|]. rewrite Hd in *. split; [done|]. split; [done|].
        unfold verdict in Hst. rewrite bool_decide_false in Hst by done. cbn in Hst.
        by destruct (live _ _ _ h').
      * destruct (H3 h Hh) as (b & Hb & Hd & Hr). exists b. split; [by right|].
        rewrite lookup_insert_ne in Hd by (by intros ->). done.
  - destruct Hc as (-> & Hd & Hr & Hst). cbn [c_agentId claim_input c_runtimeId c_stealFrom] in *.
    specialize (IH db). destruct (claim_all o agents db) as [out db2].
    destruct IH as (H1 & H2 & H3). cbn. destruct (H2 a Ha) as [Hsame Hno]. split; [|split].
    + intros b Hb. apply elem_of_cons in Hb as [->|Hb].
      * right. split; [done|]. exists h. split; [by left|]. rewrite Hsame. split_and!; try done.
        rewrite Hd in Hst. unfold verdict in Hst. rewrite bool_decide_false in Hst by done.
        cbn in Hst. by destruct (live _ _ _ h).
      * destruct (H1 b Hb) as [?|(Ho & h' & Hh' & ?)]; [by left|right]. split; [done|].
        exists h'. split; [by right|done].
    + intros b Hb. apply not_elem_of_cons in Hb as [Hba Hb]. by apply H2.
    + intros h' Hh'. destruct (H3 h' Hh') as (b & Hb & ?). exists b. split; [by right|done].
Qed.

(** ** The protocol between runtimes

    A runtime reads the holder, probes it, and then claims, in two transactions; between
    them other runtimes act. [serving] is what a runtime believes it owns: it is extended
    by a granted claim and only shrinks when the runtime itself disposes of the agent. *)

(** [marked]: between the constructor and [stop] the id is in [LIVE_RUNTIMES]. *)
Record Runtime := {
  r_pid : Z; marked : bool; serving : list ustring;
  probed : option (ustring * option ustring) }.

Record World := { leases : Leases; runtimes : gmap (list Z) Runtime; clock : Z }.

Definition with_marked (b : bool) (r : Runtime) : Runtime :=
  {| r_pid := r_pid r; marked := b; serving := serving r; probed := probed r |}.
Definition with_serving (l : list ustring) (r : Runtime) : Runtime :=
  {| r_pid := r_pid r; marked := marked r; serving := l; probed := probed r |}.
Definition with_probed (p : option (ustring * option ustring)) (r : Runtime) : Runtime :=
  {| r_pid := r_pid r; marked := marked r; serving := serving r; probed := p |}.

(** The operating system: the pids of programs that are not runtimes of this store, and
    the executable behind each pid; and how each runtime was started, with channels or without. *)
Class Host := {
  other_pids : Z -> bool; executable : Z -> option ustring; runtime_mode : RuntimeMode;
  with_channels : ustring -> bool }.

(** What a runtime of process [own_pid] observes. *)
Definition observe `{Host} (w : World) (own_pid : Z) : Probe :=
  {| alive := fun p =>
       other_pids p || existsb (fun kv => r_pid kv.2 =? p) (map_to_list (runtimes w));
     executableOf := executable;
     LIVE_RUNTIMES :=
       map fst (List.filter (fun kv => (r_pid kv.2 =? own_pid) && marked kv.2)
                            (map_to_list (runtimes w))) |}.

Definition options_of `{Host} (w : World) (rid : ustring) (r : Runtime) : ClaimOptions :=
  {| agentIds := []; o_runtimeId := rid; o_mode := runtime_mode; now := clock w;
     o_pid := r_pid r; exclusive := with_channels rid; probe := observe w (r_pid r) |}.

Inductive Action :=
| Boot (rid : ustring) (pid : Z)
| Mark (rid : ustring) (b : bool)
| ProbeHolder (rid agent : ustring)
| ClaimProbed (rid : ustring)
| Beat (rid : ustring)
| Publish (rid url : ustring)
| Dispose (rid agent : ustring)
| Die (rid : ustring)
| Tick (ms : Z).

Definition set_runtime (rid : ustring) (r : Runtime) (w : World) : World :=
  {| leases := leases w; runtimes := <[rid := r]> (runtimes w); clock := clock w |}.
Definition set_leases (db : Leases) (w : World) : World :=
  {| leases := db; runtimes := runtimes w; clock := clock w |}.

(** [#startHeartbeat]'s tick: [beat]'s answer is dropped. *)
Definition beat_all (rid : ustring) (now : Z) (agents : list ustring) (db : Leases) : Leases :=
  fold_left (fun db a => snd (beat a rid now db)) agents db.

(** A runtime id is new when no runtime and no lease carries it. *)
Definition fresh (rid : ustring) (w : World) : bool :=
  match runtimes w !! rid with
  | Some _ => false
  | None => forallb (fun kv => negb (bool_decide (runtimeId kv.2 = rid))) (map_to_list (leases w))
            && forallb (fun kv =>
                 negb (bool_decide (snd <$> probed kv.2 = Some (Some rid))))
               (map_to_list (runtimes w))
  end.

Definition perform `{Host} (a : Action) (w : World) : option World :=
  match a with
  | Boot rid pid =>
      if fresh rid w then
        Some (set_runtime rid
          {| r_pid := pid; marked := false; serving := []; probed := None |} w)
      else None
  | Mark rid b => r ← runtimes w !! rid; Some (set_runtime rid (with_marked b r) w)
  | ProbeHolder rid agent =>
      r ← runtimes w !! rid;
      Some (set_runtime rid
        (with_probed (Some (agent, verdict (options_of w rid r) (leases w !! agent))) r) w)
  | ClaimProbed rid =>
      r ← runtimes w !! rid;
      match probed r with
      | Some (agent, steal) =>
          match claim (claim_input (options_of w rid r) agent steal) (leases w) with
          | (Granted _ _, db) =>
              Some (set_leases db
                (set_runtime rid (with_probed None (with_serving (agent :: serving r) r)) w))
          | (Refused _, db) => Some (set_leases db (set_runtime rid (with_probed None r) w))
          end
      | None => None
      end
  | Beat rid =>
      r ← runtimes w !! rid;
      Some (set_leases (beat_all rid (clock w) (serving r) (leases w)) w)
  | Publish rid url => _ ← runtimes w !! rid; Some (set_leases (publish rid url (leases w)) w)
  | Dispose rid agent =>
      r ← runtimes w !! rid;
      Some (set_leases (release agent rid (leases w))
        (set_runtime rid
          (with_serving (List.filter (fun a => negb (bool_decide (a = agent))) (serving r)) r) w))
  | Die rid =>
      _ ← runtimes w !! rid;
      Some {| leases := leases w; runtimes := delete rid (runtimes w); clock := clock w |}
  | Tick ms =>
      if 0 <=? ms then
        Some {| leases := leases w; runtimes := runtimes w; clock := clock w + ms |}
      else None
  end.





Definition step `{Host} (w w' : World) : Prop := exists a, perform a w = Some w'.


(** No runtime yet; the table holds whatever earlier processes left. *)
Definition start (db : Leases) (t : Z) : World := {| leases := db; runtimes := ∅; clock := t |}.

(** It was granted the lease of the agent and has not disposed of it since. *)
Definition serves (w : World) (rid agent : ustring) : Prop :=
  exists r, runtimes w !! rid = Some r /\ agent ∈ serving r.




Section Protocol.
Context `{Host}.
Implicit Types (w : World) (r : Runtime).


















(** *** When a verdict holds *)




End Protocol.

(** ** Runs *)

Fixpoint execute `{Host} (l : list Action) (w : World) : option World :=
  match l with
  | [] => Some w
  | a :: rest => w' ← perform a w; execute rest w'
  end.



(** One program that is not a runtime runs as pid 4; pid 1 is node. *)
Definition small_host : Host :=
  {| other_pids := fun p => p =? 4;
     executable := fun p => if p =? 1 then Some (js "node") else None;
     runtime_mode := Daemon; with_channels := fun _ => true |}.

Definition first_id : ustring := js "rt_a".
Definition second_id : ustring := js "rt_b".
Definition agent_id : ustring := js "home".



Definition boot_options (p : Probe) : ClaimOptions :=
  {| agentIds := [js "a"; js "b"; js "c"]; o_runtimeId := second_id; o_mode := Terminal;
     now := 1000; o_pid := 9; exclusive := true; probe := p |}.
Definition old_lease (agent rid : ustring) (p : Z) : LeaseRecord :=
  {| agentId := agent; runtimeId := rid; pid := p; mode := Daemon; startedAt := 0;
     heartbeatAt := Some 0; baseUrl := None |}.
Definition old_table : Leases :=
  <[js "a" := old_lease (js "a") first_id 5]> (<[js "b" := old_lease (js "b") first_id 6]> ∅).
Definition only_pid (p : Z) : Probe :=
  {| alive := fun q => p =? q; executableOf := fun _ => None; LIVE_RUNTIMES := [] |}.

Lemma claim_all_outcome_witness :
  owned (fst (claim_all (boot_options (only_pid 5)) [js "a"; js "b"; js "c"] old_table)) =
    [js "b"; js "c"] /\
  forall h, h ∈ declined (fst (claim_all (boot_options (only_pid 5))
                [js "a"; js "b"; js "c"] old_table)) -> runtimeId h = first_id.
Proof.
  split; [by vm_compute|].
  pose proof (claim_all_outcome (boot_options (only_pid 5)) [js "a"; js "b"; js "c"] old_table)
    as H.
  assert (Hn : NoDup [js "a"; js "b"; js "c"])
    by (apply (bool_decide_eq_true_1 (NoDup [js "a"; js "b"; js "c"])); by vm_compute).
  specialize (H Hn). destruct (claim_all _ _ _) as [out db] eqn:E.
  destruct H as [H _]. vm_compute in E. injection E as <- <-.
  intros h Hh. apply list_elem_of_singleton in Hh as ->. by vm_compute.
Defined.

(** The trace of a closed run, and whom it leaves serving. *)
Lemma execute_protocol_steps `{Host} l : forall w w', execute l w = Some w' -> rtc step w w'.
Proof.
  induction l as [|a l IH]; intros w w' He; cbn in *; [by simplify_eq|].
  destruct (perform a w) as [w1|] eqn:Hp; cbn in He; [|done].
  apply rtc_l with w1; [by exists a|by apply IH].
Qed.

Definition both_serve (w : World) : bool :=
  match runtimes w !! first_id, runtimes w !! second_id with
  | Some r1, Some r2 =>
      bool_decide (agent_id ∈ serving r1) && bool_decide (agent_id ∈ serving r2)
  | _, _ => false
  end.

Lemma both_serve_spec w :
  both_serve w = true -> serves w first_id agent_id /\ serves w second_id agent_id.
Proof.
  unfold both_serve. destruct (runtimes w !! first_id) as [r1|] eqn:H1; [|done].
  destruct (runtimes w !! second_id) as [r2|] eqn:H2; [|done]. intros Hb. bool_to_prop.
  split; by eexists.
Qed.

(** [beat] returns [false] to a runtime that lost its lease, and [#startHeartbeat] drops the
    answer. The header of [lease.ts] says a suspended holder is reported as held. *)
Definition suspended_run : list Action :=
  [Boot first_id 7; ProbeHolder first_id agent_id; ClaimProbed first_id; Mark first_id true;
   Tick (LEASE_STALE_MS * LEASE_REUSE_FACTOR);
   Boot second_id 9; ProbeHolder second_id agent_id; ClaimProbed second_id;
   Mark second_id true; Tick LEASE_BEAT_MS; Beat first_id; Beat second_id].

(** A live, marked runtime suspended for the reuse window loses its lease to a newcomer
    and, resumed, keeps serving and beating: two runtimes serve one agent. *)
Theorem suspended_holder_served_twice :
  exists w : World,
    @execute small_host suspended_run (start ∅ 0) = Some w /\
    rtc (@step small_host) (start ∅ 0) w /\
    serves w first_id agent_id /\ serves w second_id agent_id.
Proof.
  destruct (@execute small_host suspended_run (start ∅ 0)) as [w|] eqn:E; [|by vm_compute in E].
  exists w. split; [done|]. split; [by apply (@execute_protocol_steps small_host suspended_run)|].
  apply both_serve_spec. vm_compute in E. injection E as <-. by vm_compute.
Qed.

(** Two [Runtime.create] calls of one process: each claims before its constructor calls
    [markRuntimeLive]. No time passes. *)
Definition concurrent_create_run : list Action :=
  [Boot first_id 7; Boot second_id 7;
   ProbeHolder first_id agent_id; ClaimProbed first_id;
   ProbeHolder second_id agent_id; ClaimProbed second_id;
   Mark first_id true; Mark second_id true].

(** Two runtimes created concurrently in one process over one store can both claim one
    agent: the first has claimed but is not yet marked live, so the second reads its fresh
    lease as inherited from a dead process. *)
Theorem concurrent_create_serves_twice :
  exists w : World,
    @execute small_host concurrent_create_run (start ∅ 0) = Some w /\
    rtc (@step small_host) (start ∅ 0) w /\
    serves w first_id agent_id /\ serves w second_id agent_id.
Proof.
  destruct (@execute small_host concurrent_create_run (start ∅ 0)) as [w|] eqn:E;
    [|by vm_compute in E].
  exists w. split; [done|]. split; [by apply (@execute_protocol_steps small_host concurrent_create_run)|].
  apply both_serve_spec. vm_compute in E. injection E as <-. by vm_compute.
Qed.
