(* ===== verification/Bus.v ===== *)
(** * The event bus: [events/bus.ts]

    Subscriptions, the maintained count of chunk subscribers, and dispatch. A handler is
    known by an identity (a JavaScript function object); what it does when called is outside
    this file, and one that throws is caught by [#deliver]. *)
From S2P Require Import Prelude UString.
Local Open Scope Z_scope.

Definition CHUNK : ustring := js "model.chunk".
Definition STAR : ustring := js "*".

Abbreviation Handler := nat.

(** The exact handlers of a type are a JavaScript [Set] and the wildcard ones a [Map], both
    in insertion order. *)
Record EventBus := {
  handlers : gmap (list Z) (list Handler);
  wildcard : list (Handler * bool);
  chunkSubscribers : Z }.

Definition new_bus : EventBus := {| handlers := ∅; wildcard := []; chunkSubscribers := 0 |}.

Definition handlers_of (ty : ustring) (b : EventBus) : list Handler :=
  default [] (handlers b !! ty).

(** [Map.get], [Map.set] (a present key keeps its place) and [Map.delete]. *)
Fixpoint wild_get (h : Handler) (l : list (Handler * bool)) : option bool :=
  match l with
  | [] => None
  | (h', w) :: rest => if (h' =? h)%nat then Some w else wild_get h rest
  end.

Fixpoint wild_set (h : Handler) (w : bool) (l : list (Handler * bool)) : list (Handler * bool) :=
  match l with
  | [] => [(h, w)]
  | (h', w') :: rest => if (h' =? h)%nat then (h', w) :: rest else (h', w') :: wild_set h w rest
  end.

Definition wild_delete (h : Handler) (l : list (Handler * bool)) : list (Handler * bool) :=
  List.filter (fun hw => negb (hw.1 =? h)%nat) l.

(** [on(type, handler, { chunks })]. *)
Definition on (ty : ustring) (h : Handler) (chunks : bool) (b : EventBus) : EventBus :=
  if bool_decide (ty = STAR) then
    let had := wild_get h (wildcard b) in
    let wanted := default false had in
    {| handlers := handlers b;
       wildcard := wild_set h (chunks || wanted) (wildcard b);
       chunkSubscribers :=
         match had with
         | None => if chunks then chunkSubscribers b + 1 else chunkSubscribers b
         | Some _ => if chunks && negb wanted then chunkSubscribers b + 1 else chunkSubscribers b
         end |}
  else
    let set := handlers_of ty b in
    let added := negb (bool_decide (h ∈ set)) in
    {| handlers := <[ty := if added then set ++ [h] else set]> (handlers b);
       wildcard := wildcard b;
       chunkSubscribers :=
         if added && bool_decide (ty = CHUNK) then chunkSubscribers b + 1
         else chunkSubscribers b |}.

(** The function [on] returned, for that type and handler. *)
Definition off (ty : ustring) (h : Handler) (b : EventBus) : EventBus :=
  if bool_decide (ty = STAR) then
    match wild_get h (wildcard b) with
    | None => b
    | Some wants =>
        {| handlers := handlers b; wildcard := wild_delete h (wildcard b);
           chunkSubscribers := if wants then chunkSubscribers b - 1 else chunkSubscribers b |}
    end
  else
    let set := handlers_of ty b in
    if bool_decide (h ∈ set) then
      {| handlers := <[ty := List.filter (fun h' => negb (h' =? h)%nat) set]> (handlers b);
         wildcard := wildcard b;
         chunkSubscribers :=
           if bool_decide (ty = CHUNK) then chunkSubscribers b - 1 else chunkSubscribers b |}
    else b.

(** The handlers [#dispatch] calls, in order. *)
Definition dispatch (ty : ustring) (b : EventBus) : list Handler :=
  handlers_of ty b ++
  map fst (List.filter (fun hw => negb (bool_decide (ty = CHUNK) && negb hw.2)) (wildcard b)).

(** [emit]: a chunk nobody would receive is not built. *)
Definition emit (ty : ustring) (b : EventBus) : list Handler :=
  if bool_decide (ty = CHUNK) && (chunkSubscribers b =? 0) then [] else dispatch ty b.

(** ** Any sequence of subscriptions and unsubscriptions *)

Inductive BusOp := On (ty : ustring) (h : Handler) (chunks : bool) | Off (ty : ustring) (h : Handler).

Definition apply_op (b : EventBus) (op : BusOp) : EventBus :=
  match op with On ty h c => on ty h c b | Off ty h => off ty h b end.

Definition run_ops (ops : list BusOp) : EventBus := fold_left apply_op ops new_bus.

(** Who would receive a chunk. *)
Definition chunk_wildcards (b : EventBus) : list (Handler * bool) :=
  List.filter (fun hw => hw.2) (wildcard b).

Record bus_ok (b : EventBus) : Prop := {
  ok_count : chunkSubscribers b = zlen (handlers_of CHUNK b) + zlen (chunk_wildcards b);
  ok_wild : NoDup (map fst (wildcard b));
  ok_exact : forall ty, NoDup (handlers_of ty b) }.

Lemma wild_get_None h l : wild_get h l = None -> h ∉ map fst l.
Proof.
  induction l as [|[h' w] l IH]; cbn; [intros _; apply not_elem_of_nil|].
  destruct (Nat.eqb_spec h' h); [done|]. intros Hg. apply not_elem_of_cons. split; [done|auto].
Qed.

Lemma wild_set_fst h w l :
  map fst (wild_set h w l) =
  match wild_get h l with Some _ => map fst l | None => map fst l ++ [h] end.
Proof.
  induction l as [|[h' w'] l IH]; cbn; [done|].
  destruct (Nat.eqb_spec h' h); cbn; [done|]. rewrite IH. by destruct (wild_get h l).
Qed.

(** The count of wanting wildcards moves by the old and the new answer of [h]. *)
Lemma wild_set_count h w l :
  zlen (List.filter (fun hw => hw.2) (wild_set h w l)) =
  zlen (List.filter (fun hw => hw.2) l) - Z.b2z (default false (wild_get h l)) + Z.b2z w.
Proof.
  induction l as [|[h' w'] l IH]; cbn; [by destruct w|].
  destruct (Nat.eqb_spec h' h); cbn; [destruct w, w'; cbn; lia|].
  destruct w'; cbn [length]; lia.
Qed.

Lemma wild_delete_fresh h l : h ∉ map fst l -> wild_delete h l = l.
Proof.
  induction l as [|[h' w] l IH]; cbn; [done|]. intros [Hne Hn]%not_elem_of_cons.
  destruct (Nat.eqb_spec h' h); cbn; [by subst|].
  unfold wild_delete in IH. by rewrite IH.
Qed.

Lemma wild_delete_count h l :
  NoDup (map fst l) ->
  zlen (List.filter (fun hw => hw.2) (wild_delete h l)) =
  zlen (List.filter (fun hw => hw.2) l) - Z.b2z (default false (wild_get h l)).
Proof.
  induction l as [|[h' w'] l IH]; cbn; [done|]. intros [Hn Hd]%NoDup_cons.
  destruct (Nat.eqb_spec h' h) as [->|]; cbn.
  - pose proof (wild_delete_fresh h l Hn) as E. unfold wild_delete in E. rewrite E.
    destruct w'; cbn [length Z.b2z]; lia.
  - specialize (IH Hd). unfold wild_delete in *. destruct w'; cbn [length]; lia.
Qed.

Lemma filter_other_length (h : Handler) l :
  NoDup l -> h ∈ l ->
  zlen (List.filter (fun h' => negb (h' =? h)%nat) l) = zlen l - 1.
Proof.
  induction l as [|h' l IH]; [by intros _ ?%not_elem_of_nil|].
  intros [Hn Hd]%NoDup_cons Hin. cbn. destruct (Nat.eqb_spec h' h) as [->|Hne]; cbn [negb].
  - rewrite forallb_filter_id; [lia|]. apply forallb_forall. intros x Hx%list_elem_of_In.
    apply negb_true_iff, Nat.eqb_neq. by intros ->.
  - apply elem_of_cons in Hin as [|Hin]; [done|]. cbn [length]. specialize (IH Hd Hin). lia.
Qed.

Lemma handlers_of_insert ty ty' set (b : EventBus) w n :
  handlers_of ty' {| handlers := <[ty := set]> (handlers b); wildcard := w; chunkSubscribers := n |} =
  if bool_decide (ty = ty') then set else handlers_of ty' b.
Proof.
  unfold handlers_of. cbn. case_bool_decide as E.
  - subst. by rewrite lookup_insert_eq.
  - by rewrite lookup_insert_ne.
Qed.

Lemma on_ok ty h c b : bus_ok b -> bus_ok (on ty h c b).
Proof.
  intros [Hc Hw He]. unfold on. case_bool_decide as Hs.
  - split; cbn [chunkSubscribers wildcard].
    + unfold chunk_wildcards in *. cbn [wildcard]. rewrite wild_set_count. unfold handlers_of in *.
      cbn [handlers]. destruct (wild_get h (wildcard b)) as [[]|], c; cbn [default from_option id Z.b2z orb andb negb]; lia.
    + rewrite wild_set_fst. destruct (wild_get h (wildcard b)) eqn:Hg; [done|].
      apply wild_get_None in Hg. apply NoDup_app. split_and!; [done| |apply NoDup_singleton].
      intros x Hx ->%list_elem_of_singleton. done.
    + intros ty'. apply He.
  - split; cbn [chunkSubscribers wildcard]; [|done|].
    + unfold chunk_wildcards in *. cbn [wildcard]. rewrite handlers_of_insert.
      destruct (bool_decide (ty = CHUNK)) eqn:Ht; bool_to_prop; [subst ty|];
        destruct (bool_decide (h ∈ handlers_of _ b)); cbn [negb andb];
        rewrite ?length_app; cbn [length]; lia.
    + intros ty'. rewrite handlers_of_insert. case_bool_decide as Ht; [subst ty'|apply He].
      case_bool_decide as Hin; cbn [negb]; [apply He|]. apply NoDup_app.
      split_and!; [apply He| |apply NoDup_singleton]. intros x Hx ->%list_elem_of_singleton. done.
Qed.

Lemma off_ok ty h b : bus_ok b -> bus_ok (off ty h b).
Proof.
  intros [Hc Hw He]. unfold off. case_bool_decide as Hs.
  - destruct (wild_get h (wildcard b)) as [wants|] eqn:Hg; [|by split].
    split; cbn [chunkSubscribers wildcard].
    + unfold chunk_wildcards in *. cbn [wildcard]. rewrite wild_delete_count by done. rewrite Hg.
      unfold handlers_of in *. cbn [handlers]. destruct wants; cbn [default from_option id Z.b2z]; lia.
    + unfold wild_delete. revert Hw. generalize (wildcard b) as l. intros l.
      induction l as [|[h' w'] l IH]; cbn; [done|]. intros [Hn Hd]%NoDup_cons.
      destruct (negb (h' =? h)%nat); [|by apply IH]. cbn. apply NoDup_cons. split; [|by apply IH].
      intros Hin. apply Hn. apply list_elem_of_In, in_map_iff in Hin as (x & <- & Hx).
      apply filter_In in Hx as [Hx _]. apply list_elem_of_In. by apply in_map.
    + intros ty'. apply He.
  - destruct (bool_decide (h ∈ handlers_of ty b)) eqn:Hin; [|by split]. bool_to_prop.
    split; cbn [chunkSubscribers wildcard]; [|done|].
    + unfold chunk_wildcards in *. cbn [wildcard]. rewrite handlers_of_insert.
      destruct (bool_decide (ty = CHUNK)) eqn:Ht; bool_to_prop; [subst ty|done].
      rewrite filter_other_length by (apply He || done). lia.
    + intros ty'. rewrite handlers_of_insert. case_bool_decide as Ht; [subst ty'|apply He].
      apply NoDup_ListNoDup, List.NoDup_filter, NoDup_ListNoDup, He.
Qed.

Lemma run_ops_ok ops : bus_ok (run_ops ops).
Proof.
  unfold run_ops. assert (bus_ok new_bus) as H.
  { split; cbn; [done|apply NoDup_nil_2|]. intros ty. unfold handlers_of. cbn.
    rewrite lookup_empty. apply NoDup_nil_2. }
  revert H. generalize new_bus. induction ops as [|op ops IH]; intros b H; cbn; [done|].
  apply IH. destruct op; [by apply on_ok|by apply off_ok].
Qed.

(** After any subscriptions and unsubscriptions, repeated or stale ones included, the
    maintained count is exactly the number of handlers a chunk would reach: the gate in
    [emit] suppresses a chunk only when dispatching it would call nobody, and every event
    reaches each exact and each wildcard subscription once. *)
Theorem emit_gate_lossless ops ty :
  let b := run_ops ops in
  emit ty b = dispatch ty b /\
  chunkSubscribers b = zlen (dispatch CHUNK b) /\
  NoDup (handlers_of ty b) /\ NoDup (map fst (wildcard b)).
Proof.
  cbv zeta. destruct (run_ops_ok ops) as [Hc Hw He].
  assert (Hd : chunkSubscribers (run_ops ops) = zlen (dispatch CHUNK (run_ops ops))).
  { rewrite Hc. unfold dispatch, chunk_wildcards. rewrite length_app, length_map.
    rewrite bool_decide_true by done. cbn [andb].
    rewrite (List.filter_ext (fun hw : Handler * bool => negb (negb hw.2)) (fun hw => hw.2));
      [lia|]. intros [? []]; done. }
  split_and!; try done. unfold emit. case_bool_decide as Ht; [|done]. cbn [andb]. subst ty.
  destruct (Z.eqb_spec (chunkSubscribers (run_ops ops)) 0) as [H0|]; [|done].
  destruct (dispatch CHUNK (run_ops ops)); [done|]. cbn in Hd. lia.
Qed.
