(* ===== verification/Streams.v ===== *)
(** * Replayable turn streams: [store/buffer.ts]

    [TurnStreams] buffers each turn's events under a cap, hands an attaching client a
    snapshot and then the tail, and keeps chunk interest by reference count. JavaScript runs
    each method to completion, so a method is one step. A listener is known by an identity;
    [delivered] (what listeners received) and [recorded] (every event recorded, with its
    arrival number) are observations the code does not keep. *)
From S2P Require Import Prelude UString Bus.
From stdpp Require Import sorting.
Local Open Scope Z_scope.

(** What the streams read of an event; [body] stands for the rest of the envelope. *)
Record Event := {
  type : ustring; turnId : option ustring; parentTurnId : option ustring; body : Z }.

#[export] Instance Event_eq_dec : EqDecision Event.
Proof. solve_decision. Defined.

Definition is_chunk (e : Event) : bool := bool_decide (type e = CHUNK).
Definition is_end (e : Event) : bool := bool_decide (type e = js "turn.end").

Inductive TurnBufferState := Running | Ended.
Inductive ChunkHistory := Start | Partial | NoChunks.

Record ListenerInterest := { i_chunks : bool; i_children : bool }.

Abbreviation Listener := nat.

(** [serial] is the buffer object's identity: a turn id can be dropped and reopened. An
    event is stored with its arrival number, which the code keeps in a [WeakMap]. [opened] is how
    many events had been recorded when it was made, for the statements; no code reads it. *)
Record Buffered := {
  serial : nat;
  opened : nat;
  events : list (Z * Event);
  state : TurnBufferState;
  endedAt : option Z;
  listeners : list (Listener * ListenerInterest);
  children : list ustring;
  truncated : bool;
  dropped : Z;
  chunks : ChunkHistory;
  holdsChunkInterest : bool }.

#[export] Instance TurnBufferState_eq_dec : EqDecision TurnBufferState.
Proof. solve_decision. Defined.
#[export] Instance ChunkHistory_eq_dec : EqDecision ChunkHistory.
Proof. solve_decision. Defined.
#[export] Instance ListenerInterest_eq_dec : EqDecision ListenerInterest.
Proof. solve_decision. Defined.
#[export] Instance Buffered_eq_dec : EqDecision Buffered.
Proof. solve_decision. Defined.

(** One [attach] call's closure: its [detached] flag, the buffer and the listener. *)
Record Handle := {
  h_turn : ustring; h_serial : nat; h_listener : Listener; h_chunks : bool; detached : bool }.

Record Options := { maxEvents : Z; retainMs : Z; retainCount : Z }.

Definition DEFAULT_MAX_EVENTS : Z := 10000.
Definition RETENTION_MS : Z := 60000.
Definition RETENTION_COUNT : Z := 32.

(** [buffers] in insertion order; [handles] in order of creation. *)
Record TurnStreams := {
  buffers : list (ustring * Buffered);
  seq : Z;
  next_serial : nat;
  handles : list Handle;
  listening : bool;
  chunkInterest : Z;
  chunks_subscribed : bool;
  delivered : list (Listener * Event);
  recorded : list (Z * Event) }.

Definition new_streams : TurnStreams :=
  {| buffers := []; seq := 0; next_serial := 0; handles := []; listening := false;
     chunkInterest := 0; chunks_subscribed := false; delivered := []; recorded := [] |}.

(** *** The [Map] of buffers *)

Fixpoint get_buffer (t : ustring) (l : list (ustring * Buffered)) : option Buffered :=
  match l with
  | [] => None
  | (t', b) :: rest => if bool_decide (t' = t) then Some b else get_buffer t rest
  end.

Fixpoint set_buffer (t : ustring) (b : Buffered) (l : list (ustring * Buffered))
  : list (ustring * Buffered) :=
  match l with
  | [] => [(t, b)]
  | (t', b') :: rest =>
      if bool_decide (t' = t) then (t', b) :: rest else (t', b') :: set_buffer t b rest
  end.

Definition delete_buffer (t : ustring) (l : list (ustring * Buffered))
  : list (ustring * Buffered) :=
  List.filter (fun kv => negb (bool_decide (kv.1 = t))) l.

Definition with_buffers (l : list (ustring * Buffered)) (s : TurnStreams) : TurnStreams :=
  {| buffers := l; seq := seq s; next_serial := next_serial s; handles := handles s;
     listening := listening s; chunkInterest := chunkInterest s;
     chunks_subscribed := chunks_subscribed s; delivered := delivered s; recorded := recorded s |}.

Definition with_interest (n : Z) (on : bool) (s : TurnStreams) : TurnStreams :=
  {| buffers := buffers s; seq := seq s; next_serial := next_serial s; handles := handles s;
     listening := listening s; chunkInterest := n; chunks_subscribed := on;
     delivered := delivered s; recorded := recorded s |}.

Definition with_delivered (l : list (Listener * Event)) (s : TurnStreams) : TurnStreams :=
  {| buffers := buffers s; seq := seq s; next_serial := next_serial s; handles := handles s;
     listening := listening s; chunkInterest := chunkInterest s;
     chunks_subscribed := chunks_subscribed s; delivered := l; recorded := recorded s |}.

Definition with_handles (l : list Handle) (s : TurnStreams) : TurnStreams :=
  {| buffers := buffers s; seq := seq s; next_serial := next_serial s; handles := l;
     listening := listening s; chunkInterest := chunkInterest s;
     chunks_subscribed := chunks_subscribed s; delivered := delivered s; recorded := recorded s |}.

(** *** Chunk interest *)

Definition takeChunkInterest (s : TurnStreams) : TurnStreams :=
  let n := chunkInterest s + 1 in
  with_interest n (if (n =? 1) && listening s then true else chunks_subscribed s) s.

Definition releaseChunkInterest (s : TurnStreams) : TurnStreams :=
  if chunkInterest s =? 0 then s
  else
    let n := chunkInterest s - 1 in
    with_interest n (if n =? 0 then false else chunks_subscribed s) s.

Definition releaseAllChunkInterest (s : TurnStreams) : TurnStreams := with_interest 0 false s.

(** [listen]. *)
Definition listen (s : TurnStreams) : TurnStreams :=
  {| buffers := buffers s; seq := seq s; next_serial := next_serial s; handles := handles s;
     listening := true; chunkInterest := chunkInterest s;
     chunks_subscribed := chunks_subscribed s; delivered := delivered s; recorded := recorded s |}.

(** *** Opening *)

Definition empty_buffer (n at_ : nat) (c : bool) : Buffered :=
  {| serial := n; opened := at_; events := []; state := Running; endedAt := None; listeners := [];
     children := []; truncated := false; dropped := 0;
     chunks := if c then Start else NoChunks; holdsChunkInterest := c |}.

(** A new buffer at the end of the map. *)
Definition add_buffer (t : ustring) (c : bool) (s : TurnStreams) : TurnStreams :=
  {| buffers := buffers s ++ [(t, empty_buffer (next_serial s) (length (recorded s)) c)]; seq := seq s;
     next_serial := S (next_serial s); handles := handles s; listening := listening s;
     chunkInterest := chunkInterest s; chunks_subscribed := chunks_subscribed s;
     delivered := delivered s; recorded := recorded s |}.

Definition open (t : ustring) (c : bool) (s : TurnStreams) : TurnStreams :=
  match get_buffer t (buffers s) with
  | Some _ => s
  | None => add_buffer t c (if c then takeChunkInterest s else s)
  end.

(** *** Recording *)

(** [fanOut]: the listeners called, in order. *)
Definition fanOut (b : Buffered) (chunk child : bool) : list Listener :=
  map fst (List.filter (fun li =>
    negb (chunk && negb (i_chunks li.2)) && negb (child && negb (i_children li.2)))
    (listeners b)).

(** Push, and shift the oldest out over the cap. *)
Definition push_event (cap : Z) (n : Z) (e : Event) (b : Buffered) : Buffered :=
  let evs := events b ++ [(n, e)] in
  let over := cap <? zlen evs in
  {| serial := serial b; opened := opened b;
     events := if over then tail evs else evs;
     state := state b; endedAt := endedAt b; listeners := listeners b; children := children b;
     truncated := if over then true else truncated b;
     dropped := if over then dropped b + 1 else dropped b;
     chunks :=
       match chunks b with NoChunks => if is_chunk e then Partial else NoChunks | c => c end;
     holdsChunkInterest := holdsChunkInterest b |}.

(** [Set.add]. *)
Definition add_child (t : ustring) (b : Buffered) : Buffered :=
  {| serial := serial b; opened := opened b; events := events b; state := state b; endedAt := endedAt b;
     listeners := listeners b;
     children := if bool_decide (t ∈ children b) then children b else children b ++ [t];
     truncated := truncated b; dropped := dropped b; chunks := chunks b;
     holdsChunkInterest := holdsChunkInterest b |}.

Definition end_buffer (now : Z) (b : Buffered) : Buffered :=
  {| serial := serial b; opened := opened b; events := events b; state := Ended; endedAt := Some now;
     listeners := listeners b; children := children b; truncated := truncated b;
     dropped := dropped b; chunks := chunks b; holdsChunkInterest := holdsChunkInterest b |}.

Definition with_listeners (l : list (Listener * ListenerInterest)) (b : Buffered) : Buffered :=
  {| serial := serial b; opened := opened b; events := events b; state := state b; endedAt := endedAt b;
     listeners := l; children := children b; truncated := truncated b; dropped := dropped b;
     chunks := chunks b; holdsChunkInterest := holdsChunkInterest b |}.

(** *** Eviction *)

(** [#drop]. *)
Definition drop_buffer (t : ustring) (b : Buffered) (s : TurnStreams) : TurnStreams :=
  let s1 := if holdsChunkInterest b then releaseChunkInterest s else s in
  with_buffers (delete_buffer t (buffers s1)) s1.

Definition drop_all (l : list (ustring * Buffered)) (s : TurnStreams) : TurnStreams :=
  fold_left (fun s kv => drop_buffer kv.1 kv.2 s) l s.

(** Ended, and nobody attached. *)
Definition evictable (kv : ustring * Buffered) : bool :=
  match state kv.2, endedAt kv.2, listeners kv.2 with
  | Ended, Some _, [] => true
  | _, _, _ => false
  end.

Definition ended_ms (kv : ustring * Buffered) : Z := default 0 (endedAt kv.2).

Definition too_old (o : Options) (now : Z) (kv : ustring * Buffered) : bool :=
  retainMs o <=? now - ended_ms kv.

Definition by_end (a b : ustring * Buffered) : Prop := ended_ms a <= ended_ms b.
#[export] Instance by_end_dec : RelDecision by_end.
Proof. intros a b. unfold by_end. apply _. Defined.

(** [#evict]: the aged ones in map order, then the oldest over the count. *)
Definition evict (o : Options) (now : Z) (s : TurnStreams) : TurnStreams :=
  let candidates := List.filter evictable (buffers s) in
  let s1 := drop_all (List.filter (too_old o now) candidates) s in
  let ended := List.filter (fun kv => negb (too_old o now kv)) candidates in
  if zlen ended <=? retainCount o then s1
  else drop_all (slice (merge_sort by_end ended) 0 (zlen ended - retainCount o)) s1.

(** [record], in three stretches: find or make the buffer, *)
Definition touch (t : ustring) (s : TurnStreams) : TurnStreams :=
  match get_buffer t (buffers s) with Some _ => s | None => add_buffer t false s end.

(** buffer the event and call the turn's and the parent's listeners, *)
Definition deliver (o : Options) (t : ustring) (e : Event) (s : TurnStreams) : TurnStreams :=
  match get_buffer t (buffers s) with
  | None => s
  | Some b0 =>
      let b1 := push_event (maxEvents o) (seq s) e b0 in
      let bufs1 := set_buffer t b1 (buffers s) in
      let parent := p ← parentTurnId e; pb ← get_buffer p bufs1; Some (p, add_child t pb) in
      {| buffers := match parent with Some (p, pb) => set_buffer p pb bufs1 | None => bufs1 end;
         seq := seq s + 1; next_serial := next_serial s; handles := handles s;
         listening := listening s; chunkInterest := chunkInterest s;
         chunks_subscribed := chunks_subscribed s;
         delivered :=
           delivered s ++
           map (fun l => (l, e))
             (fanOut b1 (is_chunk e) false ++
              match parent with Some (_, pb) => fanOut pb (is_chunk e) true | None => [] end);
         recorded := recorded s ++ [(seq s, e)] |}
  end.

(** and after [turn.end] close the buffer and evict. The clock is read twice. *)
Definition finish (o : Options) (now1 now2 : Z) (t : ustring) (s : TurnStreams) : TurnStreams :=
  match get_buffer t (buffers s) with
  | Some b => evict o now2 (with_buffers (set_buffer t (end_buffer now1 b) (buffers s)) s)
  | None => s
  end.

Definition record (o : Options) (now1 now2 : Z) (e : Event) (s : TurnStreams) : TurnStreams :=
  match turnId e with
  | None => s
  | Some t =>
      let s1 := deliver o t e (touch t s) in
      if is_end e then finish o now1 now2 t s1 else s1
  end.

(** *** Attaching *)

Fixpoint set_listener (l : Listener) (i : ListenerInterest)
  (ls : list (Listener * ListenerInterest)) : list (Listener * ListenerInterest) :=
  match ls with
  | [] => [(l, i)]
  | (l', i') :: rest =>
      if (l' =? l)%nat then (l', i) :: rest else (l', i') :: set_listener l i rest
  end.

Definition delete_listener (l : Listener) (ls : list (Listener * ListenerInterest))
  : list (Listener * ListenerInterest) :=
  List.filter (fun li => negb (li.1 =? l)%nat) ls.

Definition by_arrival (a b : Z * Event) : Prop := a.1 <= b.1.
#[export] Instance by_arrival_dec : RelDecision by_arrival.
Proof. intros a b. unfold by_arrival. apply _. Defined.

(** [#withChildren]. *)
Definition withChildren (s : TurnStreams) (b : Buffered) : list (Z * Event) :=
  merge_sort by_arrival
    (events b ++
     concat (map (fun c => default [] (events <$> get_buffer c (buffers s))) (children b))).

Record TurnAttachment := {
  replay : list Event; a_state : TurnBufferState; a_truncated : bool; a_dropped : Z;
  a_chunks : ChunkHistory }.

(** [attach]: the attachment's handle is the last of [handles]. *)
Definition attach (t : ustring) (l : Listener) (c ch : bool) (s : TurnStreams)
  : option TurnAttachment * TurnStreams :=
  match get_buffer t (buffers s) with
  | None => (None, s)
  | Some b =>
      let s1 := if c then takeChunkInterest s else s in
      let snapshot := if ch then withChildren s1 b else events b in
      let b' := with_listeners
                  (set_listener l {| i_chunks := c; i_children := ch |} (listeners b)) b in
      (Some {| replay := map snd snapshot; a_state := state b; a_truncated := truncated b;
               a_dropped := dropped b; a_chunks := chunks b |},
       with_handles
         (handles s1 ++ [{| h_turn := t; h_serial := serial b; h_listener := l;
                            h_chunks := c; detached := false |}])
         (with_buffers (set_buffer t b' (buffers s1)) s1))
  end.

Definition detach (h : Handle) : Handle :=
  {| h_turn := h_turn h; h_serial := h_serial h; h_listener := h_listener h;
     h_chunks := h_chunks h; detached := true |}.

(** The [n]th attachment's [unsubscribe]. A dropped buffer's listeners are read by nobody. *)
Definition unsubscribe (n : nat) (s : TurnStreams) : TurnStreams :=
  match handles s !! n with
  | None => s
  | Some h =>
      if detached h then s
      else
        let s1 := with_handles (<[n := detach h]> (handles s)) s in
        let s2 :=
          match get_buffer (h_turn h) (buffers s1) with
          | Some b =>
              if (serial b =? h_serial h)%nat then
                with_buffers
                  (set_buffer (h_turn h)
                     (with_listeners (delete_listener (h_listener h) (listeners b)) b)
                     (buffers s1)) s1
              else s1
          | None => s1
          end in
        if h_chunks h then releaseChunkInterest s2 else s2
  end.

(** The event as the bus delivers it: a chunk only through the exact subscription, anything
    else only through the wildcard. *)
Definition on_bus (o : Options) (now1 now2 : Z) (e : Event) (s : TurnStreams) : TurnStreams :=
  if (if is_chunk e then chunks_subscribed s else listening s) then record o now1 now2 e s else s.

(** [close]. *)
Definition close (s : TurnStreams) : TurnStreams :=
  {| buffers := []; seq := seq s; next_serial := next_serial s; handles := handles s;
     listening := false; chunkInterest := 0; chunks_subscribed := false;
     delivered := delivered s; recorded := recorded s |}.

(** ** The map of buffers *)

Lemma get_set t t' b l :
  get_buffer t' (set_buffer t b l) = if bool_decide (t = t') then Some b else get_buffer t' l.
Proof.
  induction l as [|[u bu] l IH]; cbn; [done|].
  destruct (bool_decide_reflect (u = t)) as [->|]; cbn; [by case_bool_decide|].
  rewrite IH. destruct (bool_decide_reflect (t = t')) as [->|]; [|done].
  by rewrite bool_decide_false.
Qed.

Lemma get_delete t t' l :
  get_buffer t' (delete_buffer t l) = if bool_decide (t = t') then None else get_buffer t' l.
Proof.
  unfold delete_buffer. induction l as [|[u bu] l IH]; cbn; [by case_bool_decide|].
  destruct (bool_decide_reflect (u = t)) as [->|]; cbn; rewrite IH; [by case_bool_decide|].
  destruct (bool_decide_reflect (t = t')) as [->|]; [|done]. by rewrite bool_decide_false.
Qed.

Lemma get_app t l t' b :
  get_buffer t (l ++ [(t', b)]) =
  match get_buffer t l with
  | Some b' => Some b'
  | None => if bool_decide (t' = t) then Some b else None
  end.
Proof. induction l as [|[u bu] l IH]; cbn; [done|]. by destruct (bool_decide (u = t)). Qed.

Lemma get_elem t b l : get_buffer t l = Some b -> (t, b) ∈ l.
Proof.
  induction l as [|[u bu] l IH]; cbn; [done|]. case_bool_decide as E.
  - intros [= ->]. subst. by left.
  - intros H. right. auto.
Qed.

Lemma elem_get t b l : NoDup (map fst l) -> (t, b) ∈ l -> get_buffer t l = Some b.
Proof.
  induction l as [|[u bu] l IH]; cbn; [by intros _ ?%not_elem_of_nil|].
  intros [Hu Hn]%NoDup_cons [[= -> ->]|Hin]%elem_of_cons; [by rewrite bool_decide_true|].
  rewrite bool_decide_false; [by apply IH|]. intros ->. apply Hu.
  apply list_elem_of_In, (in_map fst) in Hin. by apply list_elem_of_In.
Qed.

Lemma get_None_keys t l : get_buffer t l = None <-> t ∉ map fst l.
Proof.
  induction l as [|[u bu] l IH]; cbn; [split; [intros _; apply not_elem_of_nil|done]|].
  rewrite not_elem_of_cons. case_bool_decide as E; [split; [done|]; by intros [? _]|].
  rewrite IH. split; [|tauto]. intros; split; [congruence|done].
Qed.

Lemma set_keys t b b' l : get_buffer t l = Some b' -> map fst (set_buffer t b l) = map fst l.
Proof.
  induction l as [|[u bu] l IH]; cbn; [done|]. case_bool_decide; cbn; [done|].
  intros H'. by rewrite IH.
Qed.

Lemma delete_keys t l : NoDup (map fst l) -> NoDup (map fst (delete_buffer t l)).
Proof.
  unfold delete_buffer. induction l as [|[u bu] l IH]; cbn; [done|].
  intros [Hu Hn]%NoDup_cons. destruct (negb _); [|by apply IH]. cbn. apply NoDup_cons.
  split; [|by apply IH]. intros Hin. apply Hu.
  apply list_elem_of_In, in_map_iff in Hin as (x & <- & Hx).
  apply filter_In in Hx as [Hx _]. apply list_elem_of_In. by apply in_map.
Qed.

(** Buffers holding a unit of chunk interest. *)
Definition holders (l : list (ustring * Buffered)) : Z :=
  zlen (List.filter (fun kv => holdsChunkInterest kv.2) l).

Lemma holders_set t b b' l :
  get_buffer t l = Some b' -> holdsChunkInterest b = holdsChunkInterest b' ->
  holders (set_buffer t b l) = holders l.
Proof.
  unfold holders. intros Hg Hh. induction l as [|[u bu] l IH]; cbn in *; [done|].
  case_bool_decide; cbn.
  - injection Hg as ->. rewrite Hh. by destruct (holdsChunkInterest b').
  - specialize (IH Hg). destruct (holdsChunkInterest bu); cbn [length]; lia.
Qed.

Lemma holders_delete t b l :
  NoDup (map fst l) -> get_buffer t l = Some b ->
  holders (delete_buffer t l) = holders l - Z.b2z (holdsChunkInterest b).
Proof.
  unfold holders, delete_buffer. induction l as [|[u bu] l IH]; cbn; [done|].
  intros [Hu Hn]%NoDup_cons. case_bool_decide as E; cbn.
  - intros [= ->]. subst u. rewrite (forallb_filter_id _ l).
    + destruct (holdsChunkInterest b); cbn [length Z.b2z]; lia.
    + apply forallb_forall. intros [v bv] Hv. cbn. apply negb_true_iff, bool_decide_eq_false.
      intros ->. apply Hu, list_elem_of_In, in_map_iff. by exists (t, bv).
  - intros Hg. specialize (IH Hn Hg). destruct (holdsChunkInterest bu); cbn [length]; lia.
Qed.

Lemma holders_app l t b : holders (l ++ [(t, b)]) = holders l + Z.b2z (holdsChunkInterest b).
Proof.
  unfold holders. rewrite List.filter_app, length_app. cbn.
  destruct (holdsChunkInterest b); cbn [length Z.b2z]; lia.
Qed.

(** ** Dropping buffers *)

Lemma release_buffers s : buffers (releaseChunkInterest s) = buffers s.
Proof. unfold releaseChunkInterest. by case_match. Qed.

(** The fields eviction leaves alone. *)
Record same_observations (s s' : TurnStreams) : Prop := {
  so_seq : seq s' = seq s; so_serial : next_serial s' = next_serial s;
  so_handles : handles s' = handles s; so_listening : listening s' = listening s;
  so_delivered : delivered s' = delivered s; so_recorded : recorded s' = recorded s }.

#[export] Instance same_observations_preorder : PreOrder same_observations.
Proof. split; [by split|]. intros a b c [] []. split; congruence. Qed.

Lemma drop_same t b s : same_observations s (drop_buffer t b s).
Proof.
  unfold drop_buffer, releaseChunkInterest. destruct (holdsChunkInterest b); [|by split].
  destruct (chunkInterest s =? 0); by split.
Qed.

Lemma drop_all_cons u b l s : drop_all ((u, b) :: l) s = drop_all l (drop_buffer u b s).
Proof. done. Qed.

Lemma drop_all_same l : forall s, same_observations s (drop_all l s).
Proof.
  induction l as [|kv l IH]; intros s; cbn; [done|].
  etransitivity; [apply drop_same|apply IH].
Qed.

Lemma drop_buffers t b s : buffers (drop_buffer t b s) = delete_buffer t (buffers s).
Proof. unfold drop_buffer. cbn. destruct (holdsChunkInterest b); [|done]. by rewrite release_buffers. Qed.

Lemma drop_all_keys l : forall s,
  NoDup (map fst (buffers s)) -> NoDup (map fst (buffers (drop_all l s))).
Proof.
  induction l as [|kv l IH]; intros s Hn; cbn; [done|]. apply IH. rewrite drop_buffers.
  by apply delete_keys.
Qed.

Lemma drop_all_get l t : forall s,
  get_buffer t (buffers (drop_all l s)) =
  if bool_decide (t ∈ map fst l) then None else get_buffer t (buffers s).
Proof.
  induction l as [|[u bu] l IH]; intros s; cbn [drop_all fold_left map fst].
  { rewrite bool_decide_false by apply not_elem_of_nil. done. }
  fold (drop_all l (drop_buffer u bu s)). rewrite IH, drop_buffers, get_delete. cbn [fst].
  destruct (bool_decide_reflect (t ∈ map fst l)) as [H1|H1].
  - rewrite bool_decide_true; [done|]. by right.
  - destruct (bool_decide_reflect (u = t)) as [->|H2].
    + rewrite bool_decide_true; [done|]. by left.
    + rewrite bool_decide_false; [done|]. rewrite not_elem_of_cons. by split.
Qed.

(** The buffers to drop, each as the map has it. *)
Definition present (l : list (ustring * Buffered)) (s : TurnStreams) : Prop :=
  NoDup (map fst l) /\ forall t b, (t, b) ∈ l -> get_buffer t (buffers s) = Some b.

Lemma drop_buffer_interest t b s extra :
  NoDup (map fst (buffers s)) -> get_buffer t (buffers s) = Some b -> 0 <= extra ->
  chunkInterest s = holders (buffers s) + extra ->
  chunkInterest (drop_buffer t b s) = holders (buffers (drop_buffer t b s)) + extra.
Proof.
  intros Hn Hg He Hi. rewrite drop_buffers, (holders_delete t b) by done.
  unfold drop_buffer, releaseChunkInterest. cbn [chunkInterest with_buffers].
  destruct (holdsChunkInterest b) eqn:Hb; cbn [Z.b2z]; [|lia].
  assert (0 < holders (buffers s)).
  { unfold holders. pose proof (get_elem _ _ _ Hg) as Hin. apply list_elem_of_In in Hin.
    assert (In (t, b) (List.filter (fun kv => holdsChunkInterest kv.2) (buffers s))) as Hin'
      by (by apply filter_In). destruct (List.filter _ _); [done|cbn [length]; lia]. }
  destruct (Z.eqb_spec (chunkInterest s) 0); [lia|]. cbn. lia.
Qed.

Lemma drop_all_interest l extra : forall s,
  NoDup (map fst (buffers s)) -> present l s -> 0 <= extra ->
  chunkInterest s = holders (buffers s) + extra ->
  chunkInterest (drop_all l s) = holders (buffers (drop_all l s)) + extra.
Proof.
  induction l as [|[u bu] l IH]; intros s Hn [Hl Hp] He Hi; [done|].
  rewrite drop_all_cons. cbn in Hl. apply NoDup_cons in Hl as [Hu Hl].
  apply IH; [by rewrite drop_buffers; apply delete_keys| |done|].
  - split; [done|]. intros t b Hin. rewrite drop_buffers, get_delete.
    rewrite bool_decide_false; [apply Hp; by right|]. intros ->. apply Hu.
    apply list_elem_of_In in Hin. apply list_elem_of_In. by apply (in_map fst) in Hin.
  - apply drop_buffer_interest; try done. apply Hp. by left.
Qed.

(** Release keeps the subscription in step with the count. *)
Lemma drop_all_subscribed l : forall s,
  chunks_subscribed s = (0 <? chunkInterest s) -> 0 <= chunkInterest s ->
  chunks_subscribed (drop_all l s) = (0 <? chunkInterest (drop_all l s)) /\
  0 <= chunkInterest (drop_all l s).
Proof.
  induction l as [|[u bu] l IH]; intros s Hs H0; [done|]. rewrite drop_all_cons. apply IH;
    unfold drop_buffer, releaseChunkInterest; destruct (holdsChunkInterest _); cbn; try done;
    destruct (Z.eqb_spec (chunkInterest s) 0); cbn; try done; try lia.
  destruct (Z.eqb_spec (chunkInterest s - 1) 0); rewrite ?Hs; lia.
Qed.

(** *** What eviction drops *)

Definition aged (o : Options) (now : Z) (s : TurnStreams) : list (ustring * Buffered) :=
  List.filter (too_old o now) (List.filter evictable (buffers s)).
Definition young (o : Options) (now : Z) (s : TurnStreams) : list (ustring * Buffered) :=
  List.filter (fun kv => negb (too_old o now kv)) (List.filter evictable (buffers s)).
Definition surplus (o : Options) (now : Z) (s : TurnStreams) : list (ustring * Buffered) :=
  if zlen (young o now s) <=? retainCount o then []
  else slice (merge_sort by_end (young o now s)) 0 (zlen (young o now s) - retainCount o).

Lemma evict_drops o now s : evict o now s = drop_all (surplus o now s) (drop_all (aged o now s) s).
Proof. unfold evict, surplus, aged, young. by case_match. Qed.

Lemma NoDup_map_filter {A B} (f : A -> B) (p : A -> bool) l :
  NoDup (map f l) -> NoDup (map f (List.filter p l)).
Proof.
  induction l as [|x l IH]; cbn; [done|]. intros [Hx Hn]%NoDup_cons.
  destruct (p x); [|auto]. cbn. apply NoDup_cons. split; [|auto]. intros Hin. apply Hx.
  apply list_elem_of_In, in_map_iff in Hin as (y & <- & Hy). apply filter_In in Hy as [Hy _].
  apply list_elem_of_In. by apply in_map.
Qed.

Lemma aged_spec o now s kv :
  kv ∈ aged o now s <-> kv ∈ buffers s /\ evictable kv = true /\ too_old o now kv = true.
Proof. unfold aged. rewrite !list_elem_of_In, !filter_In. tauto. Qed.

Lemma young_spec o now s kv :
  kv ∈ young o now s <-> kv ∈ buffers s /\ evictable kv = true /\ too_old o now kv = false.
Proof. unfold young. rewrite !list_elem_of_In, !filter_In, negb_true_iff. tauto. Qed.

(** [surplus] is the front of the young ones, oldest first. *)
Lemma surplus_split o now s :
  0 <= retainCount o ->
  exists kept, Permutation (young o now s) (surplus o now s ++ kept) /\
    zlen kept = Z.min (zlen (young o now s)) (retainCount o) /\
    forall a b, a ∈ surplus o now s -> b ∈ kept -> ended_ms a <= ended_ms b.
Proof.
  intros H0. unfold surplus. destruct (Z.leb_spec (zlen (young o now s)) (retainCount o)) as [Hl|Hl].
  - exists (young o now s). split; [done|]. split; [lia|]. intros a b []%not_elem_of_nil.
  - set (sorted := merge_sort by_end (young o now s)).
    assert (Hperm : Permutation sorted (young o now s)) by apply merge_sort_Permutation.
    assert (Hlen : zlen sorted = zlen (young o now s)) by (by rewrite Hperm).
    rewrite slice_0 by lia. set (n := Z.to_nat (zlen (young o now s) - retainCount o)).
    exists (drop n sorted). split; [by rewrite take_drop|]. split; [rewrite length_drop; lia|].
    assert (Hs : StronglySorted by_end sorted).
    { apply StronglySorted_merge_sort; [intros a b c; unfold by_end; lia|].
      intros a b. unfold by_end. lia. }
    rewrite <- (take_drop n sorted) in Hs. intros a b Ha Hb.
    by apply (StronglySorted_app_1_elem_of by_end (take n sorted) (drop n sorted)).
Qed.

(** Membership by key and by pair agree for parts of the map. *)
Lemma key_of_part l (m : list (ustring * Buffered)) t b :
  NoDup (map fst m) -> (forall kv, kv ∈ l -> kv ∈ m) -> get_buffer t m = Some b ->
  t ∈ map fst l <-> (t, b) ∈ l.
Proof.
  intros Hn Hsub Hg. split.
  - intros Hin. apply list_elem_of_In, in_map_iff in Hin as ([u bu] & E & Hin). cbn in E. subst u.
    apply list_elem_of_In in Hin. pose proof (elem_get _ _ _ Hn (Hsub _ Hin)) as Hg'.
    by simplify_eq.
  - intros Hin. apply list_elem_of_In in Hin. apply list_elem_of_In. by apply (in_map fst) in Hin.
Qed.

Lemma surplus_young o now s kv : 0 <= retainCount o -> kv ∈ surplus o now s -> kv ∈ young o now s.
Proof.
  intros H0 Hin. destruct (surplus_split o now s H0) as (kept & Hp & _). rewrite Hp.
  apply elem_of_app. by left.
Qed.

Lemma evict_keys o now s :
  NoDup (map fst (buffers s)) -> NoDup (map fst (buffers (evict o now s))).
Proof. intros Hn. rewrite evict_drops. by apply drop_all_keys, drop_all_keys. Qed.

(** What is left of one turn. *)
Lemma evict_get o now s t b :
  NoDup (map fst (buffers s)) -> 0 <= retainCount o -> get_buffer t (buffers s) = Some b ->
  get_buffer t (buffers (evict o now s)) =
  if bool_decide ((t, b) ∈ surplus o now s) || bool_decide ((t, b) ∈ aged o now s)
  then None else Some b.
Proof.
  intros Hn H0 Hg. rewrite evict_drops, !drop_all_get, Hg.
  rewrite (bool_decide_ext _ _ (key_of_part (surplus o now s) _ _ _ Hn
    (fun kv H => proj1 (proj1 (young_spec o now s kv) (surplus_young o now s kv H0 H))) Hg)).
  rewrite (bool_decide_ext _ _ (key_of_part (aged o now s) _ _ _ Hn
    (fun kv H => proj1 (proj1 (aged_spec o now s kv) H)) Hg)).
  by destruct (bool_decide _), (bool_decide _).
Qed.

Lemma evict_get_None o now s t :
  get_buffer t (buffers s) = None -> get_buffer t (buffers (evict o now s)) = None.
Proof.
  intros Hg. rewrite evict_drops, !drop_all_get, Hg. by repeat case_match.
Qed.

Lemma survivors_kept o now s kept :
  NoDup (map fst (buffers s)) -> 0 <= retainCount o ->
  Permutation (young o now s) (surplus o now s ++ kept) ->
  Permutation (List.filter evictable (buffers (evict o now s))) kept.
Proof.
  intros Hn H0 Hp.
  assert (Hy : NoDup (young o now s)).
  { apply (NoDup_fmap_1 fst). by apply NoDup_map_filter, NoDup_map_filter. }
  rewrite Hp in Hy. apply NoDup_app in Hy as (_ & Hdis & Hk).
  apply NoDup_Permutation; [|done|].
  { apply (NoDup_fmap_1 fst). by apply NoDup_map_filter, evict_keys. }
  intros [t b]. transitivity ((t, b) ∈ young o now s /\ ((t, b) ∉ surplus o now s)).
  - rewrite list_elem_of_In, filter_In, <- list_elem_of_In. split.
    + intros [Hin He]. pose proof (elem_get _ _ _ (evict_keys o now s Hn) Hin) as Hg.
      destruct (get_buffer t (buffers s)) as [b'|] eqn:Hg'.
      2: { by rewrite (evict_get_None _ _ _ _ Hg') in Hg. }
      rewrite (evict_get _ _ _ _ _ Hn H0 Hg') in Hg.
      destruct (_ || _) eqn:Hd; [done|]. injection Hg as <-.
      apply orb_false_iff in Hd as [Hns%bool_decide_eq_false Hna%bool_decide_eq_false].
      split; [|done]. apply young_spec. split_and!; [by apply get_elem|done|].
      destruct (too_old o now (t, b')) eqn:Ho; [|done]. exfalso. apply Hna, aged_spec.
      split_and!; [by apply get_elem|done|done].
    + intros [Hin Hns]. apply young_spec in Hin as (Hin & He & Ho).
      pose proof (elem_get _ _ _ Hn Hin) as Hg. split; [|done]. apply get_elem.
      rewrite (evict_get _ _ _ _ _ Hn H0 Hg), !bool_decide_false; [done| |done].
      rewrite aged_spec. intros (_ & _ & ?). congruence.
  - rewrite Hp, elem_of_app. split; [tauto|]. intros Hin. split; [by right|].
    intros Hs. by apply (Hdis _ Hs).
Qed.

(** Eviction: of the ended turns nobody is attached to, every one past the age limit and
    then the oldest over the count go, and nothing else does. A running or attached turn
    always survives, a surviving candidate is young, at most [retainCount] candidates
    survive, and a young turn is evicted only when as many survive that ended no earlier. *)
Theorem evict_policy o now s :
  NoDup (map fst (buffers s)) -> 0 <= retainCount o ->
  let s' := evict o now s in
  let survivors := List.filter evictable (buffers s') in
  (forall t b, get_buffer t (buffers s') = Some b -> get_buffer t (buffers s) = Some b) /\
  (forall t b, get_buffer t (buffers s) = Some b -> evictable (t, b) = false ->
     get_buffer t (buffers s') = Some b) /\
  (forall kv, kv ∈ survivors -> too_old o now kv = false) /\
  zlen survivors <= retainCount o /\
  (forall t b, get_buffer t (buffers s) = Some b -> get_buffer t (buffers s') = None ->
     too_old o now (t, b) = false ->
     zlen survivors = retainCount o /\ forall kv, kv ∈ survivors -> ended_ms (t, b) <= ended_ms kv).
Proof.
  intros Hn H0. cbv zeta.
  destruct (surplus_split o now s H0) as (kept & Hp & Hlen & Hle).
  pose proof (survivors_kept o now s kept Hn H0 Hp) as Hs.
  assert (Hyoung : forall kv, kv ∈ kept -> too_old o now kv = false).
  { intros kv Hk. apply (young_spec o now s). rewrite Hp. apply elem_of_app. by right. }
  split_and!.
  - intros t b Hg. destruct (get_buffer t (buffers s)) as [b'|] eqn:Hg'.
    + rewrite (evict_get _ _ _ _ _ Hn H0 Hg') in Hg. by destruct (_ || _).
    + by rewrite (evict_get_None _ _ _ _ Hg') in Hg.
  - intros t b Hg He. rewrite (evict_get _ _ _ _ _ Hn H0 Hg), !bool_decide_false; [done| |].
    + rewrite aged_spec, He. by intros (_ & ? & _).
    + intros Hin. apply (surplus_young _ _ _ _ H0), young_spec in Hin as (_ & ? & _). congruence.
  - intros kv. rewrite Hs. apply Hyoung.
  - rewrite Hs. lia.
  - intros t b Hg Hno Hy. rewrite (evict_get _ _ _ _ _ Hn H0 Hg) in Hno.
    destruct (bool_decide_reflect ((t, b) ∈ surplus o now s)) as [Hin|_].
    2: { cbn in Hno. case_bool_decide as Ha; [|done]. apply aged_spec in Ha as (_ & _ & ?). congruence. }
    rewrite Hs. split; [|intros kv; rewrite Hs; by apply Hle].
    unfold surplus in Hin. destruct (Z.leb_spec (zlen (young o now s)) (retainCount o)); [|lia].
    by apply not_elem_of_nil in Hin.
Qed.

(** ** Runs *)

Inductive Op :=
| Open (t : ustring) (c : bool)
| OnBus (now1 now2 : Z) (e : Event)
| Attach (t : ustring) (l : Listener) (c ch : bool)
| Unsubscribe (n : nat).

Definition apply_op (o : Options) (s : TurnStreams) (op : Op) : TurnStreams :=
  match op with
  | Open t c => open t c s
  | OnBus now1 now2 e => on_bus o now1 now2 e s
  | Attach t l c ch => snd (attach t l c ch s)
  | Unsubscribe n => unsubscribe n s
  end.

Definition run (o : Options) (ops : list Op) (s : TurnStreams) : TurnStreams :=
  fold_left (apply_op o) ops s.

Definition turn_log (t : ustring) (l : list (Z * Event)) : list (Z * Event) :=
  List.filter (fun ne => bool_decide (turnId ne.2 = Some t)) l.

(** Attachments that still hold a unit of chunk interest. *)
Definition pending (l : list Handle) : Z :=
  zlen (List.filter (fun h => h_chunks h && negb (detached h)) l).

(** What one buffer satisfies: it holds the last events of its turn since it was opened,
    under the cap, [dropped] counts the missing ones, its listeners are distinct and each
    belongs to an attachment. *)
Record buffer_ok (o : Options) (s : TurnStreams) (t : ustring) (b : Buffered) : Prop := {
  b_log : exists older, (opened b <= length (recorded s))%nat /\
    turn_log t (drop (opened b) (recorded s)) = older ++ events b /\ zlen older = dropped b;
  b_truncated : truncated b = (0 <? dropped b);
  b_cap : zlen (events b) <= maxEvents o;
  b_listeners : NoDup (map fst (listeners b));
  b_attached : forall l, l ∈ map fst (listeners b) -> exists h, h ∈ handles s /\ h_listener h = l;
  b_serial : (serial b < next_serial s)%nat }.

Record Inv (o : Options) (s : TurnStreams) : Prop := {
  i_keys : NoDup (map fst (buffers s));
  i_buffer : forall t b, get_buffer t (buffers s) = Some b -> buffer_ok o s t b;
  i_interest : chunkInterest s = holders (buffers s) + pending (handles s);
  i_subscribed : chunks_subscribed s = (0 <? chunkInterest s);
  i_listening : listening s = true }.

Lemma pending_nonneg l : 0 <= pending l.
Proof. unfold pending. lia. Qed.

Lemma holders_nonneg l : 0 <= holders l.
Proof. unfold holders. lia. Qed.

(** The buffers of [s'] relate to those of [s]; the rest is as in [Inv]. *)
Lemma buffer_ok_weaken o s s' t b :
  buffer_ok o s t b -> recorded s' = recorded s ->
  (forall h, h ∈ handles s -> exists h', h' ∈ handles s' /\ h_listener h' = h_listener h) ->
  (next_serial s <= next_serial s')%nat -> buffer_ok o s' t b.
Proof.
  intros [Hl Ht Hc Hd Ha Hs] Hr Hh Hn. split; try done; [by rewrite Hr| |lia].
  intros l Hin. destruct (Ha l Hin) as (h & Hin' & <-). by apply Hh.
Qed.

Lemma take_ok o s :
  Inv o s -> let s' := takeChunkInterest s in
  chunkInterest s' = chunkInterest s + 1 /\ chunks_subscribed s' = true.
Proof.
  intros HI. cbn. split; [done|]. rewrite (i_listening _ _ HI), andb_true_r.
  pose proof (i_interest _ _ HI). pose proof (holders_nonneg (buffers s)).
  pose proof (pending_nonneg (handles s)). rewrite (i_subscribed _ _ HI).
  destruct (Z.eqb_spec (chunkInterest s + 1) 1); [done|lia].
Qed.

Lemma inv_open o t c s : 0 <= maxEvents o -> Inv o s -> Inv o (open t c s).
Proof.
  intros H0 HI. unfold open. destruct (get_buffer t (buffers s)) eqn:Hg; [done|].
  pose proof (take_ok o s HI) as [Ht1 Ht2].
  set (s1 := if c then takeChunkInterest s else s).
  assert (Hsame : same_observations s s1 /\ buffers s1 = buffers s) by (by subst s1; destruct c).
  destruct Hsame as [[] Hb]. split; cbn.
  - rewrite map_app. cbn. rewrite Hb. apply NoDup_app. split_and!; [apply HI| |apply NoDup_singleton].
    intros x Hx ->%list_elem_of_singleton. by apply get_None_keys in Hg.
  - intros t' b'. rewrite get_app, Hb. destruct (get_buffer t' (buffers s)) as [b0|] eqn:Hg'.
    + intros [= <-]. apply (buffer_ok_weaken o s); [by apply (i_buffer _ _ HI)|done| |cbn; lia].
      cbn. rewrite so_handles0. by eauto.
    + case_bool_decide; [|done]. intros [= <-]. subst t'. split; cbn; try done; try lia.
      * exists []. split; [done|]. by rewrite drop_ge.
      * apply NoDup_nil_2.
      * intros l []%not_elem_of_nil.
  - rewrite holders_app, Hb, so_handles0. cbn. pose proof (i_interest _ _ HI).
    subst s1. destruct c; cbn [Z.b2z]; [cbn [chunkInterest] in *|]; lia.
  - subst s1. pose proof (i_interest _ _ HI). pose proof (holders_nonneg (buffers s)).
    pose proof (pending_nonneg (handles s)). destruct c; [|apply HI]. rewrite Ht1, Ht2. lia.
  - rewrite so_listening0. apply HI.
Qed.

Lemma inv_same_buffers o s s' :
  Inv o s -> buffers s' = buffers s -> recorded s' = recorded s ->
  (forall h, h ∈ handles s -> exists h', h' ∈ handles s' /\ h_listener h' = h_listener h) ->
  next_serial s' = next_serial s -> listening s' = listening s ->
  chunkInterest s' = holders (buffers s) + pending (handles s') ->
  chunks_subscribed s' = (0 <? chunkInterest s') -> Inv o s'.
Proof.
  intros HI Hb Hr Hh Hn Hl Hc Hs. split.
  - rewrite Hb. apply HI.
  - intros t b. rewrite Hb. intros Hg. apply (buffer_ok_weaken o s); try done; [by apply HI|lia].
  - by rewrite Hb.
  - done.
  - rewrite Hl. apply HI.
Qed.

(** Changing one buffer's listeners, children or end. *)
Lemma inv_set_buffer o s t b b' :
  Inv o s -> get_buffer t (buffers s) = Some b -> buffer_ok o s t b' ->
  holdsChunkInterest b' = holdsChunkInterest b ->
  Inv o (with_buffers (set_buffer t b' (buffers s)) s).
Proof.
  intros HI Hg Hok Hh. split; cbn.
  - rewrite (set_keys _ _ b) by done. apply HI.
  - intros t' b0. rewrite get_set. case_bool_decide as E.
    + intros [= <-]. subst t'. by apply (buffer_ok_weaken o s); eauto.
    + intros Hg'. apply (buffer_ok_weaken o s); eauto. by apply HI.
  - rewrite (holders_set _ _ b) by done. apply HI.
  - apply HI.
  - apply HI.
Qed.

Lemma set_listener_keys l i ls :
  map fst (set_listener l i ls) =
  if bool_decide (l ∈ map fst ls) then map fst ls else map fst ls ++ [l].
Proof.
  induction ls as [|[l' i'] ls IH]; cbn.
  { by rewrite bool_decide_false by apply not_elem_of_nil. }
  destruct (Nat.eqb_spec l' l) as [->|Hne]; cbn.
  - rewrite bool_decide_true; [done|by left].
  - rewrite IH. destruct (bool_decide_reflect (l ∈ map fst ls)).
    + rewrite bool_decide_true; [done|by right].
    + rewrite bool_decide_false; [done|]. rewrite not_elem_of_cons. by split.
Qed.

Lemma set_listener_nodup l i ls : NoDup (map fst ls) -> NoDup (map fst (set_listener l i ls)).
Proof.
  intros Hn. rewrite set_listener_keys. case_bool_decide as E; [done|]. apply NoDup_app.
  split_and!; [done| |apply NoDup_singleton]. by intros x Hx ->%list_elem_of_singleton.
Qed.

Lemma inv_attach o t l c ch s : Inv o s -> Inv o (snd (attach t l c ch s)).
Proof.
  intros HI. unfold attach. destruct (get_buffer t (buffers s)) as [b|] eqn:Hg; [|done]. cbn [snd].
  pose proof (take_ok o s HI) as [Ht1 Ht2]. pose proof (i_interest _ _ HI) as Hi.
  set (h := {| h_turn := t; h_serial := serial b; h_listener := l; h_chunks := c;
               detached := false |}).
  set (s1 := with_handles (handles s ++ [h]) (if c then takeChunkInterest s else s)).
  assert (HI1 : Inv o s1).
  { assert (pending (handles s ++ [h]) = pending (handles s) + Z.b2z c) as Hp.
    { unfold pending. rewrite List.filter_app, length_app. cbn. destruct c; cbn; lia. }
    apply (inv_same_buffers o s _ HI); subst s1; destruct c; cbn [with_handles takeChunkInterest
      with_interest buffers recorded handles next_serial listening chunkInterest
      chunks_subscribed]; try done.
    all: try (intros h' Hh'; exists h'; split; [apply elem_of_app; by left|done]).
    - rewrite Hp, Hi. cbn [Z.b2z]. lia.
    - rewrite Hp, Hi. cbn [Z.b2z]. lia.
    - pose proof (holders_nonneg (buffers s)). pose proof (pending_nonneg (handles s)).
      transitivity true; [exact Ht2|]. symmetry. apply Z.ltb_lt. lia.
    - apply HI. }
  assert (Hg1 : get_buffer t (buffers s1) = Some b) by (subst s1; by destruct c).
  pose proof (inv_set_buffer o s1 t b
    (with_listeners (set_listener l {| i_chunks := c; i_children := ch |} (listeners b)) b) HI1 Hg1)
    as Hset.
  replace (handles (if c then takeChunkInterest s else s)) with (handles s) by (by destruct c).
  replace (with_handles _ _) with
    (with_buffers (set_buffer t (with_listeners (set_listener l {| i_chunks := c;
       i_children := ch |} (listeners b)) b) (buffers s1)) s1) by (subst s1; by destruct c).
  apply Hset; [|done]. destruct (i_buffer _ _ HI1 _ _ Hg1) as [Hl Ht Hc Hd Ha Hs].
  split; try done; cbn; [by apply set_listener_nodup|].
  intros l'. rewrite set_listener_keys. case_bool_decide; [apply Ha|].
  intros [Hin| ->%list_elem_of_singleton]%elem_of_app; [by apply Ha|].
  exists h. split; [|done]. subst s1. cbn. apply elem_of_app. right. by apply list_elem_of_singleton.
Qed.

Lemma pending_detach n h l :
  l !! n = Some h -> detached h = false ->
  pending (<[n := detach h]> l) = pending l - Z.b2z (h_chunks h).
Proof.
  unfold pending. revert n. induction l as [|h' l IH]; intros [|n] Hn Hd; try done.
  - injection Hn as ->. cbn. rewrite Hd, andb_false_r, andb_true_r.
    destruct (h_chunks h); cbn [length Z.b2z]; lia.
  - specialize (IH n Hn Hd). change (<[S n := detach h]> (h' :: l)) with (h' :: <[n := detach h]> l).
    cbn [List.filter]. destruct (h_chunks h' && negb (detached h')); cbn [length]; lia.
Qed.

Lemma inv_unsubscribe o n s : Inv o s -> Inv o (unsubscribe n s).
Proof.
  intros HI. unfold unsubscribe. destruct (handles s !! n) as [h|] eqn:Hh; [|done].
  destruct (detached h) eqn:Hd; [done|].
  pose proof (pending_detach n h (handles s) Hh Hd) as Hp.
  pose proof (i_interest _ _ HI) as Hi. pose proof (holders_nonneg (buffers s)) as Hn1.
  pose proof (pending_nonneg (<[n := detach h]> (handles s))) as Hn2.
  set (s1 := with_handles (<[n := detach h]> (handles s))
    (if h_chunks h then releaseChunkInterest s else s)).
  assert (HI1 : Inv o s1).
  { apply (inv_same_buffers o s _ HI); subst s1; unfold releaseChunkInterest;
      destruct (h_chunks h); cbn [Z.b2z] in *;
      try (destruct (Z.eqb_spec (chunkInterest s) 0)); cbn [with_handles with_interest buffers
      recorded handles next_serial listening chunkInterest chunks_subscribed]; try done; try lia.
    all: try (intros h' Hh'; apply list_elem_of_lookup in Hh' as [m Hm];
      destruct (decide (m = n)) as [->|Hne];
      [exists (detach h); split; [apply list_elem_of_lookup; exists n;
         apply list_lookup_insert_eq; by apply lookup_lt_Some in Hm|cbn; congruence]
      |exists h'; split; [apply list_elem_of_lookup; exists m;
         by rewrite list_lookup_insert_ne|done]]).
    - rewrite (i_subscribed _ _ HI). destruct (Z.eqb_spec (chunkInterest s - 1) 0); lia.
    - apply HI.
    - apply HI. }
  set (del := fun b => with_listeners (delete_listener (h_listener h) (listeners b)) b).
  assert (Hstep : Inv o (match get_buffer (h_turn h) (buffers s1) with
    | Some b => if (serial b =? h_serial h)%nat
                then with_buffers (set_buffer (h_turn h) (del b) (buffers s1)) s1 else s1
    | None => s1 end)).
  { destruct (get_buffer (h_turn h) (buffers s1)) as [b|] eqn:Hg; [|done].
    destruct (serial b =? h_serial h)%nat; [|done]. apply (inv_set_buffer o s1 _ b); try done.
    destruct (i_buffer _ _ HI1 _ _ Hg) as [Hl Ht Hc Hdd Ha Hs]. split; try done; cbn.
    - by apply NoDup_map_filter.
    - intros l Hin. apply Ha. apply list_elem_of_In, in_map_iff in Hin as (x & <- & Hx).
      apply filter_In in Hx as [Hx _]. apply list_elem_of_In. by apply in_map. }
  revert Hstep. subst s1 del. cbn [buffers with_handles].
  destruct (h_chunks h); rewrite ?release_buffers; [|done].
  destruct (get_buffer (h_turn h) (buffers s)) as [b|]; [destruct (serial b =? h_serial h)%nat|];
    unfold releaseChunkInterest; cbn [chunkInterest with_handles with_buffers];
    by destruct (chunkInterest s =? 0).
Qed.

(** ** Recording *)

Lemma get_deliver o t e s b t' :
  get_buffer t (buffers s) = Some b ->
  get_buffer t' (buffers (deliver o t e s)) =
  (fun b' =>
     let b1 := if bool_decide (t = t') then push_event (maxEvents o) (seq s) e b' else b' in
     if bool_decide (parentTurnId e = Some t') then add_child t b1 else b1)
  <$> get_buffer t' (buffers s).
Proof.
  intros Hg. unfold deliver. rewrite Hg. cbn [buffers].
  set (b1 := push_event (maxEvents o) (seq s) e b).
  assert (H1 : forall u, get_buffer u (set_buffer t b1 (buffers s)) =
    (fun b' => if bool_decide (t = u) then push_event (maxEvents o) (seq s) e b' else b')
      <$> get_buffer u (buffers s)).
  { intros u. rewrite get_set. destruct (bool_decide_reflect (t = u)) as [<-|].
    - by rewrite Hg.
    - by destruct (get_buffer u (buffers s)). }
  destruct (parentTurnId e) as [p|] eqn:Hp; cbn.
  - destruct (get_buffer p (set_buffer t b1 (buffers s))) as [pb|] eqn:Hpb; cbn.
    + rewrite get_set, H1. destruct (bool_decide_reflect (p = t')) as [<-|Hne].
      * rewrite H1 in Hpb. destruct (get_buffer p (buffers s)) as [pb0|]; [|done].
        cbn in *. rewrite bool_decide_true by done. injection Hpb as <-. done.
      * destruct (get_buffer t' (buffers s)); [|done]. cbn.
        by rewrite (bool_decide_false (Some p = Some t')) by congruence.
    + rewrite H1. destruct (get_buffer t' (buffers s)) as [b'|] eqn:Hg'; [|done]. cbn.
      rewrite (bool_decide_false (Some p = Some t')); [done|]. intros [= ->].
      by rewrite H1, Hg' in Hpb.
  - rewrite H1. by destruct (get_buffer t' (buffers s)).
Qed.

Lemma deliver_keys o t e s : map fst (buffers (deliver o t e s)) = map fst (buffers s).
Proof.
  unfold deliver. destruct (get_buffer t (buffers s)) as [b|] eqn:Hg; [|done]. cbn [buffers].
  destruct (parentTurnId e) as [p|]; cbn; [|by rewrite (set_keys _ _ b)].
  destruct (get_buffer p (set_buffer t _ (buffers s))) as [pb|] eqn:Hp; cbn.
  - rewrite (set_keys _ _ pb) by done. by rewrite (set_keys _ _ b).
  - by rewrite (set_keys _ _ b).
Qed.

Lemma deliver_holders o t e s : holders (buffers (deliver o t e s)) = holders (buffers s).
Proof.
  unfold deliver. destruct (get_buffer t (buffers s)) as [b|] eqn:Hg; [|done]. cbn [buffers].
  destruct (parentTurnId e) as [p|]; cbn; [|by rewrite (holders_set _ _ b)].
  destruct (get_buffer p (set_buffer t _ (buffers s))) as [pb|] eqn:Hp; cbn.
  - rewrite (holders_set _ _ pb) by done. by rewrite (holders_set _ _ b).
  - by rewrite (holders_set _ _ b).
Qed.

Lemma push_ok o s t b e :
  0 <= maxEvents o -> buffer_ok o s t b -> turnId e = Some t ->
  buffer_ok o (deliver o t e s) t (push_event (maxEvents o) (seq s) e b) \/
  get_buffer t (buffers s) = None.
Proof.
  intros H0 [(older & Hop & Hl & Ho) Ht Hc Hd Ha Hs] He.
  destruct (get_buffer t (buffers s)) as [b0|] eqn:Hg; [left|by right].
  assert (Hrec : recorded (deliver o t e s) = recorded s ++ [(seq s, e)]).
  { unfold deliver. by rewrite Hg. }
  assert (Hlog : turn_log t (drop (opened b) (recorded s ++ [(seq s, e)])) =
    older ++ (events b ++ [(seq s, e)])).
  { rewrite drop_app_le by done. unfold turn_log in *. rewrite List.filter_app, Hl. cbn.
    by rewrite He, bool_decide_true, app_assoc by done. }
  split; cbn [push_event truncated dropped events listeners serial opened].
  - rewrite Hrec, Hlog. destruct (Z.ltb_spec (maxEvents o) (zlen (events b ++ [(seq s, e)]))).
    + destruct (events b ++ [(seq s, e)]) as [|x rest]; [by cbn in *; lia|].
      exists (older ++ [x]). rewrite length_app. cbn [length tail]. split; [lia|].
      rewrite <- app_assoc. split; [done|]. rewrite length_app. cbn. lia.
    + exists older. rewrite length_app. split; [lia|]. done.
  - rewrite Ht. destruct (maxEvents o <? _); lia.
  - destruct (Z.ltb_spec (maxEvents o) (zlen (events b ++ [(seq s, e)]))); [|lia].
    rewrite length_app in *. cbn [length] in *. destruct (events b); cbn in *;
      rewrite ?length_app; cbn; lia.
  - done.
  - unfold deliver. rewrite Hg. cbn. done.
  - unfold deliver. rewrite Hg. cbn. done.
Qed.

Lemma deliver_fields o t e s b :
  get_buffer t (buffers s) = Some b ->
  recorded (deliver o t e s) = recorded s ++ [(seq s, e)] /\
  handles (deliver o t e s) = handles s /\ next_serial (deliver o t e s) = next_serial s /\
  listening (deliver o t e s) = listening s /\ chunkInterest (deliver o t e s) = chunkInterest s /\
  chunks_subscribed (deliver o t e s) = chunks_subscribed s.
Proof. intros Hg. unfold deliver. by rewrite Hg. Qed.

Lemma other_ok o s t t' b e :
  buffer_ok o s t' b -> turnId e = Some t -> t <> t' -> buffer_ok o (deliver o t e s) t' b.
Proof.
  intros [(older & Hop & Hl & Ho) Ht Hc Hd Ha Hs] He Hne.
  destruct (get_buffer t (buffers s)) as [b0|] eqn:Hg.
  2: { unfold deliver. rewrite Hg. split; try done. by exists older. }
  destruct (deliver_fields o t e s b0 Hg) as (Hrec & Hh & Hn & _).
  split; rewrite ?Hrec, ?Hh, ?Hn; try done. exists older. rewrite length_app.
  split; [lia|]. split; [|done]. rewrite drop_app_le by done. unfold turn_log in *.
  rewrite List.filter_app, Hl. cbn. rewrite He, bool_decide_false by congruence.
  by rewrite app_nil_r.
Qed.

Lemma inv_deliver o t e s b :
  0 <= maxEvents o -> Inv o s -> get_buffer t (buffers s) = Some b -> turnId e = Some t ->
  Inv o (deliver o t e s).
Proof.
  intros H0 HI Hg He. destruct (deliver_fields o t e s b Hg) as (Hrec & Hh & Hn & Hl & Hc & Hs).
  split; rewrite ?Hl, ?Hc, ?Hs, ?Hh, ?deliver_keys, ?deliver_holders; try apply HI.
  intros t' b'. rewrite (get_deliver _ _ _ _ b) by done.
  destruct (get_buffer t' (buffers s)) as [b0|] eqn:Hg'; [|done]. cbn. intros [= <-].
  pose proof (i_buffer _ _ HI _ _ Hg') as Hok.
  assert (H1 : buffer_ok o (deliver o t e s) t'
    (if bool_decide (t = t') then push_event (maxEvents o) (seq s) e b0 else b0)).
  { destruct (bool_decide_reflect (t = t')) as [<-|Hne].
    - destruct (push_ok o s t b0 e H0 Hok He) as [?|?]; [done|congruence].
    - by apply other_ok. }
  destruct (bool_decide (parentTurnId e = Some t')); [|done]. destruct H1. by split.
Qed.

Lemma inv_evict o now s : 0 <= retainCount o -> Inv o s -> Inv o (evict o now s).
Proof.
  intros H0 HI. pose proof (i_keys _ _ HI) as Hn. pose proof (i_interest _ _ HI) as Hi.
  pose proof (pending_nonneg (handles s)) as Hp. pose proof (holders_nonneg (buffers s)) as Hh.
  assert (Hobs : same_observations s (evict o now s)).
  { rewrite evict_drops. etransitivity; apply drop_all_same. }
  destruct Hobs as [O1 O2 O3 O4 O5 O6]. split.
  - by apply evict_keys.
  - intros t b Hg. destruct (get_buffer t (buffers s)) as [b'|] eqn:Hg'.
    2: { by rewrite (evict_get_None _ _ _ _ Hg') in Hg. }
    rewrite (evict_get _ _ _ _ _ Hn H0 Hg') in Hg. destruct (_ || _); [done|].
    injection Hg as <-. apply (buffer_ok_weaken o s); [by apply HI|done| |by rewrite O2].
    rewrite O3. by eauto.
  - rewrite O3, evict_drops. apply drop_all_interest; [by apply drop_all_keys| |done|].
    + split.
      * destruct (surplus_split o now s H0) as (kept & Hperm & _).
        assert (NoDup (map fst (young o now s))) as Hy by (by apply NoDup_map_filter, NoDup_map_filter).
        rewrite Hperm, map_app in Hy. by apply NoDup_app in Hy as (? & _).
      * intros t b Hin. rewrite drop_all_get.
        pose proof (surplus_young _ _ _ _ H0 Hin) as (Hb & _ & Ho)%young_spec.
        pose proof (elem_get _ _ _ Hn Hb) as Hg. rewrite Hg, bool_decide_false; [done|].
        rewrite (key_of_part (aged o now s) _ _ _ Hn
          (fun kv H => proj1 (proj1 (aged_spec o now s kv) H)) Hg), aged_spec.
        intros (_ & _ & ?). congruence.
    + apply drop_all_interest; try done. split; [by apply NoDup_map_filter, NoDup_map_filter|].
      intros t b (Hb & _)%aged_spec. by apply elem_get.
  - rewrite evict_drops. apply drop_all_subscribed; apply drop_all_subscribed;
      try apply HI; lia.
  - rewrite O4. apply HI.
Qed.

Lemma inv_record o now1 now2 e s :
  0 <= maxEvents o -> 0 <= retainCount o -> Inv o s -> Inv o (record o now1 now2 e s).
Proof.
  intros Hm Hr HI. unfold record. destruct (turnId e) as [t|] eqn:He; [|done].
  assert (HI1 : Inv o (touch t s)).
  { pose proof (inv_open o t false s Hm HI) as Ho. unfold open, touch in *.
    by destruct (get_buffer t (buffers s)). }
  assert (exists b, get_buffer t (buffers (touch t s)) = Some b) as [b Hb].
  { unfold touch. destruct (get_buffer t (buffers s)) eqn:E; [by eauto|]. cbn.
    rewrite get_app, E, bool_decide_true by done. by eauto. }
  pose proof (inv_deliver o t e _ b Hm HI1 Hb He) as HI2.
  destruct (is_end e); [|done]. unfold finish.
  destruct (get_buffer t (buffers (deliver o t e (touch t s)))) as [b2|] eqn:Hb2; [|done].
  apply inv_evict; [done|]. apply (inv_set_buffer o _ t b2); try done.
  by destruct (i_buffer _ _ HI2 _ _ Hb2).
Qed.

Lemma inv_op o op s :
  0 <= maxEvents o -> 0 <= retainCount o -> Inv o s -> Inv o (apply_op o s op).
Proof.
  intros Hm Hr HI. destruct op; cbn.
  - by apply inv_open.
  - unfold on_bus. destruct (if is_chunk e then _ else _); [by apply inv_record|done].
  - by apply inv_attach.
  - by apply inv_unsubscribe.
Qed.

Lemma inv_run o ops : forall s,
  0 <= maxEvents o -> 0 <= retainCount o -> Inv o s -> Inv o (run o ops s).
Proof.
  induction ops as [|op ops IH]; intros s Hm Hr HI; [done|]. by apply IH, inv_op.
Qed.

Lemma inv_start o : Inv o (listen new_streams).
Proof. split; cbn; try done. apply NoDup_nil_2. Qed.

(** Through any opens, events, attaches and detaches, the bus's chunk subscription exists
    exactly while a buffer opened with chunks or an undetached chunk attachment remains, and
    the count is their number: nothing leaks a unit and nothing gives one back twice. *)
Theorem chunk_interest_balanced o ops :
  0 <= maxEvents o -> 0 <= retainCount o ->
  let s := run o ops (listen new_streams) in
  chunkInterest s =
    zlen (List.filter (fun kv => holdsChunkInterest kv.2) (buffers s)) +
    zlen (List.filter (fun h => h_chunks h && negb (detached h)) (handles s)) /\
  (chunks_subscribed s = true <-> 0 < chunkInterest s).
Proof.
  intros Hm Hr. cbv zeta. pose proof (inv_run o ops _ Hm Hr (inv_start o)) as HI.
  split; [apply HI|]. rewrite (i_subscribed _ _ HI). by rewrite Z.ltb_lt.
Qed.

(** ** The handover *)

(** What a listener was called with, in order. *)
Definition received (l : Listener) (s : TurnStreams) : list Event :=
  map snd (List.filter (fun le => (le.1 =? l)%nat) (delivered s)).

(** How an event reaches an attachment of turn [t]: as the turn's own, and as its child's. *)
Definition copies (t : ustring) (i : ListenerInterest) (e : Event) : list Event :=
  let wanted := negb (is_chunk e && negb (i_chunks i)) in
  (if bool_decide (turnId e = Some t) && wanted then [e] else []) ++
  (if bool_decide (parentTurnId e = Some t) && wanted && i_children i then [e] else []).

(** [l] is attached to [t] with interest [i], and to nothing else. *)
Record attached (t : ustring) (l : Listener) (i : ListenerInterest) (n : nat) (s : TurnStreams)
  : Prop := {
  at_buffer : exists b, get_buffer t (buffers s) = Some b /\ (l, i) ∈ listeners b;
  at_only : forall t' b, get_buffer t' (buffers s) = Some b -> l ∈ map fst (listeners b) -> t' = t;
  at_handle : forall m h, handles s !! m = Some h -> h_listener h = l -> m = n;
  at_number : (n < length (handles s))%nat }.

Definition leaves_alone (l : Listener) (n : nat) (op : Op) : bool :=
  match op with
  | Attach _ l' _ _ => negb (l' =? l)%nat
  | Unsubscribe m => negb (m =? n)%nat
  | _ => true
  end.

Lemma filter_map_pair l (e : Event) ls :
  List.filter (fun le => (le.1 =? l)%nat) (map (fun l' : Listener => (l', e)) ls) =
  map (fun l' => (l', e)) (List.filter (fun l' => (l' =? l)%nat) ls).
Proof. induction ls as [|l' ls IH]; cbn; [done|]. destruct (l' =? l)%nat; cbn; by rewrite IH. Qed.

(** One listener's share of a fan-out. *)
Lemma fanOut_share l i b chunk child :
  NoDup (map fst (listeners b)) -> (l, i) ∈ listeners b ->
  List.filter (fun l' => (l' =? l)%nat) (fanOut b chunk child) =
  if negb (chunk && negb (i_chunks i)) && negb (child && negb (i_children i)) then [l] else [].
Proof.
  unfold fanOut. generalize (listeners b) as ls. clear b. intros ls.
  assert (Hnone : forall ls, l ∉ map fst ls ->
    List.filter (fun l' => (l' =? l)%nat) (map fst (List.filter (fun li : Listener * ListenerInterest =>
      negb (chunk && negb (i_chunks li.2)) && negb (child && negb (i_children li.2))) ls)) = []).
  { clear ls. induction ls as [|[l' i'] ls IH]; [done|]. intros [Hne Hl]%not_elem_of_cons. cbn.
    destruct (_ && _); [|by apply IH]. cbn. rewrite (proj2 (Nat.eqb_neq _ _)); [by apply IH|].
    by intros ->. }
  induction ls as [|[l' i'] ls IH]; [by intros _ ?%not_elem_of_nil|].
  intros [Hl Hn]%NoDup_cons [[= -> ->]|Hin]%elem_of_cons; cbn.
  - destruct (_ && _); [|by apply Hnone]. cbn. by rewrite Nat.eqb_refl, Hnone.
  - assert (l' <> l) as Hne.
    { intros ->. apply Hl. apply list_elem_of_In in Hin. apply list_elem_of_In.
      by apply (in_map fst) in Hin. }
    destruct (negb (chunk && negb (i_chunks i')) && _); [|by apply IH]. cbn.
    rewrite (proj2 (Nat.eqb_neq _ _) Hne). by apply IH.
Qed.

Lemma fanOut_none l b chunk child :
  l ∉ map fst (listeners b) ->
  List.filter (fun l' => (l' =? l)%nat) (fanOut b chunk child) = [].
Proof.
  intros Hn. unfold fanOut. revert Hn. generalize (listeners b) as ls.
  induction ls as [|[l' i'] ls IH]; [done|]. intros [Hne Hl]%not_elem_of_cons. cbn.
  destruct (_ && _); [|by apply IH]. cbn. rewrite (proj2 (Nat.eqb_neq _ _)); [by apply IH|].
  by intros ->.
Qed.

#[local] Arguments fanOut : simpl never.

Lemma received_deliver o t l i n s u e b :
  Inv o s -> attached t l i n s -> get_buffer u (buffers s) = Some b -> turnId e = Some u ->
  received l (deliver o u e s) = received l s ++ copies t i e.
Proof.
  intros HI [(bt & Hbt & Hin) Honly _ _] Hb He.
  pose proof (b_listeners _ _ _ _ (i_buffer _ _ HI _ _ Hbt)) as Hnd.
  unfold received, deliver. rewrite Hb. cbn [delivered].
  rewrite List.filter_app, map_app, filter_map_pair, List.filter_app. f_equal.
  assert (Hown : List.filter (fun l' => (l' =? l)%nat)
      (fanOut (push_event (maxEvents o) (seq s) e b) (is_chunk e) false) =
    if bool_decide (turnId e = Some t) && negb (is_chunk e && negb (i_chunks i)) then [l] else []).
  { rewrite He. destruct (bool_decide_reflect (Some u = Some t)) as [[= ->]|Hne].
    - simplify_eq. rewrite (fanOut_share l i) by done. by rewrite andb_true_r.
    - apply fanOut_none. cbn. intros Hl. apply Hne. f_equal. by apply (Honly u b). }
  assert (Htheirs : List.filter (fun l' => (l' =? l)%nat)
      (match (p ← parentTurnId e; pb ← get_buffer p
                (set_buffer u (push_event (maxEvents o) (seq s) e b) (buffers s));
              Some (p, add_child u pb)) with
       | Some (_, pb) => fanOut pb (is_chunk e) true | None => [] end) =
    if bool_decide (parentTurnId e = Some t) && negb (is_chunk e && negb (i_chunks i)) &&
       i_children i then [l] else []).
  { destruct (parentTurnId e) as [p|]; cbn; [|done]. rewrite get_set.
    destruct (bool_decide_reflect (Some p = Some t)) as [[= ->]|Hne].
    - destruct (bool_decide_reflect (u = t)) as [->|]; [|rewrite Hbt]; cbn; simplify_eq;
        rewrite (fanOut_share l i) by done; by destruct (i_children i).
    - destruct (bool_decide_reflect (u = p)) as [->|].
      + cbn. apply fanOut_none. cbn. intros Hl. apply Hne. f_equal. by apply (Honly p b).
      + destruct (get_buffer p (buffers s)) as [pb|] eqn:Hp; cbn; [|done].
        apply fanOut_none. cbn. intros Hl. apply Hne. f_equal. by apply (Honly p pb). }
  rewrite Hown, Htheirs. unfold copies. rewrite map_app, map_app.
  by repeat (destruct (_ && _); cbn).
Qed.

(** Replacing a buffer by one with the same listeners. *)
Lemma attached_same t l i n s s' :
  attached t l i n s -> handles s' = handles s ->
  (forall u b, get_buffer u (buffers s) = Some b -> l ∈ map fst (listeners b) ->
     exists b', get_buffer u (buffers s') = Some b' /\ listeners b' = listeners b) ->
  (forall u b', get_buffer u (buffers s') = Some b' -> l ∈ map fst (listeners b') ->
     exists b, get_buffer u (buffers s) = Some b /\ listeners b' = listeners b) ->
  attached t l i n s'.
Proof.
  intros [(b & Hb & Hin) Ho Hh Hn] Hhs H1 H2. rewrite <- Hhs in Hh, Hn. split; try done.
  - assert (l ∈ map fst (listeners b)) as Hl.
    { apply list_elem_of_In in Hin. apply list_elem_of_In. by apply (in_map fst) in Hin. }
    destruct (H1 t b Hb Hl) as (b' & Hb' & E). exists b'. by rewrite E.
  - intros u b' Hb' Hl. destruct (H2 u b' Hb' Hl) as (b0 & Hb0 & E). apply (Ho u b0); [done|].
    by rewrite <- E.
Qed.

Lemma touch_get u t s :
  get_buffer t (buffers (touch u s)) =
  match get_buffer t (buffers s) with
  | Some b => Some b
  | None => if bool_decide (u = t) then Some (empty_buffer (next_serial s) (length (recorded s)) false) else None
  end.
Proof.
  unfold touch. destruct (get_buffer u (buffers s)) eqn:Hu.
  - destruct (get_buffer t (buffers s)) eqn:Ht; [done|]. case_bool_decide; [|done]. congruence.
  - cbn. apply get_app.
Qed.

Lemma touch_fields u s :
  recorded (touch u s) = recorded s /\ delivered (touch u s) = delivered s /\
  handles (touch u s) = handles s.
Proof. unfold touch. by destruct (get_buffer u (buffers s)). Qed.

Lemma inv_touch o t s : 0 <= maxEvents o -> Inv o s -> Inv o (touch t s).
Proof.
  intros Hm HI. pose proof (inv_open o t false s Hm HI) as Ho. unfold open, touch in *.
  by destruct (get_buffer t (buffers s)).
Qed.

Lemma attached_touch u t l i n s : attached t l i n s -> attached t l i n (touch u s).
Proof.
  intros Ha. apply (attached_same _ _ _ _ s); [done|apply touch_fields| |].
  - intros v b Hb _. exists b. by rewrite touch_get, Hb.
  - intros v b' Hb' Hl. rewrite touch_get in Hb'. destruct (get_buffer v (buffers s)) as [b|].
    + injection Hb' as <-. by exists b.
    + case_bool_decide; [|done]. injection Hb' as <-. by apply not_elem_of_nil in Hl.
Qed.

Lemma attached_deliver o u e t l i n s b :
  get_buffer u (buffers s) = Some b -> attached t l i n s -> attached t l i n (deliver o u e s).
Proof.
  intros Hb Ha. apply (attached_same _ _ _ _ s); [done|by apply (deliver_fields o u e s b)| |].
  - intros v bv Hv _. rewrite (get_deliver _ _ _ _ b), Hv by done. eexists. split; [done|].
    by destruct (bool_decide (u = v)), (bool_decide (parentTurnId e = Some v)).
  - intros v b' Hv _. rewrite (get_deliver _ _ _ _ b) in Hv by done.
    destruct (get_buffer v (buffers s)) as [bv|]; [|done]. injection Hv as <-. exists bv.
    split; [done|]. by destruct (bool_decide (u = v)), (bool_decide (parentTurnId e = Some v)).
Qed.

(** An attached turn is not evictable. *)
Lemma attached_evict o now t l i n s :
  0 <= retainCount o -> Inv o s -> attached t l i n s -> attached t l i n (evict o now s).
Proof.
  intros H0 HI Ha. pose proof (i_keys _ _ HI) as Hn.
  assert (same_observations s (evict o now s)) as [O1 O2 O3 O4 O5 O6].
  { rewrite evict_drops. etransitivity; apply drop_all_same. }
  assert (Hsub : forall u b, get_buffer u (buffers (evict o now s)) = Some b ->
                 get_buffer u (buffers s) = Some b).
  { intros u b Hu. destruct (get_buffer u (buffers s)) as [b'|] eqn:Hu'.
    - rewrite (evict_get _ _ _ _ _ Hn H0 Hu') in Hu. by destruct (_ || _).
    - by rewrite (evict_get_None _ _ _ _ Hu') in Hu. }
  apply (attached_same _ _ _ _ s); [done|done| |].
  - intros u b Hu Hl. exists b. split; [|done].
    assert (evictable (u, b) = false) as He.
    { unfold evictable. cbn. destruct (state b), (endedAt b), (listeners b); try done.
      by apply not_elem_of_nil in Hl. }
    rewrite (evict_get _ _ _ _ _ Hn H0 Hu), !bool_decide_false; [done| |].
    + rewrite aged_spec, He. by intros (_ & ? & _).
    + intros Hin. apply (surplus_young _ _ _ _ H0), young_spec in Hin as (_ & ? & _). congruence.
  - intros u b Hu _. exists b. split; [by apply Hsub|done].
Qed.

Lemma attached_finish o now1 now2 u t l i n s :
  0 <= retainCount o -> Inv o s -> attached t l i n s ->
  attached t l i n (finish o now1 now2 u s) /\
  recorded (finish o now1 now2 u s) = recorded s /\
  delivered (finish o now1 now2 u s) = delivered s.
Proof.
  intros H0 HI Ha. unfold finish. destruct (get_buffer u (buffers s)) as [b|] eqn:Hb; [|done].
  set (s1 := with_buffers (set_buffer u (end_buffer now1 b) (buffers s)) s).
  assert (same_observations s1 (evict o now2 s1)) as [O1 O2 O3 O4 O5 O6].
  { rewrite evict_drops. etransitivity; apply drop_all_same. }
  split; [|done]. apply attached_evict; [done| |].
  - apply (inv_set_buffer o s u b); try done. by destruct (i_buffer _ _ HI _ _ Hb).
  - apply (attached_same _ _ _ _ s); [done|done| |]; cbn.
    + intros v bv Hv _. rewrite get_set. case_bool_decide; [|by exists bv]. simplify_eq.
      by eexists.
    + intros v b' Hv _. rewrite get_set in Hv. case_bool_decide; [|by exists b']. subst v.
      injection Hv as <-. by exists b.
Qed.

(** Recording one event: the attachment stays, and receives its copies. *)
Lemma attached_record o t l i n s now1 now2 e :
  0 <= maxEvents o -> 0 <= retainCount o -> Inv o s -> attached t l i n s ->
  let s' := record o now1 now2 e s in
  attached t l i n s' /\ exists more, recorded s' = recorded s ++ more /\
    received l s' = received l s ++ concat (map (fun ne => copies t i ne.2) more).
Proof.
  intros Hm H0 HI Ha. cbv zeta. unfold record.
  destruct (turnId e) as [u|] eqn:He.
  2: { split; [done|]. exists []. by rewrite !app_nil_r. }
  pose proof (inv_touch o u s Hm HI) as HI1. pose proof (attached_touch u t l i n s Ha) as Ha1.
  destruct (touch_fields u s) as (Hr1 & Hd1 & _).
  assert (exists b, get_buffer u (buffers (touch u s)) = Some b) as [b Hb].
  { rewrite touch_get. destruct (get_buffer u (buffers s)); [by eauto|].
    rewrite bool_decide_true by done. by eauto. }
  pose proof (received_deliver o t l i n _ u e b HI1 Ha1 Hb He) as Hrec.
  pose proof (inv_deliver o u e _ b Hm HI1 Hb He) as HI2.
  pose proof (attached_deliver o u e t l i n _ b Hb Ha1) as Ha2.
  destruct (deliver_fields o u e _ b Hb) as (Hr2 & _).
  assert (Hgoal : forall s', recorded s' = recorded (deliver o u e (touch u s)) ->
    delivered s' = delivered (deliver o u e (touch u s)) ->
    exists more, recorded s' = recorded s ++ more /\
      received l s' = received l s ++ concat (map (fun ne => copies t i ne.2) more)).
  { intros s' E1 E2. exists [(seq (touch u s), e)]. split; [congruence|].
    unfold received in *. rewrite E2, Hrec, Hd1. cbn. by rewrite app_nil_r. }
  destruct (is_end e); [|split; [done|by apply Hgoal]].
  destruct (attached_finish o now1 now2 u t l i n _ H0 HI2 Ha2) as (Ha3 & E1 & E2).
  split; [done|]. by apply Hgoal.
Qed.

Lemma received_same l s s' : delivered s' = delivered s -> received l s' = received l s.
Proof. unfold received. by intros ->. Qed.

Lemma take_same s : same_observations s (takeChunkInterest s).
Proof. by split. Qed.

(** Detaching another attachment takes another listener away. *)
Lemma attached_unsubscribe t l i n m s :
  attached t l i n s -> m <> n ->
  attached t l i n (unsubscribe m s) /\ recorded (unsubscribe m s) = recorded s /\
  delivered (unsubscribe m s) = delivered s.
Proof.
  intros Ha Hne. unfold unsubscribe. destruct (handles s !! m) as [h|] eqn:Hm; [|done].
  destruct (detached h) eqn:Hd; [done|]. destruct Ha as [(bt & Hbt & Hin) Ho Hh Hn].
  assert (Hl : h_listener h <> l) by (intros E; by apply Hne, (Hh m h)).
  assert (Hrel : forall s0, attached t l i n s0 ->
    attached t l i n (if h_chunks h then releaseChunkInterest s0 else s0) /\
    recorded (if h_chunks h then releaseChunkInterest s0 else s0) = recorded s0 /\
    delivered (if h_chunks h then releaseChunkInterest s0 else s0) = delivered s0).
  { intros s0 [? ? ? ?]. unfold releaseChunkInterest. destruct (h_chunks h); [|done].
    by destruct (chunkInterest s0 =? 0). }
  set (s1 := with_handles (<[m := detach h]> (handles s)) s).
  assert (Ha1 : attached t l i n s1).
  { split; cbn; [by exists bt|done| |by rewrite length_insert].
    intros m' h' Hm' Hl'. destruct (decide (m' = m)) as [->|].
    - rewrite list_lookup_insert_eq in Hm' by (by apply lookup_lt_Some in Hm).
      injection Hm' as <-. by apply (Hh m h).
    - rewrite list_lookup_insert_ne in Hm' by done. by apply (Hh m' h'). }
  cbn [buffers with_handles s1].
  destruct (get_buffer (h_turn h) (buffers s)) as [b|] eqn:Hb.
  2: { destruct (Hrel s1 Ha1) as (? & ? & ?). by split_and!. }
  destruct (serial b =? h_serial h)%nat.
  2: { destruct (Hrel s1 Ha1) as (? & ? & ?). by split_and!. }
  set (s2 := with_buffers _ s1).
  assert (Ha2 : attached t l i n s2).
  { destruct Ha1 as [_ _ Hh1 Hn1]. split; try done; subst s2; cbn.
    - rewrite get_set. case_bool_decide; [|by eauto]. subst t. simplify_eq. eexists.
      split; [done|]. cbn. apply list_elem_of_In, filter_In. split; [by apply list_elem_of_In|].
      cbn. apply negb_true_iff, Nat.eqb_neq. congruence.
    - intros u bu. rewrite get_set. case_bool_decide; [|by apply Ho]. intros [= <-] Hin'. subst u.
      apply (Ho _ b); [done|]. cbn in Hin'. apply list_elem_of_In, in_map_iff in Hin' as (x & <- & Hx).
      apply filter_In in Hx as [Hx _]. apply list_elem_of_In. by apply in_map. }
  destruct (Hrel s2 Ha2) as (? & ? & ?). by split_and!.
Qed.

Lemma attached_op o op t l i n s :
  0 <= maxEvents o -> 0 <= retainCount o -> Inv o s -> attached t l i n s ->
  leaves_alone l n op = true ->
  let s' := apply_op o s op in
  attached t l i n s' /\ exists more, recorded s' = recorded s ++ more /\
    received l s' = received l s ++ concat (map (fun ne => copies t i ne.2) more).
Proof.
  intros Hm H0 HI Ha Hop. cbv zeta.
  assert (Hquiet : forall s', recorded s' = recorded s -> delivered s' = delivered s ->
    exists more, recorded s' = recorded s ++ more /\
      received l s' = received l s ++ concat (map (fun ne => copies t i ne.2) more)).
  { intros s' E1 E2. exists []. rewrite (received_same l s s') by done. by rewrite !app_nil_r. }
  destruct op as [u c|now1 now2 e|u l' c ch|m]; cbn [apply_op].
  - unfold open. destruct (get_buffer u (buffers s)) eqn:Hu; [split; [done|by apply Hquiet]|].
    split; [|apply Hquiet; by destruct c].
    apply (attached_same _ _ _ _ s); [done|by destruct c| |].
    + intros v b Hv _. exists b. split; [|done]. cbn. rewrite get_app.
      destruct c; cbn [takeChunkInterest with_interest buffers]; by rewrite Hv.
    + intros v b' Hv Hl. cbn in Hv. rewrite get_app in Hv.
      replace (buffers (if c then takeChunkInterest s else s)) with (buffers s) in Hv by (by destruct c).
      destruct (get_buffer v (buffers s)) as [b|]; [injection Hv as <-; by exists b|].
      case_bool_decide; [|done]. injection Hv as <-. by apply not_elem_of_nil in Hl.
  - unfold on_bus. destruct (if is_chunk e then _ else _); [by apply attached_record|].
    split; [done|by apply Hquiet].
  - cbn in Hop. apply negb_true_iff, Nat.eqb_neq in Hop. unfold attach.
    destruct (get_buffer u (buffers s)) as [b|] eqn:Hu; [|split; [done|by apply Hquiet]].
    cbn [snd]. split; [|apply Hquiet; by destruct c].
    destruct Ha as [(bt & Hbt & Hin) Ho Hh Hn]. split; cbn [with_handles with_buffers handles buffers];
      replace (buffers (if c then takeChunkInterest s else s)) with (buffers s) by (by destruct c);
      replace (handles (if c then takeChunkInterest s else s)) with (handles s) by (by destruct c).
    + rewrite get_set. case_bool_decide; [|by eauto]. subst u. simplify_eq. eexists.
      split; [done|]. cbn. revert Hin. generalize (listeners bt) as ls.
      induction ls as [|[l0 i0] ls IH]; [by intros ?%not_elem_of_nil|]. cbn.
      destruct (Nat.eqb_spec l0 l') as [->|].
      * intros [[= <- _]|Hin]%elem_of_cons; [done|]. by right.
      * intros [[= -> ->]|Hin]%elem_of_cons; [by left|right; by apply IH].
    + intros v bv. rewrite get_set. case_bool_decide; [|by apply Ho]. intros [= <-]. subst v. cbn.
      rewrite set_listener_keys. case_bool_decide; [by apply Ho|].
      intros [Hl|<-%list_elem_of_singleton]%elem_of_app; [by apply (Ho u b)|done].
    + intros m h Hm' Hl. apply lookup_app_Some in Hm' as [Hm'|[_ Hm']]; [by apply (Hh m h)|].
      destruct (m - length (handles s))%nat; [|done]. injection Hm' as <-. cbn in Hl. by subst l'.
    + rewrite length_app. lia.
  - cbn in Hop. apply negb_true_iff, Nat.eqb_neq in Hop.
    destruct (attached_unsubscribe t l i n m s Ha Hop) as (? & ? & ?). split; [done|].
    by apply Hquiet.
Qed.

Lemma attached_run o ops t l i n : forall s,
  0 <= maxEvents o -> 0 <= retainCount o -> Inv o s -> attached t l i n s ->
  forallb (leaves_alone l n) ops = true ->
  attached t l i n (run o ops s) /\ exists more, recorded (run o ops s) = recorded s ++ more /\
    received l (run o ops s) = received l s ++ concat (map (fun ne => copies t i ne.2) more).
Proof.
  induction ops as [|op ops IH]; intros s Hm H0 HI Ha Hops.
  { split; [done|]. exists []. by rewrite !app_nil_r. }
  cbn in Hops. apply andb_true_iff in Hops as [Hop Hops].
  destruct (attached_op o op t l i n s Hm H0 HI Ha Hop) as (Ha1 & more & E1 & E2).
  destruct (IH (apply_op o s op) Hm H0 (inv_op o op s Hm H0 HI) Ha1 Hops)
    as (Ha2 & more' & E3 & E4).
  split; [done|]. exists (more ++ more'). cbn in *.
  rewrite map_app, concat_app, app_assoc, app_assoc, <- E1, <- E2. by split.
Qed.

Lemma attach_attached o t l c ch s a s1 :
  Inv o s -> (forall h, h ∈ handles s -> h_listener h <> l) ->
  attach t l c ch s = (Some a, s1) ->
  attached t l {| i_chunks := c; i_children := ch |} (length (handles s)) s1 /\
  recorded s1 = recorded s.
Proof.
  intros HI Hnew. unfold attach. destruct (get_buffer t (buffers s)) as [b|] eqn:Hb; [|done].
  intros [= _ <-]. split; [|by destruct c].
  assert (Hno : forall u bu, get_buffer u (buffers s) = Some bu -> l ∉ map fst (listeners bu)).
  { intros u bu Hu Hl. destruct (b_attached _ _ _ _ (i_buffer _ _ HI _ _ Hu) l Hl) as (h & Hh & E).
    by apply (Hnew h). }
  split; cbn [with_handles with_buffers handles buffers];
    replace (buffers (if c then takeChunkInterest s else s)) with (buffers s) by (by destruct c);
    replace (handles (if c then takeChunkInterest s else s)) with (handles s) by (by destruct c).
  - rewrite get_set, bool_decide_true by done. eexists. split; [done|]. cbn.
    generalize (listeners b) as ls. induction ls as [|[l0 i0] ls IH]; cbn; [by left|].
    destruct (Nat.eqb_spec l0 l) as [->|]; [by left|by right].
  - intros u bu. rewrite get_set. case_bool_decide; [done|]. intros Hu Hl.
    by apply (Hno u bu) in Hl.
  - intros m h Hm Hl. apply lookup_app_Some in Hm as [Hm|[Hge Hm]].
    + apply list_elem_of_lookup_2 in Hm. by apply Hnew in Hm.
    + destruct (m - length (handles s))%nat eqn:E; [lia|done].
  - rewrite length_app. cbn. lia.
Qed.

(** The handover is gapless and duplicate-free. Whatever happened before, a new listener
    attaching to a turn is given as replay the last events of the turn since it was opened,
    exactly [dropped] of them missing, at the front; and whatever happens after, as long as
    it is not detached, its turn is never evicted and it receives each event recorded from
    then on that it asked for, once per way the event concerns it, in order. *)
Theorem attach_gapless o pre post t l c ch a s1 :
  0 <= maxEvents o -> 0 <= retainCount o ->
  let s := run o pre (listen new_streams) in
  (forall h, h ∈ handles s -> h_listener h <> l) ->
  attach t l c ch s = (Some a, s1) ->
  forallb (leaves_alone l (length (handles s))) post = true ->
  let s2 := run o post s1 in
  (ch = false ->
     zlen (replay a) <= maxEvents o /\ a_truncated a = (0 <? a_dropped a) /\
     exists b older, get_buffer t (buffers s) = Some b /\ map snd (turn_log t (drop (opened b) (recorded s))) = older ++ replay a /\
       zlen older = a_dropped a) /\
  get_buffer t (buffers s2) <> None /\
  exists more, recorded s2 = recorded s ++ more /\
    received l s2 =
      received l s1 ++
      concat (map (fun ne => copies t {| i_chunks := c; i_children := ch |} ne.2) more).
Proof.
  intros Hm H0 s Hnew Hatt Hpost s2.
  pose proof (inv_run o pre _ Hm H0 (inv_start o)) as HI. fold s in HI.
  destruct (attach_attached o t l c ch s a s1 HI Hnew Hatt) as [Ha Hrec].
  assert (HI1 : Inv o s1).
  { pose proof (inv_attach o t l c ch s HI) as H. by rewrite Hatt in H. }
  destruct (attached_run o post t l _ _ s1 Hm H0 HI1 Ha Hpost) as (Ha2 & more & E1 & E2).
  split; [|split].
  - intros ->. unfold attach in Hatt. destruct (get_buffer t (buffers s)) as [b|] eqn:Hb; [|done].
    injection Hatt as <- _. cbn.
    destruct (i_buffer _ _ HI _ _ Hb) as [(older & _ & Hl & Ho) Ht Hc _ _ _].
    rewrite length_map. split_and!; [done|done|]. exists b, (map snd older).
    split; [done|]. by rewrite Hl, map_app, length_map.
  - destruct Ha2 as [(b & Hb & _) _ _ _]. subst s2. by rewrite Hb.
  - exists more. rewrite <- Hrec. by split.
Qed.

(** ** Concrete runs *)

Definition small : Options := {| maxEvents := 2; retainMs := 1000; retainCount := 1 |}.
Definition turn1 : ustring := js "turn_1".
Definition turn2 : ustring := js "turn_2".
Definition ev (ty : string) (t : ustring) (p : option ustring) (n : Z) : Event :=
  {| type := js ty; turnId := Some t; parentTurnId := p; body := n |}.

(** Three events under a cap of two, and another turn. *)
Definition before_attach : list Op :=
  [Open turn1 true; OnBus 0 0 (ev "turn.start" turn1 None 1);
   OnBus 0 0 (ev "model.chunk" turn1 None 2); OnBus 0 0 (ev "model.chunk" turn1 None 3);
   Open turn2 false; Attach turn2 7 false false].
Definition after_attach : list Op :=
  [OnBus 1 1 (ev "model.chunk" turn1 None 4); OnBus 1 1 (ev "tool.start" turn2 (Some turn1) 5);
   Unsubscribe 0; OnBus 2 3 (ev "turn.end" turn1 None 6); OnBus 9000 9000 (ev "turn.end" turn2 None 7)].

Abbreviation state_before := (run small before_attach (listen new_streams)).
Abbreviation attached_at := (snd (attach turn1 8 true false state_before)).

Lemma granted {A B} (p : option A * B) :
  match fst p with Some _ => true | None => false end = true -> exists a, p = (Some a, snd p).
Proof. destruct p as [[a|] b]; [by exists a|done]. Qed.

Lemma attach_gapless_witness :
  map body (received 8 (run small after_attach attached_at)) = [4; 6] /\
  get_buffer turn1 (buffers (run small after_attach attached_at)) <> None.
Proof.
  split; [by vm_compute|].
  assert (Hat : exists a, attach turn1 8 true false state_before = (Some a, attached_at))
    by (apply granted; by vm_compute).
  destruct Hat as [a E].
  assert (Hnew : forall h, h ∈ handles state_before -> h_listener h <> 8%nat).
  { assert (forallb (fun h => negb (h_listener h =? 8)%nat) (handles state_before) = true) as H
      by (by vm_compute).
    intros h Hh. rewrite forallb_forall in H. apply list_elem_of_In in Hh. apply H in Hh.
    by apply negb_true_iff, Nat.eqb_neq in Hh. }
  assert (Hm : 0 <= maxEvents small) by (by vm_compute).
  assert (H0 : 0 <= retainCount small) by (by vm_compute).
  assert (Hp : forallb (leaves_alone 8 (length (handles state_before))) after_attach = true)
    by (by vm_compute).
  pose proof (attach_gapless small before_attach after_attach turn1 8 true false a attached_at
    Hm H0 Hnew E Hp) as H.
  exact (proj1 (proj2 H)).
Defined.

Lemma chunk_interest_balanced_witness :
  chunkInterest (run small before_attach (listen new_streams)) = 1 /\
  (chunks_subscribed (run small before_attach (listen new_streams)) = true <->
   0 < chunkInterest (run small before_attach (listen new_streams))).
Proof.
  split; [by vm_compute|].
  assert (Hm : 0 <= maxEvents small) by (by vm_compute).
  assert (H0 : 0 <= retainCount small) by (by vm_compute).
  exact (proj2 (chunk_interest_balanced small before_attach Hm H0)).
Defined.

Definition three_ended : TurnStreams :=
  run {| maxEvents := 9; retainMs := 5000; retainCount := 9 |}
    [OnBus 0 0 (ev "turn.end" turn1 None 1); OnBus 4000 0 (ev "turn.end" turn2 None 2);
     OnBus 4500 0 (ev "turn.end" (js "turn_3") None 3)] (listen new_streams).

Lemma evict_policy_witness :
  map fst (buffers (evict small 4900 three_ended)) = [js "turn_3"] /\
  zlen (List.filter evictable (buffers (evict small 4900 three_ended))) <= retainCount small.
Proof.
  split; [by vm_compute|].
  assert (Hn : NoDup (map fst (buffers three_ended))).
  { apply (bool_decide_eq_true_1 (NoDup (map fst (buffers three_ended)))). by vm_compute. }
  assert (H0 : 0 <= retainCount small) by (by vm_compute).
  exact (proj1 (proj2 (proj2 (proj2 (evict_policy small 4900 three_ended Hn H0))))).
Defined.
