(* ===== verification/Regex.v ===== *)
(** * Regular expressions as JavaScript runs them

    The language's backtracking matcher for the constructs the modelled patterns use: sets,
    sequence, ordered alternation, greedy and lazy repetition, [\b], [^] and [$]. [Match] is the
    declarative meaning and the matcher agrees with it. *)
From S2P Require Import Prelude UString.
Local Open Scope Z_scope.

Inductive regex :=
| REps
| RSet (p : Z -> bool)
| RCat (a b : regex)
| RAlt (a b : regex)
| RStar (a : regex)
| RLazy (a : regex)
| RBound
| RStart
| REnd.

Declare Scope regex_scope.
Delimit Scope regex_scope with re.
Bind Scope regex_scope with regex.
Infix "+++" := RCat (at level 60, right associativity) : regex_scope.

(** The word boundary between the character before and what follows. *)
Definition at_boundary (prev : option Z) (s : ustring) : bool :=
  let before := match prev with Some c => is_word c | None => false end in
  let after := match s with c :: _ => is_word c | [] => false end in
  xorb before after.

Definition shorter (s' s : ustring) : bool := (length s' <? length s)%nat.
#[global] Arguments shorter : simpl never.

(** [m r prev s k]: match [r] at [s], then what [k] demands of the rest; the first way in
    backtracking order. An iteration of a repetition that consumes nothing is refused. *)
Fixpoint m {A} (r : regex) (prev : option Z) (s : ustring)
  (k : option Z -> ustring -> option A) {struct r} : option A :=
  match r with
  | REps => k prev s
  | RSet p => match s with c :: s' => if p c then k (Some c) s' else None | [] => None end
  | RCat a b => m a prev s (fun prev' s' => m b prev' s' k)
  | RAlt a b => match m a prev s k with Some x => Some x | None => m b prev s k end
  | RStar a =>
      (fix loop (n : nat) (prev : option Z) (s : ustring) {struct n} : option A :=
         match n with
         | O => k prev s
         | S n' =>
             match m a prev s (fun prev' s' =>
                     if shorter s' s then loop n' prev' s' else None) with
             | Some x => Some x
             | None => k prev s
             end
         end) (length s) prev s
  | RLazy a =>
      (fix loop (n : nat) (prev : option Z) (s : ustring) {struct n} : option A :=
         match k prev s with
         | Some x => Some x
         | None =>
             match n with
             | O => None
             | S n' =>
                 m a prev s (fun prev' s' => if shorter s' s then loop n' prev' s' else None)
             end
         end) (length s) prev s
  | RBound => if at_boundary prev s then k prev s else None
  | RStart => match prev with None => k prev s | Some _ => None end
  | REnd => match s with [] => k prev s | _ => None end
  end.

(** What follows the first match at this position. *)
Definition exec_at (r : regex) (prev : option Z) (s : ustring) : option ustring :=
  m r prev s (fun _ s' => Some s').

Fixpoint test_from (r : regex) (prev : option Z) (s : ustring) : bool :=
  match exec_at r prev s with
  | Some _ => true
  | None => match s with [] => false | c :: s' => test_from r (Some c) s' end
  end.

(** [r.test(s)]. *)
Definition test (r : regex) (s : ustring) : bool := test_from r None s.

(** [s.replace(r, "")] of an expression anchored at the start. *)
Definition strip_prefix (r : regex) (s : ustring) : ustring := default s (exec_at r None s).

(** [s.replace(r, with)] under the [g] flag, for an [r] that never matches nothing. *)
Fixpoint replace_from (fuel : nat) (r : regex) (by_ : ustring) (prev : option Z) (s : ustring)
  : ustring :=
  match fuel, s with
  | O, _ | _, [] => s
  | S fuel', c :: s' =>
      match exec_at r prev s with
      | Some rest => by_ ++ replace_from fuel' r by_ (last (take (length s - length rest) s)) rest
      | None => c :: replace_from fuel' r by_ (Some c) s'
      end
  end.
Definition replace_all (r : regex) (by_ s : ustring) : ustring :=
  replace_from (length s) r by_ None s.

(** ** Building expressions *)

Definition chr (c : Z) : regex := RSet (fun d => d =? c).
(** With the [i] flag. *)
Definition chri (c : Z) : regex := RSet (fun d => lower_char d =? lower_char c).

Definition word_re (f : Z -> regex) (s : ustring) : regex :=
  fold_right (fun c r => RCat (f c) r) REps s.
Definition lit (s : string) : regex := word_re chr (js s).
Definition liti (s : string) : regex := word_re chri (js s).

Definition plus (r : regex) : regex := RCat r (RStar r).
Definition opt (r : regex) : regex := RAlt r REps.
Definition space : regex := RSet is_space.
Definition non_space : regex := RSet (fun c => negb (is_space c)).
Definition word_char : regex := RSet is_word.

Definition line_end (c : Z) : bool :=
  (c =? 10) || (c =? 13) || (c =? 0x2028) || (c =? 0x2029).
(** [.]. *)
Definition any_char : regex := RSet (fun c => negb (line_end c)).

(** ** Meaning *)

Inductive Match : regex -> option Z -> ustring -> option Z -> ustring -> Prop :=
| MEps p s : Match REps p s p s
| MSet f p c s : f c = true -> Match (RSet f) p (c :: s) (Some c) s
| MCat a b p s p1 s1 p2 s2 :
    Match a p s p1 s1 -> Match b p1 s1 p2 s2 -> Match (RCat a b) p s p2 s2
| MAltL a b p s p1 s1 : Match a p s p1 s1 -> Match (RAlt a b) p s p1 s1
| MAltR a b p s p1 s1 : Match b p s p1 s1 -> Match (RAlt a b) p s p1 s1
| MStarNil a p s : Match (RStar a) p s p s
| MStarCons a p s p1 s1 p2 s2 :
    Match a p s p1 s1 -> (length s1 < length s)%nat -> Match (RStar a) p1 s1 p2 s2 ->
    Match (RStar a) p s p2 s2
| MLazyNil a p s : Match (RLazy a) p s p s
| MLazyCons a p s p1 s1 p2 s2 :
    Match a p s p1 s1 -> (length s1 < length s)%nat -> Match (RLazy a) p1 s1 p2 s2 ->
    Match (RLazy a) p s p2 s2
| MBound p s : at_boundary p s = true -> Match RBound p s p s
| MStart s : Match RStart None s None s
| MEnd p : Match REnd p [] p [].

Lemma m_sound {A} r : forall p s (k : option Z -> ustring -> option A) x,
  m r p s k = Some x -> exists p' s', Match r p s p' s' /\ k p' s' = Some x.
Proof.
  induction r as [|f|a IHa b IHb|a IHa b IHb|a IHa|a IHa| | |]; intros p s k x H; cbn in H.
  - exists p, s. split; [constructor|done].
  - destruct s as [|c s]; [done|]. destruct (f c) eqn:E; [|done].
    exists (Some c), s. split; [by constructor|done].
  - apply IHa in H as (p1 & s1 & H1 & H). apply IHb in H as (p2 & s2 & H2 & H).
    exists p2, s2. split; [by econstructor|done].
  - destruct (m a p s k) eqn:E.
    + injection H as ->. apply IHa in E as (p1 & s1 & H1 & H). exists p1, s1.
      split; [by apply MAltL|done].
    + apply IHb in H as (p1 & s1 & H1 & H). exists p1, s1. split; [by apply MAltR|done].
  - revert H. generalize (length s) at 1. intros n. revert p s.
    induction n as [|n IH]; intros p s H.
    + exists p, s. split; [constructor|done].
    + match type of H with match ?t with _ => _ end = _ => destruct t eqn:E end.
      * injection H as ->. apply IHa in E as (p1 & s1 & H1 & H).
        destruct (shorter s1 s) eqn:El; [|done]. apply Nat.ltb_lt in El.
        apply IH in H as (p2 & s2 & H2 & H). exists p2, s2. split; [by econstructor|done].
      * exists p, s. split; [constructor|done].
  - revert H. generalize (length s) at 1. intros n. revert p s.
    induction n as [|n IH]; intros p s H; destruct (k p s) eqn:Ek; try done;
      try (exists p, s; split; [apply MLazyNil|congruence]).
    apply IHa in H as (p1 & s1 & H1 & H).
    destruct (shorter s1 s) eqn:El; [|done]. apply Nat.ltb_lt in El.
    apply IH in H as (p2 & s2 & H2 & H). exists p2, s2. split; [by econstructor|done].
  - destruct (at_boundary p s) eqn:E; [|done]. exists p, s. split; [by constructor|done].
  - destruct p; [done|]. exists None, s. split; [constructor|done].
  - destruct s; [|done]. exists p, []. split; [constructor|done].
Qed.

Lemma Match_shorter r p s p' s' : Match r p s p' s' -> (length s' <= length s)%nat.
Proof. induction 1; cbn in *; lia. Qed.

(** The repetition loop, given completeness for its body. *)
Lemma star_complete {A} a (k : option Z -> ustring -> option A) p' s' :
  (forall p s p1 s1, Match a p s p1 s1 ->
     forall k' : option Z -> ustring -> option A, k' p1 s1 <> None -> m a p s k' <> None) ->
  k p' s' <> None ->
  forall p s, Match (RStar a) p s p' s' -> m (RStar a) p s k <> None.
Proof.
  intros Ha Hk p s. cbn. assert (Hn : (length s <= length s)%nat) by lia. revert Hn.
  generalize (length s) at 2 3. intros n. revert p s.
  induction n as [|n IH]; intros p s Hn Hm; inversion Hm; subst; try done; try lia.
  - match goal with |- match ?t with _ => _ end <> _ => by destruct t end.
  - match goal with |- match ?t with _ => _ end <> _ => destruct t eqn:E end; [done|].
    exfalso. revert E. eapply Ha; [done|]. cbn.
    match goal with |- (if shorter ?s1 _ then _ else _) <> _ => assert (shorter s1 s = true) as -> end.
    { by apply Nat.ltb_lt. }
    apply IH; [lia|done].
Qed.

Lemma lazy_complete {A} a (k : option Z -> ustring -> option A) p' s' :
  (forall p s p1 s1, Match a p s p1 s1 ->
     forall k' : option Z -> ustring -> option A, k' p1 s1 <> None -> m a p s k' <> None) ->
  k p' s' <> None ->
  forall p s, Match (RLazy a) p s p' s' -> m (RLazy a) p s k <> None.
Proof.
  intros Ha Hk p s. cbn. assert (Hn : (length s <= length s)%nat) by lia. revert Hn.
  generalize (length s) at 2 3. intros n. revert p s.
  induction n as [|n IH]; intros p s Hn Hm; inversion Hm; subst; cbn;
    (match goal with |- (match ?x with _ => _ end) <> _ => destruct x eqn:Ek end);
    try done; try lia.
  eapply Ha; [done|]. cbn.
  match goal with |- (if shorter ?s1 _ then _ else _) <> _ => assert (shorter s1 s = true) as -> end.
  { by apply Nat.ltb_lt. }
  apply IH; [lia|done].
Qed.

Lemma m_complete {A} r : forall p s p' s', Match r p s p' s' ->
  forall k : option Z -> ustring -> option A, k p' s' <> None -> m r p s k <> None.
Proof.
  induction r as [|f|a IHa b IHb|a IHa b IHb|a IHa|a IHa| | |];
    intros p s p' s' Hm k Hk; inversion Hm; subst; try (by eapply lazy_complete); cbn; try done.
  - match goal with H : f _ = true |- _ => by rewrite H end.
  - eapply IHa; [done|]. cbn. by eapply IHb.
  - destruct (m a p s k) eqn:E; [done|]. exfalso. revert E. by eapply IHa.
  - destruct (m a p s k) eqn:E; [done|]. by eapply IHb.
  - generalize (length s'). intros [|n]; [done|].
    match goal with |- match ?t with _ => _ end <> _ => by destruct t end.
  - by eapply star_complete.
  - match goal with H : at_boundary _ _ = true |- _ => by rewrite H end.
Qed.

Lemma exec_at_match r p s :
  (exists s', exec_at r p s = Some s') <-> exists p' s', Match r p s p' s'.
Proof.
  unfold exec_at. split.
  - intros (s' & H). apply m_sound in H as (p1 & s1 & H & _). by eauto.
  - intros (p' & s' & H). destruct (m r p s (fun _ s' => Some s')) eqn:E; [by eauto|].
    by apply (m_complete r _ _ _ _ H (fun _ s' => Some s')) in E.
Qed.

(** An expression that begins with [^] is only tried at the start. *)
Lemma test_anchored r s :
  test (RCat RStart r) s = true <-> exists p' s', Match r None s p' s'.
Proof.
  assert (Hlate : forall c s, test_from (RCat RStart r) (Some c) s = false).
  { intros c s0. revert c. induction s0 as [|d s0 IH]; intros c; cbn; [done|apply IH]. }
  assert (Hm : (exists p' s', Match (RCat RStart r) None s p' s') <->
               exists p' s', Match r None s p' s').
  { split; intros (p & s' & H).
    - inversion H; subst.
      match goal with H' : Match RStart _ _ _ _ |- _ => inversion H'; subst end. by eauto.
    - exists p, s'. econstructor; [constructor|done]. }
  rewrite <- Hm, <- exec_at_match. unfold test.
  destruct s as [|c s]; cbn [test_from]; destruct (exec_at _ _ _) eqn:E.
  - split; [by eauto|done].
  - split; [done|]. by intros [? ?].
  - split; [by eauto|done].
  - rewrite Hlate. split; [done|]. by intros [? ?].
Qed.

(** Repetition of a one-character set. *)
Lemma star_set f p s p' s' :
  Match (RStar (RSet f)) p s p' s' -> exists w, s = w ++ s' /\ forallb f w = true.
Proof.
  remember (RStar (RSet f)) as r eqn:Hr. induction 1; try done.
  - by exists [].
  - injection Hr as ->. inversion H; subst. destruct (IHMatch2 eq_refl) as (w & -> & Hw).
    exists (c :: w). split; [done|]. cbn.
    match goal with H' : f _ = true |- _ => by rewrite H' end.
Qed.

Lemma star_set_intro f w : forall p s,
  forallb f w = true -> exists p', Match (RStar (RSet f)) p (w ++ s) p' s.
Proof.
  induction w as [|c w IH]; intros p s Hw; cbn in *.
  - exists p. constructor.
  - apply andb_true_iff in Hw as [Hc Hw]. destruct (IH (Some c) s Hw) as (p' & H). exists p'.
    econstructor; [by constructor|cbn; lia|done].
Qed.

Lemma Match_suffix r p s p' s' : Match r p s p' s' -> exists w, s = w ++ s'.
Proof.
  induction 1; try (by exists []); try done.
  - by exists [c].
  - destruct IHMatch1 as [w ->], IHMatch2 as [w' ->]. exists (w ++ w'). by rewrite app_assoc.
  - destruct IHMatch1 as [w ->], IHMatch2 as [w' ->]. exists (w ++ w'). by rewrite app_assoc.
  - destruct IHMatch1 as [w ->], IHMatch2 as [w' ->]. exists (w ++ w'). by rewrite app_assoc.
Qed.

Lemma strip_prefix_suffix r s : exists w, s = w ++ strip_prefix r s.
Proof.
  unfold strip_prefix, exec_at. destruct (m r None s _) as [s'|] eqn:E; [|by exists []].
  apply m_sound in E as (p' & s1 & H & [= <-]). cbn. by apply Match_suffix in H.
Qed.

(** ** Literal words and replacement *)

(** A case-insensitive word at the front: a boolean form of [exec_at]. *)
Lemma m_word {A} w : forall p s (k : option Z -> ustring -> option A) x,
  m (word_re chri w) p s k = Some x ->
  exists m0 p' s', s = m0 ++ s' /\ lower m0 = lower w /\ k p' s' = Some x.
Proof.
  induction w as [|c w IH]; intros p s k x H; cbn in H.
  - by exists [], p, s.
  - destruct s as [|d s]; [done|]. destruct (Z.eqb_spec (lower_char d) (lower_char c)) as [E|]; [|done].
    apply IH in H as (m0 & p' & s' & -> & Hm & Hk). exists (d :: m0), p', s'.
    split_and!; [done|by cbn; f_equal|done].
Qed.

Lemma exec_word w p s s' :
  exec_at (word_re chri w) p s = Some s' <-> exists m0, s = m0 ++ s' /\ lower m0 = lower w.
Proof.
  unfold exec_at. split.
  - intros H. apply m_word in H as (m0 & p' & s1 & -> & Hm & [= ->]). by exists m0.
  - intros (m0 & -> & Hm). revert p m0 Hm. induction w as [|c w IH]; intros p m0 Hm.
    + by destruct m0.
    + destruct m0 as [|d m0]; [done|]. cbn in Hm. injection Hm as Hd Hm. cbn.
      rewrite Hd, Z.eqb_refl. by apply IH.
Qed.

(** Replacing adds no characters but those of the replacement. *)
Lemma replace_from_forall (P : Z -> Prop) r by_ n : forall p s,
  Forall P by_ -> Forall P s -> Forall P (replace_from n r by_ p s).
Proof.
  induction n as [|n IH]; intros p s Hb Hs; [done|]. destruct s as [|c s]; [done|]. cbn.
  destruct (exec_at r p (c :: s)) as [rest|] eqn:E.
  - apply Forall_app. split; [done|]. apply IH; [done|].
    apply m_sound in E as (p' & s' & Hm & [= <-]). apply Match_suffix in Hm as [w Hw].
    rewrite Hw in Hs. by apply Forall_app in Hs as [_ ?].
  - apply Forall_cons in Hs as [? ?]. constructor; [done|]. by apply IH.
Qed.

(** Replacing a one-character set. *)
Lemma replace_set f by_ n : forall p s, (length s <= n)%nat ->
  replace_from n (RSet f) by_ p s = concat (map (fun c => if f c then by_ else [c]) s).
Proof.
  induction n as [|n IH]; intros p s Hn; destruct s as [|c s]; cbn in *; try done; [lia|].
  unfold exec_at. cbn. destruct (f c); rewrite IH by lia; done.
Qed.

Lemma replace_set_gone f by_ s :
  Forall (fun c => f c = false) by_ ->
  Forall (fun c => f c = false) (replace_all (RSet f) by_ s).
Proof.
  intros Hb. unfold replace_all. rewrite replace_set by lia. apply Forall_concat, Forall_map.
  induction s as [|c s IH]; constructor; [|done]. cbn. destruct (f c) eqn:E; [done|].
  by constructor.
Qed.

Lemma replace_all_forall (P : Z -> Prop) r by_ s :
  Forall P by_ -> Forall P s -> Forall P (replace_all r by_ s).
Proof. apply replace_from_forall. Qed.
