(* ===== verification/Policy.v ===== *)
(** * The tool policy: [tools/policy.ts]

    Rules, their patterns, the hardline floor, the decision and its composition with the
    trust gate. The English of a reason is not kept: [Reason] says which sentence it is. *)
From S2P Require Import Prelude UString Regex.
Local Open Scope Z_scope.
Local Open Scope regex_scope.

Inductive PolicyMode := ModeAsk | ModeAllow | ModeDeny.
Inductive PolicyEffect := Allow | Ask | Deny.
Inductive NoApprover := NoApproverDeny | NoApproverAllow.
(** [tools/trust.ts]. *)
Inductive OnMutate := Refuse | Confirm | MutateAllow.

#[export] Instance PolicyEffect_eq_dec : EqDecision PolicyEffect.
Proof. solve_decision. Defined.
#[export] Instance OnMutate_eq_dec : EqDecision OnMutate.
Proof. solve_decision. Defined.

Record PolicyConfig := {
  mode : PolicyMode; allow : list ustring; deny : list ustring; onNoApprover : NoApprover }.

Definition DEFAULT_POLICY : PolicyConfig :=
  {| mode := ModeAllow; allow := []; deny := []; onNoApprover := NoApproverDeny |}.

Record PolicyQuery := { q_slug : ustring; q_match : option ustring }.

Inductive Reason :=
| HardlineFloor (what : ustring)
| TooLong (length : Z)
| DeniedByRule
| AllowedByRule
| NoRule (m : PolicyMode)
| NobodyToAsk (because : Reason)
| UntrustedConfirm
| UntrustedBlocked (o : OnMutate).

Record PolicyDecision := {
  effect : PolicyEffect; reason : Reason; rule : option ustring; gated : bool }.

Record Rule := { source : ustring; slug : ustring; pattern : option ustring }.

#[export] Instance Rule_eq_dec : EqDecision Rule.
Proof. solve_decision. Defined.

(** ** The hardline floor *)

(** Any number of flags, each followed by space. *)
Definition flags : regex :=
  RStar (chr 45 +++ plus (RAlt word_char (chr 45)) +++ plus space).

(** [rm], flags, and a flag holding [a] and later [b]; case insensitive. *)
Definition rm_flags (a b : regex) : regex :=
  RBound +++ liti "rm" +++ plus space +++ flags +++ chr 45 +++ RStar word_char +++ a +++
  RStar word_char +++ b.

Definition forced_delete : regex :=
  RAlt (rm_flags (chri 114) (chri 102)) (rm_flags (chri 102) (chri 114)).

Definition fork_bomb : regex :=
  chr 58 +++ RStar space +++ chr 40 +++ RStar space +++ chr 41 +++ RStar space +++ chr 123 +++
  RStar space +++ chr 58 +++ RStar space +++ chr 124 +++ RStar space +++ chr 58 +++
  RStar space +++ chr 38 +++ RStar space +++ chr 125 +++ RStar space +++ chr 59 +++
  RStar space +++ chr 58.

Definition HARDLINE : list (regex * ustring) :=
  [(forced_delete, js "a recursive forced delete");
   (liti "--no-preserve-root", js "a delete that disables the root guard");
   (fork_bomb, js "a fork bomb");
   (RBound +++ liti "mkfs" +++ opt (chr 46 +++ plus word_char) +++ RBound,
    js "a filesystem format");
   (RBound +++ liti "dd" +++ RBound +++ RStar (RSet (fun c => negb (c =? 10))) +++ RBound +++
      liti "of=/dev/",
    js "a raw write to a block device")].

Definition HARDLINE_TARGET : regex :=
  space +++
  RAlt (lit "/") (RAlt (lit "~") (RAlt (lit "$HOME") (RAlt (lit "/*") (lit "~/*")))) +++
  RStar space +++ REnd.

Fixpoint hardline_from (entries : list (regex * ustring)) (command : ustring) : option ustring :=
  match entries with
  | [] => None
  | (re, what) :: rest =>
      if negb (test re command) then hardline_from rest command
      else if includes (js "recursive") what && negb (test HARDLINE_TARGET command)
      then hardline_from rest command
      else Some what
  end.

Definition hardlineFailure (command : ustring) : option ustring :=
  hardline_from HARDLINE command.

(** ** Parsing rules *)

Fixpoint span (f : Z -> bool) (s : ustring) : ustring * ustring :=
  match s with
  | c :: s' => if f c then let '(w, r) := span f s' in (c :: w, r) else ([], s)
  | [] => ([], [])
  end.

Definition is_ident_start (c : Z) : bool := is_alpha c || (c =? 95).

(** [RULE.exec] on trimmed text: the name, and what stands in the parentheses. *)
Definition match_rule (trimmed : ustring) : option (ustring * option ustring) :=
  match trimmed with
  | c :: rest =>
      if is_ident_start c then
        let '(w, tail) := span (fun d => is_word d || (d =? 45)) rest in
        match tail with
        | [] => Some (c :: w, None)
        | o :: inner =>
            match rev inner with
            | l :: middle =>
                if (o =? 40) && (l =? 41) && forallb (fun d => negb (line_end d)) middle
                then Some (c :: w, Some (rev middle)) else None
            | [] => None
            end
        end
      else None
  | [] => None
  end.

Definition CONTENT_FIELDS : list ustring :=
  [js "command"; js "path"; js "file_path"; js "url"; js "content"].

(** The identifier before a colon that opens the pattern. *)
Definition leading_field (pat : ustring) : option ustring :=
  match pat with
  | c :: rest =>
      if is_ident_start c then
        let '(w, tail) := span is_word rest in
        match trim_start tail with
        | d :: _ => if d =? 58 then Some (c :: w) else None
        | [] => None
        end
      else None
  | [] => None
  end.

Inductive Why := NotOfForm | ContentField (field : ustring).

Definition parseRule (src : ustring) : result Why Rule :=
  let trimmed := trim src in
  match match_rule trimmed with
  | None => Err NotOfForm
  | Some (name, None) => Ok {| source := trimmed; slug := name; pattern := None |}
  | Some (name, Some pat) =>
      match leading_field pat with
      | Some field =>
          if bool_decide (field ∈ CONTENT_FIELDS) then Err (ContentField field)
          else Ok {| source := trimmed; slug := name; pattern := Some (trim pat) |}
      | None => Ok {| source := trimmed; slug := name; pattern := Some (trim pat) |}
      end
  end.

Record ParsedPolicy := {
  p_deny : list Rule; p_ask : list Rule; p_allow : list Rule; rejected : list (ustring * Why) }.

Definition kept (sources : list ustring) : list Rule :=
  omap (fun s => match parseRule s with Ok r => Some r | Err _ => None end) sources.
Definition refused (sources : list ustring) : list (ustring * Why) :=
  omap (fun s => match parseRule s with Ok _ => None | Err w => Some (s, w) end) sources.

Definition parsePolicy (config : PolicyConfig) : ParsedPolicy :=
  {| p_deny := kept (deny config); p_ask := []; p_allow := kept (allow config);
     rejected := refused (deny config) ++ refused (allow config) |}.

(** ** Patterns *)

(** One character of the pattern at a time, with what the escaping and the [*] rewriting
    leave of it: [*] is any run; a backslash before [*] keeps its own escape and takes the
    dot of [.*], so the two are a run of dots. *)
Fixpoint pattern_body (p : ustring) : regex :=
  match p with
  | [] => REps
  | c :: rest =>
      if c =? 42 then RStar any_char +++ pattern_body rest
      else match rest with
           | d :: rest' =>
               if (c =? 92) && (d =? 42) then RStar (chr 46) +++ pattern_body rest'
               else chri c +++ pattern_body rest
           | [] => chri c +++ REps
           end
  end.

(** A trailing [:*] reads as [ *]. *)
Definition trailing_form (p : ustring) : ustring :=
  if ends_with (js ":*") p then slice p 0 (-2) ++ js " *" else p.

(** A final [ .*] of the source text becomes optional. *)
Definition patternToRegex (p : ustring) : regex :=
  let t := trailing_form p in
  RStart +++
  (if ends_with (js " *") t
   then pattern_body (slice t 0 (-2)) +++ opt (chr 32 +++ RStar any_char)
   else pattern_body t) +++
  REnd.

(** ** Fragments *)

(** [timeout N], [time], [nice], [stdbuf], [command] or [builtin], and space. *)
Definition WRAPPERS : regex :=
  RStart +++
  RAlt (liti "timeout" +++ plus space +++ plus non_space)
  (RAlt (liti "time")
  (RAlt (liti "nice" +++ opt (plus space +++ liti "-n" +++ plus space +++ plus non_space))
  (RAlt (liti "stdbuf" +++ RStar (plus space +++ chr 45 +++ plus non_space))
  (RAlt (liti "command") (liti "builtin"))))) +++
  plus space.

Fixpoint strip_loop (i : nat) (current : ustring) : ustring :=
  match i with
  | O => current
  | S i' =>
      if test WRAPPERS current then strip_loop i' (trim (strip_prefix WRAPPERS current))
      else current
  end.

Definition stripWrappers (command : ustring) : ustring := strip_loop 4 (trim command).

Definition MAX_MATCHABLE : Z := 10000.

Definition separator (c : Z) : bool := (c =? 59) || (c =? 124) || (c =? 38) || (c =? 10).

(** [split(/&&|\|\||;|\||&|\n/)]. *)
Fixpoint split_commands (s : ustring) : list ustring :=
  match s with
  | [] => [[]]
  | c :: rest =>
      if separator c then
        match rest with
        | d :: rest' =>
            if ((c =? 38) || (c =? 124)) && (d =? c) then [] :: split_commands rest'
            else [] :: split_commands rest
        | [] => [[]; []]
        end
      else match split_commands rest with
           | w :: ws => (c :: w) :: ws
           | [] => [[c]]
           end
  end.

Definition subcommands (command : ustring) : list ustring :=
  List.filter (fun part => negb (bool_decide (part = []))) (map stripWrappers (split_commands command)).

Definition same_slug (a b : ustring) : bool := bool_decide (lower a = lower b).

Definition matches (r : Rule) (query : PolicyQuery) (fragment : option ustring) : bool :=
  if negb (same_slug (slug r) (q_slug query)) then false
  else match pattern r, fragment with
       | None, _ => true
       | Some _, None => false
       | Some p, Some f => test (patternToRegex p) f
       end.

Definition covers (r : Rule) (query : PolicyQuery) (fragments : list ustring) : bool :=
  match pattern r, fragments with
  | None, _ => same_slug (slug r) (q_slug query)
  | Some _, [] => matches r query (q_match query)
  | Some _, _ => forallb (fun f => matches r query (Some f)) fragments
  end.

Definition touches (r : Rule) (query : PolicyQuery) (fragments : list ustring) : bool :=
  match pattern r, fragments with
  | None, _ => same_slug (slug r) (q_slug query)
  | Some _, [] => matches r query (q_match query)
  | Some _, _ => existsb (fun f => matches r query (Some f)) fragments
  end.

(** ** The decision *)

Definition fragments_of (query : PolicyQuery) : list ustring :=
  match q_match query with None => [] | Some command => subcommands command end.

Definition decision (e : PolicyEffect) (w : Reason) (r : option ustring) : PolicyDecision :=
  {| effect := e; reason := w; rule := r; gated := false |}.

(** The rules, then the mode. *)
Definition decide_rules (config : PolicyConfig) (query : PolicyQuery) : PolicyDecision :=
  let parsed := parsePolicy config in
  let fragments := fragments_of query in
  match List.find (fun r => touches r query fragments) (p_deny parsed) with
  | Some r => decision Deny DeniedByRule (Some (source r))
  | None =>
      match List.find (fun r => covers r query fragments) (p_allow parsed) with
      | Some r => decision Allow AllowedByRule (Some (source r))
      | None =>
          decision
            match mode config with ModeAllow => Allow | ModeDeny => Deny | ModeAsk => Ask end
            (NoRule (mode config)) None
      end
  end.

Definition decidePolicy (config : PolicyConfig) (query : PolicyQuery) : PolicyDecision :=
  match q_match query with
  | None => decide_rules config query
  | Some command =>
      match hardlineFailure command with
      | Some what => decision Deny (HardlineFloor what) None
      | None =>
          if MAX_MATCHABLE <? zlen command then decision Ask (TooLong (zlen command)) None
          else decide_rules config query
      end
  end.

Definition resolveWithoutApprover (d : PolicyDecision) (config : PolicyConfig)
  : PolicyDecision :=
  match effect d with
  | Ask =>
      {| effect := match onNoApprover config with
                   | NoApproverAllow => Allow | NoApproverDeny => Deny end;
         reason := NobodyToAsk (reason d); rule := rule d; gated := gated d |}
  | _ => d
  end.

Record AuthorizeInput := {
  policy : PolicyConfig; query : PolicyQuery; mutating : bool; tainted : bool;
  onMutate : OnMutate; approver : bool }.

Definition authorize (i : AuthorizeInput) : PolicyDecision :=
  let d := decidePolicy (policy i) (query i) in
  if bool_decide (effect d = Deny) then d
  else
    let needsAuthorization :=
      tainted i && mutating i && negb (bool_decide (onMutate i = MutateAllow)) in
    if needsAuthorization && match rule d with None => true | Some _ => false end then
      if bool_decide (onMutate i = Confirm) && approver i
      then decision Ask UntrustedConfirm None
      else {| effect := Deny; reason := UntrustedBlocked (onMutate i); rule := None;
              gated := true |}
    else if bool_decide (effect d = Ask) && negb (approver i)
    then resolveWithoutApprover d (policy i)
    else d.

(** ** Tools allowed once per turn *)

Record Tool := { t_slug : ustring; t_mutating : bool; t_untrusted : bool }.

Definition onceOnlyTools (tools : list Tool) (config : PolicyConfig) (o : OnMutate)
  : list ustring :=
  match o with
  | MutateAllow => []
  | _ =>
      let named := map (fun r => lower (slug r)) (p_allow (parsePolicy config)) in
      map t_slug (List.filter (fun t =>
        t_mutating t && t_untrusted t && negb (bool_decide (lower (t_slug t) ∈ named))) tools)
  end.

(** ** What a pattern means *)

(** [*] is any run within a line; any other character is itself, in either case. *)
Inductive Means : ustring -> ustring -> Prop :=
| means_nil : Means [] []
| means_run w p s :
    forallb (fun c => negb (line_end c)) w = true -> Means p s -> Means (42 :: p) (w ++ s)
| means_char c d p s :
    c <> 42 -> lower_char d = lower_char c -> Means p s -> Means (c :: p) (d :: s).

(** No star is escaped. *)
Fixpoint plain (p : ustring) : bool :=
  match p with
  | c :: rest => negb ((c =? 92) && match rest with d :: _ => d =? 42 | [] => false end) && plain rest
  | [] => true
  end.

Lemma pattern_body_cons c p :
  plain (c :: p) = true ->
  pattern_body (c :: p) =
  (if c =? 42 then RStar any_char else chri c) +++ pattern_body p.
Proof.
  intros Hp. cbn in *. destruct (c =? 42); [done|]. destruct p as [|d p]; [done|].
  destruct ((c =? 92) && (d =? 42)); [done|]. done.
Qed.

Lemma pattern_body_match p : plain p = true -> forall prev s rest,
  (exists p', Match (pattern_body p) prev s p' rest) <->
  exists w, s = w ++ rest /\ Means p w.
Proof.
  induction p as [|c p IH]; intros Hp prev s rest.
  { cbn. split.
    - intros (p' & H). inversion H; subst. exists []. split; [done|constructor].
    - intros (w & -> & H). inversion H; subst. exists prev. constructor. }
  rewrite pattern_body_cons by done.
  assert (Hp' : plain p = true) by (cbn in Hp; by apply andb_true_iff in Hp as [_ ?]).
  specialize (IH Hp'). split.
  - intros (p' & H). inversion H; subst. destruct (c =? 42) eqn:E.
    + apply Z.eqb_eq in E as ->.
      match goal with H1 : Match (RStar _) _ _ _ _ |- _ =>
        apply star_set in H1 as (w & -> & Hw) end.
      match goal with H2 : Match (pattern_body p) ?q ?t _ _ |- _ =>
        destruct (proj1 (IH q t rest) (ex_intro _ _ H2)) as (w' & -> & Hw') end.
      exists (w ++ w'). split; [by rewrite app_assoc|by constructor].
    + apply Z.eqb_neq in E.
      match goal with H1 : Match (chri c) _ _ _ _ |- _ => inversion H1; subst end.
      match goal with H2 : Match (pattern_body p) ?q ?t _ _ |- _ =>
        destruct (proj1 (IH q t rest) (ex_intro _ _ H2)) as (w' & -> & Hw') end.
      match goal with H3 : (_ =? _) = true |- _ => apply Z.eqb_eq in H3 end.
      eexists (_ :: w'). split; [done|]. by constructor.
  - intros (w & -> & H). inversion H as [|v q t Hv Ht|d e q t Hne He Ht]; subst.
    + destruct (star_set_intro (fun c => negb (line_end c)) v prev (t ++ rest) Hv) as (p1 & Hm).
      destruct (proj2 (IH p1 (t ++ rest) rest)) as (p2 & Hm2); [by exists t|].
      exists p2. cbn. rewrite <- app_assoc. by econstructor.
    + destruct (proj2 (IH (Some e) (t ++ rest) rest)) as (p2 & Hm2); [by exists t|].
      exists p2. rewrite (proj2 (Z.eqb_neq c 42)) by done. econstructor; [|done].
      constructor. by apply Z.eqb_eq.
Qed.

Lemma Means_app p q s :
  Means (p ++ q) s <-> exists w v, s = w ++ v /\ Means p w /\ Means q v.
Proof.
  revert s. induction p as [|c p IH]; intros s; cbn.
  { split.
    - intros H. exists [], s. split_and!; [done|constructor|done].
    - intros (w & v & -> & H & Hv). by inversion H. }
  split.
  - intros H. inversion H as [|r q' t Hr Ht|d e q' t Hne He Ht]; subst;
      apply IH in Ht as (w & v & -> & Hw & Hv).
    + exists (r ++ w), v. split_and!; [by rewrite app_assoc|by constructor|done].
    + exists (e :: w), v. split_and!; [done|by constructor|done].
  - intros (w & v & -> & H & Hv). inversion H as [|r q' t Hr Ht|d e q' t Hne He Ht]; subst.
    + rewrite <- app_assoc. constructor; [done|]. apply IH. by exists t, v.
    + cbn. constructor; [done|done|]. apply IH. by exists t, v.
Qed.

Lemma plain_app p q : plain (p ++ q) = true -> plain p = true.
Proof.
  induction p as [|c p IH]; [done|]. cbn. rewrite !andb_true_iff. intros [H1 H2].
  split; [|by apply IH]. destruct p; [by rewrite andb_false_r|done].
Qed.

(** The optional tail: nothing, or a space and a run. *)
Lemma tail_match prev s p' s' :
  Match (opt (chr 32 +++ RStar any_char)) prev s p' s' ->
  s = s' \/ exists w, s = 32 :: w ++ s' /\ forallb (fun c => negb (line_end c)) w = true.
Proof.
  intros H. inversion H; subst.
  - match goal with H1 : Match (RCat _ _) _ _ _ _ |- _ => inversion H1; subst end.
    match goal with H1 : Match (chr 32) _ _ _ _ |- _ => inversion H1; subst end.
    match goal with H1 : Match (RStar _) _ _ _ _ |- _ => apply star_set in H1 as (w & -> & Hw) end.
    match goal with H1 : (_ =? _) = true |- _ => apply Z.eqb_eq in H1 as -> end.
    right. by exists w.
  - left. match goal with H1 : Match REps _ _ _ _ |- _ => by inversion H1 end.
Qed.

Lemma tail_intro prev w :
  forallb (fun c => negb (line_end c)) w = true ->
  exists p', Match (opt (chr 32 +++ RStar any_char)) prev (32 :: w) p' [].
Proof.
  intros Hw. destruct (star_set_intro (fun c => negb (line_end c)) w (Some 32) [] Hw) as (p' & H).
  rewrite app_nil_r in H. exists p'. apply MAltL. econstructor; [by constructor|done].
Qed.

Lemma body_end t s :
  plain t = true ->
  (exists p' s', Match (pattern_body t +++ REnd) None s p' s') <-> Means t s.
Proof.
  intros Hp. split.
  - intros (p' & s' & H). inversion H; subst.
    match goal with H1 : Match REnd _ _ _ _ |- _ => inversion H1; subst end.
    match goal with H1 : Match (pattern_body t) _ _ _ _ |- _ =>
      destruct (proj1 (pattern_body_match t Hp None s []) (ex_intro _ _ H1)) as (w & -> & Hw) end.
    by rewrite app_nil_r.
  - intros H. destruct (proj2 (pattern_body_match t Hp None s [])) as (p' & Hm).
    { exists s. by rewrite app_nil_r. }
    exists p', []. econstructor; [done|constructor].
Qed.

Lemma Means_space_star s :
  Means (js " *") s <-> exists w, s = 32 :: w /\ forallb (fun c => negb (line_end c)) w = true.
Proof.
  change (js " *") with [32; 42]. split.
  - intros H. inversion H as [|r q t Hr Ht|d e q t Hne He Ht]; subst.
    inversion Ht as [|r q t' Hr Ht'|]; subst; [|done]. inversion Ht'; subst.
    rewrite app_nil_r. exists r. split; [|done]. f_equal.
    change (lower_char 32) with 32 in He. unfold lower_char in He.
    destruct (has_lower e) eqn:El; [|done].
    assert (e = 0) as -> by lia. done.
  - intros (w & -> & Hw). apply means_char; [done|done|]. rewrite <- (app_nil_r w).
    apply means_run; [done|constructor].
Qed.

(** A rule's pattern without an escaped star means what the documentation says, in
    either case: [*] stands for any run of characters within a line, every other character
    for itself, and a pattern ending in space-star (or colon-star) also matches the bare
    command without the space. *)
Theorem patternToRegex_means p s :
  let t := trailing_form p in
  plain t = true ->
  test (patternToRegex p) s = true <->
  Means t s \/ exists base, t = base ++ js " *" /\ Means base s.
Proof.
  intros t Hp. unfold patternToRegex. fold t. rewrite test_anchored.
  destruct (ends_with (js " *") t) eqn:E.
  2: { rewrite body_end by done. split; [by left|]. intros [H|(base & Ht & _)]; [done|].
       assert (ends_with (js " *") t = true) by (apply ends_with_spec; by exists base). congruence. }
  apply ends_with_spec in E as [base Hb]. rewrite Hb.
  change (-2) with (- zlen (js " *")). rewrite slice_drop_end by done.
  assert (Hpb : plain base = true) by (rewrite Hb in Hp; by apply plain_app in Hp).
  transitivity (Means (base ++ js " *") s \/ Means base s).
  2: { split; (intros [H|H]; [by left|right]); [by exists base|].
       destruct H as (base' & Hbase & H). apply app_inv_tail in Hbase. by subst. }
  split.
  - intros (p' & s' & H). inversion H; subst.
    match goal with H1 : Match REnd _ _ _ _ |- _ => inversion H1; subst end.
    match goal with H1 : Match (RCat (pattern_body base) _) _ _ _ _ |- _ => inversion H1; subst end.
    match goal with H1 : Match (pattern_body base) _ _ _ ?r |- _ =>
      destruct (proj1 (pattern_body_match base Hpb None s r) (ex_intro _ _ H1)) as (w & -> & Hw) end.
    match goal with H1 : Match (opt _) _ _ _ _ |- _ =>
      apply tail_match in H1 as [->|(v & -> & Hv)] end.
    + right. by rewrite app_nil_r.
    + left. apply Means_app. exists w, (32 :: v ++ []). split_and!; [done|done|].
      apply Means_space_star. exists v. by rewrite app_nil_r.
  - intros [H|H].
    + apply Means_app in H as (w & v & -> & Hw & Hv). apply Means_space_star in Hv as (u & -> & Hu).
      destruct (proj2 (pattern_body_match base Hpb None (w ++ 32 :: u) (32 :: u))) as (p1 & H1).
      { by exists w. }
      destruct (tail_intro p1 u Hu) as (p2 & H2). exists p2, [].
      econstructor; [|constructor]. by econstructor.
    + destruct (proj2 (pattern_body_match base Hpb None s [])) as (p1 & H1).
      { exists s. by rewrite app_nil_r. }
      exists p1, []. econstructor; [|constructor]. econstructor; [done|].
      apply MAltR. constructor.
Qed.

(** ** Fragments carry no separator *)

Definition unseparated (s : ustring) : bool := forallb (fun c => negb (separator c)) s.

Lemma unseparated_app a b : unseparated (a ++ b) = unseparated a && unseparated b.
Proof. apply forallb_app. Qed.

Lemma unseparated_trim s : unseparated s = true -> unseparated (trim s) = true.
Proof.
  intros Hs. unfold trim. destruct (trim_start_spec s) as (w & E & _).
  destruct (trim_end_spec (trim_start s)) as (v & E' & _).
  rewrite E, E', !unseparated_app in Hs. by bool_to_prop.
Qed.

Lemma unseparated_strip n : forall s, unseparated s = true -> unseparated (strip_loop n s) = true.
Proof.
  induction n as [|n IH]; intros s Hs; cbn [strip_loop]; [done|].
  destruct (test WRAPPERS s); [|done]. apply IH, unseparated_trim.
  destruct (strip_prefix_suffix WRAPPERS s) as [w E]. rewrite E, unseparated_app in Hs.
  by bool_to_prop.
Qed.

Lemma split_commands_cons c d rest :
  split_commands (c :: d :: rest) =
  if separator c then
    if ((c =? 38) || (c =? 124)) && (d =? c) then [] :: split_commands rest
    else [] :: split_commands (d :: rest)
  else match split_commands (d :: rest) with
       | w :: ws => (c :: w) :: ws
       | [] => [[c]]
       end.
Proof. done. Qed.

Lemma split_commands_unseparated s :
  split_commands s <> [] /\ forallb unseparated (split_commands s) = true.
Proof.
  induction s as [s IH] using (induction_ltof1 _ (@length Z)). unfold ltof in IH.
  destruct s as [|c [|d rest]]; [done| |].
  - cbn. destruct (separator c) eqn:E; [done|]. cbn. by rewrite E.
  - rewrite split_commands_cons. destruct (IH (d :: rest)) as [Hne H]; [cbn; lia|]. destruct (separator c) eqn:E.
    + destruct (_ && _); [|by split]. split; [done|]. apply IH. cbn. lia.
    + destruct (split_commands (d :: rest)) as [|w ws]; [done|]. split; [done|].
      cbn in *. by rewrite E.
Qed.

Lemma subcommands_unseparated command f :
  f ∈ subcommands command -> unseparated f = true /\ f <> [].
Proof.
  intros Hf. apply list_elem_of_In, filter_In in Hf as [Hf Hne]. bool_to_prop. split; [|done].
  apply in_map_iff in Hf as (part & <- & Hp).
  destruct (split_commands_unseparated command) as [_ H]. rewrite forallb_forall in H.
  by apply unseparated_strip, unseparated_trim, H.
Qed.

(** ** The decision *)

Definition too_long (q : PolicyQuery) : bool :=
  match q_match q with Some command => MAX_MATCHABLE <? zlen command | None => false end.
Definition floored (q : PolicyQuery) : bool :=
  match q_match q with
  | Some command => match hardlineFailure command with Some _ => true | None => false end
  | None => false
  end.

Lemma decidePolicy_floor config q :
  floored q = true -> effect (decidePolicy config q) = Deny.
Proof.
  unfold floored, decidePolicy. destruct (q_match q) as [c|]; [|done].
  by destruct (hardlineFailure c).
Qed.

Lemma decidePolicy_rules config q :
  floored q = false -> too_long q = false -> decidePolicy config q = decide_rules config q.
Proof.
  unfold floored, too_long, decidePolicy. destruct (q_match q) as [c|]; [|done].
  destruct (hardlineFailure c); [done|]. by intros _ ->.
Qed.

(** A decision names a rule only when that rule made it. *)
Lemma decidePolicy_rule config q src :
  rule (decidePolicy config q) = Some src -> effect (decidePolicy config q) = Allow ->
  floored q = false /\ too_long q = false /\
  (forall r, r ∈ kept (deny config) -> touches r q (fragments_of q) = false) /\
  exists r, r ∈ kept (allow config) /\ source r = src /\ covers r q (fragments_of q) = true.
Proof.
  intros Hr He. destruct (floored q) eqn:Ef; [by rewrite decidePolicy_floor in He|].
  destruct (too_long q) eqn:Et.
  { exfalso. revert Hr Et Ef. unfold decidePolicy, too_long, floored.
    destruct (q_match q) as [c|]; [|done]. destruct (hardlineFailure c); [done|].
    intros Hr Et. by rewrite Et in Hr. }
  rewrite decidePolicy_rules in Hr, He by done. unfold decide_rules in *. cbn in *.
  destruct (List.find (fun r => touches r q _) _) as [d|] eqn:Ed; [done|].
  destruct (List.find (fun r => covers r q _) _) as [a|] eqn:Ea; [|done].
  injection Hr as <-. apply find_some in Ea as [Hin Hc]. apply list_elem_of_In in Hin.
  split_and!; [done|done| |by exists a].
  intros r Hrin. apply list_elem_of_In in Hrin. by apply (find_none _ _ Ed).
Qed.

Lemma decidePolicy_deny_rule config q r :
  r ∈ kept (deny config) -> touches r q (fragments_of q) = true -> too_long q = false ->
  effect (decidePolicy config q) = Deny.
Proof.
  intros Hin Ht Hl. destruct (floored q) eqn:Ef; [by apply decidePolicy_floor|].
  rewrite decidePolicy_rules by done. unfold decide_rules. cbn.
  destruct (List.find (fun r => touches r q _) _) as [d|] eqn:Ed; [done|].
  apply list_elem_of_In in Hin. by rewrite (find_none _ _ Ed _ Hin) in Ht.
Qed.

(** Through the gate, [Allow] comes from a rule and [Ask] from [confirm]. *)
Lemma gate_decides i :
  tainted i = true -> mutating i = true -> onMutate i <> MutateAllow ->
  (effect (authorize i) = Allow ->
     exists src, rule (decidePolicy (policy i) (query i)) = Some src /\
                 effect (decidePolicy (policy i) (query i)) = Allow) /\
  (effect (authorize i) = Ask -> onMutate i = Confirm /\ approver i = true).
Proof.
  intros Ht Hm Ho. unfold authorize. rewrite Ht, Hm, (bool_decide_false (onMutate i = _)) by done.
  cbn [andb negb]. case_bool_decide as Hd; [by rewrite Hd|].
  destruct (rule (decidePolicy (policy i) (query i))) as [src|] eqn:Er.
  2: { case_bool_decide as Hc; [|done]. destruct (approver i); cbn; [|done]. done. }
  assert (Ha : effect (decidePolicy (policy i) (query i)) = Allow).
  { destruct (floored (query i)) eqn:Ef; [by rewrite decidePolicy_floor in Hd|].
    revert Er Hd. unfold decidePolicy, floored in *. destruct (q_match (query i)) as [c|].
    - destruct (hardlineFailure c); [done|]. destruct (MAX_MATCHABLE <? _); [done|].
      unfold decide_rules. by repeat case_match.
    - unfold decide_rules. by repeat case_match. }
  rewrite Ha. rewrite (bool_decide_false (Allow = Ask)) by done. cbn [andb].
  rewrite Ha. split; [|done]. intros _. by exists src.
Qed.

(** C4. The write gate. Unless the manifest set [onMutate] to [allow], which switches the gate off,
    a mutating call of a turn that read untrusted content is allowed only by an allow rule for its
    tool, one without a pattern or one whose pattern matches every subcommand of the command, none of
    which hides a further one; and then no deny rule touches any part of it and the floor is clear.
    It is asked about only under [confirm] with a person there. No mode of the policy lets it
    through. *)
Theorem authorize_write_gate i :
  tainted i = true -> mutating i = true -> onMutate i <> MutateAllow ->
  (effect (authorize i) = Allow ->
     floored (query i) = false /\
     (forall r, r ∈ kept (deny (policy i)) -> touches r (query i) (fragments_of (query i)) = false) /\
     exists r, r ∈ kept (allow (policy i)) /\ same_slug (slug r) (q_slug (query i)) = true /\
       (pattern r = None \/
        forall f, f ∈ fragments_of (query i) ->
          unseparated f = true /\ matches r (query i) (Some f) = true)) /\
  (effect (authorize i) = Ask -> onMutate i = Confirm /\ approver i = true).
Proof.
  intros Ht Hm Ho. destruct (gate_decides i Ht Hm Ho) as [Hallow Hask]. split; [|done].
  intros He. destruct (Hallow He) as (src & Er & Ha).
  destruct (decidePolicy_rule _ _ _ Er Ha) as (Hf & _ & Hdeny & r & Hin & _ & Hcov).
  split_and!; [done|done|]. exists r. split; [done|].
  unfold covers in Hcov. destruct (pattern r) as [p|] eqn:Ep; [|by split; [|left]].
  destruct (fragments_of (query i)) as [|f fs] eqn:Efr.
  - split; [|right; by intros f ?%not_elem_of_nil]. unfold matches in Hcov.
    by destruct (same_slug _ _).
  - split.
    + cbn in Hcov. apply andb_true_iff in Hcov as [Hc _]. unfold matches in Hc.
      by destruct (same_slug _ _).
    + right. intros g Hg. split.
      * unfold fragments_of in Efr. destruct (q_match (query i)) as [c|]; [|done].
        rewrite <- Efr in Hg. by apply subcommands_unseparated in Hg as [? _].
      * rewrite forallb_forall in Hcov. by apply Hcov, list_elem_of_In.
Qed.

(** What always refuses, whatever the mode, the allow rules, the trust settings and the
    approver: the hardline floor, and a deny rule touching any subcommand of a call short
    enough to analyse. And with nobody to ask, nothing is left asking. *)
Theorem authorize_refusals i :
  (floored (query i) = true -> effect (authorize i) = Deny) /\
  (forall r, r ∈ kept (deny (policy i)) -> too_long (query i) = false ->
     touches r (query i) (fragments_of (query i)) = true -> effect (authorize i) = Deny) /\
  (approver i = false -> effect (authorize i) <> Ask).
Proof.
  assert (Hdeny : effect (decidePolicy (policy i) (query i)) = Deny ->
                  effect (authorize i) = Deny).
  { intros E. unfold authorize. by rewrite bool_decide_true. }
  split_and!.
  - intros Hf. by apply Hdeny, decidePolicy_floor.
  - intros r Hin Hl Ht. apply Hdeny. by apply (decidePolicy_deny_rule _ _ r).
  - intros Ha. unfold authorize. rewrite Ha, andb_false_r. case_bool_decide as Hd; [by rewrite Hd|].
    destruct (_ && match rule _ with None => true | Some _ => false end); [done|].
    cbn [negb]. rewrite andb_true_r. case_bool_decide as He; [|done].
    unfold resolveWithoutApprover. rewrite He. cbn. by destruct (onNoApprover (policy i)).
Qed.

(** A tool the load report lists as allowed once per turn really is: after its own first
    call taints the turn, no later call to it is allowed outright, whatever the arguments. *)
Theorem onceOnlyTools_sound tools i :
  mutating i = true -> tainted i = true ->
  q_slug (query i) ∈ onceOnlyTools tools (policy i) (onMutate i) ->
  effect (authorize i) <> Allow.
Proof.
  intros Hm Ht Hin He. unfold onceOnlyTools in Hin.
  assert (Ho : onMutate i <> MutateAllow).
  { intros E. rewrite E in Hin. by apply not_elem_of_nil in Hin. }
  destruct (gate_decides i Ht Hm Ho) as [Hallow _]. destruct (Hallow He) as (src & Er & Ha).
  destruct (decidePolicy_rule _ _ _ Er Ha) as (_ & _ & _ & r & Hr & _ & Hcov).
  assert (Hslug : same_slug (slug r) (q_slug (query i)) = true).
  { unfold covers, matches in Hcov. destruct (pattern r) as [p|] eqn:Ep; [|done].
    destruct (fragments_of (query i)); [by destruct (same_slug _ _)|].
    cbn in Hcov. by destruct (same_slug _ _). }
  assert (Hin' : q_slug (query i) ∈ map t_slug (List.filter (fun t => t_mutating t && t_untrusted t &&
    negb (bool_decide (lower (t_slug t) ∈ map (fun r => lower (slug r)) (kept (allow (policy i))))))
    tools)) by (by destruct (onMutate i)).
  apply list_elem_of_In, in_map_iff in Hin' as (t & Et & Hf). apply filter_In in Hf as [_ Hf].
  bool_to_prop. match goal with H : lower _ ∉ _ |- _ => apply H end.
  apply list_elem_of_In, in_map_iff. exists r. rewrite Et.
  unfold same_slug in Hslug. apply bool_decide_eq_true in Hslug. split; [done|].
  by apply list_elem_of_In.
Qed.

(** ** Concrete configurations *)

Definition shell (command : string) : PolicyQuery :=
  {| q_slug := js "exec"; q_match := Some (js command) |}.
Definition git_only : PolicyConfig :=
  {| mode := ModeAllow; allow := [js "exec(git *)"; js "exec(ls)"]; deny := [js "exec(* push *)"];
     onNoApprover := NoApproverDeny |}.
Definition tainted_call (q : PolicyQuery) : AuthorizeInput :=
  {| policy := git_only; query := q; mutating := true; tainted := true; onMutate := Refuse;
     approver := false |}.

Lemma authorize_write_gate_witness :
  effect (authorize (tainted_call (shell "time git status && git log"))) = Allow /\
  exists r, r ∈ kept (allow git_only) /\ same_slug (slug r) (js "exec") = true.
Proof.
  split; [by vm_compute|].
  pose proof (authorize_write_gate (tainted_call (shell "time git status && git log"))) as H.
  destruct H as [H _]; [done|done|done|].
  destruct (H ltac:(by vm_compute)) as (_ & _ & r & Hr & Hs & _). by exists r.
Defined.

Lemma patternToRegex_means_witness :
  test (patternToRegex (js "git:*")) (js "git log -1") = true /\
  (Means (js "git *") (js "git log -1") \/
   exists base, js "git *" = base ++ js " *" /\ Means base (js "git log -1")).
Proof.
  split; [by vm_compute|]. change (js "git *") with (trailing_form (js "git:*")).
  apply (patternToRegex_means (js "git:*") (js "git log -1")); by vm_compute.
Defined.

Definition read_then_write : AuthorizeInput :=
  {| policy := DEFAULT_POLICY; query := shell "ls"; mutating := true; tainted := true;
     onMutate := Confirm; approver := true |}.

Lemma onceOnlyTools_sound_witness :
  onceOnlyTools [{| t_slug := js "exec"; t_mutating := true; t_untrusted := true |}]
    DEFAULT_POLICY Confirm = [js "exec"] /\
  effect (authorize read_then_write) <> Allow.
Proof.
  split; [by vm_compute|].
  apply (onceOnlyTools_sound [{| t_slug := js "exec"; t_mutating := true; t_untrusted := true |}]
    read_then_write); [done|done|].
  assert (E : onceOnlyTools [{| t_slug := js "exec"; t_mutating := true; t_untrusted := true |}]
    (policy read_then_write) (onMutate read_then_write) = [js "exec"]) by (by vm_compute).
  rewrite E. by left.
Defined.

(** *** Where the floor and a deny rule do not hold

    The comments say the floor holds whatever else is misconfigured, and that compound
    commands are matched per subcommand. [HARDLINE_TARGET] is tried on the whole command. *)
Theorem floor_misses_compound :
  hardlineFailure (js "rm -rf /") = Some (js "a recursive forced delete") /\
  subcommands (js "rm -rf / && true") = [js "rm -rf /"; js "true"] /\
  effect (decidePolicy DEFAULT_POLICY (shell "rm -rf / && true")) = Allow.
Proof. by vm_compute. Qed.

(** Separate flags are not recognised either. *)
Theorem floor_misses_split_flags :
  effect (decidePolicy DEFAULT_POLICY (shell "rm -r -f /")) = Allow.
Proof. by vm_compute. Qed.

(** A command over the analysable length is asked about even where a bare deny rule names
    the tool; with nobody there and [onNoApprover: allow] it runs. *)
Theorem long_command_skips_deny :
  let config := {| mode := ModeDeny; allow := []; deny := [js "exec"];
                   onNoApprover := NoApproverAllow |} in
  let long := {| q_slug := js "exec"; q_match := Some (repeat 97 10001) |} in
  effect (decidePolicy config long) = Ask /\
  effect (authorize {| policy := config; query := long; mutating := true; tainted := false;
                       onMutate := Refuse; approver := false |}) = Allow.
Proof. by vm_compute. Qed.

(** An escaped star is a run of dots, not a run of anything and not a star. *)
Theorem escaped_star_is_dots :
  test (patternToRegex (js "a\*")) (js "a...") = true /\
  test (patternToRegex (js "a\*")) (js "abc") = false /\
  test (patternToRegex (js "a\*")) (js "a*") = false.
Proof. by vm_compute. Qed.
