(* ===== verification/Json.v ===== *)
(** * JSON values and [JSON.stringify]

    The language's own serialisation of what the modelled code serialises: a value without
    [undefined], written with no spaces. A number carries what [String] writes of it. *)
From S2P Require Import Prelude UString.
Local Open Scope Z_scope.

#[warnings="-register-all"]
Inductive json :=
| JNull
| JBool (b : bool)
| JNum (text : ustring)
| JStr (s : ustring)
| JArr (l : list json)
| JObj (l : list (ustring * json)).

(** A lowercase hexadecimal digit. *)
Definition hex_lower (n : Z) : Z := if n <? 10 then 48 + n else 87 + n.

(** The four hexadecimal digits of a code unit, escaped. *)
Definition escape_unit (c : Z) : ustring :=
  [92; 117; hex_lower (c / 4096); hex_lower (c / 256 mod 16); hex_lower (c / 16 mod 16);
   hex_lower (c mod 16)].

Definition is_lead (c : Z) : bool := (0xd800 <=? c) && (c <=? 0xdbff).
Definition is_trail (c : Z) : bool := (0xdc00 <=? c) && (c <=? 0xdfff).

(** One code unit of a string that is not part of a surrogate pair. *)
Definition quote_unit (c : Z) : ustring :=
  if c =? 8 then [92; 98] else if c =? 9 then [92; 116] else if c =? 10 then [92; 110]
  else if c =? 12 then [92; 102] else if c =? 13 then [92; 114]
  else if c =? 34 then [92; 34] else if c =? 92 then [92; 92]
  else if (c <? 32) || is_lead c || is_trail c then escape_unit c
  else [c].

Fixpoint quote_units (s : ustring) : ustring :=
  match s with
  | [] => []
  | c :: rest =>
      match rest with
      | d :: rest' =>
          if is_lead c && is_trail d then c :: d :: quote_units rest'
          else quote_unit c ++ quote_units rest
      | [] => quote_unit c
      end
  end.

Definition json_string (s : ustring) : ustring := 34 :: quote_units s ++ [34].

(** [NaN] and the infinities are written [null]. *)
Definition finite_text (w : ustring) : bool :=
  match w with
  | [] => false
  | c :: rest => is_digit c || ((c =? 45) && match rest with d :: _ => is_digit d | [] => false end)
  end.

Fixpoint stringify (v : json) : ustring :=
  match v with
  | JNull => js "null"
  | JBool true => js "true"
  | JBool false => js "false"
  | JNum w => if finite_text w then w else js "null"
  | JStr s => json_string s
  | JArr l => 91 :: join [44] (map stringify l) ++ [93]
  | JObj l => 123 :: join [44] (map (fun kv => json_string kv.1 ++ 58 :: stringify kv.2) l) ++ [125]
  end.

Example stringify_sample :
  stringify (JArr [JStr [97; 34; 10; 0xd83d; 0xde00; 0xd800]; JObj [(js "k", JBool true)]]) =
  js "[" ++ [34; 97; 92; 34; 92; 110; 0xd83d; 0xde00] ++ js "\ud800" ++ [34] ++ js ",{" ++
  [34; 107; 34] ++ js ":true}]".
Proof. by vm_compute. Qed.
