(* ===== verification/Number.v ===== *)
(** * Numbers as JavaScript has them

    [Number] of a decimal literal and [String] of the result: a literal's exact value, the
    double nearest to it (ties to even), and the shortest decimal that reads back as that double,
    written the way the language writes it. A double is its sign, an integer below 2^53 and a
    power of two. *)
From S2P Require Import Prelude UString.
Local Open Scope Z_scope.

(** ** Literals *)

(** The leading run of digits, and what follows it. *)
Fixpoint span_digits (s : ustring) : ustring * ustring :=
  match s with
  | c :: rest => if is_digit c then let '(d, r) := span_digits rest in (c :: d, r) else ([], s)
  | [] => ([], [])
  end.

(** An unsigned literal: digits before the point, digits after it, and a power of ten. *)
Record Literal := { whole : ustring; fraction : ustring; exponent : Z }.

Definition mantissa (l : Literal) : Z := digits_value (whole l ++ fraction l).
Definition scale (l : Literal) : Z := exponent l - zlen (fraction l).

(** ** Doubles *)

Inductive Double := Finite (neg : bool) (m e : Z) | Infinite (neg : bool).

(** [a / b] to the nearest integer, ties to even; [b] is positive. *)
Definition div_even (a b : Z) : Z :=
  let q := a / b in
  let r := a mod b in
  if 2 * r <? b then q
  else if b <? 2 * r then q + 1
  else if Z.even q then q else q + 1.

(** The exact value [a / b] as a double: the exponent leaves 53 bits, or is the least one. *)
Definition round_ratio (neg : bool) (a b : Z) : Double :=
  if a =? 0 then Finite neg 0 0
  else
    let guess := Z.log2 a - Z.log2 b in
    let top := if (if 0 <=? guess then b * 2 ^ guess <=? a else b <=? a * 2 ^ (- guess))
               then guess else guess - 1 in
    let e := Z.max (top - 52) (-1074) in
    let m := if 0 <=? e then div_even a (b * 2 ^ e) else div_even (a * 2 ^ (- e)) b in
    if 1024 <=? e + Z.log2 m then Infinite neg else Finite neg m e.

(** [m * 10 ^ e10]. Beyond these exponents every literal is infinite or zero. *)
Definition double_of (neg : bool) (m e10 : Z) : Double :=
  if m =? 0 then Finite neg 0 0
  else
    let size := Z.log2 m in
    if 400 <? e10 then Infinite neg
    else if e10 <? - size - 400 then Finite neg 0 0
    else if 0 <=? e10 then round_ratio neg (m * 10 ^ e10) 1
    else round_ratio neg m (10 ^ (- e10)).

Definition read_literal (neg : bool) (l : Literal) : Double :=
  double_of neg (mantissa l) (scale l).

(** ** Writing a double *)

(** Its exact value, as a ratio. *)
Definition ratio_of (m e : Z) : Z * Z := if 0 <=? e then (m * 2 ^ e, 1) else (m, 2 ^ (- e)).

(** The [point] with [10 ^ (point - 1) <= a / b < 10 ^ point], searched from an estimate. *)
Fixpoint decimal_point (fuel : nat) (a b point : Z) : Z :=
  match fuel with
  | O => point
  | S fuel' =>
      let low := if 1 <=? point then b * 10 ^ (point - 1) <=? a else b <=? a * 10 ^ (1 - point) in
      if low then
        let high := if 0 <=? point then a <? b * 10 ^ point else a * 10 ^ (- point) <? b in
        if high then point else decimal_point fuel' a b (point + 1)
      else decimal_point fuel' a b (point - 1)
  end.

Definition same_double (m e : Z) (d : Double) : bool :=
  match d with
  | Finite _ m' e' => let '(a, b) := ratio_of m e in let '(a', b') := ratio_of m' e' in a * b' =? a' * b
  | Infinite _ => false
  end.

(** [k] digits [n] with [n * 10 ^ (point - k)] reading as the double: the nearer of the two next
    to it, when both do. *)
Definition candidate (m e point k : Z) : option Z :=
  let '(a, b) := ratio_of m e in
  let s := point - k in
  let '(x, y) := if 0 <=? s then (a, b * 10 ^ s) else (a * 10 ^ (- s), b) in
  let down := x / y in
  let up := down + 1 in
  let fits n := same_double m e (double_of false n s) in
  match fits down, fits up with
  | true, true => Some (div_even x y)
  | true, false => Some down
  | false, true => Some up
  | false, false => None
  end.

(** The digits, how many, and where their point falls: [10 ^ k] is one digit further left. *)
Fixpoint shortest (fuel : nat) (m e point k : Z) : Z * Z * Z :=
  match fuel with
  | O => (m, k, point)
  | S fuel' =>
      match candidate m e point k with
      | Some n => if n =? 10 ^ k then (1, 1, point + 1) else (n, k, point)
      | None => shortest fuel' m e point (k + 1)
      end
  end.

Definition zeros (n : Z) : ustring := repeat 48 (Z.to_nat n).

(** [k] digits [n] and where their point falls, written. *)
Definition write_digits (n k point : Z) : ustring :=
  let d := decimal n in
  if (k <=? point) && (point <=? 21) then d ++ zeros (point - k)
  else if (0 <? point) && (point <=? 21) then
    take (Z.to_nat point) d ++ 46 :: drop (Z.to_nat point) d
  else if (-6 <? point) && (point <=? 0) then 48 :: 46 :: zeros (- point) ++ d
  else
    let x := point - 1 in
    let tail := 101 :: (if x <? 0 then 45 else 43) :: decimal (Z.abs x) in
    match d with
    | c :: [] => c :: tail
    | c :: rest => c :: 46 :: rest ++ tail
    | [] => tail
    end.

Definition number_text (d : Double) : ustring :=
  match d with
  | Infinite neg => (if neg then [45] else []) ++ js "Infinity"
  | Finite neg m e =>
      if m =? 0 then [48]
      else
        let '(a, b) := ratio_of m e in
        let point := decimal_point 40 a b ((Z.log2 a - Z.log2 b) * 30103 / 100000 + 1) in
        let '(n, k, p) := shortest 18 m e point 1 in
        (if neg then [45] else []) ++ write_digits n k p
  end.

(** ** A literal's text, rewritten *)

Definition literal_text (neg : bool) (l : Literal) : ustring := number_text (read_literal neg l).

Definition lit (w f : string) (x : Z) : Literal := {| whole := js w; fraction := js f; exponent := x |}.

Example literal_texts :
  map (literal_text false)
    [lit "0" "1" 0; lit "1" "0" 0; lit "100" "" 0; lit "1" "" 21; lit "123456789012345678901" "" 0;
     lit "0" "000001" 0; lit "1" "5" (-7); lit "5" "" (-324); lit "1" "7976931348623157" 308;
     lit "1" "" 309; lit "2" "" (-324); lit "9007199254740993" "" 0; lit "0" "30000000000000004" 0;
     lit "4" "35" 0; lit "5" "684341886080802" (-14)] =
  map js ["0.1"; "1"; "100"; "1e+21"; "123456789012345680000"; "0.000001"; "1.5e-7"; "5e-324";
     "1.7976931348623157e+308"; "Infinity"; "0"; "9007199254740992"; "0.30000000000000004"; "4.35";
     "5.684341886080802e-14"]%string.
Proof. by vm_compute. Qed.

(** [Number.isInteger] of a double. *)
Definition is_integral (d : Double) : bool :=
  match d with
  | Finite _ m e => (0 <=? e) || (m mod 2 ^ (- e) =? 0)
  | Infinite _ => false
  end.
