(* ===== verification/Rounding.v ===== *)
(** * Arithmetic on doubles

    A finite double is a rational, and each operation of the language is the exact one rounded to
    the nearest double, ties to even ([fl]). Nothing that is rounded here comes near the largest
    double, so there is no infinity. *)
From Stdlib Require Import QArith Qpower Qround Qabs Lqa.
From S2P Require Import Prelude Number.
Local Open Scope Q_scope.

(** The power of two a magnitude lies at or above. *)
Definition binade (x : Q) : Z :=
  let guess := (Z.log2 (Qnum x) - Z.log2 (Zpos (Qden x)))%Z in
  if Qle_bool (2 ^ guess) x then guess else (guess - 1)%Z.

(** 53 bits are kept, fewer below the least normal double. *)
Definition last_place (x : Q) : Z := Z.max (binade (Qabs x) - 52) (-1074).

(** To the nearest integer, ties to even. *)
Definition round_even (x : Q) : Z := div_even (Qnum x) (Zpos (Qden x)).

Definition fl (x : Q) : Q :=
  let e := last_place x in inject_Z (round_even (x / 2 ^ e)) * 2 ^ e.

(** ** To an integer *)

Lemma div_even_near a b : (0 < b)%Z -> (- b <= 2 * (div_even a b * b - a) <= b)%Z.
Proof.
  intros Hb. unfold div_even. pose proof (Z.div_mod a b ltac:(lia)).
  pose proof (Z.mod_pos_bound a b Hb).
  destruct (Z.ltb_spec (2 * (a mod b)) b); [nia|].
  destruct (Z.ltb_spec b (2 * (a mod b))); [nia|]. destruct (Z.even _); nia.
Qed.

Lemma div_even_tie a b :
  (0 < b)%Z -> (Z.abs (2 * (div_even a b * b - a)) = b)%Z -> Z.even (div_even a b) = true.
Proof.
  intros Hb. unfold div_even. pose proof (Z.div_mod a b ltac:(lia)).
  pose proof (Z.mod_pos_bound a b Hb).
  destruct (Z.ltb_spec (2 * (a mod b)) b); [intros ?; exfalso; nia|].
  destruct (Z.ltb_spec b (2 * (a mod b))); [intros ?; exfalso; nia|].
  destruct (Z.even (a / b)) eqn:E; [done|]. intros _.
  by rewrite Z.add_1_r, Z.even_succ, <- Z.negb_even, E.
Qed.

Lemma round_even_near x : Qabs (inject_Z (round_even x) - x) <= 1 # 2.
Proof.
  destruct x as [a b]. pose proof (div_even_near a (Zpos b) eq_refl) as [H1 H2].
  unfold round_even. cbn [Qnum Qden] in *. apply Qabs_Qle_condition.
  unfold Qle, Qminus, Qplus, Qopp, inject_Z. cbn [Qnum Qden]. split; lia.
Qed.

Lemma round_even_tie x :
  Qabs (inject_Z (round_even x) - x) == 1 # 2 -> Z.even (round_even x) = true.
Proof.
  destruct x as [a b]. intros H. apply (div_even_tie a (Zpos b) eq_refl).
  unfold round_even in H. cbn [Qnum Qden] in H.
  unfold Qabs, Qminus, Qplus, Qopp, Qeq, inject_Z in H. cbn [Qnum Qden] in H. lia.
Qed.

Lemma round_even_mono x y : x <= y -> (round_even x <= round_even y)%Z.
Proof.
  intros Hxy. destruct (Z.le_gt_cases (round_even x) (round_even y)) as [|Hgt]; [done|exfalso].
  pose proof (proj1 (Qabs_Qle_condition _ _) (round_even_near x)) as [Hx1 Hx2].
  pose proof (proj1 (Qabs_Qle_condition _ _) (round_even_near y)) as [Hy1 Hy2].
  pose proof (round_even_tie x) as Tx. pose proof (round_even_tie y) as Ty.
  set (p := round_even x) in *. set (q := round_even y) in *.
  assert (p = q + 1)%Z as Hp.
  { assert (inject_Z p <= inject_Z (q + 1)) as H by (rewrite inject_Z_plus; change (inject_Z 1) with 1; lra).
    rewrite <- Zle_Qle in H. lia. }
  assert (inject_Z p == inject_Z q + 1) as HpQ by (by rewrite Hp, inject_Z_plus).
  assert (inject_Z p - x == 1 # 2) as Ex by lra. assert (inject_Z q - y == - (1 # 2)) as Ey by lra.
  assert (Z.even p = true) as Ep by (apply Tx; by rewrite Ex).
  assert (Z.even q = true) as Eq by (apply Ty; by rewrite Ey).
  rewrite Hp, Z.add_1_r, Z.even_succ, <- Z.negb_even, Eq in Ep. done.
Qed.

Lemma round_even_Z n x : x == inject_Z n -> round_even x = n.
Proof.
  intros Hx. pose proof (proj1 (Qabs_Qle_condition _ _) (round_even_near x)) as [H1 H2].
  set (p := round_even x) in *.
  assert (inject_Z p <= inject_Z n + (1 # 2)) as A by lra.
  assert (inject_Z n <= inject_Z p + (1 # 2)) as B by lra.
  unfold Qle, Qplus, inject_Z in A, B. cbn [Qnum Qden] in A, B. lia.
Qed.

#[export] Instance fl_arg_round : Proper (Qeq ==> eq) round_even.
Proof. intros x y H. apply Z.le_antisymm; apply round_even_mono; lra. Qed.

(** ** Powers of two *)

Lemma pow2_pos k : 0 < 2 ^ k.
Proof. by apply Qpower_0_lt. Qed.

Lemma pow2_add a b : 2 ^ (a + b) == 2 ^ a * 2 ^ b.
Proof. by apply Qpower_plus. Qed.

Lemma pow2_le a b : (a <= b)%Z -> 2 ^ a <= 2 ^ b.
Proof. intros H. by apply Qpower_le_compat_l. Qed.

Lemma pow2_lt_inv a b : 2 ^ a < 2 ^ b -> (a < b)%Z.
Proof. intros H. by apply (Qpower_lt_compat_l_inv 2). Qed.

Lemma pow2_Z k : (0 <= k)%Z -> inject_Z (2 ^ k) == 2 ^ k.
Proof. intros H. by rewrite Zpower_Qpower. Qed.

Lemma div_pow2 x e : x / 2 ^ e * 2 ^ e == x.
Proof. pose proof (pow2_pos e). field. lra. Qed.

Lemma log2_bounds n : (0 < n)%Z -> 2 ^ Z.log2 n <= inject_Z n /\ inject_Z n < 2 ^ (Z.log2 n + 1).
Proof.
  intros Hn. pose proof (Z.log2_spec n Hn) as [H1 H2]. pose proof (Z.log2_nonneg n).
  rewrite <- !pow2_Z by lia. split; [by rewrite <- Zle_Qle|].
  rewrite <- Zlt_Qlt. by rewrite Z.add_1_r.
Qed.

Lemma binade_spec x : 0 < x -> 2 ^ binade x <= x /\ x < 2 ^ (binade x + 1).
Proof.
  destruct x as [a b]. intros Hx.
  assert (0 < a)%Z as Ha by (unfold Qlt in Hx; cbn [Qnum Qden] in Hx; lia).
  pose proof (log2_bounds a Ha) as [A1 A2]. pose proof (log2_bounds (Zpos b) eq_refl) as [B1 B2].
  assert ((a # b) * inject_Z (Zpos b) == inject_Z a) as Hab.
  { unfold Qeq, Qmult, inject_Z. cbn [Qnum Qden]. lia. }
  unfold binade. cbn [Qnum Qden]. set (x := a # b) in *.
  set (la := Z.log2 a) in *. set (lb := Z.log2 (Zpos b)) in *.
  set (A := inject_Z a) in *. set (B := inject_Z (Zpos b)) in *.
  assert (0 < B) as HB by (pose proof (pow2_pos lb); lra).
  assert (x < 2 ^ (la - lb + 1)) as Hup.
  { apply (Qmult_lt_r _ _ B HB). rewrite Hab.
    assert (2 ^ (la + 1) == 2 ^ (la - lb + 1) * 2 ^ lb) as E.
    { rewrite <- pow2_add. by replace (la - lb + 1 + lb)%Z with (la + 1)%Z by lia. }
    pose proof (pow2_pos (la - lb + 1)). nra. }
  assert (2 ^ (la - lb - 1) <= x) as Hlo.
  { apply (Qmult_le_r _ _ B HB). rewrite Hab.
    assert (2 ^ la == 2 ^ (la - lb - 1) * 2 ^ (lb + 1)) as E.
    { rewrite <- pow2_add. by replace (la - lb - 1 + (lb + 1))%Z with la by lia. }
    pose proof (pow2_pos (la - lb - 1)). nra. }
  destruct (Qle_bool (2 ^ (la - lb)) x) eqn:E.
  - split; [by apply Qle_bool_iff|done].
  - split; [done|]. replace (la - lb - 1 + 1)%Z with (la - lb)%Z by lia.
    apply Qnot_le_lt. intros H. apply Qle_bool_iff in H. by rewrite H in E.
Qed.

Lemma binade_below x k : 0 < x -> x < 2 ^ k -> (binade x < k)%Z.
Proof. intros Hx Hk. apply pow2_lt_inv. pose proof (binade_spec x Hx). lra. Qed.

Lemma binade_mono x y : 0 < x -> x <= y -> (binade x <= binade y)%Z.
Proof.
  intros Hx Hy. cut (binade x < binade y + 1)%Z; [lia|]. apply binade_below; [done|].
  pose proof (binade_spec y ltac:(lra)). lra.
Qed.

(** ** What rounding does to a positive value *)

Lemma last_place_pos x : 0 < x -> last_place x = Z.max (binade x - 52) (-1074).
Proof.
  destruct x as [a b]. intros Hx. unfold Qlt in Hx. cbn [Qnum Qden] in Hx.
  unfold last_place, Qabs. by rewrite Z.abs_eq by lia.
Qed.

Lemma scaled_below x : 0 < x -> x / 2 ^ last_place x < 2 ^ 53.
Proof.
  intros Hx. rewrite last_place_pos by done. set (e := Z.max _ _).
  apply (Qmult_lt_r _ _ (2 ^ e) (pow2_pos e)). rewrite div_pow2, <- pow2_add.
  apply (Qlt_le_trans _ (2 ^ (binade x + 1))); [by apply binade_spec|]. apply pow2_le. lia.
Qed.

Lemma fl_mono x y : 0 < x -> x <= y -> fl x <= fl y.
Proof.
  intros Hx Hxy. assert (0 < y) as Hy by lra. pose proof (binade_mono x y Hx Hxy) as Hb.
  unfold fl. pose proof (scaled_below x Hx) as Hs.
  rewrite (last_place_pos x Hx) in *. rewrite (last_place_pos y Hy).
  set (e := Z.max (binade x - 52) (-1074)) in *. set (f := Z.max (binade y - 52) (-1074)).
  pose proof (pow2_pos e) as He. pose proof (pow2_pos f) as Hf.
  destruct (Z.eq_dec e f) as [<-|Hne].
  - apply Qmult_le_compat_r; [|lra]. rewrite <- Zle_Qle. apply round_even_mono.
    by apply (Qmult_le_r _ _ (2 ^ e) He); rewrite !div_pow2.
  - assert (e < f)%Z as Hef by lia.
    assert (round_even (x / 2 ^ e) <= 2 ^ 53)%Z as H1.
    { rewrite <- (round_even_Z (2 ^ 53) _ (Qeq_refl _)). apply round_even_mono.
      rewrite pow2_Z by done. lra. }
    assert (2 ^ 52 <= round_even (y / 2 ^ f))%Z as H2.
    { rewrite <- (round_even_Z (2 ^ 52) _ (Qeq_refl _)). apply round_even_mono.
      rewrite pow2_Z by done. apply (Qmult_le_r _ _ (2 ^ f) Hf). rewrite div_pow2, <- pow2_add.
      replace (52 + f)%Z with (binade y) by lia. by apply binade_spec. }
    rewrite Zle_Qle, pow2_Z in H1, H2 by done.
    assert (2 ^ 53 * 2 ^ e <= 2 ^ 52 * 2 ^ f) as H3.
    { rewrite <- !pow2_add. apply pow2_le. lia. }
    apply (Qle_trans _ (2 ^ 53 * 2 ^ e)); [apply Qmult_le_compat_r; lra|].
    apply (Qle_trans _ (2 ^ 52 * 2 ^ f)); [done|]. apply Qmult_le_compat_r; lra.
Qed.

(** The error is half a unit of the last place. *)
Lemma fl_error x k : 0 < x -> x < 2 ^ k -> (-1021 <= k)%Z -> Qabs (fl x - x) <= 2 ^ (k - 54).
Proof.
  intros Hx Hk Hn. unfold fl. rewrite (last_place_pos x Hx). set (e := Z.max _ _).
  pose proof (binade_below x k Hx Hk). pose proof (pow2_pos e) as He.
  pose proof (round_even_near (x / 2 ^ e)) as Hr. set (n := round_even _) in *.
  assert (inject_Z n * 2 ^ e - x == (inject_Z n - x / 2 ^ e) * 2 ^ e) as ->.
  { pose proof (div_pow2 x e) as E. rewrite <- E at 1. ring. }
  rewrite Qabs_Qmult, (Qabs_pos (2 ^ e)) by lra.
  apply (Qle_trans _ ((1 # 2) * 2 ^ e)); [apply Qmult_le_compat_r; lra|].
  change (1 # 2) with (2 ^ (-1)). rewrite <- pow2_add. apply pow2_le. lia.
Qed.

Lemma fl_zero x : x == 0 -> fl x == 0.
Proof.
  intros Hx. unfold fl. rewrite (round_even_Z 0); [by rewrite Qmult_0_l|].
  change (inject_Z 0) with 0. pose proof (pow2_pos (last_place x)). apply (Qmult_inj_r _ _ (2 ^ last_place x)); [lra|].
  rewrite div_pow2. lra.
Qed.

(** A double is its own nearest. *)
Lemma fl_exact n k : (0 < n < 2 ^ 53)%Z -> (-1074 <= k)%Z -> fl (inject_Z n * 2 ^ k) == inject_Z n * 2 ^ k.
Proof.
  intros [Hn Hn'] Hk. set (x := inject_Z n * 2 ^ k).
  assert (0 < inject_Z n) as HnQ by (by rewrite <- (Zlt_Qlt 0)).
  assert (0 < x) as Hx by (apply Qmult_lt_0_compat; [done|apply pow2_pos]).
  assert (x < 2 ^ (53 + k)) as Hlt.
  { rewrite pow2_add, <- (pow2_Z 53) by done. unfold x.
    apply Qmult_lt_r; [apply pow2_pos|]. by rewrite <- Zlt_Qlt. }
  pose proof (binade_below _ _ Hx Hlt). unfold fl. rewrite (last_place_pos x Hx). set (e := Z.max _ _).
  rewrite (round_even_Z (n * 2 ^ (k - e))).
  - rewrite inject_Z_mult, pow2_Z by lia. unfold x. rewrite <- Qmult_assoc, <- pow2_add.
    by replace (k - e + e)%Z with k by lia.
  - rewrite inject_Z_mult, pow2_Z by lia. pose proof (pow2_pos e). unfold x.
    assert (2 ^ k == 2 ^ (k - e) * 2 ^ e) as ->.
    { rewrite <- pow2_add. by replace (k - e + e)%Z with k by lia. }
    field. lra.
Qed.

Lemma fl_int n : (0 < n <= 2 ^ 53)%Z -> fl (inject_Z n) == inject_Z n.
Proof.
  intros Hn. destruct (Z.eq_dec n (2 ^ 53)) as [->|]; [by vm_compute|].
  pose proof (fl_exact n 0 ltac:(lia) ltac:(lia)) as H.
  assert (inject_Z n * 2 ^ 0 = inject_Z n) as E by (unfold inject_Z, Qmult; cbn [Qnum Qden]; cbn; by rewrite Z.mul_1_r).
  by rewrite E in H.
Qed.

Example fl_tenths : fl (fl (1 # 10) + fl (2 # 10)) == fl (3 # 10) + 2 ^ (-54).
Proof. by vm_compute. Qed.
