(* ===== verification/JsonParse.v ===== *)
(** * [JSON.parse]

    The language's own reader of JSON text, as a recursive descent over code units; every
    function returns what it read and what follows. An object keeps its keys in the order the
    language enumerates them: array indices first, ascending, then the others as inserted; a
    repeated key keeps its place and takes the last value. *)
From S2P Require Import Prelude UString Number Json.
Local Open Scope Z_scope.

Definition json_space (c : Z) : bool := (c =? 32) || (c =? 9) || (c =? 10) || (c =? 13).

Fixpoint skip_space (s : ustring) : ustring :=
  match s with
  | c :: rest => if json_space c then skip_space rest else s
  | [] => []
  end.

(** ** Strings *)

Definition hex_value (c : Z) : option Z :=
  if is_digit c then Some (c - 48)
  else if (97 <=? c) && (c <=? 102) then Some (c - 87)
  else if (65 <=? c) && (c <=? 70) then Some (c - 55)
  else None.

Definition hex4 (a b c d : Z) : option Z :=
  match hex_value a, hex_value b, hex_value c, hex_value d with
  | Some w, Some x, Some y, Some z => Some (4096 * w + 256 * x + 16 * y + z)
  | _, _, _, _ => None
  end.

(** What a one-letter escape stands for. *)
Definition unescape (c : Z) : option Z :=
  if (c =? 34) || (c =? 92) || (c =? 47) then Some c
  else if c =? 98 then Some 8 else if c =? 102 then Some 12 else if c =? 110 then Some 10
  else if c =? 114 then Some 13 else if c =? 116 then Some 9 else None.

(** From after the opening quote to after the closing one. *)
Fixpoint parse_units (s : ustring) : option (ustring * ustring) :=
  match s with
  | [] => None
  | 34 :: rest => Some ([], rest)
  | 92 :: e :: rest =>
      match e, rest with
      | 117, a :: b :: c :: d :: rest' =>
          u ← hex4 a b c d; r ← parse_units rest'; Some (u :: r.1, r.2)
      | _, _ => u ← unescape e; r ← parse_units rest; Some (u :: r.1, r.2)
      end
  | [92] => None
  | c :: rest => if c <? 32 then None else r ← parse_units rest; Some (c :: r.1, r.2)
  end.

(** ** Numbers *)

Definition read_fraction (s : ustring) : option (ustring * ustring) :=
  match s with
  | 46 :: rest => match span_digits rest with ([], _) => None | (d, r) => Some (d, r) end
  | _ => Some ([], s)
  end.

Definition read_sign (s : ustring) : bool * ustring :=
  match s with 43 :: r => (false, r) | 45 :: r => (true, r) | _ => (false, s) end.

Definition read_exponent (s : ustring) : option (Z * ustring) :=
  match s with
  | c :: rest =>
      if (c =? 101) || (c =? 69) then
        let '(neg, digits) := read_sign rest in
        match span_digits digits with
        | ([], _) => None
        | (d, r) => Some (if neg then - digits_value d else digits_value d, r)
        end
      else Some (0, s)
  | [] => Some (0, [])
  end.

Definition read_whole (s : ustring) : option (ustring * ustring) :=
  match s with
  | 48 :: rest => Some ([48], rest)
  | _ => match span_digits s with ([], _) => None | (d, r) => Some (d, r) end
  end.

Definition read_minus (s : ustring) : bool * ustring :=
  match s with 45 :: r => (true, r) | _ => (false, s) end.

Definition parse_number (s : ustring) : option (ustring * ustring) :=
  let '(neg, body) := read_minus s in
  w ← read_whole body;
  f ← read_fraction w.2;
  x ← read_exponent f.2;
  Some (literal_text neg {| whole := w.1; fraction := f.1; exponent := x.1 |}, x.2).

(** ** Objects *)

(** An array index: below 2^32 - 1 and written without leading zeros. *)
Definition is_index (k : ustring) : bool :=
  all_digits k && bool_decide (decimal (digits_value k) = k) && (digits_value k <? 2 ^ 32 - 1).

Definition enumerated_before (k k' : ustring) : bool :=
  is_index k && (negb (is_index k') || (digits_value k <? digits_value k')).

(** [object[k] = v]. *)
Fixpoint obj_set (k : ustring) (v : json) (l : list (ustring * json)) : list (ustring * json) :=
  match l with
  | [] => [(k, v)]
  | kv :: rest =>
      if bool_decide (kv.1 = k) then (k, v) :: rest
      else if enumerated_before k kv.1 then (k, v) :: l
      else kv :: obj_set k v rest
  end.

Definition obj_of (l : list (ustring * json)) : list (ustring * json) :=
  fold_left (fun o kv => obj_set kv.1 kv.2 o) l [].

(** ** Values *)

Fixpoint strip_prefix (p s : ustring) : option ustring :=
  match p, s with
  | [], _ => Some s
  | a :: p', b :: s' => if a =? b then strip_prefix p' s' else None
  | _ :: _, [] => None
  end.

Definition parse_word (w : ustring) (v : json) (s : ustring) : option (json * ustring) :=
  r ← strip_prefix w s; Some (v, r).

Fixpoint parse_value (fuel : nat) (s : ustring) : option (json * ustring) :=
  match fuel with
  | O => None
  | S fuel' =>
      match skip_space s with
      | [] => None
      | c :: rest =>
          if c =? 34 then r ← parse_units rest; Some (JStr r.1, r.2)
          else if c =? 91 then
            match skip_space rest with
            | 93 :: rest' => Some (JArr [], rest')
            | _ => r ← parse_items fuel' rest; Some (JArr r.1, r.2)
            end
          else if c =? 123 then
            match skip_space rest with
            | 125 :: rest' => Some (JObj [], rest')
            | _ => r ← parse_members fuel' rest; Some (JObj (obj_of r.1), r.2)
            end
          else if c =? 110 then parse_word (js "null") JNull (c :: rest)
          else if c =? 116 then parse_word (js "true") (JBool true) (c :: rest)
          else if c =? 102 then parse_word (js "false") (JBool false) (c :: rest)
          else r ← parse_number (c :: rest); Some (JNum r.1, r.2)
      end
  end
with parse_items (fuel : nat) (s : ustring) : option (list json * ustring) :=
  match fuel with
  | O => None
  | S fuel' =>
      v ← parse_value fuel' s;
      match skip_space v.2 with
      | 44 :: rest => r ← parse_items fuel' rest; Some (v.1 :: r.1, r.2)
      | 93 :: rest => Some ([v.1], rest)
      | _ => None
      end
  end
with parse_members (fuel : nat) (s : ustring) : option (list (ustring * json) * ustring) :=
  match fuel with
  | O => None
  | S fuel' =>
      match skip_space s with
      | 34 :: rest =>
          k ← parse_units rest;
          match skip_space k.2 with
          | 58 :: rest' =>
              v ← parse_value fuel' rest';
              match skip_space v.2 with
              | 44 :: more => r ← parse_members fuel' more; Some ((k.1, v.1) :: r.1, r.2)
              | 125 :: more => Some ([(k.1, v.1)], more)
              | _ => None
              end
          | _ => None
          end
      | _ => None
      end
  end.

(** Twice the text's length: every level consumes a unit, and has an inner one. *)
Definition parse_fuel (s : ustring) : nat := (2 * length s + 2)%nat.

(** [JSON.parse(s)]; [None] is a [SyntaxError]. *)
Definition json_parse (s : ustring) : option json :=
  r ← parse_value (parse_fuel s) s;
  match skip_space r.2 with [] => Some r.1 | _ => None end.

Example json_parse_samples :
  map json_parse
    [js " { } "; js "[1.50, -0, 2e3 ,null]"; js "[1,]"; js "{'a':1}"; js "01"; js "tru"; js "1e999"] =
  [Some (JObj []);
   Some (JArr [JNum (js "1.5"); JNum (js "0"); JNum (js "2000"); JNull]);
   None; None; None; None; Some (JNum (js "Infinity"))].
Proof. by vm_compute. Qed.

(** ** Reading back what was written *)

(** A unit is sixteen bits. *)
Definition unit_ok (c : Z) : bool := (0 <=? c) && (c <=? 0xffff).

Lemma hex_value_lower n : 0 <= n < 16 -> hex_value (hex_lower n) = Some n.
Proof.
  intros H. unfold hex_value, hex_lower, is_digit.
  destruct (Z.ltb_spec n 10); repeat case_match; bool_to_prop; try lia; f_equal; lia.
Qed.

Lemma hex4_escape c : unit_ok c = true ->
  hex4 (hex_lower (c / 4096)) (hex_lower (c / 256 mod 16)) (hex_lower (c / 16 mod 16))
    (hex_lower (c mod 16)) = Some c.
Proof.
  unfold unit_ok. intros H. bool_to_prop. unfold hex4.
  rewrite !hex_value_lower by div_lia. f_equal. div_lia.
Qed.

(** What is read of a quoted string is the string, unit by unit. *)
Lemma parse_plain c s : 32 <= c -> c <> 34 -> c <> 92 ->
  parse_units (c :: s) = (r ← parse_units s; Some (c :: r.1, r.2)).
Proof.
  intros H H1 H2. destruct c as [|p|p]; [lia| |lia]. cbn [parse_units].
  destruct (Z.ltb_spec (Z.pos p) 32); [lia|]. by repeat case_match.
Qed.

Lemma parse_escape c s : unit_ok c = true ->
  parse_units (escape_unit c ++ s) = (r ← parse_units s; Some (c :: r.1, r.2)).
Proof.
  intros H. unfold escape_unit. cbn [app parse_units]. by rewrite hex4_escape.
Qed.

Lemma parse_quote_unit c s : unit_ok c = true ->
  parse_units (quote_unit c ++ s) = (r ← parse_units s; Some (c :: r.1, r.2)).
Proof.
  intros H. unfold quote_unit.
  repeat match goal with
  | |- context [if (?a =? ?b) then _ else _] => destruct (Z.eqb_spec a b); [by subst|]
  end.
  destruct (_ || _) eqn:E; [by apply parse_escape|].
  apply orb_false_iff in E as [E _]. apply orb_false_iff in E as [E _]. bool_to_prop.
  cbn [app]. by apply parse_plain.
Qed.

Lemma parse_quote s rest : forallb unit_ok s = true ->
  parse_units (quote_units s ++ 34 :: rest) = Some (s, rest).
Proof.
  remember (length s) as n eqn:Hn. revert s Hn rest.
  induction (lt_wf n) as [n _ IH]. intros s -> rest Hs.
  destruct s as [|c s]; [done|]. cbn in Hs. apply andb_true_iff in Hs as [Hc Hs].
  cbn [quote_units]. destruct s as [|d s].
  - by rewrite parse_quote_unit.
  - destruct (is_lead c && is_trail d) eqn:E.
    + cbn in Hs. apply andb_true_iff in Hs as [Hd Hs].
      apply andb_true_iff in E as [E1 E2]. unfold is_lead, is_trail in *. bool_to_prop.
      cbn [app]. rewrite !parse_plain by lia. rewrite (IH (length s)); [done|cbn; lia|done|done].
    + rewrite <- app_assoc, parse_quote_unit by done.
      by rewrite (IH (length (d :: s))) by (cbn; lia || done).
Qed.

(** *** Numbers *)

(** The text after a number does not continue it. *)
Definition stops (s : ustring) : bool :=
  match s with
  | c :: _ => negb (is_digit c || (c =? 46) || (c =? 101) || (c =? 69))
  | [] => true
  end.

Lemma span_digits_app s d r rest : span_digits s = (d, r) -> stops rest = true ->
  span_digits (s ++ rest) = (d, r ++ rest).
Proof.
  revert d r. induction s as [|c s IH]; intros d r H Hr; cbn in *.
  - injection H as <- <-. destruct rest as [|c rest]; [done|]. cbn in *.
    destruct (is_digit c); [done|done].
  - destruct (is_digit c); [|by injection H as <- <-].
    destruct (span_digits s) as [d' r'] eqn:E. injection H as <- <-. by rewrite (IH d' r').
Qed.

Lemma read_whole_other c t : c <> 48 ->
  read_whole (c :: t) = match span_digits (c :: t) with ([], _) => None | (d, r) => Some (d, r) end.
Proof. intros H. unfold read_whole. by repeat case_match. Qed.

Lemma read_whole_app s d r rest : read_whole s = Some (d, r) -> stops rest = true ->
  read_whole (s ++ rest) = Some (d, r ++ rest).
Proof.
  intros H Hr. destruct s as [|c s]; [by cbn in H|].
  assert (Hc : c = 48 \/ c <> 48) by lia. destruct Hc as [->|Hc].
  - cbn in *. by injection H as <- <-.
  - cbn [app]. rewrite read_whole_other in H |- * by done. destruct (span_digits (c :: s)) as [x y] eqn:Es.
    change (c :: s ++ rest) with ((c :: s) ++ rest). rewrite (span_digits_app _ _ _ _ Es Hr).
    destruct x; [done|]. by injection H as <- <-.
Qed.

Lemma read_fraction_other c t : c <> 46 -> read_fraction (c :: t) = Some ([], c :: t).
Proof. intros H. unfold read_fraction. by repeat case_match. Qed.

Lemma read_fraction_app s d r rest : read_fraction s = Some (d, r) -> stops rest = true ->
  read_fraction (s ++ rest) = Some (d, r ++ rest).
Proof.
  intros H Hr. destruct s as [|c s].
  - cbn in H. injection H as <- <-. destruct rest as [|c rest]; [done|]. cbn [app].
    apply read_fraction_other. intros ->. by cbn in Hr.
  - assert (Hc : c = 46 \/ c <> 46) by lia. destruct Hc as [->|Hc].
    + cbn in *. destruct (span_digits s) as [x y] eqn:Es. rewrite (span_digits_app _ _ _ _ Es Hr).
      destruct x; [done|]. by injection H as <- <-.
    + rewrite read_fraction_other in H by done. injection H as <- <-. cbn [app].
      by rewrite read_fraction_other.
Qed.

Lemma read_sign_app c s rest :
  read_sign (c :: s ++ rest) = ((read_sign (c :: s)).1, (read_sign (c :: s)).2 ++ rest).
Proof. unfold read_sign. by repeat case_match. Qed.

Lemma read_exponent_app s x r rest : read_exponent s = Some (x, r) -> stops rest = true ->
  read_exponent (s ++ rest) = Some (x, r ++ rest).
Proof.
  intros H Hr. destruct s as [|c s].
  - cbn in H. injection H as <- <-. destruct rest as [|c rest]; [done|]. cbn in *.
    by destruct (is_digit c), (c =? 46), (c =? 101), (c =? 69).
  - cbn [app read_exponent] in *. destruct (_ || _); [|by injection H as <- <-].
    destruct s as [|e s]; [done|]. cbn [app]. rewrite read_sign_app.
    destruct (read_sign (e :: s)) as [neg digits]. cbn [fst snd].
    destruct (span_digits digits) as [a b] eqn:Ed.
    rewrite (span_digits_app _ _ _ _ Ed Hr). destruct a; [done|]. by injection H as <- <-.
Qed.

Lemma read_minus_app c s rest :
  read_minus (c :: s ++ rest) = ((read_minus (c :: s)).1, (read_minus (c :: s)).2 ++ rest).
Proof. unfold read_minus. by repeat case_match. Qed.

Lemma parse_number_app s w r rest : parse_number s = Some (w, r) -> stops rest = true ->
  parse_number (s ++ rest) = Some (w, r ++ rest).
Proof.
  intros H Hr. unfold parse_number in *.
  destruct s as [|c s]; [done|]. cbn [app]. rewrite read_minus_app.
  destruct (read_minus (c :: s)) as [neg body]. cbn [fst snd].
  destruct (read_whole body) as [[w1 w2]|] eqn:Ew; [|done]. cbn [mbind option_bind fst snd] in *.
  rewrite (read_whole_app _ _ _ _ Ew Hr). cbn [mbind option_bind fst snd].
  destruct (read_fraction w2) as [[f1 f2]|] eqn:Ef; [|done]. cbn [mbind option_bind fst snd] in *.
  rewrite (read_fraction_app _ _ _ _ Ef Hr). cbn [mbind option_bind fst snd].
  destruct (read_exponent f2) as [[x1 x2]|] eqn:Ex; [|done]. cbn [mbind option_bind fst snd] in *.
  rewrite (read_exponent_app _ _ _ _ Ex Hr). cbn [mbind option_bind fst snd].
  by injection H as <- <-.
Qed.

(** *** Values *)

(** Induction through the nested lists. *)
Section Induction.
Context (P : json -> Prop) (Hnull : P JNull) (Hbool : forall b, P (JBool b))
  (Hnum : forall w, P (JNum w)) (Hstr : forall s, P (JStr s))
  (Harr : forall l, Forall P l -> P (JArr l)) (Hobj : forall l, Forall (fun kv => P kv.2) l -> P (JObj l)).

Fixpoint json_rect_nested (v : json) : P v :=
  match v with
  | JNull => Hnull
  | JBool b => Hbool b
  | JNum w => Hnum w
  | JStr s => Hstr s
  | JArr l => Harr l ((fix go l := match l return Forall P l with
      | [] => Forall_nil_2 _
      | x :: r => Forall_cons_2 _ _ _ (json_rect_nested x) (go r) end) l)
  | JObj l => Hobj l ((fix go l := match l return Forall (fun kv => P kv.2) l with
      | [] => Forall_nil_2 _
      | x :: r => Forall_cons_2 _ _ _ (json_rect_nested x.2) (go r) end) l)
  end.
End Induction.

(** The keys are in the order the language enumerates them, once each. *)
Fixpoint enumerated (l : list (ustring * json)) : bool :=
  match l with
  | [] => true
  | kv :: rest =>
      forallb (fun kv' => negb (bool_decide (kv.1 = kv'.1)) && negb (enumerated_before kv'.1 kv.1)) rest
      && enumerated rest
  end.

(** The values the language can hold, numbers finite and canonical. *)
Fixpoint json_ok (v : json) : bool :=
  match v with
  | JNull | JBool _ => true
  | JNum w =>
      finite_text w &&
      match parse_number w with Some (w', []) => bool_decide (w' = w) | _ => false end
  | JStr s => forallb unit_ok s
  | JArr l => forallb json_ok l
  | JObj l => enumerated l && forallb (fun kv => forallb unit_ok kv.1 && json_ok kv.2) l
  end.

Lemma obj_set_last k v l :
  forallb (fun kv => negb (bool_decide (kv.1 = k)) && negb (enumerated_before k kv.1)) l = true ->
  obj_set k v l = l ++ [(k, v)].
Proof.
  induction l as [|kv l IH]; [done|]. cbn. intros H. apply andb_true_iff in H as [H Hl].
  apply andb_true_iff in H as [H1 H2]. apply negb_true_iff in H1, H2. rewrite H1, H2. f_equal. by apply IH.
Qed.

Lemma obj_of_enumerated_from l : forall o, enumerated (o ++ l) = true ->
  fold_left (fun o kv => obj_set kv.1 kv.2 o) l o = o ++ l.
Proof.
  induction l as [|kv l IH]; intros o H; cbn; [by rewrite app_nil_r|].
  rewrite obj_set_last.
  - destruct kv as [k v]. cbn. rewrite IH; rewrite <- app_assoc; done.
  - clear IH. induction o as [|kv' o IHo]; [done|]. cbn in *. apply andb_true_iff in H as [H Ho].
    rewrite forallb_app in H. apply andb_true_iff in H as [_ H]. cbn in H.
    apply andb_true_iff in H as [H _]. rewrite H. by apply IHo.
Qed.

Lemma obj_of_enumerated l : enumerated l = true -> obj_of l = l.
Proof. apply (obj_of_enumerated_from l []). Qed.

Lemma skip_space_solid c s : json_space c = false -> skip_space (c :: s) = c :: s.
Proof. cbn. by intros ->. Qed.

(** What a written value begins with. *)
Definition opens (c : Z) : bool :=
  (c =? 34) || (c =? 91) || (c =? 123) || (c =? 110) || (c =? 116) || (c =? 102) || (c =? 45) ||
  is_digit c.

Lemma opens_solid c : opens c = true -> json_space c = false /\ c <> 93 /\ c <> 125.
Proof. unfold opens, json_space, is_digit. intros H. bool_to_prop; lia. Qed.

Lemma stringify_opens v : exists c t, stringify v = c :: t /\ opens c = true.
Proof.
  destruct v as [|[]|w| | |]; cbn; try by do 2 eexists.
  destruct (finite_text w) eqn:E; [|by do 2 eexists]. destruct w as [|c t]; [done|].
  exists c, t. split; [done|]. unfold opens. cbn in E. apply orb_true_iff in E as [E|E].
  - rewrite E. by rewrite !orb_true_r.
  - apply andb_true_iff in E as [E _]. rewrite E. by rewrite !orb_true_r.
Qed.

(** A written value reads back, whatever stops it follows. *)
Definition reads_back (v : json) : Prop :=
  json_ok v = true -> forall fuel rest, (2 * length (stringify v) <= fuel)%nat -> stops rest = true ->
  parse_value fuel (stringify v ++ rest) = Some (v, rest).

Definition member_text (kv : ustring * json) : ustring := json_string kv.1 ++ 58 :: stringify kv.2.
Definition items_text (l : list json) : ustring := join [44] (map stringify l).
Definition members_text (l : list (ustring * json)) : ustring := join [44] (map member_text l).

Lemma reads_items l : Forall reads_back l -> forallb json_ok l = true -> l <> [] ->
  forall fuel rest, (2 * length (items_text l) + 1 <= fuel)%nat ->
  parse_items fuel (items_text l ++ 93 :: rest) = Some (l, rest).
Proof.
  induction 1 as [|v l Hv Hl IH]; intros Hok Hne fuel rest Hf; [done|].
  cbn in Hok. apply andb_true_iff in Hok as [Hokv Hok].
  destruct fuel as [|fuel]; [lia|]. cbn [parse_items].
  destruct l as [|v' l].
  - change (items_text [v]) with (stringify v) in *. rewrite (Hv Hokv) by (lia || done). done.
  - change (items_text (v :: v' :: l)) with (stringify v ++ 44 :: items_text (v' :: l)) in *.
    rewrite length_app in Hf. cbn [length] in Hf. rewrite <- app_assoc. cbn [app].
    rewrite (Hv Hokv) by (lia || done). cbn [mbind option_bind fst snd].
    rewrite skip_space_solid by done. rewrite IH by (lia || done). done.
Qed.

Lemma reads_members l : Forall (fun kv => reads_back kv.2) l ->
  forallb (fun kv => forallb unit_ok kv.1 && json_ok kv.2) l = true -> l <> [] ->
  forall fuel rest, (2 * length (members_text l) + 1 <= fuel)%nat ->
  parse_members fuel (members_text l ++ 125 :: rest) = Some (l, rest).
Proof.
  induction 1 as [|[k v] l Hv Hl IH]; intros Hok Hne fuel rest Hf; [done|].
  cbn in Hok, Hv. apply andb_true_iff in Hok as [Hokv Hok]. apply andb_true_iff in Hokv as [Hk Hokv].
  destruct fuel as [|fuel]; [lia|].
  assert (Hkey : forall t, skip_space (member_text (k, v) ++ t) =
    34 :: quote_units k ++ 34 :: 58 :: stringify v ++ t).
  { intros t. unfold member_text, json_string. cbn. by rewrite <- !app_assoc. }
  assert (Hlen : (length (stringify v) + 3 <= length (member_text (k, v)))%nat).
  { unfold member_text, json_string. cbn. rewrite !length_app. cbn. lia. }
  destruct l as [|kv l].
  - change (members_text [(k, v)]) with (member_text (k, v)) in *. cbn [parse_members]. rewrite Hkey, parse_quote by done.
    cbn [mbind option_bind fst snd]. rewrite skip_space_solid by done.
    rewrite (Hv Hokv) by (lia || done). done.
  - change (members_text ((k, v) :: kv :: l)) with
      (member_text (k, v) ++ 44 :: members_text (kv :: l)) in *.
    rewrite length_app in Hf. cbn [length] in Hf. rewrite <- app_assoc. cbn [app parse_members].
    rewrite Hkey, parse_quote by done. cbn [mbind option_bind fst snd].
    rewrite skip_space_solid by done. rewrite (Hv Hokv) by (lia || done).
    cbn [mbind option_bind fst snd]. rewrite skip_space_solid by done.
    rewrite IH by (lia || done). done.
Qed.

Lemma parse_value_solid c rest fuel : json_space c = false ->
  parse_value (S fuel) (c :: rest) =
    if c =? 34 then r ← parse_units rest; Some (JStr r.1, r.2)
    else if c =? 91 then
      match skip_space rest with
      | 93 :: rest' => Some (JArr [], rest')
      | _ => r ← parse_items fuel rest; Some (JArr r.1, r.2)
      end
    else if c =? 123 then
      match skip_space rest with
      | 125 :: rest' => Some (JObj [], rest')
      | _ => r ← parse_members fuel rest; Some (JObj (obj_of r.1), r.2)
      end
    else if c =? 110 then parse_word (js "null") JNull (c :: rest)
    else if c =? 116 then parse_word (js "true") (JBool true) (c :: rest)
    else if c =? 102 then parse_word (js "false") (JBool false) (c :: rest)
    else r ← parse_number (c :: rest); Some (JNum r.1, r.2).
Proof. intros H. cbn [parse_value]. by rewrite skip_space_solid. Qed.

Lemma reads_number w : reads_back (JNum w).
Proof.
  intros Hok fuel rest Hf Hr. cbn in Hok, Hf |- *. destruct (finite_text w) eqn:Hw; [|done].
  cbn in Hok. destruct (parse_number w) as [[w' [|]]|] eqn:Hp; try done.
  apply bool_decide_eq_true in Hok as ->.
  destruct w as [|c t]; [done|]. destruct fuel as [|fuel]; [cbn in Hf; lia|].
  assert (Hc : is_digit c = true \/ c = 45).
  { cbn in Hw. apply orb_true_iff in Hw as [Hw|Hw]; [by left|]. bool_to_prop. by right. }
  assert (Hs : json_space c = false) by (unfold json_space, is_digit in *; bool_to_prop; lia).
  change ((c :: t) ++ rest) with (c :: t ++ rest). rewrite parse_value_solid by done.
  repeat match goal with
  | |- context [if ?a =? ?b then _ else _] =>
      destruct (Z.eqb_spec a b); [unfold is_digit in Hc; bool_to_prop; lia|]
  end.
  change (c :: t ++ rest) with ((c :: t) ++ rest). by rewrite (parse_number_app _ _ _ _ Hp Hr).
Qed.

(** After a bracket, an item and not its closing. *)
Lemma bracket_items fuel s : opens (hd 0 s) = true -> s <> [] ->
  parse_value (S fuel) (91 :: s) = (r ← parse_items fuel s; Some (JArr r.1, r.2)).
Proof.
  intros H Hs. rewrite parse_value_solid by done. cbn [Z.eqb Pos.eqb].
  destruct s as [|c s]; [done|]. cbn in H. apply opens_solid in H as (H & H1 & _).
  rewrite skip_space_solid by done. by repeat case_match.
Qed.

Lemma brace_members fuel s : opens (hd 0 s) = true -> s <> [] ->
  parse_value (S fuel) (123 :: s) = (r ← parse_members fuel s; Some (JObj (obj_of r.1), r.2)).
Proof.
  intros H Hs. rewrite parse_value_solid by done. cbn [Z.eqb Pos.eqb].
  destruct s as [|c s]; [done|]. cbn in H. apply opens_solid in H as (H & _ & H1).
  rewrite skip_space_solid by done. by repeat case_match.
Qed.

Lemma items_text_opens v l rest : exists c t, items_text (v :: l) ++ rest = c :: t /\ opens c = true.
Proof.
  destruct (stringify_opens v) as (c & t & E & H). exists c. unfold items_text. cbn [map join].
  destruct (map stringify l); rewrite E; by eexists.
Qed.

Lemma members_text_opens kv l rest :
  exists c t, members_text (kv :: l) ++ rest = c :: t /\ opens c = true.
Proof. exists 34. unfold members_text. cbn [map join]. destruct (map member_text l); by eexists. Qed.

(** What [JSON.stringify] writes, [JSON.parse] reads back. *)
Theorem stringify_reads_back v : reads_back v.
Proof.
  induction v as [|b|w|s|l IH|l IH] using json_rect_nested; [| |by apply reads_number|..];
    intros Hok fuel rest Hf Hr.
  - destruct fuel; [cbn in Hf; lia|done].
  - destruct fuel; [destruct b; cbn in Hf; lia|by destruct b].
  - cbn [stringify] in *. unfold json_string in *. destruct fuel; [cbn in Hf; lia|]. cbn [app].
    rewrite parse_value_solid by done. cbn [Z.eqb Pos.eqb]. rewrite <- app_assoc.
    cbn [app]. by rewrite parse_quote.
  - cbn in Hok. destruct l as [|v l]; [destruct fuel; [cbn in Hf; lia|done]|].
    change (stringify (JArr (v :: l))) with (91 :: items_text (v :: l) ++ [93]) in *.
    destruct fuel; [cbn in Hf; lia|]. cbn [app length] in *. rewrite length_app in Hf. cbn [length] in Hf.
    rewrite <- app_assoc. cbn [app].
    destruct (items_text_opens v l (93 :: rest)) as (c & t & E & Hc).
    rewrite bracket_items by (rewrite E; done).
    rewrite reads_items by (try done; lia). done.
  - cbn in Hok. apply andb_true_iff in Hok as [Hen Hok].
    destruct l as [|kv l]; [destruct fuel; [cbn in Hf; lia|done]|].
    change (stringify (JObj (kv :: l))) with (123 :: members_text (kv :: l) ++ [125]) in *.
    destruct fuel; [cbn in Hf; lia|]. cbn [app length] in *. rewrite length_app in Hf. cbn [length] in Hf.
    rewrite <- app_assoc. cbn [app].
    destruct (members_text_opens kv l (125 :: rest)) as (c & t & E & Hc).
    rewrite brace_members by (rewrite E; done).
    rewrite reads_members by (try done; lia). cbn [mbind option_bind fst snd].
    by rewrite obj_of_enumerated.
Qed.

Theorem json_parse_stringify v : json_ok v = true -> json_parse (stringify v) = Some v.
Proof.
  intros Hok. unfold json_parse, parse_fuel.
  pose proof (stringify_reads_back v Hok (2 * length (stringify v) + 2)%nat [] ltac:(lia) eq_refl) as H.
  rewrite app_nil_r in H. by rewrite H.
Qed.

(** *** The fuel is enough *)

Lemma skip_space_length s : (length (skip_space s) <= length s)%nat.
Proof. induction s as [|c s IH]; cbn; [done|]. destruct (json_space c); cbn; lia. Qed.

(** Each reader leaves less than it was given. *)
Definition shrinks {A} (p : option (A * ustring)) (s : ustring) : Prop :=
  match p with Some (_, r) => (length r < length s)%nat | None => True end.

Lemma parse_units_shrinks s : shrinks (parse_units s) s.
Proof.
  remember (length s) as n eqn:Hn. revert s Hn. induction (lt_wf n) as [n _ IH]. intros s ->.
  assert (Hrec : forall t u, (length t < length s)%nat ->
    shrinks (r ← parse_units t; Some (u :: r.1, r.2)) s).
  { intros t u Ht. pose proof (IH _ Ht t eq_refl) as H. unfold shrinks in *.
    destruct (parse_units t) as [[x y]|]; cbn; [lia|done]. }
  destruct s as [|c s]; [done|]. cbn [parse_units].
  repeat first [ apply Hrec; cbn; lia | done | case_match; subst ]; try (unfold shrinks; cbn; lia).
  all: match goal with
    | |- context [unescape ?x ≫= _] => destruct (unescape x)
    | |- context [hex4 ?a ?b ?c ?d ≫= _] => destruct (hex4 a b c d)
    end; [apply Hrec; cbn; lia|done].
Qed.

Lemma span_digits_length s d r : span_digits s = (d, r) -> (length r + length d = length s)%nat.
Proof.
  revert d r. induction s as [|c s IH]; intros d r H; cbn in H; [by injection H as <- <-|].
  destruct (is_digit c); [|by injection H as <- <-].
  destruct (span_digits s) as [x y]. injection H as <- <-. cbn. specialize (IH x y eq_refl). lia.
Qed.

Lemma span_shrinks s d r : span_digits s = (d, r) -> d <> [] -> (length r < length s)%nat.
Proof. intros H Hd. apply span_digits_length in H. destruct d; [done|]. cbn in H. lia. Qed.

Lemma read_whole_shrinks s : shrinks (read_whole s) s.
Proof.
  destruct s as [|c s]; [done|]. assert (c = 48 \/ c <> 48) as [->|Hc] by lia; [cbn; lia|].
  rewrite read_whole_other by done.
  destruct (span_digits (c :: s)) as [[|x d] r] eqn:E; [done|]. by apply (span_shrinks _ _ _ E).
Qed.

Lemma read_fraction_length s d r : read_fraction s = Some (d, r) -> (length r <= length s)%nat.
Proof.
  destruct s as [|c s]; [by intros [= <- <-]|]. assert (c = 46 \/ c <> 46) as [->|Hc] by lia.
  - cbn. destruct (span_digits s) as [[|x d'] r'] eqn:E; [done|]. intros [= <- <-].
    apply span_shrinks in E; [lia|done].
  - rewrite read_fraction_other by done. by intros [= <- <-].
Qed.

Lemma read_exponent_length s x r : read_exponent s = Some (x, r) -> (length r <= length s)%nat.
Proof.
  destruct s as [|c s]; [by intros [= <- <-]|]. cbn [read_exponent].
  destruct (_ || _); [|by intros [= <- <-]].
  assert (H : (length (read_sign s).2 <= length s)%nat)
    by (unfold read_sign; repeat case_match; cbn; lia).
  destruct (read_sign s) as [neg t]. cbn [snd] in H.
  destruct (span_digits t) as [[|y d] r'] eqn:E; [done|]. intros [= <- <-].
  apply span_shrinks in E; [cbn; lia|done].
Qed.

Lemma parse_number_shrinks s : shrinks (parse_number s) s.
Proof.
  unfold parse_number.
  assert (H0 : (length (read_minus s).2 <= length s)%nat)
    by (unfold read_minus; repeat case_match; cbn; lia).
  destruct (read_minus s) as [neg body]. cbn [snd] in H0. pose proof (read_whole_shrinks body) as H1.
  destruct (read_whole body) as [[w1 w2]|]; [|done]. cbn [mbind option_bind fst snd shrinks] in *.
  destruct (read_fraction w2) as [[f1 f2]|] eqn:Ef; [|done]. cbn [mbind option_bind fst snd].
  destruct (read_exponent f2) as [[x1 x2]|] eqn:Ex; [|done]. cbn [mbind option_bind fst snd shrinks].
  apply read_fraction_length in Ef. apply read_exponent_length in Ex. lia.
Qed.

Lemma strip_prefix_length p s r : strip_prefix p s = Some r -> (length r + length p = length s)%nat.
Proof.
  revert s. induction p as [|a p IH]; intros s H; cbn in H; [injection H as <-; cbn; lia|].
  destruct s as [|b s]; [done|]. destruct (a =? b); [|done]. apply IH in H. cbn. lia.
Qed.

Lemma parse_word_shrinks w v c rest s : w <> [] -> (length rest < length s)%nat ->
  shrinks (parse_word w v (c :: rest)) s.
Proof.
  intros Hw Hs. unfold parse_word. destruct (strip_prefix w (c :: rest)) as [r|] eqn:E; [|done].
  apply strip_prefix_length in E. destruct w; [done|]. cbn in *. lia.
Qed.

Lemma after_space s c rest : skip_space s = c :: rest -> (length rest < length s)%nat.
Proof. intros H. pose proof (skip_space_length s) as Hl. rewrite H in Hl. cbn in Hl. lia. Qed.

Lemma shrinks_map {A B} (p : option (A * ustring)) (f : A -> B) s t :
  shrinks p t -> (length t <= length s)%nat -> shrinks (r ← p; Some (f r.1, r.2)) s.
Proof. destruct p as [[a r]|]; cbn; [lia|done]. Qed.

Lemma shrinks_then {A B} (p : option (A * ustring)) (f : A * ustring -> option (B * ustring)) s t :
  shrinks p t -> (length t <= length s)%nat -> (forall x, shrinks (f x) x.2) -> shrinks (p ≫= f) s.
Proof.
  intros Hp Ht Hf. destruct p as [[a r]|]; [|done]. cbn in *. specialize (Hf (a, r)).
  unfold shrinks in *. cbn in Hf. destruct (f (a, r)) as [[b r']|]; [lia|done].
Qed.

Lemma reader_shrinks fuel : forall s,
  shrinks (parse_value fuel s) s /\ shrinks (parse_items fuel s) s /\ shrinks (parse_members fuel s) s.
Proof.
  induction fuel as [|fuel IH]; intros s; [done|]. cbn [parse_value parse_items parse_members].
  split_and!.
  - destruct (skip_space s) as [|c rest] eqn:E; [done|]. apply after_space in E.
    repeat match goal with |- context [if c =? ?b then _ else _] => destruct (c =? b) end.
    + apply (shrinks_map _ _ _ rest); [apply parse_units_shrinks|lia].
    + destruct (skip_space rest) as [|c' r'] eqn:E'.
      { apply (shrinks_map _ _ _ rest); [apply IH|lia]. }
      apply after_space in E'. assert (shrinks (Some (JArr [], r')) s) by (cbn; lia).
      assert (shrinks (r ← parse_items fuel rest; Some (JArr r.1, r.2)) s)
        by (apply (shrinks_map _ _ _ rest); [apply IH|lia]).
      by repeat case_match.
    + destruct (skip_space rest) as [|c' r'] eqn:E'.
      { apply (shrinks_map _ (fun l => JObj (obj_of l)) _ rest); [apply IH|lia]. }
      apply after_space in E'. assert (shrinks (Some (JObj [], r')) s) by (cbn; lia).
      assert (shrinks (r ← parse_members fuel rest; Some (JObj (obj_of r.1), r.2)) s)
        by (apply (shrinks_map _ (fun l => JObj (obj_of l)) _ rest); [apply IH|lia]).
      by repeat case_match.
    + by apply parse_word_shrinks.
    + by apply parse_word_shrinks.
    + by apply parse_word_shrinks.
    + apply (shrinks_map _ _ _ (c :: rest)); [apply parse_number_shrinks|cbn; lia].
  - apply (shrinks_then _ _ _ s); [apply IH|lia|]. intros [v r]. cbn [fst snd].
    destruct (skip_space r) as [|c rest] eqn:E; [done|]. apply after_space in E.
    assert (shrinks (Some ([v], rest)) r) by (cbn; lia).
    assert (shrinks (x ← parse_items fuel rest; Some (v :: x.1, x.2)) r)
      by (apply (shrinks_map _ (cons v) _ rest); [apply IH|lia]).
    by repeat case_match.
  - destruct (skip_space s) as [|c rest] eqn:E; [done|]. apply after_space in E.
    assert (shrinks (k ← parse_units rest;
      match skip_space k.2 with
      | 58 :: rest' =>
          v ← parse_value fuel rest';
          match skip_space v.2 with
          | 44 :: more => r ← parse_members fuel more; Some ((k.1, v.1) :: r.1, r.2)
          | 125 :: more => Some ([(k.1, v.1)], more)
          | _ => None
          end
      | _ => None
      end) s).
    { apply (shrinks_then _ _ _ rest); [apply parse_units_shrinks|lia|]. intros [k t]. cbn [fst snd].
      destruct (skip_space t) as [|c1 t1] eqn:E1; [done|]. apply after_space in E1.
      assert (shrinks (v ← parse_value fuel t1;
        match skip_space v.2 with
        | 44 :: more => r ← parse_members fuel more; Some ((k, v.1) :: r.1, r.2)
        | 125 :: more => Some ([(k, v.1)], more)
        | _ => None
        end) t).
      { apply (shrinks_then _ _ _ t1); [apply IH|lia|]. intros [v r]. cbn [fst snd].
        destruct (skip_space r) as [|c2 r2] eqn:E2; [done|]. apply after_space in E2.
        assert (shrinks (Some ([(k, v)], r2)) r) by (cbn; lia).
        assert (shrinks (x ← parse_members fuel r2; Some ((k, v) :: x.1, x.2)) r)
          by (apply (shrinks_map _ (cons (k, v)) _ r2); [apply IH|lia]).
        by repeat case_match. }
      by repeat case_match. }
    by repeat case_match.
Qed.

Lemma parse_items_S fuel s : parse_items (S fuel) s =
  (v ← parse_value fuel s;
   match skip_space v.2 with
   | 44 :: rest => r ← parse_items fuel rest; Some (v.1 :: r.1, r.2)
   | 93 :: rest => Some ([v.1], rest)
   | _ => None
   end).
Proof. done. Qed.

Lemma parse_members_S fuel s : parse_members (S fuel) s =
  match skip_space s with
  | 34 :: rest =>
      k ← parse_units rest;
      match skip_space k.2 with
      | 58 :: rest' =>
          v ← parse_value fuel rest';
          match skip_space v.2 with
          | 44 :: more => r ← parse_members fuel more; Some ((k.1, v.1) :: r.1, r.2)
          | 125 :: more => Some ([(k.1, v.1)], more)
          | _ => None
          end
      | _ => None
      end
  | _ => None
  end.
Proof. done. Qed.

(** With fuel for twice the text, more fuel changes nothing. *)
Lemma reader_settled fuel : forall s,
  ((2 * length s + 1 <= fuel)%nat -> parse_value (S fuel) s = parse_value fuel s) /\
  ((2 * length s + 2 <= fuel)%nat -> parse_items (S fuel) s = parse_items fuel s) /\
  ((2 * length s + 2 <= fuel)%nat -> parse_members (S fuel) s = parse_members fuel s).
Proof.
  induction fuel as [|fuel IH]; intros s; [lia|]. split_and!; intros Hf.
  - cbn [parse_value]. destruct (skip_space s) as [|c rest] eqn:E; [done|]. apply after_space in E.
    destruct (IH rest) as (_ & IHi & IHm). by rewrite IHi, IHm by lia.
  - rewrite (parse_items_S (S fuel)), (parse_items_S fuel). rewrite (proj1 (IH s)) by lia.
    pose proof (reader_shrinks fuel s) as (Hs & _).
    destruct (parse_value fuel s) as [[v r]|]; [|done]. cbn [mbind option_bind fst snd shrinks] in *.
    destruct (skip_space r) as [|c rest] eqn:E; [done|]. apply after_space in E.
    destruct (IH rest) as (_ & IHi & _). by rewrite IHi by lia.
  - rewrite (parse_members_S (S fuel)), (parse_members_S fuel).
    destruct (skip_space s) as [|c rest] eqn:E; [done|]. apply after_space in E.
    destruct (parse_units rest) as [[k t]|] eqn:Ek; [|done].
    pose proof (parse_units_shrinks rest) as Hk. rewrite Ek in Hk.
    cbn [mbind option_bind fst snd shrinks] in *.
    destruct (skip_space t) as [|c1 t1] eqn:E1; [done|]. apply after_space in E1.
    rewrite (proj1 (IH t1)) by lia.
    pose proof (reader_shrinks fuel t1) as (Hs & _).
    destruct (parse_value fuel t1) as [[v r]|]; [|done]. cbn [mbind option_bind fst snd shrinks] in *.
    destruct (skip_space r) as [|c2 r2] eqn:E2; [done|]. apply after_space in E2.
    destruct (IH r2) as (_ & _ & IHm). by rewrite IHm by lia.
Qed.

Lemma parse_fuel_enough s n : parse_value (n + parse_fuel s) s = parse_value (parse_fuel s) s.
Proof.
  induction n as [|n IH]; [done|]. cbn [Nat.add]. rewrite <- IH.
  apply (reader_settled (n + parse_fuel s) s). unfold parse_fuel. lia.
Qed.

(** *** Objects as maps *)

Lemma enumerated_before_trans a b c :
  enumerated_before a b = true -> enumerated_before b c = true -> enumerated_before a c = true.
Proof.
  unfold enumerated_before. intros [Ha H1]%andb_true_iff [Hb H2]%andb_true_iff. rewrite Ha, Hb in *.
  cbn in *. destruct (is_index c); [|done]. cbn in *. bool_to_prop. lia.
Qed.

Lemma obj_set_elem k v l k' v' : (k', v') ∈ obj_set k v l -> (k', v') = (k, v) \/ (k', v') ∈ l.
Proof.
  induction l as [|kv l IH]; cbn.
  - rewrite list_elem_of_singleton. by left.
  - repeat case_match; rewrite !elem_of_cons; naive_solver.
Qed.

Lemma obj_set_has k v l : (k, v) ∈ obj_set k v l.
Proof. induction l as [|kv l IH]; cbn; repeat case_match; set_solver. Qed.

Lemma obj_set_keeps k v l k' v' : k' <> k -> (k', v') ∈ l -> (k', v') ∈ obj_set k v l.
Proof.
  intros Hne. induction l as [|kv l IH]; cbn; [by rewrite elem_of_nil|].
  rewrite elem_of_cons. intros [<-|H]; cbn.
  - rewrite bool_decide_eq_false_2 by done. case_match; set_solver.
  - repeat case_match; set_solver.
Qed.

Lemma forallb_elem {A} (p : A -> bool) l x : forallb p l = true -> x ∈ l -> p x = true.
Proof. rewrite forallb_forall. intros H Hx. by apply H, list_elem_of_In. Qed.

Lemma enumerated_set k v l : enumerated l = true -> enumerated (obj_set k v l) = true.
Proof.
  induction l as [|[h x] l IH]; [done|]. intros H. cbn in H. apply andb_true_iff in H as [Hh Hl].
  cbn. case_bool_decide as E; [subst; cbn; by rewrite Hh, Hl|].
  destruct (enumerated_before k h) eqn:Eb; cbn; apply andb_true_iff; (split; [|auto]).
  - rewrite (bool_decide_eq_false_2 (k = h)) by done. cbn.
    assert (Hkh : enumerated_before h k = false).
    { destruct (enumerated_before h k) eqn:E2; [|done].
      pose proof (enumerated_before_trans _ _ _ Eb E2) as E3. unfold enumerated_before in E3.
      apply andb_true_iff in E3 as [Hi E3]. rewrite Hi in E3. cbn in E3. bool_to_prop. lia. }
    rewrite Hkh. cbn. apply forallb_forall. intros [y z] Hy%list_elem_of_In.
    pose proof (forallb_elem _ _ _ Hh Hy) as Hy'. cbn in *.
    apply andb_true_iff in Hy' as [H1 H2]. apply negb_true_iff in H1, H2.
    apply andb_true_iff. split; apply negb_true_iff.
    + apply bool_decide_eq_false_2. intros ->. congruence.
    + destruct (enumerated_before y k) eqn:E2; [|done].
      by rewrite (enumerated_before_trans _ _ _ E2 Eb) in H2.
  - by rewrite Hh, Hl.
  - apply forallb_forall. intros [y z] Hy%list_elem_of_In.
    apply obj_set_elem in Hy as [[= -> ->]|Hy]; cbn.
    + rewrite Eb, bool_decide_eq_false_2 by done. done.
    + apply (forallb_elem _ _ _ Hh Hy).
Qed.

Lemma enumerated_nodup l : enumerated l = true -> NoDup (map fst l).
Proof.
  induction l as [|[k v] l IH]; intros H; cbn in *; constructor.
  - apply andb_true_iff in H as [H _]. intros Hk. apply list_elem_of_fmap in Hk as ([y z] & -> & Hy).
    pose proof (forallb_elem _ _ _ H Hy) as Hy'. cbn in Hy'. by rewrite bool_decide_eq_true_2 in Hy'.
  - apply andb_true_iff in H as [_ H]. auto.
Qed.
