(* ===== verification/Utf8.v ===== *)
(** * UTF-8, as [TextEncoder] writes and [TextDecoder] reads it

    The decoder is the streaming one: what a chunk leaves unfinished waits for the next. *)
From S2P Require Import Prelude UString Json.
Local Open Scope Z_scope.

(** ** Writing *)

(** The code points of a string; a lone surrogate is U+FFFD. *)
Fixpoint code_points (s : ustring) : list Z :=
  match s with
  | [] => []
  | a :: rest =>
      match rest with
      | b :: rest' =>
          if is_lead a && is_trail b then 0x10000 + 1024 * (a - 0xd800) + (b - 0xdc00) :: code_points rest'
          else (if is_lead a || is_trail a then 0xfffd else a) :: code_points rest
      | [] => [if is_lead a || is_trail a then 0xfffd else a]
      end
  end.

Definition utf8_char (c : Z) : list Z :=
  if c <? 0x80 then [c]
  else if c <? 0x800 then [0xc0 + c / 64; 0x80 + c mod 64]
  else if c <? 0x10000 then [0xe0 + c / 4096; 0x80 + c / 64 mod 64; 0x80 + c mod 64]
  else [0xf0 + c / 262144; 0x80 + c / 4096 mod 64; 0x80 + c / 64 mod 64; 0x80 + c mod 64].

Definition utf8 (s : ustring) : list Z := flat_map utf8_char (code_points s).

(** ** Reading *)

Definition units_of (c : Z) : ustring :=
  if c <? 0x10000 then [c] else [0xd800 + (c - 0x10000) / 1024; 0xdc00 + (c - 0x10000) mod 1024].

Definition continues (lo hi b : Z) : bool := (lo <=? b) && (b <=? hi).

(** The bytes that may follow a first byte, and what it contributes; nothing for a byte that begins
    no sequence. *)
Definition first_byte (b : Z) : option (Z * list (Z * Z)) :=
  let any := (0x80, 0xbf) in
  if b <? 0x80 then Some (b, [])
  else if b <? 0xc2 then None
  else if b <? 0xe0 then Some (b - 0xc0, [any])
  else if b <? 0xf0 then
    Some (b - 0xe0, [if b =? 0xe0 then (0xa0, 0xbf) else if b =? 0xed then (0x80, 0x9f) else any; any])
  else if b <? 0xf5 then
    Some (b - 0xf0, [if b =? 0xf0 then (0x90, 0xbf) else if b =? 0xf4 then (0x80, 0x8f) else any; any; any])
  else None.

(** A sequence is complete, broken by a byte that cannot follow (which is read again), or cut short. *)
Inductive Sequence := Complete (c : Z) (rest : list Z) | Broken (rest : list Z) | Cut.

Fixpoint sequence (acc : Z) (want : list (Z * Z)) (s : list Z) : Sequence :=
  match want with
  | [] => Complete acc s
  | (lo, hi) :: want =>
      match s with
      | [] => Cut
      | b :: rest => if continues lo hi b then sequence (64 * acc + (b - 0x80)) want rest else Broken s
      end
  end.

(** The units a chunk completes, and the bytes that wait. *)
Fixpoint decode_chunk (fuel : nat) (s : list Z) : ustring * list Z :=
  match fuel, s with
  | S fuel, b :: rest =>
      match first_byte b with
      | None => let '(u, w) := decode_chunk fuel rest in (0xfffd :: u, w)
      | Some (acc, want) =>
          match sequence acc want rest with
          | Complete c rest => let '(u, w) := decode_chunk fuel rest in (units_of c ++ u, w)
          | Broken rest => let '(u, w) := decode_chunk fuel rest in (0xfffd :: u, w)
          | Cut => ([], s)
          end
      end
  | _, _ => ([], s)
  end.

(** [decoder.decode(chunk, { stream: true })] with [waiting] bytes of earlier chunks: each round takes
    a byte. *)
Definition decode_more (waiting chunk : list Z) : ustring * list Z :=
  decode_chunk (length (waiting ++ chunk)) (waiting ++ chunk).

(** [decoder.decode()] at the end: bytes that still wait are one replacement character. *)
Definition decode_end (waiting : list Z) : ustring := match waiting with [] => [] | _ => [0xfffd] end.

Fixpoint decode_all (waiting : list Z) (chunks : list (list Z)) : ustring :=
  match chunks with
  | [] => decode_end waiting
  | chunk :: chunks => let '(u, waiting) := decode_more waiting chunk in u ++ decode_all waiting chunks
  end.

(** ** What is read is what was written *)

(** No lone surrogates. *)
Fixpoint well_formed (s : ustring) : bool :=
  match s with
  | [] => true
  | a :: rest =>
      (0 <=? a) && (a <? 0x10000) &&
      match rest with
      | b :: rest' => if is_lead a && is_trail b then well_formed rest' else negb (is_lead a) && negb (is_trail a) && well_formed rest
      | [] => negb (is_lead a) && negb (is_trail a)
      end
  end.

Definition scalar (c : Z) : Prop := 0 <= c < 0xd800 \/ 0xe000 <= c < 0x110000.

Lemma strong_length {A} (P : list A -> Prop) : (forall l, (forall k, (length k < length l)%nat -> P k) -> P l) -> forall l, P l.
Proof.
  intros Hs l. remember (length l) as n eqn:Hn. revert l Hn. induction n as [n IH] using lt_wf_ind.
  intros l ->. apply Hs. intros k Hk. by eapply IH.
Qed.

Lemma is_lead_spec a : is_lead a = true <-> 0xd800 <= a <= 0xdbff.
Proof. unfold is_lead. lia. Qed.
Lemma is_trail_spec a : is_trail a = true <-> 0xdc00 <= a <= 0xdfff.
Proof. unfold is_trail. lia. Qed.

Lemma code_points_spec s : well_formed s = true -> Forall scalar (code_points s) /\ concat (map units_of (code_points s)) = s.
Proof.
  induction s as [s IH] using strong_length. destruct s as [|a [|b rest]]; [by split|..]; cbn [well_formed code_points].
  - intros H. apply andb_true_iff in H as [Hr H]. unfold is_lead, is_trail in *.
    assert (((0xd800 <=? a) && (a <=? 0xdbff) || (0xdc00 <=? a) && (a <=? 0xdfff)) = false) as -> by lia.
    split; [constructor; [unfold scalar; lia|done]|]. cbn. unfold units_of. by rewrite (proj2 (Z.ltb_lt a 0x10000)) by lia.
  - intros H. apply andb_true_iff in H as [Hr H]. destruct (is_lead a && is_trail b) eqn:Hp.
    + apply andb_true_iff in Hp as [Hl%is_lead_spec Ht%is_trail_spec]. destruct (IH rest) as [Hf Hc]; [cbn; lia|done|].
      split; [constructor; [unfold scalar; lia|done]|]. cbn. rewrite Hc. unfold units_of.
      rewrite (proj2 (Z.ltb_ge _ _)) by lia. cbn. f_equal; [|f_equal]; Z.to_euclidean_division_equations; lia.
    + apply andb_true_iff in H as [Hn H]. destruct (IH (b :: rest)) as [Hf Hc]; [cbn; lia|done|].
      assert (is_lead a || is_trail a = false) as -> by (destruct (is_lead a), (is_trail a); done).
      assert (scalar a) by (unfold is_lead, is_trail, scalar in *; lia).
      split; [by constructor|]. change (units_of a ++ concat (map units_of (code_points (b :: rest))) = a :: b :: rest).
      rewrite Hc. unfold units_of. by rewrite (proj2 (Z.ltb_lt a 0x10000)) by lia.
Qed.

(** Decide the comparisons of the goal, by arithmetic where only one way is possible. *)
Ltac by_range := exfalso; Z.to_euclidean_division_equations; lia.
Ltac ranges :=
  repeat match goal with
  | |- context [?a <? ?b] => destruct (Z.ltb_spec a b); try by_range
  | |- context [?a <=? ?b] => destruct (Z.leb_spec a b); try by_range
  | |- context [?a =? ?b] => destruct (Z.eqb_spec a b); try by_range
  end.

(** One character, whatever follows. *)
Lemma sequence_char c rest : scalar c -> exists b tail, utf8_char c = b :: tail /\ exists acc want, first_byte b = Some (acc, want) /\
  sequence acc want (tail ++ rest) = Complete c rest /\
  forall cut, (cut < length tail)%nat -> sequence acc want (take cut tail) = Cut.
Proof.
  intros Hc. unfold scalar in Hc. unfold utf8_char, first_byte. ranges; do 2 eexists; (split; [reflexivity|]).
  all: ranges; do 2 eexists; (split; [reflexivity|]); cbn; unfold continues; ranges; cbn; (split; [f_equal; Z.to_euclidean_division_equations; lia|]).
  all: intros [|[|[|cut]]] Hcut; cbn in Hcut; try lia; cbn; unfold continues; ranges; done.
Qed.

Lemma decode_char fuel c rest : scalar c -> decode_chunk (S fuel) (utf8_char c ++ rest) =
  let '(u, w) := decode_chunk fuel rest in (units_of c ++ u, w).
Proof.
  intros Hc. destruct (sequence_char c rest Hc) as (b & tail & -> & acc & want & Hf & Hs & _). cbn [app decode_chunk]. by rewrite Hf, Hs.
Qed.

(** A character cut short waits. *)
Definition unfinished (t : list Z) : Prop := t = [] \/ exists c k, scalar c /\ (k < length (utf8_char c))%nat /\ t = take k (utf8_char c).

Lemma decode_unfinished fuel t : unfinished t -> decode_chunk fuel t = ([], t).
Proof.
  intros [->|(c & k & Hc & Hk & ->)]; [by destruct fuel|]. destruct k as [|k]; [by destruct fuel|].
  destruct (sequence_char c [] Hc) as (b & tail & E & acc & want & Hf & _ & Hcut). rewrite E in *. cbn in Hk.
  destruct fuel; [done|]. cbn [take decode_chunk]. by rewrite Hf, Hcut by lia.
Qed.

Lemma utf8_char_length c : (1 <= length (utf8_char c))%nat.
Proof. unfold utf8_char. repeat case_match; cbn; lia. Qed.

Lemma decode_characters cps t : Forall scalar cps -> unfinished t -> forall fuel, (length cps <= fuel)%nat ->
  decode_chunk fuel (flat_map utf8_char cps ++ t) = (concat (map units_of cps), t).
Proof.
  induction cps as [|c cps IH]; intros Hs Ht fuel Hf; cbn [flat_map app map concat]; [by apply decode_unfinished|].
  apply Forall_cons in Hs as [Hc Hs]. destruct fuel as [|fuel]; cbn in Hf; [lia|].
  rewrite <- app_assoc, decode_char, IH by (done || lia). done.
Qed.

(** Cut anywhere, the bytes are whole characters and one that is unfinished. *)
Lemma cut_characters cps p q : Forall scalar cps -> flat_map utf8_char cps = p ++ q ->
  exists cps1 cps2 t, cps = cps1 ++ cps2 /\ p = flat_map utf8_char cps1 ++ t /\ unfinished t /\ flat_map utf8_char cps2 = t ++ q.
Proof.
  revert p. induction cps as [|c cps IH]; intros p Hs Hp.
  - symmetry in Hp. apply app_eq_nil in Hp as [-> ->]. exists [], [], []. split_and!; try done. by left.
  - apply Forall_cons in Hs as [Hc Hs]. cbn [flat_map] in Hp. destruct (decide (length p < length (utf8_char c))%nat) as [Hlt|Hge].
    + exists [], (c :: cps), p. split_and!; try done. right. exists c, (length p). split_and!; [done..|].
      rewrite <- (take_app_le (utf8_char c) (flat_map utf8_char cps) (length p)), Hp, take_app_length by lia. done.
    + assert (p = utf8_char c ++ drop (length (utf8_char c)) p) as Hsplit.
      { rewrite <- (take_drop (length (utf8_char c)) p) at 1. f_equal.
        rewrite <- (take_app_le p q), <- Hp, take_app_length by lia. done. }
      rewrite Hsplit, <- app_assoc in Hp. apply app_inv_head in Hp. destruct (IH _ Hs Hp) as (cps1 & cps2 & t & -> & Hd & Ht & Hq).
      exists (c :: cps1), cps2, t. split_and!; try done. cbn [flat_map]. by rewrite <- app_assoc, <- Hd.
Qed.

Lemma flat_map_length_le cps : (length cps <= length (flat_map utf8_char cps))%nat.
Proof. induction cps as [|c cps IH]; cbn; [lia|]. rewrite length_app. pose proof (utf8_char_length c). lia. Qed.

Lemma decode_chunks chunks : forall cps waiting, Forall scalar cps -> unfinished waiting ->
  waiting ++ concat chunks = flat_map utf8_char cps -> decode_all waiting chunks = concat (map units_of cps).
Proof.
  induction chunks as [|chunk chunks IH]; intros cps waiting Hs Hw Hc; cbn [concat decode_all] in *.
  - rewrite app_nil_r in Hc. pose proof (decode_unfinished (length cps) waiting Hw) as H1.
    pose proof (decode_characters cps [] Hs (or_introl eq_refl) (length cps) (Nat.le_refl _)) as H2. rewrite app_nil_r, <- Hc, H1 in H2.
    injection H2 as Hn Hw0. by rewrite Hw0, <- Hn.
  - rewrite app_assoc in Hc. destruct (cut_characters cps _ _ Hs (eq_sym Hc)) as (cps1 & cps2 & t & -> & Hp & Ht & Hq).
    apply Forall_app in Hs as [Hs1 Hs2]. unfold decode_more.
    rewrite Hp, decode_characters; [|done|done|rewrite length_app; pose proof (flat_map_length_le cps1); lia].
    by rewrite (IH cps2 t), map_app, concat_app.
Qed.

(** What is written is read, however the bytes are cut into chunks. *)
Lemma utf8_read_back s chunks : well_formed s = true -> concat chunks = utf8 s -> decode_all [] chunks = s.
Proof.
  intros Hs Hc. destruct (code_points_spec s Hs) as [Hf He]. rewrite <- He. apply decode_chunks; [done|by left|done].
Qed.

(** ** ASCII *)

Definition ascii (s : ustring) : bool := forallb (fun c => (0 <=? c) && (c <? 0x80)) s.

Lemma ascii_code_points s : ascii s = true -> code_points s = s.
Proof.
  induction s as [|a [|b s] IH]; intros Hs; [done|..]; cbn [ascii forallb] in Hs; apply andb_true_iff in Hs as [Ha Hs].
  - cbn. unfold is_lead, is_trail. replace (((0xd800 <=? a) && (a <=? 0xdbff)) || ((0xdc00 <=? a) && (a <=? 0xdfff))) with false by lia. done.
  - specialize (IH Hs). change (code_points (a :: b :: s)) with
      (if is_lead a && is_trail b then 0x10000 + 1024 * (a - 0xd800) + (b - 0xdc00) :: code_points s
       else (if is_lead a || is_trail a then 0xfffd else a) :: code_points (b :: s)).
    rewrite IH. unfold is_lead, is_trail.
    replace ((0xd800 <=? a) && (a <=? 0xdbff)) with false by lia. replace ((0xdc00 <=? a) && (a <=? 0xdfff)) with false by lia. done.
Qed.

Lemma utf8_ascii s : ascii s = true -> utf8 s = s.
Proof.
  intros Hs. unfold utf8. rewrite ascii_code_points by done. unfold ascii in Hs. induction s as [|a s IH]; [done|].
  cbn in Hs. apply andb_true_iff in Hs as [Ha Hs]. cbn. unfold utf8_char at 1. rewrite (proj2 (Z.ltb_lt a 0x80)) by lia.
  cbn. by rewrite IH.
Qed.

(** Every unit takes a byte at least. *)
Lemma utf8_length s : (length s <= length (utf8 s))%nat.
Proof.
  unfold utf8. induction s as [s IH] using strong_length. destruct s as [|a [|b s]]; [done|..].
  - cbn [code_points flat_map]. rewrite app_nil_r. pose proof (utf8_char_length (if is_lead a || is_trail a then 0xfffd else a)). cbn [length]. lia.
  - change (code_points (a :: b :: s)) with
      (if is_lead a && is_trail b then 0x10000 + 1024 * (a - 0xd800) + (b - 0xdc00) :: code_points s
       else (if is_lead a || is_trail a then 0xfffd else a) :: code_points (b :: s)).
    destruct (is_lead a && is_trail b) eqn:Hp; cbn [flat_map]; rewrite length_app.
    + apply andb_true_iff in Hp as [Hl%is_lead_spec Ht%is_trail_spec]. specialize (IH s ltac:(cbn; lia)).
      assert (4 = length (utf8_char (0x10000 + 1024 * (a - 0xd800) + (b - 0xdc00))))%nat as <-; [|cbn [length]; lia].
      unfold utf8_char. ranges. done.
    + specialize (IH (b :: s) ltac:(cbn; lia)). pose proof (utf8_char_length (if is_lead a || is_trail a then 0xfffd else a)). cbn [length] in *. lia.
Qed.
