(* ===== verification/Tar.v ===== *)
(** * The backup archive: [packages/server/src/tar.ts]

    What is written, block by block and before gzip, and a reader of POSIX archives (ustar headers and
    PAX records) that it is measured against. The bytes of a file, and what [stat] said of it, are the
    file system's. *)
From S2P Require Import Prelude UString Json Utf8.
Local Open Scope Z_scope.

Definition BLOCK : nat := 512.

(** ** Numbers *)

(** [n.toString(radix)] of a non-negative integer, for a radix up to ten. *)
Fixpoint radix_aux (r : Z) (fuel : nat) (n : Z) (acc : ustring) : ustring :=
  match fuel with
  | O => acc
  | S fuel => if n <? r then 48 + n :: acc else radix_aux r fuel (n / r) (48 + n mod r :: acc)
  end.
Definition to_octal (n : Z) : ustring := radix_aux 8 (S (Z.to_nat (Z.log2 n))) n [].

(** [s.padStart(width, "0")]. *)
Definition pad_zeros (width : nat) (s : ustring) : ustring := repeat 48 (width - length s) ++ s.

Definition octal (value : Z) (width : nat) : ustring := pad_zeros (width - 1) (to_octal value) ++ [0].

(** ** Headers *)

(** [block.set(bytes, offset)]. *)
Definition put (bytes : list Z) (offset : nat) (block : list Z) : list Z :=
  take offset block ++ bytes ++ drop (offset + length bytes) block.

Definition sum_bytes (l : list Z) : Z := fold_right Z.add 0 l.

(** The mode is 0o644, which is 420; [mtime] in milliseconds. *)
Definition header (name : ustring) (size mtime : Z) (type : Z) : list Z :=
  let block := repeat 0 BLOCK in
  let block := put (utf8 (take 100 name)) 0 block in
  let block := put (octal 420 8) 100 block in
  let block := put (octal 0 8) 108 block in
  let block := put (octal 0 8) 116 block in
  let block := put (octal size 12) 124 block in
  let block := put (octal (mtime / 1000) 12) 136 block in
  let block := put (repeat 32 8) 148 block in
  let block := put [type] 156 block in
  let block := put (js "ustar" ++ [0]) 257 block in
  let block := put (js "00") 263 block in
  put (pad_zeros 6 (to_octal (sum_bytes block)) ++ [0; 32]) 148 block.

Definition padded (bytes : list Z) : list Z := bytes ++ repeat 0 ((BLOCK - length bytes mod BLOCK) mod BLOCK).

(** A PAX record that says it is [length] long. *)
Definition pax_body (name : ustring) (length : Z) : ustring := decimal length ++ js " path=" ++ name ++ [10].

(** The loop that settles the length, from a guess. *)
Fixpoint pax_loop (fuel : nat) (name : ustring) (guess : Z) : option ustring :=
  match fuel with
  | O => None
  | S fuel =>
      let record := pax_body name (zlen (utf8 (pax_body name guess))) in
      if zlen (utf8 record) =? guess then Some record else pax_loop fuel name (zlen record)
  end.

(** Two rounds settle it, where it can be settled ([pax_settles], [pax_diverges]). *)
Definition pax_record (name : ustring) : option ustring := pax_loop 2 name (zlen (pax_body name 0)).

Definition headers (name : ustring) (size mtime : Z) : option (list Z) :=
  if (length (utf8 name) <=? 100)%nat then Some (header name size mtime 48)
  else
    record ← pax_record name;
    let bytes := utf8 record in
    Some (header (js "PaxHeader") (zlen bytes) mtime 120 ++ padded bytes ++ header name size mtime 48).

(** ** Entries *)

(** Bytes in hand, at a time; or a file, as [stat] found it and as its first [size] bytes were read. *)
Inductive Source := InHand (bytes : list Z) (now : Z) | OnDisk (size mtime : Z) (read : list Z).
Record TarEntry := { t_name : ustring; t_source : Source }.

Definition entry_blocks (e : TarEntry) : option (list Z) :=
  match t_source e with
  | InHand bytes now => h ← headers (t_name e) (zlen bytes) now; Some (h ++ padded bytes)
  | OnDisk size mtime read =>
      h ← headers (t_name e) size mtime;
      let read := if 0 <? size then read else [] in
      Some (h ++ read ++ repeat 0 (Z.to_nat size - length read) ++
            repeat 0 ((BLOCK - Z.to_nat size mod BLOCK) mod BLOCK))
  end.

Fixpoint entriesOf (entries : list TarEntry) : option (list Z) :=
  match entries with
  | [] => Some (repeat 0 (BLOCK * 2))
  | e :: entries => b ← entry_blocks e; rest ← entriesOf entries; Some (b ++ rest)
  end.

(** ** A reader *)

Definition field (offset len : nat) (block : list Z) : list Z := take len (drop offset block).

Fixpoint until_nul (s : list Z) : list Z :=
  match s with [] => [] | c :: s => if c =? 0 then [] else c :: until_nul s end.

(** The octal number a field begins with. *)
Fixpoint octal_value (acc : Z) (s : list Z) : Z :=
  match s with [] => acc | c :: s => if (48 <=? c) && (c <=? 55) then octal_value (8 * acc + (c - 48)) s else acc end.

Definition checksum_holds (block : list Z) : bool := octal_value 0 (field 148 8 block) =? sum_bytes (put (repeat 32 8) 148 block).

(** A run of digits, and what follows. *)
Fixpoint read_digits (acc : Z) (s : list Z) : Z * list Z :=
  match s with
  | c :: rest => if is_digit c then read_digits (10 * acc + (c - 48)) rest else (acc, s)
  | [] => (acc, s)
  end.

(** The [path] of a PAX record: "length path=value newline", the length counting all of it. *)
Definition read_pax (data : list Z) : option (list Z) :=
  let '(len, _) := read_digits 0 data in
  let record := take (Z.to_nat len) data in
  match read_digits 0 record with
  | (_, rest) =>
      if starts_with (js " path=") rest && ends_with [10] rest then Some (removelast (drop 6 rest)) else None
  end.

Fixpoint read_archive (fuel : nat) (path : option (list Z)) (s : list Z) : option (list (list Z * list Z)) :=
  match fuel with
  | O => None
  | S fuel =>
      let block := take BLOCK s in
      let rest := drop BLOCK s in
      if (length block <? BLOCK)%nat then None
      else if forallb (Z.eqb 0) block then Some []
      else if negb (checksum_holds block) then None
      else
        let size := Z.to_nat (octal_value 0 (field 124 12 block)) in
        let data := take size rest in
        let after := drop (size + (BLOCK - size mod BLOCK) mod BLOCK) rest in
        match nth 156 block 0 with
        | 120 => p ← read_pax data; read_archive fuel (Some p) after
        | 48 =>
            files ← read_archive fuel None after;
            Some ((default (until_nul (field 0 100 block)) path, data) :: files)
        | _ => None
        end
  end.

(** ** Digits *)

Lemma decimal_radix fuel n acc : decimal_aux fuel n acc = radix_aux 10 fuel n acc.
Proof. revert n acc. induction fuel as [|fuel IH]; intros n acc; [done|]. cbn. by destruct (n <? 10). Qed.

Lemma radix_acc r fuel n acc : radix_aux r fuel n acc = radix_aux r fuel n [] ++ acc.
Proof.
  revert n acc. induction fuel as [|fuel IH]; intros n acc; [done|]. cbn. destruct (n <? r); [done|].
  rewrite IH, (IH _ [_]), <- app_assoc. done.
Qed.

Lemma radix_fuel r f1 : forall f2 n, 2 <= r -> 0 <= n < 2 ^ Z.of_nat f1 -> n < 2 ^ Z.of_nat f2 -> (1 <= f1)%nat -> (1 <= f2)%nat ->
  radix_aux r f1 n [] = radix_aux r f2 n [].
Proof.
  induction f1 as [|f1 IH]; intros [|f2] n Hr H1 H2 Hf1 Hf2; [lia..|]. cbn. destruct (Z.ltb_spec n r); [done|].
  rewrite radix_acc, (radix_acc r f2). f_equal.
  rewrite Nat2Z.inj_succ, Z.pow_succ_r in H1, H2 by lia.
  assert (n / r <= n / 2) by (apply Z.div_le_compat_l; lia).
  assert (n / 2 < 2 ^ Z.of_nat f1 /\ n / 2 < 2 ^ Z.of_nat f2) as [Hd1 Hd2] by (split; apply Z.div_lt_upper_bound; lia).
  assert (1 <= n / r) by (apply Z.div_le_lower_bound; lia).
  destruct f1 as [|f1]; [cbn in Hd1; lia|]. destruct f2 as [|f2]; [cbn in Hd2; lia|].
  apply IH; lia.
Qed.

Definition radix (r n : Z) : ustring := radix_aux r (S (Z.to_nat (Z.log2 n))) n [].

Lemma log2_fuel n : 0 <= n -> n < 2 ^ Z.of_nat (S (Z.to_nat (Z.log2 n))).
Proof.
  intros Hn. rewrite Nat2Z.inj_succ, Z2Nat.id by apply Z.log2_nonneg.
  destruct (Z.eq_dec n 0) as [->|]; [done|]. apply Z.log2_spec. lia.
Qed.

Lemma radix_unfold r n : 2 <= r -> 0 <= n -> radix r n = if n <? r then [48 + n] else radix r (n / r) ++ [48 + n mod r].
Proof.
  intros Hr Hn. unfold radix at 1. cbn [radix_aux]. destruct (Z.ltb_spec n r); [done|]. rewrite radix_acc. f_equal.
  pose proof (log2_fuel n Hn) as Hf. rewrite Nat2Z.inj_succ, Z.pow_succ_r in Hf by lia.
  assert (1 <= n / r) by (apply Z.div_le_lower_bound; lia).
  assert (n / r <= n / 2) by (apply Z.div_le_compat_l; lia).
  assert (n / 2 < 2 ^ Z.of_nat (Z.to_nat (Z.log2 n))) by (apply Z.div_lt_upper_bound; lia).
  unfold radix. pose proof (log2_fuel (n / r) ltac:(lia)). apply radix_fuel; try lia.
  destruct (Z.to_nat (Z.log2 n)); [cbn in *; lia|lia].
Qed.

Lemma decimal_is_radix n : decimal n = radix 10 n.
Proof. apply decimal_radix. Qed.

(** The number of digits. *)
Definition digits (n : Z) : Z := zlen (decimal n).

Lemma digits_unfold n : 0 <= n -> digits n = if n <? 10 then 1 else digits (n / 10) + 1.
Proof.
  intros Hn. unfold digits. rewrite decimal_is_radix, radix_unfold by lia. destruct (n <? 10); [done|].
  rewrite decimal_is_radix, length_app. cbn. lia.
Qed.

Lemma digits_pos n : 0 <= n -> 1 <= digits n.
Proof. intros Hn. unfold digits. destruct (decimal_spec n Hn) as [Hd _]. destruct (decimal n); [done|]. cbn. lia. Qed.

Lemma digits_mono n : 0 <= n -> forall m, n <= m -> digits n <= digits m.
Proof.
  intros Hn. revert n Hn. refine (Zlt_0_ind _ _). intros n IH Hn m Hm. rewrite (digits_unfold n), (digits_unfold m) by lia.
  destruct (Z.ltb_spec n 10), (Z.ltb_spec m 10); try lia.
  - pose proof (digits_pos (m / 10) ltac:(apply Z.div_pos; lia)). lia.
  - assert (n / 10 < n) by (apply Z.div_lt; lia). assert (0 <= n / 10) by (apply Z.div_pos; lia).
    specialize (IH (n / 10) ltac:(lia) (m / 10) ltac:(apply Z.div_le_mono; lia)). lia.
Qed.

(** One digit more at most for a number ten times as large. *)
Lemma digits_step a b : 1 <= a -> 0 <= b <= 10 * a -> digits b <= digits a + 1.
Proof.
  intros Ha Hb. rewrite (digits_unfold b) by lia. destruct (Z.ltb_spec b 10); [pose proof (digits_pos a); lia|].
  pose proof (digits_mono (b / 10) ltac:(apply Z.div_pos; lia) a ltac:(apply Z.div_le_upper_bound; lia)). lia.
Qed.

Lemma digits_le n : 1 <= n -> digits n <= n.
Proof.
  intros Hn. assert (0 <= n) as H0 by lia. revert n H0 Hn. refine (Zlt_0_ind _ _). intros n IH H0 Hn.
  rewrite digits_unfold by lia. destruct (Z.ltb_spec n 10); [lia|].
  specialize (IH (n / 10) ltac:(split; [apply Z.div_pos|apply Z.div_lt]; lia) ltac:(apply Z.div_le_lower_bound; lia)).
  assert (n / 10 < n) by (apply Z.div_lt; lia). lia.
Qed.

(** ** The length of a PAX record *)

Lemma ascii_decimal n : 0 <= n -> ascii (decimal n) = true.
Proof.
  intros Hn. destruct (decimal_spec n Hn) as (_ & Hd & _). unfold ascii. apply forallb_forall. intros c Hc.
  rewrite Forall_forall in Hd. specialize (Hd c ltac:(by apply list_elem_of_In)). lia.
Qed.

Lemma ascii_app a b : ascii (a ++ b) = ascii a && ascii b.
Proof. apply forallb_app. Qed.

(** Text in ASCII before or after changes neither part. *)
Lemma code_points_ascii a s : ascii a = true -> code_points (a ++ s) = a ++ code_points s.
Proof.
  induction a as [|c a IH]; intros Ha; [done|]. cbn [ascii forallb] in Ha. apply andb_true_iff in Ha as [Hc Ha]. specialize (IH Ha).
  cbn [app]. destruct (a ++ s) as [|b rest] eqn:E.
  - apply app_eq_nil in E as [-> ->]. cbn. unfold is_lead, is_trail.
    replace (((0xd800 <=? c) && (c <=? 0xdbff)) || ((0xdc00 <=? c) && (c <=? 0xdfff))) with false by lia. done.
  - rewrite <- IH. change (code_points (c :: b :: rest)) with
      (if is_lead c && is_trail b then 0x10000 + 1024 * (c - 0xd800) + (b - 0xdc00) :: code_points rest
       else (if is_lead c || is_trail c then 0xfffd else c) :: code_points (b :: rest)).
    unfold is_lead, is_trail. replace ((0xd800 <=? c) && (c <=? 0xdbff)) with false by lia.
    by replace ((0xdc00 <=? c) && (c <=? 0xdfff)) with false by lia.
Qed.

Lemma utf8_ascii_app a s : ascii a = true -> utf8 (a ++ s) = a ++ utf8 s.
Proof.
  intros Ha. unfold utf8. rewrite code_points_ascii, flat_map_app by done. f_equal.
  by rewrite <- (utf8_ascii a Ha) at 2; unfold utf8; rewrite ascii_code_points.
Qed.

Lemma utf8_app_ascii s c : 0 <= c < 0x80 -> utf8 (s ++ [c]) = utf8 s ++ [c].
Proof.
  intros Hc. unfold utf8. assert (code_points (s ++ [c]) = code_points s ++ [c]) as ->.
  { induction s as [s IH] using strong_length. destruct s as [|a [|b s]]; cbn [app].
    - cbn. unfold is_lead, is_trail. replace (((0xd800 <=? c) && (c <=? 0xdbff)) || ((0xdc00 <=? c) && (c <=? 0xdfff))) with false by lia. done.
    - cbn. unfold is_lead, is_trail. replace ((0xdc00 <=? c) && (c <=? 0xdfff)) with false by lia. rewrite andb_false_r.
      replace (((0xd800 <=? c) && (c <=? 0xdbff)) || false) with false by lia. done.
    - change (code_points (a :: b :: s ++ [c])) with
        (if is_lead a && is_trail b then 0x10000 + 1024 * (a - 0xd800) + (b - 0xdc00) :: code_points (s ++ [c])
         else (if is_lead a || is_trail a then 0xfffd else a) :: code_points ((b :: s) ++ [c])).
      change (code_points (a :: b :: s)) with
        (if is_lead a && is_trail b then 0x10000 + 1024 * (a - 0xd800) + (b - 0xdc00) :: code_points s
         else (if is_lead a || is_trail a then 0xfffd else a) :: code_points (b :: s)).
      rewrite !IH by (cbn; lia). by destruct (is_lead a && is_trail b). }
  rewrite flat_map_app. f_equal. cbn. unfold utf8_char. by rewrite (proj2 (Z.ltb_lt c 0x80)) by lia.
Qed.

Lemma utf8_pax_body name n : 0 <= n -> utf8 (pax_body name n) = decimal n ++ js " path=" ++ utf8 name ++ [10].
Proof.
  intros Hn. unfold pax_body. rewrite utf8_ascii_app by by apply ascii_decimal. by rewrite utf8_ascii_app, utf8_app_ascii.
Qed.

Lemma pax_body_units name n : zlen (pax_body name n) = digits n + 7 + zlen name.
Proof. unfold pax_body, digits. rewrite !length_app. cbn. lia. Qed.

Lemma pax_body_bytes name n : 0 <= n -> zlen (utf8 (pax_body name n)) = digits n + 7 + zlen (utf8 name).
Proof. intros Hn. rewrite utf8_pax_body by done. unfold digits. rewrite !length_app. cbn. lia. Qed.

Lemma pax_round fuel name g : 0 <= g -> let n := digits g + 7 + zlen (utf8 name) in
  pax_loop (S fuel) name g =
  if digits n + 7 + zlen (utf8 name) =? g then Some (pax_body name n) else pax_loop fuel name (digits n + 7 + zlen name).
Proof.
  intros Hg n. pose proof (digits_pos g Hg). cbn [pax_loop]. rewrite (pax_body_bytes name g Hg). fold n.
  by rewrite pax_body_bytes, pax_body_units by lia.
Qed.

(** A name in ASCII: two rounds. *)
Lemma pax_settles name : zlen (utf8 name) = zlen name -> exists n, pax_record name = Some (pax_body name n) /\ 0 <= n /\
  zlen (utf8 (pax_body name n)) = n.
Proof.
  intros Hu. unfold pax_record. rewrite pax_body_units. change (digits 0) with 1. set (L0 := 1 + 7 + zlen name).
  set (m1 := digits L0 + 7 + zlen name). set (L1 := digits m1 + 7 + zlen name). set (m2 := digits L1 + 7 + zlen name).
  assert (L0 = 1 + 7 + zlen name) as EL0 by done. assert (m1 = digits L0 + 7 + zlen name) as Em1 by done.
  assert (L1 = digits m1 + 7 + zlen name) as EL1 by done. assert (m2 = digits L1 + 7 + zlen name) as Em2 by done.
  pose proof (digits_pos L0 ltac:(lia)). pose proof (digits_le L0 ltac:(lia)). pose proof (digits_pos m1 ltac:(lia)).
  pose proof (digits_le m1 ltac:(lia)). pose proof (digits_pos L1 ltac:(lia)).
  pose proof (digits_mono L0 ltac:(lia) m1 ltac:(lia)) as Hm1. pose proof (digits_mono m1 ltac:(lia) L1 ltac:(lia)) as HL1.
  pose proof (digits_step L0 L1 ltac:(lia) ltac:(lia)) as Hst.
  assert (digits L1 = digits m1) as E1.
  { destruct (Z.eq_dec (digits L0) (digits m1)) as [E|E]; [|lia]. assert (L1 = m1) as E' by lia. by rewrite E'. }
  assert (m2 = L1) as E2 by lia.
  rewrite pax_round, Hu by lia. fold m1. fold L1. destruct (Z.eqb_spec L1 L0) as [E|E].
  - exists m1. assert (m1 = L1) as E3 by lia. split_and!; [done|lia|]. rewrite pax_body_bytes, Hu by lia. fold L1. lia.
  - rewrite pax_round, Hu by lia. fold m2. rewrite E2, E1. fold L1. rewrite Z.eqb_refl. exists L1. split_and!; [done|lia|].
    rewrite pax_body_bytes, Hu by lia. rewrite E1. done.
Qed.

(** A name with a character outside ASCII: the guess counts units and the record bytes, and the loop
    never ends. *)
Lemma pax_diverges name : zlen name < zlen (utf8 name) -> forall fuel, pax_loop fuel name (zlen (pax_body name 0)) = None.
Proof.
  intros Hu fuel. rewrite pax_body_units. change (digits 0) with 1.
  set (B := zlen (utf8 name)) in *. set (U := zlen name) in *.
  assert (forall g d, g = d + 7 + U -> 1 <= d <= digits (digits g + 7 + B) -> pax_loop fuel name g = None) as Hg.
  { induction fuel as [|fuel IH]; intros g d Hg Hd; [done|]. assert (0 <= U) by lia. pose proof (digits_pos g ltac:(lia)).
    rewrite pax_round by lia. fold B U. set (n := digits g + 7 + B) in *. assert (n = digits g + 7 + B) as Hn by done.
    destruct (Z.eqb_spec (digits n + 7 + B) g) as [E|E]; [lia|]. apply (IH _ (digits n)); [done|].
    split; [lia|]. apply digits_mono; [lia|]. pose proof (digits_mono g ltac:(lia) (digits n + 7 + U) ltac:(lia)). lia. }
  apply (Hg _ 1); [lia|]. split; [lia|]. apply digits_pos. pose proof (digits_pos (1 + 7 + U) ltac:(lia)). lia.
Qed.

(** ** Fields *)

Lemma put_over a x b c : length x = length b -> put b (length a) (a ++ x ++ c) = a ++ b ++ c.
Proof.
  intros Hx. unfold put. rewrite take_app_length. f_equal. f_equal. rewrite drop_app_ge by lia.
  replace (length a + length b - length a)%nat with (length x) by lia. by rewrite drop_app_length.
Qed.

Lemma field_at a b c : field (length a) (length b) (a ++ b ++ c) = b.
Proof. unfold field. by rewrite drop_app_length, take_app_length. Qed.

Lemma put_length bytes off block : (off + length bytes <= length block)%nat -> length (put bytes off block) = length block.
Proof. intros H. unfold put. rewrite !length_app, length_take, length_drop. lia. Qed.

Lemma put_at off a x b c : length a = off -> length x = length b -> put b off (a ++ x ++ c) = a ++ b ++ c.
Proof. intros <-. apply put_over. Qed.

Lemma take_at off len a b c : length a = off -> length b = len -> field off len (a ++ b ++ c) = b.
Proof. intros <- <-. apply field_at. Qed.

Definition octal_fold (acc : Z) (s : list Z) : Z := fold_left (fun a c => 8 * a + (c - 48)) s acc.
Definition octal_digit (c : Z) : Prop := 48 <= c <= 55.

Lemma octal_value_digits ds acc rest : Forall octal_digit ds -> octal_value acc (ds ++ rest) = octal_value (octal_fold acc ds) rest.
Proof.
  revert acc. induction ds as [|c ds IH]; intros acc Hds; [done|]. apply Forall_cons in Hds as [Hc Hds]. unfold octal_digit in Hc.
  cbn. replace ((48 <=? c) && (c <=? 55)) with true by lia. by apply IH.
Qed.

Lemma to_octal_spec n : 0 <= n -> Forall octal_digit (to_octal n) /\ octal_fold 0 (to_octal n) = n /\
  forall k, n < 8 ^ Z.of_nat k -> (length (to_octal n) <= Nat.max 1 k)%nat.
Proof.
  intros Hn. change (to_octal n) with (radix 8 n). revert n Hn. refine (Zlt_0_ind _ _). intros n IH Hn.
  rewrite (radix_unfold 8 n) by lia. destruct (Z.ltb_spec n 8).
  - split_and!; [repeat constructor; unfold octal_digit; lia|cbn; lia|cbn; lia].
  - pose proof (Z.mod_pos_bound n 8 ltac:(lia)). assert (0 <= n / 8 < n) as Hd by (split; [apply Z.div_pos|apply Z.div_lt]; lia).
    destruct (IH (n / 8) Hd) as (Hf & Hv & Hl). split_and!.
    + apply Forall_app. split; [done|]. repeat constructor; unfold octal_digit; lia.
    + unfold octal_fold in *. rewrite fold_left_app, Hv. cbn. pose proof (Z.div_mod n 8). lia.
    + intros [|k] Hk; [cbn in Hk; lia|]. rewrite Nat2Z.inj_succ, Z.pow_succ_r in Hk by lia.
      assert (n / 8 < 8 ^ Z.of_nat k) as Hk' by (apply Z.div_lt_upper_bound; lia). specialize (Hl k Hk').
      rewrite length_app. cbn [length]. assert (1 <= n / 8) by (apply Z.div_le_lower_bound; lia). destruct k; [change (8 ^ Z.of_nat 0) with 1 in Hk'; lia|lia].
Qed.

(** A field of [width] that holds [value]. *)
Lemma octal_spec value width : 0 <= value < 8 ^ Z.of_nat (width - 1) -> (2 <= width)%nat ->
  length (octal value width) = width /\ forall rest, octal_value 0 (octal value width ++ rest) = value.
Proof.
  intros Hv Hw. destruct (to_octal_spec value ltac:(lia)) as (Hf & Hs & Hl). specialize (Hl (width - 1)%nat ltac:(lia)).
  unfold octal, pad_zeros. split; [rewrite !length_app, repeat_length; cbn [length]; lia|].
  intros rest. assert (forall k, Forall octal_digit (repeat 48 k) /\ octal_fold 0 (repeat 48 k) = 0) as Hz.
  { induction k as [|k [IH1 IH2]]; [by split|]. split; [constructor; [unfold octal_digit; lia|done]|]. exact IH2. }
  rewrite <- !app_assoc. destruct (Hz (width - 1 - length (to_octal value))%nat) as [Hz1 Hz2].
  rewrite octal_value_digits, Hz2, octal_value_digits, Hs by done. done.
Qed.

Lemma checksum_spec n : 0 <= n < 8 ^ 6 -> length (pad_zeros 6 (to_octal n) ++ [0; 32]) = 8%nat /\
  octal_value 0 (pad_zeros 6 (to_octal n) ++ [0; 32]) = n.
Proof.
  intros Hn. destruct (octal_spec n 7 Hn ltac:(lia)) as [Hl Hv]. unfold octal in *. cbn [Nat.sub] in *.
  split; [rewrite length_app in Hl |- *; cbn in Hl |- *; lia|]. specialize (Hv [32]). by rewrite <- app_assoc in Hv.
Qed.

Lemma drop_repeat {A} (x : A) n m : drop n (repeat x m) = repeat x (m - n).
Proof. revert m. induction n as [|n IH]; intros [|m]; try done. apply IH. Qed.

(** A block as the list of its fields, one of which is written. *)
Lemma put_chunk k x b off chunks : chunks !! k = Some x -> length x = length b -> length (concat (take k chunks)) = off ->
  put b off (concat chunks) = concat (<[k:=b]> chunks).
Proof.
  intros Hk Hx Ho. rewrite <- (take_drop_middle chunks k x Hk) at 1. rewrite concat_app. cbn [concat].
  rewrite (put_at off _ x b) by done. rewrite insert_take_drop by by eapply lookup_lt_Some. by rewrite concat_app.
Qed.

(** ** A header's layout *)

Definition name_field (name : ustring) : list Z := utf8 (take 100 name) ++ repeat 0 (100 - length (utf8 (take 100 name))).

(** What stands before the checksum, and after it. *)
Definition before_sum (name : ustring) (size mtime : Z) : list Z :=
  name_field name ++ octal 420 8 ++ octal 0 8 ++ octal 0 8 ++ octal size 12 ++ octal (mtime / 1000) 12.
Definition after_sum (type : Z) : list Z := [type] ++ repeat 0 100 ++ js "ustar" ++ [0] ++ js "00" ++ repeat 0 247.

Definition stamps (size mtime : Z) : Prop := 0 <= size < 8 ^ 11 /\ 0 <= mtime / 1000 < 8 ^ 11.

Local Ltac fits :=
  cbn [take concat lookup list_lookup];
  rewrite ?app_nil_r, ?length_app, ?repeat_length;
  repeat match goal with H : length _ = _ |- _ => rewrite !H end;
  reflexivity.

Lemma header_layout name size mtime type : (length (utf8 (take 100 name)) <= 100)%nat -> stamps size mtime ->
  let sum := sum_bytes (before_sum name size mtime ++ repeat 32 8 ++ after_sum type) in
  0 <= sum < 8 ^ 6 ->
  header name size mtime type = before_sum name size mtime ++ (pad_zeros 6 (to_octal sum) ++ [0; 32]) ++ after_sum type /\
  length (before_sum name size mtime) = 148%nat.
Proof.
  intros Hn [Hs Hm] sum Hsum.
  destruct (octal_spec size 12 Hs ltac:(lia)) as [Ls _]. destruct (octal_spec (mtime / 1000) 12 Hm ltac:(lia)) as [Lm _].
  assert (length (name_field name) = 100%nat) as Ln by (unfold name_field; rewrite length_app, repeat_length; lia).
  assert (length (before_sum name size mtime) = 148%nat) as Lb.
  { unfold before_sum. rewrite !length_app, Ln, Ls, Lm. done. }
  split; [|done]. unfold header.
  assert (put (utf8 (take 100 name)) 0 (repeat 0 BLOCK) = concat [name_field name; repeat 0 8; repeat 0 8; repeat 0 8; repeat 0 12;
    repeat 0 12; repeat 0 8; [0]; repeat 0 100; repeat 0 6; repeat 0 2; repeat 0 247]) as ->.
  { change (repeat 0 BLOCK) with (repeat 0 100 ++ repeat 0 412). unfold put, name_field. cbn [take app Nat.add concat].
    rewrite <- app_assoc, drop_app_le, drop_repeat by (rewrite repeat_length; lia). done. }
  assert (length (octal 420 8) = 8%nat /\ length (octal 0 8) = 8%nat) as [L1 L2] by by vm_compute.
  rewrite (put_chunk 1 (repeat 0 8)) by fits. cbn [insert list_insert].
  rewrite (put_chunk 2 (repeat 0 8)) by fits. cbn [insert list_insert].
  rewrite (put_chunk 3 (repeat 0 8)) by fits. cbn [insert list_insert].
  rewrite (put_chunk 4 (repeat 0 12)) by fits. cbn [insert list_insert].
  rewrite (put_chunk 5 (repeat 0 12)) by fits. cbn [insert list_insert].
  rewrite (put_chunk 6 (repeat 0 8)) by fits. cbn [insert list_insert].
  rewrite (put_chunk 7 [0]) by fits. cbn [insert list_insert].
  rewrite (put_chunk 9 (repeat 0 6)) by fits. cbn [insert list_insert].
  rewrite (put_chunk 10 (repeat 0 2)) by fits. cbn [insert list_insert].
  assert (concat [name_field name; octal 420 8; octal 0 8; octal 0 8; octal size 12; octal (mtime / 1000) 12; repeat 32 8; [type];
    repeat 0 100; js "ustar" ++ [0]; js "00"; repeat 0 247] = before_sum name size mtime ++ repeat 32 8 ++ after_sum type) as E.
  { unfold before_sum, after_sum. cbn [concat]. by rewrite <- !app_assoc. }
  rewrite E. fold sum. apply put_at; [done|]. destruct (checksum_spec sum Hsum) as [-> _]. done.
Qed.

(** ** A header read back *)

Definition byte (b : Z) : Prop := 0 <= b < 256.
(** A name of a file: no NUL, and code units. *)
Definition name_ok (name : ustring) : Prop := Forall (fun c => 0 < c < 0x10000) name.
#[export] Instance name_ok_dec name : Decision (name_ok name).
Proof. unfold name_ok. apply _. Defined.

Lemma utf8_name name : name_ok name -> Forall (fun b => 0 < b < 256) (utf8 name).
Proof.
  intros Hn. assert (Forall (fun c => 0 < c < 0x110000) (code_points name)) as Hc.
  { unfold name_ok in Hn. induction name as [name IH] using strong_length. destruct name as [|a [|b name]]; [constructor|..].
    - apply Forall_cons in Hn as [Ha _]. cbn. destruct (_ || _); repeat constructor; lia.
    - apply Forall_cons in Hn as [Ha Hn]. pose proof Hn as [Hb Hn']%Forall_cons.
      change (code_points (a :: b :: name)) with
        (if is_lead a && is_trail b then 0x10000 + 1024 * (a - 0xd800) + (b - 0xdc00) :: code_points name
         else (if is_lead a || is_trail a then 0xfffd else a) :: code_points (b :: name)).
      destruct (is_lead a && is_trail b) eqn:Hp.
      + apply andb_true_iff in Hp as [Hl%is_lead_spec Ht%is_trail_spec]. constructor; [lia|]. apply IH; [cbn; lia|done].
      + constructor; [destruct (_ || _); lia|]. apply IH; [cbn; lia|done]. }
  unfold utf8. induction (code_points name) as [|c l IH]; [constructor|]. apply Forall_cons in Hc as [Hc Hl].
  cbn. apply Forall_app. split; [|auto]. unfold utf8_char. ranges; repeat constructor; Z.to_euclidean_division_equations; lia.
Qed.

Lemma name_ok_take n name : name_ok name -> name_ok (take n name).
Proof. apply Forall_take. Qed.

Lemma sum_bound l : Forall byte l -> 0 <= sum_bytes l <= 255 * zlen l.
Proof.
  induction 1 as [|b l Hb _ IH]; [done|]. unfold byte in Hb. unfold sum_bytes in *. cbn [fold_right length]. lia.
Qed.

Lemma octal_bytes value width : 0 <= value -> Forall byte (octal value width).
Proof.
  intros Hv. destruct (to_octal_spec value Hv) as (Hf & _ & _). unfold octal, pad_zeros. repeat (apply Forall_app; split).
  - induction (width - 1 - _)%nat; repeat constructor; done || lia.
  - eapply Forall_impl; [exact Hf|]. unfold octal_digit, byte. intros. lia.
  - repeat constructor; lia.
Qed.

Lemma repeat_bytes c n : byte c -> Forall byte (repeat c n).
Proof. intros Hc. induction n; by constructor. Qed.

Lemma before_bytes name size mtime : name_ok name -> stamps size mtime -> Forall byte (before_sum name size mtime).
Proof.
  intros Hn [Hs Hm]. unfold before_sum, name_field. rewrite !Forall_app; split_and!; try (apply octal_bytes; lia).
  - eapply Forall_impl; [by apply utf8_name, name_ok_take|]. unfold byte. cbn. lia.
  - apply repeat_bytes. unfold byte. lia.
Qed.

Lemma after_bytes type : byte type -> Forall byte (after_sum type).
Proof.
  intros Ht. unfold after_sum. rewrite !Forall_app; split_and!; try (apply repeat_bytes; unfold byte; lia).
  all: repeat constructor; unfold byte in *; lia.
Qed.

(** What the reader looks at in a block. *)
Record reads_as (block : list Z) (name : list Z) (size : Z) (type : Z) : Prop := {
  ra_length : length block = BLOCK;
  ra_used : forallb (Z.eqb 0) block = false;
  ra_sum : checksum_holds block = true;
  ra_size : octal_value 0 (field 124 12 block) = size;
  ra_type : nth 156 block 0 = type;
  ra_name : until_nul (field 0 100 block) = name }.

Lemma until_nul_zeros s n : Forall (fun b => 0 < b < 256) s -> until_nul (s ++ repeat 0 n) = s.
Proof.
  induction 1 as [|c s Hc _ IH]; cbn; [by destruct n|]. destruct (Z.eqb_spec c 0); [lia|]. by rewrite IH.
Qed.

Lemma header_reads name size mtime type : name_ok name -> (length (utf8 (take 100 name)) <= 100)%nat -> stamps size mtime ->
  0 < type < 256 -> reads_as (header name size mtime type) (utf8 (take 100 name)) size type.
Proof.
  intros Hn Hl Hst Ht. set (A := before_sum name size mtime). set (C := after_sum type).
  assert (0 <= sum_bytes (A ++ repeat 32 8 ++ C) < 8 ^ 6) as Hsum.
  { assert (length (name_field name) = 100%nat) as Ln by (unfold name_field; rewrite length_app, repeat_length; lia).
    pose proof (sum_bound (A ++ repeat 32 8 ++ C)) as Hb. destruct Hst as [Hs Hm].
    destruct (octal_spec size 12 Hs ltac:(lia)) as [Ls _]. destruct (octal_spec (mtime / 1000) 12 Hm ltac:(lia)) as [Lm _].
    assert (length A = 148%nat) as LA by (unfold A, before_sum; rewrite !length_app, Ln, Ls, Lm; done).
    assert (length (A ++ repeat 32 8 ++ C) = 512%nat) as L by (rewrite !length_app, LA; done). rewrite L in Hb.
    assert (Forall byte (A ++ repeat 32 8 ++ C)) as HF.
    { apply Forall_app. split; [by apply before_bytes|]. apply Forall_app. split; [apply repeat_bytes; unfold byte; lia|].
      apply after_bytes. unfold byte. lia. }
    specialize (Hb HF). change (8 ^ 6) with 262144. lia. }
  destruct (header_layout name size mtime type Hl Hst Hsum) as [-> LA]. fold A C in Hsum, LA |- *.
  destruct (checksum_spec _ Hsum) as [Lk Vk]. set (K := pad_zeros 6 _ ++ [0; 32]) in *.
  split.
  - rewrite !length_app, LA, Lk. done.
  - rewrite !forallb_app. unfold C, after_sum. cbn [app forallb]. replace (0 =? type) with false by lia. by rewrite !andb_false_r.
  - unfold checksum_holds. rewrite (take_at 148 8 A K C LA Lk), Vk, (put_at 148 A K (repeat 32 8) C LA Lk). apply Z.eqb_refl.
  - destruct Hst as [Hs Hm]. destruct (octal_spec size 12 Hs ltac:(lia)) as [Ls Vs].
    destruct (octal_spec (mtime / 1000) 12 Hm ltac:(lia)) as [Lm _].
    assert (length (name_field name) = 100%nat) as Ln by (unfold name_field; rewrite length_app, repeat_length; lia).
    unfold A, before_sum. rewrite <- !app_assoc. rewrite (app_assoc (name_field name)), (app_assoc (name_field name ++ _)), (app_assoc ((name_field name ++ _) ++ _)).
    rewrite take_at; [rewrite <- (app_nil_r (octal size 12)); apply Vs|rewrite !length_app, Ln; done|done].
  - rewrite app_assoc, app_nth2 by (rewrite length_app; lia). rewrite length_app, LA, Lk. done.
  - unfold A, before_sum. rewrite <- !app_assoc. change (field 0 100) with (field (length (@nil Z)) 100).
    assert (length (name_field name) = 100%nat) as Ln by (unfold name_field; rewrite length_app, repeat_length; lia).
    match goal with |- until_nul (field _ _ ?l) = _ => change l with ([] ++ l) end.
    rewrite take_at by done. apply until_nul_zeros. by apply utf8_name, name_ok_take.
Qed.

(** ** An archive read back *)

Definition filler (size : nat) : nat := ((BLOCK - size mod BLOCK) mod BLOCK)%nat.

Lemma read_block fuel path h nm size type data rest : reads_as h nm (Z.of_nat size) type -> length data = size ->
  read_archive (S fuel) path (h ++ data ++ repeat 0 (filler size) ++ rest) =
  match type with
  | 120 => p ← read_pax data; read_archive fuel (Some p) rest
  | 48 => files ← read_archive fuel None rest; Some ((default nm path, data) :: files)
  | _ => None
  end.
Proof.
  intros [Hl Hu Hs Hz Ht Hn] <-. cbn [read_archive]. rewrite <- Hl, take_app_length, drop_app_length.
  replace (length h <? length h)%nat with false by (symmetry; apply Nat.ltb_irrefl). rewrite Hu, Hs, Hz, Ht, Hn, Nat2Z.id, Hl. cbn [negb].
  rewrite take_app_length.
  replace (drop (length data + (BLOCK - length data mod BLOCK) mod BLOCK) (data ++ repeat 0 (filler (length data)) ++ rest)) with rest; [done|].
  fold (filler (length data)). rewrite app_assoc, drop_app_ge; rewrite length_app, repeat_length; [|lia].
  by rewrite Nat.sub_diag.
Qed.

Lemma read_digits_app ds acc rest : Forall (fun c => 48 <= c <= 57) ds -> is_digit (hd 0 rest) = false ->
  read_digits acc (ds ++ rest) = (fold_left (fun n c => 10 * n + (c - 48)) ds acc, rest).
Proof.
  revert acc. induction ds as [|c ds IH]; intros acc Hds Hr.
  - destruct rest as [|c rest]; [done|]. cbn in *. by rewrite Hr.
  - apply Forall_cons in Hds as [Hc Hds]. cbn [app read_digits fold_left]. rewrite (proj2 (is_digit_spec c)) by done. by apply IH.
Qed.

Lemma read_pax_record name n : 0 <= n -> zlen (utf8 (pax_body name n)) = n -> read_pax (utf8 (pax_body name n)) = Some (utf8 name).
Proof.
  intros Hn Hl. unfold read_pax. rewrite utf8_pax_body in * by done. destruct (decimal_spec n Hn) as (_ & Hd & Hv).
  set (r := decimal n ++ js " path=" ++ utf8 name ++ [10]) in *.
  assert (read_digits 0 r = (n, js " path=" ++ utf8 name ++ [10])) as Hr.
  { unfold r. rewrite read_digits_app by done. fold (digits_value (decimal n)). by rewrite Hv. }
  rewrite Hr, take_ge, Hr by lia. change (js " path=") with [32; 112; 97; 116; 104; 61]. cbn [starts_with app].
  assert (ends_with [10] (32 :: 112 :: 97 :: 116 :: 104 :: 61 :: utf8 name ++ [10]) = true) as ->.
  { apply ends_with_spec. by exists (32 :: 112 :: 97 :: 116 :: 104 :: 61 :: utf8 name). }
  transitivity (Some (removelast (utf8 name ++ [10]))); [reflexivity|]. by rewrite removelast_last.
Qed.

Definition content (e : TarEntry) : list Z :=
  match t_source e with
  | InHand bytes _ => bytes
  | OnDisk size _ read => (if 0 <? size then read else []) ++ repeat 0 (Z.to_nat size - length (if 0 <? size then read else []))
  end.

(** A name that fits, or in ASCII; sizes and times a header holds; no more read than was asked for. *)
Record entry_ok (e : TarEntry) : Prop := {
  eo_name : name_ok (t_name e) /\ zlen (t_name e) < 8 ^ 10;
  eo_fits : (length (utf8 (t_name e)) <= 100)%nat \/ ascii (t_name e) = true;
  eo_source : match t_source e with
              | InHand bytes now => stamps (zlen bytes) now
              | OnDisk size mtime read => stamps size mtime /\ zlen read <= size
              end }.

Lemma short_name name : (length (utf8 name) <= 100)%nat -> take 100 name = name.
Proof. intros Hl. apply take_ge. pose proof (utf8_length name). lia. Qed.

Lemma record_size (name : ustring) n : 0 <= n -> n = digits n + 7 + zlen name -> zlen name < 8 ^ 10 -> n < 8 ^ 11.
Proof.
  intros Hn He Hu. destruct (Z.lt_ge_cases n 10) as [|Hge]; [change (8 ^ 11) with 8589934592; lia|].
  rewrite digits_unfold, (proj2 (Z.ltb_ge n 10)) in He by lia.
  pose proof (digits_le (n / 10) ltac:(apply Z.div_le_lower_bound; lia)).
  change (8 ^ 11) with 8589934592. change (8 ^ 10) with 1073741824 in Hu. Z.to_euclidean_division_equations; lia.
Qed.

Lemma read_headers e size mtime (data rest : list Z) fuel : name_ok (t_name e) -> zlen (t_name e) < 8 ^ 10 ->
  (length (utf8 (t_name e)) <= 100)%nat \/ ascii (t_name e) = true -> stamps (Z.of_nat size) mtime -> length data = size ->
  exists h, headers (t_name e) (Z.of_nat size) mtime = Some h /\
    read_archive (S (S fuel)) None (h ++ data ++ repeat 0 (filler size) ++ rest) =
    (files ← read_archive (if (length (utf8 (t_name e)) <=? 100)%nat then S fuel else fuel) None rest; Some ((utf8 (t_name e), data) :: files)).
Proof.
  intros Hn Hlen Hfit Hst Hd. unfold headers. destruct (Nat.leb_spec (length (utf8 (t_name e))) 100) as [Hs|Hs].
  - eexists. split; [done|]. erewrite read_block; [| |exact Hd].
    2: { apply header_reads; [done|by rewrite short_name|done|lia]. }
    by rewrite short_name.
  - destruct Hfit as [?|Ha]; [lia|]. assert (zlen (utf8 (t_name e)) = zlen (t_name e)) as Hu by by rewrite utf8_ascii.
    destruct (pax_settles _ Hu) as (n & -> & Hn0 & Hnl). cbn [mbind option_bind]. eexists. split; [done|].
    set (bytes := utf8 (pax_body (t_name e) n)) in *. unfold padded. rewrite <- !app_assoc. fold (filler (length bytes)).
    assert (length (utf8 (take 100 (t_name e))) <= 100)%nat as H100.
    { assert (ascii (take 100 (t_name e)) = true) as Ha100.
      { rewrite <- (take_drop 100 (t_name e)), ascii_app in Ha. by apply andb_true_iff in Ha as [? _]. }
      rewrite utf8_ascii, length_take by done. lia. }
    rewrite (read_block (S fuel) None _ (js "PaxHeader") (length bytes) 120 bytes); [| |done].
    2: { apply (header_reads (js "PaxHeader") _ mtime 120); [repeat constructor; lia|by vm_compute; lia| |lia].
         destruct Hst as [_ Hm]. split; [|done]. rewrite Hnl. split; [done|]. apply (record_size (t_name e)); [done| |done].
         unfold bytes in Hnl. rewrite pax_body_bytes, Hu in Hnl by done. lia. }
    unfold bytes at 1. rewrite (read_pax_record (t_name e) n Hn0 Hnl). cbn [mbind option_bind].
    rewrite (read_block fuel _ _ (utf8 (take 100 (t_name e))) size 48 data); [done| |done]. by apply header_reads.
Qed.

Lemma filler_app bytes rest : padded bytes ++ rest = bytes ++ repeat 0 (filler (length bytes)) ++ rest.
Proof. unfold padded. by rewrite <- app_assoc. Qed.

Lemma read_entry e fuel rest : entry_ok e -> exists b, entry_blocks e = Some b /\ exists spare, (spare <= 1)%nat /\
  read_archive (S (S fuel)) None (b ++ rest) =
  (files ← read_archive (fuel + spare) None rest; Some ((utf8 (t_name e), content e) :: files)).
Proof.
  intros [[Hn Hlen] Hfit Hsrc]. unfold entry_blocks, content. destruct (t_source e) as [bytes now|size mtime read].
  - destruct (read_headers e (length bytes) now bytes rest fuel Hn Hlen Hfit Hsrc eq_refl) as (h & -> & Hr).
    cbn [mbind option_bind]. eexists. split; [done|]. rewrite <- app_assoc, filler_app, Hr.
    destruct (_ <=? 100)%nat; [exists 1%nat; rewrite Nat.add_1_r|exists 0%nat; rewrite Nat.add_0_r]; split; done || lia.
  - destruct Hsrc as [Hst Hread]. pose proof Hst as [Hsz _]. set (got := if 0 <? size then read else []).
    assert (length (got ++ repeat 0 (Z.to_nat size - length got)) = Z.to_nat size) as Hd.
    { rewrite length_app, repeat_length. unfold got. destruct (0 <? size); cbn [length]; lia. }
    rewrite <- (Z2Nat.id size) in Hst by lia.
    destruct (read_headers e (Z.to_nat size) mtime _ rest fuel Hn Hlen Hfit Hst Hd) as (h & Hh & Hr). rewrite Z2Nat.id in Hh by lia.
    rewrite Hh. cbn [mbind option_bind]. eexists. split; [done|]. fold (filler (Z.to_nat size)).
    rewrite <- !app_assoc. rewrite <- (app_assoc got) in Hr. rewrite Hr.
    destruct (_ <=? 100)%nat; [exists 1%nat; rewrite Nat.add_1_r|exists 0%nat; rewrite Nat.add_0_r]; split; done || lia.
Qed.

(** C31. A backup can be restored. Every archive of entries whose names have at most 100 bytes, or are
    longer and all in ASCII, and whose sizes and times the header's octal fields hold, is written to its
    end, and a reader of POSIX archives finds in it those files, in order, under exactly those names,
    each with the bytes that were read of it, padded with zeros to the size it was said to have. (A
    longer name with a character outside ASCII is not: see [accented_name_hangs].) *)
Theorem archive_reads_back (entries : list TarEntry) (Hok : Forall entry_ok entries) :
  exists archive, entriesOf entries = Some archive /\ forall fuel, (2 * length entries < fuel)%nat ->
    read_archive fuel None archive = Some (map (fun e => (utf8 (t_name e), content e)) entries).
Proof.
  induction Hok as [|e entries He _ IH]; cbn [entriesOf map length].
  - eexists. split; [done|]. intros [|fuel] Hf; [lia|]. done.
  - destruct IH as (rest & Hrest & IH). destruct (read_entry e 0 rest He) as (b & Hb & _). rewrite Hb, Hrest.
    cbn [mbind option_bind]. eexists. split; [done|]. intros [|[|fuel]] Hf; [lia..|].
    destruct (read_entry e fuel rest He) as (b' & Hb' & spare & Hsp & Hr). rewrite Hb in Hb'. injection Hb' as <-.
    rewrite Hr, IH by lia. done.
Qed.

(** ** In use *)

Definition backup : list TarEntry :=
  [{| t_name := js "agents/ada/memory.md"; t_source := InHand (js "likes tea") 5000 |};
   {| t_name := repeat 97 120; t_source := OnDisk 5 70000 [9; 9] |}].

Lemma archive_reads_back_witness : exists archive, entriesOf backup = Some archive /\
  read_archive 5 None archive = Some [(js "agents/ada/memory.md", js "likes tea"); (repeat 97 120, [9; 9; 0; 0; 0])].
Proof.
  destruct (archive_reads_back backup) as (archive & Ha & Hr).
  { apply Forall_cons. split; [|apply Forall_cons; split; [|by apply Forall_nil]].
    - split; [split; [apply (bool_decide_eq_true_1 (name_ok _)); vm_compute; reflexivity|vm_compute; reflexivity]|left; apply Nat.leb_le; vm_compute; reflexivity|].
      split; (split; [vm_compute; discriminate|vm_compute; reflexivity]).
    - split; [split; [apply (bool_decide_eq_true_1 (name_ok _)); vm_compute; reflexivity|vm_compute; reflexivity]|right; vm_compute; reflexivity|].
      split; [split; (split; [vm_compute; discriminate|vm_compute; reflexivity])|vm_compute; discriminate]. }
  exists archive. split; [exact Ha|]. rewrite (Hr 5%nat); [vm_compute; reflexivity|cbn; lia].
Defined.

(** One letter outside ASCII in a name of more than a hundred bytes, and the archive is never
    finished. *)
Lemma accented_name_hangs : forall fuel, let name := js "files/" ++ 233 :: repeat 97 100 in
  pax_loop fuel name (zlen (pax_body name 0)) = None.
Proof. intros fuel name. apply pax_diverges. vm_compute. reflexivity. Qed.
