(* ===== verification/Tools.v ===== *)
(** * Tools and the registry's lookups: [tools/types.ts], [tools/registry.ts]

    What a tool declares, what a call asks for, and how a name is looked up. A handler is not
    part of a tool here: what it answers is given where calls run. *)
From S2P Require Import Prelude UString Json Kinds Trust.
Local Open Scope Z_scope.

(** ** Schemas *)

Inductive JsonType := TString | TNumber | TInteger | TBoolean | TArray | TObject.

#[export] Instance JsonType_eq_dec : EqDecision JsonType.
Proof. solve_decision. Defined.

(** One type, or a union of plain ones. *)
Inductive NodeType := OneType (t : JsonType) | UnionType (ts : list JsonType).

#[warnings="-register-all"]
Inductive SchemaNode := Node {
  n_type : NodeType; n_description : option ustring; n_enum : option (list json);
  n_items : option SchemaNode; n_properties : option (list (ustring * SchemaNode));
  n_required : option (list ustring); n_default : option json }.

Record ToolParameters := {
  p_properties : list (ustring * SchemaNode); p_required : option (list ustring) }.

Definition no_parameters : ToolParameters := {| p_properties := []; p_required := None |}.

Record ToolSpec := {
  s_slug : ustring; s_provider : ustring; s_summary : ustring; s_whenToUse : ustring;
  s_whenNotToUse : option ustring; s_mutating : bool; s_alone : bool; s_trust : option Trust;
  s_policyArg : option ustring; s_policyArgIsPath : bool; s_tags : list ustring;
  s_parameters : ToolParameters }.

(** The arguments of a call, in the order [Object.entries] lists them. *)
Definition Args := list (ustring * json).

Record Tool := { spec : ToolSpec; trustOf : Args -> option Trust }.

Record ToolIntent := { i_callId : ustring; i_slug : ustring; i_args : Args }.

Record FieldError := { fe_field : ustring; fe_message : ustring; fe_hint : ustring }.

(** ** The registry's lookups *)

(** Lower case, without white space, underscores, dots and hyphens. *)
Definition normalise (s : ustring) : ustring :=
  List.filter (fun c => negb (is_space c || (c =? 95) || (c =? 46) || (c =? 45))) (lower s).

Definition Registry := list Tool.

(** A map filled in order: the last tool with the key is the one found. *)
Definition last_with (p : Tool -> bool) (r : Registry) : option Tool := List.find p (rev r).

Definition by_slug (slug : ustring) (t : Tool) : bool := bool_decide (s_slug (spec t) = slug).
Definition by_normalised (slug : ustring) (t : Tool) : bool :=
  bool_decide (normalise (s_slug (spec t)) = normalise slug).

Definition lookup_tool (r : Registry) (slug : ustring) : option Tool :=
  match last_with (by_slug slug) r with
  | Some t => Some t
  | None => last_with (by_normalised slug) r
  end.

(** [resolve] throws where this is [None]. *)
Definition resolve (r : Registry) (slug : ustring) : option Tool := lookup_tool r slug.
Definition has (r : Registry) (slug : ustring) : bool :=
  existsb (by_slug slug) r || existsb (by_normalised slug) r.

Lemma find_rev_existsb (p : Tool -> bool) r :
  match last_with p r with Some t => t ∈ r /\ p t = true | None => existsb p r = false end.
Proof.
  unfold last_with. destruct (List.find p (rev r)) as [t|] eqn:E.
  - apply find_some in E as [Hin Hp]. split; [|done].
    apply in_rev in Hin. by apply list_elem_of_In.
  - destruct (existsb p r) eqn:Ex; [|done]. apply existsb_exists in Ex as (t & Hin & Hp).
    apply in_rev in Hin. by rewrite (find_none _ _ E t Hin) in Hp.
Qed.

(** What [has] accepts, [resolve] finds: planning never throws. *)
Lemma has_resolve r s : has r s = bool_decide (is_Some (resolve r s)).
Proof.
  unfold has, resolve, lookup_tool.
  pose proof (find_rev_existsb (by_slug s) r) as H1.
  pose proof (find_rev_existsb (by_normalised s) r) as H2.
  destruct (last_with (by_slug s) r) as [t|].
  - destruct H1 as [Hin Hp]. rewrite (bool_decide_eq_true_2 (is_Some (Some t))) by done.
    apply orb_true_iff. left. apply existsb_exists. exists t. split; [by apply list_elem_of_In|done].
  - rewrite H1. cbn. destruct (last_with (by_normalised s) r) as [t|].
    + destruct H2 as [Hin Hp]. rewrite (bool_decide_eq_true_2 (is_Some (Some t))) by done.
      apply existsb_exists. exists t. split; [by apply list_elem_of_In|done].
    + rewrite H2. symmetry. by apply bool_decide_eq_false_2, is_Some_None.
Qed.

(** ** Sample tools *)

Definition spec_of (name : string) (changes : bool) (t : Trust) : ToolSpec :=
  {| s_slug := js name; s_provider := js "local"; s_summary := js "Does one thing.";
     s_whenToUse := js "when asked"; s_whenNotToUse := None; s_mutating := changes;
     s_alone := false; s_trust := Some t; s_policyArg := None; s_policyArgIsPath := false;
     s_tags := []; s_parameters := no_parameters |}.
Definition tool_of (s : ToolSpec) : Tool := {| spec := s; trustOf := fun _ => None |}.
