(* ===== verification/Phases.v ===== *)
(** * Phase-scoped tools: [loop/phases.ts]

    A manifest's phases in declared order, the tools each exposes, and where a session
    starts. *)
From S2P Require Import Prelude UString Kinds Trust Tools.

Record PhaseConfig := { allow : list ustring; entry : option bool }.

(** An object's keys in declared order. *)
Abbreviation PhaseMap := (list (ustring * PhaseConfig)).

Definition PHASE_SET : ustring := js "phase_set".
Definition ALLOW_ALL : ustring := js "*".
Definition TAG_PREFIX : ustring := js "tag:".

(** [phases[name]]. *)
Definition phase_config (phases : PhaseMap) (name : ustring) : option PhaseConfig :=
  snd <$> List.find (fun kv => bool_decide (kv.1 = name)) phases.

Definition entryPhase (phases : PhaseMap) : option ustring :=
  match List.find (fun kv => bool_decide (entry kv.2 = Some true)) phases with
  | Some kv => Some kv.1
  | None => head (map fst phases)
  end.

Definition allowMatches (e : ustring) (spec : ToolSpec) : bool :=
  if bool_decide (e = ALLOW_ALL) then true
  else if starts_with TAG_PREFIX e then
    let tag := lower (slice_from e (zlen TAG_PREFIX)) in
    existsb (fun own => bool_decide (lower own = tag)) (s_tags spec)
  else bool_decide (normalise e = normalise (s_slug spec)).

Definition visibleIn (specs : list ToolSpec) (al : list ustring) : list ToolSpec :=
  List.filter (fun spec => existsb (fun e => allowMatches e spec) al) specs.

Definition unmatchedEntries (al : list ustring) (specs : list ToolSpec) : list ustring :=
  List.filter (fun e => negb (existsb (allowMatches e) specs)) al.

Definition unmatchedAllows (phases : PhaseMap) (specs : list ToolSpec)
  : list (ustring * ustring) :=
  concat (map (fun kv =>
    map (fun e => (kv.1, e))
      (List.filter (fun e => negb (bool_decide (e = PHASE_SET)) &&
                             negb (existsb (allowMatches e) specs)) (allow kv.2))) phases).

Definition allowFor (phases : PhaseMap) (phase : ustring) : list ustring :=
  match phase_config phases phase with
  | None => [ALLOW_ALL]
  | Some config =>
      if bool_decide (PHASE_SET ∈ allow config) then allow config else allow config ++ [PHASE_SET]
  end.

Definition isPhased (phases : option PhaseMap) : bool :=
  match phases with Some p => (1 <? length (map fst p))%nat | None => false end.

Definition phasesFor (phases : PhaseMap) (spec : ToolSpec) : list ustring :=
  List.filter (fun name => existsb (fun e => allowMatches e spec) (allowFor phases name))
    (map fst phases).

Definition otherPhases (phases : PhaseMap) (current : ustring) (specs : list ToolSpec)
  : list (ustring * Z) :=
  let here := map s_slug (visibleIn specs (allowFor phases current)) in
  map (fun name =>
         (name, zlen (List.filter (fun spec => negb (bool_decide (s_slug spec ∈ here)))
                        (visibleIn specs (allowFor phases name)))))
    (List.filter (fun name => negb (bool_decide (name = current))) (map fst phases)).

(** ** Properties *)

Lemma phase_set_allowed phases phase spec :
  normalise (s_slug spec) = normalise PHASE_SET ->
  existsb (fun e => allowMatches e spec) (allowFor phases phase) = true.
Proof.
  intros Hs. assert (Hm : allowMatches PHASE_SET spec = true).
  { unfold allowMatches. rewrite bool_decide_false by done.
    replace (starts_with TAG_PREFIX PHASE_SET) with false by done.
    by rewrite bool_decide_true by congruence. }
  unfold allowFor. apply existsb_exists. destruct (phase_config phases phase) as [c|].
  - exists PHASE_SET. split; [|done]. case_bool_decide; [by apply list_elem_of_In|].
    apply in_app_iff. right. by left.
  - exists ALLOW_ALL. split; [by left|]. done.
Qed.

Lemma find_phase phases name config :
  NoDup (map fst phases) -> (name, config) ∈ phases -> phase_config phases name = Some config.
Proof.
  unfold phase_config. induction phases as [|[n c] phases IH]; [by intros _ ?%not_elem_of_nil|].
  cbn. intros [Hn Hd]%NoDup_cons [[= -> ->]|Hin]%elem_of_cons.
  - by rewrite bool_decide_true.
  - rewrite bool_decide_false; [by apply IH|]. intros ->. apply Hn.
    apply list_elem_of_In in Hin. apply list_elem_of_In. by apply (in_map fst) in Hin.
Qed.

(** A phase never traps a session and its tools are what its author listed: [phase_set]
    is visible in every phase; the visible tools keep the catalogue's order; the report of
    unmatched entries is empty exactly when every entry but [phase_set] names some tool; and
    the per-tool answer of [phasesFor] agrees with [visibleIn]. *)
Theorem phases_visibility phases specs :
  NoDup (map fst phases) ->
  (forall phase spec, spec ∈ specs -> normalise (s_slug spec) = normalise PHASE_SET ->
     spec ∈ visibleIn specs (allowFor phases phase)) /\
  (forall al, visibleIn specs al `sublist_of` specs) /\
  (unmatchedAllows phases specs = [] <->
   forall name config e, (name, config) ∈ phases -> e ∈ allow config -> e <> PHASE_SET ->
     exists spec, spec ∈ visibleIn specs (allowFor phases name) /\ allowMatches e spec = true) /\
  (forall name spec, spec ∈ specs ->
     name ∈ phasesFor phases spec <->
     name ∈ map fst phases /\ spec ∈ visibleIn specs (allowFor phases name)).
Proof.
  intros Hn. split_and!.
  - intros phase spec Hin Hs. apply list_elem_of_In, filter_In. split; [by apply list_elem_of_In|].
    by apply phase_set_allowed.
  - intros al. unfold visibleIn. induction specs as [|s specs IH]; cbn; [constructor|].
    destruct (existsb _ al); by constructor.
  - unfold unmatchedAllows. rewrite concat_nil_Forall, Forall_map, Forall_forall. split.
    + intros H name config e Hin He Hne. specialize (H _ Hin). cbn in H.
      apply map_eq_nil in H. destruct (existsb (allowMatches e) specs) eqn:Ex.
      * apply existsb_exists in Ex as (spec & Hspec & Hm). exists spec. split; [|done].
        apply list_elem_of_In, filter_In. split; [done|]. apply existsb_exists. exists e.
        split; [|done]. unfold allowFor. rewrite (find_phase _ _ config) by done.
        apply list_elem_of_In. case_bool_decide; [done|]. apply elem_of_app. by left.
      * exfalso. assert (In e []) as []. rewrite <- H. apply filter_In.
        split; [by apply list_elem_of_In|]. by rewrite bool_decide_false, Ex.
    + intros H [name config] Hin. cbn.
      destruct (List.filter _ (allow config)) as [|e rest] eqn:Ef; [done|]. exfalso.
      assert (In e (e :: rest)) as He by (by left). rewrite <- Ef in He.
      apply filter_In in He as [He Hb]. apply andb_true_iff in Hb as [Hb1 Hb2].
      apply negb_true_iff, bool_decide_eq_false in Hb1. apply negb_true_iff in Hb2.
      apply list_elem_of_In in He. destruct (H _ _ _ Hin He Hb1) as (spec & Hspec & Hm).
      apply list_elem_of_In, filter_In in Hspec as [Hspec _].
      assert (existsb (allowMatches e) specs = true) by (apply existsb_exists; by exists spec).
      congruence.
  - intros name spec Hspec. unfold phasesFor, visibleIn.
    rewrite !list_elem_of_In, !filter_In. apply list_elem_of_In in Hspec. tauto.
Qed.

Definition triage : PhaseMap :=
  [(js "triage", {| allow := [js "tag:read"; js "memory-search"]; entry := Some true |});
   (js "act", {| allow := [ALLOW_ALL]; entry := None |})].
Definition tagged (name : string) (tags : list ustring) : ToolSpec :=
  let s := spec_of name false Trusted in
  {| s_slug := s_slug s; s_provider := s_provider s; s_summary := s_summary s;
     s_whenToUse := s_whenToUse s; s_whenNotToUse := s_whenNotToUse s; s_mutating := s_mutating s;
     s_alone := s_alone s; s_trust := s_trust s; s_policyArg := s_policyArg s;
     s_policyArgIsPath := s_policyArgIsPath s; s_tags := tags; s_parameters := s_parameters s |}.

Definition catalogue : list ToolSpec :=
  [tagged "memory_search" []; tagged "mail_send" [js "write"]; tagged "mail_read" [js "Read"];
   tagged "phase_set" []].

Lemma phases_visibility_witness :
  map s_slug (visibleIn catalogue (allowFor triage (js "triage"))) =
    [js "memory_search"; js "mail_read"; PHASE_SET] /\
  otherPhases triage (js "triage") catalogue = [(js "act", 1%Z)] /\
  (forall al, visibleIn catalogue al `sublist_of` catalogue).
Proof.
  split; [by vm_compute|]. split; [by vm_compute|].
  assert (Hn : NoDup (map fst triage))
    by (apply (bool_decide_eq_true_1 (NoDup (map fst triage))); by vm_compute).
  exact (proj1 (proj2 (phases_visibility triage catalogue Hn))).
Defined.
