(* ===== verification/Step.v ===== *)
(** * One model call: [loop/step.ts]

    [runStep] consumes a provider's stream. The stream is the list of chunks it yields with
    the time of each, and how it ends; the provider, the bus and the clock are the caller's.
    Times are in microseconds and durations are rounded to milliseconds as [Math.round]
    does. *)
From S2P Require Import Prelude UString.
Local Open Scope Z_scope.

(** A structured call and a signed thinking block are carried through unread. *)
Record ToolCallRequest := { c_id : ustring; c_name : ustring; c_arguments : ustring }.
Abbreviation ThinkingBlock := ustring.

Record Usage := {
  u_prompt : Z; u_completion : Z; u_cached : option Z; u_cacheSource : option ustring;
  u_cacheWrite : option Z }.

Inductive Chunk :=
| Text (delta : ustring)
| Reasoning (delta : ustring)
| ToolCall (c : ToolCallRequest)
| UsageChunk (u : Usage)
| Model (id : ustring)
| Thinking (b : ThinkingBlock)
| Finish (why : ustring).

Inductive ChunkKind := KText | KReasoning.

Record StepInput := {
  role : ustring; model_id : ustring; promptEstimate : Z; attempt : option Z;
  sender : option ustring }.

(** The locals of [runStep] that the loop assigns. *)
Record Acc := {
  text : ustring; reasoning : ustring; finishReason : ustring; promptTokens : Z;
  promptTokensReported : bool; cachedPromptTokens : option Z; cacheSource : option ustring;
  cacheWriteTokens : option Z; reportedOutputTokens : option Z;
  calls : list ToolCallRequest; thinking : list ThinkingBlock; model : ustring;
  firstTokenMs : option Z }.

Record ModelResult := {
  r_outputTokens : Z; r_promptTokens : Z; r_promptReported : bool; r_finishReason : ustring;
  r_latencyMs : Z; r_firstTokenMs : option Z; r_callId : ustring; r_model : ustring;
  r_role : ustring; r_cached : option Z; r_cacheWrite : option Z; r_sender : option ustring }.

Inductive Event :=
| ModelCall (callId role model : ustring) (promptTokens : Z) (cached : bool) (attempt : Z)
| ModelChunk (delta : ustring) (kind : ChunkKind)
| ModelResulted (r : ModelResult).

Record StepUsage := {
  m_role : ustring; m_model : ustring; m_promptTokens : Z; m_promptReported : bool;
  m_cached : option Z; m_cacheWrite : option Z; m_outputTokens : Z; m_outputReported : bool;
  m_callId : ustring }.

Record StepResult := { final : Acc; outputTokens : Z; latencyMs : Z; aborted : bool }.

Definition start (i : StepInput) : Acc :=
  {| text := []; reasoning := []; finishReason := []; promptTokens := promptEstimate i;
     promptTokensReported := false; cachedPromptTokens := None; cacheSource := None;
     cacheWriteTokens := None; reportedOutputTokens := None; calls := []; thinking := [];
     model := model_id i; firstTokenMs := None |}.

(** [Math.round] of a duration. *)
Definition round_ms (us : Z) : Z := (us + 500) / 1000.

Definition is_output (c : Chunk) : bool :=
  match c with Text _ | Reasoning _ | ToolCall _ => true | _ => false end.

(** The loop's body. *)
Definition on_chunk (started : Z) (tc : Z * Chunk) (a : Acc) : Acc * list Event :=
  let '(t, c) := tc in
  let first :=
    match firstTokenMs a with
    | None => if is_output c then Some (round_ms (t - started)) else None
    | some => some
    end in
  let a0 :=
    {| text := text a; reasoning := reasoning a; finishReason := finishReason a;
       promptTokens := promptTokens a; promptTokensReported := promptTokensReported a;
       cachedPromptTokens := cachedPromptTokens a; cacheSource := cacheSource a;
       cacheWriteTokens := cacheWriteTokens a; reportedOutputTokens := reportedOutputTokens a;
       calls := calls a; thinking := thinking a; model := model a; firstTokenMs := first |} in
  match c with
  | Text d =>
      ({| text := text a0 ++ d; reasoning := reasoning a0; finishReason := finishReason a0;
          promptTokens := promptTokens a0; promptTokensReported := promptTokensReported a0;
          cachedPromptTokens := cachedPromptTokens a0; cacheSource := cacheSource a0;
          cacheWriteTokens := cacheWriteTokens a0;
          reportedOutputTokens := reportedOutputTokens a0; calls := calls a0;
          thinking := thinking a0; model := model a0; firstTokenMs := firstTokenMs a0 |},
       [ModelChunk d KText])
  | Reasoning d =>
      ({| text := text a0; reasoning := reasoning a0 ++ d; finishReason := finishReason a0;
          promptTokens := promptTokens a0; promptTokensReported := promptTokensReported a0;
          cachedPromptTokens := cachedPromptTokens a0; cacheSource := cacheSource a0;
          cacheWriteTokens := cacheWriteTokens a0;
          reportedOutputTokens := reportedOutputTokens a0; calls := calls a0;
          thinking := thinking a0; model := model a0; firstTokenMs := firstTokenMs a0 |},
       [ModelChunk d KReasoning])
  | ToolCall r =>
      ({| text := text a0; reasoning := reasoning a0; finishReason := finishReason a0;
          promptTokens := promptTokens a0; promptTokensReported := promptTokensReported a0;
          cachedPromptTokens := cachedPromptTokens a0; cacheSource := cacheSource a0;
          cacheWriteTokens := cacheWriteTokens a0;
          reportedOutputTokens := reportedOutputTokens a0; calls := calls a0 ++ [r];
          thinking := thinking a0; model := model a0; firstTokenMs := firstTokenMs a0 |}, [])
  | UsageChunk u =>
      ({| text := text a0; reasoning := reasoning a0; finishReason := finishReason a0;
          promptTokens := u_prompt u; promptTokensReported := 0 <? u_prompt u;
          cachedPromptTokens :=
            match u_cached u with Some n => Some n | None => cachedPromptTokens a0 end;
          cacheSource :=
            match u_cached u with Some _ => u_cacheSource u | None => cacheSource a0 end;
          cacheWriteTokens :=
            match u_cacheWrite u with Some n => Some n | None => cacheWriteTokens a0 end;
          reportedOutputTokens := Some (u_completion u); calls := calls a0;
          thinking := thinking a0; model := model a0; firstTokenMs := firstTokenMs a0 |}, [])
  | Model id =>
      ({| text := text a0; reasoning := reasoning a0; finishReason := finishReason a0;
          promptTokens := promptTokens a0; promptTokensReported := promptTokensReported a0;
          cachedPromptTokens := cachedPromptTokens a0; cacheSource := cacheSource a0;
          cacheWriteTokens := cacheWriteTokens a0;
          reportedOutputTokens := reportedOutputTokens a0; calls := calls a0;
          thinking := thinking a0; model := id; firstTokenMs := firstTokenMs a0 |}, [])
  | Thinking b =>
      ({| text := text a0; reasoning := reasoning a0; finishReason := finishReason a0;
          promptTokens := promptTokens a0; promptTokensReported := promptTokensReported a0;
          cachedPromptTokens := cachedPromptTokens a0; cacheSource := cacheSource a0;
          cacheWriteTokens := cacheWriteTokens a0;
          reportedOutputTokens := reportedOutputTokens a0; calls := calls a0;
          thinking := thinking a0 ++ [b]; model := model a0; firstTokenMs := firstTokenMs a0 |}, [])
  | Finish why =>
      ({| text := text a0; reasoning := reasoning a0; finishReason := why;
          promptTokens := promptTokens a0; promptTokensReported := promptTokensReported a0;
          cachedPromptTokens := cachedPromptTokens a0; cacheSource := cacheSource a0;
          cacheWriteTokens := cacheWriteTokens a0;
          reportedOutputTokens := reportedOutputTokens a0; calls := calls a0;
          thinking := thinking a0; model := model a0; firstTokenMs := firstTokenMs a0 |}, [])
  end.

Fixpoint consume (started : Z) (stream : list (Z * Chunk)) (a : Acc) : Acc * list Event :=
  match stream with
  | [] => (a, [])
  | tc :: rest =>
      let '(a1, e1) := on_chunk started tc a in
      let '(a2, e2) := consume started rest a1 in
      (a2, e1 ++ e2)
  end.

(** [Math.ceil(text.length / 3.8)]; the quotient is exact where it is whole. *)
Definition estimate_tokens (s : ustring) : Z := (5 * zlen s + 18) / 19.

(** How the stream ended: it ran out, or it threw [E]. *)
Inductive Ending (E : Type) := Done | Threw (e : E).
Arguments Done {E}.
Arguments Threw {E} e.

(** What [runStep] did: its events, the meter's entry, and its result or the exception. *)
Record Outcome (E : Type) := {
  events : list Event; metered : list StepUsage; result_of : result E StepResult }.
Arguments events {E} o.
Arguments metered {E} o.
Arguments result_of {E} o.

Definition runStep {E} (i : StepInput) (callId : ustring) (started : Z)
  (stream : list (Z * Chunk)) (ending : Ending E) (signal_aborted : bool) (ended : Z)
  : Outcome E :=
  let called := ModelCall callId (role i) (model_id i) (promptEstimate i) false
                  (default 1 (attempt i)) in
  let '(a, chunks) := consume started stream (start i) in
  match ending, signal_aborted with
  | Threw e, false => {| events := called :: chunks; metered := []; result_of := Err e |}
  | _, _ =>
      let latency := round_ms (ended - started) in
      let out := default (estimate_tokens (text a)) (reportedOutputTokens a) in
      let finish :=
        match finishReason a with
        | [] => if signal_aborted then js "aborted" else js "stop"
        | r => r
        end in
      {| events :=
           called :: chunks ++
           [ModelResulted
              {| r_outputTokens := out; r_promptTokens := promptTokens a;
                 r_promptReported := promptTokensReported a; r_finishReason := finish;
                 r_latencyMs := latency; r_firstTokenMs := firstTokenMs a; r_callId := callId;
                 r_model := model a; r_role := role i; r_cached := cachedPromptTokens a;
                 r_cacheWrite := cacheWriteTokens a; r_sender := sender i |}];
         metered :=
           [{| m_role := role i; m_model := model a; m_promptTokens := promptTokens a;
               m_promptReported := promptTokensReported a; m_cached := cachedPromptTokens a;
               m_cacheWrite := cacheWriteTokens a; m_outputTokens := out;
               m_outputReported :=
                 match reportedOutputTokens a with Some _ => true | None => false end;
               m_callId := callId |}];
         result_of :=
           Ok {| final := a; outputTokens := out; latencyMs := latency;
                 aborted := signal_aborted |} |}
  end.

(** ** What the stream said *)

Section Said.
Implicit Types (stream : list (Z * Chunk)).

(** The values a kind of chunk carries, in order, and the last of them. *)
Definition said {A} (f : Chunk -> option A) stream : list A := omap f (map snd stream).
Definition last_said {A} (f : Chunk -> option A) (d : A) stream : A := default d (last (said f stream)).

Definition text_delta (c : Chunk) : option ustring := match c with Text d => Some d | _ => None end.
Definition reasoning_delta (c : Chunk) : option ustring :=
  match c with Reasoning d => Some d | _ => None end.
Definition call_made (c : Chunk) : option ToolCallRequest :=
  match c with ToolCall r => Some r | _ => None end.
Definition thought (c : Chunk) : option ThinkingBlock := match c with Thinking b => Some b | _ => None end.
Definition model_named (c : Chunk) : option ustring := match c with Model m => Some m | _ => None end.
Definition finished (c : Chunk) : option ustring := match c with Finish r => Some r | _ => None end.
Definition usage_said (c : Chunk) : option Usage := match c with UsageChunk u => Some u | _ => None end.
Definition cached_said (c : Chunk) : option Z := u ← usage_said c; u_cached u.
Definition shown (c : Chunk) : option Event :=
  match c with
  | Text d => Some (ModelChunk d KText)
  | Reasoning d => Some (ModelChunk d KReasoning)
  | _ => None
  end.

Lemma said_cons {A} (f : Chunk -> option A) t c stream :
  said f ((t, c) :: stream) = option_list (f c) ++ said f stream.
Proof. unfold said. cbn. by destruct (f c). Qed.

Lemma last_said_cons {A} (f : Chunk -> option A) d t c stream :
  last_said f d ((t, c) :: stream) = last_said f (default d (f c)) stream.
Proof.
  unfold last_said. rewrite said_cons. destruct (f c) as [x|]; [|done].
  change (option_list (Some x) ++ said f stream) with (x :: said f stream).
  rewrite last_cons. by destruct (last (said f stream)).
Qed.

Lemma consume_said started stream : forall a,
  let '(b, evs) := consume started stream a in
  text b = text a ++ concat (said text_delta stream) /\
  reasoning b = reasoning a ++ concat (said reasoning_delta stream) /\
  calls b = calls a ++ said call_made stream /\
  thinking b = thinking a ++ said thought stream /\
  model b = last_said model_named (model a) stream /\
  finishReason b = last_said finished (finishReason a) stream /\
  promptTokens b = last_said (fun c => u_prompt <$> usage_said c) (promptTokens a) stream /\
  promptTokensReported b =
    last_said (fun c => (fun u => 0 <? u_prompt u) <$> usage_said c) (promptTokensReported a) stream /\
  reportedOutputTokens b =
    last_said (fun c => (fun u => Some (u_completion u)) <$> usage_said c)
      (reportedOutputTokens a) stream /\
  cachedPromptTokens b =
    last_said (fun c => Some <$> cached_said c) (cachedPromptTokens a) stream /\
  evs = said shown stream.
Proof.
  induction stream as [|[t c] stream IH]; intros a.
  { cbn. rewrite !app_nil_r. by split_and!. }
  cbn [consume]. destruct (on_chunk started (t, c) a) as [a1 e1] eqn:E1.
  specialize (IH a1). destruct (consume started stream a1) as [b e2].
  destruct IH as (-> & -> & -> & -> & -> & -> & -> & -> & -> & -> & ->).
  rewrite !said_cons, !last_said_cons.
  destruct c; cbn in E1; injection E1 as <- <-; cbn; rewrite <- ?app_assoc; try by split_and!.
  unfold cached_said. cbn. destruct (u_cached u); by split_and!.
Qed.
End Said.

(** A step reports exactly its stream. It raises only an exception that no cancellation
    explains, and then meters nothing; otherwise the reply, reasoning, calls and thinking
    are the concatenation of what arrived, the answering model, finish reason and token
    counts are the last that were stated, one [model.chunk] is emitted per visible delta in
    order between one [model.call] and one [model.result], and exactly one entry is metered,
    for the same model and counts as the result. *)
Theorem runStep_reports_stream {E} i callId started stream (ending : Ending E) stopped ended :
  let o := runStep i callId started stream ending stopped ended in
  let call := ModelCall callId (role i) (model_id i) (promptEstimate i) false (default 1 (attempt i)) in
  match result_of o with
  | Err e => ending = Threw e /\ stopped = false /\ metered o = [] /\
             events o = call :: said shown stream
  | Ok r =>
      (ending = Done \/ stopped = true) /\ aborted r = stopped /\
      text (final r) = concat (said text_delta stream) /\
      reasoning (final r) = concat (said reasoning_delta stream) /\
      calls (final r) = said call_made stream /\
      thinking (final r) = said thought stream /\
      model (final r) = last_said model_named (model_id i) stream /\
      promptTokens (final r) =
        last_said (fun c => u_prompt <$> usage_said c) (promptEstimate i) stream /\
      cachedPromptTokens (final r) = last_said (fun c => Some <$> cached_said c) None stream /\
      outputTokens r =
        last_said (fun c => u_completion <$> usage_said c) (estimate_tokens (text (final r))) stream /\
      exists result, events o = call :: said shown stream ++ [ModelResulted result] /\
        r_model result = model (final r) /\ r_outputTokens result = outputTokens r /\
        exists bill, metered o = [bill] /\ m_model bill = model (final r) /\
          m_promptTokens bill = promptTokens (final r) /\ m_outputTokens bill = outputTokens r
  end.
Proof.
  cbv zeta. unfold runStep. pose proof (consume_said started stream (start i)) as H.
  destruct (consume started stream (start i)) as [a evs].
  destruct H as (H1 & H2 & H3 & H4 & H5 & H6 & H7 & H8 & H9 & H10 & H11). cbn in *.
  assert (Hout : default (estimate_tokens (text a)) (reportedOutputTokens a) =
    last_said (fun c => u_completion <$> usage_said c) (estimate_tokens (text a)) stream).
  { rewrite H9. clear. generalize (estimate_tokens (text a)) as d. intros d.
    assert (G : forall x : option Z,
      default d (last_said (fun c => (fun u => Some (u_completion u)) <$> usage_said c) x stream) =
      last_said (fun c => u_completion <$> usage_said c) (default d x) stream).
    { induction stream as [|[t c] stream IH]; intros x; [by destruct x|].
      rewrite !last_said_cons, IH. by destruct (usage_said c). }
    apply (G None). }
  destruct ending as [|e].
  - cbn. split_and!; try done; [by left|]. subst evs.
    eexists. split; [done|]. split; [done|]. split; [done|]. eexists. by split_and!.
  - destruct stopped; cbn; [|by subst evs].
    split_and!; try done; [by right|]. subst evs.
    eexists. split; [done|]. split; [done|]. split; [done|]. eexists. by split_and!.
Qed.

(** A usage report without a prompt count (which decodes to zero) replaces the estimate by
    zero, though it is not counted as reported. *)
Theorem zero_usage_loses_estimate (i : StepInput) callId :
  let usage := {| u_prompt := 0; u_completion := 5; u_cached := None; u_cacheSource := None;
                  u_cacheWrite := None |} in
  map (fun b => (m_promptTokens b, m_promptReported b))
    (metered (runStep (E := unit) i callId 0 [(1, Text [104]); (2, UsageChunk usage)] Done false 3)) =
  [(0, false)].
Proof. done. Qed.
