(* ===== verification/Semver.v ===== *)
(** * Version ranges: [plugins/semver.ts]

    The three-valued answer: [Some true], [Some false], or [None] where the range cannot be
    decided and the caller refuses. *)
From S2P Require Import Prelude UString.
Local Open Scope Z_scope.

Record Version := { major : Z; minor : Z; patch : Z }.

#[export] Instance Version_eq_dec : EqDecision Version.
Proof. solve_decision. Defined.

Definition version_of (parts : list ustring) : Version :=
  {| major := digits_value (nth 0 parts [48]); minor := digits_value (nth 1 parts [48]);
     patch := digits_value (nth 2 parts [48]) |}.

(** [EXACT]: three runs of digits. *)
Definition parseVersion (raw : ustring) : option Version :=
  let parts := split_on 46 (trim raw) in
  if (length parts =? 3)%nat && forallb all_digits parts then Some (version_of parts) else None.

Definition is_prerelease (c : Z) : bool := is_digit c || is_alpha c || (c =? 46) || (c =? 45).

(** Three runs of digits, and perhaps a hyphen and a pre-release identifier. *)
Fixpoint before_hyphen (s : ustring) : ustring * option ustring :=
  match s with
  | [] => ([], None)
  | c :: s' => if c =? 45 then ([], Some s')
               else let '(h, t) := before_hyphen s' in (c :: h, t)
  end.

Definition parseHostVersion (raw : ustring) : option Version :=
  let '(release, pre) := before_hyphen (trim raw) in
  match pre with
  | None => if bool_decide (trim release = release) then parseVersion release else None
  | Some tag =>
      if negb (bool_decide (tag = [])) && forallb is_prerelease tag &&
         bool_decide (trim release = release)
      then parseVersion release else None
  end.

(** [PARTIAL]: one to three runs of digits, and how many. *)
Definition parsePartial (raw : ustring) : option (Version * Z) :=
  let parts := split_on 46 (trim raw) in
  if (length parts <=? 3)%nat && forallb all_digits parts
  then Some (version_of parts, zlen parts) else None.

Definition compare (a b : Version) : Z :=
  if negb (major a =? major b) then major a - major b
  else if negb (minor a =? minor b) then minor a - minor b
  else patch a - patch b.

Definition caretUpper (v : Version) : Version :=
  if negb (major v =? 0) then {| major := major v + 1; minor := 0; patch := 0 |}
  else if negb (minor v =? 0) then {| major := 0; minor := minor v + 1; patch := 0 |}
  else {| major := 0; minor := 0; patch := patch v + 1 |}.

Definition tildeUpper (v : Version) (specified : Z) : Version :=
  if specified =? 1 then {| major := major v + 1; minor := 0; patch := 0 |}
  else {| major := major v; minor := minor v + 1; patch := 0 |}.

Inductive Operator := Caret | Tilde | AtLeast | AtMost | Above | Below | Plain.

(** The operator in front of a term without white space. *)
Definition operator_of (term : ustring) : Operator * ustring :=
  if starts_with (js ">=") term then (AtLeast, drop 2 term)
  else if starts_with (js "<=") term then (AtMost, drop 2 term)
  else if starts_with (js ">") term then (Above, drop 1 term)
  else if starts_with (js "<") term then (Below, drop 1 term)
  else if starts_with (js "=") term then (Plain, drop 1 term)
  else if starts_with (js "^") term then (Caret, drop 1 term)
  else if starts_with (js "~") term then (Tilde, drop 1 term)
  else (Plain, term).

Definition holds (op : Operator) (v bound : Version) (specified : Z) : bool :=
  match op with
  | Caret => (0 <=? compare v bound) && (compare v (caretUpper bound) <? 0)
  | Tilde => (0 <=? compare v bound) && (compare v (tildeUpper bound specified) <? 0)
  | AtLeast => 0 <=? compare v bound
  | AtMost => compare v bound <=? 0
  | Above => 0 <? compare v bound
  | Below => compare v bound <? 0
  | Plain =>
      if specified =? 3 then compare v bound =? 0
      else if specified =? 2 then (major v =? major bound) && (minor v =? minor bound)
      else major v =? major bound
  end.

Definition satisfiesTerm (v : Version) (term : ustring) : option bool :=
  if bool_decide (term ∈ [js "*"; js "x"; js "X"]) then Some true
  else
    let '(op, rest) := operator_of term in
    match parsePartial rest with
    | None => None
    | Some (bound, specified) => Some (holds op v bound specified)
    end.

(** The inner loop: [None] as soon as a term cannot be decided. *)
Fixpoint all_terms (v : Version) (terms : list ustring) : option bool :=
  match terms with
  | [] => Some true
  | t :: rest =>
      match satisfiesTerm v t with
      | None => None
      | Some b => match all_terms v rest with None => None | Some all => Some (b && all) end
      end
  end.

(** [split("||")]. *)
Fixpoint split_or (s : ustring) : list ustring :=
  match s with
  | [] => [[]]
  | c :: rest =>
      match rest with
      | d :: rest' =>
          if (c =? 124) && (d =? 124) then [] :: split_or rest'
          else match split_or rest with w :: ws => (c :: w) :: ws | [] => [[c]] end
      | [] => [[c]]
      end
  end.

(** The terms of one alternative. *)
Definition terms_of (alternative : ustring) : list ustring := words (trim alternative).

(** The outer loop. *)
Fixpoint any_alternative (v : Version) (alternatives : list ustring) : option bool :=
  match alternatives with
  | [] => Some false
  | a :: rest =>
      match terms_of a with
      | [] => None
      | terms =>
          match all_terms v terms with
          | None => None
          | Some true => Some true
          | Some false => any_alternative v rest
          end
      end
  end.

Definition satisfies (version range : ustring) : option bool :=
  match parseHostVersion version with
  | None => None
  | Some v => any_alternative v (split_or range)
  end.

(** ** Meaning *)

Definition before (a b : Version) : Prop :=
  major a < major b \/
  (major a = major b /\ (minor a < minor b \/ (minor a = minor b /\ patch a < patch b))).

Lemma compare_neg a b : compare a b < 0 <-> before a b.
Proof.
  unfold compare, before. destruct (Z.eqb_spec (major a) (major b)); cbn [negb]; [|lia].
  destruct (Z.eqb_spec (minor a) (minor b)); cbn [negb]; lia.
Qed.

Lemma compare_pos a b : 0 < compare a b <-> before b a.
Proof.
  unfold compare, before. destruct (Z.eqb_spec (major a) (major b)); cbn [negb]; [|lia].
  destruct (Z.eqb_spec (minor a) (minor b)); cbn [negb]; lia.
Qed.

(** What the caret promises: at least the bound, and equal to it in everything up to its
    first non-zero part. *)
Definition compatible (v b : Version) : Prop :=
  ~ before v b /\ major v = major b /\
  (major b = 0 -> minor v = minor b /\ (minor b = 0 -> patch v = patch b)).

Definition nonneg (v : Version) : Prop := 0 <= major v /\ 0 <= minor v /\ 0 <= patch v.

Lemma caret_compatible v b s : nonneg v -> nonneg b -> holds Caret v b s = true <-> compatible v b.
Proof.
  intros (H1 & H2 & H3) (H4 & H5 & H6). cbn. rewrite andb_true_iff, Z.leb_le, Z.ltb_lt, compare_neg.
  assert (0 <= compare v b <-> ~ before v b) as -> by (rewrite <- compare_neg; lia).
  unfold compatible, before, caretUpper.
  destruct (Z.eqb_spec (major b) 0); cbn [negb major minor patch]; [|lia].
  destruct (Z.eqb_spec (minor b) 0); cbn [negb major minor patch]; lia.
Qed.

Lemma tilde_patch_level v b s :
  nonneg v -> s <> 1 ->
  holds Tilde v b s = true <-> major v = major b /\ minor v = minor b /\ patch b <= patch v.
Proof.
  intros (H1 & H2 & H3) Hs. cbn. rewrite andb_true_iff, Z.leb_le, Z.ltb_lt, compare_neg.
  assert (0 <= compare v b <-> ~ before v b) as -> by (rewrite <- compare_neg; lia).
  unfold before, tildeUpper. destruct (Z.eqb_spec s 1); [done|]. cbn [major minor patch]. lia.
Qed.

Lemma digits_value_nonneg s : all_digits s = true -> 0 <= digits_value s.
Proof.
  intros H. apply all_digits_forall in H. unfold digits_value.
  assert (G : forall n, 0 <= n -> 0 <= fold_left (fun n c => 10 * n + (c - 48)) s n).
  { induction H as [|c s Hc Hs IH]; intros n Hn; cbn; [done|]. apply IH. lia. }
  by apply G.
Qed.

Lemma version_of_nonneg parts : forallb all_digits parts = true -> nonneg (version_of parts).
Proof.
  intros H. assert (G : forall n, 0 <= digits_value (nth n parts [48])).
  { intros n. apply digits_value_nonneg. destruct (nth_in_or_default n parts [48]) as [Hin| ->].
    - rewrite forallb_forall in H. by apply H.
    - done. }
  split_and!; apply G.
Qed.

Lemma parsePartial_nonneg s b n : parsePartial s = Some (b, n) -> nonneg b.
Proof.
  unfold parsePartial. destruct (_ && _) eqn:E; [|done]. intros [= <- _]. bool_to_prop.
  by apply version_of_nonneg.
Qed.

Lemma parseHostVersion_nonneg s v : parseHostVersion s = Some v -> nonneg v.
Proof.
  assert (G : forall r v, parseVersion r = Some v -> nonneg v).
  { intros r u. unfold parseVersion. destruct (_ && _) eqn:E; [|done]. intros [= <-].
    bool_to_prop. by apply version_of_nonneg. }
  unfold parseHostVersion. destruct (before_hyphen (trim s)) as [r [t|]];
    destruct (_ : bool); try done; apply G.
Qed.

Lemma all_terms_spec v terms :
  match all_terms v terms with
  | None => exists t, t ∈ terms /\ satisfiesTerm v t = None
  | Some true => forall t, t ∈ terms -> satisfiesTerm v t = Some true
  | Some false => (forall t, t ∈ terms -> satisfiesTerm v t <> None) /\
                  exists t, t ∈ terms /\ satisfiesTerm v t = Some false
  end.
Proof.
  induction terms as [|t terms IH]; cbn; [intros t ?%not_elem_of_nil; done|].
  destruct (satisfiesTerm v t) as [b|] eqn:E; [|exists t; split; [by left|done]].
  destruct (all_terms v terms) as [[|]|]; destruct b; cbn.
  - intros u [->|Hu]%elem_of_cons; [done|auto].
  - split; [|exists t; split; [by left|done]].
    intros u [->|Hu]%elem_of_cons; [congruence|]. rewrite (IH u Hu). done.
  - destruct IH as (H & u & Hu & Hf). split; [|exists u; split; [by right|done]].
    intros w [->|Hw]%elem_of_cons; [congruence|auto].
  - destruct IH as (H & u & Hu & Hf). split; [|exists u; split; [by right|done]].
    intros w [->|Hw]%elem_of_cons; [congruence|auto].
  - destruct IH as (u & Hu & Hf). exists u. split; [by right|done].
  - destruct IH as (u & Hu & Hf). exists u. split; [by right|done].
Qed.

(** An alternative that fails for certain: terms, all decided, one of them false. *)
Definition fails (v : Version) (a : ustring) : Prop :=
  terms_of a <> [] /\ (forall t, t ∈ terms_of a -> satisfiesTerm v t <> None) /\
  exists t, t ∈ terms_of a /\ satisfiesTerm v t = Some false.

Lemma any_alternative_spec v alts :
  match any_alternative v alts with
  | None => exists pre a post, alts = pre ++ a :: post /\ Forall (fails v) pre /\
              (terms_of a = [] \/ exists t, t ∈ terms_of a /\ satisfiesTerm v t = None)
  | Some true => exists pre a post, alts = pre ++ a :: post /\ Forall (fails v) pre /\
              terms_of a <> [] /\ forall t, t ∈ terms_of a -> satisfiesTerm v t = Some true
  | Some false => Forall (fails v) alts
  end.
Proof.
  induction alts as [|a alts IH]; cbn [any_alternative]; [constructor|].
  destruct (terms_of a) as [|t ts] eqn:Et.
  { exists [], a, alts. split_and!; [done|constructor|by left]. }
  pose proof (all_terms_spec v (t :: ts)) as H. destruct (all_terms v (t :: ts)) as [[|]|].
  - exists [], a, alts. rewrite Et. split_and!; [done|constructor|done|done].
  - assert (Hf : fails v a) by (unfold fails; rewrite Et; by destruct H).
    destruct (any_alternative v alts) as [[|]|].
    + destruct IH as (pre & b & post & -> & Hp & Hb). exists (a :: pre), b, post.
      split_and!; [done|by constructor|apply Hb|apply Hb].
    + by constructor.
    + destruct IH as (pre & b & post & -> & Hp & Hb). exists (a :: pre), b, post.
      split_and!; [done|by constructor|done].
  - exists [], a, alts. rewrite Et. split_and!; [done|constructor|by right].
Qed.

(** The answer is never a guess: [true] names an alternative all of whose terms hold,
    after alternatives that all fail for certain; [false] means every alternative was
    decided and has a term that fails; anything undecided is reported as such. And a term
    [^b] holds exactly for the versions compatible with [b]. *)
Theorem satisfies_three_valued version range :
  match satisfies version range with
  | None =>
      parseHostVersion version = None \/
      exists v pre a post, parseHostVersion version = Some v /\
        split_or range = pre ++ a :: post /\ Forall (fails v) pre /\
        (terms_of a = [] \/ exists t, t ∈ terms_of a /\ satisfiesTerm v t = None)
  | Some true =>
      exists v pre a post, parseHostVersion version = Some v /\
        split_or range = pre ++ a :: post /\ Forall (fails v) pre /\ terms_of a <> [] /\
        forall t, t ∈ terms_of a -> satisfiesTerm v t = Some true
  | Some false =>
      exists v, parseHostVersion version = Some v /\ Forall (fails v) (split_or range)
  end /\
  (forall v t b n, parseHostVersion version = Some v -> parsePartial t = Some (b, n) ->
     satisfiesTerm v (js "^" ++ t) = Some true <-> compatible v b).
Proof.
  split.
  - unfold satisfies. destruct (parseHostVersion version) as [v|] eqn:Ev; [|by left].
    pose proof (any_alternative_spec v (split_or range)) as H.
    destruct (any_alternative v (split_or range)) as [[|]|].
    + destruct H as (pre & a & post & H). by exists v, pre, a, post.
    + by exists v.
    + right. destruct H as (pre & a & post & H). by exists v, pre, a, post.
  - intros v t b n Hv Hb. unfold satisfiesTerm. rewrite bool_decide_false.
    2: { rewrite !elem_of_cons, elem_of_nil. intros [E|[E|[E|[]]]]; discriminate E. }
    change (operator_of (js "^" ++ t)) with (Caret, t). cbv iota. rewrite Hb.
    rewrite <- (caret_compatible v b n);
      [|by apply parseHostVersion_nonneg in Hv|by apply parsePartial_nonneg in Hb].
    split; [by intros [= E]|by intros ->].
Qed.

(** Where the answer does not keep the header's promises: [^0] admits only 0.0.0, although
    the caret pins a 0.x version to its minor; and an alternative that cannot be read is
    never looked at once an earlier one holds. *)
Theorem caret_zero_admits_nothing : satisfies (js "0.2.0") (js "^0") = Some false.
Proof. done. Qed.

Theorem unreadable_alternative_ignored :
  satisfies (js "1.2.3") (js "not-a-version || ^1") = None /\
  satisfies (js "1.2.3") (js "^1 || not-a-version") = Some true.
Proof. done. Qed.
