(* ===== verification/Address.v ===== *)
(** * Which addresses are off the public internet: [net/address.ts]

    Parsing of address literals and their classification, with the ranges stated again as
    blocks of 32-bit numbers. *)
From S2P Require Import Prelude UString.
Local Open Scope Z_scope.

Inductive AddressKind :=
| Public | Loopback | LinkLocal | Private | Cgnat | Unspecified | Multicast | Reserved.

#[export] Instance AddressKind_eq_dec : EqDecision AddressKind.
Proof. solve_decision. Defined.

Record AddressVerdict := { kind : AddressKind; range : option ustring }.

#[export] Instance AddressVerdict_eq_dec : EqDecision AddressVerdict.
Proof. solve_decision. Defined.

Definition PUBLIC : AddressVerdict := {| kind := Public; range := None |}.
Definition in_range (k : AddressKind) (r : string) : AddressVerdict :=
  {| kind := k; range := Some (js r) |}.

(** ** Literals *)

Definition parse_octet (part : ustring) : option Z :=
  if (length part =? 0)%nat || (3 <? zlen part) || negb (all_digits part) then None
  else if (1 <? zlen part) && starts_with [48] part then None
  else if 255 <? digits_value part then None
  else Some (digits_value part).

Fixpoint parse_octets (parts : list ustring) : option (list Z) :=
  match parts with
  | [] => Some []
  | p :: rest => o ← parse_octet p; os ← parse_octets rest; Some (o :: os)
  end.

Definition parseIPv4 (value : ustring) : option (list Z) :=
  let parts := split_on 46 value in
  if negb (length parts =? 4)%nat then None else parse_octets parts.

Definition hex_digit (c : Z) : option Z :=
  if is_digit c then Some (c - 48)
  else if (97 <=? c) && (c <=? 102) then Some (c - 87)
  else if (65 <=? c) && (c <=? 70) then Some (c - 55)
  else None.

(** [/^[0-9a-fA-F:.]+$/]. *)
Definition is_ipv6_char (c : Z) : bool :=
  match hex_digit c with Some _ => true | None => (c =? 58) || (c =? 46) end.

(** [Number.parseInt(group, 16)] of hexadecimal digits. *)
Definition hex_value (group : ustring) : Z :=
  fold_left (fun n c => 16 * n + default 0 (hex_digit c)) group 0.

(** The groups of one half; an embedded quad only as the last. *)
Fixpoint expand_groups (groups : list ustring) : option (list Z) :=
  match groups with
  | [] => Some []
  | g :: rest =>
      if includes_char 46 g then
        match rest with
        | [] => parseIPv4 g
        | _ => None
        end
      else if (length g =? 0)%nat || (4 <? zlen g) then None
      else
        let word := hex_value g in
        bytes ← expand_groups rest;
        Some (Z.land (Z.shiftr word 8) 255 :: Z.land word 255 :: bytes)
  end.

Definition expand (part : ustring) : option (list Z) :=
  match part with [] => Some [] | _ => expand_groups (split_on 58 part) end.

(** [split("::")]. *)
Fixpoint split_gap (s : ustring) : list ustring :=
  match s with
  | [] => [[]]
  | c :: rest =>
      match rest with
      | d :: rest' =>
          if (c =? 58) && (d =? 58) then [] :: split_gap rest'
          else match split_gap rest with w :: ws => (c :: w) :: ws | [] => [[c]] end
      | [] => [[c]]
      end
  end.

Definition parseIPv6 (value : ustring) : option (list Z) :=
  let address := hd [] (split_on 37 value) in
  if (length address =? 0)%nat || negb (forallb is_ipv6_char address) then None
  else
    match split_gap address with
    | [_] =>
        bytes ← expand address;
        if (length bytes =? 16)%nat then Some bytes else None
    | [h; t] =>
        head ← expand h; tail ← expand t;
        let gap := 16 - zlen head - zlen tail in
        if gap <? 0 then None
        else Some (head ++ repeat 0 (Z.to_nat gap) ++ tail)
    | _ => None
    end.

(** ** Classification *)

Definition octet (bytes : list Z) (i : nat) : Z := nth i bytes 0.

Definition classifyIPv4 (octets : list Z) : AddressVerdict :=
  let a := octet octets 0 in
  let b := octet octets 1 in
  let c := octet octets 2 in
  let d := octet octets 3 in
  if a =? 0 then in_range Unspecified "0.0.0.0/8"
  else if a =? 127 then in_range Loopback "127.0.0.0/8"
  else if a =? 10 then in_range Private "10.0.0.0/8"
  else if (a =? 172) && (16 <=? b) && (b <=? 31) then in_range Private "172.16.0.0/12"
  else if (a =? 192) && (b =? 168) then in_range Private "192.168.0.0/16"
  else if (a =? 100) && (64 <=? b) && (b <=? 127) then in_range Cgnat "100.64.0.0/10"
  else if (a =? 169) && (b =? 254) then in_range LinkLocal "169.254.0.0/16"
  else if (a =? 192) && (b =? 0) && (c =? 0) then in_range Reserved "192.0.0.0/24"
  else if (a =? 192) && (b =? 0) && (c =? 2) then in_range Reserved "192.0.2.0/24 (TEST-NET-1)"
  else if (a =? 198) && ((b =? 18) || (b =? 19)) then in_range Reserved "198.18.0.0/15"
  else if (a =? 198) && (b =? 51) && (c =? 100) then in_range Reserved "198.51.100.0/24 (TEST-NET-2)"
  else if (a =? 203) && (b =? 0) && (c =? 113) then in_range Reserved "203.0.113.0/24 (TEST-NET-3)"
  else if (224 <=? a) && (a <=? 239) then in_range Multicast "224.0.0.0/4"
  else if (a =? 255) && (b =? 255) && (c =? 255) && (d =? 255)
  then in_range Reserved "255.255.255.255"
  else if 240 <=? a then in_range Reserved "240.0.0.0/4"
  else PUBLIC.

Definition all_zero (bytes : list Z) : bool := forallb (fun b => b =? 0) bytes.

Definition classifyIPv6 (bytes : list Z) : AddressVerdict :=
  if negb (length bytes =? 16)%nat then in_range Reserved "unparseable"
  else if all_zero (take 10 bytes) && (octet bytes 10 =? 255) && (octet bytes 11 =? 255)
  then classifyIPv4 (drop 12 bytes)
  else if (octet bytes 0 =? 0) && (octet bytes 1 =? 100) && (octet bytes 2 =? 255) &&
          (octet bytes 3 =? 155) && all_zero (take 8 (drop 4 bytes))
  then classifyIPv4 (drop 12 bytes)
  else if all_zero bytes then in_range Unspecified "::"
  else if all_zero (take 15 bytes) && (octet bytes 15 =? 1) then in_range Loopback "::1"
  else
    let first := octet bytes 0 in
    let second := octet bytes 1 in
    if Z.land first 254 =? 252 then in_range Private "fc00::/7"
    else if (first =? 254) && (Z.land second 192 =? 128) then in_range LinkLocal "fe80::/10"
    else if first =? 255 then in_range Multicast "ff00::/8"
    else if (first =? 32) && (second =? 1) && (octet bytes 2 =? 13) && (octet bytes 3 =? 184)
    then in_range Reserved "2001:db8::/32"
    else PUBLIC.

Definition classifyAddress (value : ustring) : option AddressVerdict :=
  let bare := if starts_with [91] value && ends_with [93] value then slice value 1 (-1) else value in
  match parseIPv4 bare with
  | Some quad => Some (classifyIPv4 quad)
  | None => classifyIPv6 <$> parseIPv6 bare
  end.

(** ** The ranges as blocks of addresses *)

Record Block := { base : list Z; bits : Z; what : AddressVerdict }.

(** An address as a 32-bit number. *)
Definition number (octets : list Z) : Z :=
  ((octet octets 0 * 256 + octet octets 1) * 256 + octet octets 2) * 256 + octet octets 3.

Definition in_block (b : Block) (n : Z) : bool :=
  (number (base b) <=? n) && (n <? number (base b) + 2 ^ (32 - bits b)).

Definition blocks : list Block :=
  [{| base := [0; 0; 0; 0]; bits := 8; what := in_range Unspecified "0.0.0.0/8" |};
   {| base := [127; 0; 0; 0]; bits := 8; what := in_range Loopback "127.0.0.0/8" |};
   {| base := [10; 0; 0; 0]; bits := 8; what := in_range Private "10.0.0.0/8" |};
   {| base := [172; 16; 0; 0]; bits := 12; what := in_range Private "172.16.0.0/12" |};
   {| base := [192; 168; 0; 0]; bits := 16; what := in_range Private "192.168.0.0/16" |};
   {| base := [100; 64; 0; 0]; bits := 10; what := in_range Cgnat "100.64.0.0/10" |};
   {| base := [169; 254; 0; 0]; bits := 16; what := in_range LinkLocal "169.254.0.0/16" |};
   {| base := [192; 0; 0; 0]; bits := 24; what := in_range Reserved "192.0.0.0/24" |};
   {| base := [192; 0; 2; 0]; bits := 24; what := in_range Reserved "192.0.2.0/24 (TEST-NET-1)" |};
   {| base := [198; 18; 0; 0]; bits := 15; what := in_range Reserved "198.18.0.0/15" |};
   {| base := [198; 51; 100; 0]; bits := 24;
      what := in_range Reserved "198.51.100.0/24 (TEST-NET-2)" |};
   {| base := [203; 0; 113; 0]; bits := 24;
      what := in_range Reserved "203.0.113.0/24 (TEST-NET-3)" |};
   {| base := [224; 0; 0; 0]; bits := 4; what := in_range Multicast "224.0.0.0/4" |};
   {| base := [255; 255; 255; 255]; bits := 32; what := in_range Reserved "255.255.255.255" |};
   {| base := [240; 0; 0; 0]; bits := 4; what := in_range Reserved "240.0.0.0/4" |}].

Definition is_octet (o : Z) : Prop := 0 <= o <= 255.

(** The first block that holds the address. *)
Definition block_verdict (n : Z) : AddressVerdict :=
  match List.find (fun b => in_block b n) blocks with Some b => what b | None => PUBLIC end.

Lemma if_congr {A} (p q : bool) (x y z : A) : p = q -> y = z -> (if p then x else y) = (if q then x else z).
Proof. by intros -> ->. Qed.

Ltac octet_block :=
  unfold in_block, number, octet; cbn [base bits nth];
  match goal with |- context [2 ^ ?e] => let v := eval vm_compute in (2 ^ e) in change (2 ^ e) with v end;
  apply Bool.eq_iff_eq_true; rewrite ?andb_true_iff, ?orb_true_iff, ?Z.eqb_eq, ?Z.leb_le, ?Z.ltb_lt;
  lia.

Lemma classifyIPv4_blocks a b c d :
  is_octet a -> is_octet b -> is_octet c -> is_octet d ->
  classifyIPv4 [a; b; c; d] = block_verdict (number [a; b; c; d]).
Proof.
  unfold is_octet. intros Ha Hb Hc Hd.
  unfold classifyIPv4, block_verdict, blocks. cbn [octet nth List.find].
  repeat (match goal with
          | |- (if ?p then _ else _) = match (if ?q then _ else _) with _ => _ end =>
              replace q with p by octet_block; destruct p; [done|]
          end).
  done.
Qed.

(** ** One spelling per dotted quad *)

Definition dotted (octets : list Z) : ustring := join [46] (map decimal octets).

Definition digit_chars : list Z := [48; 49; 50; 51; 52; 53; 54; 55; 56; 57].

Lemma digit_in c : is_digit c = true -> In c digit_chars.
Proof. intros H. apply is_digit_spec in H. cbn. lia. Qed.

(** The accepted spellings of an octet, by enumeration. *)
Definition spelled (p : ustring) : bool :=
  match parse_octet p with
  | Some o => bool_decide (p = decimal o) && (0 <=? o) && (o <=? 255)
  | None => true
  end.

Lemma parse_octet_spelled p o : parse_octet p = Some o -> p = decimal o /\ is_octet o.
Proof.
  intros Hp. assert (Hs : spelled p = true).
  { assert (Hd : all_digits p = true /\ (length p <= 3)%nat).
    { unfold parse_octet in Hp. destruct (length p =? 0)%nat; [done|].
      destruct (Z.ltb_spec 3 (zlen p)); [done|]. cbn in Hp.
      destruct (all_digits p); [|done]. split; [done|lia]. }
    destruct Hd as [Hd Hl]. clear Hp.
    assert (E1 : forallb (fun x => spelled [x]) digit_chars = true) by (by vm_compute).
    assert (E2 : forallb (fun x => forallb (fun y => spelled [x; y]) digit_chars) digit_chars = true)
      by (by vm_compute).
    assert (E3 : forallb (fun x => forallb (fun y => forallb (fun z => spelled [x; y; z])
      digit_chars) digit_chars) digit_chars = true) by (by vm_compute).
    rewrite forallb_forall in E1, E2, E3.
    destruct p as [|x [|y [|z [|? ?]]]]; cbn in Hl; try lia; [done| | |]; cbn in Hd; bool_to_prop.
    - by apply E1, digit_in.
    - specialize (E2 x (digit_in x ltac:(assumption))). rewrite forallb_forall in E2.
      by apply E2, digit_in.
    - specialize (E3 x (digit_in x ltac:(assumption))). rewrite forallb_forall in E3.
      specialize (E3 y (digit_in y ltac:(assumption))). rewrite forallb_forall in E3.
      by apply E3, digit_in. }
  unfold spelled in Hs. rewrite Hp in Hs. bool_to_prop. by split.
Qed.

Lemma parse_octet_decimal o : is_octet o -> parse_octet (decimal o) = Some o.
Proof.
  intros Ho. assert (E : forallb (fun n => bool_decide (parse_octet (decimal (Z.of_nat n)) = Some (Z.of_nat n)))
    (List.seq 0 256) = true) by (by vm_compute).
  rewrite forallb_forall in E. specialize (E (Z.to_nat o)). rewrite Z2Nat.id in E by (destruct Ho; lia).
  apply bool_decide_eq_true in E; [done|]. apply in_seq. destruct Ho. lia.
Qed.

Lemma parse_octets_spec parts os :
  parse_octets parts = Some os <-> parts = map decimal os /\ Forall is_octet os.
Proof.
  revert os. induction parts as [|p parts IH]; intros os; cbn [parse_octets].
  - split; [by intros [= <-]|]. intros [H _]. by destruct os.
  - split.
    + destruct (parse_octet p) as [o|] eqn:Ep; [|done]. cbn.
      destruct (parse_octets parts) as [rest|] eqn:Er; [|done]. cbn. intros [= <-].
      apply parse_octet_spelled in Ep as [-> Ho]. destruct (proj1 (IH rest) eq_refl) as [-> Hr].
      split; [done|by constructor].
    + destruct os as [|o os]; [by intros []|]. cbn [map]. intros [[= -> ->] H].
      apply Forall_cons in H as [Ho H]. rewrite parse_octet_decimal by done. cbn.
      by rewrite (proj2 (IH os) (conj eq_refl H)).
Qed.

Lemma decimal_digits o c : 0 <= o -> In c (decimal o) -> 48 <= c <= 57.
Proof.
  intros Ho Hin. destruct (decimal_spec o Ho) as (_ & Hd & _). rewrite Forall_forall in Hd.
  by apply Hd, list_elem_of_In.
Qed.

Lemma parseIPv4_spec s os :
  parseIPv4 s = Some os <-> length os = 4%nat /\ Forall is_octet os /\ s = dotted os.
Proof.
  unfold parseIPv4, dotted. split.
  - destruct (Nat.eqb_spec (length (split_on 46 s)) 4) as [Hl|]; [|done]. cbn [negb].
    intros Hp. apply parse_octets_spec in Hp as [Hp Ho]. split_and!; [|done|].
    + by rewrite Hp, length_map in Hl.
    + by rewrite <- Hp, join_split_on.
  - intros (Hl & Ho & ->). rewrite split_on_join.
    + rewrite length_map, Hl. cbn. by apply parse_octets_spec.
    + intros E. apply (f_equal length) in E. rewrite length_map, Hl in E. done.
    + rewrite Forall_map, Forall_forall. intros o Hin Hdot. rewrite Forall_forall in Ho.
      specialize (Ho _ Hin). apply decimal_digits in Hdot; [lia|]. destruct Ho. lia.
Qed.

Lemma join_first_char a rest :
  is_octet a -> exists c tail, join [46] (decimal a :: rest) = c :: tail /\ 48 <= c <= 57.
Proof.
  intros [H _]. destruct (decimal_spec a H) as (Hne & Hd & _).
  destruct (decimal a) as [|c ds]; [done|]. apply Forall_cons in Hd as [Hc _].
  destruct rest as [|r rest]; cbn; eexists _, _; by split.
Qed.

Lemma land_255_octet x : 0 <= x -> is_octet (Z.land x 255).
Proof.
  intros Hx. unfold is_octet. change 255 with (Z.ones 8). rewrite Z.land_ones by lia.
  pose proof (Z.mod_pos_bound x (2 ^ 8)). change (Z.ones 8) with 255. lia.
Qed.

Lemma hex_value_nonneg g : 0 <= hex_value g.
Proof.
  unfold hex_value. assert (G : forall n, 0 <= n ->
    0 <= fold_left (fun n c => 16 * n + default 0 (hex_digit c)) g n).
  { induction g as [|c g IH]; intros n Hn; cbn; [done|]. apply IH.
    assert (0 <= default 0 (hex_digit c)).
    { unfold hex_digit, is_digit. repeat case_match; cbn; bool_to_prop; lia. }
    lia. }
  by apply G.
Qed.

Lemma expand_groups_octets groups : forall bs, expand_groups groups = Some bs -> Forall is_octet bs.
Proof.
  induction groups as [|g groups IH]; intros bs H; cbn in H; [by injection H as <-|].
  destruct (includes_char 46 g).
  - destruct groups; [|done]. by apply parseIPv4_spec in H as (_ & ? & _).
  - destruct (_ || _); [done|]. destruct (expand_groups groups) as [rest|]; [|done].
    injection H as <-. pose proof (hex_value_nonneg g).
    constructor; [apply land_255_octet; by apply Z.shiftr_nonneg|].
    constructor; [by apply land_255_octet|by apply IH].
Qed.

Lemma expand_octets p bs : expand p = Some bs -> Forall is_octet bs.
Proof. unfold expand. destruct p; [by intros [= <-]|apply expand_groups_octets]. Qed.

Lemma parseIPv6_bytes s bs : parseIPv6 s = Some bs -> length bs = 16%nat /\ Forall is_octet bs.
Proof.
  unfold parseIPv6. destruct (_ || _); [done|].
  destruct (split_gap _) as [|h [|t [|]]]; try done.
  - destruct (expand _) as [b|] eqn:E; [|done]. cbn. destruct (Nat.eqb_spec (length b) 16); [|done].
    intros [= <-]. split; [done|]. by apply expand_octets in E.
  - destruct (expand h) as [hb|] eqn:Eh; [|done]. destruct (expand t) as [tb|] eqn:Et; [|done].
    cbn. destruct (Z.ltb_spec (16 - zlen hb - zlen tb) 0); [done|]. intros [= <-].
    rewrite !length_app, repeat_length. split; [lia|]. apply Forall_app.
    split; [by apply expand_octets in Eh|]. apply Forall_app. split; [|by apply expand_octets in Et].
    apply Forall_forall. intros x Hx. apply list_elem_of_In, repeat_spec in Hx as ->.
    unfold is_octet. lia.
Qed.

(** A dotted quad is read as its octets. *)
Lemma classify_dotted a b c d : is_octet a -> is_octet b -> is_octet c -> is_octet d ->
  classifyAddress (dotted [a; b; c; d]) = Some (classifyIPv4 [a; b; c; d]).
Proof.
  intros Ha Hb Hc Hd. unfold classifyAddress.
  assert (Hbare : starts_with [91] (dotted [a; b; c; d]) = false).
  { unfold dotted. cbn [map].
    destruct (join_first_char a [decimal b; decimal c; decimal d] Ha) as (x & tail & -> & Hx).
    cbn [starts_with]. by rewrite (proj2 (Z.eqb_neq 91 x) ltac:(lia)). }
  rewrite Hbare. cbn [andb].
  rewrite (proj2 (parseIPv4_spec (dotted [a; b; c; d]) [a; b; c; d])); [done|].
  split_and!; [done| |done]. repeat (apply Forall_cons_2; [done|]). apply Forall_nil_2.
Qed.

(** The classifier is exact. A dotted quad has one accepted spelling, and an address
    spelled so gets the verdict of the first listed block its 32-bit number falls in, or is
    public when in none; the two encodings of an IPv4 address in IPv6 get the verdict of the
    address they carry; and a parsed IPv6 literal is sixteen bytes. *)
Theorem classifyAddress_exact :
  (forall s os, parseIPv4 s = Some os <-> length os = 4%nat /\ Forall is_octet os /\ s = dotted os) /\
  (forall a b c d, is_octet a -> is_octet b -> is_octet c -> is_octet d ->
     let quad := [a; b; c; d] in
     classifyAddress (dotted quad) = Some (block_verdict (number quad)) /\
     classifyIPv6 (repeat 0 10 ++ [255; 255] ++ quad) = block_verdict (number quad) /\
     classifyIPv6 ([0; 100; 255; 155] ++ repeat 0 8 ++ quad) = block_verdict (number quad)) /\
  (forall s bs, parseIPv6 s = Some bs -> length bs = 16%nat /\ Forall is_octet bs).
Proof.
  split; [apply parseIPv4_spec|]. split; [|apply parseIPv6_bytes].
  intros a b c d Ha Hb Hc Hd quad.
  pose proof (classifyIPv4_blocks a b c d Ha Hb Hc Hd) as Hblock. split_and!; [|exact Hblock|exact Hblock].
  subst quad. rewrite classify_dotted by done. exact (f_equal Some Hblock).
Qed.

(** The deprecated IPv4-compatible form and the 6to4 prefix carry an IPv4 address that is not
    decoded: both of these name 127.0.0.1 and are called public. *)
Theorem other_embeddings_public :
  classifyAddress (js "::127.0.0.1") = Some PUBLIC /\
  classifyAddress (js "2002:7f00:1::") = Some PUBLIC.
Proof. by vm_compute. Qed.
