(* ===== verification/Editor.v ===== *)
(** * The input line: [packages/cli/src/editor.ts]

    The reducer of the terminal's input buffer. A value is its list of code points, which is
    what [chars] makes of a string, and positions are indices into it. *)
From S2P Require Import Prelude UString.
Local Open Scope js_scope.
Local Open Scope Z_scope.

Definition HISTORY_LIMIT : Z := 200.
Definition UNDO_LIMIT : Z := 100.

Record EditorSnapshot := { s_value : ustring; s_cursor : Z }.
Record EditorSearch := { query : ustring; index : Z }.

Record EditorState := {
  value : ustring; cursor : Z; history : list ustring; historyOffset : Z; draft : ustring;
  past : list EditorSnapshot; future : list EditorSnapshot; search : option EditorSearch;
  anchor : option Z }.

Definition EMPTY_EDITOR : EditorState :=
  {| value := []; cursor := 0; history := []; historyOffset := 0; draft := []; past := [];
     future := []; search := None; anchor := None |}.

Inductive MotionKind :=
| MLeft | MRight | MHome | MEnd | MWordLeft | MWordRight | MLineUp | MLineDown
| MBufferStart | MBufferEnd.

(** [Outside]: submit, cancel, exit, arm, scroll, pointer, reasoning, paste and none, which
    are the caller's. *)
Inductive Intent :=
| Insert (text : ustring) | Newline | Backspace | Delete
| Motion (m : MotionKind) | Extend (to : MotionKind)
| SelectAll | CopySelection | CutSelection
| KillToStart | KillToEnd | KillWord | KillWordForward
| HistoryPrev | HistoryNext | Undo | Redo
| SearchOpen | SearchAccept | SearchCancel | Outside.

(** *** Updates of a state *)

Definition with_text (v : ustring) (c : Z) (s : EditorState) : EditorState :=
  {| value := v; cursor := c; history := history s; historyOffset := historyOffset s;
     draft := draft s; past := past s; future := future s; search := search s;
     anchor := anchor s |}.
Definition with_cursor (c : Z) (s : EditorState) : EditorState := with_text (value s) c s.
Definition with_undo (p f : list EditorSnapshot) (s : EditorState) : EditorState :=
  {| value := value s; cursor := cursor s; history := history s;
     historyOffset := historyOffset s; draft := draft s; past := p; future := f;
     search := search s; anchor := anchor s |}.
Definition with_browsing (offset : Z) (d : ustring) (s : EditorState) : EditorState :=
  {| value := value s; cursor := cursor s; history := history s; historyOffset := offset;
     draft := d; past := past s; future := future s; search := search s; anchor := anchor s |}.
Definition with_search (q : option EditorSearch) (s : EditorState) : EditorState :=
  {| value := value s; cursor := cursor s; history := history s;
     historyOffset := historyOffset s; draft := draft s; past := past s; future := future s;
     search := q; anchor := anchor s |}.
Definition with_anchor (a : option Z) (s : EditorState) : EditorState :=
  {| value := value s; cursor := cursor s; history := history s;
     historyOffset := historyOffset s; draft := draft s; past := past s; future := future s;
     search := search s; anchor := a |}.

(** *** Edits *)

Definition clamp (c len : Z) : Z := Z.max 0 (Z.min c len).

Definition snapshot (s : EditorState) : EditorSnapshot :=
  {| s_value := value s; s_cursor := cursor s |}.

Definition push_past (s : EditorState) : list EditorSnapshot :=
  slice_from (past s ++ [snapshot s]) (- UNDO_LIMIT).

Definition remember (coalesce : bool) (s : EditorState) : EditorState :=
  match last (past s) with
  | Some top =>
      if coalesce && (zlen (future s) =? 0) then with_undo (past s) [] s
      else if bool_decide (s_value top = value s) then with_undo (past s) [] s
      else with_undo (push_past s) [] s
  | None => with_undo (push_past s) [] s
  end.

Definition replaceAll (v : ustring) (s : EditorState) : EditorState := with_text v (zlen v) s.

Definition insert (text : ustring) (s : EditorState) : EditorState :=
  let r := remember (negb (includes_char 10 text)) s in
  let current := value r in
  let pos := clamp (cursor r) (zlen current) in
  with_text (current.[: pos] ++ text ++ current.[pos :]) (pos + zlen text) r.

Definition deleteBack (s : EditorState) : EditorState :=
  let pos := clamp (cursor s) (zlen (value s)) in
  if pos =? 0 then s
  else with_text ((value s).[: pos - 1] ++ (value s).[pos :]) (pos - 1)
         (remember false s).

Definition deleteForward (s : EditorState) : EditorState :=
  let pos := clamp (cursor s) (zlen (value s)) in
  if zlen (value s) <=? pos then s
  else
    let r := remember false s in
    with_text ((value s).[: pos] ++ (value s).[pos + 1 :]) (cursor r) r.

(** *** Words *)

Definition isSeparator (c : option Z) : bool :=
  match c with None => true | Some ch => is_space ch end.

(** [while (index > 0 && p(current[index - 1])) index -= 1]. *)
Fixpoint back_while (p : option Z -> bool) (current : ustring) (fuel : nat) (i : Z) : Z :=
  match fuel with
  | O => i
  | S fuel' =>
      if (0 <? i) && p (at_index current (i - 1)) then back_while p current fuel' (i - 1) else i
  end.

(** [while (index < current.length && p(current[index])) index += 1]. *)
Fixpoint forward_while (p : option Z -> bool) (current : ustring) (fuel : nat) (i : Z) : Z :=
  match fuel with
  | O => i
  | S fuel' =>
      if (i <? zlen current) && p (at_index current i)
      then forward_while p current fuel' (i + 1) else i
  end.

(** Each loop moves by one within the text, or downwards from where it stands. *)
Definition loop_fuel (current : ustring) (i : Z) : nat := (length current + Z.to_nat i)%nat.

Definition wordStart (current : ustring) (pos : Z) : Z :=
  let n := loop_fuel current pos in
  back_while (fun c => negb (isSeparator c)) current n (back_while isSeparator current n pos).

Definition wordEnd (current : ustring) (pos : Z) : Z :=
  let n := loop_fuel current pos in
  forward_while (fun c => negb (isSeparator c)) current n (forward_while isSeparator current n pos).

Definition killWord (s : EditorState) : EditorState :=
  let pos := wordStart (value s) (clamp (cursor s) (zlen (value s))) in
  if pos =? cursor s then s
  else with_text ((value s).[: pos] ++ (value s).[cursor s :]) pos (remember false s).

Definition killWordForward (s : EditorState) : EditorState :=
  let pos := clamp (cursor s) (zlen (value s)) in
  let upto := wordEnd (value s) pos in
  if upto =? pos then s
  else
    let r := remember false s in
    with_text ((value s).[: pos] ++ (value s).[upto :]) (cursor r) r.

(** *** Lines *)

Definition not_newline (c : option Z) : bool := negb (bool_decide (c = Some 10)).

(** [lineAt]: where the line starts and ends. *)
Definition lineAt (v : ustring) (c : Z) : Z * Z :=
  let pos := clamp c (zlen v) in
  let n := loop_fuel v pos in
  (back_while not_newline v n pos, forward_while not_newline v n pos).

Definition count_newlines (l : ustring) : Z := zlen (List.filter (fun c => c =? 10) l).

Record LineInfo := { line : Z; lines : Z; column : Z }.

Definition lineInfo (s : EditorState) : LineInfo :=
  let pos := clamp (cursor s) (zlen (value s)) in
  {| line := count_newlines ((value s).[: pos]); lines := count_newlines (value s) + 1;
     column := pos - fst (lineAt (value s) pos) |}.

Definition moveLine (up : bool) (s : EditorState) : EditorState :=
  let len := zlen (value s) in
  let pos := clamp (cursor s) len in
  let '(here_start, here_end) := lineAt (value s) pos in
  let col := pos - here_start in
  if up then
    if here_start =? 0 then s
    else let '(p_start, p_end) := lineAt (value s) (here_start - 1) in
         with_cursor (Z.min (p_start + col) p_end) s
  else if len <=? here_end then s
  else let '(n_start, n_end) := lineAt (value s) (here_end + 1) in
       with_cursor (Z.min (n_start + col) n_end) s.

(** *** History *)

Definition historyPrev (s : EditorState) : EditorState :=
  if zlen (history s) =? 0 then s
  else
    let offset := Z.min (historyOffset s + 1) (zlen (history s)) in
    match at_index (history s) (zlen (history s) - offset) with
    | None => s
    | Some entry =>
        replaceAll entry
          (with_browsing offset (if historyOffset s =? 0 then value s else draft s)
             (remember false s))
    end.

Definition historyNext (s : EditorState) : EditorState :=
  if historyOffset s =? 0 then s
  else
    let offset := historyOffset s - 1 in
    let r := remember false s in
    if offset =? 0 then replaceAll (draft s) (with_browsing 0 (draft r) r)
    else
      match at_index (history s) (zlen (history s) - offset) with
      | None => s
      | Some entry => replaceAll entry (with_browsing offset (draft r) r)
      end.

(** *** Reverse search *)

Fixpoint collect_matches (q : ustring) (newest_first seen : list ustring) : list ustring :=
  match newest_first with
  | [] => []
  | e :: rest =>
      if bool_decide (e ∈ seen) then collect_matches q rest seen
      else if bool_decide (q = []) || includes q (lower e)
      then e :: collect_matches q rest (e :: seen)
      else collect_matches q rest seen
  end.

Definition searchMatches (s : EditorState) : list ustring :=
  collect_matches (lower (default [] (query <$> search s))) (rev (history s)) [].

Definition searchSelection (s : EditorState) : option ustring :=
  let found := searchMatches s in
  at_index found (clamp (default 0 (index <$> search s)) (Z.max 0 (zlen found - 1))).

Definition searchStep (delta : Z) (s : EditorState) : EditorState :=
  match search s with
  | None => s
  | Some q =>
      let found := searchMatches s in
      if zlen found =? 0 then s
      else with_search
             (Some {| query := query q; index := clamp (index q + delta) (zlen found - 1) |}) s
  end.

Definition searchType (text : ustring) (s : EditorState) : EditorState :=
  match search s with
  | None => s
  | Some q => with_search (Some {| query := query q ++ text; index := 0 |}) s
  end.

Definition searchBackspace (s : EditorState) : EditorState :=
  match search s with
  | None => s
  | Some q => with_search (Some {| query := slice (query q) 0 (-1); index := 0 |}) s
  end.

Definition searchAccept (s : EditorState) : EditorState :=
  match searchSelection s with
  | None => with_search None s
  | Some chosen => replaceAll chosen (with_search None (remember false s))
  end.

(** *** Undo *)

Definition undo (s : EditorState) : EditorState :=
  match last (past s) with
  | None => s
  | Some p =>
      with_browsing 0 (draft s)
        (with_undo (slice (past s) 0 (-1)) (snapshot s :: future s)
           (with_text (s_value p) (clamp (s_cursor p) (zlen (s_value p))) s))
  end.

Definition redo (s : EditorState) : EditorState :=
  match future s with
  | [] => s
  | n :: rest =>
      with_undo (push_past s) rest
        (with_text (s_value n) (clamp (s_cursor n) (zlen (s_value n))) s)
  end.

(** *** Selection *)

Definition selectionRange (s : EditorState) : option (Z * Z) :=
  match anchor s with
  | None => None
  | Some a => if a =? cursor s then None
              else if a <? cursor s then Some (a, cursor s) else Some (cursor s, a)
  end.

Definition deleteRange (s : EditorState) : EditorState :=
  match selectionRange s with
  | None => with_anchor None s
  | Some (from, upto) =>
      with_anchor None
        (with_text ((value s).[: from] ++ (value s).[upto :]) from (remember false s))
  end.

Definition replacesSelection (i : Intent) : bool :=
  match i with Insert _ | Newline | Backspace | Delete => true | _ => false end.

(** *** The reducer *)

Definition apply_motion (m : MotionKind) (s : EditorState) : EditorState :=
  match m with
  | MLeft => with_cursor (clamp (cursor s - 1) (zlen (value s))) s
  | MRight => with_cursor (clamp (cursor s + 1) (zlen (value s))) s
  | MHome => with_cursor (fst (lineAt (value s) (cursor s))) s
  | MEnd => with_cursor (snd (lineAt (value s) (cursor s))) s
  | MBufferStart => with_cursor 0 s
  | MBufferEnd => with_cursor (zlen (value s)) s
  | MWordLeft => with_cursor (wordStart (value s) (cursor s)) s
  | MWordRight => with_cursor (wordEnd (value s) (cursor s)) s
  | MLineUp => moveLine true s
  | MLineDown => moveLine false s
  end.

Definition killToStart (s : EditorState) : EditorState :=
  let start := fst (lineAt (value s) (cursor s)) in
  if start =? cursor s then s
  else with_text ((value s).[: start] ++ (value s).[cursor s :]) start
         (remember false s).

Definition killToEnd (s : EditorState) : EditorState :=
  let stop := snd (lineAt (value s) (cursor s)) in
  if stop =? cursor s then s
  else
    let r := remember false s in
    with_text ((value s).[: cursor s] ++ (value s).[stop :]) (cursor r) r.

Definition applyToLine (s : EditorState) (i : Intent) : EditorState :=
  match search s with
  | Some _ =>
      match i with
      | Insert t => searchType t s
      | Backspace => searchBackspace s
      | HistoryPrev | Motion MLineUp => searchStep 1 s
      | HistoryNext | Motion MLineDown => searchStep (-1) s
      | SearchAccept => searchAccept s
      | SearchCancel => with_search None s
      | SearchOpen => s
      | _ => with_search None s
      end
  | None =>
      match i with
      | Insert t => insert t s
      | Newline => insert [10] s
      | Backspace => deleteBack s
      | Delete => deleteForward s
      | Motion m => apply_motion m s
      | KillToStart => killToStart s
      | KillToEnd => killToEnd s
      | KillWord => killWord s
      | KillWordForward => killWordForward s
      | HistoryPrev => historyPrev s
      | HistoryNext => historyNext s
      | Undo => undo s
      | Redo => redo s
      | SearchOpen => with_search (Some {| query := []; index := 0 |}) s
      | SearchAccept | SearchCancel | Outside => s
      | Extend _ | SelectAll | CopySelection | CutSelection => s
      end
  end.

Definition apply_collapsing (s : EditorState) (i : Intent) : EditorState :=
  with_anchor None (applyToLine s i).

(** [applyIntent] after the replacement of a selection. The two recursive calls of the source
    are one level deep: a cut leaves no selection, and a motion neither replaces one nor
    extends one. *)
Definition apply_plain (s : EditorState) (i : Intent) : EditorState :=
  match i with
  | Extend to =>
      let a := default (cursor s) (anchor s) in
      with_anchor (Some a) (apply_collapsing (with_anchor None s) (Motion to))
  | CutSelection => deleteRange s
  | CopySelection => s
  | SelectAll => with_anchor (Some 0) (with_cursor (zlen (value s)) s)
  | _ => apply_collapsing s i
  end.

Definition applyIntent (s : EditorState) (i : Intent) : EditorState :=
  match search s, selectionRange s with
  | None, Some _ =>
      if replacesSelection i then
        match i with
        | Backspace | Delete => deleteRange s
        | _ => apply_plain (deleteRange s) i
        end
      else apply_plain s i
  | _, _ => apply_plain s i
  end.

(** *** Submitting *)

(** Trailing backslashes. *)
Fixpoint leading_backslashes (l : ustring) : Z :=
  match l with c :: rest => if c =? 92 then 1 + leading_backslashes rest else 0 | [] => 0 end.

Inductive Submission := Send | ContinueLine.

Definition submitIntent (s : EditorState) : Submission :=
  if negb (clamp (cursor s) (zlen (value s)) =? zlen (value s)) then Send
  else if leading_backslashes (rev (value s)) mod 2 =? 1 then ContinueLine else Send.

Definition continueLine (s : EditorState) : EditorState :=
  let trimmed := (value s).[: -1] in
  applyIntent (with_text trimmed (zlen trimmed) s) Newline.

Definition after_submit (h : list ustring) : EditorState :=
  {| value := []; cursor := 0; history := h; historyOffset := 0; draft := []; past := [];
     future := []; search := None; anchor := None |}.

Definition submit (s : EditorState) : ustring * EditorState :=
  let text := trim (value s) in
  if bool_decide (text = []) then ([], after_submit (history s))
  else
    let h := if bool_decide (last (history s) = Some text) then history s
             else slice_from (history s ++ [text]) (- HISTORY_LIMIT) in
    (text, after_submit h).

(** ** Invariant *)

Definition within (v : ustring) (c : Z) : Prop := 0 <= c <= zlen v.
Definition snap_ok (p : EditorSnapshot) : Prop := within (s_value p) (s_cursor p).

(** What every state the interface can reach satisfies. *)
Record ok (s : EditorState) : Prop := {
  ok_cursor : within (value s) (cursor s);
  ok_anchor : forall a, anchor s = Some a -> within (value s) a;
  ok_past : zlen (past s) <= UNDO_LIMIT;
  ok_snaps : Forall snap_ok (past s) /\ Forall snap_ok (future s);
  ok_history : zlen (history s) <= HISTORY_LIMIT;
  ok_offset : 0 <= historyOffset s <= zlen (history s) }.

(** Everything but the anchor. *)
Definition ok_line (s : EditorState) : Prop := ok (with_anchor None s).

Lemma clamp_within (v : ustring) c : within v (clamp c (zlen v)).
Proof. unfold within, clamp. lia. Qed.

Lemma clamp_id (v : ustring) c : within v c -> clamp c (zlen v) = c.
Proof. unfold within, clamp. lia. Qed.

Lemma keep_last {A} (l : list A) n :
  0 < n -> zlen (slice_from l (- n)) = Z.min (zlen l) n /\
  exists pre, l = pre ++ slice_from l (- n).
Proof.
  intros Hn. replace (- n) with (- Z.of_nat (Z.to_nat n)) by lia.
  rewrite slice_from_neg by lia. rewrite length_drop. split; [lia|].
  exists (take (length l - Z.to_nat n) l). by rewrite take_drop.
Qed.

Lemma Forall_keep_last {A} (P : A -> Prop) l n :
  0 < n -> Forall P l -> Forall P (slice_from l (- n)).
Proof.
  intros Hn H. destruct (keep_last l n Hn) as [_ [pre Hpre]]. rewrite Hpre in H.
  by apply Forall_app in H as [_ ?].
Qed.

Lemma but_last {A} (l : list A) x : slice (l ++ [x]) 0 (-1) = l.
Proof.
  unfold slice, slice_index. rewrite length_app. cbn [length Z.ltb].
  change (0 <? 0) with false. change (-1 <? 0) with true. cbv iota.
  rewrite Z.min_l by lia. cbn [Z.to_nat drop].
  replace (Z.to_nat (Z.max (Z.of_nat (length l + 1) + -1) 0 - 0)) with (length l) by lia.
  apply take_app_length.
Qed.

Lemma push_past_spec s :
  ok s -> zlen (push_past s) <= UNDO_LIMIT /\ Forall snap_ok (push_past s).
Proof.
  intros Hs. unfold push_past. destruct (keep_last (past s ++ [snapshot s]) UNDO_LIMIT) as [Hl _];
    [done|]. split; [lia|]. apply Forall_keep_last; [done|]. apply Forall_app.
  split; [apply Hs|]. constructor; [apply Hs|constructor].
Qed.

Lemma remember_fields b s :
  value (remember b s) = value s /\ cursor (remember b s) = cursor s /\
  history (remember b s) = history s /\ historyOffset (remember b s) = historyOffset s /\
  draft (remember b s) = draft s /\ search (remember b s) = search s /\
  anchor (remember b s) = anchor s /\ future (remember b s) = [].
Proof. unfold remember. destruct (last (past s)); [|done]. by repeat case_match. Qed.

Lemma remember_ok b s : ok s -> ok (remember b s).
Proof.
  intros Hs. destruct (remember_fields b s) as (E1 & E2 & E3 & E4 & _ & _ & E7 & E8).
  destruct (push_past_spec s Hs) as [Hp1 Hp2].
  assert (Hpast : past (remember b s) = past s \/ past (remember b s) = push_past s).
  { unfold remember. destruct (last (past s)); [|by right]. repeat case_match; tauto. }
  split; rewrite ?E1, ?E2, ?E3, ?E4, ?E7, ?E8; try apply Hs.
  - destruct Hpast as [-> | ->]; [apply Hs|done].
  - split; [|constructor]. destruct Hpast as [-> | ->]; [apply Hs|done].
Qed.

Lemma ok_with_text v c s : ok s -> within v c -> ok_line (with_text v c s).
Proof. intros Hs Hc. split; cbn; try done; apply Hs. Qed.

Lemma ok_with_cursor c s : ok s -> within (value s) c -> ok (with_cursor c s).
Proof. intros Hs Hc. split; cbn; try done; apply Hs. Qed.

Lemma ok_drop_anchor s : ok s -> ok_line s.
Proof. intros Hs. split; cbn; try done; apply Hs. Qed.

Lemma ok_with_search q s : ok s -> ok (with_search q s).
Proof. intros Hs. split; cbn; try done; apply Hs. Qed.

(** The text around a hole, and the cursor at its start. *)
Lemma hole_within (v t : ustring) a b :
  0 <= a <= b -> b <= zlen v ->
  zlen (slice v 0 a ++ t ++ slice_from v b) = a + zlen t + (zlen v - b).
Proof.
  intros Ha Hb. rewrite slice_0, slice_from_nonneg by lia.
  length_lia.
Qed.

Lemma hole_cursor (v rest : ustring) a : within v a -> within (slice v 0 a ++ rest) a.
Proof.
  intros [Ha1 Ha2]. unfold within. rewrite slice_0 by lia. length_lia.
Qed.

Lemma back_while_bounds p v n : forall i, 0 <= i -> 0 <= back_while p v n i <= i.
Proof.
  induction n as [|n IH]; intros i Hi; cbn; [lia|].
  destruct (Z.ltb_spec 0 i); cbn; [|lia]. destruct (p _); [|lia].
  specialize (IH (i - 1)). lia.
Qed.

Lemma forward_while_bounds p v n : forall i, i <= zlen v -> i <= forward_while p v n i <= zlen v.
Proof.
  induction n as [|n IH]; intros i Hi; cbn; [lia|].
  destruct (Z.ltb_spec i (zlen v)); cbn; [|lia]. destruct (p _); [|lia].
  specialize (IH (i + 1)). lia.
Qed.

(** With fuel for the distance to the end, the loop stops where the source's does: at an end
    of the text or at a character the test rejects. *)
Lemma back_while_stops p v n : forall i,
  i <= Z.of_nat n ->
  let r := back_while p v n i in r <= 0 \/ p (at_index v (r - 1)) = false.
Proof.
  induction n as [|n IH]; intros i Hi; cbn; [left; lia|].
  destruct (Z.ltb_spec 0 i); cbn; [|left; lia].
  destruct (p (at_index v (i - 1))) eqn:Hp; [|by right]. apply IH. lia.
Qed.

Lemma forward_while_stops p v n : forall i,
  zlen v - i <= Z.of_nat n ->
  let r := forward_while p v n i in zlen v <= r \/ p (at_index v r) = false.
Proof.
  induction n as [|n IH]; intros i Hi; cbn; [left; lia|].
  destruct (Z.ltb_spec i (zlen v)); cbn; [|left; lia].
  destruct (p (at_index v i)) eqn:Hp; [|by right]. apply IH. lia.
Qed.

Lemma wordStart_bounds v i : 0 <= i -> 0 <= wordStart v i <= i.
Proof.
  intros Hi. unfold wordStart. pose proof (back_while_bounds isSeparator v (loop_fuel v i) i Hi).
  pose proof (back_while_bounds (fun c => negb (isSeparator c)) v (loop_fuel v i)
    (back_while isSeparator v (loop_fuel v i) i)). lia.
Qed.

Lemma wordEnd_bounds v i : i <= zlen v -> i <= wordEnd v i <= zlen v.
Proof.
  intros Hi. unfold wordEnd. pose proof (forward_while_bounds isSeparator v (loop_fuel v i) i Hi).
  pose proof (forward_while_bounds (fun c => negb (isSeparator c)) v (loop_fuel v i)
    (forward_while isSeparator v (loop_fuel v i) i)). lia.
Qed.

Lemma lineAt_bounds v c :
  0 <= fst (lineAt v c) <= clamp c (zlen v) /\ clamp c (zlen v) <= snd (lineAt v c) <= zlen v.
Proof.
  unfold lineAt. pose proof (clamp_within v c) as [H1 H2].
  split; [by apply back_while_bounds|by apply forward_while_bounds].
Qed.

(** *** Each edit *)

Lemma ok_cut a rest s :
  ok s -> within (value s) a ->
  ok_line (with_text (slice (value s) 0 a ++ rest) a (remember false s)).
Proof.
  intros Hs Ha. apply ok_with_text; [by apply remember_ok|]. by apply hole_cursor.
Qed.

Lemma insert_ok t s : ok s -> ok_line (insert t s).
Proof.
  intros Hs. unfold insert. destruct (remember_fields (negb (includes_char 10 t)) s) as (E1 & E2 & _).
  apply ok_with_text; [by apply remember_ok|]. rewrite E1, E2.
  pose proof (clamp_within (value s) (cursor s)) as [H1 H2]. unfold within.
  rewrite hole_within by lia. lia.
Qed.

Lemma deleteBack_ok s : ok s -> ok_line (deleteBack s).
Proof.
  intros Hs. unfold deleteBack. pose proof (clamp_within (value s) (cursor s)) as [H1 H2].
  destruct (Z.eqb_spec (clamp (cursor s) (zlen (value s))) 0); [by apply ok_drop_anchor|].
  apply ok_cut; [done|unfold within; lia].
Qed.

Lemma deleteForward_ok s : ok s -> ok_line (deleteForward s).
Proof.
  intros Hs. unfold deleteForward. pose proof (ok_cursor _ Hs) as Hc.
  rewrite (clamp_id _ _ Hc). destruct (Z.leb_spec (zlen (value s)) (cursor s)); [by apply ok_drop_anchor|].
  destruct (remember_fields false s) as (_ & -> & _). by apply ok_cut.
Qed.

Lemma killWord_ok s : ok s -> ok_line (killWord s).
Proof.
  intros Hs. unfold killWord. pose proof (ok_cursor _ Hs) as Hc. rewrite (clamp_id _ _ Hc).
  destruct Hc. pose proof (wordStart_bounds (value s) (cursor s)).
  destruct (Z.eqb_spec (wordStart (value s) (cursor s)) (cursor s)); [by apply ok_drop_anchor|].
  apply ok_cut; [done|unfold within; lia].
Qed.

Lemma killWordForward_ok s : ok s -> ok_line (killWordForward s).
Proof.
  intros Hs. unfold killWordForward. pose proof (ok_cursor _ Hs) as Hc. rewrite (clamp_id _ _ Hc).
  destruct Hc. pose proof (wordEnd_bounds (value s) (cursor s)).
  destruct (Z.eqb_spec (wordEnd (value s) (cursor s)) (cursor s)); [by apply ok_drop_anchor|].
  destruct (remember_fields false s) as (_ & -> & _). apply ok_cut; [done|unfold within; lia].
Qed.

Lemma killToStart_ok s : ok s -> ok_line (killToStart s).
Proof.
  intros Hs. unfold killToStart. pose proof (ok_cursor _ Hs) as Hc.
  pose proof (lineAt_bounds (value s) (cursor s)) as [H1 H2]. rewrite (clamp_id _ _ Hc) in *.
  destruct (_ =? _); [by apply ok_drop_anchor|]. destruct Hc. apply ok_cut; [done|unfold within; lia].
Qed.

Lemma killToEnd_ok s : ok s -> ok_line (killToEnd s).
Proof.
  intros Hs. unfold killToEnd. pose proof (ok_cursor _ Hs) as Hc.
  pose proof (lineAt_bounds (value s) (cursor s)) as [H1 H2]. rewrite (clamp_id _ _ Hc) in *.
  destruct (_ =? _); [by apply ok_drop_anchor|]. destruct Hc.
  destruct (remember_fields false s) as (_ & -> & _). apply ok_cut; [done|unfold within; lia].
Qed.

Lemma apply_motion_ok m s : ok s -> ok (apply_motion m s) /\ value (apply_motion m s) = value s.
Proof.
  intros Hs. pose proof (ok_cursor _ Hs) as Hc.
  pose proof (lineAt_bounds (value s) (cursor s)) as Hl. rewrite (clamp_id _ _ Hc) in Hl.
  destruct Hc as [Hc1 Hc2].
  assert (Hmove : forall c, within (value s) c -> ok (with_cursor c s) /\ value (with_cursor c s) = value s)
    by (intros c Hin; by split; [apply ok_with_cursor|]).
  pose proof (wordStart_bounds (value s) (cursor s)). pose proof (wordEnd_bounds (value s) (cursor s)).
  destruct m; cbn [apply_motion]; try (apply Hmove; unfold within, clamp; lia).
  all: unfold moveLine; rewrite (clamp_id (value s) (cursor s)) by done;
    destruct (lineAt (value s) (cursor s)) as [here_start here_end]; cbn [fst snd] in Hl.
  - destruct (Z.eqb_spec here_start 0); [done|].
    pose proof (lineAt_bounds (value s) (here_start - 1)) as Hp.
    destruct (lineAt (value s) (here_start - 1)) as [p_start p_end]. cbn [fst snd] in Hp.
    apply Hmove. unfold within. lia.
  - destruct (Z.leb_spec (zlen (value s)) here_end); [done|].
    pose proof (lineAt_bounds (value s) (here_end + 1)) as Hp.
    destruct (lineAt (value s) (here_end + 1)) as [n_start n_end]. cbn [fst snd] in Hp.
    apply Hmove. unfold within. lia.
Qed.

Lemma replaceAll_ok v s : ok s -> ok_line (replaceAll v s).
Proof. intros Hs. apply ok_with_text; [done|]. unfold within. lia. Qed.

Lemma ok_with_browsing n d s :
  ok s -> 0 <= n <= zlen (history s) -> ok (with_browsing n d s).
Proof. intros Hs Hn. split; cbn; try done; apply Hs. Qed.

Lemma historyPrev_ok s : ok s -> ok_line (historyPrev s).
Proof.
  intros Hs. unfold historyPrev. pose proof (ok_offset _ Hs).
  destruct (zlen (history s) =? 0); [by apply ok_drop_anchor|].
  destruct (at_index _ _); [|by apply ok_drop_anchor].
  apply replaceAll_ok, ok_with_browsing; [by apply remember_ok|].
  destruct (remember_fields false s) as (_ & _ & -> & _). lia.
Qed.

Lemma historyNext_ok s : ok s -> ok_line (historyNext s).
Proof.
  intros Hs. unfold historyNext. pose proof (ok_offset _ Hs).
  destruct (Z.eqb_spec (historyOffset s) 0); [by apply ok_drop_anchor|].
  destruct (remember_fields false s) as (_ & _ & Eh & _).
  destruct (historyOffset s - 1 =? 0).
  - apply replaceAll_ok, ok_with_browsing; [by apply remember_ok|]. rewrite Eh. lia.
  - destruct (at_index _ _); [|by apply ok_drop_anchor].
    apply replaceAll_ok, ok_with_browsing; [by apply remember_ok|]. rewrite Eh. lia.
Qed.

Lemma past_split s p : last (past s) = Some p -> past s = slice (past s) 0 (-1) ++ [p].
Proof.
  intros H. apply last_Some in H as [pre H]. rewrite H. by rewrite but_last.
Qed.

Lemma undo_ok s : ok s -> ok_line (undo s).
Proof.
  intros Hs. unfold undo. destruct (last (past s)) as [p|] eqn:Hp; [|by apply ok_drop_anchor].
  pose proof (past_split s p Hp) as Hsplit. pose proof (ok_past _ Hs) as Hl.
  pose proof (ok_snaps _ Hs) as [Hf1 Hf2]. pose proof (ok_offset _ Hs).
  rewrite Hsplit in Hl, Hf1. rewrite length_app in Hl. cbn [length] in Hl.
  apply Forall_app in Hf1 as [Hf1 _]. split; cbn; try done; try apply Hs; try lia.
  - apply clamp_within.
  - split; [done|]. constructor; [apply Hs|done].
Qed.

Lemma redo_ok s : ok s -> ok_line (redo s).
Proof.
  intros Hs. unfold redo. destruct (future s) as [|n rest] eqn:Hf; [by apply ok_drop_anchor|].
  pose proof (ok_snaps _ Hs) as [_ Hf2]. rewrite Hf in Hf2. apply Forall_cons in Hf2 as [_ Hf2].
  destruct (push_past_spec s Hs). split; cbn; try done; try apply Hs.
  apply clamp_within.
Qed.

Lemma searchStep_value d s : value (searchStep d s) = value s /\ cursor (searchStep d s) = cursor s.
Proof. unfold searchStep. by repeat case_match. Qed.

Lemma applyToLine_ok s i : ok s -> ok_line (applyToLine s i).
Proof.
  intros Hs. unfold applyToLine. destruct (search s) as [q|] eqn:Eq.
  - assert (Hstep : forall d, ok_line (searchStep d s)).
    { intros d. unfold searchStep. rewrite Eq. destruct (_ =? _); [by apply ok_drop_anchor|].
      by apply ok_drop_anchor, ok_with_search. }
    assert (Hclose : ok_line (with_search None s)) by (by apply ok_drop_anchor, ok_with_search).
    destruct i as [t| | | |[]| | | | | | | | | | | | | | | | ]; try done; try apply Hstep.
    + unfold searchType. rewrite Eq. by apply ok_drop_anchor, ok_with_search.
    + unfold searchBackspace. rewrite Eq. by apply ok_drop_anchor, ok_with_search.
    + by apply ok_drop_anchor.
    + unfold searchAccept. destruct (searchSelection s); [|done].
      apply replaceAll_ok, ok_with_search. by apply remember_ok.
  - destruct i; try by apply ok_drop_anchor.
    + by apply insert_ok.
    + by apply insert_ok.
    + by apply deleteBack_ok.
    + by apply deleteForward_ok.
    + apply ok_drop_anchor. by apply apply_motion_ok.
    + by apply killToStart_ok.
    + by apply killToEnd_ok.
    + by apply killWord_ok.
    + by apply killWordForward_ok.
    + by apply historyPrev_ok.
    + by apply historyNext_ok.
    + by apply undo_ok.
    + by apply redo_ok.
    + by apply ok_drop_anchor, ok_with_search.
Qed.

Lemma collapsing_ok s i : ok s -> ok (apply_collapsing s i).
Proof. intros Hs. by apply applyToLine_ok. Qed.

Lemma deleteRange_ok s : ok s -> ok (deleteRange s) /\ anchor (deleteRange s) = None.
Proof.
  intros Hs. split.
  - unfold deleteRange, selectionRange. pose proof (ok_cursor _ Hs) as [Hc1 Hc2].
    destruct (anchor s) as [a|] eqn:Ea; [|by apply ok_drop_anchor].
    pose proof (ok_anchor _ Hs a Ea) as [Ha1 Ha2].
    destruct (Z.eqb_spec a (cursor s)); [by apply ok_drop_anchor|].
    destruct (Z.ltb_spec a (cursor s)); by apply ok_cut.
  - unfold deleteRange. by destruct (selectionRange s) as [[]|].
Qed.

(** A motion, with or without a search open, changes no text. *)
Lemma motion_value m s : ok s -> value (applyToLine s (Motion m)) = value s.
Proof.
  intros Hs. unfold applyToLine. destruct (search s) as [q|].
  - destruct m; try done; apply searchStep_value.
  - by apply apply_motion_ok.
Qed.

Lemma apply_plain_ok s i : ok s -> ok (apply_plain s i).
Proof.
  intros Hs. destruct i; try (by apply collapsing_ok); cbn [apply_plain].
  - pose proof (ok_drop_anchor _ Hs) as Hd. pose proof (collapsing_ok _ (Motion to) Hd) as Hm.
    pose proof (motion_value to _ Hd) as Hv. split; cbn; try apply Hm.
    intros a [= <-]. cbn in Hv. rewrite Hv. destruct (anchor s) as [b|] eqn:Ea.
    + by apply (ok_anchor _ Hs).
    + apply (ok_cursor _ Hs).
  - assert (Hend : within (value s) (zlen (value s))) by (unfold within; lia).
    assert (Hstart : within (value s) 0) by (unfold within; lia).
    split; cbn; try done; try apply Hs. by intros a [= <-].
  - done.
  - by apply deleteRange_ok.
Qed.

Lemma applyIntent_ok s i : ok s -> ok (applyIntent s i).
Proof.
  intros Hs. unfold applyIntent. destruct (search s); [by apply apply_plain_ok|].
  destruct (selectionRange s); [|by apply apply_plain_ok].
  destruct (deleteRange_ok s Hs) as [Hd _].
  destruct (replacesSelection i); [|by apply apply_plain_ok].
  destruct i; try done; by apply apply_plain_ok.
Qed.

Lemma remember_anchor a b s : with_anchor a (remember b s) = remember b (with_anchor a s).
Proof. unfold remember. cbn. destruct (last (past s)); [|done]. by repeat case_match. Qed.

(** The trailing backslash goes, with whatever was selected. *)
Lemma continueLine_ok s : ok s -> ok (continueLine s).
Proof.
  intros Hs. unfold continueLine. set (trimmed := slice (value s) 0 (-1)).
  set (s1 := with_text trimmed (zlen trimmed) s).
  assert (Hline : ok_line s1) by (apply ok_with_text; [done|unfold within; lia]).
  assert (Hplain : forall u, ok_line u -> ok (apply_plain u Newline)).
  { intros u Hu. pose proof (collapsing_ok _ Newline Hu) as H.
    replace (apply_plain u Newline) with (apply_collapsing (with_anchor None u) Newline); [done|].
    cbn [apply_plain]. unfold apply_collapsing, applyToLine. cbn [search with_anchor].
    destruct (search u); [done|]. unfold insert. rewrite <- remember_anchor. done. }
  unfold applyIntent. destruct (search s1) eqn:Esearch; [by apply Hplain|].
  destruct (selectionRange s1) as [[from upto]|] eqn:Esel; [|by apply Hplain].
  cbn [replacesSelection]. apply Hplain. unfold deleteRange. rewrite Esel.
  assert (Hfrom : within (value s1) from).
  { unfold selectionRange in Esel. change (anchor s1) with (anchor s) in Esel.
    destruct (anchor s) as [a|] eqn:Ea; [|done]. pose proof (ok_anchor _ Hs a Ea) as [Ha _].
    change (cursor s1) with (zlen trimmed) in Esel. unfold within. change (value s1) with trimmed.
    destruct (Z.eqb_spec a (zlen trimmed)); [done|].
    destruct (Z.ltb_spec a (zlen trimmed)); injection Esel as <- <-; lia. }
  pose proof (ok_cut from (slice_from (value s1) upto) _ Hline Hfrom) as H.
  rewrite <- remember_anchor in H. exact H.
Qed.

(** ** Sessions *)

(** What the interface does to the buffer. *)
Inductive Act := Apply (i : Intent) | Enter.

(** Enter sends, or continues the message on a new line. *)
Definition act (a : Act) (s : EditorState) : EditorState :=
  match a with
  | Apply i => applyIntent s i
  | Enter => match submitIntent s with Send => snd (submit s) | ContinueLine => continueLine s end
  end.

Definition session (acts : list Act) (h : list ustring) : EditorState :=
  fold_left (fun s a => act a s) acts (after_submit h).

Lemma after_submit_ok h : zlen h <= HISTORY_LIMIT -> ok (after_submit h).
Proof.
  intros Hh. split; cbn; try done; try (by unfold within; cbn; lia).
Qed.

Lemma submit_ok s : ok s -> ok (snd (submit s)).
Proof.
  intros Hs. unfold submit. case_bool_decide; [apply after_submit_ok, Hs|].
  apply after_submit_ok. case_bool_decide; [apply Hs|].
  destruct (keep_last (history s ++ [trim (value s)]) HISTORY_LIMIT) as [-> _]; [done|lia].
Qed.

Lemma session_ok acts h : zlen h <= HISTORY_LIMIT -> ok (session acts h).
Proof.
  intros Hh. unfold session. pose proof (after_submit_ok h Hh) as H. revert H.
  generalize (after_submit h). induction acts as [|a acts IH]; intros s Hs; [done|].
  cbn. apply IH. destruct a as [i|]; cbn; [by apply applyIntent_ok|].
  destruct (submitIntent s); [by apply submit_ok|by apply continueLine_ok].
Qed.

(** However a session is typed, the cursor and the selection stay inside the text, the
    undo stack and the history stay under their limits, and the place in the history is a
    place in it. *)
Theorem session_invariant acts h :
  zlen h <= HISTORY_LIMIT ->
  let s := session acts h in
  0 <= cursor s <= zlen (value s) /\
  (forall a, anchor s = Some a -> 0 <= a <= zlen (value s)) /\
  zlen (past s) <= UNDO_LIMIT /\ zlen (history s) <= HISTORY_LIMIT /\
  0 <= historyOffset s <= zlen (history s).
Proof.
  intros Hh. cbv zeta. destruct (session_ok acts h Hh) as [H1 H2 H3 _ H5 H6].
  exact (conj H1 (conj H2 (conj H3 (conj H5 H6)))).
Qed.

(** Redo takes back an undo: the text, the cursor and both stacks are as they were. *)
Theorem redo_undo acts h :
  zlen h <= HISTORY_LIMIT ->
  let s := session acts h in
  past s <> [] ->
  let s' := redo (undo s) in
  value s' = value s /\ cursor s' = cursor s /\ past s' = past s /\ future s' = future s.
Proof.
  intros Hh s Hpast. pose proof (session_ok acts h Hh) as Hs. fold s in Hs.
  destruct (last (past s)) as [p|] eqn:Hp; [|by apply last_None in Hp].
  pose proof (past_split s p Hp) as Hsplit. pose proof (ok_past _ Hs) as Hlen.
  pose proof (ok_snaps _ Hs) as [Hsnaps _]. rewrite Hsplit in Hsnaps.
  apply Forall_app in Hsnaps as [_ Hsnap]. apply Forall_cons in Hsnap as [Hsnap _].
  cbv zeta. unfold undo. rewrite Hp. unfold redo. cbn -[slice clamp]. split_and!; try done.
  - apply clamp_id, Hs.
  - unfold push_past, snapshot. cbn -[slice clamp slice_from].
    rewrite (clamp_id _ _ Hsnap).
    assert (E : {| s_value := s_value p; s_cursor := s_cursor p |} = p) by (by destruct p).
    rewrite E, <- Hsplit. destruct (keep_last (past s) UNDO_LIMIT) as [Hkeep [pre Hpre]]; [done|].
    assert (pre = []) as ->.
    { apply (f_equal length) in Hpre. rewrite length_app in Hpre. destruct pre; [done|].
      cbn in Hpre. lia. }
    done.
Qed.

Definition typed (s : string) : Act := Apply (Insert (js s)).
Definition sample : list Act :=
  [typed "hello"; Apply Newline; typed "world"; Apply (Extend MWordLeft); Apply CutSelection;
   Apply Undo; Apply (Motion MHome); typed "> "; Apply KillToEnd].

Lemma session_invariant_witness :
  0 <= cursor (session sample [js "earlier"]) <= zlen (value (session sample [js "earlier"])).
Proof.
  assert (Hh : zlen [js "earlier"] <= HISTORY_LIMIT) by (by vm_compute).
  exact (proj1 (session_invariant sample [js "earlier"] Hh)).
Defined.

Lemma redo_undo_witness :
  value (redo (undo (session sample []))) = js "hello" ++ [10] ++ js "> " /\
  value (redo (undo (session sample []))) = value (session sample []).
Proof.
  split; [by vm_compute|].
  assert (Hh : zlen (@nil ustring) <= HISTORY_LIMIT) by (by vm_compute).
  assert (Hp : past (session sample []) <> []) by (by vm_compute).
  exact (proj1 (redo_undo sample [] Hh Hp)).
Defined.

(** The header says a deletion opens a new undo step and a run of typing is one. Typing after
    a deletion extends the deletion's step: one undo takes back both. *)
Theorem typing_joins_deletion :
  value (session [typed "keep this"; Apply KillWord] []) = js "keep " /\
  value (session [typed "keep this"; Apply KillWord; typed "that"] []) = js "keep that" /\
  value (session [typed "keep this"; Apply KillWord; typed "that"; Apply Undo] []) = js "keep this".
Proof. by vm_compute. Qed.
