(* ===== verification/Coerce.v ===== *)
(** * Typed arguments out of what the model wrote: [tools/coerce.ts], [nearest.ts]

    Both dialects' calls go through [coerceArgs]: a value of the declared type is kept, text is
    read as the declared type where it can be, and everything else is a field error. *)
From S2P Require Import Prelude UString Number Json JsonParse Kinds Trust Tools.
Local Open Scope Z_scope.

(** ** The closest name: [nearest.ts] *)

(** The next row of the edit distance: [left] is the cell just written, [diag] the one above it. *)
Fixpoint next_row (a : Z) (b : ustring) (left diag : Z) (above : list Z) : list Z :=
  match b, above with
  | c :: b', up :: above' =>
      let cell := Z.min (Z.min (diag + (if a =? c then 0 else 1)) (left + 1)) (up + 1) in
      cell :: next_row a b' cell up above'
  | _, _ => []
  end.

Fixpoint rows (a b : ustring) (i : Z) (row : list Z) : list Z :=
  match a with
  | [] => row
  | c :: a' =>
      rows a' b (i + 1) (i :: next_row c b i (hd 0 row) (tail row))
  end.

Definition distance (a b : ustring) : Z :=
  List.last (rows a b 1 (map Z.of_nat (seq 0 (S (length b))))) 0.

Fixpoint best_of (word : ustring) (candidates : list ustring) (best : option (ustring * Z))
  : option (ustring * Z) :=
  match candidates with
  | [] => best
  | c :: rest =>
      let score := distance word c in
      best_of word rest
        match best with
        | Some (_, s) => if score <? s then Some (c, score) else best
        | None => Some (c, score)
        end
  end.

Definition nearest (word : ustring) (candidates : list ustring) : option ustring :=
  match best_of word candidates None with
  | Some (c, score) => if score <=? Z.max 2 (zlen word / 3) then Some c else None
  | None => None
  end.

Example distances :
  map (fun p => distance (js p.1) (js p.2))
    [("kitten", "sitting"); ("", "abc"); ("abc", ""); ("gmial", "gmail"); ("a", "a")]%string =
  [3; 3; 3; 2; 0].
Proof. by vm_compute. Qed.

(** ** Values as text *)

(** [String(value)]. *)
Fixpoint to_text (v : json) : ustring :=
  match v with
  | JNull => js "null"
  | JBool b => js (if b then "true" else "false")
  | JNum w => w
  | JStr s => s
  | JArr l => join [44] (map (fun x => match x with JNull => [] | _ => to_text x end) l)
  | JObj _ => js "[object Object]"
  end.

Definition type_of (v : json) : ustring :=
  js match v with
     | JStr _ => "string" | JNum _ => "number" | JBool _ => "boolean"
     | JNull | JArr _ | JObj _ => "object"
     end.

Definition shorten (value : ustring) : ustring :=
  let single := trim (squeeze_spaces false value) in
  if 60 <? zlen single then take 57 single ++ [0x2026] else single.

(** [JSON.stringify(shorten(String(value)))]. *)
Definition shown (v : json) : ustring := json_string (shorten (to_text v)).

(** ** Numbers in text *)

(** [NUMERIC] matched in full, and [Number] of the match. *)
Definition read_numeric (s : ustring) : option ustring :=
  let '(neg, body) := read_sign s in
  let '(w, after) := span_digits body in
  match w, after with
  | [], 46 :: _ | _ :: _, _ =>
      f ← read_fraction after;
      x ← read_exponent f.2;
      match x.2 with
      | [] => Some (literal_text neg {| whole := w; fraction := f.1; exponent := x.1 |})
      | _ => None
      end
  | [], _ => None
  end.

(** [replace(/(?<=\d)[,_](?=\d)/g, "")]. *)
Fixpoint drop_separators (after_digit : bool) (s : ustring) : ustring :=
  match s with
  | [] => []
  | c :: rest =>
      if after_digit && ((c =? 44) || (c =? 95)) &&
         match rest with d :: _ => is_digit d | [] => false end
      then drop_separators false rest
      else c :: drop_separators (is_digit c) rest
  end.

(** [Number.isInteger] of a finite number as [String] writes it. *)
Definition is_integer_text (w : ustring) : bool :=
  includes (js "e+") w || negb (includes_char 46 w || includes (js "e-") w).

(** ** One value *)

(** A converted value, or what to say. *)
Inductive Converted := Ok (v : json) | Failed (message hint : ustring).



Definition type_name (t : JsonType) : ustring :=
  js match t with
     | TString => "string" | TNumber => "number" | TInteger => "integer"
     | TBoolean => "boolean" | TArray => "array" | TObject => "object"
     end.

(** [typeWords]. *)
Definition typeWords (t : NodeType) : ustring :=
  match t with
  | OneType t => type_name t
  | UnionType ts =>
      match ts with
      | [] => js " or undefined"
      | [t] => type_name t
      | _ => join (js ", ") (map type_name (removelast ts)) ++ js " or " ++
             type_name (List.last ts TString)
      end
  end.

Definition typeName (n : SchemaNode) : ustring :=
  match n_type n with
  | OneType TArray =>
      match n_items n with None => js "list" | Some i => js "list of " ++ typeWords (n_type i) end
  | t => typeWords t
  end.

Definition TRUTHY : list ustring := map js ["true"; "yes"; "y"; "1"; "on"; "enabled"]%string.
Definition FALSY : list ustring := map js ["false"; "no"; "n"; "0"; "off"; "disabled"]%string.

Definition number_of (value : json) : option ustring :=
  match value with
  | JNum w => if finite_text w then Some w else None
  | JStr s =>
      match read_numeric (drop_separators false (trim s)) with
      | Some w => if finite_text w then Some w else None
      | None => None
      end
  | _ => None
  end.

Definition tick : ustring := [96].
Definition double_quoted (s : string) : ustring := 34 :: js s ++ [34].

Definition convert_number (t : JsonType) (value : json) : Converted :=
  match number_of value with
  | None =>
      Failed (js "expected a number, got " ++ shown value ++ js ".")
        (js "Write digits only, with no units or words " ++ [0x2014] ++ js " for example 5.")
  | Some w =>
      if bool_decide (t = TInteger) && negb (is_integer_text w) then
        Failed (js "expected a whole number, got " ++ w ++ js ".")
          (js "Round it to a whole number and write that.")
      else Ok (JNum w)
  end.

Definition convert_boolean (value : json) : Converted :=
  let refused :=
    Failed (js "expected yes or no, got " ++ shown value ++ js ".")
      (js "Write exactly " ++ tick ++ js "true" ++ tick ++ js " or " ++ tick ++ js "false" ++
       tick ++ js ".") in
  match value with
  | JBool b => Ok (JBool b)
  | JNum w =>
      if bool_decide (w = js "1") then Ok (JBool true)
      else if bool_decide (w = js "0") then Ok (JBool false) else refused
  | JStr s =>
      let word := lower (trim s) in
      if bool_decide (word ∈ TRUTHY) then Ok (JBool true)
      else if bool_decide (word ∈ FALSY) then Ok (JBool false) else refused
  | _ => refused
  end.

Definition convert_object (value : json) : Converted :=
  let refused :=
    Failed (js "expected a JSON object.")
      (js "Write it as JSON on one line, e.g. {" ++ double_quoted "key" ++ js ": " ++
       double_quoted "value" ++ js "}.") in
  match value with
  | JObj l => Ok (JObj l)
  | JStr s =>
      if starts_with (js "{") (trim s) then
        match json_parse s with Some (JObj l) => Ok (JObj l) | _ => refused end
      else refused
  | _ => refused
  end.

(** [convertScalar] of one type; [n] is the node the type is of. *)
Definition convert_as (n : SchemaNode) (t : JsonType) (value : json) : Converted :=
  match t with
  | TString =>
      match value with
      | JStr s => Ok (JStr s)
      | JNum _ | JBool _ => Ok (JStr (to_text value))
      | _ =>
          Failed (js "expected text, got " ++ type_of value ++ js ".")
            (js "Write the value on one line, or open it with <<< and close it with >>> for several lines.")
      end
  | TNumber | TInteger => convert_number t value
  | TBoolean => convert_boolean value
  | TObject => convert_object value
  | TArray => Failed (js "expected " ++ typeName n ++ js ".") (js "Check the field list for this tool.")
  end.

Fixpoint first_converted (n : SchemaNode) (ts : list JsonType) (value : json) : option json :=
  match ts with
  | [] => None
  | t :: rest =>
      if bool_decide (t = TString) then first_converted n rest value
      else match convert_as n t value with Ok v => Some v | Failed _ _ => first_converted n rest value end
  end.

(** The type a plain value already has, as the union names it. *)
Definition own_type (ts : list JsonType) (value : json) : option JsonType :=
  match value with
  | JStr _ => Some TString
  | JBool _ => Some TBoolean
  | JNum w =>
      Some (if finite_text w && is_integer_text w && bool_decide (TInteger ∈ ts) then TInteger else TNumber)
  | _ => None
  end.

Definition convertUnion (n : SchemaNode) (ts : list JsonType) (value : json) : Converted :=
  if match own_type ts value with Some t => bool_decide (t ∈ ts) | None => false end then Ok value
  else
    match first_converted n ts value with
    | Some v => Ok v
    | None =>
        if bool_decide (TString ∈ ts) then convert_as n TString value
        else Failed (js "expected " ++ typeWords (UnionType ts) ++ js ", got " ++ shown value ++ js ".")
               (js "Write one of: " ++ typeWords (UnionType ts) ++ js ".")
    end.

Definition convertScalar (n : SchemaNode) (value : json) : Converted :=
  match n_type n with
  | UnionType ts => convertUnion n ts value
  | OneType t => convert_as n t value
  end.

(** ** Lists and the declared values *)

(** [replace(/^[-*+]\s+/, "")]. *)
Definition drop_bullet (s : ustring) : ustring :=
  match s with
  | c :: d :: rest =>
      if ((c =? 45) || (c =? 42) || (c =? 43)) && is_space d then trim_start rest else s
  | _ => s
  end.

Definition list_parts (text : ustring) : list json :=
  map JStr (List.filter (fun part => negb (bool_decide (part = [])))
    (map (fun part => drop_bullet (trim part))
       (split_on (if includes_char 10 text then 10 else 44) text))).

Definition as_array (v : option json) : option (list json) :=
  match v with Some (JArr l) => Some l | _ => None end.

Definition splitList (value : ustring) (itemType : NodeType) : list json :=
  let text := trim value in
  match text with
  | [] => []
  | _ =>
      let bracketed := starts_with [91] text in
      let bare :=
        match itemType with
        | OneType TObject => if bracketed then None else as_array (json_parse (91 :: text ++ [93]))
        | _ => None
        end in
      match bare with
      | Some l => l
      | None =>
          match (if bracketed then as_array (json_parse text) else None) with
          | Some l => l
          | None => list_parts text
          end
      end
  end.

Definition enumerated_values (n : SchemaNode) : list json := default [] (n_enum n).

Definition convertOne (n : SchemaNode) (value : json) : Converted :=
  match convertScalar n value with
  | Failed m h => Failed m h
  | Ok v =>
      match enumerated_values n with
      | [] => Ok v
      | allowed =>
          match List.find (fun c => bool_decide (lower (to_text c) = trim (lower (to_text v)))) allowed with
          | Some c => Ok c
          | None =>
              Failed (js "must be one of " ++ join (js ", ") (map to_text allowed) ++ js ", got " ++
                      shown value ++ js ".")
                (js "Copy one of the listed values exactly: " ++ join (js " | ") (map to_text allowed) ++
                 js ".")
          end
      end
  end.

Definition plain_node (t : JsonType) : SchemaNode := Node (OneType t) None None None None None None.
Definition item_node (n : SchemaNode) : SchemaNode := default (plain_node TString) (n_items n).

(** Every item, or the first failure. *)
Fixpoint convert_items (item : SchemaNode) (l : list json) : Converted + list json :=
  match l with
  | [] => inr []
  | v :: rest =>
      match convertOne item v with
      | Ok v' =>
          match convert_items item rest with inr out => inr (v' :: out) | inl c => inl c end
      | c => inl c
      end
  end.

Definition convert (n : SchemaNode) (value : json) : Converted :=
  match n_type n with
  | OneType TArray =>
      let items :=
        match value with
        | JArr l => Some l
        | JStr s => Some (splitList s (n_type (item_node n)))
        | _ => None
        end in
      match items with
      | None =>
          Failed (js "expected a list, got " ++ type_of value ++ js ".")
            (js "Write the items separated by commas, or one per line inside <<< >>>.")
      | Some l => match convert_items (item_node n) l with inr out => Ok (JArr out) | inl c => c end
      end
  | _ =>
      match value with
      | JArr l =>
          Failed (js "was given " ++ decimal (zlen l) ++ js " times but takes a single value.")
            (js "Give it once. For a value spanning several lines, open it with <<< and close it with >>>.")
      | _ => convertOne n value
      end
  end.

(** ** Matching fields *)

Fixpoint find_key {A} (k : ustring) (l : list (ustring * A)) : option A :=
  match l with
  | [] => None
  | (k', a) :: rest => if bool_decide (k' = k) then Some a else find_key k rest
  end.

Definition names_of (s : ToolSpec) : list ustring := map fst (p_properties (s_parameters s)).

Definition candidates (s : ToolSpec) (written : ustring) : list ustring :=
  List.filter (fun n => bool_decide (normalise n = normalise written)) (names_of s).

Definition unmatched_field (s : ToolSpec) (written : ustring) : FieldError :=
  match candidates s written with
  | _ :: _ :: _ as several =>
      {| fe_field := written;
         fe_message := js "is ambiguous " ++ [0x2014] ++ js " this tool declares " ++
           join (js " and ") several ++ js ".";
         fe_hint := js "Write the field name exactly as listed: " ++ join (js " or ") several ++ js "." |}
  | _ =>
      {| fe_field := written; fe_message := js "is not a field of this tool.";
         fe_hint :=
           match nearest written (names_of s) with
           | Some suggestion => js "Did you mean " ++ suggestion ++ js "?"
           | None =>
               js "This tool takes: " ++
               match names_of s with [] => js "no fields" | l => join (js ", ") l end ++ js "."
           end |}
  end.

Definition is_blank_text (v : json) : bool :=
  match v with JStr s => bool_decide (trim s = []) | _ => false end.

(** What the loop over the written fields has collected. *)
Record Collected := { c_errors : list FieldError; c_args : Args; c_seen : list ustring }.

Definition take_field (s : ToolSpec) (acc : Collected) (kv : ustring * json) : Collected :=
  let fail e := {| c_errors := c_errors acc ++ [e]; c_args := c_args acc; c_seen := c_seen acc |} in
  match candidates s kv.1 with
  | [name] =>
      match find_key name (p_properties (s_parameters s)) with
      | None => acc
      | Some node =>
          if is_blank_text kv.2 then acc
          else
            match convert node kv.2 with
            | Ok v =>
                {| c_errors := c_errors acc; c_args := obj_set name v (c_args acc);
                   c_seen := c_seen acc ++ [name] |}
            | Failed m h =>
                {| c_errors := c_errors acc ++ [{| fe_field := name; fe_message := m; fe_hint := h |}];
                   c_args := c_args acc; c_seen := c_seen acc ++ [name] |}
            end
      end
  | _ => fail (unmatched_field s kv.1)
  end.

Definition missing_field (name : ustring) (node : SchemaNode) : FieldError :=
  {| fe_field := name; fe_message := js "is required but was not given.";
     fe_hint := js "Add a line " ++ tick ++ name ++ js ": <value>" ++ tick ++
       match n_description node with
       | None => []
       | Some d => js " " ++ [0x2014] ++ js " " ++ trim d
       end ++ js "." |}.

Definition is_required (s : ToolSpec) (name : ustring) : bool :=
  bool_decide (name ∈ default [] (p_required (s_parameters s))).

Definition fill_field (s : ToolSpec) (seen : list ustring) (acc : Collected)
  (p : ustring * SchemaNode) : Collected :=
  if bool_decide (p.1 ∈ seen) then acc
  else if is_required s p.1 then
    {| c_errors := c_errors acc ++ [missing_field p.1 p.2]; c_args := c_args acc; c_seen := c_seen acc |}
  else
    match n_default p.2 with
    | Some d =>
        {| c_errors := c_errors acc; c_args := obj_set p.1 d (c_args acc); c_seen := c_seen acc |}
    | None => acc
    end.

Definition nothing_collected : Collected := {| c_errors := []; c_args := []; c_seen := [] |}.

Definition coerceArgs (s : ToolSpec) (raw : Args) : list FieldError + Args :=
  let written := fold_left (take_field s) raw nothing_collected in
  let filled := fold_left (fill_field s (c_seen written)) (p_properties (s_parameters s)) written in
  match c_errors filled with
  | [] => inr (c_args filled)
  | errors => inl errors
  end.

Lemma coerceArgs_explains s a errors : coerceArgs s a = inl errors -> errors <> [].
Proof. unfold coerceArgs. destruct (c_errors _); [done|]. by intros [= <-]. Qed.

(** ** What a converted value is *)

(** A value has one of the plain types. *)
Definition typed (t : JsonType) (v : json) : bool :=
  match t, v with
  | TString, JStr _ | TBoolean, JBool _ | TObject, JObj _ | TNumber, JNum _ => true
  | TInteger, JNum w => finite_text w && is_integer_text w
  | _, _ => false
  end.

Definition node_typed (n : SchemaNode) (v : json) : Prop :=
  match n_type n with
  | OneType t => typed t v = true
  | UnionType ts => exists t, t ∈ ts /\ typed t v = true
  end.

Definition fits_one (n : SchemaNode) (v : json) : Prop :=
  match enumerated_values n with [] => node_typed n v | allowed => v ∈ allowed end.

Definition fits (n : SchemaNode) (v : json) : Prop :=
  match n_type n with
  | OneType TArray => exists l, v = JArr l /\ Forall (fits_one (item_node n)) l
  | _ => fits_one n v
  end.

Lemma convert_as_typed n t value v : convert_as n t value = Ok v -> typed t v = true.
Proof.
  assert (Hnum : forall w, number_of value = Some w -> finite_text w = true).
  { intros w. unfold number_of. repeat case_match; by intros [= <-]. }
  destruct t; cbn [convert_as].
  - destruct value; by intros [= <-].
  - unfold convert_number. destruct (number_of value) as [w|]; [|done].
    rewrite bool_decide_eq_false_2 by done. by intros [= <-].
  - unfold convert_number. destruct (number_of value) as [w|]; [|done].
    rewrite bool_decide_eq_true_2 by done. cbn. destruct (is_integer_text w) eqn:E; [|done].
    intros [= <-]. cbn. by rewrite E, Hnum.
  - unfold convert_boolean. repeat case_match; by intros [= <-].
  - done.
  - unfold convert_object. repeat case_match; by intros [= <-].
Qed.

Lemma own_type_typed ts value t : own_type ts value = Some t -> typed t value = true.
Proof.
  destruct value; try done; cbn; intros [= <-]; try done.
  destruct (finite_text text) eqn:Hf; [|done]. destruct (is_integer_text text) eqn:Hi; [|done].
  destruct (bool_decide _); cbn; by rewrite ?Hf, ?Hi.
Qed.

Lemma first_converted_typed n ts value v : first_converted n ts value = Some v ->
  exists t, t ∈ ts /\ typed t v = true.
Proof.
  induction ts as [|t ts IH]; [done|]. cbn.
  assert (Hrest : first_converted n ts value = Some v -> exists t0, t0 ∈ t :: ts /\ typed t0 v = true).
  { intros H. destruct (IH H) as (t0 & H0 & H1). exists t0. split; [by right|done]. }
  case_bool_decide; [done|]. destruct (convert_as n t value) as [v'|] eqn:E; [|done].
  intros [= ->]. exists t. split; [by left|]. by eapply convert_as_typed.
Qed.

Lemma convertScalar_typed n value v : convertScalar n value = Ok v -> node_typed n v.
Proof.
  unfold convertScalar, node_typed. destruct (n_type n) as [t|ts]; [apply convert_as_typed|].
  unfold convertUnion. destruct (own_type ts value) as [t|] eqn:Et.
  - case_bool_decide as Hin.
    + intros [= <-]. exists t. split; [done|]. by eapply own_type_typed.
    + destruct (first_converted n ts value) as [v'|] eqn:Ef.
      * intros [= <-]. by eapply first_converted_typed.
      * case_bool_decide as Hs; [|done]. intros H. exists TString. split; [done|].
        by eapply convert_as_typed.
  - destruct (first_converted n ts value) as [v'|] eqn:Ef.
    + intros [= <-]. by eapply first_converted_typed.
    + case_bool_decide as Hs; [|done]. intros H. exists TString. split; [done|].
      by eapply convert_as_typed.
Qed.

Lemma convertOne_fits n value v : convertOne n value = Ok v -> fits_one n v.
Proof.
  unfold convertOne, fits_one. destruct (convertScalar n value) as [v'|] eqn:E; [|done].
  destruct (enumerated_values n) as [|a l].
  - intros [= <-]. by eapply convertScalar_typed.
  - destruct (List.find _ _) as [c|] eqn:Ef; [|done]. intros [= <-].
    apply find_some in Ef as [Hin _]. by apply list_elem_of_In.
Qed.

Lemma convert_items_fits item l out : convert_items item l = inr out -> Forall (fits_one item) out.
Proof.
  revert out. induction l as [|v l IH]; intros out; cbn; [intros [= <-]; constructor|].
  destruct (convertOne item v) as [v'|] eqn:E; [|done].
  destruct (convert_items item l) as [c|out']; [done|]. intros [= <-].
  constructor; [by eapply convertOne_fits|by apply IH].
Qed.

Lemma convert_items_fails item l v : convert_items item l <> inl (Ok v).
Proof.
  induction l as [|x l IH]; cbn; [done|]. destruct (convertOne item x); [|done].
  destruct (convert_items item l); [|done]. by intros [= ->].
Qed.

Lemma convert_fits n value v : convert n value = Ok v -> fits n v.
Proof.
  unfold convert, fits.
  assert (Hone : match value with JArr l => Failed [] [] | _ => convertOne n value end = Ok v ->
    fits_one n v) by (destruct value; try done; apply convertOne_fits).
  destruct (n_type n) as [[]|ts] eqn:Et;
    try (destruct value; try done; apply convertOne_fits).
  assert (Hitems : forall l,
    match convert_items (item_node n) l with inr out => Ok (JArr out) | inl c => c end = Ok v ->
    exists l', v = JArr l' /\ Forall (fits_one (item_node n)) l').
  { intros l. destruct (convert_items _ l) as [c|out] eqn:E.
    - intros ->. by apply convert_items_fails in E.
    - intros [= <-]. exists out. split; [done|]. by eapply convert_items_fits. }
  destruct value; try done; apply Hitems.
Qed.

(** ** What a success promises *)

Section Sound.
Context (s : ToolSpec).

Abbreviation props := (p_properties (s_parameters s)).

Lemma find_key_elem {A} k (l : list (ustring * A)) a : find_key k l = Some a -> (k, a) ∈ l.
Proof.
  induction l as [|[k' a'] l IH]; [done|]. cbn. case_bool_decide as E.
  - intros [= ->]. subst. by left.
  - intros H. right. auto.
Qed.

(** Where the collected arguments come from. *)
Record sound (acc : Collected) : Prop := {
  sd_order : enumerated (c_args acc) = true;
  sd_seen : Forall (fun name => name ∈ names_of s) (c_seen acc);
  sd_args : forall k v, (k, v) ∈ c_args acc -> exists n, (k, n) ∈ props /\
    (fits n v \/ ((k ∉ c_seen acc) /\ is_required s k = false /\ n_default n = Some v));
  sd_given : c_errors acc = [] -> forall k, k ∈ c_seen acc -> exists v, (k, v) ∈ c_args acc }.

Lemma sound_nothing : sound nothing_collected.
Proof.
  split; [done|constructor| |].
  - intros k v H. by apply elem_of_nil in H.
  - intros _ k H. by apply elem_of_nil in H.
Qed.

Lemma candidates_names written name : candidates s written = [name] -> name ∈ names_of s.
Proof.
  intros H. assert (In name (candidates s written)) as Hin by (rewrite H; by left).
  apply filter_In in Hin as [Hin _]. by apply list_elem_of_In.
Qed.

(** Only what the written fields name is collected in the first pass. *)
Definition written_only (acc : Collected) : Prop :=
  sound acc /\ forall k v, (k, v) ∈ c_args acc -> k ∈ c_seen acc.

Lemma take_field_written acc kv : written_only acc -> written_only (take_field s acc kv).
Proof.
  intros [[Ho Hs Ha Hg] Hw]. unfold take_field.
  destruct (candidates s kv.1) as [|name [|]] eqn:Ec;
    [split; [split; try done; intros H%app_eq_nil; by destruct H|done]| |
     split; [split; try done; intros H%app_eq_nil; by destruct H|done]].
  apply candidates_names in Ec.
  destruct (find_key name props) as [node|] eqn:Ef; [|by repeat split].
  apply find_key_elem in Ef. destruct (is_blank_text kv.2); [by repeat split|].
  destruct (convert node kv.2) as [v|m h] eqn:Ev; cbn.
  - split; [split; cbn|].
    + by apply enumerated_set.
    + apply Forall_app. split; [done|]. by constructor.
    + intros k v' [[= -> ->]|H]%obj_set_elem.
      * exists node. split; [done|]. left. by eapply convert_fits.
      * destruct (Ha k v' H) as (n & Hn & [Hf|(H1 & _)]); [by exists n; split; [|left]|].
        by destruct (H1 (Hw _ _ H)).
    + intros He k [H|H%list_elem_of_singleton]%elem_of_app.
      * destruct (decide (k = name)) as [->|Hk]; [exists v; apply obj_set_has|].
        destruct (Hg He k H) as [v' Hv']. exists v'. by apply obj_set_keeps.
      * subst. exists v. apply obj_set_has.
    + cbn. intros k v' [[= -> ->]|H]%obj_set_elem; rewrite elem_of_app; [by right; left|].
      left. by eapply Hw.
  - split; [split; cbn; try done|].
    + apply Forall_app. split; [done|]. by constructor.
    + intros k v' H. destruct (Ha k v' H) as (n & Hn & [Hf|(H1 & _)]); [by exists n; split; [|left]|].
      by destruct (H1 (Hw _ _ H)).
    + intros H%app_eq_nil. by destruct H.
    + cbn. intros k v' H. rewrite elem_of_app. left. by eapply Hw.
Qed.

Lemma written_all raw : written_only (fold_left (take_field s) raw nothing_collected).
Proof.
  assert (H : forall acc, written_only acc -> written_only (fold_left (take_field s) raw acc)).
  { induction raw as [|kv raw IH]; [done|]. intros acc Hacc. cbn. by apply IH, take_field_written. }
  apply H. split; [apply sound_nothing|]. intros k v Hk. by apply elem_of_nil in Hk.
Qed.

Lemma fill_field_sound acc p : p ∈ props -> sound acc -> sound (fill_field s (c_seen acc) acc p).
Proof.
  intros Hp [Ho Hs Ha Hg]. unfold fill_field. case_bool_decide as Hseen; [done|].
  destruct (is_required s p.1) eqn:Er.
  - split; try done. intros H%app_eq_nil. by destruct H.
  - destruct (n_default p.2) as [d|] eqn:Ed; [|done]. split; cbn; [by apply enumerated_set|done|..].
    + intros k v [[= -> ->]|H]%obj_set_elem; [|by apply Ha].
      exists p.2. split; [by rewrite <- surjective_pairing|]. right. by split_and!.
    + intros He k Hk. destruct (Hg He k Hk) as [v Hv]. exists v. apply obj_set_keeps; [|done].
      by intros ->.
Qed.

(** The second pass: the errors left out are those of the required fields not given. *)
Lemma fill_all l : forall acc, (forall p, p ∈ l -> p ∈ props) -> sound acc ->
  let out := fold_left (fill_field s (c_seen acc)) l acc in
  sound out /\ c_seen out = c_seen acc /\
  (c_errors out = [] -> c_errors acc = [] /\
     forall p, p ∈ l -> is_required s p.1 = true -> p.1 ∈ c_seen acc).
Proof.
  induction l as [|p l IH]; intros acc Hl Hacc out.
  - split_and!; [done..|]. intros H. split; [done|]. intros p Hp. by apply elem_of_nil in Hp.
  - set (acc' := fill_field s (c_seen acc) acc p).
    assert (Hs' : c_seen acc' = c_seen acc)
      by (unfold acc', fill_field; repeat case_match; done).
    destruct (IH acc') as (H1 & H2 & H3).
    { intros q Hq. apply Hl. by right. }
    { apply fill_field_sound; [apply Hl; by left|done]. }
    rewrite Hs' in H1, H2, H3. split_and!; [done..|]. intros He.
    destruct (H3 He) as [He' Hreq]. unfold acc', fill_field in He'.
    case_bool_decide as Hseen; [|destruct (is_required s p.1) eqn:Er].
    + split; [done|]. intros q [->|Hq]%elem_of_cons; [done|by apply Hreq].
    + by apply app_eq_nil in He' as [_ ?].
    + split; [by destruct (n_default p.2)|].
      intros q [->|Hq]%elem_of_cons; [by rewrite Er|by apply Hreq].
Qed.
End Sound.

(** C29. Arguments that coerce are arguments the tool declares: every field is a declared one, once,
    its value of the declared type (or one of the listed values), or the declared default of a
    field that was left out; and every required field is there. *)
Theorem coerceArgs_sound (s : ToolSpec) (raw args : Args) (H : coerceArgs s raw = inr args) :
  NoDup (map fst args) /\
  (forall k v, (k, v) ∈ args -> exists n, (k, n) ∈ p_properties (s_parameters s) /\
     (fits n v \/ (is_required s k = false /\ n_default n = Some v))) /\
  (forall k, k ∈ names_of s -> is_required s k = true -> k ∈ map fst args).
Proof.
  unfold coerceArgs in H. destruct (written_all s raw) as [Hw _].
  set (w := fold_left (take_field s) raw nothing_collected) in *.
  destruct (fill_all s (p_properties (s_parameters s)) w ltac:(done) Hw) as (Hs & Hseen & Hreq).
  set (out := fold_left (fill_field s (c_seen w)) (p_properties (s_parameters s)) w) in *.
  destruct (c_errors out) eqn:He; [|done]. injection H as <-. destruct Hs as [Ho Hn Ha Hg].
  split_and!; [by apply enumerated_nodup| |].
  - intros k v Hk. destruct (Ha k v Hk) as (n & Hn' & [Hf|(_ & H1 & H2)]); exists n;
      (split; [done|]); [by left|by right].
  - intros k Hk Hr. unfold names_of in Hk. apply list_elem_of_fmap in Hk as (p & -> & Hp).
    destruct (Hreq eq_refl) as [_ Hreq']. specialize (Hreq' p Hp Hr). rewrite <- Hseen in Hreq'.
    destruct (Hg He _ Hreq') as [v Hv]. apply list_elem_of_fmap. by exists (p.1, v).
Qed.

(** ** What is kept as written *)

Definition plain_exact (t : JsonType) (v : json) : Prop :=
  match t, v with
  | TString, JStr _ | TBoolean, JBool _ | TObject, JObj _ => True
  | TNumber, JNum w => finite_text w = true
  | TInteger, JNum w => finite_text w = true /\ is_integer_text w = true
  | _, _ => False
  end.

(** A value of the declared type; where values are listed, one the lookup returns as it is. *)
Definition exact_one (n : SchemaNode) (v : json) : Prop :=
  match n_type n with
  | OneType t => plain_exact t v
  | UnionType ts => exists t, own_type ts v = Some t /\ t ∈ ts
  end /\
  match enumerated_values n with
  | [] => True
  | allowed =>
      List.find (fun c => bool_decide (lower (to_text c) = trim (lower (to_text v)))) allowed = Some v
  end.

Definition exact (n : SchemaNode) (v : json) : Prop :=
  match n_type n with
  | OneType TArray => exists l, v = JArr l /\ Forall (exact_one (item_node n)) l
  | _ => exact_one n v
  end.

Lemma convertScalar_exact n v : exact_one n v -> convertScalar n v = Ok v.
Proof.
  intros [H _]. unfold convertScalar. destruct (n_type n) as [t|ts].
  - destruct t, v; try done; cbn in *; unfold convert_number, number_of.
    + by rewrite H.
    + destruct H as [Hf Hi]. rewrite Hf, Hi. by rewrite bool_decide_eq_true_2.
  - destruct H as (t & Ht & Hin). unfold convertUnion. rewrite Ht. by rewrite bool_decide_eq_true_2.
Qed.

Lemma convertOne_exact n v : exact_one n v -> convertOne n v = Ok v.
Proof.
  intros H. unfold convertOne. rewrite (convertScalar_exact _ _ H). destruct H as [_ H].
  destruct (enumerated_values n); [done|]. by rewrite H.
Qed.

Lemma convert_exact n v : exact n v -> convert n v = Ok v.
Proof.
  unfold exact, convert. intros H.
  assert (Hone : exact_one n v -> (forall l, v <> JArr l) -> match v with
    | JArr l => Failed (js "was given " ++ decimal (zlen l) ++ js " times but takes a single value.")
        (js "Give it once. For a value spanning several lines, open it with <<< and close it with >>>.")
    | _ => convertOne n v end = Ok v).
  { intros H1 H2. destruct v; try (by apply convertOne_exact). by destruct (H2 l). }
  assert (Hflat : forall t, n_type n = OneType t -> exact_one n v -> forall l, v <> JArr l).
  { intros t Ht [H1 _] l ->. rewrite Ht in H1. by destruct t. }
  destruct (n_type n) as [t|ts] eqn:Et.
  - destruct t; try (apply Hone; [done|by eapply Hflat]). destruct H as (l & -> & Hl).
    enough (convert_items (item_node n) l = inr l) as -> by done.
    clear -Hl. induction Hl as [|x l Hx Hl IH]; [done|]. cbn. by rewrite (convertOne_exact _ _ Hx), IH.
  - apply Hone; [done|]. intros l ->. destruct H as [H _]. rewrite Et in H. by destruct H as (t & H1 & _).
Qed.

(** A field written under its declared name, with a value of its declared type. *)
Definition as_declared (s : ToolSpec) (kv : ustring * json) : Prop :=
  candidates s kv.1 = [kv.1] /\ is_blank_text kv.2 = false /\
  exists n, find_key kv.1 (p_properties (s_parameters s)) = Some n /\ exact n kv.2.

Lemma take_declared s acc kv : as_declared s kv ->
  take_field s acc kv =
    {| c_errors := c_errors acc; c_args := obj_set kv.1 kv.2 (c_args acc);
       c_seen := c_seen acc ++ [kv.1] |}.
Proof.
  intros (Hc & Hb & n & Hn & Hx). unfold take_field. by rewrite Hc, Hn, Hb, (convert_exact _ _ Hx).
Qed.

Lemma take_all_declared s raw : Forall (as_declared s) raw -> forall acc,
  fold_left (take_field s) raw acc =
    {| c_errors := c_errors acc;
       c_args := fold_left (fun o kv => obj_set kv.1 kv.2 o) raw (c_args acc);
       c_seen := c_seen acc ++ map fst raw |}.
Proof.
  induction 1 as [|kv raw Hkv _ IH]; intros acc; [cbn; rewrite app_nil_r; by destruct acc|].
  cbn. rewrite IH, (take_declared _ _ _ Hkv). cbn. by rewrite <- app_assoc.
Qed.

Lemma obj_of_elem_from l : forall o k v, NoDup (map fst l) ->
  ((k, v) ∈ o /\ (k ∉ map fst l)) \/ (k, v) ∈ l ->
  (k, v) ∈ fold_left (fun o kv => obj_set kv.1 kv.2 o) l o.
Proof.
  induction l as [|[k' v'] l IH]; intros o k v Hnd H; cbn in *.
  - destruct H as [[H _]|H]; [done|by apply elem_of_nil in H].
  - apply NoDup_cons in Hnd as [Hk' Hnd]. apply IH; [done|].
    destruct H as [[H Hk]|[E|H]%elem_of_cons]; [left..|by right].
    + apply not_elem_of_cons in Hk as [Hk1 Hk2]. split; [by apply obj_set_keeps|done].
    + injection E as -> ->. split; [apply obj_set_has|done].
Qed.

Lemma obj_of_from l : forall o k v,
  (k, v) ∈ fold_left (fun o kv => obj_set kv.1 kv.2 o) l o -> (k, v) ∈ o \/ (k, v) ∈ l.
Proof.
  induction l as [|[k' v'] l IH]; intros o k v H; cbn in *; [by left|].
  rewrite elem_of_cons. apply IH in H as [[H|H]%obj_set_elem|H]; auto.
Qed.

Lemma fill_given s seen l : forall acc,
  (forall p, p ∈ l -> is_required s p.1 = true -> p.1 ∈ seen) ->
  let out := fold_left (fill_field s seen) l acc in
  c_errors out = c_errors acc /\
  (forall k v, k ∈ seen -> (k, v) ∈ c_args acc -> (k, v) ∈ c_args out) /\
  (forall k v, (k, v) ∈ c_args out -> (k, v) ∈ c_args acc \/
     ((k ∉ seen) /\ exists n, (k, n) ∈ l /\ n_default n = Some v)).
Proof.
  induction l as [|p l IH]; intros acc Hreq out; [split_and!; auto|].
  set (acc' := fill_field s seen acc p).
  destruct (IH acc') as (H1 & H2 & H3); [intros q Hq; apply Hreq; by right|].
  fold acc' in out. change out with (fold_left (fill_field s seen) l acc').
  assert (He : c_errors acc' = c_errors acc /\
    (forall k v, k ∈ seen -> (k, v) ∈ c_args acc -> (k, v) ∈ c_args acc') /\
    (forall k v, (k, v) ∈ c_args acc' -> (k, v) ∈ c_args acc \/
      ((k ∉ seen) /\ p.1 = k /\ n_default p.2 = Some v))).
  { unfold acc', fill_field. case_bool_decide as Hs; [by split_and!; auto|].
    destruct (is_required s p.1) eqn:Er; [by destruct (Hs (Hreq p ltac:(by left) Er))|].
    destruct (n_default p.2) as [d|] eqn:Ed; [|by split_and!; auto]. cbn. split_and!; [done|..].
    - intros k v Hk Hv. apply obj_set_keeps; [|done]. by intros ->.
    - intros k v [[= -> ->]|H]%obj_set_elem; auto. }
  destruct He as (E1 & E2 & E3). split_and!; [congruence|auto|].
  intros k v Hk. apply H3 in Hk as [Hk|(Hk & n & Hn & Hd)].
  - apply E3 in Hk as [Hk|(Hk & <- & Hd)]; [by left|right]. split; [done|]. exists p.2.
    split; [rewrite <- surjective_pairing; by left|done].
  - right. split; [done|]. exists n. split; [by right|done].
Qed.

(** A call written as declared is kept as written: when every field names a declared one, has a
    value of its type and is not blank, and no required field is missing, coercion succeeds, keeps
    every field's value, and adds only declared defaults of the fields left out. *)
Lemma coerceArgs_keeps (s : ToolSpec) (raw : Args)
  (Hkeys : NoDup (map fst raw)) (Hraw : Forall (as_declared s) raw)
  (Hreq : forall k, k ∈ names_of s -> is_required s k = true -> k ∈ map fst raw) :
  exists args, coerceArgs s raw = inr args /\
    (forall k v, (k, v) ∈ raw -> (k, v) ∈ args) /\
    (forall k v, (k, v) ∈ args -> (k, v) ∈ raw \/
       ((k ∉ map fst raw) /\
        exists n, (k, n) ∈ p_properties (s_parameters s) /\ n_default n = Some v)).
Proof.
  unfold coerceArgs. rewrite (take_all_declared s raw Hraw). unfold nothing_collected.
  cbn [c_errors c_args c_seen app].
  destruct (fill_given s (map fst raw) (p_properties (s_parameters s))
    {| c_errors := []; c_args := fold_left (fun o kv => obj_set kv.1 kv.2 o) raw [];
       c_seen := map fst raw |}) as (H1 & H2 & H3).
  { intros p Hp Hr. apply Hreq; [|done]. apply list_elem_of_fmap. by exists p. }
  cbn [c_errors] in *. rewrite H1. eexists. split; [done|]. split.
  - intros k v Hk. apply H2; [apply list_elem_of_fmap; by exists (k, v)|].
    apply obj_of_elem_from; [done|by right].
  - intros k v Hk. apply H3 in Hk as [Hk|Hk]; [|by right].
    apply obj_of_from in Hk as [Hk|Hk]; [by apply elem_of_nil in Hk|by left].
Qed.

(** ** What is refused *)

(** A list of lists cannot be passed, however it is written. *)
Lemma nested_list_refused (n : SchemaNode) (v : json) (l : list json) :
  n_type n = OneType TArray -> n_type (item_node n) = OneType TArray ->
  exists m h, convert n (JArr (v :: l)) = Failed m h.
Proof.
  intros Hn Hi. unfold convert. rewrite Hn. cbn [convert_items].
  unfold convertOne at 1, convertScalar at 1. rewrite Hi. cbn [convert_as]. by do 2 eexists.
Qed.

(** An infinite number is refused where one type is declared and passes a union. *)
Lemma union_takes_infinity :
  (exists m h, convert (plain_node TNumber) (JNum (js "Infinity")) = Failed m h) /\
  convert (Node (UnionType [TString; TNumber]) None None None None None None) (JNum (js "Infinity")) =
    Ok (JNum (js "Infinity")).
Proof. split; [by do 2 eexists|done]. Qed.

(** ** At concrete inputs *)

Definition sample_parameters : ToolParameters :=
  {| p_properties :=
       [(js "title", Node (OneType TString) (Some (js " what it is ")) None None None None None);
        (js "max_items", Node (OneType TInteger) None None None None None (Some (JNum (js "3"))));
        (js "tags", Node (OneType TArray) None None (Some (plain_node TString)) None None None);
        (js "mode", Node (OneType TString) None (Some [JStr (js "Fast"); JStr (js "Slow")]) None None None None)];
     p_required := Some [js "title"] |}.

Definition sample_spec : ToolSpec :=
  let s := spec_of "list_items" false Trusted in
  {| s_slug := s_slug s; s_provider := s_provider s; s_summary := s_summary s;
     s_whenToUse := s_whenToUse s; s_whenNotToUse := s_whenNotToUse s; s_mutating := s_mutating s;
     s_alone := s_alone s; s_trust := s_trust s; s_policyArg := s_policyArg s;
     s_policyArgIsPath := s_policyArgIsPath s; s_tags := s_tags s;
     s_parameters := sample_parameters |}.

(** As a model writes it in text. *)
Definition written_args : Args :=
  [(js "Title", JStr (js "Lunch")); (js "max items", JStr (js "1,000")); (js "TAGS", JStr (js "a, - b,"));
   (js "mode", JStr (js " fast "))].
Definition coerced_args : Args :=
  [(js "title", JStr (js "Lunch")); (js "max_items", JNum (js "1000"));
   (js "tags", JArr [JStr (js "a"); JStr (js "b")]); (js "mode", JStr (js "Fast"))].

Lemma written_coerces : coerceArgs sample_spec written_args = inr coerced_args.
Proof. by vm_compute. Qed.

Lemma coerceArgs_sound_witness : NoDup (map fst coerced_args) /\ js "title" ∈ map fst coerced_args.
Proof.
  destruct (coerceArgs_sound sample_spec written_args coerced_args written_coerces) as (H1 & _ & H2).
  split; [exact H1|apply H2]; apply (bool_decide_unpack _); by vm_compute.
Defined.

Definition declared_args : Args :=
  [(js "title", JStr (js "Lunch")); (js "tags", JArr [JStr (js "a,b")]); (js "mode", JStr (js "Slow"))].

Lemma declared_as_declared : Forall (as_declared sample_spec) declared_args.
Proof.
  apply Forall_cons; split; [|apply Forall_cons; split; [|apply Forall_cons; split; [|done]]];
    (split; [by vm_compute|split; [by vm_compute|eexists; split; [by vm_compute|]]]).
  - by split.
  - exists [JStr (js "a,b")]. split; [done|]. apply Forall_cons. split; [by split|done].
  - split; [done|by vm_compute].
Qed.

Lemma declared_keys : NoDup (map fst declared_args).
Proof. apply (bool_decide_unpack _). by vm_compute. Qed.

Lemma declared_complete k : k ∈ names_of sample_spec -> is_required sample_spec k = true ->
  k ∈ map fst declared_args.
Proof.
  intros _ H%bool_decide_eq_true. cbn in H. apply list_elem_of_singleton in H as ->. by left.
Qed.

Lemma coerceArgs_keeps_witness : exists args, coerceArgs sample_spec declared_args = inr args /\
  (js "tags", JArr [JStr (js "a,b")]) ∈ args.
Proof.
  destruct (coerceArgs_keeps sample_spec declared_args declared_keys declared_as_declared
    declared_complete) as (args & H & Hk & _).
  exists args. split; [exact H|]. apply Hk. right. by left.
Defined.

Example coerce_errors :
  match coerceArgs sample_spec [(js "titel", JStr (js "x")); (js "max_items", JStr (js "1.5"))] with
  | inl errors => map fe_field errors
  | inr _ => []
  end = map js ["titel"; "max_items"; "title"]%string.
Proof. by vm_compute. Qed.
