(* ===== verification/Paths.v ===== *)
(** * Paths and what they may reach: [tools/execute.ts] [policyPath], [tools-system/src/root.ts],
    [protect.ts], [resolvePath] of [files.ts]

    POSIX paths as node's path library computes them. Which agent directory, home directory and
    working directory there are is given. Symbolic links are not followed here: a check that reads
    the real path is a check of the path the file system answers. *)
From S2P Require Import Prelude UString Regex Policy.
Local Open Scope Z_scope.

(** ** [node:path] *)

(** [posix.normalize] of node's path library: [stack] holds the segments kept, last first. *)
Fixpoint resolve_segments (above : bool) (stack : list ustring) (l : list ustring) : list ustring :=
  match l with
  | [] => rev stack
  | seg :: rest =>
      if bool_decide (seg = []) || bool_decide (seg = js ".") then resolve_segments above stack rest
      else if bool_decide (seg = js "..") then
        match stack with
        | top :: below =>
            if bool_decide (top = js "..") then resolve_segments above (seg :: stack) rest
            else resolve_segments above below rest
        | [] => resolve_segments above (if above then [seg] else []) rest
        end
      else resolve_segments above (seg :: stack) rest
  end.

Definition posix_normalize (path : ustring) : ustring :=
  match path with
  | [] => js "."
  | c :: _ =>
      let absolute := c =? 47 in
      let trailing := ends_with [47] path in
      match join [47] (resolve_segments (negb absolute) [] (split_on 47 path)) with
      | [] => if absolute then [47] else js (if trailing then "./" else ".")
      | p => (if absolute then [47] else []) ++ p ++ (if trailing then [47] else [])
      end
  end.

Example posix_normalize_samples :
  map (fun s => posix_normalize (js s))
    ["./a/../.env"; "/foo/bar//baz/asdf/quux/.."; "../../x"; "/../x"; "a/.."; "a/../"; "./"; "a/./b/"]%string =
  map js [".env"; "/foo/bar/baz/asdf"; "../../x"; "/x"; "."; "./"; "./"; "a/b/"]%string.
Proof. by vm_compute. Qed.

Definition policyPath (value : ustring) : ustring :=
  let normalised := posix_normalize (map (fun c => if c =? 92 then 47 else c) value) in
  if starts_with (js "./") normalised then drop 2 normalised else normalised.

Definition is_absolute (p : ustring) : bool := starts_with [47] p.

(** [resolve(base, given)] for an absolute base. *)
Definition path_resolve (base given : ustring) : ustring :=
  47 :: join [47] (resolve_segments false [] (split_on 47 (if is_absolute given then given else base ++ 47 :: given))).

(** [path.split(sep).filter((part) => part !== "")]. *)
Definition segments (path : ustring) : list ustring :=
  List.filter (fun part => negb (bool_decide (part = []))) (split_on 47 path).

Fixpoint strip_common (a b : list ustring) : list ustring * list ustring :=
  match a, b with
  | x :: a', y :: b' => if bool_decide (x = y) then strip_common a' b' else (a, b)
  | _, _ => (a, b)
  end.

(** [relative(from, to)] of resolved paths. *)
Definition path_relative (from to : ustring) : ustring :=
  let '(up, down) := strip_common (segments from) (segments to) in
  join [47] (map (fun _ => js "..") up ++ down).

(** ** Where a tool's path lands *)

Section Where.
Context (homedir : ustring).

Definition expandTilde (path : ustring) : ustring :=
  if bool_decide (path = js "~") then homedir
  else if starts_with (js "~/") path then path_resolve homedir (drop 2 path)
  else path.

(** [from] is the directory the session's shell is in, or the primary root; [None] is a throw. *)
Definition resolvePath (raw from : ustring) : option ustring :=
  match expandTilde (trim raw) with
  | [] => None
  | given => Some (if is_absolute given then path_resolve [] given else path_resolve from given)
  end.
End Where.

(** ** Roots *)


Record Roots := { primary : ustring; extra : list ustring; confineReads : bool }.


Definition within (absolute root : ustring) : bool :=
  bool_decide (absolute = root) ||
  let rel := path_relative root absolute in
  negb (bool_decide (rel = [])) && negb (starts_with (js "../") rel) &&
  negb (bool_decide (rel = js "..")) && negb (is_absolute rel).

Definition writable (r : Roots) : list ustring := primary r :: extra r.

(** [real] is the file system's own answer to [realpath]. *)
Definition readable (real : ustring -> ustring) (absolute : ustring) (r : Roots) : bool :=
  negb (confineReads r) || existsb (fun root => within (real absolute) (real root)) (writable r).

(** ** Protected files *)

Definition PROTECTED_NAMES : list ustring :=
  map js ["agent.yaml"; "agent.yml"; "SOUL.md"; "SOUL.compact.md"; "AGENTS.md"; "POLICY.md";
          "REMINDER.md"]%string.
Definition PROTECTED_DIRS : list ustring := map js [".ssh"; ".aws"; ".kube"; ".gnupg"; ".docker"]%string.

Definition key_char : regex :=
  RSet (fun c => let d := lower_char c in ((97 <=? d) && (d <=? 122)) || is_digit d).

Definition PROTECTED_FILE : regex :=
  RStart +++
  RAlt (liti ".env" +++ opt (chr 46 +++ plus any_char))
    (RAlt (liti ".netrc") (RAlt (liti ".npmrc") (RAlt (liti ".pypirc")
      (RAlt (liti "id_" +++ plus key_char)
        (RAlt (RStar any_char +++ liti ".pem") (RStar any_char +++ liti ".key")))))) +++
  REnd.

Example protected_files :
  map (fun s => test PROTECTED_FILE (js s))
    [".env"; ".ENV.local"; ".env."; "x.env"; "id_rsa"; "id_"; "server.pem"; "a.key.txt"; ".netrc"]%string =
  [true; true; false; false; true; false; true; false; true].
Proof. by vm_compute. Qed.

Definition base_name (absolute : ustring) : ustring := default [] (last (segments absolute)).

Definition in_credentials (absolute : ustring) : bool :=
  existsb (fun dir => bool_decide (dir ∈ segments absolute)) PROTECTED_DIRS.

(** Whether a reason is given; its wording is prose. *)
Definition secretReason (absolute : ustring) : bool :=
  in_credentials absolute || test PROTECTED_FILE (base_name absolute) ||
  (bool_decide (head (segments absolute) = Some (js "proc")) &&
   (bool_decide (base_name absolute = js "environ") || bool_decide (base_name absolute = js "cmdline"))).


Definition own_definition (absolute agent : ustring) : bool :=
  let rel := path_relative (path_resolve [] agent) absolute in
  let inside := negb (bool_decide (rel = [])) && negb (starts_with (js "..") rel) && negb (is_absolute rel) in
  inside &&
  let tail := split_on 47 rel in
  bool_decide (default [] (last tail) ∈ PROTECTED_NAMES) ||
  match head tail with Some first => starts_with (js ".") first | None => false end.



(** The checks of [file_read]. *)
Definition may_read (real : ustring -> ustring) (absolute : ustring) (r : Roots) : bool :=
  readable real absolute r && negb (secretReason (real absolute)) && negb (secretReason absolute).

(** ** Resolved paths *)























(** ** What the checks miss *)

Definition no_notes : PolicyConfig :=
  {| mode := ModeAllow; allow := []; deny := [js "file_read(notes.txt)"]; onNoApprover := NoApproverDeny |}.

Definition rule_on (path : string) : PolicyEffect :=
  effect (decidePolicy no_notes {| q_slug := js "file_read"; q_match := Some (policyPath (js path)) |}).

(** The tool trims a path and drops its last slash; the rule is matched with both: a denied file is
    read by writing a slash after its name, or a space before [./]. *)
Lemma path_rule_evaded :
  map rule_on ["notes.txt"; "a/../notes.txt"; "notes.txt/"; " ./notes.txt"]%string =
    [Deny; Deny; Allow; Allow] /\
  map (fun p => resolvePath (js "/home/me") (js p) (js "/srv"))
    ["notes.txt"; "a/../notes.txt"; "notes.txt/"; " ./notes.txt"]%string =
  repeat (Some (js "/srv/notes.txt")) 4.
Proof. split; by vm_compute. Qed.

(** A directory whose name starts with two dots is taken for one outside the agent's. *)
Lemma two_dots_unprotected :
  map (fun p => own_definition (js p) (js "/srv/agents/ada"))
    ["/srv/agents/ada/SOUL.md"; "/srv/agents/ada/.state/x"; "/srv/agents/ada/..state/x";
     "/srv/agents/ada/..state/SOUL.md"]%string = [true; true; false; false].
Proof. by vm_compute. Qed.
