(* ===== verification/Files.v ===== *)
(** * Reading and editing files: [tools-system/src/files.ts]

    What [file_read] and [file_edit] make of a file's text. The file system's answers (whether the
    file is there, its size and bytes, and the text they decode to) are given. *)
From S2P Require Import Prelude UString Regex Policy Trust Paths.
Local Open Scope Z_scope.

(** ** Text as [String] has it *)

(** The first place [sep] occurs. *)
Fixpoint index_of (sep s : ustring) : option nat :=
  if starts_with sep s then Some 0%nat
  else match s with [] => None | _ :: s' => S <$> index_of sep s' end.

(** [s.split(sep)] for a separator that is not empty. *)
Fixpoint split_text (fuel : nat) (sep s : ustring) : list ustring :=
  match fuel with
  | O => [s]
  | S fuel' =>
      match index_of sep s with
      | None => [s]
      | Some k => take k s :: split_text fuel' sep (drop (k + length sep) s)
      end
  end.
Definition split_by (sep s : ustring) : list ustring := split_text (S (length s)) sep s.

(** [GetSubstitution] of the language, where the pattern is a string: what [$] introduces. *)
Fixpoint substitution (matched before after repl : ustring) : ustring :=
  match repl with
  | 36 :: ((c :: rest) as again) =>
      if c =? 36 then 36 :: substitution matched before after rest
      else if c =? 38 then matched ++ substitution matched before after rest
      else if c =? 96 then before ++ substitution matched before after rest
      else if c =? 39 then after ++ substitution matched before after rest
      else 36 :: substitution matched before after again
  | c :: rest => c :: substitution matched before after rest
  | [] => []
  end.

(** [s.replace(find, repl)]. *)
Definition replace_once (find repl s : ustring) : ustring :=
  match index_of find s with
  | None => s
  | Some k =>
      let before := take k s in
      let after := drop (k + length find) s in
      before ++ substitution find before after repl ++ after
  end.

(** ** [file_edit] *)

Inductive EditOutcome :=
| NoMatch
| Ambiguous (occurrences : Z)
| Edited (after : ustring) (changed : Z).

Definition occurrences_in (find before : ustring) : Z :=
  match find with [] => 0 | _ => zlen (split_by find before) - 1 end.

Definition file_edit (before find repl : ustring) (all : bool) : EditOutcome :=
  let n := occurrences_in find before in
  if n =? 0 then NoMatch
  else if (1 <? n) && negb all then Ambiguous n
  else Edited (if all then join repl (split_by find before) else replace_once find repl before)
         (if all then n else 1).

(** ** [file_read] *)

Definition MAX_READ_BYTES : Z := 2000000.
Definition DEFAULT_READ_LINES : Z := 400.

Definition looksBinary (bytes : list Z) : bool := existsb (Z.eqb 0) (slice bytes 0 8000).

Inductive ReadOutcome :=
| Missing
| TooLarge (size : Z)
| Binary
| Shown (text : ustring).

(** The lines a window shows. *)
Definition window (lines : list ustring) (offset limit : Z) : list ustring :=
  slice lines (offset - 1) (offset - 1 + limit).

Definition read_text (path text : ustring) (offset limit : option Z) : ustring :=
  let lines := split_on 10 (stripControl text) in
  let from := Z.max 1 (default 1 offset) in
  let most := Z.max 1 (default DEFAULT_READ_LINES limit) in
  match window lines from most with
  | [] =>
      path ++ js " has " ++ decimal (zlen lines) ++ js " lines, so there is nothing at line " ++
      decimal from ++ js "."
  | shown =>
      let body := join [10] shown in
      let upto := from - 1 + zlen shown in
      if (from =? 1) && (zlen lines <=? upto) then body
      else js "Lines " ++ decimal from ++ js "-" ++ decimal upto ++ js " of " ++ decimal (zlen lines) ++
           js " in " ++ path ++ js ":" ++ [10] ++ body
  end.

(** [file] is the size, the bytes and the text they decode to, when the file is there. *)
Definition file_read (file : option (Z * list Z * ustring)) (path : ustring) (offset limit : option Z)
  : ReadOutcome :=
  match file with
  | None => Missing
  | Some (size, bytes, text) =>
      if MAX_READ_BYTES <? size then TooLarge size
      else if looksBinary bytes then Binary
      else Shown (read_text path text offset limit)
  end.

(** ** Cutting and joining *)

Lemma index_of_spec sep s k : index_of sep s = Some k ->
  s = take k s ++ sep ++ drop (k + length sep) s.
Proof.
  revert k. induction s as [|c s IH]; intros k H; cbn in H.
  - destruct (starts_with sep []) eqn:E; [|done]. injection H as <-. apply starts_with_spec in E as [t E].
    destruct sep; [done|by cbn in E].
  - destruct (starts_with sep (c :: s)) eqn:E.
    + injection H as <-. apply starts_with_spec in E as [t E]. rewrite E. cbn [take app Nat.add].
      by rewrite drop_app_length.
    + destruct (index_of sep s) as [j|]; [|done]. injection H as <-. cbn. f_equal. by apply IH.
Qed.

Lemma index_of_none sep s : index_of sep s = None -> forall a b, s <> a ++ sep ++ b.
Proof.
  induction s as [|c s IH]; intros H a b E; cbn in H.
  - destruct (starts_with sep []) eqn:Es; [done|]. destruct a; [|done]. cbn in E.
    assert (starts_with sep [] = true); [|congruence]. apply starts_with_spec. exists b. by rewrite E.
  - destruct (starts_with sep (c :: s)) eqn:Es; [done|]. destruct (index_of sep s) eqn:Ei; [done|].
    destruct a as [|c' a].
    + assert (starts_with sep (c :: s) = true); [|congruence]. apply starts_with_spec. by exists b.
    + injection E as <- E. by apply (IH eq_refl a b).
Qed.

Lemma index_of_take sep s k : sep <> [] -> index_of sep s = Some k -> index_of sep (take k s) = None.
Proof.
  intros Hsep. revert k. induction s as [|c s IH]; intros k H; cbn in H.
  - destruct (starts_with sep []) eqn:E; [|done]. injection H as <-. by destruct sep.
  - destruct (starts_with sep (c :: s)) eqn:E; [injection H as <-; by destruct sep|].
    destruct (index_of sep s) as [j|]; [|done]. injection H as <-. cbn [take index_of].
    rewrite (IH j eq_refl). destruct (starts_with sep (c :: take j s)) eqn:E2; [|done].
    apply starts_with_spec in E2 as [t E2].
    assert (starts_with sep (c :: s) = true); [|congruence]. apply starts_with_spec.
    exists (t ++ drop j s). rewrite app_assoc, <- E2. cbn. by rewrite take_drop.
Qed.

(** The pieces, put together again, are the text, and none of them holds the separator. *)
Lemma split_text_spec sep : sep <> [] -> forall fuel s, (length s < fuel)%nat ->
  join sep (split_text fuel sep s) = s /\ split_text fuel sep s <> [] /\
  Forall (fun p => index_of sep p = None) (split_text fuel sep s).
Proof.
  intros Hsep. induction fuel as [|fuel IH]; intros s Hf; [lia|]. cbn [split_text].
  destruct (index_of sep s) as [k|] eqn:E; [|by repeat constructor].
  pose proof (index_of_spec _ _ _ E) as Hs.
  destruct (IH (drop (k + length sep) s)) as (H1 & H2 & H3).
  { rewrite length_drop. destruct sep; [done|]. destruct s; [|cbn in *; lia].
    by destruct k; cbn in Hs. }
  split_and!; [|done|].
  - destruct (split_text fuel sep _) as [|q l]; [done|]. cbn [join] in *. rewrite H1. by rewrite <- Hs.
  - constructor; [by apply index_of_take|done].
Qed.

Lemma split_by_spec sep s : sep <> [] ->
  join sep (split_by sep s) = s /\ split_by sep s <> [] /\
  Forall (fun p => index_of sep p = None) (split_by sep s).
Proof. intros H. apply split_text_spec; [done|lia]. Qed.

Lemma substitution_plain m b a repl : 36 ∉ repl -> substitution m b a repl = repl.
Proof.
  induction repl as [|c repl IH]; intros H; [done|]. apply not_elem_of_cons in H as [Hc H].
  cbn [substitution]. rewrite (IH H). by repeat case_match.
Qed.

Lemma split_by_two sep s p q : split_by sep s = [p; q] ->
  exists k, index_of sep s = Some k /\ p = take k s /\ q = drop (k + length sep) s.
Proof.
  unfold split_by. cbn [split_text]. destruct (index_of sep s) as [k|]; [|done].
  intros [= <- E]. exists k. split_and!; [done..|]. destruct (length s); cbn in E; [by injection E|].
  destruct (index_of sep _); [|by injection E].
  injection E as _ E. by destruct n; cbn in E; [|destruct (index_of sep _)].
Qed.

(** What an edit changes and what it leaves: a text with [n] occurrences of what is looked for is
    cut there and joined again with the replacement; with none nothing is edited, with several and
    not [all] it is refused with their number; and, the replacement being free of [$], exactly the
    occurrences change. *)
Theorem file_edit_exact (before find repl : ustring) (all : bool)
  (Hplain : all = true \/ ~ 36 ∈ repl) :
  match file_edit before find repl all with
  | NoMatch => find = [] \/ forall a b, before <> a ++ find ++ b
  | Ambiguous n => all = false /\ 1 < n /\ zlen (split_by find before) = n + 1
  | Edited after n =>
      exists pieces, before = join find pieces /\ after = join repl pieces /\
        zlen pieces = n + 1 /\ 1 <= n /\ (all = false -> n = 1) /\
        Forall (fun p => index_of find p = None) pieces
  end.
Proof.
  unfold file_edit, occurrences_in. destruct find as [|f find]; [by left|].
  set (sep := f :: find) in *. destruct (split_by_spec sep before ltac:(done)) as (H1 & H2 & H3).
  destruct (Z.eqb_spec (zlen (split_by sep before) - 1) 0) as [Hz|Hz].
  - right. destruct (split_by sep before) as [|q [|]]; [done| |cbn in Hz; lia].
    cbn in H1. subst q. apply Forall_cons in H3 as [H3 _]. by apply index_of_none.
  - assert (1 < zlen (split_by sep before)) as Hlen.
    { destruct (split_by sep before) as [|q [|q' l]]; [done| |cbn; lia]. by cbn in Hz. }
    destruct (Z.ltb_spec 1 (zlen (split_by sep before) - 1)) as [Hm|Hm], all; cbn [andb negb].
    + exists (split_by sep before). split_and!; [done..|lia|lia|done|done].
    + split_and!; [done|done|lia].
    + exists (split_by sep before). split_and!; [done..|lia|lia|done|done].
    + destruct Hplain as [|Hplain]; [done|].
      destruct (split_by sep before) as [|p [|q [|]]] eqn:E; try (cbn in *; lia).
      exists [p; q]. split_and!; [done| |cbn; lia|lia|done|done].
      destruct (split_by_two _ _ _ _ E) as (k & Hk & -> & ->). unfold replace_once. rewrite Hk.
      by rewrite substitution_plain.
Qed.

Lemma file_edit_exact_witness :
  exists pieces, js "a=1; b=1" = join (js "b") pieces /\ js "a=1; c=1" = join (js "c") pieces.
Proof.
  assert (36 ∉ js "c") as H by (apply (bool_decide_unpack _); by vm_compute).
  destruct (file_edit_exact (js "a=1; b=1") (js "b") (js "c") false (or_intror H))
    as (pieces & H1 & H2 & _).
  exists pieces. split; [exact H1|exact H2].
Defined.

(** A replacement with a [$] in it is not written as given, unless every occurrence is replaced. *)
Lemma edit_mangles_dollars :
  file_edit (js "kill PID") (js "PID") (js "$$") false = Edited (js "kill $") 1 /\
  file_edit (js "kill PID") (js "PID") (js "$$") true = Edited (js "kill $$") 1 /\
  file_edit (js "x = A;") (js "A") (js "'$&'") false = Edited (js "x = 'A';") 1.
Proof. by split_and!; vm_compute. Qed.

(** ** Windows *)

Lemma window_eq (lines : list ustring) k m : 0 <= k -> 0 <= m ->
  window lines (k + 1) m = take (Z.to_nat m) (drop (Z.to_nat k) lines).
Proof.
  intros Hk Hm. unfold window. replace (k + 1 - 1) with k by lia.
  destruct (Z.le_gt_cases (k + m) (zlen lines)) as [Hle|Hgt].
  - rewrite slice_within by lia. by replace (k + m - k) with m by lia.
  - unfold slice, slice_index. destruct (Z.ltb_spec k 0); [lia|]. destruct (Z.ltb_spec (k + m) 0); [lia|].
    rewrite (Z.min_r (k + m)) by lia. destruct (Z.le_gt_cases k (zlen lines)) as [Hk'|Hk'].
    + rewrite Z.min_l by lia. rewrite !take_ge; [done|rewrite length_drop; lia..].
    + rewrite Z.min_r by lia. rewrite !drop_ge by lia. by rewrite !take_nil.
Qed.

(** Reading on from where the last window ended shows every line once, in order. *)
Lemma windows_cover (lines : list ustring) (limit : Z) (n : nat) : 1 <= limit ->
  concat (map (fun k => window lines (Z.of_nat k * limit + 1) limit) (seq 0 n)) =
  take (n * Z.to_nat limit) lines.
Proof.
  intros Hl. induction n as [|n IH]; [done|].
  rewrite seq_S, map_app, concat_app, IH. cbn [map concat Nat.add]. rewrite app_nil_r.
  rewrite window_eq by lia. replace (Z.to_nat (Z.of_nat n * limit)) with (n * Z.to_nat limit)%nat by lia.
  rewrite take_take_drop. f_equal. lia.
Qed.
