(* ===== verification/Images.v ===== *)
(** * Images sent with a message: [media/image-input.ts]

    An image is named by a path inside the agent's directory or carried inline; its bytes decide its
    type. What the file system answers is given, and does not change while one image is read. *)
From S2P Require Import Prelude UString Paths.
Local Open Scope Z_scope.

(** ** Base64, as [Buffer] writes and reads it *)

Definition ALPHABET64 : ustring := js "ABCDEFGHIJKLMNOPQRSTUVWXYZabcdefghijklmnopqrstuvwxyz0123456789+/".
Definition symbol (n : Z) : Z := nth (Z.to_nat n) ALPHABET64 0.

Definition sextet (c : Z) : option Z :=
  if (65 <=? c) && (c <=? 90) then Some (c - 65)
  else if (97 <=? c) && (c <=? 122) then Some (c - 71)
  else if (48 <=? c) && (c <=? 57) then Some (c + 4)
  else if c =? 43 then Some 62
  else if c =? 47 then Some 63
  else None.

(** [Buffer.from(bytes).toString("base64")]. *)
Fixpoint to_base64 (bytes : list Z) : ustring :=
  match bytes with
  | [] => []
  | [a] => [symbol (a / 4); symbol (16 * (a mod 4)); 61; 61]
  | [a; b] => [symbol (a / 4); symbol (16 * (a mod 4) + b / 16); symbol (4 * (b mod 16)); 61]
  | a :: b :: c :: rest =>
      symbol (a / 4) :: symbol (16 * (a mod 4) + b / 16) :: symbol (4 * (b mod 16) + c / 64) :: symbol (c mod 64) ::
      to_base64 rest
  end.

(** [Buffer.from(text, "base64")] of text in base64 with its padding; bits past the last byte are
    dropped. *)
Fixpoint from_base64 (text : ustring) : list Z :=
  match text with
  | p :: q :: r :: s :: rest =>
      match sextet p, sextet q with
      | Some a, Some b =>
          match sextet r, sextet s with
          | Some c, Some d => 4 * a + b / 16 :: 16 * (b mod 16) + c / 4 :: 64 * (c mod 4) + d :: from_base64 rest
          | Some c, None => [4 * a + b / 16; 16 * (b mod 16) + c / 4]
          | None, _ => [4 * a + b / 16]
          end
      | _, _ => []
      end
  | _ => []
  end.

(** ** What the bytes are *)

Definition MAX_IMAGE_BYTES : Z := 3932160.
Definition MAX_IMAGES_PER_MESSAGE : nat := 5.

Inductive MediaType := Png | Jpeg | Gif | Webp.
#[export] Instance MediaType_eq_dec : EqDecision MediaType.
Proof. solve_decision. Defined.

Definition media_name (m : MediaType) : ustring :=
  js match m with Png => "image/png" | Jpeg => "image/jpeg" | Gif => "image/gif" | Webp => "image/webp" end.

Definition byte_at (bytes : list Z) (i : nat) : Z := nth i bytes (-1).
Definition bytes_at (bytes : list Z) (i : nat) (l : list Z) : bool :=
  forallb (fun '(j, b) => byte_at bytes (i + j) =? b) (imap (fun j b => (j, b)) l).

Definition sniffImage (bytes : list Z) : option MediaType :=
  if bytes_at bytes 0 [0x89; 0x50; 0x4e; 0x47] then Some Png
  else if bytes_at bytes 0 [0xff; 0xd8; 0xff] then Some Jpeg
  else if bytes_at bytes 0 [0x47; 0x49; 0x46; 0x38] then Some Gif
  else if bytes_at bytes 0 [0x52; 0x49; 0x46; 0x46] && bytes_at bytes 8 [0x57; 0x45; 0x42; 0x50] then Some Webp
  else None.

(** ** Reading *)

(** [imageRefused]'s codes; a [stat] or a read that throws is not one of them. *)
Inductive ImageError :=
| CountExceeded (n : nat) | SourceAmbiguous | SourceMissing | PathInvalid | PathOutside | NotFound | NotAFile
| TooLarge (size : Z) | Unsupported | DataInvalid | MediaTypeMismatch | FileSystemThrew.
#[export] Instance ImageError_eq_dec : EqDecision ImageError.
Proof. solve_decision. Defined.

Record ImageInput := { mediaType : MediaType; data : ustring; ref : ustring }.
Record ImageSpec := { i_path : option ustring; i_data : option ustring; i_mediaType : option ustring }.

(** [realpath], [stat] (whether it is a file, and its size) and [readFile]; [None] where they throw. *)
Class FileSystem := {
  realpath : ustring -> option ustring; stat : ustring -> option (bool * Z); readFile : ustring -> option (list Z) }.

Definition imageFromBytes (bytes : list Z) (r : ustring) : result ImageError ImageInput :=
  if MAX_IMAGE_BYTES <? zlen bytes then Err (TooLarge (zlen bytes))
  else match sniffImage bytes with
       | None => Err Unsupported
       | Some m => Ok {| mediaType := m; data := to_base64 bytes; ref := r |}
       end.

Definition base64_char (c : Z) : bool := match sextet c with Some _ => true | None => false end.

(** [BASE64.test]: some symbols, then at most two signs of padding. *)
Definition BASE64_test (s : ustring) : bool :=
  existsb (fun k =>
    let body := take (length s - k) s in
    negb (bool_decide (body = [])) && forallb base64_char body && forallb (Z.eqb 61) (drop (length s - k) s))
    [0%nat; 1%nat; 2%nat].

Definition fromData (text : ustring) (declared : option ustring) : result ImageError ImageInput :=
  let clean := List.filter (fun c => negb (is_space c)) text in
  if bool_decide (clean = []) || negb (zlen clean mod 4 =? 0) || negb (BASE64_test clean) then Err DataInvalid
  else
    match imageFromBytes (from_base64 clean) (js "upload") with
    | Err e => Err e
    | Ok i =>
        if match declared with Some d => negb (bool_decide (d = media_name (mediaType i))) | None => false end
        then Err MediaTypeMismatch
        else Ok {| mediaType := mediaType i; data := clean; ref := js "upload" |}
    end.

(** [p === base || p.startsWith(base + sep)]. *)
Definition inside (p base : ustring) : bool := bool_decide (p = base) || starts_with (base ++ [47]) p.

Section Reading.
Context `{FileSystem} (agentDir : ustring).

Definition fromPath (path : ustring) : result ImageError ImageInput :=
  if blank path || is_absolute path then Err PathInvalid
  else if negb (inside (path_resolve agentDir path) (path_resolve [] agentDir)) then Err PathOutside
  else
    match realpath agentDir, realpath (path_resolve agentDir path) with
    | Some root, Some real =>
        if negb (inside real root) then Err PathOutside
        else
          match stat real with
          | None => Err FileSystemThrew
          | Some (file, size) =>
              if negb file then Err NotAFile
              else if MAX_IMAGE_BYTES <? size then Err (TooLarge size)
              else match readFile real with
                   | None => Err FileSystemThrew
                   | Some bytes =>
                       match sniffImage bytes with
                       | None => Err Unsupported
                       | Some m => Ok {| mediaType := m; data := to_base64 bytes; ref := path |}
                       end
                   end
          end
    | _, _ => Err NotFound
    end.

Definition readImage (spec : ImageSpec) : result ImageError ImageInput :=
  match i_path spec, i_data spec with
  | Some _, Some _ => Err SourceAmbiguous
  | Some path, None => fromPath path
  | None, Some text => fromData text (i_mediaType spec)
  | None, None => Err SourceMissing
  end.

Definition readImages (specs : list ImageSpec) : result ImageError (list ImageInput) :=
  if (MAX_IMAGES_PER_MESSAGE <? length specs)%nat then Err (CountExceeded (length specs)) else mapR readImage specs.
End Reading.

(** ** Base64 comes back *)

Definition is_byte (b : Z) : Prop := 0 <= b < 256.

Lemma sextet_symbol n : 0 <= n < 64 -> sextet (symbol n) = Some n.
Proof.
  intros Hn. assert (Forall (fun n => sextet (symbol n) = Some n) (seqZ 0 64)) as Hall.
  { apply (bool_decide_eq_true_1 _). by vm_compute. }
  rewrite Forall_forall in Hall. apply Hall, elem_of_seqZ. lia.
Qed.

Lemma sextet_pad : sextet 61 = None.
Proof. done. Qed.

Local Ltac sextets :=
  repeat match goal with |- context [sextet (symbol ?n)] => rewrite (sextet_symbol n) by (Z.to_euclidean_division_equations; lia) end.

(** A group of three bytes. *)
Lemma group a b c : is_byte a -> is_byte b -> is_byte c ->
  4 * (a / 4) + (16 * (a mod 4) + b / 16) / 16 = a /\
  16 * ((16 * (a mod 4) + b / 16) mod 16) + (4 * (b mod 16) + c / 64) / 4 = b /\
  64 * ((4 * (b mod 16) + c / 64) mod 4) + c mod 64 = c.
Proof. unfold is_byte. intros. split_and!; Z.to_euclidean_division_equations; lia. Qed.

Lemma from_to_base64 bytes : Forall is_byte bytes -> from_base64 (to_base64 bytes) = bytes.
Proof.
  remember (length bytes) as k eqn:Hk. revert bytes Hk. induction k as [k IH] using lt_wf_ind. intros bytes -> Hb.
  destruct bytes as [|a [|b [|c rest]]]; cbn [to_base64 from_base64]; [done|..].
  all: repeat match goal with H : Forall _ (_ :: _) |- _ => apply Forall_cons in H as [? H] end; unfold is_byte in *.
  - sextets. rewrite sextet_pad. f_equal. pose proof (group a 0 0). unfold is_byte in *. Z.to_euclidean_division_equations. lia.
  - sextets. rewrite sextet_pad. destruct (group a b 0) as (Ea & Eb & _); unfold is_byte; [lia..|].
    rewrite Z.div_0_l, Z.add_0_r in Eb by lia. by rewrite Ea, Eb.
  - sextets. destruct (group a b c) as (Ea & Eb & Ec); unfold is_byte; [lia..|]. rewrite Ea, Eb, Ec. do 3 f_equal.
    eapply IH; [|done|done]. cbn. lia.
Qed.

(** ** Where a file is *)

Lemma split_on_at sep s t : split_on sep (s ++ sep :: t) = split_on sep s ++ split_on sep t.
Proof.
  induction s as [|c s IH]; simpl; [by rewrite Z.eqb_refl|]. destruct (c =? sep); [by rewrite IH|]. rewrite IH.
  pose proof (split_on_nonempty sep s). by destruct (split_on sep s).
Qed.

(** Below a directory by its text is below it by its segments. *)
Lemma inside_segments p base : inside p base = true -> exists tail, segments p = segments base ++ tail.
Proof.
  unfold inside. intros [->%bool_decide_eq_true_1|(t & ->)%starts_with_spec]%orb_true_iff; [by exists []; rewrite app_nil_r|].
  exists (segments t). rewrite <- app_assoc. cbn. unfold segments. by rewrite split_on_at, List.filter_app.
Qed.

(** ** What a message's images are *)

Section Read.
Context `{FileSystem} (agentDir : ustring).

(** The image of a path: a regular file at or below the real directory of the agent, and below its
    name too, no larger than the cap. *)
Definition file_image (path : ustring) (bytes : list Z) : Prop :=
  exists root real size below below_real, realpath agentDir = Some root /\ realpath (path_resolve agentDir path) = Some real /\
    segments (path_resolve agentDir path) = segments (path_resolve [] agentDir) ++ below /\
    segments real = segments root ++ below_real /\
    stat real = Some (true, size) /\ size <= MAX_IMAGE_BYTES /\ readFile real = Some bytes.

(** The image of inline data: its bytes, and the type the sender declared if any. *)
Definition inline_image (text : ustring) (declared : option ustring) (i : ImageInput) (bytes : list Z) : Prop :=
  data i = List.filter (fun c => negb (is_space c)) text /\ zlen bytes <= MAX_IMAGE_BYTES /\
  (forall d, declared = Some d -> d = media_name (mediaType i)).

Definition image_of (spec : ImageSpec) (i : ImageInput) : Prop :=
  exists bytes, from_base64 (data i) = bytes /\ sniffImage bytes = Some (mediaType i) /\
    ((exists path, i_path spec = Some path /\ i_data spec = None /\ ref i = path /\ file_image path bytes) \/
     (exists text, i_path spec = None /\ i_data spec = Some text /\ ref i = js "upload" /\
        inline_image text (i_mediaType spec) i bytes)).

Lemma fromPath_image path i (Hfs : forall p bs, readFile p = Some bs -> Forall is_byte bs) :
  fromPath agentDir path = Ok i -> ref i = path /\ exists bytes, from_base64 (data i) = bytes /\
    sniffImage bytes = Some (mediaType i) /\ file_image path bytes.
Proof.
  unfold fromPath. destruct (_ || _); [done|]. destruct (inside _ _) eqn:Hlex; [|done]. cbn [negb].
  destruct (realpath agentDir) as [root|] eqn:Hroot; [|done]. destruct (realpath (path_resolve _ _)) as [real|] eqn:Hreal; [|done].
  destruct (inside real root) eqn:Hin; [|done]. cbn [negb]. destruct (stat real) as [[file size]|] eqn:Hst; [|done].
  destruct file; [|done]. cbn [negb]. destruct (MAX_IMAGE_BYTES <? _) eqn:Hsz; [done|]. destruct (readFile real) as [bytes|] eqn:Hrd; [|done].
  destruct (sniffImage bytes) as [m|] eqn:Hsn; [|done]. intros [= <-]. cbn. split; [done|]. exists bytes.
  rewrite from_to_base64 by eauto. split_and!; [done..|]. apply inside_segments in Hlex as [below Hb], Hin as [below_real Hbr].
  exists root, real, size, below, below_real. split_and!; try done. lia.
Qed.

Lemma fromData_image text declared i : fromData text declared = Ok i ->
  ref i = js "upload" /\ sniffImage (from_base64 (data i)) = Some (mediaType i) /\
  inline_image text declared i (from_base64 (data i)).
Proof.
  unfold fromData, inline_image. destruct (_ || _); [done|]. unfold imageFromBytes. destruct (MAX_IMAGE_BYTES <? _) eqn:Hsz; [done|].
  destruct (sniffImage _) as [m|] eqn:Hsn; [|done]. cbn [mediaType].
  destruct declared as [d|]; [case_bool_decide; [|done]|]; cbn [negb]; intros [= <-]; cbn; split_and!; try done; try lia.
  by intros ? [= <-].
Qed.

(** The images of a message are what it names and nothing else. When they are read, there are at
    most five, one for each that was named, in order; the text that goes to the model decodes to bytes
    that begin as an image of its type does; the bytes of a path are those of a regular file within
    the cap, inside the agent's directory both as written and once links are followed; and inline
    bytes are the data that was sent, within the cap and of the type it was declared. *)
Theorem images_read (specs : list ImageSpec) (images : list ImageInput)
  (Hfs : forall p bs, readFile p = Some bs -> Forall is_byte bs) (Hr : readImages agentDir specs = Ok images) :
  (length images <= MAX_IMAGES_PER_MESSAGE)%nat /\ Forall2 image_of specs images.
Proof.
  unfold readImages in Hr. destruct (_ <? _)%nat eqn:Hn; [done|]. apply Nat.ltb_ge in Hn.
  apply mapR_ok_Forall2 in Hr. split; [by rewrite <- (Forall2_length _ _ _ Hr)|].
  eapply Forall2_impl; [exact Hr|]. intros spec i Hi. cbn beta in Hi. unfold readImage in Hi.
  destruct (i_path spec) as [path|] eqn:Hp, (i_data spec) as [text|] eqn:Hd; [done|..|done].
  - apply fromPath_image in Hi as (Href & bytes & Hb & Hs & Hf); [|done]. exists bytes. split_and!; [done..|left; eauto].
  - apply fromData_image in Hi as (Href & Hs & Hin). eexists. split_and!; [done..|]. right. rewrite Hp, Hd. eauto.
Qed.

(** A path that leads outside as it is written is refused before the file system is asked. *)
Lemma outside_unasked path : blank path = false -> is_absolute path = false ->
  inside (path_resolve agentDir path) (path_resolve [] agentDir) = false -> fromPath agentDir path = Err PathOutside.
Proof. unfold fromPath. by intros -> -> ->. Qed.
End Read.

(** ** In use *)

(** A directory with one picture and a link that leads out of it. *)
Definition one_picture : FileSystem :=
  {| realpath := fun p => if bool_decide (p = js "/a/link.png") then Some (js "/etc/passwd") else Some p;
     stat := fun p => Some (true, 8); readFile := fun p => if bool_decide (p = js "/a/dot.gif") then Some [0x47; 0x49; 0x46; 0x38; 0x39; 0x61; 0; 255] else None |}.

Definition by_path (p : string) : ImageSpec := {| i_path := Some (js p); i_data := None; i_mediaType := None |}.

Lemma images_read_witness :
  (forall p bs, @readFile one_picture p = Some bs -> Forall is_byte bs) /\
  (length [{| mediaType := Gif; data := js "R0lGODlhAP8="; ref := js "dot.gif" |}] <= MAX_IMAGES_PER_MESSAGE)%nat.
Proof.
  assert (forall p bs, @readFile one_picture p = Some bs -> Forall is_byte bs) as Hfs.
  { intros p bs. cbn. case_bool_decide; [|done]. intros [= <-]. repeat constructor; unfold is_byte; lia. }
  split; [exact Hfs|]. refine (proj1 (@images_read one_picture (js "/a") [by_path "dot.gif"] _ Hfs _)). by vm_compute.
Defined.

Example refused : map (fun p => @readImages one_picture (js "/a") [by_path p]) ["link.png"; "../b/x.png"; "/etc/passwd"; " "]%string =
  [Err PathOutside; Err PathOutside; Err PathInvalid; Err PathInvalid].
Proof. by vm_compute. Qed.
