(* ===== verification/Post.v ===== *)
(** * A message arrives: [POST /v1/agents/:id/messages] of [handler.ts], and the [inbound_keys] table

    The handler is cut at its [await]s; requests of any number of processes over one store interleave,
    a process can die at any point, and the clock is read anew by each claim. The body's schema is
    zod's: what it lets through is a [Message]. What the runtime answers (the session a message
    resolves to, the governor, the file system) is given to the step that waits for it; the turn
    that is started is [Serving]'s and [Turn]'s. *)
From S2P Require Import Prelude UString Json Principal OperatorKeys Images.
Local Open Scope Z_scope.

(** ** What is read of a request *)

Definition MAX_BODY_BYTES : Z := 1000000.
Definition MAX_SENDER_ID : Z := 256.
Definition MAX_SENDER_NAME : nat := 128.
Definition MAX_IDEMPOTENCY_KEY : Z := 255.

(** The fields of [MessageBody] once the schema let it through; [from] and [deliver] as they came. *)
Record Message := {
  m_text : ustring; m_sessionKey : option ustring; m_role : option ustring; m_runtimeNote : option ustring;
  m_peerAsk : option ustring; m_images : list ImageSpec; m_deliver : option json; m_from : option json;
  m_stream : bool; m_chunks : bool }.

(** The headers and body of one request, the agent it is for and who sent it. *)
Record PostRequest := {
  p_agent : ustring; p_principal : Principal; p_content_length : option ustring; p_idempotency : option ustring;
  p_body : ustring }.

Definition digit_prefix (s : ustring) : ustring := (fix go s := match s with c :: r => if is_digit c then c :: go r else [] | [] => [] end) s.

(** [Number.parseInt(s, 10)]; [None] is [NaN]. *)
Definition parseInt10 (s : ustring) : option Z :=
  let s := trim_start s in
  let '(neg, s) := match s with 43 :: r => (false, r) | 45 :: r => (true, r) | _ => (false, s) end in
  match digit_prefix s with
  | [] => None
  | ds => Some (if neg : bool then - digits_value ds else digits_value ds)
  end.

Inductive Refusal :=
| BodyTooLarge | BodyNotJson | BodyInvalid | SessionNotFound | DeliverInvalid | SenderInvalid | SenderNotBound
| KeyInvalid | NoteUntrusted | RoleUnknown | ModelNoVision | ImageRefused (e : ImageError) | AtCapacity | BudgetExhausted.

Definition refusal_status (r : Refusal) : Z :=
  match r with SessionNotFound => 404 | SenderNotBound => 403 | AtCapacity | BudgetExhausted => 429 | _ => 400 end.

Section Parsing.
(** [JSON.parse] and the schema: what a body is, if it is JSON and if the schema lets it through. *)
Context (json_of : ustring -> option json) (message_of : json -> option Message).

Definition readJson (rq : PostRequest) : result Refusal json :=
  if match parseInt10 (default (js "0") (p_content_length rq)) with Some n => MAX_BODY_BYTES <? n | None => false end
  then Err BodyTooLarge
  else if MAX_BODY_BYTES <? zlen (p_body rq) then Err BodyTooLarge
  else match p_body rq with
       | [] => Ok (JObj [])
       | raw => match json_of raw with Some v => Ok v | None => Err BodyNotJson end
       end.

Definition member (k : string) (v : json) : option json :=
  match v with
  | JObj l => snd <$> List.find (fun kv => bool_decide (kv.1 = js k)) l
  | _ => None
  end.

Definition kind_of (s : ustring) : option SenderKind :=
  if bool_decide (s = js "user") then Some UserKind else if bool_decide (s = js "agent") then Some AgentKind else None.

Definition parseFrom (value : option json) : result Refusal (option TurnSender) :=
  match value with
  | None | Some JNull => Ok None
  | Some (JBool _) | Some (JNum _) | Some (JStr _) => Err SenderInvalid
  | Some v =>
      match member "id" v with
      | Some (JStr id) =>
          if blank id then Err SenderInvalid
          else if MAX_SENDER_ID <? zlen id then Err SenderInvalid
          else
            match member "kind" v with
            | Some (JStr kind) =>
                match kind_of kind with
                | None => Err SenderInvalid
                | Some k =>
                    match member "name" v with
                    | None => Ok (Some {| sender_id := id; sender_kind := k; sender_name := None |})
                    | Some (JStr name) =>
                        Ok (Some {| sender_id := id; sender_kind := k; sender_name := Some (take MAX_SENDER_NAME name) |})
                    | Some _ => Err SenderInvalid
                    end
                end
            | _ => Err SenderInvalid
            end
      | _ => Err SenderInvalid
      end
  end.

Definition parseDeliver (value : option json) : result Refusal (option (ustring * ustring)) :=
  match value with
  | None | Some JNull => Ok None
  | Some (JStr s) => if bool_decide (s = js "none") then Ok None else Err DeliverInvalid
  | Some v =>
      match member "channel" v, member "to" v with
      | Some (JStr channel), Some (JStr to) => Ok (Some (channel, to))
      | _, _ => Err DeliverInvalid
      end
  end.

Definition printable (c : Z) : bool := (0x20 <=? c) && (c <=? 0x7e).

Definition parseIdempotencyKey (rq : PostRequest) : result Refusal (option ustring) :=
  match p_idempotency rq with
  | None => Ok None
  | Some raw =>
      let key := trim raw in
      if bool_decide (key = []) then Err KeyInvalid
      else if MAX_IDEMPOTENCY_KEY <? zlen key then Err KeyInvalid
      else if negb (forallb printable key) then Err KeyInvalid
      else Ok (Some key)
  end.
End Parsing.

(** ** The keys a message was sent under *)

Definition INBOUND_KEY_TTL_MS : Z := 24 * 60 * 60 * 1000.

Record InboundKey := { k_agent : ustring; k_key : ustring; k_turn : ustring; k_hash : ustring; k_created : Z }.
Inductive KeyClaim := Claimed | Replay (turn : ustring) | Mismatch (turn : ustring).
#[export] Instance KeyClaim_eq_dec : EqDecision KeyClaim.
Proof. solve_decision. Defined.

Definition of_key (agent key : ustring) (r : InboundKey) : bool := bool_decide (k_agent r = agent) && bool_decide (k_key r = key).

(** [inboundKeyEvict]. *)
Definition evict_keys (agent : ustring) (before : Z) (rows : list InboundKey) : list InboundKey :=
  List.filter (fun r => negb (bool_decide (k_agent r = agent) && (k_created r <? before))) rows.

(** [claimInboundKey]: one transaction that evicts, inserts or ignores, and reads back. *)
Definition claimInboundKey (c : InboundKey) (rows : list InboundKey) : KeyClaim * list InboundKey :=
  let rows := evict_keys (k_agent c) (k_created c - INBOUND_KEY_TTL_MS) rows in
  match List.find (of_key (k_agent c) (k_key c)) rows with
  | None => (Claimed, rows ++ [c])
  | Some r => (if bool_decide (k_hash r = k_hash c) then Replay (k_turn r) else Mismatch (k_turn r), rows)
  end.

(** What stands for a message when its key is used again. *)
Definition hashed_text (text : ustring) (images : list ImageInput) : ustring :=
  match images with [] => text | _ => text ++ 10 :: join [10] (map data images) end.
Definition inputHash `{Digest} (sessionKey text : ustring) : ustring :=
  concat (map hex_byte (sha256 (sessionKey ++ 0 :: text))).

(** ** The handler *)

(** What is known of a message while it is handled. *)
Record Draft := {
  d_message : Message; d_from : option TurnSender; d_deliver : option (ustring * ustring); d_session : ustring;
  d_key : option ustring; d_images : list ImageInput }.

Inductive Answer :=
| Refused (r : Refusal)
| Accepted (turn session : ustring)
| Replayed (turn session : ustring)
| KeyReused (key turn : ustring)
| Threw.

(** The body is read; the session is resolved; the images are read; the governor is asked; the
    message is hashed, and its key claimed then; the claim is answered; a process died. *)
Inductive Stage :=
| Reading
| ResolvingSession (m : Message) (from : option TurnSender) (deliver : option (ustring * ustring))
| ReadingImages (d : Draft)
| Asking (d : Draft)
| Hashing (d : Draft) (turn key : ustring)
| Judged (d : Draft) (turn : ustring) (key : ustring) (verdict : KeyClaim)
| Answered (a : Answer)
| Dead.

Inductive Ticket := Held | GivenBack | Used.
#[export] Instance Ticket_eq_dec : EqDecision Ticket.
Proof. solve_decision. Defined.

(** A turn that was started, with what [send] is given. *)
Record Started := { s_request : nat; s_agent : ustring; s_turn : ustring; s_draft : Draft }.

(** Claims in the order of their transactions, for the reader. *)
Record ClaimEntry := { c_request : nat; c_row : InboundKey; c_verdict : KeyClaim }.

Record Server := {
  requests : list (PostRequest * Stage); keys : list InboundKey; tickets : gmap nat Ticket; started : list Started;
  claims : list ClaimEntry }.

Definition with_stage (n : nat) (st : Stage) (s : Server) : Server :=
  {| requests := alter (fun x => (x.1, st)) n (requests s); keys := keys s; tickets := tickets s; started := started s;
     claims := claims s |}.
Definition with_ticket (n : nat) (t : Ticket) (s : Server) : Server :=
  {| requests := requests s; keys := keys s; tickets := <[n:=t]> (tickets s); started := started s; claims := claims s |}.
Definition with_claim (x : ClaimEntry) (rows : list InboundKey) (s : Server) : Server :=
  {| requests := requests s; keys := rows; tickets := tickets s; started := started s; claims := claims s ++ [x] |}.
Definition with_start (x : Started) (s : Server) : Server :=
  {| requests := requests s; keys := keys s; tickets := tickets s; started := started s ++ [x]; claims := claims s |}.

Inductive Verdict := Granted | NoSlot | NoBudget | AdmissionThrew.

(** What a request waited for: the session, the files, the governor, a new turn's id, the clock, and
    whether the store threw. *)
Record Reply := {
  x_resolved : option ustring; x_files : FileSystem; x_admission : Verdict; x_turn : ustring; x_now : Z; x_throws : bool }.

Section Handler.
Context `{Digest} (json_of : ustring -> option json) (message_of : json -> option Message).
(** The agents' directories, and their models by role ([main] without one): whether one sees images,
    nothing where the role is not declared. *)
Context (agent_dir : ustring -> ustring) (vision : ustring -> option ustring -> option bool).

Definition requested_session (m : Message) : ustring := default (js "api:default") (m_sessionKey m).

(** From the body to the first question asked of the agent. *)
Definition read_message (rq : PostRequest) : result Refusal (Message * option TurnSender * option (ustring * ustring)) :=
  v ← readJson json_of rq;
  m ← (match message_of v with Some m => Ok m | None => Err BodyInvalid end);
  _ ← (if reachesSession (p_principal rq) (requested_session m) then Ok tt else Err SessionNotFound);
  deliver ← parseDeliver (m_deliver m);
  claimed ← parseFrom (m_from m);
  from ← (match senderFor (p_principal rq) claimed with Ok f => Ok f | Err _ => Err SenderNotBound end);
  Ok (m, from, deliver).

Definition from_agent (from : option TurnSender) : bool :=
  match from with Some f => bool_decide (sender_kind f = AgentKind) | None => false end.

(** From the session to the images. *)
Definition draft_message (rq : PostRequest) (m : Message) (from : option TurnSender) (deliver : option (ustring * ustring))
  (resolved : ustring) : result Refusal Draft :=
  key ← parseIdempotencyKey rq;
  _ ← (if bool_decide (is_Some (m_runtimeNote m)) && from_agent from then Err NoteUntrusted else Ok tt);
  _ ← (match m_role m with
       | None => Ok tt
       | Some role => match vision (p_agent rq) (Some role) with Some _ => Ok tt | None => Err RoleUnknown end
       end);
  _ ← (match m_images m with
       | [] => Ok tt
       | _ => match vision (p_agent rq) (m_role m) with Some true => Ok tt | _ => Err ModelNoVision end
       end);
  Ok {| d_message := m; d_from := from; d_deliver := deliver;
        d_session := sessionFor (p_principal rq) (requested_session m) resolved; d_key := key; d_images := [] |}.

Definition with_images (images : list ImageInput) (d : Draft) : Draft :=
  {| d_message := d_message d; d_from := d_from d; d_deliver := d_deliver d; d_session := d_session d; d_key := d_key d;
     d_images := images |}.

Definition refuse (n : nat) (r : Refusal) (s : Server) : Server := with_stage n (Answered (Refused r)) s.

(** [agent.send], with the slot handed over, and the [202]. *)
Definition start (n : nat) (rq : PostRequest) (d : Draft) (turn : ustring) (s : Server) : Server :=
  with_stage n (Answered (Accepted turn (d_session d)))
    (with_start {| s_request := n; s_agent := p_agent rq; s_turn := turn; s_draft := d |} (with_ticket n Used s)).

Definition claim_row (rq : PostRequest) (d : Draft) (turn key : ustring) (now : Z) : InboundKey :=
  {| k_agent := p_agent rq; k_key := key; k_turn := turn;
     k_hash := inputHash (d_session d) (hashed_text (m_text (d_message d)) (d_images d)); k_created := now |}.

(** One more piece of the request [n], up to its next [await]. *)
Definition resume (n : nat) (x : Reply) (s : Server) : option Server :=
  match requests s !! n with
  | Some (rq, Reading) =>
      Some (match read_message rq with
            | Err r => refuse n r s
            | Ok (m, from, deliver) => with_stage n (ResolvingSession m from deliver) s
            end)
  | Some (rq, ResolvingSession m from deliver) =>
      Some (match x_resolved x with
            | None => with_stage n (Answered Threw) s
            | Some resolved =>
                match draft_message rq m from deliver resolved with
                | Err r => refuse n r s
                | Ok d => with_stage n (match m_images m with [] => Asking d | _ => ReadingImages d end) s
                end
            end)
  | Some (rq, ReadingImages d) =>
      Some (match @readImages (x_files x) (agent_dir (p_agent rq)) (m_images (d_message d)) with
            | Err FileSystemThrew => with_stage n (Answered Threw) s
            | Err e => refuse n (ImageRefused e) s
            | Ok images => with_stage n (Asking (with_images images d)) s
            end)
  | Some (rq, Asking d) =>
      Some (match x_admission x with
            | NoSlot => refuse n AtCapacity s
            | NoBudget => refuse n BudgetExhausted s
            | AdmissionThrew => with_stage n (Answered Threw) s
            | Granted =>
                let s := with_ticket n Held s in
                match d_key d with
                | None => start n rq d (x_turn x) s
                | Some key => with_stage n (Hashing d (x_turn x) key) s
                end
            end)
  | Some (rq, Hashing d turn key) =>
      Some (if x_throws x then with_stage n (Answered Threw) s
            else
              let c := claim_row rq d turn key (x_now x) in
              let '(verdict, rows) := claimInboundKey c (keys s) in
              with_stage n (Judged d turn key verdict)
                (with_claim {| c_request := n; c_row := c; c_verdict := verdict |} rows s))
  | Some (rq, Judged d turn key verdict) =>
      Some (match verdict with
            | Claimed => start n rq d turn s
            | Replay first => with_stage n (Answered (Replayed first (d_session d))) (with_ticket n GivenBack s)
            | Mismatch first => with_stage n (Answered (KeyReused key first)) (with_ticket n GivenBack s)
            end)
  | _ => None
  end.

Inductive Act :=
| Arrive (rq : PostRequest)
| Resume (n : nat) (x : Reply)
| Die (n : nat).

Definition perform (a : Act) (s : Server) : option Server :=
  match a with
  | Arrive rq =>
      Some {| requests := requests s ++ [(rq, Reading)]; keys := keys s; tickets := tickets s; started := started s;
              claims := claims s |}
  | Resume n x => resume n x s
  | Die n => match requests s !! n with None | Some (_, Answered _) => None | _ => Some (with_stage n Dead s) end
  end.

Definition step (s s' : Server) : Prop := exists a, perform a s = Some s'.

Definition idle : Server := {| requests := []; keys := []; tickets := ∅; started := []; claims := [] |}.

(** ** What each request has done so far *)

(** Its slot, its claims and its starts. *)
Definition view (n : nat) (s : Server) : option Ticket * list ClaimEntry * list Started :=
  (tickets s !! n, List.filter (fun c => (c_request c =? n)%nat) (claims s),
   List.filter (fun a => (s_request a =? n)%nat) (started s)).

Definition sender_ok (rq : PostRequest) (from : option TurnSender) : Prop :=
  forall bound, boundParticipant (p_principal rq) = Some bound ->
    exists f, from = Some f /\ sender_id f = bound /\ sender_kind f = UserKind.

Record draft_ok (rq : PostRequest) (d : Draft) : Prop := {
  ok_reach : reachesSession (p_principal rq) (d_session d) = true;
  ok_sender : sender_ok rq (d_from d);
  ok_note : m_runtimeNote (d_message d) <> None -> from_agent (d_from d) = false;
  ok_role : forall role, m_role (d_message d) = Some role -> vision (p_agent rq) (Some role) <> None;
  ok_sees : m_images (d_message d) <> [] -> vision (p_agent rq) (m_role (d_message d)) = Some true }.

Definition images_ok (rq : PostRequest) (d : Draft) : Prop :=
  (m_images (d_message d) = [] /\ d_images d = []) \/
  exists files, @readImages files (agent_dir (p_agent rq)) (m_images (d_message d)) = Ok (d_images d).

Definition entry (n : nat) (rq : PostRequest) (d : Draft) (turn key : ustring) (now : Z) (v : KeyClaim) : ClaimEntry :=
  {| c_request := n; c_row := claim_row rq d turn key now; c_verdict := v |}.

(** The claim that let a turn start; none without a key. *)
Definition won (n : nat) (rq : PostRequest) (d : Draft) (turn : ustring) (cs : list ClaimEntry) : Prop :=
  match d_key d with None => cs = [] | Some key => exists now, cs = [entry n rq d turn key now Claimed] end.

Definition answer_ok (n : nat) (rq : PostRequest) (v : option Ticket * list ClaimEntry * list Started) (a : Answer) : Prop :=
  match a with
  | Refused _ => v = (None, [], [])
  | Accepted turn session => exists d cs, v = (Some Used, cs, [{| s_request := n; s_agent := p_agent rq; s_turn := turn; s_draft := d |}]) /\
      draft_ok rq d /\ images_ok rq d /\ d_session d = session /\ won n rq d turn cs
  | Replayed first session => exists d turn key now, v = (Some GivenBack, [entry n rq d turn key now (Replay first)], []) /\
      d_session d = session
  | KeyReused key first => exists d turn now, v = (Some GivenBack, [entry n rq d turn key now (Mismatch first)], [])
  | Threw => v = (None, [], []) \/ v = (Some Held, [], [])
  end.

Definition live_ok (n : nat) (rq : PostRequest) (v : option Ticket * list ClaimEntry * list Started) (st : Stage) : Prop :=
  match st with
  | Reading => v = (None, [], [])
  | ResolvingSession m from _ => v = (None, [], []) /\ sender_ok rq from /\ reachesSession (p_principal rq) (requested_session m) = true
  | ReadingImages d => v = (None, [], []) /\ draft_ok rq d
  | Asking d => v = (None, [], []) /\ draft_ok rq d /\ images_ok rq d
  | Hashing d turn key => v = (Some Held, [], []) /\ draft_ok rq d /\ images_ok rq d /\ d_key d = Some key
  | Judged d turn key verdict => draft_ok rq d /\ images_ok rq d /\ d_key d = Some key /\
      exists now, v = (Some Held, [entry n rq d turn key now verdict], [])
  | Answered a => answer_ok n rq v a
  | Dead => False
  end.

Definition request_ok (n : nat) (rq : PostRequest) (v : option Ticket * list ClaimEntry * list Started) (st : Stage) : Prop :=
  match st with Dead => exists st0, live_ok n rq v st0 | _ => live_ok n rq v st end.

Definition requests_ok (s : Server) : Prop :=
  (forall n rq st, requests s !! n = Some (rq, st) -> request_ok n rq (view n s) st) /\
  (forall n, requests s !! n = None -> view n s = (None, [], [])).

Lemma view_stage k n st s : view k (with_stage n st s) = view k s.
Proof. done. Qed.
Lemma view_ticket k n x s : view k (with_ticket n x s) = (if bool_decide (k = n) then Some x else (view k s).1.1, (view k s).1.2, (view k s).2).
Proof.
  unfold view. cbn. case_bool_decide as Hk; [subst; by rewrite lookup_insert_eq|by rewrite lookup_insert_ne].
Qed.
Lemma view_claim k c rows s : view k (with_claim c rows s) =
  ((view k s).1.1, (view k s).1.2 ++ (if (c_request c =? k)%nat then [c] else []), (view k s).2).
Proof. unfold view. cbn. rewrite List.filter_app. cbn. by destruct (_ =? k)%nat. Qed.
Lemma view_start k a s : view k (with_start a s) =
  ((view k s).1, (view k s).2 ++ (if (s_request a =? k)%nat then [a] else [])).
Proof. unfold view. cbn. rewrite List.filter_app. cbn. by destruct (_ =? k)%nat. Qed.

Definition moved (n : nat) (s s' : Server) : Prop :=
  exists rq st st', requests s !! n = Some (rq, st) /\ (forall a, st <> Answered a) /\ st <> Dead /\
    requests s' = <[n:=(rq, st')]> (requests s) /\ (forall k, k <> n -> view k s' = view k s) /\
    (live_ok n rq (view n s) st -> live_ok n rq (view n s') st').

Lemma requests_stage n st s rq0 st0 : requests s !! n = Some (rq0, st0) ->
  requests (with_stage n st s) = <[n:=(rq0, st)]> (requests s).
Proof.
  intros Hn. cbn. apply list_eq. intros k. destruct (decide (k = n)) as [->|Hk].
  - rewrite list_lookup_alter_eq, Hn, list_lookup_insert_eq by by eapply lookup_lt_Some. done.
  - by rewrite list_lookup_alter_ne, list_lookup_insert_ne.
Qed.

(** A request goes to another stage and nothing else of it changes. *)
Lemma moved_stage n s rq st st' : requests s !! n = Some (rq, st) -> (forall a, st <> Answered a) -> st <> Dead ->
  (live_ok n rq (view n s) st -> live_ok n rq (view n s) st') -> moved n s (with_stage n st' s).
Proof.
  intros Hn Ha Hd Hok. exists rq, st, st'. split_and!; try done. by eapply requests_stage.
Qed.

Lemma view_begin k n rq d turn s : view k (start n rq d turn s) =
  if bool_decide (k = n) then (Some Used, (view k s).1.2, (view k s).2 ++ [{| s_request := n; s_agent := p_agent rq; s_turn := turn; s_draft := d |}])
  else view k s.
Proof.
  unfold start. rewrite view_stage, view_start, view_ticket. cbn [s_request]. case_bool_decide as Hk; [subst; by rewrite Nat.eqb_refl|].
  destruct (Nat.eqb_spec n k); [done|]. rewrite app_nil_r. by destruct (view k s) as [[? ?] ?].
Qed.

Lemma moved_start n s s1 rq st d turn : requests s !! n = Some (rq, st) -> (forall a, st <> Answered a) -> st <> Dead ->
  requests s1 = requests s -> (forall k, k <> n -> view k s1 = view k s) ->
  (live_ok n rq (view n s) st -> draft_ok rq d /\ images_ok rq d /\ (view n s1).2 = [] /\ won n rq d turn (view n s1).1.2) ->
  moved n s (start n rq d turn s1).
Proof.
  intros Hn Ha Hd Hrq Hv Hok. exists rq, st, (Answered (Accepted turn (d_session d))). split_and!; try done.
  - rewrite <- Hrq. rewrite <- Hrq in Hn. exact (requests_stage n _ (with_start _ (with_ticket n Used s1)) rq st Hn).
  - intros k Hk. rewrite view_begin, bool_decide_eq_false_2 by done. by apply Hv.
  - intros Hl. destruct (Hok Hl) as (Hdr & Him & Hst & Hw). cbn [live_ok answer_ok]. exists d, (view n s1).1.2.
    rewrite view_begin, bool_decide_eq_true_2, Hst by done. done.
Qed.

(** The same, with its slot taken or given back. *)
Lemma moved_ticket n s rq st st' tk : requests s !! n = Some (rq, st) -> (forall a, st <> Answered a) -> st <> Dead ->
  (live_ok n rq (view n s) st -> live_ok n rq (Some tk, (view n s).1.2, (view n s).2) st') ->
  moved n s (with_stage n st' (with_ticket n tk s)).
Proof.
  intros Hn Ha Hd Hok. exists rq, st, st'. split_and!; try done.
  - exact (requests_stage n _ (with_ticket n tk s) rq st Hn).
  - intros k Hkn. rewrite view_stage, view_ticket, bool_decide_eq_false_2 by done. by destruct (view k s) as [[? ?] ?].
  - rewrite view_stage, view_ticket, bool_decide_eq_true_2 by done. exact Hok.
Qed.

Lemma read_message_ok rq m from deliver : read_message rq = Ok (m, from, deliver) ->
  sender_ok rq from /\ reachesSession (p_principal rq) (requested_session m) = true.
Proof.
  unfold read_message. intros H0. apply bind_ok in H0 as (v & _ & H0). apply bind_ok in H0 as (m' & _ & H0).
  apply bind_ok in H0 as (u & Hr & H0). apply bind_ok in H0 as (dl & _ & H0). apply bind_ok in H0 as (cl & _ & H0).
  apply bind_ok in H0 as (f & Hf & H0). injection H0 as -> -> ->.
  split; [|by destruct (reachesSession _ _)].
  intros bound Hb. unfold senderFor in Hf. rewrite Hb in Hf. destruct cl as [c|]; [|injection Hf as <-; by eexists].
  case_bool_decide as E1; [|done]. case_bool_decide; [|done]. injection Hf as <-. by exists c.
Qed.

Lemma draft_message_ok rq m from deliver resolved d : draft_message rq m from deliver resolved = Ok d ->
  sender_ok rq from -> reachesSession (p_principal rq) (requested_session m) = true ->
  draft_ok rq d /\ d_message d = m /\ d_images d = [].
Proof.
  unfold draft_message. intros H0 Hs Hr. apply bind_ok in H0 as (key & _ & H0). apply bind_ok in H0 as (u1 & Hn & H0).
  apply bind_ok in H0 as (u2 & Hro & H0). apply bind_ok in H0 as (u3 & Hse & H0). injection H0 as <-. split; [|done].
  split; cbn.
  - unfold sessionFor. by destruct (reachesSession _ resolved) eqn:E.
  - done.
  - intros Hm. destruct (from_agent from); [|done]. rewrite bool_decide_eq_true_2 in Hn by by apply not_eq_None_Some. done.
  - intros role Hm. rewrite Hm in Hro. by destruct (vision _ _).
  - intros Hi. destruct (m_images m); [done|]. destruct (vision _ _) as [[]|]; done.
Qed.

Lemma resume_moved n x s s' : resume n x s = Some s' -> moved n s s'.
Proof.
  unfold resume. destruct (requests s !! n) as [[rq st]|] eqn:Hn; [|done]. destruct st as [|m from dl|d|d|d turn key|d turn key v|a|]; [..|done|done].
  - intros [= <-]. destruct (read_message rq) as [[[m f] dl]|r] eqn:Hm; unfold refuse; eapply moved_stage; try done.
    intros Hv. split; [exact Hv|by eapply read_message_ok].
  - intros [= <-]. destruct (x_resolved x) as [resolved|].
    2: { eapply moved_stage; try done. intros (Hv & _). by left. }
    destruct (draft_message _ _ _ _ _) as [d|r] eqn:Hd; unfold refuse; eapply moved_stage; try done.
    2: by intros (Hv & _).
    intros (Hv & Hs & Hr). apply draft_message_ok in Hd as (Hd & Hm & Hi); [|done..]. destruct (m_images m) eqn:Em; cbn; [|done].
    split_and!; [done..|]. left. by rewrite Hm.
  - intros [= <-]. destruct (readImages _ _) as [images|e] eqn:Hi.
    + eapply moved_stage; try done. intros (Hv & Hd). split_and!; [done|by destruct Hd; split|]. right. by exists (x_files x).
    + destruct e; unfold refuse; eapply moved_stage; try done; intros (Hv & _); first [exact Hv|by left].
  - intros [= <-]. destruct (x_admission x).
    2-3: eapply moved_stage; try done; by intros (Hv & _).
    2: eapply moved_stage; try done; intros (Hv & _); by left.
    destruct (d_key d) as [key|] eqn:Hk.
    + eapply moved_ticket; try done. intros (Hv & Hd & Hi). by rewrite Hv.
    + eapply moved_start; try done.
      * intros k Hkn. rewrite view_ticket, bool_decide_eq_false_2 by done. by destruct (view k s) as [[? ?] ?].
      * intros (Hv & Hd & Hi). unfold won. by rewrite view_ticket, Hv, Hk.
  - intros [= <-]. destruct (x_throws x); [eapply moved_stage; try done; intros (Hv & _); by right|].
    destruct (claimInboundKey _ _) as [v rows] eqn:Hc. exists rq, (Hashing d turn key), (Judged d turn key v). split_and!; try done.
    + by erewrite requests_stage.
    + intros k Hkn. rewrite view_stage, view_claim. cbn [c_request]. destruct (Nat.eqb_spec n k); [done|]. rewrite app_nil_r. by destruct (view k s) as [[? ?] ?].
    + intros (Hv & Hd & Hi & Hk). split_and!; [done..|]. exists (x_now x). rewrite view_stage, view_claim, Hv. cbn. by rewrite Nat.eqb_refl.
  - intros [= <-]. destruct v as [|first|first].
    + eapply moved_start; try done. intros (Hd & Hi & Hk & now & Hv). rewrite Hv. split_and!; try done. unfold won. rewrite Hk. by exists now.
    + eapply moved_ticket; try done. intros (Hd & Hi & Hk & now & Hv). exists d, turn, key, now. by rewrite Hv.
    + eapply moved_ticket; try done. intros (Hd & Hi & Hk & now & Hv). exists d, turn, now. by rewrite Hv.
Qed.

Lemma request_of_live n rq v st : live_ok n rq v st -> request_ok n rq v st.
Proof. by destruct st. Qed.

Lemma live_of_request n rq v st : st <> Dead -> request_ok n rq v st -> live_ok n rq v st.
Proof. by destruct st. Qed.

Lemma requests_set s s' n rq st st' : requests s !! n = Some (rq, st) -> requests s' = <[n:=(rq, st')]> (requests s) ->
  (forall k, k <> n -> view k s' = view k s) -> (request_ok n rq (view n s) st -> request_ok n rq (view n s') st') ->
  requests_ok s -> requests_ok s'.
Proof.
  intros Hn Hrq Hother Hmove [Hok Hnone]. split; intros k.
  - intros rqk stk. rewrite Hrq. intros [(-> & [= <- <-] & _)|[Hne Hk]]%list_lookup_insert_Some; [auto|].
    rewrite Hother by done. by apply Hok.
  - rewrite Hrq, list_lookup_insert_None. intros Hk. rewrite Hother; [by apply Hnone|]. intros ->. by rewrite Hn in Hk.
Qed.

Lemma step_requests s s' : step s s' -> requests_ok s -> requests_ok s'.
Proof.
  intros [a Ha] Hs. destruct a as [rq|n x|n]; cbn [perform] in Ha.
  - injection Ha as <-. destruct Hs as [Hok Hnone]. split; intros n; [intros rq' st|]; cbn [requests].
    + intros [Hn|[Hge Hn]]%lookup_app_Some; [by apply (Hok n rq' st)|].
      apply list_lookup_singleton_Some in Hn as [_ [= <- <-]]. apply Hnone, lookup_ge_None. exact Hge.
    + intros Hn%lookup_ge_None. apply Hnone, lookup_ge_None. rewrite length_app in Hn. lia.
  - apply resume_moved in Ha as (rq & st & st' & Hn & _ & Hd & Hrq & Hother & Hlive). eapply requests_set; [done..| |done].
    intros Hok. by apply request_of_live, Hlive, live_of_request.
  - destruct (requests s !! n) as [[rq st]|] eqn:Hn; [|done].
    assert (s' = with_stage n Dead s) as -> by (destruct st; congruence).
    eapply requests_set; [done|by eapply requests_stage|done| |done]. intros Hok. cbn. rewrite view_stage.
    destruct st; try (eexists; exact Hok). exact Hok.
Qed.

Lemma run_requests s : rtc step idle s -> requests_ok s.
Proof.
  intros Hr. refine (rtc_ind_r (fun s => requests_ok s) idle _ _ s Hr).
  - by split.
  - intros s1 s2 _ H1 Hok. by eapply step_requests.
Qed.
End Handler.

(** ** The table over its history *)

(** [e] is a claim that evicts the row [r]. *)
Definition evicts (e r : InboundKey) : Prop := k_agent e = k_agent r /\ k_created r < k_created e - INBOUND_KEY_TTL_MS.

#[export] Instance evicts_dec e r : Decision (evicts e r).
Proof. unfold evicts. apply _. Defined.

Definition table (l : list ClaimEntry) : list InboundKey := fold_left (fun rows c => (claimInboundKey (c_row c) rows).2) l [].

(** Each verdict is what the table said then. *)
Definition faithful (l : list ClaimEntry) : Prop :=
  forall q c, l !! q = Some c -> c_verdict c = (claimInboundKey (c_row c) (table (take q l))).1.

Lemma table_snoc l c : table (l ++ [c]) = (claimInboundKey (c_row c) (table l)).2.
Proof. unfold table. by rewrite fold_left_app. Qed.

Lemma evict_keys_spec a before rows r :
  In r (evict_keys a before rows) <-> In r rows /\ ~ (k_agent r = a /\ k_created r < before).
Proof.
  unfold evict_keys. rewrite filter_In, negb_true_iff. split; intros [Hr Hn]; split; try done.
  - intros [Ha Hc]. rewrite bool_decide_eq_true_2 in Hn by done. cbn in Hn. lia.
  - apply andb_false_iff. case_bool_decide; [|by left]. right. apply Z.ltb_ge. destruct (Z.lt_ge_cases (k_created r) before); [by destruct Hn|done].
Qed.

Lemma claim_table c rows r : In r (claimInboundKey c rows).2 <->
  (In r rows /\ ~ evicts c r) \/ ((claimInboundKey c rows).1 = Claimed /\ r = c).
Proof.
  unfold claimInboundKey. pose proof (evict_keys_spec (k_agent c) (k_created c - INBOUND_KEY_TTL_MS) rows r) as He.
  assert (evicts c r <-> k_agent r = k_agent c /\ k_created r < k_created c - INBOUND_KEY_TTL_MS) as Heq.
  { unfold evicts. intuition congruence. }
  rewrite <- Heq in He. clear Heq.
  destruct (List.find _ _); cbn; [case_bool_decide; rewrite He; split; [by left|by intros [?|[? _]]|by left|by intros [?|[? _]]]|].
  rewrite in_app_iff, He. cbn. split; [intros [?|[->|[]]]; auto|intros [?|[_ ->]]; auto].
Qed.

Lemma faithful_snoc l c : faithful (l ++ [c]) -> faithful l /\ c_verdict c = (claimInboundKey (c_row c) (table l)).1.
Proof.
  intros Hf. split.
  - intros q x Hq. rewrite (Hf q x) by (by apply lookup_app_l_Some). rewrite take_app_le; [done|].
    apply lookup_lt_Some in Hq. lia.
  - rewrite (Hf (length l) c) by (by rewrite list_lookup_middle). by rewrite take_app_length.
Qed.

Lemma table_spec l r : faithful l -> In r (table l) <->
  exists p c, l !! p = Some c /\ c_verdict c = Claimed /\ c_row c = r /\
    forall m e, (p < m)%nat -> l !! m = Some e -> ~ evicts (c_row e) r.
Proof.
  induction l as [|x l IH] using rev_ind; intros Hf; [split; [done|]; intros (p & c & Hp & _); by rewrite lookup_nil in Hp|].
  apply faithful_snoc in Hf as [Hf Hx]. rewrite table_snoc, claim_table, (IH Hf). split.
  - intros [[(p & c & Hp & Hc & Hr & Hno) Hnx]|[Hv ->]].
    + exists p, c. split_and!; [by apply lookup_app_l_Some|done..|]. intros m e Hm [He|[_ He]]%lookup_app_Some; [by eapply Hno|].
      by apply list_lookup_singleton_Some in He as [_ <-].
    + exists (length l), x. split_and!; [by apply list_lookup_middle|congruence|done|]. intros m e Hm He. apply lookup_lt_Some in He.
      rewrite length_app in He. cbn in He. lia.
  - intros (p & c & Hp & Hc & <- & Hno). apply lookup_app_Some in Hp as [Hp|[Hge Hp]].
    + left. split; [|eapply (Hno (length l)); [by eapply lookup_lt_Some|by apply list_lookup_middle]]. exists p, c. split_and!; [done..|].
      intros m e Hm He. apply (Hno m); [done|]. by apply lookup_app_l_Some.
    + right. apply list_lookup_singleton_Some in Hp as [_ <-]. split; [congruence|done].
Qed.

Section History.
Context `{Digest} (json_of : ustring -> option json) (message_of : json -> option Message)
  (agent_dir : ustring -> ustring) (vision : ustring -> option ustring -> option bool).
Local Abbreviation step := (step json_of message_of agent_dir vision).
Local Abbreviation resume := (resume json_of message_of agent_dir vision).

Definition history_ok (s : Server) : Prop := keys s = table (claims s) /\ faithful (claims s).

Lemma faithful_app l c : faithful l -> c_verdict c = (claimInboundKey (c_row c) (table l)).1 -> faithful (l ++ [c]).
Proof.
  intros Hf Hc q x [Hq|[Hge Hq]]%lookup_app_Some.
  - rewrite (Hf q x Hq), take_app_le; [done|]. apply lookup_lt_Some in Hq. lia.
  - apply list_lookup_singleton_Some in Hq as [Hz <-]. by rewrite take_app_length' by lia.
Qed.

(** A claim is made as its transaction leaves the table; nothing else touches it. *)
Lemma resume_history n x s s' : resume n x s = Some s' -> (keys s' = keys s /\ claims s' = claims s) \/
  exists e, claims s' = claims s ++ [e] /\ keys s' = (claimInboundKey (c_row e) (keys s)).2 /\
    c_verdict e = (claimInboundKey (c_row e) (keys s)).1.
Proof.
  unfold resume. intros Hr. destruct (requests s !! n) as [[rq st]|]; [|done].
  destruct st as [|m from dl|d|d|d turn key|d turn key v|a|]; try done; injection Hr as <-.
  5: { destruct (x_throws x); [by left|]. destruct (claimInboundKey _ _) as [v rows] eqn:Hc. right. eexists. split; [reflexivity|]. cbn [c_row c_verdict keys with_stage with_claim]. by rewrite Hc. }
  all: left; unfold refuse, start; repeat case_match; done.
Qed.

Lemma run_history s : rtc step idle s -> history_ok s.
Proof.
  intros Hr. refine (rtc_ind_r (fun s => history_ok s) idle _ _ s Hr).
  - split; [done|]. intros q c Hq. done.
  - intros s1 s2 _ [a Ha] [Hk Hf]. unfold history_ok. destruct a as [rq|n x|n]; cbn [perform] in Ha.
    + by injection Ha as <-.
    + apply resume_history in Ha as [[-> ->]|(e & -> & Hk2 & Hv)]; [done|]. rewrite table_snoc, <- Hk. split; [done|].
      apply faithful_app; [done|]. by rewrite <- Hk.
    + by destruct (requests s1 !! n) as [[? []]|]; try done; injection Ha as <-.
Qed.

(** Between the claims at [p] and at [q], that one included, one evicted the first. *)
Definition lapsed (l : list ClaimEntry) (p q : nat) : Prop :=
  exists m e c, (p < m <= q)%nat /\ l !! m = Some e /\ l !! p = Some c /\ evicts (c_row e) (c_row c).

(** The turn [a] was started by the claim at [p], for what it was sent. *)
Definition ran (s : Server) (a : Started) (p : nat) : Prop :=
  exists c, claims s !! p = Some c /\ c_verdict c = Claimed /\ c_request c = s_request a /\
    k_agent (c_row c) = s_agent a /\ Some (k_key (c_row c)) = d_key (s_draft a) /\ k_turn (c_row c) = s_turn a /\
    k_hash (c_row c) = inputHash (d_session (s_draft a)) (hashed_text (m_text (d_message (s_draft a))) (d_images (s_draft a))).

(** The request [n] came after one that claimed its key for [turn], not a day before, with the same
    message or another. *)
Definition repeats (s : Server) (n : nat) (turn : ustring) (same : bool) : Prop :=
  exists p q c c', (p < q)%nat /\ claims s !! p = Some c /\ claims s !! q = Some c' /\ c_verdict c = Claimed /\
    c_request c' = n /\ k_agent (c_row c') = k_agent (c_row c) /\ k_key (c_row c') = k_key (c_row c) /\
    k_turn (c_row c) = turn /\ bool_decide (k_hash (c_row c) = k_hash (c_row c')) = same /\ ~ lapsed (claims s) p q.

Lemma view_in_claims n s c : In c (view n s).1.2 <-> In c (claims s) /\ c_request c = n.
Proof. unfold view. cbn. by rewrite filter_In, Nat.eqb_eq. Qed.

Lemma view_in_starts n s a : In a (view n s).2 <-> In a (started s) /\ s_request a = n.
Proof. unfold view. cbn. by rewrite filter_In, Nat.eqb_eq. Qed.

(** A start belongs to a request that was accepted. *)
Lemma start_facts s a : requests_ok agent_dir vision s -> In a (started s) ->
  exists rq st cs, requests s !! s_request a = Some (rq, st) /\ s_agent a = p_agent rq /\
    view (s_request a) s = (Some Used, cs, [a]) /\ draft_ok vision rq (s_draft a) /\ images_ok agent_dir rq (s_draft a) /\
    won (s_request a) rq (s_draft a) (s_turn a) cs.
Proof.
  intros [Hok Hnone] Ha. assert (In a (view (s_request a) s).2) as Hv by by apply view_in_starts.
  destruct (requests s !! s_request a) as [[rq st]|] eqn:Hn; [|by rewrite Hnone in Hv].
  assert (exists st0, live_ok agent_dir vision (s_request a) rq (view (s_request a) s) st0) as [st0 Hl].
  { specialize (Hok _ _ _ Hn). destruct st; try (eexists; exact Hok). exact Hok. }
  exists rq, st. destruct st0 as [| | | | | |[]|]; cbn in Hl; split_all; try done.
  all: try match goal with H : view _ _ = _ |- _ => rewrite H in Hv; destruct Hv as [Hv|[]] || destruct Hv end.
  - destruct a as [n' ag tu dr]. injection Hv as <- <- <-. cbn in *. eauto 10.
  - match goal with H : _ \/ _ |- _ => destruct H as [H|H]; rewrite H in Hv; destruct Hv end.
Qed.

Lemma once_each (l : list Started) : (forall n, (length (List.filter (fun a => (s_request a =? n)%nat) l) <= 1)%nat) -> NoDup (map s_request l).
Proof.
  induction l as [|a l IH]; intros Hl; cbn; constructor.
  - intros (b & Hb & Hin)%list_elem_of_fmap. specialize (Hl (s_request a)). cbn in Hl. rewrite Nat.eqb_refl in Hl. cbn in Hl.
    assert (In b (List.filter (fun x => (s_request x =? s_request a)%nat) l)) as Hf.
    { apply filter_In. rewrite Nat.eqb_eq. split; [by apply list_elem_of_In|done]. }
    destruct (List.filter _ l); [done|cbn in Hl; lia].
  - apply IH. intros n. specialize (Hl n). cbn in Hl. destruct (_ =? n)%nat; cbn in Hl; lia.
Qed.

Lemma claim_at n rq d turn key now v cs s : (view n s).1.2 = cs -> cs = [entry n rq d turn key now v] ->
  exists q, claims s !! q = Some (entry n rq d turn key now v).
Proof.
  intros Hv ->. assert (In (entry n rq d turn key now v) (claims s)) as Hin.
  { apply (view_in_claims n s). rewrite Hv. by left. }
  by apply list_elem_of_In, list_elem_of_lookup in Hin.
Qed.

Lemma start_ran s a key : requests_ok agent_dir vision s -> In a (started s) -> d_key (s_draft a) = Some key -> exists p, ran s a p.
Proof.
  intros Hok Ha Hk. destruct (start_facts s a Hok Ha) as (rq & st & cs & Hn & Hag & Hv & _ & _ & Hw).
  unfold won in Hw. rewrite Hk in Hw. destruct Hw as [now ->].
  destruct (claim_at (s_request a) rq (s_draft a) (s_turn a) key now Claimed _ s eq_refl) as [p Hp]; [by rewrite Hv|].
  exists p. eexists. split; [exact Hp|]. by rewrite Hk.
Qed.

Lemma lapsed_or l p q c : l !! p = Some c -> lapsed l p q \/
  forall m e, (p < m <= q)%nat -> l !! m = Some e -> ~ evicts (c_row e) (c_row c).
Proof.
  intros Hp. destruct (decide (Exists (fun m => Exists (fun e => evicts (c_row e) (c_row c)) (option_list (l !! m))) (seq (S p) (q - p)))) as [Hex|Hex].
  - left. apply Exists_exists in Hex as (m & Hm & Hex). apply elem_of_seq in Hm. destruct (l !! m) as [e|] eqn:He; [|by apply Exists_nil in Hex].
    cbn in Hex. apply Exists_cons in Hex as [Hev|Hno]; [|by apply Exists_nil in Hno]. exists m, e, c. split_and!; [lia..|done|done|done].
  - right. intros m e Hm He Hev. apply Hex, Exists_exists. exists m. split; [apply elem_of_seq; lia|]. rewrite He. by left.
Qed.

Lemma faithful_take l q : faithful l -> faithful (take q l).
Proof.
  intros Hf k c Hk. apply lookup_take_Some in Hk as [Hk Hlt]. rewrite (Hf k c Hk). by rewrite take_take, Nat.min_l by lia.
Qed.

(** A row that nothing evicted is still there, and a row that is there was won and nothing evicted it. *)
Lemma table_kept l p q c : faithful l -> (p < q)%nat -> l !! p = Some c -> c_verdict c = Claimed ->
  (forall m e, (p < m < q)%nat -> l !! m = Some e -> ~ evicts (c_row e) (c_row c)) -> In (c_row c) (table (take q l)).
Proof.
  intros Hf Hlt Hp Hc Hno. apply table_spec; [by apply faithful_take|]. exists p, c. split_and!; try done; [by apply lookup_take_Some|].
  intros m e Hm [He Hmq]%lookup_take_Some. by apply (Hno m e).
Qed.

(** A second claim that won took the key after the first had gone. *)
Lemma second_claim l p q c c' : faithful l -> (p < q)%nat -> l !! p = Some c -> l !! q = Some c' ->
  c_verdict c = Claimed -> c_verdict c' = Claimed -> k_agent (c_row c) = k_agent (c_row c') -> k_key (c_row c) = k_key (c_row c') ->
  lapsed l p q.
Proof.
  intros Hf Hlt Hp Hq Hc Hc' Ha Hk. pose proof (Hf q c' Hq) as Hv. rewrite Hc' in Hv. symmetry in Hv.
  unfold claimInboundKey in Hv. destruct (List.find _ _) as [r|] eqn:Hfind; [cbn in Hv; by destruct (bool_decide _)|].
  destruct (lapsed_or l p q c Hp) as [|Hno]; [done|]. exfalso.
  assert (In (c_row c) (evict_keys (k_agent (c_row c')) (k_created (c_row c') - INBOUND_KEY_TTL_MS) (table (take q l)))) as Hin.
  { apply evict_keys_spec. split; [eapply table_kept; try done; intros; eapply Hno; [|done]; lia|].
    intros [Ha' Hcr]. apply (Hno q c'); [lia|done|]. by split. }
  apply (find_none _ _ Hfind) in Hin. unfold of_key in Hin. by rewrite Ha, Hk, !bool_decide_eq_true_2 in Hin.
Qed.

(** A claim that lost found the row of an earlier one. *)
Lemma lost_claim l q c' first (same : bool) : faithful l -> l !! q = Some c' -> c_verdict c' = (if same then Replay first else Mismatch first) ->
  exists p c, (p < q)%nat /\ l !! p = Some c /\ c_verdict c = Claimed /\ k_agent (c_row c') = k_agent (c_row c) /\
    k_key (c_row c') = k_key (c_row c) /\ k_turn (c_row c) = first /\ bool_decide (k_hash (c_row c) = k_hash (c_row c')) = same /\
    ~ lapsed l p q.
Proof.
  intros Hf Hq Hl. pose proof (Hf q c' Hq) as Hv. rewrite Hl in Hv. unfold claimInboundKey in Hv.
  destruct (List.find _ _) as [r|] eqn:Hfind; [|by destruct same]. cbn in Hv.
  apply find_some in Hfind as [Hin Hkey]. apply andb_true_iff in Hkey as [Ha%bool_decide_eq_true_1 Hk%bool_decide_eq_true_1].
  apply evict_keys_spec in Hin as [Hin Hnow]. apply table_spec in Hin as (p & c & Hp & Hc & <- & Hno); [|by apply faithful_take].
  apply lookup_take_Some in Hp as [Hp Hlt]. exists p, c. split_and!; try done.
  1-2: by case_bool_decide; destruct same; congruence.
  intros (m & e & c2 & Hm & He & Hc2 & Hev). rewrite Hp in Hc2. injection Hc2 as <-. destruct (decide (m = q)) as [->|Hne].
  - rewrite Hq in He. injection He as <-. destruct Hev. by apply Hnow.
  - apply (Hno m e); [lia| |done]. apply lookup_take_Some. split; [done|lia].
Qed.

Lemma repeats_of s n turn (same : bool) c cs : history_ok s -> view n s = (Some GivenBack, [c], cs) ->
  c_verdict c = (if same then Replay turn else Mismatch turn) -> c_request c = n -> repeats s n turn same.
Proof.
  intros [_ Hf] Hv Hc Hn. assert (In c (view n s).1.2) as Hin by (rewrite Hv; by left).
  apply view_in_claims in Hin as [Hin _]. apply list_elem_of_In, list_elem_of_lookup in Hin as [q Hq].
  destruct (lost_claim _ q c turn same Hf Hq Hc) as (p & c1 & ?). split_all. by exists p, q, c1, c; split_and!.
Qed.

Lemma no_start n s tk cs : view n s = (tk, cs, []) -> forall a, In a (started s) -> s_request a <> n.
Proof. intros Hv a Ha Hn. assert (In a (view n s).2) as Hin by by apply view_in_starts. by rewrite Hv in Hin. Qed.

(** C10. An idempotency key starts one turn. However requests, claims by any number of processes,
    clocks and deaths interleave: a request starts at most one turn, and a turn that was sent under a
    key was started by the claim of it, for that very session, text and images; of two turns started
    for an agent under one key, the later claim came after one that read a clock more than a day past
    the first; and a request that is answered with a turn already begun, or refused because its key
    was used for another message, starts nothing and follows a claim of its key by that turn, not a
    day old, with the same message or another. *)
Theorem key_runs_once (s : Server) (Hr : rtc step idle s) :
  NoDup (map s_request (started s)) /\
  (forall a key, In a (started s) -> d_key (s_draft a) = Some key -> exists p, ran s a p) /\
  (forall i j a b key, i <> j -> started s !! i = Some a -> started s !! j = Some b -> s_agent a = s_agent b ->
     d_key (s_draft a) = Some key -> d_key (s_draft b) = Some key ->
     exists p q, (p < q)%nat /\ (ran s a p /\ ran s b q \/ ran s b p /\ ran s a q) /\ lapsed (claims s) p q) /\
  (forall n rq turn session, requests s !! n = Some (rq, Answered (Replayed turn session)) ->
     repeats s n turn true /\ forall a, In a (started s) -> s_request a <> n) /\
  (forall n rq key turn, requests s !! n = Some (rq, Answered (KeyReused key turn)) ->
     repeats s n turn false /\ forall a, In a (started s) -> s_request a <> n).
Proof.
  pose proof (run_requests _ _ _ _ _ Hr) as Hok. pose proof (run_history _ Hr) as Hh.
  assert (NoDup (map s_request (started s))) as Hnd.
  { apply once_each. intros n. destruct (List.filter _ (started s)) as [|a l] eqn:E; [cbn; lia|].
    assert (In a (view n s).2) as Ha by (unfold view; cbn; rewrite E; by left). apply view_in_starts in Ha as [Ha <-].
    destruct (start_facts s a Hok Ha) as (? & ? & ? & _ & _ & Hv & _). unfold view in Hv. rewrite E in Hv. injection Hv as _ _ ->. cbn. lia. }
  split_and!; [done|intros a key; by apply start_ran|..].
  - intros i j a b key Hij Hi Hj Hag Hka Hkb.
    assert (s_request a <> s_request b) as Hne.
    { intros E. apply Hij. apply (NoDup_lookup (map s_request (started s)) i j (s_request a) Hnd); rewrite list_lookup_fmap, ?Hi, ?Hj; cbn; congruence. }
    destruct (start_ran s a key Hok) as [p Hp]; [by eapply list_elem_of_In, list_elem_of_lookup_2|done|].
    destruct (start_ran s b key Hok) as [q Hq]; [by eapply list_elem_of_In, list_elem_of_lookup_2|done|].
    pose proof Hp as (c & Hcp & Hc & Hcr & Hca & Hck & _). pose proof Hq as (c' & Hcq & Hc' & Hcr' & Hca' & Hck' & _).
    destruct Hh as [_ Hf]. rewrite Hka in Hck. rewrite Hkb in Hck'. injection Hck as Hck. injection Hck' as Hck'.
    destruct (lt_eq_lt_dec p q) as [[Hlt|Heq]|Hlt]; [|subst q; congruence|].
    + exists p, q. split_and!; [done|by left|]. eapply second_claim; try done; congruence.
    + exists q, p. split_and!; [done|by right|]. eapply second_claim; try done; congruence.
  - intros n rq turn session Hn. destruct (proj1 Hok _ _ _ Hn) as (d & tu & key & now & Hv & _).
    split; [|by eapply no_start]. by eapply repeats_of.
  - intros n rq key turn Hn. destruct (proj1 Hok _ _ _ Hn) as (d & tu & now & Hv).
    split; [|by eapply no_start]. by eapply repeats_of.
Qed.

(** C11. What a message starts is what its caller may start. Whatever interleaves, a turn is started
    only by a request, in a session its caller reaches, from whom its key is bound to if it is bound,
    with no trusted note beside the text of an agent, under a role the agent has, with images only for
    a model that sees and those the message named; and a request that was answered took no slot, or
    handed it to the one turn it started, or gave it back and started none, unless the store threw. *)
Theorem message_within_reach (s : Server) (Hr : rtc step idle s) :
  (forall a, In a (started s) -> exists rq st, requests s !! s_request a = Some (rq, st) /\ s_agent a = p_agent rq /\
     draft_ok vision rq (s_draft a) /\ images_ok agent_dir rq (s_draft a)) /\
  (forall n rq a, requests s !! n = Some (rq, Answered a) ->
     let starts := List.filter (fun x => (s_request x =? n)%nat) (started s) in
     match a with
     | Accepted turn session => tickets s !! n = Some Used /\
         exists d, starts = [{| s_request := n; s_agent := p_agent rq; s_turn := turn; s_draft := d |}] /\ d_session d = session
     | Replayed _ _ | KeyReused _ _ => tickets s !! n = Some GivenBack /\ starts = []
     | Refused _ => tickets s !! n = None /\ starts = []
     | Threw => starts = []
     end).
Proof.
  pose proof (run_requests _ _ _ _ _ Hr) as Hok. split.
  - intros a Ha. destruct (start_facts s a Hok Ha) as (rq & st & cs & Hn & Hag & _ & Hd & Hi & _). by exists rq, st.
  - intros n rq a Hn. pose proof (proj1 Hok _ _ _ Hn) as Hv. destruct a; cbn in Hv; unfold view in Hv; split_all; cbn; simplify_eq/=.
    all: try (split; congruence).
    + split; [done|]. eexists. split; [done|done].
    + destruct Hv as [Hv|Hv]; congruence.
Qed.
End History.

(** ** Runs *)

Section Runs.
Context `{Digest} (json_of : ustring -> option json) (message_of : json -> option Message)
  (agent_dir : ustring -> ustring) (vision : ustring -> option ustring -> option bool).

Fixpoint run (acts : list Act) (s : Server) : option Server :=
  match acts with
  | [] => Some s
  | a :: acts => match perform json_of message_of agent_dir vision a s with Some s => run acts s | None => None end
  end.

Lemma run_steps acts : forall s s', run acts s = Some s' -> rtc (step json_of message_of agent_dir vision) s s'.
Proof.
  induction acts as [|a acts IH]; intros s s' Hs; cbn in Hs; [injection Hs as <-; constructor|].
  destruct (perform _ _ _ _ a s) as [s1|] eqn:Ha; [|done]. eapply rtc_l; [by exists a|by apply IH].
Qed.
End Runs.

(** A server whose digest is the text itself; a body is its text, after the image it carries if it
    begins with one. *)
#[local] Instance plain_digest : Digest := fun s => s.
Definition no_files : FileSystem := {| realpath := fun _ => None; stat := fun _ => None; readFile := fun _ => None |}.
Definition gif : ustring := js "R0lGODlhAP8=".
Definition body_message (v : json) : option Message :=
  match v with
  | JStr s =>
      let picture := starts_with [35] s in
      Some {| m_text := if picture then drop 1 s else s; m_sessionKey := None; m_role := None; m_runtimeNote := None; m_peerAsk := None;
              m_images := if picture then [{| i_path := None; i_data := Some gif; i_mediaType := None |}] else [];
              m_deliver := None; m_from := None; m_stream := false; m_chunks := false |}
  | _ => None
  end.
Definition posted (body : ustring) : PostRequest :=
  {| p_agent := js "ada"; p_principal := UNSCOPED; p_content_length := None; p_idempotency := Some (js "k-1"); p_body := body |}.
Definition reply (session : string) (turn : string) (now : Z) : Reply :=
  {| x_resolved := Some (js session); x_files := no_files; x_admission := Granted; x_turn := js turn; x_now := now; x_throws := false |}.
Definition served (acts : list Act) : option Server :=
  run (fun s => Some (JStr s)) body_message (fun a => 47 :: a) (fun _ _ => Some true) acts idle.
Definition answers (s : Server) : list Stage := map snd (requests s).

Definition twice (n : nat) (k : nat) (x : Reply) : list Act := replicate k (Resume n x).

(** A retry of a message gets its turn, a day later it runs again, and another message is refused. *)
Definition retried : list Act :=
  [Arrive (posted (js "hi")); Arrive (posted (js "hi")); Arrive (posted (js "ho")); Arrive (posted (js "hi"))] ++
  twice 0 4 (reply "api:default" "t0" 0) ++ twice 1 5 (reply "api:default" "t1" 10) ++ twice 0 1 (reply "api:default" "t0" 0) ++
  twice 2 5 (reply "api:default" "t2" 20) ++ twice 3 5 (reply "api:default" "t3" 86400001).

Example retry_answers : answers <$> served retried =
  Some [Answered (Accepted (js "t0") (js "api:default")); Answered (Replayed (js "t0") (js "api:default"));
        Answered (KeyReused (js "k-1") (js "t0")); Answered (Accepted (js "t3") (js "api:default"))].
Proof. by vm_compute. Qed.

Definition retried_server : Server := default idle (served retried).

Lemma retried_reached :
  rtc (step (fun s => Some (JStr s)) body_message (fun a => 47 :: a) (fun _ _ => Some true)) idle retried_server.
Proof. apply (run_steps _ _ _ _ retried). unfold retried_server. by vm_compute. Qed.

Lemma retried_started : map (fun a => (s_request a, s_turn a)) (started retried_server) = [(0%nat, js "t0"); (3%nat, js "t3")].
Proof. by vm_compute. Qed.

Lemma key_runs_once_witness : NoDup (map s_request (started retried_server)) /\ (length (started retried_server) = 2)%nat.
Proof.
  split; [exact (proj1 (key_runs_once _ _ _ _ retried_server retried_reached))|].
  rewrite <- (length_map (fun a => (s_request a, s_turn a))), retried_started. reflexivity.
Defined.

Lemma message_within_reach_witness : started retried_server <> [] /\ forall a, In a (started retried_server) ->
  exists rq st, requests retried_server !! s_request a = Some (rq, st) /\ s_agent a = p_agent rq.
Proof.
  split; [intros E; pose proof retried_started as Hs; rewrite E in Hs; discriminate Hs|]. intros a Ha.
  destruct (proj1 (message_within_reach _ _ _ _ retried_server retried_reached) a Ha) as (rq & st & Hn & Hag & _).
  exists rq, st. exact (conj Hn Hag).
Defined.

(** The text of the images follows the message's after a line break, as a line of the message could:
    a message with an image is taken for the text of one, and is not run. *)
Lemma image_taken_for_text : answers <$> served
  ([Arrive (posted (js "look" ++ 10 :: gif)); Arrive (posted (js "#look"))] ++ twice 0 5 (reply "api:default" "t0" 0) ++
   twice 1 6 (reply "api:default" "t1" 1)) =
  Some [Answered (Accepted (js "t0") (js "api:default")); Answered (Replayed (js "t0") (js "api:default"))].
Proof. by vm_compute. Qed.

(** A claim that throws leaves the slot taken. *)
Lemma claim_threw_keeps_slot : (fun s => (answers s, tickets s !! 0%nat)) <$> served
  ([Arrive (posted (js "hi"))] ++ twice 0 3 (reply "api:default" "t0" 0) ++
   [Resume 0 {| x_resolved := None; x_files := no_files; x_admission := Granted; x_turn := []; x_now := 0; x_throws := true |}]) =
  Some ([Answered Threw], Some Held).
Proof. by vm_compute. Qed.

(** The governor is asked before the key is looked up: while the first turn takes the last slot, its
    retry is refused instead of being answered with it. *)
Lemma retry_refused_at_capacity : answers <$> served
  ([Arrive (posted (js "hi")); Arrive (posted (js "hi"))] ++ twice 0 5 (reply "api:default" "t0" 0) ++
   twice 1 2 (reply "api:default" "t1" 1) ++
   [Resume 1 {| x_resolved := None; x_files := no_files; x_admission := NoSlot; x_turn := []; x_now := 1; x_throws := false |}]) =
  Some [Answered (Accepted (js "t0") (js "api:default")); Answered (Refused AtCapacity)].
Proof. by vm_compute. Qed.

(** What is hashed is the session the message resolves to: once the person's conversation is rotated,
    the same request, byte for byte, is refused as another message. *)
Lemma rotated_retry_refused : answers <$> served
  ([Arrive (posted (js "hi")); Arrive (posted (js "hi"))] ++ twice 0 5 (reply "owner:ada" "t0" 0) ++
   twice 1 5 (reply "owner:ada~000001" "t1" 1)) =
  Some [Answered (Accepted (js "t0") (js "owner:ada")); Answered (KeyReused (js "k-1") (js "t0"))].
Proof. by vm_compute. Qed.
