(* ===== verification/Sse.v ===== *)
(** * Server-sent events: [packages/server/src/sse.ts] writes them, [model/sse.ts] reads them

    The reader is the one the client library and the model transports share. Bytes arrive in chunks
    cut anywhere; a byte order mark, which the decoder would drop, is never written. *)
From S2P Require Import Prelude UString Json JsonParse SessionKey Post Utf8.
Local Open Scope Z_scope.

(** ** Writing *)

Inductive SseData := Text (s : ustring) | Value (v : json).
Record SseFrame := { f_event : option ustring; f_data : SseData; f_id : option ustring }.

Definition payload (d : SseData) : ustring := match d with Text s => s | Value v => stringify v end.

Definition frame_lines (f : SseFrame) : list ustring :=
  match f_event f with Some e => [js "event: " ++ e] | None => [] end ++
  match f_id f with Some i => [js "id: " ++ i] | None => [] end ++
  map (fun line => js "data: " ++ line) (split_on 10 (payload (f_data f))).

Definition encodeFrame (f : SseFrame) : ustring := join [10] (frame_lines f) ++ [10; 10].

(** The heartbeat. *)
Definition ping : ustring := js ": ping" ++ [10; 10].

(** ** Reading *)

Record SSEEvent := { e_event : option ustring; e_data : ustring; e_id : option ustring; e_retry : option Z }.

(** [frame.split(/\r\n|\n|\r/)]. *)
Fixpoint split_lines (s : ustring) : list ustring :=
  match s with
  | [] => [[]]
  | c :: rest =>
      if c =? 13 then
        [] :: match rest with 10 :: rest' => split_lines rest' | _ => split_lines rest end
      else if c =? 10 then [] :: split_lines rest
      else match split_lines rest with w :: ws => (c :: w) :: ws | [] => [[c]] end
  end.

(** What the lines read so far said. *)
Record Reading := { r_data : list ustring; r_event : option ustring; r_id : option ustring; r_retry : option Z }.
Definition unread : Reading := {| r_data := []; r_event := None; r_id := None; r_retry := None |}.

Definition read_line (line : ustring) (r : Reading) : Reading :=
  if match line with [] => true | c :: _ => c =? 58 end then r
  else
    let '(field, value) := match cut_colon line with Some (f, v) => (f, v) | None => (line, []) end in
    let value := match value with 32 :: rest => rest | _ => value end in
    if bool_decide (field = js "data") then
      {| r_data := r_data r ++ [value]; r_event := r_event r; r_id := r_id r; r_retry := r_retry r |}
    else if bool_decide (field = js "event") then
      {| r_data := r_data r; r_event := Some value; r_id := r_id r; r_retry := r_retry r |}
    else if bool_decide (field = js "id") then
      {| r_data := r_data r; r_event := r_event r; r_id := Some value; r_retry := r_retry r |}
    else if bool_decide (field = js "retry") then
      {| r_data := r_data r; r_event := r_event r; r_id := r_id r;
         r_retry := match parseInt10 value with Some n => Some n | None => r_retry r end |}
    else r.

Definition event_of (r : Reading) : option SSEEvent :=
  match r_data r, r_event r with
  | [], None => None
  | _, _ => Some {| e_event := r_event r; e_data := join [10] (r_data r); e_id := r_id r; e_retry := r_retry r |}
  end.

Definition parseFrame (frame : ustring) : option SSEEvent :=
  event_of (fold_left (fun r line => read_line line r) (split_lines frame) unread).

(** What follows a separator at the beginning: [/\r\n\r\n|\n\n|\r\r/]. *)
Definition SEPARATORS : list ustring := [[13; 10; 13; 10]; [10; 10]; [13; 13]].
Fixpoint after_any (seps : list ustring) (s : ustring) : option ustring :=
  match seps with
  | [] => None
  | p :: seps => match strip_prefix p s with Some r => Some r | None => after_any seps s end
  end.

(** What stands before the first separator, and after it. *)
Fixpoint cut_frame (s : ustring) : option (ustring * ustring) :=
  match after_any SEPARATORS s with
  | Some r => Some ([], r)
  | None =>
      match s with
      | [] => None
      | c :: rest => match cut_frame rest with Some (f, r) => Some (c :: f, r) | None => None end
      end
  end.

(** Each round takes a separator off. *)
Fixpoint frames_in (fuel : nat) (buffer : ustring) : list ustring * ustring :=
  match fuel with
  | O => ([], buffer)
  | S fuel =>
      match cut_frame buffer with
      | None => ([], buffer)
      | Some (frame, rest) => let '(fs, b) := frames_in fuel rest in (frame :: fs, b)
      end
  end.
Definition take_frames (buffer : ustring) : list ustring * ustring := frames_in (length buffer) buffer.

(** The frame a stream was cut off in. *)
Definition last_frame (buffer : ustring) : list ustring := if blank buffer then [] else [buffer].

Fixpoint frames_of (buffer : ustring) (waiting : list Z) (chunks : list (list Z)) : list ustring :=
  match chunks with
  | [] => last_frame (buffer ++ decode_end waiting)
  | chunk :: chunks =>
      let '(u, waiting) := decode_more waiting chunk in
      let '(fs, buffer) := take_frames (buffer ++ u) in
      fs ++ frames_of buffer waiting chunks
  end.

Definition parseSSE (chunks : list (list Z)) : list SSEEvent := omap parseFrame (frames_of [] [] chunks).

(** ** However the bytes are cut *)

Lemma strip_prefix_app p s t r : strip_prefix p s = Some r -> strip_prefix p (s ++ t) = Some (r ++ t).
Proof.
  revert s. induction p as [|a p IH]; intros s Hs; [by injection Hs as ->|]. destruct s as [|b s]; [done|]. cbn in *.
  destruct (a =? b); [by apply IH|done].
Qed.

(** A beginning that a longer text completes is a part of a separator, and holds none. *)
Lemma strip_prefix_grown p s t r : strip_prefix p s = None -> strip_prefix p (s ++ t) = Some r -> exists k, (k < length p)%nat /\ s = take k p.
Proof.
  revert s. induction p as [|a p IH]; intros s Hs Ht; [done|]. destruct s as [|b s]; [exists 0%nat; by split; [cbn; lia|]|].
  cbn in *. destruct (Z.eqb_spec a b) as [->|]; [|done]. destruct (IH s Hs Ht) as (k & Hk & ->). exists (S k). split; [lia|done].
Qed.

Lemma after_any_app s t r : after_any SEPARATORS s = Some r -> after_any SEPARATORS (s ++ t) = Some (r ++ t).
Proof.
  unfold SEPARATORS. cbn [after_any]. destruct (strip_prefix [13; 10; 13; 10] s) eqn:E1; [intros [= <-]; by erewrite strip_prefix_app|].
  destruct (strip_prefix [13; 10; 13; 10] (s ++ t)) eqn:F1.
  { destruct (strip_prefix_grown _ _ _ _ E1 F1) as (k & Hk & ->). intros Hs. exfalso. destruct k as [|[|[|[|]]]]; cbn in *; try done; lia. }
  destruct (strip_prefix [10; 10] s) eqn:E2; [intros [= <-]; by erewrite strip_prefix_app|].
  destruct (strip_prefix [10; 10] (s ++ t)) eqn:F2.
  { destruct (strip_prefix_grown _ _ _ _ E2 F2) as (k & Hk & ->). intros Hs. exfalso. destruct k as [|[|]]; cbn in *; try done; lia. }
  destruct (strip_prefix [13; 13] s) eqn:E3; [|done]. intros [= <-]. by erewrite strip_prefix_app.
Qed.

Lemma after_any_grown s t : after_any SEPARATORS s = None -> is_Some (after_any SEPARATORS (s ++ t)) -> cut_frame s = None.
Proof.
  unfold SEPARATORS. cbn [after_any]. destruct (strip_prefix [13; 10; 13; 10] s) eqn:E1; [done|].
  destruct (strip_prefix [10; 10] s) eqn:E2; [done|]. destruct (strip_prefix [13; 13] s) eqn:E3; [done|]. intros _.
  destruct (strip_prefix [13; 10; 13; 10] (s ++ t)) eqn:F1.
  { destruct (strip_prefix_grown _ _ _ _ E1 F1) as (k & Hk & ->). intros _. destruct k as [|[|[|[|]]]]; cbn in *; try done; lia. }
  destruct (strip_prefix [10; 10] (s ++ t)) eqn:F2.
  { destruct (strip_prefix_grown _ _ _ _ E2 F2) as (k & Hk & ->). intros _. destruct k as [|[|]]; cbn in *; try done; lia. }
  destruct (strip_prefix [13; 13] (s ++ t)) eqn:F3; [|intros [? Hs]; done].
  destruct (strip_prefix_grown _ _ _ _ E3 F3) as (k & Hk & ->). intros _. destruct k as [|[|]]; cbn in *; try done; lia.
Qed.

Lemma cut_frame_unfold s : cut_frame s =
  match after_any SEPARATORS s with
  | Some r => Some ([], r)
  | None => match s with [] => None | c :: rest => match cut_frame rest with Some (f, r) => Some (c :: f, r) | None => None end end
  end.
Proof. by destruct s. Qed.

(** The first separator stays the first. *)
Lemma cut_frame_app s t f r : cut_frame s = Some (f, r) -> cut_frame (s ++ t) = Some (f, r ++ t).
Proof.
  revert f r. induction s as [|c s IH]; intros f r Hc; [done|]. pose proof Hc as Hall. rewrite cut_frame_unfold in Hc |- *.
  destruct (after_any SEPARATORS (c :: s)) as [r'|] eqn:Ha.
  - injection Hc as <- <-. by rewrite (after_any_app _ t _ Ha).
  - destruct (after_any SEPARATORS ((c :: s) ++ t)) as [r'|] eqn:Hb.
    + rewrite (after_any_grown _ t Ha) in Hall by by rewrite Hb. done.
    + cbn [app]. destruct (cut_frame s) as [[f' r']|]; [|done]. injection Hc as <- <-. by rewrite (IH _ _ eq_refl).
Qed.

Lemma strip_prefix_shorter p s r : strip_prefix p s = Some r -> length s = (length p + length r)%nat.
Proof.
  revert s. induction p as [|a p IH]; intros s Hs; [by injection Hs as ->|]. destruct s as [|b s]; [done|]. cbn in *.
  destruct (a =? b); [|done]. by rewrite (IH s Hs).
Qed.

Lemma cut_frame_shorter s f r : cut_frame s = Some (f, r) -> (length r < length s)%nat.
Proof.
  revert f r. induction s as [|c s IH]; intros f r Hc; [done|]. rewrite cut_frame_unfold in Hc.
  destruct (after_any SEPARATORS (c :: s)) as [r'|] eqn:Ha.
  - injection Hc as _ <-. unfold SEPARATORS in Ha. cbn [after_any] in Ha.
    repeat (destruct (strip_prefix _ _) eqn:E in Ha; [injection Ha as <-; apply strip_prefix_shorter in E; cbn in *; lia|]; clear E). done.
  - destruct (cut_frame s) as [[f' r']|]; [|done]. injection Hc as _ <-. specialize (IH _ _ eq_refl). cbn. lia.
Qed.

Lemma frames_in_fuel k : forall fuel s, (length s <= fuel)%nat -> (length s <= k)%nat -> frames_in fuel s = frames_in k s.
Proof.
  induction k as [|k IH]; intros [|fuel] s Hf Hk; try done.
  - destruct s; [|cbn in Hk; lia]. done.
  - destruct s; [|cbn in Hf; lia]. done.
  - cbn. destruct (cut_frame s) as [[f r]|] eqn:E; [|done]. apply cut_frame_shorter in E. by rewrite (IH fuel) by lia.
Qed.

Lemma take_frames_unfold s : take_frames s =
  match cut_frame s with None => ([], s) | Some (f, r) => let '(fs, b) := take_frames r in (f :: fs, b) end.
Proof.
  unfold take_frames. destruct (cut_frame s) as [[f r]|] eqn:E.
  - pose proof (cut_frame_shorter _ _ _ E). destruct (length s) as [|n] eqn:Hn; [lia|]. cbn [frames_in]. rewrite E.
    by rewrite (frames_in_fuel (length r) n r) by lia.
  - destruct (length s); cbn; by rewrite ?E.
Qed.

(** More text after what is there: the frames found stay, and the rest is read with it. *)
Lemma take_frames_app s t : take_frames (s ++ t) =
  let '(fs, b) := take_frames s in let '(fs', b') := take_frames (b ++ t) in (fs ++ fs', b').
Proof.
  induction s as [s IH] using strong_length. rewrite (take_frames_unfold s). destruct (cut_frame s) as [[f r]|] eqn:E.
  - rewrite take_frames_unfold, (cut_frame_app _ t _ _ E), IH by by eapply cut_frame_shorter.
    destruct (take_frames r) as [fs b]. by destruct (take_frames (b ++ t)).
  - by destruct (take_frames (s ++ t)).
Qed.

Lemma take_frames_rest s fs b : take_frames s = (fs, b) -> take_frames b = ([], b).
Proof.
  revert fs b. induction s as [s IH] using strong_length. intros fs b. rewrite (take_frames_unfold s).
  destruct (cut_frame s) as [[f r]|] eqn:E.
  - destruct (take_frames r) as [fs' b'] eqn:Hr. intros [= <- <-]. eapply IH; [|exact Hr]. by eapply cut_frame_shorter.
  - intros [= <- <-]. by rewrite take_frames_unfold, E.
Qed.

Lemma frames_of_characters chunks : forall cps b waiting, Forall scalar cps -> unfinished waiting ->
  waiting ++ concat chunks = flat_map utf8_char cps -> take_frames b = ([], b) ->
  frames_of b waiting chunks = let '(fs, b') := take_frames (b ++ concat (map units_of cps)) in fs ++ last_frame b'.
Proof.
  induction chunks as [|chunk chunks IH]; intros cps b waiting Hs Hw Hc Hb; cbn [concat frames_of] in *.
  - rewrite app_nil_r in Hc. pose proof (decode_unfinished (length cps) waiting Hw) as H1.
    pose proof (decode_characters cps [] Hs (or_introl eq_refl) (length cps) (Nat.le_refl _)) as H2. rewrite app_nil_r, <- Hc, H1 in H2.
    injection H2 as Hn Hw0. rewrite Hw0, <- Hn. cbn [decode_end]. by rewrite app_nil_r, Hb.
  - rewrite app_assoc in Hc. destruct (cut_characters cps _ _ Hs (eq_sym Hc)) as (cps1 & cps2 & t & -> & Hp & Ht & Hq).
    apply Forall_app in Hs as [Hs1 Hs2]. unfold decode_more.
    rewrite Hp, decode_characters; [|done|done|rewrite length_app; pose proof (flat_map_length_le cps1); lia]. cbv beta iota.
    rewrite map_app, concat_app, (app_assoc b), (take_frames_app (b ++ concat (map units_of cps1))).
    destruct (take_frames (b ++ concat (map units_of cps1))) as [fs b1] eqn:E.
    rewrite (IH cps2 b1 t Hs2 Ht (eq_sym Hq) (take_frames_rest _ _ _ E)).
    destruct (take_frames (b1 ++ _)) as [fs' b']. by rewrite app_assoc.
Qed.

(** ** What is written is read *)

(** A line of a frame: something, on one line. *)
Definition one_line (s : ustring) : Prop := s <> [] /\ ~ In 10 s /\ ~ In 13 s.

Lemma strip_prefix_differs a p c s : a <> c -> strip_prefix (a :: p) (c :: s) = None.
Proof. intros Hne. cbn. by rewrite (proj2 (Z.eqb_neq a c)). Qed.

Lemma cut_frame_skip c s : c <> 10 -> c <> 13 -> cut_frame (c :: s) = match cut_frame s with Some (f, r) => Some (c :: f, r) | None => None end.
Proof.
  intros H1 H2. rewrite cut_frame_unfold. unfold SEPARATORS. cbn [after_any]. by rewrite !strip_prefix_differs by done.
Qed.

Lemma cut_line line s f r : ~ In 10 line -> ~ In 13 line -> cut_frame s = Some (f, r) -> cut_frame (line ++ s) = Some (line ++ f, r).
Proof.
  induction line as [|c line IH]; intros H1 H2 Hs; [done|]. cbn [In app] in *. rewrite cut_frame_skip by tauto.
  by rewrite IH by tauto.
Qed.

Lemma cut_lines lines t : lines <> [] -> Forall one_line lines -> cut_frame (join [10] lines ++ [10; 10] ++ t) = Some (join [10] lines, t).
Proof.
  induction lines as [|l lines IH]; intros Hne Hl; [done|]. apply Forall_cons in Hl as [(Hl0 & Hl1 & Hl2) Hl].
  destruct lines as [|l2 lines].
  - cbn [join]. rewrite <- (app_nil_r l) at 2. by apply cut_line.
  - specialize (IH ltac:(done) Hl). change (join [10] (l :: l2 :: lines)) with (l ++ [10] ++ join [10] (l2 :: lines)).
    rewrite <- !app_assoc. apply cut_line; [done..|]. apply Forall_cons in Hl as [(H0 & H1 & H2) _].
    assert (exists c s, join [10] (l2 :: lines) ++ [10; 10] ++ t = c :: s /\ c <> 10 /\ c <> 13) as (c & s & E & Hc1 & Hc2).
    { destruct l2 as [|c l2]; [done|]. exists c. destruct lines; cbn; eexists; (split; [reflexivity|]); split; intros ->; [apply H1|apply H2|apply H1|apply H2]; by left. }
    change ([10] ++ join [10] (l2 :: lines) ++ [10; 10] ++ t) with (10 :: (join [10] (l2 :: lines) ++ [10; 10] ++ t)).
    rewrite E in IH |- *. rewrite cut_frame_unfold. unfold SEPARATORS. cbn [after_any]. rewrite (strip_prefix_differs 13) by done.
    cbn [strip_prefix]. rewrite Z.eqb_refl, (proj2 (Z.eqb_neq 10 c)) by done. cbv iota beta. by rewrite IH.
Qed.

Lemma split_line line : ~ In 10 line -> ~ In 13 line -> split_lines line = [line].
Proof.
  induction line as [|c line IH]; intros H1 H2; [done|]. cbn [In split_lines] in *. rewrite !(proj2 (Z.eqb_neq _ _)) by tauto.
  by rewrite IH by tauto.
Qed.

Lemma split_join lines : lines <> [] -> Forall one_line lines -> split_lines (join [10] lines) = lines.
Proof.
  induction lines as [|l lines IH]; intros Hne Hl; [done|]. apply Forall_cons in Hl as [(_ & Hl1 & Hl2) Hl].
  destruct lines as [|l2 lines]; [by apply split_line|]. specialize (IH ltac:(done) Hl).
  change (join [10] (l :: l2 :: lines)) with (l ++ 10 :: join [10] (l2 :: lines)).
  clear Hne. induction l as [|c l IHl]; [cbn [app split_lines]; by rewrite (proj2 (Z.eqb_neq 10 13)), Z.eqb_refl, IH|].
  cbn [In app] in *. cbn [split_lines]. rewrite !(proj2 (Z.eqb_neq _ _)) by tauto. by rewrite IHl by tauto.
Qed.

(** The names of a frame are lines, its text has no carriage return. *)
Record frame_ok (f : SseFrame) : Prop := {
  fo_event : forall e, f_event f = Some e -> ~ In 10 e /\ ~ In 13 e;
  fo_id : forall i, f_id f = Some i -> ~ In 10 i /\ ~ In 13 i;
  fo_data : ~ In 13 (payload (f_data f)) }.

Lemma label_line label s : Forall (fun c => c <> 10 /\ c <> 13) label -> label <> [] -> ~ In 10 s /\ ~ In 13 s -> one_line (label ++ s).
Proof.
  intros Hl Hne [H1 H2]. rewrite Forall_forall in Hl. split; [by destruct label|].
  split; rewrite in_app_iff; intros [Hc|Hc]; try done; apply list_elem_of_In in Hc; by apply Hl in Hc as [? ?].
Qed.

Lemma frame_lines_ok f : frame_ok f -> frame_lines f <> [] /\ Forall one_line (frame_lines f).
Proof.
  intros [He Hi Hd]. unfold frame_lines. pose proof (split_on_nonempty 10 (payload (f_data f))) as Hne. split.
  - destruct (split_on 10 _) as [|w ws]; [done|]. destruct (f_event f), (f_id f); done.
  - rewrite !Forall_app. split_and!.
    + destruct (f_event f) as [e|]; [|constructor]. repeat constructor; [by apply (label_line (js "event: ")); [repeat constructor; discriminate| |apply He]..].
    + destruct (f_id f) as [i|]; [|constructor]. repeat constructor; [by apply (label_line (js "id: ")); [repeat constructor; discriminate| |apply Hi]..].
    + apply Forall_fmap, Forall_forall. intros w Hw. cbn. apply (label_line (js "data: ")); [repeat constructor; discriminate|done|].
      pose proof (split_on_no_sep 10 (payload (f_data f))) as Hf. rewrite Forall_forall in Hf. split; [by apply Hf|].
      intros Hin. apply Hd. eapply split_on_incl; [|exact Hin]. by apply list_elem_of_In.
Qed.

Lemma cut_colon_at a b : ~ In 58 a -> cut_colon (a ++ 58 :: b) = Some (a, b).
Proof.
  induction a as [|c a IH]; intros Ha; [done|]. cbn [In app cut_colon] in *. rewrite (proj2 (Z.eqb_neq c 58)) by tauto.
  by rewrite IH by tauto.
Qed.

Lemma read_labelled label value r : label <> [] -> ~ In 58 label ->
  read_line (label ++ js ": " ++ value) r =
    if bool_decide (label = js "data") then
      {| r_data := r_data r ++ [value]; r_event := r_event r; r_id := r_id r; r_retry := r_retry r |}
    else if bool_decide (label = js "event") then
      {| r_data := r_data r; r_event := Some value; r_id := r_id r; r_retry := r_retry r |}
    else if bool_decide (label = js "id") then
      {| r_data := r_data r; r_event := r_event r; r_id := Some value; r_retry := r_retry r |}
    else if bool_decide (label = js "retry") then
      {| r_data := r_data r; r_event := r_event r; r_id := r_id r;
         r_retry := match parseInt10 value with Some n => Some n | None => r_retry r end |}
    else r.
Proof.
  intros Hne Hc. unfold read_line. change (js ": " ++ value) with (58 :: 32 :: value). rewrite cut_colon_at by done.
  destruct label as [|c label]; [done|]. cbn [app]. cbn [In] in Hc. by rewrite (proj2 (Z.eqb_neq c 58)) by tauto.
Qed.

Lemma read_data lines r : fold_left (fun r line => read_line line r) (map (fun line => js "data: " ++ line) lines) r =
  {| r_data := r_data r ++ lines; r_event := r_event r; r_id := r_id r; r_retry := r_retry r |}.
Proof.
  revert r. induction lines as [|l lines IH]; intros r; cbn [map fold_left]; [by rewrite app_nil_r; destruct r|].
  change (js "data: " ++ l) with (js "data" ++ js ": " ++ l). rewrite read_labelled, IH by (done || by intros [?|[?|[?|[?|[]]]]]).
  rewrite bool_decide_eq_true_2 by done. cbn. by rewrite <- app_assoc.
Qed.

(** What a reader makes of a frame. *)
Definition received (f : SseFrame) : SSEEvent :=
  {| e_event := f_event f; e_data := payload (f_data f); e_id := f_id f; e_retry := None |}.

Lemma parse_encoded f : frame_ok f -> parseFrame (join [10] (frame_lines f)) = Some (received f).
Proof.
  intros Hf. destruct (frame_lines_ok f Hf) as [Hne Hl]. unfold parseFrame. rewrite split_join by done.
  unfold frame_lines. rewrite !fold_left_app, read_data.
  assert (fold_left (fun r line => read_line line r) match f_id f with Some i => [js "id: " ++ i] | None => [] end
    (fold_left (fun r line => read_line line r) match f_event f with Some e => [js "event: " ++ e] | None => [] end unread) =
    {| r_data := []; r_event := f_event f; r_id := f_id f; r_retry := None |}) as ->.
  { destruct (f_event f) as [e|], (f_id f) as [i|]; cbn [fold_left]; [|..|done].
    all: try change (js "event: " ++ e) with (js "event" ++ js ": " ++ e); try change (js "id: " ++ i) with (js "id" ++ js ": " ++ i).
    all: rewrite !read_labelled by (done || by intros [?|[?|[?|[?|[?|[]]]]]] || by intros [?|[?|[]]]); done. }
  unfold event_of, received. cbn [r_data r_event r_id r_retry app]. rewrite join_split_on.
  pose proof (split_on_nonempty 10 (payload (f_data f))). by destruct (split_on 10 (payload (f_data f))).
Qed.

(** ** A stream *)

(** A server sends frames, and a heartbeat between them. *)
Inductive Sent := Frame (f : SseFrame) | Ping.
Definition sent_text (x : Sent) : ustring := match x with Frame f => encodeFrame f | Ping => ping end.
Definition sent_body (x : Sent) : ustring := match x with Frame f => join [10] (frame_lines f) | Ping => js ": ping" end.
Definition sent_frame (x : Sent) : option SseFrame := match x with Frame f => Some f | Ping => None end.
Definition sent_ok (x : Sent) : Prop := match x with Frame f => frame_ok f /\ well_formed (encodeFrame f) = true | Ping => True end.

Lemma take_sent l : Forall sent_ok l -> take_frames (concat (map sent_text l)) = (map sent_body l, []).
Proof.
  induction 1 as [|x l Hx _ IH]; [done|]. cbn [map concat]. rewrite take_frames_unfold.
  assert (cut_frame (sent_text x ++ concat (map sent_text l)) = Some (sent_body x, concat (map sent_text l))) as ->; [|by rewrite IH].
  destruct x as [f|]; cbn [sent_text sent_body].
  - destruct Hx as [Hf _]. destruct (frame_lines_ok f Hf) as [Hne Hl]. unfold encodeFrame. rewrite <- app_assoc. by apply cut_lines.
  - apply (cut_lines [js ": ping"]); [done|]. repeat constructor; [done|by intros [?|[?|[?|[?|[?|[?|[]]]]]]]..].
Qed.

Lemma parse_sent l : Forall sent_ok l -> omap parseFrame (map sent_body l) = map received (omap sent_frame l).
Proof.
  induction 1 as [|x l Hx _ IH]; [done|]. destruct x as [f|]; cbn [map sent_body omap list_omap sent_frame].
  - destruct Hx as [Hf _]. rewrite (parse_encoded f Hf). cbn. f_equal. exact IH.
  - exact IH.
Qed.

Lemma well_formed_app a b : well_formed a = true -> well_formed b = true -> well_formed (a ++ b) = true.
Proof.
  induction a as [a IH] using strong_length. intros Ha Hb. destruct a as [|x [|y a]]; [done|..]; cbn [app well_formed] in *.
  - apply andb_true_iff in Ha as [Hr Ha]. rewrite Hr. destruct b as [|y b]; [exact Ha|]. apply andb_true_iff in Ha as [Hl Ht].
    destruct (is_lead x); [done|]. cbn [andb]. by rewrite Ht.
  - apply andb_true_iff in Ha as [Hr Ha]. rewrite Hr. cbn [andb]. destruct (is_lead x && is_trail y).
    + apply IH; [cbn; lia|done..].
    + apply andb_true_iff in Ha as [Hn Ha]. rewrite Hn. apply (IH (y :: a)); [cbn; lia|done..].
Qed.

Lemma sent_well_formed l : Forall sent_ok l -> well_formed (concat (map sent_text l)) = true.
Proof.
  induction 1 as [|x l Hx _ IH]; [done|]. cbn [map concat]. apply well_formed_app; [|done]. destruct x; [by destruct Hx|done].
Qed.

Lemma sent_reads_back (l : list Sent) (chunks : list (list Z)) : Forall sent_ok l ->
  concat chunks = utf8 (concat (map sent_text l)) -> parseSSE chunks = map received (omap sent_frame l).
Proof.
  intros Hl Hc. destruct (code_points_spec _ (sent_well_formed l Hl)) as [Hs He]. unfold parseSSE.
  rewrite (frames_of_characters chunks (code_points (concat (map sent_text l))) [] []); [|done|by left|done|done].
  rewrite He, app_nil_l, take_sent by done. cbn [last_frame]. change (last_frame []) with (@nil ustring). rewrite app_nil_r.
  by apply parse_sent.
Qed.

(** A stream is read as it was written. Whatever frames a server sends, heartbeats between them,
    and however their bytes are cut into chunks on the way, inside a character or a separator
    included: the reader finds exactly those frames, in order, each with its event, its id and its
    data, line breaks and all. *)
Theorem stream_reads_back (l : list Sent) (chunks : list (list Z)) (Hl : Forall sent_ok l)
  (Hc : concat chunks = utf8 (concat (map sent_text l))) : parseSSE chunks = map received (omap sent_frame l).
Proof. by apply sent_reads_back. Qed.

(** A name, two lines of data with a character of three bytes, a heartbeat; cut inside the
    character and inside the separators. *)
Definition noted : SseFrame := {| f_event := Some (js "note"); f_data := Text (js "one" ++ [10; 0x20ac]); f_id := Some (js "7") |}.
Definition noted_bytes : list Z := utf8 (concat (map sent_text [Frame noted; Ping; Frame noted])).
Definition noted_chunks : list (list Z) :=
  [take 35 noted_bytes; take 4 (drop 35 noted_bytes); take 9 (drop 39 noted_bytes); drop 48 noted_bytes].

Lemma stream_reads_back_witness : parseSSE noted_chunks = [received noted; received noted].
Proof.
  assert (Hok : Forall sent_ok [Frame noted; Ping; Frame noted]).
  { assert (sent_ok (Frame noted)); [|apply Forall_cons; split; [assumption|]; apply Forall_cons; split; [exact I|]; apply Forall_cons; split; [assumption|constructor]].
    split; [|vm_compute; reflexivity]. split; cbn.
    - intros e [= <-]. split; intros H; repeat (destruct H as [H|H]; [discriminate|]); destruct H.
    - intros e [= <-]. split; intros H; repeat (destruct H as [H|H]; [discriminate|]); destruct H.
    - intros H; repeat (destruct H as [H|H]; [discriminate|]); destruct H. }
  assert (Hc : concat noted_chunks = utf8 (concat (map sent_text [Frame noted; Ping; Frame noted]))) by (vm_compute; reflexivity).
  exact (stream_reads_back _ _ Hok Hc).
Defined.

(** ** JSON in a frame *)

(** Values as the language writes them: a number's text is digits, signs and letters. *)
Fixpoint plain_json (v : json) : bool :=
  match v with
  | JNull | JBool _ => true
  | JNum w => forallb (fun c => (32 <? c) && (c <? 0x80)) w
  | JStr s => forallb unit_ok s
  | JArr l => forallb plain_json l
  | JObj l => forallb (fun kv => forallb unit_ok kv.1 && plain_json kv.2) l
  end.

(** Text with no control character, and no lone surrogate. *)
Definition clean (s : ustring) : Prop := Forall (fun c => 32 <= c) s /\ well_formed s = true.

Lemma clean_app a b : clean a -> clean b -> clean (a ++ b).
Proof. intros [H1 H2] [H3 H4]. split; [by apply Forall_app|by apply well_formed_app]. Qed.

Lemma ascii_well_formed s : ascii s = true -> well_formed s = true.
Proof.
  induction s as [|a s IH]; intros Hs; [done|]. cbn [ascii forallb] in Hs. apply andb_true_iff in Hs as [Ha Hs]. specialize (IH Hs).
  cbn [well_formed]. unfold is_lead, is_trail. replace ((0 <=? a) && (a <? 0x10000)) with true by lia.
  replace ((0xd800 <=? a) && (a <=? 0xdbff)) with false by lia. replace ((0xdc00 <=? a) && (a <=? 0xdfff)) with false by lia. by destruct s.
Qed.

Lemma clean_ascii s : forallb (fun c => (32 <=? c) && (c <? 0x80)) s = true -> clean s.
Proof.
  intros Hs. rewrite forallb_forall in Hs. split.
  - apply Forall_forall. intros c Hc. apply list_elem_of_In, Hs in Hc. lia.
  - apply ascii_well_formed, forallb_forall. intros c Hc. specialize (Hs c Hc). lia.
Qed.

Lemma hex_lower_clean n : 0 <= n < 16 -> 48 <= hex_lower n < 0x80.
Proof. intros Hn. unfold hex_lower. destruct (n <? 10) eqn:E; lia. Qed.

Lemma clean_quote_unit c : unit_ok c = true -> clean (quote_unit c) .
Proof.
  intros Hc. unfold unit_ok in Hc. unfold quote_unit.
  repeat match goal with |- context [c =? ?k] => destruct (Z.eqb_spec c k); [by apply clean_ascii|] end.
  destruct ((c <? 32) || is_lead c || is_trail c) eqn:E.
  - apply clean_ascii. unfold escape_unit. cbn [forallb].
    assert (forall k, 48 <= hex_lower (c / k mod 16) < 0x80) as Hh by (intros k; apply hex_lower_clean, Z.mod_pos_bound; lia).
    pose proof (Hh 16). pose proof (Hh 256). pose proof (hex_lower_clean (c mod 16) ltac:(apply Z.mod_pos_bound; lia)).
    pose proof (hex_lower_clean (c / 4096) ltac:(Z.to_euclidean_division_equations; lia)). lia.
  - unfold clean. cbn [well_formed]. split; [repeat constructor; lia|]. unfold is_lead, is_trail in *. lia.
Qed.

Lemma clean_quote_units s : forallb unit_ok s = true -> clean (quote_units s).
Proof.
  induction s as [s IH] using strong_length. intros Hs. destruct s as [|c [|d s]]; [by split; [constructor|]|..].
  - cbn in Hs. apply andb_true_iff in Hs as [Hc _]. exact (clean_quote_unit c Hc).
  - change (quote_units (c :: d :: s)) with (if is_lead c && is_trail d then c :: d :: quote_units s else quote_unit c ++ quote_units (d :: s)).
    cbn [forallb] in Hs. apply andb_true_iff in Hs as [Hc Hs]. destruct (is_lead c && is_trail d) eqn:E.
    + apply andb_true_iff in Hs as [Hd Hs]. destruct (IH s ltac:(cbn; lia) Hs) as [H1 H2]. unfold unit_ok in Hc.
      pose proof E as [El%is_lead_spec Et%is_trail_spec]%andb_true_iff. split; [repeat constructor; done || lia|].
      cbn [well_formed]. rewrite E, H2. lia.
    + apply clean_app; [by apply clean_quote_unit|]. apply IH; [cbn; lia|done].
Qed.

Lemma clean_string s : forallb unit_ok s = true -> clean (json_string s).
Proof.
  intros Hs. unfold json_string. apply (clean_app [34]); [by apply clean_ascii|]. apply clean_app; [by apply clean_quote_units|by apply clean_ascii].
Qed.

Lemma clean_join sep l : clean sep -> Forall clean l -> clean (join sep l).
Proof.
  intros Hs. induction 1 as [|x l Hx Hl IH]; [by split; [constructor|]|]. destruct l as [|y l]; [exact Hx|].
  change (join sep (x :: y :: l)) with (x ++ sep ++ join sep (y :: l)). by repeat apply clean_app.
Qed.

Lemma clean_stringify v : plain_json v = true -> clean (stringify v).
Proof.
  induction v as [|[]|w|s|l IH|l IH] using json_rect_nested; cbn [plain_json stringify]; intros Hv; try by apply clean_ascii.
  - destruct (finite_text w); [|by apply clean_ascii]. apply clean_ascii. apply forallb_forall. intros c Hc.
    rewrite forallb_forall in Hv. specialize (Hv c Hc). lia.
  - by apply clean_string.
  - apply (clean_app [91]); [by apply clean_ascii|]. apply clean_app; [|by apply clean_ascii]. apply clean_join; [by apply clean_ascii|].
    rewrite forallb_forall in Hv. rewrite Forall_forall in IH. apply Forall_fmap, Forall_forall. intros x Hx. apply IH; [done|].
    by apply Hv, list_elem_of_In.
  - apply (clean_app [123]); [by apply clean_ascii|]. apply clean_app; [|by apply clean_ascii]. apply clean_join; [by apply clean_ascii|].
    rewrite forallb_forall in Hv. rewrite Forall_forall in IH. apply Forall_fmap, Forall_forall. intros x Hx.
    change (clean (json_string x.1 ++ 58 :: stringify x.2)). specialize (Hv x ltac:(by apply list_elem_of_In)). apply andb_true_iff in Hv as [Hk Hv].
    apply clean_app; [by apply clean_string|]. apply (clean_app [58]); [by apply clean_ascii|]. by apply IH.
Qed.

(** A frame of a named event with a value: the name in ASCII, without control characters. *)
Lemma value_frame_ok e v : forallb (fun c => (32 <=? c) && (c <? 0x80)) e = true -> plain_json v = true ->
  sent_ok (Frame {| f_event := Some e; f_data := Value v; f_id := None |}).
Proof.
  intros He Hv. destruct (clean_ascii e He) as [He1 He2]. destruct (clean_stringify v Hv) as [Hv1 Hv2].
  assert (forall s c, Forall (fun c => 32 <= c) s -> c < 32 -> ~ In c s) as Hno.
  { intros s c Hs Hc Hin. rewrite Forall_forall in Hs. specialize (Hs c ltac:(by apply list_elem_of_In)). lia. }
  split.
  - split; cbn; [intros e' [= <-]; split; apply Hno; done || lia|done|apply Hno; done || lia].
  - unfold encodeFrame, frame_lines. cbn [f_event f_id f_data payload]. rewrite (split_on_free 10) by (apply Hno; done || lia).
    cbn [app map join]. repeat apply well_formed_app; try done. apply (well_formed_app (10 :: js "data: ")); done.
Qed.

(** ** The response: [sseResponse]

    [start] runs to its end before anything else can; after it, frames, heartbeats and the client's
    leaving come in any order. Handing bytes to a consumer that is gone throws. *)

Record Connection := { closed : bool; teardown : bool; heartbeat : bool; torn : nat; written : list ustring }.
Definition connecting : Connection := {| closed := false; teardown := false; heartbeat := false; torn := 0; written := [] |}.

(** [finish], and [cancel]: the teardown runs if there is one yet. *)
Definition finish (c : Connection) : Connection :=
  if closed c then c
  else {| closed := true; teardown := false; heartbeat := false;
          torn := (if teardown c then S (torn c) else torn c); written := written c |}.

Definition enqueue (there : bool) (text : ustring) (c : Connection) : Connection :=
  if closed c then c
  else if there then
    {| closed := false; teardown := teardown c; heartbeat := heartbeat c; torn := torn c; written := written c ++ [text] |}
  else finish c.

Inductive Control := Send (f : SseFrame) (there : bool) | Close.
Definition control (c : Connection) (x : Control) : Connection :=
  match x with Send f there => enqueue there (encodeFrame f) c | Close => finish c end.

(** [started] is whether [start] returned a teardown. *)
Definition sseResponse (during : list Control) (started : bool) : Connection :=
  let c := fold_left control during connecting in
  if closed c then
    {| closed := true; teardown := false; heartbeat := false; torn := (if started then S (torn c) else torn c); written := written c |}
  else {| closed := false; teardown := started; heartbeat := true; torn := torn c; written := written c |}.

Inductive Happening := Controlled (x : Control) | Beat (there : bool) | Cancelled.
Definition happen (c : Connection) (x : Happening) : Connection :=
  match x with
  | Controlled x => control c x
  | Beat there => if heartbeat c then enqueue there ping c else c
  | Cancelled => finish c
  end.

(** Still held, or run. *)
Definition accounted (c : Connection) : Prop :=
  if closed c then teardown c = false /\ heartbeat c = false /\ torn c = 1%nat else teardown c = true /\ torn c = 0%nat.

Lemma accounted_finish c : accounted c -> accounted (finish c) /\ closed (finish c) = true.
Proof. unfold finish, accounted. destruct (closed c) eqn:E; [by rewrite E|]. cbn. by intros [-> ->]. Qed.

Lemma accounted_happen c x : accounted c -> accounted (happen c x).
Proof.
  assert (forall there t c, accounted c -> accounted (enqueue there t c)) as Hq.
  { intros there t c'. unfold enqueue. destruct (closed c') eqn:E; [done|]. destruct there; [|by apply accounted_finish].
    unfold accounted. by rewrite E. }
  intros Hc. destruct x as [[f there|]|there|]; cbn; [by apply Hq|by apply accounted_finish| |by apply accounted_finish].
  destruct (heartbeat c); [by apply Hq|done].
Qed.

Lemma during_start l : forall c, teardown c = false -> torn c = 0%nat -> heartbeat c = false ->
  let c' := fold_left control l c in teardown c' = false /\ torn c' = 0%nat /\ heartbeat c' = false.
Proof.
  induction l as [|x l IH]; intros c H1 H2 H3; [done|]. cbn [fold_left].
  assert (teardown (control c x) = false /\ torn (control c x) = 0%nat /\ heartbeat (control c x) = false) as (G1 & G2 & G3); [|by apply IH].
  destruct x as [f []|]; cbn; unfold enqueue, finish; destruct (closed c); cbn; rewrite ?H1; done.
Qed.

(** However a stream goes, what it subscribed to is given back once: at its end, whether it ended
    itself (before [start] returned, even), its client left, or a write found nobody; not before; and
    nothing is written afterwards. *)
Theorem teardown_once during l :
  accounted (fold_left happen l (sseResponse during true)) /\
  forall l', closed (fold_left happen l (sseResponse during true)) = true ->
    fold_left happen (l ++ l') (sseResponse during true) = fold_left happen l (sseResponse during true).
Proof.
  assert (accounted (sseResponse during true)) as Hs.
  { unfold sseResponse. destruct (during_start during connecting eq_refl eq_refl eq_refl) as (H1 & H2 & H3).
    destruct (closed (fold_left control during connecting)); unfold accounted; cbn; by rewrite H2. }
  revert Hs. generalize (sseResponse during true) as c. intros c Hs.
  assert (accounted (fold_left happen l c)) as Hl.
  { revert c Hs. induction l as [|x l IH]; intros c Hs; [done|]. by apply IH, accounted_happen. }
  split; [done|]. intros l' Hc. rewrite fold_left_app. clear Hs. revert Hl Hc. generalize (fold_left happen l c) as d. intros d Hd Hc.
  induction l' as [|x l' IH]; [done|]. cbn [fold_left]. replace (happen d x) with d; [done|].
  unfold accounted in Hd. rewrite Hc in Hd. destruct Hd as (_ & Hh & _).
  destruct x as [[f there|]|there|]; cbn; unfold enqueue, finish; by rewrite ?Hh, ?Hc.
Qed.
