(* ===== verification/TurnStream.v ===== *)
(** * A turn on the wire: [streamTurn] of [handler.ts] and the client's [stream.ts]

    What the server sends of a turn that it is attached to, and what the client library makes of it:
    items, and the text of the reply. An event is its type and its envelope. *)
From S2P Require Import Prelude UString Streams Json Number JsonParse Coerce Utf8 Sse.
Local Open Scope Z_scope.

(** ** The server's side *)

Definition EVENT_TYPES : list ustring := map js
    ["runtime.ready"; "store.ready"; "runtime.stopping"; "agent.loaded"; "agent.disposed";
     "agent.reloaded"; "agent.warning"; "plugin.loaded"; "plugin.slow"; "approval.requested";
     "approval.resolved"; "handoff.start"; "handoff.result"; "peer.ask"; "peer.answer"; "turn.start";
     "context.assembled"; "context.dropped"; "context.pressure"; "compaction.stage"; "context.reset";
     "phase.changed"; "model.call"; "model.chunk"; "model.retry"; "model.fallback"; "model.result";
     "media.result"; "tool.usage"; "tool.call"; "tool.result"; "tool.gated"; "tool.repair";
     "tools.refreshed"; "agent.tools.refreshed"; "agent.channel.status"; "agent.channel.error";
     "agent.channel.rejected"; "delivery.sent"; "delivery.retry"; "delivery.failed";
     "delivery.uncertain"; "runtime.released"; "schedules.reconciled"; "schedule.fired";
     "schedule.skipped"; "schedule.deferred"; "schedule.error"; "conversation.message";
     "conversation.skipped"; "action.deferred"; "action.decided"; "agent.assigned"; "memory.read";
     "memory.recalled"; "memory.forgotten"; "turn.end"; "error"]%string.

(** The last argument of [attach] is [false] here: a child's events are not asked for. *)
Abbreviation Attachment := Streams.TurnAttachment.

Definition frame (event : ustring) (v : json) : SseFrame := {| f_event := Some event; f_data := Value v; f_id := None |}.

Definition state_name (s : Streams.TurnBufferState) : ustring := js match s with Streams.Running => "running" | Streams.Ended => "ended" end.
Definition chunks_name (c : Streams.ChunkHistory) : ustring :=
  js match c with Streams.Start => "start" | Streams.Partial => "partial" | Streams.NoChunks => "none" end.

Definition truncated_hint (dropped : Z) : ustring :=
  js "The oldest " ++ decimal dropped ++
  js " event(s) of this turn were discarded to stay under the buffer cap, so this replay starts mid-turn. The turn's final text is complete in GET /v1/agents/:id/turns/:turnId.".

Definition replay_data (t : ustring) (a : Attachment) : json :=
  JObj ([(js "turnId", JStr t); (js "state", JStr (state_name (Streams.a_state a)));
    (js "events", JNum (decimal (zlen (Streams.replay a)))); (js "truncated", JBool (Streams.a_truncated a));
    (js "dropped", JNum (decimal (Streams.a_dropped a))); (js "chunks", JStr (chunks_name (Streams.a_chunks a)))] ++
    if Streams.a_truncated a then [(js "hint", JStr (truncated_hint (Streams.a_dropped a)))] else []).

Definition unbuffered : ustring := js "no buffer for this turn in this process".
Definition unavailable_data (t : ustring) : json :=
  JObj [(js "turnId", JStr t); (js "reason", JStr unbuffered);
    (js "hint", JStr (js "Read the final state from GET /v1/agents/:id/turns/:turnId. Buffers are in-memory and are evicted after a turn ends."))].

Definition accepted_data (t sessionKey : ustring) : json := JObj [(js "turnId", JStr t); (js "sessionKey", JStr sessionKey)].

Section TurnStream.
(** An event as JSON, and its turn's id. *)
Context (event_json : Streams.Event -> json).

Definition event_frame (e : Streams.Event) : SseFrame := frame (Streams.type e) (event_json e).

(** Its own end closes the stream, a subagent's does not. *)
Definition own_end (t : ustring) (e : Streams.Event) : bool :=
  bool_decide (Streams.type e = js "turn.end") && bool_decide (Streams.turnId e = Some t).
Fixpoint until_end (t : ustring) (live : list Streams.Event) : list Streams.Event :=
  match live with [] => [] | e :: live => if own_end t e then [e] else e :: until_end t live end.

(** The frames of one connection, in order: [live] are the events the listener is called with. *)
Definition streamTurn (t : ustring) (accepted : option ustring) (a : option Attachment) (live : list Streams.Event) : list SseFrame :=
  match accepted with Some sessionKey => [frame (js "turn.accepted") (accepted_data t sessionKey)] | None => [] end ++
  match a with
  | None => [frame (js "stream.unavailable") (unavailable_data t)]
  | Some a =>
      frame (js "stream.replay") (replay_data t a) :: map event_frame (Streams.replay a) ++
      match Streams.a_state a with Streams.Ended => [] | Streams.Running => map event_frame (until_end t live) end
  end.
End TurnStream.

(** The row of a turn this process has no buffer of. *)
Record TurnRecord := { t_id : ustring; t_session : ustring; t_status : ustring; t_steps : Z; t_error : option ustring }.

Definition running_hint : ustring :=
  js "The turn is recorded as running but is not observable here " ++ [0x2014] ++
  js " its events are buffered in whichever process is executing it, and buffers are in-memory and per-process. Poll GET /v1/agents/:id/turns/:turnId for the outcome.".
Definition evicted_hint : ustring :=
  js "This turn finished before you attached and its buffer has been evicted. Its full text is in GET /v1/agents/:id/turns/:turnId.".

Definition finishedStream (r : TurnRecord) : list SseFrame :=
  let running := bool_decide (t_status r = js "running") in
  [frame (js (if running then "stream.unavailable" else "stream.ended"))
    (JObj ([(js "turnId", JStr (t_id r)); (js "status", JStr (t_status r)); (js "sessionKey", JStr (t_session r))] ++
      if running then [(js "reason", JStr unbuffered); (js "hint", JStr running_hint)]
      else (js "steps", JNum (decimal (t_steps r))) ::
           match t_error r with Some c => [(js "errorCode", JStr c)] | None => [] end ++ [(js "hint", JStr evicted_hint)]))].

(** ** [Number(value)] and [String(value)] *)

(** A run of digits of a radix; nothing where another character stands. *)
Fixpoint radix_digits (radix acc : Z) (s : ustring) : option Z :=
  match s with
  | [] => Some acc
  | c :: s => d ← hex_value c; if d <? radix then radix_digits radix (radix * acc + d) s else None
  end.
Definition radix_text (radix : Z) (s : ustring) : ustring :=
  match s with
  | [] => js "NaN"
  | _ => match radix_digits radix 0 s with
         | Some n => literal_text false {| whole := decimal n; fraction := []; exponent := 0 |}
         | None => js "NaN"
         end
  end.

Definition decimal_text (s : ustring) : ustring :=
  let '(neg, body) := read_sign s in
  if bool_decide (body = js "Infinity") then (if neg : bool then [45] else []) ++ body
  else
    let '(w, after) := span_digits body in
    let '(f, after) := match after with 46 :: r => span_digits r | _ => ([], after) end in
    if bool_decide (w = []) && bool_decide (f = []) then js "NaN"
    else match read_exponent after with
         | Some (x, []) => literal_text neg {| whole := w; fraction := f; exponent := x |}
         | _ => js "NaN"
         end.

Definition text_to_number (s : ustring) : ustring :=
  match trim s with
  | [] => js "0"
  | 48 :: c :: digits =>
      if (c =? 120) || (c =? 88) then radix_text 16 digits
      else if (c =? 111) || (c =? 79) then radix_text 8 digits
      else if (c =? 98) || (c =? 66) then radix_text 2 digits
      else decimal_text (48 :: c :: digits)
  | t => decimal_text t
  end.

Definition to_number (v : json) : ustring :=
  match v with
  | JNull => js "0"
  | JBool b => js (if b then "1" else "0")
  | JNum w => w
  | JStr s => text_to_number s
  | JArr _ => text_to_number (to_text v)
  | JObj _ => js "NaN"
  end.

(** ** The client's side *)

Record ReplayReport := {
  rp_state : Streams.TurnBufferState; rp_events : ustring; rp_truncated : bool; rp_dropped : ustring; rp_chunks : Streams.ChunkHistory }.

Inductive TurnStreamItem :=
| AcceptedItem (turnId sessionKey : ustring)
| ReplayItem (r : ReplayReport)
| EventItem (type : ustring) (event : json)
| EndedItem (turnId status : ustring) (steps errorCode : option ustring)
| UnavailableItem (turnId reason : ustring).

(** [data ?? {}] and its members, [null] and absent alike to [??]. *)
Definition record_member (k : string) (v : json) : option json :=
  match v with JObj l => find_key (js k) l | _ => None end.
Definition given (v : option json) : option json := match v with Some JNull => None | _ => v end.
Definition text_or (d : string) (v : option json) : ustring := match given v with Some x => to_text x | None => js d end.
Definition number_or_zero (v : option json) : ustring := match given v with Some x => to_number x | None => js "0" end.
Definition is_text (s : string) (v : option json) : bool := match v with Some (JStr x) => bool_decide (x = js s) | _ => false end.
Definition is_true (v : option json) : bool := match v with Some (JBool b) => b | _ => false end.

(** [frames]: those with an event and data that is JSON. *)
Definition client_frame (e : SSEEvent) : option (ustring * json) :=
  match e_event e, e_data e with
  | None, _ | _, [] => None
  | Some name, text => v ← json_parse text; Some (name, v)
  end.

Definition replay_report (v : json) : ReplayReport :=
  let m k := record_member k v in
  {| rp_state := if is_text "ended" (m "state"%string) then Streams.Ended else Streams.Running;
     rp_events := number_or_zero (m "events"%string); rp_truncated := is_true (m "truncated"%string);
     rp_dropped := number_or_zero (m "dropped"%string);
     rp_chunks := if is_text "start" (m "chunks"%string) then Streams.Start
                  else if is_text "partial" (m "chunks"%string) then Streams.Partial else Streams.NoChunks |}.

Definition turn_item (x : ustring * json) : option TurnStreamItem :=
  let '(name, v) := x in
  let m k := record_member k v in
  if bool_decide (name ∈ EVENT_TYPES) then Some (EventItem name v)
  else if bool_decide (name = js "turn.accepted") then Some (AcceptedItem (text_or "" (m "turnId"%string)) (text_or "" (m "sessionKey"%string)))
  else if bool_decide (name = js "stream.replay") then Some (ReplayItem (replay_report v))
  else if bool_decide (name = js "stream.ended") then
    Some (EndedItem (text_or "" (m "turnId"%string)) (text_or "unknown" (m "status"%string))
      (match m "steps"%string with Some (JNum w) => Some w | _ => None end)
      (match m "errorCode"%string with Some (JStr s) => Some s | _ => None end))
  else if bool_decide (name = js "stream.unavailable") then
    Some (UnavailableItem (text_or "" (m "turnId"%string)) (text_or "not observable from this process" (m "reason"%string)))
  else None.

Definition turnStreamItems (bytes : list (list Z)) : list TurnStreamItem := omap turn_item (omap client_frame (parseSSE bytes)).

(** The firehose. *)
Record SubscribedReport := {
  sb_agent : option ustring; sb_types : option (list json); sb_chunks : bool; sb_implied : option ustring }.
Inductive EventStreamItem := SubscribedItem (r : SubscribedReport) | FirehoseItem (type : ustring) (event : json).

Definition firehose_item (x : ustring * json) : option EventStreamItem :=
  let '(name, v) := x in
  let m k := record_member k v in
  if bool_decide (name ∈ EVENT_TYPES) then Some (FirehoseItem name v)
  else if bool_decide (name = js "stream.subscribed") then
    Some (SubscribedItem {|
      sb_agent := match m "agentId"%string with Some (JStr s) => Some s | _ => None end;
      sb_types := match m "types"%string with Some (JArr l) => Some l | _ => None end;
      sb_chunks := is_true (m "chunks"%string);
      sb_implied := match m "implied"%string with Some (JStr s) => Some s | _ => None end |})
  else None.

Definition eventStreamItems (bytes : list (list Z)) : list EventStreamItem := omap firehose_item (omap client_frame (parseSSE bytes)).

(** ** The text of a reply *)

Inductive TextRefusal := ReplayTruncated (dropped : ustring) | TurnNotObservable (turnId reason : ustring) | NotReadable.

(** The text of an event, if it carries some of the reply. *)
Inductive Delta := NoDelta | Delta_ (s : ustring) | Throws.
Definition delta_of (event : json) : Delta :=
  match event with
  | JNull => Throws
  | _ =>
      if is_text "model.chunk" (record_member "type" event) then
        match given (record_member "data" event) with
        | None => Throws
        | Some d =>
            if is_text "reasoning" (record_member "kind" d) then NoDelta
            else match record_member "delta" d with Some (JStr s) => Delta_ s | _ => NoDelta end
        end
      else NoDelta
  end.

(** The deltas yielded before the end, or before a refusal. *)
Fixpoint textDeltas (allowTruncated : bool) (items : list TurnStreamItem) : list ustring * option TextRefusal :=
  match items with
  | [] => ([], None)
  | ReplayItem r :: items =>
      if rp_truncated r && negb allowTruncated then ([], Some (ReplayTruncated (rp_dropped r))) else textDeltas allowTruncated items
  | UnavailableItem t why :: _ => ([], Some (TurnNotObservable t why))
  | EventItem _ event :: items =>
      match delta_of event with
      | Throws => ([], Some NotReadable)
      | NoDelta => textDeltas allowTruncated items
      | Delta_ d => let '(ds, r) := textDeltas allowTruncated items in (d :: ds, r)
      end
  | _ :: items => textDeltas allowTruncated items
  end.

(** ** A frame arrives *)

(** A value that can be sent: what the language can hold, as the language writes it. *)
Definition sendable (v : json) : bool := json_ok v && plain_json v.

Definition named (name : ustring) : bool := forallb (fun c => (32 <=? c) && (c <? 0x80)) name.

Lemma EVENT_TYPES_named name : name ∈ EVENT_TYPES -> named name = true.
Proof.
  assert (forallb named EVENT_TYPES = true) as H by (vm_compute; reflexivity). rewrite forallb_forall in H.
  intros Hin. by apply H, list_elem_of_In.
Qed.

Lemma frame_sent name v : named name = true -> sendable v = true -> sent_ok (Frame (frame name v)).
Proof. intros Hn [_ Hv]%andb_true_iff. by apply value_frame_ok. Qed.

Lemma client_frame_received name v : sendable v = true -> client_frame (received (frame name v)) = Some (name, v).
Proof.
  intros [Hv _]%andb_true_iff. apply json_parse_stringify in Hv. unfold client_frame, received. cbn [e_event e_data frame f_event f_data payload].
  destruct (stringify v); [by vm_compute in Hv|]. by rewrite Hv.
Qed.

(** Everything a connection sends: names and values, heartbeats apart. *)
Lemma items_received (l : list (ustring * json)) sent chunks :
  Forall (fun x => named x.1 = true /\ sendable x.2 = true) l -> omap sent_frame sent = map (fun x => frame x.1 x.2) l ->
  concat chunks = utf8 (concat (map sent_text sent)) -> omap client_frame (parseSSE chunks) = l.
Proof.
  intros Hl Hs Hc. rewrite (sent_reads_back sent chunks); [|clear Hc|done].
  - rewrite Hs. clear - Hl. induction Hl as [|[name v] l [Hn Hv] _ IH]; [done|]. cbn [map omap list_omap fst snd].
    rewrite client_frame_received by done. f_equal. exact IH.
  - revert l Hl Hs. induction sent as [|x sent IH]; intros l Hl Hs; [constructor|]. destruct x as [f|].
    + destruct l as [|[name v] l]; [done|]. apply Forall_cons in Hl as [[Hn Hv] Hl]. cbn in Hs. injection Hs as -> Hs.
      constructor; [by apply frame_sent|by eapply IH].
    + constructor; [done|]. by eapply IH.
Qed.

(** An event as it is sent: of the catalogue, with its type in it, and its data where it is read. *)
Record event_ok (event_json : Streams.Event -> json) (e : Streams.Event) : Prop := {
  ev_type : Streams.type e ∈ EVENT_TYPES;
  ev_sendable : sendable (event_json e) = true;
  ev_readable : delta_of (event_json e) <> Throws }.

Definition event_item (event_json : Streams.Event -> json) (e : Streams.Event) : TurnStreamItem := EventItem (Streams.type e) (event_json e).

Lemma turn_item_event event_json e : event_ok event_json e -> turn_item (Streams.type e, event_json e) = Some (event_item event_json e).
Proof. intros [Ht _ _]. unfold turn_item. by rewrite bool_decide_eq_true_2. Qed.

Lemma turn_items_events event_json l : Forall (event_ok event_json) l ->
  omap turn_item (map (fun e => (Streams.type e, event_json e)) l) = map (event_item event_json) l.
Proof. induction 1 as [|e l He _ IH]; [done|]. cbn [map omap list_omap]. rewrite turn_item_event by done. f_equal. exact IH. Qed.

(** *** Numbers and texts *)

(** A count that the language writes digit by digit. *)
Definition countable_number (n : Z) : bool := (0 <=? n) && json_ok (JNum (decimal n)).

Lemma decimal_plain n : 0 <= n -> forallb (fun c => (32 <? c) && (c <? 0x80)) (decimal n) = true.
Proof.
  intros Hn. destruct (decimal_spec n Hn) as (_ & Hd & _). apply forallb_forall. intros c Hc. rewrite Forall_forall in Hd.
  apply list_elem_of_In, Hd in Hc. lia.
Qed.

Lemma decimal_units n : 0 <= n -> forallb unit_ok (decimal n) = true.
Proof.
  intros Hn. pose proof (decimal_plain n Hn) as H. rewrite forallb_forall in H |- *. intros c Hc. specialize (H c Hc). unfold unit_ok. lia.
Qed.

Lemma sendable_number n : countable_number n = true -> sendable (JNum (decimal n)) = true.
Proof. intros [Hn Hj]%andb_true_iff. unfold sendable. rewrite Hj. apply decimal_plain. lia. Qed.

Lemma sendable_text s : forallb unit_ok s = true -> sendable (JStr s) = true.
Proof. intros Hs. unfold sendable. cbn [json_ok plain_json]. by rewrite Hs. Qed.

Lemma sendable_object l : enumerated l = true -> Forall (fun kv => forallb unit_ok kv.1 = true /\ sendable kv.2 = true) l -> sendable (JObj l) = true.
Proof.
  intros He Hl. unfold sendable. cbn [json_ok plain_json]. rewrite He. rewrite Forall_forall in Hl. cbn [andb].
  apply andb_true_iff; split; apply forallb_forall; intros kv Hkv; destruct (Hl kv ltac:(by apply list_elem_of_In)) as [Hk Hv];
    apply andb_true_iff in Hv as [H1 H2]; by rewrite Hk.
Qed.

Lemma accepted_sendable t s : forallb unit_ok t = true -> forallb unit_ok s = true -> sendable (accepted_data t s) = true.
Proof. intros Ht Hs. apply sendable_object; [done|]. repeat (apply Forall_cons; split; [split; [done|by apply sendable_text]|]). constructor. Qed.

Lemma unavailable_sendable t : forallb unit_ok t = true -> sendable (unavailable_data t) = true.
Proof. intros Ht. apply sendable_object; [done|]. repeat (apply Forall_cons; split; [split; [done|by apply sendable_text]|]). constructor. Qed.

Lemma replay_sendable t a : forallb unit_ok t = true -> countable_number (zlen (Streams.replay a)) = true ->
  countable_number (Streams.a_dropped a) = true -> sendable (replay_data t a) = true.
Proof.
  intros Ht Hn Hd. apply sendable_object; [by destruct (Streams.a_truncated a)|].
  cbn [app]. repeat (apply Forall_cons; split; [split; [done|]|]).
  - by apply sendable_text.
  - apply sendable_text. by destruct (Streams.a_state a).
  - by apply sendable_number.
  - done.
  - by apply sendable_number.
  - apply sendable_text. by destruct (Streams.a_chunks a).
  - destruct (Streams.a_truncated a); [|constructor]. apply Forall_cons. split; [|constructor]. split; [done|]. apply sendable_text.
    unfold truncated_hint. rewrite !forallb_app, decimal_units by (apply andb_true_iff in Hd as [? _]; lia). done.
Qed.

(** The report a client makes of an attachment. *)
Definition report_of (a : Attachment) : ReplayReport :=
  {| rp_state := Streams.a_state a; rp_events := decimal (zlen (Streams.replay a)); rp_truncated := Streams.a_truncated a;
     rp_dropped := decimal (Streams.a_dropped a); rp_chunks := Streams.a_chunks a |}.

Lemma replay_report_of t a : replay_report (replay_data t a) = report_of a.
Proof.
  unfold replay_report, replay_data, record_member, report_of. f_equal; try reflexivity; [by destruct (Streams.a_state a)|by destruct (Streams.a_chunks a)].
Qed.

(** ** The connection *)

Definition accepted_items (t : ustring) (accepted : option ustring) : list TurnStreamItem :=
  match accepted with Some s => [AcceptedItem t s] | None => [] end.

Definition events_sent (t : ustring) (a : Attachment) (live : list Streams.Event) : list Streams.Event :=
  Streams.replay a ++ match Streams.a_state a with Streams.Ended => [] | Streams.Running => until_end t live end.

Lemma until_end_incl t live e : e ∈ until_end t live -> e ∈ live.
Proof.
  induction live as [|x live IH]; [done|]. cbn [until_end]. destruct (own_end t x).
  - intros ->%list_elem_of_singleton. by left.
  - intros [->|H]%elem_of_cons; [by left|]. right. by apply IH.
Qed.

Lemma connection_items event_json t accepted a live sent chunks :
  forallb unit_ok t = true -> (forall s, accepted = Some s -> forallb unit_ok s = true) ->
  countable_number (zlen (Streams.replay a)) = true -> countable_number (Streams.a_dropped a) = true ->
  Forall (event_ok event_json) (Streams.replay a ++ live) ->
  omap sent_frame sent = streamTurn event_json t accepted (Some a) live ->
  concat chunks = utf8 (concat (map sent_text sent)) ->
  turnStreamItems chunks = accepted_items t accepted ++ ReplayItem (report_of a) :: map (event_item event_json) (events_sent t a live).
Proof.
  intros Ht Hacc Hn Hd He Hs Hc.
  assert (Forall (event_ok event_json) (events_sent t a live)) as He'.
  { unfold events_sent. apply Forall_app in He as [H1 H2]. apply Forall_app; split; [done|].
    destruct (Streams.a_state a); [|constructor]. rewrite Forall_forall in H2 |- *. intros e H. by eapply H2, until_end_incl. }
  unfold turnStreamItems.
  rewrite (items_received (match accepted with Some s => [(js "turn.accepted", accepted_data t s)] | None => [] end ++
    (js "stream.replay", replay_data t a) :: map (fun e => (Streams.type e, event_json e)) (events_sent t a live)) sent chunks); [| | |done].
  - rewrite omap_app. cbn [omap list_omap]. change (turn_item (js "stream.replay", replay_data t a)) with (Some (ReplayItem (replay_report (replay_data t a)))).
    cbv beta iota. rewrite replay_report_of. f_equal; [by destruct accepted|]. f_equal. by apply turn_items_events.
  - apply Forall_app; split; [|apply Forall_cons; split].
    + destruct accepted as [s|]; [|constructor]. apply Forall_cons; split; [|constructor]. split; [done|]. apply accepted_sendable; [done|by apply Hacc].
    + split; [done|by apply replay_sendable].
    + apply Forall_fmap. eapply Forall_impl; [exact He'|]. intros e [H1 H2 _]. split; [by apply EVENT_TYPES_named|done].
  - rewrite Hs. unfold streamTurn, events_sent, event_frame. rewrite map_app. cbn [map]. f_equal; [by destruct accepted|]. f_equal.
    rewrite !map_map, map_app. f_equal. by destruct (Streams.a_state a).
Qed.

(** ** From the runtime's buffer to the reader's text *)

(** Tokens only if they were asked for. *)
Definition asked (c : bool) (e : Streams.Event) : bool := negb (Streams.is_chunk e && negb c).

(** What the listener was called with after it was attached. *)
Definition live_events (l : Streams.Listener) (s1 s2 : Streams.TurnStreams) : list Streams.Event :=
  drop (length (Streams.received l s1)) (Streams.received l s2).

Definition log_of (t : ustring) (l : list (Z * Streams.Event)) : list Streams.Event := map snd (Streams.turn_log t l).

Lemma log_of_app t l l' : log_of t (l ++ l') = log_of t l ++ log_of t l'.
Proof. unfold log_of, Streams.turn_log. by rewrite List.filter_app, map_app. Qed.

Lemma copies_own t c l :
  concat (map (fun ne => Streams.copies t {| Streams.i_chunks := c; Streams.i_children := false |} ne.2) l) = List.filter (asked c) (log_of t l).
Proof.
  unfold log_of, Streams.turn_log. induction l as [|[n e] l IH]; [done|]. cbn [map concat List.filter snd fst]. rewrite IH.
  unfold Streams.copies. cbn [Streams.i_chunks Streams.i_children]. rewrite andb_false_r, app_nil_r.
  case_bool_decide; [|done]. cbn [map snd List.filter andb]. unfold asked at 2. by destruct (negb _).
Qed.

Lemma attached_live o pre post t l c a s1 :
  0 <= Streams.maxEvents o -> 0 <= Streams.retainCount o ->
  let s := Streams.run o pre (Streams.listen Streams.new_streams) in
  (forall h, h ∈ Streams.handles s -> Streams.h_listener h <> l) ->
  Streams.attach t l c false s = (Some a, s1) ->
  forallb (Streams.leaves_alone l (length (Streams.handles s))) post = true ->
  let s2 := Streams.run o post s1 in
  exists b older later, Streams.get_buffer t (Streams.buffers s) = Some b /\
    log_of t (drop (Streams.opened b) (Streams.recorded s)) = older ++ Streams.replay a /\ zlen older = Streams.a_dropped a /\
    Streams.a_truncated a = (0 <? Streams.a_dropped a) /\ Streams.recorded s2 = Streams.recorded s ++ later /\
    live_events l s1 s2 = List.filter (asked c) (log_of t later).
Proof.
  intros Hm H0 s Hnew Hatt Hpost s2.
  pose proof (Streams.inv_run o pre _ Hm H0 (Streams.inv_start o)) as HI. fold s in HI.
  destruct (Streams.attach_attached o t l c false s a s1 HI Hnew Hatt) as [Ha Hrec].
  assert (Streams.Inv o s1) as HI1 by (pose proof (Streams.inv_attach o t l c false s HI) as H; by rewrite Hatt in H).
  destruct (Streams.attached_run o post t l _ _ s1 Hm H0 HI1 Ha Hpost) as (_ & later & E1 & E2).
  unfold Streams.attach in Hatt. destruct (Streams.get_buffer t (Streams.buffers s)) as [b|] eqn:Hb; [|done].
  destruct (Streams.i_buffer _ _ HI _ _ Hb) as [(older & _ & Hl & Ho) Ht _ _ _ _].
  exists b, (map snd older), later. injection Hatt as <- _. cbn [Streams.replay Streams.a_dropped Streams.a_truncated]. split_and!; [done|..].
  - unfold log_of. by rewrite Hl, map_app.
  - by rewrite length_map.
  - done.
  - by rewrite <- Hrec.
  - unfold live_events. rewrite <- copies_own. fold s2 in E2. by rewrite E2, drop_app_length.
Qed.

(** The text an event adds to the reply. *)
Definition delta_text (event_json : Streams.Event -> json) (e : Streams.Event) : option ustring :=
  match delta_of (event_json e) with Delta_ d => Some d | _ => None end.

Lemma deltas_of_items event_json allow t accepted r es : Forall (event_ok event_json) es ->
  textDeltas allow (accepted_items t accepted ++ ReplayItem r :: map (event_item event_json) es) =
    if rp_truncated r && negb allow then ([], Some (ReplayTruncated (rp_dropped r))) else (omap (delta_text event_json) es, None).
Proof.
  intros He. assert (textDeltas allow (map (event_item event_json) es) = (omap (delta_text event_json) es, None)) as Hes.
  { induction He as [|e es [_ _ Hr] _ IH]; [done|]. cbn [map textDeltas event_item omap list_omap]. unfold delta_text at 1.
    destruct (delta_of (event_json e)); [exact IH| |done]. by rewrite IH. }
  rewrite <- Hes. by destruct accepted.
Qed.

(** C24. What a reader of a turn is given. Whatever turns, listeners and evictions there were before
    and whatever there are after, a client that attaches to a turn and reads the connection, however
    its bytes are cut and wherever heartbeats fall, gets: the acceptance, if there was one; a report
    that says truncated, and counts as dropped, exactly the events that were recorded of the turn
    since its buffer was opened and that it is not given; then every other one of those in order, each
    once, and what is recorded of the turn from then on, tokens if it asked, up to the turn's own end.
    Its text is refused exactly when the report counts events dropped and it did not allow that, and
    otherwise is every delta of the events it was given, reasoning apart. A token that was sent while
    nobody had asked for any is not recorded: no report counts it, and no text is refused for it (the
    report then calls its tokens partial, or none). *)
Theorem turn_read_whole event_json o pre post t l c accepted a s1 sent chunks allow
  (Hm : 0 <= Streams.maxEvents o) (H0 : 0 <= Streams.retainCount o)
  (Hnew : forall h, h ∈ Streams.handles (Streams.run o pre (Streams.listen Streams.new_streams)) -> Streams.h_listener h <> l)
  (Hatt : Streams.attach t l c false (Streams.run o pre (Streams.listen Streams.new_streams)) = (Some a, s1))
  (Hpost : forallb (Streams.leaves_alone l (length (Streams.handles (Streams.run o pre (Streams.listen Streams.new_streams))))) post = true)
  (Ht : forallb unit_ok t = true) (Hacc : forall s, accepted = Some s -> forallb unit_ok s = true)
  (Hn : countable_number (zlen (Streams.replay a)) = true) (Hd : countable_number (Streams.a_dropped a) = true)
  (He : Forall (event_ok event_json) (log_of t (Streams.recorded (Streams.run o post s1))))
  (Hs : omap sent_frame sent = streamTurn event_json t accepted (Some a) (live_events l s1 (Streams.run o post s1)))
  (Hc : concat chunks = utf8 (concat (map sent_text sent))) :
  exists b older later,
    Streams.get_buffer t (Streams.buffers (Streams.run o pre (Streams.listen Streams.new_streams))) = Some b /\
    log_of t (drop (Streams.opened b) (Streams.recorded (Streams.run o pre (Streams.listen Streams.new_streams)))) = older ++ Streams.replay a /\
    Streams.recorded (Streams.run o post s1) = Streams.recorded (Streams.run o pre (Streams.listen Streams.new_streams)) ++ later /\
    let seen := Streams.replay a ++
      match Streams.a_state a with
      | Streams.Ended => []
      | Streams.Running => until_end t (List.filter (asked c) (log_of t later))
      end in
    turnStreamItems chunks = accepted_items t accepted ++
      ReplayItem {| rp_state := Streams.a_state a; rp_events := decimal (zlen (Streams.replay a)); rp_truncated := (0 <? zlen older);
                    rp_dropped := decimal (zlen older); rp_chunks := Streams.a_chunks a |} :: map (event_item event_json) seen /\
    textDeltas allow (turnStreamItems chunks) =
      if (0 <? zlen older) && negb allow then ([], Some (ReplayTruncated (decimal (zlen older))))
      else (omap (delta_text event_json) seen, None).
Proof.
  destruct (attached_live o pre post t l c a s1 Hm H0 Hnew Hatt Hpost) as (b & older & later & Eb & E1 & E2 & E3 & E4 & E5).
  exists b, older, later. split; [done|]. split; [done|]. split; [done|]. cbv zeta. rewrite E5 in Hs.
  assert (Forall (event_ok event_json) (Streams.replay a ++ List.filter (asked c) (log_of t later))) as Hok.
  { rewrite E4, log_of_app in He. apply Forall_app in He as [He1 He2]. apply Forall_app; split.
    - assert (Forall (event_ok event_json) (older ++ Streams.replay a)) as H; [|by apply Forall_app in H as [_ H]]. rewrite <- E1.
      rewrite <- (take_drop (Streams.opened b) (Streams.recorded _)), log_of_app in He1. by apply Forall_app in He1 as [_ ?].
    - rewrite Forall_forall in He2 |- *. intros e Hin. apply He2. apply list_elem_of_In in Hin. apply filter_In in Hin as [Hin _].
      by apply list_elem_of_In. }
  rewrite (connection_items event_json t accepted a _ sent chunks Ht Hacc Hn Hd Hok Hs Hc). unfold report_of. rewrite E3, <- E2. split; [done|].
  rewrite deltas_of_items; [done|]. apply Forall_app in Hok as [Hok1 Hok2]. apply Forall_app; split; [done|].
  destruct (Streams.a_state a); [|constructor]. rewrite Forall_forall in Hok2 |- *. intros e Hin. by eapply Hok2, until_end_incl.
Qed.

(** *** A connection *)

Definition event_okb (event_json : Streams.Event -> json) (e : Streams.Event) : bool :=
  bool_decide (Streams.type e ∈ EVENT_TYPES) && sendable (event_json e) && match delta_of (event_json e) with Throws => false | _ => true end.

Lemma events_okb event_json l : forallb (event_okb event_json) l = true -> Forall (event_ok event_json) l.
Proof.
  intros H. rewrite forallb_forall in H. apply Forall_forall. intros e He%list_elem_of_In. apply H in He.
  apply andb_true_iff in He as [[Ht%bool_decide_eq_true Hs]%andb_true_iff Hd]. split; [done|done|]. by destruct (delta_of _).
Qed.

(** Three events of the turn under a cap of two, then a token, another turn's event and its end. *)
Definition wire_json (e : Streams.Event) : json :=
  JObj [(js "type", JStr (Streams.type e)); (js "data", JObj [(js "delta", JStr (decimal (Streams.body e)))])].
Definition wire_attachment : Attachment :=
  {| Streams.replay := [Streams.ev "model.chunk" Streams.turn1 None 2; Streams.ev "model.chunk" Streams.turn1 None 3];
     Streams.a_state := Streams.Running; Streams.a_truncated := true; Streams.a_dropped := 1; Streams.a_chunks := Streams.Start |}.
Local Abbreviation wire_before := (Streams.run Streams.small Streams.before_attach (Streams.listen Streams.new_streams)).
Local Abbreviation wire_at := ((Streams.attach Streams.turn1 8 true false wire_before).2).
Local Abbreviation wire_after := (Streams.run Streams.small Streams.after_attach wire_at).
Definition wire_frames : list SseFrame :=
  streamTurn wire_json Streams.turn1 (Some (js "api:1")) (Some wire_attachment) (live_events 8 wire_at wire_after).
Definition wire_sent : list Sent := map Frame (take 2 wire_frames) ++ Ping :: map Frame (drop 2 wire_frames).
Definition wire_bytes : list Z := utf8 (concat (map sent_text wire_sent)).
Definition wire_chunks : list (list Z) := [take 41 wire_bytes; take 300 (drop 41 wire_bytes); drop 341 wire_bytes].

Lemma turn_read_whole_witness :
  textDeltas true (turnStreamItems wire_chunks) = ([js "2"; js "3"; js "4"], None) /\
  exists n, textDeltas false (turnStreamItems wire_chunks) = ([], Some (ReplayTruncated n)) \/
            exists l, textDeltas false (turnStreamItems wire_chunks) = (l, None).
Proof.
  split; [vm_compute; reflexivity|].
  assert (Hm : 0 <= Streams.maxEvents Streams.small) by (by vm_compute).
  assert (H0 : 0 <= Streams.retainCount Streams.small) by (by vm_compute).
  assert (Hnew : forall h, h ∈ Streams.handles wire_before -> Streams.h_listener h <> 8%nat).
  { assert (forallb (fun h => negb (Streams.h_listener h =? 8)%nat) (Streams.handles wire_before) = true) as H by (vm_compute; reflexivity).
    intros h Hh. rewrite forallb_forall in H. apply list_elem_of_In in Hh. apply H in Hh. by apply negb_true_iff, Nat.eqb_neq in Hh. }
  assert (Hatt : Streams.attach Streams.turn1 8 true false wire_before = (Some wire_attachment, wire_at)) by (vm_compute; reflexivity).
  assert (Hpost : forallb (Streams.leaves_alone 8 (length (Streams.handles wire_before))) Streams.after_attach = true) by (vm_compute; reflexivity).
  assert (Ht : forallb unit_ok Streams.turn1 = true) by (vm_compute; reflexivity).
  assert (Hacc : forall s, Some (js "api:1") = Some s -> forallb unit_ok s = true) by (intros s [= <-]; vm_compute; reflexivity).
  assert (Hn : countable_number (zlen (Streams.replay wire_attachment)) = true) by (vm_compute; reflexivity).
  assert (Hd : countable_number (Streams.a_dropped wire_attachment) = true) by (vm_compute; reflexivity).
  assert (He : Forall (event_ok wire_json) (log_of Streams.turn1 (Streams.recorded wire_after))).
  { apply events_okb. vm_compute; reflexivity. }
  assert (Hs : omap sent_frame wire_sent = wire_frames) by (vm_compute; reflexivity).
  assert (Hc : concat wire_chunks = utf8 (concat (map sent_text wire_sent))) by (vm_compute; reflexivity).
  destruct (turn_read_whole wire_json Streams.small Streams.before_attach Streams.after_attach Streams.turn1 8 true (Some (js "api:1"))
    wire_attachment wire_at wire_sent wire_chunks false Hm H0 Hnew Hatt Hpost Ht Hacc Hn Hd He Hs Hc) as (b & older & later & _ & _ & _ & _ & E).
  exists (decimal (zlen older)). rewrite E. destruct ((0 <? zlen older) && negb false); [left; reflexivity|right; by eexists].
Defined.

(** Tokens from before the attachment that the buffer never had: nothing refuses the short reply. *)
Definition joined_late : list TurnStreamItem :=
  [ReplayItem {| rp_state := Streams.Running; rp_events := js "1"; rp_truncated := false; rp_dropped := js "0"; rp_chunks := Streams.Partial |};
   EventItem (js "model.chunk") (JObj [(js "type", JStr (js "model.chunk")); (js "data", JObj [(js "delta", JStr (js "rest"))])])].
Lemma late_tokens_pass : textDeltas false joined_late = ([js "rest"], None).
Proof. vm_compute. reflexivity. Qed.
