(* ===== verification/Webhook.v ===== *)
(** * Webhooks: [webhooks/webhooks.ts], what is signed, where it may go and who hears it

    Signing and verifying, the operator's allowlist, the check of a target, and the subscription a
    caller may create. HMAC, SHA-256, base64 and the URL parser are the platform's. *)
From S2P Require Import Prelude UString Json JsonParse Address SessionKey Principal OperatorKeys Utf8 Images Reach TurnStream.
Local Open Scope Z_scope.

(** [createHmac("sha256", key).update(message).digest()], on bytes. *)
Class Hmac := hmac_sha256 : list Z -> list Z -> list Z.
(** [Buffer.from(text, "base64")], of any text. *)
Class FromBase64 := unbase64 : ustring -> list Z.

Record Url := { protocol : ustring; username : ustring; password : ustring; hostname : ustring }.
(** [new URL(text)]; [None] where it throws. *)
Class UrlParser := new_url : ustring -> option Url.

(** ** Signing *)

Section Signing.
Context `{Hmac} `{FromBase64}.

(** Of 24 random bytes. *)
Definition newWebhookSecret (bytes : list Z) : ustring := js "whsec_" ++ to_base64 bytes.

Definition keyOf (secret : ustring) : list Z :=
  unbase64 (match strip_prefix (js "whsec_") secret with Some rest => rest | None => secret end).

Definition integer_text (n : Z) : ustring := if n <? 0 then 45 :: decimal (- n) else decimal n.
Definition signed_text (id : ustring) (timestamp : Z) (body : ustring) : ustring :=
  id ++ 46 :: integer_text timestamp ++ 46 :: body.

Definition signWebhook (secret id : ustring) (timestamp : Z) (body : ustring) : ustring :=
  js "v1," ++ to_base64 (hmac_sha256 (keyOf secret) (utf8 (signed_text id timestamp body))).

Definition verifyWebhook (secret id : ustring) (timestamp : Z) (body signature : ustring) (nowSec toleranceSec : Z) : bool :=
  if Z.abs (nowSec - timestamp) >? toleranceSec then false
  else
    let expected := unbase64 (drop 3 (signWebhook secret id timestamp body)) in
    existsb (fun part =>
        match strip_prefix (js "v1,") part with Some given => bool_decide (unbase64 given = expected) | None => false end)
      (split_on 32 signature).
End Signing.

Definition webhookMessageId `{Digest} (subscriptionId body : ustring) : ustring :=
  js "msg_" ++ take 32 (concat (map hex_byte (sha256 (subscriptionId ++ 10 :: body)))).

(** ** The allowlist *)

Record Range := { r_bytes : list Z; r_bits : Z }.
Record WebhookAllowlist := { hosts : list ustring; ranges : list Range }.
Definition EMPTY_ALLOWLIST : WebhookAllowlist := {| hosts := []; ranges := [] |}.

Definition parse_bytes (address : ustring) : option (list Z) :=
  match parseIPv4 address with Some b => Some b | None => parseIPv6 address end.

(** [Number(text)] where it is an integer not below zero; one too long to be written out is none. *)
Definition natural_number (text : ustring) : option Z :=
  let w := text_to_number text in
  if negb (bool_decide (w = [])) && forallb is_digit w then Some (digits_value w) else None.

Inductive Entry := HostEntry (host : ustring) | RangeEntry (r : Range).

Definition parse_entry (entry : ustring) : option Entry :=
  let parts := split_on 47 entry in
  let bytes := parse_bytes (hd [] parts) in
  match parts !! 1%nat, bytes with
  | None, None => Some (HostEntry (lower entry))
  | None, Some b => Some (RangeEntry {| r_bytes := b; r_bits := zlen b * 8 |})
  | Some text, Some b =>
      match natural_number text with
      | Some bits => if bits <=? zlen b * 8 then Some (RangeEntry {| r_bytes := b; r_bits := bits |}) else None
      | None => None
      end
  | Some _, None => None
  end.

Fixpoint parse_entries (entries : list ustring) : result ustring WebhookAllowlist :=
  match entries with
  | [] => Ok EMPTY_ALLOWLIST
  | entry :: entries =>
      match parse_entry entry with
      | None => Err entry
      | Some x =>
          match parse_entries entries with
          | Err e => Err e
          | Ok l => Ok match x with
                       | HostEntry h => {| hosts := h :: hosts l; ranges := ranges l |}
                       | RangeEntry r => {| hosts := hosts l; ranges := r :: ranges l |}
                       end
          end
      end
  end.

(** [Err] names the entry it cannot read. *)
Definition parseWebhookAllowlist (raw : option ustring) : result ustring WebhookAllowlist :=
  match raw with
  | None => Ok EMPTY_ALLOWLIST
  | Some raw =>
      if blank raw then Ok EMPTY_ALLOWLIST
      else parse_entries (List.filter (fun part => negb (bool_decide (part = []))) (map trim (split_on 44 raw)))
  end.

Definition masked (bytes : list Z) (bit : nat) : Z := Z.land (nth (bit / 8) bytes 0) (Z.shiftr 0x80 (Z.of_nat (bit mod 8))).

Definition inRange (bytes : list Z) (range : Range) : bool :=
  (length bytes =? length (r_bytes range))%nat &&
  forallb (fun bit => masked bytes bit =? masked (r_bytes range) bit) (seq 0 (Z.to_nat (r_bits range))).

(** ** The target *)

Definition never (k : AddressKind) : bool := match k with LinkLocal | Unspecified | Multicast => true | _ => false end.

Inductive TargetError := UrlInvalid | TargetUnresolved (host : ustring) | TargetRefused (host address : ustring).

Definition listed (allow : WebhookAllowlist) (host address : ustring) : bool :=
  bool_decide (host ∈ hosts allow) ||
  match parse_bytes address with Some bytes => existsb (inRange bytes) (ranges allow) | None => false end.

Definition address_allowed (allow : WebhookAllowlist) (host address : ustring) : bool :=
  match classifyAddress address with
  | None => false
  | Some verdict =>
      match kind verdict with
      | Public => true
      | k => negb (never k) && listed allow host address
      end
  end.

(** [hostname.replace(/^\[|\]$/g, "").toLowerCase()]. *)
Definition bare_host (h : ustring) : ustring :=
  let h := if starts_with [91] h then drop 1 h else h in
  lower (if ends_with [93] h then slice h 0 (-1) else h).

Section Target.
Context `{UrlParser}.

(** [lookup] answers with addresses, or throws ([None]). *)
Definition checkWebhookTarget (raw : ustring) (allow : WebhookAllowlist) (lookup : ustring -> option (list ustring))
  : result TargetError unit :=
  match new_url raw with
  | None => Err UrlInvalid
  | Some url =>
      if negb (bool_decide (protocol url = js "https:")) && negb (bool_decide (protocol url = js "http:")) then Err UrlInvalid
      else if negb (bool_decide (username url = [])) || negb (bool_decide (password url = [])) then Err UrlInvalid
      else
        let host := bare_host (hostname url) in
        match default [] (lookup host) with
        | [] => Err (TargetUnresolved host)
        | answers =>
            match List.find (fun address => negb (address_allowed allow host address)) answers with
            | Some address => Err (TargetRefused host address)
            | None => Ok tt
            end
        end
  end.
End Target.

(** ** Who hears what *)

(** What is read of an event; [e_body] is the envelope as JSON. *)
Record WebhookEvent := { e_type : ustring; e_agent : option ustring; e_session : option ustring; e_body : ustring }.

Definition webhookDeliverable (type : ustring) : bool := negb (bool_decide (type = js "model.chunk")).

Definition inScope (scope : Reach.Subscription) (e : WebhookEvent) : bool :=
  match w_agents scope with None => true | Some l => bool_decide (default [] (e_agent e) ∈ l) end &&
  match w_prefix scope with None => true | Some q => starts_with q (default [] (e_session e)) end.

(** A row of [webhook_subscriptions]; the scope that says nothing is the absent one. *)
Record WebhookSubscription := {
  sub_id : ustring; sub_url : ustring; sub_secret : ustring; sub_types : list ustring; sub_scope : Reach.Subscription;
  createdAt : Z; consecutiveFailures : Z; sub_error : option ustring; lastSuccessAt : option Z; lastFailureAt : option Z }.

Definition webhookHears (s : WebhookSubscription) (e : WebhookEvent) : bool :=
  bool_decide (is_Some (e_agent e)) && bool_decide (e_type e ∈ sub_types s) && inScope (sub_scope s) e.

(** [POST /v1/webhooks], of a body that passed its schema. *)
Record WebhookInput := { in_url : ustring; in_types : list ustring; in_agents : option (list ustring) }.

Inductive CreateError := TypeInvalid (types : list ustring) | ScopeInvalid | UrlRefused (e : TargetError).

Fixpoint distinct (l : list ustring) : list ustring :=
  match l with [] => [] | x :: l => x :: List.filter (fun y => negb (bool_decide (y = x))) (distinct l) end.

Definition createWebhook `{UrlParser} (p : Principal) (input : WebhookInput) (known : list ustring) (allow : WebhookAllowlist)
  (lookup : ustring -> option (list ustring)) (id : ustring) (random : list Z) (now : Z) : result CreateError WebhookSubscription :=
  match List.filter (fun t => negb (bool_decide (t ∈ EVENT_TYPES)) || negb (webhookDeliverable t)) (in_types input) with
  | _ :: _ as unknown => Err (TypeInvalid unknown)
  | [] =>
      match webhook_scope p (in_agents input) known with
      | None => Err ScopeInvalid
      | Some scope =>
          match checkWebhookTarget (in_url input) allow lookup with
          | Err e => Err (UrlRefused e)
          | Ok _ =>
              Ok {| sub_id := id; sub_url := in_url input; sub_secret := newWebhookSecret random; sub_types := distinct (in_types input);
                    sub_scope := scope; createdAt := now; consecutiveFailures := 0; sub_error := None; lastSuccessAt := None;
                    lastFailureAt := None |}
          end
      end
  end.

(** ** What a signature says *)

Lemma strip_prefix_spec p s r : strip_prefix p s = Some r <-> s = p ++ r.
Proof.
  revert s. induction p as [|a p IH]; intros s; cbn [strip_prefix app].
  - split; [by intros [= ->]|by intros ->].
  - destruct s as [|b s]; [split; [done|by intros]|]. destruct (Z.eqb_spec a b) as [->|Hne].
    + rewrite IH. split; [by intros ->|by intros [= ->]].
    + split; [done|]. by intros [= -> _].
Qed.

(** The parts of a signed text can be told apart: an id has no full stop, a timestamp none. *)
Lemma cut_at_stop a a' s s' : ~ In 46 a -> ~ In 46 a' -> a ++ 46 :: s = a' ++ 46 :: s' -> a = a' /\ s = s'.
Proof.
  revert a'. induction a as [|c a IH]; intros [|c' a'] Ha Ha' E; cbn [app In] in *.
  - by injection E.
  - injection E as <- _. exfalso. apply Ha'. by left.
  - injection E as -> _. exfalso. apply Ha. by left.
  - injection E as -> E. destruct (IH a' ltac:(tauto) ltac:(tauto) E) as [-> ->]. done.
Qed.

Lemma integer_text_plain n : ~ In 46 (integer_text n).
Proof.
  unfold integer_text. assert (forall m, 0 <= m -> ~ In 46 (decimal m)) as Hd.
  { intros m Hm Hin. destruct (decimal_spec m Hm) as (_ & Hf & _). rewrite Forall_forall in Hf. apply list_elem_of_In, Hf in Hin. lia. }
  destruct (n <? 0) eqn:E; [|apply Hd; lia]. intros [?|Hin]; [done|]. by apply Hd in Hin; [|lia].
Qed.

Lemma integer_text_inj m n : integer_text m = integer_text n -> m = n.
Proof.
  assert (forall k l, 0 <= k -> decimal k <> 45 :: l) as Hh.
  { intros k l Hk E. destruct (decimal_spec k Hk) as (_ & Hf & _). rewrite E in Hf. apply Forall_cons in Hf as [? _]. lia. }
  unfold integer_text. destruct (m <? 0) eqn:Em, (n <? 0) eqn:En; intros E.
  - injection E as E. apply decimal_inj in E; lia.
  - symmetry in E. by apply Hh in E; [|lia].
  - by apply Hh in E; [|lia].
  - apply decimal_inj in E; lia.
Qed.

Lemma signed_text_inj id id' ts ts' body body' : ~ In 46 id -> ~ In 46 id' ->
  signed_text id ts body = signed_text id' ts' body' -> id = id' /\ ts = ts' /\ body = body'.
Proof.
  intros Hi Hi' E. apply cut_at_stop in E as [-> E]; [|done..]. apply cut_at_stop in E as [E ->]; try apply integer_text_plain.
  by apply integer_text_inj in E as ->.
Qed.

(** What base64 and HMAC are relied on for: bytes come back, and a digest is bytes. *)
Class SigningLaws `{Hmac} `{FromBase64} : Prop := {
  base64_back : forall bytes, Forall is_byte bytes -> unbase64 (to_base64 bytes) = bytes;
  hmac_bytes : forall key message, Forall is_byte (hmac_sha256 key message) }.

Section Signatures.
Context `{SigningLaws}.

Lemma sign_unsigned secret id ts body :
  unbase64 (drop 3 (signWebhook secret id ts body)) = hmac_sha256 (keyOf secret) (utf8 (signed_text id ts body)).
Proof. unfold signWebhook. change (drop 3 (js "v1," ++ ?x)) with x. apply base64_back, hmac_bytes. Qed.

Lemma verify_spec secret id ts body sigs now tol : sigs <> [] -> Forall (fun w => ~ In 32 w) sigs ->
  verifyWebhook secret id ts body (join [32] sigs) now tol = true <->
  Z.abs (now - ts) <= tol /\
  exists given, js "v1," ++ given ∈ sigs /\ unbase64 given = hmac_sha256 (keyOf secret) (utf8 (signed_text id ts body)).
Proof.
  intros Hne Hw. unfold verifyWebhook. rewrite sign_unsigned, split_on_join by done.
  destruct (Z.abs (now - ts) >? tol) eqn:E; [split; [done|lia]|]. rewrite existsb_exists. split.
  - intros (part & Hp & Hv). split; [lia|]. destruct (strip_prefix (js "v1,") part) as [given|] eqn:Es; [|done].
    apply strip_prefix_spec in Es as ->. exists given. split; [by apply list_elem_of_In|by apply bool_decide_eq_true in Hv].
  - intros (_ & given & Hg & Hv). exists (js "v1," ++ given). split; [by apply list_elem_of_In|].
    rewrite (proj2 (strip_prefix_spec (js "v1,") _ given) eq_refl). by apply bool_decide_eq_true.
Qed.

(** A webhook's signature is good for what was signed, and only then. A receiver that verifies as
    documented accepts a delivery when one of the signatures in its header is ours and its timestamp
    is near enough; it accepts only when one of them is the HMAC of exactly this id, this timestamp
    and this body under its secret, and texts signed for other ids, timestamps or bodies are other
    texts; and the key is the bytes the secret was made of. *)
Theorem webhook_verifies secret id ts body sigs now tol
  (Hne : sigs <> []) (Hw : Forall (fun w => ~ In 32 w) sigs) :
  (signWebhook secret id ts body ∈ sigs -> Z.abs (now - ts) <= tol -> verifyWebhook secret id ts body (join [32] sigs) now tol = true) /\
  (verifyWebhook secret id ts body (join [32] sigs) now tol = true ->
     Z.abs (now - ts) <= tol /\
     exists given, js "v1," ++ given ∈ sigs /\ unbase64 given = hmac_sha256 (keyOf secret) (utf8 (signed_text id ts body))) /\
  (forall id' ts' body', ~ In 46 id -> ~ In 46 id' ->
     signed_text id ts body = signed_text id' ts' body' -> id = id' /\ ts = ts' /\ body = body') /\
  forall bytes, Forall is_byte bytes -> keyOf (newWebhookSecret bytes) = bytes.
Proof.
  split; [|split; [by apply verify_spec|split]].
  - intros Hs Ht. apply verify_spec; [done..|]. split; [done|]. eexists. split; [exact Hs|]. apply base64_back, hmac_bytes.
  - intros id' ts' body'. apply signed_text_inj.
  - intros bytes Hb. unfold keyOf, newWebhookSecret. rewrite (proj2 (strip_prefix_spec (js "whsec_") _ (to_base64 bytes)) eq_refl).
    by apply base64_back.
Qed.
End Signatures.

(** ** Where a webhook may go *)

Section Targets.
Context `{UrlParser}.

(** What a target's address has to be. *)
Definition sendable_to (allow : WebhookAllowlist) (host address : ustring) : Prop :=
  exists v, classifyAddress address = Some v /\ never (kind v) = false /\ (kind v = Public \/ listed allow host address = true).

Lemma address_allowed_spec allow host address : address_allowed allow host address = true <-> sendable_to allow host address.
Proof.
  unfold address_allowed, sendable_to. destruct (classifyAddress address) as [v|]; [|split; [done|by intros (? & ? & _)]]. split.
  - intros Ha. exists v. split; [done|]. destruct (kind v); cbn in *; try done; split; try done; by (left + right).
  - intros (v' & [= <-] & Hn & [->|Hl]); [done|]. rewrite Hl. by destruct (kind v).
Qed.

(** What passes the check: an http or https URL without credentials, whose host resolves, and only to
    addresses that may be sent to. *)
Lemma checkWebhookTarget_ok raw allow lookup :
  checkWebhookTarget raw allow lookup = Ok tt <->
  exists url address rest, new_url raw = Some url /\ (protocol url = js "https:" \/ protocol url = js "http:") /\
    username url = [] /\ password url = [] /\ lookup (bare_host (hostname url)) = Some (address :: rest) /\
    Forall (sendable_to allow (bare_host (hostname url))) (address :: rest).
Proof.
  unfold checkWebhookTarget. destruct (new_url raw) as [url|]; [|split; [done|by intros (? & ? & ? & ? & _)]].
    destruct (negb (bool_decide (protocol url = js "https:")) && negb (bool_decide (protocol url = js "http:"))) eqn:Ep.
    { split; [done|]. intros (? & ? & ? & [= <-] & Hp & _). apply andb_true_iff in Ep as [E1%negb_true_iff E2%negb_true_iff].
      apply bool_decide_eq_false in E1, E2. tauto. }
    destruct (negb (bool_decide (username url = [])) || negb (bool_decide (password url = []))) eqn:Ec.
    { split; [done|]. intros (? & ? & ? & [= <-] & _ & Hu & Hp & _). by rewrite Hu, Hp in Ec. }
    apply orb_false_iff in Ec as [E1%negb_false_iff E2%negb_false_iff]. apply bool_decide_eq_true in E1, E2.
    assert (protocol url = js "https:" \/ protocol url = js "http:") as Hp.
    { apply andb_false_iff in Ep as [E%negb_false_iff|E%negb_false_iff]; apply bool_decide_eq_true in E; tauto. }
    destruct (lookup (bare_host (hostname url))) as [[|address rest]|] eqn:El; cbv [default from_option id]; cbv iota beta.
    - split; [done|]. intros (? & ? & ? & [= <-] & _ & _ & _ & E & _). by rewrite El in E.
    - split.
      + match goal with |- context [List.find ?f ?l] => destruct (List.find f l) eqn:Ef end; [done|]. intros _. exists url, address, rest. split_and!; try done.
        apply Forall_forall. intros x Hx. apply address_allowed_spec. apply list_elem_of_In in Hx.
        pose proof (find_none _ _ Ef x Hx) as E. by apply negb_false_iff in E.
      + intros (? & a & r & [= <-] & _ & _ & _ & E & Hf). rewrite El in E. injection E as <- <-.
        match goal with |- context [List.find ?f ?l] => destruct (List.find f l) as [x|] eqn:Ef end; [|done]. apply find_some in Ef as [Hx Hn]. rewrite Forall_forall in Hf.
        apply list_elem_of_In, Hf, address_allowed_spec in Hx. by rewrite Hx in Hn.
    - split; [done|]. intros (? & ? & ? & [= <-] & _ & _ & _ & E & _). by rewrite El in E.
Qed.

(** C38. A webhook goes nowhere it should not. A target passes the check exactly when it is an http or
    https URL without credentials whose host resolves, and every address it resolves to is classified,
    and public or on the operator's list; nothing on the list lets a link-local, unspecified or
    multicast address through, whichever of the answers it is. *)
Theorem webhook_target_safe raw allow lookup :
  (checkWebhookTarget raw allow lookup = Ok tt <->
   exists url address rest, new_url raw = Some url /\ (protocol url = js "https:" \/ protocol url = js "http:") /\
     username url = [] /\ password url = [] /\ lookup (bare_host (hostname url)) = Some (address :: rest) /\
     Forall (sendable_to allow (bare_host (hostname url))) (address :: rest)) /\
  (forall url answers c d, new_url raw = Some url -> lookup (bare_host (hostname url)) = Some answers ->
     is_octet c -> is_octet d -> dotted [169; 254; c; d] ∈ answers -> checkWebhookTarget raw allow lookup <> Ok tt).
Proof.
  split; [apply checkWebhookTarget_ok|]. intros url answers c d Hu Hl Hc Hd Hin Hok.
  apply checkWebhookTarget_ok in Hok as (? & a & r & E & _ & _ & _ & El & Hf).
  rewrite Hu in E. injection E as <-. rewrite Hl in El. injection El as ->. rewrite Forall_forall in Hf.
  apply Hf in Hin as (v & Hv & Hn & _). rewrite classify_dotted in Hv by (done || lia). injection Hv as <-. done.
Qed.

(** ** Who hears what *)

Lemma distinct_incl l t : t ∈ distinct l -> t ∈ l.
Proof.
  induction l as [|x l IH]; [done|]. cbn [distinct]. intros [->|Hin]%elem_of_cons; [by left|]. right. apply IH.
  apply list_elem_of_In, filter_In in Hin as [Hin _]. by apply list_elem_of_In.
Qed.

(** A subscription hears no more than its creator. Whatever a caller sends, what the route creates
    goes only to a target that passes the check, hears only events of the catalogue and never tokens,
    only of agents and sessions the caller reaches, and is one the caller sees. *)
Theorem webhook_hears_within_reach p input known allow lookup id random now s
  (Hc : createWebhook p input known allow lookup id random now = Ok s) :
  webhookVisible p (sub_scope s) = true /\ checkWebhookTarget (sub_url s) allow lookup = Ok tt /\
  forall e, webhookHears s e = true ->
    e_type e ∈ EVENT_TYPES /\ e_type e <> js "model.chunk" /\
    exists agent, e_agent e = Some agent /\ reachesAgent p agent = true /\ reachesSession p (default [] (e_session e)) = true.
Proof.
  unfold createWebhook in Hc. match type of Hc with context [List.filter ?f ?l] => destruct (List.filter f l) eqn:Ef end; [|done]. destruct (webhook_scope p (in_agents input) known) as [scope|] eqn:Es; [|done].
  destruct (checkWebhookTarget (in_url input) allow lookup) as [[]|] eqn:Et; [|done]. injection Hc as <-. cbn [sub_scope sub_url].
  pose proof (webhook_scope_visible _ _ _ _ Es) as Hv. split; [done|]. split; [done|]. intros e He. unfold webhookHears in He. cbn [sub_types sub_scope] in He.
  apply andb_true_iff in He as [[Ha Ht]%andb_true_iff Hs]. apply bool_decide_eq_true in Ha as [agent Ha]. apply bool_decide_eq_true in Ht.
  apply distinct_incl in Ht. split_and!.
  - destruct (decide (e_type e ∈ EVENT_TYPES)) as [|Hn]; [done|]. exfalso. apply list_elem_of_In in Ht.
    assert (In (e_type e) []) as []. rewrite <- Ef. apply filter_In. split; [done|]. by rewrite bool_decide_eq_false_2.
  - intros E. apply list_elem_of_In in Ht. assert (In (e_type e) []) as []. rewrite <- Ef. apply filter_In. split; [done|].
    unfold webhookDeliverable. by rewrite E, orb_true_r.
  - exists agent. split; [done|]. apply (webhookVisible_within p scope); [done|]. unfold inScope in Hs. rewrite Ha in Hs. exact Hs.
Qed.
End Targets.

(** ** A receiver *)

(** A digest of two bytes, and an URL parser of one host. *)
Definition toy_hmac : Hmac := fun key message => [Z.modulo (fold_right Z.add 0 (key ++ message)) 256; zlen message mod 256].
Definition toy_base64 : FromBase64 := from_base64.
Definition toy_url : UrlParser := fun raw =>
  if bool_decide (raw = js "https://hooks.example") then
    Some {| protocol := js "https:"; username := []; password := []; hostname := js "hooks.example" |}
  else if bool_decide (raw = js "http://router.lan") then
    Some {| protocol := js "http:"; username := []; password := []; hostname := js "router.lan" |}
  else None.

Lemma toy_laws : @SigningLaws toy_hmac toy_base64.
Proof.
  constructor; [intros bytes Hb; by apply from_to_base64|]. intros key message. unfold toy_hmac, hmac_sha256.
  repeat constructor; apply Z.mod_pos_bound; lia.
Qed.

Definition toy_secret : ustring := newWebhookSecret [1; 2; 3].
Definition toy_signature : ustring := @signWebhook toy_hmac toy_base64 toy_secret (js "msg_1") 1000 (js "{}").

Lemma webhook_verifies_witness :
  @verifyWebhook toy_hmac toy_base64 toy_secret (js "msg_1") 1000 (js "{}") (join [32] [js "v1,bm8="; toy_signature]) 1200 300 = true.
Proof.
  assert (Hne : [js "v1,bm8="; toy_signature] <> []) by discriminate.
  assert (Hw : Forall (fun w => ~ In 32 w) [js "v1,bm8="; toy_signature]).
  { assert (forallb (fun w => negb (existsb (Z.eqb 32) w)) [js "v1,bm8="; toy_signature] = true) as E by (vm_compute; reflexivity).
    apply Forall_forall. intros w Hw Hin. rewrite forallb_forall in E. apply list_elem_of_In, E, negb_true_iff in Hw.
    assert (existsb (Z.eqb 32) w = true) as E2 by (apply existsb_exists; exists 32; split; [exact Hin|reflexivity]). by rewrite E2 in Hw. }
  apply (proj1 (@webhook_verifies toy_hmac toy_base64 toy_laws toy_secret (js "msg_1") 1000 (js "{}") _ 1200 300 Hne Hw)).
  - by right; left.
  - lia.
Defined.

Definition toy_caller : Principal :=
  PKey (js "k1") (js "k1") (Some {| s_agents := Some [js "a"]; s_sessions := Some (js "tg:*"); s_can := None; s_participant := None |}).
Definition toy_input : WebhookInput := {| in_url := js "https://hooks.example"; in_types := [js "turn.end"]; in_agents := None |}.
Definition toy_lookup (host : ustring) : option (list ustring) := if bool_decide (host = js "hooks.example") then Some [js "93.184.216.34"] else None.
Definition toy_subscription : WebhookSubscription :=
  {| sub_id := js "wh_1"; sub_url := js "https://hooks.example"; sub_secret := toy_secret; sub_types := [js "turn.end"];
     sub_scope := {| w_agents := Some [js "a"]; w_prefix := Some (js "tg:") |}; createdAt := 5; consecutiveFailures := 0;
     sub_error := None; lastSuccessAt := None; lastFailureAt := None |}.
Definition toy_event : WebhookEvent :=
  {| e_type := js "turn.end"; e_agent := Some (js "a"); e_session := Some (js "tg:7"); e_body := js "{}" |}.

Lemma webhook_hears_within_reach_witness :
  webhookHears toy_subscription toy_event = true /\ exists agent, e_agent toy_event = Some agent /\ reachesAgent toy_caller agent = true.
Proof.
  split; [vm_compute; reflexivity|].
  assert (Hc : @createWebhook toy_url toy_caller toy_input [] EMPTY_ALLOWLIST toy_lookup (js "wh_1") [1; 2; 3] 5 = Ok toy_subscription)
    by (vm_compute; reflexivity).
  destruct (@webhook_hears_within_reach toy_url toy_caller toy_input [] EMPTY_ALLOWLIST toy_lookup (js "wh_1") [1; 2; 3] 5 _ Hc)
    as (_ & _ & Hh).
  destruct (Hh toy_event eq_refl) as (_ & _ & agent & Ha & Hr & _). by exists agent.
Defined.

(** A range with nothing after its slash is every address of its family: the operator who wrote it
    lets a webhook reach the whole private network. *)
Theorem empty_prefix_allows_all :
  parseWebhookAllowlist (Some (js "10.1.2.3/")) = Ok {| hosts := []; ranges := [{| r_bytes := [10; 1; 2; 3]; r_bits := 0 |}] |} /\
  (forall a b c d, inRange [a; b; c; d] {| r_bytes := [10; 1; 2; 3]; r_bits := 0 |} = true) /\
  @checkWebhookTarget toy_url (js "http://router.lan") {| hosts := []; ranges := [{| r_bytes := [10; 1; 2; 3]; r_bits := 0 |}] |}
    (fun _ => Some [js "192.168.1.1"]) = Ok tt /\
  @checkWebhookTarget toy_url (js "http://router.lan") EMPTY_ALLOWLIST (fun _ => Some [js "192.168.1.1"]) <> Ok tt.
Proof. split_and!; [vm_compute; reflexivity|done|vm_compute; reflexivity|vm_compute; discriminate]. Qed.
