(* ===== verification/WebhookQueue.v ===== *)
(** * Webhooks: the deliveries table and the dispatcher

    The two tables of [store/sqlite/store.ts] and [WebhookDispatcher] of [webhooks/webhooks.ts].
    Processes share the tables; each has its own copy of the subscriptions. An attempt is a task cut
    at its [await]s. Stamps that only people read are left out. *)
From S2P Require Import Prelude UString Json Principal OperatorKeys Utf8 Images Reach Webhook.
From stdpp Require Import sorting.
Local Open Scope Z_scope.

Inductive DeliveryStatus := Pending | Inflight | Sent | Failed.
#[export] Instance DeliveryStatus_eq_dec : EqDecision DeliveryStatus.
Proof. solve_decision. Defined.

(** [rowid] orders rows that are due at the same time. *)
Record WebhookDeliveryRecord := {
  rowid : Z; subscriptionId : ustring; messageId : ustring; agentId : ustring; eventType : ustring; body : ustring;
  status : DeliveryStatus; attempts : Z; uncertain : bool; nextAttemptAt : Z; lastError : option ustring }.

Definition key (r : WebhookDeliveryRecord) : ustring * ustring := (subscriptionId r, messageId r).

Record WebhookStore := { subscriptions : list WebhookSubscription; deliveries : list WebhookDeliveryRecord }.

Definition with_deliveries (l : list WebhookDeliveryRecord) (db : WebhookStore) : WebhookStore :=
  {| subscriptions := subscriptions db; deliveries := l |}.

(** ** The subscriptions *)

(** [None] where the key is taken: the statement throws. *)
Definition create (s : WebhookSubscription) (db : WebhookStore) : option WebhookStore :=
  if bool_decide (sub_id s ∈ map sub_id (subscriptions db)) then None
  else Some {| subscriptions := subscriptions db ++ [s]; deliveries := deliveries db |}.

Definition by_creation (a b : WebhookSubscription) : Prop :=
  createdAt a < createdAt b \/ (createdAt a = createdAt b /\ text_leb (sub_id a) (sub_id b) = true).
#[export] Instance by_creation_dec : RelDecision by_creation.
Proof. intros a b. unfold by_creation. apply _. Defined.

Definition list_subscriptions (db : WebhookStore) : list WebhookSubscription := merge_sort by_creation (subscriptions db).
Definition pending (id : ustring) (db : WebhookStore) : Z :=
  zlen (List.filter (fun r => bool_decide (subscriptionId r = id) && (bool_decide (status r = Pending) || bool_decide (status r = Inflight)))
    (deliveries db)).

Definition get (id : ustring) (db : WebhookStore) : option WebhookSubscription :=
  List.find (fun s => bool_decide (sub_id s = id)) (subscriptions db).
Definition secretOf (id : ustring) (db : WebhookStore) : option ustring := sub_secret <$> get id db.

(** Deliveries go with their subscription. *)
Definition delete (id : ustring) (db : WebhookStore) : bool * WebhookStore :=
  (bool_decide (id ∈ map sub_id (subscriptions db)),
   {| subscriptions := List.filter (fun s => negb (bool_decide (sub_id s = id))) (subscriptions db);
      deliveries := List.filter (fun r => negb (bool_decide (subscriptionId r = id))) (deliveries db) |}).

(** ** The deliveries *)

Definition next_rowid (l : list WebhookDeliveryRecord) : Z := 1 + fold_right Z.max 0 (map rowid l).

Record NewDelivery := { n_sub : ustring; n_msg : ustring; n_agent : ustring; n_type : ustring; n_body : ustring; n_at : Z }.

Definition new_row (d : NewDelivery) (db : WebhookStore) : WebhookDeliveryRecord :=
  {| rowid := next_rowid (deliveries db); subscriptionId := n_sub d; messageId := n_msg d; agentId := n_agent d; eventType := n_type d;
     body := n_body d; status := Pending; attempts := 0; uncertain := false; nextAttemptAt := n_at d; lastError := None |}.

(** [INSERT OR IGNORE]; [Err] where the subscription is gone, which is not ignored. *)
Definition enqueue (d : NewDelivery) (db : WebhookStore) : result unit (bool * WebhookStore) :=
  if bool_decide ((n_sub d, n_msg d) ∈ map key (deliveries db)) then Ok (false, db)
  else if bool_decide (n_sub d ∈ map sub_id (subscriptions db)) then
    Ok (true, with_deliveries (deliveries db ++ [new_row d db]) db)
  else Err tt.

Definition by_due (a b : WebhookDeliveryRecord) : Prop :=
  nextAttemptAt a < nextAttemptAt b \/ (nextAttemptAt a = nextAttemptAt b /\ rowid a <= rowid b).
#[export] Instance by_due_dec : RelDecision by_due.
Proof. intros a b. unfold by_due. apply _. Defined.

Definition due (agent : ustring) (now : Z) (limit : nat) (db : WebhookStore) : list WebhookDeliveryRecord :=
  take limit (merge_sort by_due
    (List.filter (fun r => bool_decide (agentId r = agent) && bool_decide (status r = Pending) && (nextAttemptAt r <=? now)) (deliveries db))).

Definition update (which : WebhookDeliveryRecord -> bool) (f : WebhookDeliveryRecord -> WebhookDeliveryRecord) (db : WebhookStore) : WebhookStore :=
  with_deliveries (map (fun r => if which r then f r else r) (deliveries db)) db.
Definition is_key (k : ustring * ustring) (r : WebhookDeliveryRecord) : bool := bool_decide (key r = k).

Definition with_status (s : DeliveryStatus) (next : Z) (e : option ustring) (r : WebhookDeliveryRecord) : WebhookDeliveryRecord :=
  {| rowid := rowid r; subscriptionId := subscriptionId r; messageId := messageId r; agentId := agentId r; eventType := eventType r;
     body := body r; status := s; attempts := attempts r; uncertain := uncertain r; nextAttemptAt := next; lastError := e |}.

Definition taken (r : WebhookDeliveryRecord) : WebhookDeliveryRecord :=
  {| rowid := rowid r; subscriptionId := subscriptionId r; messageId := messageId r; agentId := agentId r; eventType := eventType r;
     body := body r; status := Inflight; attempts := attempts r + 1; uncertain := uncertain r; nextAttemptAt := nextAttemptAt r;
     lastError := lastError r |}.

(** One row of the loop: [webhookClaim] changes it if it is still pending. *)
Definition claim_row (s : list WebhookDeliveryRecord * WebhookStore) (r : WebhookDeliveryRecord) : list WebhookDeliveryRecord * WebhookStore :=
  let '(claimed, db) := s in
  let which x := is_key (key r) x && bool_decide (status x = Pending) in
  if existsb which (deliveries db) then (claimed ++ [taken r], update which taken db) else (claimed, db).

Definition claim_agent (now : Z) (limit : nat) (s : list WebhookDeliveryRecord * WebhookStore) (agent : ustring)
  : list WebhookDeliveryRecord * WebhookStore :=
  if (limit <=? length s.1)%nat then s else fold_left claim_row (due agent now (limit - length s.1) s.2) s.

Definition claimDue (agents : list ustring) (now : Z) (limit : nat) (db : WebhookStore) : list WebhookDeliveryRecord * WebhookStore :=
  fold_left (claim_agent now limit) agents ([], db).

Definition on_subscription (id : ustring) (f : WebhookSubscription -> WebhookSubscription) (db : WebhookStore) : WebhookStore :=
  {| subscriptions := map (fun s => if bool_decide (sub_id s = id) then f s else s) (subscriptions db); deliveries := deliveries db |}.
Definition healthy (at_ : Z) (s : WebhookSubscription) : WebhookSubscription :=
  {| sub_id := sub_id s; sub_url := sub_url s; sub_secret := sub_secret s; sub_types := sub_types s; sub_scope := sub_scope s;
     createdAt := createdAt s; consecutiveFailures := 0; sub_error := sub_error s; lastSuccessAt := Some at_; lastFailureAt := lastFailureAt s |}.
Definition unhealthy (e : ustring) (at_ : Z) (s : WebhookSubscription) : WebhookSubscription :=
  {| sub_id := sub_id s; sub_url := sub_url s; sub_secret := sub_secret s; sub_types := sub_types s; sub_scope := sub_scope s;
     createdAt := createdAt s; consecutiveFailures := consecutiveFailures s + 1; sub_error := Some e; lastSuccessAt := lastSuccessAt s;
     lastFailureAt := Some at_ |}.

Definition markSent (k : ustring * ustring) (at_ : Z) (db : WebhookStore) : WebhookStore :=
  on_subscription k.1 (healthy at_) (update (is_key k) (fun r => with_status Sent (nextAttemptAt r) None r) db).
Definition markRetry (k : ustring * ustring) (next : Z) (e : ustring) (at_ : Z) (db : WebhookStore) : WebhookStore :=
  on_subscription k.1 (unhealthy e at_) (update (is_key k) (with_status Pending next (Some e)) db).
Definition markFailed (k : ustring * ustring) (e : ustring) (at_ : Z) (db : WebhookStore) : WebhookStore :=
  on_subscription k.1 (unhealthy e at_) (update (is_key k) (fun r => with_status Failed (nextAttemptAt r) (Some e) r) db).

Definition recovered_row (r : WebhookDeliveryRecord) : WebhookDeliveryRecord :=
  {| rowid := rowid r; subscriptionId := subscriptionId r; messageId := messageId r; agentId := agentId r; eventType := eventType r;
     body := body r; status := Pending; attempts := attempts r; uncertain := true; nextAttemptAt := nextAttemptAt r; lastError := lastError r |}.
Definition stranded (agent : ustring) (r : WebhookDeliveryRecord) : bool := bool_decide (agentId r = agent) && bool_decide (status r = Inflight).

Definition recoverInflight (agents : list ustring) (db : WebhookStore) : list WebhookDeliveryRecord * WebhookStore :=
  fold_left (fun '(out, db) agent =>
    (out ++ map recovered_row (List.filter (stranded agent) (deliveries db)), update (stranded agent) recovered_row db)) agents ([], db).

Record DeliveryBacklog := { b_pending : Z; b_inflight : Z; b_next : option Z }.
Definition soonest (l : list Z) : option Z := match l with [] => None | x :: l => Some (fold_right Z.min x l) end.
Definition backlog (agents : list ustring) (db : WebhookStore) : DeliveryBacklog :=
  let mine s := List.filter (fun r => bool_decide (agentId r ∈ agents) && bool_decide (status r = s)) (deliveries db) in
  {| b_pending := zlen (mine Pending); b_inflight := zlen (mine Inflight); b_next := soonest (map nextAttemptAt (mine Pending)) |}.

Definition delete_for_agent (agent : ustring) (db : WebhookStore) : WebhookStore :=
  with_deliveries (List.filter (fun r => negb (bool_decide (agentId r = agent))) (deliveries db)) db.

(** ** The dispatcher *)

Definition DEFAULT_BACKOFF_MS : list Z := [30000; 120000; 600000; 3600000; 21600000].
Definition BATCH : nat := 16.

(** What is posted: its target, headers and body; and, not sent, what the name of its host had just
    resolved to. *)
Record Request := {
  q_key : ustring * ustring; q_url : ustring; q_timestamp : Z; q_signature : ustring; q_body : ustring;
  q_resolved : list ustring }.

(** Claimed and not begun; its target being resolved; posted. *)
Inductive Stage := Claimed | Resolving (s : WebhookSubscription) (secret : ustring) | Posted.
Record Attempt := { of_process : nat; row : WebhookDeliveryRecord; stage : Stage }.

(** What [fetch] came to: a status, and whether what follows in the same [try] went through, discarding
    the rest of the response and, of a success, marking the row; or it threw. *)
Inductive Response := Responded (code : Z) (followed : bool) (why : ustring) | Threw (why : ustring).

(** The tables, each process's copy of the subscriptions, the attempts under way, and what happened:
    the subscriptions made, the events a process heard of, the requests made, the deliveries a
    receiver answered with a 2xx - [accepted] where the row was marked, [unmarked] where what follows
    the answer failed - and those a start gave back. *)
Record World := {
  db : WebhookStore; copies : list (nat * list WebhookSubscription); running : list Attempt; clock : Z;
  created : list WebhookSubscription; happened : list WebhookEvent; posted : list Request;
  accepted : list (ustring * ustring); unmarked : list (ustring * ustring); recovered : list (ustring * ustring) }.


Section Dispatcher.
Context `{Hmac} `{FromBase64} `{Digest} `{UrlParser} (backoff : list Z) (allow : WebhookAllowlist).

Definition delay_for (attempt : Z) : Z :=
  match backoff !! Z.to_nat (Z.max 0 (attempt - 1)) with Some d => d | None => default 0 (last backoff) end.

(** [#retryOrFail]. *)
Definition retryOrFail (r : WebhookDeliveryRecord) (failure : ustring) (permanent : bool) (now : Z) (db : WebhookStore) : WebhookStore :=
  if permanent || (zlen backoff <? attempts r) then markFailed (key r) failure now db
  else markRetry (key r) (now + delay_for (attempts r)) failure now db.

Definition delivery_of (s : WebhookSubscription) (agent : ustring) (now : Z) (e : WebhookEvent) : NewDelivery :=
  {| n_sub := sub_id s; n_msg := webhookMessageId (sub_id s) (e_body e); n_agent := agent; n_type := e_type e; n_body := e_body e; n_at := now |}.

(** [#enqueue]; an insertion that throws is a warning. *)
Definition enqueue_event (cache : list WebhookSubscription) (now : Z) (e : WebhookEvent) (db : WebhookStore) : WebhookStore :=
  match e_agent e with
  | None => db
  | Some agent =>
      if negb (webhookDeliverable (e_type e)) then db
      else fold_left (fun db s =>
        if webhookHears s e then match enqueue (delivery_of s agent now e) db with Ok (_, db') => db' | Err _ => db end else db) cache db
  end.

(** [#attempt], up to the lookup: [None] is the end of it. *)
Definition begin_attempt (cache : list WebhookSubscription) (r : WebhookDeliveryRecord) (now : Z) (db : WebhookStore) : WebhookStore * option Stage :=
  match List.find (fun s => bool_decide (sub_id s = subscriptionId r)) cache, secretOf (subscriptionId r) db with
  | Some s, Some secret => (db, Some (Resolving s secret))
  | _, _ => (markFailed (key r) (js "subscription deleted") now db, None)
  end.

Definition request_of (r : WebhookDeliveryRecord) (s : WebhookSubscription) (secret : ustring) (now : Z) (resolved : list ustring) : Request :=
  {| q_key := key r; q_url := sub_url s; q_timestamp := now / 1000;
     q_signature := signWebhook secret (messageId r) (now / 1000) (body r); q_body := body r; q_resolved := resolved |}.
Definition resolved_to (raw : ustring) (lookup : ustring -> option (list ustring)) : list ustring :=
  match new_url raw with Some url => default [] (lookup (bare_host (hostname url))) | None => [] end.

(** The lookup came back: the request that is made, or the end. *)
Definition check_attempt (r : WebhookDeliveryRecord) (s : WebhookSubscription) (secret : ustring) (lookup : ustring -> option (list ustring))
  (why : ustring) (now : Z) (db : WebhookStore) : WebhookStore * option Request :=
  match checkWebhookTarget (sub_url s) allow lookup with
  | Ok _ => (db, Some (request_of r s secret now (resolved_to (sub_url s) lookup)))
  | Err (TargetUnresolved _) => (retryOrFail r why false now db, None)
  | Err _ => (markFailed (key r) why now db, None)
  end.

Definition success (code : Z) : bool := (200 <=? code) && (code <? 300).
Definition permanent (code : Z) : bool := (code =? 410) || ((300 <=? code) && (code <? 400)).

Definition answer_attempt (r : WebhookDeliveryRecord) (x : Response) (now : Z) (db : WebhookStore) : WebhookStore :=
  match x with
  | Responded code true _ =>
      if success code then markSent (key r) now db
      else retryOrFail r (js "HTTP " ++ decimal code) (permanent code) now db
  | Responded _ false why | Threw why => retryOrFail r why false now db
  end.

Definition cache_of (p : nat) (w : World) : list WebhookSubscription :=
  default [] (snd <$> List.find (fun x => (x.1 =? p)%nat) (copies w)).
Definition set_copy (p : nat) (l : list WebhookSubscription) (c : list (nat * list WebhookSubscription)) : list (nat * list WebhookSubscription) :=
  (p, l) :: List.filter (fun x => negb (x.1 =? p)%nat) c.

(** With the tables and the attempts changed, and what happened added to. *)
Definition become (d : WebhookStore) (tasks : list Attempt) (q : list Request) (a rec : list (ustring * ustring)) (w : World) : World :=
  {| db := d; copies := copies w; running := tasks; clock := clock w; created := created w; happened := happened w; posted := posted w ++ q;
     accepted := accepted w ++ a; unmarked := unmarked w; recovered := recovered w ++ rec |}.

Definition with_copies (c : list (nat * list WebhookSubscription)) (w : World) : World :=
  {| db := db w; copies := c; running := running w; clock := clock w; created := created w; happened := happened w; posted := posted w; accepted := accepted w;
     unmarked := unmarked w; recovered := recovered w |}.
Definition with_clock (t : Z) (w : World) : World :=
  {| db := db w; copies := copies w; running := running w; clock := t; created := created w; happened := happened w; posted := posted w; accepted := accepted w;
     unmarked := unmarked w; recovered := recovered w |}.
Definition with_created (s : WebhookSubscription) (d : WebhookStore) (w : World) : World :=
  {| db := d; copies := copies w; running := running w; clock := clock w; created := created w ++ [s]; happened := happened w;
     posted := posted w; accepted := accepted w; unmarked := unmarked w; recovered := recovered w |}.
Definition note_event (e : WebhookEvent) (w : World) : World :=
  {| db := db w; copies := copies w; running := running w; clock := clock w; created := created w; happened := happened w ++ [e];
     posted := posted w; accepted := accepted w; unmarked := unmarked w; recovered := recovered w |}.
Definition note_unmarked (l : list (ustring * ustring)) (w : World) : World :=
  {| db := db w; copies := copies w; running := running w; clock := clock w; created := created w; happened := happened w;
     posted := posted w; accepted := accepted w; unmarked := unmarked w ++ l; recovered := recovered w |}.

(** What an answer says of the delivery: a 2xx whose row is marked, and one whose is not. *)
Definition marked_by (k : ustring * ustring) (x : Response) : list (ustring * ustring) :=
  match x with Responded code true _ => if success code then [k] else [] | _ => [] end.
Definition unmarked_by (k : ustring * ustring) (x : Response) : list (ustring * ustring) :=
  match x with Responded code false _ => if success code then [k] else [] | _ => [] end.

Definition claimed_by (p : nat) (r : WebhookDeliveryRecord) : Attempt := {| of_process := p; row := r; stage := Claimed |}.

(** Nothing is assumed of the clock or of which process sends for which agent; an id is random. *)
Inductive step (w : World) : World -> Prop :=
| step_subscribe s d : sub_id s ∉ map sub_id (created w) -> create s (db w) = Some d -> step w (with_created s d w)
| step_delete id : step w (become (delete id (db w)).2 (running w) [] [] [] w)
| step_reload p : step w (with_copies (set_copy p (list_subscriptions (db w)) (copies w)) w)
| step_event p e : step w (note_event e (become (enqueue_event (cache_of p w) (clock w) e (db w)) (running w) [] [] [] w))
| step_start agents out d : recoverInflight agents (db w) = (out, d) -> step w (become d (running w) [] [] (map key out) w)
| step_drain p agents rows d : claimDue agents (clock w) BATCH (db w) = (rows, d) -> step w (become d (running w ++ map (claimed_by p) rows) [] [] [] w)
| step_begin l1 t l2 d next : running w = l1 ++ t :: l2 -> stage t = Claimed ->
    begin_attempt (cache_of (of_process t) w) (row t) (clock w) (db w) = (d, next) ->
    step w (become d (l1 ++ match next with Some s => [{| of_process := of_process t; row := row t; stage := s |}] | None => [] end ++ l2) [] [] [] w)
| step_resolve l1 t l2 s secret lookup why d q : running w = l1 ++ t :: l2 -> stage t = Resolving s secret ->
    check_attempt (row t) s secret lookup why (clock w) (db w) = (d, q) ->
    step w (become d (l1 ++ match q with Some _ => [{| of_process := of_process t; row := row t; stage := Posted |}] | None => [] end ++ l2)
      match q with Some x => [x] | None => [] end [] [] w)
| step_answer l1 t l2 x : running w = l1 ++ t :: l2 -> stage t = Posted ->
    step w (note_unmarked (unmarked_by (key (row t)) x)
      (become (answer_attempt (row t) x (clock w) (db w)) (l1 ++ l2) [] (marked_by (key (row t)) x) [] w))
| step_crash p : step w (become (db w) (List.filter (fun t => negb (of_process t =? p)%nat) (running w)) [] [] [] w)
| step_clock t : step w (with_clock t w).
End Dispatcher.

Definition initial (t : Z) : World :=
  {| db := {| subscriptions := []; deliveries := [] |}; copies := []; running := []; clock := t; created := []; happened := []; posted := [];
     accepted := []; unmarked := []; recovered := [] |}.

(** ** How often a delivery is made *)



Abbreviation Key := (ustring * ustring)%type.

Section Counting.
Context (n : Z).





(** *** Rows *)











(** *** What the dispatcher does *)





Lemma due_pending agent now limit d r : r ∈ due agent now limit d -> r ∈ deliveries d /\ status r = Pending.
Proof.
  unfold due. intros Hr%elem_of_take. destruct Hr as (i & Hr & _). apply list_elem_of_lookup_2 in Hr. rewrite merge_sort_Permutation in Hr.
  apply list_elem_of_In, filter_In in Hr as [Hr Hb]. split; [by apply list_elem_of_In|].
  apply andb_true_iff in Hb as [[_ Hb]%andb_true_iff _]. by apply bool_decide_eq_true in Hb.
Qed.




(** *** Attempts *)





(** *** The rest *)




End Counting.

(** ** Every run *)

Section Runs.
Context `{Hmac} `{FromBase64} `{Digest} `{UrlParser} (backoff : list Z) (allow : WebhookAllowlist).
Local Abbreviation limit := (zlen backoff).








(** ** What is posted, and where *)

(** A copy of a subscription as it was created, apart from how it has been doing. *)
Definition same_sub (s c : WebhookSubscription) : Prop :=
  sub_id s = sub_id c /\ sub_url s = sub_url c /\ sub_secret s = sub_secret c /\ sub_types s = sub_types c /\ sub_scope s = sub_scope c.

Definition known (made : list WebhookSubscription) (s : WebhookSubscription) : Prop := exists c, c ∈ made /\ same_sub s c.

(** A delivery of an event to a subscription that hears it. *)
Definition heard (made : list WebhookSubscription) (news : list WebhookEvent) (r : WebhookDeliveryRecord) : Prop :=
  exists c e, c ∈ made /\ e ∈ news /\ sub_id c = subscriptionId r /\ webhookHears c e = true /\ webhookDeliverable (e_type e) = true /\
    e_agent e = Some (agentId r) /\ e_body e = body r /\ messageId r = webhookMessageId (sub_id c) (e_body e).

Definition sound_request (made : list WebhookSubscription) (news : list WebhookEvent) (q : Request) : Prop :=
  exists c e url, c ∈ made /\ e ∈ news /\ webhookHears c e = true /\ webhookDeliverable (e_type e) = true /\ q_body q = e_body e /\
    q_key q = (sub_id c, webhookMessageId (sub_id c) (e_body e)) /\ q_url q = sub_url c /\
    (new_url (q_url q) = Some url /\ (protocol url = js "https:" \/ protocol url = js "http:") /\ username url = [] /\ password url = [] /\
     q_resolved q <> [] /\ Forall (sendable_to allow (bare_host (hostname url))) (q_resolved q)) /\
    q_signature q = signWebhook (sub_secret c) (webhookMessageId (sub_id c) (e_body e)) (q_timestamp q) (q_body q).

Definition aimed (made : list WebhookSubscription) (news : list WebhookEvent) (t : Attempt) : Prop :=
  heard made news (row t) /\ forall s secret, stage t = Resolving s secret ->
    exists c, c ∈ made /\ same_sub s c /\ sub_id c = subscriptionId (row t) /\ sub_secret c = secret.

Record traced (w : World) : Prop := {
  t_ids : NoDup (map sub_id (created w));
  t_subs : forall s, s ∈ subscriptions (db w) -> known (created w) s;
  t_copies : forall p l s, (p, l) ∈ copies w -> s ∈ l -> known (created w) s;
  t_rows : forall r, r ∈ deliveries (db w) -> heard (created w) (happened w) r;
  t_tasks : forall t, t ∈ running w -> aimed (created w) (happened w) t;
  t_posted : forall q, q ∈ posted w -> sound_request (created w) (happened w) q }.

(** Changing a row's state is not changing what it delivers. *)
Definition carries (f : WebhookDeliveryRecord -> WebhookDeliveryRecord) : Prop :=
  forall r, subscriptionId (f r) = subscriptionId r /\ messageId (f r) = messageId r /\ agentId (f r) = agentId r /\ body (f r) = body r.

Lemma heard_carries made news f r : carries f -> heard made news r -> heard made news (f r).
Proof. intros Hf (c & e & Hh). destruct (Hf r) as (E1 & E2 & E3 & E4). exists c, e. by rewrite E1, E2, E3, E4. Qed.

Lemma heard_update made news which f d : carries f -> (forall r, r ∈ deliveries d -> heard made news r) ->
  forall r, r ∈ deliveries (update which f d) -> heard made news r.
Proof. intros Hf Hd r (x & -> & Hx)%list_elem_of_fmap. destruct (which x); [apply heard_carries|]; auto. Qed.

Lemma known_subscription made i f d : (forall s, same_sub (f s) s) -> (forall s, s ∈ subscriptions d -> known made s) ->
  forall s, s ∈ subscriptions (on_subscription i f d) -> known made s.
Proof.
  intros Hf Hd s (x & -> & Hx)%list_elem_of_fmap. destruct (Hd x Hx) as (c & Hc & Hs). exists c. split; [done|].
  destruct (bool_decide _); [|done]. destruct (Hf x) as (E1 & E2 & E3 & E4 & E5), Hs as (F1 & F2 & F3 & F4 & F5). repeat split; congruence.
Qed.

(** The tables as an attempt leaves them. *)
Definition tables_ok (made : list WebhookSubscription) (news : list WebhookEvent) (d : WebhookStore) : Prop :=
  (forall s, s ∈ subscriptions d -> known made s) /\ (forall r, r ∈ deliveries d -> heard made news r).

Lemma tables_marked made news k f which g d : tables_ok made news d -> carries f -> (forall s, same_sub (g s) s) ->
  tables_ok made news (on_subscription k g (update which f d)).
Proof. intros [Hs Hr] Hf Hg. split; [by apply known_subscription|]. by apply heard_update. Qed.

Lemma tables_sent made news k now d : tables_ok made news d -> tables_ok made news (markSent k now d).
Proof. intros Hd. by apply tables_marked. Qed.
Lemma tables_failed made news k e now d : tables_ok made news d -> tables_ok made news (markFailed k e now d).
Proof. intros Hd. by apply tables_marked. Qed.
Lemma tables_retry made news r e p now d : tables_ok made news d -> tables_ok made news (retryOrFail backoff r e p now d).
Proof. intros Hd. unfold retryOrFail. destruct (_ || _); by apply tables_marked. Qed.

Lemma tables_claims made news l : forall out d, tables_ok made news d -> (forall r, r ∈ out -> heard made news r) -> (forall r, r ∈ l -> heard made news r) ->
  let '(out', d') := fold_left claim_row l (out, d) in tables_ok made news d' /\ forall r, r ∈ out' -> heard made news r.
Proof.
  induction l as [|x l IH]; intros out d Hd Ho Hl; [done|]. cbn [fold_left]. unfold claim_row at 2.
  destruct (existsb _ _); [|apply IH; [done|done|intros; apply Hl; by right]]. apply IH.
  - destruct Hd as [Hs Hr]. split; [done|]. by apply heard_update.
  - intros r [Hr| ->%list_elem_of_singleton]%elem_of_app; [by apply Ho|]. apply (heard_carries made news taken); [done|]. apply Hl. by left.
  - intros r Hr. apply Hl. by right.
Qed.

Lemma tables_claimDue made news agents now l d : tables_ok made news d ->
  let '(out, d') := claimDue agents now l d in tables_ok made news d' /\ forall r, r ∈ out -> heard made news r.
Proof.
  intros Hd. unfold claimDue. assert (tables_ok made news (([] : list WebhookDeliveryRecord), d).2 /\ forall r, r ∈ (([] : list WebhookDeliveryRecord), d).1 -> heard made news r) as Hs.
  { split; [done|]. intros r Hr. by apply not_elem_of_nil in Hr. }
  revert Hs. generalize (([] : list WebhookDeliveryRecord), d) as s. clear Hd d. induction agents as [|a agents IH]; intros [out d] [Hd Ho]; [done|].
  cbn [fold_left]. apply IH. unfold claim_agent. destruct (_ <=? _)%nat; [done|].
  pose proof (tables_claims made news (due a now (l - length (out, d).1) (out, d).2) out d Hd Ho) as Hc. destruct (fold_left _ _ _).
  apply Hc. intros r [Hr _]%due_pending. by apply Hd.
Qed.

Lemma tables_recover made news agents : forall out d, tables_ok made news d ->
  tables_ok made news (fold_left (fun '(out, db) agent =>
    (out ++ map recovered_row (List.filter (stranded agent) (deliveries db)), update (stranded agent) recovered_row db)) agents (out, d)).2.
Proof.
  induction agents as [|a agents IH]; intros out d Hd; [done|]. cbn [fold_left]. apply IH. destruct Hd as [Hs Hr]. split; [done|]. by apply heard_update.
Qed.

Lemma tables_event made news cache now e d : e ∈ news -> tables_ok made news d -> (forall s, s ∈ cache -> known made s) -> tables_ok made news (enqueue_event cache now e d).
Proof.
  intros He Hd Hc. unfold enqueue_event. destruct (e_agent e) as [agent|] eqn:Ea; [|done]. destruct (webhookDeliverable (e_type e)) eqn:Ed; [|done]. cbn [negb].
  revert d Hd. induction cache as [|s cache IH]; intros d Hd; [done|]. cbn [fold_left]. apply IH; [intros; apply Hc; by right|].
  destruct (webhookHears s e) eqn:Eh; [|done]. unfold enqueue. case_bool_decide; [done|]. case_bool_decide; [|done].
  destruct Hd as [Hs Hr]. split; [done|]. cbn [with_deliveries deliveries]. intros r [Hin| ->%list_elem_of_singleton]%elem_of_app; [by apply Hr|].
  destruct (Hc s ltac:(by left)) as (c & Hin & E1 & E2 & E3 & E4 & E5). exists c, e. cbn. rewrite E1. split_and!; try done.
  unfold webhookHears in *. by rewrite <- E4, <- E5.
Qed.

Lemma same_id (l : list WebhookSubscription) a b : NoDup (map sub_id l) -> a ∈ l -> b ∈ l -> sub_id a = sub_id b -> a = b.
Proof.
  induction l as [|x l IH]; [intros _ Ha; by apply not_elem_of_nil in Ha|]. cbn [map]. rewrite NoDup_cons. intros [Hx Hn].
  rewrite !elem_of_cons. intros [->|Ha] [->|Hb] E; [done| | |by apply IH].
  - exfalso. apply Hx. rewrite E. by apply (list_elem_of_fmap_2 sub_id).
  - exfalso. apply Hx. rewrite <- E. by apply (list_elem_of_fmap_2 sub_id).
Qed.

Lemma known_more made s x : known made s -> known (made ++ [x]) s.
Proof. intros (c & Hc & Hs). exists c. split; [by apply elem_of_app; left|done]. Qed.

Lemma cache_known w p s : traced w -> s ∈ cache_of p w -> known (created w) s.
Proof.
  intros Ht. unfold cache_of. destruct (List.find _ _) as [[p' l]|] eqn:E; [|intros Hs; by apply not_elem_of_nil in Hs].
  cbn. apply find_some in E as [E _]. eapply (t_copies _ Ht). by apply list_elem_of_In.
Qed.

(** An operation that only touches the tables and the attempts. *)
Lemma traced_become w d tasks q a rec : traced w -> tables_ok (created w) (happened w) d -> (forall t, t ∈ tasks -> aimed (created w) (happened w) t) ->
  (forall x, x ∈ q -> sound_request (created w) (happened w) x) -> traced (become d tasks q a rec w).
Proof.
  intros [T1 T2 T3 T4 T5 T6] [Hs Hr] Ht Hq. split; cbn [become db copies running created happened posted]; try done.
  intros x [Hx|Hx]%elem_of_app; [by apply T6|by apply Hq].
Qed.

Lemma traced_tables w : traced w -> tables_ok (created w) (happened w) (db w).
Proof. by intros []. Qed.

Lemma traced_create w s d : traced w -> create s (db w) = Some d -> sub_id s ∉ map sub_id (created w) -> traced (with_created s d w).
Proof.
  intros [T1 T2 T3 T4 T5 T6] Hc Hn. unfold create in Hc. case_bool_decide; [done|]. injection Hc as <-.
  assert (forall r, heard (created w) (happened w) r -> heard (created w ++ [s]) (happened w) r) as Hh.
  { intros r (c & e & Hin & Hrest). exists c, e. split; [by apply elem_of_app; left|done]. }
  split; cbn [with_created db copies running created happened posted subscriptions deliveries].
  - rewrite map_app. apply NoDup_app. split; [done|]. split; [|apply NoDup_singleton]. by intros i Hi ->%list_elem_of_singleton.
  - intros x [Hx| ->%list_elem_of_singleton]%elem_of_app; [by apply known_more, T2|]. exists s. split; [apply elem_of_app; right; by left|done].
  - intros p l x Hp Hx. by eapply known_more, T3.
  - intros r Hr. by apply Hh, T4.
  - intros t Ht. destruct (T5 t Ht) as [H1' H2']. split; [by apply Hh|]. intros s' secret Es. destruct (H2' s' secret Es) as (c & Hin & Hrest).
    exists c. split; [by apply elem_of_app; left|done].
  - intros q Hq. destruct (T6 q Hq) as (c & e & url & Hin & Hrest). exists c, e, url. split; [by apply elem_of_app; left|done].
Qed.

(** More may have happened than a row, an attempt or a request goes back to. *)
Lemma heard_more made news l r : heard made news r -> heard made (news ++ l) r.
Proof. intros (c & e & Hc & He & Hrest). exists c, e. split; [done|]. split; [apply elem_of_app; by left|done]. Qed.

Lemma traced_more w l : traced w ->
  (forall s, s ∈ subscriptions (db w) -> known (created w) s) /\
  (forall r, r ∈ deliveries (db w) -> heard (created w) (happened w ++ l) r) /\
  (forall t, t ∈ running w -> aimed (created w) (happened w ++ l) t) /\
  (forall q, q ∈ posted w -> sound_request (created w) (happened w ++ l) q).
Proof.
  intros [T1 T2 T3 T4 T5 T6]. split_and!; [done|intros r Hr; by apply heard_more, T4| |].
  - intros t Ht. destruct (T5 t Ht) as [H1' H2']. split; [by apply heard_more|done].
  - intros q Hq. destruct (T6 q Hq) as (c & e & url & Hc & He & Hrest). exists c, e, url. split; [done|]. split; [apply elem_of_app; by left|done].
Qed.

Lemma traced_event w p e : traced w -> (forall s, s ∈ cache_of p w -> known (created w) s) ->
  traced (note_event e (become (enqueue_event (cache_of p w) (clock w) e (db w)) (running w) [] [] [] w)).
Proof.
  intros Ht Hc. destruct (traced_more w [e] Ht) as (M1 & M2 & M3 & M4). pose proof (t_ids w Ht). pose proof (t_copies w Ht).
  destruct (tables_event (created w) (happened w ++ [e]) (cache_of p w) (clock w) e (db w)) as [E1 E2]; [apply elem_of_app; right; by left|by split|done|].
  split; cbn [note_event become db copies running created happened posted]; try done. by rewrite app_nil_r.
Qed.

Lemma traced_unmarked w l : traced w -> traced (note_unmarked l w).
Proof. by intros []. Qed.

Lemma traced_step w w' : step backoff allow w w' -> traced w -> traced w'.
Proof.
  intros Hs Ht. pose proof (traced_tables w Ht) as Hd. pose proof (t_tasks w Ht) as Htk.
  assert (forall x : Request, x ∈ [] -> sound_request (created w) (happened w) x) as Hnil by (intros x Hx; by apply not_elem_of_nil in Hx).
  assert (forall l1 t l2, running w = l1 ++ t :: l2 -> aimed (created w) (happened w) t /\ forall u, u ∈ l1 ++ l2 -> aimed (created w) (happened w) u) as Hsplit.
  { intros l1 t l2 E. rewrite E in Htk. split; [apply Htk, elem_of_app; right; by left|]. intros u Hu. apply Htk. rewrite elem_of_app, elem_of_cons. apply elem_of_app in Hu. tauto. }
  destruct Hs as [s d Hn Hc|id|p|p e|agents out d E|p agents rows d E|l1 t l2 d next Et Ec E|l1 t l2 s secret lookup why d q Et Ec E|l1 t l2 x Et Ec|p|t].
  - by apply traced_create.
  - apply traced_become; [done| |done|done]. destruct Hd as [H1' H2']. split; cbn [delete snd subscriptions deliveries];
      intros x Hx%list_elem_of_In; apply filter_In in Hx as [Hx _]; [apply H1'|apply H2']; by apply list_elem_of_In.
  - destruct Ht as [T1 T2 T3 T4 T5 T6]. split; cbn [with_copies db copies running created happened posted]; try done.
    intros p' l s [[= -> ->]|Hp]%elem_of_cons Hin; [apply T2; unfold list_subscriptions in Hin; by rewrite merge_sort_Permutation in Hin|].
    apply list_elem_of_In, filter_In in Hp as [Hp _]. eapply T3; [|done]. by apply list_elem_of_In.
  - apply traced_event; [done|]. intros s. by apply cache_known.
  - apply traced_become; [done| |done|done]. pose proof (tables_recover (created w) (happened w) agents [] (db w) Hd) as Hr.
    unfold recoverInflight in E. by rewrite E in Hr.
  - pose proof (tables_claimDue (created w) (happened w) agents (clock w) BATCH (db w) Hd) as Hr. rewrite E in Hr. destruct Hr as [Hd' Hout].
    apply traced_become; [done|done| |done]. intros t [Hin|Hin]%elem_of_app; [by apply Htk|]. apply list_elem_of_fmap in Hin as (r & -> & Hr).
    split; [by apply Hout|]. done.
  - destruct (Hsplit _ _ _ Et) as [[Hrow _] Hrest]. unfold begin_attempt in E.
    destruct (List.find _ _) as [s|] eqn:Ef; [destruct (secretOf _ _) as [secret|] eqn:Eg|]; injection E as <- <-; (apply traced_become; [done|..|done]);
      try done; try (by apply tables_failed).
    + intros u [Hu|[->|Hu]%elem_of_cons]%elem_of_app; [apply Hrest, elem_of_app; by left| |apply Hrest, elem_of_app; by right].
      split; [done|]. intros s' secret' [= <- <-]. apply find_some in Ef as [Ef Ei]. apply bool_decide_eq_true in Ei.
      destruct (cache_known w (of_process t) s Ht ltac:(by apply list_elem_of_In)) as (c & Hc & Hsame). exists c. split; [done|]. split; [done|].
      unfold secretOf, get in Eg. destruct (List.find (fun x => bool_decide (sub_id x = _)) (subscriptions (db w))) as [s0|] eqn:E0; [|done]. injection Eg as <-.
      apply find_some in E0 as [E0 Ei0]. apply bool_decide_eq_true in Ei0. destruct (t_subs w Ht s0 ltac:(by apply list_elem_of_In)) as (c0 & Hc0 & Hsame0).
      destruct Hsame as (S1 & _), Hsame0 as (Z1 & _ & Z3 & _).
      assert (c = c0) as -> by (apply (same_id (created w)); [by apply t_ids|done|done|]; by rewrite <- S1, <- Z1, Ei, Ei0).
      split; [change (sub_id c0 = subscriptionId (row t)); by rewrite <- Z1|by rewrite <- Z3].
  - destruct (Hsplit _ _ _ Et) as [[Hrow Hstage] Hrest]. destruct (Hstage s secret Ec) as (c & Hc & (S1 & S2 & S3 & S4 & S5) & Hid & Hsec). unfold check_attempt in E.
    destruct (checkWebhookTarget (sub_url s) allow lookup) as [[]|[]] eqn:Ek; injection E as <- <-; (apply traced_become; [done|..]); try done;
      try (by apply tables_failed); try (by apply tables_retry).
    + intros u [Hu|[->|Hu]%elem_of_cons]%elem_of_app; [apply Hrest, elem_of_app; by left|by split|apply Hrest, elem_of_app; by right].
    + intros x ->%list_elem_of_singleton. destruct Hrow as (c' & e & Hc' & He & Hi & Hh & Hdel & Ha & Hb & Hm).
      assert (c' = c) as -> by (apply (same_id (created w)); [by apply t_ids|done|done|]; by rewrite Hi, Hid). apply checkWebhookTarget_ok in Ek as (url & a & l & U1 & U2 & U3 & U4 & U5 & U6). exists c, e, url. unfold request_of, key, resolved_to.
      cbn [q_body q_key q_url q_signature q_timestamp q_resolved]. rewrite U1, U5, <- Hm, Hid, <- Hb, Hsec. cbn [default from_option id]. by split_and!.
  - destruct (Hsplit _ _ _ Et) as [_ Hrest]. apply traced_unmarked, traced_become; [done| |done|done]. unfold answer_attempt.
    destruct x as [code [] why|why]; [destruct (success code)|..]; try (by apply tables_sent); by apply tables_retry.
  - apply traced_become; [done|done| |done]. intros t Hin%list_elem_of_In. apply filter_In in Hin as [Hin _]. by apply Htk, list_elem_of_In.
  - by destruct Ht.
Qed.

Lemma traced_initial t : traced (initial t).
Proof. split; cbn; try (intros ? Hx; by apply not_elem_of_nil in Hx); [apply NoDup_nil_2|]. intros p l s Hp. by apply not_elem_of_nil in Hp. Qed.

(** ** The properties *)

Lemma run_traced t w : rtc (step backoff allow) (initial t) w -> traced w.
Proof.
  intros Hr. assert (traced (initial t)) as H0' by apply traced_initial. induction Hr as [|x y z Hs _ IH]; [done|]. apply IH. by eapply traced_step.
Qed.



Lemma base64_no_space bytes : ~ In 32 (to_base64 bytes).
Proof.
  assert (forall n, symbol n <> 32) as Hs.
  { intros n E. assert (forallb (fun c => negb (c =? 32)) (ALPHABET64 ++ [0]) = true) as Hall by (vm_compute; reflexivity). rewrite forallb_forall in Hall.
    unfold symbol in E. destruct (nth_in_or_default (Z.to_nat n) ALPHABET64 0) as [Hin|Hd]; [|by rewrite Hd in E].
    rewrite E in Hin. specialize (Hall 32 ltac:(apply in_or_app; by left)). done. }
  induction bytes as [bytes IH] using strong_length. destruct bytes as [|a [|b [|c rest]]]; cbn [to_base64 In].
  - tauto.
  - intros [E|[E|[E|[E|[]]]]]; try done; by apply Hs in E.
  - intros [E|[E|[E|[E|[]]]]]; try done; by apply Hs in E.
  - intros [E|[E|[E|[E|E]]]]; try (by apply Hs in E). by apply IH in E; [|cbn; lia].
Qed.

(** C12. Whatever a dispatcher posts, it may, and the receiver can tell. Every request that was ever
    made went to the address of a subscription that was created: an http or https URL without
    credentials, whose host had just resolved, and only to addresses that are public, or on the
    operator's list and of no kind that nothing lets through. It carries the body of an event that did
    happen and that the subscription hears, types and reach included, under the id derived from the
    two; and a receiver that holds the subscription's secret and reads it in time accepts its
    signature. (HMAC's digests are bytes and base64 gives back what it was given.) *)
Theorem webhook_posts_sound `{!SigningLaws} t w q (Hr : rtc (step backoff allow) (initial t) w) (Hq : q ∈ posted w) :
  exists c e url, c ∈ created w /\ e ∈ happened w /\ webhookHears c e = true /\ webhookDeliverable (e_type e) = true /\
    q_url q = sub_url c /\
    (new_url (q_url q) = Some url /\ (protocol url = js "https:" \/ protocol url = js "http:") /\ username url = [] /\ password url = [] /\
     q_resolved q <> [] /\ Forall (sendable_to allow (bare_host (hostname url))) (q_resolved q)) /\
    q_body q = e_body e /\ q_key q = (sub_id c, webhookMessageId (sub_id c) (e_body e)) /\
    forall now tol, Z.abs (now - q_timestamp q) <= tol ->
      verifyWebhook (sub_secret c) (q_key q).2 (q_timestamp q) (q_body q) (q_signature q) now tol = true.
Proof.
  destruct (t_posted _ (run_traced t w Hr) q Hq) as (c & e & url & G1 & Ge & G2 & G3 & G4 & G5 & G6 & G7 & G8). exists c, e, url.
  split; [done|]. split; [done|]. split; [done|]. split; [done|]. split; [done|]. split; [done|]. split; [done|]. split; [done|]. intros now tol Ht. rewrite G8, G5. cbn [snd]. change (signWebhook ?s ?i ?u ?b) with (UString.join [32] [signWebhook s i u b]).
  apply verify_spec; [done| |].
  - apply Forall_cons. split; [|constructor]. unfold signWebhook. rewrite in_app_iff. intros [Hin|Hin]; [|by apply base64_no_space in Hin].
    by repeat (destruct Hin as [Hin|Hin]; [discriminate|]).
  - split; [done|]. eexists. split; [by left|]. apply base64_back, hmac_bytes.
Qed.
End Runs.

(** ** Runs *)

Inductive Action :=
| Subscribe (s : WebhookSubscription) | Reload (p : nat) | Happen (p : nat) (e : WebhookEvent) | Start (agents : list ustring)
| Drain (p : nat) (agents : list ustring) | Begin | Resolve (lookup : ustring -> option (list ustring)) (why : ustring)
| Answer (x : Response) | Crash (p : nat) | Tick (t : Z).

Section Acting.
Context `{Hmac} `{FromBase64} `{Digest} `{UrlParser} (backoff : list Z) (allow : WebhookAllowlist).

(** An attempt's action is on the first of the list. *)
Definition perform (x : Action) (w : World) : option World :=
  match x with
  | Subscribe s =>
      if bool_decide (sub_id s ∈ map sub_id (created w)) then None else (fun d => with_created s d w) <$> create s (db w)
  | Reload p => Some (with_copies (set_copy p (list_subscriptions (db w)) (copies w)) w)
  | Happen p e => Some (note_event e (become (enqueue_event (cache_of p w) (clock w) e (db w)) (running w) [] [] [] w))
  | Start agents => let '(out, d) := recoverInflight agents (db w) in Some (become d (running w) [] [] (map key out) w)
  | Drain p agents =>
      let '(rows, d) := claimDue agents (clock w) BATCH (db w) in Some (become d (running w ++ map (claimed_by p) rows) [] [] [] w)
  | Begin =>
      match running w with
      | {| of_process := p; row := r; stage := Claimed |} :: rest =>
          let '(d, next) := begin_attempt (cache_of p w) r (clock w) (db w) in
          Some (become d (match next with Some s => [{| of_process := p; row := r; stage := s |}] | None => [] end ++ rest) [] [] [] w)
      | _ => None
      end
  | Resolve lookup why =>
      match running w with
      | {| of_process := p; row := r; stage := Resolving s secret |} :: rest =>
          let '(d, q) := check_attempt backoff allow r s secret lookup why (clock w) (db w) in
          Some (become d (match q with Some _ => [{| of_process := p; row := r; stage := Posted |}] | None => [] end ++ rest)
            match q with Some x => [x] | None => [] end [] [] w)
      | _ => None
      end
  | Answer x =>
      match running w with
      | {| of_process := p; row := r; stage := Posted |} :: rest =>
          Some (note_unmarked (unmarked_by (key r) x)
            (become (answer_attempt backoff r x (clock w) (db w)) rest [] (marked_by (key r) x) [] w))
      | _ => None
      end
  | Crash p => Some (become (db w) (List.filter (fun t => negb (of_process t =? p)%nat) (running w)) [] [] [] w)
  | Tick t => Some (with_clock t w)
  end.

Lemma perform_hook x w w' : perform x w = Some w' -> step backoff allow w w'.
Proof.
  destruct x as [s|p|p e|agents|p agents| |lookup why|x|p|t]; cbn [perform].
  - case_bool_decide; [done|]. destruct (create s (db w)) as [d|] eqn:E; [|done]. intros [= <-]. by apply step_subscribe.
  - intros [= <-]. apply step_reload.
  - intros [= <-]. apply step_event.
  - destruct (recoverInflight agents (db w)) eqn:E. intros [= <-]. by eapply step_start.
  - destruct (claimDue _ _ _ _) eqn:E. intros [= <-]. by eapply step_drain.
  - destruct (running w) as [|[p r []] rest] eqn:Er; try done. destruct (begin_attempt _ _ _ _) eqn:E. intros [= <-].
    by apply (step_begin _ _ w [] {| of_process := p; row := r; stage := Claimed |} rest).
  - destruct (running w) as [|[p r [|s secret|]] rest] eqn:Er; try done. destruct (check_attempt _ _ _ _ _ _ _ _ _) eqn:E. intros [= <-].
    by eapply (step_resolve _ _ w [] {| of_process := p; row := r; stage := Resolving s secret |} rest).
  - destruct (running w) as [|[p r []] rest] eqn:Er; try done. intros [= <-].
    by apply (step_answer _ _ w [] {| of_process := p; row := r; stage := Posted |} rest).
  - intros [= <-]. apply step_crash.
  - intros [= <-]. apply step_clock.
Qed.

Fixpoint act (l : list Action) (w : World) : option World :=
  match l with [] => Some w | x :: l => w' ← perform x w; act l w' end.

Lemma act_runs l w w' : act l w = Some w' -> rtc (step backoff allow) w w'.
Proof.
  revert w. induction l as [|x l IH]; intros w; cbn [act]; [by intros [= <-]|]. destruct (perform x w) as [v|] eqn:E; [|done].
  intros Hv. eapply rtc_l; [by eapply perform_hook|by apply IH].
Qed.
End Acting.

Definition toy_digest : Digest := fun s => [zlen s mod 256; fold_right Z.add 0 s mod 256].
Definition toy_key : ustring * ustring := (js "wh_1", @webhookMessageId toy_digest (js "wh_1") (js "{}")).
Local Abbreviation toy_act := (@act toy_hmac toy_base64 toy_digest toy_url DEFAULT_BACKOFF_MS EMPTY_ALLOWLIST).

(** Refused once with a 503, then taken. *)
Definition delivered_run : list Action :=
  [Subscribe toy_subscription; Reload 1; Happen 1 toy_event; Drain 1 [js "a"]; Begin; Resolve toy_lookup []; Answer (Responded 503 true []);
   Tick 40000; Drain 1 [js "a"]; Begin; Resolve toy_lookup []; Answer (Responded 204 true [])].
Definition ran (w : option World) : World := default (initial 0) w.
Local Abbreviation delivered_world := (ran (toy_act delivered_run (initial 0))).

Lemma ran_reached l : (match toy_act l (initial 0) with Some _ => true | None => false end) = true ->
  rtc (@step toy_hmac toy_base64 toy_digest toy_url DEFAULT_BACKOFF_MS EMPTY_ALLOWLIST) (initial 0) (ran (toy_act l (initial 0))).
Proof.
  intros Hl. apply (@act_runs toy_hmac toy_base64 toy_digest toy_url DEFAULT_BACKOFF_MS EMPTY_ALLOWLIST l). destruct (act _ _ l (initial 0)); done.
Qed.


Definition toy_request : Request :=
  {| q_key := toy_key; q_url := js "https://hooks.example"; q_timestamp := 40;
     q_signature := @signWebhook toy_hmac toy_base64 toy_secret (toy_key.2) 40 (js "{}"); q_body := js "{}";
     q_resolved := [js "93.184.216.34"] |}.

Lemma webhook_posts_sound_witness :
  toy_request ∈ posted delivered_world /\ exists c, c ∈ created delivered_world /\ q_url toy_request = sub_url c.
Proof.
  assert (Hr : rtc (@step toy_hmac toy_base64 toy_digest toy_url DEFAULT_BACKOFF_MS EMPTY_ALLOWLIST) (initial 0) delivered_world)
    by (apply ran_reached; vm_compute; reflexivity).
  assert (Hq : toy_request ∈ posted delivered_world).
  { assert (E : nth_error (posted delivered_world) 1 = Some toy_request) by (vm_compute; reflexivity).
    apply list_elem_of_In. exact (nth_error_In _ _ E). }
  split; [exact Hq|].
  destruct (@webhook_posts_sound toy_hmac toy_base64 toy_digest toy_url DEFAULT_BACKOFF_MS EMPTY_ALLOWLIST toy_laws 0 delivered_world toy_request Hr Hq)
    as (c & _ & _ & Hc & _ & _ & _ & Hu & _). exists c. split; assumption.
Defined.

(** ** What else can happen *)

(** A process keeps the copy it read: one that started before a subscription was made elsewhere, and
    takes over an agent whose deliveries wait, gives them up as of a deleted subscription. *)
Theorem stale_copy_gives_up :
  let w := ran (toy_act [Reload 2; Subscribe toy_subscription; Reload 1; Happen 1 toy_event; Crash 1; Drain 2 [js "a"]; Begin] (initial 0)) in
  rtc (@step toy_hmac toy_base64 toy_digest toy_url DEFAULT_BACKOFF_MS EMPTY_ALLOWLIST) (initial 0) w /\
  map (fun r => (status r, lastError r)) (deliveries (db w)) = [(Failed, Some (js "subscription deleted"))] /\
  map sub_id (subscriptions (db w)) = [js "wh_1"] /\ posted w = [].
Proof. cbv zeta. split; [apply ran_reached; vm_compute; reflexivity|]. vm_compute. repeat split. Qed.

(** Two events alike within a millisecond are one delivery: an envelope carries nothing that counts. *)
Theorem same_envelope_dropped `{Digest} s agent now later e d b d' :
  enqueue (delivery_of s agent now e) d = Ok (b, d') -> enqueue (delivery_of s agent later e) d' = Ok (false, d').
Proof.
  unfold enqueue. cbn [delivery_of n_sub n_msg]. case_bool_decide as E.
  - intros [= _ <-]. by rewrite bool_decide_eq_true_2.
  - case_bool_decide; [|done]. intros [= _ <-]. rewrite bool_decide_eq_true_2; [done|]. cbn [with_deliveries deliveries]. rewrite map_app.
    apply elem_of_app. right. by left.
Qed.

(** Marking a taken delivery throws, the table being busy, and the failure is the delivery's: it is
    posted again. *)
Theorem unmarked_success_posts_again :
  let w := ran (toy_act [Subscribe toy_subscription; Reload 1; Happen 1 toy_event; Drain 1 [js "a"]; Begin; Resolve toy_lookup [];
    Answer (Responded 200 false (js "database is locked")); Tick 40000; Drain 1 [js "a"]; Begin; Resolve toy_lookup []] (initial 0)) in
  rtc (@step toy_hmac toy_base64 toy_digest toy_url DEFAULT_BACKOFF_MS EMPTY_ALLOWLIST) (initial 0) w /\
  map q_key (posted w) = [toy_key; toy_key] /\ recovered w = [].
Proof. cbv zeta. split; [apply ran_reached; vm_compute; reflexivity|]. vm_compute. repeat split. Qed.
