(* ===== verification/Team.v ===== *)
(** * The team's tables: [store/sqlite/conversations.ts], and the names of [runtime/conversations.ts]

    Participants and who they are assigned, conversations and their log, what stand-ins queued, shared
    notes, projects and the audit of reads. A table with a primary key is a map; the log and the audit
    are appended to. Members of a conversation are listed in the order of their ids. *)
From stdpp Require Import sorting.
From S2P Require Import Prelude UString SessionKey.
Local Open Scope Z_scope.

(** ** Names *)

Definition AGENT_PARTICIPANT : ustring := js "agent:".
Definition agentParticipant (agentId : ustring) : ustring := AGENT_PARTICIPANT ++ agentId.
Definition agentOf (participantId : ustring) : option ustring :=
  if starts_with AGENT_PARTICIPANT participantId then Some (drop 6 participantId) else None.
Definition is_agent (participantId : ustring) : bool := bool_decide (is_Some (agentOf participantId)).
Definition roomSessionKey (conversationId : ustring) : ustring := js "room:" ++ conversationId.

(** *** Mentions *)

(** The characters of [[A-Za-z0-9_.:-]]. *)
Definition is_token_char (c : Z) : bool := is_word c || existsb (Z.eqb c) (js ".:-").

(** The matches of [/@([A-Za-z0-9_.:-]+)/g]; [acc] is the token being read, backwards. *)
Fixpoint tokens (acc : option ustring) (s : ustring) : list ustring :=
  let found := match acc with Some (c :: t) => [rev (c :: t)] | _ => [] end in
  match s with
  | [] => found
  | c :: s =>
      match acc with
      | Some t => if is_token_char c then tokens (Some (c :: t)) s else found ++ tokens (if c =? 64 then Some [] else None) s
      | None => tokens (if c =? 64 then Some [] else None) s
      end
  end.

Fixpoint drop_punctuation (s : ustring) : ustring :=
  match s with c :: rest => if existsb (Z.eqb c) (js ".:,-") then drop_punctuation rest else s | [] => [] end.
Definition withoutTrailingPunctuation (token : ustring) : ustring := rev (drop_punctuation (rev token)).

Definition named_member (members : list ustring) (token : ustring) : option ustring :=
  if bool_decide (token ∈ members) then Some token
  else if bool_decide (agentParticipant token ∈ members) then Some (agentParticipant token) else None.

Definition mentionsIn (text : ustring) (members : list ustring) (author : ustring) : list ustring :=
  distinct [] (List.filter (fun id => negb (bool_decide (id = author)))
    (omap (fun t => named_member members (withoutTrailingPunctuation t)) (tokens None text))).

(** ** The rows *)

Inductive Role := Admin | Member.
#[export] Instance Role_eq_dec : EqDecision Role.
Proof. solve_decision. Defined.
Inductive Presence := Online | Offline.
#[export] Instance Presence_eq_dec : EqDecision Presence.
Proof. solve_decision. Defined.

Record ParticipantRecord := {
  p_name : option ustring; p_role : Role; p_title : option ustring; p_timezone : option ustring;
  p_channels : option (list ustring); p_created : Z; p_presence : option Presence; p_presenceAt : option Z }.

Inductive ConversationKind := Room | Dm.
#[export] Instance ConversationKind_eq_dec : EqDecision ConversationKind.
Proof. solve_decision. Defined.

Record ConversationRow := { cr_kind : ConversationKind; cr_title : option ustring; cr_created : Z }.

(** With its members, as the store hands it out. *)
Record ConversationRecord := {
  c_id : ustring; c_kind : ConversationKind; c_title : option ustring; c_members : list ustring; c_created : Z }.

Inductive MessageOrigin := FromHuman | FromAgent.
#[export] Instance MessageOrigin_eq_dec : EqDecision MessageOrigin.
Proof. solve_decision. Defined.

Record ConversationMessage := {
  m_seq : Z; m_conversation : ustring; m_author : ustring; m_origin : MessageOrigin; m_text : ustring; m_mentions : list ustring;
  m_hop : Z; m_turn : option ustring; m_behalf : option ustring }.
#[export] Instance ConversationMessage_eq_dec : EqDecision ConversationMessage.
Proof. solve_decision. Defined.

Record AssignmentRecord := { a_participant : ustring; a_by : option ustring; a_at : Z; a_channels : option (list ustring) }.

Inductive ActionStatus := ActionPending | ActionDone | ActionFailed | ActionDenied.
#[export] Instance ActionStatus_eq_dec : EqDecision ActionStatus.
Proof. solve_decision. Defined.

(** [d_args] is the JSON of the arguments. *)
Record DeferredAction := {
  d_agent : ustring; d_conversation : ustring; d_owner : ustring; d_requestedBy : ustring; d_slug : ustring; d_args : ustring;
  d_status : ActionStatus; d_result : option ustring; d_created : Z; d_decidedAt : option Z }.

Record MemoryNote := { n_scope : ustring; n_text : ustring; n_writtenBy : ustring; n_created : Z }.
Record ProjectRow := { pr_name : option ustring; pr_created : Z }.
Record SpaceWriter := { w_writer : ustring; w_setBy : option ustring; w_at : Z }.
Record MemoryRead := {
  r_scope : ustring; r_reader : ustring; r_turn : ustring; r_session : ustring; r_requestedBy : option ustring;
  r_onBehalfOf : option ustring; r_sources : list ustring; r_at : Z }.

(** ** The tables *)

Record TeamDb := MkTeamDb {
  participants : gmap ustring ParticipantRecord;
  conversations : gmap ustring ConversationRow;
  conversation_members : gset (ustring * ustring);
  messages : list ConversationMessage;
  assignments : gmap ustring AssignmentRecord;
  actions : gmap ustring DeferredAction;
  notes : gmap ustring MemoryNote;
  projects : gmap ustring ProjectRow;
  project_members : gset (ustring * ustring);
  spaceWriter : option SpaceWriter;
  memory_reads : list MemoryRead }.

Definition empty_team : TeamDb := MkTeamDb ∅ ∅ ∅ [] ∅ ∅ ∅ ∅ ∅ None [].

Definition with_participants x '(MkTeamDb p c cm m a d n pr pm w r) := MkTeamDb x c cm m a d n pr pm w r.
Definition with_conversations x '(MkTeamDb p c cm m a d n pr pm w r) := MkTeamDb p x cm m a d n pr pm w r.
Definition with_members x '(MkTeamDb p c cm m a d n pr pm w r) := MkTeamDb p c x m a d n pr pm w r.
Definition with_messages x '(MkTeamDb p c cm m a d n pr pm w r) := MkTeamDb p c cm x a d n pr pm w r.
Definition with_assignments x '(MkTeamDb p c cm m a d n pr pm w r) := MkTeamDb p c cm m x d n pr pm w r.
Definition with_actions x '(MkTeamDb p c cm m a d n pr pm w r) := MkTeamDb p c cm m a x n pr pm w r.
Definition with_notes x '(MkTeamDb p c cm m a d n pr pm w r) := MkTeamDb p c cm m a d x pr pm w r.
Definition with_projects x y '(MkTeamDb p c cm m a d n pr pm w r) := MkTeamDb p c cm m a d n x y w r.
Definition with_writer x '(MkTeamDb p c cm m a d n pr pm w r) := MkTeamDb p c cm m a d n pr pm x r.
Definition with_reads x '(MkTeamDb p c cm m a d n pr pm w r) := MkTeamDb p c cm m a d n pr pm w x.

(** [ORDER BY id]. *)
Definition id_before (a b : ustring) : Prop := text_leb a b = true.
#[export] Instance id_before_dec : RelDecision id_before.
Proof. unfold id_before. solve_decision. Defined.
Definition in_order (l : list ustring) : list ustring := merge_sort id_before l.

(** [ORDER BY created_at, id]. *)
Definition created_before {A} (at_ : A -> Z) (x y : ustring * A) : Prop :=
  at_ x.2 < at_ y.2 \/ (at_ x.2 = at_ y.2 /\ id_before x.1 y.1).
#[export] Instance created_before_dec {A} (at_ : A -> Z) : RelDecision (created_before at_).
Proof. unfold created_before. solve_decision. Defined.

(** The second column of the rows of a link table with this first one. *)
Definition linked (id : ustring) (rows : gset (ustring * ustring)) : list ustring :=
  in_order (snd <$> filter (fun r => r.1 = id) (elements rows)).
Definition link (id : ustring) (xs : list ustring) (rows : gset (ustring * ustring)) : gset (ustring * ustring) :=
  rows ∪ list_to_set (pair id <$> xs).
Definition unlink (id : ustring) (xs : list ustring) (rows : gset (ustring * ustring)) : gset (ustring * ustring) :=
  rows ∖ list_to_set (pair id <$> xs).

(** ** Participants *)

(** [ON CONFLICT DO UPDATE] leaves the presence and the day of registration. *)
Definition upsertParticipant (id : ustring) (r : ParticipantRecord) (db : TeamDb) : TeamDb :=
  let row := match participants db !! id with
    | None => {| p_name := p_name r; p_role := p_role r; p_title := p_title r; p_timezone := p_timezone r; p_channels := p_channels r;
                 p_created := p_created r; p_presence := None; p_presenceAt := None |}
    | Some old => {| p_name := p_name r; p_role := p_role r; p_title := p_title r; p_timezone := p_timezone r; p_channels := p_channels r;
                 p_created := p_created old; p_presence := p_presence old; p_presenceAt := p_presenceAt old |}
    end in
  with_participants (<[id := row]> (participants db)) db.

Definition participant (id : ustring) (db : TeamDb) : option ParticipantRecord := participants db !! id.

Definition list_participants (db : TeamDb) : list (ustring * ParticipantRecord) :=
  omap (fun id => pair id <$> participants db !! id) (in_order (fst <$> map_to_list (participants db))).

Definition clear_writer_if (who : ustring) (db : TeamDb) : TeamDb :=
  match spaceWriter db with
  | Some w => if bool_decide (w_writer w = who) then with_writer None db else db
  | None => db
  end.

Definition deleteParticipant (id : ustring) (db : TeamDb) : bool * TeamDb :=
  let members := filter (fun r => r.2 <> id) (conversation_members db) in
  let kept := filter (fun r => n_scope r.2 <> js "owner:" ++ id) (notes db) in
  let db' := clear_writer_if id (with_notes kept (with_members members db)) in
  (bool_decide (is_Some (participants db !! id)), with_participants (base.delete id (participants db')) db').

Definition store_setPresence (id : ustring) (p : Presence) (now : Z) (db : TeamDb) : option ParticipantRecord * TeamDb :=
  let set (r : ParticipantRecord) :=
    {| p_name := p_name r; p_role := p_role r; p_title := p_title r; p_timezone := p_timezone r; p_channels := p_channels r;
       p_created := p_created r; p_presence := Some p; p_presenceAt := Some now |} in
  let db' := with_participants (alter set id (participants db)) db in
  (participant id db', db').

(** ** Conversations *)

Definition conversationOf (id : ustring) (row : ConversationRow) (db : TeamDb) : ConversationRecord :=
  {| c_id := id; c_kind := cr_kind row; c_title := cr_title row; c_members := linked id (conversation_members db); c_created := cr_created row |}.
Definition get (id : ustring) (db : TeamDb) : option ConversationRecord :=
  (fun row => conversationOf id row db) <$> conversations db !! id.
Definition list_conversations (db : TeamDb) : list ConversationRecord :=
  (fun x => conversationOf x.1 x.2 db) <$> merge_sort (created_before cr_created) (map_to_list (conversations db)).

(** [None] where the key is taken: the statement throws and the transaction is undone. *)
Definition store_create (id : ustring) (row : ConversationRow) (members : list ustring) (db : TeamDb) : option TeamDb :=
  match conversations db !! id with
  | Some _ => None
  | None => Some (with_members (link id members (conversation_members db)) (with_conversations (<[id := row]> (conversations db)) db))
  end.

Definition store_setMembers (id : ustring) (add remove : list ustring) (db : TeamDb) : TeamDb :=
  with_members (unlink id remove (link id add (conversation_members db))) db.

(** A row's number is one more than the last: none is ever deleted. *)
Definition append (conv author : ustring) (origin : MessageOrigin) (text : ustring) (mentions : list ustring) (hop : Z)
  (turn behalf : option ustring) (db : TeamDb) : ConversationMessage * TeamDb :=
  let m := {| m_seq := zlen (messages db) + 1; m_conversation := conv; m_author := author; m_origin := origin; m_text := text;
              m_mentions := mentions; m_hop := hop; m_turn := turn; m_behalf := behalf |} in
  (m, with_messages (messages db ++ [m]) db).

Definition messagesAfter (conv : ustring) (after : Z) (limit : nat) (db : TeamDb) : list ConversationMessage :=
  take limit (List.filter (fun m => bool_decide (m_conversation m = conv) && (after <? m_seq m)) (messages db)).

(** ** Assignments *)

Definition store_assign (agent : ustring) (r : AssignmentRecord) (db : TeamDb) : TeamDb :=
  with_assignments (<[agent := r]> (assignments db)) db.
Definition assignment (agent : ustring) (db : TeamDb) : option AssignmentRecord := assignments db !! agent.
Definition unassign (agent : ustring) (db : TeamDb) : bool * TeamDb :=
  (bool_decide (is_Some (assignments db !! agent)), with_assignments (base.delete agent (assignments db)) db).
Definition assignedTo (who : ustring) (db : TeamDb) : list ustring :=
  in_order (fst <$> List.filter (fun r => bool_decide (a_participant r.2 = who)) (map_to_list (assignments db))).

(** ** What stand-ins queue *)

Definition deferAction (id : ustring) (a : DeferredAction) (db : TeamDb) : option TeamDb :=
  match actions db !! id with
  | Some _ => None
  | None => Some (with_actions (<[id := a]> (actions db)) db)
  end.
Definition action (id : ustring) (db : TeamDb) : option DeferredAction := actions db !! id.

Definition list_actions (owner : option ustring) (status : option ActionStatus) (db : TeamDb) : list (ustring * DeferredAction) :=
  List.filter (fun x =>
    match owner with None => true | Some o => bool_decide (d_owner x.2 = o) end &&
    match status with None => true | Some s => bool_decide (d_status x.2 = s) end)
    (merge_sort (created_before d_created) (map_to_list (actions db))).

(** [UPDATE … WHERE id = ? AND status = 'pending']; [None] where no row changed. *)
Definition store_decideAction (id : ustring) (status : ActionStatus) (result : option ustring) (now : Z) (db : TeamDb) : option TeamDb :=
  match actions db !! id with
  | Some a =>
      if bool_decide (d_status a = ActionPending) then
        Some (with_actions (<[id := {| d_agent := d_agent a; d_conversation := d_conversation a; d_owner := d_owner a;
          d_requestedBy := d_requestedBy a; d_slug := d_slug a; d_args := d_args a; d_status := status; d_result := result;
          d_created := d_created a; d_decidedAt := Some now |}]> (actions db)) db)
      else None
  | None => None
  end.

(** ** Notes, projects and reads *)

Definition store_addNote (id : ustring) (n : MemoryNote) (db : TeamDb) : option TeamDb :=
  match notes db !! id with Some _ => None | None => Some (with_notes (<[id := n]> (notes db)) db) end.
Definition notes_in (scope : ustring) (db : TeamDb) : list (ustring * MemoryNote) :=
  merge_sort (created_before n_created) (List.filter (fun x => bool_decide (n_scope x.2 = scope)) (map_to_list (notes db))).
Definition noteScopes (db : TeamDb) : list ustring := in_order (distinct [] (n_scope <$> (snd <$> map_to_list (notes db)))).
Definition store_deleteNote (id : ustring) (db : TeamDb) : bool * TeamDb :=
  (bool_decide (is_Some (notes db !! id)), with_notes (base.delete id (notes db)) db).

Record ProjectRecord := { proj_id : ustring; proj_name : option ustring; proj_agents : list ustring; proj_created : Z }.
Definition project (id : ustring) (db : TeamDb) : option ProjectRecord :=
  (fun row => {| proj_id := id; proj_name := pr_name row; proj_agents := linked id (project_members db); proj_created := pr_created row |}) <$>
  projects db !! id.

Definition list_projects (db : TeamDb) : list ProjectRecord :=
  omap (fun id => project id db) (in_order (fst <$> map_to_list (projects db))).

(** The day of creation of a row that is there stays. *)
Definition store_upsertProject (id : ustring) (name : option ustring) (created : Z) (db : TeamDb) : TeamDb :=
  let row := {| pr_name := name; pr_created := match projects db !! id with Some old => pr_created old | None => created end |} in
  with_projects (<[id := row]> (projects db)) (project_members db) db.
Definition deleteProject (id : ustring) (db : TeamDb) : bool * TeamDb :=
  (bool_decide (is_Some (projects db !! id)),
   with_projects (base.delete id (projects db)) (filter (fun r => r.1 <> id) (project_members db))
     (with_notes (filter (fun r => n_scope r.2 <> js "project:" ++ id) (notes db)) db)).
Definition setProjectAgents (id : ustring) (add remove : list ustring) (db : TeamDb) : TeamDb :=
  with_projects (projects db) (unlink id remove (link id add (project_members db))) db.
Definition projectsOf (agent : ustring) (db : TeamDb) : list ustring :=
  in_order (fst <$> filter (fun r => r.2 = agent) (elements (project_members db))).

Definition store_setSpaceWriter (writer : ustring) (setBy : option ustring) (now : Z) (db : TeamDb) : TeamDb :=
  with_writer (Some {| w_writer := writer; w_setBy := setBy; w_at := now |}) db.

Definition recordRead (r : MemoryRead) (db : TeamDb) : TeamDb := with_reads (memory_reads db ++ [r]) db.
Definition reads_in (scope : ustring) (limit : nat) (db : TeamDb) : list MemoryRead :=
  take limit (rev (List.filter (fun r => bool_decide (r_scope r = scope)) (memory_reads db))).

(** What [purgeAgent] takes with an agent; its place in the audit stays. *)
Definition purgeAgent (agent : ustring) (db : TeamDb) : TeamDb :=
  let db := with_members (filter (fun r => r.2 <> agentParticipant agent) (conversation_members db)) db in
  let db := with_assignments (base.delete agent (assignments db)) db in
  let db := with_actions (filter (fun r => d_agent r.2 <> agent) (actions db)) db in
  let db := with_projects (projects db) (filter (fun r => r.2 <> agent) (project_members db)) db in
  clear_writer_if (agentParticipant agent) db.

(** ** Mentions are of members *)

Lemma named_member_Some members token id : named_member members token = Some id ->
  id ∈ members /\ (id = token \/ id = agentParticipant token).
Proof. unfold named_member. repeat case_bool_decide; intros [= <-]; auto. Qed.

Lemma elem_of_distinct seen l x : x ∈ distinct seen l <-> x ∈ l /\ x ∉ seen.
Proof.
  revert seen. induction l as [|y l IH]; intros seen; cbn; [set_solver|]. case_bool_decide; rewrite ?elem_of_cons, IH; set_unfold; [naive_solver|].
  destruct (decide (x = y)) as [->|]; naive_solver.
Qed.
Lemma NoDup_distinct seen l : NoDup (distinct seen l).
Proof.
  revert seen. induction l as [|y l IH]; intros seen; cbn; [constructor|]. case_bool_decide; [done|]. constructor; [|done].
  rewrite elem_of_distinct. set_solver.
Qed.

(** What an agent's text mentions: members, each once, and never itself. *)
Lemma mentionsIn_members text members author : NoDup (mentionsIn text members author) /\
  forall id, id ∈ mentionsIn text members author -> id ∈ members /\ id <> author.
Proof.
  unfold mentionsIn. split; [apply NoDup_distinct|]. intros id [H _]%elem_of_distinct. apply list_elem_of_In, List.filter_In in H as [H Ha].
  apply list_elem_of_In, list_elem_of_omap in H as (t & _ & [Ht _]%named_member_Some). bool_to_prop. done.
Qed.

Lemma tokens_read acc t post : forallb is_token_char t = true -> match post with c :: _ => is_token_char c = false | [] => True end ->
  rev acc ++ t <> [] -> rev acc ++ t ∈ tokens (Some acc) (t ++ post).
Proof.
  revert acc. induction t as [|c t IH]; intros acc Ht Hp Hn; cbn [app].
  - rewrite app_nil_r in *. destruct acc as [|a acc]; [done|]. destruct post as [|c post]; cbn -[rev]; [set_solver|]. rewrite Hp. set_solver.
  - cbn in Ht. apply andb_true_iff in Ht as [Hc Ht]. cbn [tokens]. rewrite Hc. specialize (IH (c :: acc) Ht Hp). cbn [rev] in IH.
    rewrite <- app_assoc in IH. by apply IH.
Qed.
Lemma tokens_found acc pre t post : forallb is_token_char t = true -> match post with c :: _ => is_token_char c = false | [] => True end ->
  t <> [] -> t ∈ tokens acc (pre ++ 64 :: t ++ post).
Proof.
  intros Ht Hp Hn. revert acc. induction pre as [|c pre IH]; intros acc; cbn [app].
  - pose proof (tokens_read [] t post Ht Hp Hn) as H. cbn [rev app] in H. destruct acc as [acc|]; cbn [tokens].
    + change (is_token_char 64) with false. cbn [Z.eqb]. set_solver.
    + done.
  - destruct acc as [acc|]; cbn [tokens]; [|apply IH]. destruct (is_token_char c); [apply IH|]. apply elem_of_app. right. apply IH.
Qed.

(** An agent is mentioned by its id after an [@], wherever that stands, as long as what follows ends it
    and its id does not end in punctuation. *)
Lemma mention_found members author pre t post : forallb is_token_char t = true ->
  match post with c :: _ => is_token_char c = false | [] => True end -> withoutTrailingPunctuation t = t -> t <> [] ->
  t ∉ members -> agentParticipant t ∈ members -> agentParticipant t <> author ->
  agentParticipant t ∈ mentionsIn (pre ++ 64 :: t ++ post) members author.
Proof.
  intros Ht Hp Hw Hn Hm Ha Hau. unfold mentionsIn. apply elem_of_distinct. split; [|set_solver].
  apply list_elem_of_In, List.filter_In. split; [|by rewrite bool_decide_eq_false_2].
  apply list_elem_of_In, list_elem_of_omap. exists t. split; [by apply tokens_found|]. rewrite Hw. unfold named_member.
  by rewrite bool_decide_eq_false_2, bool_decide_eq_true_2.
Qed.
