(* ===== verification/Scopes.v ===== *)
(** * Shared memory: [memory/scopes.ts], and the notes of [runtime/conversations.ts]

    The scopes a note may be in, who may write each, and what a turn may read of them. *)
From stdpp Require Import sorting.
From S2P Require Import Prelude UString SessionKey Team.
Local Open Scope Z_scope.

(** ** The scopes *)

Inductive SharedScope := Space | OwnerScope (who : ustring) | ProjectScope (id : ustring) | AgentsScope (who : ustring).
#[export] Instance SharedScope_eq_dec : EqDecision SharedScope.
Proof. solve_decision. Defined.

(** The string a scope is. *)
Definition scope_text (s : SharedScope) : ustring :=
  match s with
  | Space => js "space"
  | OwnerScope x => js "owner:" ++ x
  | ProjectScope x => js "project:" ++ x
  | AgentsScope x => js "agents:" ++ x
  end.

Definition parseScope (value : ustring) : option SharedScope :=
  if bool_decide (value = js "space") then Some Space
  else match split_on 58 value with
  | [] => None
  | kind :: rest =>
      let id := join [58] rest in
      if bool_decide (id = []) then None
      else if bool_decide (kind = js "owner") then Some (OwnerScope id)
      else if bool_decide (kind = js "project") then Some (ProjectScope id)
      else if bool_decide (kind = js "agents") then Some (AgentsScope id)
      else None
  end.

Definition scopeCorpus (scope : ustring) : ustring := 126 :: scope.
Definition SCOPE_SOURCE_PREFIX : ustring := js "scope:".
Definition noteSource (scope noteId : ustring) : ustring := SCOPE_SOURCE_PREFIX ++ scope ++ [47] ++ noteId.
Definition isScopeSource (source : ustring) : bool := starts_with SCOPE_SOURCE_PREFIX source.

(** What is ahead of the last [c]. *)
Fixpoint before_last (c : Z) (s : ustring) : option ustring :=
  match s with
  | [] => None
  | x :: s => match before_last c s with Some t => Some (x :: t) | None => if x =? c then Some [] else None end
  end.
Definition scopeOfSource (source : ustring) : option ustring :=
  if isScopeSource source then before_last 47 (drop 6 source) else None.

(** ** What one turn reads *)




(** ** Notes

    A refusal is its code. [hosted] says which agents the runtime hosts. *)
Section Notes.
Context (hosted : ustring -> bool).

Definition registered (who : ustring) (db : TeamDb) : bool := bool_decide (is_Some (participant who db)).
Definition is_admin (who : ustring) (db : TeamDb) : bool := bool_decide (p_role <$> participant who db = Some Admin).

Definition mayWrite (scope : ustring) (actor : option ustring) (db : TeamDb) : result ustring unit :=
  if match actor with Some a => negb (registered a db) | None => false end then Err (js "participant_not_found")
  else
    let admin := match actor with None => true | Some a => is_admin a db end in
    if starts_with (js "owner:") scope || starts_with (js "agents:") scope then
      let owner := drop (if starts_with (js "owner:") scope then 6 else 7)%nat scope in
      if negb (registered owner db) then Err (js "participant_not_found")
      else if match actor with Some a => negb (bool_decide (a = owner)) | None => false end then Err (js "memory_scope_forbidden")
      else Ok tt
    else if starts_with (js "project:") scope && negb (bool_decide (is_Some (project (drop 8 scope) db))) then Err (js "project_not_found")
    else if admin then Ok tt
    else if bool_decide (scope = js "space") && bool_decide (w_writer <$> spaceWriter db = actor) then Ok tt
    else Err (js "memory_scope_forbidden").

Definition scope_of (value : ustring) : result ustring ustring :=
  match parseScope value with Some s => Ok (scope_text s) | None => Err (js "memory_scope_invalid") end.

(** [id] is the fresh one; the statement throws where it is taken. *)
Definition addNote (id scope text : ustring) (author : option ustring) (now : Z) (db : TeamDb) : result ustring TeamDb :=
  scope ← scope_of scope;
  let text := trim text in
  if bool_decide (text = []) then Err (js "memory_note_empty")
  else
    mayWrite scope author db ≫= fun _ =>
    match store_addNote id {| n_scope := scope; n_text := text; n_writtenBy := default (js "operator") author; n_created := now |} db with
    | Some db => Ok db
    | None => Err (js "internal")
    end.

Definition hub_notes (scope : ustring) (actor : option ustring) (db : TeamDb) : result ustring (list (ustring * MemoryNote)) :=
  scope ← scope_of scope;
  (if starts_with (js "owner:") scope || starts_with (js "agents:") scope then mayWrite scope actor db else Ok tt) ≫= fun _ =>
  Ok (notes_in scope db).

Definition deleteNote (id : ustring) (actor : option ustring) (db : TeamDb) : result ustring TeamDb :=
  match notes db !! id with
  | None => Err (js "memory_note_not_found")
  | Some n => mayWrite (n_scope n) actor db ≫= fun _ => Ok (store_deleteNote id db).2
  end.

Definition hub_reads (who : ustring) (actor : option ustring) (db : TeamDb) : result ustring (list MemoryRead) :=
  if match actor with Some a => negb (bool_decide (a = who)) && negb (is_admin a db) | None => false end
  then Err (js "memory_scope_forbidden")
  else Ok (reads_in (js "owner:" ++ who) 100 db).

(** ** Projects and the space's writer *)

Definition requireAgent (agent : ustring) : result ustring unit := if hosted agent then Ok tt else Err (js "agent_not_found").

Definition upsertProject (id : ustring) (name : option ustring) (agents : option (list ustring)) (now : Z) (db : TeamDb) : result ustring TeamDb :=
  mapR requireAgent (default [] agents) ≫= fun _ =>
  let existing := project id db in
  let db := store_upsertProject id name (match existing with Some p => proj_created p | None => now end) db in
  match agents with
  | None => Ok db
  | Some agents =>
      let remove := List.filter (fun a => negb (bool_decide (a ∈ agents))) (match existing with Some p => proj_agents p | None => [] end) in
      Ok (setProjectAgents id agents remove db)
  end.

Definition setSpaceWriter (writer : ustring) (setBy : option ustring) (now : Z) (db : TeamDb) : result ustring TeamDb :=
  (match agentOf writer with
   | Some agent => requireAgent agent
   | None => if registered writer db then Ok tt else Err (js "participant_not_found")
   end) ≫= fun _ => Ok (store_setSpaceWriter writer setBy now db).

(** ** What agents write through the runtime: a copy for the pool, a note for the space *)

Definition writePoolNote (id agent owner text : ustring) (now : Z) (db : TeamDb) : option TeamDb :=
  store_addNote id {| n_scope := js "agents:" ++ owner; n_text := text; n_writtenBy := agentParticipant agent; n_created := now |} db.
Definition writeSpaceNote (id agent text : ustring) (now : Z) (db : TeamDb) : option TeamDb :=
  store_addNote id {| n_scope := js "space"; n_text := text; n_writtenBy := agentParticipant agent; n_created := now |} db.
End Notes.

(** ** Scopes and their text *)

Definition scope_named (s : SharedScope) : Prop := match s with Space => True | OwnerScope x | ProjectScope x | AgentsScope x => x <> [] end.

Lemma parseScope_text s : scope_named s -> parseScope (scope_text s) = Some s.
Proof.
  assert (Hp : forall kind x, existsb (Z.eqb 58) kind = false -> split_on 58 (kind ++ 58 :: x) = kind :: split_on 58 x).
  { intros kind x Hk. apply split_on_app. intros Hi. apply not_true_iff_false in Hk. apply Hk, existsb_exists. exists 58. by rewrite Z.eqb_refl. }
  destruct s as [|x|x|x]; cbn [scope_named scope_text]; intros Hx; [done|..]; unfold parseScope.
  - change (js "owner:" ++ x) with (js "owner" ++ 58 :: x). rewrite bool_decide_eq_false_2 by done. rewrite Hp, join_split_on by done.
    by rewrite bool_decide_eq_false_2.
  - change (js "project:" ++ x) with (js "project" ++ 58 :: x). rewrite bool_decide_eq_false_2 by done. rewrite Hp, join_split_on by done.
    by rewrite bool_decide_eq_false_2.
  - change (js "agents:" ++ x) with (js "agents" ++ 58 :: x). rewrite bool_decide_eq_false_2 by done. rewrite Hp, join_split_on by done.
    by rewrite bool_decide_eq_false_2.
Qed.

Lemma parseScope_Some value s : parseScope value = Some s -> value = scope_text s /\ scope_named s.
Proof.
  unfold parseScope. case_bool_decide as Es; [by intros [= <-]|]. pose proof (join_split_on 58 value) as Hj.
  destruct (split_on 58 value) as [|kind rest]; [done|]. case_bool_decide as En; [done|].
  assert (Hv : value = kind ++ 58 :: join [58] rest) by (rewrite <- Hj; by destruct rest).
  repeat case_bool_decide; intros [= <-]; subst kind; by split.
Qed.

Lemma before_last_app c s t : ~ In c t -> before_last c (s ++ c :: t) = Some s.
Proof.
  intros Ht. assert (Hn : before_last c t = None).
  { clear s. induction t as [|x t IH]; [done|]. cbn in *. rewrite IH by tauto. destruct (Z.eqb_spec x c); [tauto|done]. }
  induction s as [|x s IH]; cbn; [by rewrite Hn, Z.eqb_refl|by rewrite IH].
Qed.
(** A passage's source says which scope it is of. *)
Lemma scopeOfSource_note scope id : ~ In 47 id -> scopeOfSource (noteSource scope id) = Some scope.
Proof. intros H. unfold scopeOfSource, noteSource. cbn. by apply (before_last_app 47 scope id). Qed.

(** ** Who may write *)

(** The table of the source's comment, with what the operator may besides. *)
Definition may_write (s : SharedScope) (actor : option ustring) (db : TeamDb) : Prop :=
  (forall a, actor = Some a -> registered a db = true) /\
  match s with
  | OwnerScope x | AgentsScope x => registered x db = true /\ (actor = None \/ actor = Some x)
  | ProjectScope x => is_Some (project x db) /\ (forall a, actor = Some a -> is_admin a db = true)
  | Space => forall a, actor = Some a -> is_admin a db = true \/ w_writer <$> spaceWriter db = Some a
  end.

(** The tests on the scope's text, by the scope. *)
Lemma mayWrite_text s actor db : mayWrite (scope_text s) actor db =
  if match actor with Some a => negb (registered a db) | None => false end then Err (js "participant_not_found")
  else
    let admin := match actor with None => true | Some a => is_admin a db end in
    match s with
    | OwnerScope x | AgentsScope x =>
        if negb (registered x db) then Err (js "participant_not_found")
        else if match actor with Some a => negb (bool_decide (a = x)) | None => false end then Err (js "memory_scope_forbidden") else Ok tt
    | ProjectScope x =>
        if negb (bool_decide (is_Some (project x db))) then Err (js "project_not_found")
        else if admin then Ok tt else Err (js "memory_scope_forbidden")
    | Space => if admin || bool_decide (w_writer <$> spaceWriter db = actor) then Ok tt else Err (js "memory_scope_forbidden")
    end.
Proof.
  unfold mayWrite. destruct s as [|x|x|x]; cbn [scope_text].
  - change (starts_with (js "owner:") (js "space") || starts_with (js "agents:") (js "space")) with false.
    change (starts_with (js "project:") (js "space")) with false. rewrite (bool_decide_eq_true_2 (js "space" = js "space")) by done. cbn [andb].
    destruct (match actor with Some a => negb (registered a db) | None => false end); [done|]. by destruct (match actor with Some _ => _ | None => _ end).
  - reflexivity.
  - change (starts_with (js "owner:") (js "project:" ++ x) || starts_with (js "agents:") (js "project:" ++ x)) with false.
    change (starts_with (js "project:") (js "project:" ++ x)) with true. change (drop 8 (js "project:" ++ x)) with x.
    rewrite (bool_decide_eq_false_2 (js "project:" ++ x = js "space")) by done. done.
  - reflexivity.
Qed.

Lemma mayWrite_spec s actor db : mayWrite (scope_text s) actor db = Ok tt <-> may_write s actor db.
Proof.
  rewrite mayWrite_text. unfold may_write. destruct actor as [a|].
  - assert (Hall : forall P : ustring -> Prop, (forall b, Some a = Some b -> P b) <-> P a).
    { intros P. split; [intros H; by apply H|by intros H b [= <-]]. }
    rewrite Hall. destruct (registered a db); cbn [negb]; [|intuition congruence].
    destruct s as [|x|x|x]; rewrite ?Hall; clear Hall.
    + destruct (is_admin a db); cbn; [intuition congruence|]. case_bool_decide; intuition congruence.
    + destruct (registered x db); cbn; [|intuition congruence]. case_bool_decide; cbn; [subst; tauto|naive_solver].
    + case_bool_decide as Ep; cbn; [|intuition congruence]. destruct (is_admin a db); intuition congruence.
    + destruct (registered x db); cbn; [|intuition congruence]. case_bool_decide; cbn; [subst; tauto|naive_solver].
  - assert (Hnone : forall P : ustring -> Prop, (forall b, None = Some b -> P b) <-> True) by (by split).
    rewrite Hnone. destruct s as [|x|x|x]; rewrite ?Hnone; clear Hnone; cbn.
    + tauto.
    + destruct (registered x db); cbn; intuition congruence.
    + case_bool_decide as Ep; cbn; intuition congruence.
    + destruct (registered x db); cbn; intuition congruence.
Qed.

(** ** What the calls do to the notes *)

Lemma addNote_ok id scope text author now db db' : addNote id scope text author now db = Ok db' ->
  exists s, scope = scope_text s /\ scope_named s /\ may_write s author db /\ trim text <> [] /\ notes db !! id = None /\
    db' = with_notes (<[id := {| n_scope := scope; n_text := trim text; n_writtenBy := default (js "operator") author; n_created := now |}]> (notes db)) db.
Proof.
  unfold addNote, scope_of. destruct (parseScope scope) as [s|] eqn:Es; [|done]. apply parseScope_Some in Es as [-> Hs]. cbn.
  case_bool_decide as Et; [done|]. destruct (mayWrite (scope_text s) author db) as [[]|] eqn:Em; [|done]. cbn. unfold store_addNote.
  destruct (notes db !! id) eqn:En; [done|]. intros [= <-]. exists s. rewrite <- mayWrite_spec. done.
Qed.

Lemma deleteNote_ok id actor db db' : deleteNote id actor db = Ok db' ->
  exists n, notes db !! id = Some n /\ mayWrite (n_scope n) actor db = Ok tt /\ db' = with_notes (base.delete id (notes db)) db.
Proof.
  unfold deleteNote. destruct (notes db !! id) as [n|] eqn:En; [|done]. destruct (mayWrite _ _ _) as [[]|] eqn:Em; [|done]. cbn.
  intros [= <-]. by exists n.
Qed.

Lemma personal_scope_text s : starts_with (js "owner:") (scope_text s) || starts_with (js "agents:") (scope_text s) =
  match s with OwnerScope _ | AgentsScope _ => true | _ => false end.
Proof. by destruct s. Qed.

Lemma hub_notes_ok scope actor db l : hub_notes scope actor db = Ok l ->
  exists s, scope = scope_text s /\ l = notes_in scope db /\
    match s with OwnerScope _ | AgentsScope _ => may_write s actor db | _ => True end.
Proof.
  unfold hub_notes, scope_of. destruct (parseScope scope) as [s|] eqn:Es; [|done]. apply parseScope_Some in Es as [-> _].
  unfold mbind, result_bind. rewrite personal_scope_text. intros H. exists s. split; [done|].
  destruct s as [|x|x|x]; try (injection H as <-; by split);
    (destruct (mayWrite _ _ _) as [[]|] eqn:E; [|done]; apply mayWrite_spec in E; injection H as <-; by split).
Qed.

Lemma elem_of_notes_in scope db x : x ∈ notes_in scope db -> notes db !! x.1 = Some x.2 /\ n_scope x.2 = scope.
Proof.
  unfold notes_in. rewrite merge_sort_Permutation, list_elem_of_In, List.filter_In, <- list_elem_of_In. intros [H E]. bool_to_prop.
  split; [|done]. apply elem_of_map_to_list. by destruct x.
Qed.

(** ** What a turn may read *)


