(* ===== verification/Rooms.v ===== *)
(** * Rooms and direct messages: the calls of [runtime/conversations.ts] that only touch the tables

    Registering people, starting a conversation, changing its members, assigning agents, and what a
    human's message must be. [Hub] carries a message that passed to the agents. A refusal is its code. *)
From S2P Require Import Prelude UString SessionKey Team.
Local Open Scope Z_scope.

(** What the hub reads of an agent it hosts. *)
Record Hosted := { h_maxHops : Z; h_standIn : bool }.

Record ParticipantInput := {
  i_id : ustring; i_name : option ustring; i_role : option Role; i_title : option ustring; i_timezone : option ustring;
  i_channels : option (list ustring) }.

Section Rooms.
(** The agent hosted under an id; the time zones of [Intl.DateTimeFormat]. *)
Context (hosted : ustring -> option Hosted) (isTimeZone : ustring -> bool).

Definition registerParticipant (i : ParticipantInput) (now : Z) (db : TeamDb) : result ustring TeamDb :=
  if match i_timezone i with Some z => negb (isTimeZone z) | None => false end then Err (js "participant_timezone_invalid")
  else if is_agent (i_id i) then Err (js "participant_id_reserved")
  else Ok (upsertParticipant (i_id i)
    {| p_name := i_name i; p_role := default Member (i_role i); p_title := i_title i; p_timezone := i_timezone i; p_channels := i_channels i;
       p_created := now; p_presence := None; p_presenceAt := None |} db).

Definition member_exists (db : TeamDb) (member : ustring) : bool :=
  match agentOf member with
  | None => bool_decide (is_Some (participant member db))
  | Some agent => bool_decide (is_Some (hosted agent))
  end.
Definition checkMembers (members : list ustring) (db : TeamDb) : result ustring unit :=
  if forallb (member_exists db) members then Ok tt else Err (js "conversation_member_unknown").

(** The agents in turn: each is assigned to one of [humans], and none to an owner already seen. *)
Fixpoint one_each (humans owners agents : list ustring) (db : TeamDb) : bool :=
  match agents with
  | [] => true
  | member :: agents =>
      match a_participant <$> assignment (default [] (agentOf member)) db with
      | None => false
      | Some owner => bool_decide (owner ∈ humans) && negb (bool_decide (owner ∈ owners)) && one_each humans (owner :: owners) agents db
      end
  end.

Definition checkDmShape (humans agents : list ustring) (db : TeamDb) : result ustring unit :=
  if (length humans =? 1)%nat && (length agents =? 1)%nat then Ok tt
  else if negb (length humans =? 2)%nat || (length agents =? 0)%nat || (2 <? length agents)%nat then Err (js "conversation_dm_shape")
  else if one_each humans [] agents db then Ok tt else Err (js "conversation_dm_shape").

(** [id] is the fresh one; the statement throws where it is taken. *)
Definition create (id : ustring) (kind : ConversationKind) (members : list ustring) (title : option ustring) (now : Z) (db : TeamDb)
  : result ustring TeamDb :=
  let members := distinct [] members in
  checkMembers members db ≫= fun _ =>
  let agents := List.filter is_agent members in
  let humans := List.filter (fun m => negb (is_agent m)) members in
  (match kind with Dm => checkDmShape humans agents db | Room => Ok tt end) ≫= fun _ =>
  match store_create id {| cr_kind := kind; cr_title := title; cr_created := now |} members db with
  | Some db => Ok db
  | None => Err (js "internal")
  end.

Definition require (id : ustring) (db : TeamDb) : result ustring ConversationRecord :=
  match get id db with Some c => Ok c | None => Err (js "conversation_not_found") end.

Definition setMembers (id : ustring) (add remove : list ustring) (db : TeamDb) : result ustring TeamDb :=
  c ← require id db;
  match c_kind c with
  | Dm => Err (js "conversation_dm_shape")
  | Room => checkMembers add db ≫= fun _ => Ok (store_setMembers id add remove db)
  end.

Definition assign (agent who : ustring) (by_ : option ustring) (channels : option (list ustring)) (now : Z) (db : TeamDb) : result ustring TeamDb :=
  if negb (bool_decide (is_Some (hosted agent))) then Err (js "agent_not_found")
  else if negb (bool_decide (is_Some (participant who db))) then Err (js "participant_not_found")
  else Ok (store_assign agent {| a_participant := who; a_by := by_; a_at := now; a_channels := channels |} db).

(** What [post] makes of a message before it is logged: the mentions it keeps. *)
Definition check_post (c : ConversationRecord) (author : ustring) (mentions : option (list ustring)) : result ustring (list ustring) :=
  if negb (bool_decide (author ∈ c_members c)) || is_agent author then Err (js "conversation_author_not_member")
  else
    let mentions := distinct [] (default [] mentions) in
    if forallb (fun id => bool_decide (id ∈ c_members c)) mentions then Ok mentions else Err (js "conversation_mention_unknown").
End Rooms.

(** ** Which agents a message is for *)

Inductive Handling := ToAssess | ToDeliver (addressed : bool).
#[export] Instance Handling_eq_dec : EqDecision Handling.
Proof. solve_decision. Defined.

(** [#fanOut]: the member agents other than the author, each with what is done about it. *)
Definition targets (c : ConversationRecord) (m : ConversationMessage) : list (ustring * Handling) :=
  let humans := List.filter (fun m => negb (is_agent m)) (c_members c) in
  let personal := bool_decide (c_kind c = Dm) && (length humans =? 2)%nat in
  omap (fun member =>
    match agentOf member with
    | None => None
    | Some agent =>
        if bool_decide (member = m_author m) then None
        else Some (agent,
          if personal then match m_origin m with FromHuman => ToAssess | FromAgent => ToDeliver false end
          else ToDeliver match c_kind c with
            | Dm => bool_decide (m_origin m = FromHuman)
            | Room => bool_decide (member ∈ m_mentions m)
            end)
    end) (c_members c).

(** ** The shape of a direct message *)

Lemma one_each_spec humans owners agents db : one_each humans owners agents db = true ->
  exists l, Forall2 (fun member owner => a_participant <$> assignment (default [] (agentOf member)) db = Some owner) agents l /\
    NoDup l /\ forall owner, owner ∈ l -> owner ∈ humans /\ owner ∉ owners.
Proof.
  revert owners. induction agents as [|m agents IH]; intros owners H; cbn in H; [exists []; split; [constructor|]; split; [constructor|set_solver]|].
  destruct (a_participant <$> _) as [owner|] eqn:E; [|done]. apply andb_true_iff in H as [H Hr]. bool_to_prop.
  apply IH in Hr as (l & Hl & Hn & Hi). exists (owner :: l). split; [by constructor|]. split; [constructor; [|done]|]; set_solver.
Qed.

(** What is created as a direct message is one person with one agent, or two people with one or two
    agents, each agent assigned to one of the two and no two to the same. *)
Lemma dm_shape hosted id members title now db db' : create hosted id Dm members title now db = Ok db' ->
  let agents := List.filter is_agent (distinct [] members) in
  let humans := List.filter (fun m => negb (is_agent m)) (distinct [] members) in
  (length humans = 1 /\ length agents = 1)%nat \/
  (length humans = 2 /\ 1 <= length agents <= 2)%nat /\
  exists owners, Forall2 (fun member owner => a_participant <$> assignment (default [] (agentOf member)) db = Some owner) agents owners /\
    NoDup owners /\ forall owner, owner ∈ owners -> owner ∈ humans.
Proof.
  unfold create. cbn zeta. destruct (checkMembers _ _ _); [|done]. unfold mbind, result_bind.
  set (agents := List.filter is_agent _). set (humans := List.filter _ _). unfold checkDmShape. intros H.
  destruct ((length humans =? 1)%nat && (length agents =? 1)%nat) eqn:E1; [left; bool_to_prop; lia|right].
  destruct (negb (length humans =? 2)%nat || (length agents =? 0)%nat || (2 <? length agents)%nat) eqn:E2; [done|]. bool_to_prop.
  destruct (one_each humans [] agents db) eqn:E3; [|done]. apply one_each_spec in E3 as (l & Hl & Hn & Hi). split; [lia|]. exists l. naive_solver.
Qed.
