(* ===== verification/TeamRoutes.v ===== *)
(** * The team's routes: [packages/server/src/handler.ts], from participants to the space's writer

    What each route makes of its caller, over [Team], [Scopes] and [Rooms]. A request carries its
    parameters and a body that parsed. Posting, deciding and pushing presence go on in [Hub]; every
    other call is done here. *)
From S2P Require Import Prelude UString SessionKey Principal Team Scopes Rooms.
Local Open Scope Z_scope.

Inductive TeamRequest :=
| RRegister (i : ParticipantInput)
| RParticipants
| RDeleteParticipant (id : ustring)
| RCreate (kind : ConversationKind) (members : list ustring) (title : option ustring)
| RConversations
| RConversation (id : ustring)
| RMembers (id : ustring) (add remove : option (list ustring))
| RPost (id text : ustring) (mentions : option (list ustring)) (authorId : option ustring)
| RMessages (id : ustring) (after : Z) (limit : nat)
| RPresence (id : ustring) (p : Presence)
| RActions (status : option ActionStatus)
| RDecide (id : ustring) (approve : bool)
| RAssign (agent who : ustring) (channels : option (list ustring))
| RAssignee (agent : ustring)
| RUnassign (agent : ustring)
| RAddNote (scope text : ustring)
| RNotes (scope : ustring)
| RDeleteNote (id : ustring)
| RReads (who : ustring)
| RProjects
| RPutProject (id : ustring) (name : option ustring) (agents : option (list ustring))
| RDeleteProject (id : ustring)
| RSpaceWriter (writer : ustring).

(** What a route shows. *)
Inductive Shown :=
| ShowParticipants (l : list (ustring * ParticipantRecord))
| ShowConversations (l : list ConversationRecord)
| ShowMessages (l : list ConversationMessage)
| ShowActions (l : list (ustring * DeferredAction))
| ShowAssignment (a : option AssignmentRecord)
| ShowNotes (l : list (ustring * MemoryNote))
| ShowReads (l : list MemoryRead)
| ShowProjects (l : list ProjectRecord).

Inductive Answer :=
| Refuse (status : Z) (code : ustring)
| Show (x : Shown)
| Changed (status : Z) (db : TeamDb)
| GoPost (conversation author text : ustring) (mentions : option (list ustring))
| GoDecide (action : ustring) (approve : bool)
| GoPresence (who : ustring) (p : Presence).

(** The capability a route declares. *)
Definition needs (r : TeamRequest) : Capability :=
  match r with
  | RParticipants | RConversations | RConversation _ | RMessages _ _ _ | RActions _ | RAssignee _ | RNotes _ | RReads _ | RProjects => CapRead
  | RPost _ _ _ _ | RPresence _ _ | RDecide _ _ | RAddNote _ _ | RDeleteNote _ => CapChat
  | _ => CapAdmin
  end.

Definition refusedBy (code : ustring) : Answer :=
  Refuse (if bool_decide (code = js "internal") then 500
          else if ends_with (js "_not_found") code then 404 else if ends_with (js "_forbidden") code then 403 else 400) code.
Definition answer_of (status : Z) (r : result ustring TeamDb) : Answer :=
  match r with Ok db => Changed status db | Err code => refusedBy code end.

Definition seesConversation (p : Principal) (c : ConversationRecord) : bool :=
  match boundParticipant p with Some bound => bool_decide (bound ∈ c_members c) | None => true end &&
  forallb (fun member => match agentOf member with None => true | Some agent => reachesAgent p agent end) (c_members c).

Definition conversationNotFound : Answer := Refuse 404 (js "conversation_not_found").
Definition withConversation (p : Principal) (id : ustring) (db : TeamDb) (work : ConversationRecord -> Answer) : Answer :=
  match get id db with
  | Some c => if seesConversation p c then work c else conversationNotFound
  | None => conversationNotFound
  end.

Definition memoryActor (p : Principal) : result unit (option ustring) :=
  if bool_decide (is_Some (boundParticipant p)) || can p CapAdmin then Ok (boundParticipant p) else Err tt.

Definition requireAdminParticipant (p : Principal) (db : TeamDb) : bool :=
  match boundParticipant p with None => true | Some bound => is_admin bound db end.

Section Routes.
(** The agents hosted, the zones known, the time, and a fresh id for what is created. *)
Context (hosted : ustring -> option Hosted) (isTimeZone : ustring -> bool) (now : Z) (fresh : ustring).

Definition hosts_agent (agent : ustring) : bool := bool_decide (is_Some (hosted agent)).
Definition withAgent (p : Principal) (agent : ustring) (work : Answer) : Answer :=
  if hosts_agent agent && reachesAgent p agent then work else Refuse 404 (js "agent_not_found").

Definition post_participants (i : ParticipantInput) (db : TeamDb) : Answer := answer_of 201 (registerParticipant isTimeZone i now db).
Definition get_participants (db : TeamDb) : Answer := Show (ShowParticipants (list_participants db)).
Definition delete_participant (id : ustring) (db : TeamDb) : Answer :=
  let (deleted, db) := deleteParticipant id db in if deleted then Changed 200 db else Refuse 404 (js "participant_not_found").

Definition post_conversations (p : Principal) (kind : ConversationKind) (members : list ustring) (title : option ustring) (db : TeamDb) : Answer :=
  if match boundParticipant p with Some b => negb (bool_decide (b ∈ members)) | None => false end
  then Refuse 403 (js "conversation_creator_not_member")
  else if existsb (fun m => match agentOf m with Some agent => negb (reachesAgent p agent) | None => false end) members
  then Refuse 400 (js "conversation_member_unknown")
  else answer_of 201 (create hosted fresh kind members title now db).
Definition get_conversations (p : Principal) (db : TeamDb) : Answer :=
  Show (ShowConversations (List.filter (seesConversation p) (list_conversations db))).
Definition get_conversation (p : Principal) (id : ustring) (db : TeamDb) : Answer :=
  withConversation p id db (fun c => Show (ShowConversations [c])).
Definition patch_members (p : Principal) (id : ustring) (add remove : option (list ustring)) (db : TeamDb) : Answer :=
  withConversation p id db (fun c => answer_of 200 (setMembers hosted (c_id c) (default [] add) (default [] remove) db)).

Definition post_messages (p : Principal) (id text : ustring) (mentions : option (list ustring)) (claimed : option ustring) (db : TeamDb) : Answer :=
  withConversation p id db (fun c =>
    match boundParticipant p, claimed with
    | Some b, Some a => if bool_decide (a = b) then GoPost (c_id c) b text mentions else Refuse 403 (js "sender_not_bound_participant")
    | Some b, None => GoPost (c_id c) b text mentions
    | None, Some a => GoPost (c_id c) a text mentions
    | None, None => Refuse 400 (js "conversation_author_required")
    end).
(** [after] and [limit] are the numbers read, 0 where there are none. *)
Definition get_messages (p : Principal) (id : ustring) (after : Z) (limit : nat) (db : TeamDb) : Answer :=
  withConversation p id db (fun c =>
    Show (ShowMessages (messagesAfter (c_id c) (Z.max 0 after) (if (limit =? 0)%nat then 200 else Nat.min limit 500)%nat db))).

Definition put_presence (p : Principal) (id : ustring) (x : Presence) : Answer :=
  if match boundParticipant p with Some b => negb (bool_decide (b = id)) | None => false end
  then Refuse 403 (js "sender_not_bound_participant")
  else GoPresence id x.

Definition get_actions (p : Principal) (status : option ActionStatus) (db : TeamDb) : Answer :=
  Show (ShowActions (List.filter (fun a => reachesAgent p (d_agent a.2)) (list_actions (boundParticipant p) status db))).
Definition post_action (p : Principal) (id : ustring) (approve : bool) (db : TeamDb) : Answer :=
  match action id db with
  | Some a =>
      if reachesAgent p (d_agent a) && match boundParticipant p with Some b => bool_decide (b = d_owner a) | None => true end
      then GoDecide id approve
      else Refuse 404 (js "action_not_found")
  | None => Refuse 404 (js "action_not_found")
  end.

Definition put_assignee (p : Principal) (agent who : ustring) (channels : option (list ustring)) (db : TeamDb) : Answer :=
  withAgent p agent
    (if requireAdminParticipant p db then answer_of 200 (assign hosted agent who (boundParticipant p) channels now db)
     else Refuse 403 (js "assignment_requires_admin")).
Definition get_assignee (p : Principal) (agent : ustring) (db : TeamDb) : Answer := withAgent p agent (Show (ShowAssignment (assignment agent db))).
Definition delete_assignee (p : Principal) (agent : ustring) (db : TeamDb) : Answer := withAgent p agent (Changed 200 (unassign agent db).2).

Definition post_notes (p : Principal) (scope text : ustring) (db : TeamDb) : Answer :=
  match memoryActor p with
  | Ok actor => answer_of 201 (addNote fresh scope text actor now db)
  | Err _ => Refuse 403 (js "memory_write_requires_admin")
  end.
Definition get_notes (p : Principal) (scope : ustring) (db : TeamDb) : Answer :=
  match hub_notes scope (boundParticipant p) db with Ok l => Show (ShowNotes l) | Err code => refusedBy code end.
Definition delete_note (p : Principal) (id : ustring) (db : TeamDb) : Answer :=
  match memoryActor p with
  | Ok actor => answer_of 200 (deleteNote id actor db)
  | Err _ => Refuse 403 (js "memory_write_requires_admin")
  end.
Definition get_reads (p : Principal) (who : ustring) (db : TeamDb) : Answer :=
  match hub_reads who (boundParticipant p) db with Ok l => Show (ShowReads l) | Err code => refusedBy code end.

Definition get_projects (db : TeamDb) : Answer := Show (ShowProjects (list_projects db)).
Definition put_project (p : Principal) (id : ustring) (name : option ustring) (agents : option (list ustring)) (db : TeamDb) : Answer :=
  if negb (requireAdminParticipant p db) then Refuse 403 (js "memory_scope_forbidden")
  else if existsb (fun a => negb (reachesAgent p a)) (default [] agents) then Refuse 404 (js "agent_not_found")
  else answer_of 200 (upsertProject hosts_agent id name agents now db).
Definition delete_project (p : Principal) (id : ustring) (db : TeamDb) : Answer :=
  if negb (requireAdminParticipant p db) then Refuse 403 (js "memory_scope_forbidden") else Changed 200 (deleteProject id db).2.
Definition put_space_writer (p : Principal) (writer : ustring) (db : TeamDb) : Answer :=
  if negb (requireAdminParticipant p db) then Refuse 403 (js "memory_scope_forbidden")
  else answer_of 200 (setSpaceWriter hosts_agent writer (boundParticipant p) now db).

Definition handle (p : Principal) (r : TeamRequest) (db : TeamDb) : Answer :=
  match r with
  | RRegister i => post_participants i db
  | RParticipants => get_participants db
  | RDeleteParticipant id => delete_participant id db
  | RCreate kind members title => post_conversations p kind members title db
  | RConversations => get_conversations p db
  | RConversation id => get_conversation p id db
  | RMembers id add remove => patch_members p id add remove db
  | RPost id text mentions claimed => post_messages p id text mentions claimed db
  | RMessages id after limit => get_messages p id after limit db
  | RPresence id x => put_presence p id x
  | RActions status => get_actions p status db
  | RDecide id approve => post_action p id approve db
  | RAssign agent who channels => put_assignee p agent who channels db
  | RAssignee agent => get_assignee p agent db
  | RUnassign agent => delete_assignee p agent db
  | RAddNote scope text => post_notes p scope text db
  | RNotes scope => get_notes p scope db
  | RDeleteNote id => delete_note p id db
  | RReads who => get_reads p who db
  | RProjects => get_projects db
  | RPutProject id name agents => put_project p id name agents db
  | RDeleteProject id => delete_project p id db
  | RSpaceWriter writer => put_space_writer p writer db
  end.

(** Behind the front door's test of the capability. *)
Definition serve (p : Principal) (r : TeamRequest) (db : TeamDb) : Answer :=
  if can p (needs r) then handle p r db else Refuse 403 (js "capability_required").
End Routes.

(** ** What a member's key can do *)

Lemma get_id id db c : get id db = Some c -> c_id c = id.
Proof. unfold get. by intros (row & _ & ->)%fmap_Some. Qed.

Lemma elem_of_messagesAfter conv after limit db m : m ∈ messagesAfter conv after limit db -> m_conversation m = conv.
Proof.
  unfold messagesAfter. intros (n & H & _)%elem_of_take. apply list_elem_of_lookup_2, list_elem_of_In, List.filter_In in H as [_ H]. by bool_to_prop.
Qed.

Lemma elem_of_list_actions owner status db x : x ∈ list_actions (Some owner) status db -> d_owner x.2 = owner.
Proof. unfold list_actions. intros H. apply list_elem_of_In, List.filter_In in H as [_ H]. by bool_to_prop. Qed.

Lemma elem_of_reads_in scope limit db r : r ∈ reads_in scope limit db -> r_scope r = scope.
Proof.
  unfold reads_in. intros (n & H & _)%elem_of_take. apply list_elem_of_lookup_2, list_elem_of_In, in_rev, List.filter_In in H as [_ H].
  by bool_to_prop.
Qed.

(** What [me] may be shown. *)
Definition shown_to (p : Principal) (me : ustring) (db : TeamDb) (x : Shown) : Prop :=
  match x with
  | ShowConversations l => forall c, c ∈ l -> me ∈ c_members c /\ (forall agent, agentParticipant agent ∈ c_members c -> reachesAgent p agent = true)
  | ShowMessages l => forall m, m ∈ l -> exists c, get (m_conversation m) db = Some c /\ me ∈ c_members c
  | ShowActions l => forall a, a ∈ l -> d_owner a.2 = me /\ reachesAgent p (d_agent a.2) = true
  | ShowNotes l => forall n, n ∈ l -> exists s, n_scope n.2 = scope_text s /\ match s with OwnerScope x | AgentsScope x => x = me | _ => True end
  | ShowReads l => is_admin me db = true \/ forall r, r ∈ l -> r_scope r = scope_text (OwnerScope me)
  | ShowAssignment _ | ShowParticipants _ | ShowProjects _ => True
  end.

Definition done_for (p : Principal) (me : ustring) (db : TeamDb) (a : Answer) : Prop :=
  match a with
  | Refuse _ _ => True
  | Show x => shown_to p me db x
  | Changed _ db' => exists notes', db' = with_notes notes' db /\
      forall id, notes' !! id <> notes db !! id ->
        match notes' !! id with
        | Some n => notes db !! id = None /\ mayWrite (n_scope n) (Some me) db = Ok tt /\ n_writtenBy n = me
        | None => exists n, notes db !! id = Some n /\ mayWrite (n_scope n) (Some me) db = Ok tt
        end
  | GoPost conv author _ _ => author = me /\ exists c, get conv db = Some c /\ me ∈ c_members c
  | GoDecide id _ => exists a, action id db = Some a /\ d_owner a = me
  | GoPresence who _ => who = me
  end.

Lemma seesConversation_spec p me c : boundParticipant p = Some me -> seesConversation p c = true ->
  me ∈ c_members c /\ forall agent, agentParticipant agent ∈ c_members c -> reachesAgent p agent = true.
Proof.
  unfold seesConversation. intros -> H. apply andb_true_iff in H as [Hm Ha]. bool_to_prop. split; [done|]. intros agent Hin.
  rewrite forallb_forall in Ha. apply list_elem_of_In in Hin. specialize (Ha _ Hin). exact Ha.
Qed.

Lemma withConversation_for p me id db work : boundParticipant p = Some me ->
  (forall c, get id db = Some c -> seesConversation p c = true -> done_for p me db (work c)) -> done_for p me db (withConversation p id db work).
Proof.
  intros Hb H. unfold withConversation. destruct (get id db) as [c|]; [|done]. destruct (seesConversation p c) eqn:E; [by apply H|done].
Qed.

Lemma answer_for p me db st r : (forall db', r = Ok db' -> done_for p me db (Changed st db')) -> done_for p me db (answer_of st r).
Proof. unfold answer_of, refusedBy. destruct r; [auto|done]. Qed.

(** C15. A key that speaks for one person and does not carry [admin]: whatever it asks of these routes,
    what it changes at once are notes in scopes that person may write, new ones under their name; it
    posts as them, in a conversation they are in, decides only what waits for them and sets only
    their presence; and it is shown conversations and messages of theirs, their actions, notes that
    are theirs or the team's, and the audit of their own memory unless they are an admin. *)
Theorem member_key_confined (hosted : ustring -> option Hosted) (isTimeZone : ustring -> bool) (now : Z) (fresh : ustring)
  (p : Principal) (me : ustring) (r : TeamRequest) (db : TeamDb) :
  boundParticipant p = Some me -> can p CapAdmin = false -> done_for p me db (serve hosted isTimeZone now fresh p r db).
Proof.
  intros Hb Hc. unfold serve. destruct (can p (needs r)) eqn:En; [|done].
  destruct r as [i| |id|kind ms ti| |id|id add rm|id tx mn au|id af li|id x|st|id ap|ag who ch|ag|ag|sc tx|sc|id|who| |id nm ags|id|w];
    cbn [needs] in En; try (by rewrite Hc in En); cbn [handle];
    unfold get_participants, get_conversations, get_conversation, post_messages, get_messages, put_presence, get_actions, post_action, get_assignee,
      post_notes, get_notes, delete_note, get_reads, get_projects; rewrite ?Hb.
  - done.
  - intros c H. apply list_elem_of_In, List.filter_In in H as [_ H]. by apply seesConversation_spec.
  - apply withConversation_for; [done|]. intros c Hg Hs c' ->%list_elem_of_singleton. by apply seesConversation_spec.
  - apply withConversation_for; [done|]. intros c Hg Hs. pose proof (get_id _ _ _ Hg) as <-. apply (seesConversation_spec _ me) in Hs as [Hs _]; [|done].
    destruct au as [a|]; [case_bool_decide; [|done]|]; (split; [done|by exists c]).
  - apply withConversation_for; [done|]. intros c Hg Hs m Hm. apply elem_of_messagesAfter in Hm as ->. pose proof (get_id _ _ _ Hg) as <-.
    exists c. split; [done|]. by eapply seesConversation_spec.
  - case_bool_decide; cbn; [by subst|done].
  - intros a H. apply list_elem_of_In, List.filter_In in H as [H Hr]. apply list_elem_of_In, elem_of_list_actions in H. done.
  - destruct (action id db) as [a|] eqn:Ea; [|done]. destruct (_ && _) eqn:E; [|done]. bool_to_prop. by exists a.
  - unfold withAgent. by destruct (_ && _).
  - unfold memoryActor. rewrite Hb, bool_decide_eq_true_2 by done. cbn [orb]. apply answer_for. intros db' H.
    apply addNote_ok in H as (s & -> & _ & Hw & _ & Hn & ->). eexists. split; [done|]. intros id Hd.
    destruct (decide (fresh = id)) as [<-|N]; [|by rewrite lookup_insert_ne in Hd]. rewrite lookup_insert_eq. cbn. split; [done|].
    split; [by apply mayWrite_spec|done].
  - destruct (hub_notes sc (Some me) db) as [l|code] eqn:E; [|done]. apply hub_notes_ok in E as (s & -> & -> & Hw). intros n Hn.
    apply elem_of_notes_in in Hn as [_ Hn]. exists s. split; [done|]. destruct s; try done; destruct Hw as (_ & _ & [?|Hw]); try done; by injection Hw.
  - unfold memoryActor. rewrite Hb, bool_decide_eq_true_2 by done. cbn [orb]. apply answer_for. intros db' H.
    apply deleteNote_ok in H as (n & Hn & Hw & ->). eexists. split; [done|]. intros id' Hd.
    destruct (decide (id = id')) as [<-|N]; [|by rewrite lookup_delete_ne in Hd]. rewrite lookup_delete_eq. by exists n.
  - unfold hub_reads. destruct (negb (bool_decide (me = who)) && negb (is_admin me db)) eqn:E; [done|]. cbn.
    apply andb_false_iff in E as [E|E]; bool_to_prop; [right|by left]. subst who. intros r Hr. by apply elem_of_reads_in in Hr.
  - done.
Qed.

(** ** Requests that go further *)

Local Abbreviation ada := (js "ada").
Local Abbreviation bo := (js "bo").
Local Abbreviation key can agents who :=
  (PKey (js "k") [] (Some {| s_agents := agents; s_sessions := None; s_can := can; s_participant := who |})).
Local Abbreviation person role :=
  {| p_name := None; p_role := role; p_title := None; p_timezone := None; p_channels := None; p_created := 0; p_presence := None; p_presenceAt := None |}.
(** Two agents are hosted; Ada is an admin, Bo a member; one note is Ada's own. *)
Definition two_agents (agent : ustring) : option Hosted :=
  if bool_decide (agent ∈ [js "crew"; js "vault"]) then Some {| h_maxHops := 4; h_standIn := true |} else None.
Definition small_team : TeamDb :=
  with_notes {[ js "n" := {| n_scope := js "owner:ada"; n_text := js "private"; n_writtenBy := ada; n_created := 0 |} ]}
    (upsertParticipant bo (person Member) (upsertParticipant ada (person Admin) empty_team)).
Definition ask (p : Principal) (r : TeamRequest) (db : TeamDb) : Answer := serve two_agents (fun _ => true) 0 (js "id") p r db.
Definition accepted (a : Answer) : bool := match a with Refuse _ _ => false | _ => true end.
Definition team_of (a : Answer) : TeamDb := match a with Changed _ db => db | _ => empty_team end.

Lemma member_key_confined_witness :
  boundParticipant (key (Some [CapRead; CapChat]) None (Some bo)) = Some bo /\
  accepted (ask (key (Some [CapRead; CapChat]) None (Some bo)) (RAddNote (js "owner:bo") (js "mine")) small_team) = true /\
  done_for (key (Some [CapRead; CapChat]) None (Some bo)) bo small_team
    (ask (key (Some [CapRead; CapChat]) None (Some bo)) (RAddNote (js "owner:bo") (js "mine")) small_team).
Proof.
  split; [reflexivity|]. split; [vm_compute; reflexivity|].
  exact (member_key_confined two_agents (fun _ => true) 0 (js "id") (key (Some [CapRead; CapChat]) None (Some bo)) bo (RAddNote (js "owner:bo") (js "mine"))
    small_team eq_refl eq_refl).
Defined.

(** A key bound to nobody reads anybody's notes with [read] alone, where to write them it would need [admin]. *)
Theorem unbound_key_reads_owner_notes :
  (exists l, ask (key (Some [CapRead]) (Some [js "crew"]) None) (RNotes (js "owner:ada")) small_team = Show (ShowNotes l) /\ length l = 1%nat) /\
  ask (key (Some [CapRead; CapChat]) (Some [js "crew"]) None) (RAddNote (js "owner:ada") (js "x")) small_team =
    Refuse 403 (js "memory_write_requires_admin").
Proof. split; [eexists; split; vm_compute; reflexivity|]. by vm_compute. Qed.

(** The operator writes a person's notes, which an admin may not. *)
Theorem operator_writes_owner_notes :
  accepted (ask PToken (RAddNote (js "owner:bo") (js "x")) small_team) = true /\
  ask (key None None (Some ada)) (RAddNote (js "owner:bo") (js "x")) small_team = Refuse 403 (js "memory_scope_forbidden").
Proof. split; by vm_compute. Qed.

(** A member whose key carries [admin] may not assign an agent, but may make itself an admin and then assign it. *)
Theorem member_makes_itself_admin :
  let key := key None None (Some bo) in
  let promoted := ask key (RRegister {| i_id := bo; i_name := None; i_role := Some Admin; i_title := None; i_timezone := None; i_channels := None |}) small_team in
  ask key (RAssign (js "crew") bo None) small_team = Refuse 403 (js "assignment_requires_admin") /\
  accepted promoted = true /\ accepted (ask key (RAssign (js "crew") bo None) (team_of promoted)) = true.
Proof. split; [by vm_compute|]. split; by vm_compute. Qed.

(** A key narrowed to one agent may not start a room with another, but may add the other to the room. *)
Theorem narrow_key_adds_other_agent :
  let key := key None (Some [js "crew"]) None in
  let room := ask key (RCreate Room [ada; js "agent:crew"] None) small_team in
  ask key (RCreate Room [ada; js "agent:vault"] None) small_team = Refuse 400 (js "conversation_member_unknown") /\
  accepted room = true /\ accepted (ask key (RMembers (js "id") (Some [js "agent:vault"]) None) (team_of room)) = true.
Proof. split; [by vm_compute|]. split; by vm_compute. Qed.

(** What a person's agents remembered together outlives the person: whoever is registered under the
    same id next may read it. *)
Theorem pool_outlives_participant :
  let pool := {| n_scope := js "agents:bo"; n_text := js "kept"; n_writtenBy := js "agent:crew"; n_created := 0 |} in
  let db := with_notes {[ js "n" := pool ]} small_team in
  let gone := team_of (ask PToken (RDeleteParticipant bo) db) in
  let again := team_of (ask PToken (RRegister {| i_id := bo; i_name := None; i_role := None; i_title := None; i_timezone := None; i_channels := None |}) gone) in
  ask (key (Some [CapRead]) None (Some bo)) (RNotes (js "agents:bo")) again = Show (ShowNotes [(js "n", pool)]).
Proof. by vm_compute. Qed.
