(* ===== verification/Hub.v ===== *)
(** * The conversation hub: [ConversationHub] of [runtime/conversations.ts]

    A message that is logged is announced to the members that are agents. Work is queued per agent and
    conversation, one at a time; a call of the hub is a task. Both run from one [await] to the next, in
    any order, with the calls of others between; what an agent answers and when a timer fires is the
    environment's. Names, which only the prose shows, are read where they are used.
    [announced], [handled], [forgotten], [turns], [ran] and [decided] are the record the theorems speak of. *)
From stdpp Require Import sorting.
From S2P Require Import Prelude UString SessionKey Team Rooms.
Local Open Scope Z_scope.

(** ** Queued work *)

Inductive Work := Deliver (addressed : bool) | StandIn (owner : ustring).

(** Where a job stands: not begun, or in the [await] named. [Replying] has the conversation read back. *)
Inductive Phase :=
| Queued
| Began (addressed : bool) (h : Hosted)
| Observing
| Turning
| Checked (owner : ustring) (away : bool)
| StandTurning (owner ownerName : ustring) (disclosed : bool)
| Replying (c : option ConversationRecord) (text turn : ustring) (behalf : option (ustring * ustring * bool))
| Saying (c : ConversationRecord) (reply : ConversationMessage).

Record Job := { j_agent : ustring; j_conversation : ustring; j_message : ConversationMessage; j_work : Work; j_phase : Phase }.

Definition at_phase (p : Phase) (j : Job) : Job :=
  {| j_agent := j_agent j; j_conversation := j_conversation j; j_message := j_message j; j_work := j_work j; j_phase := p |}.
Definition same_queue (i j : Job) : bool :=
  bool_decide (j_agent i = j_agent j) && bool_decide (j_conversation i = j_conversation j).

(** A stand-in that waits for its timer. *)
Record Waiting := { w_owner : ustring; w_agent : ustring; w_conversation : ustring; w_message : ConversationMessage }.

(** ** Calls under way *)

Inductive Task :=
| PostRead (c : ConversationRecord) (author text : ustring) (mentions : option (list ustring))
| Announce (c : ConversationRecord) (m : ConversationMessage)
| Assess (agent : ustring) (c : ConversationRecord) (m : ConversationMessage) (h : option Hosted) (owner : option ustring)
| AssessPresence (agent : ustring) (c : ConversationRecord) (m : ConversationMessage) (owner : ustring) (away : bool)
| PresenceSet (who : ustring) (p : Presence)
| ActionRead (id : ustring) (a : option DeferredAction) (approve : bool)
| ActionOwner (id : ustring) (a : DeferredAction) (h : option Hosted) (ownerName : ustring) (approve : bool)
| ActionRunning (id : ustring) (a : DeferredAction) (ownerName : ustring)
| ActionStored (id : ustring) (a : DeferredAction) (ownerName : ustring) (status : ActionStatus) (result : option ustring) (stored : bool)
| ActionNote (c : option ConversationRecord) (a : DeferredAction) (ownerName : ustring) (status : ActionStatus) (result : option ustring).

(** How a piece of work ended: the agent is not hosted any more, it read the message, the reading
    failed, its turn threw, it had nothing to say, its reply found no conversation, it answered. *)
Inductive Outcome := Gone | Read | ReadFailed | Skipped | Silent | Lost | Answered.
#[export] Instance Outcome_eq_dec : EqDecision Outcome.
Proof. solve_decision. Defined.

Record Turn := { t_agent : ustring; t_message : ConversationMessage; t_behalf : option ustring; t_ceiling : Z }.

Record HubState := {
  team : TeamDb; agents : gmap ustring Hosted; jobs : list Job; waiting : list Waiting; tasks : list Task;
  announced : list (ConversationRecord * ConversationMessage); handled : list (ustring * ConversationMessage * Outcome);
  forgotten : list (ustring * ConversationMessage);
  turns : list Turn; ran : list ustring; decided : list ustring }.

Definition with_team (t : TeamDb) (s : HubState) : HubState :=
  {| team := t; agents := agents s; jobs := jobs s; waiting := waiting s; tasks := tasks s; announced := announced s; handled := handled s; forgotten := forgotten s;
     turns := turns s; ran := ran s; decided := decided s |}.
Definition with_agents (a : gmap ustring Hosted) (s : HubState) : HubState :=
  {| team := team s; agents := a; jobs := jobs s; waiting := waiting s; tasks := tasks s; announced := announced s; handled := handled s; forgotten := forgotten s;
     turns := turns s; ran := ran s; decided := decided s |}.
Definition with_jobs (l : list Job) (s : HubState) : HubState :=
  {| team := team s; agents := agents s; jobs := l; waiting := waiting s; tasks := tasks s; announced := announced s; handled := handled s; forgotten := forgotten s;
     turns := turns s; ran := ran s; decided := decided s |}.
Definition with_waiting (l : list Waiting) (s : HubState) : HubState :=
  {| team := team s; agents := agents s; jobs := jobs s; waiting := l; tasks := tasks s; announced := announced s; handled := handled s; forgotten := forgotten s;
     turns := turns s; ran := ran s; decided := decided s |}.
Definition with_tasks (l : list Task) (s : HubState) : HubState :=
  {| team := team s; agents := agents s; jobs := jobs s; waiting := waiting s; tasks := l; announced := announced s; handled := handled s; forgotten := forgotten s;
     turns := turns s; ran := ran s; decided := decided s |}.
Definition note_announced (c : ConversationRecord) (m : ConversationMessage) (s : HubState) : HubState :=
  {| team := team s; agents := agents s; jobs := jobs s; waiting := waiting s; tasks := tasks s; announced := announced s ++ [(c, m)];
     handled := handled s; forgotten := forgotten s; turns := turns s; ran := ran s; decided := decided s |}.
Definition note_handled (agent : ustring) (m : ConversationMessage) (o : Outcome) (s : HubState) : HubState :=
  {| team := team s; agents := agents s; jobs := jobs s; waiting := waiting s; tasks := tasks s; announced := announced s;
     handled := handled s ++ [(agent, m, o)]; forgotten := forgotten s; turns := turns s; ran := ran s; decided := decided s |}.
Definition note_turn (t : Turn) (s : HubState) : HubState :=
  {| team := team s; agents := agents s; jobs := jobs s; waiting := waiting s; tasks := tasks s; announced := announced s; handled := handled s; forgotten := forgotten s;
     turns := turns s ++ [t]; ran := ran s; decided := decided s |}.
Definition note_ran (id : ustring) (s : HubState) : HubState :=
  {| team := team s; agents := agents s; jobs := jobs s; waiting := waiting s; tasks := tasks s; announced := announced s; handled := handled s; forgotten := forgotten s;
     turns := turns s; ran := ran s ++ [id]; decided := decided s |}.
Definition note_decided (id : ustring) (s : HubState) : HubState :=
  {| team := team s; agents := agents s; jobs := jobs s; waiting := waiting s; tasks := tasks s; announced := announced s; handled := handled s; forgotten := forgotten s;
     turns := turns s; ran := ran s; decided := decided s ++ [id] |}.

(** ** Announcing *)

(** A new entry at the end of its queue. *)
Definition enqueue (agent conv : ustring) (m : ConversationMessage) (w : Work) (s : HubState) : HubState :=
  with_jobs (jobs s ++ [{| j_agent := agent; j_conversation := conv; j_message := m; j_work := w; j_phase := Queued |}]) s.
Definition spawn (t : Task) (s : HubState) : HubState := with_tasks (tasks s ++ [t]) s.

(** [#maybeStandIn] up to its first [await]. *)
Definition maybeStandIn (agent : ustring) (c : ConversationRecord) (m : ConversationMessage) (s : HubState) : HubState :=
  spawn (Assess agent c m (agents s !! agent) (a_participant <$> assignment agent (team s))) s.

Definition withdrawn (owner : ustring) (conv : option ustring) (w : Waiting) : bool :=
  bool_decide (w_owner w = owner) && match conv with None => true | Some c => bool_decide (w_conversation w = c) end.
Definition withdraw (owner : ustring) (conv : option ustring) (s : HubState) : HubState :=
  let s' := with_waiting (List.filter (fun w => negb (withdrawn owner conv w)) (waiting s)) s in
  foldl (fun s w => enqueue (w_agent w) (w_conversation w) (w_message w) (Deliver false) s) s'
    (List.filter (withdrawn owner conv) (waiting s)).

Definition hand (c : ConversationRecord) (m : ConversationMessage) (s : HubState) (t : ustring * Handling) : HubState :=
  match t.2 with
  | ToAssess => maybeStandIn t.1 c m s
  | ToDeliver addressed => enqueue t.1 (c_id c) m (Deliver addressed) s
  end.
Definition fanOut (c : ConversationRecord) (m : ConversationMessage) (s : HubState) : HubState :=
  let s := foldl (hand c m) (note_announced c m s) (targets c m) in
  match m_origin m with FromHuman => withdraw (m_author m) (Some (c_id c)) s | FromAgent => s end.

(** ** A job from one [await] to the next *)

Inductive Answer := Text (text turn : ustring) | Threw | Result (ok : bool) (output : ustring) | NoAnswer.

(** The job's next phase, or how it ended; what it started; what it logged. *)
Inductive Moved :=
| Goes (p : Phase)
| Starts (p : Phase) (t : Turn)
| Says (c : ConversationRecord) (m : ConversationMessage) (t : TeamDb)
| Ends (o : Outcome)
| EndsAnnouncing (c : ConversationRecord) (m : ConversationMessage).

Definition name_of (who : ustring) (t : TeamDb) : ustring := default who (participant who t ≫= p_name).
Definition away (who : ustring) (t : TeamDb) : bool := bool_decide (participant who t ≫= p_presence = Some Offline).

(** The disclosure a first reply opens with. *)
Definition disclosure (ownerName : ustring) : ustring :=
  js "(" ++ ownerName ++ js "'s agent, answering while " ++ ownerName ++ js " is away.) ".

Definition begin_delivery (agent : ustring) (addressed : bool) (hosts : gmap ustring Hosted) : Moved :=
  match hosts !! agent with None => Ends Gone | Some h => Goes (Began addressed h) end.

(** [deliver] past the author's name. *)
Definition deliver_or_skip (agent : ustring) (m : ConversationMessage) (addressed : bool) (h : Hosted) : Moved :=
  if addressed && negb (bool_decide (m_origin m = FromAgent) && (h_maxHops h <=? m_hop m))
  then Starts Turning {| t_agent := agent; t_message := m; t_behalf := None; t_ceiling := h_maxHops h |}
  else Goes Observing.

Definition after_turn (conv : ustring) (behalf : option (ustring * ustring * bool)) (a : Answer) (t : TeamDb) : option Moved :=
  match a with
  | Text text turn =>
      let text := trim text in
      Some (if bool_decide (text = []) then Ends Silent else Goes (Replying (get conv t) text turn behalf))
  | Threw => Some (Ends Skipped)
  | _ => None
  end.

Definition disclosed_before (conv agent owner : ustring) (t : TeamDb) : bool :=
  existsb (fun e => bool_decide (m_author e = agentParticipant agent) && bool_decide (m_behalf e = Some owner)) (messagesAfter conv 0 500 t).

(** The reply as [#append] stores it. *)
Definition reply (j : Job) (c : ConversationRecord) (text turn : ustring) (behalf : option (ustring * ustring * bool)) (t : TeamDb)
  : ConversationMessage * TeamDb :=
  let self := agentParticipant (j_agent j) in
  let hop := m_hop (j_message j) + 1 in
  match behalf with
  | None => append (j_conversation j) self FromAgent text (mentionsIn text (c_members c) self) hop (Some turn) None t
  | Some (owner, ownerName, disclosed) =>
      append (j_conversation j) self FromAgent (if disclosed then text else disclosure ownerName ++ text) [] hop (Some turn) (Some owner) t
  end.

Definition run_job (j : Job) (a : Answer) (hosts : gmap ustring Hosted) (t : TeamDb) : option Moved :=
  let agent := j_agent j in
  let m := j_message j in
  match j_phase j with
  | Queued =>
      match j_work j with
      | Deliver addressed => Some (begin_delivery agent addressed hosts)
      | StandIn owner => Some (match hosts !! agent with None => Ends Gone | Some _ => Goes (Checked owner (away owner t)) end)
      end
  | Checked owner false => Some (begin_delivery agent false hosts)
  | Checked owner true =>
      Some (Starts (StandTurning owner (name_of owner t) (disclosed_before (j_conversation j) agent owner t))
             {| t_agent := agent; t_message := m; t_behalf := Some owner; t_ceiling := 0 |})
  | Began addressed h => Some (deliver_or_skip agent m addressed h)
  | Observing => match a with Text _ _ => Some (Ends Read) | Threw => Some (Ends ReadFailed) | _ => None end
  | Turning => after_turn (j_conversation j) None a t
  | StandTurning owner ownerName disclosed => after_turn (j_conversation j) (Some (owner, ownerName, disclosed)) a t
  | Replying None _ _ _ => Some (Ends Lost)
  | Replying (Some c) text turn behalf => let (m, t) := reply j c text turn behalf t in Some (Says c m t)
  | Saying c m => Some (EndsAnnouncing c m)
  end.

(** Only the first of its queue runs. *)
Definition step_job (i : nat) (a : Answer) (s : HubState) : option HubState :=
  match jobs s !! i with
  | None => None
  | Some j =>
      if existsb (same_queue j) (take i (jobs s)) then None
      else
        let gone := with_jobs (base.delete i (jobs s)) s in
        let on p s := with_jobs (<[i := at_phase p j]> (jobs s)) s in
        moved ← run_job j a (agents s) (team s);
        Some match moved with
        | Goes p => on p s
        | Starts p t => note_turn t (on p s)
        | Says c m t => with_team t (on (Saying c m) s)
        | Ends o => note_handled (j_agent j) (j_message j) o gone
        | EndsAnnouncing c m => fanOut c m (note_handled (j_agent j) (j_message j) Answered gone)
        end
  end.

(** [deferMutations] of a turn that stands in: the call is queued for the owner. *)
Definition defer (i : nat) (id slug args : ustring) (now : Z) (s : HubState) : option HubState :=
  match jobs s !! i with
  | Some j =>
      match j_phase j with
      | StandTurning owner _ _ =>
          (fun t => with_team t s) <$> deferAction id
            {| d_agent := j_agent j; d_conversation := j_conversation j; d_owner := owner; d_requestedBy := m_author (j_message j);
               d_slug := slug; d_args := args; d_status := ActionPending; d_result := None; d_created := now; d_decidedAt := None |} (team s)
      | _ => None
      end
  | None => None
  end.

(** A stand-in's timer. *)
Definition fire (i : nat) (s : HubState) : option HubState :=
  match waiting s !! i with
  | Some w => Some (enqueue (w_agent w) (w_conversation w) (w_message w) (StandIn (w_owner w)) (with_waiting (base.delete i (waiting s)) s))
  | None => None
  end.

(** ** A call from one [await] to the next *)

(** [decideAction] once the call ran or was declined: the guarded update. *)
Definition settle_action (id : ustring) (a : DeferredAction) (ownerName : ustring) (status : ActionStatus) (result : option ustring) (now : Z)
  (s : HubState) : HubState :=
  match store_decideAction id status result now (team s) with
  | Some t => note_decided id (spawn (ActionStored id a ownerName status result true) (with_team t s))
  | None => spawn (ActionStored id a ownerName status result false) s
  end.

Definition said_of (ownerName slug : ustring) (status : ActionStatus) (result : option ustring) : ustring :=
  match status with
  | ActionDenied => ownerName ++ js " declined " ++ slug ++ js "."
  | ActionDone => ownerName ++ js " approved " ++ slug ++ js "; it is done. " ++ take 400 (default [] result)
  | _ => ownerName ++ js " approved " ++ slug ++ js ", and it failed: " ++ take 400 (default [] result)
  end.

(** [s] no longer holds the task. *)
Definition run_task (k : Task) (a : Answer) (now : Z) (s : HubState) : option HubState :=
  match k with
  | PostRead c author text mentions =>
      match check_post c author mentions with
      | Err _ => Some s
      | Ok mentions => let (m, t) := append (c_id c) author FromHuman text mentions 0 None None (team s) in Some (spawn (Announce c m) (with_team t s))
      end
  | Announce c m => Some (fanOut c m s)
  | Assess agent c m h owner =>
      Some match h, owner with
      | Some h, Some owner =>
          if bool_decide (owner = m_author m) || negb (h_standIn h) then enqueue agent (c_id c) m (Deliver false) s
          else spawn (AssessPresence agent c m owner (away owner (team s))) s
      | _, _ => enqueue agent (c_id c) m (Deliver false) s
      end
  | AssessPresence agent c m owner away =>
      Some (if away then with_waiting (waiting s ++ [{| w_owner := owner; w_agent := agent; w_conversation := c_id c; w_message := m |}]) s
            else enqueue agent (c_id c) m (Deliver false) s)
  | PresenceSet who p => Some match p with Online => withdraw who None s | Offline => s end
  | ActionRead id act approve =>
      match act with
      | None => Some s
      | Some act =>
          Some (if bool_decide (d_status act = ActionPending)
                then spawn (ActionOwner id act (agents s !! d_agent act) (name_of (d_owner act) (team s)) approve) s
                else s)
      end
  | ActionOwner id act h ownerName approve =>
      Some (if approve then
        match h with
        | Some _ => note_ran id (spawn (ActionRunning id act ownerName) s)
        | None => settle_action id act ownerName ActionFailed (Some (js "The agent " ++ d_agent act ++ js " is not hosted any more.")) now s
        end
      else settle_action id act ownerName ActionDenied None now s)
  | ActionRunning id act ownerName =>
      match a with
      | Result ok output => Some (settle_action id act ownerName (if ok then ActionDone else ActionFailed) (Some output) now s)
      | Threw => Some s
      | _ => None
      end
  | ActionStored id act ownerName status result stored =>
      Some (if stored then spawn (ActionNote (get (d_conversation act) (team s)) act ownerName status result) s else s)
  | ActionNote c act ownerName status result =>
      Some match c with
      | None => s
      | Some c =>
          let (m, t) := append (c_id c) (agentParticipant (d_agent act)) FromAgent (said_of ownerName (d_slug act) status result) [] 1 None
                          (Some (d_owner act)) (team s) in
          spawn (Announce c m) (with_team t s)
      end
  end.

Definition step_task (i : nat) (a : Answer) (now : Z) (s : HubState) : option HubState :=
  match tasks s !! i with
  | Some k => run_task k a now (with_tasks (base.delete i (tasks s)) s)
  | None => None
  end.

(** ** What is owed to whom *)

Definition job_key (j : Job) : ustring * ConversationMessage := (j_agent j, j_message j).
Definition waiting_key (w : Waiting) : ustring * ConversationMessage := (w_agent w, w_message w).
Definition task_key (k : Task) : option (ustring * ConversationMessage) :=
  match k with Assess agent _ m _ _ | AssessPresence agent _ m _ _ => Some (agent, m) | _ => None end.
Definition owed (s : HubState) : list (ustring * ConversationMessage) :=
  map job_key (jobs s) ++ map waiting_key (waiting s) ++ omap task_key (tasks s).

(** The process ends and another begins over the same tables: its queues and timers are gone, and
    what they held is done by nobody. *)
Definition restart (s : HubState) : HubState :=
  {| team := team s; agents := agents s; jobs := []; waiting := []; tasks := []; announced := announced s;
     handled := handled s; forgotten := forgotten s ++ owed s; turns := turns s; ran := ran s; decided := decided s |}.

(** ** Everything that happens *)

(** The calls that only touch the tables, the zones of the clock aside. *)
Inductive TableCall :=
| CRegister (i : ParticipantInput) | CDeleteParticipant (id : ustring)
| CCreate (id : ustring) (kind : ConversationKind) (members : list ustring) (title : option ustring)
| CSetMembers (id : ustring) (add remove : list ustring)
| CAssign (agent who : ustring) (by_ : option ustring) (channels : option (list ustring)) | CUnassign (agent : ustring)
| CPurge (agent : ustring).

Section Events.
Context (isTimeZone : ustring -> bool).

Definition table_call (c : TableCall) (now : Z) (hosts : gmap ustring Hosted) (t : TeamDb) : result ustring TeamDb :=
  match c with
  | CRegister i => registerParticipant isTimeZone i now t
  | CDeleteParticipant id => Ok (deleteParticipant id t).2
  | CCreate id kind members title => create (fun a => hosts !! a) id kind members title now t
  | CSetMembers id add remove => setMembers (fun a => hosts !! a) id add remove t
  | CAssign agent who by_ channels => assign (fun a => hosts !! a) agent who by_ channels now t
  | CUnassign agent => Ok (unassign agent t).2
  | CPurge agent => Ok (purgeAgent agent t)
  end.

Inductive Event :=
| EPost (conv author text : ustring) (mentions : option (list ustring))
| EDecide (id : ustring) (approve : bool)
| EPresence (who : ustring) (p : Presence) (now : Z)
| ETable (c : TableCall) (now : Z)
| EHost (hosts : gmap ustring Hosted)
| ERestart
| EDefer (i : nat) (id slug args : ustring) (now : Z)
| EJob (i : nat) (a : Answer)
| ETimer (i : nat)
| ETask (i : nat) (a : Answer) (now : Z).

Definition step (e : Event) (s : HubState) : option HubState :=
  match e with
  | EPost conv author text mentions =>
      match require conv (team s) with Ok c => Some (spawn (PostRead c author text mentions) s) | Err _ => Some s end
  | EDecide id approve => Some (spawn (ActionRead id (action id (team s)) approve) s)
  | EPresence who p now =>
      let (row, t) := store_setPresence who p now (team s) in
      Some match row with Some _ => spawn (PresenceSet who p) (with_team t s) | None => with_team t s end
  | ETable c now => match table_call c now (agents s) (team s) with Ok t => Some (with_team t s) | Err _ => Some s end
  | EHost hosts => Some (with_agents hosts s)
  | ERestart => Some (restart s)
  | EDefer i id slug args now => defer i id slug args now s
  | EJob i a => step_job i a s
  | ETimer i => fire i s
  | ETask i a now => step_task i a now s
  end.

Fixpoint run (es : list Event) (s : HubState) : option HubState :=
  match es with [] => Some s | e :: es => s ← step e s; run es s end.
End Events.

Definition empty_hub : HubState :=
  {| team := empty_team; agents := ∅; jobs := []; waiting := []; tasks := []; announced := []; handled := []; forgotten := []; turns := []; ran := [];
     decided := [] |}.

Definition reachable (isTimeZone : ustring -> bool) (s : HubState) : Prop := exists es, run isTimeZone es empty_hub = Some s.

(** ** Each announced message is for each agent once *)

Definition tally {A} `{EqDecision A} (k : A) (l : list A) : Z := zlen (List.filter (fun x => bool_decide (x = k)) l).
Definition promised (s : HubState) : list (ustring * ConversationMessage) :=
  flat_map (fun p => map (fun t : ustring * Handling => (t.1, p.2)) (targets p.1 p.2)) (announced s).
Definition finished (s : HubState) : list (ustring * ConversationMessage) := map fst (handled s).

Section Tally.
Context {A : Type} `{EqDecision A}.
Implicit Types (k x : A) (l : list A).

Lemma tally_app k l l' : tally k (l ++ l') = tally k l + tally k l'.
Proof. unfold tally. rewrite List.filter_app, length_app. lia. Qed.
Lemma tally_cons k x l : tally k (x :: l) = tally k [x] + tally k l.
Proof. apply (tally_app k [x]). Qed.
Lemma tally_nil k : tally k [] = 0.
Proof. done. Qed.
Lemma tally_one k x : tally k [x] = if bool_decide (x = k) then 1 else 0.
Proof. unfold tally. cbn. by case_bool_decide. Qed.
Lemma tally_at k l i x : l !! i = Some x -> tally k l = tally k (base.delete i l) + tally k [x].
Proof.
  intros H. rewrite delete_take_drop, <- (take_drop_middle l i x H) at 1.
  rewrite !tally_app, tally_cons. lia.
Qed.
Lemma tally_insert k l i x y : l !! i = Some x -> tally k (<[i := y]> l) = tally k l - tally k [x] + tally k [y].
Proof.
  intros H. rewrite <- (take_drop_middle l i x H) at 2. rewrite insert_take_drop by (by eapply lookup_lt_Some).
  rewrite !tally_app, (tally_cons k x), (tally_cons k y). lia.
Qed.
Lemma tally_pos k l : 0 <= tally k l.
Proof. unfold tally. lia. Qed.
Lemma tally_elem k l : k ∈ l <-> 0 < tally k l.
Proof.
  induction l as [|x l IH]; [rewrite tally_nil; split; [by intros ?%not_elem_of_nil|lia]|]. rewrite tally_cons, tally_one, elem_of_cons, IH.
  pose proof (tally_pos k l). case_bool_decide as E; split; try lia; [by left|]. intros [->|]; [done|lia].
Qed.
Lemma tally_other k l : (forall x, x ∈ l -> x <> k) -> tally k l = 0.
Proof.
  intros H. pose proof (tally_pos k l). destruct (decide (k ∈ l)) as [E|E]; [by destruct (H k E)|].
  rewrite tally_elem in E. lia.
Qed.
End Tally.

(** What has been promised of [k] beyond what is owed, ended or forgotten. *)
Definition gap (k : ustring * ConversationMessage) (s : HubState) : Z :=
  tally k (promised s) - tally k (owed s) - tally k (finished s) - tally k (forgotten s).

Ltac gap_unfold :=
  unfold gap, promised, finished, owed;
  cbn [jobs waiting tasks announced handled forgotten enqueue spawn with_jobs with_tasks with_waiting note_announced note_handled].

Lemma gap_team k t s : gap k (with_team t s) = gap k s.
Proof. done. Qed.

Lemma gap_enqueue k agent conv m w s : gap k (enqueue agent conv m w s) = gap k s - tally k [(agent, m)].
Proof. gap_unfold. rewrite map_app, !tally_app. cbn [map]. change (job_key _) with (agent, m). lia. Qed.

Lemma gap_spawn k t s : gap k (spawn t s) = gap k s - tally k (omap task_key [t]).
Proof. gap_unfold. rewrite omap_app, !tally_app. lia. Qed.

Lemma gap_enqueue_all k l s :
  gap k (foldl (fun s w => enqueue (w_agent w) (w_conversation w) (w_message w) (Deliver false) s) s l) = gap k s - tally k (map waiting_key l).
Proof.
  revert s. induction l as [|w l IH]; intros s; cbn [foldl map]; [rewrite tally_nil; lia|].
  rewrite IH, gap_enqueue, (tally_cons k _ (map waiting_key l)). change (waiting_key w) with (w_agent w, w_message w). lia.
Qed.

Lemma tally_partition {A} (f : A -> ustring * ConversationMessage) k (b : A -> bool) l :
  tally k (map f l) = tally k (map f (List.filter b l)) + tally k (map f (List.filter (fun x => negb (b x)) l)).
Proof.
  induction l as [|x l IH]; cbn; [done|]. destruct (b x); cbn [negb map]; rewrite (tally_cons k _ (map f l)), IH, (tally_cons k _ (map f (List.filter _ l))); lia.
Qed.

Lemma gap_withdraw k owner conv s : gap k (withdraw owner conv s) = gap k s.
Proof.
  unfold withdraw. rewrite gap_enqueue_all. gap_unfold. rewrite !tally_app.
  rewrite (tally_partition waiting_key k (withdrawn owner conv) (waiting s)). lia.
Qed.

Lemma gap_hand k c m l s :
  gap k (foldl (hand c m) s l) = gap k s - tally k (map (fun t : ustring * Handling => (t.1, m)) l).
Proof.
  revert s. induction l as [|[a h] l IH]; intros s; cbn [foldl map]; [rewrite tally_nil; lia|].
  rewrite IH, (tally_cons k _ (map _ l)). unfold hand; cbn [fst snd].
  destruct h; [unfold maybeStandIn; rewrite gap_spawn|rewrite gap_enqueue]; cbn [omap list_omap task_key]; lia.
Qed.

Lemma gap_fanOut k c m s : gap k (fanOut c m s) = gap k s.
Proof.
  assert (H : gap k (foldl (hand c m) (note_announced c m s) (targets c m)) = gap k s).
  { rewrite gap_hand. gap_unfold. rewrite flat_map_app, tally_app. cbn [flat_map fst snd]. rewrite app_nil_r. lia. }
  unfold fanOut. destruct (m_origin m); [by rewrite gap_withdraw|done].
Qed.

Lemma gap_settle k id a name status result now s : gap k (settle_action id a name status result now s) = gap k s.
Proof.
  unfold settle_action. destruct (store_decideAction _ _ _ _ _).
  - change (gap k (note_decided id ?x)) with (gap k x). rewrite gap_spawn. cbn. rewrite tally_nil. rewrite gap_team. lia.
  - rewrite gap_spawn. cbn. rewrite tally_nil. lia.
Qed.

(** A task that is taken off owes what it stood for. *)
Lemma gap_task_out k i t s : tasks s !! i = Some t ->
  gap k (with_tasks (base.delete i (tasks s)) s) = gap k s + tally k (omap task_key [t]).
Proof.
  intros H. gap_unfold.
  assert (E : tally k (omap task_key (tasks s)) = tally k (omap task_key (base.delete i (tasks s))) + tally k (omap task_key [t])).
  { rewrite delete_take_drop, <- (take_drop_middle (tasks s) i t H) at 1. rewrite !omap_app, !tally_app. cbn [omap list_omap].
    destruct (task_key t); [rewrite (tally_cons k p (omap _ _))|rewrite tally_nil]; lia. }
  rewrite !tally_app. lia.
Qed.

Lemma gap_job_out k i j s : jobs s !! i = Some j ->
  gap k (with_jobs (base.delete i (jobs s)) s) = gap k s + tally k [job_key j].
Proof.
  intros H. gap_unfold.
  rewrite !tally_app, (tally_at k (map job_key (jobs s)) i (job_key j)) by (by rewrite list_lookup_fmap, H).
  rewrite !delete_take_drop, map_app, firstn_map, skipn_map. lia.
Qed.

Lemma gap_job_in k i j p s : jobs s !! i = Some j -> gap k (with_jobs (<[i := at_phase p j]> (jobs s)) s) = gap k s.
Proof.
  intros H. gap_unfold. do 5 f_equal.
  apply list_eq. intros n. rewrite !list_lookup_fmap. destruct (decide (n = i)) as [->|N].
  - rewrite list_lookup_insert_eq by (by eapply lookup_lt_Some). by rewrite H.
  - by rewrite list_lookup_insert_ne.
Qed.

Lemma gap_run_task x k a now s s' : run_task k a now s = Some s' -> gap x s' = gap x s - tally x (omap task_key [k]).
Proof.
  destruct k as [c au tx ms|c m|ag c m h ow|ag c m ow aw|who p|id act ap|id act h name ap|id act name|id act name st res sd|c act name st res];
    cbn [run_task omap list_omap task_key]; intros H; repeat case_in H; simplify_eq;
    rewrite ?gap_spawn, ?gap_settle, ?gap_fanOut, ?gap_enqueue, ?gap_withdraw, ?gap_team; cbn [omap list_omap task_key];
    rewrite ?tally_nil, ?gap_team; try lia.
  - gap_unfold. rewrite map_app, !tally_app. cbn [map]. change (waiting_key _) with (ag, m). lia.
  - change (gap x (note_ran id ?y)) with (gap x y). rewrite gap_spawn. cbn. rewrite tally_nil. lia.
Qed.

Lemma gap_handled x agent m o s : gap x (note_handled agent m o s) = gap x s - tally x [(agent, m)].
Proof. gap_unfold. rewrite map_app, !tally_app. cbn [map fst]. lia. Qed.

Lemma gap_step_job x i a s s' : step_job i a s = Some s' -> gap x s' = gap x s.
Proof.
  unfold step_job. destruct (jobs s !! i) as [j|] eqn:Hj; [|done]. destruct existsb; [done|].
  destruct (run_job _ _ _ _) as [mv|]; [|done]. cbn. intros [= <-].
  pose proof (gap_job_out x i j s Hj) as Hout. unfold job_key in Hout. destruct mv; cbn zeta.
  - by apply gap_job_in.
  - change (gap x (note_turn t ?y)) with (gap x y). by apply gap_job_in.
  - rewrite gap_team. by apply gap_job_in.
  - rewrite gap_handled. lia.
  - rewrite gap_fanOut, gap_handled. lia.
Qed.

Lemma gap_step tz x e s s' : step tz e s = Some s' -> gap x s' = gap x s.
Proof.
  destruct e as [conv au tx ms|id ap|who p now|c now|hosts| |i id sl ar now|i a|i|i a now]; cbn [step]; intros H.
  - case_in H; simplify_eq; [|done]. rewrite gap_spawn. cbn. rewrite tally_nil. lia.
  - simplify_eq. rewrite gap_spawn. cbn. rewrite tally_nil. lia.
  - destruct (store_setPresence who p now (team s)) as [[row|] t]; simplify_eq; [|done].
    rewrite gap_spawn. cbn. rewrite tally_nil. change (gap x s - 0 = gap x s). lia.
  - case_in H; by simplify_eq.
  - by simplify_eq.
  - simplify_eq. unfold restart. gap_unfold. unfold owed. cbn [map omap list_omap]. rewrite !tally_app, !tally_nil. lia.
  - unfold defer in H. repeat case_in H; try done. destruct (deferAction _ _ _); cbn in H; by simplify_eq.
  - by eapply gap_step_job.
  - unfold fire in H. destruct (waiting s !! i) as [w|] eqn:Hw; [|done]. simplify_eq. rewrite gap_enqueue.
    gap_unfold. rewrite !tally_app, (tally_at x (map waiting_key (waiting s)) i (waiting_key w)) by (by rewrite list_lookup_fmap, Hw).
    rewrite !delete_take_drop, map_app, firstn_map, skipn_map. change (waiting_key w) with (w_agent w, w_message w). lia.
  - unfold step_task in H. destruct (tasks s !! i) as [t|] eqn:Ht; [|done].
    rewrite (gap_run_task x t a now _ _ H), (gap_task_out x i t s Ht). lia.
Qed.

(** *** Only a restart forgets *)

Lemma forgotten_withdraw owner conv s : forgotten (withdraw owner conv s) = forgotten s.
Proof.
  unfold withdraw. change (forgotten s) with (forgotten (with_waiting (List.filter (fun w => negb (withdrawn owner conv w)) (waiting s)) s)).
  generalize (with_waiting (List.filter (fun w => negb (withdrawn owner conv w)) (waiting s)) s). induction (List.filter (withdrawn _ _) _) as [|w l IH];
    intros s'; cbn [foldl]; [done|]. by rewrite IH.
Qed.
Lemma forgotten_fanOut c m s : forgotten (fanOut c m s) = forgotten s.
Proof.
  assert (H : forall l s, forgotten (foldl (hand c m) s l) = forgotten s).
  { induction l as [|[a h] l IH]; intros s'; cbn [foldl]; [done|]. rewrite IH. by destruct h. }
  unfold fanOut. destruct (m_origin m); [rewrite forgotten_withdraw|]; by rewrite H.
Qed.
Lemma forgotten_settle id a name status result now s : forgotten (settle_action id a name status result now s) = forgotten s.
Proof. unfold settle_action. by destruct (store_decideAction _ _ _ _ _). Qed.

Lemma forgotten_step tz e s s' : e <> ERestart -> step tz e s = Some s' -> forgotten s' = forgotten s.
Proof.
  intros He H. destruct e as [conv au tx ms|id ap|who p now|c now|hosts| |i id sl ar now|i a|i|i a now]; cbn [step] in H; try done.
  - case_in H; by simplify_eq.
  - by simplify_eq.
  - destruct (store_setPresence who p now (team s)) as [[row|] t]; by simplify_eq.
  - case_in H; by simplify_eq.
  - by simplify_eq.
  - unfold defer in H. repeat case_in H; try done. destruct (deferAction _ _ _); cbn in H; by simplify_eq.
  - unfold step_job in H. destruct (jobs s !! i) as [j|]; [|done]. destruct existsb; [done|].
    destruct (run_job _ _ _ _) as [mv|]; [|done]. cbn in H. injection H as <-. destruct mv; try done. by rewrite forgotten_fanOut.
  - unfold fire in H. case_in H; by simplify_eq.
  - unfold step_task in H. destruct (tasks s !! i) as [k|]; [|done].
    destruct k as [c au tx ms|c m|ag c m h ow|ag c m ow aw|who p|id act ap|id act h name ap|id act name|id act name st res sd|c act name st res];
      cbn [run_task] in H; repeat case_in H; simplify_eq; rewrite ?forgotten_settle, ?forgotten_fanOut, ?forgotten_withdraw; done.
Qed.
Lemma forgotten_run tz es s s' : ERestart ∉ es -> run tz es s = Some s' -> forgotten s' = forgotten s.
Proof.
  revert s. induction es as [|e es IH]; intros s He E; cbn in E; [by simplify_eq|]. apply not_elem_of_cons in He as [He Hes].
  destruct (step tz e s) as [s1|] eqn:E1; [|done]. rewrite (IH s1 Hes E). by eapply forgotten_step.
Qed.

(** *** No message is announced twice *)

Definition saying (j : Job) : option Z := match j_phase j with Saying _ m => Some (m_seq m) | _ => None end.
Definition announcing (k : Task) : option Z := match k with Announce _ m => Some (m_seq m) | _ => None end.
Definition published (s : HubState) : list Z :=
  map (fun p => m_seq p.2) (announced s) ++ omap saying (jobs s) ++ omap announcing (tasks s).
(** Whether [n] may still be announced. *)
Definition spare (n : Z) (s : HubState) : Z :=
  (if bool_decide (1 <= n <= zlen (messages (team s))) then 1 else 0) - tally n (published s).

Ltac spare_unfold :=
  unfold spare, published;
  cbn [team jobs waiting tasks announced handled enqueue spawn with_jobs with_tasks with_waiting with_team note_announced note_handled note_turn
       note_ran note_decided].

Lemma spare_enqueue n agent conv m w s : spare n (enqueue agent conv m w s) = spare n s.
Proof. spare_unfold. rewrite omap_app. cbn. by rewrite app_nil_r. Qed.
Lemma spare_spawn n t s : spare n (spawn t s) = spare n s - tally n (omap announcing [t]).
Proof. spare_unfold. rewrite omap_app, !tally_app. lia. Qed.
Lemma spare_withdraw n owner conv s : spare n (withdraw owner conv s) = spare n s.
Proof.
  unfold withdraw. change (spare n s) with (spare n (with_waiting (List.filter (fun w => negb (withdrawn owner conv w)) (waiting s)) s)).
  generalize (with_waiting (List.filter (fun w => negb (withdrawn owner conv w)) (waiting s)) s). induction (List.filter (withdrawn _ _) _) as [|w l IH];
    intros s'; cbn [foldl]; [done|]. by rewrite IH, spare_enqueue.
Qed.
Lemma spare_fanOut n c m s : spare n (fanOut c m s) = spare n s - tally n [m_seq m].
Proof.
  assert (H : forall l s, spare n (foldl (hand c m) s l) = spare n s).
  { induction l as [|[a h] l IH]; intros s'; cbn [foldl]; [done|]. rewrite IH. unfold hand; cbn [fst snd].
    destruct h; [unfold maybeStandIn; rewrite spare_spawn; cbn; rewrite tally_nil; lia|by rewrite spare_enqueue]. }
  assert (E : spare n (foldl (hand c m) (note_announced c m s) (targets c m)) = spare n s - tally n [m_seq m]).
  { rewrite H. spare_unfold. rewrite map_app, !tally_app. cbn [map snd]. lia. }
  unfold fanOut. destruct (m_origin m); [by rewrite spare_withdraw|done].
Qed.

Lemma tally_omap_at {A} (f : A -> option Z) n l i x : l !! i = Some x ->
  tally n (omap f l) = tally n (omap f (base.delete i l)) + tally n (omap f [x]).
Proof.
  intros H. rewrite delete_take_drop, <- (take_drop_middle l i x H) at 1. rewrite !omap_app, !tally_app. cbn [omap list_omap].
  destruct (f x); [rewrite (tally_cons n z (omap f _))|rewrite tally_nil]; lia.
Qed.
Lemma tally_omap_insert {A} (f : A -> option Z) n l i x y : l !! i = Some x ->
  tally n (omap f (<[i := y]> l)) = tally n (omap f l) - tally n (omap f [x]) + tally n (omap f [y]).
Proof.
  intros H. rewrite (tally_omap_at f n l i x H), (tally_omap_at f n (<[i := y]> l) i y).
  - rewrite !delete_take_drop, take_insert_ge, drop_insert_lt by lia. lia.
  - apply list_lookup_insert_eq. by eapply lookup_lt_Some.
Qed.

(** What a step does to the tables' log: nothing, or one row more. *)
Lemma spare_append n s conv au o tx ms hop tu b m t : append conv au o tx ms hop tu b (team s) = (m, t) ->
  spare n (with_team t s) = spare n s + tally n [m_seq m].
Proof.
  unfold append. intros [= <- <-]. spare_unfold. destruct (team s); cbn. rewrite length_app, tally_one. cbn [length m_seq].
  repeat case_bool_decide; lia.
Qed.

(** *** What the calls leave alone *)

Lemma messages_clear who t : messages (clear_writer_if who t) = messages t.
Proof. unfold clear_writer_if. destruct t as [? ? ? ? ? ? ? ? ? [w|] ?]; cbn; [|done]. by case_bool_decide. Qed.

Lemma messages_table tz c now hosts t t' : table_call tz c now hosts t = Ok t' -> messages t' = messages t.
Proof.
  destruct c; cbn [table_call]; intros H.
  - unfold registerParticipant in H. repeat case_in H; try done; simplify_eq; by destruct t.
  - simplify_eq. unfold deleteParticipant. cbn [snd].
    change (messages (with_participants ?x ?y)) with (messages (with_participants x y)).
    set (y := clear_writer_if _ _). assert (E : messages y = messages t) by (unfold y; rewrite messages_clear; by destruct t).
    destruct y; cbn in *; done.
  - unfold create in H. destruct (checkMembers _ _ _); [|done]. cbn in H.
    destruct (match kind with Dm => _ | Room => _ end); [|done]. cbn in H. unfold store_create in H.
    destruct (conversations t !! id); [done|]. simplify_eq. by destruct t.
  - unfold setMembers, require in H. destruct (get id t); [|done]. cbn in H. destruct (c_kind c); [|done].
    destruct (checkMembers _ _ _); [|done]. cbn in H. simplify_eq. by destruct t.
  - unfold assign in H. repeat case_in H; try done; simplify_eq; by destruct t.
  - simplify_eq. by destruct t.
  - simplify_eq. unfold purgeAgent. rewrite messages_clear. by destruct t.
Qed.

Lemma messages_decide id st res now t t' : store_decideAction id st res now t = Some t' -> messages t' = messages t.
Proof. unfold store_decideAction. intros H. repeat case_in H; try done; simplify_eq; by destruct t. Qed.
Lemma messages_defer id a t t' : deferAction id a t = Some t' -> messages t' = messages t.
Proof. unfold deferAction. intros H. repeat case_in H; try done; simplify_eq; by destruct t. Qed.
Lemma messages_presence who p now t : messages (store_setPresence who p now t).2 = messages t.
Proof. by destruct t. Qed.

Lemma spare_same n t s : messages t = messages (team s) -> spare n (with_team t s) = spare n s.
Proof. intros E. spare_unfold. by rewrite E. Qed.
Lemma spare_settle n id a name status result now s : spare n (settle_action id a name status result now s) = spare n s.
Proof.
  unfold settle_action. destruct (store_decideAction _ _ _ _ _) as [t|] eqn:E.
  - change (spare n (note_decided id ?x)) with (spare n x). rewrite spare_spawn, spare_same by (by eapply messages_decide).
    cbn. rewrite tally_nil. lia.
  - rewrite spare_spawn. cbn. rewrite tally_nil. lia.
Qed.

Lemma spare_run_task n k a now s s' : run_task k a now s = Some s' -> spare n s' = spare n s - tally n (omap announcing [k]).
Proof.
  destruct k as [c au tx ms|c m|ag c m h ow|ag c m ow aw|who p|id act ap|id act h name ap|id act name|id act name st res sd|c act name st res];
    cbn [run_task omap list_omap announcing]; intros H.
  1: { destruct (check_post _ _ _) as [ms'|]; [|simplify_eq; rewrite tally_nil; lia].
       destruct (append _ _ _ _ _ _ _ _ _) as [m t] eqn:E. simplify_eq. rewrite spare_spawn, (spare_append _ _ _ _ _ _ _ _ _ _ _ _ E), tally_nil. cbn.
       lia. }
  9: { destruct c as [c|]; [|simplify_eq; rewrite tally_nil; lia].
       destruct (append _ _ _ _ _ _ _ _ _) as [m t] eqn:E. simplify_eq. rewrite spare_spawn, (spare_append _ _ _ _ _ _ _ _ _ _ _ _ E), tally_nil. cbn.
       lia. }
  all: repeat case_in H; simplify_eq; rewrite ?spare_spawn, ?spare_settle, ?spare_fanOut, ?spare_enqueue, ?spare_withdraw;
    cbn [omap list_omap announcing]; rewrite ?tally_nil; try lia.
  - change (spare n s = spare n s - 0). lia.
  - change (spare n (note_ran id ?y)) with (spare n y). rewrite spare_spawn. cbn. rewrite tally_nil. lia.
Qed.

Lemma run_job_quiet j a hosts t mv : run_job j a hosts t = Some mv ->
  match mv with
  | Goes p | Starts p _ => saying j = None /\ saying (at_phase p j) = None
  | Says c m t' => saying j = None
  | Ends _ => saying j = None
  | EndsAnnouncing c m => j_phase j = Saying c m
  end.
Proof.
  unfold run_job, saying, begin_delivery, deliver_or_skip, after_turn. intros H.
  destruct (j_phase j) as [|b h| | |o []|o nm d|[c|] tx tu bh|c m] eqn:Ep; try (repeat case_in H; simplify_eq; done).
Qed.

Lemma run_job_says j a hosts t c m t' : run_job j a hosts t = Some (Says c m t') ->
  exists text turn behalf, j_phase j = Replying (Some c) text turn behalf /\ reply j c text turn behalf t = (m, t').
Proof.
  unfold run_job, begin_delivery, deliver_or_skip, after_turn. intros H.
  destruct (j_phase j) as [|b h| | |o []|o nm d|[c'|] tx tu bh|c' m'] eqn:Ep; try (repeat case_in H; simplify_eq; done).
  destruct (reply j c' tx tu bh t) as [m' t''] eqn:E. simplify_eq. eauto 6.
Qed.

Lemma spare_job_in n i j p s : jobs s !! i = Some j ->
  spare n (with_jobs (<[i := at_phase p j]> (jobs s)) s) = spare n s + tally n (omap saying [j]) - tally n (omap saying [at_phase p j]).
Proof. intros H. spare_unfold. rewrite !tally_app, (tally_omap_insert saying n (jobs s) i j) by done. lia. Qed.

Lemma spare_step_job n i a s s' : step_job i a s = Some s' -> spare n s' = spare n s.
Proof.
  unfold step_job. destruct (jobs s !! i) as [j|] eqn:Hj; [|done]. destruct existsb; [done|].
  destruct (run_job _ _ _ _) as [mv|] eqn:Er; [|done]. cbn zeta. cbn [mbind option_bind]. intros [= <-].
  pose proof (run_job_quiet _ _ _ _ _ Er) as Hq.
  assert (Hout : spare n (with_jobs (base.delete i (jobs s)) s) = spare n s + tally n (omap saying [j])).
  { spare_unfold. rewrite !tally_app, (tally_omap_at saying n (jobs s) i j) by done. lia. }
  destruct mv; cbn [omap list_omap] in *.
  - destruct Hq as [Hq Hq']. rewrite (spare_job_in n i j) by done. cbn [omap list_omap]. rewrite Hq, Hq'. lia.
  - destruct Hq as [Hq Hq']. change (spare n (note_turn t ?y)) with (spare n y). rewrite (spare_job_in n i j) by done. cbn [omap list_omap].
    rewrite Hq, Hq'. lia.
  - apply run_job_says in Er as (tx & tu & bh & Ep & E).
    change (with_team t ?y) with (with_jobs (jobs y) (with_team t s)).
    transitivity (spare n (with_team t s) - tally n [m_seq m]).
    + spare_unfold. rewrite !tally_app, (tally_omap_insert saying n (jobs s) i j) by done. cbn [omap list_omap saying at_phase j_phase].
      rewrite Hq, tally_nil. lia.
    + unfold reply in E. destruct bh as [[[o nm] d]|]; rewrite (spare_append _ _ _ _ _ _ _ _ _ _ _ _ E); lia.
  - change (spare n (note_handled _ _ _ ?y)) with (spare n y). rewrite Hout, Hq. rewrite tally_nil. lia.
  - rewrite spare_fanOut. change (spare n (note_handled _ _ _ ?y)) with (spare n y). rewrite Hout. unfold saying. rewrite Hq. lia.
Qed.

Lemma spare_step tz n e s s' : step tz e s = Some s' -> spare n s <= spare n s'.
Proof.
  destruct e as [conv au tx ms|id ap|who p now|c now|hosts| |i id sl ar now|i a|i|i a now]; cbn [step]; intros H.
  - case_in H; simplify_eq; [|done]. rewrite spare_spawn. cbn. rewrite tally_nil. lia.
  - simplify_eq. rewrite spare_spawn. cbn. rewrite tally_nil. lia.
  - pose proof (messages_presence who p now (team s)) as E.
    destruct (store_setPresence who p now (team s)) as [[row|] t]; simplify_eq; rewrite ?spare_spawn, spare_same by done; cbn; rewrite ?tally_nil; lia.
  - case_in H; simplify_eq; [|done]. rewrite spare_same; [done|]. by eapply messages_table.
  - by simplify_eq.
  - simplify_eq. spare_unfold. unfold restart. cbn [announced jobs tasks team]. rewrite !tally_app. cbn [omap list_omap]. rewrite tally_nil.
    pose proof (tally_pos n (omap saying (jobs s))). pose proof (tally_pos n (omap announcing (tasks s))). lia.
  - unfold defer in H. repeat case_in H; try done. destruct (deferAction _ _ _) as [t|] eqn:Ed; cbn in H; [|done]. simplify_eq.
    rewrite spare_same; [done|]. by eapply messages_defer.
  - by rewrite (spare_step_job n _ _ _ _ H).
  - unfold fire in H. destruct (waiting s !! i) as [w|]; [|done]. simplify_eq. by rewrite spare_enqueue.
  - unfold step_task in H. destruct (tasks s !! i) as [t|] eqn:Ht; [|done]. rewrite (spare_run_task n t a now _ _ H).
    spare_unfold. rewrite !tally_app, (tally_omap_at announcing n (tasks s) i t) by done. lia.
Qed.

(** *** The conversations that are held on to *)

Definition job_snaps (j : Job) : list ConversationRecord :=
  match j_phase j with Replying (Some c) _ _ _ | Saying c _ => [c] | _ => [] end.
Definition task_snaps (k : Task) : list ConversationRecord :=
  match k with
  | PostRead c _ _ _ | Announce c _ | Assess _ c _ _ _ | AssessPresence _ c _ _ _ | ActionNote (Some c) _ _ _ _ => [c]
  | _ => []
  end.
Definition held (c : ConversationRecord) (s : HubState) : Prop :=
  c ∈ map fst (announced s) \/ (exists j, j ∈ jobs s /\ c ∈ job_snaps j) \/ (exists k, k ∈ tasks s /\ c ∈ task_snaps k).

(** [s'] holds what [s] held, and what [Q] says. *)
Definition held_from (Q : ConversationRecord -> Prop) (s s' : HubState) : Prop := forall c, held c s' -> held c s \/ Q c.

Section Held.
Context (Q : ConversationRecord -> Prop).

Lemma held_from_refl s : held_from Q s s.
Proof. intros c Hc. by left. Qed.
Lemma held_from_trans s1 s2 s3 : held_from Q s1 s2 -> held_from Q s2 s3 -> held_from Q s1 s3.
Proof. intros H1 H2 c Hc. destruct (H2 c Hc) as [H|H]; [by apply H1|by right]. Qed.

(** Where only the tables or the record moved. *)
Lemma held_with s s' : announced s' = announced s -> jobs s' = jobs s -> tasks s' = tasks s -> held_from Q s s'.
Proof. unfold held_from, held. intros -> -> -> c Hc. by left. Qed.

Lemma held_enqueue agent conv m w s : held_from Q s (enqueue agent conv m w s).
Proof.
  intros c [H|[(j & H & Hc)|H]]; left; [by left| |by right; right].
  apply elem_of_app in H as [H|H%list_elem_of_singleton]; [right; left; eauto|]. subst j. by apply not_elem_of_nil in Hc.
Qed.
Lemma held_withdraw owner conv s : held_from Q s (withdraw owner conv s).
Proof.
  unfold withdraw. eapply held_from_trans; [by apply (held_with s (with_waiting (List.filter (fun w => negb (withdrawn owner conv w)) (waiting s)) s))|].
  generalize (with_waiting (List.filter (fun w => negb (withdrawn owner conv w)) (waiting s)) s).
  induction (List.filter (withdrawn owner conv) (waiting s)) as [|w l IH]; intros s'; cbn [foldl]; [apply held_from_refl|].
  eapply held_from_trans; [apply held_enqueue|apply IH].
Qed.
Lemma held_spawn k s : (forall c, c ∈ task_snaps k -> Q c) -> held_from Q s (spawn k s).
Proof.
  intros Hk c [H|[H|(k' & H & Hc)]]; [by left; left|by left; right; left|].
  apply elem_of_app in H as [H|H%list_elem_of_singleton]; [left; right; right; eauto|]. subst k'. right. by apply Hk.
Qed.
Lemma held_fanOut c m s : Q c -> held_from Q s (fanOut c m s).
Proof.
  intros Hc. unfold fanOut.
  assert (Ha : held_from Q s (note_announced c m s)).
  { intros c' [H|H]; [|by left; right]. cbn in H. rewrite map_app in H. apply elem_of_app in H as [H|H%list_elem_of_singleton]; [by left; left|].
    subst. by right. }
  assert (Hh : forall l s, held_from Q s (foldl (hand c m) s l)).
  { induction l as [|[a h] l IH]; intros s'; cbn [foldl]; [apply held_from_refl|]. eapply held_from_trans; [|apply IH].
    unfold hand; cbn [fst snd]. destruct h; [|apply held_enqueue]. apply held_spawn. by intros c' ->%list_elem_of_singleton. }
  eapply held_from_trans; [exact Ha|]. eapply held_from_trans; [apply Hh|].
  destruct (m_origin m); [apply held_withdraw|apply held_from_refl].
Qed.
Lemma held_settle id a name status result now s : held_from Q s (settle_action id a name status result now s).
Proof.
  assert (Hs : forall b s', held_from Q s' (spawn (ActionStored id a name status result b) s'))
    by (intros b s'; apply held_spawn; intros c Hc; by apply not_elem_of_nil in Hc).
  unfold settle_action. destruct (store_decideAction _ _ _ _ _) as [t'|]; [|apply Hs].
  eapply held_from_trans; [by apply (held_with s (with_team t' s))|]. eapply held_from_trans; [apply Hs|]. by apply held_with.
Qed.

Lemma held_run_task k a now s s' : (forall c, c ∈ task_snaps k -> Q c) -> (forall id c, get id (team s) = Some c -> Q c) ->
  run_task k a now s = Some s' -> held_from Q s s'.
Proof.
  intros Hk Hg H.
  destruct k as [c au tx ms|c m|ag c m h ow|ag c m ow aw|who p|id act ap|id act h name ap|id act name|id act name st res sd|c act name st res];
    cbn [run_task] in H.
  1: { destruct (check_post _ _ _); [|simplify_eq; apply held_from_refl]. destruct (append _ _ _ _ _ _ _ _ _) as [m t]. simplify_eq.
       eapply held_from_trans; [by apply (held_with s (with_team t s))|by apply held_spawn]. }
  9: { destruct c as [c|]; [|simplify_eq; apply held_from_refl]. destruct (append _ _ _ _ _ _ _ _ _) as [m t]. simplify_eq.
       eapply held_from_trans; [by apply (held_with s (with_team t s))|by apply held_spawn]. }
  all: repeat case_in H; simplify_eq;
    first [apply held_from_refl | apply held_enqueue | apply held_settle | apply held_withdraw | by apply held_with
          | apply held_fanOut, Hk; by apply list_elem_of_singleton | idtac].
  - by apply held_spawn.
  - apply held_spawn. intros c Hc. by apply not_elem_of_nil in Hc.
  - eapply held_from_trans; [apply (held_spawn (ActionRunning id act name)); intros c Hc; by apply not_elem_of_nil in Hc|by apply held_with].
  - apply held_spawn. intros c Hc. destruct (get (d_conversation act) (team s)) as [c'|] eqn:E; [|by apply not_elem_of_nil in Hc].
    apply list_elem_of_singleton in Hc as ->. by eapply Hg.
Qed.

Lemma run_job_snaps j a hosts t mv : (forall id c, get id t = Some c -> Q c) -> (forall c, c ∈ job_snaps j -> Q c) ->
  run_job j a hosts t = Some mv ->
  match mv with
  | Goes p | Starts p _ => forall c, c ∈ job_snaps (at_phase p j) -> Q c
  | Says c _ _ => Q c
  | Ends _ => True
  | EndsAnnouncing c m => Q c
  end.
Proof.
  intros Hg Hj H. unfold run_job, begin_delivery, deliver_or_skip, after_turn in H. unfold job_snaps in Hj.
  destruct (j_phase j) as [|b h| | |o []|o nm d|[c'|] tx tu bh|c' m'] eqn:Ep;
    try (destruct (reply j c' tx tu bh t)); repeat case_in H; simplify_eq; try done;
    try (intros c Hc; by apply not_elem_of_nil in Hc);
    try (apply Hj; by apply list_elem_of_singleton);
    intros c Hc; cbn [job_snaps at_phase j_phase] in Hc;
    (destruct (get (j_conversation j) t) as [c'|] eqn:Eg; [apply list_elem_of_singleton in Hc as ->; by eapply Hg|by apply not_elem_of_nil in Hc]).
Qed.
End Held.

Lemma elem_of_deleted {A} (x : A) (i : nat) (l : list A) : x ∈ base.delete i l -> x ∈ l.
Proof.
  rewrite delete_take_drop, elem_of_app, !list_elem_of_lookup. setoid_rewrite lookup_take_Some. setoid_rewrite lookup_drop.
  intros [(n & Hn & _)|(n & Hn)]; eauto.
Qed.

Lemma held_step_job Q i a s s' : (forall id c, get id (team s) = Some c -> Q c) -> (forall c, held c s -> Q c) ->
  step_job i a s = Some s' -> held_from Q s s'.
Proof.
  intros Hg Hs H. unfold step_job in H. destruct (jobs s !! i) as [j|] eqn:Hj; [|done]. destruct existsb; [done|].
  destruct (run_job _ _ _ _) as [mv|] eqn:Er; [|done]. cbn zeta in H. cbn [mbind option_bind] in H.
  assert (Hin : j ∈ jobs s) by (by eapply list_elem_of_lookup_2).
  apply (run_job_snaps Q) in Er; [|done|intros c Hc; apply Hs; right; left; eauto].
  assert (Hput : forall p, (forall c, c ∈ job_snaps (at_phase p j) -> Q c) -> held_from Q s (with_jobs (<[i := at_phase p j]> (jobs s)) s)).
  { intros p Hp c [Hc|[(j' & Hj' & Hc)|Hc]]; [left; by left| |left; by right; right].
    apply list_elem_of_lookup_1 in Hj' as [n Hn]. cbn in Hn. rewrite list_lookup_insert_Some in Hn. destruct Hn as [(-> & <- & _)|[_ Hn]].
    - right. by apply Hp.
    - left. right. left. exists j'. split; [|done]. by eapply list_elem_of_lookup_2. }
  assert (Hout : held_from Q s (with_jobs (base.delete i (jobs s)) s)).
  { intros c [Hc|[(j' & Hj' & Hc)|Hc]]; left; [by left| |by right; right]. right; left. exists j'. split; [exact (elem_of_deleted _ _ _ Hj')|done]. }
  destruct mv; simplify_eq.
  - by apply Hput.
  - eapply held_from_trans; [by apply (Hput p)|by apply held_with].
  - eapply held_from_trans; [apply (Hput (Saying c m))|by apply held_with]. by intros c' ->%list_elem_of_singleton.
  - eapply held_from_trans; [exact Hout|by apply held_with].
  - eapply held_from_trans; [exact Hout|]. eapply held_from_trans; [|by apply held_fanOut]. by apply held_with.
Qed.

(** A step only takes hold of what the tables have. *)
Lemma held_step tz e s s' : step tz e s = Some s' -> forall c, held c s' -> held c s \/ exists id, get id (team s) = Some c.
Proof.
  intros H. set (Q := fun c => held c s \/ exists id, get id (team s) = Some c).
  enough (Hf : held_from Q s s') by (intros c Hc; destruct (Hf c Hc) as [|[]]; auto).
  assert (Hg : forall id c, get id (team s) = Some c -> Q c) by (intros id c E; right; eauto).
  destruct e as [conv au tx ms|id ap|who p now|c now|hosts| |i id sl ar now|i a|i|i a now]; cbn [step] in H.
  - unfold require in H. destruct (get conv (team s)) as [c|] eqn:E; simplify_eq; [|apply held_from_refl].
    apply held_spawn. intros c' ->%list_elem_of_singleton. by eapply Hg.
  - simplify_eq. apply held_spawn. intros c Hc. by apply not_elem_of_nil in Hc.
  - destruct (store_setPresence who p now (team s)) as [[row|] t]; simplify_eq; [|by apply held_with].
    eapply held_from_trans; [by apply (held_with Q s (with_team t s))|]. apply held_spawn. intros c Hc. by apply not_elem_of_nil in Hc.
  - case_in H; simplify_eq; [by apply held_with|apply held_from_refl].
  - simplify_eq. by apply held_with.
  - simplify_eq. intros c [Hc|[(j & Hj & _)|(k & Hk & _)]]; [left; by left|by apply not_elem_of_nil in Hj|by apply not_elem_of_nil in Hk].
  - unfold defer in H. repeat case_in H; try done. destruct (deferAction _ _ _); cbn in H; simplify_eq. by apply held_with.
  - eapply held_step_job; [exact Hg| |exact H]. intros c Hc. by left.
  - unfold fire in H. destruct (waiting s !! i) as [w|]; [|done]. simplify_eq.
    eapply held_from_trans; [by apply (held_with Q s (with_waiting (base.delete i (waiting s)) s))|apply held_enqueue].
  - unfold step_task in H. destruct (tasks s !! i) as [k|] eqn:Hk; [|done].
    assert (Hin : k ∈ tasks s) by (by eapply list_elem_of_lookup_2).
    apply (held_from_trans Q s (with_tasks (base.delete i (tasks s)) s)); [|apply (held_run_task Q k a now); [|exact Hg|exact H]].
    + intros c [Hc|[Hc|(k' & Hk' & Hc)]]; left; [by left|by right; left|]. right; right. exists k'. split; [exact (elem_of_deleted _ _ _ Hk')|done].
    + intros c Hc. left. right. right. eauto.
Qed.

(** *** The reachable states *)

Lemma reachable_ind tz (P : HubState -> Prop) : P empty_hub -> (forall e s s', P s -> step tz e s = Some s' -> P s') ->
  forall s, reachable tz s -> P s.
Proof.
  intros H0 HS s [es H]. revert H0 H. generalize empty_hub as s0. induction es as [|e es IH]; intros s0 H0 H; cbn in H; simplify_eq; [done|].
  destruct (step tz e s0) as [s1|] eqn:E; [|done]. cbn in H. eapply IH; [|exact H]. by eapply HS.
Qed.

Lemma linked_NoDup id rows : NoDup (linked id rows).
Proof.
  unfold linked, in_order. rewrite merge_sort_Permutation. apply NoDup_fmap_2_strong.
  - intros [a b] [a' b'] [E _]%list_elem_of_filter [E' _]%list_elem_of_filter. cbn in *. by intros ->; subst.
  - apply NoDup_filter, NoDup_elements.
Qed.
Lemma get_NoDup id t c : get id t = Some c -> NoDup (c_members c).
Proof. unfold get. intros (row & _ & ->)%fmap_Some. apply linked_NoDup. Qed.
Lemma held_NoDup tz s c : reachable tz s -> held c s -> NoDup (c_members c).
Proof.
  intros Hr. revert c. revert s Hr. apply (reachable_ind tz (fun s => forall c, held c s -> NoDup (c_members c))).
  - intros c [H|[(j & H & _)|(k & H & _)]]; by apply not_elem_of_nil in H.
  - intros e s s' IH H c Hc. destruct (held_step tz e s s' H c Hc) as [?|[id E]]; [by apply IH|by eapply get_NoDup].
Qed.

Lemma agentOf_Some who agent : agentOf who = Some agent -> who = agentParticipant agent.
Proof. unfold agentOf. destruct (starts_with AGENT_PARTICIPANT who) eqn:E; [|done]. intros [= <-]. by apply starts_with_spec in E as [t ->]. Qed.
Lemma agentOf_participant agent : agentOf (agentParticipant agent) = Some agent.
Proof. done. Qed.

Lemma elem_of_targets c m agent h : (agent, h) ∈ targets c m -> agentParticipant agent ∈ c_members c /\ agentParticipant agent <> m_author m.
Proof.
  unfold targets. intros (member & Hm & H)%list_elem_of_omap. destruct (agentOf member) as [a|] eqn:E; [|done].
  apply agentOf_Some in E. subst member. case_bool_decide; [done|]. by simplify_eq.
Qed.

Lemma targets_tally c m agent h : NoDup (c_members c) -> (agent, h) ∈ targets c m ->
  tally (agent, m) (map (fun t : ustring * Handling => (t.1, m)) (targets c m)) = 1.
Proof.
  intros Hn H. pose proof (elem_of_targets _ _ _ _ H) as [Hm _]. revert H. unfold targets. set (f := fun member => match agentOf member with Some _ => _ | None => _ end).
  assert (Hf : forall x a h, f x = Some (a, h) -> x = agentParticipant a).
  { unfold f. intros x a h'. destruct (agentOf x) as [a'|] eqn:E; [|done]. case_bool_decide; [done|]. intros ?. simplify_eq. by apply agentOf_Some. }
  clearbody f. intros H. induction Hn as [|x l Hx Hn IH]; [by apply not_elem_of_nil in H|]. clear Hm.
  assert (Hnone : agentParticipant agent ∉ l -> tally (agent, m) (map (fun t : ustring * Handling => (t.1, m)) (omap f l)) = 0).
  { intros Hl. destruct (decide (tally (agent, m) (map (fun t : ustring * Handling => (t.1, m)) (omap f l)) = 0)) as [|E]; [done|]. exfalso.
    assert (Hin : (agent, m) ∈ map (fun t : ustring * Handling => (t.1, m)) (omap f l)).
    { apply tally_elem. pose proof (tally_pos (agent, m) (map (fun t : ustring * Handling => (t.1, m)) (omap f l))). lia. }
    apply list_elem_of_fmap in Hin as ([a h'] & Ea & Hin). cbn in Ea. simplify_eq. apply list_elem_of_omap in Hin as (y & Hy & E').
    apply Hf in E'. by subst. }
  cbn [omap list_omap] in *. destruct (f x) as [[a h']|] eqn:E.
  - cbn [map fst]. rewrite tally_cons, tally_one. apply Hf in E as Ex. subst x. case_bool_decide as Ea.
    + simplify_eq. rewrite Hnone by done. lia.
    + apply elem_of_cons in H as [?|H]; [by simplify_eq|]. rewrite IH; [lia| |done].
      apply list_elem_of_omap in H as (y & Hy & E'). apply Hf in E'. by subst.
  - apply IH; [|done]. apply list_elem_of_omap in H as (y & Hy & E'). apply Hf in E'. by subst.
Qed.

(** However messages, calls, timers and restarts interleave, what is announced is for each member
    agent exactly once: for every announced message and every agent of its conversation other than
    its author, there is one piece of work waiting or under way, or one that ended, or one that a
    restart forgot, and not two. *)
Theorem announced_handled_once (isTimeZone : ustring -> bool) (s : HubState) (c : ConversationRecord) (m : ConversationMessage)
  (agent : ustring) (h : Handling) :
  reachable isTimeZone s -> (c, m) ∈ announced s -> (agent, h) ∈ targets c m ->
  tally (agent, m) (owed s) + tally (agent, m) (finished s) + tally (agent, m) (forgotten s) = 1.
Proof.
  intros Hr Hc Ht.
  assert (Hg : forall k, gap k s = 0).
  { intros k. clear Hc. revert s Hr. apply (reachable_ind isTimeZone); [done|]. intros e s s' E H. by rewrite (gap_step isTimeZone k e s s' H). }
  assert (Hs : 0 <= spare (m_seq m) s).
  { clear Hc Hg. revert s Hr. apply (reachable_ind isTimeZone); [unfold spare; cbn; case_bool_decide; rewrite ?tally_nil; lia|].
    intros e s s' E H. pose proof (spare_step isTimeZone (m_seq m) e s s' H). lia. }
  assert (Hn : NoDup (c_members c)).
  { eapply held_NoDup; [done|]. left. apply list_elem_of_fmap. by exists (c, m). }
  specialize (Hg (agent, m)). unfold gap in Hg. enough (E : tally (agent, m) (promised s) = 1) by lia.
  apply list_elem_of_split in Hc as (l1 & l2 & El).
  assert (Hone : tally (m_seq m) (map (fun p => m_seq p.2) (l1 ++ l2)) <= 0).
  { revert Hs. unfold spare, published. rewrite El, !map_app, !tally_app. cbn [map snd]. rewrite (tally_cons _ _ (map _ l2)), tally_one.
    pose proof (tally_pos (m_seq m) (omap saying (jobs s))). pose proof (tally_pos (m_seq m) (omap announcing (tasks s))).
    repeat case_bool_decide; try done; lia. }
  assert (Hz : forall l, tally (m_seq m) (map (fun p : ConversationRecord * ConversationMessage => m_seq p.2) l) <= 0 ->
    tally (agent, m) (flat_map (fun p => map (fun t : ustring * Handling => (t.1, p.2)) (targets p.1 p.2)) l) = 0).
  { induction l as [|[c' m'] l IH]; intros H; [done|]. cbn [map flat_map fst snd] in *. rewrite tally_cons, tally_one in H. rewrite tally_app.
    pose proof (tally_pos (m_seq m) (map (fun p : ConversationRecord * ConversationMessage => m_seq p.2) l)).
    case_bool_decide as E; [lia|]. rewrite IH by lia. rewrite tally_other; [done|].
    intros t Ht'. apply list_elem_of_fmap in Ht' as (t' & -> & _). cbn. congruence. }
  unfold promised. rewrite El, flat_map_app, tally_app. cbn [flat_map fst snd]. rewrite tally_app, (targets_tally c m agent h) by done.
  rewrite map_app, tally_app in Hone. pose proof (tally_pos (m_seq m) (map (fun p : ConversationRecord * ConversationMessage => m_seq p.2) l1)).
  pose proof (tally_pos (m_seq m) (map (fun p : ConversationRecord * ConversationMessage => m_seq p.2) l2)).
  rewrite (Hz l1), (Hz l2) by lia. lia.
Qed.
