(* ===== verification/HubGuard.v ===== *)
(** * When an agent speaks in a conversation

    Over [Hub]: a turn is taken only for a message that addresses the agent, and an agent's message
    only below its ceiling of hops; an agent answers for another only in a direct message of two people
    and says so first; an action is decided once. The last section has the runs that go otherwise. *)
From S2P Require Import Prelude UString SessionKey Team Rooms Hub.
Local Open Scope Z_scope.

(** ** What work and turns rest on *)

(** [m] was announced in [c] and is handed to [agent] as [h]. *)
Definition handed (s : HubState) (agent : ustring) (m : ConversationMessage) (h : Handling) : Prop :=
  exists c, (c, m) ∈ announced s /\ (agent, h) ∈ targets c m.

Definition work_ok (s : HubState) (agent : ustring) (m : ConversationMessage) (w : Work) : Prop :=
  match w with
  | Deliver b => exists h, handed s agent m h /\ (b = true -> h = ToDeliver true)
  | StandIn owner => handed s agent m ToAssess /\ owner <> m_author m
  end.

Definition turned (s : HubState) (agent : ustring) (m : ConversationMessage) (behalf : option ustring) : Prop :=
  exists t, t ∈ turns s /\ t_agent t = agent /\ t_message t = m /\ t_behalf t = behalf.

(** The log has a message of [agent] for [owner] in [conv]. *)
Definition told (l : list ConversationMessage) (conv agent owner : ustring) : Prop :=
  exists e, e ∈ l /\ m_conversation e = conv /\ m_author e = agentParticipant agent /\ m_behalf e = Some owner.

Definition phase_ok (s : HubState) (j : Job) : Prop :=
  match j_phase j with
  | Began b _ => b = true -> j_work j = Deliver true
  | Turning => turned s (j_agent j) (j_message j) None
  | Checked owner _ => work_ok s (j_agent j) (j_message j) (StandIn owner)
  | StandTurning owner _ disclosed =>
      turned s (j_agent j) (j_message j) (Some owner) /\
      (disclosed = true -> told (messages (team s)) (j_conversation j) (j_agent j) owner)
  | Replying _ _ _ None => turned s (j_agent j) (j_message j) None
  | Replying _ _ _ (Some (owner, _, disclosed)) =>
      turned s (j_agent j) (j_message j) (Some owner) /\
      (disclosed = true -> told (messages (team s)) (j_conversation j) (j_agent j) owner)
  | Saying _ m => m ∈ messages (team s) /\ m_author m = agentParticipant (j_agent j)
  | _ => True
  end.
Definition job_ok (s : HubState) (j : Job) : Prop := work_ok s (j_agent j) (j_message j) (j_work j) /\ phase_ok s j.

Definition waiting_ok (s : HubState) (w : Waiting) : Prop := work_ok s (w_agent w) (w_message w) (StandIn (w_owner w)).

Definition task_ok (s : HubState) (k : Task) : Prop :=
  match k with
  | Announce _ m => m ∈ messages (team s)
  | Assess agent _ m _ _ => handed s agent m ToAssess
  | AssessPresence agent _ m owner _ => handed s agent m ToAssess /\ owner <> m_author m
  | _ => True
  end.

(** What the guard allows: an ordinary turn answers a message that addresses the agent, an agent's
    only below the ceiling; a stand-in answers a person for somebody else. *)
Definition turn_ok (s : HubState) (t : Turn) : Prop :=
  match t_behalf t with
  | None => handed s (t_agent t) (t_message t) (ToDeliver true) /\ (m_origin (t_message t) = FromAgent -> m_hop (t_message t) < t_ceiling t)
  | Some owner => handed s (t_agent t) (t_message t) ToAssess /\ owner <> m_author (t_message t)
  end.

(** A human's message is hop 0; an agent's is hop 1, or one past the message of a turn below its ceiling. *)
Definition hop_ok (s : HubState) (m : ConversationMessage) : Prop :=
  match m_origin m with
  | FromHuman => m_hop m = 0 /\ m_behalf m = None
  | FromAgent => m_hop m = 1 \/ exists t, t ∈ turns s /\ m_author m = agentParticipant (t_agent t) /\ m_hop m <= t_ceiling t
  end.

(** An answer for somebody opens with the disclosure, or follows another for them. *)
Definition disclosed_ok (l : list ConversationMessage) (i : nat) (m : ConversationMessage) : Prop :=
  forall owner, is_Some (m_turn m) -> m_behalf m = Some owner ->
    (exists name text, m_text m = disclosure name ++ text) \/
    exists i' e, (i' < i)%nat /\ l !! i' = Some e /\ m_conversation e = m_conversation m /\ m_author e = m_author m /\ m_behalf e = Some owner.

Record guarded (s : HubState) : Prop := {
  g_jobs : Forall (job_ok s) (jobs s);
  g_waiting : Forall (waiting_ok s) (waiting s);
  g_tasks : Forall (task_ok s) (tasks s);
  g_turns : Forall (turn_ok s) (turns s);
  g_announced : Forall (fun p => p.2 ∈ messages (team s)) (announced s);
  g_log : Forall (hop_ok s) (messages (team s));
  g_disclosed : forall i m, messages (team s) !! i = Some m -> disclosed_ok (messages (team s)) i m }.

(** ** What was recorded stays *)

Definition grows (s s' : HubState) : Prop :=
  announced s ⊆ announced s' /\ turns s ⊆ turns s' /\ messages (team s) `prefix_of` messages (team s').

#[export] Instance grows_preorder : PreOrder grows.
Proof.
  split; [by repeat split|]. intros s1 s2 s3 (A1 & T1 & M1) (A2 & T2 & M2). repeat split; etransitivity; eassumption.
Qed.

Lemma grows_log s s' m : grows s s' -> m ∈ messages (team s) -> m ∈ messages (team s').
Proof. intros (_ & _ & l & E) H. rewrite E. set_solver. Qed.

Lemma handed_grows s s' a m h : grows s s' -> handed s a m h -> handed s' a m h.
Proof. intros (A & _ & _) (c & Hc & H). exists c. split; [by apply A|done]. Qed.
Lemma work_grows s s' a m w : grows s s' -> work_ok s a m w -> work_ok s' a m w.
Proof.
  intros G. destruct w; cbn; [intros (h & H & Hh); exists h|intros [H Hh]]; (split; [|done]); by eapply handed_grows.
Qed.
Lemma turned_grows s s' a m b : grows s s' -> turned s a m b -> turned s' a m b.
Proof. intros (_ & T & _) (t & Ht & H). exists t. split; [by apply T|done]. Qed.
Lemma told_grows s s' conv a o : grows s s' -> told (messages (team s)) conv a o -> told (messages (team s')) conv a o.
Proof. intros G (e & He & H). exists e. split; [by eapply grows_log|done]. Qed.
Lemma job_grows s s' j : grows s s' -> job_ok s j -> job_ok s' j.
Proof.
  intros G [Hw Hp]. split; [by eapply work_grows|]. unfold phase_ok in *.
  destruct (j_phase j) as [|b h| | |o aw|o nm d|c tx tu [[[o nm] d]|]|c m]; try done.
  - by eapply turned_grows.
  - exact (work_grows s s' _ _ (StandIn o) G Hp).
  - destruct Hp as [H1 H2]. split; [by eapply turned_grows|]. intros Hd. by eapply told_grows, H2.
  - destruct Hp as [H1 H2]. split; [by eapply turned_grows|]. intros Hd. by eapply told_grows, H2.
  - by eapply turned_grows.
  - destruct Hp. split; [by eapply grows_log|done].
Qed.
Lemma task_grows s s' k : grows s s' -> task_ok s k -> task_ok s' k.
Proof.
  intros G. destruct k; cbn; try done; [by apply grows_log|by apply handed_grows|]. intros [H1 H2]. split; [by eapply handed_grows|done].
Qed.
Lemma turn_grows s s' t : grows s s' -> turn_ok s t -> turn_ok s' t.
Proof. intros G. unfold turn_ok. destruct (t_behalf t); intros [H1 H2]; (split; [|done]); by eapply handed_grows. Qed.
Lemma hop_grows s s' m : grows s s' -> hop_ok s m -> hop_ok s' m.
Proof.
  intros (_ & T & _). unfold hop_ok. destruct (m_origin m); [done|]. intros [H|(t & Ht & H)]; [by left|]. right. exists t. split; [by apply T|done].
Qed.

(** ** One step at a time *)

(** What is new in [s'] is right, and the log is the same or one message longer. *)
Lemma guarded_step s s' : guarded s -> grows s s' ->
  (forall j, j ∈ jobs s' -> j ∈ jobs s \/ job_ok s' j) ->
  (forall w, w ∈ waiting s' -> w ∈ waiting s \/ waiting_ok s' w) ->
  (forall k, k ∈ tasks s' -> k ∈ tasks s \/ task_ok s' k) ->
  (forall t, t ∈ turns s' -> t ∈ turns s \/ turn_ok s' t) ->
  (forall p, p ∈ announced s' -> p ∈ announced s \/ p.2 ∈ messages (team s')) ->
  (messages (team s') = messages (team s) \/
   exists m, messages (team s') = messages (team s) ++ [m] /\ hop_ok s' m /\ disclosed_ok (messages (team s')) (length (messages (team s))) m) ->
  guarded s'.
Proof.
  intros [Gj Gw Gk Gt Ga Gl Gd] G Hj Hw Hk Ht Ha Hl. rewrite !Forall_forall in *. split; rewrite ?Forall_forall.
  - intros j H. destruct (Hj j H); [|done]. by eapply job_grows, Gj.
  - intros w H. destruct (Hw w H); [|done]. by eapply work_grows, Gw.
  - intros k H. destruct (Hk k H); [|done]. by eapply task_grows, Gk.
  - intros t H. destruct (Ht t H); [|done]. by eapply turn_grows, Gt.
  - intros p H. destruct (Ha p H); [|done]. by eapply grows_log, Ga.
  - intros m H. destruct Hl as [E|(m' & E & Hm & _)]; rewrite E in H; [by eapply hop_grows, Gl|].
    apply elem_of_app in H as [H| ->%list_elem_of_singleton]; [by eapply hop_grows, Gl|done].
  - intros i m H. destruct Hl as [E|(m' & E & _ & Hm)]; [rewrite E in *; by apply Gd|].
    rewrite E in H. apply lookup_app_Some in H as [H|[Hi H]].
    + intros o Ho Hb. destruct (Gd i m H o Ho Hb) as [|(i' & e & Hi & He & R)]; [by left|]. right. exists i', e. split; [done|].
      split; [|done]. rewrite E. by apply lookup_app_l_Some.
    + apply list_lookup_singleton_Some in H as [Ei ->]. by replace i with (length (messages (team s))) by lia.
Qed.

Lemma guarded_enqueue s a conv m w : guarded s -> work_ok s a m w -> guarded (enqueue a conv m w s).
Proof.
  intros G Hw. apply (guarded_step s); auto; [done|]. intros j [H|H%list_elem_of_singleton]%elem_of_app; [by left|]. right. subst j. by split.
Qed.
Lemma guarded_spawn s k : guarded s -> task_ok s k -> guarded (spawn k s).
Proof.
  intros G Hk. apply (guarded_step s); auto; [done|]. intros k' [H|H%list_elem_of_singleton]%elem_of_app; [by left|]. right. subst k'. by destruct k.
Qed.

(** Fewer jobs, timers or tasks; a turn or a table that is not the log's. *)
Lemma guarded_less s s' : guarded s -> jobs s' ⊆ jobs s -> waiting s' ⊆ waiting s -> tasks s' ⊆ tasks s -> announced s' = announced s ->
  turns s' = turns s -> messages (team s') = messages (team s) -> guarded s'.
Proof.
  intros G Hj Hw Hk Ha Ht Hm. apply (guarded_step s); auto; [unfold grows; by rewrite Ha, Ht, Hm|rewrite Ht|rewrite Ha]; auto.
Qed.

Lemma guarded_withdraw s owner conv : guarded s -> guarded (withdraw owner conv s).
Proof.
  intros G. unfold withdraw. set (s0 := with_waiting _ s).
  assert (G0 : guarded s0).
  { apply (guarded_less s); try done. intros w. cbn. rewrite !list_elem_of_In, List.filter_In. tauto. }
  assert (Hl : Forall (waiting_ok s0) (List.filter (withdrawn owner conv) (waiting s))).
  { apply Forall_forall. intros w Hw. rewrite list_elem_of_In, List.filter_In, <- list_elem_of_In in Hw.
    eapply (proj1 (Forall_forall _ _) (g_waiting s G)). tauto. }
  clearbody s0. revert s0 G0 Hl. induction (List.filter (withdrawn owner conv) (waiting s)) as [|w l IH]; intros s0 G0 Hl; cbn [foldl]; [done|].
  apply Forall_cons in Hl as [[Hw _] Hl]. apply IH.
  - apply guarded_enqueue; [done|]. exists ToAssess. split; [done|]. done.
  - eapply Forall_impl; [exact Hl|]. intros w'. by apply work_grows.
Qed.

Lemma guarded_fanOut s c m : guarded s -> m ∈ messages (team s) -> guarded (fanOut c m s).
Proof.
  intros G Hm. unfold fanOut.
  assert (G1 : guarded (note_announced c m s)).
  { apply (guarded_step s); auto.
    - repeat split; cbn; [set_solver|done|done].
    - intros p [H|H%list_elem_of_singleton]%elem_of_app; [by left|]. right. by subst p. }
  assert (Hh : forall l s0, guarded s0 -> (c, m) ∈ announced s0 -> l ⊆ targets c m -> guarded (foldl (hand c m) s0 l)).
  { induction l as [|[a h] l IH]; intros s0 G0 Hc Hl; cbn [foldl]; [done|].
    assert (Hd : handed s0 a m h) by (exists c; split; [done|]; apply Hl; by left).
    apply IH; [|by destruct h|intros t Ht; apply Hl; by right]. unfold hand; cbn [fst snd]. destruct h.
    - by apply guarded_spawn.
    - apply guarded_enqueue; [done|]. eexists. split; [exact Hd|]. by intros ->. }
  assert (G2 : guarded (foldl (hand c m) (note_announced c m s) (targets c m))) by (apply Hh; [done|cbn; set_solver|done]).
  destruct (m_origin m); [by apply guarded_withdraw|done].
Qed.

(** ** Whom a message addresses *)

Definition two_people (c : ConversationRecord) : Prop :=
  c_kind c = Dm /\ length (List.filter (fun m => negb (is_agent m)) (c_members c)) = 2%nat.

Lemma targets_assess c m agent : (agent, ToAssess) ∈ targets c m -> two_people c /\ m_origin m = FromHuman.
Proof.
  unfold targets, two_people. intros (who & _ & H)%list_elem_of_omap. destruct (agentOf who); [|done]. case_bool_decide; [done|].
  destruct (bool_decide (c_kind c = Dm) && _) eqn:E; [|by simplify_eq]. bool_to_prop. destruct (m_origin m); [done|]. by simplify_eq.
Qed.

Lemma targets_addressed c m agent : (agent, ToDeliver true) ∈ targets c m ->
  (c_kind c = Dm /\ ~ two_people c /\ m_origin m = FromHuman) \/ (c_kind c = Room /\ agentParticipant agent ∈ m_mentions m).
Proof.
  unfold targets, two_people. intros (who & _ & H)%list_elem_of_omap. destruct (agentOf who) as [a|] eqn:Ea; [|done].
  apply agentOf_Some in Ea. case_bool_decide; [done|]. destruct (c_kind c) eqn:Ek.
  - right. simplify_eq/=. case_bool_decide; [done|by simplify_eq].
  - left. cbn in H. destruct (length _ =? 2)%nat eqn:E; [destruct (m_origin m); by simplify_eq|]. apply Nat.eqb_neq in E.
    split; [done|]. split; [tauto|]. injection H as _ Hb. by apply bool_decide_eq_true in Hb.
Qed.

Lemma handed_logged s agent m h : guarded s -> handed s agent m h -> m ∈ messages (team s).
Proof. intros G (c & Hc & _). exact (proj1 (Forall_forall _ _) (g_announced s G) _ Hc). Qed.

(** What an answer to a turn's message is. *)
Lemma reply_hop s agent m behalf conv text ms turn b seq : guarded s -> turned s agent m behalf ->
  hop_ok s {| m_seq := seq; m_conversation := conv; m_author := agentParticipant agent; m_origin := FromAgent; m_text := text; m_mentions := ms;
              m_hop := m_hop m + 1; m_turn := turn; m_behalf := b |}.
Proof.
  intros G (t & Ht & <- & <- & Hb). pose proof (proj1 (Forall_forall _ _) (g_turns s G) _ Ht) as Hok. unfold turn_ok in Hok. unfold hop_ok. cbn.
  assert (Hlog : forall h, handed s (t_agent t) (t_message t) h -> m_origin (t_message t) = FromHuman -> m_hop (t_message t) = 0).
  { intros h Hh Ho. pose proof (proj1 (Forall_forall _ _) (g_log s G) _ (handed_logged _ _ _ _ G Hh)) as Hm. unfold hop_ok in Hm. rewrite Ho in Hm.
    tauto. }
  destruct (t_behalf t).
  - destruct Hok as [Hh _]. pose proof Hh as (c & _ & Hc). apply targets_assess in Hc as [_ Ho]. left. rewrite (Hlog _ Hh Ho). lia.
  - destruct Hok as [Hh Hlt]. destruct (m_origin (t_message t)) eqn:Ho; [left; rewrite (Hlog _ Hh eq_refl); lia|].
    right. exists t. specialize (Hlt eq_refl). split; [done|]. split; [done|lia].
Qed.

Lemma guarded_log s t m : guarded s -> messages t = messages (team s) ++ [m] -> hop_ok s m -> disclosed_ok (messages t) (length (messages (team s))) m ->
  guarded (with_team t s).
Proof.
  intros G E Hm Hd. assert (grows s (with_team t s)) by (repeat split; [done|done|cbn; rewrite E; by exists [m]]).
  apply (guarded_step s); auto; try (by intros; left). right. exists m. split; [done|]. split; [by eapply hop_grows|done].
Qed.

Lemma append_log conv au o tx ms hop tu b t m t' : append conv au o tx ms hop tu b t = (m, t') ->
  messages t' = messages t ++ [m] /\
  m = {| m_seq := zlen (messages t) + 1; m_conversation := conv; m_author := au; m_origin := o; m_text := tx; m_mentions := ms; m_hop := hop;
         m_turn := tu; m_behalf := b |}.
Proof. unfold append. intros [= <- <-]. by destruct t. Qed.

Lemma undisclosed_ok l i m : m_turn m = None \/ m_behalf m = None -> disclosed_ok l i m.
Proof. unfold disclosed_ok. intros H owner [x Hx] Hb. destruct H; congruence. Qed.

Lemma guarded_settle s id a name status result now : guarded s -> guarded (settle_action id a name status result now s).
Proof.
  intros G. unfold settle_action. destruct (store_decideAction _ _ _ _ _) as [t|] eqn:E; [|by apply guarded_spawn].
  apply messages_decide in E. assert (G' : guarded (with_team t s)) by (by apply (guarded_less s)).
  apply (guarded_spawn _ (ActionStored id a name status result true)) in G'; [|done]. by eapply guarded_less.
Qed.

Lemma guarded_run_task s k a now s' : guarded s -> task_ok s k -> run_task k a now s = Some s' -> guarded s'.
Proof.
  intros G Hk H.
  destruct k as [c au tx ms|c m|ag c m h ow|ag c m ow aw|who p|id act ap|id act h name ap|id act name|id act name st res sd|c act name st res];
    cbn [run_task] in H; cbn [task_ok] in Hk.
  1: { destruct (check_post _ _ _) as [ms'|]; [|by simplify_eq]. destruct (append _ _ _ _ _ _ _ _ _) as [m t] eqn:E. simplify_eq.
       apply append_log in E as [E Em]. apply guarded_spawn; [|cbn; rewrite E; set_solver]. eapply guarded_log; [done|exact E|by subst m|].
       apply undisclosed_ok. subst m. by left. }
  9: { destruct c as [c|]; [|by simplify_eq]. destruct (append _ _ _ _ _ _ _ _ _) as [m t] eqn:E. simplify_eq.
       apply append_log in E as [E Em]. apply guarded_spawn; [|cbn; rewrite E; set_solver]. eapply guarded_log; [done|exact E|subst m; by left|].
       apply undisclosed_ok. subst m. by left. }
  all: repeat case_in H; bool_to_prop; simplify_eq; auto using guarded_withdraw, guarded_settle, guarded_fanOut.
  - apply guarded_enqueue; [done|]. by exists ToAssess.
  - apply guarded_spawn; [done|]. split; [done|]. bool_to_prop. by intros ->.
  - apply guarded_enqueue; [done|]. by exists ToAssess.
  - apply guarded_enqueue; [done|]. by exists ToAssess.
  - apply (guarded_step s); auto; [done|]. intros w [Hw|Hw%list_elem_of_singleton]%elem_of_app; [by left|]. right. subst w. done.
  - apply guarded_enqueue; [done|]. exists ToAssess. by split; [apply Hk|].
  - by apply guarded_spawn.
  - apply (guarded_less (spawn (ActionRunning id act name) s)); try done. by apply guarded_spawn.
  - by apply guarded_spawn.
Qed.

Lemma guarded_put s i j p : guarded s -> jobs s !! i = Some j -> phase_ok s (at_phase p j) -> guarded (with_jobs (<[i := at_phase p j]> (jobs s)) s).
Proof.
  intros G Hj Hp. apply (guarded_step s); auto; [done|]. intros j' [n Hn]%list_elem_of_lookup_1. cbn in Hn. rewrite list_lookup_insert_Some in Hn.
  destruct Hn as [(-> & <- & _)|[_ Hn]]; [|left; by eapply list_elem_of_lookup_2]. right. split; [|exact Hp].
  exact (proj1 (proj1 (Forall_forall _ _) (g_jobs s G) _ (list_elem_of_lookup_2 _ _ _ Hj))).
Qed.

Lemma guarded_turn s t : guarded s -> turn_ok s t -> guarded (note_turn t s).
Proof.
  intros G Ht. assert (grows s (note_turn t s)) by (repeat split; cbn; set_solver).
  apply (guarded_step s); auto. intros t' [H'|H'%list_elem_of_singleton]%elem_of_app; [by left|]. right. subst t'. by eapply turn_grows.
Qed.

(** What a job may do next, from what it rests on. *)
Definition moved_ok (s : HubState) (j : Job) (mv : Moved) : Prop :=
  match mv with
  | Goes p => phase_ok s (at_phase p j)
  | Starts p t => turn_ok s t /\ phase_ok (note_turn t s) (at_phase p j)
  | Says c m t =>
      messages t = messages (team s) ++ [m] /\ m_author m = agentParticipant (j_agent j) /\ hop_ok s m /\
      disclosed_ok (messages t) (length (messages (team s))) m
  | Ends _ => True
  | EndsAnnouncing c m => m ∈ messages (team s) /\ m_author m = agentParticipant (j_agent j)
  end.

Lemma disclosed_elem conv agent owner t : disclosed_before conv agent owner t = true -> told (messages t) conv agent owner.
Proof.
  unfold disclosed_before, told, messagesAfter. rewrite existsb_exists. intros (e & He & H). bool_to_prop. exists e.
  apply list_elem_of_In, elem_of_take in He as (n & He & _). apply list_elem_of_lookup_2, list_elem_of_In, List.filter_In in He as [He Hc].
  bool_to_prop. split; [by apply list_elem_of_In|]. by split.
Qed.

Lemma reply_ok s j c text turn behalf m t : guarded s -> phase_ok s (at_phase (Replying (Some c) text turn behalf) j) ->
  reply j c text turn behalf (team s) = (m, t) -> moved_ok s j (Says c m t).
Proof.
  intros G Hp E. unfold reply in E. cbn. destruct behalf as [[[o nm] d]|]; cbn in Hp; apply append_log in E as [E ->].
  - destruct Hp as [Ht Hd]. split; [done|]. split; [done|]. split; [by eapply reply_hop|]. intros owner _ [= <-]. cbn. destruct d; [right|left; eauto].
    destruct (Hd eq_refl) as (e & He & R). apply list_elem_of_lookup_1 in He as [i He]. exists i, e. rewrite E.
    pose proof (lookup_lt_Some _ _ _ He). split; [done|]. split; [by apply lookup_app_l_Some|done].
  - split; [done|]. split; [done|]. split; [by eapply reply_hop|]. apply undisclosed_ok. by right.
Qed.

Lemma run_job_ok s j a mv : guarded s -> job_ok s j -> run_job j a (agents s) (team s) = Some mv -> moved_ok s j mv.
Proof.
  intros G [Hw Hp] H. unfold run_job, begin_delivery, deliver_or_skip, after_turn in H. unfold phase_ok in Hp.
  destruct (j_phase j) as [|b h| | |o aw|o nm d|[c'|] tx tu bh|c' m'] eqn:Ep.
  - destruct (j_work j) eqn:Ew; case_in H; simplify_eq; cbn; rewrite ?Ew; try done. by intros ->.
  - destruct (b && _) eqn:E; simplify_eq; [|done]. apply andb_true_iff in E as [-> E%negb_true_iff]. specialize (Hp eq_refl). cbn.
    rewrite Hp in Hw. destruct Hw as (h' & Hh & Eh). rewrite (Eh eq_refl) in Hh. split.
    + split; [done|]. intros Ho. cbn. rewrite bool_decide_eq_true_2 in E by done. apply Z.leb_gt in E. lia.
    + eexists. split; [apply elem_of_app; right; by left|done].
  - case_in H; by simplify_eq.
  - repeat case_in H; simplify_eq; cbn; done.
  - destruct aw; [|case_in H; by simplify_eq]. simplify_eq. cbn. split; [exact Hp|].
    split; [eexists; split; [apply elem_of_app; right; by left|done]|]. apply disclosed_elem.
  - repeat case_in H; simplify_eq; cbn; try done; by apply Hp.
  - destruct (reply _ _ _ _ _ _) as [m t] eqn:E. simplify_eq. eapply reply_ok; [done| |exact E]. exact Hp.
  - by simplify_eq.
  - by simplify_eq.
Qed.

Lemma guarded_step_job s i a s' : guarded s -> step_job i a s = Some s' -> guarded s'.
Proof.
  intros G H. unfold step_job in H. destruct (jobs s !! i) as [j|] eqn:Hj; [|done]. destruct existsb; [done|].
  destruct (run_job _ _ _ _) as [mv|] eqn:Er; [|done]. cbn zeta in H. cbn [mbind option_bind] in H.
  pose proof (proj1 (Forall_forall _ _) (g_jobs s G) _ (list_elem_of_lookup_2 _ _ _ Hj)) as Hok.
  apply run_job_ok in Er; [|done..].
  assert (Hout : guarded (with_jobs (base.delete i (jobs s)) s)) by (apply (guarded_less s); try done; intros x; apply elem_of_deleted).
  destruct mv; simplify_eq; cbn in Er.
  - by apply guarded_put.
  - destruct Er as [Ht Hp]. apply (guarded_turn s t) in Ht; [|done]. by apply (guarded_put _ i j p) in Ht.
  - destruct Er as (E & Ha & Hm & Hd). assert (G' : guarded (with_team t s)) by (by eapply guarded_log).
    apply (guarded_put _ i j (Saying c m)) in G'; [done|done|]. cbn. rewrite E. split; [set_solver|done].
  - by apply (guarded_less (with_jobs (base.delete i (jobs s)) s)).
  - destruct Er. apply guarded_fanOut; [|done]. by apply (guarded_less (with_jobs (base.delete i (jobs s)) s)).
Qed.

Lemma guarded_event tz e s s' : guarded s -> step tz e s = Some s' -> guarded s'.
Proof.
  intros G H. destruct e as [conv au tx ms|id ap|who p now|c now|hosts| |i id sl ar now|i a|i|i a now]; cbn [step] in H.
  - case_in H; simplify_eq; [by apply guarded_spawn|done].
  - simplify_eq. by apply guarded_spawn.
  - pose proof (messages_presence who p now (team s)) as E.
    destruct (store_setPresence who p now (team s)) as [[row|] t]; simplify_eq; [apply guarded_spawn; [|done]|]; by apply (guarded_less s).
  - case_in H; simplify_eq; [|done]. apply (guarded_less s); try done. by eapply messages_table.
  - simplify_eq. by apply (guarded_less s).
  - simplify_eq. apply (guarded_less s); try done; intros x Hx; by apply not_elem_of_nil in Hx.
  - unfold defer in H. repeat case_in H; try done. destruct (deferAction _ _ _) as [t|] eqn:Ed; cbn in H; [|done]. simplify_eq.
    apply (guarded_less s); try done. by eapply messages_defer.
  - by eapply guarded_step_job.
  - unfold fire in H. destruct (waiting s !! i) as [w|] eqn:Hw; [|done]. simplify_eq.
    pose proof (proj1 (Forall_forall _ _) (g_waiting s G) _ (list_elem_of_lookup_2 _ _ _ Hw)).
    apply guarded_enqueue; [|done]. apply (guarded_less s); try done. intros x. apply elem_of_deleted.
  - unfold step_task in H. destruct (tasks s !! i) as [k|] eqn:Hk; [|done]. eapply guarded_run_task; [| |exact H].
    + apply (guarded_less s); try done. intros x. apply elem_of_deleted.
    + exact (proj1 (Forall_forall _ _) (g_tasks s G) _ (list_elem_of_lookup_2 _ _ _ Hk)).
Qed.

Lemma reachable_guarded tz s : reachable tz s -> guarded s.
Proof. apply reachable_ind; [by split; try constructor|]. intros e s0 s' G. by apply guarded_event. Qed.

(** ** What holds of every conversation *)

(** C16. The loop guard. However messages, calls and restarts interleave: an agent takes an ordinary
    turn only for an announced message of somebody else that addresses it (a mention in a room, a
    person's message in a direct one), and for an agent's message only below its ceiling of hops; so
    no agent's message is further from a person's than a ceiling some agent had, or one. *)
Theorem turns_addressed (isTimeZone : ustring -> bool) (s : HubState) : reachable isTimeZone s ->
  (forall t, t ∈ turns s -> t_behalf t = None -> exists c, (c, t_message t) ∈ announced s /\
     agentParticipant (t_agent t) ∈ c_members c /\ agentParticipant (t_agent t) <> m_author (t_message t) /\
     (c_kind c = Room /\ agentParticipant (t_agent t) ∈ m_mentions (t_message t) \/
      c_kind c = Dm /\ ~ two_people c /\ m_origin (t_message t) = FromHuman) /\
     (m_origin (t_message t) = FromAgent -> m_hop (t_message t) < t_ceiling t)) /\
  (forall m, m ∈ messages (team s) -> match m_origin m with
     | FromHuman => m_hop m = 0
     | FromAgent => m_hop m = 1 \/ exists t, t ∈ turns s /\ m_author m = agentParticipant (t_agent t) /\ m_hop m <= t_ceiling t
     end).
Proof.
  intros G%reachable_guarded. split.
  - intros t Ht Hb. pose proof (proj1 (Forall_forall _ _) (g_turns s G) _ Ht) as Hok. unfold turn_ok in Hok. rewrite Hb in Hok.
    destruct Hok as [(c & Hc & Ha) Hh]. exists c. pose proof (elem_of_targets _ _ _ _ Ha). apply targets_addressed in Ha. tauto.
  - intros m Hm. pose proof (proj1 (Forall_forall _ _) (g_log s G) _ Hm) as Hok. unfold hop_ok in Hok. destruct (m_origin m); [by destruct Hok|done].
Qed.

(** C17. Speaking for somebody. An agent takes a turn for another person only over a message of a
    person, in a direct message of two people it is in, and never for the one who wrote; and what it
    answers there opens with the disclosure, unless something of it for that same person stands
    earlier in that conversation. *)
Theorem stand_in_disclosed (isTimeZone : ustring -> bool) (s : HubState) : reachable isTimeZone s ->
  (forall t owner, t ∈ turns s -> t_behalf t = Some owner -> exists c, (c, t_message t) ∈ announced s /\
     two_people c /\ agentParticipant (t_agent t) ∈ c_members c /\ m_origin (t_message t) = FromHuman /\ owner <> m_author (t_message t)) /\
  (forall i m owner, messages (team s) !! i = Some m -> is_Some (m_turn m) -> m_behalf m = Some owner ->
     (exists name text, m_text m = disclosure name ++ text) \/
     exists i' e, (i' < i)%nat /\ messages (team s) !! i' = Some e /\ m_conversation e = m_conversation m /\ m_author e = m_author m /\
       m_behalf e = Some owner).
Proof.
  intros G%reachable_guarded. split.
  - intros t owner Ht Hb. pose proof (proj1 (Forall_forall _ _) (g_turns s G) _ Ht) as Hok. unfold turn_ok in Hok. rewrite Hb in Hok.
    destruct Hok as [(c & Hc & Ha) Hh]. exists c. pose proof (elem_of_targets _ _ _ _ Ha). apply targets_assess in Ha. tauto.
  - intros i m owner Hm Ht Hb. by apply (g_disclosed s G i m Hm owner).
Qed.

(** ** What a step does to the tables *)

Inductive team_step (t : TeamDb) : TeamDb -> Prop :=
| TSame : team_step t t
| TAppend m : team_step t (with_messages (messages t ++ [m]) t)
| TDecide id status res now t' : store_decideAction id status res now t = Some t' -> team_step t t'.

Lemma team_enqueue_all l s :
  team (foldl (fun s w => enqueue (w_agent w) (w_conversation w) (w_message w) (Deliver false) s) s l) = team s.
Proof. revert s. induction l as [|w l IH]; intros s; cbn [foldl]; [done|]. by rewrite IH. Qed.
Lemma team_withdraw owner conv s : team (withdraw owner conv s) = team s.
Proof. unfold withdraw. by rewrite team_enqueue_all. Qed.
Lemma team_fanOut c m s : team (fanOut c m s) = team s.
Proof.
  assert (H : forall l s, team (foldl (hand c m) s l) = team s).
  { induction l as [|[a h] l IH]; intros s'; cbn [foldl]; [done|]. rewrite IH. by destruct h. }
  unfold fanOut. destruct (m_origin m); rewrite ?team_withdraw; by rewrite H.
Qed.
Lemma append_team conv au o tx ms hop tu b t m t' : append conv au o tx ms hop tu b t = (m, t') -> team_step t t'.
Proof. unfold append. intros [= _ <-]. apply TAppend. Qed.
Lemma settle_team id a name status result now s : team_step (team s) (team (settle_action id a name status result now s)).
Proof. unfold settle_action. destruct (store_decideAction _ _ _ _ _) eqn:E; [by eapply TDecide|apply TSame]. Qed.

(** The hub's own steps, calls and timers aside. *)
Lemma task_team i a now s s' : step_task i a now s = Some s' -> team_step (team s) (team s').
Proof.
  unfold step_task. destruct (tasks s !! i) as [k|]; [|done]. set (s0 := with_tasks _ s). change (team s) with (team s0). clearbody s0.
  destruct k as [c au tx ms|c m|ag c m h ow|ag c m ow aw|who p|id act ap|id act h name ap|id act name|id act name st res sd|c act name st res];
    cbn [run_task]; intros H; repeat case_in H; simplify_eq; rewrite ?team_fanOut, ?team_withdraw; try apply TSame; try apply settle_team.
  - by eapply append_team.
  - by eapply append_team.
Qed.
Lemma job_team i a s s' : step_job i a s = Some s' -> team_step (team s) (team s').
Proof.
  unfold step_job. destruct (jobs s !! i) as [j|]; [|done]. destruct existsb; [done|]. destruct (run_job _ _ _ _) as [mv|] eqn:E; [|done].
  cbn. intros [= <-]. destruct mv; rewrite ?team_fanOut; try apply TSame. apply run_job_says in E as (tx & tu & bh & _ & E).
  unfold reply in E. destruct bh as [[[o nm] d]|]; by eapply append_team.
Qed.

(** ** Actions *)

Lemma action_team id a t t' : team_step t t' -> action id t = Some a -> d_status a <> ActionPending -> action id t' = Some a.
Proof.
  intros [|m|id' st res now t'' H] Ha Hs; [done|by destruct t|]. unfold store_decideAction, action in *.
  destruct (decide (id' = id)) as [->|N].
  - rewrite Ha, bool_decide_eq_false_2 in H by done. done.
  - repeat case_in H; try done. simplify_eq. destruct t; cbn in *. by rewrite lookup_insert_ne.
Qed.

Lemma actions_clear who t : actions (clear_writer_if who t) = actions t.
Proof. unfold clear_writer_if. destruct t as [? ? ? ? ? ? ? ? ? [w|] ?]; cbn; [|done]. by case_bool_decide. Qed.

Lemma action_table tz c now hosts t t' id a : table_call tz c now hosts t = Ok t' -> action id t = Some a ->
  action id t' = Some a \/ exists agent, agent = d_agent a /\ c = CPurge agent.
Proof.
  intros H Ha. destruct c as [i|who|cid kind ms ti|cid ad re|ag who b ch|ag|ag]; cbn [table_call] in H.
  - left. unfold registerParticipant in H. repeat case_in H; try done; simplify_eq; by destruct t.
  - left. simplify_eq. unfold deleteParticipant, action in *. cbn [snd]. set (y := clear_writer_if _ _).
    assert (E : actions y = actions t) by (unfold y; rewrite actions_clear; by destruct t). rewrite <- Ha, <- E. by destruct y.
  - left. unfold create in H. destruct (checkMembers _ _ _); [|done]. cbn in H. destruct (match kind with Dm => _ | Room => _ end); [|done].
    cbn in H. unfold store_create in H. destruct (conversations t !! cid); [done|]. simplify_eq. by destruct t.
  - left. unfold setMembers, require in H. destruct (get cid t); [|done]. cbn in H. destruct (c_kind c); [|done].
    destruct (checkMembers _ _ _); [|done]. cbn in H. simplify_eq. by destruct t.
  - left. unfold assign in H. repeat case_in H; try done; simplify_eq; by destruct t.
  - left. simplify_eq. by destruct t.
  - simplify_eq. destruct (decide (d_agent a = ag)) as [E|N]; [right; eauto|left]. unfold purgeAgent, action in *. rewrite actions_clear.
    destruct t; cbn in *. by apply map_lookup_filter_Some.
Qed.

(** An action that was decided stays as it was decided, until its agent is purged. *)
Lemma action_decided_once (isTimeZone : ustring -> bool) (e : Event) (s s' : HubState) (id : ustring) (a : DeferredAction) :
  step isTimeZone e s = Some s' -> action id (team s) = Some a -> d_status a <> ActionPending ->
  action id (team s') = Some a \/ exists now, e = ETable (CPurge (d_agent a)) now.
Proof.
  intros H Ha Hs. destruct e as [conv au tx ms|id' ap|who p now|c now|hosts| |i id' sl ar now|i x|i|i x now]; cbn [step] in H.
  - left. case_in H; by simplify_eq.
  - left. by simplify_eq.
  - left. destruct (store_setPresence who p now (team s)) as [[row|] t] eqn:E; unfold store_setPresence in E; simplify_eq; cbn; by destruct (team s).
  - destruct (table_call _ _ _ _ _) as [t|] eqn:E; simplify_eq; [|by left]. cbn. eapply action_table in E; [|done]. destruct E as [E|(ag & -> & ->)]; eauto.
  - left. by simplify_eq.
  - left. by simplify_eq.
  - left. unfold defer in H. repeat case_in H; try done. unfold deferAction in H. destruct (actions (team s) !! id') eqn:Ed; cbn in H; [done|].
    simplify_eq. unfold action in *. destruct (decide (id' = id)) as [->|N]; [congruence|]. destruct (team s); cbn in *. by rewrite lookup_insert_ne.
  - left. by eapply action_team; [eapply job_team|..].
  - left. unfold fire in H. case_in H; [|done]. by simplify_eq.
  - left. by eapply action_team; [eapply task_team|..].
Qed.

(** ** Runs that go otherwise *)

Local Abbreviation ada := (js "ada").
Local Abbreviation bo := (js "bo").
Local Abbreviation cy := (js "cy").
Local Abbreviation crew := (js "crew").
Local Abbreviation dm := (js "cv").
Local Abbreviation person id := (ETable (CRegister {| i_id := id; i_name := None; i_role := None; i_title := None; i_timezone := None; i_channels := None |}) 0).

(** Ada and Bo with Ada's agent; Ada is away and Bo writes; the stand-in's timer fires. *)
Definition bo_writes : list Event :=
  [person ada; person bo; person cy; EHost {[ crew := {| h_maxHops := 4; h_standIn := true |} ]}; ETable (CAssign crew ada None None) 0;
   ETable (CCreate dm Dm [ada; bo; agentParticipant crew] None) 0; EPresence ada Offline 0; ETask 0 NoAnswer 0].
Definition asks (text : ustring) : list Event := [EPost dm bo text None; ETask 0 NoAnswer 0; ETask 0 NoAnswer 0; ETask 0 NoAnswer 0; ETask 0 NoAnswer 0].
Definition stands_in : list Event := [ETimer 0; EJob 0 NoAnswer; EJob 0 NoAnswer].
Definition says (text : ustring) : list Event := [EJob 0 (Text text (js "t")); EJob 0 NoAnswer; EJob 0 NoAnswer].

Definition outcome (es : list Event) : option HubState := run (fun _ => true) es empty_hub.

(** What a run comes to, where it is one. *)
Definition after (es : list Event) : HubState := default empty_hub (outcome es).
Lemma after_reachable es : reachable (fun _ => true) (after es).
Proof. unfold after. destruct (outcome es) eqn:E; [by exists es|by exists []]. Qed.

(** *** Two answers at once *)

Definition one_deferred : list Event :=
  bo_writes ++ asks (js "pay") ++ stands_in ++ [EDefer 0 (js "da") (js "pay") (js "{}") 0] ++ says (js "Queued.").

(** Two approvals that are both read before either is stored both run the call. *)
Theorem approved_twice_runs_twice : exists s, reachable (fun _ => true) s /\ ran s = [js "da"; js "da"] /\ decided s = [js "da"].
Proof.
  exists (after (one_deferred ++ [EDecide (js "da") true; EDecide (js "da") true] ++ repeat (ETask 0 NoAnswer 0) 4 ++
    repeat (ETask 0 (Result true (js "paid")) 0) 2)). split; [apply after_reachable|]. by vm_compute.
Qed.

(** And a call that ran is recorded as declined where the other answer was stored first. *)
Theorem declined_after_it_ran : exists s, reachable (fun _ => true) s /\ ran s = [js "da"] /\
  d_status <$> action (js "da") (team s) = Some ActionDenied.
Proof.
  exists (after (one_deferred ++ [EDecide (js "da") true; EDecide (js "da") false] ++ repeat (ETask 0 NoAnswer 0) 4 ++
    [ETask 0 (Result true (js "paid")) 0])). split; [apply after_reachable|]. by vm_compute.
Qed.

(** *** A stand-in that says too little, or speaks for a third *)

(** The note of a decision counts as a disclosure: the agent may then answer without ever having said
    for whom it speaks. *)
Theorem note_stands_for_disclosure : exists s m, reachable (fun _ => true) s /\ messages (team s) !! 3%nat = Some m /\
  m_text m = js "Yes." /\ m_behalf m = Some ada /\ forallb (fun e => negb (starts_with (js "(") (m_text e))) (messages (team s)) = true.
Proof.
  eexists (after (bo_writes ++ asks (js "pay") ++ stands_in ++ [EDefer 0 (js "da") (js "pay") (js "{}") 0; EJob 0 (Text [] (js "t"));
    EDecide (js "da") true; ETask 0 NoAnswer 0; ETask 0 NoAnswer 0; ETask 0 (Result true (js "paid")) 0] ++ repeat (ETask 0 NoAnswer 0) 3 ++
    asks (js "so") ++ stands_in ++ says (js "Yes."))), _.
  split; [apply after_reachable|]. split; [vm_compute; reflexivity|]. by vm_compute.
Qed.

(** An agent assigned to somebody else since stands in for them in a conversation they are not in. *)
Theorem stands_in_for_outsider : exists s t p, reachable (fun _ => true) s /\ turns s !! 0%nat = Some t /\ t_behalf t = Some cy /\
  announced s !! 0%nat = Some p /\ p.2 = t_message t /\ bool_decide (cy ∈ c_members p.1) = false.
Proof.
  eexists (after (bo_writes ++ [ETable (CAssign crew cy None None) 0; EPresence cy Offline 0; ETask 0 NoAnswer 0] ++ asks (js "hi") ++ stands_in)), _, _.
  split; [apply after_reachable|]. split; [vm_compute; reflexivity|]. split; [done|]. split; [vm_compute; reflexivity|]. by vm_compute.
Qed.

Lemma turns_addressed_witness : exists s, reachable (fun _ => true) s /\ turns s <> [] /\
  forall m, m ∈ messages (team s) -> match m_origin m with
    | FromHuman => m_hop m = 0
    | FromAgent => m_hop m = 1 \/ exists t, t ∈ turns s /\ m_author m = agentParticipant (t_agent t) /\ m_hop m <= t_ceiling t
    end.
Proof.
  exists (after (bo_writes ++ asks (js "hi") ++ stands_in ++ says (js "yo"))). split; [apply after_reachable|]. split; [by vm_compute|].
  exact (proj2 (turns_addressed (fun _ => true) _ (after_reachable (bo_writes ++ asks (js "hi") ++ stands_in ++ says (js "yo"))))).
Defined.

Lemma stand_in_disclosed_witness : exists s m, reachable (fun _ => true) s /\ messages (team s) !! 1%nat = Some m /\ m_behalf m = Some ada /\
  ((exists name text, m_text m = disclosure name ++ text) \/
   exists i' e, (i' < 1)%nat /\ messages (team s) !! i' = Some e /\ m_conversation e = m_conversation m /\ m_author e = m_author m /\
     m_behalf e = Some ada).
Proof.
  eexists (after (bo_writes ++ asks (js "hi") ++ stands_in ++ says (js "yo"))), _. split; [apply after_reachable|].
  split; [vm_compute; reflexivity|]. split; [vm_compute; reflexivity|].
  eapply (proj2 (stand_in_disclosed (fun _ => true) _ (after_reachable (bo_writes ++ asks (js "hi") ++ stands_in ++ says (js "yo")))) 1%nat).
  - vm_compute; reflexivity.
  - by eexists.
  - vm_compute; reflexivity.
Defined.
