(* ===== verification/HubLive.v ===== *)
(** * A conversation comes to rest

    Over [Hub]: every step of its own takes off work that was bounded when it began, since a turn's
    reply is one hop further and past the ceilings nobody answers; and while anything waits, some step
    can be taken. So [settled] resolves, and each announced message's work for each agent
    ended, or was forgotten by a restart. *)
From S2P Require Import Prelude UString SessionKey Team Rooms Hub HubGuard.
Local Open Scope Z_scope.

Fixpoint sum_of {A} (f : A -> Z) (l : list A) : Z := match l with [] => 0 | x :: l => f x + sum_of f l end.

Section Sums.
Context {A : Type} (f : A -> Z).
Lemma sum_of_app l l' : sum_of f (l ++ l') = sum_of f l + sum_of f l'.
Proof. induction l as [|x l IH]; cbn; [done|]. rewrite IH. lia. Qed.
Lemma sum_of_at l i x : l !! i = Some x -> sum_of f l = f x + sum_of f (base.delete i l).
Proof.
  intros H. rewrite delete_take_drop, <- (take_drop_middle l i x H) at 1. rewrite !sum_of_app. cbn. lia.
Qed.
Lemma sum_of_insert l i x y : l !! i = Some x -> sum_of f (<[i := y]> l) = sum_of f l - f x + f y.
Proof.
  intros H. rewrite <- (take_drop_middle l i x H) at 2. rewrite insert_take_drop by (by eapply lookup_lt_Some).
  rewrite !sum_of_app. cbn. lia.
Qed.
Lemma sum_of_bound l k : (forall x, x ∈ l -> f x <= k) -> sum_of f l <= zlen l * k.
Proof.
  induction l as [|x l IH]; cbn [sum_of length]; intros H; [lia|].
  pose proof (H x ltac:(left)). pose proof (IH (fun y Hy => H y (list_elem_of_further _ _ _ Hy))). lia.
Qed.
Lemma sum_of_nonneg l : (forall x, 0 <= f x) -> 0 <= sum_of f l.
Proof. intros H. induction l as [|x l IH]; cbn; [lia|]. specialize (H x). lia. Qed.
Lemma sum_of_filter l (b : A -> bool) : sum_of f l = sum_of f (List.filter b l) + sum_of f (List.filter (fun x => negb (b x)) l).
Proof. induction l as [|x l IH]; cbn; [done|]. destruct (b x); cbn; rewrite IH; lia. Qed.
End Sums.

(** ** How much work is left *)

Section Measure.
(** No conversation has more members than [N], no agent a higher ceiling than [H]. *)
Context (N H : Z) (HN : 0 <= N).

(** A message of an agent, for one of its readers: reading it, and the answer while one is due. *)
Fixpoint agent_cost_at (n : nat) : Z := match n with O => 25 | S n => 25 + N * agent_cost_at n end.
Definition agent_cost (hop : Z) : Z := agent_cost_at (Z.to_nat (H - hop)).
Definition reply_cost (m : ConversationMessage) : Z := N * agent_cost (m_hop m + 1).
Definition target_cost (m : ConversationMessage) : Z :=
  match m_origin m with FromHuman => 25 + reply_cost m | FromAgent => agent_cost (m_hop m) end.

Definition job_weight (j : Job) : Z :=
  let m := j_message j in
  match j_phase j with
  | Queued => match j_work j with Deliver false => 3 | Deliver true => target_cost m | StandIn _ => 20 + reply_cost m end
  | Began false _ => 2
  | Began true _ => target_cost m - 1
  | Observing => 1
  | Turning => 17 + reply_cost m
  | Checked _ _ => 19 + reply_cost m
  | StandTurning _ _ _ => 18 + reply_cost m
  | Replying _ _ _ _ => 16 + reply_cost m
  | Saying _ m' => 15 + N * target_cost m'
  end.
Definition waiting_weight (w : Waiting) : Z := 21 + reply_cost (w_message w).
Definition note_cost : Z := 2 + N * agent_cost 1.
Definition task_weight (k : Task) : Z :=
  match k with
  | PostRead _ _ _ _ => 3 + N * (25 + N * agent_cost 1)
  | Announce _ m => 1 + N * target_cost m
  | Assess _ _ m _ _ => 23 + reply_cost m
  | AssessPresence _ _ m _ _ => 22 + reply_cost m
  | PresenceSet _ _ => 1
  | ActionRead _ _ _ => 5 + note_cost
  | ActionOwner _ _ _ _ _ => 4 + note_cost
  | ActionRunning _ _ _ => 3 + note_cost
  | ActionStored _ _ _ _ _ _ => 2 + note_cost
  | ActionNote _ _ _ _ _ => 1 + note_cost
  end.
Definition weight (s : HubState) : Z := sum_of job_weight (jobs s) + sum_of waiting_weight (waiting s) + sum_of task_weight (tasks s).

Lemma agent_cost_low n : 25 <= agent_cost_at n.
Proof. induction n; cbn; nia. Qed.
Lemma agent_cost_pos hop : 25 <= agent_cost hop.
Proof. apply agent_cost_low. Qed.
Lemma reply_cost_pos m : 0 <= reply_cost m.
Proof. unfold reply_cost. pose proof (agent_cost_pos (m_hop m + 1)). nia. Qed.
Lemma agent_cost_step hop : hop < H -> agent_cost hop = 25 + N * agent_cost (hop + 1).
Proof. intros Hh. unfold agent_cost. replace (Z.to_nat (H - hop)) with (S (Z.to_nat (H - (hop + 1)))) by lia. done. Qed.
Lemma target_cost_pos m : 25 <= target_cost m.
Proof. unfold target_cost. pose proof (reply_cost_pos m). pose proof (agent_cost_pos (m_hop m)). destruct (m_origin m); lia. Qed.

Lemma job_weight_pos j : 1 <= job_weight j.
Proof.
  unfold job_weight. pose proof (reply_cost_pos (j_message j)). pose proof (target_cost_pos (j_message j)).
  destruct (j_phase j) as [|[]| | | | | |c m]; [destruct (j_work j) as [[]|]|..]; try lia. pose proof (target_cost_pos m). nia.
Qed.
Lemma waiting_weight_pos w : 1 <= waiting_weight w.
Proof. unfold waiting_weight. pose proof (reply_cost_pos (w_message w)). lia. Qed.
Lemma task_weight_pos k : 1 <= task_weight k.
Proof.
  pose proof (agent_cost_pos 1). assert (0 <= note_cost) by (unfold note_cost; nia). destruct k as [|c m|a c m| a c m| | | | | |]; cbn; try lia; try nia.
  - pose proof (target_cost_pos m). nia.
  - pose proof (reply_cost_pos m). lia.
  - pose proof (reply_cost_pos m). lia.
Qed.
Lemma weight_pos s : 0 <= weight s.
Proof.
  unfold weight. pose proof (sum_of_nonneg job_weight (jobs s) ltac:(intros x; pose proof (job_weight_pos x); lia)).
  pose proof (sum_of_nonneg waiting_weight (waiting s) ltac:(intros x; pose proof (waiting_weight_pos x); lia)).
  pose proof (sum_of_nonneg task_weight (tasks s) ltac:(intros x; pose proof (task_weight_pos x); lia)). lia.
Qed.

(** ** What a step adds *)

Ltac weight_unfold := unfold weight; cbn [jobs waiting tasks enqueue spawn with_jobs with_tasks with_waiting note_announced note_handled].

Lemma weight_enqueue agent conv m w s :
  weight (enqueue agent conv m w s) = weight s + job_weight {| j_agent := agent; j_conversation := conv; j_message := m; j_work := w; j_phase := Queued |}.
Proof. weight_unfold. rewrite sum_of_app. cbn [sum_of]. lia. Qed.
Lemma weight_spawn k s : weight (spawn k s) = weight s + task_weight k.
Proof. weight_unfold. rewrite sum_of_app. cbn [sum_of]. lia. Qed.

Lemma weight_enqueue_all l s :
  weight (foldl (fun s w => enqueue (w_agent w) (w_conversation w) (w_message w) (Deliver false) s) s l) <= weight s + sum_of waiting_weight l.
Proof.
  revert s. induction l as [|w l IH]; intros s; cbn [foldl]; [cbn; lia|]. etransitivity; [apply IH|]. rewrite weight_enqueue. cbn.
  unfold waiting_weight at 2. pose proof (reply_cost_pos (w_message w)). lia.
Qed.
Lemma weight_withdraw owner conv s : weight (withdraw owner conv s) <= weight s.
Proof.
  unfold withdraw. etransitivity; [apply weight_enqueue_all|]. weight_unfold.
  rewrite (sum_of_filter waiting_weight (waiting s) (withdrawn owner conv)). lia.
Qed.

Lemma length_targets c m : zlen (targets c m) <= zlen (c_members c).
Proof.
  unfold targets. set (f := fun member => match agentOf member with Some _ => _ | None => _ end). clearbody f.
  induction (c_members c) as [|x l IH]; cbn; [done|]. destruct (f x); cbn; lia.
Qed.

Lemma weight_hand c m l s : l ⊆ targets c m -> weight (foldl (hand c m) s l) <= weight s + zlen l * target_cost m.
Proof.
  revert s. induction l as [|[a h] l IH]; intros s Hl; cbn [foldl]; [cbn; lia|]. etransitivity; [apply IH; intros t Ht; apply Hl; by right|].
  assert (Hin : (a, h) ∈ targets c m) by (apply Hl; by left). pose proof (target_cost_pos m) as Hp.
  assert (weight (hand c m s (a, h)) <= weight s + target_cost m); [|cbn [length]; lia].
  unfold hand; cbn [fst snd]. destruct h as [|b].
  - apply targets_assess in Hin as [_ Ho]. unfold maybeStandIn. rewrite weight_spawn. cbn. unfold target_cost. rewrite Ho. lia.
  - rewrite weight_enqueue. cbn. destruct b; lia.
Qed.

Lemma weight_fanOut c m s : zlen (c_members c) <= N -> weight (fanOut c m s) <= weight s + N * target_cost m.
Proof.
  intros Hc. assert (Hf : weight (foldl (hand c m) (note_announced c m s) (targets c m)) <= weight s + N * target_cost m).
  { etransitivity; [by apply weight_hand|]. change (weight (note_announced c m s)) with (weight s).
    pose proof (length_targets c m). pose proof (target_cost_pos m). nia. }
  unfold fanOut. destruct (m_origin m); [|done]. etransitivity; [apply weight_withdraw|done].
Qed.

Lemma weight_settle id a name status result now s : weight (settle_action id a name status result now s) = weight s + 2 + note_cost.
Proof.
  unfold settle_action. destruct (store_decideAction _ _ _ _ _) as [t|]; [change (weight (note_decided id ?x)) with (weight x)|]; rewrite weight_spawn;
    cbn; [change (weight (with_team t s)) with (weight s)|]; lia.
Qed.

(** ** Every step of the hub takes some off *)

Record within_bounds (s : HubState) : Prop := {
  b_hosts : forall a h, agents s !! a = Some h -> h_maxHops h <= H;
  b_began : forall j h, j ∈ jobs s -> j_phase j = Began true h -> h_maxHops h <= H;
  b_held : forall c, held c s -> zlen (c_members c) <= N;
  b_get : forall id c, get id (team s) = Some c -> zlen (c_members c) <= N }.

Lemma weight_task s i a now s' : within_bounds s -> step_task i a now s = Some s' -> weight s' < weight s.
Proof.
  intros [_ _ Bh Bg] E. unfold step_task in E. destruct (tasks s !! i) as [k|] eqn:Hk; [|done].
  assert (Hc : forall c, c ∈ task_snaps k -> zlen (c_members c) <= N).
  { intros c Hc. apply Bh. right; right. exists k. split; [by eapply list_elem_of_lookup_2|done]. }
  set (s0 := with_tasks _ s) in E. assert (Ew : weight s = weight s0 + task_weight k).
  { unfold s0. weight_unfold. rewrite (sum_of_at task_weight (tasks s) i k) by done. lia. }
  change (team s) with (team s0) in Bg. rewrite Ew. clearbody s0. pose proof (agent_cost_pos 1) as Hac. clear Ew Hk s Bh.
  destruct k as [c au tx ms|c m|ag c m h ow|ag c m ow aw|who p|id act ap|id act h name ap|id act name|id act name st res sd|c act name st res];
    cbn [run_task task_weight] in *.
  - destruct (check_post _ _ _) as [ms'|]; [|simplify_eq; nia]. destruct (append _ _ _ _ _ _ _ _ _) as [m t] eqn:Ea. simplify_eq.
    apply append_log in Ea as [_ ->]. rewrite weight_spawn. change (weight (with_team t s0)) with (weight s0).
    cbn [task_weight]. unfold target_cost, reply_cost. cbn [m_origin m_hop]. change (0 + 1) with 1. lia.
  - simplify_eq. pose proof (weight_fanOut c m s0 (Hc c ltac:(by left))). lia.
  - pose proof (reply_cost_pos m). repeat case_in E; simplify_eq; rewrite ?weight_spawn, ?weight_enqueue; cbn; lia.
  - pose proof (reply_cost_pos m). case_in E; simplify_eq; rewrite ?weight_enqueue; [weight_unfold; rewrite sum_of_app|]; cbn; unfold waiting_weight; cbn; lia.
  - case_in E; simplify_eq; [|lia]. pose proof (weight_withdraw who None s0). lia.
  - assert (0 <= note_cost) by (unfold note_cost; nia). repeat case_in E; simplify_eq; rewrite ?weight_spawn; cbn; lia.
  - assert (0 <= note_cost) by (unfold note_cost; nia). repeat case_in E; simplify_eq; rewrite ?weight_settle; try lia.
    change (weight (note_ran id ?x)) with (weight x). rewrite weight_spawn. cbn. lia.
  - assert (0 <= note_cost) by (unfold note_cost; nia). repeat case_in E; simplify_eq; rewrite ?weight_settle; lia.
  - assert (0 <= note_cost) by (unfold note_cost; nia). repeat case_in E; simplify_eq; rewrite ?weight_spawn; cbn; lia.
  - assert (0 <= note_cost) by (unfold note_cost; nia). destruct c as [c|]; [|simplify_eq; lia].
    destruct (append _ _ _ _ _ _ _ _ _) as [m t] eqn:Ea. simplify_eq. apply append_log in Ea as [_ ->]. rewrite weight_spawn.
    change (weight (with_team t s0)) with (weight s0). cbn [task_weight]. unfold target_cost, note_cost. cbn [m_origin m_hop]. lia.
Qed.

Lemma weight_put s i j p : jobs s !! i = Some j ->
  weight (with_jobs (<[i := at_phase p j]> (jobs s)) s) = weight s - job_weight j + job_weight (at_phase p j).
Proof. intros Hj. weight_unfold. rewrite (sum_of_insert job_weight (jobs s) i j) by done. lia. Qed.

Ltac weigh Ep := try done; unfold job_weight; rewrite ?Ep; cbn [at_phase j_phase j_message j_work].

(** What a job goes on to weighs less than what it was. *)
Lemma moved_weight s j a mv : (forall a h, agents s !! a = Some h -> h_maxHops h <= H) -> (forall h, j_phase j = Began true h -> h_maxHops h <= H) ->
  run_job j a (agents s) (team s) = Some mv ->
  match mv with
  | Goes p | Starts p _ => job_weight (at_phase p j) < job_weight j
  | Says c m _ => job_weight (at_phase (Saying c m) j) < job_weight j
  | Ends _ => True
  | EndsAnnouncing c m => job_weight j = 15 + N * target_cost m
  end.
Proof.
  intros Ha Hb E. pose proof (reply_cost_pos (j_message j)) as Hr. pose proof (target_cost_pos (j_message j)) as Ht.
  unfold run_job, begin_delivery, deliver_or_skip, after_turn in E.
  destruct (j_phase j) as [|b h| | |o aw|o nm d|[c'|] tx tu bh|c' m'] eqn:Ep.
  - destruct (j_work j) as [[]|] eqn:Ew; case_in E; simplify_eq; weigh Ep; rewrite ?Ew; lia.
  - destruct (b && _) eqn:Eb; simplify_eq; [|weigh Ep; destruct b; lia]. apply andb_true_iff in Eb as [-> Eb%negb_true_iff]. weigh Ep.
    enough (target_cost (j_message j) = 25 + reply_cost (j_message j)) by lia. unfold target_cost, reply_cost.
    destruct (m_origin (j_message j)) eqn:Eo; [done|]. rewrite bool_decide_eq_true_2 in Eb by done. apply Z.leb_gt in Eb.
    apply agent_cost_step. specialize (Hb h eq_refl). lia.
  - case_in E; by simplify_eq.
  - repeat case_in E; simplify_eq; weigh Ep; lia.
  - destruct aw; [|case_in E]; simplify_eq; weigh Ep; lia.
  - repeat case_in E; simplify_eq; weigh Ep; lia.
  - destruct (reply j c' tx tu bh (team s)) as [m t] eqn:Er. simplify_eq. weigh Ep.
    enough (N * target_cost m = reply_cost (j_message j)) by lia. unfold reply_cost, target_cost.
    unfold reply in Er. destruct bh as [[[o nm] d]|]; apply append_log in Er as [_ ->]; cbn; lia.
  - by simplify_eq.
  - simplify_eq. unfold job_weight. by rewrite Ep.
Qed.

Lemma weight_job s i a s' : within_bounds s -> step_job i a s = Some s' -> weight s' < weight s.
Proof.
  intros [Ba Bb Bh _] E. unfold step_job in E. destruct (jobs s !! i) as [j|] eqn:Hj; [|done]. destruct existsb; [done|].
  destruct (run_job _ _ _ _) as [mv|] eqn:Er; [|done]. cbn zeta in E. cbn [mbind option_bind] in E.
  assert (Hin : j ∈ jobs s) by (by eapply list_elem_of_lookup_2).
  pose proof (moved_weight s j a mv Ba (fun h => Bb j h Hin) Er) as Hw.
  assert (Eo : weight s = weight (with_jobs (base.delete i (jobs s)) s) + job_weight j).
  { weight_unfold. rewrite (sum_of_at job_weight (jobs s) i j) by done. lia. }
  pose proof (job_weight_pos j) as Hp. destruct mv; simplify_eq.
  - rewrite weight_put by done. lia.
  - change (weight (note_turn t ?x)) with (weight x). rewrite weight_put by done. lia.
  - change (weight (with_team t ?x)) with (weight x). rewrite weight_put by done. lia.
  - change (weight (note_handled _ _ _ ?x)) with (weight x). lia.
  - assert (zlen (c_members c) <= N).
    { apply Bh. right; left. exists j. split; [done|]. apply run_job_quiet in Er. unfold job_snaps. rewrite Er. by left. }
    pose proof (weight_fanOut c m (note_handled (j_agent j) (j_message j) Answered (with_jobs (base.delete i (jobs s)) s)) ltac:(done)) as Hf.
    change (weight (note_handled _ _ _ ?x)) with (weight x) in Hf. lia.
Qed.

Lemma weight_timer s i s' : fire i s = Some s' -> weight s' < weight s.
Proof.
  unfold fire. destruct (waiting s !! i) as [w|] eqn:Hw; [|done]. intros [= <-]. rewrite weight_enqueue. weight_unfold.
  rewrite (sum_of_at waiting_weight (waiting s) i w) by done. cbn. unfold waiting_weight at 2. lia.
Qed.

Lemma get_team id t t' : team_step t t' -> get id t' = get id t.
Proof.
  intros [|m|id' st res now t'' E]; [done|by destruct t|]. unfold store_decideAction in E. repeat case_in E; try done. simplify_eq. by destruct t.
Qed.
End Measure.

(** *** The bounds stay *)

(** What tasks and announcements do: hosts stay, and jobs that are new have not begun. *)
Record enqueues (s s' : HubState) : Prop := {
  q_agents : agents s' = agents s;
  q_jobs : forall j, j ∈ jobs s' -> j ∈ jobs s \/ j_phase j = Queued }.

#[export] Instance enqueues_preorder : PreOrder enqueues.
Proof.
  split; [by split; auto|]. intros s1 s2 s3 [A1 J1] [A2 J2]. split; [by rewrite A2|]. intros j Hj. destruct (J2 j Hj) as [H|H]; [by apply J1|by right].
Qed.
Lemma enqueues_same s s' : agents s' = agents s -> jobs s' ⊆ jobs s -> enqueues s s'.
Proof. intros A J. split; [done|]. intros j Hj. left. by apply J. Qed.
Lemma enqueues_enqueue agent conv m w s : enqueues s (enqueue agent conv m w s).
Proof. split; [done|]. intros j [Hj|Hj%list_elem_of_singleton]%elem_of_app; [by left|]. right. by subst j. Qed.
Lemma enqueues_all l s : enqueues s (foldl (fun s w => enqueue (w_agent w) (w_conversation w) (w_message w) (Deliver false) s) s l).
Proof. revert s. induction l as [|w l IH]; intros s; cbn [foldl]; [done|]. etransitivity; [apply enqueues_enqueue|apply IH]. Qed.
Lemma enqueues_withdraw owner conv s : enqueues s (withdraw owner conv s).
Proof. etransitivity; [|apply enqueues_all]. by apply enqueues_same. Qed.
Lemma enqueues_fanOut c m s : enqueues s (fanOut c m s).
Proof.
  assert (H : forall l s, enqueues s (foldl (hand c m) s l)).
  { induction l as [|[a h] l IH]; intros s'; cbn [foldl]; [done|]. etransitivity; [|apply IH]. unfold hand; cbn [fst snd].
    destruct h; [by apply enqueues_same|apply enqueues_enqueue]. }
  unfold fanOut. etransitivity; [apply (enqueues_same s (note_announced c m s)); done|]. etransitivity; [apply H|].
  destruct (m_origin m); [apply enqueues_withdraw|done].
Qed.
Lemma enqueues_settle id a name status result now s : enqueues s (settle_action id a name status result now s).
Proof. unfold settle_action. destruct (store_decideAction _ _ _ _ _); by apply enqueues_same. Qed.

Lemma enqueues_task i a now s s' : step_task i a now s = Some s' -> enqueues s s'.
Proof.
  unfold step_task. destruct (tasks s !! i) as [k|]; [|done]. intros E. transitivity (with_tasks (base.delete i (tasks s)) s); [by apply enqueues_same|].
  revert E. generalize (with_tasks (base.delete i (tasks s)) s) as s0. intros s0.
  destruct k as [c au tx ms|c m|ag c m h ow|ag c m ow aw|who p|id act ap|id act h name ap|id act name|id act name st res sd|c act name st res];
    cbn [run_task]; intros E; repeat case_in E; simplify_eq;
    first [apply enqueues_enqueue | apply enqueues_fanOut | apply enqueues_withdraw | apply enqueues_settle | by apply enqueues_same].
Qed.

Lemma run_job_began j a hosts t mv b h : run_job j a hosts t = Some mv ->
  match mv with Goes p | Starts p _ => p = Began b h -> exists agent, hosts !! agent = Some h | _ => True end.
Proof.
  intros E. unfold run_job, begin_delivery, deliver_or_skip, after_turn in E.
  destruct (j_phase j) as [|b' h'| | |o aw|o nm d|[c'|] tx tu bh|c' m'];
    try (destruct (reply j c' tx tu bh t)); repeat case_in E; simplify_eq; try done; intros; simplify_eq; eauto.
Qed.

Lemma job_begins i a s s' : step_job i a s = Some s' -> agents s' = agents s /\
  forall j h, j ∈ jobs s' -> j_phase j = Began true h -> (exists j', j' ∈ jobs s /\ j_phase j' = Began true h) \/ exists agent, agents s !! agent = Some h.
Proof.
  intros E. unfold step_job in E. destruct (jobs s !! i) as [j|] eqn:Hj; [|done]. destruct existsb; [done|].
  destruct (run_job _ _ _ _) as [mv|] eqn:Er; [|done]. cbn zeta in E. cbn [mbind option_bind] in E.
  assert (Hput : forall p j' h, (p = Began true h -> exists agent, agents s !! agent = Some h) -> j' ∈ <[i := at_phase p j]> (jobs s) ->
    j_phase j' = Began true h -> (exists j', j' ∈ jobs s /\ j_phase j' = Began true h) \/ exists agent, agents s !! agent = Some h).
  { intros p j' h Hp [n Hn]%list_elem_of_lookup_1 Eh. rewrite list_lookup_insert_Some in Hn. destruct Hn as [(-> & <- & _)|[_ Hn]].
    - right. by apply Hp.
    - left. exists j'. split; [by eapply list_elem_of_lookup_2|done]. }
  pose proof (fun h => run_job_began _ _ _ _ _ true h Er) as Hb. destruct mv; simplify_eq.
  - split; [done|]. intros j' h. apply (Hput p), Hb.
  - split; [done|]. intros j' h. apply (Hput p), Hb.
  - split; [done|]. intros j' h. by apply (Hput (Saying c m)).
  - split; [done|]. intros j' h Hj' Eh. left. exists j'. split; [exact (elem_of_deleted _ _ _ Hj')|done].
  - destruct (enqueues_fanOut c m (note_handled (j_agent j) (j_message j) Answered (with_jobs (base.delete i (jobs s)) s))) as [A J].
    split; [done|]. intros j' h Hj' Eh. destruct (J j' Hj') as [H|H]; [|congruence]. left. exists j'. split; [exact (elem_of_deleted _ _ _ H)|done].
Qed.

(** The hub's own steps, and a turn's deferrals while it runs. *)
Definition own (e : Event) : bool := match e with EJob _ _ | ETimer _ | ETask _ _ _ => true | _ => false end.
Definition during (e : Event) : bool := own e || match e with EDefer _ _ _ _ _ => true | _ => false end.

Lemma bounds_step N H tz e s s' : during e = true -> within_bounds N H s -> step tz e s = Some s' -> within_bounds N H s'.
Proof.
  intros He [Ba Bb Bh Bg] E.
  assert (Hf : agents s' = agents s /\ (forall id, get id (team s') = get id (team s)) /\
    forall j h, j ∈ jobs s' -> j_phase j = Began true h -> (exists j', j' ∈ jobs s /\ j_phase j' = Began true h) \/ exists agent, agents s !! agent = Some h).
  { destruct e as [conv au tx ms|id ap|who p now|c now|hosts| |i id sl ar now|i a|i|i a now]; try done; cbn [step] in E.
    - unfold defer in E. repeat case_in E; try done. unfold deferAction in E. destruct (actions (team s) !! id); cbn in E; [done|]. simplify_eq.
      split; [done|]. split; [intros id'; by destruct (team s)|]. intros j' h Hj' Eh. left. eauto.
    - pose proof (job_begins _ _ _ _ E) as [A J]. split; [done|]. split; [|done]. intros id. by eapply get_team, job_team.
    - unfold fire in E. case_in E; [|done]. simplify_eq. split; [done|]. split; [done|].
      intros j' h [Hj'|Hj'%list_elem_of_singleton]%elem_of_app Eh; [left; eauto|]. by subst j'.
    - pose proof (enqueues_task _ _ _ _ _ E) as [A J]. split; [done|]. split; [intros id; by eapply get_team, task_team|].
      intros j' h Hj' Eh. destruct (J j' Hj') as [Hj|Hj]; [left; eauto|congruence]. }
  destruct Hf as (A & G & J). split.
  - rewrite A. exact Ba.
  - intros j h Hj Eh. destruct (J j h Hj Eh) as [(j' & Hj' & Eh')|[a Ea]]; [by eapply Bb|by eapply Ba].
  - intros c Hc. destruct (held_step tz e s s' E c Hc) as [|[id Ec]]; [by apply Bh|by eapply Bg].
  - intros id c. rewrite G. apply Bg.
Qed.

Lemma own_weight N H tz e s s' : 0 <= N -> within_bounds N H s -> own e = true -> step tz e s = Some s' -> weight N H s' < weight N H s.
Proof.
  intros HN B He E. destruct e; try done; cbn [step] in E; [by eapply weight_job|by eapply weight_timer|by eapply weight_task].
Qed.

(** Deferring changes a table only. *)
Lemma defer_weight N H i id sl ar now s s' : defer i id sl ar now s = Some s' -> weight N H s' = weight N H s.
Proof. unfold defer. intros E. repeat case_in E; try done. destruct (deferAction _ _ _); cbn in E; by simplify_eq. Qed.

Lemma run_weight N H tz es s s' : 0 <= N -> within_bounds N H s -> forallb during es = true -> run tz es s = Some s' ->
  zlen (List.filter own es) <= weight N H s - weight N H s' /\ within_bounds N H s'.
Proof.
  intros HN. revert s. induction es as [|e es IH]; intros s B He E; cbn in E; [simplify_eq; split; [cbn; lia|done]|].
  cbn [forallb] in He. apply andb_true_iff in He as [He Hes]. destruct (step tz e s) as [s1|] eqn:E1; [|done]. cbn in E.
  pose proof (bounds_step N H tz e s s1 He B E1) as B1. destruct (IH s1 B1 Hes E) as [IHn ?]. split; [|done]. cbn [List.filter].
  unfold during in He. destruct (own e) eqn:Eo; cbn [length].
  - pose proof (own_weight N H tz e s s1 HN B Eo E1). lia.
  - destruct e; try done. cbn [step] in E1. pose proof (defer_weight N H _ _ _ _ _ _ _ E1). lia.
Qed.

(** *** Some bounds always do *)

Fixpoint max_of (l : list Z) : Z := match l with [] => 0 | x :: l => Z.max x (max_of l) end.
Lemma max_of_le l x : x ∈ l -> x <= max_of l.
Proof. induction l as [|y l IH]; cbn; [by intros ?%not_elem_of_nil|]. intros [->|H]%elem_of_cons; [lia|]. specialize (IH H). lia. Qed.
Lemma max_of_nonneg l : 0 <= max_of l.
Proof. induction l; cbn; lia. Qed.

Lemma bounds_exist s : exists N H, 0 <= N /\ within_bounds N H s.
Proof.
  set (snaps := map fst (announced s) ++ flat_map job_snaps (jobs s) ++ flat_map task_snaps (tasks s) ++
    map (fun x => conversationOf x.1 x.2 (team s)) (map_to_list (conversations (team s)))).
  set (hosts := map (fun x => h_maxHops x.2) (map_to_list (agents s)) ++
    omap (fun j => match j_phase j with Began _ h => Some (h_maxHops h) | _ => None end) (jobs s)).
  exists (max_of (map (fun c => zlen (c_members c)) snaps)), (max_of hosts). split; [apply max_of_nonneg|].
  assert (Hs : forall c, c ∈ snaps -> zlen (c_members c) <= max_of (map (fun c => zlen (c_members c)) snaps)).
  { intros c Hc. apply max_of_le, list_elem_of_fmap. by exists c. }
  split.
  - intros a h Ea. apply max_of_le, elem_of_app. left. apply list_elem_of_fmap. exists (a, h). split; [done|by apply elem_of_map_to_list].
  - intros j h Hj Eh. apply max_of_le, elem_of_app. right. apply list_elem_of_omap. exists j. by rewrite Eh.
  - intros c [Hc|[(j & Hj & Hc)|(k & Hk & Hc)]]; apply Hs; unfold snaps; rewrite !elem_of_app, ?list_elem_of_In, ?in_flat_map; [by left; apply list_elem_of_In|..].
    + right; left. exists j. by rewrite <- !list_elem_of_In.
    + right; right; left. exists k. by rewrite <- !list_elem_of_In.
  - intros id c Ec. apply Hs. unfold snaps. rewrite !elem_of_app. do 3 right. unfold get in Ec. apply fmap_Some in Ec as (row & Er & ->).
    apply list_elem_of_fmap. exists (id, row). split; [done|by apply elem_of_map_to_list].
Qed.

(** ** Something can always be done *)

Definition idle (s : HubState) : Prop := jobs s = [] /\ waiting s = [] /\ tasks s = [].

Lemma task_runs k now s : exists s', run_task k (Result true []) now s = Some s'.
Proof.
  destruct k as [c au tx ms|c m|ag c m h ow|ag c m ow aw|who p|id [act|] ap|id act h name ap|id act name|id act name st res sd|[c|] act name st res];
    cbn [run_task]; eauto.
  - destruct (check_post _ _ _); [|eauto]. destruct (append _ _ _ _ _ _ _ _ _). eauto.
Qed.
Lemma job_runs j hosts t : exists mv, run_job j (Text [] []) hosts t = Some mv.
Proof.
  unfold run_job, after_turn.
  destruct (j_phase j) as [|b h| | |o []|o nm d|[c|] tx tu bh|c m]; eauto; [destruct (j_work j); eauto|]. destruct (reply j c tx tu bh t). eauto.
Qed.

Lemma progress tz s : idle s \/ exists e s', own e = true /\ step tz e s = Some s'.
Proof.
  destruct (jobs s) as [|j l] eqn:Ej.
  - destruct (waiting s) as [|w l] eqn:Ew.
    + destruct (tasks s) as [|k l] eqn:Et; [by left|]. right.
      destruct (task_runs k 0 (with_tasks (base.delete 0%nat (tasks s)) s)) as [s' E]. exists (ETask 0 (Result true []) 0), s'. split; [done|].
      cbn [step]. unfold step_task. by rewrite Et in *.
    + right. exists (ETimer 0). eexists. split; [done|]. cbn [step]. unfold fire. by rewrite Ew.
  - right. destruct (job_runs j (agents s) (team s)) as [mv E]. exists (EJob 0 (Text [] [])). eexists. split; [done|]. cbn [step]. unfold step_job.
    rewrite Ej. cbn [lookup list_lookup take existsb]. by rewrite E.
Qed.

Lemma reaches_rest tz s : exists es s', forallb own es = true /\ run tz es s = Some s' /\ idle s'.
Proof.
  destruct (bounds_exist s) as (N & H & HN & B). remember (Z.to_nat (weight N H s)) as n eqn:En.
  revert s B En. induction (lt_wf n) as [n _ IH]. intros s B En. destruct (progress tz s) as [Hi|(e & s1 & Ho & E)].
  - exists [], s. done.
  - pose proof (own_weight N H tz e s s1 HN B Ho E). pose proof (weight_pos N H HN s1).
    destruct (IH (Z.to_nat (weight N H s1)) ltac:(lia) s1) as (es & s' & Hes & Er & Hi); [|done|].
    + eapply bounds_step; [|exact B|exact E]. unfold during. by rewrite Ho.
    + exists (e :: es), s'. cbn. by rewrite Ho, E.
Qed.

(** ** How a piece of work ends *)

(** The ways [deliver] and [#standIn] return: the agent is not hosted any more; it observed the
    message, or that threw; its turn threw, or said nothing; the conversation was gone when its answer
    came; its answer, in its own name, was logged and is now announced. *)
Definition ended_as (s : HubState) (j : Job) (a : Answer) (o : Outcome) (s' : HubState) : Prop :=
  let in_turn := j_phase j = Turning \/ exists owner name disclosed, j_phase j = StandTurning owner name disclosed in
  match o with
  | Gone => agents s !! j_agent j = None
  | Read => j_phase j = Observing /\ exists text turn, a = Text text turn
  | ReadFailed => j_phase j = Observing /\ a = Threw
  | Skipped => in_turn /\ a = Threw
  | Silent => in_turn /\ exists text turn, a = Text text turn /\ trim text = []
  | Lost => exists text turn behalf, j_phase j = Replying None text turn behalf
  | Answered => exists c r, r ∈ messages (team s) /\ m_author r = agentParticipant (j_agent j) /\ announced s' = announced s ++ [(c, r)]
  end.

Lemma handled_withdraw owner conv s : handled (withdraw owner conv s) = handled s /\ announced (withdraw owner conv s) = announced s.
Proof.
  unfold withdraw. set (s0 := with_waiting _ s). change (handled s) with (handled s0). change (announced s) with (announced s0). clearbody s0.
  revert s0. induction (List.filter (withdrawn _ _) _) as [|w l IH]; intros s0; cbn [foldl]; [done|]. by rewrite !(proj1 (IH _)), !(proj2 (IH _)).
Qed.
Lemma handled_fanOut c m s : handled (fanOut c m s) = handled s /\ announced (fanOut c m s) = announced s ++ [(c, m)].
Proof.
  assert (H : forall l s, handled (foldl (hand c m) s l) = handled s /\ announced (foldl (hand c m) s l) = announced s).
  { induction l as [|[a h] l IH]; intros s'; cbn [foldl]; [done|]. rewrite !(proj1 (IH _)), !(proj2 (IH _)). by destruct h. }
  unfold fanOut. destruct (m_origin m); rewrite ?(proj1 (handled_withdraw _ _ _)), ?(proj2 (handled_withdraw _ _ _)); apply (H _ (note_announced c m s)).
Qed.
Lemma handled_settle id a name status result now s : handled (settle_action id a name status result now s) = handled s.
Proof. unfold settle_action. by destruct (store_decideAction _ _ _ _ _). Qed.

(** What a job that ends says is what happened. *)
Lemma run_job_ends s j a o s' : run_job j a (agents s) (team s) = Some (Ends o) -> ended_as s j a o s'.
Proof.
  unfold run_job, begin_delivery, deliver_or_skip, after_turn, ended_as. intros E.
  destruct (j_phase j) as [|b h| | |w aw|w nm d|[c'|] tx tu bh|c' m']; repeat case_in E; simplify_eq; cbn; bool_to_prop; eauto 10.
Qed.

Lemma ends_once tz e s s' : guarded s -> step tz e s = Some s' ->
  handled s' = handled s \/ exists i a j o, e = EJob i a /\ jobs s !! i = Some j /\ handled s' = handled s ++ [(j_agent j, j_message j, o)] /\
    ended_as s j a o s'.
Proof.
  intros G H. destruct e as [conv au tx ms|id ap|who p now|c now|hosts| |i id sl ar now|i a|i|i a now]; cbn [step] in H.
  8: { unfold step_job in H. destruct (jobs s !! i) as [j|] eqn:Hj; [|done]. destruct existsb; [done|].
       destruct (run_job _ _ _ _) as [mv|] eqn:Er; [|done]. cbn in H. injection H as <-.
       pose proof (proj1 (Forall_forall _ _) (g_jobs s G) _ (list_elem_of_lookup_2 _ _ _ Hj)) as Hok.
       pose proof (run_job_ok s j a mv G Hok Er) as Hm. destruct mv as [p|p t|c m t|o|c m]; [by left..|right|right].
       - exists i, a, j, o. split; [done|]. split; [done|]. split; [done|]. by apply run_job_ends.
       - exists i, a, j, Answered. rewrite (proj1 (handled_fanOut _ _ _)). split; [done|]. split; [done|]. split; [done|]. destruct Hm as [Hm Ha].
         exists c, m. by rewrite (proj2 (handled_fanOut _ _ _)). }
  all: left.
  - case_in H; by simplify_eq.
  - by simplify_eq.
  - destruct (store_setPresence who p now (team s)) as [[row|] t]; by simplify_eq.
  - case_in H; by simplify_eq.
  - by simplify_eq.
  - by simplify_eq.
  - unfold defer in H. repeat case_in H; try done. destruct (deferAction _ _ _); cbn in H; by simplify_eq.
  - unfold fire in H. case_in H; by simplify_eq.
  - unfold step_task in H. destruct (tasks s !! i) as [k|]; [|done].
    destruct k as [c au tx ms|c m|ag c m h ow|ag c m ow aw|who p|id act ap|id act h name ap|id act name|id act name st res sd|c act name st res];
      cbn [run_task] in H; repeat case_in H; simplify_eq;
      rewrite ?handled_settle, ?(proj1 (handled_fanOut _ _ _)), ?(proj1 (handled_withdraw _ _ _)); done.
Qed.

(** C18. The hub settles. From any state it can reach, its own steps (turns and their deferrals,
    timers, calls under way) come to an end after a number of them that depends on that state alone;
    they can be carried to one where nothing waits; and wherever no own step is left, the work that
    each announced message is for each agent it was for either ended exactly once, or was forgotten
    exactly once by a restart, which alone forgets. Work ends by a job and for the reason it gives:
    the agent is not hosted any more, it observed the message or that threw, its turn threw or had
    nothing to say, the conversation was gone, or its answer was logged under its name and announced. *)
Theorem hub_settles (isTimeZone : ustring -> bool) (s : HubState) : reachable isTimeZone s ->
  (exists n, forall es s', forallb during es = true -> run isTimeZone es s = Some s' -> zlen (List.filter own es) <= n) /\
  (exists es s', forallb own es = true /\ run isTimeZone es s = Some s' /\ idle s') /\
  ((forall e s', own e = true -> step isTimeZone e s <> Some s') ->
   forall c m agent h, (c, m) ∈ announced s -> (agent, h) ∈ targets c m ->
   tally (agent, m) (finished s) + tally (agent, m) (forgotten s) = 1) /\
  (forall es s', ERestart ∉ es -> run isTimeZone es s = Some s' -> forgotten s' = forgotten s) /\
  (forall e s', step isTimeZone e s = Some s' ->
   handled s' = handled s \/ exists i a j o, e = EJob i a /\ jobs s !! i = Some j /\
     handled s' = handled s ++ [(j_agent j, j_message j, o)] /\ ended_as s j a o s').
Proof.
  intros Hr. split; [|split; [apply reaches_rest|split; [|split]]].
  - destruct (bounds_exist s) as (N & H & HN & B). exists (weight N H s). intros es s' Hes E.
    destruct (run_weight N H isTimeZone es s s' HN B Hes E) as [Hw _]. pose proof (weight_pos N H HN s'). lia.
  - intros Hstuck c m agent h Hc Ht. destruct (progress isTimeZone s) as [(Ej & Ew & Et)|(e & s' & Ho & E)]; [|by destruct (Hstuck e s')].
    pose proof (announced_handled_once isTimeZone s c m agent h Hr Hc Ht) as E. unfold owed in E. rewrite Ej, Ew, Et in E.
    cbn [map omap list_omap app] in E. rewrite tally_nil in E. lia.
  - intros es s'. apply forgotten_run.
  - intros e s'. by apply ends_once, (reachable_guarded isTimeZone).
Qed.

Lemma hub_settles_witness : exists s, reachable (fun _ => true) s /\ announced s <> [] /\
  exists n, forall es s', forallb during es = true -> run (fun _ => true) es s = Some s' -> zlen (List.filter own es) <= n.
Proof.
  exists (after (bo_writes ++ asks (js "hi") ++ stands_in)). split; [apply after_reachable|]. split; [by vm_compute|].
  exact (proj1 (hub_settles (fun _ => true) _ (after_reachable (bo_writes ++ asks (js "hi") ++ stands_in)))).
Defined.
