(* ===== verification/Messages.v ===== *)
(** * Messages and what they cost: [model/provider.ts], [context/tokens.ts], [ids.ts]

    A chat message as the loop keeps it. [thinking], [cacheBreakpoint], [turnInput] and
    [images] are set on messages in flight and read by no code modelled here; a copy of a
    message keeps them, and so does a copy of the record. *)
From S2P Require Import Prelude UString Json Kinds Trust.
Local Open Scope Z_scope.

Record ToolCallRequest := { c_id : ustring; c_name : ustring; c_arguments : ustring }.

Inductive Role := RSystem | RUser | RAssistant | RTool.
Inductive Origin := OObservation | OCall | ORepair | ODigest.

#[export] Instance Role_eq_dec : EqDecision Role.
Proof. solve_decision. Defined.
#[export] Instance Origin_eq_dec : EqDecision Origin.
Proof. solve_decision. Defined.

Record ChatMessage := {
  role : Role; content : ustring; toolCalls : option (list ToolCallRequest);
  toolCallId : option ustring; origin : option Origin; tainted : bool }.

#[export] Instance ToolCallRequest_eq_dec : EqDecision ToolCallRequest.
Proof. solve_decision. Defined.
#[export] Instance ChatMessage_eq_dec : EqDecision ChatMessage.
Proof. solve_decision. Defined.

(** [{ role, content }] and [{ role, content, origin }]. *)
Definition plain_message (r : Role) (c : ustring) : ChatMessage :=
  {| role := r; content := c; toolCalls := None; toolCallId := None; origin := None;
     tainted := false |}.

Definition with_content (c : ustring) (m : ChatMessage) : ChatMessage :=
  {| role := role m; content := c; toolCalls := toolCalls m; toolCallId := toolCallId m;
     origin := origin m; tainted := tainted m |}.
Definition with_origin (o : Origin) (m : ChatMessage) : ChatMessage :=
  {| role := role m; content := content m; toolCalls := toolCalls m;
     toolCallId := toolCallId m; origin := Some o; tainted := tainted m |}.

(** ** Tokens *)

Definition count_char (c : Z) (s : ustring) : Z := zlen (List.filter (fun d => d =? c) s).

(** [Math.ceil(length / 3.8)]: the double nearest 3.8 divides a length below 2^50 to the same
    ceiling as 19/5 does. *)
Definition estimateTokens (text : ustring) : Z := (zlen text * 5 + 18) / 19 + count_char 10 text.

Definition MESSAGE_OVERHEAD_TOKENS : Z := 4.
Definition estimateMessageTokens (c : ustring) : Z := estimateTokens c + MESSAGE_OVERHEAD_TOKENS.

(** [JSON.stringify(calls)] of calls as the transports build them. *)
Definition call_json (c : ToolCallRequest) : json :=
  JObj [(js "id", JStr (c_id c)); (js "name", JStr (c_name c));
        (js "arguments", JStr (c_arguments c))].

(** [cost] of the compaction stages and [messageCost] of assembly are this one function. *)
Definition cost (m : ChatMessage) : Z :=
  match toolCalls m with
  | None | Some [] => estimateMessageTokens (content m)
  | Some calls =>
      estimateMessageTokens (content m) + estimateTokens (stringify (JArr (map call_json calls)))
  end.

Definition historyTokens (h : list ChatMessage) : Z := foldr (fun m n => cost m + n) 0 h.

Lemma estimateTokens_nonneg t : 0 <= estimateTokens t.
Proof.
  unfold estimateTokens, count_char.
  assert (0 <= (zlen t * 5 + 18) / 19) by (apply Z.div_pos; lia). lia.
Qed.

Lemma cost_pos m : 4 <= cost m.
Proof.
  unfold cost, estimateMessageTokens, MESSAGE_OVERHEAD_TOKENS.
  pose proof (estimateTokens_nonneg (content m)).
  destruct (toolCalls m) as [[|c l]|]; try lia.
  pose proof (estimateTokens_nonneg (stringify (JArr (map call_json (c :: l))))). lia.
Qed.

Lemma historyTokens_app a b : historyTokens (a ++ b) = historyTokens a + historyTokens b.
Proof. unfold historyTokens. induction a as [|m a IH]; [done|]. cbn in *. lia. Qed.

Lemma historyTokens_nonneg h : 0 <= historyTokens h.
Proof.
  unfold historyTokens. induction h as [|m h IH]; [done|]. cbn. pose proof (cost_pos m). lia.
Qed.

(** ** Who wrote a message *)

Definition isObservation (m : ChatMessage) : bool :=
  bool_decide (origin m = Some OObservation) || bool_decide (role m = RTool).

Definition isTurnStart (m : ChatMessage) : bool :=
  bool_decide (role m = RUser) && negb (isObservation m).

(** The requests of a history, in order. *)
Definition requests (h : list ChatMessage) : list ChatMessage := List.filter isTurnStart h.

Lemma requests_app a b : requests (a ++ b) = requests a ++ requests b.
Proof. apply List.filter_app. Qed.

Lemma observation_not_start m : isObservation m = true -> isTurnStart m = false.
Proof. unfold isTurnStart. intros ->. by rewrite andb_false_r. Qed.

(** ** Derived ids *)

Definition base36_digit (n : Z) : Z := if n <? 10 then 48 + n else 87 + n.

(** [n.toString(36)]. *)
Fixpoint radix36 (fuel : nat) (n : Z) (acc : ustring) : ustring :=
  match fuel with
  | O => acc
  | S fuel' =>
      if n <? 36 then base36_digit n :: acc
      else radix36 fuel' (n / 36) (base36_digit (n mod 36) :: acc)
  end.
Definition base36 (n : Z) : ustring := radix36 (S (Z.to_nat (Z.log2 n))) n [].

(** Eight lowercase hexadecimal digits; the hash is the one [schedule/kinds.ts] computes. *)
Definition fnv1a (text : ustring) : ustring :=
  let h := hash text in
  map (fun k => hex_lower (h / 16 ^ k mod 16)) [7; 6; 5; 4; 3; 2; 1; 0].

Definition derivedId (prefix c : ustring) : ustring :=
  prefix ++ js "_" ++ base36 (zlen c) ++ js "_" ++ fnv1a c.

Example derivedId_sample : derivedId (js "obs") (js "hello") = js "obs_5_4f9f2cab".
Proof. by vm_compute. Qed.

Definition artifactId (c : ustring) (t : Trust) : ustring := derivedId (artifactPrefix t) c.
Definition displacedId (c : ustring) : ustring :=
  artifactId c (if holdsUntrusted c then Untrusted else Trusted).

(** What [artifact_read] reads from an id is whether the content was fenced. *)
Lemma displacedId_trust c :
  artifactTrust (displacedId c) = if holdsUntrusted c then Untrusted else Trusted.
Proof. apply artifactTrust_prefix. Qed.
