(* ===== verification/Stages.v ===== *)
(** * The compaction stages: [context/compaction/stages.ts]

    Five transforms of a history. A map keyed by message index is the list of its entries in
    insertion order. A digest is the caller's text; what the stages guarantee does not depend
    on it. *)
From S2P Require Import Prelude UString Json Kinds Trust Messages.
Local Open Scope js_scope.
Local Open Scope Z_scope.

Inductive StageName := Snip | Micro | Collapse | Reset | Trim.
#[export] Instance StageName_eq_dec : EqDecision StageName.
Proof. solve_decision. Defined.

Definition STAGE_ORDER : list StageName := [Snip; Micro; Collapse; Reset; Trim].

Record Displaced := { d_id : ustring; d_slug : option ustring; d_content : ustring; d_tokens : Z }.

(** *** The map *)

Definition Displacements := list (nat * Displaced).

Fixpoint lookup_entry (i : nat) (d : Displacements) : option Displaced :=
  match d with
  | [] => None
  | (j, e) :: rest => if (j =? i)%nat then Some e else lookup_entry i rest
  end.

(** [map.set(i, e)]. *)
Fixpoint set_entry (i : nat) (e : Displaced) (d : Displacements) : Displacements :=
  match d with
  | [] => [(i, e)]
  | (j, e') :: rest => if (j =? i)%nat then (j, e) :: rest else (j, e') :: set_entry i e rest
  end.

Record StageOutcome := {
  messages : list ChatMessage; displaced : Displacements; tokens : Z; changed : bool }.

Record StageInput := {
  history : list ChatMessage; target : Z; protectedTail : Z; known : Displacements }.

Definition unchanged (i : StageInput) : StageOutcome :=
  {| messages := history i; displaced := known i; tokens := historyTokens (history i);
     changed := false |}.

(** [/^OBSERVATION ([^\s—]+)/]. *)
Definition slug_char (c : Z) : bool := negb (is_space c || (c =? 0x2014)).

Fixpoint span_while (p : Z -> bool) (s : ustring) : ustring :=
  match s with c :: rest => if p c then c :: span_while p rest else [] | [] => [] end.

Definition OBSERVATION : ustring := js "OBSERVATION ".

Definition slugOf (m : ChatMessage) : option ustring :=
  if starts_with OBSERVATION (content m) then
    match span_while slug_char (drop (length OBSERVATION) (content m)) with
    | [] => None
    | s => Some s
    end
  else None.

Definition displacementFor (d : Displacements) (i : nat) (m : ChatMessage) (t : Z) : Displaced :=
  match lookup_entry i d with
  | Some e => e
  | None => {| d_id := displacedId (content m); d_slug := slugOf m; d_content := content m;
               d_tokens := t |}
  end.

Definition tailStart (i : StageInput) : Z :=
  Z.max 0 (zlen (history i) - Z.max 0 (protectedTail i)).

(** *** Trim *)

Definition header_message (text : ustring) : ChatMessage :=
  {| role := RUser; content := text; toolCalls := None; toolCallId := None;
     origin := Some ODigest; tainted := false |}.

Definition TRIM_HEADER : ustring :=
  js "Earlier requests, verbatim. The replies and tool output between them were dropped to fit the " ++
  js "context window and cannot be retrieved.".

(** Working detail: not a request and not a digest. *)
Definition droppable (m : ChatMessage) : bool :=
  negb (isTurnStart m || bool_decide (origin m = Some ODigest)).

(** The indices to remove, oldest first, until the target is met. *)
Fixpoint trim_removed (l : list ChatMessage) (i limit : nat) (goal : Z) (t : Z) : list nat * Z :=
  match l with
  | [] => ([], t)
  | m :: rest =>
      if (i <? limit)%nat && droppable m then
        if t <=? goal then ([], t)
        else
          let '(r, t') := trim_removed rest (S i) limit goal (t - cost m) in (i :: r, t')
      else trim_removed rest (S i) limit goal t
  end.

(** The copy loop: what is kept, re-keyed by where it lands. *)
Fixpoint trim_keep (l : list ChatMessage) (i pos : nat) (removed : list nat) (d : Displacements)
  : list ChatMessage * Displacements :=
  match l with
  | [] => ([], [])
  | m :: rest =>
      if bool_decide (i ∈ removed) then trim_keep rest (S i) pos removed d
      else
        let '(ms, d') := trim_keep rest (S i) (S pos) removed d in
        (m :: ms, match lookup_entry i d with Some e => (pos, e) :: d' | None => d' end)
  end.

Definition trim_history (i : StageInput) : StageOutcome :=
  let limit := Z.to_nat (tailStart i) in
  if existsb droppable (take limit (history i)) then
    let header := header_message TRIM_HEADER in
    let '(removed, _) :=
      trim_removed (history i) 0 limit (target i) (historyTokens (history i) + cost header) in
    match removed with
    | [] => unchanged i
    | _ =>
        let '(kept, d) := trim_keep (history i) 0 1 removed (known i) in
        {| messages := header :: kept; displaced := d; tokens := historyTokens (header :: kept);
           changed := true |}
    end
  else unchanged i.

(** *** Snip and micro *)

Definition SNIP_KEEP_TOKENS : Z := 400.
Definition SNIP_FLOOR_TOKENS : Z := 200.
(** [Math.floor(SNIP_KEEP_TOKENS * (2 / 3))]. *)
Definition head_budget : Z := 266.
Definition tail_budget : Z := SNIP_KEEP_TOKENS - head_budget.

(** Lines from the front while they fit; also what is left. *)
Fixpoint take_budget (lines : list ustring) (used budget : Z) : list ustring * list ustring :=
  match lines with
  | [] => ([], [])
  | l :: rest =>
      if budget <? used + estimateTokens l then ([], lines)
      else let '(a, b) := take_budget rest (used + estimateTokens l) budget in (l :: a, b)
  end.

Definition read_call (id : ustring) : ustring := js "artifact_read(" ++ [34] ++ id ++ [34] ++ js ")".

Definition cut_marker (removed : Z) (id : ustring) : ustring :=
  [0x2026; 32] ++ decimal removed ++ js " line" ++ (if removed =? 1 then [] else js "s") ++
  js " cut by compaction " ++ [0x2014] ++ js " the whole observation is still readable with " ++
  read_call id ++ [32; 0x2026].

Definition cutMiddle (c id : ustring) : ustring :=
  let '(head, rest) := take_budget (split_on 10 c) 0 head_budget in
  let '(tail_rev, middle) := take_budget (rev rest) 0 tail_budget in
  match middle with
  | [] => c
  | _ => join [10] (head ++ [cut_marker (zlen middle) id] ++ rev tail_rev)
  end.

Definition pointer (e : Displaced) : ustring :=
  js "[compacted " ++
  (match d_slug e with None => js "observation" | Some s => s ++ js " observation" end) ++
  js ", " ++ decimal (d_tokens e) ++ js " tokens " ++ [0x2014] ++ js " read it in full with " ++
  read_call (d_id e) ++ js "]".

(** What one visit of [snip]'s loop does to an observation, if anything. *)
Definition snip_one (d : Displacements) (i : nat) (m : ChatMessage) : option (Displaced * ChatMessage) :=
  if negb (isObservation m) then None
  else
    let before := cost m in
    if before <=? SNIP_FLOOR_TOKENS then None
    else
      let e := displacementFor d i m before in
      let cut := cutMiddle (content m) (d_id e) in
      if bool_decide (cut = content m) then None else Some (e, with_content cut m).

Definition micro_one (d : Displacements) (i : nat) (m : ChatMessage) : option (Displaced * ChatMessage) :=
  if negb (isObservation m) then None
  else
    let before := cost m in
    let e := displacementFor d i m before in
    let replaced := pointer e in
    if before <=? estimateMessageTokens replaced then None
    else Some (e, with_content replaced m).

(** The loop both share: [for (i = 0; i < limit && tokens > target; i += 1)]. *)
Section Sweep.
Variable one : Displacements -> nat -> ChatMessage -> option (Displaced * ChatMessage).

Fixpoint sweep (l : list ChatMessage) (i limit : nat) (goal : Z) (t : Z) (d : Displacements)
  (ch : bool) : list ChatMessage * Z * Displacements * bool :=
  match l with
  | [] => ([], t, d, ch)
  | m :: rest =>
      if (i <? limit)%nat && (goal <? t) then
        match one d i m with
        | Some (e, m') =>
            let '(ms, t', d', ch') :=
              sweep rest (S i) limit goal (t - (cost m - cost m')) (set_entry i e d) true in
            (m' :: ms, t', d', ch')
        | None =>
            let '(ms, t', d', ch') := sweep rest (S i) limit goal t d ch in (m :: ms, t', d', ch')
        end
      else (l, t, d, ch)
  end.

Definition sweep_stage (i : StageInput) : StageOutcome :=
  let '(ms, t, d, ch) :=
    sweep (history i) 0 (Z.to_nat (tailStart i)) (target i) (historyTokens (history i)) (known i)
      false in
  if ch then {| messages := ms; displaced := d; tokens := t; changed := true |}
  else unchanged i.
End Sweep.

Definition snip : StageInput -> StageOutcome := sweep_stage snip_one.
Definition micro : StageInput -> StageOutcome := sweep_stage micro_one.

(** *** Digests *)

Definition COLLAPSE_KEEP_TURNS : nat := 2.

Definition plural (n : Z) : ustring := if n =? 1 then [] else js "s".

Definition mechanicalDigest (ms : list ChatMessage) : ustring :=
  let people := zlen (requests ms) in
  let observations := List.filter isObservation ms in
  let n := zlen observations in
  let slugs := distinct [] (omap slugOf observations) in
  join [10]
    ([js "Earlier in this conversation: " ++ decimal people ++ js " message" ++ plural people ++
      js " from the person and " ++ decimal n ++ js " tool result" ++ plural n ++ js "."] ++
     (match slugs with [] => [] | _ => [js "Tools used: " ++ join (js ", ") slugs ++ js "."] end) ++
     (match requests ms with
      | [] => []
      | m :: _ => [js "It opened with: " ++ squeeze_spaces false ((content m).[: 200])]
      end) ++
     [js "That detail was dropped to stay inside the context window. Ask the person rather than guessing at anything it covered."]).

Definition DIGEST_SPINE_HEADER : ustring :=
  js "Earlier requests, verbatim. What happened in response is summarised above.".

Definition requestSpine (h : list ChatMessage) (upto : nat) : list ChatMessage :=
  match requests (take upto h) with
  | [] => []
  | rs => header_message DIGEST_SPINE_HEADER :: rs
  end.

(** Where each request of the region is. *)
Fixpoint boundaries (l : list ChatMessage) (i limit : nat) : list nat :=
  match l with
  | [] => []
  | m :: rest =>
      (if (i <? limit)%nat && isTurnStart m then [i] else []) ++ boundaries rest (S i) limit
  end.

(** The digest of [history[0..from)], its requests, and the rest. *)
Definition digested (digest : ustring) (from : nat) (i : StageInput) : StageOutcome :=
  let ms := header_message digest :: requestSpine (history i) from ++ drop from (history i) in
  let t := historyTokens ms in
  if historyTokens (history i) <=? t then unchanged i
  else {| messages := ms; displaced := []; tokens := t; changed := true |}.

Definition collapse (digest : ustring) (i : StageInput) : StageOutcome :=
  let bs := boundaries (history i) 0 (Z.to_nat (tailStart i)) in
  if (length bs <=? COLLAPSE_KEEP_TURNS)%nat then unchanged i
  else
    match bs !! (length bs - COLLAPSE_KEEP_TURNS)%nat with
    | Some from => digested digest from i
    | None => unchanged i
    end.

Definition reset (digest : ustring) (i : StageInput) : StageOutcome :=
  if tailStart i =? 0 then unchanged i else digested digest (Z.to_nat (tailStart i)) i.

(** ** What every stage keeps *)

(** A stage accounts for its tokens, keeps the person's requests in order, leaves the protected
    tail as it is, and says so when it did nothing. *)
Record spares (i : StageInput) (o : StageOutcome) : Prop := {
  sp_tokens : tokens o = historyTokens (messages o);
  sp_requests : requests (history i) `sublist_of` requests (messages o);
  sp_tail : exists pre, messages o = pre ++ drop (Z.to_nat (tailStart i)) (history i);
  sp_unchanged : changed o = false -> messages o = history i /\ displaced o = known i }.

Lemma spares_unchanged i : spares i (unchanged i).
Proof.
  split; try done. exists (take (Z.to_nat (tailStart i)) (history i)). symmetry. apply take_drop.
Qed.

Lemma requests_sublist a b : a `sublist_of` b -> requests a `sublist_of` requests b.
Proof.
  induction 1 as [|x a b _ IH|x a b _ IH]; [done| |]; unfold requests in *; cbn.
  - destruct (isTurnStart x); [by constructor|done].
  - destruct (isTurnStart x); [by constructor|done].
Qed.

Lemma tailStart_length i : (Z.to_nat (tailStart i) <= length (history i))%nat.
Proof. unfold tailStart. lia. Qed.

(** *** The sweep *)

Lemma with_content_start c m : isTurnStart (with_content c m) = isTurnStart m.
Proof. done. Qed.

Section Sweep_facts.
Context (one : Displacements -> nat -> ChatMessage -> option (Displaced * ChatMessage)).

(** A visit rewrites the text of an observation and nothing else. *)
Definition rewrites : Prop := forall d i m e m',
  one d i m = Some (e, m') -> isObservation m = true /\ exists c, m' = with_content c m.
Context (Hone : rewrites).

Lemma sweep_spec l limit goal : forall i t d ch ms t' d' ch',
  sweep one l i limit goal t d ch = (ms, t', d', ch') ->
  t' - historyTokens ms = t - historyTokens l /\ requests ms = requests l /\
  drop (limit - i) ms = drop (limit - i) l /\
  (ch' = false -> ms = l /\ d' = d /\ ch = false).
Proof.
  induction l as [|m l IH]; intros i t d ch ms t' d' ch' H.
  { cbn in H. by injection H as <- <- <- <-. }
  cbn [sweep] in H. destruct ((i <? limit)%nat && (goal <? t)) eqn:Hgo;
    [|injection H as <- <- <- <-; by split_and!].
  apply andb_true_iff in Hgo as [Hi _]. apply Nat.ltb_lt in Hi.
  replace (limit - i)%nat with (S (limit - S i)) by lia.
  destruct (one d i m) as [[e m']|] eqn:E.
  - destruct (Hone _ _ _ _ _ E) as [Ho [c ->]].
    destruct (sweep one l (S i) _ _ _ _ _) as [[[ms1 t1] d1] ch1] eqn:E1.
    injection H as <- <- <- <-. destruct (IH _ _ _ _ _ _ _ _ E1) as (H1 & H2 & H3 & H4).
    split_and!.
    + change (historyTokens (with_content c m :: ms1)) with
        (cost (with_content c m) + historyTokens ms1).
      change (historyTokens (m :: l)) with (cost m + historyTokens l). lia.
    + unfold requests in *. cbn. rewrite with_content_start, (observation_not_start m Ho). done.
    + done.
    + intros Hch. destruct (H4 Hch) as (_ & _ & ?). done.
  - destruct (sweep one l (S i) _ _ _ _ _) as [[[ms1 t1] d1] ch1] eqn:E1.
    injection H as <- <- <- <-. destruct (IH _ _ _ _ _ _ _ _ E1) as (H1 & H2 & H3 & H4).
    split_and!.
    + change (historyTokens (m :: ms1)) with (cost m + historyTokens ms1).
      change (historyTokens (m :: l)) with (cost m + historyTokens l). lia.
    + unfold requests in *. cbn. by rewrite H2.
    + done.
    + intros Hch. by destruct (H4 Hch) as (-> & -> & ->).
Qed.

Lemma sweep_spares i : spares i (sweep_stage one i).
Proof.
  unfold sweep_stage.
  destruct (sweep one (history i) 0 _ _ _ _ _) as [[[ms t] d] ch] eqn:E.
  destruct (sweep_spec _ _ _ _ _ _ _ _ _ _ _ E) as (H1 & H2 & H3 & H4).
  destruct ch; [|apply spares_unchanged]. split; cbn [tokens messages displaced changed]; [lia|by rewrite H2| |done].
  rewrite Nat.sub_0_r in H3. exists (take (Z.to_nat (tailStart i)) ms).
  by rewrite <- H3, take_drop.
Qed.
End Sweep_facts.

Lemma snip_rewrites : rewrites snip_one.
Proof.
  intros d i m e m' H. unfold snip_one in H. destruct (isObservation m); [|done].
  cbn [negb] in H. destruct (cost m <=? SNIP_FLOOR_TOKENS); [done|].
  case_bool_decide; [done|]. injection H as <- <-. split; [done|by eexists].
Qed.

Lemma micro_rewrites : rewrites micro_one.
Proof.
  intros d i m e m' H. unfold micro_one in H. destruct (isObservation m); [|done].
  cbn [negb] in H. destruct (cost m <=? _); [done|].
  injection H as <- <-. split; [done|by eexists].
Qed.

Lemma snip_spares i : spares i (snip i).
Proof. apply sweep_spares, snip_rewrites. Qed.

Lemma micro_spares i : spares i (micro i).
Proof. apply sweep_spares, micro_rewrites. Qed.

(** *** Trim *)

Lemma trim_removed_spec l limit goal : forall i t r t',
  trim_removed l i limit goal t = (r, t') ->
  forall k, k ∈ r -> (i <= k < limit)%nat /\
    exists m, l !! (k - i)%nat = Some m /\ droppable m = true.
Proof.
  induction l as [|m l IH]; intros i t r t' H k Hk; cbn [trim_removed] in H.
  { injection H as <- _. by apply not_elem_of_nil in Hk. }
  assert (Hshift : forall r' t0 t1, trim_removed l (S i) limit goal t0 = (r', t1) -> k ∈ r' ->
    (i <= k < limit)%nat /\ exists m0, (m :: l) !! (k - i)%nat = Some m0 /\ droppable m0 = true).
  { intros r' t0 t1 E Hin. destruct (IH _ _ _ _ E k Hin) as [Hb [m0 [Hm0 Hd]]].
    split; [lia|]. exists m0. replace (k - i)%nat with (S (k - S i)) by lia. done. }
  destruct ((i <? limit)%nat && droppable m) eqn:Hgo.
  - apply andb_true_iff in Hgo as [Hi Hd]. apply Nat.ltb_lt in Hi.
    destruct (t <=? goal); [injection H as <- _; by apply not_elem_of_nil in Hk|].
    destruct (trim_removed l (S i) limit goal _) as [r' t1] eqn:E. injection H as <- <-.
    apply elem_of_cons in Hk as [->|Hk]; [|by eapply Hshift].
    split; [lia|]. exists m. by rewrite Nat.sub_diag.
  - by eapply Hshift.
Qed.

Lemma trim_keep_all l removed d : forall i pos kept d',
  trim_keep l i pos removed d = (kept, d') -> (forall k, k ∈ removed -> (k < i)%nat) -> kept = l.
Proof.
  induction l as [|m l IH]; intros i pos kept d' H Hlt; cbn [trim_keep] in H; [by injection H as <- _|].
  case_bool_decide as Hin; [specialize (Hlt _ Hin); lia|].
  destruct (trim_keep l (S i) (S pos) removed d) as [ms1 d1] eqn:E. injection H as <- _.
  f_equal. apply (IH _ _ _ _ E). intros k Hk. specialize (Hlt k Hk). lia.
Qed.

(** What is kept: in order, every request, and everything from the limit on. *)
Lemma trim_keep_spec l limit removed d : forall i pos kept d',
  trim_keep l i pos removed d = (kept, d') ->
  (forall k m, k ∈ removed -> (i <= k)%nat -> l !! (k - i)%nat = Some m -> isTurnStart m = false) ->
  (forall k, k ∈ removed -> (k < limit)%nat) ->
  requests kept = requests l /\ exists pre, kept = pre ++ drop (limit - i) l.
Proof.
  induction l as [|m l IH]; intros i pos kept d' H Hreq Hlim; cbn [trim_keep] in H.
  { injection H as <- _. split; [done|]. exists []. by rewrite drop_nil. }
  assert (Hreq' : forall k m0, k ∈ removed -> (S i <= k)%nat -> l !! (k - S i)%nat = Some m0 ->
    isTurnStart m0 = false).
  { intros k m0 Hk Hb Hm. apply (Hreq k m0 Hk); [lia|].
    by replace (k - i)%nat with (S (k - S i)) by lia. }
  case_bool_decide as Hin.
  - destruct (IH _ _ _ _ H Hreq' Hlim) as [H1 [pre H2]].
    pose proof (Hlim _ Hin). assert (isTurnStart m = false) as Hm.
    { apply (Hreq i m Hin); [lia|]. by rewrite Nat.sub_diag. }
    split; [unfold requests in *; cbn; by rewrite Hm|]. exists pre.
    by replace (limit - i)%nat with (S (limit - S i)) by lia.
  - destruct (trim_keep l (S i) (S pos) removed d) as [ms1 d1] eqn:E. injection H as <- <-.
    destruct (IH _ _ _ _ E Hreq' Hlim) as [H1 [pre H2]].
    split; [unfold requests in *; cbn; by rewrite H1|].
    destruct (decide (i < limit)%nat) as [Hlt|Hge].
    + exists (m :: pre). replace (limit - i)%nat with (S (limit - S i)) by lia.
      cbn. by rewrite H2.
    + exists []. replace (limit - i)%nat with 0%nat by lia. cbn. f_equal.
      apply (trim_keep_all _ removed d (S i) (S pos) ms1 d1 E).
      intros k Hk. specialize (Hlim k Hk). lia.
Qed.

Lemma droppable_not_start m : droppable m = true -> isTurnStart m = false.
Proof. unfold droppable. rewrite negb_true_iff, orb_false_iff. by intros [-> _]. Qed.

Lemma requests_header text l : requests (header_message text :: l) = header_message text :: requests l.
Proof. done. Qed.

Lemma trim_spares i : spares i (trim_history i).
Proof.
  unfold trim_history. destruct (existsb _ _); [|apply spares_unchanged].
  destruct (trim_removed _ _ _ _ _) as [removed t] eqn:Er.
  destruct removed as [|r0 removed]; [apply spares_unchanged|].
  destruct (trim_keep _ _ _ _ _) as [kept d] eqn:Ek.
  pose proof (trim_removed_spec _ _ _ _ _ _ _ Er) as Hr.
  destruct (trim_keep_spec _ (Z.to_nat (tailStart i)) _ _ _ _ _ _ Ek) as [H1 [pre H2]].
  - intros k m Hk _ Hm. destruct (Hr k Hk) as [_ [m' [Hm' Hd]]].
    rewrite Hm in Hm'. injection Hm' as <-. by apply droppable_not_start.
  - intros k Hk. destruct (Hr k Hk) as [[_ ?] _]. done.
  - split; cbn [tokens messages displaced changed]; [done| | |done].
    + rewrite requests_header, H1. by constructor.
    + rewrite Nat.sub_0_r in H2. rewrite H2. by eexists (header_message TRIM_HEADER :: pre).
Qed.

(** *** Digests *)

Lemma requestSpine_requests h from :
  requests (take from h) `sublist_of` requests (requestSpine h from).
Proof.
  unfold requestSpine. destruct (requests (take from h)) as [|m rs] eqn:E; [done|].
  rewrite requests_header. rewrite <- E. constructor.
  enough (forall l, requests (requests l) = requests l) as -> by done.
  intros l. unfold requests. induction l as [|x l IH]; [done|]. cbn.
  destruct (isTurnStart x) eqn:Ex; cbn; [by rewrite Ex, IH|done].
Qed.

Lemma digested_spares digest from i :
  (from <= Z.to_nat (tailStart i))%nat -> spares i (digested digest from i).
Proof.
  intros Hfrom. unfold digested. destruct (_ <=? _); [apply spares_unchanged|].
  split; cbn [tokens messages displaced changed]; [done| | |done].
  - rewrite requests_header, requests_app. apply sublist_cons.
    rewrite <- (take_drop from (history i)) at 1. rewrite requests_app.
    by apply sublist_app; [apply requestSpine_requests|].
  - exists (header_message digest :: requestSpine (history i) from ++
            take (Z.to_nat (tailStart i) - from) (drop from (history i))).
    cbn. f_equal. rewrite <- app_assoc. f_equal.
    replace (Z.to_nat (tailStart i)) with (from + (Z.to_nat (tailStart i) - from))%nat at 2 by lia.
    rewrite <- drop_drop. symmetry. apply take_drop.
Qed.

Lemma boundaries_bounds l limit : forall i k, k ∈ boundaries l i limit -> (i <= k < limit)%nat.
Proof.
  induction l as [|m l IH]; intros i k Hk; cbn [boundaries] in Hk.
  { by apply not_elem_of_nil in Hk. }
  apply elem_of_app in Hk as [Hk|Hk].
  - destruct ((i <? limit)%nat && isTurnStart m) eqn:E.
    + apply andb_true_iff in E as [E _]. apply Nat.ltb_lt in E.
      apply list_elem_of_singleton in Hk as ->. lia.
    + by apply not_elem_of_nil in Hk.
  - apply IH in Hk. lia.
Qed.

Lemma collapse_spares digest i : spares i (collapse digest i).
Proof.
  unfold collapse. set (bs := boundaries _ _ _).
  destruct (length bs <=? COLLAPSE_KEEP_TURNS)%nat; [apply spares_unchanged|].
  destruct (bs !! _) as [from|] eqn:E; [|apply spares_unchanged].
  apply list_elem_of_lookup_2, boundaries_bounds in E. apply digested_spares. lia.
Qed.

Lemma reset_spares digest i : spares i (reset digest i).
Proof. unfold reset. destruct (_ =? 0); [apply spares_unchanged|]. by apply digested_spares. Qed.

(** ** Where displaced text went *)

Lemma lookup_set_entry i e d : lookup_entry i (set_entry i e d) = Some e.
Proof.
  induction d as [|[j e'] d IH]; cbn; [by rewrite Nat.eqb_refl|].
  destruct (j =? i)%nat eqn:E; cbn; by rewrite E.
Qed.

Lemma lookup_set_other i j e d : i <> j -> lookup_entry j (set_entry i e d) = lookup_entry j d.
Proof.
  intros Hij. induction d as [|[k e'] d IH]; cbn.
  - by apply Nat.eqb_neq in Hij as ->.
  - destruct (Nat.eqb_spec k i) as [->|]; cbn; [by apply Nat.eqb_neq in Hij as ->|].
    by rewrite IH.
Qed.

(** An entry holds the whole original text, under the id derived from it. *)
Definition files (e : Displaced) (m0 : ChatMessage) : Prop :=
  d_content e = content m0 /\ d_id e = displacedId (content m0).

(** Message [m] stands for [m0]: it is [m0], or it names the entry that holds [m0]'s text. *)
Definition stands_for (entry : option Displaced) (m m0 : ChatMessage) : Prop :=
  m = m0 \/
  exists e, entry = Some e /\ files e m0 /\ includes (read_call (d_id e)) (content m) = true.

(** Position by position, with every entry of the map truthful. *)
Record filed (h0 ms : list ChatMessage) (d : Displacements) : Prop := {
  fl_length : length ms = length h0;
  fl_stands : forall i m m0, ms !! i = Some m -> h0 !! i = Some m0 ->
    stands_for (lookup_entry i d) m m0;
  fl_entries : forall i e, lookup_entry i d = Some e -> exists m0, h0 !! i = Some m0 /\ files e m0 }.

(** A visit leaves a call that reads the entry back. *)
Definition leaves_pointer (one : Displacements -> nat -> ChatMessage -> option (Displaced * ChatMessage))
  : Prop := forall d i m e m',
  one d i m = Some (e, m') ->
  e = displacementFor d i m (cost m) /\ includes (read_call (d_id e)) (content m') = true.

Lemma includes_middle p a b : includes p (a ++ p ++ b) = true.
Proof. apply includes_intro. Qed.

Lemma micro_pointer : leaves_pointer micro_one.
Proof.
  intros d i m e m' H. unfold micro_one in H. destruct (isObservation m); [|done].
  cbn [negb] in H. destruct (cost m <=? _); [done|]. injection H as <- <-.
  split; [done|]. cbn [content with_content]. unfold pointer.
  set (e := displacementFor d i m (cost m)).
  set (what := match d_slug e with None => _ | Some _ => _ end).
  replace (js "[compacted " ++ what ++ js ", " ++ decimal (d_tokens e) ++ js " tokens " ++ [8212] ++
    js " read it in full with " ++ read_call (d_id e) ++ js "]")
    with ((js "[compacted " ++ what ++ js ", " ++ decimal (d_tokens e) ++ js " tokens " ++ [8212] ++
    js " read it in full with ") ++ read_call (d_id e) ++ js "]") by (by rewrite <- !app_assoc).
  apply includes_middle.
Qed.

Lemma cut_marker_reads n id : includes (read_call id) (cut_marker n id) = true.
Proof. unfold cut_marker. do 7 apply includes_app_l. apply (includes_middle _ []). Qed.

Lemma cutMiddle_reads c id : cutMiddle c id <> c -> includes (read_call id) (cutMiddle c id) = true.
Proof.
  unfold cutMiddle. destruct (take_budget _ _ _) as [hd rest].
  destruct (take_budget (rev rest) _ _) as [tl [|x mid]]; [done|].
  intros _. apply includes_join, cut_marker_reads.
Qed.

Lemma snip_pointer : leaves_pointer snip_one.
Proof.
  intros d i m e m' H. unfold snip_one in H. destruct (isObservation m); [|done].
  cbn [negb] in H. destruct (cost m <=? SNIP_FLOOR_TOKENS); [done|].
  case_bool_decide as Hcut; [done|]. injection H as <- <-. split; [done|].
  by apply cutMiddle_reads.
Qed.

Lemma displacementFor_fresh d i m t :
  lookup_entry i d = None -> files (displacementFor d i m t) m.
Proof. unfold displacementFor. by intros ->. Qed.

(** A message that already stands for [m0] is displaced as [m0], never as the text it has now. *)
Lemma displacementFor_files d i m m0 t :
  stands_for (lookup_entry i d) m m0 -> (forall e, lookup_entry i d = Some e -> files e m0) ->
  files (displacementFor d i m t) m0.
Proof.
  intros Hs He. destruct (lookup_entry i d) as [e|] eqn:E.
  - unfold displacementFor. rewrite E. by apply He.
  - destruct Hs as [->|[? [? _]]]; [|done]. by apply displacementFor_fresh.
Qed.

Section Filed.
Context (one : Displacements -> nat -> ChatMessage -> option (Displaced * ChatMessage))
  (Hone : leaves_pointer one) (h0 : list ChatMessage).

(** The part of [filed] that speaks of the messages from index [i] on. *)
Definition filed_from (i : nat) (l : list ChatMessage) (d : Displacements) : Prop :=
  (forall k m m0, l !! k = Some m -> h0 !! (i + k)%nat = Some m0 ->
    stands_for (lookup_entry (i + k) d) m m0) /\
  (forall k e, lookup_entry k d = Some e -> exists m0, h0 !! k = Some m0 /\ files e m0).

Lemma filed_from_tail i m l d : filed_from i (m :: l) d -> filed_from (S i) l d.
Proof.
  intros [H1 H2]. split; [|done]. intros k x m0 Hx Hm0.
  replace (S i + k)%nat with (i + S k)%nat in * by lia. by apply (H1 (S k)).
Qed.

(** Recording an entry for message [i] leaves what comes after it as it was. *)
Lemma filed_from_set i l d e m0 :
  filed_from (S i) l d -> h0 !! i = Some m0 -> files e m0 -> filed_from (S i) l (set_entry i e d).
Proof.
  intros [H1 H2] Hm0 He. split.
  - intros k x x0 Hx Hx0. rewrite lookup_set_other by lia. by apply (H1 k).
  - intros k e' Hk. destruct (decide (k = i)) as [->|Hne].
    + rewrite lookup_set_entry in Hk. injection Hk as <-. by exists m0.
    + rewrite lookup_set_other in Hk by done. by apply H2.
Qed.

Lemma sweep_filed limit goal : forall l i t d ch ms t' d' ch',
  sweep one l i limit goal t d ch = (ms, t', d', ch') ->
  (i + length l = length h0)%nat -> filed_from i l d ->
  length ms = length l /\ filed_from i ms d' /\
  (forall k, (k < i)%nat -> lookup_entry k d' = lookup_entry k d).
Proof.
  induction l as [|m l IH]; intros i t d ch ms t' d' ch' H Hlen Hf; cbn [sweep] in H.
  { by injection H as <- <- <- <-. }
  destruct ((i <? limit)%nat && (goal <? t)); [|by injection H as <- <- <- <-].
  cbn [length] in Hlen.
  assert (exists m0, h0 !! i = Some m0) as [m0 Hm0] by (apply lookup_lt_is_Some; lia).
  pose proof (proj1 Hf 0%nat m m0 eq_refl) as Hs. rewrite Nat.add_0_r in Hs. specialize (Hs Hm0).
  assert (forall e, lookup_entry i d = Some e -> files e m0) as Hent.
  { intros e He. destruct (proj2 Hf i e He) as [m1 [Hm1 ?]].
    rewrite Hm1 in Hm0. by injection Hm0 as ->. }
  assert (Hcons : forall d2 m' ms2, length ms2 = length l -> filed_from (S i) ms2 d2 ->
    stands_for (lookup_entry i d2) m' m0 ->
    length (m' :: ms2) = length (m :: l) /\ filed_from i (m' :: ms2) d2).
  { intros d2 m' ms2 Hl2 [G1 G2] Hm'. split; [by cbn; rewrite Hl2|]. split; [|done].
    intros [|k] x x0 Hx Hx0.
    - rewrite Nat.add_0_r in *. injection Hx as <-. rewrite Hm0 in Hx0. by injection Hx0 as <-.
    - replace (i + S k)%nat with (S i + k)%nat in * by lia. by apply (G1 k). }
  destruct (one d i m) as [[e m']|] eqn:E.
  - destruct (Hone _ _ _ _ _ E) as [He Hread].
    assert (files e m0) as Hfe by (rewrite He; by apply displacementFor_files).
    destruct (sweep one l (S i) _ _ _ _ _) as [[[ms1 t1] d1] ch1] eqn:E1.
    injection H as <- <- <- <-.
    destruct (IH _ _ _ _ _ _ _ _ E1) as (H1 & H2 & H3); [lia|..].
    { apply (filed_from_set i l d e m0); [|done..]. by apply (filed_from_tail i m). }
    apply Logic.and_assoc. split.
    + apply Hcons; [done|done|]. rewrite H3, lookup_set_entry by lia. right. by exists e.
    + intros k Hk. rewrite H3, lookup_set_other by lia. done.
  - destruct (sweep one l (S i) _ _ _ _ _) as [[[ms1 t1] d1] ch1] eqn:E1.
    injection H as <- <- <- <-.
    destruct (IH _ _ _ _ _ _ _ _ E1) as (H1 & H2 & H3); [lia|by apply (filed_from_tail i m)|].
    apply Logic.and_assoc. split.
    + apply Hcons; [done|done|]. rewrite H3 by lia. done.
    + intros k Hk. by rewrite H3 by lia.
Qed.

Lemma filed_all ms d : length ms = length h0 -> (filed h0 ms d <-> filed_from 0 ms d).
Proof. intros Hlen. split; [by intros [? ? ?]|]. intros [? ?]. by split. Qed.

(** A sweep keeps every displaced text within reach, whatever earlier sweeps displaced. *)
Lemma sweep_stage_filed i :
  filed h0 (history i) (known i) ->
  filed h0 (messages (sweep_stage one i)) (displaced (sweep_stage one i)).
Proof.
  intros Hf. unfold sweep_stage.
  destruct (sweep one (history i) 0 _ _ _ _ _) as [[[ms t] d] ch] eqn:E.
  destruct ch; [|done]. cbn [messages displaced].
  pose proof (fl_length _ _ _ Hf) as Hlen.
  destruct (sweep_filed _ _ _ _ _ _ _ _ _ _ _ E) as (H1 & H2 & _);
    [done|by apply filed_all|]. apply filed_all; [lia|done].
Qed.
End Filed.

Lemma filed_start h : filed h h [].
Proof. split; [done| |done]. intros i m m0 -> [=->]. by left. Qed.

(** ** What a reader of the result can get back *)

(** Every message of [ms] is one of [h0]'s, or frames what was cut, or names one of the
    entries, which holds the whole of a message of [h0]. *)
Definition resolves (h0 ms : list ChatMessage) (entries : list Displaced) : Prop :=
  forall m, m ∈ ms -> m ∈ h0 \/ origin m = Some ODigest \/
    exists e m0, e ∈ entries /\ m0 ∈ h0 /\ files e m0 /\ includes (read_call (d_id e)) (content m) = true.

Lemma lookup_entry_elem i d e : lookup_entry i d = Some e -> e ∈ d.*2.
Proof.
  induction d as [|[j e'] d IH]; [done|]. cbn. destruct (j =? i)%nat.
  - intros [= ->]. by left.
  - intros H. right. by apply IH.
Qed.

Lemma filed_stands h0 ms d m i :
  filed h0 ms d -> ms !! i = Some m ->
  m ∈ h0 \/ exists e m0, lookup_entry i d = Some e /\ m0 ∈ h0 /\ files e m0 /\
    includes (read_call (d_id e)) (content m) = true.
Proof.
  intros [Hlen Hs _] Hm.
  assert (exists m0, h0 !! i = Some m0) as [m0 Hm0].
  { apply lookup_lt_is_Some. rewrite <- Hlen. by eapply lookup_lt_Some. }
  destruct (Hs i m m0 Hm Hm0) as [->|[e (He & Hf & Hr)]].
  - left. by eapply list_elem_of_lookup_2.
  - right. exists e, m0. split_and!; try done. by eapply list_elem_of_lookup_2.
Qed.

Lemma filed_resolves h0 ms d : filed h0 ms d -> resolves h0 ms d.*2.
Proof.
  intros Hf m Hm. apply list_elem_of_lookup in Hm as [i Hi].
  destruct (filed_stands _ _ _ _ _ Hf Hi) as [?|(e & m0 & He & ? & ? & ?)]; [by left|].
  right; right. exists e, m0. split_and!; try done. by eapply lookup_entry_elem.
Qed.

(** Re-keying: whatever [trim]'s copy keeps carries its entry along. *)
Lemma trim_keep_entries l removed d : forall i pos kept d',
  trim_keep l i pos removed d = (kept, d') ->
  forall m, m ∈ kept -> exists k, l !! k = Some m /\
    forall e, lookup_entry (i + k) d = Some e -> e ∈ d'.*2.
Proof.
  induction l as [|x l IH]; intros i pos kept d' H m Hm; cbn [trim_keep] in H.
  { injection H as <- _. by apply not_elem_of_nil in Hm. }
  case_bool_decide.
  { destruct (IH _ _ _ _ H m Hm) as [k [Hk He]]. exists (S k). split; [done|].
    by replace (i + S k)%nat with (S i + k)%nat by lia. }
  destruct (trim_keep l (S i) (S pos) removed d) as [ms1 d1] eqn:E. injection H as <- <-.
  apply elem_of_cons in Hm as [->|Hm].
  - exists 0%nat. split; [done|]. intros e. rewrite Nat.add_0_r. intros ->. by left.
  - destruct (IH _ _ _ _ E m Hm) as [k [Hk He]]. exists (S k). split; [done|].
    replace (i + S k)%nat with (S i + k)%nat by lia. intros e Hl. specialize (He e Hl).
    destruct (lookup_entry i d); [by right|done].
Qed.

Lemma trim_resolves h0 i :
  filed h0 (history i) (known i) ->
  resolves h0 (messages (trim_history i)) ((displaced (trim_history i)).*2).
Proof.
  intros Hf. pose proof (filed_resolves _ _ _ Hf) as Hr. unfold trim_history.
  destruct (existsb _ _); [|done].
  destruct (trim_removed _ _ _ _ _) as [[|r0 removed] t]; [done|].
  destruct (trim_keep _ _ _ _ _) as [kept d] eqn:Ek. cbn [messages displaced].
  intros m Hm. apply elem_of_cons in Hm as [->|Hm]; [by right; left|].
  destruct (trim_keep_entries _ _ _ _ _ _ _ Ek m Hm) as [k [Hk He]].
  destruct (filed_stands _ _ _ _ _ Hf Hk) as [?|(e & m0 & Hl & ? & ? & ?)]; [by left|].
  right; right. exists e, m0. split_and!; try done. by apply He.
Qed.

(** What a digest stage keeps, it keeps as it was. *)
Lemma resolves_own h0 ms entries :
  (forall m, m ∈ ms -> m ∈ h0 \/ origin m = Some ODigest) -> resolves h0 ms entries.
Proof. intros H m Hm. destruct (H m Hm); tauto. Qed.

(** ** Two shapes the predicates do not tell apart *)

(** A digest has the role of a person's message and an origin that is not an observation's, so
    the next digest counts it among the person's messages and keeps it verbatim. *)
Lemma digest_is_request text : isTurnStart (header_message text) = true.
Proof. done. Qed.

Lemma digest_counted_as_person :
  starts_with (js "Earlier in this conversation: 1 message from the person and 0 tool results.")
    (mechanicalDigest [header_message (js "A summary.")]) = true.
Proof. by vm_compute. Qed.

(** [trim] charges for its header before it decides, and has no test that the result is smaller. *)
Lemma trim_can_grow :
  let i := {| history := [plain_message RAssistant (js "ok"); plain_message RUser (js "hi")];
              target := 0; protectedTail := 0; known := [] |} in
  changed (trim_history i) = true /\ historyTokens (history i) < tokens (trim_history i).
Proof. by vm_compute. Qed.
