(* ===== verification/Budget.v ===== *)
(** * How full the context is: [context/budget.ts]

    The estimator's bias is learned from pairs of an estimate and the figure the endpoint charged.
    A number that is not an integer is the double the source holds: a rational, each quotient,
    product and sum of which is rounded by [Rounding.fl]. *)
From Stdlib Require Import QArith Qpower Qround Qabs Qminmax Lqa.
From S2P Require Import Prelude Rounding.
Local Open Scope Q_scope.

Record Calibration := { ratio : Q; samples : Z }.

Definition UNCALIBRATED : Calibration := {| ratio := 1; samples := 0 |}.

Definition RATIO_MIN : Q := 1 # 2.
Definition RATIO_MAX : Q := 2.
Definition EMA_ALPHA : Q := fl (3 # 5).

Definition comparableEstimate (assembledTotal wireTokens : Z) : Z := (assembledTotal + wireTokens)%Z.

Record Observation := { estimated : Z; reported : Z }.

Definition combine (current : Calibration) (r : Q) : Calibration :=
  if (samples current =? 0)%Z then {| ratio := r; samples := 1 |}
  else {| ratio := fl (fl (r * EMA_ALPHA) + fl (ratio current * fl (1 - EMA_ALPHA)));
          samples := samples current + 1 |}.

Definition sample_ratio (s : Observation) : Q := fl (inject_Z (reported s) / inject_Z (estimated s)).

(** The source's band test, false on both sides. *)
Definition plausible (r : Q) : bool := Qle_bool RATIO_MIN r && Qle_bool r RATIO_MAX.

Definition observe (current : Calibration) (s : Observation) : Calibration :=
  if ((estimated s <=? 0) || (reported s <=? 0))%Z then current
  else if negb (plausible (sample_ratio s)) then current
  else combine current (sample_ratio s).

Definition corrected (c : Calibration) (n : Z) : Z :=
  if (samples c =? 0)%Z then n else Qceiling (fl (inject_Z n * ratio c)).

Inductive PressureSource := Reported | Corrected | Estimated.

Record Pressure := { p_tokens : Z; p_budget : Z; fraction : Q; p_source : PressureSource }.

Definition promptBudget (window reserveOutput : Z) : Z := Z.max 1 (window - reserveOutput).

Definition pressureOf (tokens budget : Z) (s : PressureSource) : Pressure :=
  {| p_tokens := tokens; p_budget := budget;
     fraction := if (budget <=? 0)%Z then 0 else fl (inject_Z tokens / inject_Z budget); p_source := s |}.

Definition projectedPressure (est window reserveOutput : Z) (c : Calibration) : Pressure :=
  pressureOf (corrected c est) (promptBudget window reserveOutput)
    (if (samples c =? 0)%Z then Estimated else Corrected).

Definition measuredPressure (rep window reserveOutput : Z) : Pressure :=
  pressureOf rep (promptBudget window reserveOutput) Reported.

(** [Math.floor(window * 0.25)] of an integer window is exact. *)
Definition observationBudget (configured : option Z) (window : Z) : Z :=
  match configured with
  | Some n => n
  | None => Z.min 32000 (Z.max 2000 (window / 4))
  end.

(** ** What is learned *)

Lemma plausible_spec r : plausible r = true <-> RATIO_MIN <= r <= RATIO_MAX.
Proof. unfold plausible. by rewrite andb_true_iff, !Qle_bool_iff. Qed.

(** A calibration that has learned anything stays inside the band of believable samples. *)
Record calibrated (c : Calibration) : Prop := {
  cal_samples : (0 <= samples c)%Z;
  cal_fresh : samples c = 0%Z -> ratio c == 1;
  cal_band : RATIO_MIN <= ratio c <= RATIO_MAX }.

Lemma calibrated_start : calibrated UNCALIBRATED.
Proof. split; unfold UNCALIBRATED, RATIO_MIN, RATIO_MAX; cbn; [done|done|lra]. Qed.

(** The two weights are doubles that add up to one, a hair off three and two fifths. *)
Lemma weights : EMA_ALPHA == 5404319552844595 # 9007199254740992 /\
  fl (1 - EMA_ALPHA) == 3602879701896397 # 9007199254740992.
Proof. split; by vm_compute. Qed.

(** A moving average of believable ratios is one: rounding does not leave the band. *)
Lemma blend_band r c :
  RATIO_MIN <= r <= RATIO_MAX -> RATIO_MIN <= c <= RATIO_MAX ->
  RATIO_MIN <= fl (fl (r * EMA_ALPHA) + fl (c * fl (1 - EMA_ALPHA))) <= RATIO_MAX.
Proof.
  unfold RATIO_MIN, RATIO_MAX. intros Hr Hc. pose proof weights as [Ha Hb].
  set (a := EMA_ALPHA) in *. set (b := fl (1 - a)) in *.
  pose proof (fl_mono (r * a) (2 * a) ltac:(nra) ltac:(nra)) as H1.
  pose proof (fl_mono (c * b) (2 * b) ltac:(nra) ltac:(nra)) as H2.
  pose proof (fl_mono ((1 # 2) * a) (r * a) ltac:(nra) ltac:(nra)) as H3.
  pose proof (fl_mono ((1 # 2) * b) (c * b) ltac:(nra) ltac:(nra)) as H4.
  assert (fl (2 * a) == 2 * a /\ fl (2 * b) == 2 * b /\ fl ((1 # 2) * a) == (1 # 2) * a /\
    fl ((1 # 2) * b) == (1 # 2) * b) as (E1 & E2 & E3 & E4) by (repeat split; by vm_compute).
  set (x := fl (r * a)) in *. set (y := fl (c * b)) in *.
  pose proof (fl_mono (x + y) 2 ltac:(lra) ltac:(lra)) as H5.
  pose proof (fl_mono (1 # 2) (x + y) ltac:(lra) ltac:(lra)) as H6.
  assert (fl 2 == 2 /\ fl (1 # 2) == 1 # 2) as [E5 E6] by (split; by vm_compute). lra.
Qed.

Lemma combine_calibrated c r :
  calibrated c -> RATIO_MIN <= r <= RATIO_MAX -> calibrated (combine c r).
Proof.
  intros [Hs Hf Hb] Hr. unfold combine.
  destruct (Z.eqb_spec (samples c) 0); split; cbn [ratio samples]; try (intros ?; lia); try lia.
  - done.
  - by apply blend_band.
Qed.

Lemma observe_calibrated c s : calibrated c -> calibrated (observe c s).
Proof.
  intros Hc. unfold observe. destruct (_ || _)%Z; [done|].
  destruct (plausible (sample_ratio s)) eqn:E; [|done].
  by apply combine_calibrated, plausible_spec.
Qed.

Lemma fold_calibrated l : forall c, calibrated c -> calibrated (fold_left observe l c).
Proof. induction l as [|s l IH]; intros c Hc; [done|]. by apply IH, observe_calibrated. Qed.

(** Observations that agree on the endpoint's true factor. *)
Definition agrees (k : Q) (s : Observation) : Prop :=
  (0 < estimated s)%Z /\ (0 < reported s)%Z /\ sample_ratio s == k.

Lemma observe_agrees c s k :
  agrees k s -> RATIO_MIN <= k <= RATIO_MAX -> observe c s = combine c (sample_ratio s).
Proof.
  intros (He & Hr & Hk) Hb. unfold observe.
  rewrite (proj2 (Z.leb_gt _ _) He), (proj2 (Z.leb_gt _ _) Hr). cbn [orb].
  assert (plausible (sample_ratio s) = true) as -> by (apply plausible_spec; by rewrite Hk).
  done.
Qed.

(** A moving average is two fifths of the way back to what was learned, but for rounding. *)
Lemma blend_error r c k :
  RATIO_MIN <= r <= RATIO_MAX -> RATIO_MIN <= c <= RATIO_MAX -> r == k ->
  Qabs ((fl (fl (r * EMA_ALPHA) + fl (c * fl (1 - EMA_ALPHA))) - k) - (2 # 5) * (c - k)) <= 2 ^ (-50).
Proof.
  unfold RATIO_MIN, RATIO_MAX. intros Hr Hc Hk. pose proof weights as [Ha Hb].
  set (a := EMA_ALPHA) in *. set (b := fl (1 - a)) in *.
  assert (2 ^ 1 == 2) as P1 by reflexivity. assert (2 ^ 2 == 4) as P2 by reflexivity.
  pose proof (fl_error (r * a) 1 ltac:(nra) ltac:(rewrite P1; nra) ltac:(lia)) as H1.
  pose proof (fl_error (c * b) 1 ltac:(nra) ltac:(rewrite P1; nra) ltac:(lia)) as H2.
  apply Qabs_Qle_condition in H1, H2. set (x := fl (r * a)) in *. set (y := fl (c * b)) in *.
  change (2 ^ (1 - 54)) with (1 # 9007199254740992) in H1, H2.
  pose proof (fl_error (x + y) 2 ltac:(nra) ltac:(rewrite P2; nra) ltac:(lia)) as H3.
  apply Qabs_Qle_condition in H3. change (2 ^ (2 - 54)) with (1 # 4503599627370496) in H3.
  set (z := fl (x + y)) in *. apply Qabs_Qle_condition.
  change (2 ^ (-50)) with (1 # 1125899906842624). rewrite Ha in H1. rewrite Hb in H2. lra.
Qed.

(** What one sample that agrees on [k] does to what was learned. *)
Definition drawn_to (k : Q) (c c' : Calibration) : Prop :=
  samples c' = (samples c + 1)%Z /\
  (samples c = 0%Z -> ratio c' == k) /\
  ((0 < samples c)%Z -> Qabs ((ratio c' - k) - (2 # 5) * (ratio c - k)) <= 2 ^ (-50)).

Lemma observe_drawn k c s :
  RATIO_MIN <= k <= RATIO_MAX -> calibrated c -> agrees k s -> drawn_to k c (observe c s).
Proof.
  intros Hk Hc Hs. rewrite (observe_agrees _ _ _ Hs Hk). pose proof (proj2 (proj2 Hs)) as Hr.
  unfold drawn_to, combine. destruct (Z.eqb_spec (samples c) 0) as [E|E]; cbn [ratio samples].
  - split; [by rewrite E|]. split; [done|lia].
  - split; [done|]. split; [lia|]. intros _. apply blend_error; [by rewrite Hr|apply cal_band, Hc|done].
Qed.

Lemma drawn_error k c c' e : drawn_to k c c' -> RATIO_MIN <= k <= RATIO_MAX -> calibrated c ->
  Qabs (ratio c - k) <= e -> Qabs (ratio c' - k) <= (2 # 5) * e + 2 ^ (-50).
Proof.
  intros (_ & Hz & Hp) Hk Hc He. pose proof (pow2_pos (-50)).
  pose proof (Qabs_nonneg (ratio c - k)). pose proof (cal_samples c Hc).
  destruct (Z.eq_dec (samples c) 0) as [E|E].
  - assert (ratio c' - k == 0) as -> by (rewrite (Hz E); ring). change (Qabs 0) with 0. lra.
  - specialize (Hp ltac:(lia)). apply Qabs_Qle_condition in Hp, He. apply Qabs_Qle_condition. lra.
Qed.

Lemma learns_within k l : forall c e,
  RATIO_MIN <= k <= RATIO_MAX -> calibrated c -> Forall (agrees k) l ->
  Qabs (ratio c - k) <= e + 2 ^ (-49) ->
  Qabs (ratio (fold_left observe l c) - k) <= (2 # 5) ^ Z.of_nat (length l) * e + 2 ^ (-49).
Proof.
  induction l as [|s l IH]; intros c e Hk Hc Hl He; cbn [fold_left length].
  - change ((2 # 5) ^ Z.of_nat 0) with 1. by rewrite Qmult_1_l.
  - apply Forall_cons in Hl as [Hs Hl].
    pose proof (drawn_error k c _ _ (observe_drawn k c s Hk Hc Hs) Hk Hc He) as H.
    rewrite Nat2Z.inj_succ, <- Z.add_1_r, Qpower_plus, <- Qmult_assoc by done.
    apply IH; [done|by apply observe_calibrated|done|].
    change ((2 # 5) ^ 1) with (2 # 5). change (2 ^ (-50)) with (1 # 1125899906842624) in H.
    change (2 ^ (-49)) with (1 # 562949953421312) in *. lra.
Qed.

(** ** The correction *)

Lemma corrected_band c n :
  RATIO_MIN <= ratio c <= RATIO_MAX -> (0 <= n < 2 ^ 53)%Z ->
  (Qceiling (inject_Z n * RATIO_MIN) <= corrected c n <= 2 * n)%Z.
Proof.
  unfold RATIO_MIN, RATIO_MAX. intros [Hlo Hhi] Hn. unfold corrected.
  destruct (Z.eq_dec n 0) as [->|Hz].
  { assert (fl (inject_Z 0 * ratio c) == 0) as E0 by (apply fl_zero; ring).
    destruct (samples c =? 0)%Z; [by vm_compute|]. rewrite E0. by vm_compute. }
  assert (0 < inject_Z n) as Hq by (rewrite <- (Zlt_Qlt 0); lia).
  assert (Qceiling (inject_Z n * (1 # 2)) <= n)%Z as Hhalf.
  { rewrite <- (Qceiling_Z n) at 2. apply Qceiling_resp_le. lra. }
  destruct (samples c =? 0)%Z; [lia|].
  pose proof (fl_exact n (-1) ltac:(lia) ltac:(lia)) as E1. change (2 ^ (-1)) with (1 # 2) in E1.
  pose proof (fl_exact n 1 ltac:(lia) ltac:(lia)) as E2. change (2 ^ 1) with 2 in E2.
  pose proof (fl_mono (inject_Z n * (1 # 2)) (inject_Z n * ratio c) ltac:(lra) ltac:(nra)).
  pose proof (fl_mono (inject_Z n * ratio c) (inject_Z n * 2) ltac:(nra) ltac:(nra)).
  split; [apply Qceiling_resp_le; lra|].
  rewrite <- (Qceiling_Z (2 * n)), inject_Z_mult. apply Qceiling_resp_le.
  change (inject_Z 2) with 2. lra.
Qed.

(** Rounding does not take a correction past the next integer. *)
Lemma corrected_ceiling c n :
  RATIO_MIN <= ratio c <= RATIO_MAX -> (0 <= n <= 2 ^ 52)%Z -> samples c <> 0%Z ->
  (corrected c n <= Qceiling (inject_Z n * ratio c))%Z.
Proof.
  unfold RATIO_MIN, RATIO_MAX. intros [Hlo Hhi] Hn Hs. unfold corrected.
  rewrite (proj2 (Z.eqb_neq _ _) Hs). set (x := inject_Z n * ratio c). set (N := Qceiling x).
  assert (0 <= inject_Z n) as Hq by (rewrite <- (Zle_Qle 0); lia).
  destruct (Z.eq_dec n 0) as [->|Hz].
  { assert (x == 0) as E by (unfold x; ring). rewrite (fl_zero x E). unfold N. by rewrite E. }
  assert (0 < inject_Z n) as Hp by (rewrite <- (Zlt_Qlt 0); lia).
  assert (0 < x) as Hx by (unfold x; nra). pose proof (Qle_ceiling x) as Hc. fold N in Hc.
  assert (0 < N)%Z as HN by (rewrite (Zlt_Qlt 0); apply (Qlt_le_trans _ x); done).
  assert (N <= 2 * n)%Z as HN2.
  { unfold N. rewrite <- (Qceiling_Z (2 * n)), inject_Z_mult. apply Qceiling_resp_le.
    unfold x. change (inject_Z 2) with 2. nra. }
  pose proof (fl_int N ltac:(lia)) as E. pose proof (fl_mono x (inject_Z N) Hx Hc) as H.
  rewrite <- (Qceiling_Z N). apply Qceiling_resp_le. lra.
Qed.

(** C40. Whatever the endpoint reports, the learned ratio stays between one half and two, so the
    corrected estimate of a count the language holds exactly is never below half of it nor above
    twice it. Of samples that agree on a factor [k] within that band, whatever was learned before
    them, each counts: the first of a session is taken whole, and any other leaves two fifths of
    the error, to within [2 ^ -50], which is the rounding of the doubles; so [n] of them leave at
    most [(2/5)^n] of the one and a half the band allows, and [2 ^ -49]. *)
Theorem calibration_converges (before agreeing : list Observation) (k : Q) (n : Z)
  (Hk : RATIO_MIN <= k <= RATIO_MAX) (Hagree : Forall (agrees k) agreeing) (Hn : (0 <= n < 2 ^ 53)%Z) :
  let learned l := fold_left observe l UNCALIBRATED in
  let c := learned (before ++ agreeing) in
  RATIO_MIN <= ratio c <= RATIO_MAX /\
  (Qceiling (inject_Z n * RATIO_MIN) <= corrected c n <= 2 * n)%Z /\
  (forall l1 s l2, agreeing = l1 ++ s :: l2 ->
     drawn_to k (learned (before ++ l1)) (learned (before ++ l1 ++ [s]))) /\
  Qabs (ratio c - k) <= (2 # 5) ^ Z.of_nat (length agreeing) * (3 # 2) + 2 ^ (-49).
Proof.
  intros learned c.
  assert (forall l, calibrated (learned l)) as Hc by (intros l; apply fold_calibrated, calibrated_start).
  split; [apply cal_band, Hc|]. split; [apply corrected_band; [apply cal_band, Hc|done]|]. split.
  - intros l1 s l2 ->. apply Forall_app in Hagree as [_ [Hs _]%Forall_cons].
    rewrite (app_assoc before). unfold learned at 2. rewrite fold_left_app. apply observe_drawn; [done|apply Hc|done].
  - unfold c, learned. rewrite fold_left_app. apply learns_within; [done|apply Hc|done|].
    pose proof (cal_band _ (Hc before)) as Hb. pose proof (pow2_pos (-49)).
    unfold RATIO_MIN, RATIO_MAX, learned in *. apply Qabs_Qle_condition. split; lra.
Qed.

Lemma calibration_converges_witness :
  Qabs (ratio (fold_left observe ([ {| estimated := 100; reported := 60 |};
      {| estimated := 100; reported := 900 |} ] ++
    [ {| estimated := 1000; reported := 1200 |}; {| estimated := 10; reported := 12 |} ])
    UNCALIBRATED) - fl (6 # 5)) <= (2 # 5) ^ 2 * (3 # 2) + 2 ^ (-49).
Proof.
  apply (calibration_converges [ {| estimated := 100; reported := 60 |};
      {| estimated := 100; reported := 900 |} ]
    [ {| estimated := 1000; reported := 1200 |}; {| estimated := 10; reported := 12 |} ]
    (fl (6 # 5)) 0).
  - by split.
  - repeat constructor; by vm_compute.
  - done.
Defined.
