(* ===== verification/Ladder.v ===== *)
(** * The compaction ladder: [context/compaction/ladder.ts]

    Which stages run, in which order, and how far down each aims. The learned ratio and what it
    corrects are doubles ([Budget]); thresholds and the fractions compared with them are exact
    rationals. The [compactor] role is the function [summarise]: it answers
    each request for a digest with a text or fails. The ladder asks it at most once per stage,
    so the stage names the request. *)
From Stdlib Require Import QArith Qround Qminmax Lqa.
From S2P Require Import Prelude UString Messages Stages Budget.
Local Open Scope Z_scope.

Definition FLOOR_MARGIN : Q := 1 # 20.

Definition Thresholds := StageName -> Q.

Record StageRecord := { stage : StageName; before : Z; after : Z; r_changed : bool }.

Record LadderInput := {
  li_history : list ChatMessage;
  li_protectedTail : Z;
  budget : Z;
  fixed : Z;
  thresholds : Thresholds;
  calibration : Calibration;
  summarise : option (StageName -> list ChatMessage -> option ustring) }.

Inductive DigestSource := ByModel | Mechanical.

Record LadderResult := {
  lr_history : list ChatMessage;
  lr_displaced : list Displaced;
  stages : list StageRecord;
  lr_before : Q;
  lr_after : Q;
  fellShort : bool;
  digestSource : option DigestSource }.

Definition fractionOf (i : LadderInput) (h : list ChatMessage) : Q :=
  if budget i <=? 0 then 0%Q
  else (inject_Z (corrected (calibration i) (fixed i + historyTokens h)) / inject_Z (budget i))%Q.

Definition Qgtb (a b : Q) : bool := negb (Qle_bool a b).

Definition effective_ratio (c : Calibration) : Q := if samples c =? 0 then 1%Q else ratio c.

Definition historyTargetFor (i : LadderInput) (f : Q) : Z :=
  let r := effective_ratio (calibration i) in
  let chargedCeiling := (f * inject_Z (budget i))%Q in
  let estimatedCeiling := if Qle_bool r 0 then chargedCeiling else (chargedCeiling / r)%Q in
  Z.max 0 (Qfloor (estimatedCeiling - inject_Z (fixed i))).

(** The loop over [STAGE_ORDER.entries()]: the last stage whose threshold is crossed. *)
Fixpoint deepest_from (t : Thresholds) (f : Q) (i : nat) (l : list StageName)
  (found : option (StageName * nat)) : option (StageName * nat) :=
  match l with
  | [] => found
  | s :: rest => deepest_from t f (S i) rest (if Qgtb f (t s) then Some (s, i) else found)
  end.
Definition deepestStage (t : Thresholds) (f : Q) : option (StageName * nat) :=
  deepest_from t f 0 STAGE_ORDER None.

Definition targetFraction (t : Thresholds) (deepest : nat) : Q :=
  match deepest with
  | O => Qmax 0 (t Snip - FLOOR_MARGIN)
  | S k => match STAGE_ORDER !! k with Some s => t s | None => Qmax 0 (t Snip - FLOOR_MARGIN) end
  end.

Definition digestFor (i : LadderInput) (s : StageName) (ms : list ChatMessage)
  : ustring * DigestSource :=
  match summarise i with
  | None => (mechanicalDigest ms, Mechanical)
  | Some ask =>
      match ask s ms with
      | None => (mechanicalDigest ms, Mechanical)
      | Some text => if blank text then (mechanicalDigest ms, Mechanical) else (text, ByModel)
      end
  end.

(** What the loop of [runLadder] keeps between iterations. *)
Record LadderState := {
  ls_history : list ChatMessage; ls_displaced : Displacements;
  ls_stages : list StageRecord; ls_source : option DigestSource }.

Definition stage_input (i : LadderInput) (goal : Z) (st : LadderState) : StageInput :=
  {| history := ls_history st; target := goal; protectedTail := li_protectedTail i;
     known := ls_displaced st |}.

(** One iteration's stage, and where its digest came from when it needed one. *)
Definition run_stage (i : LadderInput) (goal : Z) (s : StageName) (st : LadderState)
  : StageOutcome * option DigestSource :=
  let inp := stage_input i goal st in
  match s with
  | Trim => (trim_history inp, ls_source st)
  | Snip => (snip inp, ls_source st)
  | Micro => (micro inp, ls_source st)
  | Collapse | Reset =>
      let span := take (Z.to_nat (tailStart inp)) (ls_history st) in
      let '(text, source) := digestFor i s span in
      (match s with Collapse => collapse text inp | _ => reset text inp end, Some source)
  end.

Definition after_stage (s : StageName) (st : LadderState) (o : StageOutcome)
  (source : option DigestSource) : LadderState :=
  {| ls_history := messages o; ls_displaced := displaced o;
     ls_stages := ls_stages st ++ [ {| stage := s; before := historyTokens (ls_history st);
                                       after := tokens o; r_changed := changed o |} ];
     ls_source := source |}.

Fixpoint run_stages (i : LadderInput) (goal : Z) (l : list StageName) (st : LadderState)
  : LadderState :=
  match l with
  | [] => st
  | s :: rest =>
      if historyTokens (ls_history st) <=? goal then st
      else
        let '(o, source) := run_stage i goal s st in
        run_stages i goal rest (after_stage s st o source)
  end.

Definition ladder_start (i : LadderInput) : LadderState :=
  {| ls_history := li_history i; ls_displaced := []; ls_stages := []; ls_source := None |}.

Definition ladder_target (i : LadderInput) (deepest : nat) : Z :=
  historyTargetFor i (targetFraction (thresholds i) deepest).

Definition runLadder (i : LadderInput) : LadderResult :=
  let f0 := fractionOf i (li_history i) in
  match deepestStage (thresholds i) f0 with
  | None =>
      {| lr_history := li_history i; lr_displaced := []; stages := []; lr_before := f0;
         lr_after := f0; fellShort := false; digestSource := None |}
  | Some (_, k) =>
      let goal := ladder_target i k in
      let st := run_stages i goal (take (S k) STAGE_ORDER) (ladder_start i) in
      {| lr_history := ls_history st; lr_displaced := (ls_displaced st).*2;
         stages := ls_stages st; lr_before := f0; lr_after := fractionOf i (ls_history st);
         fellShort := goal <? historyTokens (ls_history st); digestSource := ls_source st |}
  end.

(** ** What any rung keeps *)

(** The newest messages, which no stage may alter. *)
Definition guarded (n : Z) (h : list ChatMessage) : list ChatMessage :=
  drop (Z.to_nat (Z.max 0 (zlen h - Z.max 0 n))) h.

Lemma run_stage_spares i goal s st :
  spares (stage_input i goal st) (run_stage i goal s st).1.
Proof.
  unfold run_stage.
  destruct s; cbn [fst];
    [apply snip_spares|apply micro_spares|destruct (digestFor _ _ _)..|apply trim_spares];
    [apply collapse_spares|apply reset_spares].
Qed.

Lemma suffix_guarded n (t h : list ChatMessage) :
  t `suffix_of` h -> zlen t <= Z.max 0 n -> t `suffix_of` guarded n h.
Proof.
  intros [pre ->] Hlen. unfold guarded. rewrite length_app.
  exists (drop (Z.to_nat (Z.max 0 (Z.of_nat (length pre + length t) - Z.max 0 n))) pre).
  rewrite drop_app_le; [done|lia].
Qed.

Lemma guarded_length n h : zlen (guarded n h) <= Z.max 0 n.
Proof. unfold guarded. rewrite length_drop. lia. Qed.

(** What one stage guarantees of the history, every later stage guarantees again. *)
Lemma run_stages_spares i goal l : forall st tail,
  tail `suffix_of` guarded (li_protectedTail i) (ls_history st) ->
  requests (ls_history st) `sublist_of` requests (ls_history (run_stages i goal l st)) /\
  tail `suffix_of` guarded (li_protectedTail i) (ls_history (run_stages i goal l st)).
Proof.
  induction l as [|s l IH]; intros st tail Ht; cbn [run_stages]; [by split|].
  destruct (historyTokens (ls_history st) <=? goal); [by split|].
  pose proof (run_stage_spares i goal s st) as Hs.
  destruct (run_stage i goal s st) as [o source]. destruct Hs as [_ Hreq [pre Htail] _].
  cbn [history target protectedTail known fst stage_input] in *.
  destruct (IH (after_stage s st o source) tail) as [H1 H2]; cbn [after_stage ls_history].
  - apply suffix_guarded.
    + rewrite Htail. etrans; [exact Ht|]. by eexists pre.
    + destruct Ht as [k Hk]. pose proof (guarded_length (li_protectedTail i) (ls_history st)) as Hl.
      rewrite Hk, length_app in Hl. lia.
  - split; [|done]. etrans; [exact Hreq|exact H1].
Qed.

Lemma runLadder_spares i :
  requests (li_history i) `sublist_of` requests (lr_history (runLadder i)) /\
  guarded (li_protectedTail i) (li_history i) `suffix_of` lr_history (runLadder i).
Proof.
  unfold runLadder. destruct (deepestStage _ _) as [[s k]|]; cbn [lr_history].
  - destruct (run_stages_spares i (ladder_target i k) (take (S k) STAGE_ORDER) (ladder_start i) _
      (reflexivity (guarded (li_protectedTail i) (li_history i)))) as [H1 H2].
    split; [exact H1|]. etrans; [exact H2|]. apply suffix_drop.
  - split; [done|apply suffix_drop].
Qed.

(** C25. Whatever the pressure, the thresholds and the compactor's answers: every request in the
    history is still in the result, in the same order and word for word, and the protected tail
    is the end of the result, untouched. *)
Theorem ladder_spares (i : LadderInput) :
  requests (li_history i) `sublist_of` requests (lr_history (runLadder i)) /\
  guarded (li_protectedTail i) (li_history i) `suffix_of` lr_history (runLadder i).
Proof. apply runLadder_spares. Qed.

(** ** Which stages run *)

Section Loop.
Context (i : LadderInput) (goal : Z).

Definition stage_record (s : StageName) (st : LadderState) : StageRecord :=
  {| stage := s; before := historyTokens (ls_history st);
     after := tokens (run_stage i goal s st).1; r_changed := changed (run_stage i goal s st).1 |}.

Definition next_state (s : StageName) (st : LadderState) : LadderState :=
  after_stage s st (run_stage i goal s st).1 (run_stage i goal s st).2.

Lemma run_stages_cons s l st :
  run_stages i goal (s :: l) st =
    if historyTokens (ls_history st) <=? goal then st else run_stages i goal l (next_state s st).
Proof. cbn [run_stages]. unfold next_state. by destruct (run_stage i goal s st). Qed.

Lemma run_stages_stop l st :
  historyTokens (ls_history st) <= goal -> run_stages i goal l st = st.
Proof.
  intros H. destruct l as [|s l]; [done|]. rewrite run_stages_cons.
  by rewrite (proj2 (Z.leb_le _ _) H).
Qed.

Lemma run_stages_app a b st :
  run_stages i goal (a ++ b) st = run_stages i goal b (run_stages i goal a st).
Proof.
  revert st. induction a as [|s a IH]; intros st; [done|].
  rewrite <- app_comm_cons, !run_stages_cons.
  destruct (Z.leb_spec (historyTokens (ls_history st)) goal); [|apply IH].
  by rewrite run_stages_stop.
Qed.

(** The records of a run extend the ones it started with. *)
Lemma run_stages_records l : forall st, exists new,
  ls_stages (run_stages i goal l st) = ls_stages st ++ new.
Proof.
  induction l as [|s l IH]; intros st; [exists []; by rewrite app_nil_r|].
  rewrite run_stages_cons. destruct (_ <=? _); [exists []; by rewrite app_nil_r|].
  destruct (IH (next_state s st)) as [new H]. rewrite H. eexists. cbn. by rewrite <- app_assoc.
Qed.

(** Rule induction over the stages that ran, given what their records say. *)
Lemma run_stages_ind (ok : StageRecord -> Prop) (P : LadderState -> Prop) l :
  (forall s st, s ∈ l -> ok (stage_record s st) -> P st -> P (next_state s st)) ->
  forall st, Forall ok (ls_stages (run_stages i goal l st)) -> P st ->
  P (run_stages i goal l st).
Proof.
  intros Hstep. induction l as [|s l IH]; intros st Hok HP; [done|].
  rewrite run_stages_cons in *. destruct (_ <=? _); [done|].
  apply IH; [intros; apply Hstep; [by right|done..]|done|].
  apply Hstep; [by left| |done].
  destruct (run_stages_records l (next_state s st)) as [new H]. rewrite H in Hok.
  apply Forall_app in Hok as [Hok _]. cbn in Hok. apply Forall_app in Hok as [_ Hok].
  by inversion Hok.
Qed.

(** [before] and [after] link up. *)
Fixpoint chained (t : Z) (rs : list StageRecord) (t' : Z) : Prop :=
  match rs with
  | [] => t = t'
  | r :: rest => before r = t /\ chained (after r) rest t'
  end.

Lemma run_stages_shape l : forall st,
  exists n new, ls_stages (run_stages i goal l st) = ls_stages st ++ new /\
    map stage new = take n l /\ (n <= length l)%nat /\
    Forall (fun r => goal < before r) new /\
    chained (historyTokens (ls_history st)) new
      (historyTokens (ls_history (run_stages i goal l st))) /\
    (n = length l \/ historyTokens (ls_history (run_stages i goal l st)) <= goal).
Proof.
  induction l as [|s l IH]; intros st.
  { exists 0%nat, []. rewrite app_nil_r. split_and!; try done. by left. }
  rewrite run_stages_cons. destruct (Z.leb_spec (historyTokens (ls_history st)) goal) as [Hle|Hgt].
  { exists 0%nat, []. rewrite app_nil_r. split_and!; try done; [cbn; lia|by right]. }
  destruct (IH (next_state s st)) as (n & new & H1 & H2 & H3 & H4 & H5 & H6).
  exists (S n), (stage_record s st :: new). rewrite H1. split_and!.
  - cbn. by rewrite <- app_assoc.
  - cbn. by rewrite H2.
  - cbn. lia.
  - by constructor.
  - split; [done|]. pose proof (sp_tokens _ _ (run_stage_spares i goal s st)) as Ht.
    cbn [stage_record after]. by rewrite Ht.
  - destruct H6 as [->|H6]; [by left|by right].
Qed.
End Loop.

(** The manifest's validation refuses thresholds out of this order. *)
Definition ascending (t : Thresholds) : Prop :=
  (t Snip <= t Micro /\ t Micro <= t Collapse /\ t Collapse <= t Reset /\ t Reset <= t Trim)%Q.

Lemma Qgtb_spec a b : Qgtb a b = true <-> (b < a)%Q.
Proof.
  unfold Qgtb. rewrite negb_true_iff. split.
  - intros H. apply Qnot_le_lt. intros Hle. apply Qle_bool_iff in Hle. congruence.
  - intros H. destruct (Qle_bool a b) eqn:E; [|done]. apply Qle_bool_iff in E. lra.
Qed.

(** The deepest stage is one whose threshold the pressure has crossed, and no later one is. *)
Lemma deepestStage_spec t f :
  match deepestStage t f with
  | Some (s, k) => STAGE_ORDER !! k = Some s /\ (t s < f)%Q /\
      forall j s', (k < j)%nat -> STAGE_ORDER !! j = Some s' -> (f <= t s')%Q
  | None => forall s, (f <= t s)%Q
  end.
Proof.
  assert (Hle : forall s, Qgtb f (t s) = false -> (f <= t s)%Q).
  { intros s H. unfold Qgtb in H. apply negb_false_iff in H. by apply Qle_bool_iff. }
  unfold deepestStage, STAGE_ORDER. cbn [deepest_from].
  destruct (Qgtb f (t Trim)) eqn:E5; [|destruct (Qgtb f (t Reset)) eqn:E4;
    [|destruct (Qgtb f (t Collapse)) eqn:E3; [|destruct (Qgtb f (t Micro)) eqn:E2;
    [|destruct (Qgtb f (t Snip)) eqn:E1]]]].
  all: try (split; [done|]; split; [by apply Qgtb_spec|];
    intros [|[|[|[|[|j]]]]] s' Hj Hs; try lia; try done; injection Hs as <-; by apply Hle).
  intros [| | | |]; by apply Hle.
Qed.

Lemma crossed_all t f s k : ascending t -> deepestStage t f = Some (s, k) ->
  forall s', s' ∈ take (S k) STAGE_ORDER -> (t s' < f)%Q.
Proof.
  intros (H1 & H2 & H3 & H4) Hd s' Hin. pose proof (deepestStage_spec t f) as Hs.
  rewrite Hd in Hs. destruct Hs as (Hk & Hlt & _).
  apply list_elem_of_lookup in Hin as [j Hj].
  apply lookup_take_Some in Hj as [Hj Hjk].
  destruct k as [|[|[|[|[|k]]]]]; cbn in Hk; injection Hk as <- || done;
    destruct j as [|[|[|[|[|j]]]]]; cbn in Hj; injection Hj as <- || done; try lia; lra.
Qed.

(** When some threshold is crossed, the stages that ran are the first ones of the order, no
    deeper than the deepest crossed; each ran only because the history was still over the target;
    the reported token counts link up from the history given to the history returned; a ladder
    reports falling short only when every authorised stage has run; and with thresholds in
    ascending order every stage that ran had its own threshold crossed. *)
Theorem ladder_stages (i : LadderInput) (s : StageName) (k : nat)
  (Hdeep : deepestStage (thresholds i) (fractionOf i (li_history i)) = Some (s, k))
  (Hasc : ascending (thresholds i)) :
  let r := runLadder i in
  (exists n, (n <= S k)%nat /\ map stage (stages r) = take n STAGE_ORDER /\
    (fellShort r = true -> n = S k)) /\
  Forall (fun rec => ladder_target i k < before rec /\ (thresholds i (stage rec) < lr_before r)%Q)
    (stages r) /\
  chained (historyTokens (li_history i)) (stages r) (historyTokens (lr_history r)) /\
  (fellShort r = true <-> ladder_target i k < historyTokens (lr_history r)).
Proof.
  unfold runLadder. rewrite Hdeep. cbn [stages lr_before lr_history fellShort].
  destruct (run_stages_shape i (ladder_target i k) (take (S k) STAGE_ORDER) (ladder_start i))
    as (n & new & H1 & H2 & H3 & H4 & H5 & H6).
  rewrite H1. cbn [ladder_start ls_stages app ls_history] in *.
  split_and!; [| |done|apply Z.ltb_lt].
  - exists (n `min` S k)%nat. rewrite <- take_take. split_and!; [lia|done|].
    intros Hf%Z.ltb_lt. destruct H6 as [->|H6]; [|lia]. rewrite length_take.
    assert (k < 5)%nat; [|cbn; lia]. pose proof (deepestStage_spec (thresholds i) (fractionOf i (li_history i))) as Hs.
    rewrite Hdeep in Hs. destruct Hs as [Hs _]. by apply lookup_lt_Some in Hs.
  - apply Forall_forall. intros rec Hrec. split; [by eapply Forall_forall in H4|].
    apply (crossed_all _ _ _ _ Hasc Hdeep).
    assert (stage rec ∈ map stage new) as Hin by (by apply list_elem_of_fmap_2).
    rewrite H2 in Hin. by apply elem_of_take in Hin as [? [Hin _]]; eapply list_elem_of_lookup_2.
Qed.

(** The common case costs nothing. *)
Lemma ladder_idle i : (forall s, (fractionOf i (li_history i) <= thresholds i s)%Q) ->
  lr_history (runLadder i) = li_history i /\ stages (runLadder i) = [] /\
  lr_displaced (runLadder i) = [] /\ fellShort (runLadder i) = false.
Proof.
  intros H. unfold runLadder.
  pose proof (deepestStage_spec (thresholds i) (fractionOf i (li_history i))) as Hs.
  destruct (deepestStage _ _) as [[s k]|]; [|done]. destruct Hs as (_ & Hs & _).
  specialize (H s). lra.
Qed.

(** ** How far down *)

Lemma Qfloor_iff n q : n <= Qfloor q <-> (inject_Z n <= q)%Q.
Proof.
  split; intros H.
  - pose proof (Qfloor_le q). rewrite Zle_Qle in H. lra.
  - rewrite <- (Qfloor_Z n). by apply Qfloor_resp_le.
Qed.

Lemma Qceiling_lt_1 q : (inject_Z (Qceiling q) < q + 1)%Q.
Proof. pose proof (Qceiling_lt q). unfold Z.sub in H. rewrite inject_Z_plus in H. change (inject_Z (- (1))) with (- (1))%Q in H. lra. Qed.

Lemma effective_ratio_pos c : calibrated c -> (0 < effective_ratio c)%Q.
Proof.
  intros [_ _ [Hlo _]]. unfold effective_ratio, RATIO_MIN in *.
  destruct (samples c =? 0); lra.
Qed.

Lemma corrected_lt c n : calibrated c -> 0 <= n <= 2 ^ 52 ->
  (inject_Z (corrected c n) < inject_Z n * effective_ratio c + 1)%Q.
Proof.
  intros Hc Hn. pose proof (corrected_ceiling c n (cal_band c Hc) Hn) as H.
  unfold effective_ratio. destruct (Z.eqb_spec (samples c) 0) as [E|E].
  - unfold corrected. rewrite E. cbn [Z.eqb]. lra.
  - specialize (H E). rewrite Zle_Qle in H. pose proof (Qceiling_lt_1 (inject_Z n * ratio c)). lra.
Qed.

(** A history within the target is charged within the fraction, up to rounding. *)
Lemma within_target i f h :
  0 < budget i -> calibrated (calibration i) -> 0 < historyTokens h ->
  0 <= fixed i -> fixed i + historyTokens h <= 2 ^ 52 ->
  historyTokens h <= historyTargetFor i f ->
  (fractionOf i h < f + 1 / inject_Z (budget i))%Q.
Proof.
  intros Hb Hc Hh Hf Hsize Ht. unfold historyTargetFor in Ht.
  pose proof (effective_ratio_pos _ Hc) as Hr. set (r := effective_ratio (calibration i)) in *.
  assert (Qle_bool r 0 = false) as E.
  { destruct (Qle_bool r 0) eqn:E; [|done]. apply Qle_bool_iff in E. lra. }
  rewrite E in Ht. assert (historyTokens h <= Qfloor (f * inject_Z (budget i) / r - inject_Z (fixed i)))
    as Ht' by lia. apply Qfloor_iff in Ht'.
  assert (inject_Z (fixed i + historyTokens h) * r <= f * inject_Z (budget i))%Q as Hcharge.
  { rewrite inject_Z_plus.
    assert (inject_Z (fixed i) + inject_Z (historyTokens h) <= f * inject_Z (budget i) / r)%Q
      as H1 by lra.
    apply (Qmult_le_compat_r _ _ r) in H1; [|lra].
    assert (f * inject_Z (budget i) / r * r == f * inject_Z (budget i))%Q as H2
      by (field; lra).
    by rewrite H2 in H1. }
  unfold fractionOf. rewrite (proj2 (Z.leb_gt _ _) Hb).
  pose proof (corrected_lt (calibration i) (fixed i + historyTokens h) Hc ltac:(lia)) as Hlt. fold r in Hlt.
  assert (0 < inject_Z (budget i))%Q as HbQ by (by rewrite <- (Zlt_Qlt 0)).
  assert (f + 1 / inject_Z (budget i) == (f * inject_Z (budget i) + 1) / inject_Z (budget i))%Q
    as -> by (field; lra).
  apply Qlt_shift_div_l; [done|].
  assert (inject_Z (corrected (calibration i) (fixed i + historyTokens h)) / inject_Z (budget i) *
    inject_Z (budget i) == inject_Z (corrected (calibration i) (fixed i + historyTokens h)))%Q
    as -> by (field; lra). lra.
Qed.

(** A ladder that does not report falling short has brought the pressure to the threshold one
    rung below the deepest one crossed (the floor margin below the first), give or take the
    rounding of one token; it reports falling short otherwise. (Of a prompt whose tokens a double
    counts.) *)
Theorem ladder_reaches (i : LadderInput) (s : StageName) (k : nat)
  (Hdeep : deepestStage (thresholds i) (fractionOf i (li_history i)) = Some (s, k))
  (Hbudget : 0 < budget i) (Hcal : calibrated (calibration i)) (Hfixed : 0 <= fixed i)
  (Hsize : fixed i + historyTokens (lr_history (runLadder i)) <= 2 ^ 52)
  (Hleft : lr_history (runLadder i) <> []) (Hok : fellShort (runLadder i) = false) :
  (lr_after (runLadder i) < targetFraction (thresholds i) k + 1 / inject_Z (budget i))%Q.
Proof.
  unfold runLadder in *. rewrite Hdeep in *. cbn [lr_after lr_history fellShort] in *.
  apply Z.ltb_ge in Hok. apply within_target; [done|done| |done|done|done].
  destruct (ls_history _) as [|m h]; [done|]. cbn.
  pose proof (cost_pos m). pose proof (historyTokens_nonneg h). unfold historyTokens in *. lia.
Qed.

(** ** Where displaced text went *)

Definition digests (s : StageName) : bool := bool_decide (s = Collapse \/ s = Reset).

Definition sweeps (s : StageName) : bool := bool_decide (s = Snip \/ s = Micro).

(** Some stage of the kind changed the history. *)
Definition changed_by (kind : StageName -> bool) (rs : list StageRecord) : bool :=
  existsb (fun r => kind (stage r) && r_changed r) rs.

Lemma changed_by_Forall kind rs : changed_by kind rs = false ->
  Forall (fun r => kind (stage r) = true -> r_changed r = false) rs.
Proof.
  induction rs as [|r rs IH]; [by constructor|]. cbn. intros [H1 H2]%orb_false_iff.
  constructor; [|by apply IH]. intros Hk. by rewrite Hk in H1.
Qed.

Lemma digest_unchanged i goal s st : digests s = true -> r_changed (stage_record i goal s st) = false ->
  ls_history (next_state i goal s st) = ls_history st /\
  ls_displaced (next_state i goal s st) = ls_displaced st.
Proof.
  intros _ Hch. exact (sp_unchanged _ _ (run_stage_spares i goal s st) Hch).
Qed.

(** The rungs before the last keep every displaced text filed by position. *)
Lemma rungs_filed h0 i goal l st :
  Trim ∉ l -> changed_by digests (ls_stages (run_stages i goal l st)) = false ->
  filed h0 (ls_history st) (ls_displaced st) ->
  filed h0 (ls_history (run_stages i goal l st)) (ls_displaced (run_stages i goal l st)).
Proof.
  intros Hl Hch. apply changed_by_Forall in Hch. revert st Hch.
  apply (run_stages_ind i goal _ (fun st => filed h0 (ls_history st) (ls_displaced st))).
  intros s st Hs Hok Hf. destruct (digests s) eqn:Ed.
  { destruct (digest_unchanged i goal s st Ed (Hok Ed)) as [-> ->]. done. }
  destruct s; [| |done|done|done]; unfold next_state; cbn [after_stage ls_history ls_displaced].
  - exact (sweep_stage_filed _ snip_pointer h0 (stage_input i goal st) Hf).
  - exact (sweep_stage_filed _ micro_pointer h0 (stage_input i goal st) Hf).
Qed.

(** What every message of a history is, when no text was displaced. *)
Definition own (h0 : list ChatMessage) (st : LadderState) : Prop :=
  forall m, m ∈ ls_history st -> m ∈ h0 \/ origin m = Some ODigest.

Lemma requestSpine_own h n m : m ∈ requestSpine h n -> m ∈ h \/ origin m = Some ODigest.
Proof.
  unfold requestSpine. destruct (requests (take n h)) as [|r rs] eqn:E; [by intros ?%not_elem_of_nil|].
  intros [->|Hm]%elem_of_cons; [by right|]. left. rewrite <- E in Hm.
  unfold requests in Hm. apply list_elem_of_In, filter_In in Hm as [Hm _].
  apply list_elem_of_In in Hm. by eapply elem_of_take in Hm as [? [? _]]; eapply list_elem_of_lookup_2.
Qed.

Lemma digested_own digest from i m :
  m ∈ messages (digested digest from i) -> m ∈ history i \/ origin m = Some ODigest.
Proof.
  unfold digested. destruct (_ <=? _); [by left|]. cbn [messages].
  intros [->|[Hm|Hm]%elem_of_app]%elem_of_cons; [by right|by apply requestSpine_own in Hm|].
  left. by eapply subseteq_drop.
Qed.

Lemma collapse_own digest i m :
  m ∈ messages (collapse digest i) -> m ∈ history i \/ origin m = Some ODigest.
Proof.
  unfold collapse. destruct (_ <=? _)%nat; [by left|].
  destruct (_ !! _); [apply digested_own|by left].
Qed.

Lemma reset_own digest i m :
  m ∈ messages (reset digest i) -> m ∈ history i \/ origin m = Some ODigest.
Proof. unfold reset. destruct (_ =? 0); [by left|apply digested_own]. Qed.

Lemma trim_own i m :
  m ∈ messages (trim_history i) -> m ∈ history i \/ origin m = Some ODigest.
Proof.
  unfold trim_history. destruct (existsb _ _); [|by left].
  destruct (trim_removed _ _ _ _ _) as [[|r0 removed] t]; [by left|].
  destruct (trim_keep _ _ _ _ _) as [kept d] eqn:Ek. cbn [messages].
  intros [->|Hm]%elem_of_cons; [by right|]. left.
  destruct (trim_keep_entries _ _ _ _ _ _ _ Ek m Hm) as [k [Hk _]].
  by eapply list_elem_of_lookup_2.
Qed.

Lemma stages_own h0 i goal l st :
  changed_by sweeps (ls_stages (run_stages i goal l st)) = false ->
  own h0 st -> own h0 (run_stages i goal l st).
Proof.
  intros Hch. apply changed_by_Forall in Hch. revert st Hch.
  apply (run_stages_ind i goal _ (own h0)). intros s st _ Hok Ho m Hm.
  assert (m ∈ ls_history st \/ origin m = Some ODigest) as [Hin|?]; [|by apply Ho|by right].
  destruct (sweeps s) eqn:Es.
  { left. pose proof (sp_unchanged _ _ (run_stage_spares i goal s st) (Hok Es)) as [H _].
    unfold next_state in Hm. cbn [after_stage ls_history] in Hm. by rewrite H in Hm. }
  destruct s; try done; unfold next_state, run_stage in Hm; cbn [after_stage ls_history] in Hm.
  - destruct (digestFor _ _ _). by apply collapse_own in Hm.
  - destruct (digestFor _ _ _). by apply reset_own in Hm.
  - by apply trim_own in Hm.
Qed.

Lemma order_split n : exists a b, take n STAGE_ORDER = a ++ b /\ (Trim ∉ a) /\ (b = [] \/ b = [Trim]).
Proof.
  exists (take n [Snip; Micro; Collapse; Reset]), (drop 4 (take n STAGE_ORDER)).
  destruct n as [|[|[|[|[|n]]]]]; cbn; (split; [done|]); (split; [by apply (bool_decide_unpack _)|]);
    first [by left|by right|rewrite ?take_nil; by right].
Qed.

(** Every message the ladder returns is one it was given, or frames what was cut, or carries
    an [artifact_read] call naming an id under which the entries to persist hold the whole
    original text: provided the run did not both displace text and replace a span by a digest. *)
Theorem ladder_pointers_resolve (i : LadderInput)
  (Honce : changed_by sweeps (stages (runLadder i)) = false \/
           changed_by digests (stages (runLadder i)) = false) :
  resolves (li_history i) (lr_history (runLadder i)) (lr_displaced (runLadder i)).
Proof.
  unfold runLadder in *. destruct (deepestStage _ _) as [[s k]|].
  2:{ apply resolves_own. by left. }
  cbn [stages lr_history lr_displaced] in *.
  destruct Honce as [Hch|Hch].
  { apply resolves_own. by apply stages_own; [|by left]. }
  destruct (order_split (S k)) as (a & b & Hab & Ha & Hb). rewrite Hab, run_stages_app in *.
  set (st := run_stages i _ a (ladder_start i)) in *.
  assert (filed (li_history i) (ls_history st) (ls_displaced st)) as Hf.
  { apply rungs_filed; [done| |apply filed_start].
    destruct (run_stages_records i (ladder_target i k) b st) as [new Hnew]. rewrite Hnew in Hch.
    unfold changed_by in *. rewrite existsb_app in Hch. by apply orb_false_iff in Hch as [Hch _]. }
  destruct Hb as [-> | ->]; [exact (filed_resolves _ _ _ Hf)|].
  rewrite run_stages_cons. destruct (_ <=? _); [exact (filed_resolves _ _ _ Hf)|].
  exact (trim_resolves _ (stage_input i (ladder_target i k) st) Hf).
Qed.

(** ** At concrete inputs *)

(** The manifest's defaults. *)
Definition manifest_thresholds (s : StageName) : Q :=
  match s with
  | Snip => 60 # 100 | Micro => 70 # 100 | Collapse => 80 # 100 | Reset => 88 # 100
  | Trim => 95 # 100
  end.

Definition filler (n : nat) : ustring := repeat 97 n.

Definition listing (lines : nat) : ChatMessage :=
  with_origin OObservation (plain_message RUser
    (js "OBSERVATION files " ++ [0x2014] ++ js " ok" ++
     concat (repeat (10 :: filler 50) lines))).

(** Four turns, the second with a tool result. *)
Definition sample_history (lines n : nat) : list ChatMessage :=
  [ plain_message RUser (js "one"); plain_message RAssistant (filler n);
    plain_message RUser (js "two"); listing lines;
    plain_message RUser (js "three"); plain_message RUser (js "four") ].

Definition sample_ladder (lines n : nat) : LadderInput :=
  {| li_history := sample_history lines n; li_protectedTail := 1; budget := 2000; fixed := 100;
     thresholds := manifest_thresholds; calibration := UNCALIBRATED; summarise := None |}.

(** At 0.75 the tool result alone is replaced by a pointer, and that is enough. *)
Lemma ladder_pointers_resolve_witness :
  resolves (sample_history 40 3000) (lr_history (runLadder (sample_ladder 40 3000)))
    (lr_displaced (runLadder (sample_ladder 40 3000))) /\
  map stage (stages (runLadder (sample_ladder 40 3000))) = [Snip; Micro] /\
  lr_displaced (runLadder (sample_ladder 40 3000)) <> [].
Proof.
  split; [|by vm_compute].
  apply (ladder_pointers_resolve (sample_ladder 40 3000)). right. by vm_compute.
Defined.

Lemma sample_deep :
  deepestStage manifest_thresholds (fractionOf (sample_ladder 40 3000) (sample_history 40 3000)) =
    Some (Micro, 1%nat).
Proof. by vm_compute. Qed.

Lemma manifest_ascending : ascending manifest_thresholds.
Proof. by repeat split. Qed.

Lemma ladder_stages_witness :
  map stage (stages (runLadder (sample_ladder 40 3000))) = [Snip; Micro] /\
  (exists n, (n <= 2)%nat /\
    map stage (stages (runLadder (sample_ladder 40 3000))) = take n STAGE_ORDER /\
    (fellShort (runLadder (sample_ladder 40 3000)) = true -> n = 2%nat)).
Proof.
  split; [by vm_compute|].
  exact (proj1 (ladder_stages (sample_ladder 40 3000) Micro 1 sample_deep manifest_ascending)).
Defined.

Lemma nonempty_from {A} (l : list A) : match l with [] => False | _ => True end -> l <> [].
Proof. by destruct l. Qed.

Lemma sample_left : lr_history (runLadder (sample_ladder 40 3000)) <> [].
Proof. apply nonempty_from. by vm_compute. Qed.

Lemma sample_reached : fellShort (runLadder (sample_ladder 40 3000)) = false.
Proof. by vm_compute. Qed.

Lemma sample_size : fixed (sample_ladder 40 3000) +
  historyTokens (lr_history (runLadder (sample_ladder 40 3000))) <= 2 ^ 52.
Proof. apply Z.leb_le. by vm_compute. Qed.

Lemma ladder_reaches_witness :
  (lr_after (runLadder (sample_ladder 40 3000)) <
    targetFraction manifest_thresholds 1 + 1 / inject_Z 2000)%Q.
Proof.
  exact (ladder_reaches (sample_ladder 40 3000) Micro 1 sample_deep eq_refl calibrated_start
    ltac:(done) sample_size sample_left sample_reached).
Defined.

(** A text an earlier rung displaced from a turn that [collapse] keeps is not among the entries
    to persist: the pointer left in the prompt names nothing. *)
Lemma collapse_strands_pointer :
  let r := runLadder (sample_ladder 20 4860) in
  map stage (stages r) = [Snip; Micro; Collapse] /\ lr_displaced r = [] /\
  existsb (fun m => includes (read_call (displacedId (content (listing 20)))) (content m))
    (lr_history r) = true /\
  existsb (fun m => bool_decide (m = (listing 20))) (lr_history r) = false.
Proof. by vm_compute. Qed.
