(* ===== verification/Assemble.v ===== *)
(** * The prompt: [context/assemble.ts], [context/blocks.ts], [context/activate.ts]

    What goes to the model, in which order, and what is left out when it does not fit. A block
    carries its message when it is one; [b_images] counts the images on the input message, the
    only block that has any. *)
From Stdlib Require Import Sorted.
From S2P Require Import Prelude UString Json Messages.
Local Open Scope Z_scope.

Inductive Slot :=
  SIdentity | STools | SConfig | SExamples | SVolatile | SSkill | SKnowledge | SDigest | SHistory |
  SReminder | SMemory | SNote | SInput | SError.
#[export] Instance Slot_eq_dec : EqDecision Slot.
Proof. solve_decision. Defined.

(** The numbers of [SLOT]. *)
Definition slot_number (s : Slot) : Z :=
  match s with
  | SIdentity => 0 | STools => 1 | SConfig => 2 | SExamples => 3 | SVolatile => 4 | SSkill => 5
  | SKnowledge => 6 | SDigest => 7 | SHistory => 8 | SReminder => 9 | SMemory => 10
  | SNote => 11 | SInput => 12 | SError => 13
  end.

Record ContextBlock := {
  slot : Slot; b_role : Role; b_content : ustring; pinned : bool; b_tokens : Z;
  label : ustring; b_message : option ChatMessage; b_images : nat }.

(** ** Framing *)

Definition VOLATILE_HEADER : ustring :=
  js "What I already know, carried from before this conversation and kept current. " ++
  js "Not a transcript " ++ [0x2014] ++ js " these are standing facts about the person I work for and my own working notes. " ++
  js "If they ask what I know or remember about them, this is the answer.".
Definition VOLATILE_END : ustring :=
  js "That is everything I already know; the person's message follows separately.".
Definition REMINDER_HEADER : ustring :=
  js "From my own instructions, restated each turn so I keep them in mind. The person did not write this.".
Definition REMINDER_END : ustring :=
  js "End of my restated instructions; the person's message follows separately.".
Definition MEMORY_END : ustring :=
  js "End of the remembered excerpt; the person's message follows separately.".
Definition NOTE_HEADER : ustring :=
  js "From the application this conversation runs in, about the next message. The person did not write this.".

Definition skillHeader (name : ustring) : ustring :=
  js "The " ++ name ++ js " procedure applies to what I have just been asked, so I am following it. " ++
  js "These are steps to carry out, not background " ++ [0x2014] ++
  js " where they are specific, they outrank my general approach.".

Definition nl2 : ustring := [10; 10].

(** ** Where a remembered passage is from *)

Definition SESSION_SOURCE_PREFIX : ustring := js "session:".
Definition isSessionSource (source : ustring) : bool := starts_with SESSION_SOURCE_PREFIX source.

Definition SCOPE_SOURCE_PREFIX : ustring := js "scope:".
Definition isScopeSource (source : ustring) : bool := starts_with SCOPE_SOURCE_PREFIX source.

(** What precedes the last slash, if there is one. *)
Fixpoint before_last_slash (s : ustring) : option ustring :=
  match s with
  | [] => None
  | c :: rest =>
      match before_last_slash rest with
      | Some p => Some (c :: p)
      | None => if c =? 47 then Some [] else None
      end
  end.

Definition scopeOfSource (source : ustring) : option ustring :=
  if isScopeSource source then before_last_slash (drop (length SCOPE_SOURCE_PREFIX) source)
  else None.

Definition describeScope (scope : ustring) : ustring :=
  if bool_decide (scope = js "space") then js "the team's shared memory"
  else if starts_with (js "owner:") scope then
    js "the notes " ++ drop 6 scope ++ js " shares with their agents"
  else if starts_with (js "project:") scope then
    js "project " ++ drop 8 scope ++ js "'s shared memory"
  else if starts_with (js "agents:") scope then
    js "what " ++ drop 7 scope ++ js "'s agents remember, shared among them"
  else scope.

Record Passage := { source : ustring; at_ : ustring; text : ustring; because : option ustring }.

Definition provenance (p : Passage) : ustring :=
  if isSessionSource (source p) then
    js "From a different, earlier conversation (" ++
    drop (length SESSION_SOURCE_PREFIX) (source p) ++ js "), on " ++ at_ p ++
    js ". It is not part of this conversation: use it as background, and do not continue its task unless asked to:"
  else
    match scopeOfSource (source p) with
    | Some scope => js "From " ++ describeScope scope ++ js ", noted " ++ at_ p ++ js ":"
    | None => js "From " ++ source p ++ js ", learned " ++ at_ p ++ js ":"
    end.

Definition because_line (p : Passage) : ustring :=
  match because p with
  | Some b => if blank b then [] else [10] ++ js "Found via the earlier reply: " ++ trim b
  | None => []
  end.

(** ** Input *)

Record Skill := { sk_name : ustring; sk_content : ustring; sk_role : Role }.

Record AssembleInput := {
  identity : ustring; toolBlocks : list ContextBlock; configSummary : option ustring;
  examples : option ustring; volatile : option ustring; skills : list Skill;
  knowledge : list (ustring * ustring); memory : list Passage; reminder : option ustring;
  note : option ustring; ai_input : ustring; inputImages : nat; lastError : option ustring;
  ai_history : list ChatMessage; ai_protectedTail : option Z; traceAfterInput : bool;
  window : Z; reserveOutput : Z }.

Record AssembledContext := {
  blocks : list ContextBlock; totalTokens : Z; ac_promptBudget : Z; droppedMessages : Z }.

(** A returned prompt, or the error naming the blocks no slot of the ordering took. *)
Inductive Assembled := AOk (c : AssembledContext) | AThrow (missing : list ContextBlock).

Definition block (s : Slot) (r : Role) (c : ustring) (p : bool) (l : ustring) : ContextBlock :=
  {| slot := s; b_role := r; b_content := c; pinned := p; b_tokens := estimateMessageTokens c;
     label := l; b_message := None; b_images := 0 |}.

Definition IMAGE_TOKENS : Z := 1600.

(** A block of present, non-blank text. *)
Definition when_text (t : option ustring) (f : ustring -> ContextBlock) : list ContextBlock :=
  match t with Some c => if blank c then [] else [f c] | None => [] end.

(** A block of present, non-empty text. *)
Definition when_any (t : option ustring) (f : ustring -> ContextBlock) : list ContextBlock :=
  match t with None | Some [] => [] | Some c => [f c] end.

Definition inputBlock (i : AssembleInput) : ContextBlock :=
  let plain := block SInput RUser (ai_input i) true (js "input") in
  match inputImages i with
  | O => plain
  | n =>
      {| slot := slot plain; b_role := b_role plain; b_content := b_content plain;
         pinned := pinned plain; b_tokens := b_tokens plain + IMAGE_TOKENS * Z.of_nat n;
         label := label plain; b_message := Some (plain_message RUser (ai_input i));
         b_images := n |}
  end.

Definition skill_block (s : Skill) : ContextBlock :=
  block SSkill (sk_role s) (skillHeader (sk_name s) ++ nl2 ++ sk_content s) false
    (js "skill:" ++ sk_name s).

Definition memory_block (p : Passage) : ContextBlock :=
  block SMemory RUser
    (js "# Remembered" ++ nl2 ++ provenance p ++ because_line p ++ nl2 ++ text p ++ nl2 ++ MEMORY_END)
    false (js "memory:" ++ source p).

(** The blocks that are not history, in the order the code pushes them. *)
Definition pinned_blocks (i : AssembleInput) : list ContextBlock :=
  when_text (Some (identity i)) (fun c => block SIdentity RSystem c true (js "identity")) ++
  toolBlocks i ++
  when_text (configSummary i) (fun c => block SConfig RSystem c true (js "configuration")) ++
  when_text (examples i) (fun c => block SExamples RUser c true (js "workspace-examples")) ++
  when_text (volatile i) (fun c =>
    block SVolatile RUser (VOLATILE_HEADER ++ nl2 ++ c ++ nl2 ++ VOLATILE_END) true
      (js "workspace-volatile")) ++
  map skill_block (List.filter (fun s => negb (blank (sk_content s))) (skills i)) ++
  map (fun k => block SKnowledge RSystem k.2 false (js "knowledge:" ++ k.1))
    (List.filter (fun k => negb (blank k.2)) (knowledge i)) ++
  map memory_block (List.filter (fun p => negb (blank (text p))) (memory i)) ++
  when_text (reminder i) (fun c =>
    block SReminder RUser (REMINDER_HEADER ++ nl2 ++ c ++ nl2 ++ REMINDER_END) true
      (js "workspace-reminder")) ++
  when_any (note i) (fun c => block SNote RSystem (NOTE_HEADER ++ nl2 ++ c) true (js "note")) ++
  [inputBlock i] ++
  when_any (lastError i) (fun c =>
    block SError RSystem (js "Last error: " ++ c) true (js "last-error")).

Definition blockTokens (l : list ContextBlock) : Z := foldr (fun b n => b_tokens b + n) 0 l.

(** ** History *)

Definition tail_from (i : AssembleInput) : nat :=
  Z.to_nat (Z.max 0 (zlen (ai_history i) -
    Z.max 0 (Z.min (default 0 (ai_protectedTail i)) (zlen (ai_history i))))).

(** The walk, newest first: what is kept, and how many older messages are dropped. *)
Fixpoint walk (newest_first : list ChatMessage) (tailFrom : nat) (remaining : Z)
  (kept : list ChatMessage) : list ChatMessage * nat :=
  match newest_first with
  | [] => (kept, 0%nat)
  | m :: older =>
      if (remaining <? cost m) && (length older <? tailFrom)%nat then (kept, S (length older))
      else walk older tailFrom (remaining - cost m) (m :: kept)
  end.

(** The requests of the dropped range, newest first, while the ceiling allows. *)
Fixpoint rescue (newest_first : list ChatMessage) (ceiling spent : Z) (rescued : list ChatMessage)
  : list ChatMessage :=
  match newest_first with
  | [] => rescued
  | m :: older =>
      if ceiling <? spent + cost m then rescued
      else rescue older ceiling (spent + cost m) (m :: rescued)
  end.

Definition prompt_budget (i : AssembleInput) : Z := Z.max 1 (window i - reserveOutput i).
Definition ceiling_of (i : AssembleInput) : Z := Z.max (prompt_budget i) (window i).

(** What the prompt keeps of the history, and how many messages it loses. *)
Definition select_history (i : AssembleInput) : list ChatMessage * Z :=
  let pinnedTokens := blockTokens (pinned_blocks i) in
  let '(kept, dropped) :=
    walk (rev (ai_history i)) (tail_from i) (prompt_budget i - pinnedTokens) [] in
  let rescued :=
    rescue (rev (requests (take dropped (ai_history i)))) (ceiling_of i)
      (pinnedTokens + historyTokens kept) [] in
  (rescued ++ kept, Z.of_nat dropped - zlen rescued).

Definition history_block (m : ChatMessage) : ContextBlock :=
  {| slot := SHistory; b_role := role m; b_content := content m; pinned := false;
     b_tokens := cost m; label := js "history"; b_message := Some m; b_images := 0 |}.

(** ** Emission *)

Definition in_slot (s : Slot) (l : list ContextBlock) : list ContextBlock :=
  List.filter (fun b => bool_decide (slot b = s)) l.

Definition leading : list Slot := [SIdentity; STools; SConfig; SExamples; SVolatile; SSkill; SKnowledge].
Definition trailing : list Slot := [SReminder; SMemory; SNote; SInput].
Definition listed (s : Slot) : bool := bool_decide (s ∈ leading ++ trailing ++ [SError]).

Definition trace_count (i : AssembleInput) (hb : list ContextBlock) : nat :=
  if traceAfterInput i then
    Z.to_nat (Z.min (zlen hb) (Z.max 0 (default 0 (ai_protectedTail i))))
  else 0.

Definition emit (ps prior trace : list ContextBlock) : list ContextBlock :=
  concat (map (fun s => in_slot s ps) leading) ++ prior ++
  concat (map (fun s => in_slot s ps) trailing) ++ trace ++ in_slot SError ps.

Definition assembleContext (i : AssembleInput) : Assembled :=
  let ps := pinned_blocks i in
  let '(kept, lost) := select_history i in
  let hb := map history_block kept in
  let cut := (length hb - trace_count i hb)%nat in
  let bs := emit ps (take cut hb) (drop cut hb) in
  if (length bs =? length ps + length hb)%nat then
    AOk {| blocks := bs; totalTokens := blockTokens bs; ac_promptBudget := prompt_budget i;
           droppedMessages := lost |}
  else AThrow (List.filter (fun b => negb (listed (slot b))) ps).

(** ** What is sent *)

(** A message of the request; [w_turnInput] and [w_breakpoint] are the harness's own markers. *)
Record WireMessage := {
  w_message : ChatMessage; w_images : nat; w_turnInput : bool; w_breakpoint : bool }.

Fixpoint last_index (p : ContextBlock -> bool) (l : list ContextBlock) (n : nat) : option nat :=
  match l with
  | [] => None
  | b :: rest =>
      match last_index p rest (S n) with
      | Some k => Some k
      | None => if p b then Some n else None
      end
  end.

Definition static_block (b : ContextBlock) : bool := slot_number (slot b) <=? slot_number SExamples.
Definition is_slot (s : Slot) (b : ContextBlock) : bool := bool_decide (slot b = s).

Definition messagesOf (bs : list ContextBlock) : list WireMessage :=
  let lastStatic := last_index static_block bs 0 in
  let skill := last_index (is_slot SSkill) bs 0 in
  imap (fun index b =>
    {| w_message := default (plain_message (b_role b) (b_content b)) (b_message b);
       w_images := b_images b;
       w_turnInput := is_slot SInput b;
       w_breakpoint := bool_decide (Some index = lastStatic) || bool_decide (Some index = skill) |})
    bs.

Definition recount (b : ContextBlock) : ContextBlock :=
  {| slot := slot b; b_role := b_role b; b_content := b_content b; pinned := pinned b;
     b_tokens := estimateMessageTokens (b_content b); label := label b; b_message := b_message b;
     b_images := b_images b |}.

Definition reassemble (bs : list ContextBlock) (budget dropped : Z) : AssembledContext :=
  let counted := map recount bs in
  {| blocks := counted; totalTokens := blockTokens counted; ac_promptBudget := budget;
     droppedMessages := dropped |}.

(** ** Reports *)

Record SlotLine := { sl_slot : Z; sl_label : ustring; sl_tokens : Z; sl_pinned : bool }.

(** [bySlot.set] on a new slot, or adding to the slot's line. *)
Fixpoint add_line (b : ContextBlock) (l : list SlotLine) : list SlotLine :=
  match l with
  | [] => [ {| sl_slot := slot_number (slot b); sl_label := label b; sl_tokens := b_tokens b;
               sl_pinned := pinned b |} ]
  | x :: rest =>
      if sl_slot x =? slot_number (slot b) then
        {| sl_slot := sl_slot x; sl_label := sl_label x; sl_tokens := sl_tokens x + b_tokens b;
           sl_pinned := sl_pinned x |} :: rest
      else x :: add_line b rest
  end.

(** [Array.prototype.sort] is stable. *)
Fixpoint insert_line (x : SlotLine) (l : list SlotLine) : list SlotLine :=
  match l with
  | [] => [x]
  | y :: rest => if sl_slot x <=? sl_slot y then x :: l else y :: insert_line x rest
  end.
Definition sort_lines (l : list SlotLine) : list SlotLine := foldr insert_line [] l.

Definition slotReport (bs : list ContextBlock) : list SlotLine :=
  sort_lines (fold_left (fun l b => add_line b l) bs []).

Definition historyKind (b : ContextBlock) : ustring :=
  match b_message b with
  | Some m =>
      match origin m with
      | Some OObservation => js "tool results"
      | Some OCall => js "tool calls"
      | Some ORepair => js "repairs"
      | Some ODigest => js "digests"
      | None =>
          match b_role b with
          | RTool => js "tool results" | RUser => js "what you said" | _ => js "assistant replies"
          end
      end
  | None =>
      match b_role b with
      | RTool => js "tool results" | RUser => js "what you said" | _ => js "assistant replies"
      end
  end.

(** ** Activation *)

Section Activate.
Context {T : Type} (entry_tokens : T -> Z).

Fixpoint activate_from (ranked : list T) (maxActive : nat) (budget : option Z) (spent : Z) : list T :=
  match ranked, maxActive with
  | [], _ | _, O => []
  | e :: rest, S n =>
      if match budget with Some b => b <? spent + entry_tokens e | None => false end then []
      else e :: activate_from rest n budget (spent + entry_tokens e)
  end.
Definition activate (ranked : list T) (maxActive : nat) (budget : option Z) : list T :=
  activate_from ranked maxActive budget 0.
End Activate.

(** ** What is kept of the history *)

Lemma historyTokens_snoc h m : historyTokens (h ++ [m]) = historyTokens h + cost m.
Proof. rewrite historyTokens_app. cbn. lia. Qed.

Lemma historyTokens_rev h : historyTokens (rev h) = historyTokens h.
Proof.
  induction h as [|m h IH]; [done|]. cbn [rev]. rewrite historyTokens_snoc, IH.
  change (historyTokens (m :: h)) with (cost m + historyTokens h). lia.
Qed.

(** The walk keeps a suffix: all of the tail, beyond it only what fits, and no less than fits. *)
Lemma walk_spec tf l : forall r kept k d,
  walk l tf r kept = (k, d) ->
  k = drop d (rev l) ++ kept /\ (d <= length l)%nat /\ (d <= tf)%nat /\
  ((d < tf)%nat -> (d < length l)%nat -> historyTokens (drop d (rev l)) <= r) /\
  ((0 < d)%nat -> r < historyTokens (drop (d - 1) (rev l))).
Proof.
  induction l as [|m l IH]; intros r kept k d H; cbn [walk] in H.
  { injection H as <- <-. cbn. split_and!; try done; try lia. }
  cbn [rev length]. destruct ((r <? cost m) && (length l <? tf)%nat) eqn:Hstop.
  - injection H as <- <-. apply andb_true_iff in Hstop as [Hr%Z.ltb_lt Htf%Nat.ltb_lt].
    replace (S (length l) - 1)%nat with (length l) by lia.
    rewrite drop_ge by (rewrite length_app, length_rev; cbn; lia).
    rewrite drop_app_le, drop_ge by (rewrite length_rev; lia). cbn [app].
    split_and!; try done; try lia. intros _. cbn. lia.
  - destruct (IH _ _ _ _ H) as (-> & Hd & Hdt & Hfit & Hmax).
    rewrite !drop_app_le by (rewrite length_rev; lia). rewrite <- app_assoc, !historyTokens_snoc.
    split_and!; try done; try lia.
    intros Hlt _. destruct (decide (d < length l)%nat) as [Hlt'|Hge].
    + specialize (Hfit Hlt Hlt'). lia.
    + rewrite drop_ge by (rewrite length_rev; lia). cbn [historyTokens foldr].
      apply andb_false_iff in Hstop as [?%Z.ltb_ge|?%Nat.ltb_ge]; lia.
Qed.

(** The rescue takes the newest requests while they pass under the ceiling, and no fewer. *)
Lemma rescue_spec c l : forall spent acc, exists n,
  rescue l c spent acc = rev (take n l) ++ acc /\
  spent + historyTokens (take n l) <= Z.max spent c /\
  (take n l = l \/ exists m, l !! n = Some m /\ c < spent + historyTokens (take n l) + cost m).
Proof.
  induction l as [|m l IH]; intros spent acc; cbn [rescue].
  { exists 0%nat. cbn. split_and!; [done|lia|by left]. }
  destruct (Z.ltb_spec c (spent + cost m)) as [Hlt|Hge].
  { exists 0%nat. cbn. split_and!; [done|lia|right]. exists m. split; [done|lia]. }
  destruct (IH (spent + cost m) (m :: acc)) as (n & -> & Hc & Hn). exists (S n).
  cbn [take rev]. rewrite <- app_assoc.
  change (historyTokens (m :: take n l)) with (cost m + historyTokens (take n l)).
  split_and!; [done|lia|]. destruct Hn as [->|(m' & Hm & Hn)]; [by left|right].
  exists m'. split; [done|lia].
Qed.

Lemma rev_take_suffix {A} (l : list A) n m :
  rev l !! n = Some m -> (m :: rev (take n (rev l))) `suffix_of` l.
Proof.
  intros Hm. exists (rev (drop (S n) (rev l))). trans (rev (rev l)); [by rewrite rev_involutive|].
  rewrite <- (take_drop_middle (rev l) n m Hm) at 1. rewrite rev_app_distr. cbn [rev].
  by rewrite <- !app_assoc.
Qed.

Lemma tail_from_le i : (tail_from i <= length (ai_history i))%nat.
Proof. unfold tail_from. lia. Qed.

(** ** Nothing built is lost *)

Definition of_slots (order : list Slot) (l : list ContextBlock) : list ContextBlock :=
  List.filter (fun b => bool_decide (slot b ∈ order)) l.

Lemma in_slots_cons b l order : NoDup order ->
  concat (map (fun s => in_slot s (b :: l)) order) ≡ₚ
  (if bool_decide (slot b ∈ order) then [b] else []) ++ concat (map (fun s => in_slot s l) order).
Proof.
  induction order as [|s order IH]; intros Hnd; [done|].
  apply NoDup_cons in Hnd as [Hs Hnd]. specialize (IH Hnd). cbn [map concat]. rewrite IH.
  unfold in_slot at 1. cbn [List.filter]. fold (in_slot s l).
  destruct (decide (slot b = s)) as [->|Hne].
  - rewrite (bool_decide_eq_true_2 (s = s)), (bool_decide_eq_false_2 (s ∈ order)) by done.
    rewrite bool_decide_eq_true_2 by by left. done.
  - rewrite (bool_decide_eq_false_2 (slot b = s)) by done.
    assert (bool_decide (slot b ∈ s :: order) = bool_decide (slot b ∈ order)) as ->.
    { apply bool_decide_ext. rewrite elem_of_cons. tauto. }
    solve_Permutation.
Qed.

Lemma in_slots_filter l order : NoDup order ->
  concat (map (fun s => in_slot s l) order) ≡ₚ of_slots order l.
Proof.
  intros Hnd. induction l as [|b l IH].
  { clear Hnd. induction order as [|s order IH]; [done|]. by cbn. }
  rewrite in_slots_cons, IH by done. unfold of_slots. cbn [List.filter].
  by destruct (bool_decide _).
Qed.

(** The blocks some slot of the ordering takes, and only those. *)
Lemma emit_perm ps prior trace :
  emit ps prior trace ≡ₚ of_slots (leading ++ trailing ++ [SError]) ps ++ prior ++ trace.
Proof.
  rewrite <- in_slots_filter by (apply (bool_decide_unpack _); done).
  rewrite !map_app, !concat_app. cbn [map concat]. rewrite app_nil_r. unfold emit.
  solve_Permutation.
Qed.

Lemma blockTokens_perm a b : a ≡ₚ b -> blockTokens a = blockTokens b.
Proof. unfold blockTokens. induction 1; cbn; lia. Qed.

Lemma blockTokens_app a b : blockTokens (a ++ b) = blockTokens a + blockTokens b.
Proof. unfold blockTokens. induction a as [|x a IH]; [done|]. cbn in *. lia. Qed.

Lemma blockTokens_history h : blockTokens (map history_block h) = historyTokens h.
Proof. unfold blockTokens, historyTokens. induction h as [|m h IH]; [done|]. cbn in *. lia. Qed.

Lemma filter_all {A} (p : A -> bool) l :
  (length (List.filter p l) =? length l)%nat = forallb p l.
Proof.
  induction l as [|x l IH]; [done|]. cbn. destruct (p x); cbn; [done|].
  pose proof (filter_length_le p l). apply Nat.eqb_neq. cbn. lia.
Qed.

Lemma forallb_filter_id {A} (p : A -> bool) l : forallb p l = true -> List.filter p l = l.
Proof.
  induction l as [|x l IH]; [done|]. cbn. intros [-> H]%andb_true_iff. by rewrite IH.
Qed.

(** What holds of every block the assembly itself builds holds of all but the catalogue's. *)
Lemma when_text_all q t f :
  (forall c, q (f c) = true) -> forallb q (when_text t f) = true.
Proof. intros H. destruct t as [c|]; [|done]. cbn. destruct (blank c); [done|]. cbn. by rewrite H. Qed.

Lemma when_any_all q t f :
  (forall c, q (f c) = true) -> forallb q (when_any t f) = true.
Proof. intros H. destruct t as [[|c t]|]; [done| |done]. cbn. by rewrite H. Qed.

Lemma map_all {A} q (f : A -> ContextBlock) l :
  (forall x, q (f x) = true) -> forallb q (map f l) = true.
Proof. intros H. induction l as [|x l IH]; [done|]. cbn. by rewrite H. Qed.

Lemma pinned_listed i :
  forallb (fun b => listed (slot b)) (pinned_blocks i) =
  forallb (fun b => listed (slot b)) (toolBlocks i).
Proof.
  unfold pinned_blocks. rewrite !forallb_app.
  rewrite !when_text_all, !when_any_all, !map_all by done.
  cbn [andb]. rewrite andb_true_r. unfold inputBlock. destruct (inputImages i); cbn;
    by rewrite ?andb_true_r.
Qed.

Lemma pinned_no_error i :
  lastError i = None -> Forall (fun b => slot b = STools) (toolBlocks i) ->
  in_slot SError (pinned_blocks i) = [].
Proof.
  intros He Ht. assert (forallb (fun b => negb (is_slot SError b)) (pinned_blocks i) = true) as H.
  - unfold pinned_blocks. rewrite He, !forallb_app.
    rewrite !when_text_all, !when_any_all, !map_all by done.
    assert (forallb (fun b => negb (is_slot SError b)) (toolBlocks i) = true) as ->.
    { induction Ht as [|b l Hb Ht IH]; [done|]. cbn. unfold is_slot in *. by rewrite Hb, IH. }
    unfold inputBlock. by destruct (inputImages i).
  - unfold in_slot. induction (pinned_blocks i) as [|b l IH]; [done|]. cbn in *.
    apply andb_true_iff in H as [Hb%negb_true_iff H]. unfold is_slot in Hb. rewrite Hb. by apply IH.
Qed.

(** Assembly fails exactly when a catalogue block names a slot outside the ordering, and then
    names those blocks. Otherwise it sends every block it built and every history message it
    selected, nothing twice, and the total is the sum of what the pinned blocks and the kept
    messages cost. *)
Theorem assembly_complete (i : AssembleInput) :
  let ps := pinned_blocks i in
  let '(kept, lost) := select_history i in
  match assembleContext i with
  | AOk c =>
      forallb (fun b => listed (slot b)) (toolBlocks i) = true /\
      blocks c ≡ₚ ps ++ map history_block kept /\
      totalTokens c = blockTokens ps + historyTokens kept /\
      ac_promptBudget c = prompt_budget i /\ droppedMessages c = lost
  | AThrow missing =>
      forallb (fun b => listed (slot b)) (toolBlocks i) = false /\
      missing = List.filter (fun b => negb (listed (slot b))) ps
  end.
Proof.
  intros ps. unfold assembleContext. fold ps. destruct (select_history i) as [kept lost].
  set (hb := map history_block kept). set (cut := (length hb - trace_count i hb)%nat).
  pose proof (emit_perm ps (take cut hb) (drop cut hb)) as Hp. rewrite take_drop in Hp.
  assert ((length (emit ps (take cut hb) (drop cut hb)) =? length ps + length hb)%nat =
    forallb (fun b => listed (slot b)) (toolBlocks i)) as ->.
  { rewrite Hp, length_app. rewrite <- pinned_listed. fold ps. rewrite <- filter_all.
    apply eq_true_iff_eq. rewrite !Nat.eqb_eq. unfold of_slots, listed. lia. }
  destruct (forallb _ (toolBlocks i)) eqn:Hl; [|done]. cbn [blocks totalTokens ac_promptBudget droppedMessages].
  rewrite <- pinned_listed in Hl. fold ps in Hl.
  change (of_slots _ ps) with (List.filter (fun b => listed (slot b)) ps) in Hp.
  rewrite (forallb_filter_id _ ps Hl) in Hp.
  split_and!; try done. rewrite (blockTokens_perm _ _ Hp), blockTokens_app. f_equal.
  apply blockTokens_history.
Qed.

(** The history blocks of a prompt that is assembled are the selected messages, in their order. *)
Lemma in_slots_foreign s ps order : forallb (fun b => listed (slot b)) ps = true -> listed s = false ->
  List.filter (is_slot s) (concat (map (fun s' => in_slot s' ps) order)) = [].
Proof.
  intros Hps Hs. induction order as [|s' order IH]; [done|]. cbn [map concat]. rewrite List.filter_app, IH, app_nil_r.
  clear IH. induction ps as [|b ps IH]; [done|]. cbn [forallb] in Hps. apply andb_true_iff in Hps as [Hb Hps]. unfold in_slot. cbn [List.filter].
  fold (in_slot s' ps). destruct (bool_decide (slot b = s')); [|by apply IH]. cbn [List.filter]. rewrite IH by done.
  unfold is_slot at 1. case_bool_decide as E; [congruence|done].
Qed.

Lemma assembled_history i c kept lost : select_history i = (kept, lost) -> assembleContext i = AOk c ->
  List.filter (is_slot SHistory) (blocks c) = map history_block kept /\ droppedMessages c = lost.
Proof.
  intros Hsel Hc. pose proof (assembly_complete i) as Hl. rewrite Hsel, Hc in Hl. destruct Hl as [Hl _]. unfold assembleContext in Hc. rewrite Hsel in Hc.
  set (hb := map history_block kept) in *. set (cut := (length hb - trace_count i hb)%nat) in *.
  destruct (_ =? _)%nat; [|done]. injection Hc as <-. cbn [blocks droppedMessages]. split; [|done].
  rewrite <- pinned_listed in Hl. unfold emit. rewrite !List.filter_app, !in_slots_foreign by done.
  change (in_slot SError (pinned_blocks i)) with (([] ++ in_slot SError (pinned_blocks i))). rewrite <- (app_nil_r (in_slot SError _)).
  change ([] ++ in_slot SError (pinned_blocks i) ++ []) with (concat (map (fun s => in_slot s (pinned_blocks i)) [SError])).
  rewrite in_slots_foreign, app_nil_r by done. cbn [app].
  assert (forall l, List.filter (is_slot SHistory) (map history_block l) = map history_block l) as Hh
    by (induction l as [|m l IH]; [done|]; cbn; by rewrite IH).
  rewrite <- List.filter_app, take_drop. apply Hh.
Qed.

(** What is selected. *)
Lemma selection_spec (i : AssembleInput) :
  let h := ai_history i in
  let pinnedTokens := blockTokens (pinned_blocks i) in
  exists d rescued,
    select_history i = (rescued ++ drop d h, zlen h - zlen (rescued ++ drop d h)) /\
    (d <= tail_from i)%nat /\
    ((d < tail_from i)%nat -> pinnedTokens + historyTokens (drop d h) <= prompt_budget i) /\
    ((0 < d)%nat -> prompt_budget i < pinnedTokens + historyTokens (drop (d - 1) h)) /\
    rescued `suffix_of` requests (take d h) /\
    pinnedTokens + historyTokens (rescued ++ drop d h) <=
      Z.max (pinnedTokens + historyTokens (drop d h)) (ceiling_of i) /\
    (rescued = requests (take d h) \/ exists m,
      (m :: rescued) `suffix_of` requests (take d h) /\
      ceiling_of i < pinnedTokens + historyTokens (m :: rescued ++ drop d h)).
Proof.
  intros h pt. unfold select_history. fold pt h.
  destruct (walk (rev h) (tail_from i) (prompt_budget i - pt) []) as [kept d] eqn:Ew.
  apply walk_spec in Ew as (-> & Hd & Hdt & Hfit & Hmax).
  rewrite rev_involutive, app_nil_r in *. rewrite length_rev in Hd.
  destruct (rescue_spec (ceiling_of i) (rev (requests (take d h))) (pt + historyTokens (drop d h)) [])
    as (n & -> & Hc & Hn). rewrite app_nil_r.
  set (l := requests (take d h)) in *. set (r := rev (take n (rev l))).
  assert (r = drop (length l - n) l) as Hr by (unfold r; by rewrite firstn_rev, rev_involutive).
  exists d, r. split_and!.
  - f_equal. rewrite length_app, length_drop. lia.
  - done.
  - intros Hlt. pose proof (tail_from_le i). specialize (Hfit Hlt). rewrite length_rev in Hfit.
    unfold h in *. lia.
  - intros H0. specialize (Hmax H0). lia.
  - rewrite Hr. apply suffix_drop.
  - rewrite historyTokens_app. unfold r. rewrite historyTokens_rev. lia.
  - destruct Hn as [Hall|(m & Em & Hnext)].
    + left. unfold r. by rewrite Hall, rev_involutive.
    + right. exists m. split.
      * by apply rev_take_suffix.
      * rewrite app_comm_cons, historyTokens_app. unfold r.
        change (m :: rev (take n (rev l))) with ([m] ++ rev (take n (rev l))).
        rewrite historyTokens_app, historyTokens_rev. change (historyTokens [m]) with (cost m + 0). lia.
Qed.

(** C28. The prompt keeps a contiguous end of the history, the protected tail always within it, and
    ahead of it the newest requests of what was dropped. The end fits the prompt budget unless it is
    the protected tail itself, and one message more would not fit. Requests are rescued from the
    newest back, only up to the ceiling, until none is left or the next does not fit (older ones that
    would fit are lost with it). When the prompt is assembled, its history blocks are exactly these
    messages, in their order, and the loss it reports is what it lacks of the history. *)
Theorem history_selected (i : AssembleInput) :
  let h := ai_history i in
  let pinnedTokens := blockTokens (pinned_blocks i) in
  exists d rescued,
    select_history i = (rescued ++ drop d h, zlen h - zlen (rescued ++ drop d h)) /\
    (d <= tail_from i)%nat /\
    ((d < tail_from i)%nat -> pinnedTokens + historyTokens (drop d h) <= prompt_budget i) /\
    ((0 < d)%nat -> prompt_budget i < pinnedTokens + historyTokens (drop (d - 1) h)) /\
    rescued `suffix_of` requests (take d h) /\
    pinnedTokens + historyTokens (rescued ++ drop d h) <=
      Z.max (pinnedTokens + historyTokens (drop d h)) (ceiling_of i) /\
    (rescued = requests (take d h) \/ exists m,
      (m :: rescued) `suffix_of` requests (take d h) /\
      ceiling_of i < pinnedTokens + historyTokens (m :: rescued ++ drop d h)) /\
    (forall c, assembleContext i = AOk c ->
      List.filter (is_slot SHistory) (blocks c) = map history_block (rescued ++ drop d h) /\
      droppedMessages c = zlen h - zlen (rescued ++ drop d h)).
Proof.
  intros h pt. destruct (selection_spec i) as (d & r & Hsel & H1 & H2 & H3 & H4 & H5 & H6). exists d, r. split_and!; try done.
  intros c. by apply assembled_history.
Qed.

(** ** A step only appends *)

(** The input of the turn's next step: the trace has grown by [new], and nothing else changed. *)
Definition with_trace (i : AssembleInput) (new : list ChatMessage) : AssembleInput :=
  {| identity := identity i; toolBlocks := toolBlocks i; configSummary := configSummary i;
     examples := examples i; volatile := volatile i; skills := skills i;
     knowledge := knowledge i; memory := memory i; reminder := reminder i; note := note i;
     ai_input := ai_input i; inputImages := inputImages i; lastError := lastError i;
     ai_history := ai_history i ++ new;
     ai_protectedTail := Some (default 0 (ai_protectedTail i) + zlen new);
     traceAfterInput := traceAfterInput i; window := window i;
     reserveOutput := reserveOutput i |}.

Lemma with_trace_pinned i new : pinned_blocks (with_trace i new) = pinned_blocks i.
Proof. done. Qed.

(** A history that fits is kept whole. *)
Lemma select_all i :
  blockTokens (pinned_blocks i) + historyTokens (ai_history i) <= prompt_budget i ->
  select_history i = (ai_history i, 0).
Proof.
  intros Hfit. unfold select_history.
  destruct (walk _ _ _ _) as [kept d] eqn:Ew.
  apply walk_spec in Ew as (-> & _ & _ & _ & Hmax). rewrite rev_involutive, app_nil_r in *.
  destruct (decide (d = 0%nat)) as [->|Hd]; [done|]. specialize (Hmax ltac:(lia)).
  assert (historyTokens (drop (d - 1) (ai_history i)) <= historyTokens (ai_history i)); [|lia].
  rewrite <- (take_drop (d - 1) (ai_history i)) at 2. rewrite historyTokens_app.
  pose proof (historyTokens_nonneg (take (d - 1) (ai_history i))). lia.
Qed.

Lemma last_index_app p a b n :
  forallb (fun x => negb (p x)) b = true -> last_index p (a ++ b) n = last_index p a n.
Proof.
  intros Hb. revert n. induction a as [|x a IH]; intros n; cbn [app last_index].
  - revert n. induction b as [|y b IH]; intros n; [done|]. cbn in *.
    apply andb_true_iff in Hb as [Hy%negb_true_iff Hb]. by rewrite (IH Hb), Hy.
  - by rewrite IH.
Qed.

Lemma map_imap_const {A B C} (g : B -> C) (f : nat -> A -> B) (k : A -> C) l :
  (forall n x, g (f n x) = k x) -> map g (imap f l) = map k l.
Proof.
  revert f. induction l as [|x l IH]; intros f H; [done|]. rewrite imap_cons. cbn [map].
  rewrite H. f_equal. apply IH. intros n y. apply H.
Qed.

Lemma map_history_blocks h :
  map (fun b => default (plain_message (b_role b) (b_content b)) (b_message b))
    (map history_block h) = h.
Proof. induction h as [|m h IH]; [done|]. cbn. by rewrite IH. Qed.

(** Messages after the static slots and the skill move no breakpoint. *)
Lemma messagesOf_app bs h : exists more,
  messagesOf (bs ++ map history_block h) = messagesOf bs ++ more /\ map w_message more = h.
Proof.
  unfold messagesOf. rewrite !last_index_app by (induction h; done). rewrite imap_app.
  eexists. split; [done|]. etrans; [|apply map_history_blocks]. by apply map_imap_const.
Qed.

(** The blocks ahead of the trace, and the trace at the end. *)
Lemma assemble_after i k :
  traceAfterInput i = true -> lastError i = None ->
  Forall (fun b => slot b = STools) (toolBlocks i) ->
  ai_protectedTail i = Some (Z.of_nat k) -> (k <= length (ai_history i))%nat ->
  blockTokens (pinned_blocks i) + historyTokens (ai_history i) <= prompt_budget i ->
  let ps := pinned_blocks i in
  let n := (length (ai_history i) - k)%nat in
  assembleContext i = AOk {|
    blocks := concat (map (fun s => in_slot s ps) leading) ++
              map history_block (take n (ai_history i)) ++
              concat (map (fun s => in_slot s ps) trailing) ++
              map history_block (drop n (ai_history i));
    totalTokens := blockTokens ps + historyTokens (ai_history i);
    ac_promptBudget := prompt_budget i; droppedMessages := 0 |}.
Proof.
  intros Ha He Ht Hk Hlen Hfit ps n. unfold assembleContext. rewrite (select_all i Hfit). fold ps.
  assert (forallb (fun b => listed (slot b)) (toolBlocks i) = true) as Hl.
  { clear -Ht. induction Ht as [|b l Hb Ht IH]; [done|]. cbn. by rewrite Hb. }
  rewrite <- pinned_listed in Hl. fold ps in Hl.
  set (hb := map history_block (ai_history i)).
  assert (length hb - trace_count i hb = n)%nat as ->.
  { unfold trace_count, hb. rewrite Ha, Hk, length_map. cbn [from_option id]. unfold n. lia. }
  pose proof (emit_perm ps (take n hb) (drop n hb)) as Hp. rewrite take_drop in Hp.
  change (of_slots _ ps) with (List.filter (fun b => listed (slot b)) ps) in Hp.
  rewrite (forallb_filter_id _ ps Hl) in Hp.
  assert ((length (emit ps (take n hb) (drop n hb)) =? length ps + length hb)%nat = true) as ->
    by (apply Nat.eqb_eq; by rewrite Hp, length_app).
  do 2 f_equal.
  - unfold emit. unfold ps at 3. rewrite (pinned_no_error i He Ht), app_nil_r.
    unfold hb. by rewrite firstn_map, skipn_map.
  - rewrite (blockTokens_perm _ _ Hp), blockTokens_app. f_equal. apply blockTokens_history.
Qed.

(** C37. A step only appends. Take an input of the assembly whose trace comes after the turn's input,
    with no error note, all blocks of the tool catalogue in the tools slot, a protected tail within the
    history, and room for the pinned blocks and the whole history; and assemble again with the same
    input but for [new] messages more at the end of its history and in its tail. Both prompts are
    assembled, and the second sends exactly the messages of the first, markers included, and then
    [new] in order: nothing a cached prefix or a signed thinking block depends on moves. (An error
    note, a change of phase, tools or memory, or a compaction between the steps is not covered: the
    error note stays behind the trace, so what was ahead of it moves.) *)
Theorem step_only_appends (i : AssembleInput) (new : list ChatMessage) (k : nat)
  (Hafter : traceAfterInput i = true) (Herr : lastError i = None)
  (Htools : Forall (fun b => slot b = STools) (toolBlocks i))
  (Htail : ai_protectedTail i = Some (Z.of_nat k)) (Hk : (k <= length (ai_history i))%nat)
  (Hfit : blockTokens (pinned_blocks i) + historyTokens (ai_history i ++ new) <= prompt_budget i) :
  exists c c' more, assembleContext i = AOk c /\ assembleContext (with_trace i new) = AOk c' /\
    messagesOf (blocks c') = messagesOf (blocks c) ++ more /\ map w_message more = new /\
    totalTokens c' = totalTokens c + historyTokens new.
Proof.
  pose proof (historyTokens_nonneg new) as Hnew. pose proof Hfit as Hfit'.
  rewrite historyTokens_app in Hfit'.
  pose proof (assemble_after i k Hafter Herr Htools Htail Hk ltac:(lia)) as Hc.
  assert (Hc' := assemble_after (with_trace i new) (k + length new) Hafter Herr Htools).
  specialize (Hc' ltac:(cbn; rewrite Htail; cbn; f_equal; lia)).
  specialize (Hc' ltac:(cbn; rewrite length_app; lia) Hfit).
  rewrite with_trace_pinned in Hc'. cbn [with_trace ai_history] in Hc'.
  rewrite length_app in Hc'.
  replace (length (ai_history i) + length new - (k + length new))%nat
    with (length (ai_history i) - k)%nat in Hc' by lia.
  set (n := (length (ai_history i) - k)%nat) in *.
  rewrite take_app_le, drop_app_le, map_app, historyTokens_app in Hc' by lia.
  pose (front := concat (map (fun s => in_slot s (pinned_blocks i)) leading) ++
    map history_block (take n (ai_history i)) ++
    concat (map (fun s => in_slot s (pinned_blocks i)) trailing) ++
    map history_block (drop n (ai_history i))).
  destruct (messagesOf_app front new) as (more & Hmore & Hnewm).
  eexists _, _, more. split; [exact Hc|]. split; [exact Hc'|]. cbn [blocks totalTokens].
  split_and!; [|done|lia]. etrans; [|exact Hmore]. f_equal. unfold front.
  by rewrite <- !app_assoc.
Qed.

(** ** Blocks a middleware returns *)

(** A middleware that rewrites the text of each block and leaves the rest alone. *)
Definition edit (f : ustring -> ustring) (b : ContextBlock) : ContextBlock :=
  {| slot := slot b; b_role := b_role b; b_content := f (b_content b); pinned := pinned b;
     b_tokens := b_tokens b; label := label b; b_message := b_message b; b_images := b_images b |}.

Lemma Forall2_imap {A B C} (R : A -> C -> Prop) (g : A -> B) (f : nat -> B -> C) l :
  (forall n x, R x (f n (g x))) -> Forall2 R l (imap f (map g l)).
Proof.
  revert f. induction l as [|x l IH]; intros f H; [constructor|]. cbn [map].
  rewrite imap_cons. constructor; [apply H|]. apply IH. intros n y. apply H.
Qed.

(** The total of a reassembled prompt is the sum of what its blocks' texts cost, whatever
    counts the middleware returned; reassembling twice changes nothing; and every block the
    assembly composed itself sends the text the middleware gave it. *)
Theorem reassemble_recounts (bs : list ContextBlock) (f : ustring -> ustring) (budget dropped : Z) :
  let c := reassemble (map (edit f) bs) budget dropped in
  totalTokens c = foldr (fun b n => estimateMessageTokens (f (b_content b)) + n) 0 bs /\
  reassemble (blocks c) budget dropped = c /\
  Forall2 (fun b w => b_message b = None -> content (w_message w) = f (b_content b))
    bs (messagesOf (blocks c)).
Proof.
  intros c. split_and!.
  - unfold c, reassemble. cbn [totalTokens]. unfold blockTokens.
    induction bs as [|b bs IH]; [done|]. cbn in *. lia.
  - unfold c, reassemble. cbn [blocks]. rewrite !map_map. done.
  - unfold c, reassemble. cbn [blocks]. rewrite map_map. apply Forall2_imap.
    intros n b Hb. cbn. by rewrite Hb.
Qed.

(** A history message is sent as it was, whatever text the middleware put on its block: the
    block still carries the message, and the message is what is sent. *)
Theorem edited_history_sent_unedited (h : list ChatMessage) (f : ustring -> ustring)
  (budget dropped : Z) :
  map w_message (messagesOf (blocks (reassemble (map (edit f) (map history_block h)) budget dropped)))
  = h.
Proof.
  etrans; [|apply map_history_blocks]. unfold reassemble. cbn [blocks]. rewrite !map_map.
  unfold messagesOf.
  rewrite (map_imap_const w_message _
    (fun b => default (plain_message (b_role b) (b_content b)) (b_message b))) by done.
  by rewrite map_map.
Qed.

Lemma estimateTokens_pos c t : 0 < estimateTokens (c :: t).
Proof.
  unfold estimateTokens, count_char.
  assert (1 <= (zlen (c :: t) * 5 + 18) / 19) by (apply Z.div_le_lower_bound; cbn; lia). lia.
Qed.

(** Recounting an untouched history block forgets the calls its message carries. *)
Lemma recount_forgets_calls m c calls :
  toolCalls m = Some (c :: calls) -> b_tokens (recount (history_block m)) < b_tokens (history_block m).
Proof.
  intros Hm. cbn [recount history_block b_tokens b_content]. unfold cost. rewrite Hm.
  change (stringify (JArr (map call_json (c :: calls)))) with
    (91 :: join [44] (map stringify (map call_json (c :: calls))) ++ [93]).
  pose proof (estimateTokens_pos 91 (join [44] (map stringify (map call_json (c :: calls))) ++ [93])).
  lia.
Qed.

(** ** The report *)

Definition linesTokens (l : list SlotLine) : Z := foldr (fun x n => sl_tokens x + n) 0 l.

Lemma add_line_tokens b l : linesTokens (add_line b l) = linesTokens l + b_tokens b.
Proof.
  unfold linesTokens. induction l as [|x l IH]; cbn; [lia|].
  destruct (sl_slot x =? slot_number (slot b)); cbn; lia.
Qed.

Lemma add_line_slots b l z :
  z ∈ map sl_slot (add_line b l) <-> z ∈ map sl_slot l \/ z = slot_number (slot b).
Proof.
  induction l as [|x l IH]; cbn; [rewrite list_elem_of_singleton, elem_of_nil; tauto|].
  destruct (Z.eqb_spec (sl_slot x) (slot_number (slot b))) as [E|E]; cbn; rewrite !elem_of_cons.
  - rewrite E. tauto.
  - rewrite IH. tauto.
Qed.

Lemma add_line_NoDup b l : NoDup (map sl_slot l) -> NoDup (map sl_slot (add_line b l)).
Proof.
  induction l as [|x l IH]; cbn; intros Hnd.
  { apply NoDup_singleton. }
  destruct (Z.eqb_spec (sl_slot x) (slot_number (slot b))) as [E|E]; [done|].
  cbn. apply NoDup_cons in Hnd as [Hx Hnd]. apply NoDup_cons. split; [|by apply IH].
  rewrite add_line_slots. intros [?|?]; done.
Qed.

Lemma insert_line_perm x l : insert_line x l ≡ₚ x :: l.
Proof.
  induction l as [|y l IH]; [done|]. cbn. destruct (sl_slot x <=? sl_slot y); [done|].
  rewrite IH. apply Permutation_swap.
Qed.

Lemma sort_lines_perm l : sort_lines l ≡ₚ l.
Proof. induction l as [|x l IH]; [done|]. cbn. by rewrite insert_line_perm, IH. Qed.

Definition in_order (l : list SlotLine) : Prop := Sorted (fun x y => sl_slot x <= sl_slot y) l.

Lemma insert_line_sorted x l : in_order l -> in_order (insert_line x l).
Proof.
  unfold in_order. induction 1 as [|y l Hl IH Hy]; cbn; [repeat constructor|].
  destruct (Z.leb_spec (sl_slot x) (sl_slot y)) as [Hle|Hgt].
  - constructor; [by constructor|by constructor].
  - constructor; [done|]. destruct Hy as [|z l Hz]; cbn; [constructor; lia|].
    destruct (sl_slot x <=? sl_slot z); constructor; lia.
Qed.

Lemma sort_lines_sorted l : in_order (sort_lines l).
Proof. induction l as [|x l IH]; [constructor|]. by apply insert_line_sorted. Qed.

Lemma linesTokens_perm a b : a ≡ₚ b -> linesTokens a = linesTokens b.
Proof. unfold linesTokens. induction 1; cbn; lia. Qed.

(** The slot report counts every block's tokens once, has one line per slot that any block
    occupies, and lists the slots in their order. *)
Theorem slotReport_accounts (bs : list ContextBlock) :
  linesTokens (slotReport bs) = blockTokens bs /\
  NoDup (map sl_slot (slotReport bs)) /\
  (forall z, z ∈ map sl_slot (slotReport bs) <-> exists b, b ∈ bs /\ slot_number (slot b) = z) /\
  in_order (slotReport bs).
Proof.
  unfold slotReport. set (l := fold_left _ bs []).
  assert (Hfold : forall bs acc, NoDup (map sl_slot acc) ->
    linesTokens (fold_left (fun l b => add_line b l) bs acc) = linesTokens acc + blockTokens bs /\
    NoDup (map sl_slot (fold_left (fun l b => add_line b l) bs acc)) /\
    forall z, z ∈ map sl_slot (fold_left (fun l b => add_line b l) bs acc) <->
      z ∈ map sl_slot acc \/ exists b, b ∈ bs /\ slot_number (slot b) = z).
  { clear. intros bs. induction bs as [|b bs IH]; intros acc Hnd; cbn [fold_left].
    { split_and!; [cbn; lia|done|]. intros z. split; [by left|].
      intros [?|(b & Hb & _)]; [done|by apply not_elem_of_nil in Hb]. }
    change (blockTokens (b :: bs)) with (b_tokens b + blockTokens bs).
    destruct (IH (add_line b acc) (add_line_NoDup _ _ Hnd)) as (H1 & H2 & H3).
    split_and!; [rewrite H1, add_line_tokens; lia|done|].
    intros z. rewrite H3, add_line_slots. split.
    - intros [[?| ->]|(x & Hx & <-)]; [by left|right; exists b; by split; [left|]|].
      right. exists x. by split; [right|].
    - intros [?|(x & [->|Hx]%elem_of_cons & <-)]; [by left; left|by left; right|].
      right. by exists x. }
  destruct (Hfold bs [] (NoDup_nil_2)) as (H1 & H2 & H3). fold l in H1, H2, H3.
  rewrite (linesTokens_perm _ _ (sort_lines_perm l)), H1. split_and!; [done| | |].
  - by rewrite (sort_lines_perm l).
  - intros z. rewrite (sort_lines_perm l), H3. split; [|by right].
    intros [Hz%not_elem_of_nil|?]; [destruct Hz|done].
  - apply sort_lines_sorted.
Qed.

(** ** What is activated *)

Section Activate_facts.
Context {T : Type} (entry_tokens : T -> Z).

Definition entriesTokens (l : list T) : Z := foldr (fun e n => entry_tokens e + n) 0 l.

Lemma activate_from_spec ranked : forall n budget spent,
  exists rest, ranked = activate_from entry_tokens ranked n budget spent ++ rest /\
    (length (activate_from entry_tokens ranked n budget spent) <= n)%nat /\
    (forall b, budget = Some b -> activate_from entry_tokens ranked n budget spent <> [] ->
       spent + entriesTokens (activate_from entry_tokens ranked n budget spent) <= b) /\
    match rest with
    | [] => True
    | e :: _ => length (activate_from entry_tokens ranked n budget spent) = n \/
        exists b, budget = Some b /\
          b < spent + entriesTokens (activate_from entry_tokens ranked n budget spent) + entry_tokens e
    end.
Proof.
  induction ranked as [|e ranked IH]; intros n budget spent.
  { exists []. split_and!; [done|cbn; lia|done|done]. }
  destruct n as [|n]; [exists (e :: ranked); cbn; split_and!; [done|lia|done|by left]|].
  cbn [activate_from].
  destruct (match budget with Some b => b <? spent + entry_tokens e | None => false end) eqn:Hb.
  { exists (e :: ranked). split_and!; [done|cbn; lia|done|]. right.
    destruct budget as [b|]; [|done]. apply Z.ltb_lt in Hb. exists b. cbn. split; [done|lia]. }
  destruct (IH n budget (spent + entry_tokens e)) as (rest & H1 & H2 & H3 & H4). exists rest.
  set (a := activate_from entry_tokens ranked n budget (spent + entry_tokens e)) in *.
  change (entriesTokens (e :: a)) with (entry_tokens e + entriesTokens a).
  split_and!; [by rewrite H1 at 1|cbn; lia| |].
  - intros b -> _. apply Z.ltb_ge in Hb. destruct a as [|x a'] eqn:Ea; [cbn; lia|].
    specialize (H3 b eq_refl ltac:(done)). lia.
  - destruct rest as [|x rest]; [done|]. destruct H4 as [H4|(b & Hbb & H4)];
      [left; cbn; lia|right]. exists b. split; [done|lia].
Qed.
End Activate_facts.

(** What is activated is the front of the ranking: at most [maxActive] entries, within the
    budget, and stopping only where the next entry would pass one of the two limits. *)
Theorem activate_takes_front {T} (entry_tokens : T -> Z) (ranked : list T) (n : nat)
  (budget : option Z) :
  exists rest, ranked = activate entry_tokens ranked n budget ++ rest /\
    (length (activate entry_tokens ranked n budget) <= n)%nat /\
    (forall b, budget = Some b -> activate entry_tokens ranked n budget <> [] ->
       entriesTokens entry_tokens (activate entry_tokens ranked n budget) <= b) /\
    match rest with
    | [] => True
    | e :: _ => length (activate entry_tokens ranked n budget) = n \/
        exists b, budget = Some b /\
          b < entriesTokens entry_tokens (activate entry_tokens ranked n budget) + entry_tokens e
    end.
Proof. exact (activate_from_spec entry_tokens ranked n budget 0). Qed.

(** ** At a concrete input *)

Definition sample_input : AssembleInput :=
  {| identity := js "You are a helper."; toolBlocks := [block STools RSystem (js "Tools: none.") true (js "tools")];
     configSummary := None; examples := None; volatile := Some (js "The person is Ada."); skills := [];
     knowledge := [(js "shop", js "Opens at nine.")]; memory := []; reminder := Some (js "Be brief.");
     note := None; ai_input := js "When does it open?"; inputImages := 0; lastError := None;
     ai_history := [plain_message RUser (js "hello"); plain_message RAssistant (js "Hi.");
                    with_origin OCall (plain_message RAssistant (js "Looking it up."))];
     ai_protectedTail := Some 1; traceAfterInput := true; window := 4000; reserveOutput := 1000 |}.

Definition sample_trace : list ChatMessage :=
  [with_origin OObservation (plain_message RUser (js "OBSERVATION shop ok"))].

Lemma step_only_appends_witness :
  exists c c' more, assembleContext sample_input = AOk c /\
    assembleContext (with_trace sample_input sample_trace) = AOk c' /\
    messagesOf (blocks c') = messagesOf (blocks c) ++ more /\ map w_message more = sample_trace /\
    totalTokens c' = totalTokens c + historyTokens sample_trace.
Proof.
  apply (step_only_appends sample_input sample_trace 1); [done|done| |done|cbn; lia|].
  - by repeat constructor.
  - by vm_compute.
Defined.

(** A prompt too small for its history: the oldest reply goes, the request before it stays. *)
Example history_selected_sample :
  let i := {| identity := []; toolBlocks := []; configSummary := None; examples := None;
              volatile := None; skills := []; knowledge := []; memory := []; reminder := None;
              note := None; ai_input := js "and now?"; inputImages := 0; lastError := None;
              ai_history := [plain_message RUser (js "one"); plain_message RAssistant (repeat 97 200);
                             plain_message RAssistant (js "two")];
              ai_protectedTail := None; traceAfterInput := true; window := 40; reserveOutput := 20 |} in
  select_history i =
    ([plain_message RUser (js "one"); plain_message RAssistant (js "two")], 1).
Proof. by vm_compute. Qed.
