(* ===== verification/Dialect.v ===== *)
(** * The dialect seam: [tools/dialect/dialect.ts]

    What a dialect is to the loop: how a step's output is read, and how the calls it made, their
    results and their errors are written back into the conversation. *)
From S2P Require Import Prelude UString Kinds Trust Json Tools Messages.
Local Open Scope Z_scope.

Record StepOutput := { so_text : ustring; so_calls : list ToolCallRequest }.

(** No [malformed] list is the empty one. *)
Record ParsedOutput := {
  parsed_intents : list ToolIntent; parsed_text : ustring; malformed : list FieldError }.

Record Dialect := {
  parse : StepOutput -> ParsedOutput;
  renderCall : StepOutput -> ChatMessage;
  renderObservation : list ToolResult -> list ChatMessage;
  renderRepair : list FieldError -> StepOutput -> list ChatMessage }.

(** ** The stream filter *)

(** A filter is a state and what each of its calls shows. *)
Record StreamFilter := {
  sf_state : Type; sf_push : sf_state -> ustring -> ustring * sf_state;
  sf_endStep : sf_state -> ustring * sf_state; sf_end : sf_state -> ustring; sf_start : sf_state }.

(** For a dialect with no protocol in its text: nothing is held back. *)
Definition passThroughFilter : StreamFilter :=
  {| sf_state := unit; sf_push := fun st delta => (delta, st); sf_endStep := fun st => ([], st);
     sf_end := fun _ => []; sf_start := tt |}.
