(* ===== verification/Nlt.v ===== *)
(** * The natural-language dialect's grammar: [tools/dialect/nlt.ts]

    The line machine that reads invocation blocks out of a model's text, the damage it can see in
    a value, and what a step's text is read as. A block the machine refers back to after closing
    it ([severedPending]) is named by its place among the closed blocks. *)
From S2P Require Import Prelude UString Regex Trust Json JsonParse Tools Messages Dialect.
Local Open Scope Z_scope.

(** ** The lines of the grammar *)

Definition HEREDOC_OPEN : ustring := js "<<<".
Definition HEREDOC_CLOSE : ustring := js ">>>".

Definition spaces : regex := RStar space.
Definition digit : regex := RSet is_digit.
Definition bullet : regex := RSet (fun c => (c =? 45) || (c =? 42) || (c =? 43)).
Definition dot_or_paren : regex := RSet (fun c => (c =? 46) || (c =? 41)).
Definition list_marker : regex := RAlt bullet (plus digit +++ dot_or_paren).

(** The group that ends a line: the rest of it, when nothing in it is a line break. *)
Definition rest_of_line (s : ustring) : option ustring :=
  if existsb line_end s then None else Some s.
Definition some_rest (s : ustring) : option ustring :=
  match s with [] => None | _ => rest_of_line s end.

(** [ACTION_LINE.exec(line)?.[1]]. *)
Definition ACTION_LINE : regex :=
  RStart +++ spaces +++ opt (list_marker +++ plus space) +++ opt (chr 60 +++ spaces) +++
  liti "action" +++ spaces +++ chr 58.
Definition action_rest (line : ustring) : option ustring :=
  m ACTION_LINE None line (fun _ s => some_rest s).
Definition is_action (line : ustring) : bool := bool_decide (is_Some (action_rest line)).

(** [KEY_LINE.exec(line)]: the name and what follows its colon. *)
Definition name_start (c : Z) : bool := is_alpha c || (c =? 95).
Definition name_char (c : Z) : bool := is_word c || (c =? 46) || (c =? 45).
Definition key_first : regex := RSet name_start.
Definition key_more : regex := RSet name_char.
Definition key_marker : regex :=
  opt (RAlt (bullet +++ plus space) (plus digit +++ dot_or_paren +++ plus space)).
Definition key_line (line : ustring) : option (ustring * ustring) :=
  m (RStart +++ spaces +++ key_marker) None line (fun p from =>
      m (key_first +++ RLazy key_more) p from (fun p' upto =>
        m (spaces +++ chr 58) p' upto (fun _ s =>
          value ← rest_of_line s; Some (take (length from - length upto) from, value)))).

Definition FENCE_LINE : regex :=
  RStart +++ spaces +++ lit "```" +++ RStar (chr 96) +++ spaces +++
  opt (plus (RSet (fun c => is_word c || (c =? 43) || (c =? 45))) +++ spaces) +++ REnd.
Definition END_LINE : regex := RStart +++ spaces +++ liti "end" +++ spaces +++ REnd.
Definition XML_OPEN : regex :=
  RStart +++ spaces +++ chr 60 +++ spaces +++ liti "action" +++ spaces +++ chr 62 +++ spaces +++ REnd.
Definition XML_CLOSE : regex :=
  RStart +++ spaces +++ chr 60 +++ spaces +++ chr 47 +++ spaces +++ liti "action" +++ spaces +++
  chr 62 +++ spaces +++ REnd.
Definition LONE_TAG : regex :=
  RStart +++ spaces +++ chr 60 +++ opt (chr 47) +++ spaces +++ key_first +++
  RStar (RSet (fun c => is_word c || (c =? 46) || (c =? 58) || (c =? 45))) +++ spaces +++
  opt (chr 47 +++ spaces) +++ chr 62 +++ spaces +++ REnd.

(** What follows [ACTION:], trimmed, one closing bracket dropped. *)
Definition actionSlug (raw : ustring) : ustring :=
  let t := trim raw in if ends_with [62] t then trim_end (removelast t) else t.

Fixpoint dropLeading (chars text : ustring) : ustring :=
  match text with
  | c :: rest => if includes_char c chars then dropLeading chars rest else text
  | [] => []
  end.
Definition dropTrailing (chars text : ustring) : ustring := rev (dropLeading chars (rev text)).

(** Backtick, quotes, star and a bracket; then a full stop and its like. *)
Definition cleanSlug (raw : ustring) : ustring :=
  trim (dropTrailing (js ".,;:")
    (dropTrailing [96; 39; 34; 42; 62] (dropLeading [96; 39; 34; 42; 60] raw))).

Example action_lines :
  map (fun s => (cleanSlug ∘ actionSlug) <$> action_rest (js s))
    ["ACTION: glob"; "- action : `file_read`"; "1. <ACTION: glob>"; "12)  Action:x"; "the ACTION: x"; "ACTION:"]%string =
  [Some (js "glob"); Some (js "file_read"); Some (js "glob"); Some (js "x"); None; None].
Proof. by vm_compute. Qed.

(** A full stop after the closing backtick keeps the backtick: the two trailing sets are dropped
    once each, in the wrong order for it. *)
Lemma backtick_kept :
  (cleanSlug (js "`glob`"), cleanSlug (js "`glob`.")) = (js "glob", js "glob`").
Proof. by vm_compute. Qed.

Example key_lines :
  map (fun s => key_line (js s))
    ["path: a b"; " - max.items :5"; "lsof -nP -iTCP:7420"; "http://x"; "2) q:"; ": x"]%string =
  [Some (js "path", js " a b"); Some (js "max.items", js "5"); None; Some (js "http", js "//x");
   Some (js "q", []); None].
Proof. by vm_compute. Qed.

(** ** Blocks *)

Record Block := {
  b_slug : ustring; fields : list (ustring * list ustring); wrapped : list ustring;
  severed : list ustring }.

Record ParseState := {
  block : option Block; openKey : option ustring; severedKey : option ustring;
  severedPending : option (nat * ustring); heredocKey : option ustring;
  heredocLines : list ustring; justClosed : bool; awaitingSlug : bool; p_text : list ustring;
  p_blocks : list Block }.

Definition newState : ParseState :=
  {| block := None; openKey := None; severedKey := None; severedPending := None; heredocKey := None;
     heredocLines := []; justClosed := false; awaitingSlug := false; p_text := []; p_blocks := [] |}.

Definition new_block (slug : ustring) : Block :=
  {| b_slug := slug; fields := []; wrapped := []; severed := [] |}.

(** *** Updates of the state *)

Definition set_keys (ok sk hk : option ustring) (hl : list ustring) (st : ParseState) : ParseState :=
  {| block := block st; openKey := ok; severedKey := sk; severedPending := severedPending st;
     heredocKey := hk; heredocLines := hl; justClosed := justClosed st;
     awaitingSlug := awaitingSlug st; p_text := p_text st; p_blocks := p_blocks st |}.
Definition set_block (b : option Block) (st : ParseState) : ParseState :=
  {| block := b; openKey := openKey st; severedKey := severedKey st;
     severedPending := severedPending st; heredocKey := heredocKey st;
     heredocLines := heredocLines st; justClosed := justClosed st;
     awaitingSlug := awaitingSlug st; p_text := p_text st; p_blocks := p_blocks st |}.
Definition set_flags (jc aw : bool) (st : ParseState) : ParseState :=
  {| block := block st; openKey := openKey st; severedKey := severedKey st;
     severedPending := severedPending st; heredocKey := heredocKey st;
     heredocLines := heredocLines st; justClosed := jc; awaitingSlug := aw; p_text := p_text st;
     p_blocks := p_blocks st |}.
Definition set_pending (sp : option (nat * ustring)) (st : ParseState) : ParseState :=
  {| block := block st; openKey := openKey st; severedKey := severedKey st; severedPending := sp;
     heredocKey := heredocKey st; heredocLines := heredocLines st; justClosed := justClosed st;
     awaitingSlug := awaitingSlug st; p_text := p_text st; p_blocks := p_blocks st |}.
Definition set_blocks (bs : list Block) (st : ParseState) : ParseState :=
  {| block := block st; openKey := openKey st; severedKey := severedKey st;
     severedPending := severedPending st; heredocKey := heredocKey st;
     heredocLines := heredocLines st; justClosed := justClosed st;
     awaitingSlug := awaitingSlug st; p_text := p_text st; p_blocks := bs |}.
Definition push_text (line : ustring) (st : ParseState) : ParseState :=
  {| block := block st; openKey := openKey st; severedKey := severedKey st;
     severedPending := severedPending st; heredocKey := heredocKey st;
     heredocLines := heredocLines st; justClosed := justClosed st;
     awaitingSlug := awaitingSlug st; p_text := p_text st ++ [line]; p_blocks := p_blocks st |}.

(** [push(block, key, value)]. *)
Fixpoint add_field (key value : ustring) (l : list (ustring * list ustring))
  : list (ustring * list ustring) :=
  match l with
  | [] => [(key, [value])]
  | (k, vs) :: rest =>
      if bool_decide (k = key) then (k, vs ++ [value]) :: rest else (k, vs) :: add_field key value rest
  end.
Definition push_field (key value : ustring) (b : Block) : Block :=
  {| b_slug := b_slug b; fields := add_field key value (fields b); wrapped := wrapped b;
     severed := severed b |}.
Definition wrap_key (key : ustring) (b : Block) : Block :=
  {| b_slug := b_slug b; fields := fields b; wrapped := wrapped b ++ [key]; severed := severed b |}.
Definition sever_key (key : ustring) (b : Block) : Block :=
  {| b_slug := b_slug b; fields := fields b; wrapped := wrapped b; severed := severed b ++ [key] |}.

(** The last value of a field, extended by a continuation line. *)
Definition extend_last (line : ustring) (vs : list ustring) : list ustring :=
  match last vs with
  | None => vs
  | Some v => removelast vs ++ [match v with [] => line | _ => v ++ 10 :: line end]
  end.
Fixpoint extend_field (key line : ustring) (l : list (ustring * list ustring))
  : list (ustring * list ustring) :=
  match l with
  | [] => []
  | (k, vs) :: rest =>
      if bool_decide (k = key) then (k, extend_last line vs) :: rest
      else (k, vs) :: extend_field key line rest
  end.
Definition continue_field (key line : ustring) (b : Block) : Block :=
  {| b_slug := b_slug b; fields := extend_field key line (fields b); wrapped := wrapped b;
     severed := severed b |}.

Definition drop_last_empty (l : list ustring) : list ustring :=
  match last l with Some [] => removelast l | _ => l end.

Definition closeHeredoc (st : ParseState) : ParseState :=
  match block st, heredocKey st with
  | Some b, Some key =>
      set_keys (openKey st) (severedKey st) None []
        (set_block (Some (wrap_key key (push_field key (join [10] (drop_last_empty (heredocLines st))) b))) st)
  | _, _ => st
  end.

Definition closeBlock (st : ParseState) : ParseState :=
  let st := closeHeredoc st in
  let st := match block st with Some b => set_blocks (p_blocks st ++ [b]) st | None => st end in
  set_flags (justClosed st) false (set_keys None (severedKey st) (heredocKey st) (heredocLines st)
    (set_block None st)).

Definition open_block (slug : ustring) (st : ParseState) : ParseState :=
  match slug with [] => st | _ => set_block (Some (new_block slug)) st end.

(** ** One line *)

(** [fenceIsDecoration] is the grammar's lookahead, asked only outside a block. *)
Definition consume_heredoc (key line : ustring) (st : ParseState) : ParseState :=
  let trimmed := trim line in
  if bool_decide (trimmed = HEREDOC_CLOSE) then closeHeredoc st
  else if test END_LINE trimmed then
    let st := closeBlock st in set_flags true (awaitingSlug st) st
  else
    match action_rest line with
    | Some r => open_block (cleanSlug (actionSlug r)) (closeBlock st)
    | None => set_keys (openKey st) (severedKey st) (Some key) (heredocLines st ++ [line]) st
    end.

Definition consume_slug (line : ustring) (st : ParseState) : ParseState :=
  let trimmed := trim line in
  if bool_decide (trimmed = []) then st
  else if test XML_CLOSE line then set_flags (justClosed st) false st
  else open_block (cleanSlug trimmed) (set_flags (justClosed st) false st).

Definition consume_prose (line : ustring) (fenceIsDecoration : bool) (st : ParseState) : ParseState :=
  let trimmed := trim line in
  if test FENCE_LINE line && (justClosed st || fenceIsDecoration) then
    set_flags false (awaitingSlug st) st
  else
    match (if test END_LINE trimmed then severedPending st else None) with
    | Some (k, key) => set_pending None (set_blocks (alter (sever_key key) k (p_blocks st)) st)
    | None =>
        let st := if is_action line then set_pending None st else st in
        let st := push_text line st in
        if bool_decide (trimmed = []) then st else set_flags false (awaitingSlug st) st
    end.

Definition consume_field (b : Block) (line : ustring) (st : ParseState) : ParseState :=
  let trimmed := trim line in
  if bool_decide (trimmed = []) then
    set_keys None (match openKey st with Some k => Some k | None => severedKey st end)
      (heredocKey st) (heredocLines st) st
  else if test END_LINE trimmed then
    let st := closeBlock (set_keys (openKey st) None (heredocKey st) (heredocLines st) st) in
    set_flags true (awaitingSlug st) st
  else if test FENCE_LINE line then st
  else
    match key_line line with
    | Some (k, v) =>
        let key := trim k in
        let value := trim v in
        if bool_decide (value = HEREDOC_OPEN) then set_keys None None (Some key) [] st
        else set_keys (Some key) None (heredocKey st) (heredocLines st)
               (set_block (Some (push_field key value b)) st)
    | None =>
        match openKey st with
        | Some key => set_block (Some (continue_field key trimmed b)) st
        | None =>
            let st :=
              match severedKey st with
              | Some key =>
                  set_pending (Some (length (p_blocks st), key))
                    (set_keys (openKey st) None (heredocKey st) (heredocLines st) st)
              | None => st
              end in
            push_text line (closeBlock st)
        end
    end.

Definition consumeLine (st : ParseState) (line : ustring) (fenceIsDecoration : bool) : ParseState :=
  match heredocKey st with
  | Some key => consume_heredoc key line st
  | None =>
      match action_rest line with
      | Some r => open_block (cleanSlug (actionSlug r)) (closeBlock st)
      | None =>
          if test XML_OPEN line then
            let st := closeBlock st in set_flags (justClosed st) true st
          else if awaitingSlug st then consume_slug line st
          else if test XML_CLOSE line then
            match block st with
            | Some _ => let st := closeBlock st in set_flags true (awaitingSlug st) st
            | None => st
            end
          else if test LONE_TAG line then st
          else
            match block st with
            | None => consume_prose line fenceIsDecoration st
            | Some b => consume_field b line st
            end
      end
  end.

(** ** Damage *)

Definition at_line_end (s : ustring) : bool :=
  match s with [] => true | c :: _ => line_end c end.
Definition at_line_start (prev : option Z) : bool :=
  match prev with None => true | Some c => line_end c end.

(** The first position, in order, where [f] finds something. *)
Fixpoint search {A} (f : option Z -> ustring -> option A) (prev : option Z) (s : ustring) : option A :=
  match f prev s with
  | Some x => Some x
  | None => match s with [] => None | c :: s' => search f (Some c) s' end
  end.

Definition word_first : regex := RSet (fun c => is_alpha c || (c =? 95)).
Definition word_more : regex := RSet (fun c => is_alpha c || is_digit c || (c =? 95)).

(** A terminator word, between the same quotes or none, at the end of its line. *)
Definition terminator_in (quote : regex) (prev : option Z) (s : ustring) : option ustring :=
  m quote prev s (fun p from =>
    m (word_first +++ RStar word_more) p from (fun p' upto =>
      m (quote +++ spaces) p' upto (fun _ rest =>
        if at_line_end rest then Some (take (length from - length upto) from) else None))).

Definition heredoc_here (prev : option Z) (s : ustring) : option ustring :=
  m (lit "<<" +++ opt (chr 45)) prev s (fun p t =>
    m spaces p t (fun p u =>
      match terminator_in (chr 39) p u with
      | Some w => Some w
      | None =>
          match terminator_in (chr 34) p u with
          | Some w => Some w
          | None => terminator_in REps p u
          end
      end)).

(** [SHELL_HEREDOC.exec(value)?.[2]]. *)
Definition shell_heredoc (value : ustring) : option ustring := search heredoc_here None value.

(** The terminator on a line of its own. *)
Definition terminated (word value : ustring) : bool :=
  bool_decide (is_Some (search (fun prev s =>
    if at_line_start prev then
      m (spaces +++ word_re chr word +++ spaces) prev s (fun _ rest => if at_line_end rest then Some tt else None)
    else None) None value)).

Inductive Damage := Unwrapped | Unterminated | Severed.

Definition damage (value : ustring) (is_wrapped is_severed : bool) : option Damage :=
  if match shell_heredoc value with Some word => negb (terminated word value) | None => false end
  then Some Unterminated
  else if negb is_wrapped && includes_char 10 value then Some Unwrapped
  else if is_severed then Some Severed
  else None.

Example damage_samples :
  (damage (js "python3 - <<'PY'") false false, damage (js "echo $((1 << n))") false false,
   damage (js "cat <<EOF" ++ [10] ++ js "x" ++ [10] ++ js "EOF") true false,
   damage (js "a" ++ [10] ++ js "b") false true, damage (js "./deploy") false true,
   damage (js "cat <<-'A' ") true true) =
  (Some Unterminated, None, None, Some Unwrapped, Some Severed, Some Unterminated).
Proof. by vm_compute. Qed.

Definition damageError (field : ustring) (kind : Damage) : FieldError :=
  {| fe_field := field;
     fe_message :=
       match kind with
       | Unwrapped => js "spans several lines but was not wrapped, so its line breaks and indentation could not be kept."
       | Unterminated => js "opens a heredoc whose terminator never arrived, so the value was cut short."
       | Severed => js "was cut short by a blank line, and everything after it was read as the reply rather than as part of the value."
       end;
     fe_hint :=
       js "Write a value that spans lines between " ++ HEREDOC_OPEN ++ js " and " ++ HEREDOC_CLOSE ++
       js ", each on its own line: " ++ [96] ++ field ++ js ": " ++ HEREDOC_OPEN ++ [96] ++
       js ", then the value exactly as it should be, then " ++ [96] ++ HEREDOC_CLOSE ++ [96] ++
       js ". Everything between them is kept byte for byte, blank lines and indentation included. Nothing was executed, so writing the call again is safe." |}.

Definition block_damage (b : Block) : list FieldError :=
  concat (map (fun kv : ustring * list ustring =>
    omap (fun value =>
      (fun kind => damageError kv.1 kind) <$>
        damage value (bool_decide (kv.1 ∈ wrapped b)) (bool_decide (kv.1 ∈ severed b))) kv.2)
    (fields b)).

(** ** Calls in a format that cannot be read *)

Definition multiline (r : regex) (to_end : bool) (text : ustring) : bool :=
  bool_decide (is_Some (search (fun prev s =>
    if at_line_start prev then
      m r prev s (fun _ rest => if negb to_end || at_line_end rest then Some tt else None)
    else None) None text)).

Definition alts (f : string -> regex) (l : list string) : regex :=
  match rev l with
  | [] => REps
  | x :: xs => fold_left (fun acc y => RAlt (f y) acc) xs (f x)
  end.
Definition quote_mark : regex := RSet (fun c => (c =? 34) || (c =? 39)).
Definition not_quote : regex := RSet (fun c => negb ((c =? 34) || (c =? 39))).
Definition not_close : regex := RSet (fun c => negb (c =? 62)).

Definition closing_call_tag : regex :=
  chr 60 +++ chr 47 +++ spaces +++
  RAlt (liti "tool_call" +++ opt (chri 115))
    (RAlt (liti "toolcall" +++ opt (chri 115))
      (RAlt (liti "tool") (RAlt (liti "function_call") (RAlt (liti "function") (RAlt (liti "invoke")
        (RAlt (liti "action") (RAlt (liti "parameter" +++ opt (chri 115))
          (RAlt (liti "param" +++ opt (chri 115)) (RAlt (liti "argument" +++ opt (chri 115))
            (liti "arg" +++ opt (chri 115))))))))))) +++
  spaces +++ chr 62.
Definition vendor_calls_begin : regex :=
  liti "tool" +++ RSet (fun c => (c =? 0x2581) || (c =? 95)) +++ liti "call" +++ opt (chri 115) +++
  RSet (fun c => (c =? 0x2581) || (c =? 95)) +++ liti "begin".
Definition bare_json_call : regex :=
  spaces +++ chr 123 +++ spaces +++ chr 34 +++ alts lit ["name"; "tool"; "tool_name"; "function"]%string +++
  chr 34 +++ spaces +++ chr 58.
Definition opening_call_tag : regex :=
  spaces +++ chr 60 +++ spaces +++
  alts liti ["invoke"; "tool_call"; "tool_use"; "tool"; "function_call"; "function"]%string +++ RBound +++
  RStar not_close +++ RBound +++ liti "name" +++ spaces +++ chr 61 +++ spaces +++ quote_mark +++
  plus not_quote +++ quote_mark +++ RStar not_close +++ chr 62 +++ spaces.

Definition attempted_format (text : ustring) : bool :=
  test closing_call_tag text || test (lit "DSML") text || test vendor_calls_begin text ||
  multiline bare_json_call false text || multiline opening_call_tag true text.

(** Where [ACTION:] is found in a line, the matches not overlapping: whether some match has text
    before it. *)
Definition glued_mark : regex := RBound +++ lit "ACTION" +++ spaces +++ chr 58 +++ spaces +++ non_space.
Fixpoint glued_from (fuel : nat) (line : ustring) (prev : option Z) (s : ustring) : bool :=
  match fuel with
  | O => false
  | S fuel' =>
      match s with
      | [] => false
      | c :: s' =>
          match m glued_mark prev s (fun p rest => Some (p, rest)) with
          | Some (p, rest) =>
              negb (blank (take (length line - length s) line)) || glued_from fuel' line p rest
          | None => glued_from fuel' line (Some c) s'
          end
      end
  end.
Definition glued_line (line : ustring) : bool := glued_from (length line) line None line.

Fixpoint gluedAction_in (lines : list ustring) : bool :=
  match lines with
  | [] => false
  | line :: rest =>
      if glued_line line then existsb (fun l => bool_decide (trim l = js "END")) rest
      else gluedAction_in rest
  end.
Definition gluedAction (text : ustring) : bool := gluedAction_in (split_on 10 text).

Definition the_block : ustring := js "the block".

Definition attemptedCall (text : ustring) : option FieldError :=
  if gluedAction text then
    Some {| fe_field := the_block;
            fe_message := js "started in the middle of a line, so it was read as prose and nothing ran.";
            fe_hint := js "Put " ++ [96] ++ js "ACTION:" ++ [96] ++
              js " at the start of a line of its own, with nothing before it on that line, then one " ++ [96] ++
              js "name: value" ++ [96] ++ js " per line, then " ++ [96] ++ js "END" ++ [96] ++
              js " alone on its own line. Nothing was executed, so writing it again correctly is safe." |}
  else if attempted_format text then
    Some {| fe_field := the_block;
            fe_message := js "looks like a tool call written in a different format, so nothing ran.";
            fe_hint := js "Tool calls in this conversation are plain lines, not tags or JSON. Write " ++ [96] ++
              js "ACTION:" ++ [96] ++ js " then the tool name, one " ++ [96] ++ js "name: value" ++ [96] ++
              js " per line after it, then " ++ [96] ++ js "END" ++ [96] ++ js " alone on its own line " ++
              [0x2014] ++ js " exactly as the tool list shows. Nothing was executed, so writing it again correctly is safe." |}
  else None.

Example attempted_samples :
  map (fun s => bool_decide (is_Some (attemptedCall (js s))))
    ["<TOOL>glob</TOOL>"; "wrap it in an <action> element"; "{ 'name': 1 }"; "I saw DSML"; "</ PARAMS >";
     "<invoke name='incident_list'>"; "the <invoke name='x'> tag"]%string =
  [true; false; false; true; true; true; false].
Proof. by vm_compute. Qed.

(** ** The whole output *)

(** [output.split] at a carriage return, a newline, or the two together. *)
Fixpoint split_lines_acc (acc s : ustring) : list ustring :=
  match s with
  | [] => [rev acc]
  | c :: rest =>
      if c =? 13 then
        rev acc :: match rest with
                   | d :: rest' => if d =? 10 then split_lines_acc [] rest' else split_lines_acc [] rest
                   | [] => [[]]
                   end
      else if c =? 10 then rev acc :: split_lines_acc [] rest
      else split_lines_acc (c :: acc) rest
  end.
Definition split_lines (s : ustring) : list ustring := split_lines_acc [] s.

(** Whether the next line that is not blank opens a block. *)
Fixpoint nextMeaningfulIsAction (following : list ustring) : bool :=
  match following with
  | [] => false
  | line :: rest => if bool_decide (trim line = []) then nextMeaningfulIsAction rest else is_action line
  end.

Fixpoint consume_all (st : ParseState) (lines : list ustring) : ParseState :=
  match lines with
  | [] => st
  | line :: rest => consume_all (consumeLine st line (nextMeaningfulIsAction rest)) rest
  end.

Definition field_json (kv : ustring * list ustring) : ustring * json :=
  (kv.1, match kv.2 with [v] => JStr v | vs => JArr (map JStr vs) end).
Definition block_args (b : Block) : Args := obj_of (map field_json (fields b)).

(** The same call again, by its name and the text of its arguments. *)
Definition same_call (a b : Block) : bool :=
  bool_decide (b_slug a = b_slug b) &&
  bool_decide (stringify (JObj (block_args a)) = stringify (JObj (block_args b))).

(** Without the blocks that repeat the one just before them. *)
Fixpoint collapse_from (previous : option Block) (l : list Block) : list Block :=
  match l with
  | [] => []
  | b :: rest =>
      match previous with
      | Some p => if same_call b p then collapse_from (Some b) rest else b :: collapse_from (Some b) rest
      | None => b :: collapse_from (Some b) rest
      end
  end.
Definition collapsed (l : list Block) : list Block := collapse_from None l.

Definition nlt_intent (k : nat) (b : Block) : ToolIntent :=
  {| i_callId := js "c" ++ decimal (Z.of_nat (S k)); i_slug := b_slug b; i_args := block_args b |}.

Definition finish (st : ParseState) : ParsedOutput :=
  let st := closeBlock st in
  let damaged := concat (map block_damage (p_blocks st)) in
  let txt := trim (join [10] (p_text st)) in
  match imap nlt_intent (collapsed (p_blocks st)) with
  | [] =>
      {| parsed_intents := []; parsed_text := txt;
         malformed := match attemptedCall txt with Some e => [e] | None => [] end |}
  | intents => {| parsed_intents := intents; parsed_text := txt; malformed := damaged |}
  end.

Definition parseNlt (output : ustring) : ParsedOutput :=
  finish (consume_all newState (split_lines output)).

Definition one_line (s : ustring) : bool := negb (includes_char 10 s) && negb (includes_char 13 s).

Lemma split_lines_line l : forall acc rest, one_line l = true ->
  split_lines_acc acc (l ++ 10 :: rest) = (rev acc ++ l) :: split_lines rest.
Proof.
  unfold one_line, includes_char. induction l as [|c l IH]; intros acc rest H.
  - cbn. by rewrite app_nil_r.
  - rewrite andb_true_iff, !negb_true_iff in H. cbn [existsb] in H.
    destruct H as [H10 H13]. apply orb_false_iff in H10 as [Hc H10], H13 as [Hd H13].
    rewrite Z.eqb_sym in Hc, Hd. cbn [app split_lines_acc]. rewrite Hc, Hd, IH.
    + cbn [rev]. by rewrite <- app_assoc.
    + by rewrite H10, H13.
Qed.

Lemma split_lines_last l : forall acc, one_line l = true -> split_lines_acc acc l = [rev acc ++ l].
Proof.
  unfold one_line, includes_char. induction l as [|c l IH]; intros acc H.
  - cbn. by rewrite app_nil_r.
  - rewrite andb_true_iff, !negb_true_iff in H. cbn [existsb] in H.
    destruct H as [H10 H13]. apply orb_false_iff in H10 as [Hc H10], H13 as [Hd H13].
    rewrite Z.eqb_sym in Hc, Hd. cbn [split_lines_acc]. rewrite Hc, Hd, IH.
    + cbn [rev]. by rewrite <- app_assoc.
    + by rewrite H10, H13.
Qed.

Lemma split_lines_join ls : ls <> [] -> forallb one_line ls = true -> split_lines (join [10] ls) = ls.
Proof.
  induction ls as [|l ls IH]; [done|]. intros _ H. cbn [forallb] in H. apply andb_true_iff in H as [Hl H].
  destruct ls as [|l' ls].
  - cbn [join]. unfold split_lines. by rewrite split_lines_last.
  - change (join [10] (l :: l' :: ls)) with (l ++ 10 :: join [10] (l' :: ls)).
    unfold split_lines at 1. rewrite split_lines_line by done. cbn [rev app]. by rewrite IH.
Qed.

Definition lines_of (l : list string) : ustring := join [10] (map js l).

Example parse_sample :
  parseNlt (lines_of ["Looking it up."; ""; "```"; "ACTION: file_search"; "query: tea, green"; "tag: a"; "tag: b";
                      "END"; "```"; "- action: `note`"; "text: <<<"; "  one"; ""; "two"; ">>>"; ""; "Done."]%string) =
  {| parsed_intents :=
       [{| i_callId := js "c1"; i_slug := js "file_search";
           i_args := [(js "query", JStr (js "tea, green")); (js "tag", JArr [JStr (js "a"); JStr (js "b")])] |};
        {| i_callId := js "c2"; i_slug := js "note";
           i_args := [(js "text", JStr (lines_of ["  one"; ""; "two"]%string))] |}];
     parsed_text := lines_of ["Looking it up."; ""; "Done."]%string; malformed := [] |}.
Proof. by vm_compute. Qed.

(** A severed field stays pending through the next call: the [END] that follows that call's own is
    held against the first one, whose value was whole. *)
Lemma severed_outlives_call :
  let out := parseNlt (lines_of ["ACTION: exec"; "command: ls"; ""; "And now the time."; "ACTION: now"; "END"; "END"]%string) in
  map i_slug (parsed_intents out) = map js ["exec"; "now"]%string /\ map fe_field (malformed out) = [js "command"].
Proof. by vm_compute. Qed.

(** A field named [action] cannot be written: its line opens a call of its own. *)
Lemma action_field_opens_call :
  map i_slug (parsed_intents (parseNlt (lines_of ["ACTION: todo"; "action: create"; "title: x"; "END"]%string))) =
  map js ["todo"; "create"]%string.
Proof. by vm_compute. Qed.
