(* ===== verification/NltWrite.v ===== *)
(** * Writing calls the way the natural-language dialect asks

    A call written as the tool list shows it, and that the grammar of [Nlt.v] reads it back: the
    fields on one line each, or between the markers of a value that spans lines. *)
From S2P Require Import Prelude UString Regex Trust Json Number JsonParse Tools Messages Dialect Nlt.
Local Open Scope Z_scope.

(** ** Writing *)

Inductive Style := Inline | Wrapped.

Record Field := { f_key : ustring; f_style : Style; f_value : ustring }.
Record Call := { c_slug : ustring; c_fields : list Field }.

Definition write_field (f : Field) : list ustring :=
  match f_style f with
  | Inline => [f_key f ++ js ": " ++ f_value f]
  | Wrapped => [f_key f ++ js ": <<<"] ++ split_on 10 (f_value f) ++ [HEREDOC_CLOSE]
  end.
Definition write_call (c : Call) : list ustring :=
  [js "ACTION: " ++ c_slug c] ++ concat (map write_field (c_fields c)) ++ [js "END"].
Definition write_calls (l : list Call) : ustring := join [10] (concat (map write_call l)).

(** ** What may be written *)

Definition slug_ok (s : ustring) : bool :=
  negb (is_nil s) && bool_decide (cleanSlug s = s) && bool_decide (trim s = s) &&
  negb (ends_with [62] s) && negb (existsb line_end s).

Definition key_ok (k : ustring) : bool :=
  match k with c :: rest => name_start c && forallb name_char rest | [] => false end &&
  negb (bool_decide (lower k = js "action")).

Definition inline_ok (v : ustring) : bool :=
  bool_decide (trim v = v) && negb (existsb line_end v) && negb (bool_decide (v = HEREDOC_OPEN)) &&
  bool_decide (damage v false false = None).

(** A line between the markers that is neither the closing one nor the end or start of a block. *)
Definition verbatim_ok (line : ustring) : bool :=
  negb (bool_decide (trim line = HEREDOC_CLOSE)) && negb (test END_LINE (trim line)) &&
  negb (is_action line).

Definition wrapped_ok (v : ustring) : bool :=
  forallb verbatim_ok (split_on 10 v) && negb (includes_char 13 v) &&
  (is_nil v || negb (bool_decide (last (split_on 10 v) = Some []))) &&
  bool_decide (damage v true false = None).

Definition field_ok (f : Field) : bool :=
  key_ok (f_key f) &&
  match f_style f with Inline => inline_ok (f_value f) | Wrapped => wrapped_ok (f_value f) end.

Definition call_ok (c : Call) : bool :=
  slug_ok (c_slug c) && forallb field_ok (c_fields c) &&
  bool_decide (NoDup (map f_key (c_fields c))).

Definition call_args (c : Call) : Args := map (fun f => (f_key f, JStr (f_value f))) (c_fields c).

(** ** How the lines match *)

Section Greedy.
Context {A : Type}.

(** Greedy spaces in front of something solid. *)
Lemma m_spaces_solid p c s (k : option Z -> ustring -> option A) :
  is_space c = false -> m spaces p (c :: s) k = k p (c :: s).
Proof. intros Hc. unfold spaces. cbn. by rewrite Hc. Qed.

(** A lazy run of name characters whose continuation refuses every name character. *)
Lemma m_lazy_run f (k : option Z -> ustring -> option A) s x :
  (forall p c t, f c = true -> k p (c :: t) = None) -> (forall p, k p s = Some x) ->
  forall w p, forallb f w = true -> m (RLazy (RSet f)) p (w ++ s) k = Some x.
Proof.
  intros Hno Hyes w p Hw. cbn [m].
  generalize (length (w ++ s)), (ltac:(rewrite length_app; lia) : (length w <= length (w ++ s))%nat).
  revert p Hw. induction w as [|c w IH]; intros p Hw n Hn.
  - cbn [app]. destruct n; by rewrite Hyes.
  - destruct n as [|n]; [cbn in Hn; lia|]. cbn [app forallb] in *. apply andb_true_iff in Hw as [Hc Hw].
    rewrite Hno by done. cbn [m]. rewrite Hc. unfold shorter at 1. cbn [length].
    rewrite (proj2 (Nat.ltb_lt _ _)) by lia. apply IH; [done|]. cbn in Hn. lia.
Qed.
End Greedy.

Lemma name_char_solid c : name_char c = true -> is_space c = false /\ c <> 58.
Proof.
  unfold name_char, is_word, is_alpha, is_upper, is_digit. intros H. split; [|intros ->; by vm_compute in H].
  assert (45 <= c <= 122) as Hr.
  { repeat (apply orb_true_iff in H as [H|H]); try (apply andb_true_iff in H as [H1 H2]);
      repeat match goal with E : (_ <=? _) = true |- _ => apply Z.leb_le in E end;
      try (apply Z.eqb_eq in H); lia. }
  unfold is_space.
  repeat (apply orb_false_iff; split);
    first [apply Z.eqb_neq; lia | apply andb_false_iff; first [left; apply Z.leb_gt; lia | right; apply Z.leb_gt; lia]].
Qed.

Lemma name_start_char c : name_start c = true -> name_char c = true.
Proof.
  unfold name_start, name_char, is_word. intros H. destruct (is_alpha c), (c =? 95), (is_digit c); done.
Qed.

Lemma name_start_plain c : name_start c = true ->
  is_space c = false /\ is_digit c = false /\ (c =? 45) = false /\ (c =? 42) = false /\
  (c =? 43) = false /\ (c =? 60) = false /\ (c =? 96) = false /\ c <> 58.
Proof.
  intros H. destruct (name_char_solid c (name_start_char c H)) as [Hs H58].
  unfold name_start, is_alpha, is_upper in H.
  assert (65 <= c <= 122) as Hr.
  { repeat (apply orb_true_iff in H as [H|H]); try (apply andb_true_iff in H as [H1 H2]);
      repeat match goal with E : (_ <=? _) = true |- _ => apply Z.leb_le in E end;
      try (apply Z.eqb_eq in H); lia. }
  split_and!; try done; try (apply Z.eqb_neq; lia). unfold is_digit. lia.
Qed.

(** The rest of a [KEY_LINE] in front of a name: no marker. *)
Lemma m_no_marker {A} c s (k : option Z -> ustring -> option A) : name_start c = true ->
  m (RStart +++ spaces +++ key_marker) None (c :: s) k = k None (c :: s).
Proof.
  intros Hc. destruct (name_start_plain c Hc) as (Hs & Hd & H1 & H2 & H3 & _).
  cbn [m]. change (m spaces None (c :: s) (fun p s' => m key_marker p s' k) = k None (c :: s)).
  rewrite m_spaces_solid by done. cbn. by rewrite Hd, H1, H2, H3.
Qed.

Lemma key_line_reads c ks v : name_start c = true -> forallb name_char ks = true ->
  existsb line_end v = false -> key_line ((c :: ks) ++ 58 :: v) = Some (c :: ks, v).
Proof.
  intros Hc Hks Hv. unfold key_line. cbn [app]. rewrite m_no_marker by done.
  change (m (key_first +++ RLazy key_more) None (c :: ks ++ 58 :: v) ?k)
    with (if name_start c then m (RLazy (RSet name_char)) (Some c) (ks ++ 58 :: v) k else None).
  rewrite Hc. apply m_lazy_run; [| |done].
  - intros p d t Hd. destruct (name_char_solid d Hd) as [Hs H58].
    change (m (spaces +++ chr 58) p (d :: t) ?k) with (m spaces p (d :: t) (fun p' s' => m (chr 58) p' s' k)).
    rewrite m_spaces_solid by done. cbn. by rewrite (proj2 (Z.eqb_neq _ _)).
  - intros p.
    change (m (spaces +++ chr 58) p (58 :: v) ?k) with (m spaces p (58 :: v) (fun p' s' => m (chr 58) p' s' k)).
    rewrite m_spaces_solid by done. cbn. unfold rest_of_line. rewrite Hv. cbn. do 2 f_equal.
    rewrite length_app. cbn [length].
    replace (length ks + S (length v) - length v)%nat with (S (length ks)) by lia.
    cbn. by rewrite take_app_length.
Qed.

Lemma m_star_inv {A} f p s (k : option Z -> ustring -> option A) x :
  m (RStar (RSet f)) p s k = Some x ->
  exists w p' s', s = w ++ s' /\ forallb f w = true /\ k p' s' = Some x.
Proof.
  intros H. apply m_sound in H as (p' & s' & Hm & Hk). apply star_set in Hm as (w & -> & Hw).
  by exists w, p', s'.
Qed.

Lemma solid_not_lower_space c d : lower_char c = d -> is_space d = false -> is_space c = false.
Proof.
  unfold lower_char. destruct (has_lower c) eqn:E; [|by intros <-]. intros _ _.
  unfold has_lower, is_upper in E. unfold is_space. lia.
Qed.

(** A word read without regard to case holds neither spaces nor a colon. *)
Definition solid (c : Z) : bool := negb (is_space c) && negb (c =? 58).

Lemma lower_solid w l : lower w = l -> forallb (fun c => solid c && (97 <=? c)) l = true ->
  forallb solid w = true.
Proof.
  intros <-. unfold lower. induction w as [|c w IH]; [done|]. cbn. intros [H Hw]%andb_true_iff.
  rewrite IH by done. apply andb_true_iff in H as [H Hc]. rewrite andb_true_r. unfold solid in *.
  apply andb_true_iff in H as [H1 H2]. apply negb_true_iff in H1.
  rewrite (solid_not_lower_space c _ eq_refl H1). cbn. apply negb_true_iff, Z.eqb_neq. intros ->.
  by vm_compute in Hc.
Qed.

Lemma trim_elem c s : c ∈ s -> is_space c = false -> c ∈ trim s.
Proof.
  intros Hin Hc. destruct (trim_start_spec s) as (p & Hs & Hp & _).
  destruct (trim_end_spec (trim_start s)) as (q & Hq & Hq' & _). unfold trim.
  rewrite Hs, Hq in Hin. rewrite !elem_of_app in Hin. rewrite !Forall_forall in *.
  destruct Hin as [H|[H|H]]; [|done|]; [by rewrite (Hp c H) in Hc|by rewrite (Hq' c H) in Hc].
Qed.

(** A line with a colon does not end a block. *)
Lemma colon_not_end s : 58 ∈ s -> test END_LINE (trim s) = false.
Proof.
  intros Hin. apply trim_elem in Hin; [|done]. apply not_true_iff_false. unfold END_LINE.
  intros H%test_anchored%exec_at_match. destruct H as [s' H]. unfold exec_at in H.
  cbn [m] in H. change (m spaces None (trim s) (fun p s1 => m (liti "end") p s1 (fun p' s2 =>
    m spaces p' s2 (fun p s3 => match s3 with [] => Some s3 | _ :: _ => None end))) = Some s') in H.
  apply m_star_inv in H as (w & p1 & s1 & E1 & Hw & H). unfold liti in H.
  apply m_word in H as (m0 & p2 & s2 & -> & Hm & H).
  apply m_star_inv in H as (w' & p3 & s3 & -> & Hw' & H). destruct s3; [|done].
  assert (forallb solid m0 = true) as Hs by (eapply lower_solid; [exact Hm|by vm_compute]).
  rewrite E1, !elem_of_app in Hin. rewrite !forallb_forall in *.
  assert (forall v, (forall x, In x v -> is_space x = true) -> ~ 58 ∈ v) as Hno.
  { intros v Hv Hx. apply list_elem_of_In in Hx. by apply Hv in Hx. }
  destruct Hin as [Hi|[Hi|[Hi|Hi]]]; [by apply (Hno w)| |by apply (Hno w')|by apply elem_of_nil in Hi].
  apply list_elem_of_In, Hs in Hi. done.
Qed.

(** The first character tells a line from most others. *)
Lemma test_other d r c s : is_space c = false -> (c =? d) = false ->
  test (RStart +++ spaces +++ chr d +++ r) (c :: s) = false.
Proof.
  intros Hc Hd. apply not_true_iff_false. intros H%test_anchored%exec_at_match.
  destruct H as [s' H]. unfold exec_at in H. revert H. cbn [m].
  change (m spaces None (c :: s) (fun p s1 => m (chr d) p s1 (fun p' s2 => m r p' s2 (fun _ s3 => Some s3))) <> Some s').
  rewrite m_spaces_solid by done. cbn. by rewrite Hd.
Qed.

Lemma fence_other c s : is_space c = false -> (c =? 96) = false -> test FENCE_LINE (c :: s) = false.
Proof.
  intros Hc Hd. apply not_true_iff_false. unfold FENCE_LINE.
  change (Regex.lit "```") with (word_re chr [96; 96; 96]). generalize (RStar (chr 96) +++ spaces +++
    opt (plus (RSet (fun c => is_word c || (c =? 43) || (c =? 45))) +++ spaces) +++ REnd)%re.
  intros r H%test_anchored%exec_at_match. destruct H as [s' H]. unfold exec_at in H. revert H. cbn [m].
  match goal with |- m spaces None ?l ?k = _ -> _ => change (m spaces None l k <> Some s') end.
  rewrite m_spaces_solid by done. cbn. by rewrite Hd.
Qed.

(** Two ways to cut a line at the end of its leading solid part. *)
Lemma solid_cut a c x y b d : forallb solid a = true -> forallb solid c = true ->
  solid x = false -> solid y = false -> a ++ x :: b = c ++ y :: d -> a = c.
Proof.
  intros Ha Hc Hx Hy. revert c Hc. induction a as [|z a IH]; intros [|w c] Hc E; cbn in *; try done.
  - injection E as -> _. rewrite Hx in Hc. done.
  - injection E as -> _. by rewrite Hy in Ha.
  - injection E as -> E. f_equal. apply andb_true_iff in Ha as [_ Ha]. apply andb_true_iff in Hc as [_ Hc].
    by apply IH.
Qed.

Lemma key_solid c ks : name_start c = true -> forallb name_char ks = true -> forallb solid (c :: ks) = true.
Proof.
  intros Hc Hk. apply forallb_forall. intros x Hx. assert (name_char x = true) as H.
  { destruct Hx as [<-|Hx]; [by apply name_start_char|]. rewrite forallb_forall in Hk. by apply Hk. }
  destruct (name_char_solid x H) as [Hs H58]. unfold solid. rewrite Hs. cbn.
  by apply negb_true_iff, Z.eqb_neq.
Qed.

(** A field named otherwise is not an [ACTION:] line. *)
Lemma key_not_action c ks v : name_start c = true -> forallb name_char ks = true ->
  lower (c :: ks) <> js "action" -> action_rest ((c :: ks) ++ 58 :: v) = None.
Proof.
  intros Hc Hk Hl. destruct (action_rest _) as [x|] eqn:E; [|done]. exfalso. unfold action_rest in E.
  destruct (name_start_plain c Hc) as (Hs & Hd & H1 & H2 & H3 & H60 & _).
  unfold ACTION_LINE in E. cbn [m] in E.
  match type of E with ?l = _ => match l with context [m (liti "action")] =>
    assert (E' : m (liti "action") None ((c :: ks) ++ 58 :: v) (fun p s => m (spaces +++ chr 58) p s (fun _ s' => some_rest s')) = Some x) end end.
  { rewrite <- E. symmetry. cbn [app].
    match goal with |- ?l = _ => change l with (m spaces None (c :: ks ++ 58 :: v) (fun p s => m (opt (list_marker +++ plus space)) p s (fun p s => m (opt (chr 60 +++ spaces)) p s (fun p s => m (liti "action") p s (fun p s => m (spaces +++ chr 58) p s (fun _ s' => some_rest s')))))) end.
    rewrite m_spaces_solid by done. cbn -[liti some_rest]. by rewrite Hd, H1, H2, H3, H60. }
  unfold liti in E'. apply m_word in E' as (m0 & p & s' & Em & Hm & H).
  cbn [m] in H. apply m_star_inv in H as (w & p' & s1 & -> & Hw & H). cbn in H.
  destruct s1 as [|d s1]; [done|]. destruct (Z.eqb_spec d 58) as [->|]; [|done].
  apply Hl. transitivity (lower m0); [|exact Hm]. f_equal.
  assert (forallb solid m0 = true) as Hm0 by (eapply lower_solid; [exact Hm|by vm_compute]).
  destruct w as [|y w].
  - by apply (solid_cut (c :: ks) m0 58 58 v s1); [apply key_solid|..].
  - cbn in Em, Hw. apply andb_true_iff in Hw as [Hy _].
    apply (solid_cut (c :: ks) m0 58 y v (w ++ 58 :: s1)); [by apply key_solid|done|done| |done].
    unfold solid. by rewrite Hy.
Qed.

(** ** The machine on a written call *)

Section Machine.
Context (jc : bool) (txt : list ustring) (bs : list Block).

Definition outside : ParseState :=
  {| block := None; openKey := None; severedKey := None; severedPending := None; heredocKey := None;
     heredocLines := []; justClosed := jc; awaitingSlug := false; p_text := txt; p_blocks := bs |}.
Definition inside (b : Block) (ok : option ustring) : ParseState :=
  {| block := Some b; openKey := ok; severedKey := None; severedPending := None; heredocKey := None;
     heredocLines := []; justClosed := jc; awaitingSlug := false; p_text := txt; p_blocks := bs |}.
Definition in_heredoc (b : Block) (key : ustring) (ls : list ustring) : ParseState :=
  {| block := Some b; openKey := None; severedKey := None; severedPending := None;
     heredocKey := Some key; heredocLines := ls; justClosed := jc; awaitingSlug := false;
     p_text := txt; p_blocks := bs |}.

Lemma action_reads s : existsb line_end s = false -> action_rest (js "ACTION: " ++ s) = Some (32 :: s).
Proof.
  intros H. assert (some_rest (32 :: s) = Some (32 :: s)) as E
    by (unfold some_rest, rest_of_line; cbn; by rewrite H).
  rewrite <- E. unfold action_rest. generalize some_rest as k. intros k. by lazy.
Qed.

Lemma line_action s f : slug_ok s = true ->
  consumeLine outside (js "ACTION: " ++ s) f = inside (new_block s) None.
Proof.
  unfold slug_ok. rewrite !andb_true_iff, !negb_true_iff, !bool_decide_eq_true.
  intros ((((Hn & Hc) & Ht) & He) & Hl). unfold consumeLine. cbn [outside heredocKey].
  rewrite action_reads by done. unfold actionSlug.
  change (trim (32 :: s)) with (trim s). rewrite Ht, He, Hc. by destruct s.
Qed.

(** What a field line passes before it is read as one. *)
Lemma field_line_passes k v : key_ok k = true -> existsb line_end v = false ->
  let line := k ++ 58 :: v in
  action_rest line = None /\ test XML_OPEN line = false /\ test XML_CLOSE line = false /\
  test LONE_TAG line = false /\ trim line <> [] /\ test END_LINE (trim line) = false /\
  test FENCE_LINE line = false /\ key_line line = Some (k, v).
Proof.
  unfold key_ok. rewrite andb_true_iff, negb_true_iff, bool_decide_eq_false.
  intros [Hk Ha] Hv. destruct k as [|c ks]; [done|]. apply andb_true_iff in Hk as [Hc Hks].
  destruct (name_start_plain c Hc) as (Hs & _ & _ & _ & _ & H60 & H96 & _).
  assert (58 ∈ ((c :: ks) ++ 58 :: v)) as H58 by (apply elem_of_app; right; by left).
  cbn zeta. split_and!.
  - by apply key_not_action.
  - cbn [app]. by apply test_other.
  - cbn [app]. by apply test_other.
  - cbn [app]. by apply test_other.
  - intros E. apply trim_elem in H58; [|done]. rewrite E in H58. by apply elem_of_nil in H58.
  - by apply colon_not_end.
  - cbn [app]. by apply fence_other.
  - by apply key_line_reads.
Qed.

Lemma key_trimmed k : key_ok k = true -> trim k = k.
Proof.
  unfold key_ok. destruct k as [|c ks]; [done|]. rewrite !andb_true_iff. intros [[Hc Hks] _].
  pose proof (key_solid c ks Hc Hks) as Hs. rewrite forallb_forall in Hs.
  assert (forall x, x ∈ c :: ks -> is_space x = false) as Hx.
  { intros x Hx%list_elem_of_In. apply Hs in Hx. apply andb_true_iff in Hx as [Hx _].
    by apply negb_true_iff. }
  apply trim_fixed; [apply Hx; by left|]. destruct (last (c :: ks)) as [d|] eqn:E; [|done].
  apply Hx. by apply last_Some_elem_of.
Qed.

(** A line that passes goes to the block, whatever the lookahead. *)
Lemma line_field k v b ok f : key_ok k = true -> existsb line_end v = false ->
  consumeLine (inside b ok) (k ++ 58 :: v) f =
  if bool_decide (trim v = HEREDOC_OPEN) then in_heredoc b k []
  else inside (push_field k (trim v) b) (Some k).
Proof.
  intros Hk Hv. destruct (field_line_passes k v Hk Hv) as (H1 & H2 & H3 & H4 & H5 & H6 & H7 & H8).
  unfold consumeLine. cbn [inside heredocKey awaitingSlug block]. rewrite H1, H2, H3, H4.
  unfold consume_field. rewrite bool_decide_eq_false_2 by done. rewrite H6, H7, H8, (key_trimmed k) by done.
  by destruct (bool_decide _).
Qed.

Lemma line_inline k v b ok f : key_ok k = true -> inline_ok v = true ->
  consumeLine (inside b ok) (k ++ js ": " ++ v) f = inside (push_field k v b) (Some k).
Proof.
  unfold inline_ok. rewrite !andb_true_iff, !negb_true_iff, bool_decide_eq_false, !bool_decide_eq_true.
  intros Hk (((Ht & Hl) & Ho) & _).
  change (k ++ js ": " ++ v) with (k ++ 58 :: 32 :: v). rewrite line_field by done.
  change (trim (32 :: v)) with (trim v). rewrite Ht. by rewrite bool_decide_eq_false_2.
Qed.

Lemma line_opens k b ok f : key_ok k = true ->
  consumeLine (inside b ok) (k ++ js ": <<<") f = in_heredoc b k [].
Proof.
  intros Hk. change (k ++ js ": <<<") with (k ++ 58 :: js " <<<"). by rewrite line_field.
Qed.

Lemma line_verbatim b k ls l f : verbatim_ok l = true ->
  consumeLine (in_heredoc b k ls) l f = in_heredoc b k (ls ++ [l]).
Proof.
  unfold verbatim_ok. rewrite !andb_true_iff, !negb_true_iff, bool_decide_eq_false.
  intros [[H1 H2] H3]. unfold consumeLine, consume_heredoc. cbn [in_heredoc heredocKey].
  rewrite bool_decide_eq_false_2 by done. rewrite H2. unfold is_action in H3.
  by destruct (action_rest l).
Qed.

Lemma line_closes b k ls f :
  consumeLine (in_heredoc b k ls) HEREDOC_CLOSE f =
  inside (wrap_key k (push_field k (join [10] (drop_last_empty ls)) b)) None.
Proof. done. Qed.
End Machine.

Lemma line_end_of_block jc txt bs b ok f :
  consumeLine (inside jc txt bs b ok) (js "END") f = outside true txt (bs ++ [b]).
Proof. by destruct jc, ok. Qed.

(** The block a call is read into. *)
Definition add_written (b : Block) (f : Field) : Block :=
  match f_style f with
  | Inline => push_field (f_key f) (f_value f) b
  | Wrapped => wrap_key (f_key f) (push_field (f_key f) (f_value f) b)
  end.
Definition written_block (c : Call) : Block := fold_left add_written (c_fields c) (new_block (c_slug c)).

Lemma lines_verbatim jc txt bs b k rest ls : forall acc, forallb verbatim_ok ls = true ->
  consume_all (in_heredoc jc txt bs b k acc) (ls ++ rest) =
  consume_all (in_heredoc jc txt bs b k (acc ++ ls)) rest.
Proof.
  induction ls as [|l ls IH]; intros acc H; [by rewrite app_nil_r|].
  cbn [app consume_all forallb] in *. apply andb_true_iff in H as [Hl H].
  rewrite line_verbatim by done. rewrite IH by done. by rewrite <- app_assoc.
Qed.

Lemma drop_last_empty_join v :
  is_nil v || negb (bool_decide (last (split_on 10 v) = Some [])) = true ->
  join [10] (drop_last_empty (split_on 10 v)) = v.
Proof.
  intros H. destruct v as [|c v]; [done|]. cbn [is_nil orb] in H.
  unfold drop_last_empty. destruct (last (split_on 10 (c :: v))) as [[|d w]|];
    [by rewrite bool_decide_eq_true_2 in H|..]; apply join_split_on.
Qed.

Lemma field_reads jc txt bs b ok rest f : field_ok f = true ->
  exists ok', consume_all (inside jc txt bs b ok) (write_field f ++ rest) =
    consume_all (inside jc txt bs (add_written b f) ok') rest.
Proof.
  unfold field_ok, write_field, add_written. intros [Hk Hv]%andb_true_iff.
  destruct (f_style f); cbn [app consume_all].
  - rewrite line_inline by done. by eexists.
  - rewrite line_opens by done. unfold wrapped_ok in Hv. rewrite !andb_true_iff in Hv.
    destruct Hv as [[[Hl _] He] _]. rewrite <- app_assoc, lines_verbatim by done.
    cbn [app consume_all]. rewrite line_closes, drop_last_empty_join by done. by eexists.
Qed.

Lemma fields_read jc txt bs rest fs : forall b ok, forallb field_ok fs = true ->
  exists ok', consume_all (inside jc txt bs b ok) (concat (map write_field fs) ++ rest) =
    consume_all (inside jc txt bs (fold_left add_written fs b) ok') rest.
Proof.
  induction fs as [|f fs IH]; intros b ok H; [by exists ok|]. cbn [map concat forallb fold_left] in *.
  apply andb_true_iff in H as [Hf H]. rewrite <- app_assoc.
  destruct (field_reads jc txt bs b ok (concat (map write_field fs) ++ rest) f Hf) as [ok1 ->].
  by apply IH.
Qed.

Lemma call_reads jc txt bs rest c : call_ok c = true ->
  consume_all (outside jc txt bs) (write_call c ++ rest) =
  consume_all (outside true txt (bs ++ [written_block c])) rest.
Proof.
  unfold call_ok, write_call. rewrite !andb_true_iff. intros [[Hs Hf] _].
  cbn [app consume_all]. rewrite line_action by done. rewrite <- app_assoc.
  destruct (fields_read jc txt bs ([js "END"] ++ rest) (c_fields c) (new_block (c_slug c)) None Hf) as [ok ->].
  cbn [app consume_all]. by rewrite line_end_of_block.
Qed.

Lemma calls_read txt rest cs : forall jc bs, forallb call_ok cs = true ->
  exists jc', consume_all (outside jc txt bs) (concat (map write_call cs) ++ rest) =
    consume_all (outside jc' txt (bs ++ map written_block cs)) rest.
Proof.
  induction cs as [|c cs IH]; intros jc bs H; [exists jc; by rewrite app_nil_r|].
  cbn [map concat forallb] in *. apply andb_true_iff in H as [Hc H].
  rewrite <- app_assoc, call_reads by done. destruct (IH true (bs ++ [written_block c]) H) as [jc' ->].
  exists jc'. by rewrite <- app_assoc.
Qed.

(** ** The block of a written call *)

Definition is_wrapped_field (f : Field) : bool := match f_style f with Wrapped => true | Inline => false end.

Lemma add_field_new k v l : ~ k ∈ map fst l -> add_field k v l = l ++ [(k, [v])].
Proof.
  induction l as [|[k' vs] l IH]; intros H; [done|]. cbn. cbn in H.
  rewrite bool_decide_eq_false_2 by (intros ->; apply H; by left). f_equal. apply IH.
  intros Hk. apply H. by right.
Qed.

Lemma written_fields fs : forall b, NoDup (map fst (fields b) ++ map f_key fs) ->
  fold_left add_written fs b =
  {| b_slug := b_slug b; fields := fields b ++ map (fun f => (f_key f, [f_value f])) fs;
     wrapped := wrapped b ++ map f_key (List.filter is_wrapped_field fs); severed := severed b |}.
Proof.
  induction fs as [|f fs IH]; intros b Hnd.
  - cbn. rewrite !app_nil_r. by destruct b.
  - cbn [fold_left map]. cbn [map] in Hnd.
    assert (~ f_key f ∈ map fst (fields b)) as Hnew.
    { intros Hin. apply NoDup_app in Hnd as (_ & Hd & _). apply (Hd _ Hin). by left. }
    assert (fields (add_written b f) = fields b ++ [(f_key f, [f_value f])]) as Ef
      by (unfold add_written; destruct (f_style f); cbn; by apply add_field_new).
    rewrite IH.
    + rewrite Ef, <- app_assoc. unfold add_written, is_wrapped_field at 2. cbn [List.filter map].
      destruct (f_style f); cbn; [done|]. by rewrite <- app_assoc.
    + rewrite Ef, map_app. cbn [map fst]. by rewrite <- app_assoc.
Qed.

Lemma written_block_is c : NoDup (map f_key (c_fields c)) ->
  written_block c =
  {| b_slug := c_slug c; fields := map (fun f => (f_key f, [f_value f])) (c_fields c);
     wrapped := map f_key (List.filter is_wrapped_field (c_fields c)); severed := [] |}.
Proof. intros H. unfold written_block. by rewrite written_fields. Qed.

Lemma name_not_index k : key_ok k = true -> is_index k = false.
Proof.
  unfold key_ok, is_index, all_digits. destruct k as [|c ks]; [done|]. rewrite !andb_true_iff. intros [[Hc _] _].
  destruct (name_start_plain c Hc) as (_ & Hd & _). cbn. by rewrite Hd.
Qed.

Lemma args_enumerated c : NoDup (map f_key (c_fields c)) -> forallb field_ok (c_fields c) = true ->
  enumerated (call_args c) = true.
Proof.
  unfold call_args. induction (c_fields c) as [|f fs IH]; [done|]. cbn [map forallb enumerated].
  intros [Hn Hnd]%NoDup_cons [Hf Hfs]%andb_true_iff. rewrite IH by done. rewrite andb_true_r.
  apply forallb_forall. intros kv Hkv. apply in_map_iff in Hkv as (g & <- & Hg). cbn [fst].
  rewrite bool_decide_eq_false_2.
  - cbn. unfold enumerated_before. rewrite forallb_forall in Hfs. apply Hfs in Hg.
    unfold field_ok in Hg. apply andb_true_iff in Hg as [Hg _]. by rewrite name_not_index.
  - intros E. apply Hn. rewrite E. apply list_elem_of_In, in_map_iff. by exists g.
Qed.

Lemma written_args c : call_ok c = true -> block_args (written_block c) = call_args c.
Proof.
  unfold call_ok. rewrite !andb_true_iff, bool_decide_eq_true. intros [[_ Hf] Hnd].
  rewrite written_block_is by done. unfold block_args. cbn [fields]. rewrite map_map.
  change (map (fun f => field_json (f_key f, [f_value f])) (c_fields c)) with (call_args c).
  by apply obj_of_enumerated, args_enumerated.
Qed.

Lemma wrapped_style fs f : NoDup (map f_key fs) -> f ∈ fs ->
  bool_decide (f_key f ∈ map f_key (List.filter is_wrapped_field fs)) = is_wrapped_field f.
Proof.
  intros Hnd Hf. destruct (is_wrapped_field f) eqn:E.
  - apply bool_decide_eq_true_2, list_elem_of_In, in_map, filter_In. split; [by apply list_elem_of_In|done].
  - apply bool_decide_eq_false_2. intros Hin%list_elem_of_In%in_map_iff. destruct Hin as (g & Hk & Hg).
    apply filter_In in Hg as [Hg Hw]. apply list_elem_of_In in Hg. assert (g = f) as ->; [|congruence].
    apply list_elem_of_lookup in Hg as [a Ha]. apply list_elem_of_lookup in Hf as [b Hb].
    assert (a = b) as ->; [|congruence].
    apply (NoDup_lookup _ a b (f_key f) Hnd); rewrite list_lookup_fmap; [by rewrite Ha, <- Hk|by rewrite Hb].
Qed.

Lemma written_undamaged c : call_ok c = true -> block_damage (written_block c) = [].
Proof.
  unfold call_ok. rewrite !andb_true_iff, bool_decide_eq_true. intros [[_ Hf] Hnd].
  rewrite written_block_is by done. unfold block_damage. cbn [fields wrapped severed]. rewrite map_map.
  assert (forall f, f ∈ c_fields c -> damage (f_value f)
    (bool_decide (f_key f ∈ map f_key (List.filter is_wrapped_field (c_fields c)))) false = None) as Hd.
  { intros f Hin. rewrite wrapped_style by done. apply list_elem_of_In in Hin.
    rewrite forallb_forall in Hf. apply Hf in Hin. unfold field_ok in Hin.
    apply andb_true_iff in Hin as [_ Hv]. unfold is_wrapped_field, inline_ok, wrapped_ok in *.
    destruct (f_style f); apply andb_true_iff in Hv as [_ Hv]; by apply bool_decide_eq_true_1 in Hv. }
  revert Hd. generalize (map f_key (List.filter is_wrapped_field (c_fields c))) as ws. intros ws Hd.
  induction (c_fields c) as [|f fs IH]; [done|]. cbn [map concat fst snd omap list_omap].
  rewrite (bool_decide_eq_false_2 (f_key f ∈ [])) by (apply not_elem_of_nil).
  rewrite Hd by by left. cbn [fmap option_fmap option_map]. apply IH.
  - cbn in Hf. by apply andb_true_iff in Hf as [_ ?].
  - cbn in Hnd. by apply NoDup_cons in Hnd as [_ ?].
  - intros g Hg. apply Hd. by right.
Qed.

(** ** Lines *)

Lemma one_line_app a b : one_line (a ++ b) = one_line a && one_line b.
Proof.
  unfold one_line, includes_char. rewrite !existsb_app, !negb_orb.
  destruct (existsb (Z.eqb 10) a), (existsb (Z.eqb 13) a), (existsb (Z.eqb 10) b), (existsb (Z.eqb 13) b); done.
Qed.

Lemma one_line_ended v : existsb line_end v = false -> one_line v = true.
Proof.
  intros H. unfold one_line, includes_char.
  assert (forall n, line_end n = true -> existsb (Z.eqb n) v = false) as Hn.
  { intros n Hn. apply not_true_iff_false. intros (x & Hx & Ex%Z.eqb_eq)%existsb_exists. subst x.
    apply not_true_iff_false in H. apply H, existsb_exists. by exists n. }
  by rewrite !Hn.
Qed.

Lemma one_line_solid v : forallb solid v = true -> one_line v = true.
Proof.
  intros H. apply one_line_ended. apply not_true_iff_false. intros (x & Hx & Ex)%existsb_exists.
  rewrite forallb_forall in H. apply H in Hx. unfold solid, line_end, is_space in *. lia.
Qed.

Lemma join_elem sep l p x : p ∈ l -> x ∈ p -> x ∈ join sep l.
Proof.
  intros Hp Hx. destruct (list_elem_of_split _ _ Hp) as (a & b & ->). clear Hp.
  induction a as [|q a IH].
  - cbn [app]. destruct b as [|q b]; [done|]. cbn [join]. apply elem_of_app. by left.
  - cbn [app]. destruct (a ++ p :: b) as [|q' l'] eqn:E; [by destruct a|].
    change (join sep (q :: q' :: l')) with (q ++ sep ++ join sep (q' :: l')).
    rewrite !elem_of_app. by right; right.
Qed.

Lemma split_on_one_line v : includes_char 13 v = false -> forallb one_line (split_on 10 v) = true.
Proof.
  intros H. apply forallb_forall. intros l Hl. unfold one_line. apply andb_true_iff. split; apply negb_true_iff.
  - apply not_true_iff_false. intros (x & Hx & E%Z.eqb_eq)%existsb_exists. subst x.
    pose proof (split_on_no_sep 10 v) as Hn. rewrite Forall_forall in Hn. apply list_elem_of_In in Hl.
    by apply (Hn l Hl).
  - apply not_true_iff_false. intros (x & Hx & E%Z.eqb_eq)%existsb_exists. subst x.
    apply not_true_iff_false in H. apply H, existsb_exists. exists 13. split; [|done].
    apply list_elem_of_In. rewrite <- (join_split_on 10 v). apply list_elem_of_In in Hl, Hx.
    by eapply join_elem.
Qed.

Lemma key_one_line k : key_ok k = true -> one_line k = true.
Proof.
  unfold key_ok. destruct k as [|c ks]; [done|]. rewrite !andb_true_iff. intros [[Hc Hk] _].
  by apply one_line_solid, key_solid.
Qed.

Lemma field_lines f : field_ok f = true -> forallb one_line (write_field f) = true.
Proof.
  unfold field_ok, write_field. intros [Hk Hv]%andb_true_iff. pose proof (key_one_line _ Hk) as Hl.
  destruct (f_style f); cbn [app forallb].
  - unfold inline_ok in Hv. rewrite !andb_true_iff, !negb_true_iff in Hv. destruct Hv as [[[_ Hv] _] _].
    rewrite !one_line_app, Hl, (one_line_ended _ Hv). done.
  - unfold wrapped_ok in Hv. rewrite !andb_true_iff, !negb_true_iff in Hv. destruct Hv as [[[_ Hv] _] _].
    rewrite forallb_app, !one_line_app, Hl, split_on_one_line by done. done.
Qed.

Lemma call_lines c : call_ok c = true -> forallb one_line (write_call c) = true.
Proof.
  unfold call_ok, write_call, slug_ok. rewrite !andb_true_iff, !negb_true_iff.
  intros [[[_ Hs] Hf] _]. rewrite !forallb_app. cbn [forallb]. rewrite one_line_app, (one_line_ended _ Hs).
  cbn [andb]. rewrite andb_true_r. induction (c_fields c) as [|f fs IH]; [done|].
  cbn [forallb map concat] in *. apply andb_true_iff in Hf as [Hf Hfs].
  rewrite forallb_app, field_lines by done. by apply IH.
Qed.

(** ** What is read *)

(** Neighbours that are the same call in name and in the text of their arguments. *)
Definition repeats (a b : Call) : bool :=
  bool_decide (c_slug a = c_slug b) &&
  bool_decide (stringify (JObj (call_args a)) = stringify (JObj (call_args b))).
(** Without the calls that are the same as the one written just before them. *)
Fixpoint squeezed (previous : option Call) (l : list Call) : list Call :=
  match l with
  | [] => []
  | c :: rest =>
      match previous with
      | Some p => if repeats c p then squeezed (Some c) rest else c :: squeezed (Some c) rest
      | None => c :: squeezed (Some c) rest
      end
  end.

Lemma squeezed_incl l : forall p c, c ∈ squeezed p l -> c ∈ l.
Proof.
  induction l as [|x l IH]; intros p c Hc; [done|]. cbn in Hc. destruct p as [q|].
  - destruct (repeats x q); [right; by eapply IH|]. apply elem_of_cons in Hc as [->|Hc]; [by left|right; by eapply IH].
  - apply elem_of_cons in Hc as [->|Hc]; [by left|right; by eapply IH].
Qed.
Lemma squeezed_all (P : Call -> Prop) l p : Forall P l -> Forall P (squeezed p l).
Proof. rewrite !Forall_forall. intros H c Hc. by eapply H, squeezed_incl. Qed.
Lemma squeezed_ok l p : forallb call_ok l = true -> forallb call_ok (squeezed p l) = true.
Proof. rewrite <- !Is_true_true, !forallb_True. apply squeezed_all. Qed.

Lemma same_call_written a b : call_ok a = true -> call_ok b = true ->
  same_call (written_block a) (written_block b) = repeats a b.
Proof.
  intros Ha Hb. unfold same_call, repeats. rewrite !written_args by done.
  unfold call_ok in Ha, Hb. rewrite !andb_true_iff, bool_decide_eq_true in Ha, Hb.
  by rewrite !written_block_is by (by destruct Ha, Hb).
Qed.

Lemma collapse_squeezes cs : forall p, forallb call_ok cs = true -> (forall q, p = Some q -> call_ok q = true) ->
  collapse_from (written_block <$> p) (map written_block cs) = map written_block (squeezed p cs).
Proof.
  induction cs as [|c cs IH]; intros p Hok Hp; [done|]. cbn [forallb] in Hok.
  apply andb_true_iff in Hok as [Hc Hok]. cbn [map collapse_from squeezed].
  assert (collapse_from (Some (written_block c)) (map written_block cs) = map written_block (squeezed (Some c) cs)) as E
    by (apply (IH (Some c)); [done|by intros q [= <-]]).
  destruct p as [q|]; cbn [fmap option_fmap option_map]; [|by rewrite E].
  rewrite same_call_written by (try done; by apply Hp). rewrite E. by destruct (repeats c q).
Qed.

Definition written_intent (k : nat) (c : Call) : ToolIntent :=
  {| i_callId := js "c" ++ decimal (Z.of_nat (S k)); i_slug := c_slug c; i_args := call_args c |}.

Lemma written_lines cs : cs <> [] -> forallb call_ok cs = true ->
  split_lines (write_calls cs) = concat (map write_call cs).
Proof.
  intros Hne Hok. apply split_lines_join.
  - destruct cs as [|c cs]; [done|]. by unfold write_call.
  - clear Hne. induction cs as [|c cs IH]; [done|]. cbn [map concat forallb] in *.
    apply andb_true_iff in Hok as [Hc Hok]. rewrite forallb_app, call_lines by done. by apply IH.
Qed.

Lemma written_intents cs : forallb call_ok cs = true ->
  imap nlt_intent (map written_block cs) = imap written_intent cs.
Proof.
  intros Hok. rewrite imap_fmap. apply imap_ext. intros k c Hc. cbn. unfold nlt_intent, written_intent.
  apply list_elem_of_lookup_2, list_elem_of_In in Hc. rewrite forallb_forall in Hok. apply Hok in Hc.
  rewrite written_args by done. unfold call_ok in Hc. rewrite !andb_true_iff, bool_decide_eq_true in Hc.
  by rewrite written_block_is by (by destruct Hc).
Qed.

Lemma written_read cs : cs <> [] -> forallb call_ok cs = true ->
  finish (consume_all newState (concat (map write_call cs))) =
  {| parsed_intents := imap written_intent (squeezed None cs); parsed_text := []; malformed := [] |}.
Proof.
  intros Hne Hok. destruct (calls_read [] [] cs false [] Hok) as [jc E]. rewrite app_nil_r in E.
  change (outside false [] []) with newState in E. rewrite E. cbn [app consume_all].
  unfold finish. cbn [closeBlock closeHeredoc outside block heredocKey set_block set_keys set_flags
    p_blocks p_text].
  assert (collapsed (map written_block cs) = map written_block (squeezed None cs)) as -> by (by apply (collapse_squeezes cs None)).
  rewrite written_intents by (by apply squeezed_ok).
  assert (concat (map block_damage (map written_block cs)) = []) as ->.
  { rewrite map_map. clear -Hok. induction cs as [|c cs IH]; [done|]. cbn [map concat forallb] in *.
    apply andb_true_iff in Hok as [Hc Hok]. by rewrite written_undamaged, IH. }
  by destruct cs.
Qed.

(** A call written as the tool list asks is the call that is read: any sequence of calls, their
    values on one line or verbatim between the markers, comes back as the same calls in the same
    order with every value unaltered, numbered from one, nothing reported damaged and nothing left
    over as a reply; of neighbours that are the same call in name and arguments, one. *)
Theorem nlt_reads_calls (cs : list Call) (Hne : cs <> []) (Hok : forallb call_ok cs = true) :
  parseNlt (write_calls cs) =
  {| parsed_intents := imap written_intent (squeezed None cs); parsed_text := []; malformed := [] |}.
Proof. unfold parseNlt. rewrite written_lines by done. by apply written_read. Qed.

Definition a_script : Call :=
  {| c_slug := js "exec";
     c_fields := [{| f_key := js "command"; f_style := Wrapped;
                     f_value := lines_of ["python3 - <<'PY'"; "def f(x):"; "    return x"; ""; "PY"]%string |};
                  {| f_key := js "timeout"; f_style := Inline; f_value := js "30 s" |}] |}.
Definition a_lookup : Call :=
  {| c_slug := js "file_search"; c_fields := [{| f_key := js "query"; f_style := Inline; f_value := js "a: b" |}] |}.

Lemma nlt_reads_calls_witness :
  parseNlt (write_calls [a_script; a_script; a_lookup]) =
  {| parsed_intents := imap written_intent [a_script; a_lookup]; parsed_text := []; malformed := [] |}.
Proof.
  assert (forallb call_ok [a_script; a_script; a_lookup] = true) as H1 by (by vm_compute).
  pose proof (nlt_reads_calls [a_script; a_script; a_lookup] ltac:(done) H1) as H.
  change (squeezed None [a_script; a_script; a_lookup]) with [a_script; a_lookup] in H. exact H.
Defined.
