(* ===== verification/NltStream.v ===== *)
(** * Showing a reply while it is written: the stream filter of [tools/dialect/nlt.ts]

    The filter drives the same line machine as the parser ([Nlt.consumeLine]) and decides what of
    each delta a person may see. *)
From S2P Require Import Prelude UString Regex Trust Json JsonParse Tools Messages Dialect Nlt.
Local Open Scope Z_scope.

(** ** What may still become structure *)

Definition bare_marker : regex :=
  RStart +++ spaces +++ opt (RAlt bullet (plus digit +++ opt dot_or_paren) +++ spaces) +++ REnd.
Definition leading_marker : regex :=
  RStart +++ spaces +++ opt (RAlt (bullet +++ plus space) (plus digit +++ dot_or_paren +++ plus space)).
Definition lower_name_start : regex := RSet (fun c => ((97 <=? c) && (c <=? 122)) || (c =? 95)).
Definition tag_char : regex := RSet (fun c => is_word c || (c =? 46) || (c =? 58) || (c =? 45)).
Definition opened_tag : regex := RStart +++ chr 60 +++ opt (chr 47) +++ REnd.
Definition named_tag : regex :=
  RStart +++ chr 60 +++ opt (chr 47) +++ lower_name_start +++ RStar tag_char +++ opt (chr 62) +++ REnd.
Definition open_fence : regex :=
  RStart +++ chr 96 +++ opt (chr 96) +++ opt (chr 96) +++
  RStar (RSet (fun c => is_word c || (c =? 43) || (c =? 45))) +++ REnd.

Definition mightBecomeStructure (partial : ustring) : bool :=
  if test bare_marker partial then true
  else
    let head := lower (Regex.strip_prefix leading_marker partial) in
    let bare := match head with c :: rest => if c =? 60 then rest else head | [] => [] end in
    if starts_with bare (js "action:") || starts_with (js "action:") bare then true
    else if test opened_tag head || test named_tag head then true
    else test open_fence head.

Definition stripCr (line : ustring) : ustring :=
  if ends_with [13] line then removelast line else line.

(** ** The filter *)

Record Filter := {
  f_state : ParseState; partial : ustring; emitted : nat; heldFence : option ustring;
  f_pending : ustring; started : bool }.

Definition createNltStreamFilter : Filter :=
  {| f_state := newState; partial := []; emitted := 0; heldFence := None; f_pending := [];
     started := false |}.

Definition set_partial (p : ustring) (e : nat) (h : option ustring) (f : Filter) : Filter :=
  {| f_state := f_state f; partial := p; emitted := e; heldFence := h; f_pending := f_pending f;
     started := started f |}.
Definition set_machine (st : ParseState) (f : Filter) : Filter :=
  {| f_state := st; partial := partial f; emitted := emitted f; heldFence := heldFence f;
     f_pending := f_pending f; started := started f |}.
Definition set_shown (p : ustring) (s : bool) (f : Filter) : Filter :=
  {| f_state := f_state f; partial := partial f; emitted := emitted f; heldFence := heldFence f;
     f_pending := p; started := s |}.

(** White space waits until other text follows it. *)
Definition emit (text : ustring) (f : Filter) : ustring * Filter :=
  match text with
  | [] => ([], f)
  | _ =>
      if blank text then ([], set_shown (f_pending f ++ text) (started f) f)
      else
        let out := f_pending f ++ text in
        (if started f then out else trim_start out, set_shown [] true f)
  end.

(** The line is shown when the machine kept it as text. *)
Definition consume (line : ustring) (next : option ustring) (f : Filter) : option ustring * Filter :=
  let st := consumeLine (f_state f) line (match next with Some n => is_action n | None => false end) in
  (if (length (p_text (f_state f)) <? length (p_text st))%nat then Some line else None, set_machine st f).

Definition show (line : ustring) (next : option ustring) (already : nat) (f : Filter) : ustring * Filter :=
  let '(kept, f) := consume line next f in
  match kept with
  | None => ([], f)
  | Some kept =>
      let '(a, f) := emit (drop already kept) f in
      let '(b, f) := emit [10] f in
      (a ++ b, f)
  end.

Definition flushHeldFence (next : option ustring) (f : Filter) : ustring * Filter :=
  match heldFence f with
  | None => ([], f)
  | Some fence => show fence next 0 (set_partial (partial f) (emitted f) None f)
  end.

(** One complete line of the deltas. *)
Definition push_line (raw : ustring) (f : Filter) : ustring * Filter :=
  let line := stripCr raw in
  let '(a, f) := flushHeldFence (Some line) f in
  if match block (f_state f) with None => true | Some _ => false end &&
     test FENCE_LINE line && negb (justClosed (f_state f))
  then (a, set_partial (partial f) 0 (Some line) f)
  else
    let '(b, f) := show line None (emitted f) f in
    (a ++ b, set_partial (partial f) 0 (heldFence f) f).

(** The lines of [partial], and what is left after the last newline. *)
Fixpoint push_lines (fuel : nat) (f : Filter) : ustring * Filter :=
  match fuel with
  | O => ([], f)
  | S fuel' =>
      match split_on 10 (partial f) with
      | line :: (_ :: _) as rest =>
          let '(a, f) := push_line line (set_partial (drop (S (length line)) (partial f)) (emitted f) (heldFence f) f) in
          let '(b, f) := push_lines fuel' f in
          (a ++ b, f)
      | _ => ([], f)
      end
  end.

Definition eager (f : Filter) : ustring * Filter :=
  let visible := stripCr (partial f) in
  if match block (f_state f) with None => true | Some _ => false end &&
     negb (awaitingSlug (f_state f)) &&
     match heldFence f with None => true | Some _ => false end &&
     negb (mightBecomeStructure visible)
  then
    let '(a, f) := emit (drop (emitted f) visible) f in
    (a, set_partial (partial f) (length visible) (heldFence f) f)
  else ([], f).

Definition push_delta (delta : ustring) (f : Filter) : ustring * Filter :=
  let f := set_partial (partial f ++ delta) (emitted f) (heldFence f) f in
  let '(a, f) := push_lines (S (length (partial f))) f in
  let '(b, f) := eager f in
  (a ++ b, f).

Definition flush (f : Filter) : ustring * Filter :=
  let '(a, f) := flushHeldFence None f in
  let visible := stripCr (partial f) in
  let '(b, f) :=
    match visible with
    | [] => ([], f)
    | _ =>
        let '(kept, f) := consume visible None f in
        match kept with Some kept => emit (drop (emitted f) kept) f | None => ([], f) end
    end in
  (a ++ b, set_partial [] 0 None f).

Definition endStep (f : Filter) : ustring * Filter :=
  let '(out, f) := flush f in
  (out, set_machine newState (set_shown [10; 10] (started f) f)).

(** A step's deltas, and the end of the turn. *)
Fixpoint push_all (deltas : list ustring) (f : Filter) : ustring * Filter :=
  match deltas with
  | [] => ([], f)
  | d :: rest =>
      let '(a, f) := push_delta d f in
      let '(b, f) := push_all rest f in
      (a ++ b, f)
  end.
Definition shown_of (deltas : list ustring) : ustring :=
  let '(a, f) := push_all deltas createNltStreamFilter in
  a ++ (flush f).1.

(** One code unit at a time. *)
Definition by_units (s : ustring) : list ustring := map (fun c => [c]) s.

(** ** What the machine makes of a line *)

Definition fenced (st : ParseState) (line : ustring) : bool :=
  match block st with None => true | Some _ => false end && test FENCE_LINE line && negb (justClosed st).

(** The lookahead is asked for the fences that are held, and for nothing else. *)
Lemma flag_irrelevant st line f f' : fenced st line = false -> consumeLine st line f = consumeLine st line f'.
Proof.
  unfold fenced, consumeLine. intros H. destruct (heredocKey st); [done|].
  destruct (action_rest line); [done|]. destruct (test XML_OPEN line); [done|].
  destruct (awaitingSlug st); [done|]. destruct (test XML_CLOSE line); [done|].
  destruct (test LONE_TAG line); [done|]. destruct (block st); [done|].
  unfold consume_prose. cbn [andb] in H. destruct (test FENCE_LINE line); [|done].
  cbn [andb] in H. apply negb_false_iff in H. by rewrite H.
Qed.

Lemma p_text_closeHeredoc st : p_text (closeHeredoc st) = p_text st.
Proof. unfold closeHeredoc. by destruct (block st), (heredocKey st). Qed.

Lemma p_text_closeBlock st : p_text (closeBlock st) = p_text st.
Proof.
  unfold closeBlock. destruct (block (closeHeredoc st)); cbn; by rewrite p_text_closeHeredoc.
Qed.

Lemma p_text_open slug st : p_text (open_block slug st) = p_text st.
Proof. by destruct slug. Qed.

(** A line is kept whole as text, or not at all. *)
Lemma kept_or_not st line f :
  p_text (consumeLine st line f) = p_text st \/ p_text (consumeLine st line f) = p_text st ++ [line].
Proof.
  unfold consumeLine. destruct (heredocKey st) as [key|].
  { left. unfold consume_heredoc. destruct (bool_decide _); [apply p_text_closeHeredoc|].
    destruct (test _ _); [apply p_text_closeBlock|].
    destruct (action_rest line); [by rewrite p_text_open, p_text_closeBlock|done]. }
  destruct (action_rest line).
  { left. by rewrite p_text_open, p_text_closeBlock. }
  destruct (test XML_OPEN line); [left; apply p_text_closeBlock|].
  destruct (awaitingSlug st).
  { left. unfold consume_slug. destruct (bool_decide _); [done|]. destruct (test _ _); [done|].
    etransitivity; [apply p_text_open|done]. }
  destruct (test XML_CLOSE line); [left; destruct (block st); [apply p_text_closeBlock|done]|].
  destruct (test LONE_TAG line); [by left|]. destruct (block st) as [b|].
  - unfold consume_field. destruct (bool_decide _); [by left|].
    destruct (test END_LINE _); [left; etransitivity; [apply p_text_closeBlock|done]|].
    destruct (test FENCE_LINE line); [by left|].
    destruct (key_line line) as [[k v]|]; [left; by destruct (bool_decide _)|].
    destruct (openKey st); [by left|right]. cbn [p_text push_text]. rewrite p_text_closeBlock.
    by destruct (severedKey st).
  - unfold consume_prose. destruct (_ && _); [by left|].
    destruct (if test END_LINE (trim line) then _ else None) as [[k key]|]; [by left|right].
    by destruct (is_action line), (bool_decide _).
Qed.

Definition keeps_line (st : ParseState) (line : ustring) (f : bool) : bool :=
  (length (p_text st) <? length (p_text (consumeLine st line f)))%nat.

Lemma keeps_line_spec st line f :
  p_text (consumeLine st line f) = if keeps_line st line f then p_text st ++ [line] else p_text st.
Proof.
  unfold keeps_line. destruct (kept_or_not st line f) as [->| ->].
  - by rewrite Nat.ltb_irrefl.
  - rewrite length_app. by rewrite (proj2 (Nat.ltb_lt _ _)) by (cbn; lia).
Qed.

(** ** Runs with the filter's lookahead *)

Definition opens_next (next : option ustring) : bool :=
  match next with Some n => is_action n | None => false end.

Fixpoint run (st : ParseState) (ls : list ustring) (next : option ustring) : ParseState :=
  match ls with
  | [] => st
  | l :: rest =>
      run (consumeLine st l (opens_next (match rest with n :: _ => Some n | [] => next end))) rest next
  end.

Opaque consumeLine.

Lemma run_snoc ls : forall st l next,
  run st (ls ++ [l]) next = consumeLine (run st ls (Some l)) l (opens_next next).
Proof.
  induction ls as [|x ls IH]; intros st l next; [done|]. cbn [app run]. rewrite IH. by destruct ls.
Qed.

(** ** Accounting for what was shown *)

Lemma blank_app a b : blank (a ++ b) = blank a && blank b.
Proof. apply forallb_app. Qed.

Lemma trim_start_blank s : blank s = true -> trim_start s = [].
Proof. induction s as [|c s IH]; [done|]. cbn. intros [-> H]%andb_true_iff. by apply IH. Qed.

Lemma trim_start_app a b : blank a = false -> trim_start (a ++ b) = trim_start a ++ b.
Proof.
  induction a as [|c a IH]; [done|]. cbn. destruct (is_space c) eqn:E; [|done]. cbn. intros H. by apply IH.
Qed.

Lemma trim_blank s : blank s = true -> trim s = [].
Proof. intros H. unfold trim. by rewrite trim_start_blank. Qed.

Lemma trim_end_app a b : blank b = true -> trim_end (a ++ b) = trim_end a.
Proof.
  intros H. unfold trim_end. rewrite rev_app_distr. f_equal.
  assert (blank (rev b) = true) as Hb.
  { unfold blank in *. rewrite forallb_forall in *. intros x Hx. apply H. by apply in_rev. }
  clear H. induction (rev b) as [|c r IH]; [done|]. cbn in Hb. apply andb_true_iff in Hb as [Hc Hb].
  cbn. rewrite Hc. by apply IH.
Qed.

Lemma trim_app_blank a b : blank b = true -> trim (a ++ b) = trim a.
Proof.
  intros H. unfold trim. destruct (blank a) eqn:E.
  - rewrite !trim_start_blank by (try rewrite blank_app, E; done). done.
  - rewrite trim_start_app by done. by apply trim_end_app.
Qed.

(** [raw] is everything handed to [emit] so far, [out] what it let through. *)
Definition accounted (raw out : ustring) (f : Filter) : Prop :=
  blank (f_pending f) = true /\
  if started f then out ++ f_pending f = trim_start raw /\ blank raw = false
  else out = [] /\ f_pending f = raw.

Lemma emit_accounts raw out t f : accounted raw out f ->
  accounted (raw ++ t) (out ++ (emit t f).1) (emit t f).2.
Proof.
  unfold accounted, emit. destruct t as [|c t]; [by rewrite !app_nil_r|].
  set (u := c :: t). intros [Hb H]. destruct (blank u) eqn:Eu; cbn [fst snd set_shown f_pending started].
  - rewrite blank_app, Hb, Eu, app_nil_r. split; [done|]. destruct (started f).
    + destruct H as [H Hr]. rewrite app_assoc, H, trim_start_app, blank_app, Hr by done. done.
    + by destruct H as [-> ->].
  - split; [done|]. rewrite app_nil_r, blank_app, Eu, andb_false_r. split; [|done].
    destruct (started f).
    + destruct H as [H Hr]. by rewrite app_assoc, H, trim_start_app.
    + by destruct H as [-> ->].
Qed.

Lemma emit_frame t f : let f' := (emit t f).2 in
  f_state f' = f_state f /\ partial f' = partial f /\ emitted f' = emitted f /\ heldFence f' = heldFence f.
Proof. unfold emit. destruct t; [done|]. by destruct (blank _). Qed.

Lemma accounted_trim raw out f : accounted raw out f -> trim out = trim raw.
Proof.
  unfold accounted. intros [Hb H]. destruct (started f).
  - destruct H as [H _]. rewrite <- (trim_app_blank out (f_pending f)) by done. rewrite H.
    unfold trim. by rewrite trim_start_idem.
  - destruct H as [-> <-]. by rewrite (trim_blank (f_pending f)).
Qed.

(** ** When streaming shows what parsing reads *)

Definition prefixes (l : ustring) : list ustring := map (fun k => take k l) (seq 0 (S (length l))).
Definition structural (l : ustring) : bool := forallb mightBecomeStructure (prefixes l).

(** A line that could be shown in part before it is whole is one that is kept when it is. *)
Definition calm (st : ParseState) (l : ustring) : bool :=
  match block st with
  | Some _ => true
  | None => awaitingSlug st || (keeps_line st l false && negb (fenced st l)) || structural l
  end.

(** The next line, once it is known to be complete. *)
Definition complete_next (rest : list ustring) : option ustring :=
  match rest with n :: _ :: _ => Some n | _ => None end.

Fixpoint calm_all (st : ParseState) (ls : list ustring) : bool :=
  match ls with
  | [] => true
  | l :: rest => calm st l && calm_all (consumeLine st l (opens_next (complete_next rest))) rest
  end.

(** The two lookaheads agree at every fence. *)
Fixpoint fences_agree (ls : list ustring) : bool :=
  match ls with
  | [] => true
  | l :: rest =>
      (negb (test FENCE_LINE l) ||
       Bool.eqb (nextMeaningfulIsAction rest) (opens_next (complete_next rest))) && fences_agree rest
  end.

Definition kept_text (st : ParseState) : ustring := concat (map (fun l => l ++ [10]) (p_text st)).

Lemma structural_take l k : structural l = true -> (k <= length l)%nat ->
  mightBecomeStructure (take k l) = true.
Proof.
  intros H Hk. unfold structural, prefixes in H. rewrite forallb_forall in H. apply H.
  apply in_map_iff. exists k. split; [done|]. apply in_seq. lia.
Qed.

Lemma complete_next_more y ls l rest : complete_next (y :: ls ++ l :: rest) = Some y.
Proof. by destruct ls. Qed.

Lemma calm_at ls : forall st l rest, calm_all st (ls ++ l :: rest) = true ->
  calm (run st ls (match rest with [] => None | _ => Some l end)) l = true.
Proof.
  induction ls as [|x ls IH]; intros st l rest H; cbn [app calm_all run] in *;
    apply andb_true_iff in H as [Hc H]; [done|].
  apply IH in H. destruct ls as [|y ls]; [by destruct rest|]. cbn [app] in *.
  by rewrite complete_next_more in H.
Qed.

Lemma batch_is_streamed ls : forall st l, fences_agree (ls ++ [l]) = true ->
  consume_all st (ls ++ [l]) = consumeLine (run st ls None) l false.
Proof.
  induction ls as [|x ls IH]; intros st l H; cbn [app fences_agree consume_all run] in *;
    apply andb_true_iff in H as [Hx H]; [done|].
  rewrite IH by done.
  assert (opens_next (complete_next (ls ++ [l])) = opens_next (match ls with n :: _ => Some n | [] => None end)) as <-.
  { destruct ls as [|y ls]; [done|]. cbn [app]. by rewrite complete_next_more. }
  enough (consumeLine st x (nextMeaningfulIsAction (ls ++ [l])) =
    consumeLine st x (opens_next (complete_next (ls ++ [l])))) as E by (by rewrite E).
  apply orb_true_iff in Hx as [Hx|Hx].
  - apply flag_irrelevant. unfold fenced. apply negb_true_iff in Hx. rewrite Hx. by destruct (block st).
  - apply eqb_prop in Hx. by rewrite Hx.
Qed.

Section Agreement.
Context (all : list ustring).
Context (Hcalm : calm_all newState all = true).

(** [lines] are complete, [cur] is what there is of the next one; what was shown is the kept lines
    and the part of [cur] shown early. *)
Record inv (lines : list ustring) (cur out : ustring) (f : Filter) : Prop := {
  i_raw : accounted (kept_text (f_state f) ++ take (emitted f) cur) out f;
  i_len : (emitted f <= length cur)%nat;
  i_eager : emitted f <> 0%nat ->
    block (f_state f) = None /\ awaitingSlug (f_state f) = false /\ heldFence f = None /\
    mightBecomeStructure (take (emitted f) cur) = false;
  i_state : match heldFence f with
    | None => forall next, run newState lines next = f_state f
    | Some fence => exists ls, lines = ls ++ [fence] /\ f_state f = run newState ls (Some fence) /\
        fenced (f_state f) fence = true
    end }.

Lemma inv_grow lines cur more out f : inv lines cur out f -> inv lines (cur ++ more) out f.
Proof.
  intros [Hr Hl He Hs].
  assert (take (emitted f) (cur ++ more) = take (emitted f) cur) as E by (by apply take_app_le).
  constructor; rewrite ?E; [done| |done..]. rewrite length_app. lia.
Qed.

Lemma accounted_frame raw out f f' : f_pending f' = f_pending f -> started f' = started f ->
  accounted raw out f -> accounted raw out f'.
Proof. unfold accounted. by intros -> ->. Qed.

Lemma eager_inv lines out f : inv lines (partial f) out f -> ends_with [13] (partial f) = false ->
  inv lines (partial f) (out ++ (eager f).1) (eager f).2 /\ partial (eager f).2 = partial f.
Proof.
  intros [Hr Hl He Hs] Hcr. unfold eager, stripCr. rewrite Hcr.
  destruct (_ && negb (mightBecomeStructure _)) eqn:E; [|cbn [fst snd]; by rewrite app_nil_r].
  rewrite !andb_true_iff, !negb_true_iff in E. destruct E as [[[Hb Ha] Hh] Hm].
  pose proof (emit_accounts _ _ (drop (emitted f) (partial f)) _ Hr) as Hr'.
  pose proof (emit_frame (drop (emitted f) (partial f)) f) as (E1 & E2 & E3 & E4).
  destruct (emit _ f) as [a f']. cbn [fst snd] in *. split; [|cbn; by rewrite E2].
  constructor; cbn [f_state emitted heldFence set_partial].
  - rewrite E1, E2, firstn_all. rewrite <- app_assoc, take_drop in Hr'.
    by eapply accounted_frame; [..|exact Hr'].
  - lia.
  - intros _. rewrite E1, E4, firstn_all. split_and!; [by destruct (block (f_state f))|done|by destruct (heldFence f)|done].
  - rewrite E4, E1. by destruct (heldFence f).
Qed.

Lemma kept_text_snoc st l : concat (map (fun l => l ++ [10]) (p_text st ++ [l])) = kept_text st ++ l ++ [10].
Proof. unfold kept_text. rewrite map_app, concat_app. cbn. by rewrite app_nil_r. Qed.

Lemma kept_text_line st l fl :
  kept_text (consumeLine st l fl) =
  if keeps_line st l fl then kept_text st ++ l ++ [10] else kept_text st.
Proof.
  unfold kept_text at 1. rewrite keeps_line_spec. destruct (keeps_line st l fl); [apply kept_text_snoc|done].
Qed.

(** Showing a whole line of which [e] units were shown. *)
Lemma show_accounts line next e out f :
  accounted (kept_text (f_state f) ++ take e line) out f ->
  (keeps_line (f_state f) line (opens_next next) = false -> e = 0%nat) ->
  let st := consumeLine (f_state f) line (opens_next next) in
  let '(a, f') := show line next e f in
  accounted (kept_text st) (out ++ a) f' /\ f_state f' = st /\ partial f' = partial f /\
  emitted f' = emitted f /\ heldFence f' = heldFence f.
Proof.
  intros Hr He. cbn zeta. unfold show, consume. fold (opens_next next).
  fold (keeps_line (f_state f) line (opens_next next)).
  rewrite kept_text_line. destruct (keeps_line _ _ _).
  - set (f1 := set_machine _ f).
    assert (accounted (kept_text (f_state f) ++ take e line) out f1) as Hr1
      by (by eapply accounted_frame; [..|exact Hr]).
    pose proof (emit_accounts _ _ (drop e line) _ Hr1) as Hr2.
    pose proof (emit_frame (drop e line) f1) as (E1 & E2 & E3 & E4).
    destruct (emit (drop e line) f1) as [a f2]. cbn [fst snd] in *.
    pose proof (emit_accounts _ _ [10] _ Hr2) as Hr3.
    pose proof (emit_frame [10] f2) as (E5 & E6 & E7 & E8).
    destruct (emit [10] f2) as [b f3]. cbn [fst snd] in *.
    split_and!; [|by rewrite E5, E1|by rewrite E6, E2|by rewrite E7, E3|by rewrite E8, E4].
    rewrite <- (app_assoc _ (take e line)), take_drop in Hr3. by rewrite <- !app_assoc in *.
  - rewrite app_nil_r. rewrite (He eq_refl), take_0, app_nil_r in Hr. split_and!; try done.
Qed.

(** Nothing is shown early of a line that is not kept. *)
Lemma calm_early lines l rest out f : all = lines ++ l :: rest -> inv lines l out f ->
  emitted f <> 0%nat -> keeps_line (f_state f) l false = true /\ fenced (f_state f) l = false.
Proof.
  intros Hall [_ Hl Hee Hs] He. destruct (Hee He) as (Hb & Ha & Hh & Hm). rewrite Hh in Hs.
  rewrite Hall in Hcalm. apply calm_at in Hcalm. rewrite Hs in Hcalm. unfold calm in Hcalm.
  rewrite Hb, Ha in Hcalm. cbn [orb] in Hcalm. apply orb_true_iff in Hcalm as [H|H].
  - apply andb_true_iff in H as [H1 H2]. split; [done|by apply negb_true_iff].
  - by rewrite structural_take in Hm.
Qed.

Lemma settled_line lines l rest out f : all = lines ++ l :: rest -> ends_with [13] l = false ->
  heldFence f = None -> run newState lines (Some l) = f_state f ->
  accounted (kept_text (f_state f) ++ take (emitted f) l) out f ->
  (emitted f <> 0%nat -> keeps_line (f_state f) l false = true /\ fenced (f_state f) l = false) ->
  let f' := if fenced (f_state f) l then set_partial (partial f) 0 (Some l) f
    else let f2 := (show l None (emitted f) f).2 in set_partial (partial f2) 0 (heldFence f2) f2 in
  let a := if fenced (f_state f) l then [] else (show l None (emitted f) f).1 in
  inv (lines ++ [l]) [] (out ++ a) f' /\ partial f' = partial f.
Proof.
  intros Hall Hcr Hh Hst Hr He. cbn zeta. destruct (fenced (f_state f) l) eqn:Ef.
  - assert (emitted f = 0%nat) as E0.
    { destruct (decide (emitted f = 0%nat)) as [|Hne]; [done|]. by destruct (He Hne). }
    rewrite app_nil_r. split; [|done]. rewrite E0 in Hr. constructor; cbn; [|lia|done|].
    + by eapply accounted_frame; [..|exact Hr].
    + exists lines. by rewrite Hst.
  - pose proof (show_accounts l None (emitted f) out f Hr) as H. cbn zeta in H.
    destruct (show l None (emitted f) f) as [a f2]. cbn [fst snd].
    destruct H as (Ha & E1 & E2 & E3 & E4).
    { intros Hk. destruct (decide (emitted f = 0%nat)) as [|Hne]; [done|].
      destruct (He Hne) as [Hk' _]. change (opens_next None) with false in Hk. congruence. }
    split; [|cbn; done]. constructor; cbn [f_state emitted heldFence set_partial take]; [|cbn; lia|done|].
    + rewrite E1, app_nil_r. by eapply accounted_frame; [..|exact Ha].
    + rewrite E4, Hh. intros next. rewrite run_snoc, E1, Hst. by apply flag_irrelevant.
Qed.

Lemma push_line_inv lines l rest out f : all = lines ++ l :: rest -> ends_with [13] l = false ->
  inv lines l out f ->
  inv (lines ++ [l]) [] (out ++ (push_line l f).1) (push_line l f).2 /\
  partial (push_line l f).2 = partial f.
Proof.
  intros Hall Hcr Hi. pose proof (calm_early lines l rest out f Hall Hi) as Hearly.
  destruct Hi as [Hr Hl He Hs]. unfold push_line, stripCr. rewrite Hcr. unfold flushHeldFence.
  destruct (heldFence f) as [fence|] eqn:Hh.
  - destruct Hs as (ls & -> & Hst & Hf).
    assert (emitted f = 0%nat) as E0.
    { destruct (decide (emitted f = 0%nat)) as [|Hne]; [done|]. by destruct (He Hne) as (_ & _ & ? & _). }
    rewrite E0, take_0, app_nil_r in Hr. set (f0 := set_partial (partial f) (emitted f) None f).
    assert (accounted (kept_text (f_state f0) ++ take 0 fence) out f0) as Hr0
      by (rewrite take_0, app_nil_r; by eapply accounted_frame; [..|exact Hr]).
    pose proof (show_accounts fence (Some l) 0 out f0 Hr0 (fun _ => eq_refl)) as H. cbn zeta in H.
    destruct (show fence (Some l) 0 f0) as [a f1]. destruct H as (Ha & E1 & E2 & E3 & E4).
    change (heldFence f0) with (@None ustring) in E4. change (emitted f0) with (emitted f) in E3. rewrite E0 in E3.
    pose proof (settled_line (ls ++ [fence]) l rest (out ++ a) f1 Hall Hcr E4) as Hn.
    rewrite E3, take_0, app_nil_r in Hn.
    change (f_state f0) with (f_state f) in *.
    destruct Hn as [Hi Hp]; [by rewrite run_snoc, E1, Hst|by rewrite E1|done|].
    rewrite E2 in Hp. change (partial f0) with (partial f) in Hp.
    change (match block (f_state f1) with Some _ => false | None => true end && test FENCE_LINE l &&
      negb (justClosed (f_state f1))) with (fenced (f_state f1) l).
    rewrite E3. destruct (fenced (f_state f1) l); cbn [fst snd] in *; [by rewrite app_nil_r in Hi|].
    destruct (show l None 0 f1) as [b f2]. cbn [fst snd] in *. by rewrite app_assoc.
  - pose proof (settled_line lines l rest out f Hall Hcr Hh (Hs _) Hr Hearly) as [Hi Hp].
    change (match block (f_state f) with Some _ => false | None => true end && test FENCE_LINE l &&
      negb (justClosed (f_state f))) with (fenced (f_state f) l).
    destruct (fenced (f_state f) l); cbn [fst snd] in *; [done|].
    by destruct (show l None (emitted f) f) as [b f2].
Qed.

(** Where a text that has been cut into lines goes on. *)
Lemma split_on_first s : exists line rest, split_on 10 s = line :: rest /\ ~ In 10 line /\
  match rest with [] => s = line | _ => exists s', s = line ++ 10 :: s' /\ rest = split_on 10 s' end.
Proof.
  pose proof (join_split_on 10 s) as Hj. pose proof (split_on_no_sep 10 s) as Hn.
  pose proof (split_on_nonempty 10 s) as Hne. destruct (split_on 10 s) as [|line rest]; [done|].
  exists line, rest. inversion Hn as [|? ? Hl Hrest]; subst. split_and!; [done|done|].
  destruct rest as [|l' rest]; [done|]. exists (join [10] (l' :: rest)). split; [done|].
  symmetry. apply split_on_join; [done|]. exact Hrest.
Qed.

Context (Hcr : forall l, l ∈ all -> ~ In 13 l).

Lemma no_cr_end l : ~ In 13 l -> ends_with [13] l = false.
Proof.
  intros H. destruct (ends_with [13] l) eqn:E; [|done]. apply ends_with_spec in E as [t ->].
  exfalso. apply H, in_app_iff. right. by left.
Qed.

(** What there is of the next line begins it. *)
Lemma split_on_grow a more : ~ In 10 a -> exists x rest, split_on 10 (a ++ more) = (a ++ x) :: rest.
Proof.
  intros Ha. destruct (split_on_first more) as (line & rest & E & Hl & Hr). destruct rest as [|l' rest].
  - exists more, []. apply split_on_free. subst line. by rewrite in_app_iff; intros [?|?].
  - destruct Hr as (s' & -> & _). exists line, (split_on 10 s'). rewrite app_assoc. apply split_on_app.
    by rewrite in_app_iff; intros [?|?].
Qed.

Lemma push_lines_inv fuel : forall lines out f future, (length (partial f) < fuel)%nat ->
  inv lines (default [] (head (split_on 10 (partial f)))) out f ->
  all = lines ++ split_on 10 (partial f ++ future) ->
  exists lines', inv lines' (partial (push_lines fuel f).2) (out ++ (push_lines fuel f).1) (push_lines fuel f).2 /\
    ~ In 10 (partial (push_lines fuel f).2) /\
    all = lines' ++ split_on 10 (partial (push_lines fuel f).2 ++ future).
Proof.
  induction fuel as [|fuel IH]; intros lines out f future Hf Hi Hall; [lia|].
  destruct (split_on_first (partial f)) as (line & rest & E & Hn & Hrest).
  cbn [push_lines]. rewrite E in *. cbn [head default] in Hi. destruct rest as [|l' rest].
  - exists lines. cbn [fst snd]. rewrite app_nil_r, Hrest. rewrite Hrest in Hall. by split_and!.
  - destruct Hrest as (s' & Ep & Er).
    assert (all = lines ++ line :: split_on 10 (s' ++ future)) as Hall'.
    { rewrite Hall, Ep. rewrite <- app_assoc. cbn [app]. by rewrite split_on_app. }
    assert (drop (S (length line)) (partial f) = s') as Ed.
    { rewrite Ep. change (line ++ 10 :: s') with (line ++ [10] ++ s'). rewrite app_assoc.
      replace (S (length line)) with (length (line ++ [10])) by (rewrite length_app; cbn; lia).
      apply drop_app_length. }
    rewrite Ed. set (f0 := set_partial s' (emitted f) (heldFence f) f).
    assert (inv lines line out f0) as Hi0.
    { destruct Hi as [H1 H2 H3 H4]. constructor; [by eapply accounted_frame; [..|exact H1]|done..]. }
    assert (ends_with [13] line = false) as Hc.
    { apply no_cr_end, Hcr. rewrite Hall'. apply elem_of_app. right. by left. }
    pose proof (push_line_inv lines line _ out f0 Hall' Hc Hi0) as [Hi1 Hp1].
    destruct (push_line line f0) as [a f1]. cbn [fst snd] in *. change (partial f0) with s' in Hp1.
    destruct (IH (lines ++ [line]) (out ++ a) f1 future) as (lines' & H1 & H2 & H3).
    + rewrite Hp1. rewrite Ep, length_app in Hf. cbn in Hf. lia.
    + by apply (inv_grow _ [] (default [] (head (split_on 10 (partial f1))))) in Hi1.
    + by rewrite Hp1, <- app_assoc.
    + destruct (push_lines fuel f1) as [b f2]. cbn [fst snd] in *. exists lines'.
      by rewrite app_assoc.
Qed.

Lemma push_delta_inv lines out f d future : inv lines (partial f) out f -> ~ In 10 (partial f) ->
  all = lines ++ split_on 10 (partial f ++ d ++ future) ->
  exists lines', inv lines' (partial (push_delta d f).2) (out ++ (push_delta d f).1) (push_delta d f).2 /\
    ~ In 10 (partial (push_delta d f).2) /\
    all = lines' ++ split_on 10 (partial (push_delta d f).2 ++ future).
Proof.
  intros Hi Hn Hall. unfold push_delta. set (f0 := set_partial (partial f ++ d) (emitted f) (heldFence f) f).
  assert (inv lines (default [] (head (split_on 10 (partial f0)))) out f0) as Hi0.
  { destruct (split_on_grow (partial f) d Hn) as (more & rest & E).
    cbn [f0 set_partial partial]. rewrite E. cbn [head default].
    apply (inv_grow _ _ more) in Hi. destruct Hi as [H1 H2 H3 H4].
    constructor; [by eapply accounted_frame; [..|exact H1]|done..]. }
  destruct (push_lines_inv (S (length (partial f0))) lines out f0 future) as (lines' & H1 & H2 & H3);
    [lia|done|by rewrite Hall; cbn; rewrite <- app_assoc|].
  destruct (push_lines (S (length (partial f0))) f0) as [a f1]. cbn [fst snd] in *.
  assert (ends_with [13] (partial f1) = false) as Hc.
  { apply no_cr_end. destruct (split_on_grow _ future H2) as (x & rest & E). rewrite E in H3.
    intros Hin. apply (Hcr (partial f1 ++ x)); [rewrite H3; apply elem_of_app; right; by left|].
    apply in_app_iff. by left. }
  pose proof (eager_inv lines' _ f1 H1 Hc) as [H4 H5].
  destruct (eager f1) as [b f2]. cbn [fst snd] in *. exists lines'. rewrite H5 in *.
  by rewrite app_assoc.
Qed.

Lemma push_all_inv deltas : forall lines out f, inv lines (partial f) out f -> ~ In 10 (partial f) ->
  all = lines ++ split_on 10 (partial f ++ concat deltas) ->
  exists lines', inv lines' (partial (push_all deltas f).2) (out ++ (push_all deltas f).1) (push_all deltas f).2 /\
    ~ In 10 (partial (push_all deltas f).2) /\ all = lines' ++ [partial (push_all deltas f).2].
Proof.
  induction deltas as [|d deltas IH]; intros lines out f Hi Hn Hall; cbn [push_all concat] in *.
  - exists lines. cbn [fst snd]. rewrite !app_nil_r in *. by rewrite split_on_free in Hall.
  - destruct (push_delta_inv lines out f d (concat deltas) Hi Hn Hall) as (lines1 & Hi1 & Hn1 & Hall1).
    destruct (push_delta d f) as [a f1]. cbn [fst snd] in *.
    destruct (IH _ _ _ Hi1 Hn1 Hall1) as (lines2 & Hi2 & Hn2 & Hall2).
    destruct (push_all deltas f1) as [b f2]. cbn [fst snd] in *. exists lines2. by rewrite app_assoc.
Qed.

(** The unterminated last line. *)
Lemma last_line_accounts l out f :
  accounted (kept_text (f_state f) ++ take (emitted f) l) out f ->
  (keeps_line (f_state f) l false = false -> emitted f = 0%nat) ->
  trim (out ++ match l with
    | [] => []
    | _ => let '(kept, f) := consume l None f in
        match kept with Some kept => (emit (drop (emitted f) kept) f).1 | None => [] end
    end) = trim (kept_text (consumeLine (f_state f) l false)).
Proof.
  intros Hr He. rewrite kept_text_line. destruct l as [|c l'].
  - rewrite take_nil, app_nil_r in Hr. rewrite app_nil_r, (accounted_trim _ _ _ Hr).
    destruct (keeps_line _ _ _); [|done]. by rewrite trim_app_blank.
  - set (l := c :: l') in *. unfold consume. change (match None with Some n => is_action n | None => false end) with false.
    fold (keeps_line (f_state f) l false). destruct (keeps_line _ _ _).
    + set (f1 := set_machine _ f).
      assert (accounted (kept_text (f_state f) ++ take (emitted f) l) out f1) as Hr1
        by (by eapply accounted_frame; [..|exact Hr]).
      pose proof (emit_accounts _ _ (drop (emitted f) l) _ Hr1) as Hr2.
      replace (out ++ _) with (out ++ (emit (drop (emitted f) l) f1).1) by done.
      rewrite (accounted_trim _ _ _ Hr2), <- app_assoc, take_drop, app_assoc. symmetry. by apply trim_app_blank.
    + rewrite (He eq_refl), take_0, !app_nil_r in *. apply (accounted_trim _ _ _ Hr).
Qed.

Lemma flush_agrees lines out f : inv lines (partial f) out f -> ~ In 10 (partial f) ->
  all = lines ++ [partial f] ->
  trim (out ++ (flush f).1) = trim (kept_text (consumeLine (run newState lines None) (partial f) false)).
Proof.
  intros Hi Hn Hall. pose proof (calm_early lines (partial f) [] out f Hall Hi) as Hearly.
  destruct Hi as [Hr Hl He Hs].
  assert (ends_with [13] (partial f) = false) as Hc.
  { apply no_cr_end, Hcr. rewrite Hall. apply elem_of_app. right. by left. }
  unfold flush, flushHeldFence. destruct (heldFence f) as [fence|] eqn:Hh.
  - destruct Hs as (ls & -> & Hst & Hf).
    assert (emitted f = 0%nat) as E0.
    { destruct (decide (emitted f = 0%nat)) as [|Hne]; [done|]. by destruct (He Hne) as (_ & _ & ? & _). }
    rewrite E0, take_0, app_nil_r in Hr. set (f0 := set_partial (partial f) (emitted f) None f).
    assert (accounted (kept_text (f_state f0) ++ take 0 fence) out f0) as Hr0
      by (rewrite take_0, app_nil_r; by eapply accounted_frame; [..|exact Hr]).
    pose proof (show_accounts fence None 0 out f0 Hr0 (fun _ => eq_refl)) as H. cbn zeta in H.
    destruct (show fence None 0 f0) as [a f1]. destruct H as (Ha & E1 & E2 & E3 & E4).
    change (partial f0) with (partial f) in E2. change (emitted f0) with (emitted f) in E3.
    rewrite <- E2 in *. unfold stripCr. rewrite Hc.
    assert (run newState (ls ++ [fence]) None = f_state f1) as -> by (by rewrite run_snoc, E1, <- Hst).
    rewrite <- (last_line_accounts (partial f1) (out ++ a) f1).
    + destruct (partial f1); cbn [fst]; [by rewrite !app_nil_r|].
      destruct (consume _ None f1) as [[kept|] f2]; [|by rewrite !app_nil_r].
      destruct (emit _ f2). cbn [fst snd]. by rewrite <- app_assoc.
    + by rewrite E3, E0, take_0, app_nil_r, E1.
    + by rewrite E3, E0.
  - rewrite (Hs None). unfold stripCr. rewrite Hc. rewrite <- (last_line_accounts (partial f) out f Hr).
    + destruct (partial f); [done|].
      destruct (consume _ None f) as [[kept|] f2]; [|done]. by destruct (emit _ f2).
    + intros Hk. destruct (decide (emitted f = 0%nat)) as [|Hne]; [done|].
      destruct (Hearly Hne). congruence.
Qed.
End Agreement.

(** ** The whole reply *)

Lemma split_lines_plain s : ~ In 13 s -> split_lines s = split_on 10 s.
Proof.
  intros H. rewrite <- (join_split_on 10 s) at 1. apply split_lines_join; [apply split_on_nonempty|].
  apply forallb_forall. intros l Hl. unfold one_line, includes_char.
  apply andb_true_iff. rewrite !negb_true_iff, <- !not_true_iff_false, !existsb_exists.
  pose proof (split_on_no_sep 10 s) as Hn. rewrite Forall_forall in Hn. split.
  - intros (c & Hc & E). apply (Hn l); [by apply list_elem_of_In|]. by replace 10 with c by lia.
  - intros (c & Hc & E). apply H. replace 13 with c by lia. by apply (split_on_incl 10 s l).
Qed.

Lemma kept_text_join st : trim (kept_text st) = trim (join [10] (p_text st)).
Proof.
  unfold kept_text. destruct (decide (p_text st = [])) as [->|Hne]; [done|].
  assert (concat (map (fun l => l ++ [10]) (p_text st)) = join [10] (p_text st) ++ [10]) as ->;
    [|by apply trim_app_blank].
  induction (p_text st) as [|l [|l' ls] IH]; [done|by cbn; rewrite app_nil_r|].
  cbn [map concat] in *. rewrite IH by done. cbn [join]. by rewrite <- !app_assoc.
Qed.

(** C27. However a reply is cut into deltas, what the stream filter shows of it is, but for blanks around
    it, the text the parser reads out of the whole, provided three things: the reply has no carriage
    return (the parser breaks lines at one, the filter at line feeds alone); no line that is still being written could be taken for prose and turn out to
    be structure; and the two ways of looking past a fence agree. *)
Theorem filter_agrees deltas : let out := concat deltas in
  ~ In 13 out -> calm_all newState (split_on 10 out) = true -> fences_agree (split_on 10 out) = true ->
  trim (shown_of deltas) = parsed_text (parseNlt out).
Proof.
  cbn zeta. intros H13 Hcalm Hfence. unfold shown_of.
  assert (forall l, l ∈ split_on 10 (concat deltas) -> ~ In 13 l) as Hcr.
  { intros l Hl H. apply H13, (split_on_incl 10 _ l); [by apply list_elem_of_In|done]. }
  destruct (push_all_inv _ Hcalm Hcr deltas [] [] createNltStreamFilter) as (lines & Hi & Hn & Hall); [|by intros []|done|].
  { constructor; cbn; [by split|lia|done|done]. }
  destruct (push_all deltas createNltStreamFilter) as [a f]. cbn [fst snd app] in *.
  rewrite (flush_agrees _ Hcalm Hcr lines a f Hi Hn Hall), kept_text_join.
  unfold parseNlt. rewrite split_lines_plain by done. rewrite Hall in Hfence |- *. rewrite batch_is_streamed by done.
  unfold finish. rewrite p_text_closeBlock. by destruct (imap _ _).
Qed.
Transparent consumeLine.

(** A reply around a fenced call whose value has a blank line and an indented one. *)
Definition fenced_reply : ustring :=
  lines_of ["I will look at the file."; "Two things: *a* and `b`."; ""; "```"; "ACTION: file_write"; "path: notes.md";
            "text: <<<"; "  one"; ""; "ACTION two"; ">>>"; "END"; "```"; ""; "```js"; "let x = 1"; "```"; "Done."]%string.

Lemma filter_agrees_witness :
  trim (shown_of (by_units fenced_reply)) = parsed_text (parseNlt (concat (by_units fenced_reply))).
Proof.
  apply (filter_agrees (by_units fenced_reply)).
  - intros H. revert H. vm_compute. lia.
  - vm_compute. reflexivity.
  - vm_compute. reflexivity.
Defined.

Example filter_agrees_text : trim (shown_of (by_units fenced_reply)) =
  lines_of ["I will look at the file."; "Two things: *a* and `b`."; ""; ""; "```js"; "let x = 1"; "```"; "Done."]%string.
Proof. by vm_compute. Qed.

(** ** Where the screen and the transcript part *)

Definition shows (text : ustring) : ustring * ustring :=
  (trim (shown_of (by_units text)), parsed_text (parseNlt text)).

(** A space before the colon: the opener is shown, and the block is run. *)
Lemma spaced_colon_shown :
  shows (lines_of ["Hi"; "ACTION : ls"; "a: 1"; "END"]%string) =
  (lines_of ["Hi"; "ACTION : ls"]%string, js "Hi").
Proof. by vm_compute. Qed.

(** A tag with spaces inside is dropped from the transcript after it was shown, without its line break. *)
Lemma spaced_tag_shown :
  shows (lines_of ["Hi"; "< div >"; "there"]%string) = (lines_of ["Hi"; "< div >there"]%string, lines_of ["Hi"; "there"]%string).
Proof. by vm_compute. Qed.

(** A fence of four backticks around a block is decoration to the parser and text to the screen. *)
Lemma long_fence_shown :
  shows (lines_of ["Hi"; "````"; "ACTION: ls"; "END"; "````"]%string) = (lines_of ["Hi"; "````````"]%string, js "Hi").
Proof. by vm_compute. Qed.

(** The parser looks past a blank line for the block a fence opens, the filter does not. *)
Lemma fence_before_blank_shown :
  shows (lines_of ["Hi"; "```"; ""; "ACTION: ls"; "END"; "```"]%string) = (lines_of ["Hi"; "```"]%string, js "Hi").
Proof. by vm_compute. Qed.
