(* ===== verification/Native.v ===== *)
(** * The native dialect: [tools/dialect/native.ts]

    Calls that travel beside the text: what they are read as, the messages that answer them, and
    the names the tools are sent under. The catalogue's cost on the wire is given to the loop. *)
From S2P Require Import Prelude UString Kinds Trust Json Number JsonParse Tools Messages Dialect.
Local Open Scope Z_scope.

(** ** Names on the wire *)

Definition wire_char (c : Z) : bool := is_alpha c || is_digit c || (c =? 95) || (c =? 45).

(** [WIRE_NAME.test]. *)
Definition wire_name_ok (s : ustring) : bool :=
  (1 <=? zlen s) && (zlen s <=? 64) && forallb wire_char s.

(** [slug.replaceAll(".", "__")]. *)
Definition wireName (slug : ustring) : ustring :=
  concat (map (fun c => if c =? 46 then [95; 95] else [c]) slug).

(** As the registry's own lookup sees a name. *)
Definition lookupKey (name : ustring) : ustring :=
  List.filter (fun c => negb (is_space c || (c =? 95) || (c =? 46) || (c =? 45))) (lower name).

(** ** The definitions a request carries *)

Definition no_guidance : ustring :=
  js "no guidance was supplied for this tool " ++ [0x2014] ++
  js " if it does not clearly match what was asked, prefer another tool or reply without one".

Definition renderNativeDescription (s : ToolSpec) : ustring :=
  let use := trim (s_whenToUse s) in
  let dont := match s_whenNotToUse s with Some t => trim t | None => [] end in
  join [10]
    ([trim (s_summary s)] ++
     (if bool_decide (use = []) then [] else [js "Use when: " ++ use]) ++
     [js "Do NOT use when: " ++ (if bool_decide (dont = []) then no_guidance else dont)] ++
     (if s_mutating s
      then [js "Changes state: yes " ++ [0x2014] ++ js " only use it when the person asked for it."]
      else [])).

Record ToolDefinition := {
  d_name : ustring; d_description : ustring; d_parameters : ToolParameters }.

(** What a request can be refused for. *)
Inductive NativeError :=
| NameInvalid (slug provider : ustring)
| NameCollision (slug other : ustring).

Definition toDefinition (s : ToolSpec) : result NativeError ToolDefinition :=
  let name := wireName (s_slug s) in
  if wire_name_ok name
  then Ok {| d_name := name; d_description := renderNativeDescription s;
             d_parameters := s_parameters s |}
  else Err (NameInvalid (s_slug s) (s_provider s)).

Definition rewritten (s : ToolSpec) : bool := negb (bool_decide (s_slug s = wireName (s_slug s))).

(** [seen.get(key)], the map's entries newest first. *)
Definition seen_get (k : ustring) (seen : list ToolSpec) : option ToolSpec :=
  List.find (fun s => bool_decide (lookupKey (s_slug s) = k)) seen.

Fixpoint collisions (seen l : list ToolSpec) : result NativeError unit :=
  match l with
  | [] => Ok tt
  | s :: rest =>
      match seen_get (lookupKey (s_slug s)) seen with
      | Some other =>
          if rewritten s then Err (NameCollision (s_slug s) (s_slug other))
          else if rewritten other then Err (NameCollision (s_slug other) (s_slug s))
          else collisions (s :: seen) rest
      | None => collisions (s :: seen) rest
      end
  end.

(** [None] is a request without tools. *)
Definition requestTools (specs : list ToolSpec) : result NativeError (option (list ToolDefinition)) :=
  match specs with
  | [] => Ok None
  | _ => _ ← collisions [] specs; ds ← mapR toDefinition specs; Ok (Some ds)
  end.

(** ** Reading a step *)

Definition malformed_arguments (name message hint : ustring) : FieldError :=
  {| fe_field := name ++ js ".arguments"; fe_message := message; fe_hint := hint |}.

Definition not_json (name : ustring) : FieldError :=
  malformed_arguments name (js "was not valid JSON, so the call could not be read.")
    (js "Send the arguments again as a single well-formed JSON object. If the last attempt was cut off, the reply may have hit the output limit " ++
     [0x2014] ++ js " keep the arguments short.").

(** [Array.isArray(value) ? "an array" : typeof value]. *)
Definition kind_of (v : json) : ustring :=
  match v with
  | JArr _ => js "an array" | JNull | JObj _ => js "object" | JBool _ => js "boolean"
  | JNum _ => js "number" | JStr _ => js "string"
  end.

Definition not_object (name : ustring) (v : json) : FieldError :=
  malformed_arguments name (js "parsed to " ++ kind_of v ++ js ", not an object.")
    (js "Arguments are always a JSON object keyed by field name, even when there is only one field.").

(** A document that parses to a string is parsed once more. *)
Definition parse_twice (s : ustring) : option json :=
  v ← json_parse s;
  match v with JStr inner => json_parse inner | _ => Some v end.

Definition readArguments (name raw : ustring) : result FieldError Args :=
  let trimmed := trim raw in
  match trimmed with
  | [] => Ok []
  | _ =>
      match parse_twice trimmed with
      | None => Err (not_json name)
      | Some (JObj args) => Ok args
      | Some v => Err (not_object name v)
      end
  end.

Definition unnamed : FieldError :=
  malformed_arguments (js "(unnamed)") (js "arrived without a function name.")
    (js "Name the tool being called. If none applies, reply without calling a tool.").

(** One call: an intent, or the problem with it. *)
Definition read_call (c : ToolCallRequest) : result FieldError ToolIntent :=
  let name := trim (c_name c) in
  match name with
  | [] => Err unnamed
  | _ => args ← readArguments name (c_arguments c);
         Ok {| i_callId := c_id c; i_slug := name; i_args := args |}
  end.

Definition goods {E A} (l : list (result E A)) : list A :=
  omap (fun r => match r with Ok a => Some a | Err _ => None end) l.
Definition bads {E A} (l : list (result E A)) : list E :=
  omap (fun r => match r with Ok _ => None | Err e => Some e end) l.

Definition parseNative (output : StepOutput) : ParsedOutput :=
  let read := map read_call (so_calls output) in
  {| parsed_intents := goods read; parsed_text := trim (so_text output); malformed := bads read |}.

(** ** Writing a step back *)

Definition errorsFor (slug : ustring) (errors : list FieldError) : list FieldError :=
  List.filter (fun e => bool_decide (fe_field e = slug) || starts_with (slug ++ js ".") (fe_field e)) errors.

Definition render_native_call (output : StepOutput) : ChatMessage :=
  {| role := RAssistant; content := so_text output;
     toolCalls := match so_calls output with [] => None | calls => Some calls end;
     toolCallId := None; origin := None; tainted := false |}.

Definition tool_message (id body : ustring) : ChatMessage :=
  {| role := RTool; content := body; toolCalls := None; toolCallId := Some id; origin := None;
     tainted := false |}.

Definition render_native_observation (results : list ToolResult) : list ChatMessage :=
  map (fun r => tool_message (callId r) (renderTrusted r)) results.

Definition error_line (e : FieldError) : ustring :=
  js "- " ++ fe_field e ++ js ": " ++ fe_message e ++ js " " ++ fe_hint e.

Definition not_run : ustring :=
  js "This call was not run: another call in the same step could not be used, and a step runs all of its calls or none of them.".

Definition repair_body (errors : list FieldError) (c : ToolCallRequest) : ustring :=
  match errorsFor (trim (c_name c)) errors with
  | [] => not_run
  | mine => join [10] (js "This call could not be used:" :: map error_line mine)
  end.

Definition try_again : ustring :=
  js "Try those calls again, corrected. This is the only retry " ++ [0x2014] ++
  js " if you cannot fill a required field, say so in a plain reply instead of guessing.".

Definition render_native_repair (errors : list FieldError) (output : StepOutput) : list ChatMessage :=
  map (fun c => tool_message (c_id c) (repair_body errors c)) (so_calls output) ++
  [plain_message RUser try_again].

Definition nativeDialect : Dialect :=
  {| parse := parseNative; renderCall := render_native_call;
     renderObservation := render_native_observation; renderRepair := render_native_repair |}.

(** ** The names come back *)

Lemma lookupKey_normalise s : lookupKey s = normalise s.
Proof. done. Qed.

Lemma lookupKey_app a b : lookupKey (a ++ b) = lookupKey a ++ lookupKey b.
Proof. unfold lookupKey, lower. by rewrite map_app, List.filter_app. Qed.

Lemma wireName_key s : lookupKey (wireName s) = lookupKey s.
Proof.
  unfold wireName. induction s as [|c s IH]; [done|]. cbn [map concat].
  rewrite lookupKey_app, IH. change (c :: s) with ([c] ++ s). rewrite lookupKey_app.
  by destruct (Z.eqb_spec c 46) as [->|].
Qed.

Lemma wireName_no_dot s : Forall (fun c => c <> 46) (wireName s).
Proof.
  unfold wireName. induction s as [|c s IH]; [constructor|]. cbn [map concat].
  apply Forall_app. split; [|done]. destruct (Z.eqb_spec c 46); by repeat constructor.
Qed.

Lemma wireName_idem s : wireName (wireName s) = wireName s.
Proof.
  pose proof (wireName_no_dot s) as H. revert H. generalize (wireName s) as w. unfold wireName.
  induction w as [|c w IH]; intros H; [done|]. apply Forall_cons_1 in H as [Hc Hw]. cbn [map concat].
  rewrite (IH Hw). by destruct (Z.eqb_spec c 46).
Qed.

(** Two tools sharing a key are both sent under their own slugs. *)
Definition apart (a b : ToolSpec) : Prop :=
  lookupKey (s_slug a) = lookupKey (s_slug b) -> rewritten a = false /\ rewritten b = false.

Lemma apart_pairs a b l : ForallOrdPairs apart l -> a ∈ l -> b ∈ l -> a = b \/ apart a b.
Proof.
  intros Hl Ha%list_elem_of_In Hb%list_elem_of_In.
  destruct (ForallOrdPairs_In Hl a b Ha Hb) as [?|[?|H]]; [by left|by right|right].
  intros Hk. by destruct (H (eq_sym Hk)).
Qed.

Lemma seen_get_spec k seen :
  match seen_get k seen with
  | Some s => s ∈ seen /\ lookupKey (s_slug s) = k
  | None => forall s, s ∈ seen -> lookupKey (s_slug s) <> k
  end.
Proof.
  unfold seen_get. destruct (List.find _ seen) as [s|] eqn:E.
  - apply find_some in E as [Hin Hk]. split; [by apply list_elem_of_In|by apply bool_decide_eq_true_1 in Hk].
  - intros s Hs Hk. apply list_elem_of_In in Hs. pose proof (find_none _ _ E s Hs) as Hn. cbn in Hn.
    by rewrite bool_decide_eq_true_2 in Hn.
Qed.

Lemma collisions_apart l : forall seen, collisions seen l = Ok tt -> ForallOrdPairs apart seen ->
  ForallOrdPairs apart (rev l ++ seen).
Proof.
  induction l as [|s l IH]; intros seen Hc Hs; [done|]. cbn [rev]. rewrite <- app_assoc. cbn [app].
  cbn [collisions] in Hc. pose proof (seen_get_spec (lookupKey (s_slug s)) seen) as Hg.
  destruct (seen_get _ seen) as [o|].
  - destruct Hg as [Hin Hk]. destruct (rewritten s) eqn:Rs; [done|].
    destruct (rewritten o) eqn:Ro; [done|]. apply IH; [done|]. constructor; [|done].
    apply Forall_forall. intros b Hb Hkb. split; [done|].
    destruct (apart_pairs o b seen Hs Hin Hb) as [<-|H]; [done|]. apply H. congruence.
  - apply IH; [done|]. constructor; [|done]. apply Forall_forall.
    intros b Hb Hkb. by destruct (Hg b Hb).
Qed.

Lemma requestTools_ok l ds : requestTools l = Ok (Some ds) ->
  ForallOrdPairs apart (rev l) /\ Forall2 (fun s d => toDefinition s = Ok d) l ds.
Proof.
  unfold requestTools. destruct l as [|s l]; [done|]. intros H.
  apply bind_ok in H as ([] & Hc & H). apply bind_ok in H as (ds' & Hd & H). injection H as ->.
  split; [|by apply mapR_ok_Forall2].
  pose proof (collisions_apart (s :: l) [] Hc (FOP_nil _)) as Ha. by rewrite app_nil_r in Ha.
Qed.

Lemma toDefinition_name s d : toDefinition s = Ok d ->
  d_name d = wireName (s_slug s) /\ wire_name_ok (d_name d) = true /\ d_parameters d = s_parameters s.
Proof. unfold toDefinition. destruct (wire_name_ok _) eqn:E; [|done]. by intros [= <-]. Qed.

Lemma not_rewritten s : rewritten s = false -> wireName (s_slug s) = s_slug s.
Proof. intros H%negb_false_iff%bool_decide_eq_true_1. done. Qed.

(** Among the tools of an accepted request, only a tool itself answers to its wire name's key
    unless nothing was rewritten. *)
Lemma accepted_slug l a b : ForallOrdPairs apart (rev l) -> a ∈ l -> b ∈ l ->
  lookupKey (s_slug b) = lookupKey (s_slug a) -> a = b \/ (rewritten a = false /\ rewritten b = false).
Proof.
  intros Hl Ha Hb Hk. assert (forall x, x ∈ l -> x ∈ rev l) as Hr.
  { intros x Hx%list_elem_of_In. apply list_elem_of_In. by apply in_rev in Hx. }
  destruct (apart_pairs a b _ Hl (Hr a Ha) (Hr b Hb)) as [->|H]; [by left|right]. by apply H.
Qed.

Lemma slug_unique (r : Registry) a b : NoDup (map (fun t => s_slug (spec t)) r) ->
  a ∈ r -> b ∈ r -> s_slug (spec a) = s_slug (spec b) -> a = b.
Proof.
  intros Hnd [i Hi]%list_elem_of_lookup [j Hj]%list_elem_of_lookup He.
  assert (i = j) as ->; [|congruence].
  apply (NoDup_lookup _ i j (s_slug (spec a)) Hnd); rewrite list_lookup_fmap.
  - by rewrite Hi.
  - by rewrite Hj, He.
Qed.

Lemma Forall2_elem_impl {A B} (P Q : A -> B -> Prop) l k : Forall2 P l k ->
  (forall a b, a ∈ l -> P a b -> Q a b) -> Forall2 Q l k.
Proof.
  induction 1 as [|a b l k Hab Hlk IH]; intros H; constructor.
  - apply H; [by left|done].
  - apply IH. intros x y Hx. apply H. by right.
Qed.

Lemma Forall2_elem_r {A B} (P : A -> B -> Prop) l k b : Forall2 P l k -> b ∈ k ->
  exists a, a ∈ l /\ P a b.
Proof.
  intros Hf [i Hi]%list_elem_of_lookup. destruct (Forall2_lookup_r _ _ _ _ _ Hf Hi) as (a & Ha & Hp).
  exists a. split; [by eapply list_elem_of_lookup_2|done].
Qed.

(** A catalogue the dialect sends comes back unambiguous: each definition's name is in the
    endpoint's grammar, the names are pairwise distinct, and the name a tool was sent under, dots
    rewritten, is resolved by the registry to that very tool. *)
Theorem wire_names_resolve (r : Registry) (ds : list ToolDefinition)
  (Hnd : NoDup (map (fun t => s_slug (spec t)) r))
  (Hds : requestTools (map spec r) = Ok (Some ds)) :
  Forall (fun d => wire_name_ok (d_name d) = true) ds /\ NoDup (map d_name ds) /\
  Forall2 (fun t d => resolve r (d_name d) = Some t) r ds.
Proof.
  apply requestTools_ok in Hds as [Ha Hf].
  assert (forall t d, t ∈ r -> toDefinition (spec t) = Ok d -> resolve r (d_name d) = Some t) as Hres.
  { intros t d Ht Hd. apply toDefinition_name in Hd as (-> & _ & _).
    assert (forall u, u ∈ r -> spec u ∈ map spec r) as Hsp
      by (intros u Hu; by apply (list_elem_of_fmap_2 spec)).
    assert (forall u, u ∈ r -> lookupKey (s_slug (spec u)) = lookupKey (s_slug (spec t)) ->
      u = t \/ (wireName (s_slug (spec t)) = s_slug (spec t) /\ rewritten (spec u) = false)) as Hkey.
    { intros u Hu Hk. destruct (accepted_slug _ (spec t) (spec u) Ha (Hsp t Ht) (Hsp u Hu) Hk)
        as [He|[Hrt Hru]].
      - left. apply (slug_unique r); [done..|by rewrite He].
      - right. by rewrite not_rewritten. }
    unfold resolve, lookup_tool.
    pose proof (find_rev_existsb (by_slug (wireName (s_slug (spec t)))) r) as H1.
    destruct (last_with _ r) as [u|].
    - destruct H1 as [Hu Hs%bool_decide_eq_true_1]. f_equal.
      destruct (Hkey u Hu) as [->|[Hw _]]; [by rewrite Hs, wireName_key|done|].
      apply (slug_unique r); [done..|by rewrite Hs, Hw].
    - pose proof (find_rev_existsb (by_normalised (wireName (s_slug (spec t)))) r) as H2.
      destruct (last_with _ r) as [u|].
      + destruct H2 as [Hu Hs%bool_decide_eq_true_1]. f_equal.
        destruct (Hkey u Hu) as [->|[Hw Hru]]; [|done|].
        { rewrite !lookupKey_normalise, Hs, <- (lookupKey_normalise (wireName _)), wireName_key. done. }
        exfalso. rewrite Hw in H1. revert H1. apply not_false_iff_true. apply existsb_exists.
        exists t. split; [by apply list_elem_of_In|]. by apply bool_decide_eq_true_2.
      + exfalso. revert H2. apply not_false_iff_true. apply existsb_exists.
        exists t. split; [by apply list_elem_of_In|]. apply bool_decide_eq_true_2.
        by rewrite <- !lookupKey_normalise, wireName_key. }
  apply Forall2_fmap_l in Hf. pose proof (Forall2_elem_impl _ _ _ _ Hf Hres) as Hr. split_and!; [| |done].
  - apply Forall_forall. intros d Hd. destruct (Forall2_elem_r _ _ _ d Hf Hd) as (t & _ & Ht).
    by destruct (toDefinition_name (spec t) d Ht) as (_ & ? & _).
  - apply NoDup_alt. intros i j n Hi Hj. rewrite list_lookup_fmap in Hi, Hj.
    apply fmap_Some in Hi as (d & Hi & ->). apply fmap_Some in Hj as (d' & Hj & He).
    destruct (Forall2_lookup_r _ _ _ _ _ Hr Hi) as (t & Hti & Ht).
    destruct (Forall2_lookup_r _ _ _ _ _ Hr Hj) as (t' & Htj & Ht').
    rewrite <- He, Ht in Ht'. injection Ht' as <-.
    apply (NoDup_lookup r i j t); [by eapply NoDup_fmap_1|done..].
Qed.

(** ** Arguments come back *)

Lemma blank_trim_start p s : blank p = true -> trim_start (p ++ s) = trim_start s.
Proof.
  induction p as [|c p IH]; [done|]. cbn. intros [Hc Hp]%andb_true_iff. by rewrite Hc, IH.
Qed.

Lemma blank_rev p : blank p = true -> blank (rev p) = true.
Proof.
  unfold blank. rewrite !forallb_forall. intros H x Hx. apply H. by apply in_rev.
Qed.

(** A text in solid ends is what is left of it in any blank wrapping. *)
Lemma trim_padded p q c mid d : blank p = true -> blank q = true -> is_space c = false ->
  is_space d = false -> trim (p ++ (c :: mid ++ [d]) ++ q) = c :: mid ++ [d].
Proof.
  intros Hp Hq Hc Hd. unfold trim. rewrite blank_trim_start by done.
  assert (trim_start ((c :: mid ++ [d]) ++ q) = (c :: mid ++ [d]) ++ q) as -> by (cbn; by rewrite Hc).
  unfold trim_end. rewrite rev_app_distr, blank_trim_start by (by apply blank_rev).
  assert (rev (c :: mid ++ [d]) = d :: rev (c :: mid)) as E
    by (change (c :: mid ++ [d]) with ((c :: mid) ++ [d]); by rewrite rev_app_distr).
  rewrite E. cbn [trim_start]. rewrite Hd, <- E. apply rev_involutive.
Qed.

(** The ways an endpoint delivers an argument object: as its text, or as that text encoded once
    more. *)
Inductive Delivery := Plain | DoublyEncoded.
Definition delivered (d : Delivery) (args : Args) : json :=
  match d with Plain => JObj args | DoublyEncoded => JStr (stringify (JObj args)) end.

Lemma parse_twice_delivered d args : json_ok (delivered d args) = true ->
  json_ok (JObj args) = true -> parse_twice (stringify (delivered d args)) = Some (JObj args).
Proof.
  intros Hd Ha. unfold parse_twice. rewrite json_parse_stringify by done.
  destruct d; [done|]. cbn [delivered mbind option_bind]. by apply json_parse_stringify.
Qed.

Lemma delivered_ends d args : exists c mid e,
  stringify (delivered d args) = c :: mid ++ [e] /\ is_space c = false /\ is_space e = false.
Proof. destruct d; cbn [delivered stringify]; [by eexists 123, _, 125|by eexists 34, _, 34]. Qed.

(** No argument is lost or altered on the way in: an argument object sent as JSON text, inside
    any white space and encoded once or twice, is read back as the same object, under the call's
    own id and name. *)
Theorem native_arguments_roundtrip (d : Delivery) (args : Args) (id name before after : ustring)
  (Ha : json_ok (JObj args) = true) (Hd : json_ok (delivered d args) = true)
  (Hn : trim name <> []) (Hb : blank before = true) (He : blank after = true) :
  read_call {| c_id := id; c_name := name;
               c_arguments := before ++ stringify (delivered d args) ++ after |} =
  Ok {| i_callId := id; i_slug := trim name; i_args := args |}.
Proof.
  unfold read_call. cbn [c_name c_arguments c_id]. destruct (trim name) as [|n ns]; [done|].
  unfold readArguments. pose proof (parse_twice_delivered d args Hd Ha) as Hp.
  destruct (delivered_ends d args) as (c & mid & e & E & Hc & Hs). rewrite E in *.
  rewrite trim_padded by done. by rewrite Hp.
Qed.

Definition sample_args : Args := [(js "query", JStr (js "tea: 2")); (js "limit", JNum (js "5"))].

Lemma native_arguments_roundtrip_witness :
  read_call {| c_id := js "call_1"; c_name := js " file_search ";
               c_arguments := [10] ++ stringify (delivered DoublyEncoded sample_args) ++ [32] |} =
  Ok {| i_callId := js "call_1"; i_slug := trim (js " file_search "); i_args := sample_args |}.
Proof.
  assert (json_ok (JObj sample_args) = true) as H1 by (by vm_compute).
  assert (json_ok (delivered DoublyEncoded sample_args) = true) as H2 by (by vm_compute).
  assert (trim (js " file_search ") <> []) as H3 by (by vm_compute).
  exact (native_arguments_roundtrip DoublyEncoded sample_args (js "call_1") (js " file_search ") [10] [32]
    H1 H2 H3 eq_refl eq_refl).
Defined.

(** ** Every call is read once *)

Lemma goods_bads {E A} (l : list (result E A)) : (length (goods l) + length (bads l) = length l)%nat.
Proof. induction l as [|[a|e] l IH]; cbn; [done|..]; unfold goods, bads in *; cbn; lia. Qed.

Lemma read_call_id c x : read_call c = Ok x -> i_callId x = c_id c /\ i_slug x = trim (c_name c).
Proof.
  unfold read_call. destruct (trim (c_name c)) as [|n ns]; [done|]. intros H.
  apply bind_ok in H as (args & _ & H). by injection H as <-.
Qed.

Lemma bads_nil_goods {E} (calls : list ToolCallRequest) (f : ToolCallRequest -> result E ToolIntent) :
  (forall c x, f c = Ok x -> i_callId x = c_id c) -> bads (map f calls) = [] ->
  map i_callId (goods (map f calls)) = map c_id calls.
Proof.
  intros Hf. induction calls as [|c calls IH]; [done|]. unfold goods, bads in *. cbn.
  destruct (f c) as [x|e] eqn:E1; cbn; [|done]. intros H. by rewrite (Hf c x E1), IH.
Qed.

Lemma parse_ids o : malformed (parseNative o) = [] ->
  map i_callId (parsed_intents (parseNative o)) = map c_id (so_calls o).
Proof. apply bads_nil_goods. intros c x H. by destruct (read_call_id c x H). Qed.

Lemma parse_silent o : parsed_intents (parseNative o) = [] -> malformed (parseNative o) = [] ->
  so_calls o = [].
Proof. intros H1 H2. pose proof (parse_ids o H2) as H. rewrite H1 in H. by destruct (so_calls o). Qed.

(** ** What an endpoint accepts *)

(** Each announced call is answered, in order, before anything else is said. *)
Fixpoint answers (waiting : list ustring) (h : list ChatMessage) : bool :=
  match h with
  | [] => is_nil waiting
  | m :: rest =>
      match waiting with
      | id :: ids =>
          bool_decide (role m = RTool) && bool_decide (toolCallId m = Some id) && answers ids rest
      | [] =>
          negb (bool_decide (role m = RTool)) &&
          answers (match toolCalls m with Some calls => map c_id calls | None => [] end) rest
      end
  end.
Definition protocol (h : list ChatMessage) : bool := answers [] h.

Lemma answers_app h h' : forall w, answers w h = true -> answers w (h ++ h') = protocol h'.
Proof.
  induction h as [|m h IH]; intros w; cbn.
  - by destruct w.
  - destruct w as [|id ids]; intros [-> H]%andb_true_iff; by apply IH.
Qed.

Lemma protocol_app h h' : protocol h = true -> protocol h' = true -> protocol (h ++ h') = true.
Proof. intros H H'. unfold protocol. by rewrite answers_app. Qed.

(** Marking where messages come from changes no answer. *)
Lemma answers_origin o h : forall w, answers w (map (with_origin o) h) = answers w h.
Proof. induction h as [|m h IH]; intros w; [done|]. cbn. destruct w; by rewrite IH. Qed.

Lemma answers_tools {A} (id body : A -> ustring) l h :
  answers (map id l) (map (fun a => tool_message (id a) (body a)) l ++ h) = protocol h.
Proof.
  induction l as [|a l IH]; [done|]. cbn [map app answers tool_message role toolCallId].
  by rewrite !bool_decide_eq_true_2 by done.
Qed.

Lemma call_waits o h :
  protocol (render_native_call o :: h) = answers (map c_id (so_calls o)) h.
Proof. unfold protocol. cbn. by destruct (so_calls o). Qed.

Lemma observation_protocol o rs h : map callId rs = map c_id (so_calls o) ->
  protocol (render_native_call o :: render_native_observation rs ++ h) = protocol h.
Proof. intros E. rewrite call_waits, <- E. apply answers_tools. Qed.

Lemma repair_protocol o errors h :
  protocol (render_native_call o :: render_native_repair errors o ++ h) = protocol h.
Proof.
  rewrite call_waits. unfold render_native_repair. rewrite <- app_assoc.
  by rewrite (answers_tools c_id (repair_body errors)).
Qed.

(** What a step writes back is what an endpoint accepts, whichever way the step went: the call
    message is followed by one answer for each call it announces, in order, both when the calls ran
    and their results are observed and when a repair is asked for, the calls too malformed to have
    become intents included. *)
Theorem native_step_answered (o : StepOutput) (rs : list ToolResult) (errors : list FieldError)
  (Hread : malformed (parseNative o) = [])
  (Hrs : map callId rs = map i_callId (parsed_intents (parseNative o))) :
  protocol (render_native_call o :: render_native_observation rs) = true /\
  protocol (render_native_call o :: render_native_repair errors o) = true.
Proof.
  split.
  - rewrite <- (app_nil_r (render_native_observation rs)). rewrite observation_protocol; [done|].
    by rewrite Hrs, parse_ids.
  - rewrite <- (app_nil_r (render_native_repair errors o)). by rewrite repair_protocol.
Qed.

(** ** What reaches the model of a problem *)

(** Every problem with a named call reaches the model: it is spelled out, message and remedy, in
    the answer to a call of that name. *)
Theorem native_problem_told (o : StepOutput) (c : ToolCallRequest) (e : FieldError)
  (Hc : c ∈ so_calls o) (Hn : trim (c_name c) <> []) (He : read_call c = Err e) :
  e ∈ malformed (parseNative o) /\
  exists m, m ∈ render_native_repair (malformed (parseNative o)) o /\
    toolCallId m = Some (c_id c) /\ includes (error_line e) (content m) = true.
Proof.
  assert (e ∈ malformed (parseNative o)) as Hin.
  { cbn. unfold bads. apply list_elem_of_omap. exists (Err e). split; [|done].
    rewrite <- He. by apply list_elem_of_fmap_2. }
  split; [done|]. eexists. split.
  { unfold render_native_repair. apply elem_of_app. left. by apply list_elem_of_fmap_2. }
  split; [done|]. cbn [content tool_message]. unfold repair_body.
  assert (e ∈ errorsFor (trim (c_name c)) (malformed (parseNative o))) as Hm.
  { apply list_elem_of_In, filter_In. split; [by apply list_elem_of_In|].
    assert (fe_field e = trim (c_name c) ++ js ".arguments") as ->.
    { unfold read_call in He. destruct (trim (c_name c)) as [|n ns] eqn:En; [done|].
      unfold readArguments in He. destruct (trim (c_arguments c)); [done|].
      destruct (parse_twice _) as [v|]; [destruct v; try done|]; cbn in He; by injection He as <-. }
    apply orb_true_iff. right. apply starts_with_spec. exists (js "arguments").
    by rewrite <- app_assoc. }
  destruct (errorsFor _ _) as [|x l] eqn:Ex; [by apply elem_of_nil in Hm|].
  destruct (list_elem_of_split _ _ Hm) as (a & b & ->). rewrite map_app. cbn [map].
  rewrite app_comm_cons. apply includes_join. pose proof (includes_intro (error_line e) [] []) as H. by rewrite app_nil_r in H.
Qed.

(** ** Runs *)

Definition call_request (id name args : string) : ToolCallRequest :=
  {| c_id := js id; c_name := js name; c_arguments := js args |}.

Definition sample_registry : Registry :=
  [tool_of (spec_of "file_read" false Trusted); tool_of (spec_of "skill.review.lint" true Trusted)].

Definition sample_definitions : list ToolDefinition :=
  match requestTools (map spec sample_registry) with Ok (Some ds) => ds | _ => [] end.

Lemma wire_names_resolve_witness :
  map d_name sample_definitions = [js "file_read"; js "skill__review__lint"] /\
  Forall2 (fun t d => resolve sample_registry (d_name d) = Some t) sample_registry sample_definitions.
Proof.
  assert (NoDup (map (fun t => s_slug (spec t)) sample_registry)) as H1
    by (apply (bool_decide_unpack _); by vm_compute).
  assert (requestTools (map spec sample_registry) = Ok (Some sample_definitions)) as H2 by (by vm_compute).
  split; [by vm_compute|]. exact (proj2 (proj2 (wire_names_resolve _ _ H1 H2))).
Defined.

Definition two_calls : StepOutput :=
  {| so_text := js "Looking."; so_calls := [call_request "a" "file_read" "{}"; call_request "b" "now" ""] |}.

Definition result_for (id slug : string) : ToolResult :=
  {| callId := js id; Trust.slug := js slug; ok := true; gated := false; trust := Trusted;
     output := js "done"; error := None; latencyMs := 1; bytes := 4; truncated := false |}.

Lemma native_step_answered_witness :
  protocol (render_native_call two_calls ::
    render_native_observation [result_for "a" "file_read"; result_for "b" "now"]) = true.
Proof.
  assert (malformed (parseNative two_calls) = []) as H1 by (by vm_compute).
  assert (map callId [result_for "a" "file_read"; result_for "b" "now"] =
    map i_callId (parsed_intents (parseNative two_calls))) as H2 by (by vm_compute).
  exact (proj1 (native_step_answered two_calls _ [] H1 H2)).
Defined.

(** A reply cut off in its second call. *)
Definition cut_off : StepOutput :=
  {| so_text := []; so_calls := [call_request "a" "now" "{}"; call_request "b" "file_read" "{ 'path': 'no"] |}.

Lemma native_problem_told_witness :
  exists e, read_call (call_request "b" "file_read" "{ 'path': 'no") = Err e /\
    exists m, m ∈ render_native_repair (malformed (parseNative cut_off)) cut_off /\
      toolCallId m = Some (js "b") /\ includes (error_line e) (content m) = true.
Proof.
  exists (not_json (js "file_read")).
  assert (read_call (call_request "b" "file_read" "{ 'path': 'no") = Err (not_json (js "file_read"))) as H1
    by (by vm_compute).
  assert (call_request "b" "file_read" "{ 'path': 'no" ∈ so_calls cut_off) as H2
    by (right; left).
  assert (trim (c_name (call_request "b" "file_read" "{ 'path': 'no")) <> []) as H3 by (by vm_compute).
  split; [exact H1|]. exact (proj2 (native_problem_told _ _ _ H2 H3 H1)).
Defined.

(** A call without a name is answered as if another call had failed: what to do about it is in no
    message. *)
Lemma unnamed_problem_untold :
  let o := {| so_text := []; so_calls := [call_request "a" " " "{}"] |} in
  malformed (parseNative o) = [unnamed] /\
  map content (render_native_repair (malformed (parseNative o)) o) = [not_run; try_again].
Proof. by vm_compute. Qed.

(** Problems are matched to calls by name: a good call beside a bad one of the same tool is told the
    bad one's problem as its own. *)
Lemma good_call_blamed :
  let good := call_request "a" "file_read" "{}" in
  let bad := call_request "b" "file_read" "{" in
  let o := {| so_text := []; so_calls := [good; bad] |} in
  is_ok (read_call good) = true /\
  repair_body (malformed (parseNative o)) good = repair_body (malformed (parseNative o)) bad.
Proof. by vm_compute. Qed.

(** Two tools whose names the rewrite would make one are refused, whichever order they come in. *)
Example ambiguous_names :
  let dotted := spec_of "skill.a" false Trusted in
  let plain := spec_of "skill__a" false Trusted in
  (requestTools [dotted; plain], requestTools [plain; dotted], is_ok (requestTools [plain])) =
  (Err (NameCollision (js "skill.a") (js "skill__a")), Err (NameCollision (js "skill.a") (js "skill__a")),
   true).
Proof. by vm_compute. Qed.
