(* ===== verification/NltRender.v ===== *)
(** * What the natural-language dialect tells the model: [tools/dialect/nlt.ts], [not-enabled.ts],
    [prose.ts]

    The catalogue, the observations and the repair a model reads, the dialect as the loop sees it,
    and the prose a person sees of a stored message. *)
From S2P Require Import Prelude UString Regex Trust Kinds Json Number JsonParse Tools Coerce Messages Assemble Dialect Native Nlt NltWrite NltStream.
Local Open Scope Z_scope.

(** ** The catalogue *)

Definition dash : ustring := [0x2014].
Definition quote (s : ustring) : ustring := tick ++ s ++ tick.

Definition PREAMBLE : ustring := join [10] [
  js "# Tools"; []; js "To use a tool, write an ACTION block. Start each line at the left margin, exactly like this:"; [];
  js "ACTION: weather_lookup"; js "city: Lisbon"; js "units: celsius"; js "END"; [];
  js "That block is an example of the shape only. Your own tools are listed below " ++ dash ++ js " take the tool name and";
  js "every field name from that list, spelled exactly as it is written there."; [];
  js "Rules for a block:";
  js "- One field per line, written as " ++ quote (js "name: value") ++ js ", where " ++ quote (js "name") ++
    js " is one of that tool's own field names.";
  js "- For a value spanning several lines, open it with " ++ quote HEREDOC_OPEN ++ js " and close it with " ++
    quote HEREDOC_CLOSE ++ js " alone on its own line.";
  js "- Finish every block with " ++ quote (js "END") ++ js " alone on its own line.";
  js "- Several blocks are allowed. They run in the order you write them.";
  js "- Use only the tools listed below, only their listed fields, and always give every required field."; [];
  js "Anything you write outside a block is shown to the person you are talking to, so keep explanations";
  js "short and keep them out of the block. When no tool fits, simply reply " ++ dash ++ js " never invent a tool, and";
  js "never guess a value for a required field you have not been given."].

Definition typeLabel (n : SchemaNode) : ustring :=
  match n_type n with
  | OneType TArray =>
      match n_items n with None => js "list" | Some i => js "list of " ++ typeWords (n_type i) end
  | t => typeWords t
  end.

Definition is_type (t : JsonType) (n : SchemaNode) : bool :=
  match n_type n with OneType u => bool_decide (u = t) | UnionType _ => false end.

Definition listed (l : option (list ustring)) (name : ustring) : bool :=
  existsb (fun r => bool_decide (r = name)) (default [] l).

(** [node.type !== "object"] and no [properties] are [None]. *)
Definition objectShape (n : option SchemaNode) : option ustring :=
  match n with
  | None => None
  | Some n =>
      match n_properties n with
      | Some props =>
          if is_type TObject n then
            match props with
            | [] => None
            | _ =>
                Some (join (js ", ") (map (fun p =>
                  [34] ++ p.1 ++ [34] ++ js " (" ++
                  (if listed (n_required n) p.1 then js "required" else js "optional") ++
                  (if is_type TString p.2 then [] else js ", " ++ typeLabel p.2) ++ js ")") props))
            end
          else None
      | None => None
      end
  end.

Definition padEnd (n : nat) (s : ustring) : ustring := s ++ repeat 32 (n - length s).

Definition field_notes (n : SchemaNode) : list ustring :=
  match n_description n with
  | Some d => if bool_decide (trim d = []) then [] else [trim d]
  | None => []
  end ++
  match n_enum n with
  | Some ((_ :: _) as vs) => [js "one of: " ++ join (js " | ") (map to_text vs)]
  | _ => []
  end ++
  match n_default n with Some v => [js "defaults to " ++ stringify v] | None => [] end ++
  match objectShape (if is_type TArray n then n_items n else Some n) with
  | Some shape =>
      [(if is_type TArray n then js "write it as a JSON list of objects, each with "
        else js "write it as a JSON object with ") ++ shape]
  | None => []
  end.

Definition fieldLine (name : ustring) (n : SchemaNode) (required : bool) (pad : nat) : ustring :=
  let parts := (if required then js "(required" else js "(optional") ++
    (if is_type TString n then js ")" else js ", " ++ typeLabel n ++ js ")") in
  let head := js "  " ++ padEnd pad name ++ js " " ++ parts in
  match field_notes n with
  | [] => head
  | notes => head ++ js " " ++ join (js "; ") notes
  end.

Definition NO_NEGATIVE_GUIDANCE : ustring :=
  js "no guidance was supplied for this tool " ++ dash ++
  js " if it does not clearly match what was asked, prefer another tool or reply without one".

Definition longest (names : list ustring) : nat := foldr (fun n acc => Nat.max (length n) acc) O names.

Definition guidance_lines (s : ToolSpec) : list ustring :=
  [trim (s_summary s)] ++
  (if bool_decide (trim (s_whenToUse s) = []) then [] else [js "Use when: " ++ trim (s_whenToUse s)]) ++
  [js "Do NOT use when: " ++
   match s_whenNotToUse s with
   | None => NO_NEGATIVE_GUIDANCE
   | Some t => if bool_decide (trim t = []) then NO_NEGATIVE_GUIDANCE else trim t
   end] ++
  (if s_mutating s then [js "Changes state: yes " ++ dash ++ js " only use it when the person asked for it."] else []).

Definition field_lines (p : ToolParameters) : list ustring :=
  match p_properties p with
  | [] => [js "Fields: none " ++ dash ++ js " write the ACTION line and END."]
  | props =>
      js "Fields:" ::
      map (fun kv => fieldLine kv.1 kv.2 (listed (p_required p) kv.1) (longest (map fst props))) props
  end.

Definition renderNltEntry (s : ToolSpec) : ustring :=
  join [10] ([js "### " ++ s_slug s] ++ guidance_lines s ++ field_lines (s_parameters s)).

(** ** What was not enabled: [not-enabled.ts] *)

Record ToolAvailability := { av_slug : ustring; av_summary : ustring; unavailable : bool }.

Definition unavailable_lines (broken : list ToolAvailability) : list ustring :=
  match broken with
  | [] => []
  | _ =>
      [js "## Unavailable right now"; [];
       js "Configured for you but could not be loaded: " ++ join (js ", ") (map av_slug broken) ++
       js ". If a request needs one, say it is unavailable at the moment and that whoever runs this agent has been told; do not use another tool to work around it."]
  end.

Definition ask_for_it : ustring :=
  js "If something you are asked to do needs one, say so plainly: name the tool, say what you would have done with it, and say that it has to be added to " ++
  quote (js "tools.pinned") ++ js " in this agent's configuration and permitted under " ++ quote (js "tools.policy") ++
  js ". Say you are not permitted to yet " ++ dash ++
  js " never that you are unable to. A tool you have been given that does the job is not a workaround: use it. What is forbidden is reaching the same effect by another route, such as writing a file through a shell command.".

Definition renderNotEnabledText (notEnabled : list ToolAvailability) : ustring :=
  let offered := List.filter (fun e => negb (unavailable e)) notEnabled in
  let missing := unavailable_lines (List.filter unavailable notEnabled) in
  match notEnabled, offered with
  | [], _ => []
  | _, [] => join [10] missing
  | _, _ =>
      join [10]
        (match missing with [] => [] | _ => missing ++ [[]] end ++
         [js "## Not enabled for you"; [];
          js "These exist on this machine but this agent has not been given them:"; [];
          join [10] (map (fun e => js "- " ++ av_slug e ++ js " " ++ dash ++ js " " ++ av_summary e) offered); [];
          ask_for_it])
  end.

Definition tools_block (content : ustring) : ContextBlock :=
  Assemble.block STools RSystem content true (js "tools").

Definition renderNotEnabledBlock (notEnabled : list ToolAvailability) : list ContextBlock :=
  match renderNotEnabledText notEnabled with [] => [] | content => [tools_block content] end.

Definition renderCatalogue (specs : list ToolSpec) (notEnabled : list ToolAvailability) : list ContextBlock :=
  match specs with
  | [] => []
  | _ =>
      let extra := renderNotEnabledText notEnabled in
      [tools_block (PREAMBLE ++ nl2 ++ js "## Available tools" ++ nl2 ++ join nl2 (map renderNltEntry specs) ++
        match extra with [] => [] | _ => nl2 ++ extra end)]
  end.

(** ** Results, repairs and the dialect *)

Definition renderObservationText (r : ToolResult) : ustring :=
  js "OBSERVATION " ++ slug r ++ js " " ++ dash ++ js " " ++
  (if gated r then js "blocked" else if ok r then js "ok" else js "failed") ++ [10] ++ renderTrusted r.

Definition continue_line : ustring :=
  js "Continue. Write another ACTION block if more is needed, or reply to the person if the task is done.".

Definition render_nlt_observation (results : list ToolResult) : list ChatMessage :=
  [plain_message RUser (join nl2 (map renderObservationText results) ++ nl2 ++ continue_line)].

Definition render_nlt_repair (errors : list FieldError) : list ChatMessage :=
  [plain_message RUser (join [10]
    ([js "That ACTION block could not be used:"; []] ++ map error_line errors ++
     [[]; js "Write the block again, corrected. This is the only retry " ++ dash ++
      js " if you cannot fill a required field, say so in a plain reply instead of guessing."]))].

Definition nltDialect : Dialect :=
  {| parse := fun output => parseNlt (so_text output);
     renderCall := fun output => plain_message RAssistant (so_text output);
     renderObservation := render_nlt_observation;
     renderRepair := fun errors _ => render_nlt_repair errors |}.

Definition nltFilter : StreamFilter :=
  {| sf_state := Filter; sf_push := fun f delta => push_delta delta f; sf_endStep := endStep;
     sf_end := fun f => (flush f).1; sf_start := createNltStreamFilter |}.

(** ** What a person saw of a message: [prose.ts] *)

Inductive DialectId := DNlt | DNative.

Definition proseOf (m : ChatMessage) (d : DialectId) : ustring :=
  match role m, d with
  | RAssistant, DNlt => trim (parsed_text (parseNlt (content m)))
  | _, _ => trim (content m)
  end.

(** ** The same guidance in both dialects *)

(** A tool's entry in the catalogue is its heading, then word for word the description the
    native dialect sends of it, then its fields: what an evaluation comparing the two measures is
    not a difference of guidance. *)
Theorem same_guidance (s : ToolSpec) :
  renderNltEntry s = js "### " ++ s_slug s ++ [10] ++ renderNativeDescription s ++ [10] ++
    join [10] (field_lines (s_parameters s)).
Proof.
  assert (forall a b, a <> [] -> b <> [] -> join [10] (a ++ b) = join [10] a ++ [10] ++ join [10] b) as Hj.
  { intros a b Ha Hb. induction a as [|x [|y a] IH]; [done| |].
    - cbn [app]. by destruct b.
    - cbn [app join] in *. rewrite IH by done. by rewrite <- !app_assoc. }
  unfold renderNltEntry. rewrite Hj; [|done|by unfold guidance_lines].
  rewrite Hj; [|by unfold guidance_lines|by unfold field_lines; destruct (p_properties _)].
  cbn [join]. rewrite <- !app_assoc.
  assert (guidance_lines s = [trim (s_summary s)] ++
    (if bool_decide (trim (s_whenToUse s) = []) then [] else [js "Use when: " ++ trim (s_whenToUse s)]) ++
    [js "Do NOT use when: " ++
      (let dont := match s_whenNotToUse s with Some t => trim t | None => [] end in
       if bool_decide (dont = []) then no_guidance else dont)] ++
    (if s_mutating s then [js "Changes state: yes " ++ dash ++ js " only use it when the person asked for it."]
     else [])) as ->; [|done].
  unfold guidance_lines. by destruct (s_whenNotToUse s).
Qed.

(** ** Ordinary prose *)

(** A line that opens nothing and is no tag on its own. *)
Definition ordinary (line : ustring) : bool :=
  match action_rest line with None => true | Some _ => false end &&
  negb (test XML_OPEN line) && negb (test XML_CLOSE line) && negb (test LONE_TAG line).

Lemma ordinary_lookahead ls : forallb ordinary ls = true -> nextMeaningfulIsAction ls = false.
Proof.
  induction ls as [|l ls IH]; [done|]. cbn. intros [Hl H]%andb_true_iff. destruct (bool_decide _); [by apply IH|].
  unfold ordinary in Hl. unfold is_action. by destruct (action_rest l).
Qed.

Lemma ordinary_kept txt line : ordinary line = true ->
  consumeLine (outside false txt []) line false = outside false (txt ++ [line]) [].
Proof.
  unfold ordinary. rewrite !andb_true_iff, !negb_true_iff. intros [[[Ha Ho] Hc] Ht].
  unfold consumeLine. cbn [outside heredocKey awaitingSlug block].
  destruct (action_rest line) as [?|] eqn:E; [done|]. rewrite Ho, Hc, Ht. unfold consume_prose.
  cbn [outside justClosed severedPending orb]. rewrite andb_false_r.
  assert (is_action line = false) as -> by (unfold is_action; by rewrite E).
  destruct (test END_LINE _); by destruct (bool_decide _).
Qed.

Lemma ordinary_lines ls : forall txt, forallb ordinary ls = true ->
  consume_all (outside false txt []) ls = outside false (txt ++ ls) [].
Proof.
  induction ls as [|l ls IH]; intros txt H; [by rewrite app_nil_r|]. cbn [consume_all forallb] in *.
  apply andb_true_iff in H as [Hl H]. rewrite ordinary_lookahead, ordinary_kept, IH by done.
  by rewrite <- app_assoc.
Qed.

(** A reply in which no line opens a block and none is a tag on its own is read as no call at
    all, and what a person sees of it is the whole of it without the blanks around it. *)
Theorem prose_unchanged (s : ustring) (Hcr : ~ In 13 s) (Hok : forallb ordinary (split_on 10 s) = true) :
  parsed_intents (parseNlt s) = [] /\ parsed_text (parseNlt s) = trim s /\
  malformed (parseNlt s) = match attemptedCall (trim s) with Some e => [e] | None => [] end /\
  proseOf (plain_message RAssistant s) DNlt = proseOf (plain_message RAssistant s) DNative.
Proof.
  unfold proseOf. cbn [role content plain_message].
  assert (parseNlt s = {| parsed_intents := []; parsed_text := trim s;
    malformed := match attemptedCall (trim s) with Some e => [e] | None => [] end |}) as ->.
  { unfold parseNlt. rewrite split_lines_plain by done. change newState with (outside false [] []).
    rewrite ordinary_lines by done. unfold finish. cbn -[trim attemptedCall join]. by rewrite join_split_on. }
  cbn [parsed_intents parsed_text malformed]. by rewrite trim_idem.
Qed.

Definition plain_reply : ustring := lines_of ["Hello."; ""; "```js"; "a < b && c > d"; "```"; "END"; "- actions: none"]%string.

Lemma prose_unchanged_witness : proseOf (plain_message RAssistant plain_reply) DNlt = trim plain_reply.
Proof.
  assert (~ In 13 plain_reply) as H1 by (intros H; revert H; vm_compute; lia).
  assert (forallb ordinary (split_on 10 plain_reply) = true) as H2 by (by vm_compute).
  destruct (prose_unchanged plain_reply H1 H2) as (_ & _ & _ & H). exact H.
Defined.

(** The example the model is shown is one the parser reads. *)
Lemma preamble_example : map (fun i => (i_slug i, i_args i)) (parsed_intents (parseNlt PREAMBLE)) =
  [(js "weather_lookup", [(js "city", JStr (js "Lisbon")); (js "units", JStr (js "celsius"))])].
Proof. by vm_compute. Qed.
