(* ===== verification/Execute.v ===== *)
(** * Running what the model asked for: [tools/execute.ts]

    Plan, authorise, run. What a handler does, what an approver answers and whether a store
    accepts an artifact are answers of the outside world, one per planned call. Middleware around a call is not modelled.
    The calls of one group run concurrently: the log lists them in the order they start. *)
From S2P Require Import Prelude UString Json Kinds Regex Policy Trust Tools Messages Coerce Paths.
Local Open Scope Z_scope.

(** ** Planning *)

Record PlannedCall := { p_index : nat; p_intent : ToolIntent; p_tool : Tool; p_args : Args }.

Definition unknown_tool (r : Registry) (slug : ustring) : FieldError :=
  {| fe_field := slug; fe_message := js "is not a tool that exists.";
     fe_hint :=
       match r with
       | [] => js "No tools are available in this conversation. Reply without calling a tool."
       | _ => js "Use one of these exactly as written: " ++
              join (js ", ") (map (fun t => s_slug (spec t)) r) ++ js "."
       end |}.

Definition prefixed (slug : ustring) (e : FieldError) : FieldError :=
  {| fe_field := slug ++ js "." ++ fe_field e; fe_message := fe_message e; fe_hint := fe_hint e |}.

(** ** The world's answers *)

Inductive HandlerAnswer :=
| Returned (out : ustring)
| Raised (msg : ustring) (typed : option (ustring * ustring))
| TimedOut
| Cancelled.

Inductive Approval := Granted | NotGranted | ApproverFailed | Abandoned.

Record World := {
  answer : nat -> Args -> bool -> HandlerAnswer;
  approval : nat -> Approval;
  deferred : nat -> ustring;
  stores : nat -> bool;
  latency : nat -> Z }.

Record ExecuteInput := {
  registry : Registry;
  intents : list ToolIntent;
  timeoutMs : Z;
  timeoutFor : list (ustring * Z);
  withheld : list ustring;
  maxParallel : Z;
  observationMaxTokens : Z;
  keepFull : bool;
  untrustedInTurn : bool;
  x_onMutate : OnMutate;
  untrustedSource : option ustring;
  x_policy : PolicyConfig;
  approves : bool;
  defers : bool }.

(** What happened to a call: each line names the call's place in the plan. *)
Inductive ExecEvent :=
| Ran (index : nat) (mutating tainted : bool)
| Asked (index : nat) (a : Approval)
| Gated (index : nat)
| Deferred (index : nat).

Fixpoint planIntents (r : Registry) (l : list ToolIntent) (n : nat)
  : list PlannedCall * list FieldError :=
  match l with
  | [] => ([], [])
  | i :: rest =>
      if has r (i_slug i) then
        match resolve r (i_slug i) with
        | None => planIntents r rest (S n)
        | Some t =>
            let '(planned, repair) := planIntents r rest (S n) in
            match coerceArgs (spec t) (i_args i) with
            | inr args =>
                ({| p_index := n; p_intent := i; p_tool := t; p_args := args |} :: planned, repair)
            | inl errors => (planned, map (prefixed (i_slug i)) errors ++ repair)
            end
        end
      else
        let '(planned, repair) := planIntents r rest (S n) in
        (planned, unknown_tool r (i_slug i) :: repair)
  end.

(** ** Authorising *)

(** The reason of a decision, as [tools/policy.ts] words it. *)
Fixpoint reason_text (slug : ustring) (rule : option ustring) (why : Reason) : ustring :=
  match why with
  | HardlineFloor what =>
      slug ++ js " was refused: this is " ++ what ++ js ", which is never permitted " ++ [0x2014] ++
      js " not by an allow rule, not by any mode."
  | TooLong n =>
      slug ++ js " was too long to analyse (" ++ decimal n ++
      js " characters), so it is being asked rather than matched."
  | DeniedByRule => slug ++ js " is denied by the rule " ++ default [] rule ++ js "."
  | AllowedByRule => slug ++ js " is allowed by the rule " ++ default [] rule ++ js "."
  | NoRule ModeAllow => js "No rule matched, and tools.policy.mode is allow."
  | NoRule ModeDeny => js "No rule matched, and tools.policy.mode is deny."
  | NoRule ModeAsk => js "No rule matched " ++ slug ++ js ", so it needs an answer from a person."
  | NobodyToAsk because =>
      reason_text slug rule because ++ js " Nobody is available to ask " ++ [0x2014] ++
      js " this run has no terminal " ++ [0x2014] ++
      js " so it is refused. Add a tools.policy.allow rule for it, or set onNoApprover to allow."
  | UntrustedConfirm =>
      slug ++ js " changes something, and untrusted content reached this turn " ++ [0x2014] ++
      js " asking before it runs."
  | UntrustedBlocked o =>
      slug ++ js " was blocked: untrusted content entered this turn, and tools.untrusted.onMutate is " ++
      quote ++ onMutate_name o ++ quote ++ js " with no rule or approval authorising it."
  end.

(** What the model reads when nobody granted the call. *)
Definition reasonFor (slug : ustring) (by_ : Approval) : ustring :=
  match by_ with
  | Abandoned =>
      slug ++ js " was waiting on an approval when the turn ended, so it did not run. Nobody declined it."
  | ApproverFailed =>
      slug ++ js " was not run: the approver failed before anyone could answer. A broken prompt is not consent."
  | _ => slug ++ js " was not approved."
  end.

Definition stringArg (v : option json) : option ustring :=
  match v with Some (JStr s) => Some s | _ => None end.

Definition arg (name : ustring) (a : Args) : option json :=
  match List.find (fun kv => bool_decide (kv.1 = name)) a with Some kv => Some kv.2 | None => None end.

(** [output.slice(-n)] of a positive [n]. *)
Definition slice_last (n : Z) (s : ustring) : ustring := drop (Z.to_nat (zlen s - n)) s.

Definition cut_note (artifact : option ustring) : ustring :=
  js " characters cut from the middle of this observation to fit the context budget " ++
  match artifact with
  | None => [0x2026] ++ js "]"
  | Some id => [0x2014] ++ js " the whole result is readable with artifact_read(" ++ quote ++ id ++
               quote ++ js ") " ++ [0x2026] ++ js "]"
  end.

Definition truncate (out : ustring) (maxTokens : Z) (artifact : option ustring) : ustring * bool :=
  if (maxTokens <=? 0) || (estimateTokens out <=? maxTokens) then (out, false)
  else
    let budget := Z.max 200 (maxTokens * 19 / 5) in
    let hd := take (Z.to_nat (budget * 3 / 5)) out in
    let tl := slice_last (budget * 2 / 5) out in
    let elided := zlen out - zlen hd - zlen tl in
    let count := if elided <? 0 then js "-" ++ decimal (- elided) else decimal elided in
    let marker := js "[" ++ [0x2026] ++ js " " ++ count ++ cut_note artifact in
    (hd ++ [10; 10] ++ marker ++ [10; 10] ++ tl, true).

(** Bytes of a text in UTF-8, a lone surrogate encoded as U+FFFD. *)
Fixpoint utf8_length (s : ustring) : Z :=
  match s with
  | [] => 0
  | c :: rest =>
      if c <? 0x80 then 1 + utf8_length rest
      else if c <? 0x800 then 2 + utf8_length rest
      else
        match rest with
        | d :: rest' =>
            if is_lead c && is_trail d then 4 + utf8_length rest' else 3 + utf8_length rest
        | [] => 3
        end
  end.

Definition no_field : ustring := [].

Definition ARTIFACT_READ : ustring := js "artifact_read".

Section Run.
Context (w : World).

Definition match_text (e : PlannedCall) : option ustring :=
  let s := spec (p_tool e) in
  match s_policyArg s with
  | None => None
  | Some name =>
      match stringArg (arg name (p_args e)) with
      | None => None
      | Some raw => Some (if s_policyArgIsPath s then policyPath raw else raw)
      end
  end.

(** [tool.spec.trust === "untrusted" ? "untrusted" : (tool.trustOf?.(args) ?? tool.spec.trust ?? "trusted")]. *)
Definition trust_of (e : PlannedCall) : Trust :=
  match s_trust (spec (p_tool e)) with
  | Some Untrusted => Untrusted
  | t => match trustOf (p_tool e) (p_args e) with Some t' => t' | None => default Trusted t end
  end.

Definition capObservation (i : ExecuteInput) (e : PlannedCall) (out : ustring) (t : Trust)
  : ustring * bool :=
  let plain := truncate out (observationMaxTokens i) None in
  if negb plain.2 || negb (keepFull i) || negb (has (registry i) ARTIFACT_READ) then plain
  else if stores w (p_index e) then truncate out (observationMaxTokens i) (Some (artifactId out t))
  else plain.

Definition settle (i : ExecuteInput) (e : PlannedCall) (succeeded : bool) (out : ustring)
  (err : option ErrorDetail) : ToolResult :=
  let t := trust_of e in
  let capped := capObservation i e out t in
  {| callId := i_callId (p_intent e); slug := s_slug (spec (p_tool e)); ok := succeeded;
     gated := false; trust := t; output := capped.1; error := err; latencyMs := latency w (p_index e);
     bytes := zlen out; truncated := capped.2 |}.

(** The generic hint of a failure the harness did not type. *)
Definition TOOL_FAILED_HINT : ustring :=
  js "This is the tool's own failure, passed through. The observation the model sees carries this same text, so it can explain or retry with different arguments.".

Definition toolFailed (name msg : ustring) (typed : option (ustring * ustring)) : ErrorDetail :=
  {| code := match typed with Some (c, _) => c | None => js "tool_failed" end;
     message := js "The tool " ++ quote ++ name ++ quote ++ js " failed: " ++ msg;
     hint := match typed with Some (_, h) => h | None => TOOL_FAILED_HINT end;
     field := no_field |}.

Definition timeout_of (i : ExecuteInput) (name : ustring) : Z :=
  match List.find (fun kv => bool_decide (kv.1 = name)) (timeoutFor i) with
  | Some kv => kv.2
  | None => timeoutMs i
  end.

Definition timed_out (name : ustring) (ms : Z) : ErrorDetail :=
  toolFailed name
    (js "The tool " ++ quote ++ name ++ quote ++ js " did not finish within limits.toolTimeoutMs (" ++
     decimal ms ++ js " ms).")
    (Some (js "tool_timeout",
      js "Raise limits.toolTimeoutMs if the tool is genuinely slow. Note that the call is abandoned rather than killed: a handler that ignores its abort signal keeps running, and any side effect it goes on to have still happens.")).

Definition runOne (i : ExecuteInput) (e : PlannedCall) (tainted_now : bool)
  : ToolResult * list ExecEvent :=
  let name := s_slug (spec (p_tool e)) in
  let failed (d : ErrorDetail) := settle i e false (message d ++ [10] ++ hint d) (Some d) in
  (match answer w (p_index e) (p_args e) tainted_now with
   | Returned out => settle i e true out None
   | Raised msg typed => failed (toolFailed name msg typed)
   | TimedOut => failed (timed_out name (timeout_of i name))
   | Cancelled =>
       settle i e false (js "The call was cancelled before it finished.")
         (Some {| code := js "tool_cancelled"; message := name ++ js " was cancelled.";
                  hint := js "The turn was stopped while this tool was running. Any side effect it had already caused still happened.";
                  field := no_field |})
   end, [Ran (p_index e) (s_mutating (spec (p_tool e))) tainted_now]).

Definition query_of (e : PlannedCall) : PolicyQuery :=
  {| q_slug := s_slug (spec (p_tool e)); q_match := match_text e |}.

Definition rules_alone (i : ExecuteInput) (e : PlannedCall) : PolicyDecision :=
  authorize {| policy := x_policy i; query := query_of e; mutating := true; Policy.tainted := false;
               onMutate := x_onMutate i; approver := true |}.

Definition authorized (i : ExecuteInput) (e : PlannedCall) (tainted_now : bool) : PolicyDecision :=
  authorize {| policy := x_policy i; query := query_of e;
               mutating := s_mutating (spec (p_tool e)); Policy.tainted := tainted_now;
               onMutate := x_onMutate i; approver := approves i |}.

Definition deferred_result (e : PlannedCall) : ToolResult :=
  let out := deferred w (p_index e) in
  {| callId := i_callId (p_intent e); slug := s_slug (spec (p_tool e)); ok := true; gated := false;
     trust := Trusted; output := out; error := None; latencyMs := 0; bytes := utf8_length out;
     truncated := false |}.

Definition decideAndRun (i : ExecuteInput) (e : PlannedCall) (tainted_now : bool) (src : ustring)
  : ToolResult * list ExecEvent :=
  let s := spec (p_tool e) in
  let id := i_callId (p_intent e) in
  if s_mutating s && defers i && negb (bool_decide (effect (rules_alone i e) = Deny)) then
    (deferred_result e, [Deferred (p_index e)])
  else
    let d := authorized i e tainted_now in
    let refuse (why : ustring) (gate : bool) :=
      ((if gate then gatedResult id (s_slug s) src (x_onMutate i)
        else refusedResult id (s_slug s) why), [Gated (p_index e)]) in
    match effect d with
    | Ask =>
        if approves i then
          let a := approval w (p_index e) in
          match a with
          | Granted =>
              let '(r, l) := runOne i e tainted_now in (r, Asked (p_index e) a :: l)
          | _ =>
              let '(r, l) := refuse (reasonFor (s_slug s) a) false in (r, Asked (p_index e) a :: l)
          end
        else refuse (reason_text (s_slug s) (rule d) (reason d)) (Policy.gated d)
    | Allow => runOne i e tainted_now
    | Deny => refuse (reason_text (s_slug s) (rule d) (reason d)) (Policy.gated d)
    end.

(** Slugs in order of first appearance. *)
Fixpoint distinct_slugs (seen l : list ustring) : list ustring :=
  match l with
  | [] => []
  | x :: rest =>
      if bool_decide (x ∈ seen) then distinct_slugs seen rest
      else x :: distinct_slugs (x :: seen) rest
  end.

Definition notAlone (e : PlannedCall) (planned : list PlannedCall) : ToolResult * list ExecEvent :=
  let name := s_slug (spec (p_tool e)) in
  let others := join (js ", ") (distinct_slugs []
    (map (fun o => s_slug (spec (p_tool o)))
      (List.filter (fun o => negb (p_index o =? p_index e)%nat) planned))) in
  let why := name ++ js " was called in the same step as " ++ others ++
             js ", so it could only report results that did not exist yet." in
  let out := join [10]
    [name ++ js " was not run."; []; why; [];
     js "Read what " ++ others ++ js " returned, then call " ++ name ++
     js " again on its own, in a step of its own."] in
  ({| callId := i_callId (p_intent e); slug := name; ok := false; gated := true; trust := Trusted;
      output := out;
      error := Some {| code := js "tool_not_alone"; message := why;
                       hint := js "Call " ++ name ++
                               js " by itself, after the other calls' results are in.";
                       field := no_field |};
      latencyMs := 0; bytes := zlen out; truncated := false |}, [Gated (p_index e)]).

(** ** Grouping *)

Definition is_mutating (e : PlannedCall) : bool := s_mutating (spec (p_tool e)).

Definition can_join (cap : Z) (group : list PlannedCall) (e : PlannedCall) : bool :=
  (zlen group <? cap) && negb (is_mutating e) && forallb (fun m => negb (is_mutating m)) group.

(** The groups so far, newest last. *)
Fixpoint batch_from (cap : Z) (current : option (list PlannedCall)) (l : list PlannedCall)
  : list (list PlannedCall) :=
  match l with
  | [] => match current with None => [] | Some g => [g] end
  | e :: rest =>
      match current with
      | None => batch_from cap (Some [e]) rest
      | Some g =>
          if can_join cap g e then batch_from cap (Some (g ++ [e])) rest
          else g :: batch_from cap (Some [e]) rest
      end
  end.
Definition batch (planned : list PlannedCall) (parallel : Z) : list (list PlannedCall) :=
  batch_from (Z.max 1 parallel) None planned.

(** ** The whole step *)

Definition run_entry (i : ExecuteInput) (planned : list PlannedCall) (tainted_now : bool)
  (src : ustring) (e : PlannedCall) : ToolResult * list ExecEvent :=
  if (1 <? length planned)%nat && s_alone (spec (p_tool e)) then notAlone e planned
  else decideAndRun i e tainted_now src.

Definition is_untrusted (r : ToolResult) : bool := bool_decide (trust r = Untrusted).

(** The taint and its source after a group has settled. *)
Definition taint_after (tainted_now : bool) (src : ustring) (settled : list ToolResult)
  : bool * ustring :=
  if tainted_now then (true, src)
  else match List.find is_untrusted settled with
       | Some r => (true, slug r)
       | None => (false, src)
       end.

Fixpoint run_groups (i : ExecuteInput) (planned : list PlannedCall) (groups : list (list PlannedCall))
  (tainted_now : bool) (src : ustring) : list ToolResult * list ExecEvent :=
  match groups with
  | [] => ([], [])
  | g :: rest =>
      let settled := map (run_entry i planned tainted_now src) g in
      let '(t', src') := taint_after tainted_now src (map fst settled) in
      let '(rs, l) := run_groups i planned rest t' src' in
      (map fst settled ++ rs, concat (map snd settled) ++ l)
  end.

Record ExecuteOutcome := { results : list ToolResult; repair : list FieldError; log : list ExecEvent }.

Definition execute_named (i : ExecuteInput) (named : list ToolIntent) : ExecuteOutcome :=
  match planIntents (registry i) named 0 with
  | (_, (_ :: _) as errors) => {| results := []; repair := errors; log := [] |}
  | (planned, []) =>
      let '(rs, l) :=
        run_groups i planned (batch planned (maxParallel i)) (untrustedInTurn i)
          (default (js "an earlier tool call") (untrustedSource i)) in
      {| results := rs; repair := []; log := l |}
  end.

Definition personalResult (i : ToolIntent) : ToolResult :=
  {| callId := i_callId i; slug := i_slug i; ok := false; gated := true; trust := Trusted;
     output := i_slug i ++ js " was not run. It acts as the person this agent belongs to, and this conversation is not theirs, so their connected apps are not available here. Answer without it, and say that this needs the owner.";
     error := Some {| code := js "tool_personal";
       message := i_slug i ++ js " is the owner's, and this turn does not act for the owner.";
       hint := js "Personal tools (Composio, MCP servers marked personal) run only when the turn acts for the agent's assigned owner, or for one of the owner's channelIds on PUT /v1/agents/:id/assignee.";
       field := no_field |};
     latencyMs := 0; bytes := 0; truncated := false |}.

Definition is_withheld (i : ExecuteInput) (x : ToolIntent) : bool :=
  bool_decide (i_slug x ∈ withheld i).

(** [ran.get(callId)]: the last result with the id. *)
Definition ran_result (rs : list ToolResult) (id : ustring) : option ToolResult :=
  List.find (fun r => bool_decide (callId r = id)) (rev rs).

Definition executeIntents (i : ExecuteInput) : ExecuteOutcome :=
  if existsb (is_withheld i) (intents i) then
    let rest := execute_named i (List.filter (fun x => negb (is_withheld i x)) (intents i)) in
    match repair rest with
    | _ :: _ => rest
    | [] =>
        {| results := concat (map (fun x =>
             if is_withheld i x then [personalResult x]
             else match ran_result (results rest) (i_callId x) with None => [] | Some r => [r] end)
             (intents i));
           repair := []; log := log rest |}
    end
  else execute_named i (intents i).
End Run.

(** ** Lookups *)


(** ** Grouping *)

(** A group a batch may hold: one call that changes something, or calls that only read. *)
Definition group_ok (cap : Z) (g : list PlannedCall) : Prop :=
  g <> [] /\ zlen g <= cap /\
  ((exists e, g = [e]) \/ forallb (fun m => negb (is_mutating m)) g = true).

Lemma batch_from_spec cap l : 1 <= cap -> forall current,
  (forall g, current = Some g -> group_ok cap g) ->
  concat (batch_from cap current l) = default [] current ++ l /\
  Forall (group_ok cap) (batch_from cap current l).
Proof.
  intros Hcap. induction l as [|e l IH]; intros current Hc; cbn [batch_from].
  - destruct current as [g|]; cbn; [|by split].
    rewrite app_nil_r. split; [done|]. constructor; [by apply Hc|constructor].
  - assert (Hone : group_ok cap [e]) by (split_and!; [done|cbn; lia|by left; exists e]).
    destruct current as [g|]; [|destruct (IH (Some [e])) as [H1 H2];
      [by intros g' [= <-]|by rewrite H1]].
    destruct (can_join cap g e) eqn:Hj.
    + destruct (IH (Some (g ++ [e]))) as [H1 H2].
      * intros g' [= <-]. unfold can_join in Hj.
        apply andb_true_iff in Hj as [Hj Hg]. apply andb_true_iff in Hj as [Hlen He].
        apply Z.ltb_lt in Hlen. split_and!; [by destruct g|rewrite length_app; cbn [length]; lia|].
        right. rewrite forallb_app, Hg. cbn. by rewrite He.
      * rewrite H1. cbn. by rewrite <- app_assoc.
    + destruct (IH (Some [e])) as [H1 H2]; [by intros g' [= <-]|].
      cbn [concat]. rewrite H1. split; [done|]. constructor; [by apply Hc|done].
Qed.

(** Grouping keeps every call in the order it was written; a call that changes something is
    alone in its group; no group is empty or larger than the limit (one, when the limit is less). *)
Theorem batch_order (planned : list PlannedCall) (parallel : Z) :
  concat (batch planned parallel) = planned /\
  Forall (group_ok (Z.max 1 parallel)) (batch planned parallel).
Proof. apply batch_from_spec; [lia|done]. Qed.

Lemma batch_concat planned parallel : concat (batch planned parallel) = planned.
Proof. by apply (batch_from_spec (Z.max 1 parallel) planned ltac:(lia) None). Qed.

Lemma batch_groups planned parallel :
  Forall (group_ok (Z.max 1 parallel)) (batch planned parallel).
Proof. by apply (batch_from_spec (Z.max 1 parallel) planned ltac:(lia) None). Qed.

(** ** What a call leaves behind *)

Section Facts.
Context (w : World).
Abbreviation entry_run := (run_entry w).
Abbreviation groups_run := (run_groups w).

Definition event_index (ev : ExecEvent) : nat :=
  match ev with Ran k _ _ | Asked k _ | Gated k | Deferred k => k end.

Lemma decideAndRun_facts i e t src :
  callId (decideAndRun w i e t src).1 = i_callId (p_intent e) /\
  Forall (fun ev => event_index ev = p_index e) (decideAndRun w i e t src).2.
Proof.
  unfold decideAndRun, runOne. destruct (_ && _ && _); [by repeat constructor|].
  destruct (effect _); [|destruct (approves i); [destruct (approval w _)|]|];
    cbn; try destruct (answer w _ _ _); try destruct (Policy.gated _); by repeat constructor.
Qed.

Lemma run_entry_facts i pl t src e :
  callId (entry_run i pl t src e).1 = i_callId (p_intent e) /\
  Forall (fun ev => event_index ev = p_index e) (entry_run i pl t src e).2.
Proof.
  unfold run_entry. destruct (_ && _); [by repeat constructor|]. apply decideAndRun_facts.
Qed.

(** The taint and source each call was decided under. *)
Record Decision := { d_call : PlannedCall; d_taint : bool; d_source : ustring }.

Definition decided (i : ExecuteInput) (pl : list PlannedCall) (d : Decision)
  : ToolResult * list ExecEvent := entry_run i pl (d_taint d) (d_source d) (d_call d).

Fixpoint decisions (i : ExecuteInput) (pl : list PlannedCall) (gs : list (list PlannedCall))
  (t : bool) (src : ustring) : list Decision :=
  match gs with
  | [] => []
  | g :: rest =>
      let '(t', src') := taint_after t src (map fst (map (entry_run i pl t src) g)) in
      map (fun e => {| d_call := e; d_taint := t; d_source := src |}) g ++
      decisions i pl rest t' src'
  end.

Lemma run_groups_decisions i pl gs : forall t src,
  groups_run i pl gs t src =
    (map (fun d => (decided i pl d).1) (decisions i pl gs t src),
     concat (map (fun d => (decided i pl d).2) (decisions i pl gs t src))).
Proof.
  induction gs as [|g gs IH]; intros t src; [done|]. cbn [run_groups decisions].
  destruct (taint_after t src _) as [t' src']. rewrite IH, !map_app, concat_app, !map_map. done.
Qed.

Lemma decisions_calls i pl gs : forall t src, map d_call (decisions i pl gs t src) = concat gs.
Proof.
  induction gs as [|g gs IH]; intros t src; [done|]. cbn [decisions concat].
  destruct (taint_after t src _) as [t' src']. rewrite map_app, map_map, IH. cbn.
  by rewrite map_id.
Qed.

Lemma taint_after_true t src rs :
  (taint_after t src rs).1 = t || existsb is_untrusted rs.
Proof.
  unfold taint_after. destruct t; [done|]. induction rs as [|r rs IH]; [done|]. cbn.
  by destruct (is_untrusted r).
Qed.

(** The taint of a call that changes something is exactly: the turn came in tainted, or an
    earlier call of the step returned untrusted output. *)
Lemma decisions_taint i pl cap gs : forall t src, Forall (group_ok cap) gs ->
  forall k d, decisions i pl gs t src !! k = Some d -> is_mutating (d_call d) = true ->
  d_taint d = t || existsb is_untrusted
    (map (fun d' => (decided i pl d').1) (take k (decisions i pl gs t src))).
Proof.
  induction gs as [|g gs IH]; intros t src Hok k d Hd Hm; [done|].
  apply Forall_cons in Hok as [(Hne & _ & Hg) Hok]. cbn [decisions] in *.
  pose proof (taint_after_true t src (map fst (map (entry_run i pl t src) g))) as Ht.
  destruct (taint_after t src _) as [t' src']. cbn in Ht.
  set (here := map (fun e => {| d_call := e; d_taint := t; d_source := src |}) g) in *.
  assert (length here = length g) as Hlen by apply length_map.
  destruct (decide (k < length here)%nat) as [Hlt|Hge].
  - rewrite lookup_app_l in Hd by done.
    assert (exists e, g = [e]) as [e He].
    { destruct Hg as [?|Hro]; [done|]. apply list_elem_of_lookup_2 in Hd.
      unfold here in Hd. apply list_elem_of_fmap in Hd as (e & -> & He). cbn in Hm.
      rewrite forallb_forall in Hro. specialize (Hro e (proj1 (list_elem_of_In _ _) He)).
      by rewrite Hm in Hro. }
    rewrite He in Hlen. cbn in Hlen. assert (k = 0%nat) as -> by lia.
    unfold here in Hd. rewrite He in Hd. injection Hd as <-. rewrite take_0. cbn.
    by rewrite orb_false_r.
  - rewrite lookup_app_r in Hd by lia. rewrite (IH t' src' Hok _ d Hd Hm), Ht.
    rewrite take_app_ge by lia. rewrite map_app, existsb_app, orb_assoc. f_equal. f_equal.
    f_equal. unfold here. by rewrite !map_map.
Qed.

(** ** The plan *)

(** An intent a plan can hold. *)
Definition usable (r : Registry) (x : ToolIntent) : bool :=
  match resolve r (i_slug x) with
  | Some t => match coerceArgs (spec t) (i_args x) with inr _ => true | inl _ => false end
  | None => false
  end.

(** A coercion that fails says why. *)

Lemma plan_usable r l : forall n,
  (planIntents r l n).2 = [] <-> forallb (usable r) l = true.
Proof.
  induction l as [|x l IH]; intros n; [done|]. cbn [planIntents forallb].
  unfold usable at 1. rewrite has_resolve. destruct (resolve r (i_slug x)) as [t|] eqn:Er.
  - rewrite bool_decide_eq_true_2 by done. specialize (IH (S n)).
    destruct (planIntents r l (S n)) as [pl rep]. cbn [snd] in IH.
    destruct (coerceArgs (spec t) (i_args x)) as [errors|args] eqn:Ec; cbn [snd andb].
    + split; [|done]. intros H%app_eq_nil. destruct H as [H _].
      apply map_eq_nil in H. by apply coerceArgs_explains in Ec.
    + done.
  - rewrite bool_decide_eq_false_2 by apply is_Some_None.
    destruct (planIntents r l (S n)) as [pl rep]. done.
Qed.

(** A plan without errors has every intent, in order and numbered. *)
Lemma plan_complete r l : forall n planned,
  planIntents r l n = (planned, []) ->
  map p_intent planned = l /\ map p_index planned = seq n (length l).
Proof.
  induction l as [|x l IH]; intros n planned H; cbn [planIntents] in H; [by injection H as <-|].
  rewrite has_resolve in H. destruct (resolve r (i_slug x)) as [t|] eqn:Er.
  - rewrite bool_decide_eq_true_2 in H by done.
    destruct (planIntents r l (S n)) as [pl rep] eqn:Ep.
    destruct (coerceArgs (spec t) (i_args x)) as [errors|args] eqn:Ec.
    + injection H as <- Hnil. apply app_eq_nil in Hnil as [Hnil _].
      apply map_eq_nil in Hnil. by apply coerceArgs_explains in Ec.
    + injection H as <- ->. destruct (IH _ _ Ep) as [H1 H2]. cbn. by rewrite H1, H2.
  - rewrite bool_decide_eq_false_2 in H by apply is_Some_None.
    by destruct (planIntents r l (S n)).
Qed.

Lemma plan_index r l planned k e :
  planIntents r l 0 = (planned, []) -> planned !! k = Some e -> p_index e = k.
Proof.
  intros Hp He. destruct (plan_complete _ _ _ _ Hp) as [_ Hi].
  assert (map p_index planned !! k = Some (p_index e)) as Hk by (by rewrite list_lookup_fmap, He).
  rewrite Hi in Hk. by apply lookup_seq in Hk as [-> _].
Qed.

(** ** The step *)

Abbreviation run_named := (execute_named w).
Abbreviation run_all := (executeIntents w).

Definition start_source (i : ExecuteInput) : ustring :=
  default (js "an earlier tool call") (untrustedSource i).

(** A step that ran is the decisions of its plan, in order. *)
Lemma execute_named_ran i named :
  repair (run_named i named) = [] -> exists planned,
    planIntents (registry i) named 0 = (planned, []) /\
    let ds := decisions i planned (batch planned (maxParallel i)) (untrustedInTurn i) (start_source i) in
    map d_call ds = planned /\
    results (run_named i named) = map (fun d => (decided i planned d).1) ds /\
    log (run_named i named) = concat (map (fun d => (decided i planned d).2) ds).
Proof.
  unfold execute_named. destruct (planIntents _ _ _) as [planned [|e errors]] eqn:Ep; [|done].
  intros _. exists planned. split; [done|]. cbv zeta. rewrite run_groups_decisions. cbn [results log].
  split_and!; [|done|done]. by rewrite decisions_calls, batch_concat.
Qed.

Lemma execute_named_refused i named :
  repair (run_named i named) <> [] -> results (run_named i named) = [] /\ log (run_named i named) = [].
Proof.
  unfold execute_named. destruct (planIntents _ _ _) as [planned [|e errors]]; [|done].
  by destruct (run_groups _ _ _ _ _ _).
Qed.

Lemma execute_named_answers i named :
  repair (run_named i named) = [] -> map callId (results (run_named i named)) = map i_callId named.
Proof.
  intros Hr. destruct (execute_named_ran i named Hr) as (planned & Hp & Hcalls & -> & _).
  destruct (plan_complete _ _ _ _ Hp) as [Hn _]. rewrite map_map.
  etrans; [apply (map_ext _ (fun d => i_callId (p_intent (d_call d)))); intros d;
    apply run_entry_facts|].
  rewrite <- (map_map d_call (fun e => i_callId (p_intent e))), Hcalls.
  by rewrite <- Hn, map_map.
Qed.

Lemma execute_named_repair i named :
  repair (run_named i named) = [] <-> forallb (usable (registry i)) named = true.
Proof.
  rewrite <- (plan_usable _ _ 0). unfold execute_named.
  destruct (planIntents _ _ _) as [planned [|e errors]]; [|done].
  by destruct (run_groups _ _ _ _ _ _).
Qed.

(** ** What may run *)

(** A handler runs only under an allowing decision, or when a person granted the call. *)
Lemma ran_decided i pl d k m tn : Ran k m tn ∈ (decided i pl d).2 ->
  m = is_mutating (d_call d) /\ tn = d_taint d /\
  (effect (authorized i (d_call d) tn) = Allow \/
   Asked (p_index (d_call d)) Granted ∈ (decided i pl d).2).
Proof.
  unfold decided, run_entry. destruct (_ && _); [by intros ?%list_elem_of_singleton|].
  unfold decideAndRun, runOne.
  destruct (_ && _ && _); [by intros ?%list_elem_of_singleton|].
  destruct (effect _) eqn:He; [|destruct (approves i); [destruct (approval w _) eqn:Ha|]|]; cbn [snd];
    rewrite ?elem_of_cons, ?elem_of_nil; try (by intros H; destruct_or? H).
  - intros [[= -> -> ->]|[]]. split_and!; [done|done|by left].
  - intros [?|[[= -> -> ->]|[]]]; [done|]. split_and!; [done|done|right]. by left.
Qed.

(** An authorisation under taint names a rule, or asks, or refuses. *)
Lemma authorized_tainted i e : is_mutating e = true -> x_onMutate i <> MutateAllow ->
  effect (authorized i e true) = Allow ->
  is_Some (rule (authorized i e true)).
Proof.
  unfold is_mutating. intros Hm Ho. unfold authorized, authorize.
  cbn [policy query mutating Policy.tainted onMutate approver]. rewrite Hm.
  set (d := decidePolicy _ _). rewrite (bool_decide_eq_false_2 (x_onMutate i = MutateAllow)) by done.
  cbn [andb negb]. case_bool_decide as Hd; [by rewrite Hd|].
  destruct (rule d) as [rl|] eqn:Er; cbn [andb].
  - destruct (_ && _); [|by rewrite Er].
    unfold resolveWithoutApprover. destruct (effect d); cbn [rule]; by rewrite Er.
  - by destruct (_ && _).
Qed.
End Facts.

(** ** The contract of a step *)

Section Contract.
Context (w : World).

(** What a step must be able to run: the intents that are not withheld. *)
Definition offered (i : ExecuteInput) : list ToolIntent :=
  List.filter (fun x => negb (is_withheld i x)) (intents i).

Lemma offered_all i : existsb (is_withheld i) (intents i) = false -> offered i = intents i.
Proof.
  unfold offered. induction (intents i) as [|x l IH]; [done|]. cbn.
  intros [-> H]%orb_false_iff. cbn. by rewrite IH.
Qed.

(** A step runs whole or not at all: it asks for a repair exactly when some call that is not
    withheld names no tool or has arguments that cannot be coerced, and then no handler ran,
    nobody was asked and no result exists. *)
Theorem step_all_or_nothing (i : ExecuteInput) :
  let o := executeIntents w i in
  (repair o = [] <-> forallb (usable (registry i)) (offered i) = true) /\
  (repair o <> [] -> results o = [] /\ log o = []).
Proof.
  intros o. unfold o, executeIntents.
  destruct (existsb (is_withheld i) (intents i)) eqn:Hw.
  - fold (offered i). set (rest := execute_named w i (offered i)).
    pose proof (execute_named_repair w i (offered i)) as H1.
    pose proof (execute_named_refused w i (offered i)) as H2.
    fold rest in H1, H2. destruct (repair rest) as [|e errors] eqn:Er; [by split|].
    rewrite Er. by split.
  - rewrite (offered_all _ Hw). split; [by apply execute_named_repair|apply execute_named_refused].
Qed.

Lemma ran_result_nth rs id r :
  NoDup (map callId rs) -> r ∈ rs -> callId r = id -> ran_result rs id = Some r.
Proof.
  intros Hnd Hr Hid. unfold ran_result.
  destruct (List.find _ (rev rs)) as [r'|] eqn:E.
  - apply find_some in E as [Hin Hp]. apply bool_decide_eq_true in Hp. f_equal.
    apply in_rev, list_elem_of_In in Hin.
    apply list_elem_of_lookup in Hin as [a Ha]. apply list_elem_of_lookup in Hr as [b Hb].
    assert (a = b) as ->; [|congruence].
    apply (NoDup_lookup _ a b id Hnd); rewrite list_lookup_fmap.
    + by rewrite Ha, <- Hp.
    + by rewrite Hb, <- Hid.
  - pose proof (find_none _ _ E r) as Hn. cbn in Hn.
    rewrite bool_decide_eq_true_2 in Hn by done.
    discriminate Hn. apply -> in_rev. by apply list_elem_of_In.
Qed.

(** Without a repair, every call of the step is answered, in the order it was made: by its
    handler's outcome, by a refusal, or, when the tool is withheld from this turn, by saying so. *)
Theorem every_call_answered (i : ExecuteInput)
  (Hids : NoDup (map i_callId (intents i)))
  (Hran : repair (executeIntents w i) = []) :
  map callId (results (executeIntents w i)) = map i_callId (intents i).
Proof.
  unfold executeIntents in *.
  destruct (existsb (is_withheld i) (intents i)) eqn:Hw; [|by apply execute_named_answers].
  fold (offered i) in *. set (rest := execute_named w i (offered i)) in *.
  destruct (repair rest) as [|e errors] eqn:Er; [|by rewrite Er in Hran]. cbn [results].
  pose proof (execute_named_answers w i (offered i) Er) as Ha.
  fold rest in Ha.
  assert (NoDup (map callId (results rest))) as Hnd.
  { rewrite Ha. apply (sublist_NoDup _ (map i_callId (intents i))); [done|].
    unfold offered. clear. induction (intents i) as [|x l IH]; [done|]. cbn.
    destruct (negb _); by constructor. }
  rewrite concat_map, map_map.
  enough (forall x, x ∈ intents i -> map callId
    (if is_withheld i x then [personalResult x]
     else match ran_result (results rest) (i_callId x) with None => [] | Some r => [r] end) =
    [i_callId x]) as Hone.
  { clear -Hone. induction (intents i) as [|x l IH]; [done|]. cbn.
    rewrite Hone by by left. cbn. f_equal. apply IH. intros y Hy. apply Hone. by right. }
  intros x Hx. destruct (is_withheld i x) eqn:Ex; [done|].
  assert (i_callId x ∈ map callId (results rest)) as Hin.
  { rewrite Ha. apply list_elem_of_fmap_2, list_elem_of_In, filter_In. rewrite Ex.
    split; [by apply list_elem_of_In|done]. }
  apply list_elem_of_fmap in Hin as (r & Hid & Hr).
  rewrite (ran_result_nth _ (i_callId x) r Hnd Hr) by done. cbn. by rewrite Hid.
Qed.

(** C3. The write gate across a step. With [onMutate] other than [allow], a handler of a tool that
    changes something runs only if nothing untrusted had reached the turn, neither before the
    step nor from any call written before it in the step; or a rule of the policy names the call;
    or a person granted it. *)
Theorem write_gate (i : ExecuteInput) (named : list ToolIntent) (k : nat) (tn : bool)
  (Hgate : x_onMutate i <> MutateAllow)
  (Hran : Ran k true tn ∈ log (execute_named w i named)) :
  let o := execute_named w i named in
  (untrustedInTurn i = false /\ existsb is_untrusted (take k (results o)) = false) \/
  (exists e r, (planIntents (registry i) named 0).1 !! k = Some e /\
     rule (authorized i e true) = Some r) \/
  Asked k Granted ∈ log o.
Proof.
  intros o. change (Ran k true tn ∈ log o) in Hran. assert (repair o = []) as Hr.
  { destruct (decide (repair o = [])) as [|Hne]; [done|].
    destruct (execute_named_refused _ _ _ Hne) as [_ Hl]. change (log o = []) in Hl.
    rewrite Hl in Hran.
    by apply not_elem_of_nil in Hran. }
  destruct (execute_named_ran w i named Hr)
    as (planned & Hp & Hcalls & Hres & Hlog).
  change (results o = map (fun d => (decided w i planned d).1)
    (decisions w i planned (batch planned (maxParallel i)) (untrustedInTurn i)
      (start_source i))) in Hres.
  change (log o = concat (map (fun d => (decided w i planned d).2)
    (decisions w i planned (batch planned (maxParallel i)) (untrustedInTurn i)
      (start_source i)))) in Hlog.
  set (ds := decisions _ _ _ _ _ _) in *.
  rewrite Hlog in Hran. apply list_elem_of_In, in_concat in Hran as (lg & Hlg & Hran).
  apply in_map_iff in Hlg as (d & <- & Hd). apply list_elem_of_In in Hran, Hd.
  pose proof Hran as Hev. apply ran_decided in Hran as (Hm & -> & Heff).
  apply list_elem_of_lookup in Hd as [j Hj].
  assert (planned !! j = Some (d_call d)) as Hplan by (rewrite <- Hcalls, list_lookup_fmap; by rewrite Hj).
  pose proof (plan_index _ _ _ _ _ Hp Hplan) as Hidx.
  assert (j = k) as ->.
  { destruct (run_entry_facts w i planned (d_taint d) (d_source d) (d_call d))
      as [_ Hall]. rewrite Forall_forall in Hall. specialize (Hall _ Hev). cbn in Hall. lia. }
  pose proof (decisions_taint w i planned _ _ (untrustedInTurn i) (start_source i)
    (batch_groups planned (maxParallel i)) k d Hj (eq_sym Hm)) as Ht.
  fold ds in Ht. destruct (d_taint d).
  - right. destruct Heff as [Heff|Heff].
    + left. destruct (authorized_tainted i (d_call d) (eq_sym Hm) Hgate Heff) as [r Hrule].
      exists (d_call d), r. by rewrite Hp.
    + right. rewrite Hlog. apply list_elem_of_In, in_concat. rewrite Hidx in Heff.
      exists (decided w i planned d).2. split; [|by apply list_elem_of_In].
      apply in_map_iff. exists d. split; [done|]. apply list_elem_of_In. by eapply list_elem_of_lookup_2.
  - left. symmetry in Ht. apply orb_false_iff in Ht as [-> Ht]. split; [done|].
    rewrite Hres, <- fmap_take. exact Ht.
Qed.
End Contract.

(** ** The observation's budget *)

Definition cut_budget (maxTokens : Z) : Z := Z.max 200 (maxTokens * 19 / 5).

(** An observation over the budget in characters keeps its first three fifths and last two
    fifths of the budget, in place, and the marker counts exactly the characters between. *)
Theorem truncate_keeps_ends (out : ustring) (maxTokens : Z) (artifact : option ustring)
  (Hpos : 0 < maxTokens) (Hover : maxTokens < estimateTokens out)
  (Hlong : cut_budget maxTokens <= zlen out) :
  exists hd mid tl pre post,
    out = hd ++ mid ++ tl /\ zlen hd + zlen tl <= cut_budget maxTokens /\
    cut_budget maxTokens - 2 <= zlen hd + zlen tl /\
    truncate out maxTokens artifact = (hd ++ pre ++ decimal (zlen mid) ++ post ++ tl, true).
Proof.
  unfold truncate. rewrite (proj2 (Z.leb_gt _ _) Hpos), (proj2 (Z.leb_gt _ _) Hover). cbn [orb].
  fold (cut_budget maxTokens). set (b := cut_budget maxTokens) in *.
  assert (200 <= b) as Hb by (unfold b, cut_budget; lia).
  assert (b * 3 / 5 + b * 2 / 5 <= b) as H1 by div_lia.
  assert (b - 2 <= b * 3 / 5 + b * 2 / 5) as H2 by div_lia.
  assert (0 <= b * 3 / 5) as H3 by (apply Z.div_pos; lia).
  assert (0 <= b * 2 / 5) as H4 by (apply Z.div_pos; lia).
  set (h := b * 3 / 5) in *. set (t := b * 2 / 5) in *.
  set (hd := take (Z.to_nat h) out). set (tl := slice_last t out).
  set (mid := take (length out - Z.to_nat t - Z.to_nat h) (drop (Z.to_nat h) out)).
  assert (zlen hd = h) as Hhd by (unfold hd; rewrite length_take; lia).
  assert (zlen tl = t) as Htl by (unfold tl, slice_last; rewrite length_drop; lia).
  assert (zlen mid = zlen out - h - t) as Hmid
    by (unfold mid; rewrite length_take, length_drop; lia).
  assert (out = hd ++ mid ++ tl) as Hout.
  { unfold hd, mid, tl, slice_last.
    rewrite <- (take_drop (Z.to_nat h) out) at 1. f_equal.
    rewrite <- (take_drop (length out - Z.to_nat t - Z.to_nat h) (drop (Z.to_nat h) out)) at 1.
    f_equal. rewrite drop_drop. f_equal. lia. }
  rewrite Hhd, Htl. replace (zlen out - h - t) with (zlen mid) by lia.
  assert ((zlen mid <? 0) = false) as -> by (apply Z.ltb_ge; lia).
  clearbody hd mid tl. exists hd, mid, tl, ([10; 10] ++ js "[" ++ [0x2026] ++ js " "),
    (cut_note artifact ++ [10; 10]). split; [exact Hout|]. split; [lia|]. split; [lia|].
  by rewrite <- !app_assoc.
Qed.

Definition long_listing : ustring := repeat 97 3000.

Lemma truncate_keeps_ends_witness :
  exists hd mid tl pre post,
    long_listing = hd ++ mid ++ tl /\ zlen hd + zlen tl <= cut_budget 100 /\
    cut_budget 100 - 2 <= zlen hd + zlen tl /\
    truncate long_listing 100 None = (hd ++ pre ++ decimal (zlen mid) ++ post ++ tl, true).
Proof.
  assert (100 < estimateTokens long_listing) as H1 by (by vm_compute).
  assert (cut_budget 100 <= zlen long_listing) as H2 by (by vm_compute).
  exact (truncate_keeps_ends long_listing 100 None eq_refl H1 H2).
Defined.

(** Tokens count line breaks and the cut counts characters: an observation over the budget by its
    line breaks alone comes back longer than it went in, whole, twice over. *)
Lemma truncate_can_grow :
  let out := repeat 10 2500 in
  (truncate out 2000 None).2 = true /\ 2 * zlen out < zlen (truncate out 2000 None).1.
Proof. by vm_compute. Qed.

(** ** At concrete inputs *)

Definition call_of (id name : string) : ToolIntent :=
  {| i_callId := js id; i_slug := js name; i_args := [] |}.

(** A web page is read, then a note is written, in one step. *)
Definition read_and_write (p : PolicyConfig) : ExecuteInput :=
  {| registry := [tool_of (spec_of "web_fetch" false Untrusted);
                  tool_of (spec_of "memory_write" true Trusted)];
     intents := [call_of "1" "web_fetch"; call_of "2" "memory_write"]; timeoutMs := 1000;
     timeoutFor := []; withheld := []; maxParallel := 4; observationMaxTokens := 2000;
     keepFull := false; untrustedInTurn := false; x_onMutate := Refuse; untrustedSource := None;
     x_policy := p; approves := false; defers := false |}.

Definition calm_world : World :=
  {| answer := fun _ _ _ => Returned (js "done"); approval := fun _ => Granted;
     deferred := fun _ => []; stores := fun _ => true; latency := fun _ => 0 |}.

Definition naming_rule : PolicyConfig :=
  {| mode := ModeAllow; allow := [js "memory_write"]; deny := []; onNoApprover := NoApproverDeny |}.

(** Without a rule the write after the page is refused; with one it runs. *)
Lemma read_and_write_gated :
  log (execute_named calm_world (read_and_write DEFAULT_POLICY)
         (intents (read_and_write DEFAULT_POLICY))) = [Ran 0 false false; Gated 1].
Proof. by vm_compute. Qed.

Lemma naming_rule_log :
  log (execute_named calm_world (read_and_write naming_rule)
         (intents (read_and_write naming_rule))) = [Ran 0 false false; Ran 1 true true].
Proof. by vm_compute. Qed.

Lemma naming_rule_ran :
  Ran 1 true true ∈ log (execute_named calm_world (read_and_write naming_rule)
         (intents (read_and_write naming_rule))).
Proof. rewrite naming_rule_log. by right; left. Qed.

Lemma naming_rule_unasked :
  ~ Asked 1 Granted ∈ log (execute_named calm_world (read_and_write naming_rule)
         (intents (read_and_write naming_rule))).
Proof. rewrite naming_rule_log, !elem_of_cons, elem_of_nil. by intros [|[|]]. Qed.

Lemma write_gate_witness :
  exists e r, (planIntents (registry (read_and_write naming_rule))
       (intents (read_and_write naming_rule)) 0).1 !! 1%nat = Some e /\
     rule (authorized (read_and_write naming_rule) e true) = Some r.
Proof.
  destruct (write_gate calm_world (read_and_write naming_rule)
    (intents (read_and_write naming_rule)) 1 true ltac:(done) naming_rule_ran) as [[_ H]|[H|H]].
  - by vm_compute in H.
  - exact H.
  - by destruct (naming_rule_unasked H).
Defined.

Lemma every_call_answered_witness :
  map callId (results (executeIntents calm_world (read_and_write DEFAULT_POLICY))) =
  [js "1"; js "2"].
Proof.
  assert (NoDup (map i_callId (intents (read_and_write DEFAULT_POLICY)))) as H1
    by (apply (bool_decide_unpack _); by vm_compute).
  assert (repair (executeIntents calm_world (read_and_write DEFAULT_POLICY)) = [])
    as H2 by (by vm_compute).
  exact (every_call_answered calm_world _ H1 H2).
Defined.

(** A write and a call to a tool that does not exist: the write does not run. *)
Definition half_known : ExecuteInput :=
  {| registry := [tool_of (spec_of "memory_write" true Trusted)];
     intents := [call_of "1" "memory_write"; call_of "2" "telegram_send"]; timeoutMs := 1000;
     timeoutFor := []; withheld := []; maxParallel := 4; observationMaxTokens := 2000;
     keepFull := false; untrustedInTurn := false; x_onMutate := Refuse; untrustedSource := None;
     x_policy := DEFAULT_POLICY; approves := false; defers := false |}.

Lemma step_all_or_nothing_witness :
  map fe_field (repair (executeIntents calm_world half_known)) =
    [js "telegram_send"] /\
  log (executeIntents calm_world half_known) = [].
Proof.
  split; [by vm_compute|].
  apply (step_all_or_nothing calm_world half_known).
  intros H%(f_equal length). by vm_compute in H.
Defined.
