(* ===== verification/NltTurn.v ===== *)
(** * From the text of a step to the calls that run

    The natural-language dialect ([Nlt.v], [NltWrite.v]) read, coerced ([Coerce.v]) and planned
    ([Execute.v]): what reaches a tool of what the model wrote. *)
From S2P Require Import Prelude UString Regex Kinds Trust Json Tools Coerce Messages Dialect Native Nlt NltWrite NltStream NltRender Execute.
Local Open Scope Z_scope.








