(* ===== verification/Silence.v ===== *)
(** * How a step and a turn end: [loop/silence.ts], [loop/turn-end.ts]

    When a reply is not a reply, which failures are temporary, and what a person is told about
    an ending. The lookahead of the promise pattern is what its continuation demands. *)
From S2P Require Import Prelude UString Kinds Regex Phases Policy Trust Messages.
Local Open Scope Z_scope.
Local Open Scope regex_scope.

Inductive SilenceKind := SEmpty | SPromise | SClaim.

(** The straight and the curly apostrophe. *)
Definition apostrophe : regex := RSet (fun c => (c =? 39) || (c =? 0x2019)).

Definition any_of (l : list string) : regex := fold_right (fun w r => RAlt (liti w) r) (RSet (fun _ => false)) l.

Definition adverb : regex :=
  opt (RAlt (liti "ok" +++ opt (liti "ay")) (any_of ["now"; "next"; "first"; "sure"]%string) +++
       opt (RSet (fun c => (c =? 44) || (c =? 58))) +++ plus space).

Definition announcement : regex :=
  RAlt (liti "i" +++ apostrophe +++ liti "ll")
    (RAlt (any_of ["i will"; "let me"]%string)
       (RAlt (liti "i" +++ apostrophe +++ liti "m going to") (liti "i am going to"))).

(** [\s+know\b]. *)
Definition know : regex := plus space +++ liti "know" +++ RBound.

Definition PROMISE (s : ustring) : bool :=
  match m (adverb +++ announcement +++ RBound) None s (fun prev rest =>
    match exec_at know prev rest with Some _ => None | None => Some tt end) with
  | Some _ => true
  | None => false
  end.

Definition CLAIM : regex :=
  RBound +++ RAlt (liti "i" +++ apostrophe +++ liti "ve") (RAlt (liti "i have") (liti "i")) +++
  plus space +++ opt (RAlt (liti "just" +++ plus space) (RAlt (liti "now" +++ plus space)
    (liti "also" +++ plus space))) +++
  any_of ["saved"; "stored"; "sent"; "written"; "wrote"; "updated"; "recorded"; "messaged";
          "notified"; "set"; "turned"; "deleted"; "created"; "scheduled"]%string +++ RBound.

Definition is_stop (c : Z) : bool := (c =? 46) || (c =? 33) || (c =? 63).

Inductive ScanState := InText | AfterStop | InBreak.

(** What follows the last white space that a full stop, bang or question mark precedes. *)
Fixpoint after_break (st : ScanState) (s : ustring) : option ustring :=
  match s with
  | [] => match st with InBreak => Some [] | _ => None end
  | c :: rest =>
      let here := match st with InBreak => if is_space c then None else Some s | _ => None end in
      let st' :=
        if is_space c then match st with InText => InText | _ => InBreak end
        else if is_stop c then AfterStop else InText in
      match after_break st' rest with Some x => Some x | None => here end
  end.

(** [visible.split(/(?<=[.!?])\s+/).at(-1)]. *)
Definition last_sentence (s : ustring) : ustring := default s (after_break InText s).

Definition ends_with_question (s : ustring) : bool := bool_decide (last s = Some 63).

Definition silenceOf (text : ustring) (trace : list ChatMessage) (acted : bool)
  : option SilenceKind :=
  let visible := trim text in
  match visible with
  | [] => if existsb (fun x => bool_decide (origin x = Some OObservation)) trace
          then Some SEmpty else None
  | _ =>
      if negb acted && test CLAIM visible then Some SClaim
      else
        let lst := trim (last_sentence visible) in
        if ends_with_question lst then None
        else if negb acted && PROMISE lst then Some SPromise else None
  end.

Definition SILENCE_NOTE (k : SilenceKind) : ustring :=
  match k with
  | SEmpty => js "From the runtime, not the person: your last response had no visible text, so nothing reached them. You have the tool result above. Answer them now, or make the call you need."
  | SPromise => js "From the runtime, not the person: you said you would do that, but no tool call was made, so nothing happened. Make the call now, or tell them plainly why you cannot."
  | SClaim => js "From the runtime, not the person: your reply says it is done, but nothing that saves, sends or changes anything ran in this turn, so it was not done. Make the call now, or tell them it was not done."
  end.

Definition TRANSIENT_RETRIES : nat := 2.

Definition TEMPORARY : regex :=
  RAlt (any_of ["temporar"; "try again"; "retry later"; "unavailable"; "timed out"]%string)
    (RAlt (liti "rate" +++ opt any_char +++ liti "limit")
       (RAlt (liti "overloaded") (RBound +++ any_of ["429"; "503"]%string +++ RBound))).

Definition failedTransiently (r : ToolResult) : bool :=
  if ok r then false
  else match error r with None => false | Some d => test TEMPORARY (message d) end.

(** ** Endings *)

Inductive TurnEndReason := Final | MaxSteps | NoProgress | Truncated | Timeout | Stopped | Error.
#[export] Instance TurnEndReason_eq_dec : EqDecision TurnEndReason.
Proof. solve_decision. Defined.

Definition endedBadly (r : TurnEndReason) : bool :=
  match r with Final | Stopped => false | _ => true end.

(** The line a person reads. [cancelled] is the time since the cancel as [toFixed(0)] writes it. *)
Definition endNote (r : TurnEndReason) (steps durationMs : option Z) (cancelled : option ustring)
  : option ustring :=
  match r with
  | Final | Error => None
  | MaxSteps =>
      Some (js "stopped" ++
            match steps with None => [] | Some n => js " after " ++ decimal n ++ js " steps" end ++
            js " without finishing " ++ [0x2014] ++ js " say " ++ quote ++ js "continue" ++ quote ++
            js " to carry on, or raise limits.maxSteps")
  | NoProgress =>
      Some (js "stopped: the same tool call was repeated with no change " ++ [0x2014] ++ js " say " ++
            quote ++ js "continue" ++ quote ++
            js " with more to go on, or check whether that tool is telling it anything useful")
  | Truncated =>
      Some (js "the reply was cut off at the output limit " ++ [0x2014] ++
            js " raise model.<role>.maxTokens, or ask for less")
  | Timeout =>
      Some (js "timed out" ++
            match durationMs with None => [] | Some n => js " after " ++ decimal n ++ js " ms" end ++
            js " " ++ [0x2014] ++ js " raise limits.turnTimeoutMs")
  | Stopped =>
      Some (match cancelled with
            | None => js "cancelled"
            | Some ms => js "cancelled after " ++ ms ++ js " ms"
            end)
  end.

(** ** What counts as silence *)

(** A turn that acted is never nudged for what its reply claims or promises. *)
Lemma silence_acted text trace k : silenceOf text trace true = Some k -> k = SEmpty.
Proof.
  unfold silenceOf. destruct (trim text); [by destruct (existsb _ _) as [|] eqn:?; intros [= <-]|].
  cbn [negb andb]. by destruct (ends_with_question _).
Qed.

(** Every ending that is not the work finishing or a person stopping it says so, except an error,
    whose own event carries the words. *)
Lemma endNote_covers r steps ms cancelled :
  endNote r steps ms cancelled = None <-> r = Final \/ r = Error.
Proof. destruct r; cbn; split; intros H; try done; try (by destruct H); auto. Qed.

Example silence_samples :
  map (fun s => silenceOf (js s) [] false)
    ["I'll store it under locker_code."; "Let me know if you need more."; "Shall I? I'll wait?";
     "Done. I've saved it under meal_limit."; "It opens at nine."; "Sure, let me check."]%string =
  [Some SPromise; None; None; Some SClaim; None; Some SPromise].
Proof. by vm_compute. Qed.
