(* ===== verification/Turn.v ===== *)
(** * A turn: [loop/turn.ts]

    The step loop: assemble, compact, ask the model, read the reply, guard, run the calls, repeat.
    What the loop does not decide is the environment's answer to each step: whether the turn was
    aborted, what the model replied, what the calls returned and which tools are offered after
    them. Dialects are given by their four renderings. Events are not modelled; of the result's
    token counts the last prompt's and the output total are. Signed thinking, images and
    attachments ride along unread. *)
From Stdlib Require Import QArith.
From S2P Require Import Prelude UString Json Kinds Trust Tools Messages Budget Stages Ladder Assemble Dialect Native Execute Silence.
Local Open Scope Z_scope.

(** ** What the loop is given *)

Record ToolRuntime := { tr_registry : Registry; tr_blocks : list ContextBlock; tr_wireTokens : Z }.

Record TurnLimits := { maxSteps : nat; identicalCalls : nat; sameTool : option nat }.

Record TurnCompaction := {
  tc_thresholds : Thresholds; tc_calibration : Calibration;
  tc_summarise : option (StageName -> list ChatMessage -> option ustring); tc_persists : bool }.

(** [ti_prompt] carries everything of the prompt but the history and the catalogue. *)
Record TurnInput := {
  ti_prompt : AssembleInput;
  ti_history : list ChatMessage;
  ti_tools : option ToolRuntime;
  ti_dialect : Dialect;
  ti_limits : TurnLimits;
  ti_compaction : option TurnCompaction;
  ti_inputTrust : Trust;
  ti_taintedBy : option ustring;
  ti_sender : option ustring;
  ti_phase : ustring }.

Record ModelReply := {
  mr_text : ustring; mr_calls : list ToolCallRequest; mr_reasoning : ustring; mr_aborted : bool;
  mr_finish : ustring; mr_promptTokens : Z; mr_reported : bool; mr_outputTokens : Z }.

(** The environment of one step; [None] is a call that throws. *)
Record StepEnv := {
  e_aborted : bool;
  e_persist : list Displaced -> bool;
  e_context : AssembledContext -> option AssembledContext;
  e_reply : list WireMessage -> option ModelReply;
  e_execute : list ToolIntent -> bool -> option ustring -> option (list ToolResult * list FieldError);
  e_tools : option ToolRuntime -> option ToolRuntime;
  e_phase : ustring -> ustring }.

(** ** What the loop keeps *)

Inductive TurnError :=
  EmptyReply | Looping | ReplyTruncated | ModelRefused | RepairFailed | Aborted | Thrown.
#[export] Instance TurnError_eq_dec : EqDecision TurnError.
Proof. solve_decision. Defined.

(** A step's calls past the guards: whether they reached the executor, what it was told, and
    what came back. *)
Record ExecRecord := {
  x_signature : ustring; x_ran : bool; x_untrusted : bool; x_results : list ToolResult }.

Record TurnState := {
  (* the conversation *)
  history : list ChatMessage; trace : list ChatMessage; text : ustring; finalText : ustring;
  pendingProse : ustring;
  (* the meters *)
  steps : nat; promptTokens : Z; outputTokens : Z; calibration : Calibration; compactions : Z;
  resets : Z;
  (* the guards *)
  repairs : nat; nudged : bool; recentCalls : list ustring; transientFailed : option ustring;
  transientRetries : list (ustring * nat); callsByTool : list (ustring * nat);
  (* the tools and the taint *)
  tools : option ToolRuntime; phase : ustring; sideEffects : bool; untrustedSeen : bool;
  untrustedSource : option ustring;
  (* the ending *)
  reason : TurnEndReason; answered : bool; error : option TurnError;
  (* every step's calls so far, oldest first: kept for the statements, read by no code *)
  executed : list ExecRecord }.

(** A counter of a map, zero when absent. *)
Fixpoint count_of (k : ustring) (l : list (ustring * nat)) : nat :=
  match l with
  | [] => 0
  | (k', n) :: rest => if bool_decide (k' = k) then n else count_of k rest
  end.
Fixpoint count_set (k : ustring) (n : nat) (l : list (ustring * nat)) : list (ustring * nat) :=
  match l with
  | [] => [(k, n)]
  | (k', n') :: rest => if bool_decide (k' = k) then (k', n) :: rest else (k', n') :: count_set k n rest
  end.

(** ** The step's monad: a value, or the end of the iteration *)

Inductive Flow := Continue (st : TurnState) | Break (st : TurnState) | Throw (st : TurnState).

Definition M (A : Type) : Type := TurnState -> (A * TurnState) + Flow.

#[export] Instance M_ret : MRet M := fun A a st => inl (a, st).
#[export] Instance M_bind : MBind M := fun A B f m st =>
  match m st with inl (a, st') => f a st' | inr fl => inr fl end.

Definition get_st : M TurnState := fun st => inl (st, st).
Definition modify (f : TurnState -> TurnState) : M unit := fun st => inl (tt, f st).
Definition continue : M unit := fun st => inr (Continue st).
Definition break : M unit := fun st => inr (Break st).
Definition throw {A} : M A := fun st => inr (Throw st).
Definition when (b : bool) (m : M unit) : M unit := if b then m else mret tt.
Definition or_throw {A} (o : option A) : M A := match o with Some a => mret a | None => throw end.

(** *** Updates *)

Definition set_conversation (h tr : list ChatMessage) (prose : ustring) (st : TurnState) : TurnState :=
  {| history := h; trace := tr; text := text st; finalText := finalText st; pendingProse := prose;
     steps := steps st; promptTokens := promptTokens st; outputTokens := outputTokens st;
     calibration := calibration st; compactions := compactions st; resets := resets st;
     repairs := repairs st; nudged := nudged st; recentCalls := recentCalls st;
     transientFailed := transientFailed st; transientRetries := transientRetries st;
     callsByTool := callsByTool st; tools := tools st; phase := phase st;
     sideEffects := sideEffects st; untrustedSeen := untrustedSeen st;
     untrustedSource := untrustedSource st; reason := reason st; answered := answered st;
     error := error st; executed := executed st |}.

(** [history.push(...ms); trace.push(...ms)]. *)
Definition push (ms : list ChatMessage) (st : TurnState) : TurnState :=
  set_conversation (history st ++ ms) (trace st ++ ms) (pendingProse st) st.
Definition clear_prose (st : TurnState) : TurnState :=
  set_conversation (history st) (trace st) [] st.
Definition set_history (h : list ChatMessage) (st : TurnState) : TurnState :=
  set_conversation h (trace st) (pendingProse st) st.

Definition set_prose (all last prose : ustring) (st : TurnState) : TurnState :=
  {| history := history st; trace := trace st; text := all; finalText := last; pendingProse := prose;
     steps := steps st; promptTokens := promptTokens st; outputTokens := outputTokens st;
     calibration := calibration st; compactions := compactions st; resets := resets st;
     repairs := repairs st; nudged := nudged st; recentCalls := recentCalls st;
     transientFailed := transientFailed st; transientRetries := transientRetries st;
     callsByTool := callsByTool st; tools := tools st; phase := phase st;
     sideEffects := sideEffects st; untrustedSeen := untrustedSeen st;
     untrustedSource := untrustedSource st; reason := reason st; answered := answered st;
     error := error st; executed := executed st |}.

Definition set_meters (n : nat) (pt ot : Z) (c : Calibration) (cs rs : Z) (st : TurnState) : TurnState :=
  {| history := history st; trace := trace st; text := text st; finalText := finalText st;
     pendingProse := pendingProse st; steps := n; promptTokens := pt; outputTokens := ot;
     calibration := c; compactions := cs; resets := rs;
     repairs := repairs st; nudged := nudged st; recentCalls := recentCalls st;
     transientFailed := transientFailed st; transientRetries := transientRetries st;
     callsByTool := callsByTool st; tools := tools st; phase := phase st;
     sideEffects := sideEffects st; untrustedSeen := untrustedSeen st;
     untrustedSource := untrustedSource st; reason := reason st; answered := answered st;
     error := error st; executed := executed st |}.

Definition set_guards (r : nat) (nd : bool) (rc : list ustring) (tf : option ustring)
  (tr ct : list (ustring * nat)) (st : TurnState) : TurnState :=
  {| history := history st; trace := trace st; text := text st; finalText := finalText st;
     pendingProse := pendingProse st; steps := steps st; promptTokens := promptTokens st;
     outputTokens := outputTokens st; calibration := calibration st;
     compactions := compactions st; resets := resets st;
     repairs := r; nudged := nd; recentCalls := rc; transientFailed := tf; transientRetries := tr;
     callsByTool := ct; tools := tools st; phase := phase st;
     sideEffects := sideEffects st; untrustedSeen := untrustedSeen st;
     untrustedSource := untrustedSource st; reason := reason st; answered := answered st;
     error := error st; executed := executed st |}.

Definition set_tools (tl : option ToolRuntime) (ph : ustring) (se us : bool) (src : option ustring)
  (ex : list ExecRecord) (st : TurnState) : TurnState :=
  {| history := history st; trace := trace st; text := text st; finalText := finalText st;
     pendingProse := pendingProse st; steps := steps st; promptTokens := promptTokens st;
     outputTokens := outputTokens st; calibration := calibration st;
     compactions := compactions st; resets := resets st;
     repairs := repairs st; nudged := nudged st; recentCalls := recentCalls st;
     transientFailed := transientFailed st; transientRetries := transientRetries st;
     callsByTool := callsByTool st; tools := tl; phase := ph; sideEffects := se;
     untrustedSeen := us; untrustedSource := src; reason := reason st; answered := answered st;
     error := error st; executed := ex |}.

Definition set_ending (r : TurnEndReason) (a : bool) (e : option TurnError) (st : TurnState) : TurnState :=
  {| history := history st; trace := trace st; text := text st; finalText := finalText st;
     pendingProse := pendingProse st; steps := steps st; promptTokens := promptTokens st;
     outputTokens := outputTokens st; calibration := calibration st;
     compactions := compactions st; resets := resets st;
     repairs := repairs st; nudged := nudged st; recentCalls := recentCalls st;
     transientFailed := transientFailed st; transientRetries := transientRetries st;
     callsByTool := callsByTool st; tools := tools st; phase := phase st;
     sideEffects := sideEffects st; untrustedSeen := untrustedSeen st;
     untrustedSource := untrustedSource st; reason := r; answered := a; error := e;
     executed := executed st |}.

(** [reason = r; error = e; break]. *)
Definition fail_turn (r : TurnEndReason) (e : TurnError) : M unit :=
  modify (fun st => set_ending r (answered st) (Some e) st) ≫= fun _ => break.

(** ** Assembling and compacting *)

Definition wire_of (tl : option ToolRuntime) : Z := match tl with None => 0 | Some t => tr_wireTokens t end.

Definition assemble_input (i : TurnInput) (tl : option ToolRuntime) (initial : nat)
  (h : list ChatMessage) : AssembleInput :=
  let p := ti_prompt i in
  {| identity := identity p; toolBlocks := match tl with None => [] | Some t => tr_blocks t end;
     configSummary := configSummary p; examples := examples p; volatile := volatile p;
     skills := skills p; knowledge := knowledge p; memory := memory p; reminder := reminder p;
     note := note p; ai_input := ai_input p; inputImages := inputImages p; lastError := None;
     ai_history := h; ai_protectedTail := Some (Z.max 0 (zlen h - Z.of_nat initial));
     traceAfterInput := traceAfterInput p; window := Z.max 1 (window p - wire_of tl);
     reserveOutput := reserveOutput p |}.

Definition assembleWith (i : TurnInput) (h : list ChatMessage) : M AssembledContext :=
  st ← get_st;
  match assembleContext (assemble_input i (tools st) (length (ti_history i)) h) with
  | AOk c => mret c
  | AThrow _ => throw
  end.

Definition history_cost (c : AssembledContext) : Z :=
  blockTokens (List.filter (is_slot SHistory) (blocks c)).

Definition ladder_input (i : TurnInput) (tc : TurnCompaction) (c : AssembledContext) (st : TurnState)
  : LadderInput :=
  {| li_history := history st;
     li_protectedTail := zlen (history st) - zlen (ti_history i);
     budget := ac_promptBudget c;
     fixed := Z.max 0 (totalTokens c - history_cost c);
     thresholds := tc_thresholds tc; Ladder.calibration := calibration st;
     summarise := tc_summarise tc |}.

Definition resets_in (rs : list StageRecord) : Z :=
  zlen (List.filter (fun r => bool_decide (stage r = Reset) && r_changed r) rs).

Definition compact (i : TurnInput) (e : StepEnv) (c : AssembledContext) : M AssembledContext :=
  match ti_compaction i with
  | None => mret c
  | Some tc =>
      st ← get_st;
      let r := runLadder (ladder_input i tc c st) in
      modify (fun st => set_meters (steps st) (promptTokens st) (outputTokens st) (calibration st)
        (compactions st) (resets st + resets_in (stages r)) st);;
      match stages r with
      | [] => mret c
      | _ =>
          modify (fun st => set_meters (steps st) (promptTokens st) (outputTokens st) (calibration st)
            (compactions st + zlen (stages r)) (resets st) st);;
          when (tc_persists tc && negb (bool_decide (length (lr_displaced r) = 0%nat)) &&
                negb (e_persist e (lr_displaced r))) throw;;
          modify (set_history (lr_history r));;
          assembleWith i (lr_history r)
      end
  end.

(** ** Asking and reading *)

Definition ask (i : TurnInput) (e : StepEnv) (c : AssembledContext) : M (AssembledContext * ModelReply) :=
  modify (fun st => set_meters (S (steps st)) (promptTokens st) (outputTokens st) (calibration st)
    (compactions st) (resets st) st);;
  c' ← or_throw (e_context e c);
  r ← or_throw (e_reply e (messagesOf (blocks c')));
  mret (c', r).

Definition account (i : TurnInput) (c : AssembledContext) (r : ModelReply) : M unit :=
  modify (fun st =>
    let cal :=
      match ti_compaction i with
      | Some _ =>
          if mr_reported r then
            observe (calibration st)
              {| estimated := comparableEstimate (totalTokens c) (wire_of (tools st));
                 reported := mr_promptTokens r |}
          else calibration st
      | None => calibration st
      end in
    set_meters (steps st) (mr_promptTokens r) (outputTokens st + mr_outputTokens r) cal
      (compactions st) (resets st) st).

Definition no_tools (tl : option ToolRuntime) : bool :=
  match tl with None => true | Some t => bool_decide (length (tr_registry t) = 0%nat) end.

Definition output_of (r : ModelReply) : StepOutput := {| so_text := mr_text r; so_calls := mr_calls r |}.

Definition read_reply (i : TurnInput) (r : ModelReply) : M ParsedOutput :=
  st ← get_st;
  mret (if no_tools (tools st) then {| parsed_intents := []; parsed_text := mr_text r; malformed := [] |}
        else parse (ti_dialect i) (output_of r)).

Definition narrate (p : ParsedOutput) : M unit :=
  modify (fun st =>
    match parsed_text p with
    | [] => set_prose (text st) (finalText st) [] st
    | t => set_prose (match text st with [] => t | old => old ++ [10; 10] ++ t end) t t st
    end).

Definition finished_by (r : ModelReply) (s : string) : bool := bool_decide (mr_finish r = js s).

Definition check_exhausted (r : ModelReply) (p : ParsedOutput) : M unit :=
  st ← get_st;
  when (finished_by r "length" && blank (text st) && is_nil (parsed_intents p))
    (fail_turn Error EmptyReply).

(** [parsed.intents.find(...)], counting as it goes and stopping at the first over the limit. *)
Fixpoint over_same_tool (limit : nat) (l : list ToolIntent) (counts : list (ustring * nat))
  : bool * list (ustring * nat) :=
  match l with
  | [] => (false, counts)
  | x :: rest =>
      let n := S (count_of (i_slug x) counts) in
      let counts' := count_set (i_slug x) n counts in
      if (limit <? n)%nat then (true, counts') else over_same_tool limit rest counts'
  end.

Definition check_same_tool (i : TurnInput) (p : ParsedOutput) : M unit :=
  match sameTool (ti_limits i) with
  | None => mret tt
  | Some limit =>
      st ← get_st;
      let '(over, counts) := over_same_tool limit (parsed_intents p) (callsByTool st) in
      modify (fun st => set_guards (repairs st) (nudged st) (recentCalls st) (transientFailed st)
        (transientRetries st) counts st);;
      when over (fail_turn NoProgress Looping)
  end.

Definition check_truncated (r : ModelReply) (p : ParsedOutput) : M unit :=
  when (finished_by r "length" && is_nil (parsed_intents p)) (fail_turn Truncated ReplyTruncated).

Definition check_refused (r : ModelReply) : M unit :=
  when (finished_by r "content_filter" || finished_by r "refusal") (fail_turn Error ModelRefused).

(** ** No call: the answer, or a nudge *)

Definition nudge_messages (i : TurnInput) (r : ModelReply) (p : ParsedOutput) (k : SilenceKind)
  : list ChatMessage :=
  match parsed_text p with
  | [] => []
  | _ => [with_origin OCall (renderCall (ti_dialect i) (output_of r))]
  end ++ [with_origin ORepair (plain_message RUser (SILENCE_NOTE k))].

Definition answer_or_nudge (i : TurnInput) (r : ModelReply) (p : ParsedOutput) : M unit :=
  st ← get_st;
  when (match tools st with None => true | Some _ => false end ||
        (is_nil (parsed_intents p) && is_nil (malformed p)))
    (match tools st with
     | None => modify (fun st => set_ending (reason st) true (error st) st);; break
     | Some _ =>
         match (if nudged st then None else silenceOf (parsed_text p) (trace st) (sideEffects st)) with
         | Some k =>
             modify (fun st => set_guards (repairs st) true (recentCalls st) (transientFailed st)
               (transientRetries st) (callsByTool st) st);;
             modify (fun st => clear_prose (push (nudge_messages i r p k) st));;
             continue
         | None => modify (fun st => set_ending (reason st) true (error st) st);; break
         end
     end).

(** ** The repeat guard *)

Definition signature (l : list ToolIntent) : ustring :=
  stringify (JArr (map (fun x => JArr [JStr (i_slug x); JObj (i_args x)]) l)).

(** [recentCalls.push(s); if (recentCalls.length > n) recentCalls.shift()]. *)
Definition ring_push (n : nat) (s : ustring) (ring : list ustring) : list ustring :=
  let r := ring ++ [s] in if (n <? length r)%nat then tail r else r.

Definition repeat_guard (i : TurnInput) (p : ParsedOutput) : M unit :=
  let n := identicalCalls (ti_limits i) in
  let s := signature (parsed_intents p) in
  modify (fun st => if is_nil (parsed_intents p) then st
    else set_guards (repairs st) (nudged st) (ring_push n s (recentCalls st)) (transientFailed st)
           (transientRetries st) (callsByTool st) st);;
  st ← get_st;
  let forgiven := bool_decide (transientFailed st = Some s) &&
                  (count_of s (transientRetries st) <? TRANSIENT_RETRIES)%nat in
  modify (fun st => if forgiven then
      set_guards (repairs st) (nudged st) (recentCalls st) (transientFailed st)
        (count_set s (S (count_of s (transientRetries st))) (transientRetries st)) (callsByTool st) st
    else st);;
  when (negb forgiven && (length (recentCalls st) =? n)%nat &&
        forallb (fun x => bool_decide (x = s)) (recentCalls st))
    (fail_turn NoProgress Looping).

(** ** Running the calls *)

Definition record_call (i : TurnInput) (r : ModelReply) : M unit :=
  modify (fun st => clear_prose (push [with_origin OCall (renderCall (ti_dialect i) (output_of r))] st)).

(** Whether a successful call changed something, in the registry offered now; [None] throws. *)
Fixpoint any_mutated (tl : option ToolRuntime) (rs : list ToolResult) : option bool :=
  match rs with
  | [] => Some false
  | r :: rest =>
      if ok r then
        match tl with
        | None => any_mutated tl rest
        | Some t =>
            match resolve (tr_registry t) (slug r) with
            | None => None
            | Some tool => if s_mutating (spec tool) then Some true else any_mutated tl rest
            end
        end
      else any_mutated tl rest
  end.

Definition log_calls (p : ParsedOutput) (ran : bool) (rs : list ToolResult) (st : TurnState)
  : TurnState :=
  set_tools (tools st) (phase st) (sideEffects st) (untrustedSeen st) (untrustedSource st)
    (executed st ++ [ {| x_signature := signature (parsed_intents p); x_ran := ran;
                         x_untrusted := untrustedSeen st; x_results := rs |} ]) st.

Definition run_calls (i : TurnInput) (e : StepEnv) (p : ParsedOutput)
  : M (list ToolResult * list FieldError) :=
  match malformed p with
  | (_ :: _) as unreadable =>
      modify (fun st => if is_nil (parsed_intents p) then st else log_calls p false [] st);;
      mret ([], unreadable)
  | [] =>
      st ← get_st;
      o ← or_throw (e_execute e (parsed_intents p) (untrustedSeen st) (untrustedSource st));
      modify (fun st => log_calls p true o.1
        (set_tools (e_tools e (tools st)) (e_phase e (phase st)) (sideEffects st)
           (untrustedSeen st) (untrustedSource st) (executed st) st));;
      mret o
  end.

Definition note_transient (p : ParsedOutput) (rs : list ToolResult) : M unit :=
  modify (fun st => set_guards (repairs st) (nudged st) (recentCalls st)
    (if negb (is_nil rs) && forallb failedTransiently rs then Some (signature (parsed_intents p)) else None)
    (transientRetries st) (callsByTool st) st).

Definition note_effects (rs : list ToolResult) : M unit :=
  st ← get_st;
  when (existsb ok rs && negb (sideEffects st))
    (mutated ← or_throw (any_mutated (tools st) rs);
     modify (fun st => set_tools (tools st) (phase st) mutated (untrustedSeen st)
       (untrustedSource st) (executed st) st)).

Definition note_taint (rs : list ToolResult) : M unit :=
  modify (fun st =>
    if untrustedSeen st then st
    else match List.find is_untrusted rs with
         | Some r => set_tools (tools st) (phase st) (sideEffects st) true (Some (slug r)) (executed st) st
         | None => st
         end).

Definition observe_or_repair (i : TurnInput) (r : ModelReply) (rs : list ToolResult)
  (rep : list FieldError) : M unit :=
  st ← get_st;
  match rep with
  | _ :: _ =>
      when (0 <? repairs st)%nat (fail_turn Error RepairFailed);;
      modify (fun st => set_guards (S (repairs st)) (nudged st) (recentCalls st)
        (transientFailed st) (transientRetries st) (callsByTool st) st);;
      modify (push (map (with_origin ORepair) (renderRepair (ti_dialect i) rep (output_of r))));;
      continue
  | [] =>
      modify (fun st => set_guards 0 (nudged st) (recentCalls st) (transientFailed st)
        (transientRetries st) (callsByTool st) st);;
      modify (push (map (with_origin OObservation) (renderObservation (ti_dialect i) rs)))
  end.

(** ** One iteration of the loop *)

(** The prompt this step sends. *)
Definition prepare (i : TurnInput) (e : StepEnv) : M AssembledContext :=
  when (e_aborted e) break;;
  st ← get_st;
  c0 ← assembleWith i (history st);
  compact i e c0.

(** The reply, up to its calls being recorded. *)
Definition guard (i : TurnInput) (c : AssembledContext) (r : ModelReply) : M ParsedOutput :=
  account i c r;;
  p ← read_reply i r;
  narrate p;;
  when (mr_aborted r) break;;
  check_exhausted r p;;
  check_same_tool i p;;
  check_truncated r p;;
  check_refused r;;
  answer_or_nudge i r p;;
  repeat_guard i p;;
  record_call i r;;
  mret p.

(** What the loop makes of the calls' outcome. *)
Definition settle_calls (i : TurnInput) (r : ModelReply) (p : ParsedOutput)
  (o : list ToolResult * list FieldError) : M unit :=
  note_transient p o.1;;
  note_effects o.1;;
  note_taint o.1;;
  observe_or_repair i r o.1 o.2.

Definition step_body (i : TurnInput) (e : StepEnv) : M unit :=
  c ← prepare i e;
  cr ← ask i e c;
  p ← guard i cr.1 cr.2;
  o ← run_calls i e p;
  settle_calls i cr.2 p o.

(** Falling off the end of the body is the next iteration. *)
Definition step_once (i : TurnInput) (e : StepEnv) (st : TurnState) : Flow :=
  match step_body i e st with inl (_, st') => Continue st' | inr fl => fl end.

(** How the loop is left: by [break], by its condition, or by a throw. *)
Inductive LoopEnd := Left (st : TurnState) | Thrown_out (st : TurnState) | OutOfFuel.

Fixpoint turn_loop (fuel : nat) (i : TurnInput) (env : nat -> StepEnv) (st : TurnState) : LoopEnd :=
  match fuel with
  | O => OutOfFuel
  | S fuel' =>
      if (steps st <? maxSteps (ti_limits i))%nat then
        match step_once i (env (steps st)) st with
        | Continue st' => turn_loop fuel' i env st'
        | Break st' => Left st'
        | Throw st' => Thrown_out st'
        end
      else Left st
  end.

(** ** The whole turn *)

Definition input_message (i : TurnInput) : ChatMessage :=
  let m := plain_message RUser (ai_input (ti_prompt i)) in
  {| role := role m; content := content m; toolCalls := toolCalls m; toolCallId := toolCallId m;
     origin := origin m; tainted := bool_decide (ti_inputTrust i = Untrusted) |}.

Definition seeded (i : TurnInput) : bool :=
  bool_decide (ti_inputTrust i = Untrusted) || bool_decide (is_Some (ti_taintedBy i)).

Definition start_state (i : TurnInput) : TurnState :=
  {| history := ti_history i; trace := [input_message i]; text := []; finalText := [];
     pendingProse := []; steps := 0; promptTokens := 0; outputTokens := 0;
     calibration := match ti_compaction i with Some tc => tc_calibration tc | None => UNCALIBRATED end;
     compactions := 0; resets := 0; repairs := 0; nudged := false; recentCalls := [];
     transientFailed := None; transientRetries := []; callsByTool := []; tools := ti_tools i;
     phase := ti_phase i; sideEffects := false; untrustedSeen := seeded i;
     untrustedSource := match ti_taintedBy i with Some s => Some s | None => ti_sender i end;
     reason := Final; answered := false; error := None; executed := [] |}.

(** [link.cause() ?? "stopped"], once the signal is aborted. *)
Inductive AbortCause := ByTimeout | ByCaller.
Definition abort_reason (c : AbortCause) : TurnEndReason :=
  match c with ByTimeout => Timeout | ByCaller => Stopped end.

Definition close (i : TurnInput) (aborted : option AbortCause) (le : LoopEnd) : option TurnState :=
  match le with
  | OutOfFuel => None
  | Left st =>
      Some match aborted with
           | Some c => set_ending (abort_reason c) (answered st) (Some Aborted) st
           | None =>
               if bool_decide (reason st = Final) && negb (answered st) &&
                  (maxSteps (ti_limits i) <=? steps st)%nat
               then set_ending MaxSteps (answered st) (error st) st
               else st
           end
  | Thrown_out st =>
      Some match aborted with
           | Some c => set_ending (abort_reason c) (answered st) (Some Aborted) st
           | None => set_ending Error (answered st) (Some Thrown) st
           end
  end.

Record TurnResult := {
  t_text : ustring; t_finalText : ustring; t_reason : TurnEndReason; t_steps : nat;
  t_prompt : Z; t_output : Z; t_error : option TurnError; appended : list ChatMessage;
  t_calibration : Calibration; t_compactions : Z; t_resets : Z; t_phase : ustring;
  t_tainted : bool }.

Definition final_trace (st : TurnState) : list ChatMessage :=
  match pendingProse st with
  | [] => trace st
  | prose =>
      let m := plain_message RAssistant prose in
      trace st ++ [ {| role := role m; content := content m; toolCalls := toolCalls m;
                       toolCallId := toolCallId m; origin := origin m;
                       tainted := untrustedSeen st |} ]
  end.

Definition result_of (st : TurnState) : TurnResult :=
  {| t_text := text st; t_finalText := finalText st; t_reason := reason st; t_steps := steps st;
     t_prompt := promptTokens st; t_output := outputTokens st; t_error := error st;
     appended := if negb (bool_decide (reason st = Error)) || sideEffects st then final_trace st else [];
     t_calibration := calibration st; t_compactions := compactions st; t_resets := resets st;
     t_phase := phase st; t_tainted := untrustedSeen st |}.

Definition turn_fuel (i : TurnInput) : nat := S (maxSteps (ti_limits i)).

Definition runTurnCore (i : TurnInput) (env : nat -> StepEnv) (aborted : option AbortCause)
  : option TurnResult :=
  result_of <$> close i aborted (turn_loop (turn_fuel i) i env (start_state i)).

(** ** With a [wrapTurn] around it *)

Record TurnView := { v_text : ustring; v_reason : TurnEndReason; v_steps : nat }.

(** A middleware answers without calling [next], or from what [next] returned. *)
Inductive Wrapping := NoMiddleware | ShortCircuit (v : TurnView) | Around (f : TurnView -> TurnView).

Definition with_view (t : TurnResult) (ft : ustring) (v : TurnView) : TurnResult :=
  {| t_text := v_text v; t_finalText := ft; t_reason := v_reason v; t_steps := v_steps v;
     t_prompt := t_prompt t; t_output := t_output t; t_error := t_error t; appended := appended t;
     t_calibration := t_calibration t; t_compactions := t_compactions t; t_resets := t_resets t;
     t_phase := t_phase t; t_tainted := t_tainted t |}.

Definition runTurn (i : TurnInput) (env : nat -> StepEnv) (aborted : option AbortCause) (w : Wrapping)
  : option TurnResult :=
  match w with
  | NoMiddleware => runTurnCore i env aborted
  | ShortCircuit v =>
      Some {| t_text := v_text v; t_finalText := []; t_reason := v_reason v; t_steps := v_steps v;
              t_prompt := 0; t_output := 0; t_error := None; appended := [];
              t_calibration := UNCALIBRATED; t_compactions := 0; t_resets := 0; t_phase := [];
              t_tainted := false |}
  | Around f =>
      core ← runTurnCore i env aborted;
      let v := f {| v_text := t_text core; v_reason := t_reason core; v_steps := t_steps core |} in
      Some (with_view core (if bool_decide (v_text v = t_text core) then t_finalText core else []) v)
  end.

(** ** Reasoning about a step *)

Definition flow_state (fl : Flow) : TurnState :=
  match fl with Continue st | Break st | Throw st => st end.

(** From [P], [m] either returns with [Q] or ends the iteration with [E]. *)
Definition spec {A} (P : TurnState -> Prop) (m : M A) (Q : A -> TurnState -> Prop)
  (E : Flow -> Prop) : Prop :=
  forall st, P st -> match m st with inl (a, st') => Q a st' | inr fl => E fl end.

(** [m] keeps [P]. *)
Definition keeps {A} (P : TurnState -> Prop) (E : Flow -> Prop) (m : M A) : Prop :=
  spec P m (fun _ => P) E.

Section Spec.
Context (P : TurnState -> Prop) (E : Flow -> Prop).

Lemma spec_bind {A B} (m : M A) (f : A -> M B) Q R :
  spec P m Q E -> (forall a, spec (Q a) (f a) R E) -> spec P (m ≫= f) R E.
Proof.
  intros Hm Hf st Hst. specialize (Hm st Hst). unfold mbind, M_bind.
  destruct (m st) as [[a st']|fl]; [by apply Hf|done].
Qed.
Lemma keeps_bind {A B} (m : M A) (f : A -> M B) :
  keeps P E m -> (forall a, keeps P E (f a)) -> keeps P E (m ≫= f).
Proof. apply spec_bind. Qed.
Lemma keeps_ret {A} (a : A) : keeps P E (mret a).
Proof. by intros st. Qed.
Lemma keeps_get : keeps P E get_st.
Proof. by intros st. Qed.
Lemma keeps_modify (f : TurnState -> TurnState) : (forall st, P st -> P (f st)) -> keeps P E (modify f).
Proof. intros H st Hst. by apply H. Qed.
Lemma keeps_continue : (forall st, P st -> E (Continue st)) -> keeps P E continue.
Proof. intros H st Hst. by apply H. Qed.
Lemma keeps_break : (forall st, P st -> E (Break st)) -> keeps P E break.
Proof. intros H st Hst. by apply H. Qed.
Lemma keeps_throw {A} : (forall st, P st -> E (Throw st)) -> keeps P E (@throw A).
Proof. intros H st Hst. by apply H. Qed.
Lemma keeps_when b m : keeps P E m -> keeps P E (when b m).
Proof. intros H. destruct b; [done|by intros st]. Qed.
Lemma keeps_or_throw {A} (o : option A) : (forall st, P st -> E (Throw st)) -> keeps P E (or_throw o).
Proof. intros H. destruct o; [apply keeps_ret|by apply keeps_throw]. Qed.
Lemma keeps_fail r e : (forall st, P st -> E (Break (set_ending r (answered st) (Some e) st))) ->
  keeps P E (fail_turn r e).
Proof. intros H st Hst. by apply H. Qed.
End Spec.

(** Work through a stage, leaving what each update must preserve. *)
Ltac keeps_step :=
  lazymatch goal with
  | |- keeps _ _ (mret _) => apply keeps_ret
  | |- keeps _ _ get_st => apply keeps_get
  | |- keeps _ _ break => apply keeps_break
  | |- keeps _ _ continue => apply keeps_continue
  | |- keeps _ _ throw => apply keeps_throw
  | |- keeps _ _ (modify _) => apply keeps_modify
  | |- keeps _ _ (when _ _) => apply keeps_when
  | |- keeps _ _ (or_throw _) => apply keeps_or_throw
  | |- keeps _ _ (fail_turn _ _) => apply keeps_fail
  | |- keeps _ _ (_ ≫= _) => apply keeps_bind
  | |- keeps _ _ (if ?b then _ else _) => destruct b
  | |- keeps _ _ (match ?x with _ => _ end) => destruct x
  | |- forall _, keeps _ _ _ => intros ?
  end.
Ltac as_keeps :=
  lazymatch goal with
  | |- spec ?P ?m _ ?E => change (keeps P E m)
  | |- _ => idtac
  end.
Ltac keeps := as_keeps; repeat (keeps_step; cbv beta zeta).

(** ** How often the loop runs *)

(** Only the iteration's own step is counted, and falling through or continuing counts it. *)
Definition stepped (n : nat) (fl : Flow) : Prop :=
  match fl with
  | Continue st => steps st = S n
  | Break st | Throw st => steps st = n \/ steps st = S n
  end.

Definition at_step (n : nat) (st : TurnState) : Prop := steps st = n.

Lemma ask_spec n i e c :
  spec (at_step n) (ask i e c) (fun _ => at_step (S n)) (stepped n).
Proof.
  unfold ask. apply (spec_bind _ _ _ _ (fun _ => at_step (S n))); [by intros st <-|].
  intros []. unfold mbind at 1. change (keeps (at_step (S n)) (stepped n)
    (or_throw (e_context e c) ≫= fun c' => or_throw (e_reply e (messagesOf (blocks c'))) ≫=
      fun r => mret (c', r))). keeps; by right.
Qed.

Lemma assembleWith_keeps P E i h : (forall st, P st -> E (Throw st)) -> keeps P E (assembleWith i h).
Proof.
  intros H. unfold assembleWith. apply keeps_bind; [apply keeps_get|]. intros st.
  destruct (assembleContext _); [apply keeps_ret|by apply keeps_throw].
Qed.

Lemma compact_keeps P E i e c :
  (forall st n pt ot cal cs rs, P st -> n = steps st -> P (set_meters n pt ot cal cs rs st)) ->
  (forall st h, P st -> P (set_history h st)) -> (forall st, P st -> E (Throw st)) ->
  keeps P E (compact i e c).
Proof.
  intros Hm Hh Ht. unfold compact. destruct (ti_compaction i) as [tc|]; [|keeps].
  apply keeps_bind; [apply keeps_get|intros st].
  apply keeps_bind; [keeps; intros; by apply Hm|intros []].
  destruct (stages _); [keeps|].
  apply keeps_bind; [keeps; intros; by apply Hm|intros []].
  apply keeps_bind; [keeps; done|intros []].
  apply keeps_bind; [keeps; intros; by apply Hh|intros []].
  by apply assembleWith_keeps.
Qed.

Lemma prepare_keeps P E i e :
  (forall st n pt ot cal cs rs, P st -> n = steps st -> P (set_meters n pt ot cal cs rs st)) ->
  (forall st h, P st -> P (set_history h st)) ->
  (forall st, P st -> E (Throw st)) -> (forall st, P st -> E (Break st)) ->
  keeps P E (prepare i e).
Proof.
  intros Hm Hh Ht Hb. unfold prepare. apply keeps_bind; [keeps; done|intros []].
  apply keeps_bind; [apply keeps_get|intros st].
  apply keeps_bind; [by apply assembleWith_keeps|intros c0]. by apply compact_keeps.
Qed.

Lemma guard_counts n i c r : keeps (at_step (S n)) (stepped n) (guard i c r).
Proof.
  unfold guard, account, read_reply, narrate, check_exhausted, check_same_tool, check_truncated,
    check_refused, answer_or_nudge, repeat_guard, record_call.
  keeps; intros st' Hst'; try (by right); by repeat case_match.
Qed.

Lemma calls_counts n i e r p :
  keeps (at_step (S n)) (stepped n) (o ← run_calls i e p; settle_calls i r p o).
Proof.
  unfold run_calls, settle_calls, note_transient, note_effects, note_taint, observe_or_repair.
  keeps; intros st' Hst'; try (by right); by repeat case_match.
Qed.

Lemma step_body_counts n i e : spec (at_step n) (step_body i e) (fun _ => at_step (S n)) (stepped n).
Proof.
  apply (spec_bind _ _ _ _ (fun _ => at_step n)).
  { apply prepare_keeps; try (by left); [by intros st * <- ->|done]. }
  intros c. apply (spec_bind _ _ _ _ (fun _ => at_step (S n))); [apply ask_spec|intros cr].
  apply (spec_bind _ _ _ _ (fun _ => at_step (S n))); [apply guard_counts|intros p].
  apply calls_counts.
Qed.

(** [Continue] and falling through are one thing to the loop. *)
Lemma step_once_steps i e st :
  match step_once i e st with
  | Continue st' => steps st' = S (steps st)
  | Break st' | Throw st' => (steps st' <= S (steps st))%nat
  end.
Proof.
  pose proof (step_body_counts (steps st) i e st eq_refl) as H. unfold step_once.
  destruct (step_body i e st) as [[[] st']|[st'|st'|st']]; cbn in H; try done; lia.
Qed.

(** Rule induction over the iterations of the loop: [P] at its head, [Q] of the way it is left. *)
Lemma turn_loop_ind (P : TurnState -> Prop) (Q : LoopEnd -> Prop) i env :
  (forall st, P st -> (steps st < maxSteps (ti_limits i))%nat ->
     match step_once i (env (steps st)) st with
     | Continue st' => P st'
     | Break st' => Q (Left st')
     | Throw st' => Q (Thrown_out st')
     end) ->
  (forall st, P st -> (maxSteps (ti_limits i) <= steps st)%nat -> Q (Left st)) ->
  forall fuel st, P st -> (steps st <= maxSteps (ti_limits i) < fuel + steps st)%nat ->
  Q (turn_loop fuel i env st).
Proof.
  intros Hstep Hend. induction fuel as [|fuel IH]; intros st Hst Hf; cbn [turn_loop]; [lia|].
  destruct (Nat.ltb_spec (steps st) (maxSteps (ti_limits i))) as [Hlt|Hge]; [|by apply Hend].
  specialize (Hstep st Hst Hlt). pose proof (step_once_steps i (env (steps st)) st) as Hs.
  destruct (step_once i (env (steps st)) st) as [st'|st'|st']; [|done|done].
  apply IH; [done|lia].
Qed.

(** A turn's loop with the turn's fuel. *)
Lemma turn_ind (P : TurnState -> Prop) (Q : LoopEnd -> Prop) i env :
  P (start_state i) ->
  (forall st, P st -> (steps st < maxSteps (ti_limits i))%nat ->
     match step_once i (env (steps st)) st with
     | Continue st' => P st'
     | Break st' => Q (Left st')
     | Throw st' => Q (Thrown_out st')
     end) ->
  (forall st, P st -> (maxSteps (ti_limits i) <= steps st)%nat -> Q (Left st)) ->
  Q (turn_loop (turn_fuel i) i env (start_state i)).
Proof. intros H0 H1 H2. apply (turn_loop_ind P Q); try done. cbn. unfold turn_fuel. lia. Qed.

(** The state the loop was left in. *)
Definition loop_state (le : LoopEnd) : option TurnState :=
  match le with Left st | Thrown_out st => Some st | OutOfFuel => None end.

Lemma loop_ends i env : exists st,
  loop_state (turn_loop (turn_fuel i) i env (start_state i)) = Some st /\
  (steps st <= maxSteps (ti_limits i))%nat.
Proof.
  apply (turn_ind (fun st => steps st <= maxSteps (ti_limits i))%nat
    (fun le => exists st, loop_state le = Some st /\ (steps st <= maxSteps (ti_limits i))%nat)).
  - cbn. lia.
  - intros st Hst Hlt. pose proof (step_once_steps i (env (steps st)) st) as Hs.
    destruct (step_once _ _ _) as [st'|st'|st']; [lia|..]; exists st'; (split; [done|lia]).
  - intros st Hst _. by exists st.
Qed.

Lemma close_loop i aborted le st : loop_state le = Some st ->
  exists st', close i aborted le = Some st' /\ steps st' = steps st /\
    untrustedSeen st' = untrustedSeen st /\ sideEffects st' = sideEffects st /\
    trace st' = trace st /\ pendingProse st' = pendingProse st.
Proof.
  destruct le as [s|s|]; intros [= ->]; cbn; eexists; (split; [done|]);
    repeat case_match; done.
Qed.

(** C32. A turn always ends, whatever the model, the tools and the middleware do, and it asks the
    model at most [maxSteps] times. *)
Theorem turn_terminates (i : TurnInput) (env : nat -> StepEnv) (aborted : option AbortCause)
  : exists r, runTurnCore i env aborted = Some r /\ (t_steps r <= maxSteps (ti_limits i))%nat.
Proof.
  destruct (loop_ends i env) as (st & Hst & Hle).
  destruct (close_loop i aborted _ _ Hst) as (st' & Hc & Hs & _). unfold runTurnCore. rewrite Hc.
  exists (result_of st'). split; [done|]. cbn. lia.
Qed.

(** ** What the turn does with untrusted output *)

Definition record_untrusted (x : ExecRecord) : bool := existsb is_untrusted (x_results x).

(** Each call of the executor was told of every untrusted result before it. *)
Definition told (i : TurnInput) (l : list ExecRecord) : Prop :=
  forall k x, l !! k = Some x ->
    x_untrusted x = (seeded i || existsb record_untrusted (take k l)).

Definition taint_ok (i : TurnInput) (st : TurnState) : Prop :=
  untrustedSeen st = (seeded i || existsb record_untrusted (executed st)) /\ told i (executed st).

Definition taint_exit (i : TurnInput) (fl : Flow) : Prop :=
  match fl with
  | Continue st | Break st => taint_ok i st
  | Throw st => told i (executed st)
  end.

Lemma told_snoc i l x : told i l -> x_untrusted x = (seeded i || existsb record_untrusted l) ->
  told i (l ++ [x]).
Proof.
  intros Hl Hx k y Hy. apply lookup_app_Some in Hy as [Hy|[Hk Hy]].
  - rewrite take_app_le; [by apply Hl|]. apply lookup_lt_Some in Hy. lia.
  - apply list_lookup_singleton_Some in Hy as [Hk' <-].
    assert (k = length l) as -> by lia. by rewrite take_app_length.
Qed.

(** Between the executor's answer and the flag's update. *)
Definition taint_pending (i : TurnInput) (rs : list ToolResult) (st : TurnState) : Prop :=
  (untrustedSeen st || existsb is_untrusted rs) = (seeded i || existsb record_untrusted (executed st)) /\
  told i (executed st).

Lemma log_calls_taint i p ran rs st : taint_ok i st -> taint_pending i rs (log_calls p ran rs st).
Proof.
  intros [Hseen Htold]. split; cbn [untrustedSeen executed log_calls set_tools].
  - rewrite existsb_app, orb_assoc, <- Hseen. cbn [existsb]. by rewrite orb_false_r.
  - by apply told_snoc.
Qed.

Lemma run_calls_taint i e p :
  spec (taint_ok i) (run_calls i e p) (fun o => taint_pending i o.1) (taint_exit i).
Proof.
  intros st Hst. unfold run_calls. destruct (malformed p) as [|x l].
  - unfold get_st, or_throw, modify, throw, mret, M_ret, mbind, M_bind.
    destruct (e_execute e _ _ _) as [[rs rep]|]; [by apply log_calls_taint|by destruct Hst].
  - unfold modify, mret, M_ret, mbind, M_bind. destruct (is_nil _); [|by apply log_calls_taint].
    destruct Hst as [Hseen Htold]. split; [|done]. cbn. by rewrite orb_false_r.
Qed.

Lemma note_taint_ok i rs : spec (taint_pending i rs) (note_taint rs) (fun _ => taint_ok i) (taint_exit i).
Proof.
  intros st [Hseen Htold]. unfold note_taint, modify.
  assert (existsb is_untrusted rs = bool_decide (is_Some (List.find is_untrusted rs))) as Hfind.
  { clear. induction rs as [|r rs IH]; [done|]. cbn. destruct (is_untrusted r); [|done].
    by rewrite bool_decide_eq_true_2. }
  destruct (untrustedSeen st) eqn:Es; [split; [|done]; by rewrite Es, <- Hseen|].
  rewrite Hfind in Hseen. destruct (List.find is_untrusted rs) as [r|].
  - rewrite bool_decide_eq_true_2 in Hseen by done. by split.
  - rewrite bool_decide_eq_false_2 in Hseen by apply is_Some_None. split; [|done]. by rewrite Es.
Qed.


(** What most of the loop's updates leave alone. *)
Record untouched_by_talk (P : TurnState -> Prop) (E : Flow -> Prop) : Prop := {
  ub_conversation : forall st h tr pr, P st -> P (set_conversation h tr pr st);
  ub_prose : forall st a b c, P st -> P (set_prose a b c st);
  ub_meters : forall st n pt ot cal cs rs, P st -> P (set_meters n pt ot cal cs rs st);
  ub_guards : forall st r nd rc tf tr ct, P st -> P (set_guards r nd rc tf tr ct st);
  ub_ending : forall st r a er, P st -> P (set_ending r a er st);
  ub_exit : forall st, P st -> E (Continue st) /\ E (Break st) /\ E (Throw st) }.

Section Untouched.
Context (P : TurnState -> Prop) (E : Flow -> Prop) (HP : untouched_by_talk P E).

Lemma talk_prepare i e : keeps P E (prepare i e).
Proof.
  destruct HP as [Hc Hp Hm Hg He Hx].
  apply prepare_keeps; intros; [by apply Hm|by apply Hc|by apply Hx|by apply Hx].
Qed.

Lemma talk_ask i e c : keeps P E (ask i e c).
Proof.
  destruct HP as [Hc Hp Hm Hg He Hx]. unfold ask. keeps; intros; first [by apply Hm|by apply Hx].
Qed.

Lemma talk_guard i c r : keeps P E (guard i c r).
Proof.
  destruct HP as [Hc Hp Hm Hg He Hx].
  unfold guard, account, read_reply, narrate, check_exhausted, check_same_tool, check_truncated,
    check_refused, answer_or_nudge, repeat_guard, record_call, push, clear_prose.
  keeps; intros st Hst; repeat case_match;
    first [done|by apply Hx|by apply Hx, He|by apply Hm|by apply Hp|by apply Hg|by apply He
          |by apply Hc, Hc].
Qed.

Lemma talk_note_transient p rs : keeps P E (note_transient p rs).
Proof. unfold note_transient. keeps. intros. by apply (ub_guards _ _ HP). Qed.

Lemma talk_observe i r rs rep : keeps P E (observe_or_repair i r rs rep).
Proof.
  destruct HP as [Hc Hp Hm Hg He Hx]. unfold observe_or_repair, push.
  keeps; intros st Hst; first [by apply Hx|by apply Hx, He|by apply Hg|by apply Hc].
Qed.
End Untouched.

Lemma taint_talk i : untouched_by_talk (taint_ok i) (taint_exit i).
Proof. split; try done. intros st H. split_and!; [done|done|apply H]. Qed.

Lemma pending_talk i rs : untouched_by_talk (taint_pending i rs)
  (fun fl => told i (executed (flow_state fl))).
Proof. split; try done. intros st H. split_and!; apply H. Qed.

Lemma note_effects_pending i rs rs' :
  spec (taint_pending i rs) (note_effects rs') (fun _ => taint_pending i rs) (taint_exit i).
Proof.
  intros st Hst. unfold note_effects, get_st, mbind, M_bind, when, or_throw, modify, throw, mret, M_ret.
  destruct (_ && _); [|done]. by destruct (any_mutated _ _); [|apply Hst].
Qed.

Lemma step_body_taint i e : spec (taint_ok i) (step_body i e) (fun _ => taint_ok i) (taint_exit i).
Proof.
  pose proof (taint_talk i) as HP.
  apply (spec_bind _ _ _ _ (fun _ => taint_ok i)); [by apply talk_prepare|intros c].
  apply (spec_bind _ _ _ _ (fun _ => taint_ok i)); [by apply talk_ask|intros cr].
  apply (spec_bind _ _ _ _ (fun _ => taint_ok i)); [by apply talk_guard|intros p].
  apply (spec_bind _ _ _ _ (fun o => taint_pending i o.1)); [apply run_calls_taint|intros o].
  unfold settle_calls.
  apply (spec_bind _ _ _ _ (fun _ => taint_pending i o.1)); [by intros st|intros []].
  apply (spec_bind _ _ _ _ (fun _ => taint_pending i o.1)); [apply note_effects_pending|intros []].
  apply (spec_bind _ _ _ _ (fun _ => taint_ok i)); [apply note_taint_ok|intros []].
  by apply talk_observe.
Qed.

Lemma step_once_taint i e st : taint_ok i st -> taint_exit i (step_once i e st).
Proof.
  intros H. pose proof (step_body_taint i e st H) as Hs. unfold step_once.
  by destruct (step_body i e st) as [[[] st']|fl].
Qed.

(** C2. The write gate is told the truth at every call of the executor: it is called as tainted
    exactly when the turn came in tainted (by its sender or by what delegated it) or a result of
    an earlier step was untrusted, failed results included; and the turn's own flag says so at
    the end of every turn that was not cut short by a throw. *)
Theorem taint_reaches_executor (i : TurnInput) (env : nat -> StepEnv) :
  match turn_loop (turn_fuel i) i env (start_state i) with
  | Left st =>
      told i (executed st) /\
      untrustedSeen st = (seeded i || existsb record_untrusted (executed st))
  | Thrown_out st => told i (executed st)
  | OutOfFuel => False
  end.
Proof.
  apply (turn_ind (taint_ok i) (fun le => match le with
    | Left st => told i (executed st) /\
        untrustedSeen st = (seeded i || existsb record_untrusted (executed st))
    | Thrown_out st => told i (executed st) | OutOfFuel => False end)).
  - split; [cbn; by rewrite orb_false_r|]. intros k x Hx. cbn in Hx. by rewrite lookup_nil in Hx.
  - intros st Hst _. pose proof (step_once_taint i (env (steps st)) st Hst) as H.
    destruct (step_once _ _ _); [done|by destruct H|done].
  - intros st [H1 H2] _. by split.
Qed.

(** ** How often the same calls repeat *)

(** Every run of equal entries is shorter than [n], but for the retries counted for it. *)
Definition runs_ok (n : nat) (retries : ustring -> nat) (l : list ustring) : Prop :=
  forall a s k b, l = a ++ repeat s k ++ b -> (k <= (n - 1) + retries s)%nat.

Definition last_n (n : nat) (l : list ustring) : list ustring := drop (length l - n) l.

Lemma ring_push_last n s l : ring_push n s (last_n n l) = last_n n (l ++ [s]).
Proof.
  unfold ring_push, last_n. rewrite !length_app, length_drop. cbn [length].
  destruct (Nat.ltb_spec n (length l - (length l - n) + 1)) as [Hlt|Hge].
  - assert (tail (drop (length l - n) l ++ [s]) = drop 1 (drop (length l - n) (l ++ [s]))) as ->.
    { rewrite (drop_app_le l) by lia. by destruct (drop (length l - n) l). }
    rewrite drop_drop. f_equal. lia.
  - replace (length l + 1 - n)%nat with 0%nat by lia. replace (length l - n)%nat with 0%nat by lia.
    done.
Qed.

Lemma last_n_repeat n a (s : ustring) k : (n <= k)%nat -> last_n n (a ++ repeat s k) = repeat s n.
Proof.
  intros Hk. unfold last_n. rewrite length_app, repeat_length.
  rewrite drop_app_ge by lia.
  replace (length a + k - n - length a)%nat with (k - n)%nat by lia.
  replace k with ((k - n) + n)%nat at 2 by lia. rewrite repeat_app.
  by rewrite drop_app_length' by (by rewrite repeat_length).
Qed.

Lemma repeat_snoc (s : ustring) k : repeat s (S k) = repeat s k ++ [s].
Proof. apply repeat_cons. Qed.

Lemma runs_ok_mono n r r' l : (forall s, r s <= r' s)%nat -> runs_ok n r l -> runs_ok n r' l.
Proof. intros Hr H a s k b Hl. specialize (H a s k b Hl). specialize (Hr s). lia. Qed.

(** Appending an entry that either is forgiven or does not complete a run of [n]. *)
Lemma runs_ok_snoc n r r' l s :
  runs_ok n r l -> (forall t, r t <= r' t)%nat ->
  (r s < r' s)%nat \/ ~ last_n n (l ++ [s]) = repeat s n -> runs_ok n r' (l ++ [s]).
Proof.
  intros Hl Hr Hs a t k b H.
  destruct b as [|x b _] using rev_ind.
  - rewrite app_nil_r in H. destruct k as [|k]; [lia|]. rewrite repeat_snoc, app_assoc in H.
    apply app_inj_tail in H as [-> <-]. specialize (Hl a s k [] ltac:(by rewrite app_nil_r)).
    destruct Hs as [Hs|Hs]; [lia|].
    destruct (decide (n <= S k)%nat) as [Hge|Hlt]; [|lia].
    destruct Hs. rewrite <- app_assoc, <- repeat_snoc. by apply last_n_repeat.
  - rewrite !app_assoc in H. apply app_inj_tail in H as [-> ->].
    specialize (Hl a t k b ltac:(by rewrite app_assoc)). specialize (Hr t). lia.
Qed.

Lemma count_set_same k n l : count_of k (count_set k n l) = n.
Proof.
  induction l as [|[k' n'] l IH]; cbn; [by rewrite bool_decide_eq_true_2|].
  case_bool_decide as E; cbn; [by rewrite bool_decide_eq_true_2|].
  by rewrite bool_decide_eq_false_2.
Qed.

Lemma count_set_other k k' n l : k <> k' -> count_of k' (count_set k n l) = count_of k' l.
Proof.
  intros Hne. induction l as [|[j m] l IH]; cbn; [by rewrite bool_decide_eq_false_2|].
  case_bool_decide as E; cbn.
  - subst j. by rewrite bool_decide_eq_false_2.
  - by rewrite IH.
Qed.

(** The steps that made these calls and whose results all said that the failure was temporary. *)
Definition all_temporary (rs : list ToolResult) : bool := negb (is_nil rs) && forallb failedTransiently rs.
Definition temporary (s : ustring) (l : list ExecRecord) : nat :=
  length (List.filter (fun x => bool_decide (x_signature x = s) && all_temporary (x_results x)) l).

Lemma temporary_snoc s l x :
  temporary s (l ++ [x]) = (temporary s l + (if bool_decide (x_signature x = s) && all_temporary (x_results x) then 1 else 0))%nat.
Proof. unfold temporary. rewrite List.filter_app, length_app. cbn. by destruct (_ && _). Qed.

(** One more where a temporary failure of these calls was the last thing reported. *)
Definition owing (last : option ustring) (s : ustring) : nat := if bool_decide (last = Some s) then 1 else 0.

(** The ring, the retries and the steps' calls agree, and each retry was owed to a report. *)
Record synced (i : TurnInput) (l : list ustring) (due : ustring -> nat) (st : TurnState) : Prop := {
  sy_ring : recentCalls st = last_n (identicalCalls (ti_limits i)) l;
  sy_runs : runs_ok (identicalCalls (ti_limits i)) (fun s => count_of s (transientRetries st)) l;
  sy_retries : forall s, (count_of s (transientRetries st) <= TRANSIENT_RETRIES)%nat;
  sy_reported : forall s, (count_of s (transientRetries st) + due s <= temporary s (executed st))%nat }.

Definition signatures (st : TurnState) : list ustring := map x_signature (executed st).

Definition guarded_ok (i : TurnInput) (st : TurnState) : Prop := synced i (signatures st) (owing (transientFailed st)) st.

Definition pending (p : ParsedOutput) : list ustring :=
  if is_nil (parsed_intents p) then [] else [signature (parsed_intents p)].

Definition guarded_next (i : TurnInput) (p : ParsedOutput) (st : TurnState) : Prop :=
  synced i (signatures st ++ pending p) (fun _ => 0%nat) st /\
  is_nil (parsed_intents p) && is_nil (malformed p) = false.

(** Once the calls ran, before their outcome is noted. *)
Definition reported (p : ParsedOutput) (rs : list ToolResult) : option ustring :=
  if all_temporary rs then Some (signature (parsed_intents p)) else None.
Definition guarded_ran (i : TurnInput) (p : ParsedOutput) (rs : list ToolResult) (st : TurnState) : Prop :=
  synced i (signatures st) (owing (reported p rs)) st.

Definition repeats_bounded (i : TurnInput) (st : TurnState) : Prop :=
  runs_ok (identicalCalls (ti_limits i)) (fun s => TRANSIENT_RETRIES `min` temporary s (executed st))%nat (signatures st).

Lemma synced_runs i l due st : synced i l due st ->
  runs_ok (identicalCalls (ti_limits i)) (fun s => TRANSIENT_RETRIES `min` temporary s (executed st))%nat l.
Proof. intros [_ Hruns Hret Hrep]. eapply runs_ok_mono; [|exact Hruns]. intros s. specialize (Hret s). specialize (Hrep s). cbn beta. apply Nat.min_glb; lia. Qed.
Lemma synced_bounded i st : guarded_ok i st -> repeats_bounded i st.
Proof. apply synced_runs. Qed.

Definition bounded_exit (i : TurnInput) (fl : Flow) : Prop :=
  match fl with Continue st => guarded_ok i st | Break st | Throw st => repeats_bounded i st end.

(** The ring after this step's push, whichever way the guard decides. *)
Definition after_push (i : TurnInput) (p : ParsedOutput) (st : TurnState) : TurnState :=
  if is_nil (parsed_intents p) then st
  else set_guards (repairs st) (nudged st)
         (ring_push (identicalCalls (ti_limits i)) (signature (parsed_intents p)) (recentCalls st))
         (transientFailed st) (transientRetries st) (callsByTool st) st.

Lemma after_push_ring i p st : guarded_ok i st ->
  recentCalls (after_push i p st) = last_n (identicalCalls (ti_limits i)) (signatures st ++ pending p).
Proof.
  intros [Hring _ _ _]. unfold after_push, pending. destruct (is_nil _); cbn [recentCalls set_guards].
  - by rewrite app_nil_r.
  - by rewrite Hring, ring_push_last.
Qed.

Lemma not_all_same n (s : ustring) l :
  (length l =? n)%nat && forallb (fun x => bool_decide (x = s)) l = false -> l <> repeat s n.
Proof.
  intros H ->. rewrite repeat_length, Nat.eqb_refl in H. cbn in H.
  induction n as [|n IH]; [done|]. cbn in H. rewrite bool_decide_eq_true_2 in H by done. by apply IH.
Qed.

Lemma guarded_next_intro i p st tr :
  guarded_ok i st -> is_nil (parsed_intents p) && is_nil (malformed p) = false ->
  (forall s, (count_of s (transientRetries st) <= count_of s tr <= TRANSIENT_RETRIES)%nat) ->
  (forall s, (count_of s tr <= count_of s (transientRetries st) + owing (transientFailed st) s)%nat) ->
  (count_of (signature (parsed_intents p)) (transientRetries st) <
     count_of (signature (parsed_intents p)) tr)%nat \/
  recentCalls (after_push i p st) <> repeat (signature (parsed_intents p)) (identicalCalls (ti_limits i)) ->
  guarded_next i p (set_guards (repairs (after_push i p st)) (nudged (after_push i p st))
    (recentCalls (after_push i p st)) (transientFailed (after_push i p st)) tr
    (callsByTool (after_push i p st)) (after_push i p st)).
Proof.
  intros Hok Hnil Htr Hdue Hs. rewrite (after_push_ring i p st Hok) in Hs.
  split; [|done].
  replace (signatures _) with (signatures st) by (unfold after_push; by destruct (is_nil _)).
  split; cbn [recentCalls transientRetries set_guards executed]; [by apply after_push_ring| |intros; apply Htr|].
  2: { intros s. specialize (Hdue s). pose proof (sy_reported _ _ _ _ Hok s).
       replace (executed (after_push i p st)) with (executed st) by (unfold after_push; by destruct (is_nil _)). lia. }
  destruct Hok as [_ Hruns _ _]. unfold pending in *. destruct (is_nil (parsed_intents p)).
  - rewrite app_nil_r. eapply runs_ok_mono; [|exact Hruns]. intros s. apply Htr.
  - eapply runs_ok_snoc; [exact Hruns|intros s; apply Htr|done].
Qed.

Lemma repeat_guard_spec i p :
  spec (fun st => guarded_ok i st /\ is_nil (parsed_intents p) && is_nil (malformed p) = false)
    (repeat_guard i p) (fun _ => guarded_next i p) (bounded_exit i).
Proof.
  intros st [Hok Hnil].
  unfold repeat_guard, get_st, modify, when, fail_turn, break, mret, M_ret, mbind, M_bind.
  change (if is_nil (parsed_intents p) then st else _) with (after_push i p st).
  set (st1 := after_push i p st). set (s := signature (parsed_intents p)).
  assert (Hb : repeats_bounded i st1).
  { apply synced_bounded in Hok. unfold repeats_bounded in *.
    unfold signatures. replace (executed st1) with (executed st) by (unfold st1, after_push; by destruct (is_nil _)).
    done. }
  assert (Hr : transientRetries st1 = transientRetries st)
    by (unfold st1, after_push; by destruct (is_nil _)).
  destruct (bool_decide (transientFailed st1 = Some s) && _) eqn:Hf; cbn [negb andb].
  - apply andb_true_iff in Hf as [Htf%bool_decide_eq_true Hlt%Nat.ltb_lt].
    assert (transientFailed st1 = transientFailed st) as Etf by (unfold st1, after_push; by destruct (is_nil _)).
    apply guarded_next_intro; [done|done| | |].
    + intros t. rewrite Hr in *. destruct (decide (s = t)) as [<-|Hne].
      * rewrite count_set_same. lia.
      * rewrite count_set_other by done. split; [lia|apply (sy_retries _ _ _ _ Hok)].
    + intros t. rewrite Hr in *. destruct (decide (s = t)) as [<-|Hne]; [|rewrite count_set_other by done; lia].
      rewrite count_set_same. unfold owing. rewrite <- Etf, bool_decide_eq_true_2 by done. lia.
    + left. rewrite Hr, count_set_same. fold s. lia.
  - destruct ((length (recentCalls st1) =? identicalCalls (ti_limits i))%nat && _) eqn:Hall; [done|].
    assert (st1 = set_guards (repairs st1) (nudged st1) (recentCalls st1) (transientFailed st1)
      (transientRetries st1) (callsByTool st1) st1) as -> by (by destruct st1).
    apply guarded_next_intro; [done|done| | |].
    + intros t. rewrite Hr. split; [lia|apply (sy_retries _ _ _ _ Hok)].
    + intros t. rewrite Hr. lia.
    + right. by apply not_all_same.
Qed.

(** The conversation, the prose, the meters and the ending do not touch the guards. *)
Lemma synced_frame i l due st st' :
  recentCalls st' = recentCalls st -> transientRetries st' = transientRetries st -> executed st' = executed st ->
  synced i l due st -> synced i l due st'.
Proof. intros Hr Ht He [H1 H2 H3 H4]. split; rewrite ?Hr, ?Ht, ?He; done. Qed.

Lemma guarded_ok_frame i st st' :
  recentCalls st' = recentCalls st -> transientRetries st' = transientRetries st ->
  executed st' = executed st -> transientFailed st' = transientFailed st -> guarded_ok i st -> guarded_ok i st'.
Proof. intros Hr Ht He Hf. unfold guarded_ok, signatures. rewrite He, Hf. by apply synced_frame. Qed.

Lemma bounded_frame i st st' : executed st' = executed st -> guarded_ok i st -> repeats_bounded i st'.
Proof.
  intros He Hok. apply synced_bounded in Hok. unfold repeats_bounded, signatures in *. by rewrite He.
Qed.

Ltac frame_guards :=
  intros; repeat case_match;
  first [ done
        | by (eapply guarded_ok_frame; [..|eassumption])
        | by (eapply bounded_frame; [|eassumption]) ].

Lemma answer_or_nudge_spec i r p :
  spec (guarded_ok i) (answer_or_nudge i r p)
    (fun _ st => guarded_ok i st /\ is_nil (parsed_intents p) && is_nil (malformed p) = false)
    (bounded_exit i).
Proof.
  unfold answer_or_nudge. apply (spec_bind _ _ _ _ (fun _ => guarded_ok i)); [apply keeps_get|].
  intros st0. destruct (_ || _) eqn:Hb; cbn [when].
  - intros st Hst. unfold modify, break, continue, mbind, M_bind, bounded_exit.
    destruct (tools st0); [destruct (if nudged st0 then _ else _)|]; cbn;
      first [by (eapply bounded_frame; [|exact Hst])|by (eapply guarded_ok_frame; [..|exact Hst])].
  - apply orb_false_iff in Hb as [_ Hb]. by intros st Hst.
Qed.

Lemma guard_spec i c r : spec (guarded_ok i) (guard i c r) (guarded_next i) (bounded_exit i).
Proof.
  unfold guard.
  apply (spec_bind _ _ _ _ (fun _ => guarded_ok i)); [unfold account; keeps; frame_guards|intros []].
  apply (spec_bind _ _ _ _ (fun _ => guarded_ok i)); [unfold read_reply; keeps|intros p].
  apply (spec_bind _ _ _ _ (fun _ => guarded_ok i)); [unfold narrate; keeps; frame_guards|intros []].
  apply (spec_bind _ _ _ _ (fun _ => guarded_ok i)); [keeps; frame_guards|intros []].
  apply (spec_bind _ _ _ _ (fun _ => guarded_ok i));
    [unfold check_exhausted; keeps; frame_guards|intros []].
  apply (spec_bind _ _ _ _ (fun _ => guarded_ok i));
    [unfold check_same_tool; keeps; frame_guards|intros []].
  apply (spec_bind _ _ _ _ (fun _ => guarded_ok i));
    [unfold check_truncated; keeps; frame_guards|intros []].
  apply (spec_bind _ _ _ _ (fun _ => guarded_ok i));
    [unfold check_refused; keeps; frame_guards|intros []].
  eapply spec_bind; [apply answer_or_nudge_spec|intros []].
  eapply spec_bind; [apply repeat_guard_spec|intros []].
  apply (spec_bind _ _ _ _ (fun _ => guarded_next i p)); [|by intros [] st].
  intros st [Hs Hn]. split; [|done]. by eapply synced_frame; [..|exact Hs].
Qed.

(** What the log takes in is what was pending, and a report of temporary failures with it. *)
Lemma log_guarded i p ran rs st st' : guarded_next i p st -> is_nil (parsed_intents p) = false ->
  recentCalls st' = recentCalls st -> transientRetries st' = transientRetries st -> executed st' = executed st ->
  guarded_ran i p rs (log_calls p ran rs st').
Proof.
  intros [[H1 H2 H3 H4] _] Hi Hr Ht He. unfold guarded_ran, pending in *. rewrite Hi in *.
  assert (signatures (log_calls p ran rs st') = signatures st ++ [signature (parsed_intents p)]) as Es
    by (unfold signatures; cbn [executed log_calls set_tools]; by rewrite map_app, He).
  split; rewrite ?Es; cbn [recentCalls transientRetries executed log_calls set_tools]; rewrite ?Hr, ?Ht, ?He; try done.
  intros s. rewrite temporary_snoc. cbn [x_signature x_results]. specialize (H4 s). unfold owing, reported.
  destruct (all_temporary rs); cbn; repeat case_bool_decide; simplify_eq; cbn; lia.
Qed.

Lemma run_calls_guarded i e p :
  spec (guarded_next i p) (run_calls i e p) (fun o => guarded_ran i p o.1) (bounded_exit i).
Proof.
  intros st Hg. pose proof Hg as [Hs Hn]. unfold run_calls.
  assert (Hb : repeats_bounded i st).
  { apply synced_runs in Hs. intros a s k b Hl.
    assert (signatures st ++ pending p = a ++ repeat s k ++ (b ++ pending p)) as Hl'
      by (rewrite Hl; by rewrite <- !app_assoc).
    by specialize (Hs _ _ _ _ Hl'). }
  destruct (malformed p) as [|x l].
  - rewrite andb_true_r in Hn.
    unfold get_st, or_throw, modify, throw, mret, M_ret, mbind, M_bind.
    destruct (e_execute e _ _ _) as [o|]; [by eapply log_guarded|done].
  - unfold modify, mret, M_ret, mbind, M_bind. destruct (is_nil (parsed_intents p)) eqn:Hi; [|by eapply log_guarded].
    unfold guarded_ran, pending in *. by rewrite Hi, app_nil_r in Hs.
Qed.

Lemma settle_guarded i r p o :
  spec (guarded_ran i p o.1) (settle_calls i r p o) (fun _ => guarded_ok i) (bounded_exit i).
Proof.
  unfold settle_calls. apply (spec_bind _ _ _ _ (fun _ => guarded_ok i)); [|intros []].
  - intros st Hst. unfold note_transient, modify. cbn. unfold guarded_ran, guarded_ok in *. by eapply synced_frame; [..|exact Hst].
  - change (keeps (guarded_ok i) (bounded_exit i) (note_effects o.1;; note_taint o.1;; observe_or_repair i r o.1 o.2)).
    unfold note_effects, note_taint, observe_or_repair, push. keeps; frame_guards.
Qed.

Lemma step_body_guarded i e :
  spec (guarded_ok i) (step_body i e) (fun _ => guarded_ok i) (bounded_exit i).
Proof.
  apply (spec_bind _ _ _ _ (fun _ => guarded_ok i)); [apply prepare_keeps; frame_guards|intros c].
  apply (spec_bind _ _ _ _ (fun _ => guarded_ok i)); [unfold ask; keeps; frame_guards|intros cr].
  eapply spec_bind; [apply guard_spec|intros p].
  eapply spec_bind; [apply run_calls_guarded|intros o]. apply settle_guarded.
Qed.

(** C23. No turn runs the same calls with the same arguments over and over: whatever the model asks,
    among the steps whose calls were let through, at most [identicalCalls] less one in a row are
    identical, but for retries of a failure that was reported as temporary: these are at most two for
    one set of calls, and no more than the steps that made these very calls and whose results, each of
    them, said that the failure was temporary. *)
Theorem identical_calls_bounded (i : TurnInput) (env : nat -> StepEnv) :
  exists st, loop_state (turn_loop (turn_fuel i) i env (start_state i)) = Some st /\
    forall a s k b, signatures st = a ++ repeat s k ++ b ->
      (k <= (identicalCalls (ti_limits i) - 1) + TRANSIENT_RETRIES `min` temporary s (executed st))%nat.
Proof.
  apply (turn_ind (guarded_ok i) (fun le => exists st, loop_state le = Some st /\ repeats_bounded i st)).
  - split; [by destruct (identicalCalls (ti_limits i))| |by cbn; lia|done].
    intros a s k b H. symmetry in H. apply app_eq_nil in H as [_ H].
    apply app_eq_nil in H as [H _]. destruct k; [lia|done].
  - intros st Hst _. pose proof (step_body_guarded i (env (steps st)) st Hst) as H.
    unfold step_once. destruct (step_body _ _ _) as [[[] st']|[st'|st'|st']]; try done; by exists st'.
  - intros st Hst _. exists st. split; [done|]. by apply synced_bounded.
Qed.

(** ** How a turn may end *)

Definition fresh (st : TurnState) : Prop :=
  answered st = false /\ reason st = Final /\ error st = None.

(** A reason and the error that goes with it. *)
Definition paired (r : TurnEndReason) (e : option TurnError) (a : bool) : Prop :=
  match r, e with
  | Final, None => a = true
  | NoProgress, Some Looping | Truncated, Some ReplyTruncated
  | Error, Some EmptyReply | Error, Some ModelRefused | Error, Some RepairFailed
  | Error, Some Thrown => a = false
  | _, _ => False
  end.

Definition ended (st : TurnState) : Prop := paired (reason st) (error st) (answered st).

Definition ending_exit (fl : Flow) : Prop :=
  match fl with Continue st | Throw st => fresh st | Break st => ended st end.

(** A step nothing aborts: the flags are only ever set when the turn's signal is. *)
Definition unaborted (e : StepEnv) : Prop :=
  e_aborted e = false /\ forall ms r, e_reply e ms = Some r -> mr_aborted r = false.

Lemma fresh_frame st st' : answered st' = answered st -> reason st' = reason st ->
  error st' = error st -> fresh st -> fresh st'.
Proof. unfold fresh. by intros -> -> ->. Qed.

Lemma fresh_fails st r e : paired r (Some e) false -> fresh st ->
  ended (set_ending r (answered st) (Some e) st).
Proof. intros H (Ha & _). unfold ended. cbn. by rewrite Ha. Qed.

Ltac frame_fresh :=
  intros; repeat case_match;
  first [ done
        | by (eapply fresh_frame; [..|eassumption])
        | by (apply fresh_fails) ].

Lemma prepare_fresh i e : unaborted e -> keeps fresh ending_exit (prepare i e).
Proof.
  intros [Ha _]. unfold prepare. rewrite Ha. cbn [when].
  apply keeps_bind; [apply keeps_ret|intros []]. apply keeps_bind; [apply keeps_get|intros st].
  apply keeps_bind; [by apply assembleWith_keeps|intros c0]. by apply compact_keeps.
Qed.

Lemma ask_fresh i e c : unaborted e ->
  spec fresh (ask i e c) (fun cr st => fresh st /\ mr_aborted cr.2 = false) ending_exit.
Proof.
  intros [_ Hr] st Hst. unfold ask, modify, or_throw, throw, mret, M_ret, mbind, M_bind.
  destruct (e_context e c) as [c'|]; [|done].
  destruct (e_reply e _) as [r|] eqn:E; [|done]. split; [done|by eapply Hr].
Qed.

Lemma answer_fresh i r p : keeps fresh ending_exit (answer_or_nudge i r p).
Proof.
  unfold answer_or_nudge. apply keeps_bind; [apply keeps_get|]. intros st0. apply keeps_when.
  intros st (Ha & Hr & He). unfold modify, break, continue, mbind, M_bind.
  destruct (tools st0); [destruct (if nudged st0 then _ else _)|]; cbn; unfold ended, fresh; cbn;
    by rewrite ?Hr, ?He.
Qed.

Lemma guard_fresh i c r : mr_aborted r = false -> keeps fresh ending_exit (guard i c r).
Proof.
  intros Ha. unfold guard. rewrite Ha. cbn [when].
  unfold account, read_reply, narrate, check_exhausted, check_same_tool, check_truncated,
    check_refused, repeat_guard, record_call.
  repeat (apply keeps_bind; [first [apply answer_fresh|keeps; frame_fresh]|intros ?]).
  keeps.
Qed.

Lemma calls_fresh i e r p :
  keeps fresh ending_exit (o ← run_calls i e p; settle_calls i r p o).
Proof.
  unfold run_calls, settle_calls, note_transient, note_effects, note_taint, observe_or_repair.
  keeps; frame_fresh.
Qed.

Lemma step_body_fresh i e : unaborted e -> keeps fresh ending_exit (step_body i e).
Proof.
  intros He. apply keeps_bind; [by apply prepare_fresh|intros c].
  eapply spec_bind; [by apply ask_fresh|]. intros cr st [Hst Hr]. revert st Hst.
  apply (keeps_bind fresh ending_exit (guard i cr.1 cr.2)); [by apply guard_fresh|intros p].
  apply calls_fresh.
Qed.

(** How the loop is left when nothing aborts it. *)
Definition loop_ended (i : TurnInput) (le : LoopEnd) : Prop :=
  match le with
  | Left st => ended st \/ (fresh st /\ steps st = maxSteps (ti_limits i))
  | Thrown_out st => fresh st
  | OutOfFuel => False
  end.

Lemma loop_ended_all i env : (forall n, unaborted (env n)) ->
  loop_ended i (turn_loop (turn_fuel i) i env (start_state i)).
Proof.
  intros Hu.
  apply (turn_ind (fun st => fresh st /\ (steps st <= maxSteps (ti_limits i))%nat) (loop_ended i)).
  - split; [by repeat split|cbn; lia].
  - intros st [Hst _] Hlt. pose proof (step_body_fresh i (env (steps st)) (Hu _) st Hst) as H.
    pose proof (step_once_steps i (env (steps st)) st) as Hs. unfold step_once in *.
    destruct (step_body _ _ _) as [[[] st']|[st'|st'|st']]; cbn in *; try done;
      first [by left|by split; [|lia]].
  - intros st [Hst Hle] Hge. right. split; [done|lia].
Qed.

(** The ends a turn can have, with the error each carries. *)
Definition legal_end (i : TurnInput) (aborted : option AbortCause) (st : TurnState) : Prop :=
  match aborted, reason st, error st with
  | Some ByTimeout, Timeout, Some Aborted | Some ByCaller, Stopped, Some Aborted => True
  | None, Final, None => answered st = true
  | None, MaxSteps, None => answered st = false /\ steps st = maxSteps (ti_limits i)
  | None, NoProgress, Some Looping | None, Truncated, Some ReplyTruncated
  | None, Error, Some (EmptyReply | ModelRefused | RepairFailed | Thrown) => answered st = false
  | _, _, _ => False
  end.

Lemma ended_stays st : ended st -> bool_decide (reason st = Final) && negb (answered st) = false.
Proof.
  unfold ended, paired. destruct (reason st); try done. destruct (error st); [done|]. by intros ->.
Qed.

(** C36. A turn says how it ended, and says it truthfully: "final" only when the loop took an answer,
    "max_steps" only when every step was used and none answered, "no_progress", "truncated" and
    "error" only with the one error each of them carries and without an answer, and an aborted turn
    only "timeout" or "stopped". *)
Theorem turn_endings (i : TurnInput) (env : nat -> StepEnv) (aborted : option AbortCause)
  (Hu : aborted = None -> forall n, unaborted (env n)) :
  exists st, close i aborted (turn_loop (turn_fuel i) i env (start_state i)) = Some st /\
    legal_end i aborted st.
Proof.
  destruct (loop_ends i env) as (st & Hst & Hle).
  destruct aborted as [cause|].
  { destruct (turn_loop _ _ _ _); [| |done]; injection Hst as ->; (eexists; split; [done|]);
      by destruct cause. }
  pose proof (loop_ended_all i env (Hu eq_refl)) as H. unfold close.
  destruct (turn_loop _ _ _ _) as [s|s|]; [|destruct H as (Ha & _)|by destruct H];
    injection Hst as ->.
  - eexists. split; [done|]. destruct H as [H|[(Ha & Hr & He) Hm]].
    + rewrite (ended_stays _ H). cbn [andb]. unfold ended, paired in H. unfold legal_end.
      by destruct (reason st), (error st) as [[]|].
    + rewrite Ha, Hr, Hm, Nat.leb_refl. cbn. by rewrite He.
  - eexists. split; [done|]. unfold legal_end. cbn. exact Ha.
Qed.

(** ** Runs *)

Definition sample_reply (txt : string) (calls : list ToolCallRequest) : ModelReply :=
  {| mr_text := js txt; mr_calls := calls; mr_reasoning := []; mr_aborted := false;
     mr_finish := js "stop"; mr_promptTokens := 100; mr_reported := true; mr_outputTokens := 10 |}.

(** An environment that replies with the given replies in turn, runs every call well with results
    of the given trust, and swaps the tools where it is told to. *)
Definition sample_result (t : Trust) (x : ToolIntent) : ToolResult :=
  {| callId := i_callId x; slug := i_slug x; ok := true; gated := false; trust := t;
     output := js "done"; Trust.error := None; latencyMs := 1; bytes := 4; truncated := false |}.

Definition sample_env (t : Trust) (swap : option ToolRuntime -> option ToolRuntime)
  (replies : list ModelReply) (n : nat) : StepEnv :=
  {| e_aborted := false; e_persist := fun _ => true; e_context := Some;
     e_reply := fun _ => replies !! n;
     e_execute := fun xs _ _ => Some (map (sample_result t) xs, []);
     e_tools := swap; e_phase := fun p => p |}.

Definition sample_runtime : ToolRuntime :=
  {| tr_registry := [tool_of (spec_of "note_read" false Trusted); tool_of (spec_of "note_write" true Trusted)];
     tr_blocks := []; tr_wireTokens := 50 |}.

Definition sample_turn : TurnInput :=
  {| ti_prompt := sample_input; ti_history := [plain_message RUser (js "hello"); plain_message RAssistant (js "Hi.")];
     ti_tools := Some sample_runtime; ti_dialect := nativeDialect;
     ti_limits := {| maxSteps := 4; identicalCalls := 3; sameTool := None |};
     ti_compaction := None; ti_inputTrust := Trusted; ti_taintedBy := None; ti_sender := None;
     ti_phase := js "default" |}.

Definition reads_then_answers : list ModelReply :=
  [sample_reply "" [call_request "a" "note_read" "{}"]; sample_reply "It says nine." []].

Lemma turn_endings_witness :
  exists st, close sample_turn None (turn_loop (turn_fuel sample_turn) sample_turn
      (sample_env Trusted (fun t => t) reads_then_answers) (start_state sample_turn)) = Some st /\
    legal_end sample_turn None st.
Proof.
  apply (turn_endings sample_turn (sample_env Trusted (fun t => t) reads_then_answers) None).
  intros _ n. split; [done|]. intros ms r H. cbn in H.
  destruct n as [|[|n]]; cbn in H; [injection H as <-; done|injection H as <-; done|done].
Defined.

Example sample_run :
  let r := runTurn sample_turn (sample_env Untrusted (fun t => t) reads_then_answers) None NoMiddleware in
  (t_reason <$> r, t_finalText <$> r, t_steps <$> r, t_tainted <$> r, (map role ∘ appended) <$> r) =
  (Some Final, Some (js "It says nine."), Some 2%nat, Some true,
   Some [RUser; RAssistant; RTool; RAssistant]).
Proof. by vm_compute. Qed.
