(* ===== verification/NativeTurn.v ===== *)
(** * A native turn's record: the loop of [Turn.v] under the dialect of [Native.v]

    What a turn appends to the conversation is replayed to the endpoint by the next turn, and an
    endpoint refuses a call message whose calls were not all answered. *)
From S2P Require Import Prelude UString Json Kinds Trust Tools Messages Dialect Native Assemble Ladder Turn.
Local Open Scope Z_scope.

Section Protocol.
Context (i : TurnInput) (Hd : ti_dialect i = nativeDialect).

(** The executor answers the calls it was given, in order, or asks for a repair; what is offered
    afterwards is not empty. *)
Definition honest (e : StepEnv) : Prop :=
  (forall xs u s rs, e_execute e xs u s = Some (rs, []) -> map callId rs = map i_callId xs) /\
  (forall t, no_tools t = false -> no_tools (e_tools e t) = false).

Definition clean (st : TurnState) : Prop := protocol (trace st) = true /\ no_tools (tools st) = false.

Definition clean_exit (fl : Flow) : Prop :=
  match fl with
  | Continue st => clean st
  | Break st => clean st \/ error st = Some RepairFailed
  | Throw st => True
  end.

(** The trace ends in a call message that waits for its answers. *)
Definition waiting (r : ModelReply) (st : TurnState) : Prop :=
  no_tools (tools st) = false /\
  exists tr, trace st = tr ++ [with_origin OCall (render_native_call (output_of r))] /\
    protocol tr = true.

Lemma clean_frame st st' : trace st' = trace st -> tools st' = tools st -> clean st -> clean st'.
Proof. unfold clean. by intros -> ->. Qed.
Lemma waiting_frame r st st' : trace st' = trace st -> no_tools (tools st') = no_tools (tools st) ->
  waiting r st -> waiting r st'.
Proof. unfold waiting. by intros -> ->. Qed.

Ltac frame_clean :=
  intros; repeat case_match;
  first [ done | left; by (eapply clean_frame; [..|eassumption]) | by (eapply clean_frame; [..|eassumption])
        | by (eapply waiting_frame; [..|eassumption]) ].

Lemma waiting_answered r ms st : waiting r st ->
  protocol (render_native_call (output_of r) :: ms) = true ->
  protocol (trace st ++ ms) = true.
Proof.
  intros (_ & tr & -> & Htr) Hp. rewrite <- app_assoc. by apply protocol_app.
Qed.

Lemma nudge_clean r p st : clean st -> parsed_intents p = [] -> malformed p = [] ->
  p = parseNative (output_of r) -> forall k, protocol (trace st ++ nudge_messages i r p k) = true.
Proof.
  intros [Ht _] Hi Hm -> k. apply protocol_app; [done|].
  pose proof (parse_silent _ Hi Hm) as Hc. cbn in Hc. unfold nudge_messages. rewrite Hd.
  destruct (parsed_text _); [done|]. cbn -[parseNative]. unfold protocol. cbn.
  by rewrite Hc.
Qed.

Lemma answer_clean r p : p = parseNative (output_of r) -> keeps clean clean_exit (answer_or_nudge i r p).
Proof.
  intros Hp. unfold answer_or_nudge. apply keeps_bind; [apply keeps_get|]. intros st0.
  unfold when. destruct (match tools st0 with None => true | _ => _ end || _) eqn:Eq; [|apply keeps_ret].
  intros st Hst. unfold modify, break, continue, mbind, M_bind.
  destruct (tools st0) as [t|]; [|by left].
  cbn in Eq. apply andb_true_iff in Eq as [Hi Hm].
  destruct (if nudged st0 then _ else _) as [k|]; [|by left].
  split; [|by destruct Hst]. cbn.
  apply (nudge_clean r p st Hst); [by destruct (parsed_intents p)|by destruct (malformed p)|done].
Qed.

Lemma guard_waits c r :
  spec clean (guard i c r) (fun p st => p = parseNative (output_of r) /\ waiting r st) clean_exit.
Proof.
  unfold guard. apply (spec_bind _ _ _ _ (fun _ => clean)); [unfold account; keeps; frame_clean|intros []].
  apply (spec_bind _ _ _ _ (fun p st => p = parseNative (output_of r) /\ clean st)).
  { intros st Hst. unfold read_reply, get_st, mret, M_ret, mbind, M_bind.
    destruct Hst as [? Hn]. rewrite Hn, Hd. done. }
  intros p. assert (forall R, (p = parseNative (output_of r) -> spec clean
    (narrate p;; when (mr_aborted r) break;; check_exhausted r p;; check_same_tool i p;;
     check_truncated r p;; check_refused r;; answer_or_nudge i r p;; repeat_guard i p;;
     record_call i r;; mret p) R clean_exit) -> spec (fun st => p = parseNative (output_of r) /\ clean st)
    (narrate p;; when (mr_aborted r) break;; check_exhausted r p;; check_same_tool i p;;
     check_truncated r p;; check_refused r;; answer_or_nudge i r p;; repeat_guard i p;;
     record_call i r;; mret p) R clean_exit) as Hlift.
  { intros R H st [Hp Hst]. by apply H. }
  apply Hlift. clear Hlift. intros Hp.
  unfold narrate, check_exhausted, check_same_tool, check_truncated, check_refused, repeat_guard.
  do 6 (apply (spec_bind _ _ _ _ (fun _ => clean)); [keeps; frame_clean|intros []]).
  apply (spec_bind _ _ _ _ (fun _ => clean)); [by apply answer_clean|intros []].
  apply (spec_bind _ _ _ _ (fun _ => clean)); [keeps; frame_clean|intros []].
  apply (spec_bind _ _ _ _ (fun _ => waiting r)); [|by intros [] st Hst].
  intros st [Ht Hn]. unfold record_call, modify. split; [done|]. exists (trace st). split; [|done].
  cbn. by rewrite Hd.
Qed.

Lemma run_calls_waits e r p : honest e -> p = parseNative (output_of r) ->
  spec (waiting r) (run_calls i e p)
    (fun o st => waiting r st /\
       (o.2 = [] -> malformed p = [] /\ map callId o.1 = map c_id (so_calls (output_of r)))) clean_exit.
Proof.
  intros [Hx Ht] -> st Hst. unfold run_calls. destruct (malformed (parseNative _)) as [|m ms] eqn:Em.
  - unfold get_st, or_throw, mbind, M_bind, modify, mret, M_ret.
    destruct (e_execute e _ _ _) as [[rs rep]|] eqn:Ex; [|done]. split.
    + destruct Hst as (Hn & tr & Htr & Hp). split; [by apply Ht|by exists tr].
    + cbn [fst snd]. intros ->. split; [done|]. by rewrite (Hx _ _ _ _ Ex), parse_ids.
  - unfold modify, mret, M_ret, mbind, M_bind. split; [|done]. destruct (is_nil _); [done|].
    destruct Hst as (Hn & tr & Htr & Hp). split; [done|by exists tr].
Qed.

Lemma settle_clean r p o :
  (o.2 = [] -> map callId o.1 = map c_id (so_calls (output_of r))) ->
  spec (waiting r) (settle_calls i r p o) (fun _ => clean) clean_exit.
Proof.
  intros Ho. unfold settle_calls, note_transient, note_effects, note_taint.
  do 3 (apply (spec_bind _ _ _ _ (fun _ => waiting r)); [keeps; frame_clean|intros []]).
  intros st Hst. unfold observe_or_repair, get_st, mbind, M_bind.
  destruct o.2 as [|e es] eqn:Eo; unfold when, fail_turn, modify, continue, break, mret, M_ret, mbind, M_bind.
  - split; [|by destruct Hst]. cbn. rewrite Hd. cbn [nativeDialect renderObservation].
    apply (waiting_answered r); [done|]. unfold protocol. cbn [answers]. rewrite answers_origin.
    pose proof (observation_protocol (output_of r) o.1 [] (Ho eq_refl)) as H.
    rewrite app_nil_r in H. exact H.
  - destruct (0 <? repairs st)%nat; [by right|]. split; [|by destruct Hst]. cbn. rewrite Hd.
    cbn [nativeDialect renderRepair]. apply (waiting_answered r); [done|]. unfold protocol.
    cbn [answers]. rewrite answers_origin.
    pose proof (repair_protocol (output_of r) (e :: es) []) as H. rewrite app_nil_r in H. exact H.
Qed.

Lemma step_body_clean e : honest e -> spec clean (step_body i e) (fun _ => clean) clean_exit.
Proof.
  intros He. unfold step_body. apply (spec_bind _ _ _ _ (fun _ => clean)).
  { unfold prepare. apply keeps_bind; [keeps; frame_clean|intros []].
    apply keeps_bind; [apply keeps_get|intros st]. apply keeps_bind; [by apply assembleWith_keeps|intros c0].
    apply compact_keeps; frame_clean. }
  intros c. apply (spec_bind _ _ _ _ (fun _ => clean)); [unfold ask; keeps; frame_clean|intros cr].
  eapply spec_bind; [apply guard_waits|]. intros p st [Hp Hst]. revert st Hst.
  change (spec (waiting cr.2) (o ← run_calls i e p; settle_calls i cr.2 p o) (fun _ => clean) clean_exit).
  eapply spec_bind; [by apply run_calls_waits|]. intros o st [Hst Ho].
  apply settle_clean; [|done]. intros E. by destruct (Ho E).
Qed.
End Protocol.

(** ** The whole turn *)

(** The loop was left by an exception, or by the failure of a second repair. *)
Definition broke (le : LoopEnd) : Prop :=
  match le with
  | Left st => error st = Some RepairFailed
  | Thrown_out _ => True
  | OutOfFuel => False
  end.

Definition loop_clean (le : LoopEnd) : Prop :=
  match le with Left st => clean st \/ error st = Some RepairFailed | _ => True end.

Lemma loop_is_clean i env : ti_dialect i = nativeDialect -> no_tools (ti_tools i) = false ->
  (forall n, honest (env n)) -> loop_clean (turn_loop (turn_fuel i) i env (start_state i)).
Proof.
  intros Hd Ht He. apply (turn_ind clean loop_clean).
  - by split.
  - intros st Hst _. pose proof (step_body_clean i Hd (env (steps st)) (He _) st Hst) as H.
    unfold step_once. by destruct (step_body _ _ _) as [[[] st']|[st'|st'|st']].
  - intros st Hst _. by left.
Qed.

Lemma final_trace_clean st : protocol (trace st) = true -> protocol (final_trace st) = true.
Proof. intros H. unfold final_trace. destruct (pendingProse st); [done|]. by apply protocol_app. Qed.

Lemma appended_clean st : protocol (trace st) = true -> protocol (appended (result_of st)) = true.
Proof. intros H. cbn. destruct (_ || _); [by apply final_trace_clean|done]. Qed.

Lemma replayable_or_kept (h : list ChatMessage) (P : Prop) : P ->
  protocol h = true \/ (P /\ h <> []).
Proof. destruct h; [by left|by right]. Qed.

(** C6. What a native turn leaves in the conversation can be replayed: however it ended, stopped and
    timed out included, every call message it appends is followed at once by one answer to each of
    its calls. The exceptions are a second failed repair and an exception out of the loop, and then
    only when something is appended at all. *)
Theorem native_turn_replayable (i : TurnInput) (env : nat -> StepEnv) (aborted : option AbortCause)
  (Hd : ti_dialect i = nativeDialect) (Ht : no_tools (ti_tools i) = false)
  (He : forall n, honest (env n)) :
  exists r, runTurnCore i env aborted = Some r /\
    (protocol (appended r) = true \/
     (broke (turn_loop (turn_fuel i) i env (start_state i)) /\ appended r <> [])).
Proof.
  unfold runTurnCore. pose proof (loop_is_clean i env Hd Ht He) as Hc.
  destruct (loop_ends i env) as (st & Hst & _).
  destruct (turn_loop _ _ _ _) as [s|s|]; [| |done]; injection Hst as ->.
  - cbn [close fmap option_fmap option_map]. eexists. split; [done|].
    destruct Hc as [[Hp _]|Hr].
    + left. apply appended_clean. by destruct aborted as [cause|]; [|destruct (_ && _)].
    + by apply replayable_or_kept.
  - eexists. split; [done|].
    by apply replayable_or_kept.
Qed.

(** ** Runs *)

Lemma sample_honest t replies n : honest (sample_env t (fun tl => tl) replies n).
Proof.
  split; [|done]. intros xs u s rs H. cbn in H. injection H as <-. by rewrite map_map.
Qed.

Lemma native_turn_replayable_witness :
  exists r, runTurnCore sample_turn (sample_env Trusted (fun t => t) reads_then_answers) (Some ByCaller) = Some r /\
    (protocol (appended r) = true \/
     (broke (turn_loop (turn_fuel sample_turn) sample_turn (sample_env Trusted (fun t => t) reads_then_answers)
        (start_state sample_turn)) /\ appended r <> [])).
Proof.
  apply (native_turn_replayable sample_turn (sample_env Trusted (fun t => t) reads_then_answers) (Some ByCaller)
    eq_refl eq_refl).
  intros n. apply sample_honest.
Defined.

(** A write, then two replies that cannot be read. *)
Definition writes_then_garbles : list ModelReply :=
  [sample_reply "" [call_request "a" "note_write" "{}"];
   sample_reply "" [call_request "b" "note_write" "{"];
   sample_reply "" [call_request "c" "note_write" "{"]].

(** The turn acted, so it keeps its trace; its last call message is left without an answer, and
    every later prompt replays it. *)
Lemma failed_repair_unanswered :
  let r := runTurnCore sample_turn (sample_env Trusted (fun t => t) writes_then_garbles) None in
  (t_error <$> r, (protocol ∘ appended) <$> r, (map role ∘ appended) <$> r) =
  (Some (Some RepairFailed), Some false,
   Some [RUser; RAssistant; RTool; RAssistant; RTool; RUser; RAssistant]).
Proof. by vm_compute. Qed.

(** The tools of another phase, without the one that writes. *)
Definition reading_phase (tl : option ToolRuntime) : option ToolRuntime :=
  Some {| tr_registry := [tool_of (spec_of "note_read" false Trusted)]; tr_blocks := []; tr_wireTokens := 50 |}.

(** A step that writes and moves to a phase without the tool it wrote with: looking the tool up
    again throws, and the turn fails with nothing appended, as if it had not acted. *)
Lemma write_forgotten_on_phase_change :
  let r := runTurnCore sample_turn (sample_env Trusted reading_phase writes_then_garbles) None in
  (t_error <$> r, appended <$> r) = (Some (Some Thrown), Some []).
Proof. by vm_compute. Qed.

(** Once compaction has left fewer messages than the turn began with, the turn's own trace is no
    longer counted as its own: nothing of it is protected. *)
Lemma shrunk_history_unprotected (i : TurnInput) tl (h tr : list ChatMessage) :
  (length h + length tr <= length (ti_history i))%nat ->
  ai_protectedTail (assemble_input i tl (length (ti_history i)) (h ++ tr)) = Some 0.
Proof. intros H. cbn. rewrite length_app. f_equal. lia. Qed.

(** No turn passes the slot for the last turn's error. *)
Lemma error_slot_unused (i : TurnInput) tl n h : lastError (assemble_input i tl n h) = None.
Proof. done. Qed.
